(* ===== verification/_CoqProject ===== *)
-Q . S2P
Prelude.v
Effects.v
StrLib.v
Chars.v
Types.v
Events.v
TaskLifecycle.v
DependencyGraph.v
TaskBoard.v
Keys.v
Kv.v
Queue.v
Ports.v
MemEvents.v
RunPort.v
RunStore.v
RetryPolicy.v
WorkerPool.v
Scoring.v
ReviewPanel.v
Consolidation.v
Coordinator.v
Chunking.v
Keyspace.v
Views.v
MemStore.v
Recovery.v
EventLog.v
LogState.v
LogSteps.v
LogRuns.v
FjallPort.v
Queries.v
Reconciler.v
Reconciliation.v
Orchestrator.v
OrchestratorProofs.v
Feedback.v
FeedbackLoop.v
FeedbackOutcome.v
EventMonitor.v
StuckDetection.v
Budget.v
Supervisor.v
SupervisorProofs.v
SupervisorRuns.v
RuntimeTypes.v
PolicyGate.v
Terminal.v
ProofStore.v
Detect.v
Workflow.v
Files.v
Daemon.v
DaemonProofs.v
DaemonApprovals.v
DaemonRuns.v
DaemonInbox.v
Sidecar.v
DaemonStatus.v
ConfigLayers.v
Stored.v
Wire.v
ShellCommand.v
Wildcard.v
Permissions.v
NativeTools.v
CodingTools.v
Messages.v
ToolDispatch.v
AgentLoop.v
Streaming.v
Recording.v
RecordingProofs.v
Integration.v
TaskFiles.v
DependencyPass.v
