(* ===== verification/Prelude.v ===== *)
(** * Verification of the coordination core of Brehon

    Brehon coordinates coding agents: tasks with dependencies are dispatched to
    worker sessions, every attempt of a task is a durable run under a lease, all
    that happens is appended to an event log, and finished work is reviewed by
    panels before it is merged.  A supervisor watches the log and the budget, and
    a daemon guards the commands that reach the panes of the agents.  An agent of
    its own, the native agent, calls models and runs their tools under a
    permission policy; approved commits are integrated into a branch; terminals
    are recorded.  This
    library models the part of the program that decides and stores these things,
    from the sources under src/crates/, and proves what the rest of the program
    relies on.

    ** Parts, files and sources

    - Prelude, Effects, StrLib, Chars: results, state passing ([SM], [let!],
      [sm_post]), machine integers, iteration orders of hash containers, relations
      between the states before and after an operation, strings, numerals and
      Unicode text.
    - Types, Events: the shared data (brehon-types: task.rs, run.rs, agent.rs,
      review.rs, event.rs, event_index.rs, config.rs).
    - TaskLifecycle, DependencyGraph, TaskBoard, WorkerPool, RetryPolicy: the
      pure components of brehon-orchestrator (task_lifecycle.rs,
      dependency_graph.rs, task_board.rs, worker_pool.rs and assignment.rs,
      retry.rs and continuation.rs).
    - Reconciler, Reconciliation: the planner (reconciler.rs) and the
      application of its plans to the run store (orchestrator_reconciliation.rs).
    - Orchestrator, OrchestratorProofs: the state and the handlers of
      orchestrator.rs, orchestrator_reconciliation.rs and
      orchestrator_continuation.rs, composed as in [tick] and [run], and their
      properties.
    - Feedback, FeedbackLoop, FeedbackOutcome: triggers, briefs and outcomes of
      the feedback loop (brehon-supervisor: feedback modules).
    - EventMonitor, StuckDetection, Budget, Supervisor: the event monitor with its
      nudges, stuck agents, the token budget, and the handlers of supervisor.rs
      with heartbeat.rs, autonomy.rs and escalation.rs, composed as in [tick] and
      [run].  SupervisorProofs and SupervisorRuns are their properties.
    - RuntimeTypes, PolicyGate: runtime events and commands (brehon-types:
      runtime.rs) and the policy gate (brehon-policy).
    - Terminal, Detect, Workflow: terminal text, the pattern detector
      (brehon-detect) and the workflow engine (brehon-workflow).
    - Files, Daemon: file operations, and the daemon's registry of panes, routing
      of commands, approvals and audit log (brehon-daemon); DaemonProofs and
      DaemonApprovals are their properties and DaemonRuns a run of it.
    - DaemonInbox, Sidecar, DaemonStatus: the audit log read back, the command
      inbox, the two loops that read the bus (brehon-runtime) and feed it, and the
      reports of the daemon.
    - Ports, RunPort, MemEvents: the traits of brehon-ports.  RunPort states what
      every run store must behave as (an abstract map of records) and what
      follows from that for every client; MemEvents is an event store in memory.
    - Keys, Kv, Queue, RunStore: key schema, one partition with its batches,
      the work queue and the run store of brehon-store-fjall (keys.rs,
      queue.rs, run_store.rs).
    - Keyspace, Views, MemStore, Recovery, EventLog, Queries: the whole
      keyspace, the materialized views, recovery, the event store and the
      queries of brehon-store-fjall (store.rs, views.rs, recovery.rs,
      migrations.rs, queries.rs).  LogState, LogSteps and LogRuns are the invariant
      of the keyspace, its preservation by every call, and the theorems over
      histories with storage faults, crashes and restarts.
    - FjallPort, Stored: the event store behind the event port (impl EventStore in
      store.rs), with the laws of the port, and clients over it.
    - ProofStore: proof bundles, their summaries and their store (proof.rs of
      brehon-types, proof_store.rs of brehon-store-fjall).
    - Scoring, ReviewPanel, Consolidation, Coordinator, Chunking: brehon-review
      (scoring.rs, panel.rs, stale.rs, consolidation.rs, queue.rs, lifecycle.rs,
      coordinator.rs, calibration.rs, chunking.rs).
    - ConfigLayers: the layers of the configuration and the substitution of
      environment variables (lib.rs of brehon-config).
    - Wire: framing and compression of protocol messages (brehon-protocol).
    - ShellCommand, Wildcard, Permissions: the analysis of shell commands, the
      patterns and the policy (permissions.rs of brehon-native-agent).
    - NativeTools, ToolDispatch: the gate in front of the tools and the dispatch
      of the calls of a round (tools.rs, agent_runtime/executor.rs, dispatch.rs);
      CodingTools: the file tools (direct_tools.rs of brehon-adapter-sdk).
    - Messages, AgentLoop, Streaming: the history, the turn loop with its
      detectors, and the streaming provider (agent_runtime, provider.rs).
    - Recording, RecordingProofs: the file format of terminal recordings, its
      writer and its reader (brehon-recording).
    - Integration: the integration of reviewed commits (brehon-mcp:
      integration_state.rs and action_integrate.rs).
    - TaskFiles, DependencyPass: the task files of the server, their statuses and
      hierarchy, and the pass that brings them in line with their dependencies
      (brehon-mcp: dependencies.rs, lifecycle.rs, persistence.rs, followups.rs).

    ** How they interact

    The orchestrator owns the board, the graph and the pool (shared with the
    assignment engine) and reaches agents, runs and the log through ports.  The
    ports are classes of operations; what clients may rely on is a class of laws
    ([RunStoreLaws], [EventStoreLaws], [EventStreamLaws]).  Theorems about
    clients are proved from the laws; RunStore.v proves the laws of the run
    store, and FjallPort.v those of the event store, for the implementations over
    fjall.

    The supervisor reads the log through the event port in batches and writes its
    nudges and feedback there; agents and the decision engine are behind ports.
    The daemon publishes every event to its registry, its log and its bus; a
    command goes through the registry's generations and the gate ([PolicyGate])
    to the command port ([RuntimeCommandPort]).  Detector and workflow engine
    read the bus; the workflow engine's commands are routed like any other.

    In the native agent [run_turn] alternates between the provider ([Streaming])
    and the dispatch of tool calls ([ToolDispatch]); every call passes the gate of
    NativeTools, which asks the policy of Permissions and, through it, the
    analysis of ShellCommand and the patterns of Wildcard; file tools are those of
    CodingTools.  The history the provider sees goes through Messages.
    Integration drives git through a class of operations over the repository's
    state.  The actions of the server end with the pass of DependencyPass, which
    reads and writes the files of TaskFiles while other sessions may write them
    too.

    ** What the theorems show

    - Event store (LogRuns, Queries): from an empty keyspace, over any calls,
      faults, crashes and restarts, the log is append-only and gapless, appends
      happen completely or not at all and at most once per idempotency key,
      streams, retention and queries return or move exactly the right events; the
      store keeps the contract of the event port (FjallPort).
    - Runs (RunPort, RunStore): the stored run store refines the abstract one;
      claims are fenced by generations, leases are exclusive, one run per lane
      is active, terminal runs are final.
    - Supervisor and feedback: the budget is counted exactly and enforced at the
      end of a tick; hydration reads the whole log and ends; briefs keep their
      budget; a feedback turn records before it acts; and, about the code as it
      is, that a nudge hides unread events and a drain may wait for ever.
    - Daemon (DaemonProofs, DaemonApprovals, DaemonInbox, Sidecar): only allowed
      commands are executed, one per call; approvals survive faults and restarts
      and are spent once; requests with a result are not executed again; the audit
      log reads back; the loops on the bus come to rest and, in a dry run, act on
      nothing; the gate and the detector are characterised exactly; and, about the
      code as it is, that a refused command takes its pane over.
    - Proof bundles (ProofStore): the stored projection holds exactly the evidence
      of the events that took effect, and a rebuild agrees with it.
    - Configuration (ConfigLayers): what every path of the merged configuration
      holds, and that no layer empties the required structure.
    - Queue: exclusive claims, no row lost but by acknowledgement, order.
    - Orchestrator: well-formed state in every reachable state; what a dispatch
      does to every task and worker; what reconciliation plans and that applying
      the plan settles every claim; retention never outruns processing; pruning
      does not change readiness; and, as theorems about the code as it is, that
      blocked tasks stay blocked and that the death of an agent reopens all its
      tasks.
    - Graph, board, lifecycle, policies: cycles are refused exactly, orders are
      topological, replays are incremental, merged tasks were reviewed, retries
      are bounded.
    - Native agent: a pattern matches what it means; the policy decides by the
      rules of each component of a command; the gate lets a call pass under exact
      conditions, critical commands never run, grants are answers of the user;
      file tools stay in the worktree; a turn ends whatever the model answers, and
      the model sees every tool call paired with its results; the turn read from a
      stream does not depend on the chunks it comes in.
    - Recordings: what was written is read back, and the reader of any bytes at
      all neither panics nor runs on.
    - Integration: a call ends in a terminal action; a task is closed only when
      its reviewed commits are on the branch.
    - Task files: an ordinary task is finished only by way of a review; walks over
      the hierarchy end; a pass settles every task, and a second one finds nothing
      to do; and, about the code as it is, that a pass reopens a task that another
      session closes while it waits.
    - Review: exact scoring (in double precision), approvals are earned, what a
      check does to every review, consolidation loses nothing, chunks of a diff
      lose nothing and keep their limit.

    ** Conventions, parameters and bounds

    Errors are values of [Result]; panics that the source can reach are values
    too.  Integers are [Z] with the wrap-around or saturation of their width
    written out; times ([DateTime]) are nanoseconds in [Z], unbounded, and
    durations likewise.  Code that is not in the repository is a parameter:
    [KvStore] and [Keyspace] (the crate fjall: get, insert, remove, atomic
    batches, prefix scans, which may fail), [Json] (serde: encode, decode, with
    the round trip as law), [TextOps] and [Fmt] (Unicode text functions and the
    printing of times), [Files] (tokio::fs, whose writes may fail half-way), the
    decision engine, policy gates and command ports other than the program's, the
    agent gateway and git.  Hash containers iterate in
    an order given by [IterOrder], of which only completeness is known.  Clocks
    and generated ids are functions of the number of reads.

    Fuel: the depth-first search of the graph runs with the size of its universe
    plus one and Kahn's loop with the number of nodes plus one;
    DependencyGraph.v proves that both suffice.  Reading the log in
    batches ([hydrate_loop]) runs with one step per event and one more, which
    SupervisorRuns.v proves enough.  All other recursions are structural; the
    turns of the sidecar are a step relation that is proved well founded.
    [run_loop] recurses on the readings of the shutdown flag.  The turn loop of
    the native agent runs with a number of rounds that AgentLoop.v computes from
    the ceiling of the configuration and proves enough; cutting a stream into
    events and a text into pieces runs with the length of the text; the iterator
    of a recording with the length of the file plus two, as every step but the
    last consumes a byte.  The five rounds of [integrate] are the source's own
    bound, which is proved never to be hit.  The walks over the hierarchy of tasks
    have no bound in the source: TaskFiles.v proves that three levels, or one step
    per descendant, are enough when the hierarchy is well formed.

    ** Not modelled

    The user interface, terminals and processes (brehon-tui, brehon-mux,
    brehon-pty, ghostty_vt), the command line, the protocol adapters to the agent
    vendors, the typed configuration and its validation, git itself,
    notifications, archives of recordings and the sessions of the native agent:
    they are input and output around the core, or calls of external programs.
    What these crates decide is spread over code that draws, spawns or talks to a
    process, and would be a model of the operating system first.  The remaining
    actions of the server (brehon-mcp) parse requests, run git and format reports
    around the operations modelled here; its archive of tasks, its store of
    reviews and its lock files are left out.

    Log lines, durations and caught panics are left out everywhere, and so are the
    background tasks that repeat an operation of the daemon; the daemon's
    operations run one after the other.  Within the modelled crates, the owner
    lock (a file lock of the operating system), the statistics over calibration
    data and run_command (a process) are left out.  Code that serde derives is
    covered by the laws of [Json] and [Codec] only. *)

From stdpp Require Export base decidable gmap sets strings list pretty sorting.
From Stdlib Require Export ZArith Lia.

#[export] Set Default Goal Selector "!".

(** ** Results: Rust's [Result<T, E>] *)

Inductive Result (A E : Type) : Type :=
| Ok (a : A)
| Err (e : E).
Arguments Ok {_ _} _.
Arguments Err {_ _} _.

(** The notations of the development live in a scope of their own. *)
Declare Scope brehon_scope.
Delimit Scope brehon_scope with brehon.
#[global] Open Scope brehon_scope.

Definition result_bind {A B E} (c : Result A E) (k : A -> Result B E) : Result B E :=
  match c with Ok a => k a | Err e => Err e end.

Definition result_map_err {A E F} (f : E -> F) (c : Result A E) : Result A F :=
  match c with Ok a => Ok a | Err e => Err (f e) end.

Definition is_ok {A E} (c : Result A E) : bool :=
  match c with Ok _ => true | Err _ => false end.

(** A panic of the program, with its message. *)
Inductive Panic := mkPanic (message : string).

(** [Result::unwrap] *)
Definition unwrap {A} (r : Result A string) : Result A Panic := result_map_err mkPanic r.

(** [let? x := c in k] is Rust's [let x = c?; k]. *)
Notation "'let?' x := c 'in' k" :=
  (result_bind c (fun x => k))
  (at level 10, x pattern, c at level 200, k at level 200) : brehon_scope.

(** A loop that computes a result for each element, until the first error:
    [iter.map(f).collect::<Result<Vec<_>, _>>()]. *)
Fixpoint result_mapM {A B E} (f : A -> Result B E) (l : list A) : Result (list B) E :=
  match l with
  | [] => Ok []
  | x :: l => let? y := f x in let? ys := result_mapM f l in Ok (y :: ys)
  end.

(** ** Effects: state passing with errors

    An operation on a state [S] that may fail; the state it leaves is returned
    on both outcomes. *)
Definition SM (S E A : Type) : Type := S -> S * Result A E.

Definition sm_ret {S E A} (a : A) : SM S E A := fun s => (s, Ok a).
Definition sm_lift {S E A} (r : Result A E) : SM S E A := fun s => (s, r).
Definition sm_bind {S E A B} (c : SM S E A) (k : A -> SM S E B) : SM S E B := fun s =>
  match c s with
  | (s', Ok a) => k a s'
  | (s', Err e) => (s', Err e)
  end.

(** [let! x := c in k] is [let x = c?; k] where [c] acts on the state. *)
Notation "'let!' x := c 'in' k" :=
  (sm_bind c (fun x => k))
  (at level 10, x pattern, c at level 200, k at level 200) : brehon_scope.

(** [match c { Ok(a) => k(a), Err(e) => h(e) }] *)
Definition sm_catch {S E F A B} (c : SM S E A) (k : A -> SM S F B) (h : E -> SM S F B) : SM S F B := fun s =>
  match c s with
  | (s', Ok a) => k a s'
  | (s', Err e) => h e s'
  end.

(** [c.map_err(f)] *)
Definition sm_map_err {S E F A} (f : E -> F) (c : SM S E A) : SM S F A := fun s =>
  let '(s', r) := c s in (s', result_map_err f r).

(** [sm_post op s Q]: run from [s], the operation ends in a state and a result
    that satisfy [Q].  Postconditions compose along [let!]. *)
Definition sm_post {S E A} (op : SM S E A) (s : S) (Q : S -> Result A E -> Prop) : Prop :=
  Q (op s).1 (op s).2.

Lemma sm_post_mono {S E A} (op : SM S E A) s (P Q : S -> Result A E -> Prop) :
  sm_post op s P -> (forall s' r, P s' r -> Q s' r) -> sm_post op s Q.
Proof. unfold sm_post. auto. Qed.

Lemma sm_post_and {S E A} (op : SM S E A) s (P Q : S -> Result A E -> Prop) :
  sm_post op s P -> sm_post op s Q -> sm_post op s (fun s' r => P s' r /\ Q s' r).
Proof. unfold sm_post. auto. Qed.

Lemma sm_post_ret {S E A} (a : A) (s : S) (Q : S -> Result A E -> Prop) :
  Q s (Ok a) -> sm_post (sm_ret a) s Q.
Proof. done. Qed.

Lemma sm_post_lift {S E A} (r : Result A E) (s : S) (Q : S -> Result A E -> Prop) :
  Q s r -> sm_post (sm_lift r) s Q.
Proof. done. Qed.

Lemma sm_post_bind {S E A B} (c : SM S E A) (k : A -> SM S E B) s (Q : S -> Result B E -> Prop) :
  sm_post c s (fun s' r => match r with Ok a => sm_post (k a) s' Q | Err e => Q s' (Err e) end) ->
  sm_post (sm_bind c k) s Q.
Proof. unfold sm_post, sm_bind. by destruct (c s) as [s' [a|e]]. Qed.

Lemma sm_post_catch {S E F A B} (c : SM S E A) (k : A -> SM S F B) (h : E -> SM S F B) s Q :
  sm_post c s (fun s' r => match r with Ok a => sm_post (k a) s' Q | Err e => sm_post (h e) s' Q end) ->
  sm_post (sm_catch c k h) s Q.
Proof. unfold sm_post, sm_catch. by destruct (c s) as [s' [a|e]]. Qed.

Lemma sm_post_map_err {S E F A} (f : E -> F) (c : SM S E A) s Q :
  sm_post c s (fun s' r => Q s' (result_map_err f r)) -> sm_post (sm_map_err f c) s Q.
Proof. unfold sm_post, sm_map_err. by destruct (c s) as [s' r]. Qed.

(** ** Functional record update: [r <| field := v |>] *)

(** [Eta R] rebuilds a record of type [R] from its projections; one instance
    per record.  [Setter p] is then derived by abstracting the projection [p]
    in that eta expansion. *)
Class Eta (R : Type) := eta : R -> R.

Class Setter {R T : Type} (p : R -> T) := set_with : T -> R -> R.

Ltac derive_setter :=
  lazymatch goal with
  | |- @Setter ?R ?T ?p =>
      let v := fresh "v" in
      let r := fresh "r" in
      unfold Setter; intros v r;
      let inst := constr:(_ : Eta R) in
      let e := eval hnf in (@eta R inst r) in
      let ab := eval pattern (p r) in e in
      lazymatch ab with
      | ?g _ => let z := eval cbv beta in (g v) in exact z
      end
  end.

#[export] Hint Extern 1 (Setter _) => derive_setter : typeclass_instances.

Notation "r <| p := v |>" := (set_with (p := p) v r)
  (at level 12, left associativity, p at level 10, v at level 200,
   format "r  <| p  :=  v |>") : brehon_scope.

(** ** Machine integers

    Integers of the source are kept as [Z] together with the operations the
    source applies to them, at their width. *)

Definition u8_max : Z := 255.
Definition u32_max : Z := 4294967295.
Definition u64_max : Z := 18446744073709551615.

Definition is_u8 (z : Z) : Prop := (0 <= z <= u8_max)%Z.
Definition is_u32 (z : Z) : Prop := (0 <= z <= u32_max)%Z.
Definition is_u64 (z : Z) : Prop := (0 <= z <= u64_max)%Z.

(** [a.saturating_add(b)], [a.saturating_sub(b)] and [a.saturating_mul(b)] of
    an unsigned type whose greatest value is [m]. *)
Definition sat_add (m a b : Z) : Z := Z.min m (a + b).
Definition sat_sub (a b : Z) : Z := Z.max 0 (a - b).
Definition sat_mul (m a b : Z) : Z := Z.min m (a * b).

(** The [as u8] and [as u32] casts keep the low bits. *)
Definition as_u8 (z : Z) : Z := (z mod 256)%Z.
Definition as_u32 (z : Z) : Z := (z mod 4294967296)%Z.

(** The [as i32] cast and wrapping arithmetic on [i32]. *)
Definition as_i32 (z : Z) : Z := ((z + 2147483648) mod 4294967296 - 2147483648)%Z.

(** ** Iteration order of hash containers

    [HashMap] and [HashSet] iterate in an order the standard library leaves
    unspecified.  An operation of the source that iterates over one takes the
    order as a parameter, of which only this much is known: it lists the
    content of the container, each element once. *)
Class IterOrder (K : Type) `{Countable K} := {
  iter_set : gset K -> list K;
  iter_set_perm : forall s, iter_set s ≡ₚ elements s;
  iter_map : forall V : Type, gmap K V -> list (K * V);
  iter_map_perm : forall (V : Type) (m : gmap K V), iter_map V m ≡ₚ map_to_list m
}.
Arguments iter_map {_ _ _ _ _} _.

(** One order such containers may have, for evaluation. *)
Definition canonical_order (K : Type) `{Countable K} : IterOrder K :=
  {| iter_set := elements;
     iter_set_perm := fun s => reflexivity _;
     iter_map := fun V m => map_to_list m;
     iter_map_perm := fun V m => reflexivity _ |}.

Section iter_order.
Context {K : Type} `{Countable K} {ord : IterOrder K}.

Lemma elem_of_iter_set (s : gset K) x : x ∈ iter_set s <-> x ∈ s.
Proof. by rewrite iter_set_perm, elem_of_elements. Qed.

Lemma NoDup_iter_set (s : gset K) : NoDup (iter_set s).
Proof. rewrite iter_set_perm. apply NoDup_elements. Qed.

Lemma length_iter_set (s : gset K) : length (iter_set s) = size s.
Proof. by rewrite iter_set_perm. Qed.

Lemma elem_of_iter_map {V} (m : gmap K V) k v : (k, v) ∈ iter_map m <-> m !! k = Some v.
Proof. by rewrite iter_map_perm, elem_of_map_to_list. Qed.

Lemma elem_of_iter_map_snd {V} (m : gmap K V) v :
  v ∈ (iter_map m).*2 <-> exists k, m !! k = Some v.
Proof.
  rewrite list_elem_of_fmap. split.
  - intros [[k w] [-> Hin]]. exists k. by apply elem_of_iter_map.
  - intros [k Hk]. exists (k, v). by rewrite elem_of_iter_map.
Qed.

Lemma NoDup_iter_map_fst {V} (m : gmap K V) : NoDup (iter_map m).*1.
Proof. rewrite iter_map_perm. apply NoDup_fst_map_to_list. Qed.

Lemma length_iter_map {V} (m : gmap K V) : length (iter_map m) = size m.
Proof. by rewrite iter_map_perm, length_map_to_list. Qed.
End iter_order.

(** ** Automation shared by the components *)

Create HintDb brehon.

(** Splits the [match]es and [if]s of a definition that has been unfolded, and
    uses the equations they leave. *)
Ltac case_all :=
  repeat (case_match; simplify_eq/=); simplify_eq/=.

(** Inverts [result_bind c k = Ok x] hypotheses left to right. *)
Ltac inv_bind :=
  repeat match goal with
  | H : result_bind ?c _ = Ok _ |- _ =>
      let E := fresh "Hb" in
      destruct c eqn:E; cbn [result_bind] in H; [|discriminate H]
  end; simplify_eq/=.

(** ** Generic lemmas *)

Lemma result_bind_Ok {A B E} (c : Result A E) (k : A -> Result B E) b :
  result_bind c k = Ok b <-> exists a, c = Ok a /\ k a = Ok b.
Proof. destruct c; cbn; naive_solver. Qed.

Lemma filter_sublist {A} (f : A -> bool) (l : list A) : List.filter f l `sublist_of` l.
Proof. induction l as [|x l IH]; cbn; [done|]. by destruct (f x); constructor. Qed.

Lemma elem_of_option_list {A} (o : option A) x : x ∈ option_list o <-> o = Some x.
Proof. destruct o; cbn; [rewrite list_elem_of_singleton|rewrite elem_of_nil]; naive_solver. Qed.

(** Filling a map key by key: the loops [for k in keys { map.insert(k, f(k)) }],
    where [f] may skip a key. *)
Lemma foldl_insert_lookup {K V : Type} `{Countable K} (f : K -> option V)
    (step : gmap K V -> K -> gmap K V) (l : list K) (m : gmap K V) x :
  (forall m k, step m k = match f k with Some v => <[k := v]> m | None => m end) ->
  foldl step m l !! x =
  if decide (x ∈ l) then match f x with Some v => Some v | None => m !! x end else m !! x.
Proof.
  intros Hstep. revert m. induction l as [|k l IH]; intros m; cbn [foldl].
  { case_decide as Hx; [by apply elem_of_nil in Hx|done]. }
  rewrite IH, Hstep. destruct (decide (x = k)) as [->|Hne].
  - rewrite (decide_True (P := k ∈ k :: l)) by left.
    destruct (f k) eqn:Hf; [rewrite lookup_insert_eq|]; by case_decide.
  - assert (Hl : x ∈ k :: l <-> x ∈ l) by (rewrite elem_of_cons; naive_solver).
    rewrite (decide_ext _ _ _ _ Hl). destruct (f k); [by rewrite lookup_insert_ne|done].
Qed.

(** ** Stable sorting: [slice::sort_by], with [leb x y] for [x <= y] *)

Section sort_by.
Context {A : Type} (leb : A -> A -> bool).

Fixpoint sort_insert (x : A) (l : list A) : list A :=
  match l with
  | [] => [x]
  | y :: l' => if leb x y then x :: l else y :: sort_insert x l'
  end.

Definition sort_by (l : list A) : list A := foldr sort_insert [] l.

Lemma sort_insert_perm x l : sort_insert x l ≡ₚ x :: l.
Proof.
  induction l as [|y l IH]; cbn; [done|]. destruct (leb x y); [done|]. rewrite IH. constructor.
Qed.

Lemma sort_by_perm l : sort_by l ≡ₚ l.
Proof. induction l as [|x l IH]; cbn; [done|]. by rewrite sort_insert_perm, IH. Qed.

Context (leb_total : forall x y, leb x y = true \/ leb y x = true).
Context (leb_trans : forall x y z, leb x y = true -> leb y z = true -> leb x z = true).

Abbreviation sorted := (StronglySorted (fun x y => leb x y = true)).

Lemma sort_insert_sorted x l : sorted l -> sorted (sort_insert x l).
Proof.
  induction 1 as [|y l Hs IH Hall]; cbn; [repeat constructor|].
  destruct (leb x y) eqn:E.
  - constructor; [by constructor|]. constructor; [done|].
    eapply Forall_impl; [exact Hall|]. cbn. eauto.
  - constructor; [done|]. rewrite sort_insert_perm. constructor; [|done].
    destruct (leb_total x y); congruence.
Qed.

Lemma sort_by_sorted l : sorted (sort_by l).
Proof. induction l as [|x l IH]; cbn; [constructor|]. by apply sort_insert_sorted. Qed.
End sort_by.

(** ** Sorted lists *)

Section strongly_sorted.
Context {A : Type} (R : A -> A -> Prop).

Lemma sorted_lookup (l : list A) i j x y :
  StronglySorted R l -> l !! i = Some x -> l !! j = Some y -> i < j -> R x y.
Proof.
  intros Hs. revert i j. induction Hs as [|z l Hs IH Hall]; intros [|i] [|j]; cbn; intros Hx Hy Hlt;
    try done; try lia.
  - injection Hx as ->. rewrite Forall_forall in Hall. apply Hall. by eapply list_elem_of_lookup_2.
  - apply (IH i j); [done..|lia].
Qed.

Lemma sorted_filter (f : A -> bool) (l : list A) : StronglySorted R l -> StronglySorted R (List.filter f l).
Proof.
  induction 1 as [|z l Hs IH Hall]; cbn; [constructor|]. destruct (f z); [|done]. constructor; [done|].
  rewrite Forall_forall in Hall |- *. intros x Hx. apply Hall.
  apply list_elem_of_In, filter_In in Hx as [Hx _]. by apply list_elem_of_In.
Qed.

(** Whatever comes before an element of a sorted list was met before it, also
    when the scan skips elements and stops early. *)
Lemma sorted_met_before (f : A -> bool) (l : list A) N n x y :
  StronglySorted R l -> List.filter f (take N l) !! n = Some y ->
  x ∈ l -> f x = true -> x <> y -> ~ R y x ->
  exists m, m < n /\ List.filter f (take N l) !! m = Some x.
Proof.
  intros Hs Hn Hx Hf Hne HR. rewrite <-(take_drop N l) in Hs, Hx.
  assert (Hy : y ∈ take N l).
  { eapply list_elem_of_lookup_2, list_elem_of_In, filter_In in Hn as [Hn _]. by apply list_elem_of_In. }
  apply elem_of_app in Hx as [Hx|Hx]; cycle 1.
  { destruct HR. by eapply StronglySorted_app_1_elem_of. }
  assert (Hg : x ∈ List.filter f (take N l)).
  { by apply list_elem_of_In, filter_In; rewrite <-list_elem_of_In. }
  apply list_elem_of_lookup in Hg as [m Hm]. exists m. split; [|done].
  apply StronglySorted_app_1_l, (sorted_filter f) in Hs.
  destruct (Nat.lt_trichotomy m n) as [?|[->|Hlt]]; [done|congruence|].
  destruct HR. by eapply sorted_lookup.
Qed.
End strongly_sorted.

Lemma NoDup_omap_inj {A B} (f : A -> option B) (l : list A) :
  NoDup l -> (forall x y b, x ∈ l -> y ∈ l -> f x = Some b -> f y = Some b -> x = y) ->
  NoDup (omap f l).
Proof.
  induction 1 as [|x l Hx Hl IH]; intros Hinj; cbn; [constructor|].
  assert (IH' : NoDup (omap f l)) by (apply IH; intros; eapply Hinj; eauto using list_elem_of_further).
  destruct (f x) as [b|] eqn:Hb; [|done]. constructor; [|done].
  rewrite list_elem_of_omap. intros (y & Hy & Hfy).
  destruct Hx. rewrite (Hinj x y b); eauto using list_elem_of_further. left.
Qed.

(** A partial map that keeps the order keeps a list sorted. *)
Lemma sorted_omap {A B} (R : A -> A -> Prop) (R' : B -> B -> Prop) (f : A -> option B) (l : list A) :
  (forall x y a b, x ∈ l -> y ∈ l -> R x y -> f x = Some a -> f y = Some b -> R' a b) ->
  StronglySorted R l -> StronglySorted R' (omap f l).
Proof.
  intros Hf Hs. induction Hs as [|x l Hs IH Hall]; cbn; [constructor|].
  assert (IH' : StronglySorted R' (omap f l)).
  { apply IH. intros y z a b Hy Hz. apply Hf; by right. }
  destruct (f x) as [a|] eqn:Ha; [|done]. constructor; [done|].
  apply Forall_forall. intros b (y & Hy & Hb)%list_elem_of_omap.
  apply (Hf x y); [left|by right|by eapply Forall_forall in Hall|done|done].
Qed.

Lemma filter_id {A} (P : A -> Prop) `{!forall x, Decision (P x)} (l : list A) :
  (forall x, x ∈ l -> P x) -> filter P l = l.
Proof.
  induction l as [|x l IH]; intros HP; [done|]. rewrite filter_cons, decide_True by (apply HP; left).
  f_equal. apply IH. intros y Hy. apply HP. by right.
Qed.

Lemma filter_none {A} (P : A -> Prop) `{!forall x, Decision (P x)} (l : list A) :
  Forall (fun x => ~ P x) l -> filter P l = [].
Proof. induction 1 as [|x l Hx _ IH]; [done|]. by rewrite filter_cons_False. Qed.

Lemma sorted_filter_Prop {A} (R : A -> A -> Prop) (P : A -> Prop) `{!forall x, Decision (P x)} (l : list A) :
  StronglySorted R l -> StronglySorted R (filter P l).
Proof.
  induction 1 as [|x l Hs IH Hall]; [constructor|]. rewrite filter_cons. case_decide; [|done].
  constructor; [done|]. apply Forall_forall. intros y [_ Hy]%list_elem_of_filter. by eapply Forall_forall in Hall.
Qed.

(** A sorted list is its part below a bound followed by the rest. *)
Lemma sorted_split (b : Z) (l : list Z) : StronglySorted Z.lt l ->
  filter (fun m => m < b)%Z l ++ filter (fun m => b <= m)%Z l = l.
Proof.
  induction 1 as [|m l Hs IH Hall]; [done|]. rewrite !filter_cons. destruct (decide (m < b)%Z).
  - rewrite decide_False by lia. cbn. by rewrite IH.
  - rewrite decide_True by lia. rewrite filter_none; [|apply Forall_impl with (1 := Hall); lia].
    cbn. f_equal. apply filter_id. intros x Hx. eapply Forall_forall in Hall; [|done]. lia.
Qed.

Lemma sorted_seqZ a n : StronglySorted Z.lt (seqZ a n).
Proof.
  destruct (Z_le_gt_dec n 0) as [Hn|Hn]; [rewrite seqZ_nil by lia; constructor|].
  revert a. pattern n. apply Zlt_lower_bound_ind with (z := 0%Z); [|lia]. clear n Hn. intros n IH Hn a.
  destruct (Z.eq_dec n 0) as [->|Hne]; [constructor|]. rewrite seqZ_cons by lia. constructor; [apply IH; lia|].
  apply Forall_forall. intros k Hk%elem_of_seqZ. lia.
Qed.

(** ** Counting the values of a hash map *)

Lemma filter_fmap_snd {K V} (f : V -> bool) (l : list (K * V)) :
  List.filter f l.*2 = (List.filter (fun kv => f kv.2) l).*2.
Proof. induction l as [|[k v] l IH]; cbn; [done|]. destruct (f v); cbn; by rewrite IH. Qed.

(** The keys whose value satisfies [f]. *)
Definition keys_where {K V} `{Countable K} (f : V -> bool) (m : gmap K V) : gset K :=
  dom (filter (fun kv => f kv.2 = true) m).

Lemma elem_of_keys_where {K V} `{Countable K} (f : V -> bool) (m : gmap K V) k :
  k ∈ keys_where f m <-> exists v, m !! k = Some v /\ f v = true.
Proof.
  unfold keys_where. rewrite elem_of_dom. unfold is_Some. setoid_rewrite map_lookup_filter_Some. done.
Qed.

Lemma count_values {K V} `{Countable K} {ord : IterOrder K} (f : V -> bool) (m : gmap K V) :
  length (List.filter f (iter_map m).*2) = size (keys_where f m).
Proof.
  rewrite filter_fmap_snd, length_fmap.
  set (l := List.filter (fun kv => f kv.2) (iter_map m)).
  assert (Hl : forall k v, (k, v) ∈ l <-> m !! k = Some v /\ f v = true).
  { intros k v. unfold l. by rewrite list_elem_of_In, filter_In, <-list_elem_of_In, elem_of_iter_map. }
  assert (Hsub : l.*1 `sublist_of` (iter_map m).*1).
  { apply fmap_sublist. unfold l. generalize (iter_map m).
    induction l0 as [|x l0 IH]; cbn; [done|]. destruct (f x.2); by constructor. }
  assert (Hnd : NoDup l.*1) by exact (sublist_NoDup _ _ (NoDup_iter_map_fst m) Hsub).
  rewrite <-(length_fmap fst), <-(size_list_to_set (C := gset K)) by done.
  f_equal. apply leibniz_equiv. intros k.
  rewrite elem_of_list_to_set, list_elem_of_fmap, elem_of_keys_where. split.
  - intros ([k' v] & -> & Hin%Hl). eauto.
  - intros (v & Hv). exists (k, v). by rewrite Hl.
Qed.
