(* ===== verification/Effects.v ===== *)
(** * Effects: loops, and relations between the states of an operation

    Generic definitions and lemmas about [SM] operations that the stateful
    components share: a loop whose body may fail, and relations that hold between
    the state before and the state after an operation, whatever it returns. *)

From S2P Require Import Prelude.

(** ** Relations between before and after *)

Section relates.
Context {S E : Type} (R : S -> S -> Prop).

(** Whatever an operation returns, [R] holds between its two states. *)
Definition relates {E' A} (op : SM S E' A) : Prop := forall s, R s (op s).1.

Context `{!PreOrder R}.

Lemma relates_ret {A} (a : A) : relates (E' := E) (sm_ret a).
Proof. by intros s. Qed.

Lemma relates_lift {A} (r : Result A E) : relates (sm_lift r).
Proof. by intros s. Qed.

Lemma relates_bind {A B} (c : SM S E A) (k : A -> SM S E B) :
  relates c -> (forall a, relates (k a)) -> relates (sm_bind c k).
Proof.
  intros Hc Hk s. unfold sm_bind. specialize (Hc s). destruct (c s) as [s' [a|e]]; [|done].
  cbn in Hc. etrans; [exact Hc|]. apply Hk.
Qed.

Lemma relates_after {A B} (c : SM S E A) (k : A -> SM S E B) s :
  (forall a, relates (k a)) -> R (c s).1 (sm_bind c k s).1.
Proof. intros Hk. unfold sm_bind. destruct (c s) as [s' [a|e]]; cbn; [apply Hk|done]. Qed.

Lemma relates_catch {F A B} (c : SM S F A) (k : A -> SM S E B) (h : F -> SM S E B) :
  relates c -> (forall a, relates (k a)) -> (forall e, relates (h e)) -> relates (sm_catch c k h).
Proof.
  intros Hc Hk Hh s. unfold sm_catch. specialize (Hc s). destruct (c s) as [s' [a|e]]; cbn in Hc;
    (etrans; [exact Hc|]); [apply Hk|apply Hh].
Qed.
End relates.

Lemma relates_map_err {S E F A} (R : S -> S -> Prop) (f : E -> F) (c : SM S E A) :
  relates R c -> relates R (sm_map_err f c).
Proof. intros Hc s. unfold sm_map_err. specialize (Hc s). by destruct (c s). Qed.

(** The operation leaves the projection [P] of the state alone. *)
Definition same {S A} (P : S -> A) (s s' : S) : Prop := P s' = P s.

#[export] Instance same_preorder {S A} (P : S -> A) : PreOrder (same P).
Proof. split; [by intros s|]. intros s1 s2 s3 H12 H23. unfold same in *. by rewrite H23. Qed.

(** The operation preserves [I]. *)
Definition keeps {S} (I : S -> Prop) (s s' : S) : Prop := I s -> I s'.

#[export] Instance keeps_preorder {S} (I : S -> Prop) : PreOrder (keeps I).
Proof. split; unfold keeps; [by intros s|]. intros s1 s2 s3 H12 H23. auto. Qed.

Lemma sm_bind_Ok {S E A B} (c : SM S E A) (k : A -> SM S E B) s s' b :
  sm_bind c k s = (s', Ok b) -> exists s1 a, c s = (s1, Ok a) /\ k a s1 = (s', Ok b).
Proof. unfold sm_bind. destruct (c s) as [s1 [a|e]]; [eauto|discriminate]. Qed.


(** ** Loops *)

(** [for x in l { f(x)?; }] *)
Fixpoint sm_for {S E A} (f : A -> SM S E unit) (l : list A) : SM S E unit :=
  match l with
  | [] => sm_ret tt
  | x :: l => let! _ := f x in sm_for f l
  end.

(** [for x in l { let _ = f(x); }]: failures are dealt with in the body. *)
Fixpoint sm_iter {S A} (f : A -> S -> S) (l : list A) (s : S) : S :=
  match l with
  | [] => s
  | x :: l => sm_iter f l (f x s)
  end.

Lemma relates_sm_for {S E A} (R : S -> S -> Prop) `{!PreOrder R} (f : A -> SM S E unit) l :
  (forall x, relates R (f x)) -> relates R (sm_for f l).
Proof.
  intros Hf. induction l as [|x l IH]; cbn; [by apply relates_ret|]. by apply relates_bind.
Qed.

(** Follows the structure of an operation, up to the calls that change the
    state: those are left to the hints of the database [effects]. *)
Create HintDb effects.

Ltac follow_effects :=
  repeat first
    [ solve [eauto with effects]
    | apply relates_ret; apply _
    | apply relates_lift; apply _
    | apply relates_map_err
    | apply relates_bind; [apply _| |intros ?]
    | apply relates_catch; [apply _| |intros ?|intros ?]
    | apply relates_sm_for; [apply _|intros ?]
    | case_match ].
