(* ===== verification/StrLib.v ===== *)
(** * Strings of the Rust standard library

    A [String] or [Vec<u8>] is a Rocq [string], a sequence of bytes.  The
    functions of [str] and of number formatting the source uses, on bytes: all
    the characters it searches for are ASCII, which UTF-8 never uses inside
    another character. *)

From Stdlib Require Import Ascii.
From S2P Require Import Prelude.

(** [str::strip_prefix], [str::starts_with] *)
Fixpoint strip_prefix (p s : string) : option string :=
  match p, s with
  | EmptyString, _ => Some s
  | String c p, String d s => if Ascii.eqb c d then strip_prefix p s else None
  | String _ _, EmptyString => None
  end.

Definition starts_with (p s : string) : bool :=
  match strip_prefix p s with Some _ => true | None => false end.

(** [value.replace(c, by)] for a character [c] *)
Fixpoint replace_char (c : Ascii.ascii) (by_ s : string) : string :=
  match s with
  | EmptyString => EmptyString
  | String d s =>
      if Ascii.eqb d c then by_ +:+ replace_char c by_ s else String d (replace_char c by_ s)
  end.

(** [s.split(c)], and [s.rsplit(c).next()], its last piece *)
Fixpoint split_on (c : Ascii.ascii) (s : string) : list string :=
  match s with
  | EmptyString => [EmptyString]
  | String d s =>
      if Ascii.eqb d c then EmptyString :: split_on c s
      else match split_on c s with
           | [] => [String d EmptyString]
           | piece :: rest => String d piece :: rest
           end
  end.

Definition rsplit_last (c : Ascii.ascii) (s : string) : string :=
  List.last (split_on c s) EmptyString.

(** [s.parse::<u64>()] and [s.parse::<u32>()]: an optional [+], then at least
    one digit, no overflow *)
Definition digit_value (c : Ascii.ascii) : option Z :=
  let n := Z.of_N (Ascii.N_of_ascii c) in
  if (48 <=? n)%Z && (n <=? 57)%Z then Some (n - 48)%Z else None.

Fixpoint parse_digits (max acc : Z) (s : string) : option Z :=
  match s with
  | EmptyString => Some acc
  | String c s =>
      match digit_value c with
      | Some d =>
          let acc := (acc * 10 + d)%Z in
          if (acc <=? max)%Z then parse_digits max acc s else None
      | None => None
      end
  end.

Definition parse_unsigned (max : Z) (s : string) : option Z :=
  match s with
  | EmptyString => None
  | String c rest =>
      if Ascii.eqb c "+"%char then
        match rest with EmptyString => None | _ => parse_digits max 0 rest end
      else parse_digits max 0 s
  end.

Definition parse_u64 : string -> option Z := parse_unsigned u64_max.
Definition parse_u32 : string -> option Z := parse_unsigned u32_max.

(** [format!("{:020}", seq)] of a [u64]: it has at most twenty digits, so this
    is its decimal numeral padded to exactly twenty. *)
Definition digit_char (d : Z) : Ascii.ascii := Ascii.ascii_of_N (Z.to_N (48 + d)).

Fixpoint fixed_digits (width : nat) (n : Z) : string :=
  match width with
  | O => EmptyString
  | S width => fixed_digits width (n / 10)%Z +:+ String (digit_char (n mod 10)%Z) EmptyString
  end.

Definition fmt020 (n : Z) : string := fixed_digits 20 n.

(** [a.cmp(b)] on strings: [true] when [a <= b] byte-lexicographically *)
Definition str_leb (a b : string) : bool := String.leb a b.

(** [slice.join(sep)] *)
Fixpoint join (sep : string) (l : list string) : string :=
  match l with
  | [] => ""
  | [s] => s
  | s :: l => s +:+ sep +:+ join sep l
  end.

(** The newline character *)
Definition NL : string := String (Ascii.ascii_of_nat 10) EmptyString.

(** ** Concatenation *)

Fixpoint occurs (c : Ascii.ascii) (s : string) : bool :=
  match s with EmptyString => false | String d s => Ascii.eqb d c || occurs c s end.

Lemma append_cons (d : Ascii.ascii) (s t : string) : String d s +:+ t = String d (s +:+ t).
Proof. done. Qed.

Lemma append_nil_l (t : string) : "" +:+ t = t.
Proof. done. Qed.

Ltac simpl_append := rewrite ?append_cons, ?append_nil_l; simpl.

Lemma append_assoc (a b c : string) : (a +:+ b) +:+ c = a +:+ (b +:+ c).
Proof. induction a as [|d a IH]; [done|]. by rewrite !append_cons, IH. Qed.

Lemma append_nil_r (a : string) : a +:+ "" = a.
Proof. induction a as [|d a IH]; [done|]. by rewrite append_cons, IH. Qed.

Lemma append_inj_l (p a b : string) : p +:+ a = p +:+ b -> a = b.
Proof. induction p as [|d p IH]; [done|]. rewrite !append_cons. intros [= ?]. auto. Qed.

Lemma length_append a b : String.length (a +:+ b) = String.length a + String.length b.
Proof. induction a as [|d a IH]; [done|]. rewrite append_cons. cbn. by rewrite IH. Qed.

Lemma append_inj_r (p a b : string) : a +:+ p = b +:+ p -> a = b.
Proof.
  revert b. induction a as [|d a IH]; intros [|e b]; rewrite ?append_cons, ?append_nil_l; [done|..].
  - intros Heq. apply (f_equal String.length) in Heq. cbn in Heq. rewrite length_append in Heq. lia.
  - intros Heq. apply (f_equal String.length) in Heq. cbn in Heq. rewrite length_append in Heq. lia.
  - intros [= -> Heq]. f_equal. by apply IH.
Qed.

Lemma occurs_app c a b : occurs c (a +:+ b) = occurs c a || occurs c b.
Proof. induction a as [|d a IH]; simpl_append; [done|]. by rewrite IH, orb_assoc. Qed.

(** A separator that occurs in neither part splits a string in one way. *)
Lemma sep_inj c a a' b b' :
  occurs c a = false -> occurs c a' = false ->
  a +:+ String c b = a' +:+ String c b' -> a = a' /\ b = b'.
Proof.
  revert a'. induction a as [|d a IH]; intros [|d' a'] Ha Ha' He;
    rewrite ?append_cons, ?append_nil_l in He; simpl in *; simplify_eq.
  - done.
  - by rewrite Ascii.eqb_refl in Ha'.
  - by rewrite Ascii.eqb_refl in Ha.
  - apply orb_false_iff in Ha as [_ Ha], Ha' as [_ Ha'].
    destruct (IH a' Ha Ha') as [-> ->]; done.
Qed.

Lemma strip_prefix_app p s : strip_prefix p (p +:+ s) = Some s.
Proof. induction p as [|c p IH]; simpl_append; [done|]. by rewrite Ascii.eqb_refl. Qed.

Lemma strip_prefix_Some p s r : strip_prefix p s = Some r <-> s = p +:+ r.
Proof.
  split; [|intros ->; apply strip_prefix_app].
  revert s. induction p as [|c p IH]; intros s; simpl; [by intros [= ->]|].
  destruct s as [|d s]; [done|]. destruct (Ascii.eqb_spec c d) as [->|]; [|done].
  intros Hs%IH. by rewrite append_cons, <-Hs.
Qed.

Lemma starts_with_iff p s : starts_with p s = true <-> exists r, s = p +:+ r.
Proof.
  unfold starts_with. destruct (strip_prefix p s) as [r|] eqn:E.
  - apply strip_prefix_Some in E. split; [intros _; by exists r|done].
  - split; [done|]. intros [r ->]. by rewrite strip_prefix_app in E.
Qed.

Lemma starts_with_app p s : starts_with p (p +:+ s) = true.
Proof. unfold starts_with. by rewrite strip_prefix_app. Qed.

Lemma split_on_ne c s : split_on c s <> [].
Proof.
  destruct s as [|d s]; simpl; [congruence|]. destruct (Ascii.eqb d c); [congruence|].
  destruct (split_on c s); congruence.
Qed.

Lemma split_on_none c s : occurs c s = false -> split_on c s = [s].
Proof.
  induction s as [|d s IH]; simpl; [done|]. intros [-> Hs]%orb_false_iff. by rewrite IH.
Qed.

Lemma split_on_app c a b : split_on c (a +:+ String c b) = split_on c a ++ split_on c b.
Proof.
  induction a as [|d a IH]; simpl_append; [by rewrite Ascii.eqb_refl|].
  destruct (Ascii.eqb d c); simpl; rewrite IH; [done|].
  pose proof (split_on_ne c a). by destruct (split_on c a).
Qed.

Lemma rsplit_last_app c a b : occurs c b = false -> rsplit_last c (a +:+ String c b) = b.
Proof.
  intros Hb. unfold rsplit_last. rewrite split_on_app, (split_on_none c b Hb). apply List.last_last.
Qed.

(** ** Fixed-width decimal numerals *)

Lemma digit_value_char d : (0 <= d < 10)%Z -> digit_value (digit_char d) = Some d.
Proof.
  intros Hd. unfold digit_value, digit_char.
  rewrite Ascii.N_ascii_embedding by lia. rewrite Z2N.id by lia.
  rewrite (proj2 (Z.leb_le _ _)), (proj2 (Z.leb_le _ _)) by lia. simpl. f_equal. lia.
Qed.

Lemma length_fixed_digits w n : String.length (fixed_digits w n) = w.
Proof.
  revert n. induction w as [|w IH]; intros n; [done|].
  cbn [fixed_digits]. rewrite length_append, IH. simpl. lia.
Qed.

Lemma occurs_fixed_digits c w n : digit_value c = None -> occurs c (fixed_digits w n) = false.
Proof.
  intros Hc. revert n. induction w as [|w IH]; intros n; [done|].
  cbn [fixed_digits]. rewrite occurs_app, IH. simpl. rewrite orb_false_r.
  destruct (Ascii.eqb_spec (digit_char (n mod 10)) c) as [<-|]; [|done].
  by rewrite digit_value_char in Hc by (apply Z.mod_pos_bound; lia).
Qed.

Lemma parse_digits_app max acc s t :
  parse_digits max acc (s +:+ t) =
  match parse_digits max acc s with Some acc' => parse_digits max acc' t | None => None end.
Proof.
  revert acc. induction s as [|c s IH]; intros acc; simpl_append; [done|].
  destruct (digit_value c); [|done]. by case_match.
Qed.

Lemma pow10_succ w : (10 ^ Z.of_nat (S w) = 10 * 10 ^ Z.of_nat w)%Z.
Proof. rewrite Nat2Z.inj_succ, Z.pow_succ_r; lia. Qed.

Lemma parse_digits_fixed max w : forall acc n,
  (0 <= acc)%Z -> (0 <= n < 10 ^ Z.of_nat w)%Z -> (acc * 10 ^ Z.of_nat w + n <= max)%Z ->
  parse_digits max acc (fixed_digits w n) = Some (acc * 10 ^ Z.of_nat w + n)%Z.
Proof.
  induction w as [|w IH]; intros acc n Hacc Hn Hmax.
  { simpl in *. f_equal. lia. }
  rewrite pow10_succ in *. cbn [fixed_digits].
  pose proof (Z.div_mod n 10). pose proof (Z.mod_pos_bound n 10).
  assert (0 <= n / 10 < 10 ^ Z.of_nat w)%Z.
  { split; [apply Z.div_pos; lia|apply Z.div_lt_upper_bound; lia]. }
  rewrite parse_digits_app, IH by nia. simpl.
  rewrite digit_value_char by lia. rewrite (proj2 (Z.leb_le _ _)) by nia. f_equal. nia.
Qed.

Lemma u64_lt_pow10 n : (n <= u64_max)%Z -> (n < 10 ^ Z.of_nat 20)%Z.
Proof. unfold u64_max. change (10 ^ Z.of_nat 20)%Z with 100000000000000000000%Z. lia. Qed.

Lemma parse_unsigned_digits max s :
  occurs "+"%char s = false -> s <> "" -> parse_unsigned max s = parse_digits max 0 s.
Proof. destruct s as [|c s]; [done|]. cbn [occurs parse_unsigned]. by intros [-> _]%orb_false_iff _. Qed.

Lemma fmt020_ne n : fmt020 n <> "".
Proof.
  intros H. pose proof (length_fixed_digits 20 n) as Hl. unfold fmt020 in H. by rewrite H in Hl.
Qed.

Lemma parse_fmt020 n : is_u64 n -> parse_u64 (fmt020 n) = Some n.
Proof.
  intros [H0 Hmax]. unfold parse_u64. rewrite parse_unsigned_digits; [|by apply occurs_fixed_digits|apply fmt020_ne].
  unfold fmt020. rewrite parse_digits_fixed; [f_equal; lia|lia| |lia].
  split; [done|]. by apply u64_lt_pow10.
Qed.

(** ** Ordering *)

Lemma compare_append a a' b b' :
  String.length a = String.length a' ->
  String.compare (a +:+ b) (a' +:+ b') =
  match String.compare a a' with Eq => String.compare b b' | c => c end.
Proof.
  revert a'. induction a as [|d a IH]; intros [|d' a']; simpl_append; try done.
  intros [= Hl]. destruct (Ascii.compare d d'); [by apply IH|done..].
Qed.

Lemma compare_append_l p a b : String.compare (p +:+ a) (p +:+ b) = String.compare a b.
Proof.
  induction p as [|d p IH]; [done|]. simpl_append.
  unfold Ascii.compare. by rewrite N.compare_refl.
Qed.

Lemma compare_digit_char d e :
  (0 <= d < 10)%Z -> (0 <= e < 10)%Z -> Ascii.compare (digit_char d) (digit_char e) = (d ?= e)%Z.
Proof.
  intros Hd He. unfold Ascii.compare, digit_char. rewrite !Ascii.N_ascii_embedding by lia.
  rewrite (Z2N.inj_compare (48 + d) (48 + e)) by lia. by rewrite Zcompare_plus_compat.
Qed.

Lemma compare_div10 n m :
  (n ?= m)%Z = match (n / 10 ?= m / 10)%Z with Eq => (n mod 10 ?= m mod 10)%Z | c => c end.
Proof.
  pose proof (Z.div_mod n 10). pose proof (Z.mod_pos_bound n 10).
  pose proof (Z.div_mod m 10). pose proof (Z.mod_pos_bound m 10).
  destruct (Z.compare_spec (n / 10) (m / 10)).
  - destruct (Z.compare_spec (n mod 10) (m mod 10));
      [apply Z.compare_eq_iff|apply Z.compare_lt_iff|apply Z.compare_gt_iff]; lia.
  - apply Z.compare_lt_iff. lia.
  - apply Z.compare_gt_iff. lia.
Qed.

(** Numerals of one width compare as their numbers. *)
Lemma compare_fixed_digits w : forall n m,
  (0 <= n < 10 ^ Z.of_nat w)%Z -> (0 <= m < 10 ^ Z.of_nat w)%Z ->
  String.compare (fixed_digits w n) (fixed_digits w m) = (n ?= m)%Z.
Proof.
  induction w as [|w IH]; intros n m Hn Hm.
  { simpl in *. symmetry. apply Z.compare_eq_iff. lia. }
  rewrite pow10_succ in *. cbn [fixed_digits].
  pose proof (Z.mod_pos_bound n 10). pose proof (Z.mod_pos_bound m 10).
  rewrite compare_append by by rewrite !length_fixed_digits.
  rewrite IH; [|split; [apply Z.div_pos; lia|apply Z.div_lt_upper_bound; lia]..].
  rewrite (compare_div10 n m). destruct (n / 10 ?= m / 10)%Z; [|done..].
  simpl. rewrite compare_digit_char by lia. by destruct (n mod 10 ?= m mod 10)%Z.
Qed.

Lemma compare_fmt020 n m :
  is_u64 n -> is_u64 m -> String.compare (fmt020 n) (fmt020 m) = (n ?= m)%Z.
Proof.
  intros [??] [??]. apply compare_fixed_digits; split; try done; by apply u64_lt_pow10.
Qed.

Lemma str_leb_total a b : str_leb a b = true \/ str_leb b a = true.
Proof. apply String.leb_total. Qed.

Lemma str_leb_trans a b c : str_leb a b = true -> str_leb b c = true -> str_leb a c = true.
Proof.
  unfold str_leb, String.leb. revert b c.
  induction a as [|x a IH]; intros [|y b] [|z c]; simpl; try done.
  unfold Ascii.compare.
  destruct (N.compare_spec (N_of_ascii x) (N_of_ascii y)),
    (N.compare_spec (N_of_ascii y) (N_of_ascii z)),
    (N.compare_spec (N_of_ascii x) (N_of_ascii z)); try lia; try done. apply IH.
Qed.

(** A numeral has only digits, after an optional plus sign. *)
Lemma parse_digits_none max c s acc :
  digit_value c = None -> occurs c s = true -> parse_digits max acc s = None.
Proof.
  intros Hc. revert acc. induction s as [|d s IH]; intros acc; simpl; [done|].
  destruct (Ascii.eqb_spec d c) as [->|]; [by rewrite Hc|]. cbn. intros Hs.
  destruct (digit_value d); [|done]. case_match; [by apply IH|done].
Qed.

Lemma parse_unsigned_none max c s :
  digit_value c = None -> c <> "+"%char -> occurs c s = true -> parse_unsigned max s = None.
Proof.
  intros Hc Hp. destruct s as [|d s]; [done|]. cbn [occurs parse_unsigned]. intros Hs.
  destruct (Ascii.eqb_spec d "+"%char) as [->|Hd].
  - destruct (Ascii.eqb_spec "+"%char c) as [<-|_]; [done|]. cbn in Hs.
    destruct s; [done|]. by eapply parse_digits_none.
  - by eapply (parse_digits_none max c (String d s)).
Qed.
