(* ===== verification/Chars.v ===== *)
(** * Characters of UTF-8 strings

    A Rust [str] is valid UTF-8, so its characters are its non-continuation
    bytes, each with the continuation bytes that follow.  [chars] lists them as
    strings; trimming, counting, truncating and searching are defined on that
    list the way the standard library does it. *)

From Stdlib Require Import Ascii.
From S2P Require Import Prelude StrLib.

(** ** Splitting into characters *)

(** A byte [10xxxxxx]. *)
Definition is_continuation (c : ascii) : bool :=
  let n := N_of_ascii c in (128 <=? n)%N && (n <? 192)%N.

(** Continuation bytes join the byte before them. *)
Definition cons_byte (c : ascii) (l : list string) : list string :=
  match l with
  | String d ch :: rest =>
      if is_continuation d then String c (String d ch) :: rest else String c "" :: l
  | _ => String c "" :: l
  end.

(** [str::chars] *)
Fixpoint chars (s : string) : list string :=
  match s with
  | EmptyString => []
  | String c s => cons_byte c (chars s)
  end.

(** [iter.collect::<String>()] *)
Definition of_chars (l : list string) : string := foldr String.append "" l.

(** [s.chars().count()] *)
Definition char_count (s : string) : nat := length (chars s).

(** [&s[..end]], for an [end] on a character boundary *)
Fixpoint bytes_to (n : nat) (s : string) : string :=
  match n, s with
  | S n, String c s => String c (bytes_to n s)
  | _, _ => ""
  end.

(** [&s[start..]] *)
Fixpoint bytes_from (n : nat) (s : string) : string :=
  match n, s with S n, String _ s => bytes_from n s | _, _ => s end.

(** ** White space *)

Definition utf8 (l : list nat) : string := foldr (fun n s => String (ascii_of_nat n) s) "" l.

(** The characters with the Unicode property [White_Space]. *)
Definition white_space : list string :=
  utf8 <$> [[9]; [10]; [11]; [12]; [13]; [32]; [194; 133]; [194; 160]; [225; 154; 128];
    [226; 128; 128]; [226; 128; 129]; [226; 128; 130]; [226; 128; 131]; [226; 128; 132];
    [226; 128; 133]; [226; 128; 134]; [226; 128; 135]; [226; 128; 136]; [226; 128; 137];
    [226; 128; 138]; [226; 128; 168]; [226; 128; 169]; [226; 128; 175]; [226; 129; 159];
    [227; 128; 128]].

(** [char::is_whitespace] *)
Definition is_whitespace (ch : string) : bool := existsb (String.eqb ch) white_space.

Fixpoint skip_while {A} (f : A -> bool) (l : list A) : list A :=
  match l with
  | [] => []
  | x :: rest => if f x then skip_while f rest else l
  end.

(** [str::trim] *)
Definition trim (s : string) : string :=
  of_chars (reverse (skip_while is_whitespace (reverse (skip_while is_whitespace (chars s))))).

(** [str::contains] of a string *)
Fixpoint contains (needle s : string) : bool :=
  starts_with needle s || match s with String _ s => contains needle s | EmptyString => false end.

(** [char::is_ascii_alphanumeric] *)
Definition is_ascii_alphanumeric (ch : string) : bool :=
  match ch with
  | String c EmptyString =>
      let n := N_of_ascii c in
      ((48 <=? n) && (n <=? 57) || (65 <=? n) && (n <=? 90) || (97 <=? n) && (n <=? 122))%N
  | _ => false
  end.

(** [str::to_lowercase], which depends on the tables of Unicode *)
Class TextOps := {
  to_lowercase : string -> string
}.

(** [str::split_whitespace]: the non-empty pieces between white space, with the
    piece under way *)
Definition flush (word : string) : list string := if String.eqb word "" then [] else [word].

Fixpoint words_from (word : string) (l : list string) : list string :=
  match l with
  | [] => flush word
  | ch :: l => if is_whitespace ch then flush word ++ words_from "" l else words_from (word +:+ ch) l
  end.

Definition split_whitespace (s : string) : list string := words_from "" (chars s).

(** The character "…". *)
Definition ELLIPSIS : string := utf8 [226; 128; 166].

(** ** Lemmas *)

Lemma of_chars_cons ch l : of_chars (ch :: l) = ch +:+ of_chars l.
Proof. done. Qed.

Lemma of_cons_byte c l : of_chars (cons_byte c l) = String c (of_chars l).
Proof. destruct l as [|[|d ch] rest]; cbn [cons_byte]; [done|done|]. by destruct (is_continuation d). Qed.

Lemma of_chars_chars s : of_chars (chars s) = s.
Proof. induction s as [|c s IH]; [done|]. cbn [chars]. by rewrite of_cons_byte, IH. Qed.

Lemma of_chars_app l k : of_chars (l ++ k) = of_chars l +:+ of_chars k.
Proof. induction l as [|ch l IH]; [done|]. cbn [app]. by rewrite !of_chars_cons, IH, append_assoc. Qed.

Lemma bytes_from_app a b : bytes_from (String.length a) (a +:+ b) = b.
Proof. induction a as [|c a IH]; simpl_append; [by destruct b|done]. Qed.

Lemma bytes_to_app a b : bytes_to (String.length a) (a +:+ b) = a.
Proof. induction a as [|c a IH]; simpl_append; [by destruct b|]. by rewrite IH. Qed.
