(* ===== verification/Types.v ===== *)
(** * Shared data types (crate brehon-types)

    The enums and structs of [brehon-types] that the modelled components
    exchange.  Identifier newtypes ([TaskId(String)], [RunId(String)], ...) are
    strings; a [DateTime<Utc>] is its number of nanoseconds since the Unix
    epoch, a [Z]; the unsigned integers are [Z].  Each enum sits in a module of
    its own name, so that [TaskStatus.Pending] reads like
    [TaskStatus::Pending]. *)

From S2P Require Import Prelude.

Abbreviation TaskId := string (only parsing).
Abbreviation RunId := string (only parsing).
Abbreviation ReviewId := string (only parsing).
Abbreviation SessionId := string (only parsing).
Abbreviation AgentId := string (only parsing).
Abbreviation WorkerId := string (only parsing).
Abbreviation ClaimOwner := string (only parsing).
Abbreviation ClaimId := string (only parsing).
Abbreviation ProofBundleId := string (only parsing).
Abbreviation FeedbackTriggerId := string (only parsing).
Abbreviation FeedbackTurnId := string (only parsing).
Abbreviation DateTime := Z (only parsing).

(** [{:?}] of a string, whose escapes depend on Unicode tables, and [{}] of a
    time, which the crate chrono prints. *)
Class Fmt := { debug_str : string -> string; display_time : DateTime -> string }.

Abbreviation ClaimGeneration := Z (only parsing).
Abbreviation EventId := Z (only parsing).

(** ** Tasks (task.rs) *)

Module TaskStatus.
Inductive TaskStatus :=
| Pending
| Assigned
| InProgress
| InReview
| ChangesRequested
| Approved
| Merged
| Blocked.
End TaskStatus.
Abbreviation TaskStatus := TaskStatus.TaskStatus.

#[export] Instance TaskStatus_eq_dec : EqDecision TaskStatus.
Proof. solve_decision. Defined.

Module Priority.
Inductive Priority := Low | Medium | High | Critical.
End Priority.
Abbreviation Priority := Priority.Priority.

#[export] Instance Priority_eq_dec : EqDecision Priority.
Proof. solve_decision. Defined.

(** ** Runs (run.rs) *)

Module RunRole.
Inductive RunRole :=
| Worker
| Reviewer
| Supervisor
| Integration
| Maintenance
| Custom (value : string).

Definition as_str (r : RunRole) : string :=
  match r with
  | Worker => "worker"
  | Reviewer => "reviewer"
  | Supervisor => "supervisor"
  | Integration => "integration"
  | Maintenance => "maintenance"
  | Custom value => value
  end.
End RunRole.
Abbreviation RunRole := RunRole.RunRole.

#[export] Instance RunRole_eq_dec : EqDecision RunRole.
Proof. solve_decision. Defined.

Module RunStatus.
Inductive RunStatus :=
| Created
| Claimed
| Running
| Released
| RetryQueued
| Completed
| Failed
| Abandoned.

Definition is_terminal (s : RunStatus) : bool :=
  match s with Completed | Failed | Abandoned => true | _ => false end.

Definition has_active_claim (s : RunStatus) : bool :=
  match s with Claimed | Running => true | _ => false end.

Definition as_str (s : RunStatus) : string :=
  match s with
  | Created => "created"
  | Claimed => "claimed"
  | Running => "running"
  | Released => "released"
  | RetryQueued => "retry_queued"
  | Completed => "completed"
  | Failed => "failed"
  | Abandoned => "abandoned"
  end.
End RunStatus.
Abbreviation RunStatus := RunStatus.RunStatus.

#[export] Instance RunStatus_eq_dec : EqDecision RunStatus.
Proof. solve_decision. Defined.

(** [ClaimGeneration::next] saturates at [u64::MAX]. *)
Definition generation_next (g : ClaimGeneration) : ClaimGeneration := sat_add u64_max g 1.

Record RunRecord := mkRunRecord {
  rr_run_id : RunId;
  rr_task_id : TaskId;
  rr_role : RunRole;
  rr_status : RunStatus;
  rr_claim_generation : ClaimGeneration;
  rr_claim_owner : option ClaimOwner;
  rr_session_id : option SessionId;
  rr_lease_expires_at : option DateTime;
  rr_attempt : Z;
  rr_created_at : DateTime;
  rr_updated_at : DateTime;
  rr_claimed_at : option DateTime;
  rr_started_at : option DateTime;
  rr_last_activity_at : option DateTime;
  rr_released_at : option DateTime;
  rr_release_reason : option string;
  rr_completed_at : option DateTime;
  rr_completion_summary : option string;
  rr_failed_at : option DateTime;
  rr_failure_reason : option string;
  rr_retry_queued_at : option DateTime;
  rr_retry_at : option DateTime;
  rr_retry_reason : option string;
  rr_continuation_turns : Z;
  rr_last_continuation_at : option DateTime;
  rr_abandoned_at : option DateTime;
  rr_abandoned_reason : option string
}.

#[export] Instance eta_RunRecord : Eta RunRecord := fun r =>
  mkRunRecord (rr_run_id r) (rr_task_id r) (rr_role r) (rr_status r)
    (rr_claim_generation r) (rr_claim_owner r) (rr_session_id r)
    (rr_lease_expires_at r) (rr_attempt r) (rr_created_at r) (rr_updated_at r)
    (rr_claimed_at r) (rr_started_at r) (rr_last_activity_at r)
    (rr_released_at r) (rr_release_reason r) (rr_completed_at r)
    (rr_completion_summary r) (rr_failed_at r) (rr_failure_reason r)
    (rr_retry_queued_at r) (rr_retry_at r) (rr_retry_reason r)
    (rr_continuation_turns r) (rr_last_continuation_at r) (rr_abandoned_at r)
    (rr_abandoned_reason r).

(** [RunRecord::new] *)
Definition RunRecord_new (run_id : RunId) (task_id : TaskId) (role : RunRole)
    (created_at : DateTime) : RunRecord := {|
  rr_run_id := run_id;
  rr_task_id := task_id;
  rr_role := role;
  rr_status := RunStatus.Created;
  rr_claim_generation := 0%Z;
  rr_claim_owner := None;
  rr_session_id := None;
  rr_lease_expires_at := None;
  rr_attempt := 1%Z;
  rr_created_at := created_at;
  rr_updated_at := created_at;
  rr_claimed_at := None;
  rr_started_at := None;
  rr_last_activity_at := None;
  rr_released_at := None;
  rr_release_reason := None;
  rr_completed_at := None;
  rr_completion_summary := None;
  rr_failed_at := None;
  rr_failure_reason := None;
  rr_retry_queued_at := None;
  rr_retry_at := None;
  rr_retry_reason := None;
  rr_continuation_turns := 0%Z;
  rr_last_continuation_at := None;
  rr_abandoned_at := None;
  rr_abandoned_reason := None
|}.

(** [RunRecord::is_active] *)
Definition run_is_active (r : RunRecord) : bool := negb (RunStatus.is_terminal (rr_status r)).

(** [RunRecord::claim_is_expired_at] *)
Definition claim_is_expired_at (r : RunRecord) (now : DateTime) : bool :=
  match rr_lease_expires_at r with
  | Some expires_at => (expires_at <=? now)%Z
  | None => false
  end.

(** [RunRecord::retry_is_due_at] *)
Definition retry_is_due_at (r : RunRecord) (now : DateTime) : bool :=
  bool_decide (rr_status r = RunStatus.RetryQueued) &&
  match rr_retry_at r with
  | Some retry_at => (retry_at <=? now)%Z
  | None => true
  end.

#[export] Instance RunRecord_eq_dec : EqDecision RunRecord.
Proof. solve_decision. Defined.

(** ** Agents and sessions (agent.rs) *)

Record SessionSpec := mkSessionSpec {
  ss_agent_id : AgentId;
  ss_role : string;
  ss_worktree_path : string;
  ss_merge_target : option string
}.

(** [SessionSpec::new] *)
Definition SessionSpec_new (agent_id : AgentId) (role worktree_path : string) : SessionSpec :=
  {| ss_agent_id := agent_id; ss_role := role;
     ss_worktree_path := worktree_path; ss_merge_target := None |}.

Module HealthStatus.
Inductive HealthStatus := Healthy | Unhealthy | Unknown.
End HealthStatus.
Abbreviation HealthStatus := HealthStatus.HealthStatus.

(** ** Reviews (review.rs) *)

Module ReviewVerdict.
Inductive ReviewVerdict := Approve | ChangesRequested | Reject.
End ReviewVerdict.
Abbreviation ReviewVerdict := ReviewVerdict.ReviewVerdict.

#[export] Instance ReviewVerdict_eq_dec : EqDecision ReviewVerdict.
Proof. solve_decision. Defined.

(** [ReviewScore(u8)]: the field is public and the type derives
    [Deserialize], so a value outside 1..=10 is representable. *)
Record ReviewScore := mkReviewScore { score_u8 : Z }.

#[export] Instance ReviewScore_eq_dec : EqDecision ReviewScore.
Proof. solve_decision. Defined.

(** [impl TryFrom<u8> for ReviewScore] *)
Definition review_score_try_from (value : Z) : Result ReviewScore string :=
  if (1 <=? value)%Z && (value <=? 10)%Z then Ok (mkReviewScore value)
  else Err "Score must be between 1 and 10".

Module CommentSeverity.
Inductive CommentSeverity := Blocking | Suggestion | Nitpick.
End CommentSeverity.
Abbreviation CommentSeverity := CommentSeverity.CommentSeverity.

Record InlineComment := mkInlineComment {
  ic_file : string;
  ic_line : Z;
  ic_content : string;
  ic_severity : CommentSeverity
}.

Record ReviewFinding := mkReviewFinding {
  fd_description : string;
  fd_location : option InlineComment;
  fd_suggestion : option string;
  fd_severity : CommentSeverity
}.

Record ConsolidatedFeedback := mkConsolidatedFeedback {
  cf_blocking : list ReviewFinding;
  cf_suggestions : list ReviewFinding;
  cf_nitpicks : list ReviewFinding;
  cf_dissent : list string
}.

Record ReviewPolicy := mkReviewPolicy {
  rp_min_average_score : Z;
  rp_min_individual_score : Z;
  rp_blocking_score : Z;
  rp_min_approvals : Z;
  rp_require_blocking_feedback_resolution : bool;
  rp_max_review_rounds : Z
}.

(** [impl Default for ReviewPolicy] *)
Definition ReviewPolicy_default : ReviewPolicy := {|
  rp_min_average_score := 7;
  rp_min_individual_score := 6;
  rp_blocking_score := 5;
  rp_min_approvals := 2;
  rp_require_blocking_feedback_resolution := true;
  rp_max_review_rounds := 3
|}%Z.

(** ** Run policies (config.rs) *)

Record RetryPolicyConfig := mkRetryPolicyConfig {
  rpc_enabled : bool;
  rpc_max_attempts : Z;
  rpc_base_delay_ms : Z;
  rpc_max_delay_ms : Z;
  rpc_jitter_ms : Z
}.

Definition RetryPolicyConfig_default : RetryPolicyConfig := {|
  rpc_enabled := true;
  rpc_max_attempts := 2;
  rpc_base_delay_ms := 10000;
  rpc_max_delay_ms := 60000;
  rpc_jitter_ms := 250
|}%Z.

Record ContinuationPolicyConfig := mkContinuationPolicyConfig {
  cpc_enabled : bool;
  cpc_max_turns_per_run : Z;
  cpc_idle_prompt_after_secs : Z
}.

Definition ContinuationPolicyConfig_default : ContinuationPolicyConfig := {|
  cpc_enabled := true;
  cpc_max_turns_per_run := 5;
  cpc_idle_prompt_after_secs := 300
|}%Z.
