(* ===== verification/Events.v ===== *)
(** * Events (brehon-types: event.rs, event_index.rs, and the payload types of
    proof.rs and feedback.rs that events carry)

    Every variant of [EventKind] with all its fields, the [Event] and
    [EventEnvelope] structs, and the accessors the event store builds its
    secondary indexes from. *)

From S2P Require Import Prelude Types.

(** ** Proof evidence carried by events (proof.rs) *)

Module ProofBundleStatus.
Inductive ProofBundleStatus := Incomplete | Complete | Blocked | Failed | Superseded.
End ProofBundleStatus.
Abbreviation ProofBundleStatus := ProofBundleStatus.ProofBundleStatus.

Module ProofCheckStatus.
Inductive ProofCheckStatus := Passed | Failed | Skipped | Unknown.
End ProofCheckStatus.
Abbreviation ProofCheckStatus := ProofCheckStatus.ProofCheckStatus.

Module ProofBlockerStatus.
Inductive ProofBlockerStatus := Open | Resolved | Waived.
End ProofBlockerStatus.
Abbreviation ProofBlockerStatus := ProofBlockerStatus.ProofBlockerStatus.

Record ProofCommand := mkProofCommand {
  pc_run_id : option RunId;
  pc_command : string;
  pc_cwd : option string;
  pc_exit_code : option Z;
  pc_started_at : DateTime;
  pc_completed_at : option DateTime;
  pc_output_summary : option string;
  pc_evidence_ref : option string
}.

Record ProofCheck := mkProofCheck {
  pk_name : string;
  pk_command : option string;
  pk_status : ProofCheckStatus;
  pk_summary : option string;
  pk_evidence_ref : option string;
  pk_checked_at : DateTime
}.

Record ProofReview := mkProofReview {
  pv_review_id : ReviewId;
  pv_reviewer_id : option string;
  pv_score : option ReviewScore;
  pv_verdict : option ReviewVerdict;
  pv_findings : list string;
  pv_followups : list string;
  pv_reviewed_at : DateTime
}.

Record ProofIntegration := mkProofIntegration {
  pi_status : string;
  pi_branch : option string;
  pi_base_branch : option string;
  pi_worktree_path : option string;
  pi_commit : option string;
  pi_summary : option string;
  pi_conflicts : list string;
  pi_integrated_at : DateTime
}.

Record ProofDecision := mkProofDecision {
  pd_decision_id : option string;
  pd_decided_by : string;
  pd_decision : string;
  pd_reason : option string;
  pd_decided_at : DateTime
}.

Record ProofBlocker := mkProofBlocker {
  pb_blocker_id : option string;
  pb_summary : string;
  pb_source : option string;
  pb_status : ProofBlockerStatus;
  pb_created_at : DateTime;
  pb_resolved_at : option DateTime;
  pb_resolution : option string
}.

(** ** Feedback kinds carried by events (feedback.rs) *)

Module FeedbackTriggerKind.
Inductive FeedbackTriggerKind :=
| ReviewerFollowup
| ReviewChangesRequested
| WorkerFailed
| WorkerStuck
| WorkerBlocked
| PermissionBlocked
| IntegrationConflict
| CloseGateBlocked
| StaleClaim.
End FeedbackTriggerKind.
Abbreviation FeedbackTriggerKind := FeedbackTriggerKind.FeedbackTriggerKind.

Module FeedbackOutcomeKind.
Inductive FeedbackOutcomeKind :=
| NoAction
| NudgeWorker
| RequestRework
| RetryRun
| PromoteReviewerFollowup
| WaiveReviewerFollowup
| RequestOperatorClarification
| QueueConflictResolution
| RequestIntegrationRepair
| EnterDrain
| EnterSafeMode
| Escalate.
End FeedbackOutcomeKind.
Abbreviation FeedbackOutcomeKind := FeedbackOutcomeKind.FeedbackOutcomeKind.

Module FeedbackOutcomeRejectionReason.
Inductive FeedbackOutcomeRejectionReason :=
| ContractVersionMismatch
| TurnIdMismatch
| TriggerIdMismatch
| OutcomeKindDenied
| TriggerKindMismatch
| MissingRationale
| MissingRequiredField
| RationaleTooLong
| Unknown.
End FeedbackOutcomeRejectionReason.
Abbreviation FeedbackOutcomeRejectionReason :=
  FeedbackOutcomeRejectionReason.FeedbackOutcomeRejectionReason.

Module ProofDecisionScope.
Inductive ProofDecisionScope := Operator | Supervisor.
End ProofDecisionScope.
Abbreviation ProofDecisionScope := ProofDecisionScope.ProofDecisionScope.

(** ** Event kinds (event.rs) *)

Module EventKind.
Inductive EventKind :=
| AgentSpawned (agent_id session_id role : string)
| AgentDied (agent_id session_id reason : string)
| PromptSent (session_id prompt_id content : string)
| PromptCancelled (session_id prompt_id reason : string)
| ResponseReceived (session_id prompt_id : string) (tokens_used : Z)
| PermissionRequested (session_id permission_id action : string)
| PermissionResolved (session_id permission_id : string) (approved : bool)
| OperationStarted (session_id operation : string)
| OperationCompleted (session_id operation : string) (success : bool)
| TaskCreated (task_id : string)
| TaskAssigned (task_id agent_id : string)
| TaskCompleted (task_id : string)
| RunCreated (run_id : RunId) (task_id : TaskId) (role : RunRole) (status : RunStatus)
| RunClaimed (run_id : RunId) (task_id : TaskId) (role : RunRole) (owner : ClaimOwner)
    (session_id : option SessionId) (generation : ClaimGeneration) (lease_expires_at : DateTime)
| RunClaimRenewed (run_id : RunId) (task_id : TaskId) (role : RunRole) (owner : ClaimOwner)
    (generation : ClaimGeneration) (lease_expires_at : DateTime)
| RunStarted (run_id : RunId) (task_id : TaskId) (role : RunRole)
    (generation : ClaimGeneration) (started_at : DateTime)
| RunActivityObserved (run_id : RunId) (task_id : TaskId) (role : RunRole)
    (generation : ClaimGeneration) (activity : string) (observed_at : DateTime)
| RunReleased (run_id : RunId) (task_id : TaskId) (role : RunRole)
    (generation : ClaimGeneration) (reason : option string) (released_at : DateTime)
| RunRetryQueued (run_id : RunId) (task_id : TaskId) (role : RunRole)
    (generation : ClaimGeneration) (reason : string) (queued_at : DateTime)
    (retry_at : option DateTime)
| RunCompleted (run_id : RunId) (task_id : TaskId) (role : RunRole)
    (generation : ClaimGeneration) (completed_at : DateTime)
| RunFailed (run_id : RunId) (task_id : TaskId) (role : RunRole)
    (generation : ClaimGeneration) (reason : string) (failed_at : DateTime)
| RunAbandoned (run_id : RunId) (task_id : TaskId) (role : RunRole)
    (generation : ClaimGeneration) (reason : string) (abandoned_at : DateTime)
| StaleRunMutationRejected (run_id : RunId) (task_id : TaskId) (role : RunRole)
    (attempted_generation current_generation : ClaimGeneration) (mutation : string)
| ProofBundleCreated (proof_bundle_id : ProofBundleId) (task_id : TaskId)
    (run_ids : list RunId) (created_at : DateTime)
| ProofCommandRecorded (proof_bundle_id : ProofBundleId) (task_id : TaskId)
    (command : ProofCommand) (recorded_at : DateTime)
| ProofCheckRecorded (proof_bundle_id : ProofBundleId) (task_id : TaskId)
    (check : ProofCheck) (is_test_result : bool) (recorded_at : DateTime)
| ProofReviewLinked (proof_bundle_id : ProofBundleId) (task_id : TaskId)
    (review : ProofReview) (linked_at : DateTime)
| ProofIntegrationRecorded (proof_bundle_id : ProofBundleId) (task_id : TaskId)
    (integration : ProofIntegration) (recorded_at : DateTime)
| ProofDecisionRecorded (proof_bundle_id : ProofBundleId) (task_id : TaskId)
    (scope : ProofDecisionScope) (decision : ProofDecision) (recorded_at : DateTime)
| ProofBlockerRecorded (proof_bundle_id : ProofBundleId) (task_id : TaskId)
    (blocker : ProofBlocker) (recorded_at : DateTime)
| ProofBundleFinalized (proof_bundle_id : ProofBundleId) (task_id : TaskId)
    (final_status : ProofBundleStatus) (finalized_at : DateTime)
| ReviewRequested (task_id review_id : string)
| ReviewScoreReceived (review_id reviewer_id : string) (score : Z)
| ReviewApproved (review_id : string)
| ReviewRejected (review_id : string)
| ReviewChangesRequested (review_id : string)
| MergePrepared (task_id branch : string)
| MergeCommitted (task_id : string)
| MergeAborted (task_id reason : string)
| EpicBranchCreated (epic_id branch base_commit : string)
| SubtaskBranchCreated (subtask_id branch base_branch : string)
| SubtaskIntegrated (subtask_id epic_id branch : string)
| NudgeSent (session_id kind content : string)
| NudgeAcknowledged (session_id nudge_kind : string)
| NudgeActedOn (session_id nudge_kind progress_type : string)
| NudgeTimedOut (session_id nudge_id nudge_kind : string) (elapsed_secs : Z)
| MemoryCreated (memory_id content : string) (tags : list string) (source_agent : option string)
| MemoryDeleted (memory_id : string)
| StuckDetected (session_id : string) (duration_minutes : Z) (pattern : option string)
| EscalationTriggered (reason context : string)
| FeedbackTriggerDetected (trigger_id : FeedbackTriggerId) (dedup_key : string)
    (kind : FeedbackTriggerKind) (task_id : option TaskId) (run_id : option RunId)
    (review_id : option string) (source_event_ids : list EventId)
    (covered_event_range : option (EventId * EventId)) (summary : string) (detected_at : DateTime)
| FeedbackBriefBuilt (trigger_id : FeedbackTriggerId) (turn_id : FeedbackTurnId)
    (task_id : option TaskId) (run_id : option RunId) (source_event_ids : list EventId)
    (covered_event_range : option (EventId * EventId))
    (contract_version total_bytes section_count : Z) (truncated has_missing_context : bool)
    (built_at : DateTime)
| FeedbackTurnStarted (trigger_id : FeedbackTriggerId) (turn_id : FeedbackTurnId)
    (task_id : option TaskId) (source_event_ids : list EventId)
    (covered_event_range : option (EventId * EventId)) (supervisor_id : option string)
    (started_at : DateTime)
| FeedbackOutcomeReceived (trigger_id : FeedbackTriggerId) (turn_id : FeedbackTurnId)
    (task_id : option TaskId) (source_event_ids : list EventId)
    (covered_event_range : option (EventId * EventId)) (outcome_kind : FeedbackOutcomeKind)
    (received_at : DateTime)
| FeedbackOutcomeValidated (trigger_id : FeedbackTriggerId) (turn_id : FeedbackTurnId)
    (task_id : option TaskId) (source_event_ids : list EventId)
    (covered_event_range : option (EventId * EventId)) (outcome_kind : FeedbackOutcomeKind)
    (validated_at : DateTime)
| FeedbackOutcomeRejected (trigger_id : FeedbackTriggerId) (turn_id : FeedbackTurnId)
    (task_id : option TaskId) (source_event_ids : list EventId)
    (covered_event_range : option (EventId * EventId))
    (outcome_kind : option FeedbackOutcomeKind) (reason : FeedbackOutcomeRejectionReason)
    (message : string) (rejected_at : DateTime)
| FeedbackDecisionRecorded (trigger_id : FeedbackTriggerId) (turn_id : FeedbackTurnId)
    (task_id : option TaskId) (source_event_ids : list EventId)
    (covered_event_range : option (EventId * EventId)) (outcome_kind : FeedbackOutcomeKind)
    (decided_at : DateTime) (decision_summary : string)
| FeedbackApplied (trigger_id : FeedbackTriggerId) (turn_id : FeedbackTurnId)
    (task_id : option TaskId) (source_event_ids : list EventId)
    (covered_event_range : option (EventId * EventId)) (outcome_kind : FeedbackOutcomeKind)
    (application_summary : string) (applied_at : DateTime)
| FeedbackFailed (trigger_id : FeedbackTriggerId) (turn_id : FeedbackTurnId)
    (task_id : option TaskId) (source_event_ids : list EventId)
    (covered_event_range : option (EventId * EventId)) (outcome_kind : FeedbackOutcomeKind)
    (error : string) (failed_at : DateTime)
| SystemDraining (reason : string)
| WorkerReassigned (old_worker new_worker task_id reason worktree_state : string).
End EventKind.
Abbreviation EventKind := EventKind.EventKind.

(** Derived equality ([PartialEq]). *)
#[export] Instance ProofBundleStatus_eq_dec : EqDecision ProofBundleStatus.
Proof. solve_decision. Defined.
#[export] Instance ProofCheckStatus_eq_dec : EqDecision ProofCheckStatus.
Proof. solve_decision. Defined.
#[export] Instance ProofBlockerStatus_eq_dec : EqDecision ProofBlockerStatus.
Proof. solve_decision. Defined.
#[export] Instance ProofCommand_eq_dec : EqDecision ProofCommand.
Proof. solve_decision. Defined.
#[export] Instance ProofCheck_eq_dec : EqDecision ProofCheck.
Proof. solve_decision. Defined.
#[export] Instance ProofReview_eq_dec : EqDecision ProofReview.
Proof. solve_decision. Defined.
#[export] Instance ProofIntegration_eq_dec : EqDecision ProofIntegration.
Proof. solve_decision. Defined.
#[export] Instance ProofDecision_eq_dec : EqDecision ProofDecision.
Proof. solve_decision. Defined.
#[export] Instance ProofBlocker_eq_dec : EqDecision ProofBlocker.
Proof. solve_decision. Defined.
#[export] Instance FeedbackTriggerKind_eq_dec : EqDecision FeedbackTriggerKind.
Proof. solve_decision. Defined.
#[export] Instance FeedbackOutcomeKind_eq_dec : EqDecision FeedbackOutcomeKind.
Proof. solve_decision. Defined.
#[export] Instance FeedbackOutcomeRejectionReason_eq_dec : EqDecision FeedbackOutcomeRejectionReason.
Proof. solve_decision. Defined.
#[export] Instance ProofDecisionScope_eq_dec : EqDecision ProofDecisionScope.
Proof. solve_decision. Defined.
#[export] Instance EventKind_eq_dec : EqDecision EventKind.
Proof. solve_decision. Defined.

Record Event := mkEvent {
  ev_kind : EventKind;
  ev_timestamp : DateTime;
  ev_aggregate_id : string
}.

Record EventEnvelope := mkEventEnvelope {
  ee_event : Event;
  ee_event_id : EventId;
  ee_correlation_id : option string;
  ee_causation_id : option string;
  ee_idempotency_key : option string
}.

(** ** Index dimensions of an event (event_index.rs) *)

(** [EventKind::task_id] *)
Definition event_task_id (k : EventKind) : option string :=
  match k with
  | EventKind.TaskCreated t | EventKind.TaskAssigned t _ | EventKind.TaskCompleted t
  | EventKind.ReviewRequested t _ | EventKind.MergePrepared t _ | EventKind.MergeCommitted t
  | EventKind.MergeAborted t _ | EventKind.WorkerReassigned _ _ t _ _ => Some t
  | EventKind.RunCreated _ t _ _ | EventKind.RunClaimed _ t _ _ _ _ _
  | EventKind.RunClaimRenewed _ t _ _ _ _ | EventKind.RunStarted _ t _ _ _
  | EventKind.RunActivityObserved _ t _ _ _ _ | EventKind.RunReleased _ t _ _ _ _
  | EventKind.RunRetryQueued _ t _ _ _ _ _ | EventKind.RunCompleted _ t _ _ _
  | EventKind.RunFailed _ t _ _ _ _ | EventKind.RunAbandoned _ t _ _ _ _
  | EventKind.StaleRunMutationRejected _ t _ _ _ _ | EventKind.ProofBundleCreated _ t _ _
  | EventKind.ProofCommandRecorded _ t _ _ | EventKind.ProofCheckRecorded _ t _ _ _
  | EventKind.ProofReviewLinked _ t _ _ | EventKind.ProofIntegrationRecorded _ t _ _
  | EventKind.ProofDecisionRecorded _ t _ _ _ | EventKind.ProofBlockerRecorded _ t _ _
  | EventKind.ProofBundleFinalized _ t _ _ => Some t
  | EventKind.FeedbackTriggerDetected _ _ _ t _ _ _ _ _ _
  | EventKind.FeedbackBriefBuilt _ _ t _ _ _ _ _ _ _ _ _
  | EventKind.FeedbackTurnStarted _ _ t _ _ _ _
  | EventKind.FeedbackOutcomeReceived _ _ t _ _ _ _
  | EventKind.FeedbackOutcomeValidated _ _ t _ _ _ _
  | EventKind.FeedbackOutcomeRejected _ _ t _ _ _ _ _ _
  | EventKind.FeedbackDecisionRecorded _ _ t _ _ _ _ _
  | EventKind.FeedbackApplied _ _ t _ _ _ _ _
  | EventKind.FeedbackFailed _ _ t _ _ _ _ _ => t
  | _ => None
  end.

(** [EventKind::review_id] *)
Definition event_review_id (k : EventKind) : option string :=
  match k with
  | EventKind.ReviewRequested _ r | EventKind.ReviewScoreReceived r _ _
  | EventKind.ReviewApproved r | EventKind.ReviewRejected r
  | EventKind.ReviewChangesRequested r => Some r
  | EventKind.ProofReviewLinked _ _ review _ => Some (pv_review_id review)
  | _ => None
  end.

(** [EventKind::agent_id] *)
Definition event_agent_id (k : EventKind) : option string :=
  match k with
  | EventKind.AgentSpawned a _ _ | EventKind.AgentDied a _ _ | EventKind.TaskAssigned _ a => Some a
  | _ => None
  end.
