(* ===== verification/TaskLifecycle.v ===== *)
(** * Task lifecycle state machine (brehon-orchestrator/src/task_lifecycle.rs)

    The transition table, [TaskLifecycle::apply], the predicates over statuses,
    the step relation they define, and what a task's history must contain. *)

From S2P Require Import Prelude Types.

(** ** Errors of the orchestrator (error.rs) *)

Module OrchestratorError.
Inductive OrchestratorError :=
| CycleError (msg : string)
| InvalidTransition (msg : string)
| AssignmentError (msg : string)
| WorkerPoolError (msg : string)
| TaskNotFound (msg : string)
| WorkerNotFound (msg : string)
| DependencyNotFound (msg : string)
| GitUnavailable (msg : string)
| NoAvailableWorkers
| PortError (msg : string)
| StorageError (msg : string).
End OrchestratorError.
Abbreviation OrchestratorError := OrchestratorError.OrchestratorError.

Module Transition.
Inductive Transition :=
| Create
| Assign
| Start
| Complete
| RequestChanges
| Iterate
| Approve
| Merge
| Block
| Unblock
| Reassign
| Invalidate.
End Transition.
Abbreviation Transition := Transition.Transition.

#[export] Instance Transition_eq_dec : EqDecision Transition.
Proof. solve_decision. Defined.

(** [{:?}] of the two enums, used in error messages. *)
Definition debug_TaskStatus (s : TaskStatus) : string :=
  match s with
  | TaskStatus.Pending => "Pending"
  | TaskStatus.Assigned => "Assigned"
  | TaskStatus.InProgress => "InProgress"
  | TaskStatus.InReview => "InReview"
  | TaskStatus.ChangesRequested => "ChangesRequested"
  | TaskStatus.Approved => "Approved"
  | TaskStatus.Merged => "Merged"
  | TaskStatus.Blocked => "Blocked"
  end.

Definition debug_Transition (t : Transition) : string :=
  match t with
  | Transition.Create => "Create"
  | Transition.Assign => "Assign"
  | Transition.Start => "Start"
  | Transition.Complete => "Complete"
  | Transition.RequestChanges => "RequestChanges"
  | Transition.Iterate => "Iterate"
  | Transition.Approve => "Approve"
  | Transition.Merge => "Merge"
  | Transition.Block => "Block"
  | Transition.Unblock => "Unblock"
  | Transition.Reassign => "Reassign"
  | Transition.Invalidate => "Invalidate"
  end.

(** [TaskLifecycle::valid_transitions_from] *)
Definition valid_transitions_from (status : TaskStatus) : list Transition :=
  match status with
  | TaskStatus.Pending => [Transition.Assign]
  | TaskStatus.Assigned => [Transition.Start; Transition.Reassign]
  | TaskStatus.InProgress => [Transition.Complete; Transition.Block; Transition.Reassign]
  | TaskStatus.InReview => [Transition.RequestChanges; Transition.Approve; Transition.Invalidate]
  | TaskStatus.ChangesRequested => [Transition.Iterate]
  | TaskStatus.Approved => [Transition.Merge]
  | TaskStatus.Merged => []
  | TaskStatus.Blocked => [Transition.Unblock]
  end.

(** [TaskLifecycle::can_transition] *)
Definition can_transition (from : TaskStatus) (transition : Transition) : bool :=
  bool_decide (transition ∈ valid_transitions_from from).

(** [TaskLifecycle::apply] *)
Definition apply (status : TaskStatus) (transition : Transition)
    : Result TaskStatus OrchestratorError :=
  if negb (can_transition status transition) then
    Err (OrchestratorError.InvalidTransition
      ("Cannot apply " +:+ debug_Transition transition +:+ " transition to task in "
       +:+ debug_TaskStatus status +:+ " state"))
  else
    match status, transition with
    | TaskStatus.Pending, Transition.Assign => Ok TaskStatus.Assigned
    | TaskStatus.Assigned, Transition.Start => Ok TaskStatus.InProgress
    | TaskStatus.Assigned, Transition.Reassign => Ok TaskStatus.Pending
    | TaskStatus.InProgress, Transition.Complete => Ok TaskStatus.InReview
    | TaskStatus.InProgress, Transition.Block => Ok TaskStatus.Blocked
    | TaskStatus.InProgress, Transition.Reassign => Ok TaskStatus.Pending
    | TaskStatus.InReview, Transition.RequestChanges => Ok TaskStatus.ChangesRequested
    | TaskStatus.InReview, Transition.Approve => Ok TaskStatus.Approved
    | TaskStatus.InReview, Transition.Invalidate => Ok TaskStatus.Pending
    | TaskStatus.ChangesRequested, Transition.Iterate => Ok TaskStatus.InProgress
    | TaskStatus.Approved, Transition.Merge => Ok TaskStatus.Merged
    | TaskStatus.Blocked, Transition.Unblock => Ok TaskStatus.Pending
    | _, _ =>
        Err (OrchestratorError.InvalidTransition
          ("Invalid transition " +:+ debug_Transition transition +:+ " from "
           +:+ debug_TaskStatus status))
    end.

(** [TaskLifecycle::is_terminal], [is_active], [is_blocked], [is_pending] *)
Definition is_terminal (status : TaskStatus) : bool :=
  match status with TaskStatus.Merged => true | _ => false end.

Definition is_active (status : TaskStatus) : bool :=
  match status with
  | TaskStatus.Assigned | TaskStatus.InProgress | TaskStatus.InReview
  | TaskStatus.ChangesRequested | TaskStatus.Approved => true
  | _ => false
  end.

Definition is_blocked (status : TaskStatus) : bool :=
  match status with TaskStatus.Blocked => true | _ => false end.

Definition is_pending (status : TaskStatus) : bool :=
  match status with TaskStatus.Pending => true | _ => false end.

(** ** Histories: sequences of accepted transitions *)

(** [history s ts s']: applying the transitions [ts] in order, each accepted
    by [apply], takes a task from [s] to [s']. *)
Inductive history : TaskStatus -> list Transition -> TaskStatus -> Prop :=
| history_nil s : history s [] s
| history_cons s t s1 ts s' :
    apply s t = Ok s1 -> history s1 ts s' -> history s (t :: ts) s'.

Ltac solve_finite :=
  repeat match goal with
  | s : TaskStatus |- _ => destruct s
  | t : Transition |- _ => destruct t
  end; try discriminate; try reflexivity.

(** [apply] accepts exactly the transitions of the table: its last match arm,
    a second error, is never reached. *)
Lemma apply_ok_iff s t : is_ok (apply s t) = can_transition s t.
Proof. destruct s, t; reflexivity. Qed.

Lemma apply_err_message s t e :
  apply s t = Err e ->
  e = OrchestratorError.InvalidTransition
    ("Cannot apply " +:+ debug_Transition t +:+ " transition to task in "
     +:+ debug_TaskStatus s +:+ " state").
Proof. destruct s, t; vm_compute; intros H; congruence. Qed.

Lemma history_app s ts s1 ts' s' :
  history s ts s1 -> history s1 ts' s' -> history s (ts ++ ts') s'.
Proof. induction 1; cbn; eauto using history. Qed.

Lemma history_snoc s ts s1 t s' :
  history s ts s1 -> apply s1 t = Ok s' -> history s (ts ++ [t]) s'.
Proof. intros H1 H2. eapply history_app; [done|]. eauto using history. Qed.

(** A history is determined by its transitions. *)
Lemma history_det s ts s1 s2 : history s ts s1 -> history s ts s2 -> s1 = s2.
Proof.
  intros H. revert s2. induction H as [|s t s1 ts s' Ha _ IH]; intros s2 H2; inversion H2; subst.
  - done.
  - apply IH. congruence.
Qed.

(** What every transition that leads to a status must have been. *)
Lemma apply_into_merged s t : apply s t = Ok TaskStatus.Merged -> s = TaskStatus.Approved /\ t = Transition.Merge.
Proof. solve_finite; intros; done. Qed.

Lemma apply_into_approved s t : apply s t = Ok TaskStatus.Approved -> s = TaskStatus.InReview /\ t = Transition.Approve.
Proof. solve_finite; intros; done. Qed.

Lemma apply_into_in_review s t : apply s t = Ok TaskStatus.InReview -> s = TaskStatus.InProgress /\ t = Transition.Complete.
Proof. solve_finite; intros; done. Qed.

(** A history ends by its last transition. *)
Lemma history_last s ts s' :
  history s ts s' ->
  (ts = [] /\ s = s') \/ exists ts0 t s1, ts = ts0 ++ [t] /\ history s ts0 s1 /\ apply s1 t = Ok s'.
Proof.
  induction 1 as [s|s t s1 ts s' Ha Hh IH]; [by left|]. right.
  destruct IH as [[-> ->]|(ts0 & t0 & s2 & -> & Hh0 & Ha0)].
  - exists [], t, s. eauto using history.
  - exists (t :: ts0), t0, s2. eauto using history.
Qed.

(** ** Properties *)

(** a task that is merged went through review last.  Whatever its history
    from creation ([Pending]) to [Merged], the last three transitions are the
    worker's completion, the panel's approval and the merge, in this order:
    no accepted history merges a task that was not approved after its last
    completion. *)
Theorem merged_only_after_review ts :
  history TaskStatus.Pending ts TaskStatus.Merged ->
  exists ts0, ts = ts0 ++ [Transition.Complete; Transition.Approve; Transition.Merge]
    /\ history TaskStatus.Pending ts0 TaskStatus.InProgress.
Proof.
  intros [[_ ?]|(ts1 & t1 & s1 & -> & H1 & A1)]%history_last; [done|].
  apply apply_into_merged in A1 as [-> ->].
  apply history_last in H1 as [[_ ?]|(ts2 & t2 & s2 & -> & H2 & A2)]; [done|].
  apply apply_into_approved in A2 as [-> ->].
  apply history_last in H2 as [[_ ?]|(ts3 & t3 & s3 & -> & H3 & A3)]; [done|].
  apply apply_into_in_review in A3 as [-> ->].
  exists ts3. by rewrite <-!(assoc_L (++)).
Qed.

(** A concrete history: one round of changes, then approval. *)
Definition sample_history : list Transition :=
  [Transition.Assign; Transition.Start; Transition.Complete; Transition.RequestChanges;
   Transition.Iterate; Transition.Complete; Transition.Approve; Transition.Merge].

Lemma merged_only_after_review_witness :
  history TaskStatus.Pending sample_history TaskStatus.Merged /\
  exists ts0, sample_history = ts0 ++ [Transition.Complete; Transition.Approve; Transition.Merge]
    /\ history TaskStatus.Pending ts0 TaskStatus.InProgress.
Proof.
  assert (H : history TaskStatus.Pending sample_history TaskStatus.Merged)
    by (repeat (eapply history_cons; [reflexivity|]); constructor).
  split; [exact H|]. exact (merged_only_after_review sample_history H).
Defined.

(** [Merged] is the one status without a way out, and every status can
    still reach it: [is_terminal] holds of a status exactly when [apply]
    refuses every transition from it, and from every status there is an
    accepted history to [Merged]. *)
Theorem lifecycle_no_dead_state (s : TaskStatus) :
  (is_terminal s = true <-> forall t, is_ok (apply s t) = false) /\
  exists ts, history s ts TaskStatus.Merged.
Proof.
  split.
  - split; [intros ? t; destruct s, t; done|].
    intros H. destruct s; try done;
      [specialize (H Transition.Assign)|specialize (H Transition.Start)
      |specialize (H Transition.Complete)|specialize (H Transition.Approve)
      |specialize (H Transition.Iterate)|specialize (H Transition.Merge)
      |specialize (H Transition.Unblock)]; done.
  - exists (match s with
      | TaskStatus.Merged => []
      | TaskStatus.Approved => [Transition.Merge]
      | TaskStatus.InReview => [Transition.Approve; Transition.Merge]
      | TaskStatus.InProgress => [Transition.Complete; Transition.Approve; Transition.Merge]
      | TaskStatus.Assigned =>
          [Transition.Start; Transition.Complete; Transition.Approve; Transition.Merge]
      | TaskStatus.ChangesRequested =>
          [Transition.Iterate; Transition.Complete; Transition.Approve; Transition.Merge]
      | TaskStatus.Pending =>
          [Transition.Assign; Transition.Start; Transition.Complete; Transition.Approve; Transition.Merge]
      | TaskStatus.Blocked =>
          [Transition.Unblock; Transition.Assign; Transition.Start; Transition.Complete;
           Transition.Approve; Transition.Merge]
      end).
    destruct s; repeat (eapply history_cons; [reflexivity|]); constructor.
Qed.
