(* ===== verification/DependencyGraph.v ===== *)
(** * Task dependency graph (brehon-orchestrator/src/dependency_graph.rs)

    The graph a task board keeps of which task waits for which: its operations,
    the depth-first cycle check behind [add_dependency], Kahn's algorithm
    behind [topological_order], and the queries the assignment loop makes.

    An edge [x -> y] means that [x] depends on [y].  A [HashSet] is a [gset], a
    [HashMap] a [gmap]; loops over them follow an [IterOrder], and every theorem
    holds for all of them.  The two loops that are not structural take fuel;
    [has_cycle_terminates] and [kahn_terminates] show that the fuel the
    definitions choose is enough on every graph. *)

From stdpp Require Import relations.
From S2P Require Import Prelude Types TaskLifecycle.

Record DependencyGraph := mkDependencyGraph {
  dg_nodes : gset TaskId;
  dg_edges : gmap TaskId (gset TaskId);
  dg_reverse_edges : gmap TaskId (gset TaskId)
}.

#[export] Instance eta_DependencyGraph : Eta DependencyGraph := fun g =>
  mkDependencyGraph (dg_nodes g) (dg_edges g) (dg_reverse_edges g).

Definition graph_new : DependencyGraph := mkDependencyGraph ∅ ∅ ∅.

(** [map.entry(k).or_default()] on a map of sets *)
Definition or_default (k : TaskId) (m : gmap TaskId (gset TaskId)) : gmap TaskId (gset TaskId) :=
  match m !! k with Some _ => m | None => <[k := ∅]> m end.

Definition add_task (task_id : TaskId) (g : DependencyGraph) : DependencyGraph :=
  {| dg_nodes := dg_nodes g ∪ {[task_id]};
     dg_edges := or_default task_id (dg_edges g);
     dg_reverse_edges := or_default task_id (dg_reverse_edges g) |}.

Section operations.
Context {ord : IterOrder TaskId}.

(** [DependencyGraph::remove_task]; its loop over the removed dependencies *)
Definition drop_reverse (task_id : TaskId) (deps : list TaskId)
    (rev : gmap TaskId (gset TaskId)) : gmap TaskId (gset TaskId) :=
  foldl (fun rev dep => alter (fun s => s ∖ {[task_id]}) dep rev) rev deps.

Definition remove_task (task_id : TaskId) (g : DependencyGraph) : DependencyGraph :=
  let nodes := dg_nodes g ∖ {[task_id]} in
  let '(edges, rev) :=
    match dg_edges g !! task_id with
    | Some dependencies =>
        (delete task_id (dg_edges g),
         drop_reverse task_id (iter_set dependencies) (dg_reverse_edges g))
    | None => (dg_edges g, dg_reverse_edges g)
    end in
  {| dg_nodes := nodes;
     dg_edges := (fun deps => deps ∖ {[task_id]}) <$> edges;
     dg_reverse_edges := delete task_id rev |}.

(** *** Cycle detection: [has_cycle_dfs] and [has_cycle]

    The state is ([visited], [rec_stack]); the result is [None] when the fuel
    runs out. *)
Definition DfsState : Type := gset TaskId * gset TaskId.

(** The loop [for neighbor in neighbors] of [has_cycle_dfs] *)
Fixpoint dfs_neighbors (dfs : TaskId -> DfsState -> option (bool * DfsState))
    (neighbors : list TaskId) (st : DfsState) : option (bool * DfsState) :=
  match neighbors with
  | [] => Some (false, st)
  | neighbor :: rest =>
      if negb (bool_decide (neighbor ∈ st.1)) then
        match dfs neighbor st with
        | Some (true, st') => Some (true, st')
        | Some (false, st') => dfs_neighbors dfs rest st'
        | None => None
        end
      else if bool_decide (neighbor ∈ st.2) then Some (true, st)
      else dfs_neighbors dfs rest st
  end.

Fixpoint has_cycle_dfs (fuel : nat) (edges : gmap TaskId (gset TaskId)) (node : TaskId)
    (st : DfsState) : option (bool * DfsState) :=
  match fuel with
  | O => None
  | S fuel =>
      let st := (st.1 ∪ {[node]}, st.2 ∪ {[node]}) in
      match
        match edges !! node with
        | Some neighbors => dfs_neighbors (has_cycle_dfs fuel edges) (iter_set neighbors) st
        | None => Some (false, st)
        end
      with
      | Some (false, st') => Some (false, (st'.1, st'.2 ∖ {[node]}))
      | r => r
      end
  end.

(** The loop [for node in &self.nodes] of [has_cycle] *)
Fixpoint has_cycle_loop (fuel : nat) (edges : gmap TaskId (gset TaskId)) (nodes : list TaskId)
    (st : DfsState) : option bool :=
  match nodes with
  | [] => Some false
  | node :: rest =>
      if negb (bool_decide (node ∈ st.1)) then
        match has_cycle_dfs fuel edges node st with
        | Some (true, _) => Some true
        | Some (false, st') => has_cycle_loop fuel edges rest st'
        | None => None
        end
      else has_cycle_loop fuel edges rest st
  end.

(** Every id the graph mentions; the recursion is at most this deep. *)
Definition graph_universe (g : DependencyGraph) : gset TaskId :=
  dg_nodes g ∪ dom (dg_edges g) ∪ ⋃ (map_to_list (dg_edges g)).*2.

Definition has_cycle_opt (g : DependencyGraph) : option bool :=
  has_cycle_loop (S (size (graph_universe g))) (dg_edges g) (iter_set (dg_nodes g)) (∅, ∅).

Definition has_cycle (g : DependencyGraph) : bool := default false (has_cycle_opt g).

(** [DependencyGraph::add_dependency].  The [unwrap]s follow [or_default], so
    they cannot panic and [alter] is [get_mut(..).unwrap()].  The graph is
    returned on both branches: on an error the two nodes stay. *)
Definition add_dependency (task_id depends_on : TaskId) (g : DependencyGraph)
    : DependencyGraph * Result unit OrchestratorError :=
  let nodes := dg_nodes g ∪ {[task_id]} ∪ {[depends_on]} in
  let edges := or_default depends_on (or_default task_id (dg_edges g)) in
  let rev := or_default depends_on (or_default task_id (dg_reverse_edges g)) in
  let edges' := alter (fun s => s ∪ {[depends_on]}) task_id edges in
  if has_cycle (mkDependencyGraph nodes edges' rev) then
    (mkDependencyGraph nodes (alter (fun s => s ∖ {[depends_on]}) task_id edges') rev,
     Err (OrchestratorError.CycleError
       ("Adding dependency " +:+ task_id +:+ " -> " +:+ depends_on
        +:+ " would create a cycle")))
  else
    (mkDependencyGraph nodes edges' (alter (fun s => s ∪ {[task_id]}) depends_on rev), Ok tt).

(** [DependencyGraph::remove_dependency] *)
Definition remove_dependency (task_id depends_on : TaskId) (g : DependencyGraph)
    : DependencyGraph :=
  {| dg_nodes := dg_nodes g;
     dg_edges := alter (fun deps => deps ∖ {[depends_on]}) task_id (dg_edges g);
     dg_reverse_edges := alter (fun deps => deps ∖ {[task_id]}) depends_on (dg_reverse_edges g) |}.

(** [get_dependencies], [get_dependents] *)
Definition get_dependencies (g : DependencyGraph) (task_id : TaskId) : gset TaskId :=
  default ∅ (dg_edges g !! task_id).

Definition get_dependents (g : DependencyGraph) (task_id : TaskId) : gset TaskId :=
  default ∅ (dg_reverse_edges g !! task_id).

(** *** [DependencyGraph::topological_order] (Kahn's algorithm) *)

(** The loops that fill [in_degree]: zero for every node, then the number of
    its dependencies. *)
Definition in_degree_init (g : DependencyGraph) : gmap TaskId nat :=
  let zeros := foldl (fun m node => <[node := 0]> m) ∅ (iter_set (dg_nodes g)) in
  foldl (fun m task_id =>
    match dg_edges g !! task_id with
    | Some deps => <[task_id := size deps]> m
    | None => m
    end) zeros (iter_set (dg_nodes g)).

Definition queue_init (g : DependencyGraph) (in_degree : gmap TaskId nat) : list TaskId :=
  filter (fun node => in_degree !! node = Some 0) (iter_set (dg_nodes g)).

(** The loop [for dependent in dependents] *)
Fixpoint release_dependents (dependents : list TaskId) (in_degree : gmap TaskId nat)
    (queue : list TaskId) : gmap TaskId nat * list TaskId :=
  match dependents with
  | [] => (in_degree, queue)
  | dependent :: rest =>
      match in_degree !! dependent with
      | Some (S degree) =>
          release_dependents rest (<[dependent := degree]> in_degree)
            (if Nat.eqb degree 0 then queue ++ [dependent] else queue)
      | _ => release_dependents rest in_degree queue
      end
  end.

(** The loop [while let Some(node) = queue.pop_front()] *)
Fixpoint kahn_loop (fuel : nat) (rev : gmap TaskId (gset TaskId)) (in_degree : gmap TaskId nat)
    (queue result : list TaskId) : option (list TaskId) :=
  match fuel with
  | O => None
  | S fuel =>
      match queue with
      | [] => Some result
      | node :: queue =>
          let '(in_degree, queue) :=
            match rev !! node with
            | Some dependents => release_dependents (iter_set dependents) in_degree queue
            | None => (in_degree, queue)
            end in
          kahn_loop fuel rev in_degree queue (result ++ [node])
      end
  end.

Definition kahn (g : DependencyGraph) : option (list TaskId) :=
  let in_degree := in_degree_init g in
  kahn_loop (S (size (dg_nodes g))) (dg_reverse_edges g) in_degree (queue_init g in_degree) [].

Definition topological_order (g : DependencyGraph) : Result (list TaskId) OrchestratorError :=
  let result := default [] (kahn g) in
  if negb (Nat.eqb (length result) (size (dg_nodes g))) then
    Err (OrchestratorError.CycleError "Graph contains a cycle, cannot produce topological order")
  else Ok result.

(** *** Queries *)

(** The filter of [get_ready_tasks] *)
Definition task_is_ready (g : DependencyGraph) (completed : gset TaskId) (task_id : TaskId) : bool :=
  if bool_decide (task_id ∈ completed) then false
  else match dg_edges g !! task_id with
       | Some deps => forallb (fun dep => bool_decide (dep ∈ completed)) (iter_set deps)
       | None => true
       end.

Definition get_ready_tasks (g : DependencyGraph) (completed : gset TaskId) : list TaskId :=
  List.filter (task_is_ready g completed) (iter_set (dg_nodes g)).

(** The dependencies of a task that are not completed *)
Definition unmet_of (g : DependencyGraph) (completed : gset TaskId) (task_id : TaskId) : list TaskId :=
  match dg_edges g !! task_id with
  | Some deps => List.filter (fun dep => negb (bool_decide (dep ∈ completed))) (iter_set deps)
  | None => []
  end.

Definition tasks_with_unmet_dependencies (g : DependencyGraph) (completed : gset TaskId)
    : gmap TaskId (list TaskId) :=
  foldl (fun result task_id =>
    if bool_decide (task_id ∈ completed) then result
    else match unmet_of g completed task_id with
         | [] => result
         | unmet => <[task_id := unmet]> result
         end) ∅ (iter_set (dg_nodes g)).

(** [is_ready], [get_unmet_dependencies] (orchestrator.rs) *)
Definition is_ready (g : DependencyGraph) (task_id : TaskId) (completed : gset TaskId) : bool :=
  forallb (fun dep => bool_decide (dep ∈ completed)) (iter_set (get_dependencies g task_id)).

Definition get_unmet_dependencies (g : DependencyGraph) (task_id : TaskId) : list TaskId :=
  iter_set (get_dependencies g task_id).
End operations.

Definition has_task (g : DependencyGraph) (task_id : TaskId) : bool :=
  bool_decide (task_id ∈ dg_nodes g).
Definition graph_len (g : DependencyGraph) : nat := size (dg_nodes g).
Definition graph_is_empty (g : DependencyGraph) : bool := bool_decide (dg_nodes g = ∅).

(** ** The relation a graph stands for *)

(** [depends g x y]: [x] depends on [y]. *)
Definition depends (g : DependencyGraph) (x y : TaskId) : Prop := y ∈ get_dependencies g x.

Definition acyclic (g : DependencyGraph) : Prop := forall x, ~ tc (depends g) x x.

(** The representation invariant: the two maps have the nodes as keys and
    describe the same relation. *)
Record graph_rep (g : DependencyGraph) : Prop := {
  rep_edges : dom (dg_edges g) = dg_nodes g;
  rep_rev : dom (dg_reverse_edges g) = dg_nodes g;
  rep_inverse : forall x y, y ∈ get_dependencies g x <-> x ∈ get_dependents g y
}.

Lemma rep_target g x y : graph_rep g -> y ∈ get_dependencies g x -> y ∈ dg_nodes g.
Proof.
  intros [_ Hr Hi] Hd. apply Hi in Hd. unfold get_dependents in Hd. rewrite <-Hr.
  apply elem_of_dom. destruct (dg_reverse_edges g !! y); [by eauto|set_solver].
Qed.

Record graph_wf (g : DependencyGraph) : Prop := {
  wf_rep : graph_rep g;
  wf_acyclic : acyclic g
}.

(** ** Depth-first search *)

Section dfs.
Context {ord : IterOrder TaskId} (edges : gmap TaskId (gset TaskId)).

Definition edge (x y : TaskId) : Prop := y ∈ (default ∅ (edges !! x) : gset TaskId).

(** The state of the search: what has been visited and left (the black
    vertices) is closed under edges and on no cycle; the stack is visited. *)
Record dfs_inv (st : DfsState) : Prop := {
  inv_stack : st.2 ⊆ st.1;
  inv_closed : forall x y, x ∈ st.1 ∖ st.2 -> edge x y -> y ∈ st.1 ∖ st.2;
  inv_acyclic : forall x, x ∈ st.1 ∖ st.2 -> ~ tc edge x x
}.

Lemma black_closed st x y : dfs_inv st -> x ∈ st.1 ∖ st.2 -> tc edge x y -> y ∈ st.1 ∖ st.2.
Proof. intros Hi Hx Ht. induction Ht; eauto using inv_closed. Qed.

(** What a call of the search gives: an answer, sound when it is [true], and
    otherwise a larger set of visited vertices with the same stack. *)
Definition dfs_post (U : gset TaskId) (st : DfsState) (seen : TaskId -> Prop)
    (r : option (bool * DfsState)) : Prop :=
  match r with
  | None => False
  | Some (true, _) => exists x, tc edge x x
  | Some (false, st') =>
      dfs_inv st' /\ st'.2 = st.2 /\ st.1 ⊆ st'.1 /\ st'.1 ⊆ U /\
      forall x, seen x -> x ∈ st'.1 ∖ st'.2
  end.

Definition dfs_ok (U : gset TaskId) (n : nat) (dfs : TaskId -> DfsState -> option (bool * DfsState)) : Prop :=
  forall node st,
    dfs_inv st -> st.1 ⊆ U -> node ∈ U -> node ∉ st.1 -> size (U ∖ st.1) <= n ->
    (forall r, r ∈ st.2 -> rtc edge r node) ->
    dfs_post U st (fun x => x = node) (dfs node st).

Lemma dfs_neighbors_spec U n dfs node ns : forall st,
  dfs_ok U n dfs -> dfs_inv st -> node ∈ st.2 -> st.1 ⊆ U -> size (U ∖ st.1) <= n ->
  (forall y, y ∈ ns -> edge node y /\ y ∈ U) ->
  (forall r, r ∈ st.2 -> rtc edge r node) ->
  dfs_post U st (fun x => x ∈ ns) (dfs_neighbors dfs ns st).
Proof.
  induction ns as [|y ns IH]; intros st Hdfs Hinv Hnode HU Hn Hns Hstack; cbn [dfs_neighbors].
  { cbn. split_and!; try done. by intros x ?%elem_of_nil. }
  destruct (Hns y) as [Hy HyU]; [left|].
  assert (Hns' : forall y, y ∈ ns -> edge node y /\ y ∈ U) by (intros; apply Hns; by right).
  case_bool_decide as Hvis; cbn [negb].
  - case_bool_decide as Hst.
    + exists node. eapply tc_rtc_r; [by apply tc_once|]. by apply Hstack.
    + specialize (IH st Hdfs Hinv Hnode HU Hn Hns' Hstack).
      destruct (dfs_neighbors dfs ns st) as [[[] st']|]; cbn in *; [done| |done].
      destruct IH as (? & Heq & ? & ? & Hall). split_and!; try done.
      intros x. rewrite elem_of_cons. intros [->|Hx]; [|by apply Hall]. set_solver.
  - assert (Hy' : dfs_post U st (fun x => x = y) (dfs y st)).
    { apply Hdfs; try done. intros r Hr. eapply rtc_r; eauto. }
    destruct (dfs y st) as [[[] st1]|]; cbn in Hy'; [done| |done].
    destruct Hy' as (Hinv1 & Heq1 & Hsub1 & HU1 & Hsee1).
    assert (Hn1 : size (U ∖ st1.1) <= n).
    { etrans; [|exact Hn]. apply subseteq_size. set_solver. }
    specialize (IH st1 Hdfs Hinv1). rewrite Heq1 in IH.
    specialize (IH Hnode HU1 Hn1 Hns' Hstack).
    destruct (dfs_neighbors dfs ns st1) as [[[] st']|]; cbn in *; [done| |done].
    destruct IH as (Hinv' & Heq & Hsub & ? & Hall).
    split_and!; try done; [congruence|set_solver|].
    intros x. rewrite elem_of_cons. intros [->|Hx]; [|by apply Hall].
    specialize (Hsee1 y eq_refl). rewrite Heq, <-?Heq1. set_solver.
Qed.

(** Pushing an unvisited vertex leaves the black vertices as they are. *)
Lemma dfs_inv_push st node :
  dfs_inv st -> node ∉ st.1 -> dfs_inv (st.1 ∪ {[node]}, st.2 ∪ {[node]}).
Proof.
  intros [Hst Hcl Hac] Hnode.
  assert (Heq : (st.1 ∪ {[node]}) ∖ (st.2 ∪ {[node]}) = st.1 ∖ st.2) by set_solver.
  split; cbn.
  - set_solver.
  - intros x y. rewrite Heq. eauto.
  - intros x. rewrite Heq. eauto.
Qed.

(** Popping a vertex whose successors are black keeps the invariant. *)
Lemma dfs_inv_pop st node :
  dfs_inv st -> node ∈ st.2 -> (forall y, edge node y -> y ∈ st.1 ∖ st.2) ->
  dfs_inv (st.1, st.2 ∖ {[node]}).
Proof.
  intros Hinv Hnode Hsucc. pose proof Hinv as [Hst Hcl Hac].
  assert (Hin : forall x, x ∈ st.1 ∖ (st.2 ∖ {[node]}) <-> x = node \/ x ∈ st.1 ∖ st.2).
  { intros x. destruct (decide (x = node)); set_solver. }
  split; cbn.
  - set_solver.
  - intros x y. rewrite !Hin. intros [->|Hx] Hxy; [right; by apply Hsucc|right; eauto].
  - intros x. rewrite Hin. intros [->|Hx]; [|by apply Hac].
    intros Ht. assert (node ∈ st.1 ∖ st.2) as []%elem_of_difference; [|done].
    inversion Ht; subst; eauto using black_closed.
Qed.

Lemma dfs_post_mono U st (P Q : TaskId -> Prop) r :
  (forall x, Q x -> P x) -> dfs_post U st P r -> dfs_post U st Q r.
Proof. intros HQP. destruct r as [[[] ?]|]; cbn; naive_solver. Qed.

(** The search from [node] after it has been pushed: its successors. *)
Lemma dfs_successors_spec U fuel node st :
  (forall x y, edge x y -> y ∈ U) ->
  dfs_ok U fuel (has_cycle_dfs fuel edges) ->
  dfs_inv st -> node ∈ st.2 -> st.1 ⊆ U -> size (U ∖ st.1) <= fuel ->
  (forall r, r ∈ st.2 -> rtc edge r node) ->
  dfs_post U st (edge node)
    match edges !! node with
    | Some neighbors => dfs_neighbors (has_cycle_dfs fuel edges) (iter_set neighbors) st
    | None => Some (false, st)
    end.
Proof.
  intros HE Hdfs Hinv Hnode HU Hn Hstack.
  assert (Hedge : forall y, edge node y <-> y ∈ (default ∅ (edges !! node) : gset TaskId)) by done.
  destruct (edges !! node) as [ns|]; cbn in Hedge.
  - apply (dfs_post_mono _ _ (fun y => y ∈ iter_set ns)).
    { intros x. by rewrite elem_of_iter_set, Hedge. }
    eapply (dfs_neighbors_spec U fuel _ node); try done.
    intros y. rewrite elem_of_iter_set, <-Hedge. eauto.
  - cbn. split_and!; try done. intros x. rewrite Hedge. set_solver.
Qed.

Lemma has_cycle_dfs_spec U fuel :
  (forall x y, edge x y -> y ∈ U) -> dfs_ok U fuel (has_cycle_dfs fuel edges).
Proof.
  intros HE. induction fuel as [|fuel IH]; intros node st Hinv HU Hin Hnode Hn Hstack.
  { assert (Hz : size (U ∖ st.1) = 0) by lia. apply size_empty_inv in Hz. set_solver. }
  cbn [has_cycle_dfs]. set (st0 := (st.1 ∪ {[node]}, st.2 ∪ {[node]})).
  assert (Hsz : size (U ∖ st0.1) <= fuel).
  { assert (size (U ∖ st0.1) < size (U ∖ st.1)); [|lia]. apply subset_size.
    split; [set_solver|]. set_solver. }
  opose proof* (dfs_successors_spec U fuel node st0 HE IH (dfs_inv_push _ _ Hinv Hnode)) as Hpost;
    [set_solver|set_solver|done|..].
  { intros r. unfold st0; cbn. rewrite elem_of_union, elem_of_singleton.
    intros [?| ->]; [by apply Hstack|done]. }
  destruct (match edges !! node with Some _ => _ | None => _ end) as [[[] st']|];
    cbn in Hpost; [done| |done].
  destruct Hpost as (Hinv' & Heq & Hsub & HU' & Hsucc).
  assert (Hnode' : node ∈ st'.2) by (rewrite Heq; set_solver).
  cbn. split_and!; [by apply dfs_inv_pop| |set_solver|done|].
  - rewrite Heq. apply leibniz_equiv. pose proof (inv_stack _ Hinv). set_solver.
  - intros x ->. set_solver.
Qed.

Lemma has_cycle_loop_spec U fuel ns : forall st,
  (forall x y, edge x y -> y ∈ U) -> size U <= fuel ->
  (forall x, x ∈ ns -> x ∈ U) ->
  dfs_inv st -> st.1 ⊆ U -> st.2 = ∅ ->
  match has_cycle_loop fuel edges ns st with
  | None => False
  | Some true => exists x, tc edge x x
  | Some false => forall x, x ∈ ns \/ x ∈ st.1 -> ~ tc edge x x
  end.
Proof.
  induction ns as [|x ns IH]; intros st HE Hf Hns Hinv HU Hst; cbn [has_cycle_loop].
  { intros x [?%elem_of_nil|Hx]; [done|]. apply (inv_acyclic _ Hinv). set_solver. }
  assert (HxU : x ∈ U) by (apply Hns; left).
  assert (Hns' : forall x, x ∈ ns -> x ∈ U) by (intros; apply Hns; by right).
  case_bool_decide as Hvis; cbn [negb].
  - specialize (IH st HE Hf Hns' Hinv HU Hst).
    destruct (has_cycle_loop fuel edges ns st) as [[]|]; [done| |done].
    intros z. rewrite elem_of_cons. intros [[->|?]|?]; apply IH; auto.
  - opose proof* (has_cycle_dfs_spec U fuel HE x st Hinv HU HxU Hvis) as Hdfs.
    { etrans; [|exact Hf]. apply subseteq_size. set_solver. }
    { intros r. rewrite Hst. set_solver. }
    destruct (has_cycle_dfs fuel edges x st) as [[[] st']|]; cbn in Hdfs; [done| |done].
    destruct Hdfs as (Hinv' & Heq & Hsub & HU' & Hsucc).
    specialize (IH st' HE Hf Hns' Hinv' HU' ltac:(congruence)).
    destruct (has_cycle_loop fuel edges ns st') as [[]|]; [done| |done].
    intros z. rewrite elem_of_cons. intros [[->|?]|?]; apply IH; auto.
    right. specialize (Hsucc x eq_refl). set_solver.
Qed.

Lemma dfs_inv_init : dfs_inv (∅, ∅).
Proof. split; cbn; set_solver. Qed.
End dfs.

(** [has_cycle] always gives an answer: the fuel is enough on every graph,
    well-formed or not, so [has_cycle] is the answer of the search. *)
Lemma edge_universe g x y : edge (dg_edges g) x y -> y ∈ graph_universe g.
Proof.
  unfold edge, graph_universe. intros Hy. apply elem_of_union_r, elem_of_union_list.
  destruct (dg_edges g !! x) as [s|] eqn:Hx; cbn in Hy; [|set_solver].
  exists s. split; [|done]. apply list_elem_of_fmap.
  exists (x, s). by rewrite elem_of_map_to_list.
Qed.

Lemma has_cycle_opt_spec {ord : IterOrder TaskId} g :
  match has_cycle_opt g with
  | None => False
  | Some true => exists x, tc (edge (dg_edges g)) x x
  | Some false => forall x, x ∈ dg_nodes g -> ~ tc (edge (dg_edges g)) x x
  end.
Proof.
  opose proof* (has_cycle_loop_spec (dg_edges g) (graph_universe g) (S (size (graph_universe g)))
    (iter_set (dg_nodes g)) (∅, ∅)) as H.
  - apply edge_universe.
  - lia.
  - intros x. rewrite elem_of_iter_set. unfold graph_universe. set_solver.
  - apply dfs_inv_init.
  - set_solver.
  - done.
  - unfold has_cycle_opt. case_match; [|done]. case_match; [done|].
    intros x Hx. apply H. left. by apply elem_of_iter_set.
Qed.

Lemma depends_edge g x y : depends g x y <-> edge (dg_edges g) x y.
Proof. done. Qed.

Lemma depends_dom g x y : depends g x y -> x ∈ dom (dg_edges g).
Proof.
  unfold depends, get_dependencies. rewrite elem_of_dom.
  destruct (dg_edges g !! x); cbn; [by eauto|set_solver].
Qed.

Lemma has_cycle_correct {ord : IterOrder TaskId} g :
  dom (dg_edges g) ⊆ dg_nodes g -> has_cycle g = false <-> acyclic g.
Proof.
  intros Hdom. unfold has_cycle, acyclic. pose proof (has_cycle_opt_spec g) as Hs.
  destruct (has_cycle_opt g) as [[]|]; cbn; [..|done].
  - split; [done|]. intros Ha. destruct Hs as [x Hx]. by destruct (Ha x).
  - split; [|done]. intros _ x Hx. apply (Hs x); [|done].
    apply Hdom. inversion Hx; eauto using depends_dom.
Qed.

(** ** The operations on the relation *)

Lemma or_default_lookup k m x :
  default ∅ (or_default k m !! x) = (default ∅ (m !! x) : gset TaskId).
Proof.
  unfold or_default. destruct (m !! k) eqn:Hk; [done|].
  destruct (decide (x = k)) as [->|]; [by rewrite lookup_insert_eq, Hk|by rewrite lookup_insert_ne].
Qed.

Lemma dom_or_default k (m : gmap TaskId (gset TaskId)) : dom (or_default k m) = dom m ∪ {[k]}.
Proof.
  apply leibniz_equiv. unfold or_default. destruct (m !! k) eqn:Hk.
  - assert (k ∈ dom m) by by apply elem_of_dom. set_solver.
  - set_solver.
Qed.

(** Updating one set of a map of sets. *)
Lemma default_alter (f : gset TaskId -> gset TaskId) k (m : gmap TaskId (gset TaskId)) x :
  f ∅ = ∅ \/ k ∈ dom m ->
  default ∅ (alter f k m !! x) = if decide (x = k) then f (default ∅ (m !! x)) else default ∅ (m !! x).
Proof.
  intros Hk. case_decide as Hx; [subst x|by rewrite lookup_alter_ne].
  rewrite lookup_alter_eq. destruct (m !! k) eqn:E; cbn; [done|].
  destruct Hk as [->|[? ?]%elem_of_dom]; congruence.
Qed.

Lemma drop_reverse_lookup t deps m x :
  default ∅ (drop_reverse t deps m !! x) =
  (if decide (x ∈ deps) then default ∅ (m !! x) ∖ {[t]} else default ∅ (m !! x) : gset TaskId).
Proof.
  revert m. induction deps as [|d deps IH]; intros m; cbn [foldl drop_reverse].
  { case_decide; set_solver. }
  unfold drop_reverse in IH |- *. cbn [foldl]. rewrite IH, default_alter by (left; set_solver).
  repeat case_decide; set_solver.
Qed.

Lemma dom_drop_reverse t deps m : dom (drop_reverse t deps m) = (dom m : gset TaskId).
Proof.
  unfold drop_reverse. revert m.
  induction deps as [|d deps IH]; intros m; cbn [foldl]; [done|]. by rewrite IH, dom_alter_L.
Qed.

Section preservation.
Context {ord : IterOrder TaskId}.

Lemma add_task_depends t g x y : depends (add_task t g) x y <-> depends g x y.
Proof. unfold depends, get_dependencies, add_task; cbn. by rewrite or_default_lookup. Qed.

Lemma add_task_rep t g : graph_rep g -> graph_rep (add_task t g).
Proof.
  intros [He Hr Hi]. split; cbn.
  - by rewrite dom_or_default, He.
  - by rewrite dom_or_default, Hr.
  - intros x y. unfold get_dependencies, get_dependents; cbn.
    rewrite !or_default_lookup. apply Hi.
Qed.

Lemma remove_dependency_depends t d g x y :
  depends (remove_dependency t d g) x y <-> depends g x y /\ (x, y) <> (t, d).
Proof.
  unfold depends, get_dependencies; cbn. rewrite default_alter by (left; set_solver).
  case_decide; set_solver.
Qed.

Lemma remove_dependency_rep t d g : graph_rep g -> graph_rep (remove_dependency t d g).
Proof.
  intros [He Hr Hi]. split; cbn; [by rewrite dom_alter_L..|].
  intros x y. unfold get_dependencies, get_dependents; cbn.
  rewrite !default_alter by (left; set_solver). specialize (Hi x y).
  unfold get_dependencies, get_dependents in Hi. repeat case_decide; set_solver.
Qed.

Lemma remove_task_depends t g x y :
  depends (remove_task t g) x y <-> depends g x y /\ x <> t /\ y <> t.
Proof.
  unfold depends, get_dependencies, remove_task.
  destruct (dg_edges g !! t) as [ds|] eqn:Ht; cbn; rewrite lookup_fmap.
  - destruct (decide (x = t)) as [->|Hx]; [rewrite lookup_delete_eq|rewrite lookup_delete_ne by done].
    + set_solver.
    + destruct (dg_edges g !! x); set_solver.
  - destruct (decide (x = t)) as [->|Hx]; [rewrite Ht; set_solver|].
    destruct (dg_edges g !! x); set_solver.
Qed.

Lemma remove_task_rep t g : graph_rep g -> graph_rep (remove_task t g).
Proof.
  intros [He Hr Hi].
  assert (Hdep : forall x y, y ∈ get_dependencies (remove_task t g) x <->
    y ∈ get_dependencies g x /\ x <> t /\ y <> t) by apply remove_task_depends.
  split.
  - unfold remove_task. destruct (dg_edges g !! t) eqn:Ht; cbn; rewrite dom_fmap_L.
    + by rewrite dom_delete_L, He.
    + apply not_elem_of_dom in Ht. set_solver.
  - unfold remove_task. destruct (dg_edges g !! t) eqn:Ht; cbn; rewrite dom_delete_L;
      [rewrite dom_drop_reverse|]; by rewrite Hr.
  - intros x y. rewrite Hdep, Hi. unfold get_dependents, remove_task.
    specialize (Hi t y). unfold get_dependencies, get_dependents in Hi.
    destruct (dg_edges g !! t) as [ds|] eqn:Ht; cbn;
      (destruct (decide (y = t)) as [->|Hy];
       [rewrite lookup_delete_eq; set_solver|rewrite lookup_delete_ne by done]).
    + rewrite drop_reverse_lookup. cbn in Hi.
      case_decide as Hin; rewrite elem_of_iter_set in Hin; set_solver.
    + cbn in Hi. set_solver.
Qed.

Lemma tc_sub (R R' : TaskId -> TaskId -> Prop) x y :
  (forall x y, R x y -> R' x y) -> tc R x y -> tc R' x y.
Proof. intros Hsub. induction 1; eauto using tc_once, tc_l. Qed.

(** Adding an edge to a relation *)
Lemma tc_add_edge (R R' : TaskId -> TaskId -> Prop) t d x y :
  (forall x y, R' x y -> R x y \/ (x = t /\ y = d)) ->
  tc R' x y -> tc R x y \/ (rtc R x t /\ rtc R d y).
Proof.
  intros Hsub. induction 1 as [x y [?|[-> ->]]%Hsub|x y z [?|[-> ->]]%Hsub _ IH].
  - left. by apply tc_once.
  - right. done.
  - destruct IH as [?|[??]]; [left; by eapply tc_l|right; split; [by eapply rtc_l|done]].
  - destruct IH as [?|[??]]; [right; split; [done|by apply tc_rtc]|right; done].
Qed.

(** The graph [add_dependency] runs the cycle check on. *)
Definition graph_with_edge (t d : TaskId) (g : DependencyGraph) : DependencyGraph :=
  mkDependencyGraph (dg_nodes g ∪ {[t]} ∪ {[d]})
    (alter (fun s => s ∪ {[d]}) t (or_default d (or_default t (dg_edges g))))
    (or_default d (or_default t (dg_reverse_edges g))).

Lemma graph_with_edge_depends t d g x y :
  depends (graph_with_edge t d g) x y <-> depends g x y \/ (x = t /\ y = d).
Proof.
  unfold depends, get_dependencies; cbn.
  rewrite default_alter by (right; rewrite !dom_or_default; set_solver).
  rewrite !or_default_lookup. case_decide; set_solver.
Qed.

Lemma graph_with_edge_acyclic t d g :
  acyclic g -> acyclic (graph_with_edge t d g) <-> ~ rtc (depends g) d t.
Proof.
  intros Hac. split.
  - intros Hac' Hr. apply (Hac' t).
    apply tc_rtc_r with d; [apply tc_once; by apply graph_with_edge_depends; right|].
    revert Hr. apply rtc_subrel. intros x y ?. apply graph_with_edge_depends. by left.
  - intros Hr x Hx. apply (tc_add_edge (depends g) _ t d) in Hx.
    + destruct Hx as [Hx|[??]]; [by apply (Hac x)|]. apply Hr. by transitivity x.
    + intros. by apply graph_with_edge_depends.
Qed.

Lemma graph_with_edge_has_cycle t d g :
  graph_wf g -> has_cycle (graph_with_edge t d g) = true <-> rtc (depends g) d t.
Proof.
  intros [[He _ _] Hac].
  assert (Hc : has_cycle (graph_with_edge t d g) = false <-> ~ rtc (depends g) d t).
  { rewrite has_cycle_correct; [by apply graph_with_edge_acyclic|].
    cbn. rewrite dom_alter_L, !dom_or_default, He. done. }
  destruct (has_cycle (graph_with_edge t d g)) eqn:E; split; try done.
  - intros _. unfold has_cycle in E. pose proof (has_cycle_opt_spec (graph_with_edge t d g)) as Hs.
    destruct (has_cycle_opt _) as [[]|]; try done. destruct Hs as [x Hx].
    apply (tc_add_edge (depends g) _ t d) in Hx; [|intros; by apply graph_with_edge_depends].
    destruct Hx as [Hx|[??]]; [by destruct (Hac x)|by transitivity x].
  - intros Hr. by destruct Hc as [Hc _]; destruct (Hc eq_refl).
Qed.

Lemma add_dependency_ok t d g :
  graph_wf g -> ~ rtc (depends g) d t ->
  exists g', add_dependency t d g = (g', Ok tt) /\ graph_wf g' /\
    dg_nodes g' = dg_nodes g ∪ {[t]} ∪ {[d]} /\
    forall x y, depends g' x y <-> depends g x y \/ (x = t /\ y = d).
Proof.
  intros Hwf Hr. pose proof (graph_with_edge_has_cycle t d g Hwf) as Hc.
  unfold add_dependency. fold (graph_with_edge t d g).
  destruct (has_cycle (graph_with_edge t d g)); [by destruct Hr; apply Hc|].
  eexists. split; [done|]. pose proof (graph_with_edge_depends t d g) as Hdep.
  split_and!; [|done|exact Hdep]. destruct Hwf as [[He Hrv Hi] Hac]. split; [split|]; cbn.
  - by rewrite dom_alter_L, !dom_or_default, He.
  - by rewrite dom_alter_L, !dom_or_default, Hrv.
  - intros x y. etrans; [apply Hdep|]. specialize (Hi x y).
    unfold depends, get_dependents in *; cbn.
    rewrite default_alter by (right; rewrite !dom_or_default; set_solver).
    rewrite !or_default_lookup. case_decide; set_solver.
  - by apply graph_with_edge_acyclic.
Qed.

Lemma add_dependency_err t d g :
  graph_wf g -> rtc (depends g) d t ->
  exists g' msg, add_dependency t d g = (g', Err (OrchestratorError.CycleError msg)) /\ graph_wf g' /\
    dg_nodes g' = dg_nodes g ∪ {[t]} ∪ {[d]} /\
    forall x y, depends g' x y <-> depends g x y.
Proof.
  intros Hwf Hr. pose proof (proj2 (graph_with_edge_has_cycle t d g Hwf) Hr) as Hc.
  unfold add_dependency. fold (graph_with_edge t d g). rewrite Hc.
  eexists _, _. split; [done|]. destruct Hwf as [[He Hrv Hi] Hac].
  assert (Hnd : ~ depends g t d).
  { intros Htd. apply (Hac t). eapply tc_rtc_r; [by apply tc_once|done]. }
  match goal with |- graph_wf ?g' /\ _ => set (g1 := g') end.
  assert (Hdep : forall x y, depends g1 x y <-> depends g x y).
  { intros x y. unfold depends, get_dependencies, g1 in *; cbn.
    rewrite !default_alter by (right; rewrite ?dom_alter_L, !dom_or_default; set_solver).
    rewrite !or_default_lookup. case_decide; set_solver. }
  split_and!; [|done|done]. split; [split|]; cbn.
  - by rewrite !dom_alter_L, !dom_or_default, He.
  - by rewrite !dom_or_default, Hrv.
  - intros x y. etrans; [apply Hdep|]. unfold get_dependents, g1; cbn.
    rewrite !or_default_lookup. apply Hi.
  - intros x Hx. apply (Hac x). revert Hx. apply tc_sub. intros ??. by apply Hdep.
Qed.

Lemma acyclic_sub g g' : (forall x y, depends g' x y -> depends g x y) -> acyclic g -> acyclic g'.
Proof. intros Hsub Hac x Hx. apply (Hac x). revert Hx. by apply tc_sub. Qed.

Lemma add_task_wf t g : graph_wf g -> graph_wf (add_task t g).
Proof.
  intros [Hr Ha]. split; [by apply add_task_rep|].
  revert Ha. apply acyclic_sub. intros x y. apply add_task_depends.
Qed.

Lemma remove_task_wf t g : graph_wf g -> graph_wf (remove_task t g).
Proof.
  intros [Hr Ha]. split; [by apply remove_task_rep|].
  revert Ha. apply acyclic_sub. intros x y. by intros [? _]%remove_task_depends.
Qed.

Lemma remove_dependency_wf t d g : graph_wf g -> graph_wf (remove_dependency t d g).
Proof.
  intros [Hr Ha]. split; [by apply remove_dependency_rep|].
  revert Ha. apply acyclic_sub. intros x y. by intros [? _]%remove_dependency_depends.
Qed.

Lemma rtc_depends_dec g d t : graph_wf g -> rtc (depends g) d t \/ ~ rtc (depends g) d t.
Proof.
  intros Hwf. pose proof (graph_with_edge_has_cycle t d g Hwf) as Hc.
  destruct (has_cycle (graph_with_edge t d g)); [left; by apply Hc|right; by intros ?%Hc].
Qed.

Lemma add_dependency_wf t d g : graph_wf g -> graph_wf (add_dependency t d g).1.
Proof.
  intros Hwf. destruct (rtc_depends_dec g d t Hwf) as [Hr|Hr].
  - by destruct (add_dependency_err t d g Hwf Hr) as (? & ? & -> & ? & _).
  - by destruct (add_dependency_ok t d g Hwf Hr) as (? & -> & ? & _).
Qed.
End preservation.

Lemma graph_new_wf : graph_wf graph_new.
Proof.
  split; [split|].
  - apply dom_empty_L.
  - apply dom_empty_L.
  - intros x y. unfold get_dependencies, get_dependents; cbn. rewrite !lookup_empty. set_solver.
  - intros x Hx. inversion Hx as [? ? Hd|? ? ? Hd]; apply depends_dom in Hd; cbn in Hd; set_solver.
Qed.

#[export] Hint Resolve graph_new_wf add_task_wf remove_task_wf remove_dependency_wf add_dependency_wf
  : brehon.

(** ** Every graph the program builds

    [graph_reachable g]: [g] is the result of a sequence of the public
    operations on a new graph, errors included; each call has its own hash
    order. *)
Inductive graph_reachable : DependencyGraph -> Prop :=
| reach_new : graph_reachable graph_new
| reach_add_task t g : graph_reachable g -> graph_reachable (add_task t g)
| reach_remove_task (ord : IterOrder TaskId) t g :
    graph_reachable g -> graph_reachable (remove_task t g)
| reach_add_dependency (ord : IterOrder TaskId) t d g :
    graph_reachable g -> graph_reachable (add_dependency t d g).1
| reach_remove_dependency t d g :
    graph_reachable g -> graph_reachable (remove_dependency t d g).

Lemma reachable_wf g : graph_reachable g -> graph_wf g.
Proof. induction 1; auto with brehon. Qed.

(** ** Kahn's algorithm *)

Section kahn.
Context {ord : IterOrder TaskId}.

Lemma in_degree_init_lookup g x :
  in_degree_init g !! x =
  if decide (x ∈ dg_nodes g) then Some (size (get_dependencies g x)) else None.
Proof.
  unfold in_degree_init.
  rewrite (foldl_insert_lookup (fun k =>
    match dg_edges g !! k with Some deps => Some (size deps) | None => None end))
    by (intros ? k; by destruct (dg_edges g !! k)).
  rewrite (foldl_insert_lookup (fun _ => Some 0)), lookup_empty by done.
  unfold get_dependencies.
  repeat case_decide; rewrite ?elem_of_iter_set in *; try done.
  by destruct (dg_edges g !! x).
Qed.

(** One iteration of the loop of [release_dependents] *)
Definition release_one (d : TaskId) (deg : gmap TaskId nat) : gmap TaskId nat :=
  match deg !! d with Some (S n) => <[d := n]> deg | _ => deg end.

Lemma release_one_lookup d deg x :
  release_one d deg !! x = if decide (x = d) then Nat.pred <$> deg !! x else deg !! x.
Proof.
  unfold release_one. case_decide as Hx; [subst x|].
  - destruct (deg !! d) as [[|n]|] eqn:E; rewrite ?E; [done| |done]. by rewrite lookup_insert_eq.
  - destruct (deg !! d) as [[|n]|]; [done| |done]. by rewrite lookup_insert_ne.
Qed.

Lemma release_dependents_cons d l deg q :
  release_dependents (d :: l) deg q =
  release_dependents l (release_one d deg) (q ++ if decide (deg !! d = Some 1) then [d] else []).
Proof.
  cbn [release_dependents]. unfold release_one.
  destruct (deg !! d) as [[|[|n]]|]; cbn; case_decide; simplify_eq; by rewrite ?app_nil_r.
Qed.

Lemma release_dependents_degree l : forall deg q x, NoDup l ->
  (release_dependents l deg q).1 !! x = if decide (x ∈ l) then Nat.pred <$> deg !! x else deg !! x.
Proof.
  induction l as [|d l IH]; intros deg q x Hnd.
  { cbn. case_decide as Hx; [by apply elem_of_nil in Hx|done]. }
  apply NoDup_cons in Hnd as [Hd Hnd].
  rewrite release_dependents_cons, IH, release_one_lookup by done.
  repeat case_decide; set_solver.
Qed.

Lemma release_dependents_queue l : forall deg q, NoDup l ->
  (release_dependents l deg q).2 = q ++ filter (fun x => deg !! x = Some 1) l.
Proof.
  induction l as [|d l IH]; intros deg q Hnd; [by rewrite app_nil_r|].
  apply NoDup_cons in Hnd as [Hd Hnd].
  rewrite release_dependents_cons, IH, filter_cons, <-(assoc_L (++)) by done. f_equal.
  assert (Hext : filter (fun x => release_one d deg !! x = Some 1) l = filter (fun x => deg !! x = Some 1) l).
  { clear -Hd. induction l as [|y l IH]; [done|]. apply not_elem_of_cons in Hd as [Hy Hd].
    rewrite !filter_cons, (IH Hd), release_one_lookup. rewrite (decide_False (P := y = d)) by congruence.
    by case_decide. }
  rewrite Hext. by case_decide.
Qed.

(** *** Termination, on every graph: a node enters the queue when its degree
    drops to zero, which happens at most once. *)

Definition positive_degrees (deg : gmap TaskId nat) : gset TaskId :=
  dom (filter (fun kv => 0 < kv.2) deg).

Lemma elem_of_positive deg x : x ∈ positive_degrees deg <-> exists n, deg !! x = Some (S n).
Proof.
  unfold positive_degrees. rewrite elem_of_dom. split.
  - intros [n [? ?]%map_lookup_filter_Some]. destruct n; [cbn in *; lia|eauto].
  - intros [n ?]. exists (S n). apply map_lookup_filter_Some. cbn. split; [done|lia].
Qed.

Lemma release_dependents_measure l : forall deg q,
  length (release_dependents l deg q).2 + size (positive_degrees (release_dependents l deg q).1)
  <= length q + size (positive_degrees deg).
Proof.
  induction l as [|d l IH]; intros deg q; [done|].
  rewrite release_dependents_cons. etrans; [apply IH|]. rewrite length_app. unfold release_one.
  destruct (deg !! d) as [[|[|n]]|] eqn:E; rewrite ?decide_False, ?decide_True by done; cbn; try lia.
  - assert (positive_degrees (<[d := 0]> deg) = positive_degrees deg ∖ {[d]}) as ->.
    { apply leibniz_equiv. intros x. rewrite elem_of_difference, elem_of_singleton, !elem_of_positive.
      destruct (decide (x = d)) as [->|]; [rewrite lookup_insert_eq; naive_solver|].
      rewrite lookup_insert_ne by done. naive_solver. }
    assert (Hin : d ∈ positive_degrees deg) by (apply elem_of_positive; eauto).
    rewrite size_difference, size_singleton by set_solver.
    assert (size (positive_degrees deg) <> 0); [|lia].
    intros Hz%size_empty_inv. set_solver.
  - rewrite Nat.add_0_r. apply Nat.add_le_mono_l, subseteq_size. intros x. rewrite !elem_of_positive.
    destruct (decide (x = d)) as [->|]; [by eauto|by rewrite lookup_insert_ne].
Qed.

Lemma kahn_loop_terminates fuel : forall rev deg q res,
  length q + size (positive_degrees deg) < fuel -> is_Some (kahn_loop fuel rev deg q res).
Proof.
  induction fuel as [|fuel IH]; intros rev deg q res Hf; [lia|]. cbn [kahn_loop].
  destruct q as [|node q]; [by eauto|]. cbn in Hf.
  destruct (rev !! node) as [ds|].
  - pose proof (release_dependents_measure (iter_set ds) deg q) as Hm.
    destruct (release_dependents (iter_set ds) deg q) as [deg' q'] eqn:E. apply IH. cbn in Hm. lia.
  - apply IH. lia.
Qed.

Lemma kahn_some g : is_Some (kahn g).
Proof.
  unfold kahn. apply kahn_loop_terminates. apply Nat.lt_succ_r.
  set (deg := in_degree_init g). unfold queue_init.
  rewrite <-(size_list_to_set (C := gset TaskId)) by apply NoDup_filter, NoDup_iter_set.
  rewrite <-size_union.
  - apply subseteq_size. intros x. rewrite elem_of_union, elem_of_list_to_set, list_elem_of_filter.
    rewrite elem_of_iter_set, elem_of_positive. unfold deg. rewrite in_degree_init_lookup.
    case_decide; naive_solver.
  - intros x. rewrite elem_of_list_to_set, list_elem_of_filter, elem_of_positive. naive_solver.
Qed.

(** *** Correctness *)

(** The state of the loop: a degree counts the dependencies that are not in
    the result; the result and the queue are the nodes whose dependencies are
    all in the result; the result lists dependencies first. *)
Record kahn_inv (g : DependencyGraph) (deg : gmap TaskId nat) (q res : list TaskId) : Prop := {
  ki_degree : forall x, deg !! x =
    if decide (x ∈ dg_nodes g) then Some (size (get_dependencies g x ∖ list_to_set res)) else None;
  ki_nodup : NoDup (res ++ q);
  ki_members : forall x, x ∈ res ++ q <-> x ∈ dg_nodes g /\ get_dependencies g x ⊆ list_to_set res;
  ki_order : forall i x, res !! i = Some x -> get_dependencies g x ⊆ list_to_set (take i res)
}.

Lemma kahn_inv_init g : kahn_inv g (in_degree_init g) (queue_init g (in_degree_init g)) [].
Proof.
  split; cbn.
  - intros x. rewrite in_degree_init_lookup. case_decide; [|done]. do 2 f_equal. set_solver.
  - apply NoDup_filter, NoDup_iter_set.
  - intros x. unfold queue_init.
    rewrite list_elem_of_filter, elem_of_iter_set, in_degree_init_lookup. case_decide; [|naive_solver].
    split.
    + intros [[= Hz] Hx]. split; [done|]. apply size_empty_inv in Hz. set_solver.
    + intros [Hx Hd]. split; [|done]. f_equal. apply size_empty_iff. set_solver.
  - done.
Qed.

(** Counting the dependencies that are left. *)
Lemma unmet_step (D done : gset TaskId) node :
  node ∉ done ->
  size (D ∖ (done ∪ {[node]})) =
  if decide (node ∈ D) then Nat.pred (size (D ∖ done)) else size (D ∖ done).
Proof.
  intros Hn. case_decide as HD.
  - replace (D ∖ (done ∪ {[node]})) with (D ∖ done ∖ {[node]}) by set_solver.
    rewrite size_difference, size_singleton by set_solver. lia.
  - f_equal. set_solver.
Qed.

Lemma unmet_last (D done : gset TaskId) node :
  node ∈ D -> node ∉ done -> size (D ∖ done) = 1 <-> D ⊆ done ∪ {[node]}.
Proof.
  intros HD Hn. pose proof (unmet_step D done node Hn) as Hs. rewrite decide_True in Hs by done.
  assert (Hpos : size (D ∖ done) <> 0) by (intros Hz%size_empty_inv; set_solver).
  split.
  - intros H1. assert (Hz : size (D ∖ (done ∪ {[node]})) = 0) by lia.
    apply size_empty_inv in Hz. intros x Hx. destruct (decide (x ∈ done ∪ {[node]})); set_solver.
  - intros Hsub. assert (Hz : D ∖ (done ∪ {[node]}) = ∅) by set_solver.
    rewrite Hz, size_empty in Hs. lia.
Qed.

Lemma kahn_inv_step g deg node q res :
  graph_rep g -> kahn_inv g deg (node :: q) res ->
  let '(deg', q') := match dg_reverse_edges g !! node with
    | Some dependents => release_dependents (iter_set dependents) deg q
    | None => (deg, q)
    end in
  kahn_inv g deg' q' (res ++ [node]).
Proof.
  intros [He Hr Hi] [Hdeg Hnd Hmem Hord].
  assert (Hnode : node ∈ dg_nodes g /\ get_dependencies g node ⊆ list_to_set res).
  { apply Hmem. rewrite elem_of_app, elem_of_cons. auto. }
  destruct Hnode as [Hn Hnd'].
  assert (Hfresh : node ∉ res).
  { apply NoDup_app in Hnd as (_ & Hd & _). intros Hin. apply (Hd _ Hin). left. }
  assert (Hdone : list_to_set (res ++ [node]) = (list_to_set res ∪ {[node]} : gset TaskId)).
  { rewrite list_to_set_app_L. cbn. by rewrite union_empty_r_L. }
  destruct (dg_reverse_edges g !! node) as [ds|] eqn:Hds.
  2: { exfalso. apply not_elem_of_dom in Hds. by rewrite Hr in Hds. }
  assert (Hds' : forall x, x ∈ iter_set ds <-> node ∈ get_dependencies g x).
  { intros x. rewrite elem_of_iter_set, Hi. unfold get_dependents. by rewrite Hds. }
  pose proof (release_dependents_queue (iter_set ds) deg q (NoDup_iter_set ds)) as Hq.
  pose proof (fun x => release_dependents_degree (iter_set ds) deg q x (NoDup_iter_set ds)) as Hg.
  destruct (release_dependents (iter_set ds) deg q) as [deg' q']. cbn in Hq, Hg. subst q'.
  assert (Hfil : forall x, x ∈ filter (fun x => deg !! x = Some 1) (iter_set ds) <->
    x ∈ dg_nodes g /\ node ∈ get_dependencies g x /\
    get_dependencies g x ⊆ list_to_set res ∪ {[node]}).
  { intros x. rewrite list_elem_of_filter, Hds', Hdeg. split.
    - intros [Hx Hin]. case_decide as Hxn; [|done]. split; [done|]. split; [done|].
      injection Hx as Hx. revert Hx. apply unmet_last; set_solver.
    - intros (Hxn & Hin & Hsub). rewrite decide_True by done. split; [|done]. f_equal.
      revert Hsub. apply unmet_last; set_solver. }
  split.
  - intros x. rewrite Hg, Hdone, Hdeg, unmet_step by set_solver.
    destruct (decide (x ∈ dg_nodes g)); cbn; [|by case_decide].
    rewrite (decide_ext _ _ _ _ (Hds' x)). by case_decide.
  - rewrite <-(assoc_L (++)); cbn. rewrite app_comm_cons, (assoc_L (++)).
    apply NoDup_app. split; [done|]. split; [|apply NoDup_filter, NoDup_iter_set].
    intros x Hx Hf. apply Hmem in Hx. apply Hfil in Hf. set_solver.
  - intros x. rewrite <-(assoc_L (++)); cbn. rewrite app_comm_cons, (assoc_L (++)).
    rewrite elem_of_app, Hmem, Hfil, Hdone. split; [set_solver|].
    intros [Hx Hsub]. destruct (decide (node ∈ get_dependencies g x)); [by right|left]. set_solver.
  - intros i x. rewrite lookup_app_Some. intros [Hix|[Hle Hix]].
    + rewrite take_app_le by (apply lookup_lt_Some in Hix; lia). by apply Hord.
    + apply list_lookup_singleton_Some in Hix as [Hz ->].
      rewrite take_app_length' by lia. done.
Qed.

Lemma kahn_loop_inv g : graph_rep g -> forall fuel deg q res out,
  kahn_inv g deg q res -> kahn_loop fuel (dg_reverse_edges g) deg q res = Some out ->
  exists deg', kahn_inv g deg' [] out.
Proof.
  intros Hrep. induction fuel as [|fuel IH]; intros deg q res out Hinv Hl; [done|].
  cbn [kahn_loop] in Hl. destruct q as [|node q]; [simplify_eq; by eauto|].
  pose proof (kahn_inv_step g deg node q res Hrep Hinv) as Hs.
  destruct (match dg_reverse_edges g !! node with Some _ => _ | None => _ end) as [deg' q'].
  by eapply IH.
Qed.

Lemma kahn_spec g : graph_rep g -> exists deg out, kahn g = Some out /\ kahn_inv g deg [] out.
Proof.
  intros Hrep. destruct (kahn_some g) as [out Hout].
  destruct (kahn_loop_inv g Hrep _ _ _ _ _ (kahn_inv_init g) Hout) as [deg Hinv]. by eauto.
Qed.

(** In an acyclic graph the dependencies of a task end. *)
Lemma wf_depends_sn g x : graph_wf g -> sn (depends g) x.
Proof.
  intros [Hrep Hac]. apply tc_finite_sn; [exact Hac|]. exists (elements (dg_nodes g)). intros y Hy.
  apply elem_of_elements. induction Hy as [x y Hd|x y z _ _ IH]; [by eapply rep_target|done].
Qed.

(** In an acyclic graph the result has all the nodes. *)
Lemma kahn_complete g deg out :
  graph_wf g -> kahn_inv g deg [] out -> forall x, x ∈ out <-> x ∈ dg_nodes g.
Proof.
  intros Hwf [_ _ Hmem _] x. setoid_rewrite app_nil_r in Hmem.
  split; [intros Hx; by apply Hmem in Hx as [??]|].
  induction (wf_depends_sn g x Hwf) as [x _ IH]. intros Hx. apply Hmem. split; [done|].
  intros y Hy. apply elem_of_list_to_set, IH; [done|]. eapply rep_target; [apply Hwf|done].
Qed.

Lemma topological_order_ok g :
  graph_wf g -> exists deg out, topological_order g = Ok out /\ kahn_inv g deg [] out /\
    out ≡ₚ elements (dg_nodes g).
Proof.
  intros Hwf. destruct (kahn_spec g (wf_rep g Hwf)) as (deg & out & Hk & Hinv).
  assert (Hp : out ≡ₚ elements (dg_nodes g)).
  { apply NoDup_Permutation; [|apply NoDup_elements|].
    - pose proof (ki_nodup _ _ _ _ Hinv) as Hnd. by rewrite app_nil_r in Hnd.
    - intros x. rewrite elem_of_elements. by eapply kahn_complete. }
  exists deg, out. split; [|done]. unfold topological_order. rewrite Hk. cbn [default].
  assert (Hlen : length out = size (dg_nodes g)) by by rewrite Hp.
  cbn. by rewrite Hlen, Nat.eqb_refl.
Qed.

(** A list that has every dependency before its dependent excludes cycles. *)
Lemma order_acyclic g deg out :
  kahn_inv g deg [] out -> (forall x, x ∈ dg_nodes g -> x ∈ out) ->
  dom (dg_edges g) ⊆ dg_nodes g -> acyclic g.
Proof.
  intros [_ Hnd _ Hord] Hall Hdom. rewrite app_nil_r in Hnd.
  assert (Hlt : forall x y, tc (depends g) x y ->
    exists i j, out !! i = Some x /\ out !! j = Some y /\ j < i).
  { induction 1 as [x y Hd|x y z Hd _ IH].
    - pose proof (Hall x (Hdom x (depends_dom g x y Hd))) as [i Hi]%list_elem_of_lookup.
      pose proof (Hord i x Hi y Hd) as Hy. apply elem_of_list_to_set, list_elem_of_lookup in Hy as [j Hj].
      apply lookup_take_Some in Hj as [??]. eauto.
    - destruct IH as (i & j & Hi & Hj & Hlt).
      pose proof (Hall x (Hdom x (depends_dom g x y Hd))) as [k Hk]%list_elem_of_lookup.
      pose proof (Hord k x Hk y Hd) as Hy. apply elem_of_list_to_set, list_elem_of_lookup in Hy as [k' Hk'].
      apply lookup_take_Some in Hk' as [Hk' ?].
      pose proof (NoDup_lookup _ _ _ _ Hnd Hi Hk'). exists k, j. split_and!; [done..|lia]. }
  intros x Hx. destruct (Hlt x x Hx) as (i & j & Hi & Hj & ?).
  pose proof (NoDup_lookup _ _ _ _ Hnd Hi Hj). lia.
Qed.

(** *** Ready tasks *)

Lemma elem_of_ready g completed x :
  x ∈ get_ready_tasks g completed <->
  x ∈ dg_nodes g /\ (x ∉ completed) /\ forall y, depends g x y -> y ∈ completed.
Proof.
  unfold get_ready_tasks, task_is_ready, depends, get_dependencies.
  rewrite list_elem_of_In, filter_In, <-list_elem_of_In, elem_of_iter_set.
  case_bool_decide; [naive_solver|].
  destruct (dg_edges g !! x) as [s|]; cbn; [|set_solver].
  rewrite forallb_forall. setoid_rewrite bool_decide_eq_true.
  setoid_rewrite <-list_elem_of_In. setoid_rewrite elem_of_iter_set. naive_solver.
Qed.

Lemma elem_of_unmet g completed x y :
  y ∈ unmet_of g completed x <-> depends g x y /\ y ∉ completed.
Proof.
  unfold unmet_of, depends, get_dependencies. destruct (dg_edges g !! x) as [s|]; cbn.
  - rewrite list_elem_of_In, filter_In, <-list_elem_of_In, elem_of_iter_set.
    rewrite negb_true_iff, bool_decide_eq_false. done.
  - split; [by intros ?%elem_of_nil|set_solver].
Qed.

Lemma tasks_with_unmet_lookup g completed x :
  tasks_with_unmet_dependencies g completed !! x =
  if decide (x ∈ dg_nodes g /\ (x ∉ completed) /\ unmet_of g completed x <> [])
  then Some (unmet_of g completed x) else None.
Proof.
  unfold tasks_with_unmet_dependencies.
  rewrite (foldl_insert_lookup (fun x => if bool_decide (x ∈ completed) then None
    else match unmet_of g completed x with [] => None | unmet => Some unmet end)).
  - rewrite lookup_empty. repeat case_decide; rewrite ?elem_of_iter_set in *;
      try case_bool_decide; try destruct (unmet_of g completed x); naive_solver.
  - intros m k. case_bool_decide; [done|]. by destruct (unmet_of g completed k).
Qed.
End kahn.

(** ** Properties *)

(** the representation invariant of every graph the program can build.
    Whatever sequence of [add_task], [remove_task], [add_dependency] (accepted
    or refused) and [remove_dependency] built the graph, the two edge maps have
    exactly the nodes as keys, are inverse to each other, and the dependency
    relation has no cycle. *)
Theorem reachable_graph_wf g : graph_reachable g -> graph_wf g.
Proof. apply reachable_wf. Qed.

(** [add_dependency t d] is refused exactly when [d] already depends,
    directly or through others, on [t] (or is [t]), that is, when the new edge
    would close a cycle.  An accepted call adds this edge and no other, a
    refused one returns [CycleError] and changes no edge; in both cases the two
    tasks become nodes. *)
Theorem add_dependency_exact (ord : IterOrder TaskId) t d g :
  graph_reachable g ->
  let '(g', r) := add_dependency t d g in
  (is_ok r = true <-> ~ rtc (depends g) d t) /\
  dg_nodes g' = dg_nodes g ∪ {[t]} ∪ {[d]} /\
  (forall x y, depends g' x y <-> depends g x y \/ (is_ok r = true /\ x = t /\ y = d)) /\
  (is_ok r = false -> exists msg, r = Err (OrchestratorError.CycleError msg)).
Proof.
  intros Hwf%reachable_wf. destruct (rtc_depends_dec g d t Hwf) as [Hr|Hr].
  - destruct (add_dependency_err t d g Hwf Hr) as (g' & msg & -> & _ & Hn & Hd). cbn.
    split_and!; [naive_solver|done|naive_solver|eauto].
  - destruct (add_dependency_ok t d g Hwf Hr) as (g' & -> & _ & Hn & Hd). cbn.
    split_and!; [naive_solver|done|naive_solver|done].
Qed.

(** on every graph the program can build, [topological_order] succeeds;
    its result lists each task of the graph once, every task after all the
    tasks it depends on. *)
Theorem topological_order_sorted (ord : IterOrder TaskId) g :
  graph_reachable g ->
  exists out, topological_order g = Ok out /\ out ≡ₚ elements (dg_nodes g) /\
    forall i x y, out !! i = Some x -> depends g x y -> exists j, j < i /\ out !! j = Some y.
Proof.
  intros Hwf%reachable_wf. destruct (topological_order_ok g Hwf) as (deg & out & Hok & Hinv & Hp).
  exists out. split_and!; [done..|]. intros i x y Hi Hd.
  pose proof (ki_order _ _ _ _ Hinv i x Hi y Hd) as Hy.
  apply elem_of_list_to_set, list_elem_of_lookup in Hy as [j Hj].
  apply lookup_take_Some in Hj as [??]. by eauto.
Qed.

(** [topological_order] and [has_cycle] detect cycles exactly.  On any
    graph whose two edge maps agree (acyclic or not) the depth-first search and
    Kahn's algorithm both terminate within their fuel, and give the same
    verdict: [has_cycle] is false, and [topological_order] is [Ok], exactly
    when the dependency relation is acyclic. *)
Theorem cycle_checks_agree (ord : IterOrder TaskId) g :
  graph_rep g ->
  is_Some (has_cycle_opt g) /\ is_Some (kahn g) /\
  (has_cycle g = false <-> acyclic g) /\
  (is_ok (topological_order g) = true <-> acyclic g).
Proof.
  intros Hrep. split; [|split; [|split]].
  - pose proof (has_cycle_opt_spec g) as Hs. destruct (has_cycle_opt g); [by eauto|done].
  - apply kahn_some.
  - apply has_cycle_correct. by rewrite (rep_edges g Hrep).
  - split.
    + unfold topological_order. destruct (kahn_spec g Hrep) as (deg & out & -> & Hinv). cbn.
      case_match eqn:Hlen; [done|]. intros _. apply negb_false_iff, Nat.eqb_eq in Hlen.
      eapply order_acyclic; [done| |by rewrite (rep_edges g Hrep)].
      pose proof (ki_nodup _ _ _ _ Hinv) as Hnd. rewrite app_nil_r in Hnd.
      assert (Hsub : list_to_set out ⊆ dg_nodes g).
      { intros x Hx%elem_of_list_to_set. apply (ki_members _ _ _ _ Hinv x). by rewrite app_nil_r. }
      intros x Hx. apply (elem_of_list_to_set (C := gset TaskId)).
      apply set_subseteq_size_equiv in Hsub; [set_solver|]. by rewrite size_list_to_set, Hlen.
    + intros Hac. by destruct (topological_order_ok g (Build_graph_wf g Hrep Hac)) as (? & ? & -> & _).
Qed.

(** the scheduler is never stuck.  On every graph the program can build
    and for any set of completed tasks, as long as some task of the graph is
    not completed, [get_ready_tasks] is not empty; it contains exactly the
    tasks that are not completed and whose dependencies are, and every other
    unfinished task is listed by [tasks_with_unmet_dependencies] with exactly
    the dependencies it is waiting for. *)
Theorem ready_tasks_progress (ord : IterOrder TaskId) g completed :
  graph_reachable g ->
  (forall x, x ∈ get_ready_tasks g completed <->
    x ∈ dg_nodes g /\ (x ∉ completed) /\ forall y, depends g x y -> y ∈ completed) /\
  (forall x, x ∈ dg_nodes g -> x ∉ completed ->
    x ∈ get_ready_tasks g completed \/
    exists unmet, tasks_with_unmet_dependencies g completed !! x = Some unmet /\
      forall y, y ∈ unmet <-> depends g x y /\ y ∉ completed) /\
  (get_ready_tasks g completed = [] -> dg_nodes g ⊆ completed).
Proof.
  intros Hwf%reachable_wf. split; [apply elem_of_ready|].
  assert (Hpart : forall x, x ∈ dg_nodes g -> x ∉ completed ->
    x ∈ get_ready_tasks g completed \/ exists y, y ∈ unmet_of g completed x).
  { intros x Hx Hc. destruct (unmet_of g completed x) as [|y l] eqn:E; [left|right].
    - apply elem_of_ready. split_and!; [done..|]. intros y Hd.
      destruct (decide (y ∈ completed)); [done|]. exfalso.
      apply (elem_of_nil y). rewrite <-E. by apply elem_of_unmet.
    - exists y. left. }
  split.
  - intros x Hx Hc. destruct (Hpart x Hx Hc) as [?|[y Hy]]; [by left|right].
    exists (unmet_of g completed x). rewrite tasks_with_unmet_lookup, decide_True.
    + split; [done|]. intros z. apply elem_of_unmet.
    + split_and!; [done..|]. intros Hn. rewrite Hn in Hy. by apply elem_of_nil in Hy.
  - intros Hnil x. induction (wf_depends_sn g x Hwf) as [x _ IH]. intros Hx.
    destruct (decide (x ∈ completed)) as [|Hc]; [done|].
    destruct (Hpart x Hx Hc) as [Hin|[y [Hd Hy]%elem_of_unmet]].
    + rewrite Hnil in Hin. by apply elem_of_nil in Hin.
    + destruct Hy. apply IH; [done|]. eapply rep_target; [apply Hwf|done].
Qed.

(** ** Witnesses *)

(** [deploy -> build -> test], built with one refused edge [test -> deploy]. *)
Definition sample_graph : DependencyGraph :=
  let o := canonical_order TaskId in
  (add_dependency "test" "deploy"
    (add_dependency "build" "test" (add_dependency "deploy" "build" graph_new).1).1).1.

Lemma sample_graph_reachable : graph_reachable sample_graph.
Proof. unfold sample_graph. repeat constructor. Defined.

Lemma reachable_graph_wf_witness : graph_reachable sample_graph /\ graph_wf sample_graph.
Proof.
  split; [apply sample_graph_reachable|].
  exact (reachable_graph_wf sample_graph sample_graph_reachable).
Defined.

Lemma add_dependency_exact_witness :
  let r := (add_dependency (ord := canonical_order TaskId) "test" "deploy" sample_graph).2 in
  rtc (depends sample_graph) "deploy" "test" /\ is_ok r = false /\
  exists msg, r = Err (OrchestratorError.CycleError msg).
Proof.
  pose proof (add_dependency_exact (canonical_order TaskId) "test" "deploy" sample_graph
    sample_graph_reachable) as H.
  destruct (add_dependency (ord := canonical_order TaskId) "test" "deploy" sample_graph)
    as [g' r] eqn:E.
  assert (Hr : is_ok r = false).
  { change r with (g', r).2. rewrite <-E. vm_compute. reflexivity. }
  split; [|split; [exact Hr|apply H; exact Hr]].
  eapply rtc_l; [|eapply rtc_once]; [instantiate (1 := "build")|]; unfold depends;
    apply (bool_decide_unpack _); vm_compute; exact I.
Defined.

Lemma topological_order_sorted_witness :
  topological_order (ord := canonical_order TaskId) sample_graph = Ok ["test"; "build"; "deploy"] /\
  exists out, topological_order (ord := canonical_order TaskId) sample_graph = Ok out /\
    out ≡ₚ elements (dg_nodes sample_graph) /\
    forall i x y, out !! i = Some x -> depends sample_graph x y -> exists j, j < i /\ out !! j = Some y.
Proof.
  split; [vm_compute; reflexivity|].
  exact (topological_order_sorted (canonical_order TaskId) sample_graph sample_graph_reachable).
Defined.

(** A graph with a self loop, which no sequence of operations builds: the
    checks are exact on it too. *)
Definition looping_graph : DependencyGraph :=
  mkDependencyGraph {["a"]} {["a" := {["a"]}]} {["a" := {["a"]}]}.

Lemma looping_graph_rep : graph_rep looping_graph.
Proof.
  split; [vm_compute; reflexivity..|]. intros x y. unfold get_dependencies, get_dependents; cbn.
  rewrite !lookup_singleton. repeat case_decide; set_solver.
Defined.

Lemma cycle_checks_agree_witness :
  graph_rep looping_graph /\
  has_cycle (ord := canonical_order TaskId) looping_graph = true /\
  is_ok (topological_order (ord := canonical_order TaskId) looping_graph) = false /\
  ~ acyclic looping_graph.
Proof.
  split; [apply looping_graph_rep|]. split; [vm_compute; reflexivity|].
  split; [vm_compute; reflexivity|].
  destruct (cycle_checks_agree (canonical_order TaskId) looping_graph looping_graph_rep)
    as (_ & _ & H & _). intros Ha. apply H in Ha. vm_compute in Ha. discriminate.
Defined.

Lemma ready_tasks_progress_witness :
  get_ready_tasks (ord := canonical_order TaskId) sample_graph {["test"]} = ["build"] /\
  ("deploy" ∈ get_ready_tasks (ord := canonical_order TaskId) sample_graph {["test"; "build"]}).
Proof.
  split; [vm_compute; reflexivity|].
  apply (proj1 (ready_tasks_progress (canonical_order TaskId) sample_graph {["test"; "build"]}
    sample_graph_reachable)).
  split; [apply (bool_decide_unpack _); vm_compute; exact I|].
  split; [apply (bool_decide_unpack _); vm_compute; exact I|].
  assert (Hd : get_dependencies sample_graph "deploy" = {["build"]}) by (vm_compute; reflexivity).
  unfold depends. rewrite Hd. intros y ->%elem_of_singleton.
  apply (bool_decide_unpack _); vm_compute; exact I.
Defined.
