(* ===== verification/TaskBoard.v ===== *)
(** * Task board (brehon-orchestrator/src/task_board.rs)

    The in-memory view of tasks: a map of entries, the order in which tasks
    were added, and which review belongs to which task.  It is rebuilt from the
    event log or updated by calls; [apply_bounds] evicts old merged tasks.

    Each method holds the locks of the fields it touches for its whole body, so
    calls are sequential.  [now] arguments are the values of [Utc::now()]
    inside the call. *)

From S2P Require Import Prelude Types Events TaskLifecycle.

Record TaskEntry := mkTaskEntry {
  te_id : TaskId;
  te_title : string;
  te_description : string;
  te_status : TaskStatus;
  te_priority : Priority;
  te_assignee : option string;
  te_session_id : option string;
  te_dependencies : list TaskId;
  te_created_at : DateTime;
  te_updated_at : DateTime;
  te_blocked_by : list TaskId;
  te_last_event_id : option EventId
}.

#[export] Instance eta_TaskEntry : Eta TaskEntry := fun t =>
  mkTaskEntry (te_id t) (te_title t) (te_description t) (te_status t) (te_priority t)
    (te_assignee t) (te_session_id t) (te_dependencies t) (te_created_at t) (te_updated_at t)
    (te_blocked_by t) (te_last_event_id t).

Definition TaskEntry_new (now : DateTime) (id : TaskId) (title description : string) : TaskEntry := {|
  te_id := id;
  te_title := title;
  te_description := description;
  te_status := TaskStatus.Pending;
  te_priority := Priority.Medium;
  te_assignee := None;
  te_session_id := None;
  te_dependencies := [];
  te_created_at := now;
  te_updated_at := now;
  te_blocked_by := [];
  te_last_event_id := None
|}.

Definition is_assignable (t : TaskEntry) : bool :=
  match te_status t with TaskStatus.Pending => true | _ => false end
  && match te_blocked_by t with [] => true | _ => false end.

Definition is_in_progress (t : TaskEntry) : bool :=
  match te_status t with TaskStatus.InProgress => true | _ => false end.

Definition is_complete (t : TaskEntry) : bool :=
  match te_status t with TaskStatus.Merged => true | _ => false end.

Record TaskBoardStats := mkTaskBoardStats {
  st_total : nat;
  st_pending : nat;
  st_assigned : nat;
  st_in_progress : nat;
  st_in_review : nat;
  st_blocked : nat;
  st_completed : nat
}.

Record TaskBoard := mkTaskBoard {
  tb_tasks : gmap TaskId TaskEntry;
  tb_order : list TaskId;
  tb_review_to_task : gmap string TaskId;
  tb_max_tasks : nat
}.

#[export] Instance eta_TaskBoard : Eta TaskBoard := fun b =>
  mkTaskBoard (tb_tasks b) (tb_order b) (tb_review_to_task b) (tb_max_tasks b).

(** [TaskBoard::with_max_tasks], [TaskBoard::new] *)
Definition with_max_tasks (max_tasks : nat) : TaskBoard :=
  mkTaskBoard ∅ [] ∅ (Nat.max max_tasks 1).

Definition board_new : TaskBoard := with_max_tasks 10000.

(** ** Events *)

(** [if let Some(task) = tasks.get_mut(&id) { task.status = ..; .. }] *)
Definition set_status_at (id : TaskId) (status : TaskStatus) (event : Event) (event_id : EventId)
    (tasks : gmap TaskId TaskEntry) : gmap TaskId TaskEntry :=
  alter (fun task => task <| te_status := status |> <| te_updated_at := ev_timestamp event |>
                          <| te_last_event_id := Some event_id |>) id tasks.

Definition set_review_status (review_id : string) (status : TaskStatus) (event : Event)
    (event_id : EventId) (b : TaskBoard) : TaskBoard :=
  match tb_review_to_task b !! review_id with
  | Some task_id => b <| tb_tasks := set_status_at task_id status event event_id (tb_tasks b) |>
  | None => b
  end.

(** [TaskBoard::apply_event_inner] *)
Definition apply_event (now : DateTime) (event : Event) (event_id : EventId) (b : TaskBoard)
    : TaskBoard :=
  match ev_kind event with
  | EventKind.TaskCreated task_id =>
      match tb_tasks b !! task_id with
      | Some _ => b
      | None =>
          b <| tb_tasks := <[task_id := TaskEntry_new now task_id "" ""]> (tb_tasks b) |>
            <| tb_order := tb_order b ++ [task_id] |>
      end
  | EventKind.TaskAssigned task_id agent_id =>
      b <| tb_tasks := alter (fun task => task <| te_status := TaskStatus.Assigned |>
              <| te_assignee := Some agent_id |> <| te_updated_at := ev_timestamp event |>
              <| te_last_event_id := Some event_id |>) task_id (tb_tasks b) |>
  | EventKind.TaskCompleted task_id =>
      b <| tb_tasks := set_status_at task_id TaskStatus.InReview event event_id (tb_tasks b) |>
  | EventKind.ReviewRequested task_id review_id =>
      b <| tb_tasks := set_status_at task_id TaskStatus.InReview event event_id (tb_tasks b) |>
        <| tb_review_to_task := <[review_id := task_id]> (tb_review_to_task b) |>
  | EventKind.ReviewApproved review_id =>
      set_review_status review_id TaskStatus.Approved event event_id b
  | EventKind.ReviewRejected review_id =>
      set_review_status review_id TaskStatus.ChangesRequested event event_id b
  | EventKind.ReviewChangesRequested review_id =>
      set_review_status review_id TaskStatus.ChangesRequested event event_id b
  | EventKind.MergeCommitted task_id =>
      b <| tb_tasks := set_status_at task_id TaskStatus.Merged event event_id (tb_tasks b) |>
  | EventKind.MergeAborted task_id _ =>
      b <| tb_tasks := set_status_at task_id TaskStatus.InProgress event event_id (tb_tasks b) |>
  | EventKind.AgentDied _ session_id _ =>
      b <| tb_tasks := (fun task =>
             if bool_decide (te_session_id task = Some session_id)
                && bool_decide (te_status task = TaskStatus.InProgress)
             then task <| te_status := TaskStatus.Pending |> <| te_session_id := None |>
                       <| te_updated_at := ev_timestamp event |>
                       <| te_last_event_id := Some event_id |>
             else task) <$> tb_tasks b |>
  | _ => b
  end.

(** A logged event, its id, and the clock when it is replayed. *)
Abbreviation LoggedEvent := (DateTime * Event * EventId)%type (only parsing).

(** [TaskBoard::rebuild_from_events] *)
Definition rebuild_from_events (events : list LoggedEvent) (b : TaskBoard) : TaskBoard :=
  let b' := foldl (fun b '(now, event, event_id) => apply_event now event event_id b)
              (mkTaskBoard ∅ [] ∅ (tb_max_tasks b)) events in
  b <| tb_tasks := tb_tasks b' |> <| tb_order := tb_order b' |>
    <| tb_review_to_task := tb_review_to_task b' |>.

(** ** Commands *)

(** The shape of the methods that update one entry or fail. *)
Definition update_task (task_id : TaskId) (f : TaskEntry -> TaskEntry) (b : TaskBoard)
    : TaskBoard * Result unit OrchestratorError :=
  match tb_tasks b !! task_id with
  | Some task => (b <| tb_tasks := <[task_id := f task]> (tb_tasks b) |>, Ok tt)
  | None => (b, Err (OrchestratorError.TaskNotFound task_id))
  end.

Definition update_task_status (now : DateTime) (task_id : TaskId) (status : TaskStatus) :=
  update_task task_id (fun task => task <| te_status := status |> <| te_updated_at := now |>).

Definition assign_task (now : DateTime) (task_id : TaskId) (assignee : string)
    (session_id : option string) :=
  update_task task_id (fun task =>
    task <| te_status := TaskStatus.Assigned |> <| te_assignee := Some assignee |>
         <| te_session_id := session_id |> <| te_updated_at := now |>).

Definition unassign_task (now : DateTime) (task_id : TaskId) :=
  update_task task_id (fun task =>
    task <| te_status := TaskStatus.Pending |> <| te_assignee := None |>
         <| te_session_id := None |> <| te_updated_at := now |>).

Definition set_blocked (now : DateTime) (task_id : TaskId) (blocked_by : list TaskId) :=
  update_task task_id (fun task =>
    (if bool_decide (te_status task = TaskStatus.Pending)
        || bool_decide (te_status task = TaskStatus.Blocked)
     then task <| te_status := TaskStatus.Blocked |> else task)
      <| te_blocked_by := blocked_by |> <| te_updated_at := now |>).

Definition clear_blocked (now : DateTime) (task_id : TaskId) :=
  update_task task_id (fun task =>
    (if bool_decide (te_status task = TaskStatus.Blocked) && bool_decide (te_blocked_by task = [])
     then task <| te_status := TaskStatus.Pending |> else task)
      <| te_updated_at := now |>).

Definition board_add_task (task : TaskEntry) (b : TaskBoard) : TaskBoard :=
  b <| tb_order := match tb_tasks b !! te_id task with
                   | None => tb_order b ++ [te_id task]
                   | Some _ => tb_order b
                   end |>
    <| tb_tasks := <[te_id task := task]> (tb_tasks b) |>.

Definition board_remove_task (task_id : TaskId) (b : TaskBoard) : TaskBoard * option TaskEntry :=
  (b <| tb_order := filter (fun id => id <> task_id) (tb_order b) |>
     <| tb_review_to_task := filter (fun kv => kv.2 <> task_id) (tb_review_to_task b) |>
     <| tb_tasks := delete task_id (tb_tasks b) |>,
   tb_tasks b !! task_id).

Definition board_clear (b : TaskBoard) : TaskBoard :=
  b <| tb_tasks := ∅ |> <| tb_order := [] |> <| tb_review_to_task := ∅ |>.

Definition set_max_tasks (max : nat) (b : TaskBoard) : TaskBoard := b <| tb_max_tasks := max |>.

(** The first pass of [apply_bounds]: the first merged tasks in order. *)
Fixpoint merged_to_evict (to_remove : nat) (tasks : gmap TaskId TaskEntry) (order : list TaskId)
    : list TaskId :=
  match to_remove, order with
  | O, _ | _, [] => []
  | S k, task_id :: order =>
      match tasks !! task_id with
      | Some task =>
          if bool_decide (te_status task = TaskStatus.Merged)
          then task_id :: merged_to_evict k tasks order
          else merged_to_evict to_remove tasks order
      | None => merged_to_evict to_remove tasks order
      end
  end.

Definition apply_bounds (b : TaskBoard) : TaskBoard * nat :=
  if Nat.leb (size (tb_tasks b)) (tb_max_tasks b) then (b, 0)
  else
    let to_remove := size (tb_tasks b) - tb_max_tasks b in
    let removed_ids := merged_to_evict to_remove (tb_tasks b) (tb_order b) in
    (b <| tb_tasks := foldl (fun tasks id => delete id tasks) (tb_tasks b) removed_ids |>
       <| tb_review_to_task := filter (fun kv => kv.2 ∉ removed_ids) (tb_review_to_task b) |>
       <| tb_order := filter (fun id => id ∉ removed_ids) (tb_order b) |>,
     length removed_ids).

(** ** Queries *)

Definition board_has_task (b : TaskBoard) (task_id : TaskId) : bool :=
  match tb_tasks b !! task_id with Some _ => true | None => false end.
Definition get_task (b : TaskBoard) (task_id : TaskId) : option TaskEntry := tb_tasks b !! task_id.

Section queries.
Context {ord : IterOrder TaskId}.

Definition tasks_where (p : TaskEntry -> bool) (b : TaskBoard) : list TaskEntry :=
  List.filter p (iter_map (tb_tasks b)).*2.

Definition get_tasks_by_status (status : TaskStatus) :=
  tasks_where (fun t => bool_decide (te_status t = status)).
Definition get_tasks_by_assignee (assignee : string) :=
  tasks_where (fun t => bool_decide (te_assignee t = Some assignee)).
Definition get_tasks_by_priority (priority : Priority) :=
  tasks_where (fun t => bool_decide (te_priority t = priority)).
Definition get_pending_tasks := get_tasks_by_status TaskStatus.Pending.
Definition get_assignable_tasks := tasks_where is_assignable.
Definition get_in_progress_tasks := get_tasks_by_status TaskStatus.InProgress.
Definition get_blocked_tasks := get_tasks_by_status TaskStatus.Blocked.
Definition get_complete_tasks := tasks_where is_complete.

Definition count_status (status : TaskStatus) (b : TaskBoard) : nat :=
  length (tasks_where (fun t => bool_decide (te_status t = status)) b).

Definition board_stats (b : TaskBoard) : TaskBoardStats := {|
  st_total := size (tb_tasks b);
  st_pending := count_status TaskStatus.Pending b;
  st_assigned := count_status TaskStatus.Assigned b;
  st_in_progress := count_status TaskStatus.InProgress b;
  st_in_review := count_status TaskStatus.InReview b;
  st_blocked := count_status TaskStatus.Blocked b;
  st_completed := count_status TaskStatus.Merged b
|}.
End queries.

Definition all_tasks (b : TaskBoard) : list TaskEntry :=
  omap (fun id => tb_tasks b !! id) (tb_order b).

Definition board_len (b : TaskBoard) : nat := size (tb_tasks b).

(** ** Invariant *)

Record board_inv (b : TaskBoard) : Prop := {
  bi_nodup : NoDup (tb_order b);
  bi_order : forall id, id ∈ tb_order b <-> is_Some (tb_tasks b !! id);
  bi_own : forall id t, tb_tasks b !! id = Some t -> te_id t = id
}.

Lemma board_inv_empty r x : board_inv (mkTaskBoard ∅ [] r x).
Proof.
  split; cbn; [constructor|..].
  - intros id. rewrite lookup_empty. split; [by intros ?%elem_of_nil|by intros []].
  - intros id t. by rewrite lookup_empty.
Qed.

(** Updates that keep the set of tasks and their ids. *)
Definition same_tasks (m m' : gmap TaskId TaskEntry) : Prop :=
  forall id, option_relation (fun t t' => te_id t' = te_id t) (fun _ => False) (fun _ => False)
    (m !! id) (m' !! id).

Lemma board_inv_same b m' r x :
  board_inv b -> same_tasks (tb_tasks b) m' -> board_inv (mkTaskBoard m' (tb_order b) r x).
Proof.
  intros [Hnd Ho Hown] Hs. split; cbn; [done|..].
  - intros id. rewrite Ho. specialize (Hs id).
    by destruct (tb_tasks b !! id), (m' !! id).
  - intros id t' Ht'. specialize (Hs id). rewrite Ht' in Hs.
    destruct (tb_tasks b !! id) eqn:Ht; cbn in Hs; [|done]. rewrite Hs. by apply Hown.
Qed.

Lemma same_tasks_alter f id m :
  (forall t, te_id (f t) = te_id t) -> same_tasks m (alter f id m).
Proof.
  intros Hf i. destruct (decide (i = id)) as [->|]; [rewrite lookup_alter_eq|rewrite lookup_alter_ne by done].
  - destruct (m !! id); cbn; [apply Hf|done].
  - by destruct (m !! i).
Qed.

Lemma same_tasks_fmap f m : (forall t, te_id (f t) = te_id t) -> same_tasks m (f <$> m).
Proof. intros Hf i. rewrite lookup_fmap. destruct (m !! i); cbn; [apply Hf|done]. Qed.

Lemma same_tasks_insert id t t' m : m !! id = Some t -> te_id t' = te_id t -> same_tasks m (<[id := t']> m).
Proof.
  intros Ht He i. destruct (decide (i = id)) as [->|];
    [rewrite lookup_insert_eq, Ht|rewrite lookup_insert_ne by done]; [done|by destruct (m !! i)].
Qed.

(** A new task at the end of the order. *)
Lemma board_inv_push b t r x :
  board_inv b -> tb_tasks b !! te_id t = None ->
  board_inv (mkTaskBoard (<[te_id t := t]> (tb_tasks b)) (tb_order b ++ [te_id t]) r x).
Proof.
  intros [Hnd Ho Hown] Hnew. split; cbn.
  - apply NoDup_app. split; [done|]. split; [|apply NoDup_singleton].
    intros id Hid ->%list_elem_of_singleton. apply Ho in Hid. rewrite Hnew in Hid. by destruct Hid.
  - intros id. rewrite elem_of_app, list_elem_of_singleton, Ho.
    destruct (decide (id = te_id t)) as [->|Hne]; [rewrite lookup_insert_eq; by intuition eauto|].
    rewrite lookup_insert_ne by done. by intuition.
  - intros id u [[<- <-]|[_ ?]]%lookup_insert_Some; eauto.
Qed.

Lemma review_status_inv review_id status event event_id b :
  board_inv b -> board_inv (set_review_status review_id status event event_id b).
Proof.
  intros Hb. unfold set_review_status. destruct (tb_review_to_task b !! review_id); [|done].
  apply board_inv_same; [done|]. by apply same_tasks_alter.
Qed.

Lemma apply_event_inv now event event_id b : board_inv b -> board_inv (apply_event now event event_id b).
Proof.
  intros Hb. unfold apply_event.
  destruct (ev_kind event); try done; try (by apply review_status_inv);
    try (by apply board_inv_same; [done|apply same_tasks_alter]).
  - apply board_inv_same; [done|]. apply same_tasks_fmap. intros t. by case_match.
  - destruct (tb_tasks b !! task_id) eqn:E; [done|].
    by apply (board_inv_push b (TaskEntry_new now task_id "" "")).
  - apply (board_inv_same b); [done|]. by apply same_tasks_alter.
Qed.

Lemma rebuild_inv events b : board_inv (rebuild_from_events events b).
Proof.
  unfold rebuild_from_events. set (b0 := mkTaskBoard ∅ [] ∅ (tb_max_tasks b)).
  assert (H0 : board_inv b0) by apply board_inv_empty.
  enough (Hf : board_inv (foldl (fun b '(now, event, event_id) => apply_event now event event_id b) b0 events)).
  { destruct Hf. by split. }
  revert H0. generalize b0. induction events as [|[[now ev] id] events IH]; intros b1 H1; cbn; [done|].
  by apply IH, apply_event_inv.
Qed.

Lemma update_task_inv id f b :
  (forall t, te_id (f t) = te_id t) -> board_inv b -> board_inv (update_task id f b).1.
Proof.
  intros Hf Hb. unfold update_task. destruct (tb_tasks b !! id) as [t|] eqn:E; cbn; [|done].
  apply board_inv_same; [done|]. by eapply same_tasks_insert.
Qed.

Lemma board_add_inv t b : board_inv b -> board_inv (board_add_task t b).
Proof.
  intros Hb. unfold board_add_task. destruct (tb_tasks b !! te_id t) as [u|] eqn:E; cbn.
  - apply (board_inv_same b); [done|]. eapply same_tasks_insert; [exact E|]. by rewrite (bi_own b Hb _ _ E).
  - by apply (board_inv_push b).
Qed.

(** Removing tasks from all three structures. *)
Lemma board_inv_restrict b (P : TaskId -> Prop) `{forall x, Decision (P x)} m' r x :
  board_inv b -> (forall id, m' !! id = if decide (P id) then tb_tasks b !! id else None) ->
  board_inv (mkTaskBoard m' (filter P (tb_order b)) r x).
Proof.
  intros [Hnd Ho Hown] Hm. split; cbn.
  - by apply NoDup_filter.
  - intros id. rewrite list_elem_of_filter, Ho, Hm. case_decide; [naive_solver|].
    split; [naive_solver|]. by intros [].
  - intros id t. rewrite Hm. case_decide; [apply Hown|done].
Qed.

Lemma board_remove_inv id b : board_inv b -> board_inv (board_remove_task id b).1.
Proof.
  intros Hb. apply (board_inv_restrict b (fun i => i <> id)); [done|]. intros i.
  case_decide as Hi; [by rewrite lookup_delete_ne|]. by rewrite Hi, lookup_delete_eq.
Qed.

Lemma deletes_lookup (ids : list TaskId) (m : gmap TaskId TaskEntry) id :
  foldl (fun m i => delete i m) m ids !! id = if decide (id ∈ ids) then None else m !! id.
Proof.
  revert m. induction ids as [|i ids IH]; intros m; cbn.
  { case_decide as Hi; [by apply elem_of_nil in Hi|done]. }
  rewrite IH. destruct (decide (id = i)) as [->|Hne].
  - rewrite lookup_delete_eq, (decide_True (P := i ∈ i :: ids)) by left. by case_decide.
  - rewrite lookup_delete_ne by done.
    assert (Hi : id ∈ i :: ids <-> id ∈ ids) by (rewrite elem_of_cons; naive_solver).
    by rewrite (decide_ext _ _ _ _ Hi).
Qed.

Lemma apply_bounds_inv b : board_inv b -> board_inv (apply_bounds b).1.
Proof.
  intros Hb. unfold apply_bounds. case_match; [done|]. cbn.
  set (ids := merged_to_evict _ _ _).
  apply (board_inv_restrict b (fun id => id ∉ ids)); [done|]. intros id. unfold set_with. cbn.
  rewrite deletes_lookup. by repeat case_decide.
Qed.

(** Every board the program can build. *)
Inductive board_reachable : TaskBoard -> Prop :=
| board_reach_new max : board_reachable (with_max_tasks max)
| board_reach_rebuild events b : board_reachable b -> board_reachable (rebuild_from_events events b)
| board_reach_event now event event_id b :
    board_reachable b -> board_reachable (apply_event now event event_id b)
| board_reach_status now id status b :
    board_reachable b -> board_reachable (update_task_status now id status b).1
| board_reach_assign now id assignee session b :
    board_reachable b -> board_reachable (assign_task now id assignee session b).1
| board_reach_unassign now id b : board_reachable b -> board_reachable (unassign_task now id b).1
| board_reach_set_blocked now id by_ b :
    board_reachable b -> board_reachable (set_blocked now id by_ b).1
| board_reach_clear_blocked now id b : board_reachable b -> board_reachable (clear_blocked now id b).1
| board_reach_add t b : board_reachable b -> board_reachable (board_add_task t b)
| board_reach_remove id b : board_reachable b -> board_reachable (board_remove_task id b).1
| board_reach_clear b : board_reachable b -> board_reachable (board_clear b)
| board_reach_max max b : board_reachable b -> board_reachable (set_max_tasks max b)
| board_reach_bounds b : board_reachable b -> board_reachable (apply_bounds b).1.

Lemma reachable_board_inv b : board_reachable b -> board_inv b.
Proof.
  induction 1; auto using apply_event_inv, rebuild_inv, board_add_inv, board_remove_inv,
    apply_bounds_inv, board_inv_empty.
  all: try (apply update_task_inv; [|done]; intros t; cbn; try case_match; done).
  all: try apply board_inv_empty.
  destruct IHboard_reachable. by split.
Qed.

(** ** Eviction and listing *)

Definition is_merged (tasks : gmap TaskId TaskEntry) (id : TaskId) : bool :=
  match tasks !! id with
  | Some t => bool_decide (te_status t = TaskStatus.Merged)
  | None => false
  end.

(** The merged tasks of a board, oldest first. *)
Definition merged_in_order (b : TaskBoard) : list TaskId :=
  filter (fun id => is_merged (tb_tasks b) id = true) (tb_order b).

Lemma merged_to_evict_take n tasks order :
  merged_to_evict n tasks order = take n (filter (fun id => is_merged tasks id = true) order).
Proof.
  revert n. induction order as [|id order IH]; intros [|n]; cbn [merged_to_evict]; [done..|].
  rewrite filter_cons. destruct (decide (is_merged tasks id = true)) as [Hm|Hm];
    unfold is_merged in Hm; destruct (tasks !! id) as [t|]; try case_bool_decide;
    cbn [take]; try done; by rewrite IH.
Qed.

Lemma all_tasks_perm b : board_inv b -> all_tasks b ≡ₚ (map_to_list (tb_tasks b)).*2.
Proof.
  intros [Hnd Ho Hown].
  assert (Hids : tb_order b ≡ₚ (map_to_list (tb_tasks b)).*1).
  { apply NoDup_Permutation; [done|apply NoDup_fst_map_to_list|]. intros id.
    rewrite Ho, list_elem_of_fmap. split.
    - intros [t Ht]. exists (id, t). by rewrite elem_of_map_to_list.
    - intros ([i t] & -> & Hin%elem_of_map_to_list). by eauto. }
  unfold all_tasks. rewrite Hids. clear Hids.
  assert (Hin : forall i t, (i, t) ∈ map_to_list (tb_tasks b) -> tb_tasks b !! i = Some t)
    by (intros i t; apply elem_of_map_to_list).
  revert Hin. generalize (map_to_list (tb_tasks b)) as l.
  induction l as [|[i t] l IH]; intros Hin; cbn; [done|].
  rewrite (Hin i t) by left. f_equiv. apply IH. intros j u Hj. apply Hin. by right.
Qed.

Lemma removes_size (ids : list TaskId) (m : gmap TaskId TaskEntry) :
  NoDup ids -> (forall id, id ∈ ids -> is_Some (m !! id)) ->
  size (foldl (fun m i => delete i m) m ids) + length ids = size m.
Proof.
  intros Hnd. revert m. induction Hnd as [|i ids Hi Hnd IH]; intros m Hin; cbn; [lia|].
  assert (Hii : is_Some (m !! i)) by (apply Hin; left).
  specialize (IH (delete i m)). rewrite map_size_delete_Some in IH by done.
  assert (size m <> 0) by (intros Hz%map_size_empty_inv; subst m; rewrite lookup_empty in Hii; by destruct Hii).
  rewrite Nat.add_succ_r, IH; [lia|].
  intros j Hj. rewrite lookup_delete_ne by (intros ->; done). apply Hin. by right.
Qed.

(** Once all merged tasks are gone, none is left. *)
Lemma no_merged_left b r x :
  merged_in_order (mkTaskBoard (foldl (fun m i => delete i m) (tb_tasks b) (merged_in_order b))
    (filter (fun id => id ∉ merged_in_order b) (tb_order b)) r x) = [].
Proof.
  apply elem_of_nil_inv. intros id. unfold merged_in_order at 1. cbn.
  intros [Hm [Hn Ho]%list_elem_of_filter]%list_elem_of_filter.
  apply Hn. apply list_elem_of_filter. split; [|done].
  unfold is_merged in *. rewrite deletes_lookup in Hm. by case_decide.
Qed.

(** ** Replay *)

(** Boards rebuilt from events alone never have a session. *)
Definition no_sessions (b : TaskBoard) : Prop :=
  forall id t, tb_tasks b !! id = Some t -> te_session_id t = None.

Lemma alter_no_sessions f (id : TaskId) (m : gmap TaskId TaskEntry) :
  (forall t, te_session_id (f t) = te_session_id t) ->
  (forall i t, m !! i = Some t -> te_session_id t = None) ->
  forall i t, alter f id m !! i = Some t -> te_session_id t = None.
Proof.
  intros Hf Hm i t. rewrite lookup_alter_Some. intros [(-> & u & Hu & ->)|[_ ?]]; [|eauto].
  rewrite Hf. eauto.
Qed.

Lemma apply_event_no_sessions now event event_id b :
  no_sessions b -> no_sessions (apply_event now event event_id b).
Proof.
  intros Hb. unfold apply_event, set_review_status.
  destruct (ev_kind event); try done;
    try (case_match; [|done]);
    try (intros i t; cbn; apply alter_no_sessions; [done|exact Hb]).
  - intros i t. cbn. rewrite lookup_fmap_Some. intros (u & <- & Hu). case_match; [done|eauto].
  - case_match; [done|]. intros i t. cbn. rewrite lookup_insert_Some.
    intros [[<- <-]|[_ ?]]; [done|eauto].
Qed.

Lemma replay_no_sessions events b : no_sessions (rebuild_from_events events b).
Proof.
  unfold rebuild_from_events, no_sessions. cbn. set (b0 := mkTaskBoard ∅ [] ∅ (tb_max_tasks b)).
  assert (H0 : no_sessions b0) by (intros id t; cbn; by rewrite lookup_empty).
  change (no_sessions (foldl (fun b '(now, event, event_id) => apply_event now event event_id b) b0 events)).
  revert H0. generalize b0. induction events as [|[[now ev] id] events IH]; intros b1 H1; cbn; [done|].
  by apply IH, apply_event_no_sessions.
Qed.

(** Replaying a list of events on a board. *)
Definition replay (events : list LoggedEvent) (b : TaskBoard) : TaskBoard :=
  foldl (fun b '(now, event, event_id) => apply_event now event event_id b) b events.

Lemma apply_event_max now event event_id b : tb_max_tasks (apply_event now event event_id b) = tb_max_tasks b.
Proof. unfold apply_event, set_review_status. destruct (ev_kind event); try done; by case_match. Qed.

Lemma replay_max events b : tb_max_tasks (replay events b) = tb_max_tasks b.
Proof.
  unfold replay. revert b. induction events as [|[[now ev] id] events IH]; intros b; cbn; [done|].
  by rewrite IH, apply_event_max.
Qed.

Lemma rebuild_replay events b :
  rebuild_from_events events b = replay events (mkTaskBoard ∅ [] ∅ (tb_max_tasks b)).
Proof.
  unfold rebuild_from_events. fold (replay events (mkTaskBoard ∅ [] ∅ (tb_max_tasks b))).
  pose proof (replay_max events (mkTaskBoard ∅ [] ∅ (tb_max_tasks b))) as Hm. cbn in Hm.
  destruct (replay events (mkTaskBoard ∅ [] ∅ (tb_max_tasks b))). cbn in *. by subst.
Qed.

(** ** Properties *)

(** the board is consistent after any sequence of operations (rebuilds,
    events, commands, removals, eviction): the order lists every task exactly
    once, each entry is stored under its own id, so [all_tasks] returns every
    entry exactly once, in the order the tasks were added. *)
Theorem board_lists_every_task_once b :
  board_reachable b ->
  NoDup (tb_order b) /\
  (forall id, id ∈ tb_order b <-> is_Some (get_task b id)) /\
  (forall id t, get_task b id = Some t -> te_id t = id) /\
  all_tasks b ≡ₚ (map_to_list (tb_tasks b)).*2.
Proof.
  intros Hb%reachable_board_inv. pose proof (all_tasks_perm b Hb). by destruct Hb.
Qed.

(** eviction is exact.  [apply_bounds] removes nothing while the board is
    within its limit; otherwise it removes as many merged tasks as are needed to
    meet the limit, or all of them if there are not enough, oldest first; it
    removes no other task, keeps the order of the rest, reports the number of
    removed tasks, and drops exactly the review links of the removed tasks. *)
Theorem apply_bounds_evicts_oldest_merged b b' n :
  board_reachable b -> apply_bounds b = (b', n) ->
  let evicted := take (size (tb_tasks b) - tb_max_tasks b) (merged_in_order b) in
  n = length evicted /\
  (forall id, get_task b' id = if decide (id ∈ evicted) then None else get_task b id) /\
  tb_order b' = filter (fun id => id ∉ evicted) (tb_order b) /\
  (forall r id, tb_review_to_task b' !! r = Some id <->
     tb_review_to_task b !! r = Some id /\ id ∉ evicted) /\
  size (tb_tasks b') + n = size (tb_tasks b) /\
  (size (tb_tasks b') <= tb_max_tasks b \/ merged_in_order b' = []).
Proof.
  intros Hb%reachable_board_inv Happ evicted. unfold apply_bounds in Happ.
  destruct (Nat.leb_spec (size (tb_tasks b)) (tb_max_tasks b)) as [Hle|Hgt].
  - injection Happ as <- <-. assert (Hev : evicted = []).
    { unfold evicted. by replace (size (tb_tasks b) - tb_max_tasks b) with 0 by lia. }
    rewrite Hev. split_and!; [done| | | |lia|by left].
    + intros id. by rewrite decide_False by apply not_elem_of_nil.
    + symmetry. apply filter_id. intros id _. apply not_elem_of_nil.
    + intros r id. pose proof (not_elem_of_nil id). naive_solver.
  - rewrite merged_to_evict_take in Happ. fold (merged_in_order b) in Happ. fold evicted in Happ.
    injection Happ as <- <-. cbn.
    assert (Hin : forall id, id ∈ evicted -> id ∈ tb_order b).
    { intros id Hid. apply elem_of_take in Hid as (i & Hi & _).
      apply list_elem_of_lookup_2, list_elem_of_filter in Hi. apply Hi. }
    assert (Hnd : NoDup evicted).
    { eapply sublist_NoDup; [|apply sublist_take]. apply NoDup_filter, Hb. }
    assert (Hsz := removes_size evicted (tb_tasks b) Hnd (fun id Hid => proj1 (bi_order b Hb id) (Hin id Hid))).
    split_and!; [done| |done| |done|].
    + intros id. apply deletes_lookup.
    + intros r id. by rewrite map_lookup_filter_Some.
    + destruct (decide (length (merged_in_order b) <= size (tb_tasks b) - tb_max_tasks b)) as [Hl|Hl].
      * right. unfold evicted in *. rewrite take_ge by lia. exact (no_merged_left b ∅ 0).
      * left. unfold evicted in Hsz at 2. rewrite length_take in Hsz. lia.
Qed.

(** recovery is incremental.  Rebuilding a board from a log equals
    rebuilding it from any prefix of the log and then applying the remaining
    events one by one, and does not depend on what the board held before: a
    board that followed the events and a board rebuilt after a restart agree. *)
Theorem rebuild_is_incremental events1 events2 b b' :
  tb_max_tasks b = tb_max_tasks b' ->
  rebuild_from_events (events1 ++ events2) b = replay events2 (rebuild_from_events events1 b').
Proof. intros Hm. rewrite !rebuild_replay, Hm. apply foldl_app. Qed.

(** on a board rebuilt from the log, the death of an agent changes nothing.
    No event records the session of a task, so [AgentDied], which looks for
    tasks in progress with the dead session, never finds one: after recovery
    such a task stays in progress. *)
Theorem agent_death_after_rebuild_is_ignored events b now agent_id session_id reason ts aggregate event_id :
  apply_event now (mkEvent (EventKind.AgentDied agent_id session_id reason) ts aggregate) event_id
    (rebuild_from_events events b) = rebuild_from_events events b.
Proof.
  pose proof (replay_no_sessions events b) as Hns.
  destruct (rebuild_from_events events b) as [tasks order reviews max]. unfold apply_event; cbn.
  unfold set_with; cbn. f_equal. apply map_eq. intros id. rewrite lookup_fmap.
  destruct (tasks !! id) as [t|] eqn:Ht; cbn; [|done]. by rewrite (Hns id t Ht).
Qed.

(** ** Witnesses *)

Definition sample_event (k : EventKind) : Event := mkEvent k 7 "T".

Definition sample_log : list LoggedEvent :=
  [(1, sample_event (EventKind.TaskCreated "T1"), 1); (2, sample_event (EventKind.TaskCreated "T2"), 2);
   (3, sample_event (EventKind.TaskCreated "T3"), 3); (4, sample_event (EventKind.MergeCommitted "T3"), 4);
   (5, sample_event (EventKind.MergeCommitted "T1"), 5)]%Z.

Definition sample_board : TaskBoard := rebuild_from_events sample_log (with_max_tasks 2).

Lemma sample_board_reachable : board_reachable sample_board.
Proof. apply board_reach_rebuild, board_reach_new. Defined.

Lemma board_lists_every_task_once_witness :
  (te_id <$> all_tasks sample_board) = ["T1"; "T2"; "T3"] /\
  all_tasks sample_board ≡ₚ (map_to_list (tb_tasks sample_board)).*2.
Proof.
  split; [vm_compute; reflexivity|].
  exact (proj2 (proj2 (proj2 (board_lists_every_task_once sample_board sample_board_reachable)))).
Defined.

Lemma apply_bounds_evicts_oldest_merged_witness :
  (te_id <$> all_tasks (apply_bounds sample_board).1) = ["T2"; "T3"] /\
  (apply_bounds sample_board).2 =
    length (take (size (tb_tasks sample_board) - tb_max_tasks sample_board) (merged_in_order sample_board)).
Proof.
  split; [vm_compute; reflexivity|].
  exact (proj1 (apply_bounds_evicts_oldest_merged sample_board _ _ sample_board_reachable
    (surjective_pairing (apply_bounds sample_board)))).
Defined.

Lemma rebuild_is_incremental_witness :
  rebuild_from_events (take 3 sample_log ++ drop 3 sample_log) (with_max_tasks 2)
  = replay (drop 3 sample_log) (rebuild_from_events (take 3 sample_log) sample_board).
Proof. apply rebuild_is_incremental. vm_compute. reflexivity. Defined.
