(* ===== verification/Keys.v ===== *)
(** * Key schema of the store (brehon-store-fjall/src/keys.rs)

    The byte strings under which the store keeps its data: the key builders,
    the parsers and [classify_key].  A key is a [string].  Proved here: the
    escaping is injective and keeps keys of different runs, tasks and families
    apart; numbered keys sort as their numbers; the parsers invert the
    builders. *)

From Stdlib Require Import Ascii.
From S2P Require Import Prelude StrLib.

(** ** Builders *)

Definition SCHEMA_VERSION : Z := 1.
Definition KEY_META_SEQ : string := "meta:seq".
Definition KEY_META_SCHEMA_VERSION : string := "meta:schema_version".
Definition KEY_META_INDEX_START_SEQ : string := "meta:index_start_seq".
Definition KEY_META_VIEWS_LAST_EVENT_ID : string := "meta:views:last_event_id".

Definition log_key (seq : Z) : string := "log:" +:+ fmt020 seq.
Definition agent_index_key (agent_id : string) (seq : Z) : string :=
  "index:agent:" +:+ agent_id +:+ ":" +:+ fmt020 seq.
Definition task_index_key (task_id : string) (seq : Z) : string :=
  "index:task:" +:+ task_id +:+ ":" +:+ fmt020 seq.
Definition task_index_prefix (task_id : string) : string := "index:task:" +:+ task_id +:+ ":".
Definition review_index_key (review_id : string) (seq : Z) : string :=
  "index:review:" +:+ review_id +:+ ":" +:+ fmt020 seq.
Definition review_index_prefix (review_id : string) : string :=
  "index:review:" +:+ review_id +:+ ":".
Definition task_view_key (task_id : string) : string := "view:task:" +:+ task_id.
Definition review_view_key (review_id : string) : string := "view:review:" +:+ review_id.
Definition archive_key (seq : Z) : string := "archive:" +:+ fmt020 seq.
Definition queue_key (queue : string) (seq : Z) : string :=
  "queue:" +:+ queue +:+ ":" +:+ fmt020 seq.
Definition queue_prefix (queue : string) : string := "queue:" +:+ queue +:+ ":".
Definition lease_key (claim_id : string) : string := "lease:" +:+ claim_id.
Definition lease_prefix : string := "lease:".

Definition key_escape (value : string) : string :=
  replace_char ":"%char "%3A" (replace_char "%"%char "%25" value).

Definition run_record_key (run_id : string) : string := "run:" +:+ key_escape run_id.
Definition run_task_index_key (task_id run_id : string) : string :=
  "index:run:task:" +:+ key_escape task_id +:+ ":" +:+ key_escape run_id.
Definition run_task_index_prefix (task_id : string) : string :=
  "index:run:task:" +:+ key_escape task_id +:+ ":".
Definition run_session_index_key (session_id run_id : string) : string :=
  "index:run:session:" +:+ key_escape session_id +:+ ":" +:+ key_escape run_id.
Definition run_owner_index_key (owner run_id : string) : string :=
  "index:run:owner:" +:+ key_escape owner +:+ ":" +:+ key_escape run_id.
Definition run_active_role_index_key (role run_id : string) : string :=
  "index:run:active-role:" +:+ key_escape role +:+ ":" +:+ key_escape run_id.
Definition run_active_role_prefix (role : string) : string :=
  "index:run:active-role:" +:+ key_escape role +:+ ":".
Definition run_active_task_role_key (task_id role : string) : string :=
  "index:run:active-task-role:" +:+ key_escape task_id +:+ ":" +:+ key_escape role.
Definition proof_bundle_key (proof_bundle_id : string) : string :=
  "proof:bundle:" +:+ key_escape proof_bundle_id.
Definition proof_task_index_key (task_id : string) : string :=
  "index:proof:task:" +:+ key_escape task_id.
Definition proof_run_index_key (run_id : string) : string :=
  "index:proof:run:" +:+ key_escape run_id.
Definition idempotency_key (key : string) : string := "meta:idempotency:" +:+ key.
Definition queue_materialization_key (key : string) : string :=
  "meta:queue-materialized:" +:+ key.
Definition agent_index_prefix (agent_id : string) : string := "index:agent:" +:+ agent_id +:+ ":".

(** ** Parsers *)

Definition parse_seq_from_log_key (key : string) : option Z :=
  match strip_prefix "log:" key with Some seq_str => parse_u64 seq_str | None => None end.

Definition parse_seq_from_archive_key (key : string) : option Z :=
  match strip_prefix "archive:" key with Some seq_str => parse_u64 seq_str | None => None end.

Definition parse_seq_from_queue_key (key : string) : option Z :=
  match split_on ":"%char key with
  | _ :: _ :: part2 :: _ => parse_u64 part2
  | _ => None
  end.

Definition parse_seq_from_index_key (key : string) : option Z :=
  parse_u64 (rsplit_last ":"%char key).

Module KeyType.
Inductive KeyType :=
| Log | AgentIndex | TaskIndex | ReviewIndex | TaskView | ReviewView | Queue | Lease
| RunRecord | RunIndex | ProofRecord | ProofIndex | Idempotency | QueueMaterialization
| Meta | Unknown.
End KeyType.
Abbreviation KeyType := KeyType.KeyType.

Definition classify_key (key : string) : KeyType :=
  if starts_with "log:" key then KeyType.Log
  else if starts_with "index:agent:" key then KeyType.AgentIndex
  else if starts_with "index:task:" key then KeyType.TaskIndex
  else if starts_with "index:review:" key then KeyType.ReviewIndex
  else if starts_with "view:task:" key then KeyType.TaskView
  else if starts_with "view:review:" key then KeyType.ReviewView
  else if starts_with "queue:" key then KeyType.Queue
  else if starts_with "lease:" key then KeyType.Lease
  else if starts_with "run:" key then KeyType.RunRecord
  else if starts_with "index:run:" key then KeyType.RunIndex
  else if starts_with "proof:bundle:" key then KeyType.ProofRecord
  else if starts_with "index:proof:" key then KeyType.ProofIndex
  else if starts_with "meta:queue-materialized:" key then KeyType.QueueMaterialization
  else if starts_with "meta:idempotency:" key then KeyType.Idempotency
  else if starts_with "meta:" key then KeyType.Meta
  else KeyType.Unknown.

(** ** Escaping *)

Definition esc_char (c : ascii) : string :=
  if Ascii.eqb c "%" then "%25" else if Ascii.eqb c ":" then "%3A" else String c "".

(** The two replacements act character by character: the second one finds no
    colon in what the first one inserted. *)
Lemma key_escape_cons c s : key_escape (String c s) = esc_char c +:+ key_escape s.
Proof.
  unfold key_escape, esc_char. simpl. destruct (Ascii.eqb_spec c "%") as [->|]; simpl.
  - done.
  - by destruct (Ascii.eqb c ":").
Qed.

Lemma key_escape_no_colon s : occurs ":" (key_escape s) = false.
Proof.
  induction s as [|c s IH]; [done|]. rewrite key_escape_cons, occurs_app, IH, orb_false_r.
  unfold esc_char. destruct (Ascii.eqb c "%"); [done|].
  destruct (Ascii.eqb c ":") eqn:E; [done|]. simpl. by rewrite E.
Qed.

Lemma key_escape_inj a b : key_escape a = key_escape b -> a = b.
Proof.
  revert b. induction a as [|c a IH]; intros [|d b]; rewrite ?key_escape_cons; [done|..].
  - unfold esc_char. by repeat case_match.
  - unfold esc_char. by repeat case_match.
  - unfold esc_char. intros H.
    destruct (Ascii.eqb_spec c "%") as [->|], (Ascii.eqb_spec d "%") as [->|];
      try destruct (Ascii.eqb_spec c ":") as [->|]; try destruct (Ascii.eqb_spec d ":") as [->|];
      rewrite ?append_cons, ?append_nil_l in H; simplify_eq; f_equal; auto.
Qed.

(** An id without the two reserved characters is its own escape. *)
Lemma key_escape_id s : occurs ":" s = false -> occurs "%" s = false -> key_escape s = s.
Proof.
  induction s as [|c s IH]; [done|]. rewrite key_escape_cons. simpl.
  intros [Hc Hs]%orb_false_iff [Hp Hs']%orb_false_iff. rewrite IH by done.
  unfold esc_char. by rewrite Hc, Hp.
Qed.

(** ** All keys of the store *)

(** The keys the builders make, by family. *)
Inductive StoreKey :=
| LogKey (seq : Z)
| AgentIndexKey (agent_id : string) (seq : Z)
| TaskIndexKey (task_id : string) (seq : Z)
| ReviewIndexKey (review_id : string) (seq : Z)
| TaskViewKey (task_id : string)
| ReviewViewKey (review_id : string)
| ArchiveKey (seq : Z)
| QueueKey (queue : string) (seq : Z)
| LeaseKey (claim_id : string)
| RunRecordKey (run_id : string)
| RunTaskIndexKey (task_id run_id : string)
| RunSessionIndexKey (session_id run_id : string)
| RunOwnerIndexKey (owner run_id : string)
| RunActiveRoleIndexKey (role run_id : string)
| RunActiveTaskRoleKey (task_id role : string)
| ProofBundleKey (proof_bundle_id : string)
| ProofTaskIndexKey (task_id : string)
| ProofRunIndexKey (run_id : string)
| IdempotencyKey (key : string)
| QueueMaterializationKey (key : string)
| MetaSeqKey
| MetaSchemaVersionKey
| MetaIndexStartSeqKey
| MetaViewsLastEventIdKey.

Definition render (k : StoreKey) : string :=
  match k with
  | LogKey seq => log_key seq
  | AgentIndexKey agent_id seq => agent_index_key agent_id seq
  | TaskIndexKey task_id seq => task_index_key task_id seq
  | ReviewIndexKey review_id seq => review_index_key review_id seq
  | TaskViewKey task_id => task_view_key task_id
  | ReviewViewKey review_id => review_view_key review_id
  | ArchiveKey seq => archive_key seq
  | QueueKey queue seq => queue_key queue seq
  | LeaseKey claim_id => lease_key claim_id
  | RunRecordKey run_id => run_record_key run_id
  | RunTaskIndexKey task_id run_id => run_task_index_key task_id run_id
  | RunSessionIndexKey session_id run_id => run_session_index_key session_id run_id
  | RunOwnerIndexKey owner run_id => run_owner_index_key owner run_id
  | RunActiveRoleIndexKey role run_id => run_active_role_index_key role run_id
  | RunActiveTaskRoleKey task_id role => run_active_task_role_key task_id role
  | ProofBundleKey proof_bundle_id => proof_bundle_key proof_bundle_id
  | ProofTaskIndexKey task_id => proof_task_index_key task_id
  | ProofRunIndexKey run_id => proof_run_index_key run_id
  | IdempotencyKey key => idempotency_key key
  | QueueMaterializationKey key => queue_materialization_key key
  | MetaSeqKey => KEY_META_SEQ
  | MetaSchemaVersionKey => KEY_META_SCHEMA_VERSION
  | MetaIndexStartSeqKey => KEY_META_INDEX_START_SEQ
  | MetaViewsLastEventIdKey => KEY_META_VIEWS_LAST_EVENT_ID
  end.

(** The sequence numbers of a key are [u64]. *)
Definition key_in_range (k : StoreKey) : Prop :=
  match k with
  | LogKey seq | AgentIndexKey _ seq | TaskIndexKey _ seq | ReviewIndexKey _ seq
  | ArchiveKey seq | QueueKey _ seq => is_u64 seq
  | _ => True
  end.

Lemma fmt020_inj n m : is_u64 n -> is_u64 m -> fmt020 n = fmt020 m -> n = m.
Proof. intros Hn Hm H. apply parse_fmt020 in Hn, Hm. congruence. Qed.

(** [p:id:seq] determines [id] even when it contains colons: the number is
    what follows the last one. *)
Lemma numbered_inj a b n m :
  is_u64 n -> is_u64 m ->
  a +:+ ":" +:+ fmt020 n = b +:+ ":" +:+ fmt020 m -> a = b /\ n = m.
Proof.
  intros Hn Hm H. change (a +:+ String ":" (fmt020 n) = b +:+ String ":" (fmt020 m)) in H.
  assert (Hs : fmt020 n = fmt020 m).
  { rewrite <-(rsplit_last_app ":" a (fmt020 n)), <-(rsplit_last_app ":" b (fmt020 m))
      by by apply occurs_fixed_digits. by rewrite H. }
  split; [|by apply fmt020_inj]. rewrite Hs in H. revert H. generalize (String ":" (fmt020 m)).
  clear. intros t. revert b. induction a as [|c a IH]; intros [|d b] H.
  - done.
  - exfalso. apply (f_equal String.length) in H. rewrite !length_append in H. simpl in H. lia.
  - exfalso. apply (f_equal String.length) in H. rewrite !length_append in H. simpl in H. lia.
  - rewrite !append_cons in H. injection H as -> H. f_equal. auto.
Qed.

Lemma escaped_pair_inj a b a' b' :
  key_escape a +:+ ":" +:+ key_escape b = key_escape a' +:+ ":" +:+ key_escape b' ->
  a = a' /\ b = b'.
Proof.
  intros H. destruct (sep_inj ":" (key_escape a) (key_escape a') (key_escape b) (key_escape b'))
    as [?%key_escape_inj ?%key_escape_inj]; auto using key_escape_no_colon.
Qed.

Lemma render_inj j k :
  key_in_range j -> key_in_range k -> render j = render k -> j = k.
Proof.
  destruct j, k; cbn [render key_in_range]; intros Hj Hk H; first [discriminate H|reflexivity|idtac];
    apply append_inj_l in H;
    first [apply (fmt020_inj _ _ Hj Hk) in H
          |apply (numbered_inj _ _ _ _ Hj Hk) in H as [-> H]
          |apply escaped_pair_inj in H as [-> H]
          |apply key_escape_inj in H|idtac]; by subst.
Qed.

(** What [classify_key] says of a key.  [KeyType] has no case for archived
    events. *)
Definition key_family (k : StoreKey) : KeyType :=
  match k with
  | LogKey _ => KeyType.Log
  | AgentIndexKey _ _ => KeyType.AgentIndex
  | TaskIndexKey _ _ => KeyType.TaskIndex
  | ReviewIndexKey _ _ => KeyType.ReviewIndex
  | TaskViewKey _ => KeyType.TaskView
  | ReviewViewKey _ => KeyType.ReviewView
  | ArchiveKey _ => KeyType.Unknown
  | QueueKey _ _ => KeyType.Queue
  | LeaseKey _ => KeyType.Lease
  | RunRecordKey _ => KeyType.RunRecord
  | RunTaskIndexKey _ _ | RunSessionIndexKey _ _ | RunOwnerIndexKey _ _
  | RunActiveRoleIndexKey _ _ | RunActiveTaskRoleKey _ _ => KeyType.RunIndex
  | ProofBundleKey _ => KeyType.ProofRecord
  | ProofTaskIndexKey _ | ProofRunIndexKey _ => KeyType.ProofIndex
  | IdempotencyKey _ => KeyType.Idempotency
  | QueueMaterializationKey _ => KeyType.QueueMaterialization
  | MetaSeqKey | MetaSchemaVersionKey | MetaIndexStartSeqKey | MetaViewsLastEventIdKey =>
      KeyType.Meta
  end.

Lemma classify_render k : classify_key (render k) = key_family k.
Proof. by destruct k. Qed.

Lemma parse_log_key n : is_u64 n -> parse_seq_from_log_key (log_key n) = Some n.
Proof.
  intros Hn. unfold parse_seq_from_log_key, log_key. rewrite strip_prefix_app. by apply parse_fmt020.
Qed.

(** The number after the last colon of any index key. *)
Lemma parse_numbered p n : is_u64 n -> parse_seq_from_index_key (p +:+ ":" +:+ fmt020 n) = Some n.
Proof.
  intros Hn. unfold parse_seq_from_index_key.
  change (p +:+ ":" +:+ fmt020 n) with (p +:+ String ":" (fmt020 n)).
  rewrite rsplit_last_app by by apply occurs_fixed_digits. by apply parse_fmt020.
Qed.

(** ** Properties *)

(** no two keys of the store collide.  Over all the key builders of the
    schema (log, archive, the event, run and proof indexes, views, queues,
    leases, idempotency and metadata), two keys are equal only when they come
    from the same builder with the same arguments, whatever characters the ids
    contain; and [classify_key] recovers the family of every key it has a case
    for. *)
Theorem store_keys_distinct j k :
  key_in_range j -> key_in_range k ->
  (render j = render k <-> j = k) /\ classify_key (render j) = key_family j.
Proof.
  intros Hj Hk. split; [|apply classify_render].
  split; [by apply render_inj|by intros ->].
Qed.

Lemma store_keys_distinct_witness :
  render (RunTaskIndexKey "T-1:a" "b") <> render (RunTaskIndexKey "T-1" "a:b") /\
  classify_key (render (RunTaskIndexKey "T-1:a" "b")) = KeyType.RunIndex.
Proof.
  destruct (store_keys_distinct (RunTaskIndexKey "T-1:a" "b") (RunTaskIndexKey "T-1" "a:b") I I)
    as [Hinj Hc].
  split; [intros H; apply Hinj in H; discriminate H|exact Hc].
Defined.

(** numbered keys sort as their numbers and can be read back.  For all
    [u64] sequence numbers, the byte order of log, archive, task-index and
    queue keys (of one task or queue) is the order of the numbers, which is
    what makes a prefix scan return events oldest first; and
    [parse_seq_from_log_key], [parse_seq_from_archive_key] and
    [parse_seq_from_index_key] return the number the key was built with, even
    when the id in the key contains colons. *)
Theorem numbered_keys_ordered_and_parsed n m id :
  is_u64 n -> is_u64 m ->
  String.compare (log_key n) (log_key m) = (n ?= m)%Z /\
  String.compare (archive_key n) (archive_key m) = (n ?= m)%Z /\
  String.compare (task_index_key id n) (task_index_key id m) = (n ?= m)%Z /\
  String.compare (queue_key id n) (queue_key id m) = (n ?= m)%Z /\
  parse_seq_from_log_key (log_key n) = Some n /\
  parse_seq_from_archive_key (archive_key n) = Some n /\
  parse_seq_from_index_key (task_index_key id n) = Some n /\
  parse_seq_from_index_key (review_index_key id n) = Some n /\
  parse_seq_from_index_key (agent_index_key id n) = Some n.
Proof.
  intros Hn Hm. pose proof (compare_fmt020 n m Hn Hm) as Hc.
  split_and!.
  - unfold log_key. by rewrite compare_append_l.
  - unfold archive_key. by rewrite compare_append_l.
  - unfold task_index_key. by rewrite !compare_append_l.
  - unfold queue_key. by rewrite !compare_append_l.
  - by apply parse_log_key.
  - unfold parse_seq_from_archive_key, archive_key. rewrite strip_prefix_app. by apply parse_fmt020.
  - unfold task_index_key. rewrite <-append_assoc. by apply parse_numbered.
  - unfold review_index_key. rewrite <-append_assoc. by apply parse_numbered.
  - unfold agent_index_key. rewrite <-append_assoc. by apply parse_numbered.
Qed.

Lemma numbered_keys_ordered_and_parsed_witness :
  String.compare (log_key 9) (log_key 10) = Lt /\
  parse_seq_from_index_key (task_index_key "a:b" 9) = Some 9%Z.
Proof.
  destruct (numbered_keys_ordered_and_parsed 9 10 "a:b") as (H1 & _ & _ & _ & _ & _ & H2 & _);
    [split; vm_compute; discriminate..|].
  split; [exact H1|exact H2].
Defined.

(** [parse_seq_from_queue_key] takes the third colon-separated piece, which is
    not the number when the name of the queue contains a colon. *)
Lemma parse_seq_from_queue_key_colon :
  parse_seq_from_queue_key (queue_key "work" 7) = Some 7%Z /\
  parse_seq_from_queue_key (queue_key "review:high" 7) = None.
Proof. split; vm_compute; reflexivity. Qed.
