(* ===== verification/Kv.v ===== *)
(** * The storage engine and the codec (fjall and serde_json, not under src/)

    What the store's managers call of the key-value engine and of the JSON
    codec, as classes: [KvStore] is one partition, [KvLaws] the documented
    behaviour the code relies on, [Json] and [JsonLaws] the codec of one type.
    The module [MemKv] is a partition in memory, used by the witnesses. *)

From Stdlib Require Import Ascii.
From S2P Require Import Prelude StrLib.

Inductive BatchOp :=
| BatchInsert (key value : string)
| BatchRemove (key : string).

Definition apply_batch_op (c : gmap string string) (op : BatchOp) : gmap string string :=
  match op with
  | BatchInsert key value => <[key := value]> c
  | BatchRemove key => delete key c
  end.

Definition apply_batch (ops : list BatchOp) (c : gmap string string) : gmap string string :=
  foldl apply_batch_op c ops.

(** The items an iterator yields over [entries]: all of them, or those before
    the error that interrupts it. *)
Definition yields (items : list (Result (string * string) string))
    (entries : list (string * string)) : Prop :=
  items = Ok <$> entries \/
  exists n e rest, items = (Ok <$> take n entries) ++ Err e :: rest.

(** Up to its first error, or its end, a scan yields a prefix of the entries. *)
Lemma yields_prefix items entries :
  yields items entries -> exists n rest, items = (Ok <$> take n entries) ++ rest /\
    ((rest = [] /\ take n entries = entries) \/ exists e more, rest = Err e :: more).
Proof.
  intros [->|(n & e & rest & ->)].
  - exists (length entries), []. rewrite firstn_all, app_nil_r. auto.
  - exists n, (Err e :: rest). eauto 10.
Qed.

Lemma yields_nil_inv items : yields items [] -> items = [] \/ exists e rest, items = Err e :: rest.
Proof. intros [->|(n & e & rest & ->)]; [by left|]. rewrite firstn_nil. right. by exists e, rest. Qed.

Lemma yields_cons_inv items kv entries :
  yields items (kv :: entries) ->
  (exists items', items = Ok kv :: items' /\ yields items' entries) \/
  exists e rest, items = Err e :: rest.
Proof.
  intros [->|(n & e & rest & ->)]; [left; eexists; split; [done|by left]|].
  destruct n as [|n]; [by right; exists e, rest|]. left. eexists. split; [done|]. right. by exists n, e, rest.
Qed.

Definition key_leb (a b : string * string) : bool := str_leb a.1 b.1.

(** A partition: its state, what it contains, and the calls the store makes. *)
Class KvStore := {
  kv_state : Type;
  kv_contents : kv_state -> gmap string string;
  kv_get : kv_state -> string -> Result (option string) string;
  kv_remove : string -> SM kv_state string unit;
  kv_commit : list BatchOp -> SM kv_state string unit;
  kv_prefix : kv_state -> string -> list (Result (string * string) string);
  kv_iter : kv_state -> list (Result (string * string) string)
}.

(** Reads return the contents; [remove] and [commit] have their effect when
    they succeed and are all-or-nothing when they fail; a prefix scan that meets
    no error returns the entries with the prefix; an iteration yields the
    entries in the order of their keys, until an error interrupts it. *)
Class KvLaws `{KvStore} := {
  kv_get_law : forall s k v, kv_get s k = Ok v -> v = kv_contents s !! k;
  kv_remove_law : forall k s s' r, kv_remove k s = (s', r) ->
    kv_contents s' = delete k (kv_contents s) \/
    (is_ok r = false /\ kv_contents s' = kv_contents s);
  kv_commit_law : forall ops s s' r, kv_commit ops s = (s', r) ->
    kv_contents s' = apply_batch ops (kv_contents s) \/
    (is_ok r = false /\ kv_contents s' = kv_contents s);
  kv_prefix_law : forall s p entries, kv_prefix s p = Ok <$> entries ->
    entries ≡ₚ filter (fun kv => starts_with p kv.1 = true) (map_to_list (kv_contents s));
  kv_iter_law : forall s, exists entries, yields (kv_iter s) entries /\
    entries ≡ₚ map_to_list (kv_contents s) /\
    StronglySorted (fun a b => key_leb a b = true) entries
}.

(** [serde_json::to_vec] and [from_slice] at a type *)
Class Json (A : Type) := {
  to_vec : A -> Result string string;
  from_slice : string -> Result A string
}.

Class JsonLaws (A : Type) `{Json A} := {
  json_roundtrip : forall (a : A) b, to_vec a = Ok b -> from_slice b = Ok a
}.

(** [String::from_utf8_lossy]: the bytes it is applied to are ids and keys,
    which are valid UTF-8, and on valid UTF-8 it is the identity. *)
Definition from_utf8_lossy (s : string) : string := s.

(** ** Batches *)

Lemma apply_batch_app ops1 ops2 c :
  apply_batch (ops1 ++ ops2) c = apply_batch ops2 (apply_batch ops1 c).
Proof. apply foldl_app. Qed.

Lemma apply_batch_one k v c : apply_batch [BatchInsert k v] c = <[k := v]> c.
Proof. done. Qed.

Lemma apply_removes keys c k :
  apply_batch (BatchRemove <$> keys) c !! k = if decide (k ∈ keys) then None else c !! k.
Proof.
  unfold apply_batch. revert c. induction keys as [|x keys IH]; intros c; cbn.
  { case_decide as Hk; [by apply elem_of_nil in Hk|done]. }
  rewrite IH. destruct (decide (k = x)) as [->|Hne].
  - rewrite lookup_delete_eq, (decide_True (P := x ∈ x :: keys)) by left. by case_decide.
  - rewrite lookup_delete_ne by done.
    assert (Hk : k ∈ x :: keys <-> k ∈ keys) by (rewrite elem_of_cons; naive_solver).
    by rewrite (decide_ext _ _ _ _ Hk).
Qed.

Lemma apply_inserts (v : string -> string) keys c k :
  apply_batch ((fun key => BatchInsert key (v key)) <$> keys) c !! k =
  if decide (k ∈ keys) then Some (v k) else c !! k.
Proof.
  unfold apply_batch. revert c. induction keys as [|x keys IH]; intros c; cbn.
  { case_decide as Hk; [by apply elem_of_nil in Hk|done]. }
  rewrite IH. destruct (decide (k = x)) as [->|Hne].
  - rewrite lookup_insert_eq, (decide_True (P := x ∈ x :: keys)) by left. by case_decide.
  - rewrite lookup_insert_ne by done.
    assert (Hk : k ∈ x :: keys <-> k ∈ keys) by (rewrite elem_of_cons; naive_solver).
    by rewrite (decide_ext _ _ _ _ Hk).
Qed.

(** Inserts, by membership: a key that is written holds a written value, any
    other is untouched. *)
Definition is_insert (op : BatchOp) : bool := match op with BatchInsert _ _ => true | BatchRemove _ => false end.

Lemma BatchInsert_inj k v k' v' : BatchInsert k v = BatchInsert k' v' -> k = k' /\ v = v'.
Proof. by intros [= -> ->]. Qed.

Lemma inserts_lookup ops c k :
  (forall op, op ∈ ops -> is_insert op = true) ->
  (exists v, BatchInsert k v ∈ ops /\ apply_batch ops c !! k = Some v) \/
  ((forall v, BatchInsert k v ∉ ops) /\ apply_batch ops c !! k = c !! k).
Proof.
  unfold apply_batch. revert c. induction ops as [|op ops IH]; intros c Hins; cbn [foldl].
  { right. split; [|done]. intros v Hv. by apply elem_of_nil in Hv. }
  destruct (IH (apply_batch_op c op)) as [(v & Hin & Hv)|[Hno Heq]].
  { intros op' Hop. apply Hins. by right. }
  - left. exists v. split; [by right|done].
  - destruct op as [k' v|k']; [|by specialize (Hins (BatchRemove k') ltac:(left))].
    rewrite Heq. cbn [apply_batch_op]. destruct (decide (k' = k)) as [->|Hne].
    + left. exists v. split; [left|]. by rewrite lookup_insert_eq.
    + right. split; [|by rewrite lookup_insert_ne]. intros v' [Hv|Hv]%elem_of_cons; [congruence|].
      by apply (Hno v').
Qed.

Lemma removes_lookup ops c k :
  (forall op, op ∈ ops -> is_insert op = false) ->
  (BatchRemove k ∈ ops /\ apply_batch ops c !! k = None) \/
  ((BatchRemove k ∉ ops) /\ apply_batch ops c !! k = c !! k).
Proof.
  unfold apply_batch. revert c. induction ops as [|op ops IH]; intros c Hrem; cbn [foldl].
  { right. split; [|done]. intros Hv. by apply elem_of_nil in Hv. }
  destruct (IH (apply_batch_op c op)) as [[Hin ->]|[Hno ->]].
  { intros op' Hop. apply Hrem. by right. }
  - left. split; [by right|done].
  - destruct op as [k' v|k']; [by specialize (Hrem (BatchInsert k' v) ltac:(left))|].
    cbn [apply_batch_op]. destruct (decide (k' = k)) as [->|Hne].
    + left. split; [left|]. apply lookup_delete_eq.
    + right. split; [|by rewrite lookup_delete_ne]. intros [Hv|Hv]%elem_of_cons; congruence.
Qed.

(** A batch without a key leaves it alone. *)
Definition op_key (op : BatchOp) : string := match op with BatchInsert k _ | BatchRemove k => k end.

Lemma apply_batch_frame ops c k :
  (forall op, op ∈ ops -> op_key op <> k) -> apply_batch ops c !! k = c !! k.
Proof.
  unfold apply_batch. revert c. induction ops as [|op ops IH]; intros c Hk; cbn [foldl]; [done|].
  rewrite IH by (intros; apply Hk; by right).
  destruct op as [k' v|k']; cbn; assert (Hne : k' <> k) by (apply (Hk _ ltac:(left))).
  - by apply lookup_insert_ne.
  - by apply lookup_delete_ne.
Qed.

(** ** A codec from an encoding in numbers, for evaluation *)

Fixpoint numeral (p : positive) : string :=
  match p with
  | xH => ""
  | xO p => String "0" (numeral p)
  | xI p => String "1" (numeral p)
  end.

Fixpoint of_numeral (s : string) : positive :=
  match s with
  | EmptyString => xH
  | String c s => if Ascii.eqb c "1" then xI (of_numeral s) else xO (of_numeral s)
  end.

Lemma of_numeral_numeral p : of_numeral (numeral p) = p.
Proof. induction p; cbn; congruence. Qed.

Definition numeral_json {A} (fields : A -> list positive) (of_fields : list positive -> option A)
    : Json A := {|
  to_vec a := Ok (numeral (encode (fields a)));
  from_slice b :=
    match l ← decode (of_numeral b); of_fields l with
    | Some a => Ok a
    | None => Err "invalid record"
    end
|}.

Lemma numeral_json_laws {A} (fields : A -> list positive) of_fields :
  (forall a, of_fields (fields a) = Some a) -> @JsonLaws A (numeral_json fields of_fields).
Proof.
  intros Hf. split. cbn. intros a b [= <-].
  rewrite of_numeral_numeral, decode_encode. cbn. by rewrite Hf.
Defined.

(** The same for an encoding of some of the values. *)
Definition partial_numeral_json {A} (fields : A -> option (list positive))
    (of_fields : list positive -> option A) : Json A := {|
  to_vec a := match fields a with
              | Some l => Ok (numeral (encode l))
              | None => Err "unsupported value"
              end;
  from_slice := from_slice (Json := numeral_json (fun _ => []) of_fields)
|}.

Lemma partial_numeral_json_laws {A} (fields : A -> option (list positive)) of_fields :
  (forall a l, fields a = Some l -> of_fields l = Some a) ->
  @JsonLaws A (partial_numeral_json fields of_fields).
Proof.
  intros Hf. split. cbn. intros a b. destruct (fields a) as [l|] eqn:Hl; [|done]. intros [= <-].
  rewrite of_numeral_numeral, decode_encode. cbn. by rewrite (Hf _ _ Hl).
Defined.

(** ** A partition in memory, for evaluation *)

Module MemKv.

(** Contents and whether the next commits fail. *)
Record MemKv := mkMemKv { mem_contents : gmap string string; mem_commit_fails : bool }.

#[export] Instance mem_kv : KvStore := {
  kv_state := MemKv;
  kv_contents := mem_contents;
  kv_get s k := Ok (mem_contents s !! k);
  kv_remove k s := (mkMemKv (delete k (mem_contents s)) (mem_commit_fails s), Ok tt);
  kv_commit ops s :=
    if mem_commit_fails s then (s, Err "disk full")
    else (mkMemKv (apply_batch ops (mem_contents s)) false, Ok tt);
  kv_prefix s p := Ok <$> filter (fun kv => starts_with p kv.1 = true) (map_to_list (mem_contents s));
  kv_iter s := Ok <$> sort_by key_leb (map_to_list (mem_contents s))
}.

#[export] Instance mem_kv_laws : KvLaws.
Proof.
  split; cbn.
  - congruence.
  - intros k s s' r [= <- <-]. by left.
  - intros ops s s' r Hc. destruct (mem_commit_fails s); simplify_eq; auto.
  - intros s p entries Heq. apply list_fmap_eq_inj in Heq; [by rewrite Heq|].
    by intros x y [= ->].
  - intros s. exists (sort_by key_leb (map_to_list (mem_contents s))). split_and!.
    + by left.
    + apply sort_by_perm.
    + apply sort_by_sorted; intros; [apply str_leb_total|by eapply str_leb_trans].
Defined.

Definition empty_store : kv_state := mkMemKv ∅ false.
End MemKv.
