(* ===== verification/Queue.v ===== *)
(** * The durable work queue (brehon-store-fjall/src/queue.rs)

    [QueueManager]: queue rows, leases and claimed markers in one partition.  A
    claim writes a lease and the marker of its item in one batch; a lease lives
    until its deadline on the monotonic clock of the process that took it, and
    a lease of another process (another epoch) is dead.  The manager's mutex
    makes the calls sequential.  Every call reads the clock once per check: the
    readings are arguments.  Proved here: a live claim excludes every other
    claim of its item, whatever other calls and storage errors happen; claims
    are handed out first in, first out, and none is withheld; a queue row goes
    only when a live claim of its item is acknowledged. *)

From Stdlib Require Import Ascii.
From S2P Require Import Prelude StrLib Types Keys Kv.

(** ** Data *)

(** error.rs *)
Module StoreError.
Inductive StoreError :=
| Io (message : string)
| Storage (message : string)
| Serialization (message : string)
| ClaimNotFound (claim_id : string)
| ClaimExpired (claim_id : string)
| VersionMismatch (expected actual : Z).
End StoreError.
Abbreviation StoreError := StoreError.StoreError.

(** brehon-types/src/view.rs *)
Record QueueClaim := mkQueueClaim {
  qc_claim_id : ClaimId;
  qc_queue : string;
  qc_item_id : string;
  qc_consumer : string;
  qc_expires_at : DateTime;
  qc_lease_epoch : option string;
  qc_lease_duration_ms : option Z;
  qc_monotonic_deadline_ms : option Z
}.

#[export] Instance QueueClaim_eta : Eta QueueClaim := fun c =>
  mkQueueClaim (qc_claim_id c) (qc_queue c) (qc_item_id c) (qc_consumer c) (qc_expires_at c)
    (qc_lease_epoch c) (qc_lease_duration_ms c) (qc_monotonic_deadline_ms c).

(** A [std::time::Duration] in nanoseconds. *)
Abbreviation Duration := Z (only parsing).

(** One reading of the clocks: [Utc::now()] and [started_at.elapsed()]. *)
Record ClockReading := mkClockReading { clk_utc : DateTime; clk_elapsed : Duration }.

(** [QueueClaim::is_expired] *)
Definition claim_past_expiry (clk : ClockReading) (claim : QueueClaim) : bool :=
  (qc_expires_at claim <? clk_utc clk)%Z.

(** [u64::try_from(duration.as_millis()).unwrap_or(u64::MAX)] *)
Definition duration_ms_saturating (duration : Duration) : Z :=
  let ms := (duration / 1000000)%Z in if (ms <=? u64_max)%Z then ms else u64_max.

(** [chrono::Duration::from_std] fails above [i64::MAX] milliseconds. *)
Definition chrono_duration_from_std (duration : Duration) : Duration :=
  if (duration <=? 9223372036854775807 * 1000000)%Z then duration else (60 * 1000000000)%Z.

Definition elapsed_ms (clk : ClockReading) : Z := duration_ms_saturating (clk_elapsed clk).

Definition deadline_ms_from_now (clk : ClockReading) (lease_for : Duration) : Z :=
  sat_add u64_max (elapsed_ms clk) (duration_ms_saturating lease_for).

Definition claimed_key (queue item_id : string) : string :=
  "claimed:" +:+ queue +:+ ":" +:+ item_id.

Section manager.
Context `{KvLaws} `{JsonLaws QueueClaim}.

(** The epoch of the manager's lease clock. *)
Context (epoch : string).

Abbreviation Store A := (SM kv_state StoreError A).

Definition queue_get (key : string) : Store (option string) := fun s =>
  (s, result_map_err StoreError.Storage (kv_get s key)).
Definition queue_commit (ops : list BatchOp) : Store unit := fun s =>
  let '(s', r) := kv_commit ops s in (s', result_map_err StoreError.Storage r).
Definition decode_claim (bytes : string) : Result QueueClaim StoreError :=
  result_map_err StoreError.Serialization (from_slice bytes).
Definition encode_claim (claim : QueueClaim) : Result string StoreError :=
  result_map_err StoreError.Serialization (to_vec claim).

Definition claim_is_expired (clk : ClockReading) (claim : QueueClaim) : bool :=
  match qc_lease_epoch claim with
  | Some claim_epoch =>
      if negb (String.eqb claim_epoch epoch) then true
      else match qc_monotonic_deadline_ms claim with
           | Some deadline => (deadline <=? elapsed_ms clk)%Z
           | None => claim_past_expiry clk claim
           end
  | None => claim_past_expiry clk claim
  end.

(** The marker of an item, cleared when its lease is missing, malformed,
    expired or another item's. *)
Definition claim_marker_is_active (clk : ClockReading) (claimed_key queue_name item_id : string)
    : Store bool :=
  let! claimed_value := queue_get claimed_key in
  match claimed_value with
  | None => sm_ret false
  | Some claimed_value =>
      let claim_id := from_utf8_lossy claimed_value in
      let! lease_value := queue_get (lease_key claim_id) in
      match lease_value with
      | None => let! _ := queue_commit [BatchRemove claimed_key] in sm_ret false
      | Some lease_value =>
          match from_slice lease_value with
          | Err _ =>
              let! _ := queue_commit [BatchRemove (lease_key claim_id); BatchRemove claimed_key] in
              sm_ret false
          | Ok claim =>
              if claim_is_expired clk claim then
                let! _ := queue_commit [BatchRemove (lease_key claim_id); BatchRemove claimed_key] in
                sm_ret false
              else if negb (String.eqb (qc_queue claim) queue_name)
                      || negb (String.eqb (qc_item_id claim) item_id) then
                let! _ := queue_commit [BatchRemove claimed_key] in sm_ret false
              else sm_ret true
          end
      end
  end.

(** The loop of [claim_next]; [clocks i] is the reading of the check of the
    [i]-th row of the queue, [make item_id] the claim of that item. *)
Fixpoint claim_loop (clocks : nat -> ClockReading) (queue_name : string)
    (make : string -> QueueClaim) (i : nat) (items : list (Result (string * string) string))
    : Store (option QueueClaim) :=
  match items with
  | [] => sm_ret None
  | item :: items =>
      let! (key, value) := sm_lift (result_map_err StoreError.Storage item) in
      if negb (starts_with (queue_prefix queue_name) key) then
        claim_loop clocks queue_name make i items
      else
        let item_id := from_utf8_lossy value in
        let! active :=
          claim_marker_is_active (clocks i) (claimed_key queue_name item_id) queue_name item_id in
        if active then claim_loop clocks queue_name make (S i) items
        else
          let claim := make item_id in
          let! claim_bytes := sm_lift (encode_claim claim) in
          let! _ := queue_commit
            [BatchInsert (lease_key (qc_claim_id claim)) claim_bytes;
             BatchInsert (claimed_key queue_name item_id) (qc_claim_id claim)] in
          sm_ret (Some claim)
  end.

(** [uuid] is the identifier [Uuid::new_v4] gives the claim, [clk] the reading
    at the start of the call. *)
Definition claim_next (clk : ClockReading) (clocks : nat -> ClockReading) (uuid : string)
    (queue_name consumer : string) (lease_for : Duration) : Store (option QueueClaim) := fun s =>
  claim_loop clocks queue_name
    (fun item_id => mkQueueClaim uuid queue_name item_id consumer
       (clk_utc clk + chrono_duration_from_std lease_for)%Z (Some epoch)
       (Some (duration_ms_saturating lease_for)) (Some (deadline_ms_from_now clk lease_for)))
    0 (kv_iter s) s.

(** The scan of [ack_claim] for the first row of the item. *)
Fixpoint find_queued_item (queue_prefix item_id : string)
    (items : list (Result (string * string) string)) : Result (option string) StoreError :=
  match items with
  | [] => Ok None
  | item :: items =>
      let? (key, value) := result_map_err StoreError.Storage item in
      if negb (starts_with queue_prefix key) then find_queued_item queue_prefix item_id items
      else if String.eqb (from_utf8_lossy value) item_id then Ok (Some key)
      else find_queued_item queue_prefix item_id items
  end.

(** What [ack_claim] and [renew_claim] start with: the lease must exist, and an
    expired one is dropped. *)
Definition load_live_claim (clk : ClockReading) (claim_id : ClaimId) : Store QueueClaim :=
  let! claim_bytes := queue_get (lease_key claim_id) in
  match claim_bytes with
  | None => sm_lift (Err (StoreError.ClaimNotFound claim_id))
  | Some claim_bytes =>
      let! claim := sm_lift (decode_claim claim_bytes) in
      if claim_is_expired clk claim then
        let! _ := queue_commit
          [BatchRemove (lease_key claim_id);
           BatchRemove (claimed_key (qc_queue claim) (qc_item_id claim))] in
        sm_lift (Err (StoreError.ClaimExpired claim_id))
      else sm_ret claim
  end.

Definition ack_claim (clk : ClockReading) (claim_id : ClaimId) : Store unit :=
  let! claim := load_live_claim clk claim_id in fun s =>
  (let! queued_item_key :=
     sm_lift (find_queued_item (queue_prefix (qc_queue claim)) (qc_item_id claim) (kv_iter s)) in
   queue_commit
     ([BatchRemove (lease_key claim_id);
       BatchRemove (claimed_key (qc_queue claim) (qc_item_id claim))]
      ++ match queued_item_key with Some key => [BatchRemove key] | None => [] end)) s.

Definition renew_claim (clk1 clk2 clk3 : ClockReading) (claim_id : ClaimId) (lease_for : Duration)
    : Store unit :=
  let! claim := load_live_claim clk1 claim_id in
  let claim := claim
    <| qc_expires_at := (clk_utc clk2 + chrono_duration_from_std lease_for)%Z |>
    <| qc_lease_epoch := Some epoch |>
    <| qc_lease_duration_ms := Some (duration_ms_saturating lease_for) |>
    <| qc_monotonic_deadline_ms := Some (deadline_ms_from_now clk3 lease_for) |> in
  let! new_bytes := sm_lift (encode_claim claim) in
  queue_commit [BatchInsert (lease_key claim_id) new_bytes].

(** [clocks i] is the reading of the check of the [i]-th lease. *)
Fixpoint list_expired_claims (clocks : nat -> ClockReading) (i : nat)
    (items : list (Result (string * string) string)) : Result (list QueueClaim) StoreError :=
  match items with
  | [] => Ok []
  | item :: items =>
      let? (key, value) := result_map_err StoreError.Storage item in
      if negb (starts_with lease_prefix key) then list_expired_claims clocks i items
      else match from_slice value with
           | Err _ => list_expired_claims clocks i items
           | Ok claim =>
               let? expired := list_expired_claims clocks (S i) items in
               Ok (if claim_is_expired (clocks i) claim then claim :: expired else expired)
           end
  end.

Definition cleanup_expired_claims (clocks : nat -> ClockReading) : Store nat := fun s =>
  (let! expired := sm_lift (list_expired_claims clocks 0 (kv_iter s)) in
   match expired with
   | [] => sm_ret 0
   | _ =>
       let! _ := queue_commit (expired ≫= fun claim =>
         [BatchRemove (lease_key (qc_claim_id claim));
          BatchRemove (claimed_key (qc_queue claim) (qc_item_id claim))]) in
       sm_ret (length expired)
   end) s.

(** The row [append_and_enqueue] writes in its batch (store.rs); a batch of that
    call is all-or-nothing like the others. *)
Definition enqueue_row (queue_name item_id : string) (sequence : Z) : Store unit :=
  queue_commit [BatchInsert (queue_key queue_name sequence) item_id].
End manager.

(** ** Queue names that do not run into each other

    A queue name may contain colons (the review lanes do), so that the keys of
    one queue can be keys of another.  The names of [Q] are apart when none,
    followed by a colon, begins another. *)

Definition queues_apart (Q : gset string) : Prop :=
  forall q q', q ∈ Q -> q' ∈ Q -> starts_with (q +:+ ":") (q' +:+ ":") = true -> q = q'.

Lemma prefix_comparable a b x y :
  a +:+ x = b +:+ y -> starts_with a b = true \/ starts_with b a = true.
Proof.
  revert b. induction a as [|c a IH]; intros b; [left; apply starts_with_iff; by eexists|].
  destruct b as [|d b]; [right; apply starts_with_iff; by eexists|].
  rewrite !append_cons. intros [= -> Heq]. destruct (IH b Heq) as [Ha|Ha];
    apply starts_with_iff in Ha as [r ->]; [left|right]; apply starts_with_iff; exists r;
    by rewrite append_cons.
Qed.

Section keys.
Context (Q : gset string) (apart : queues_apart Q).

Lemma queue_name_inj q q' x y :
  q ∈ Q -> q' ∈ Q -> q +:+ ":" +:+ x = q' +:+ ":" +:+ y -> q = q' /\ x = y.
Proof.
  intros Hq Hq' Heq. rewrite <-!append_assoc in Heq. assert (q = q') as <-.
  { destruct (prefix_comparable _ _ _ _ Heq); [by apply apart|symmetry; by apply apart]. }
  split; [done|]. by eapply append_inj_l.
Qed.

Lemma claimed_key_inj q q' i i' :
  q ∈ Q -> q' ∈ Q -> claimed_key q i = claimed_key q' i' -> q = q' /\ i = i'.
Proof. intros ?? Heq. by apply append_inj_l, queue_name_inj in Heq. Qed.

Lemma queue_key_inj q q' n n' :
  q ∈ Q -> q' ∈ Q -> is_u64 n -> is_u64 n' -> queue_key q n = queue_key q' n' -> q = q' /\ n = n'.
Proof.
  intros Hq Hq' ?? Heq. apply append_inj_l, queue_name_inj in Heq as [-> Heq]; [|done..].
  split; [done|]. by apply fmt020_inj.
Qed.

Lemma queue_prefix_key q q' n :
  q ∈ Q -> q' ∈ Q -> starts_with (queue_prefix q) (queue_key q' n) = true -> q = q'.
Proof.
  intros Hq Hq' [r Hr]%starts_with_iff. unfold queue_prefix, queue_key in Hr.
  rewrite !append_assoc in Hr. apply append_inj_l in Hr. by apply queue_name_inj in Hr as [-> _].
Qed.
End keys.

Lemma queue_prefix_own q n : starts_with (queue_prefix q) (queue_key q n) = true.
Proof. apply starts_with_iff. exists (fmt020 n). unfold queue_prefix, queue_key. by rewrite !append_assoc. Qed.

Lemma queue_prefix_queue q k : starts_with (queue_prefix q) k = true -> starts_with "queue:" k = true.
Proof.
  intros [r ->]%starts_with_iff. apply starts_with_iff. exists (q +:+ ":" +:+ r).
  unfold queue_prefix. by rewrite !append_assoc.
Qed.

Lemma lease_key_inj i j : lease_key i = lease_key j -> i = j.
Proof. apply append_inj_l. Qed.

(** ** The invariant of the partition *)

Section invariant.
Context `{KvLaws} `{JsonLaws QueueClaim}.
Context (epoch : string) (Q : gset string) (apart : queues_apart Q).

Abbreviation contents := (gmap string string).

(** The lease of [cl] is stored. *)
Definition holds (c : contents) (cl : QueueClaim) : Prop :=
  exists b, c !! lease_key (qc_claim_id cl) = Some b /\ from_slice b = Ok cl.

(** Every lease decodes to the claim it is filed under, and the marker of its
    item names it; every row is a numbered row of one of the queues. *)
Record queue_inv (c : contents) : Prop := mkQueueInv {
  qi_lease : forall id b, c !! lease_key id = Some b ->
    exists cl, from_slice b = Ok cl /\ qc_claim_id cl = id /\ qc_queue cl ∈ Q /\
      c !! claimed_key (qc_queue cl) (qc_item_id cl) = Some id;
  qi_row : forall k v, c !! k = Some v -> starts_with "queue:" k = true ->
    exists q n, q ∈ Q /\ is_u64 n /\ k = queue_key q n
}.

Lemma queue_inv_empty : queue_inv ∅.
Proof. by split; intros ??; rewrite lookup_empty. Qed.

Lemma holds_inv c cl :
  queue_inv c -> holds c cl ->
  qc_queue cl ∈ Q /\ c !! claimed_key (qc_queue cl) (qc_item_id cl) = Some (qc_claim_id cl).
Proof.
  intros Hi (b & Hb & Hd). destruct (qi_lease _ Hi _ _ Hb) as (cl' & Hd' & _ & HQ & Hm).
  rewrite Hd in Hd'. injection Hd' as <-. done.
Qed.

(** ** The check of a marker, on contents *)

Definition marker_check (clk : ClockReading) (c : contents) (q i : string) : bool * list string :=
  match c !! claimed_key q i with
  | None => (false, [])
  | Some id =>
      match c !! lease_key id with
      | None => (false, [claimed_key q i])
      | Some b =>
          match from_slice b with
          | Err _ => (false, [lease_key id; claimed_key q i])
          | Ok claim =>
              if claim_is_expired epoch clk claim then (false, [lease_key id; claimed_key q i])
              else if negb (String.eqb (qc_queue claim) q) || negb (String.eqb (qc_item_id claim) i)
              then (false, [claimed_key q i])
              else (true, [])
          end
      end
  end.

(** The item is held: a live lease of its own backs its marker. *)
Definition item_held (clk : ClockReading) (c : contents) (q i : string) : bool :=
  (marker_check clk c q i).1.
Definition without_stale (clk : ClockReading) (c : contents) (q i : string) : contents :=
  apply_batch (BatchRemove <$> (marker_check clk c q i).2) c.

Lemma queue_get_post k s :
  sm_post (queue_get k) s (fun s' r => s' = s /\
    match r with Ok v => v = kv_contents s !! k | Err _ => True end).
Proof.
  unfold sm_post, queue_get. cbn. split; [done|].
  destruct (kv_get s k) eqn:E; cbn; [by eapply kv_get_law|done].
Qed.

Lemma queue_commit_post ops s :
  sm_post (queue_commit ops) s (fun s' r =>
    kv_contents s' = apply_batch ops (kv_contents s) \/
    (is_ok r = false /\ kv_contents s' = kv_contents s)).
Proof.
  unfold sm_post, queue_commit. destruct (kv_commit ops s) as [s' r] eqn:E.
  destruct (kv_commit_law _ _ _ _ E) as [Hc|[Hr Hc]]; cbn; [by left|right].
  by destruct r.
Qed.

Lemma claim_marker_post clk q i s :
  sm_post (claim_marker_is_active epoch clk (claimed_key q i) q i) s (fun s' r =>
    match r with
    | Ok true => s' = s /\ item_held clk (kv_contents s) q i = true
    | Ok false => item_held clk (kv_contents s) q i = false /\
        kv_contents s' = without_stale clk (kv_contents s) q i
    | Err _ => kv_contents s' = kv_contents s \/
        (item_held clk (kv_contents s) q i = false /\
         kv_contents s' = without_stale clk (kv_contents s) q i)
    end).
Proof.
  assert (Hdrop : forall keys, item_held clk (kv_contents s) q i = false ->
    without_stale clk (kv_contents s) q i = apply_batch (BatchRemove <$> keys) (kv_contents s) ->
    sm_post (let! _ := queue_commit (BatchRemove <$> keys) in sm_ret false) s (fun s' r =>
    match r with
    | Ok true => s' = s /\ item_held clk (kv_contents s) q i = true
    | Ok false => item_held clk (kv_contents s) q i = false /\
        kv_contents s' = without_stale clk (kv_contents s) q i
    | Err _ => kv_contents s' = kv_contents s \/
        (item_held clk (kv_contents s) q i = false /\
         kv_contents s' = without_stale clk (kv_contents s) q i)
    end)).
  { intros keys Hh Hk. apply sm_post_bind. eapply sm_post_mono; [apply queue_commit_post|].
    cbn. intros s' [[]|e] Hc; rewrite Hk; [|naive_solver].
    destruct Hc as [Hc|[Hc _]]; [by split|done]. }
  revert Hdrop. unfold claim_marker_is_active, item_held, without_stale, marker_check. intros Hdrop.
  apply sm_post_bind. eapply sm_post_mono; [apply queue_get_post|].
  cbn beta. intros s' [v|e] [-> Hv]; [subst v|by left].
  destruct (kv_contents s !! claimed_key q i) as [id|]; [|done].
  apply sm_post_bind. eapply sm_post_mono; [apply queue_get_post|].
  cbn beta. intros s' [v|e] [-> Hv]; [subst v|by left]. unfold from_utf8_lossy in *.
  destruct (kv_contents s !! lease_key id) as [b|]; [|by apply (Hdrop [claimed_key q i])].
  destruct (from_slice b) as [cl|e]; [|by apply (Hdrop [lease_key id; claimed_key q i])].
  destruct (claim_is_expired epoch clk cl); [by apply (Hdrop [lease_key id; claimed_key q i])|].
  destruct (negb _ || negb _); [by apply (Hdrop [claimed_key q i])|done].
Qed.

(** ** What the batches preserve

    [keeps P R c]: the invariant, the leases of the claims of [P] and the rows
    of [R]. *)

Definition is_row_key (k : string) : Prop := starts_with "queue:" k = true.

Record keeps (P : QueueClaim -> Prop) (R : string -> string -> Prop) (c : contents) : Prop :=
mkKeeps {
  keeps_inv : queue_inv c;
  keeps_claims : forall cl, P cl -> holds c cl;
  keeps_rows : forall k v, R k v -> is_row_key k /\ c !! k = Some v
}.

(** The keys of a claim: its lease and the marker of its item. *)
Definition claim_keys (cl : QueueClaim) : list string :=
  [lease_key (qc_claim_id cl); claimed_key (qc_queue cl) (qc_item_id cl)].

Lemma row_key_not_lease k id : is_row_key k -> k <> lease_key id.
Proof. by intros [r ->]%starts_with_iff. Qed.
Lemma row_key_not_claimed k q i : is_row_key k -> k <> claimed_key q i.
Proof. by intros [r ->]%starts_with_iff. Qed.
Lemma lease_not_claimed id q i : lease_key id <> claimed_key q i.
Proof. done. Qed.

Lemma lookup_removed_Some keys (c : contents) k v :
  apply_batch (BatchRemove <$> keys) c !! k = Some v <-> (k ∉ keys) /\ c !! k = Some v.
Proof. rewrite apply_removes. case_decide; naive_solver. Qed.

(** Dropping stored claims, with rows: the other claims keep their markers. *)
Lemma drop_claims_keeps P R c E rows :
  keeps P R c -> Forall (holds c) E -> Forall is_row_key rows ->
  (forall h e, P h -> e ∈ E -> qc_claim_id h <> qc_claim_id e) ->
  (forall k v, R k v -> k ∉ rows) ->
  keeps P R (apply_batch (BatchRemove <$> ((E ≫= claim_keys) ++ rows)) c).
Proof.
  intros [Hi Hh Hrow] HE Hrows Hne Hkr. rewrite Forall_forall in HE. rewrite Forall_forall in Hrows.
  assert (Hin : forall k, k ∈ (E ≫= claim_keys) ++ rows -> is_row_key k \/
    exists e, e ∈ E /\ (k = lease_key (qc_claim_id e) \/ k = claimed_key (qc_queue e) (qc_item_id e))).
  { intros k [Hk|Hk]%elem_of_app; [|by left; auto]. right.
    apply list_elem_of_bind in Hk as (e & Hk & He). exists e. split; [done|].
    unfold claim_keys in Hk. by rewrite !elem_of_cons, elem_of_nil in Hk; naive_solver. }
  assert (Hkeep : forall cl, holds c cl -> (forall e, e ∈ E -> qc_claim_id cl <> qc_claim_id e) ->
    holds (apply_batch (BatchRemove <$> ((E ≫= claim_keys) ++ rows)) c) cl /\
    apply_batch (BatchRemove <$> ((E ≫= claim_keys) ++ rows)) c
      !! claimed_key (qc_queue cl) (qc_item_id cl) = Some (qc_claim_id cl)).
  { intros cl Hcl Hn. destruct (holds_inv _ _ Hi Hcl) as [HQ Hm]. destruct Hcl as (b & Hb & Hd). split.
    - exists b. split; [|done]. apply lookup_removed_Some. split; [|done].
      intros [Hr|(e & He & [Hk|Hk])]%Hin; [by eapply row_key_not_lease| |by eapply lease_not_claimed].
      apply lease_key_inj in Hk. by apply (Hn e).
    - apply lookup_removed_Some. split; [|done].
      intros [Hr|(e & He & [Hk|Hk])]%Hin; [by eapply row_key_not_claimed|by eapply lease_not_claimed|].
      destruct (holds_inv _ _ Hi (HE _ He)) as [HQe Hme]. rewrite <-Hk, Hm in Hme.
      injection Hme as Hid. by apply (Hn e). }
  split; [split|..].
  - intros id b [Hni Hb]%lookup_removed_Some.
    destruct (qi_lease _ Hi _ _ Hb) as (cl & Hd & Hid & HQ & Hm). subst id.
    exists cl. split_and!; [done..|]. apply Hkeep; [by exists b|].
    intros e He Heq. apply Hni, elem_of_app. left. apply list_elem_of_bind. exists e.
    split; [rewrite Heq; by left|done].
  - intros k v [_ Hk]%lookup_removed_Some. exact (qi_row _ Hi _ _ Hk).
  - intros cl Hcl. apply Hkeep; [by apply Hh|]. intros e He. by apply Hne.
  - intros k v HR. destruct (Hrow _ _ HR) as [Hk Hv]. split; [done|]. apply lookup_removed_Some.
    split; [|done]. intros [(e & Hke & _)%list_elem_of_bind|Hr]%elem_of_app; [|by eapply Hkr].
    unfold claim_keys in Hke. rewrite !elem_of_cons, elem_of_nil in Hke.
    destruct Hke as [->|[->|[]]]; [by eapply row_key_not_lease|by eapply row_key_not_claimed].
Qed.

(** Rows survive the removal of other keys. *)
Lemma rows_without (R : string -> string -> Prop) c key :
  (forall k v, R k v -> is_row_key k /\ c !! k = Some v) -> ~ is_row_key key ->
  forall k v, R k v -> is_row_key k /\ apply_batch (BatchRemove <$> [key]) c !! k = Some v.
Proof.
  intros Hrow Hkey k v HR. destruct (Hrow _ _ HR) as [Hk Hv]. split; [done|].
  apply lookup_removed_Some. split; [|done]. by intros ->%list_elem_of_singleton.
Qed.

(** Dropping a lease. *)
Lemma drop_lease_keeps P R c id :
  keeps P R c -> (forall h, P h -> qc_claim_id h <> id) ->
  keeps P R (apply_batch (BatchRemove <$> [lease_key id]) c).
Proof.
  intros [Hi Hh Hrow] Hne. split; [split|..].
  - intros id' b [Hni Hb]%lookup_removed_Some.
    destruct (qi_lease _ Hi _ _ Hb) as (cl & Hd & <- & HQ & Hm). exists cl. split_and!; [done..|].
    apply lookup_removed_Some. split; [|done]. by rewrite elem_of_cons, elem_of_nil; intros [?|[]].
  - intros k v [_ Hk]%lookup_removed_Some. exact (qi_row _ Hi _ _ Hk).
  - intros cl Hcl. destruct (Hh _ Hcl) as (b & Hb & Hd). exists b. split; [|done].
    apply lookup_removed_Some. split; [|done]. rewrite elem_of_cons, elem_of_nil.
    intros [Hk%lease_key_inj|[]]. by eapply Hne.
  - by apply rows_without.
Qed.

(** Dropping a marker no lease relies on. *)
Lemma drop_marker_keeps P R c q i :
  keeps P R c ->
  (forall cl, holds c cl -> claimed_key (qc_queue cl) (qc_item_id cl) <> claimed_key q i) ->
  keeps P R (apply_batch (BatchRemove <$> [claimed_key q i]) c).
Proof.
  intros [Hi Hh Hrow] Hno.
  assert (Hkeep : forall cl, holds c cl -> holds (apply_batch (BatchRemove <$> [claimed_key q i]) c) cl).
  { intros cl (b & Hb & Hd). exists b. split; [|done]. apply lookup_removed_Some. split; [|done].
    by rewrite elem_of_cons, elem_of_nil; intros [?|[]]. }
  split; [split|by auto|].
  - intros id b [_ Hb]%lookup_removed_Some.
    destruct (qi_lease _ Hi _ _ Hb) as (cl & Hd & <- & HQ & Hm). exists cl. split_and!; [done..|].
    apply lookup_removed_Some. split; [|done]. rewrite elem_of_cons, elem_of_nil. intros [Hk|[]].
    by eapply Hno; [by exists b|].
  - intros k v [_ Hk]%lookup_removed_Some. exact (qi_row _ Hi _ _ Hk).
  - by apply rows_without.
Qed.

(** A live claim holds its item. *)
Lemma live_claim_held c clk cl :
  queue_inv c -> holds c cl -> claim_is_expired epoch clk cl = false ->
  item_held clk c (qc_queue cl) (qc_item_id cl) = true.
Proof.
  intros Hi Hcl Hl. destruct (holds_inv _ _ Hi Hcl) as [_ Hm]. destruct Hcl as (b & Hb & Hd).
  unfold item_held, marker_check. by rewrite Hm, Hb, Hd, Hl, !String.eqb_refl.
Qed.

Lemma without_stale_keeps P R c clk q i :
  keeps P R c -> q ∈ Q -> (forall cl, P cl -> claim_is_expired epoch clk cl = false) ->
  keeps P R (without_stale clk c q i).
Proof.
  intros Hk Hq Hlive. unfold without_stale, marker_check.
  destruct (c !! claimed_key q i) as [id|] eqn:Hm; [|done].
  assert (Hmark : forall cl, holds c cl -> claimed_key (qc_queue cl) (qc_item_id cl) = claimed_key q i ->
    qc_claim_id cl = id).
  { intros cl Hcl Heq. destruct (holds_inv _ _ (keeps_inv _ _ _ Hk) Hcl) as [_ Hm']. congruence. }
  destruct (c !! lease_key id) as [b|] eqn:Hb; cycle 1.
  { apply drop_marker_keeps; [done|]. intros cl Hcl Heq. pose proof (Hmark _ Hcl Heq).
    destruct Hcl as (b & Hb' & _). congruence. }
  destruct (qi_lease _ (keeps_inv _ _ _ Hk) _ _ Hb) as (cl & Hd & Hid & HQ & Hmk). rewrite Hd.
  assert (Hcl : holds c cl) by (exists b; by rewrite Hid).
  destruct (claim_is_expired epoch clk cl) eqn:Hexp.
  - cbn [snd]. change [lease_key id; claimed_key q i] with ([lease_key id] ++ [claimed_key q i]).
    rewrite fmap_app, apply_batch_app. apply drop_marker_keeps.
    + apply drop_lease_keeps; [done|]. intros h Hh Heqid. specialize (Hlive _ Hh).
      destruct (keeps_claims _ _ _ Hk _ Hh) as (b' & Hb' & Hd'). congruence.
    + intros cl' (b' & [Hni Hb']%lookup_removed_Some & Hd') Heq.
      apply Hni. rewrite (Hmark cl'); [by left|by exists b'|done].
  - destruct (negb _ || negb _) eqn:Hmis; [|done].
    apply drop_marker_keeps; [done|]. intros cl' Hcl' Heq. pose proof (Hmark _ Hcl' Heq) as Hid'.
    assert (cl' = cl) as ->.
    { destruct Hcl' as (b' & Hb' & Hd'). congruence. }
    apply (claimed_key_inj Q apart) in Heq as [Hq1 Hi1]; [|done..].
    by rewrite Hq1, Hi1, !String.eqb_refl in Hmis.
Qed.

Definition claim_batch (cl : QueueClaim) (b : string) : list BatchOp :=
  [BatchInsert (lease_key (qc_claim_id cl)) b;
   BatchInsert (claimed_key (qc_queue cl) (qc_item_id cl)) (qc_claim_id cl)].

(** A new claim on an item without a marker. *)
Lemma claim_batch_keeps P R c cl b :
  keeps P R c -> to_vec cl = Ok b -> qc_queue cl ∈ Q ->
  c !! claimed_key (qc_queue cl) (qc_item_id cl) = None -> c !! lease_key (qc_claim_id cl) = None ->
  keeps (fun h => P h \/ h = cl) R (apply_batch (claim_batch cl b) c).
Proof.
  intros [Hi Hh Hrow] Hb Hq Hm Hl. unfold apply_batch, claim_batch. cbn.
  set (c' := <[claimed_key _ _ := _]> (<[lease_key _ := _]> c)).
  assert (Hlease : forall id, c' !! lease_key id = if decide (id = qc_claim_id cl) then Some b
    else c !! lease_key id).
  { intros id. unfold c'. rewrite lookup_insert_ne by done. case_decide as Hid; [by subst; rewrite lookup_insert_eq|].
    apply lookup_insert_ne. by intros ?%lease_key_inj. }
  assert (Hown : holds c' cl).
  { exists b. rewrite Hlease, decide_True by done. split; [done|by apply json_roundtrip]. }
  assert (Hkeep : forall h, holds c h -> holds c' h).
  { intros h (b' & Hb' & Hd'). exists b'. split; [|done]. rewrite Hlease, decide_False; congruence. }
  split; [split|..].
  - intros id b' Hb'. rewrite Hlease in Hb'. case_decide as Hid.
    + injection Hb' as <-. subst id. exists cl. split_and!; [by apply json_roundtrip|done..|].
      unfold c'. by rewrite lookup_insert_eq.
    + destruct (qi_lease _ Hi _ _ Hb') as (cl' & Hd & <- & HQ & Hm'). exists cl'.
      split_and!; [done..|]. unfold c'. rewrite !lookup_insert_ne; [done|by intros ?|congruence].
  - intros k v Hk Hr. apply (qi_row _ Hi k v); [|done]. unfold c' in Hk.
    rewrite !lookup_insert_ne in Hk; [done|..]; apply not_eq_sym;
      [by apply row_key_not_lease|by apply row_key_not_claimed].
  - intros h [Hp| ->]; [|done]. by apply Hkeep, Hh.
  - intros k v HR. destruct (Hrow _ _ HR) as [Hk Hv]. split; [done|]. unfold c'.
    rewrite !lookup_insert_ne; [done|..]; apply not_eq_sym;
      [by apply row_key_not_lease|by apply row_key_not_claimed].
Qed.

(** A lease written again for the same claim and item. *)
Lemma renew_batch_keeps P R c cl cl' b :
  keeps P R c -> holds c cl -> to_vec cl' = Ok b -> qc_claim_id cl' = qc_claim_id cl ->
  qc_queue cl' = qc_queue cl -> qc_item_id cl' = qc_item_id cl ->
  keeps (fun h => (P h /\ qc_claim_id h <> qc_claim_id cl) \/ h = cl') R
    (apply_batch [BatchInsert (lease_key (qc_claim_id cl)) b] c).
Proof.
  intros [Hi Hh Hrow] Hcl Hb Hid Hq Hit. destruct (holds_inv _ _ Hi Hcl) as [HQ Hm].
  rewrite apply_batch_one. split; [split|..].
  - intros id b' [[<-%lease_key_inj <-]|[Hne Hb']]%lookup_insert_Some.
    + exists cl'. rewrite Hq, Hit, Hid. split_and!; [by apply json_roundtrip|done..|].
      by rewrite lookup_insert_ne.
    + destruct (qi_lease _ Hi _ _ Hb') as (h & Hd & <- & HQh & Hmh). exists h. split_and!; [done..|].
      by rewrite lookup_insert_ne.
  - intros k v [[<- _]|[Hne Hk]]%lookup_insert_Some; [done|]. exact (qi_row _ Hi _ _ Hk).
  - intros h [[Hp Hne]| ->].
    + destruct (Hh _ Hp) as (b' & Hb' & Hd'). exists b'. split; [|done].
      rewrite lookup_insert_ne; [done|]. by intros ?%lease_key_inj.
    + exists b. rewrite Hid, lookup_insert_eq. split; [done|by apply json_roundtrip].
  - intros k v HR. destruct (Hrow _ _ HR) as [Hk Hv]. split; [done|].
    rewrite lookup_insert_ne; [done|]. by apply not_eq_sym, row_key_not_lease.
Qed.

(** No row, or the same row, is stored under a key. *)
Definition row_free (c : contents) (key item : string) : Prop :=
  c !! key = None \/ c !! key = Some item.

Lemma row_batch_keeps P R c q n item :
  keeps P R c -> q ∈ Q -> is_u64 n -> row_free c (queue_key q n) item ->
  keeps P R (apply_batch [BatchInsert (queue_key q n) item] c).
Proof.
  intros [Hi Hh Hrow] Hq Hn Hfree. rewrite apply_batch_one. split; [split|..].
  - intros id b [[? _]|[_ Hb]]%lookup_insert_Some; [done|].
    destruct (qi_lease _ Hi _ _ Hb) as (h & Hd & <- & HQh & Hmh). exists h. split_and!; [done..|].
    by rewrite lookup_insert_ne.
  - intros k v [[<- _]|[Hne Hk]]%lookup_insert_Some; [by eauto|]. exact (qi_row _ Hi _ _ Hk).
  - intros h Hp. destruct (Hh _ Hp) as (b' & Hb' & Hd'). exists b'. by rewrite lookup_insert_ne.
  - intros k v HR. destruct (Hrow _ _ HR) as [Hk Hv]. split; [done|]. apply lookup_insert_Some.
    destruct (decide (queue_key q n = k)) as [<-|]; [left|by right].
    destruct Hfree as [Hf|Hf]; rewrite Hf in Hv; by simplify_eq.
Qed.

(** ** The loop of [claim_next] *)

(** The entries before the first error. *)
Fixpoint oks (items : list (Result (string * string) string)) : list (string * string) :=
  match items with Ok kv :: items => kv :: oks items | _ => [] end.

Definition queue_rows (q : string) (entries : list (string * string)) : list (string * string) :=
  List.filter (fun kv => starts_with (queue_prefix q) kv.1) entries.

(** The first row that is not held, if any. *)
Definition first_free (clocks : nat -> ClockReading) (c : contents) (q : string) (i : nat)
    (rows : list (string * string)) (n : nat) (kv : string * string) : Prop :=
  rows !! n = Some kv /\ item_held (clocks (i + n)) c q kv.2 = false /\
  forall m kv', m < n -> rows !! m = Some kv' -> item_held (clocks (i + m)) c q kv'.2 = true.

Lemma first_free_cons clocks c q i kv0 rows n kv :
  item_held (clocks i) c q kv0.2 = true -> first_free clocks c q (S i) rows n kv ->
  first_free clocks c q i (kv0 :: rows) (S n) kv.
Proof.
  intros Hheld (Hn & Hf & Hm). unfold first_free. rewrite Nat.add_succ_r. split_and!; [done..|].
  intros [|m] kv' Hlt; cbn; [rewrite Nat.add_0_r; congruence|].
  rewrite Nat.add_succ_r. apply Hm. lia.
Qed.

(** The outcomes of the loop from the [i]-th row on. *)
Definition loop_post (clocks : nat -> ClockReading) (q : string) (make : string -> QueueClaim)
    (i : nat) (items : list (Result (string * string) string)) (c c' : contents)
    (r : Result (option QueueClaim) StoreError) : Prop :=
  let rows := queue_rows q (oks items) in
  match r with
  | Ok None => c' = c /\ items = Ok <$> oks items /\
      forall m kv, rows !! m = Some kv -> item_held (clocks (i + m)) c q kv.2 = true
  | Ok (Some cl) => exists n kv b, first_free clocks c q i rows n kv /\ cl = make kv.2 /\
      to_vec cl = Ok b /\
      c' = apply_batch (claim_batch cl b) (without_stale (clocks (i + n)) c q kv.2)
  | Err _ => c' = c \/ exists n kv, first_free clocks c q i rows n kv /\
      (c' = without_stale (clocks (i + n)) c q kv.2 \/
       exists b, to_vec (make kv.2) = Ok b /\
         c' = apply_batch (claim_batch (make kv.2) b) (without_stale (clocks (i + n)) c q kv.2))
  end.

(** A held row in front does not change the outcome. *)
Lemma loop_post_cons clocks q make i kv items c c' r :
  starts_with (queue_prefix q) kv.1 = true -> item_held (clocks i) c q kv.2 = true ->
  loop_post clocks q make (S i) items c c' r -> loop_post clocks q make i (Ok kv :: items) c c' r.
Proof.
  intros Hp Hheld. unfold loop_post. cbn. rewrite Hp. destruct r as [[cl|]|e].
  - intros (n & kv' & b & Hf & Hr). exists (S n), kv', b. rewrite Nat.add_succ_r.
    split; [by apply first_free_cons|done].
  - intros (-> & Heq & Hall). split_and!; [done|cbn; by f_equal|].
    intros [|m] kv'; cbn; [rewrite Nat.add_0_r; congruence|]. rewrite Nat.add_succ_r. apply Hall.
  - intros [->|(n & kv' & Hf & Hr)]; [by left|right]. exists (S n), kv'. rewrite Nat.add_succ_r.
    split; [by apply first_free_cons|done].
Qed.

Lemma loop_post_skip clocks q make i kv items c c' r :
  starts_with (queue_prefix q) kv.1 = false ->
  loop_post clocks q make i items c c' r -> loop_post clocks q make i (Ok kv :: items) c c' r.
Proof.
  intros Hp. unfold loop_post. cbn. rewrite Hp. destruct r as [[cl|]|e]; [done| |done].
  intros (-> & Heq & Hall). split_and!; [done|cbn; by f_equal|done].
Qed.

Lemma claim_loop_post clocks q make i items s :
  (forall item, qc_queue (make item) = q /\ qc_item_id (make item) = item) ->
  sm_post (claim_loop epoch clocks q make i items) s (fun s' r =>
    loop_post clocks q make i items (kv_contents s) (kv_contents s') r).
Proof.
  intros Hmake. revert i. induction items as [|[[key value]|e] items IH]; intros i; cbn [claim_loop].
  - by apply sm_post_ret.
  - apply sm_post_bind, sm_post_lift. cbn [result_map_err].
    destruct (starts_with (queue_prefix q) key) eqn:Hp; cbn [negb]; cycle 1.
    { eapply sm_post_mono; [apply IH|]. cbn beta. intros s' r. by apply loop_post_skip. }
    unfold from_utf8_lossy. apply sm_post_bind. eapply sm_post_mono; [apply claim_marker_post|].
    assert (Hfree : item_held (clocks i) (kv_contents s) q value = false ->
      first_free clocks (kv_contents s) q i (queue_rows q (oks (Ok (key, value) :: items))) 0 (key, value)).
    { intros Hf. unfold first_free. cbn. rewrite Hp, Nat.add_0_r. split_and!; [done..|]. intros; lia. }
    cbn beta. intros s1 [[]|e] Hr; cycle 2.
    { destruct Hr as [->|[Hf ->]]; [by left|right]. exists 0, (key, value).
      rewrite Nat.add_0_r. auto. }
    { destruct Hr as [-> Hh]. eapply sm_post_mono; [apply IH|]. cbn beta. intros s' r.
      by apply loop_post_cons. }
    destruct Hr as [Hf Hc]. destruct (Hmake value) as [Hq Hit].
    apply sm_post_bind, sm_post_lift. unfold encode_claim.
    destruct (to_vec (make value)) as [b|e] eqn:Hb; cbn [result_map_err]; cycle 1.
    { right. exists 0, (key, value). rewrite Nat.add_0_r. auto. }
    apply sm_post_bind. eapply sm_post_mono; [apply queue_commit_post|]. rewrite Hc.
    replace (claimed_key q value) with (claimed_key (qc_queue (make value)) (qc_item_id (make value)))
      by congruence. fold (claim_batch (make value) b).
    cbn beta. intros s' [[]|e] Hr.
    + destruct Hr as [Hr|[Hr _]]; [|done]. apply sm_post_ret. exists 0, (key, value), b.
      rewrite Nat.add_0_r. auto.
    + right. exists 0, (key, value). rewrite Nat.add_0_r. split; [auto|].
      destruct Hr as [Hr|[_ Hr]]; eauto.
  - apply sm_post_bind, sm_post_lift. by left.
Qed.

(** After the check of an item that is not held, it has no marker. *)
Lemma without_stale_marker clk c q i :
  item_held clk c q i = false -> without_stale clk c q i !! claimed_key q i = None.
Proof.
  unfold item_held, without_stale, marker_check. intros Hh. rewrite apply_removes.
  destruct (c !! claimed_key q i) as [id|] eqn:Hm; [|by case_decide].
  rewrite decide_True; [done|]. revert Hh. repeat case_match; cbn; rewrite ?elem_of_cons; auto. done.
Qed.

Lemma without_stale_sub clk c q i k v :
  without_stale clk c q i !! k = Some v -> c !! k = Some v.
Proof. unfold without_stale. by intros [_ ?]%lookup_removed_Some. Qed.

(** ** Calls *)

Inductive QueueOp :=
| QClaim (clk : ClockReading) (clocks : nat -> ClockReading)
    (uuid queue_name consumer : string) (lease_for : Duration)
| QAck (clk : ClockReading) (claim_id : ClaimId)
| QRenew (clk1 clk2 clk3 : ClockReading) (claim_id : ClaimId) (lease_for : Duration)
| QCleanup (clocks : nat -> ClockReading)
| QEnqueue (queue_name item_id : string) (sequence : Z).

Definition sm_void {S E A B} (c : SM S E A) : SM S E (option B) := let! _ := c in sm_ret None.

(** A call, with the claim it hands out. *)
Definition exec_queue (op : QueueOp) : SM kv_state StoreError (option QueueClaim) :=
  match op with
  | QClaim clk clocks uuid queue_name consumer lease_for =>
      claim_next epoch clk clocks uuid queue_name consumer lease_for
  | QAck clk claim_id => sm_void (ack_claim epoch clk claim_id)
  | QRenew clk1 clk2 clk3 claim_id lease_for =>
      sm_void (renew_claim epoch clk1 clk2 clk3 claim_id lease_for)
  | QCleanup clocks => sm_void (cleanup_expired_claims epoch clocks)
  | QEnqueue queue_name item_id sequence => sm_void (enqueue_row queue_name item_id sequence)
  end.

(** The calls use queues of [Q], claim identifiers are new, sequence numbers
    fit. *)
Definition admissible (op : QueueOp) (c : contents) : Prop :=
  match op with
  | QClaim _ _ uuid queue_name _ _ => queue_name ∈ Q /\ c !! lease_key uuid = None
  | QEnqueue queue_name item_id sequence => queue_name ∈ Q /\ is_u64 sequence /\
      row_free c (queue_key queue_name sequence) item_id
  | _ => True
  end.

(** The readings at which a call checks leases. *)
Definition checks_at (op : QueueOp) (clk : ClockReading) : Prop :=
  match op with
  | QClaim _ clocks _ _ _ _ | QCleanup clocks => exists i, clk = clocks i
  | QAck clk1 _ | QRenew clk1 _ _ _ _ => clk = clk1
  | QEnqueue _ _ _ => False
  end.

(** The claim a call acts on. *)
Definition acts_on (op : QueueOp) : option ClaimId :=
  match op with QAck _ id | QRenew _ _ _ id _ => Some id | _ => None end.

Lemma keeps_weaken P P' R c : keeps P R c -> (forall h, P' h -> P h) -> keeps P' R c.
Proof. intros [Hi Hh Hrow] Hw. split; auto. Qed.

Lemma sm_post_void {A B} (op : SM kv_state StoreError A) s (K : contents -> Prop) :
  sm_post op s (fun s' _ => K (kv_contents s')) ->
  sm_post (sm_void (B := B) op) s (fun s' r => K (kv_contents s') /\
    match r with Ok (Some _) => False | _ => True end).
Proof.
  intros Hop. apply sm_post_bind. eapply sm_post_mono; [exact Hop|]. cbn beta.
  by intros s' [a|e] HK.
Qed.

Lemma queue_commit_keeps P R ops s :
  keeps P R (kv_contents s) -> keeps P R (apply_batch ops (kv_contents s)) ->
  sm_post (queue_commit ops) s (fun s' _ => keeps P R (kv_contents s')).
Proof.
  intros Hk Hk'. eapply sm_post_mono; [apply queue_commit_post|].
  cbn beta. by intros s' r [-> |[_ ->]].
Qed.

Definition new_claim (clk : ClockReading) (uuid q consumer : string) (lease_for : Duration)
    (item_id : string) : QueueClaim :=
  mkQueueClaim uuid q item_id consumer
    (clk_utc clk + chrono_duration_from_std lease_for)%Z (Some epoch)
    (Some (duration_ms_saturating lease_for)) (Some (deadline_ms_from_now clk lease_for)).

Lemma claim_next_keeps P R clk clocks uuid q consumer lease_for s :
  keeps P R (kv_contents s) -> q ∈ Q -> kv_contents s !! lease_key uuid = None ->
  (forall h i, P h -> claim_is_expired epoch (clocks i) h = false) ->
  sm_post (claim_next epoch clk clocks uuid q consumer lease_for) s (fun s' r =>
    match r with
    | Ok (Some cl) => keeps (fun h => P h \/ h = cl) R (kv_contents s') /\
        cl = new_claim clk uuid q consumer lease_for (qc_item_id cl) /\
        forall h, P h -> (qc_queue h, qc_item_id h) <> (qc_queue cl, qc_item_id cl)
    | _ => keeps P R (kv_contents s')
    end).
Proof.
  intros Hk Hq Hu Hlive. unfold claim_next, sm_post. fold (new_claim clk uuid q consumer lease_for).
  pose proof (claim_loop_post clocks q (new_claim clk uuid q consumer lease_for) 0 (kv_iter s) s) as Hp.
  specialize (Hp (fun _ => conj eq_refl eq_refl)). unfold sm_post, loop_post in Hp.
  assert (Hstale : forall i item, keeps P R (without_stale (clocks i) (kv_contents s) q item)).
  { intros i item. by apply without_stale_keeps; auto. }
  assert (Hclaim : forall i item b, item_held (clocks i) (kv_contents s) q item = false ->
    to_vec (new_claim clk uuid q consumer lease_for item) = Ok b ->
    keeps (fun h => P h \/ h = new_claim clk uuid q consumer lease_for item) R
      (apply_batch (claim_batch (new_claim clk uuid q consumer lease_for item) b)
         (without_stale (clocks i) (kv_contents s) q item))).
  { intros i item b Hf Hb. apply claim_batch_keeps; [done..|by apply without_stale_marker|].
    destruct (without_stale _ _ _ _ !! _) eqn:E; [|done]. apply without_stale_sub in E.
    cbn in E. congruence. }
  destruct (claim_loop _ _ _ _ _ _ _) as [s' [[cl|]|e]]; cbn [fst snd Nat.add] in Hp |- *.
  - destruct Hp as (n & kv & b & (Hn & Hf & _) & -> & Hb & ->). split_and!; [by apply Hclaim|done|].
    intros h Hh Heq. cbn in Heq. injection Heq as Hhq Hhi.
    assert (Hl : item_held (clocks n) (kv_contents s) (qc_queue h) (qc_item_id h) = true)
      by (apply live_claim_held; [apply Hk|by apply Hk|by auto]).
    rewrite Hhq, Hhi in Hl. cbn [Nat.add] in Hf. congruence.
  - by destruct Hp as [-> _].
  - destruct Hp as [->|(n & kv & (Hn & Hf & _) & [->|(b & Hb & ->)])]; [done|done|].
    eapply keeps_weaken; [exact (Hclaim _ _ _ Hf Hb)|by left].
Qed.

Lemma yields_oks items entries :
  yields items entries -> exists n, oks items = take n entries /\
    (items = Ok <$> oks items -> oks items = entries).
Proof.
  assert (Hok : forall l rest, oks ((Ok <$> l) ++ rest) = l ++ oks rest).
  { induction l as [|x l IH]; intros rest; cbn; [done|]. by rewrite IH. }
  intros [->|(n & e & rest & ->)].
  - exists (length entries). rewrite firstn_all.
    pose proof (Hok entries []) as Hoks. rewrite !app_nil_r in Hoks. by rewrite Hoks.
  - exists n. rewrite Hok. cbn. rewrite app_nil_r. split; [done|]. intros Heq. exfalso.
    apply (f_equal (fun l => Err (A := string * string) e ∈ l)) in Heq.
    assert (Hin : Err e ∈ (Ok <$> take n entries) ++ Err e :: rest) by (apply elem_of_app; right; by left).
    rewrite Heq in Hin. by apply list_elem_of_fmap in Hin as (x & ? & _).
Qed.

Lemma oks_iter_lookup s k v : (k, v) ∈ oks (kv_iter s) -> kv_contents s !! k = Some v.
Proof.
  destruct (kv_iter_law s) as (entries & Hy & Hp & _). destruct (yields_oks _ _ Hy) as (n & -> & _).
  intros Hin. apply elem_of_map_to_list. rewrite <-Hp. apply list_elem_of_lookup in Hin as [i Hi].
  apply lookup_take_Some in Hi as [Hi _]. by eapply list_elem_of_lookup_2.
Qed.

Lemma find_queued_item_Some q item items key :
  find_queued_item (queue_prefix q) item items = Ok (Some key) ->
  starts_with (queue_prefix q) key = true /\ (key, item) ∈ oks items.
Proof.
  induction items as [|[[k v]|e] items IH]; cbn; [done| |done].
  destruct (starts_with (queue_prefix q) k) eqn:Hp; cbn.
  - unfold from_utf8_lossy. destruct (String.eqb_spec v item) as [->|Hne].
    + intros [= ->]. split; [done|by left].
    + intros [Hk Hin]%IH. split; [done|by right].
  - intros [Hk Hin]%IH. split; [done|by right].
Qed.

(** What [load_live_claim] leaves: a live stored claim, or an error, with an
    expired claim dropped at most. *)
Lemma load_live_claim_post clk id s :
  queue_inv (kv_contents s) ->
  sm_post (load_live_claim epoch clk id) s (fun s' r =>
    match r with
    | Ok cl => s' = s /\ holds (kv_contents s) cl /\ qc_claim_id cl = id /\
        claim_is_expired epoch clk cl = false
    | Err _ => kv_contents s' = kv_contents s \/
        exists cl, holds (kv_contents s) cl /\ qc_claim_id cl = id /\
          claim_is_expired epoch clk cl = true /\
          kv_contents s' = apply_batch (BatchRemove <$> claim_keys cl) (kv_contents s)
    end).
Proof.
  intros Hi. unfold load_live_claim. apply sm_post_bind. eapply sm_post_mono; [apply queue_get_post|].
  cbn beta. intros s' [v|e] [-> Hv]; [subst v|by left].
  destruct (kv_contents s !! lease_key id) as [b|] eqn:Hb; [|by left].
  destruct (qi_lease _ Hi _ _ Hb) as (cl & Hd & Hid & _ & _).
  apply sm_post_bind, sm_post_lift. unfold decode_claim. rewrite Hd. cbn [result_map_err].
  assert (Hcl : holds (kv_contents s) cl) by (exists b; by rewrite Hid).
  destruct (claim_is_expired epoch clk cl) eqn:Hexp; [|by apply sm_post_ret].
  apply sm_post_bind. eapply sm_post_mono; [apply queue_commit_post|]. cbn beta.
  assert (Hops : [BatchRemove (lease_key id); BatchRemove (claimed_key (qc_queue cl) (qc_item_id cl))]
    = BatchRemove <$> claim_keys cl) by (unfold claim_keys; by rewrite Hid).
  rewrite Hops. intros s' [[]|e] Hc; [apply sm_post_lift|]; naive_solver.
Qed.

Lemma drop_claim_keeps P R c cl rows :
  keeps P R c -> holds c cl -> Forall is_row_key rows ->
  (forall h, P h -> qc_claim_id h <> qc_claim_id cl) -> (forall k v, R k v -> k ∉ rows) ->
  keeps P R (apply_batch (BatchRemove <$> (claim_keys cl ++ rows)) c).
Proof.
  intros Hk Hcl Hr Hne HR. apply (drop_claims_keeps P R c [cl] rows); [done|by constructor|done| |done].
  intros h e Hh ->%list_elem_of_singleton. by apply Hne.
Qed.

Lemma live_not_expired P R c clk cl :
  keeps P R c -> holds c cl -> claim_is_expired epoch clk cl = true ->
  (forall h, P h -> claim_is_expired epoch clk h = false) ->
  forall h, P h -> qc_claim_id h <> qc_claim_id cl.
Proof.
  intros Hk (b & Hb & Hd) Hexp Hlive h Hh Heq. destruct (keeps_claims _ _ _ Hk _ Hh) as (b' & Hb' & Hd').
  specialize (Hlive _ Hh). congruence.
Qed.

(** The claim under [id], if live, is not a claim of a row of [R]. *)
Definition spares (R : string -> string -> Prop) (clk : ClockReading) (id : ClaimId) (c : contents)
    : Prop :=
  forall cl k, holds c cl -> qc_claim_id cl = id -> claim_is_expired epoch clk cl = false ->
    starts_with (queue_prefix (qc_queue cl)) k = true -> ~ R k (qc_item_id cl).

Lemma ack_keeps P R clk id s :
  keeps P R (kv_contents s) -> (forall h, P h -> claim_is_expired epoch clk h = false) ->
  (forall h, P h -> qc_claim_id h <> id) -> spares R clk id (kv_contents s) ->
  sm_post (ack_claim epoch clk id) s (fun s' _ => keeps P R (kv_contents s')).
Proof.
  intros Hk Hlive Hne Hsp. apply sm_post_bind. eapply sm_post_mono; [apply load_live_claim_post, Hk|].
  cbn beta. intros s' [cl|e].
  - intros (-> & Hcl & Hid & Hlv). unfold sm_post at 1. cbn beta.
    apply (sm_post_bind (sm_lift _) _ s (fun s' _ => keeps P R (kv_contents s'))), sm_post_lift.
    destruct (find_queued_item _ _ _) as [key|e] eqn:Hf; [|done].
    apply queue_commit_keeps; [done|].
    replace ([_; _] ++ _) with (BatchRemove <$> (claim_keys cl ++
      match key with Some key => [key] | None => [] end))
      by (unfold claim_keys; rewrite Hid; by destruct key).
    apply drop_claim_keeps; [done..| |by rewrite Hid|]; (destruct key as [key|]; [|by constructor + set_solver]);
      apply find_queued_item_Some in Hf as [Hf Hin].
    + constructor; [|done]. by eapply queue_prefix_queue.
    + intros k v HR ->%list_elem_of_singleton. apply oks_iter_lookup in Hin.
      destruct (keeps_rows _ _ _ Hk _ _ HR) as [_ Hv]. rewrite Hin in Hv. injection Hv as <-.
      by eapply Hsp.
  - intros [->|(cl & Hcl & Hid & Hexp & ->)]; [done|].
    rewrite <-(app_nil_r (claim_keys cl)). apply drop_claim_keeps; [done..| |by intros; apply not_elem_of_nil].
    by eapply live_not_expired.
Qed.

(** The claim as [renew_claim] rewrites it. *)
Definition renewed (clk2 clk3 : ClockReading) (lease_for : Duration) (cl : QueueClaim) : QueueClaim :=
  mkQueueClaim (qc_claim_id cl) (qc_queue cl) (qc_item_id cl) (qc_consumer cl)
    (clk_utc clk2 + chrono_duration_from_std lease_for)%Z (Some epoch)
    (Some (duration_ms_saturating lease_for)) (Some (deadline_ms_from_now clk3 lease_for)).

Lemma renew_keeps P R clk1 clk2 clk3 id lease_for s :
  keeps P R (kv_contents s) -> (forall h, P h -> claim_is_expired epoch clk1 h = false) ->
  sm_post (renew_claim epoch clk1 clk2 clk3 id lease_for) s (fun s' r =>
    (is_ok r = false /\ keeps P R (kv_contents s')) \/
    exists cl, holds (kv_contents s) cl /\ qc_claim_id cl = id /\
      keeps (fun h => (P h /\ qc_claim_id h <> id) \/ h = renewed clk2 clk3 lease_for cl) R
        (kv_contents s')).
Proof.
  intros Hk Hlive. apply sm_post_bind. eapply sm_post_mono; [apply load_live_claim_post, Hk|].
  cbn beta. intros s' [cl|e].
  - intros (-> & Hcl & Hid & _). apply sm_post_bind, sm_post_lift. unfold encode_claim.
    change (cl <| qc_expires_at := _ |> <| qc_lease_epoch := _ |> <| qc_lease_duration_ms := _ |>
      <| qc_monotonic_deadline_ms := _ |>) with (renewed clk2 clk3 lease_for cl).
    destruct (to_vec _) as [b|e] eqn:Hb; cbn [result_map_err]; [|by left].
    eapply sm_post_mono; [apply queue_commit_post|]. cbn beta.
    intros s' r [->|[Hr ->]]; [right|by left]. exists cl. split_and!; [done..|].
    subst id. by apply renew_batch_keeps.
  - intros [->|(cl & Hcl & Hid & Hexp & ->)]; left; [done|]. split; [done|].
    rewrite <-(app_nil_r (claim_keys cl)). apply drop_claim_keeps; [done..| |by intros; apply not_elem_of_nil].
    by eapply live_not_expired.
Qed.

Lemma list_expired_claims_Ok clocks i items E e :
  list_expired_claims epoch clocks i items = Ok E -> e ∈ E ->
  exists k v j, (k, v) ∈ oks items /\ starts_with lease_prefix k = true /\ from_slice v = Ok e /\
    claim_is_expired epoch (clocks j) e = true.
Proof.
  revert i E. induction items as [|[[k v]|err] items IH]; intros i E; cbn.
  - intros [= <-] Hin. by apply elem_of_nil in Hin.
  - assert (Hrec : forall i E', list_expired_claims epoch clocks i items = Ok E' -> e ∈ E' ->
      exists k' v' j, (k', v') ∈ (k, v) :: oks items /\ starts_with lease_prefix k' = true /\
        from_slice v' = Ok e /\ claim_is_expired epoch (clocks j) e = true).
    { intros i' E' HE' He. destruct (IH _ _ HE' He) as (k' & v' & j & Hin & Hr).
      exists k', v', j. split; [by right|done]. }
    destruct (starts_with lease_prefix k) eqn:Hp; cbn; [|by apply Hrec].
    destruct (from_slice v) as [cl|err] eqn:Hd; [|by apply Hrec].
    destruct (list_expired_claims epoch clocks (S i) items) as [E'|err] eqn:HE'; cbn; [|done].
    intros [= <-]. destruct (claim_is_expired epoch (clocks i) cl) eqn:Hexp; [|by apply (Hrec (S i))].
    intros [->|He]%elem_of_cons; [|by apply (Hrec (S i) E')].
    exists k, v, i. split; [by left|done].
  - done.
Qed.

Lemma cleanup_keeps P R clocks s :
  keeps P R (kv_contents s) -> (forall h i, P h -> claim_is_expired epoch (clocks i) h = false) ->
  sm_post (cleanup_expired_claims epoch clocks) s (fun s' _ => keeps P R (kv_contents s')).
Proof.
  intros Hk Hlive. unfold cleanup_expired_claims, sm_post. cbn beta.
  apply (sm_post_bind (sm_lift _) _ s (fun s' _ => keeps P R (kv_contents s'))), sm_post_lift.
  destruct (list_expired_claims _ _ _ _) as [E|e] eqn:HE; [|done].
  assert (Hops : forall l : list QueueClaim, l ≫= (fun claim =>
    [BatchRemove (lease_key (qc_claim_id claim));
     BatchRemove (claimed_key (qc_queue claim) (qc_item_id claim))])
    = BatchRemove <$> ((l ≫= claim_keys) ++ [])).
  { intros l. rewrite app_nil_r. induction l as [|cl l IH]; cbn in *; [done|]. by rewrite <-IH. }
  assert (Hexp : forall e, e ∈ E -> holds (kv_contents s) e /\
    exists j, claim_is_expired epoch (clocks j) e = true).
  { intros e He. destruct (list_expired_claims_Ok _ _ _ _ _ HE He) as (k & v & j & Hin & Hp & Hd & Hx).
    split; [|by exists j]. apply oks_iter_lookup in Hin. apply starts_with_iff in Hp as [id ->].
    destruct (qi_lease _ (keeps_inv _ _ _ Hk) id v Hin) as (cl & Hd' & Hid & _).
    exists v. rewrite Hd in Hd'. injection Hd' as <-. by rewrite Hid. }
  destruct E as [|e E]; [by apply sm_post_ret|]. apply sm_post_bind.
  eapply sm_post_mono; [apply queue_commit_keeps; [exact Hk|]|by intros s' [[]|err]].
  rewrite Hops. apply drop_claims_keeps; [done| |done| |by intros; apply not_elem_of_nil].
  - apply Forall_forall. intros x Hx. by apply Hexp.
  - intros h x Hh Hx. destruct (Hexp x Hx) as [Hhx [j Hj]].
    eapply (live_not_expired P R); [done..|by auto|done].
Qed.

(** ** Every call keeps the invariant and the live claims it does not act on *)

Lemma queue_op_keeps P R op s :
  keeps P R (kv_contents s) -> admissible op (kv_contents s) ->
  (forall h clk, P h -> checks_at op clk -> claim_is_expired epoch clk h = false) ->
  (forall h, P h -> acts_on op <> Some (qc_claim_id h)) ->
  (forall clk id, op = QAck clk id -> spares R clk id (kv_contents s)) ->
  sm_post (exec_queue op) s (fun s' r => keeps P R (kv_contents s') /\
    match r with
    | Ok (Some cl) => holds (kv_contents s') cl /\
        forall h, P h -> (qc_queue h, qc_item_id h) <> (qc_queue cl, qc_item_id cl)
    | _ => True
    end).
Proof.
  intros Hk Hadm Hlive Hacts Hsp.
  assert (Hvoid : forall A (o : SM kv_state StoreError A),
    sm_post o s (fun s' _ => keeps P R (kv_contents s')) ->
    sm_post (sm_void o) s (fun s' r => keeps P R (kv_contents s') /\
      match r with
      | Ok (Some cl) => holds (kv_contents s') cl /\
          forall h, P h -> (qc_queue h, qc_item_id h) <> (qc_queue cl, qc_item_id cl)
      | _ => True
      end)).
  { intros A o Ho. eapply sm_post_mono; [exact (sm_post_void o s (keeps P R) Ho)|].
    cbn beta. intros s' [[cl|]|e] [? ?]; done. }
  destruct op as [clk clocks uuid q consumer lease|clk id|clk1 clk2 clk3 id lease|clocks|q item n];
    cbn [exec_queue admissible checks_at acts_on] in *.
  - destruct Hadm as [Hq Hu]. eapply sm_post_mono; [apply (claim_next_keeps P R); [done..|by eauto]|].
    cbn beta. intros s' [[cl|]|e]; [|done..]. intros (Hk' & _ & Hne). split_and!; [|apply Hk'; by right|done].
    eapply keeps_weaken; [exact Hk'|by left].
  - apply Hvoid, ack_keeps; [done|by auto| |by eapply Hsp]. intros h Hh Heq. apply (Hacts h Hh). congruence.
  - apply Hvoid. eapply sm_post_mono; [apply (renew_keeps P R); [done|by auto]|]. cbn beta.
    intros s' r [[_ Hk']|(cl & Hcl & Hid & Hk')]; [done|]. eapply keeps_weaken; [exact Hk'|].
    intros h Hh. left. split; [done|]. intros Heq. apply (Hacts h Hh). congruence.
  - apply Hvoid, cleanup_keeps; [done|]. intros h i Hh. by eauto.
  - destruct Hadm as (Hq & Hn & Hfree). apply Hvoid, queue_commit_keeps; [done|]. by apply row_batch_keeps.
Qed.

(** ** Executions *)

Abbreviation QueueTrace := (list (QueueOp * Result (option QueueClaim) StoreError)).

Inductive queue_run : kv_state -> QueueTrace -> kv_state -> Prop :=
| queue_run_nil s : queue_run s [] s
| queue_run_cons s op s1 r tr s2 :
    admissible op (kv_contents s) -> exec_queue op s = (s1, r) -> queue_run s1 tr s2 ->
    queue_run s ((op, r) :: tr) s2.

Lemma queue_run_app s tr1 tr2 s2 :
  queue_run s (tr1 ++ tr2) s2 -> exists s1, queue_run s tr1 s1 /\ queue_run s1 tr2 s2.
Proof.
  revert s. induction tr1 as [|[op r] tr1 IH]; intros s; cbn; [eexists; split; [constructor|done]|].
  intros Hrun. inversion Hrun as [|? ? s1 ? ? ? Ha He Hr]; subst. destruct (IH _ Hr) as (s3 & H3 & H4).
  exists s3. split; [by econstructor|done].
Qed.

Lemma queue_run_inv s tr s' : queue_inv (kv_contents s) -> queue_run s tr s' -> queue_inv (kv_contents s').
Proof.
  intros Hi. induction 1 as [|s op s1 r tr s2 Ha He Hr IH]; [done|]. apply IH.
  assert (Hk : keeps (fun _ => False) (fun _ _ => False) (kv_contents s))
    by (split; [done|by intros ? []|by intros ? ? []]).
  pose proof (queue_op_keeps _ _ op s Hk Ha) as Hp. unfold sm_post in Hp. rewrite He in Hp. cbn in Hp.
  destruct Hp as [Hp _]; [done|done|by intros ? ? _ ? ? ? ? ? ? []|]. apply Hp.
Qed.

(** The lease of [cl] runs until [deadline] on this manager's clock. *)
Definition lease_until (deadline : Z) (cl : QueueClaim) : Prop :=
  qc_lease_epoch cl = Some epoch /\
  exists d, qc_monotonic_deadline_ms cl = Some d /\ (deadline <= d)%Z.

Lemma lease_until_live deadline cl clk :
  lease_until deadline cl -> (elapsed_ms clk < deadline)%Z -> claim_is_expired epoch clk cl = false.
Proof.
  intros (He & d & Hd & Hle) Hlt. unfold claim_is_expired. rewrite He, Hd, String.eqb_refl. cbn.
  apply Z.leb_gt. lia.
Qed.

(** Along the trace the claim [id] is not acknowledged, and leases are only
    checked before its deadline, which its renewals move. *)
Fixpoint within_lease (id : ClaimId) (deadline : Z) (tr : QueueTrace) : Prop :=
  match tr with
  | [] => True
  | (op, r) :: tr =>
      (forall clk, op <> QAck clk id) /\
      (forall clk, checks_at op clk -> (elapsed_ms clk < deadline)%Z) /\
      within_lease id
        match op with
        | QRenew _ _ clk3 id' lease_for =>
            if String.eqb id' id then
              let renewed := deadline_ms_from_now clk3 lease_for in
              if is_ok r then renewed else Z.min deadline renewed
            else deadline
        | _ => deadline
        end tr
  end.

(** A stored claim of an item, whose lease runs until [deadline]. *)
Definition claim_of (id : ClaimId) (item : string * string) (deadline : Z) (cl : QueueClaim) : Prop :=
  qc_claim_id cl = id /\ (qc_queue cl, qc_item_id cl) = item /\ lease_until deadline cl.

(** One step of a claim within its lease. *)
Lemma claim_step op s s1 r id item d cl :
  queue_inv (kv_contents s) -> holds (kv_contents s) cl -> claim_of id item d cl ->
  admissible op (kv_contents s) -> exec_queue op s = (s1, r) ->
  (forall clk, op <> QAck clk id) -> (forall clk, checks_at op clk -> (elapsed_ms clk < d)%Z) ->
  queue_inv (kv_contents s1) /\
  (forall cl', r = Ok (Some cl') -> (qc_queue cl', qc_item_id cl') <> item) /\
  exists cl', holds (kv_contents s1) cl' /\
    claim_of id item match op with
      | QRenew _ _ clk3 id' lease_for =>
          if String.eqb id' id then
            let renewed := deadline_ms_from_now clk3 lease_for in
            if is_ok r then renewed else Z.min d renewed
          else d
      | _ => d
      end cl'.
Proof.
  intros Hi Hcl Hof Ha He Hnack Hch. destruct Hof as (Hid & Hitem & Hl).
  assert (Hk : keeps (eq cl) (fun _ _ => False) (kv_contents s)) 
    by (split; [done|by intros ? <-|by intros ? ? []]).
  assert (Hlive : forall h clk, cl = h -> checks_at op clk -> claim_is_expired epoch clk h = false).
  { intros h clk <- Hc. eapply lease_until_live; [done|by auto]. }
  destruct (decide (acts_on op = Some id)) as [Hact|Hact]; cycle 1.
  - pose proof (queue_op_keeps _ _ op s Hk Ha Hlive) as Hp. unfold sm_post in Hp. rewrite He in Hp. cbn in Hp.
    destruct Hp as [Hk' Hr]; [intros h <-; congruence|by intros ? ? _ ? ? ? ? ? ? []|].
    split_and!; [apply Hk'| |].
    + intros cl' ->. rewrite <-Hitem. apply not_eq_sym. by apply Hr.
    + exists cl. split; [by apply Hk'|]. split_and!; [done..|].
      destruct op as [| |? ? ? id'| |]; [done..| |done|done].
      destruct (String.eqb_spec id' id) as [->|]; [by destruct Hact|done].
  - destruct op as [| clk id'|clk1 clk2 clk3 id' lease| |]; [done| |..]; cbn in Hact; [|..|done|done].
    { injection Hact as ->. by destruct (Hnack clk). }
    injection Hact as ->. cbn [exec_queue] in He. unfold sm_void, sm_bind, sm_ret in He.
    pose proof (renew_keeps _ _ clk1 clk2 clk3 id lease s Hk) as Hp. unfold sm_post in Hp.
    destruct (renew_claim _ _ _ _ _ _ _) as [s1' r'] eqn:Hren. cbn in Hp.
    assert (s1' = s1) as -> by (by destruct r'; injection He).
    assert (Hr : is_ok r = is_ok r' /\ forall x, r <> Ok (Some x)) by (by destruct r'; injection He as <-).
    destruct Hr as [Hok Hnone]. rewrite String.eqb_refl.
    destruct Hp as [[Hr Hk']|(cl' & Hcl' & Hid' & Hk')]; [intros h <-; by apply Hlive| |].
    + split_and!; [apply Hk'|by intros ? ?%Hnone|]. exists cl. split; [by apply Hk'|].
      split_and!; [done..|]. rewrite Hok, Hr. destruct Hl as (Hep & d' & Hd & Hle).
      split; [done|]. exists d'. split; [done|]. cbn. lia.
    + split_and!; [apply Hk'|by intros ? ?%Hnone|].
      assert (cl' = cl) as ->.
      { destruct Hcl as (b & Hb & Hd), Hcl' as (b' & Hb' & Hd'). congruence. }
      exists (renewed clk2 clk3 lease cl). split; [apply Hk'; by right|]. split_and!; [done..|].
      split; [done|]. eexists. split; [done|]. destruct (is_ok r); cbn; lia.
Qed.

Lemma run_within_lease s tr s' id item d cl :
  queue_run s tr s' -> queue_inv (kv_contents s) -> holds (kv_contents s) cl -> claim_of id item d cl ->
  within_lease id d tr ->
  forall op cl', (op, Ok (Some cl')) ∈ tr -> (qc_queue cl', qc_item_id cl') <> item.
Proof.
  intros Hrun. revert d cl. induction Hrun as [|s op s1 r tr s2 Ha He Hr IH]; intros d cl Hi Hcl Hof Hw.
  { intros op cl' Hin. by apply elem_of_nil in Hin. }
  destruct Hw as (Hnack & Hch & Hw).
  destruct (claim_step _ _ _ _ _ _ _ _ Hi Hcl Hof Ha He Hnack Hch) as (Hi1 & Hne & cl1 & Hcl1 & Hof1).
  intros op' cl' [Heq|Hin]%elem_of_cons.
  - injection Heq as -> <-. by apply Hne.
  - by eapply IH.
Qed.

(** ** Rows *)

Lemma row_step op s s1 r q n item :
  queue_inv (kv_contents s) -> admissible op (kv_contents s) -> exec_queue op s = (s1, r) ->
  q ∈ Q -> kv_contents s !! queue_key q n = Some item ->
  kv_contents s1 !! queue_key q n = Some item \/
  exists clk cl, op = QAck clk (qc_claim_id cl) /\ holds (kv_contents s) cl /\
    (qc_queue cl, qc_item_id cl) = (q, item) /\ claim_is_expired epoch clk cl = false.
Proof.
  intros Hi Ha He Hq Hrow. set (R := fun k v => k = queue_key q n /\ v = item).
  assert (Hk : keeps (fun _ => False) R (kv_contents s)).
  { split; [done|by intros ? []|]. intros k v [-> ->]. split; [|done].
    eapply queue_prefix_queue, queue_prefix_own. }
  assert (Hkeep : (forall clk id, op = QAck clk id -> spares R clk id (kv_contents s)) ->
    kv_contents s1 !! queue_key q n = Some item).
  { intros Hsp. pose proof (queue_op_keeps _ _ op s Hk Ha) as Hp. unfold sm_post in Hp.
    rewrite He in Hp. destruct Hp as [Hp _]; [done..|]. by apply (keeps_rows _ _ _ Hp). }
  destruct op as [| clk id| | |]; [by left; apply Hkeep| |by left; apply Hkeep..].
  destruct (kv_contents s !! lease_key id) as [b|] eqn:Hb; cycle 1.
  { left. apply Hkeep. intros ? ? [= <- <-] cl k (b & Hb' & _) <-. congruence. }
  destruct (qi_lease _ Hi _ _ Hb) as (cl & Hd & Hid & HQ & Hm).
  assert (Hcl : holds (kv_contents s) cl) by (exists b; by rewrite Hid).
  destruct (decide ((qc_queue cl, qc_item_id cl) = (q, item) /\ claim_is_expired epoch clk cl = false))
    as [[Heq Hlv]|Hnot]; [right; exists clk, cl; by rewrite Hid|].
  left. apply Hkeep. intros ? ? [= <- <-] cl' k Hcl' Hid' Hlv Hk' [-> Hit]. apply Hnot.
  assert (cl' = cl) as -> by (destruct Hcl as (?&?&?), Hcl' as (?&?&?); congruence).
  apply (queue_prefix_key Q apart) in Hk'; [|done..]. split; congruence.
Qed.

Lemma row_run s tr s' q n item :
  queue_run s tr s' -> queue_inv (kv_contents s) -> q ∈ Q ->
  kv_contents s !! queue_key q n = Some item ->
  kv_contents s' !! queue_key q n = Some item \/
  exists tr1 clk r tr2 s1 cl, tr = tr1 ++ (QAck clk (qc_claim_id cl), r) :: tr2 /\
    queue_run s tr1 s1 /\ holds (kv_contents s1) cl /\
    (qc_queue cl, qc_item_id cl) = (q, item) /\ claim_is_expired epoch clk cl = false.
Proof.
  intros Hrun. induction Hrun as [|s op s1 r tr s2 Ha He Hr IH]; intros Hi Hq Hrow; [by left|].
  assert (Hrun1 : queue_run s [(op, r)] s1) by (econstructor; [done..|constructor]).
  destruct (row_step _ _ _ _ _ _ _ Hi Ha He Hq Hrow) as [Hrow1|(clk & cl & -> & Hcl & Heq & Hlv)].
  - destruct (IH (queue_run_inv _ _ _ Hi Hrun1) Hq Hrow1)
      as [?|(tr1 & clk & r' & tr2 & s3 & cl & -> & Hr1 & Hcl)]; [by left|right].
    exists ((op, r) :: tr1), clk, r', tr2, s3, cl. split; [done|]. split; [by econstructor|done].
  - right. exists [], clk, r, tr, s, cl. split_and!; [done|constructor|done..].
Qed.

(** ** Order *)

(** Faults of the storage, as opposed to the outcomes of the queue. *)
Definition is_storage_fault (e : StoreError) : bool :=
  match e with StoreError.Storage _ | StoreError.Serialization _ => true | _ => false end.

Definition faults_only {A} (op : SM kv_state StoreError A) : Prop :=
  forall s, sm_post op s (fun _ r => match r with Err e => is_storage_fault e = true | Ok _ => True end).

Lemma faults_bind {A B} (c : SM kv_state StoreError A) (k : A -> SM kv_state StoreError B) :
  faults_only c -> (forall a, faults_only (k a)) -> faults_only (sm_bind c k).
Proof.
  intros Hc Hk s. apply sm_post_bind. eapply sm_post_mono; [apply Hc|]. cbn beta.
  intros s' [a|e]; [|done]. intros _. apply Hk.
Qed.
Lemma faults_ret {A} (a : A) : faults_only (sm_ret a).
Proof. done. Qed.
Lemma faults_lift {A E} (f : E -> StoreError) (r : Result A E) :
  (forall e, is_storage_fault (f e) = true) -> faults_only (sm_lift (result_map_err f r)).
Proof. intros Hf s. destruct r; [done|]. apply Hf. Qed.
Lemma faults_get k : faults_only (queue_get k).
Proof. intros s. unfold sm_post, queue_get. by destruct (kv_get s k). Qed.
Lemma faults_commit ops : faults_only (queue_commit ops).
Proof. intros s. unfold sm_post, queue_commit. by destruct (kv_commit ops s) as [? []]. Qed.
#[local] Hint Resolve faults_bind faults_ret faults_lift faults_get faults_commit : brehon.

Lemma claim_loop_faults clocks q make i items : faults_only (claim_loop epoch clocks q make i items).
Proof.
  revert i. induction items as [|item items IH]; intros i; cbn [claim_loop]; [auto with brehon|].
  apply faults_bind; [by apply faults_lift|]. intros [key value].
  destruct (negb _); [done|]. apply faults_bind.
  - unfold claim_marker_is_active. 
    repeat first [solve [auto with brehon] | apply faults_bind; [by auto with brehon|intros ?] | case_match].
  - intros [|]; [done|]. apply faults_bind; [by apply faults_lift|]. auto with brehon.
Qed.

Lemma queue_key_strict q n m :
  is_u64 n -> is_u64 m -> (m < n)%Z -> str_leb (queue_key q n) (queue_key q m) = false.
Proof.
  intros Hn Hm Hlt. unfold str_leb, String.leb, queue_key.
  rewrite !compare_append_l, compare_fmt020 by done. by apply Z.compare_gt_iff in Hlt as ->.
Qed.

(** An item is held at one of the readings of a call. *)
Definition held_during (clocks : nat -> ClockReading) (c : contents) (q item : string) : Prop :=
  exists i, item_held (clocks i) c q item = true.

Lemma claim_next_order clk clocks uuid q consumer lease_for s :
  queue_inv (kv_contents s) -> q ∈ Q ->
  match (claim_next epoch clk clocks uuid q consumer lease_for s).2 with
  | Ok (Some cl) => exists n i, is_u64 n /\
      kv_contents s !! queue_key q n = Some (qc_item_id cl) /\
      item_held (clocks i) (kv_contents s) q (qc_item_id cl) = false /\
      forall m item, is_u64 m -> (m < n)%Z -> kv_contents s !! queue_key q m = Some item ->
        held_during clocks (kv_contents s) q item
  | Ok None => forall m item, kv_contents s !! queue_key q m = Some item ->
      held_during clocks (kv_contents s) q item
  | Err e => is_storage_fault e = true
  end.
Proof.
  intros Hi Hq. unfold claim_next. fold (new_claim clk uuid q consumer lease_for).
  pose proof (claim_loop_post clocks q (new_claim clk uuid q consumer lease_for) 0 (kv_iter s) s) as Hp.
  specialize (Hp (fun _ => conj eq_refl eq_refl)). unfold sm_post, loop_post in Hp.
  pose proof (claim_loop_faults clocks q (new_claim clk uuid q consumer lease_for) 0 (kv_iter s) s) as Hf.
  unfold sm_post in Hf.
  destruct (claim_loop _ _ _ _ _ _ _) as [s' [[cl|]|e]]; cbn [fst snd] in *; [| |done]; clear Hf.
  all: destruct (kv_iter_law s) as (entries & Hy & Hperm & Hsort);
    destruct (yields_oks _ _ Hy) as (N & HN & Hall).
  all: assert (Hent : forall k v, (k, v) ∈ entries <-> kv_contents s !! k = Some v)
    by (intros k v; by rewrite Hperm, elem_of_map_to_list).
  - destruct Hp as (n & [k v] & b & (Hn & Hfree & Hbefore) & -> & _). cbn [snd qc_item_id new_claim] in *.
    assert (Hin : (k, v) ∈ queue_rows q (oks (kv_iter s))) by (by eapply list_elem_of_lookup_2).
    apply list_elem_of_In, filter_In in Hin as [Hin Hpre].
    apply list_elem_of_In, oks_iter_lookup in Hin. cbn [fst] in Hpre.
    destruct (qi_row _ Hi _ _ Hin (queue_prefix_queue _ _ Hpre)) as (q' & num & Hq' & Hnum & ->).
    apply (queue_prefix_key Q apart) in Hpre; [|done..]. subst q'.
    exists num, n. split_and!; [done..|]. intros m item Hm Hlt Hrow. unfold queue_rows in Hn. rewrite HN in Hn.
    destruct (sorted_met_before _ _ _ _ _ (queue_key q m, item) _ Hsort Hn) as (j & Hj & Hlook).
    + by apply Hent.
    + apply queue_prefix_own.
    + intros Heq%(f_equal fst). cbn [fst] in Heq. apply (queue_key_inj Q apart) in Heq; [lia|done..].
    + unfold key_leb. cbn [fst]. by rewrite queue_key_strict.
    + exists j. apply (Hbefore j (queue_key q m, item)); [done|]. unfold queue_rows. by rewrite HN.
  - destruct Hp as (_ & Heq & Hheld). intros m item Hrow. apply Hall in Heq.
    assert (Hin : (queue_key q m, item) ∈ queue_rows q (oks (kv_iter s))).
    { apply list_elem_of_In, filter_In. split; [|apply queue_prefix_own].
      rewrite <-list_elem_of_In, Heq. by apply Hent. }
    apply list_elem_of_lookup in Hin as [j Hj]. exists j. exact (Hheld _ _ Hj).
Qed.

(** ** Acknowledgement *)

Lemma find_queued_item_None q item items :
  find_queued_item (queue_prefix q) item items = Ok None ->
  items = Ok <$> oks items /\
  forall k, (k, item) ∈ oks items -> starts_with (queue_prefix q) k = false.
Proof.
  induction items as [|[[k v]|e] items IH]; cbn; [|..|done].
  { intros _. split; [done|]. intros k Hk. by apply elem_of_nil in Hk. }
  destruct (starts_with (queue_prefix q) k) eqn:Hp; cbn.
  - unfold from_utf8_lossy. destruct (String.eqb_spec v item) as [->|Hne]; [done|].
    intros [Heq Hno]%IH. split; [by rewrite <-Heq|]. intros k' [[= -> <-]|Hin]%elem_of_cons; [done|by auto].
  - intros [Heq Hno]%IH. split; [by rewrite <-Heq|]. intros k' [[= -> <-]|Hin]%elem_of_cons; [done|by auto].
Qed.

Lemma find_queued_item_Err p item items e :
  find_queued_item p item items = Err e -> is_storage_fault e = true.
Proof.
  induction items as [|[[k v]|err] items IH]; cbn; [done| |by intros [= <-]].
  destruct (negb (starts_with p k)); [done|]. by destruct (String.eqb (from_utf8_lossy v) item).
Qed.

(** The only row of an item in a queue. *)
Definition only_row (c : contents) (q item : string) (n : Z) : Prop :=
  is_u64 n /\ c !! queue_key q n = Some item /\
  forall m, is_u64 m -> c !! queue_key q m = Some item -> m = n.

Lemma find_only_row s q item n key :
  queue_inv (kv_contents s) -> q ∈ Q -> only_row (kv_contents s) q item n ->
  find_queued_item (queue_prefix q) item (kv_iter s) = Ok key -> key = Some (queue_key q n).
Proof.
  intros Hi Hq (Hn & Hrow & Honly) Hf. destruct key as [key|].
  - apply find_queued_item_Some in Hf as [Hp Hin%oks_iter_lookup].
    destruct (qi_row _ Hi _ _ Hin (queue_prefix_queue _ _ Hp)) as (q' & m & Hq' & Hm & ->).
    apply (queue_prefix_key Q apart) in Hp as <-; [|done..]. by rewrite (Honly m).
  - exfalso. apply find_queued_item_None in Hf as [Heq Hno].
    destruct (kv_iter_law s) as (entries & Hy & Hperm & _). destruct (yields_oks _ _ Hy) as (N & _ & Hall).
    apply Hall in Heq. specialize (Hno (queue_key q n)). rewrite queue_prefix_own in Hno.
    discriminate Hno. by rewrite Heq, Hperm, elem_of_map_to_list.
Qed.

Lemma load_live_claim_live clk cl s :
  holds (kv_contents s) cl -> claim_is_expired epoch clk cl = false ->
  sm_post (load_live_claim epoch clk (qc_claim_id cl)) s (fun s' r => s' = s /\
    match r with Ok cl' => cl' = cl | Err e => is_storage_fault e = true end).
Proof.
  intros (b & Hb & Hd) Hlv. unfold load_live_claim. apply sm_post_bind.
  eapply sm_post_mono; [exact (sm_post_and _ _ _ _ (queue_get_post _ s) (faults_get _ s))|].
  cbn beta. intros s' [v|e] [[-> Hv] He]; [subst v|done]. rewrite Hb.
  apply sm_post_bind, sm_post_lift. unfold decode_claim. rewrite Hd. cbn [result_map_err].
  rewrite Hlv. by apply sm_post_ret.
Qed.

(** The partition without a claim and a row. *)
Definition without_claim (cl : QueueClaim) (n : Z) (c : contents) : contents :=
  delete (queue_key (qc_queue cl) n)
    (delete (claimed_key (qc_queue cl) (qc_item_id cl)) (delete (lease_key (qc_claim_id cl)) c)).

Lemma ack_exact clk cl n s :
  queue_inv (kv_contents s) -> holds (kv_contents s) cl -> claim_is_expired epoch clk cl = false ->
  only_row (kv_contents s) (qc_queue cl) (qc_item_id cl) n ->
  sm_post (ack_claim epoch clk (qc_claim_id cl)) s (fun s' r =>
    match r with
    | Ok _ => kv_contents s' = without_claim cl n (kv_contents s)
    | Err e => is_storage_fault e = true /\
        (kv_contents s' = kv_contents s \/ kv_contents s' = without_claim cl n (kv_contents s))
    end).
Proof.
  intros Hi Hcl Hlv Hrow. destruct (holds_inv _ _ Hi Hcl) as [HQ _].
  apply sm_post_bind. eapply sm_post_mono; [by apply load_live_claim_live|].
  cbn beta. intros s' r [-> Hr]. destruct r as [cl'|e]; [subst cl'|by auto].
  set (post := fun (s' : kv_state) (r : Result unit StoreError) => _).
  unfold sm_post. cbn beta. apply (sm_post_bind (sm_lift _) _ s post), sm_post_lift.
  destruct (find_queued_item _ _ _) as [key|e] eqn:Hf; cycle 1.
  { split; [by eapply find_queued_item_Err|by left]. }
  rewrite (find_only_row s _ _ _ _ Hi HQ Hrow Hf).
  eapply sm_post_mono; [exact (sm_post_and _ _ _ _ (queue_commit_post _ s) (faults_commit _ s))|].
  unfold post. cbn beta. intros s' [[]|e] [Hc He].
  - by destruct Hc as [Hc|[Hc _]].
  - split; [done|]. destruct Hc as [Hc|[_ Hc]]; auto.
Qed.
End invariant.

(** ** A codec, for evaluation *)

Module MemClaims.
Definition fields (c : QueueClaim) : list positive := [
  encode (qc_claim_id c); encode (qc_queue c); encode (qc_item_id c); encode (qc_consumer c);
  encode (qc_expires_at c); encode (qc_lease_epoch c); encode (qc_lease_duration_ms c);
  encode (qc_monotonic_deadline_ms c)].

Definition of_fields (l : list positive) : option QueueClaim :=
  match l with
  | [a1; a2; a3; a4; a5; a6; a7; a8] =>
      x1 ← decode a1; x2 ← decode a2; x3 ← decode a3; x4 ← decode a4; x5 ← decode a5;
      x6 ← decode a6; x7 ← decode a7; x8 ← decode a8;
      Some (mkQueueClaim x1 x2 x3 x4 x5 x6 x7 x8)
  | _ => None
  end.

Lemma claim_of_fields_fields c : of_fields (fields c) = Some c.
Proof. unfold of_fields, fields. rewrite !decode_encode. by destruct c. Qed.

#[export] Instance mem_claim_codec : Json QueueClaim := numeral_json fields of_fields.

#[export] Instance mem_claim_codec_laws : JsonLaws QueueClaim.
Proof. apply numeral_json_laws, claim_of_fields_fields. Defined.
End MemClaims.

Lemma sm_void_hands_out_none {S E A B} (c : SM S E A) s s' (x : B) :
  sm_void c s = (s', Ok (Some x)) -> False.
Proof. unfold sm_void, sm_bind. by destruct (c s) as [? []]. Qed.

(** ** Properties *)

Section properties.
Context `{KvLaws} `{JsonLaws QueueClaim}.


(** claims are handed out in order and none is withheld.  [claim_next] on a
    queue returns the item of the row with the least sequence number that is
    not held by a live claim: all rows before it are held; it returns no claim
    only when every row of the queue is held; it fails only when the storage
    does. *)
Theorem queue_claims_in_order (epoch : string) (Q : gset string) (s : kv_state)
    (clk : ClockReading) (clocks : nat -> ClockReading) (uuid q consumer : string) (lease_for : Z) :
  queues_apart Q -> queue_inv Q (kv_contents s) -> q ∈ Q ->
  match (claim_next epoch clk clocks uuid q consumer lease_for s).2 with
  | Ok (Some cl) => exists n i, is_u64 n /\
      kv_contents s !! queue_key q n = Some (qc_item_id cl) /\
      item_held epoch (clocks i) (kv_contents s) q (qc_item_id cl) = false /\
      forall m item, is_u64 m -> (m < n)%Z -> kv_contents s !! queue_key q m = Some item ->
        held_during epoch clocks (kv_contents s) q item
  | Ok None => forall m item, kv_contents s !! queue_key q m = Some item ->
      held_during epoch clocks (kv_contents s) q item
  | Err e => is_storage_fault e = true
  end.
Proof. intros Hap. by apply claim_next_order. Qed.

(** no work is lost.  Over any run of calls a row stays in its queue,
    unless a call acknowledges a claim of its item that is stored and live at
    that moment: expired, missing and foreign claims remove no row, and neither
    do crashes of the storage between the calls. *)
Theorem queue_row_lost_only_by_ack (epoch : string) (Q : gset string) (s s' : kv_state)
    (tr : list (QueueOp * Result (option QueueClaim) StoreError)) (q item : string) (n : Z) :
  queues_apart Q -> queue_inv Q (kv_contents s) -> q ∈ Q -> queue_run epoch Q s tr s' ->
  kv_contents s !! queue_key q n = Some item ->
  kv_contents s' !! queue_key q n = Some item \/
  exists tr1 clk r tr2 s1 cl, tr = tr1 ++ (QAck clk (qc_claim_id cl), r) :: tr2 /\
    queue_run epoch Q s tr1 s1 /\ holds (kv_contents s1) cl /\
    (qc_queue cl, qc_item_id cl) = (q, item) /\ claim_is_expired epoch clk cl = false.
Proof. intros Hap Hi Hq Hrun. by apply row_run. Qed.

(** an acknowledgement removes the claim and its row and nothing else.  For
    a live claim whose item has one row, a successful [ack_claim] deletes the
    lease, the marker and that row; a failed one is a storage fault and has
    done all of that or nothing. *)
Theorem queue_ack_exact (epoch : string) (Q : gset string) (s : kv_state) (clk : ClockReading)
    (cl : QueueClaim) (n : Z) :
  queues_apart Q -> queue_inv Q (kv_contents s) -> holds (kv_contents s) cl ->
  claim_is_expired epoch clk cl = false ->
  only_row (kv_contents s) (qc_queue cl) (qc_item_id cl) n ->
  let '(s', r) := ack_claim epoch clk (qc_claim_id cl) s in
  match r with
  | Ok _ => kv_contents s' = without_claim cl n (kv_contents s)
  | Err e => is_storage_fault e = true /\
      (kv_contents s' = kv_contents s \/ kv_contents s' = without_claim cl n (kv_contents s))
  end.
Proof.
  intros Hap Hi Hcl Hlv Hrow. pose proof (ack_exact epoch Q Hap clk cl n s Hi Hcl Hlv Hrow) as Hp.
  unfold sm_post in Hp. by destruct (ack_claim _ _ _ _) as [s' r].
Qed.
End properties.

(** ** Witnesses *)

Import MemKv MemClaims.

(** The four lanes of the review queue. *)
Definition lanes : gset string :=
  {["review:critical"; "review:high"; "review:medium"; "review:low"]}.

Lemma lanes_apart : queues_apart lanes.
Proof.
  intros q q' Hq Hq'. unfold lanes in *. rewrite !elem_of_union, !elem_of_singleton in Hq, Hq'.
  by destruct Hq as [[[-> | ->] | ->] | ->], Hq' as [[[-> | ->] | ->] | ->].
Defined.

Definition at_ms (t : Z) : ClockReading := mkClockReading (t * 1000000) (t * 1000000).

Definition two_reviews : list QueueOp := [
  QEnqueue "review:high" "R-1" 1;
  QEnqueue "review:high" "R-2" 2;
  QClaim (at_ms 0) (fun _ => at_ms 0) "c1" "review:high" "a" 1000000000;
  QClaim (at_ms 5) (fun _ => at_ms 5) "c2" "review:high" "b" 1000000000;
  QCleanup (fun _ => at_ms 6);
  QClaim (at_ms 9) (fun _ => at_ms 9) "c3" "review:high" "a" 1000000000].

Fixpoint run_queue (ops : list QueueOp) (s : kv_state)
    : list (QueueOp * Result (option QueueClaim) StoreError) * kv_state :=
  match ops with
  | [] => ([], s)
  | op :: ops =>
      let '(s1, r) := exec_queue "e" op s in
      let '(tr, s2) := run_queue ops s1 in ((op, r) :: tr, s2)
  end.

(** The calls are made in order, each admissible where it is made. *)
Fixpoint all_admissible (ops : list QueueOp) (s : kv_state) : Prop :=
  match ops with
  | [] => True
  | op :: ops => admissible lanes op (kv_contents s) /\ all_admissible ops (exec_queue "e" op s).1
  end.

Lemma run_queue_run ops s :
  all_admissible ops s -> queue_run "e" lanes s (run_queue ops s).1 (run_queue ops s).2.
Proof.
  revert s. induction ops as [|op ops IH]; intros s; cbn; [intros _; constructor|].
  intros [Ha Hall]. destruct (exec_queue "e" op s) as [s1 r] eqn:He. specialize (IH s1 Hall).
  destruct (run_queue ops s1) as [tr s2]. cbn in *. by econstructor.
Defined.

Lemma two_reviews_admissible : all_admissible two_reviews empty_store.
Proof.
  cbn [all_admissible two_reviews]. split_and!; try exact I;
    first [by apply (bool_decide_unpack _); vm_compute | by split; vm_compute
          | by left; vm_compute | by vm_compute].
Defined.

Definition claim_at (uuid item consumer : string) (t : Z) : QueueClaim :=
  mkQueueClaim uuid "review:high" item consumer (t * 1000000 + 1000000000) (Some "e")
    (Some 1000%Z) (Some (t + 1000)%Z).

Definition two_reviews_before : list (QueueOp * Result (option QueueClaim) StoreError) :=
  (fun op => (op, Ok None)) <$> take 2 two_reviews.
Definition two_reviews_after : list (QueueOp * Result (option QueueClaim) StoreError) :=
  zip (drop 3 two_reviews) [Ok (Some (claim_at "c2" "R-2" "b" 5)); Ok None; Ok None].


(** Both reviews queued, the first one claimed. *)
Definition one_claimed : kv_state := (run_queue (take 3 two_reviews) empty_store).2.

Lemma one_claimed_inv : queue_inv lanes (kv_contents one_claimed).
Proof.
  destruct two_reviews_admissible as (H1 & H2 & H3 & _).
  eapply (queue_run_inv "e" lanes lanes_apart empty_store); [apply queue_inv_empty|].
  apply (run_queue_run (take 3 two_reviews) empty_store). split; [exact H1|]. split; [exact H2|].
  split; [exact H3|exact I].
Defined.

Lemma high_lane : "review:high" ∈ lanes.
Proof. apply (bool_decide_unpack _). vm_compute. exact I. Defined.

Lemma queue_claims_in_order_witness :
  (claim_next "e" (at_ms 5) (fun _ => at_ms 5) "c2" "review:high" "b" 1000000000 one_claimed).2
  = Ok (Some (claim_at "c2" "R-2" "b" 5)) /\
  exists n, is_u64 n /\ kv_contents one_claimed !! queue_key "review:high" n = Some "R-2".
Proof.
  assert (Hc : (claim_next "e" (at_ms 5) (fun _ => at_ms 5) "c2" "review:high" "b" 1000000000
    one_claimed).2 = Ok (Some (claim_at "c2" "R-2" "b" 5))) by (vm_compute; reflexivity).
  split; [exact Hc|].
  pose proof (queue_claims_in_order "e" lanes one_claimed (at_ms 5) (fun _ => at_ms 5) "c2"
    "review:high" "b" 1000000000 lanes_apart one_claimed_inv high_lane) as Hord.
  rewrite Hc in Hord. destruct Hord as (n & i & Hn & Hrow & _). exists n. split; [exact Hn|exact Hrow].
Defined.

Lemma queue_row_lost_only_by_ack_witness :
  (ack_claim "e" (at_ms 2000) "c1" one_claimed).2 = Err (StoreError.ClaimExpired "c1") /\
  kv_contents (exec_queue "e" (QAck (at_ms 2000) "c1") one_claimed).1 !! queue_key "review:high" 1
    = Some "R-1".
Proof.
  split; [vm_compute; reflexivity|].
  assert (Hrow : kv_contents one_claimed !! queue_key "review:high" 1 = Some "R-1")
    by (vm_compute; reflexivity).
  assert (Hb : kv_contents one_claimed !! lease_key "c1"
    = Some (numeral (encode (fields (claim_at "c1" "R-1" "a" 0))))) by (vm_compute; reflexivity).
  assert (Hd : from_slice (numeral (encode (fields (claim_at "c1" "R-1" "a" 0))))
    = Ok (claim_at "c1" "R-1" "a" 0)) by (vm_compute; reflexivity).
  pose proof one_claimed_inv as Hi. revert Hrow Hb Hd Hi.
  generalize one_claimed as s, (numeral (encode (fields (claim_at "c1" "R-1" "a" 0)))) as b.
  intros s b Hrow Hb Hd Hi. destruct (exec_queue "e" (QAck (at_ms 2000) "c1") s) as [s' r] eqn:He.
  assert (Hrun : queue_run "e" lanes s [(QAck (at_ms 2000) "c1", r)] s').
  { econstructor; [exact I|exact He|constructor]. }
  destruct (queue_row_lost_only_by_ack "e" lanes s s' _ "review:high" "R-1" 1 lanes_apart
    Hi high_lane Hrun Hrow)
    as [Hrow'|(tr1 & clk & r' & tr2 & s1 & cl & Htr & Hr1 & Hcl & _ & Hlv)]; [exact Hrow'|].
  exfalso. destruct tr1 as [|x tr1]; [|by destruct tr1].
  injection Htr as <- Hid _ _. inversion Hr1; subst s1.
  destruct Hcl as (b' & Hb' & Hd'). rewrite <-Hid, Hb in Hb'. injection Hb' as <-.
  rewrite Hd in Hd'. injection Hd' as <-. vm_compute in Hlv. discriminate Hlv.
Defined.

Lemma queue_ack_exact_witness :
  (ack_claim "e" (at_ms 7) "c1" one_claimed).2 = Ok tt /\
  kv_contents (ack_claim "e" (at_ms 7) "c1" one_claimed).1
  = without_claim (claim_at "c1" "R-1" "a" 0) 1 (kv_contents one_claimed).
Proof.
  assert (Hok : (ack_claim "e" (at_ms 7) "c1" one_claimed).2 = Ok tt) by (vm_compute; reflexivity).
  split; [exact Hok|].
  assert (Hcl : holds (kv_contents one_claimed) (claim_at "c1" "R-1" "a" 0)).
  { exists (numeral (encode (fields (claim_at "c1" "R-1" "a" 0)))). split; vm_compute; reflexivity. }
  assert (Hrow : only_row (kv_contents one_claimed) "review:high" "R-1" 1).
  { split; [by split; vm_compute|]. split; [vm_compute; reflexivity|]. intros m Hm Hrow.
    assert (Hc : kv_contents one_claimed = apply_batch
      [BatchInsert (queue_key "review:high" 1) "R-1"; BatchInsert (queue_key "review:high" 2) "R-2";
       BatchInsert (lease_key "c1") (numeral (encode (fields (claim_at "c1" "R-1" "a" 0))));
       BatchInsert (claimed_key "review:high" "R-1") "c1"] ∅) by (vm_compute; reflexivity).
    rewrite Hc in Hrow. unfold apply_batch in Hrow. cbn [foldl apply_batch_op] in Hrow.
    rewrite !lookup_insert_Some in Hrow. rewrite lookup_empty in Hrow.
    assert (Hk : is_row_key (queue_key "review:high" m)) by (eapply queue_prefix_queue, queue_prefix_own).
    destruct Hrow as [[Heq _]|[_ [[Heq _]|[_ [[_ Heq]|[_ [[Heq _]|[_ Heq]]]]]]]].
    - symmetry in Heq. destruct (row_key_not_claimed _ _ _ Hk Heq).
    - symmetry in Heq. destruct (row_key_not_lease _ _ Hk Heq).
    - discriminate Heq.
    - apply (queue_key_inj lanes lanes_apart) in Heq as [_ <-];
        [reflexivity|apply high_lane|apply high_lane|by split; vm_compute|exact Hm].
    - discriminate Heq. }
  pose proof (queue_ack_exact "e" lanes one_claimed (at_ms 7) (claim_at "c1" "R-1" "a" 0) 1 lanes_apart
    one_claimed_inv Hcl eq_refl Hrow) as Hack. cbn [qc_claim_id claim_at] in Hack.
  revert Hok Hack. generalize (ack_claim "e" (at_ms 7) "c1" one_claimed). intros [s' r] Hok Hack.
  cbn [fst snd] in *. rewrite Hok in Hack. exact Hack.
Defined.

(** ** Why the queue names must be apart

    The keys do not escape their parts: the markers of item ["b:R"] of queue
    ["a"] and of item ["R"] of queue ["a:b"] are one key, and the second claim
    below takes the marker away from the first, which is live. *)
Definition colliding_calls : list QueueOp := [
  QEnqueue "a:b" "R" 1;
  QEnqueue "a" "b:R" 2;
  QClaim (at_ms 0) (fun _ => at_ms 0) "c1" "a:b" "x" 1000000000;
  QClaim (at_ms 1) (fun _ => at_ms 1) "c2" "a" "y" 1000000000;
  QClaim (at_ms 2) (fun _ => at_ms 2) "c3" "a:b" "z" 1000000000].

Lemma colliding_queues_claim_twice :
  (fun x => match x.2 with Ok (Some cl) => Some (qc_queue cl, qc_item_id cl) | _ => None end)
    <$> (run_queue colliding_calls empty_store).1
  = [None; None; Some ("a:b", "R"); Some ("a", "b:R"); Some ("a:b", "R")].
Proof. vm_compute. reflexivity. Qed.
