(* ===== verification/Ports.v ===== *)
(** * Ports (crate brehon-ports)

    The traits through which the components reach agents, git and the event
    store, as classes of operations on a state.  Only the methods the modelled
    components call are listed. *)

From S2P Require Import Prelude Types Events Queue.

(** [PortError] (error.rs) and its text *)
Module PortError.
Inductive PortError :=
| Storage (msg : string)
| Agent (msg : string)
| Git (msg : string)
| Config (msg : string)
| Notification (msg : string)
| Runtime (msg : string)
| Policy (msg : string)
| Detection (msg : string)
| IO (msg : string).

Definition to_string (e : PortError) : string :=
  match e with
  | Storage m => "Storage error: " +:+ m
  | Agent m => "Agent error: " +:+ m
  | Git m => "Git error: " +:+ m
  | Config m => "Configuration error: " +:+ m
  | Notification m => "Notification error: " +:+ m
  | Runtime m => "Runtime error: " +:+ m
  | Policy m => "Policy error: " +:+ m
  | Detection m => "Detection error: " +:+ m
  | IO m => "I/O error: " +:+ m
  end.
End PortError.
Abbreviation PortError := PortError.PortError.

(** [trait AgentGateway]: starting and killing sessions; the callers see the
    text of an error only *)
Class AgentGateway := {
  gw_state : Type;
  gw_spawn : SessionSpec -> SM gw_state string SessionId;
  gw_kill_session : SessionId -> SM gw_state string unit
}.

(** [trait GitOperations]: the paths of the files in a diff *)
Class GitOperations := {
  git_diff : string -> string -> Result (list string) string
}.

(** [trait EventStore]: appending events and working on queues *)
Class EventStore := {
  es_state : Type;
  es_append : Event -> SM es_state PortError EventId;
  es_append_and_enqueue : Event -> string -> string -> option string -> SM es_state PortError EventId;
  es_claim_next : string -> string -> Z -> SM es_state PortError (option QueueClaim);
  es_ack_claim : ClaimId -> SM es_state PortError unit;
  es_renew_claim : ClaimId -> Z -> SM es_state PortError unit
}.

(** What the clients of the store rely on: an append that succeeds adds its
    event at the end of the log, one that fails adds it or not, and queue
    operations do not touch the log. *)
Class EventStoreLaws `{EventStore} := {
  es_log : es_state -> list Event;
  es_append_law : forall e s s' r, es_append e s = (s', r) ->
    es_log s' = es_log s ++ [e] \/ (is_ok r = false /\ es_log s' = es_log s);
  es_ack_law : forall id s s' r, es_ack_claim id s = (s', r) -> es_log s' = es_log s;
  es_claim_law : forall q consumer lease s s' r,
    es_claim_next q consumer lease s = (s', r) -> es_log s' = es_log s
}.

(** [MessageKind], [PromptTurn] (brehon-types/src/message.rs) *)
Module MessageKind.
Inductive MessageKind := TaskAssignment | ReviewRequest | Feedback | Nudge | HumanIntervention | System.
End MessageKind.
Abbreviation MessageKind := MessageKind.MessageKind.

Record PromptTurn := mkPromptTurn {
  pt_prompt_id : string;
  pt_content : string;
  pt_kind : MessageKind;
  pt_sent_at : DateTime
}.

(** [trait AgentGateway]: talking to sessions *)
Class AgentSessions `{AgentGateway} := {
  gw_send_prompt : SessionId -> PromptTurn -> SM gw_state string unit;
  gw_health_check : SessionId -> SM gw_state string HealthStatus
}.

(** [trait EventStore]: reading the log and retention *)
Class EventStream `{EventStore} := {
  es_stream : option EventId -> nat -> SM es_state PortError (list (Event * EventId));
  es_high_water_mark : SM es_state PortError EventId;
  es_retain_events : EventId -> SM es_state PortError nat;
  es_expire_idempotency_keys : Z -> SM es_state PortError nat
}.

(** What retention may do: [retain_events before] never removes an event at or
    after [before], and the other methods remove nothing. *)
Class EventStreamLaws `{EventStream} := {
  es_held : es_state -> list (Event * EventId);
  es_append_held : forall e s x, x ∈ es_held s -> x ∈ es_held (es_append e s).1;
  es_stream_held : forall since n s, es_held (es_stream since n s).1 = es_held s;
  es_high_water_held : forall s, es_held (es_high_water_mark s).1 = es_held s;
  es_expire_held : forall d s, es_held (es_expire_idempotency_keys d s).1 = es_held s;
  es_retain_held : forall before s x, x ∈ es_held s -> (before <= x.2)%Z ->
    x ∈ es_held (es_retain_events before s).1
}.

(** What readers of the log rely on: events are held in the order of their
    numbers, an append adds at the end, and [stream] returns the next events
    after a number. *)
Definition after (since : option EventId) (x : Event * EventId) : bool :=
  match since with Some id => (id <? x.2)%Z | None => true end.

Class EventStreamOrder `{EventStreamLaws} := {
  es_held_sorted : forall s, StronglySorted Z.lt (es_held s).*2;
  es_append_spec : forall e s s' id, es_append e s = (s', Ok id) -> es_held s' = es_held s ++ [(e, id)];
  es_append_failed : forall e s s' err, es_append e s = (s', Err err) ->
    es_held s' = es_held s \/ exists id, es_held s' = es_held s ++ [(e, id)];
  es_stream_spec : forall since n s s' l, es_stream since n s = (s', Ok l) ->
    l = take n (List.filter (after since) (es_held s))
}.

(** [trait DecisionEngine] (decision.rs) and its types *)
Module DecisionKind.
Inductive DecisionKind :=
| PlanExecution | AssignWorker | StuckGuidance | ReviewDeadlock | MergeConflict | HeartbeatCheck
| NextAction | ErrorHandler.
End DecisionKind.
Abbreviation DecisionKind := DecisionKind.DecisionKind.

Module DecisionConfidence.
Inductive DecisionConfidence := Low | Medium | High.
End DecisionConfidence.
Abbreviation DecisionConfidence := DecisionConfidence.DecisionConfidence.

Record DecisionRequest := mkDecisionRequest {
  dq_request_id : string;
  dq_kind : DecisionKind;
  dq_context : string;
  dq_event_ids : list string;
  dq_options : list string;
  dq_created_at : DateTime
}.

Record DecisionResponse := mkDecisionResponse {
  dr_request_id : string;
  dr_decision : string;
  dr_reasoning : string;
  dr_confidence : DecisionConfidence;
  dr_next_actions : list string;
  dr_tokens_used : Z;
  dr_decided_at : DateTime
}.

Class DecisionEngine := {
  de_state : Type;
  de_decide : DecisionRequest -> SM de_state PortError DecisionResponse
}.
