(* ===== verification/MemEvents.v ===== *)
(** * An event store in memory

    The list of all events, numbered from one: an instance of the classes of
    Ports.v with all their laws, on which witnesses are evaluated. *)

From S2P Require Import Prelude Types Events Queue Ports.

Module Mem.

(** The events with their numbers. *)
Definition numbered (l : list Event) : list (Event * EventId) :=
  imap (fun i e => (e, Z.of_nat (S i))) l.

Definition push (e : Event) (l : list Event) : list Event * Result EventId PortError :=
  (l ++ [e], Ok (Z.of_nat (S (length l)))).

#[export] Instance store : EventStore := {|
  es_state := list Event;
  es_append := push;
  es_append_and_enqueue := fun e _ _ _ => push e;
  es_claim_next := fun _ _ _ l => (l, Ok None);
  es_ack_claim := fun _ l => (l, Ok tt);
  es_renew_claim := fun _ _ l => (l, Ok tt)
|}.

#[export] Instance store_laws : EventStoreLaws.
Proof.
  refine {| es_log := fun l : es_state => l |}.
  - cbn. unfold push. intros e s s' r [= <- <-]. by left.
  - by intros id s s' r [= <- <-].
  - by intros q consumer lease s s' r [= <- <-].
Defined.

#[export] Instance stream : EventStream := {|
  es_stream := fun since n l => (l, Ok (take n (List.filter (after since) (numbered l))));
  es_high_water_mark := fun l => (l, Ok (Z.of_nat (length l)));
  es_retain_events := fun _ l => (l, Ok 0);
  es_expire_idempotency_keys := fun _ l => (l, Ok 0)
|}.

Lemma numbered_app l e : numbered (l ++ [e]) = numbered l ++ [(e, Z.of_nat (S (length l)))].
Proof. unfold numbered. rewrite imap_app. cbn. by rewrite Nat.add_0_r. Qed.

Lemma numbered_ids l : (numbered l).*2 = seqZ 1 (Z.of_nat (length l)).
Proof.
  induction l as [|e l IH] using rev_ind; [done|].
  rewrite numbered_app, fmap_app, IH, length_app. cbn.
  rewrite Nat2Z.inj_add, seqZ_app by lia. f_equal. unfold seqZ.
  change (Z.to_nat (Z.of_nat 1)) with 1. cbn. f_equal. lia.
Qed.

#[export] Instance stream_laws : EventStreamLaws.
Proof.
  refine {| es_held := fun l : es_state => numbered l |}; try done.
  intros e s x Hx. cbn. rewrite numbered_app. set_solver.
Defined.

#[export] Instance stream_order : EventStreamOrder.
Proof.
  split.
  - intros s. cbn. rewrite numbered_ids. apply sorted_seqZ.
  - cbn. unfold push. intros e s s' id [= <- <-]. apply numbered_app.
  - by cbn.
  - cbn. by intros since n s s' l [= <- <-].
Defined.

End Mem.
