(* ===== verification/RunPort.v ===== *)
(** * The run store port (brehon-ports/src/run_store.rs)

    The trait [RunStore] through which the rest of the program reaches durable
    runs: its errors and request types, the effect of each call on one record
    ([claim_record], [release_record], ...), the abstract store that every
    implementation must behave as, and what holds of it over any sequence of
    calls.

    A run is one attempt of a task in a role (its lane).  A call that mutates a
    run carries the claim generation the caller was given; the store refuses it
    when the run has been claimed again since.

    The record-level functions contain the checks and field updates that
    [RunStoreManager] (brehon-store-fjall/src/run_store.rs) makes between
    loading a record and committing it; [RunStore.v] composes them with the
    storage and proves that this implements the abstract store. *)

From S2P Require Import Prelude Types.

(** ** Errors and requests *)

Module RunStoreError.
Inductive RunStoreError :=
| DuplicateActiveClaim (task_id : TaskId) (role : RunRole) (existing_run_id : RunId)
| StaleGeneration (run_id : RunId) (expected actual : ClaimGeneration)
| InvalidStatusTransition (run_id : RunId) (from to : RunStatus)
| LeaseExpired (run_id : RunId) (generation : ClaimGeneration)
| RetryNotDue (run_id : RunId) (retry_at now : DateTime)
| NotFound (run_id : RunId)
| Storage (msg : string)
| Serialization (msg : string).
End RunStoreError.
Abbreviation RunStoreError := RunStoreError.RunStoreError.
Abbreviation RunStoreResult A := (Result A RunStoreError).

Record ClaimRequest := mkClaimRequest {
  cr_run_id : RunId;
  cr_owner : ClaimOwner;
  cr_session_id : option SessionId;
  cr_claimed_at : DateTime;
  cr_lease_expires_at : DateTime
}.

Record ClaimRelease := mkClaimRelease {
  cl_run_id : RunId;
  cl_generation : ClaimGeneration;
  cl_released_at : DateTime;
  cl_reason : option string
}.

Record RunCompletion := mkRunCompletion {
  rc_run_id : RunId;
  rc_generation : ClaimGeneration;
  rc_completed_at : DateTime;
  rc_summary : option string
}.

Record RunContinuation := mkRunContinuation {
  rn_run_id : RunId;
  rn_generation : ClaimGeneration;
  rn_continued_at : DateTime;
  rn_turn : Z
}.

Record RunFailure := mkRunFailure {
  rf_run_id : RunId;
  rf_generation : ClaimGeneration;
  rf_failed_at : DateTime;
  rf_reason : string
}.

Record RunRetry := mkRunRetry {
  rt_run_id : RunId;
  rt_generation : ClaimGeneration;
  rt_queued_at : DateTime;
  rt_retry_at : DateTime;
  rt_reason : string
}.

Record RetryAttemptRequest := mkRetryAttemptRequest {
  ra_queued_run_id : RunId;
  ra_generation : ClaimGeneration;
  ra_new_run_id : RunId;
  ra_created_at : DateTime
}.

Record RetryAttemptStarted := mkRetryAttemptStarted {
  rs_queued_run : RunRecord;
  rs_retry_run : RunRecord
}.

(** ** Checks (the [ensure_*] functions, [can_claim], [clear_claim])

    [now] is what [Utc::now()] returns inside the call. *)

Definition ensure_generation (record : RunRecord) (supplied : ClaimGeneration)
    : RunStoreResult unit :=
  if (rr_claim_generation record =? supplied)%Z then Ok tt
  else Err (RunStoreError.StaleGeneration (rr_run_id record) (rr_claim_generation record) supplied).

Definition ensure_unexpired (now : DateTime) (record : RunRecord) : RunStoreResult unit :=
  if RunStatus.has_active_claim (rr_status record) && claim_is_expired_at record now then
    Err (RunStoreError.LeaseExpired (rr_run_id record) (rr_claim_generation record))
  else Ok tt.

(** Of the two clock reads in [can_claim] at most one is evaluated. *)
Definition can_claim (now : DateTime) (record : RunRecord) : bool :=
  match rr_status record with RunStatus.Created | RunStatus.Released => true | _ => false end
  || (bool_decide (rr_status record = RunStatus.RetryQueued) && retry_is_due_at record now)
  || (RunStatus.has_active_claim (rr_status record) && claim_is_expired_at record now).

Definition clear_claim (record : RunRecord) : RunRecord :=
  record <| rr_claim_owner := None |> <| rr_session_id := None |>
         <| rr_lease_expires_at := None |> <| rr_claimed_at := None |>.

(** The guard that the fenced operations share: the generation is current, the
    run is claimed, the lease has not expired; [to] is the status named in the
    error. *)
Definition guard_claim (now : DateTime) (generation : ClaimGeneration) (to : RunStatus)
    (record : RunRecord) : RunStoreResult unit :=
  let? _ := ensure_generation record generation in
  if negb (RunStatus.has_active_claim (rr_status record)) then
    Err (RunStoreError.InvalidStatusTransition (rr_run_id record) (rr_status record) to)
  else ensure_unexpired now record.

(** ** Effects on a record *)

Definition DEFAULT_RENEWAL_SECONDS : Z := 60.
Definition seconds (n : Z) : Z := (n * 1000000000)%Z.

Definition claim_record (now : DateTime) (request : ClaimRequest) (record : RunRecord)
    : RunStoreResult RunRecord :=
  if bool_decide (rr_status record = RunStatus.RetryQueued)
     && negb (retry_is_due_at record (cr_claimed_at request)) then
    Err (RunStoreError.RetryNotDue (rr_run_id record)
           (default (cr_claimed_at request) (rr_retry_at record)) (cr_claimed_at request))
  else if negb (can_claim now record) then
    if RunStatus.has_active_claim (rr_status record) then
      Err (RunStoreError.DuplicateActiveClaim (rr_task_id record) (rr_role record)
             (rr_run_id record))
    else
      Err (RunStoreError.InvalidStatusTransition (rr_run_id record) (rr_status record)
             RunStatus.Claimed)
  else
    Ok (record <| rr_status := RunStatus.Claimed |>
               <| rr_claim_generation := generation_next (rr_claim_generation record) |>
               <| rr_claim_owner := Some (cr_owner request) |>
               <| rr_session_id := cr_session_id request |>
               <| rr_lease_expires_at := Some (cr_lease_expires_at request) |>
               <| rr_claimed_at := Some (cr_claimed_at request) |>
               <| rr_updated_at := cr_claimed_at request |>
               <| rr_released_at := None |>
               <| rr_release_reason := None |>).

(** [renew_claim] reads the clock twice: once for the expiry check, once for
    the new lease. *)
Definition renew_record (now1 now2 : DateTime) (generation : ClaimGeneration) (record : RunRecord)
    : RunStoreResult RunRecord :=
  let? _ := guard_claim now1 generation RunStatus.Claimed record in
  Ok (record <| rr_lease_expires_at := Some (now2 + seconds DEFAULT_RENEWAL_SECONDS)%Z |>
             <| rr_updated_at := now2 |>).

Definition release_record (now : DateTime) (release : ClaimRelease) (record : RunRecord)
    : RunStoreResult RunRecord :=
  let? _ := guard_claim now (cl_generation release) RunStatus.Released record in
  Ok (clear_claim (record <| rr_status := RunStatus.Released |>)
        <| rr_released_at := Some (cl_released_at release) |>
        <| rr_release_reason := cl_reason release |>
        <| rr_updated_at := cl_released_at release |>).

Definition complete_record (now : DateTime) (completion : RunCompletion) (record : RunRecord)
    : RunStoreResult RunRecord :=
  let? _ := guard_claim now (rc_generation completion) RunStatus.Completed record in
  Ok (clear_claim (record <| rr_status := RunStatus.Completed |>)
        <| rr_completed_at := Some (rc_completed_at completion) |>
        <| rr_completion_summary := rc_summary completion |>
        <| rr_updated_at := rc_completed_at completion |>).

Definition fail_record (now : DateTime) (failure : RunFailure) (record : RunRecord)
    : RunStoreResult RunRecord :=
  let? _ := guard_claim now (rf_generation failure) RunStatus.Failed record in
  Ok (clear_claim (record <| rr_status := RunStatus.Failed |>)
        <| rr_failed_at := Some (rf_failed_at failure) |>
        <| rr_failure_reason := Some (rf_reason failure) |>
        <| rr_updated_at := rf_failed_at failure |>).

Definition continue_record (now : DateTime) (continuation : RunContinuation) (record : RunRecord)
    : RunStoreResult RunRecord :=
  let? _ := guard_claim now (rn_generation continuation) (rr_status record) record in
  if negb (rn_turn continuation =? sat_add u32_max (rr_continuation_turns record) 1)%Z then
    Err (RunStoreError.InvalidStatusTransition (rr_run_id record) (rr_status record)
           (rr_status record))
  else
    Ok (record <| rr_continuation_turns := rn_turn continuation |>
               <| rr_last_continuation_at := Some (rn_continued_at continuation) |>
               <| rr_last_activity_at := Some (rn_continued_at continuation) |>
               <| rr_updated_at := rn_continued_at continuation |>).

Definition retry_record (now : DateTime) (retry : RunRetry) (record : RunRecord)
    : RunStoreResult RunRecord :=
  let? _ := guard_claim now (rt_generation retry) RunStatus.RetryQueued record in
  Ok (clear_claim (record <| rr_status := RunStatus.RetryQueued |>)
        <| rr_failed_at := Some (rt_queued_at retry) |>
        <| rr_failure_reason := Some (rt_reason retry) |>
        <| rr_retry_queued_at := Some (rt_queued_at retry) |>
        <| rr_retry_at := Some (rt_retry_at retry) |>
        <| rr_retry_reason := Some (rt_reason retry) |>
        <| rr_updated_at := rt_queued_at retry |>).

(** The checks of [start_retry_attempt] on the queued run, and the two records
    it writes. *)
Definition check_retry_attempt (request : RetryAttemptRequest) (queued : RunRecord)
    : RunStoreResult unit :=
  let? _ := ensure_generation queued (ra_generation request) in
  if negb (bool_decide (rr_status queued = RunStatus.RetryQueued)) then
    Err (RunStoreError.InvalidStatusTransition (rr_run_id queued) (rr_status queued)
           RunStatus.Created)
  else match rr_retry_at queued with
       | Some retry_at =>
           if (ra_created_at request <? retry_at)%Z then
             Err (RunStoreError.RetryNotDue (rr_run_id queued) retry_at (ra_created_at request))
           else Ok tt
       | None => Ok tt
       end.

Definition close_queued (request : RetryAttemptRequest) (queued : RunRecord) : RunRecord :=
  queued <| rr_status := RunStatus.Failed |>
         <| rr_updated_at := ra_created_at request |>
         <| rr_failed_at := Some (default (ra_created_at request) (rr_failed_at queued)) |>.

Definition next_attempt (request : RetryAttemptRequest) (queued : RunRecord) : RunRecord :=
  RunRecord_new (ra_new_run_id request) (rr_task_id queued) (rr_role queued)
      (ra_created_at request)
    <| rr_attempt := sat_add u32_max (rr_attempt queued) 1 |>.

(** ** The abstract store: a map of records *)

Abbreviation Runs := (gmap RunId RunRecord).

(** The lane of a run: its task and the name of its role.  Lanes are compared
    by the role's name, so [Custom("worker")] shares the lane of [Worker]. *)
Definition lane (r : RunRecord) : TaskId * string := (rr_task_id r, RunRole.as_str (rr_role r)).

Definition active_in_lane (m : Runs) (l : TaskId * string) : option RunId :=
  head (filter (fun kv => run_is_active kv.2 = true /\ lane kv.2 = l) (map_to_list m)).*1.

Definition spec_update (id : RunId) (f : RunRecord -> RunStoreResult RunRecord) (m : Runs)
    : RunStoreResult (RunRecord * Runs) :=
  match m !! id with
  | None => Err (RunStoreError.NotFound id)
  | Some r => let? r' := f r in Ok (r', <[id := r']> m)
  end.

Definition spec_create (record : RunRecord) (m : Runs) : RunStoreResult (RunRecord * Runs) :=
  match m !! rr_run_id record with
  | Some _ => Err (RunStoreError.InvalidStatusTransition (rr_run_id record) (rr_status record)
                     (rr_status record))
  | None =>
      match (if run_is_active record then active_in_lane m (lane record) else None) with
      | Some existing_run_id =>
          Err (RunStoreError.DuplicateActiveClaim (rr_task_id record) (rr_role record)
                 existing_run_id)
      | None =>
          let record := record <| rr_updated_at := rr_created_at record |> in
          Ok (record, <[rr_run_id record := record]> m)
      end
  end.

Definition spec_claim (now : DateTime) (request : ClaimRequest) :=
  spec_update (cr_run_id request) (claim_record now request).
Definition spec_renew (now1 now2 : DateTime) (run_id : RunId) (generation : ClaimGeneration) :=
  spec_update run_id (renew_record now1 now2 generation).
Definition spec_release (now : DateTime) (release : ClaimRelease) :=
  spec_update (cl_run_id release) (release_record now release).
Definition spec_complete (now : DateTime) (completion : RunCompletion) :=
  spec_update (rc_run_id completion) (complete_record now completion).
Definition spec_fail (now : DateTime) (failure : RunFailure) :=
  spec_update (rf_run_id failure) (fail_record now failure).
Definition spec_continue (now : DateTime) (continuation : RunContinuation) :=
  spec_update (rn_run_id continuation) (continue_record now continuation).
Definition spec_retry (now : DateTime) (retry : RunRetry) :=
  spec_update (rt_run_id retry) (retry_record now retry).

Definition spec_start_retry (request : RetryAttemptRequest) (m : Runs)
    : RunStoreResult (RetryAttemptStarted * Runs) :=
  match m !! ra_queued_run_id request with
  | None => Err (RunStoreError.NotFound (ra_queued_run_id request))
  | Some queued =>
      let? _ := check_retry_attempt request queued in
      match m !! ra_new_run_id request with
      | Some _ => Err (RunStoreError.InvalidStatusTransition (ra_new_run_id request)
                         RunStatus.Created RunStatus.Created)
      | None =>
          let closed := close_queued request queued in
          let retry_run := next_attempt request queued in
          let started := mkRetryAttemptStarted closed retry_run in
          let m' := <[ra_new_run_id request := retry_run]> (<[ra_queued_run_id request := closed]> m) in
          match active_in_lane m (lane retry_run) with
          | Some existing_run_id =>
              if bool_decide (existing_run_id = rr_run_id queued) then Ok (started, m')
              else Err (RunStoreError.DuplicateActiveClaim (rr_task_id retry_run)
                          (rr_role retry_run) existing_run_id)
          | None => Ok (started, m')
          end
      end
  end.

(** ** The port: what an implementation promises

    [refines repr op spec]: on a state that represents the runs [m], [op]
    returns what the abstract call [spec] returns on [m] and leaves a state that
    represents its result; or it fails with a storage or serialization error,
    and then the call has happened completely or not at all. *)
Definition is_io_error (e : RunStoreError) : bool :=
  match e with RunStoreError.Storage _ | RunStoreError.Serialization _ => true | _ => false end.

Definition refines {St A : Type} (repr : St -> Runs -> Prop)
    (op : SM St RunStoreError A) (spec : Runs -> RunStoreResult (A * Runs)) : Prop :=
  forall s m, repr s m ->
  match op s with
  | (s', Ok a) => exists m', spec m = Ok (a, m') /\ repr s' m'
  | (s', Err e) =>
      (spec m = Err e /\ repr s' m) \/
      (is_io_error e = true /\ (repr s' m \/ exists a m', spec m = Ok (a, m') /\ repr s' m'))
  end.

(** The trait [RunStore]; [St] is the state behind [&self], the [DateTime]s are
    the clock reads inside the call. *)
Class RunStore (St : Type) := {
  create_run : RunRecord -> SM St RunStoreError RunRecord;
  claim_run : DateTime -> ClaimRequest -> SM St RunStoreError RunRecord;
  renew_claim : DateTime -> DateTime -> RunId -> ClaimGeneration -> SM St RunStoreError RunRecord;
  release_claim : DateTime -> ClaimRelease -> SM St RunStoreError RunRecord;
  complete_run : DateTime -> RunCompletion -> SM St RunStoreError RunRecord;
  fail_run : DateTime -> RunFailure -> SM St RunStoreError RunRecord;
  record_continuation : DateTime -> RunContinuation -> SM St RunStoreError RunRecord;
  queue_retry : DateTime -> RunRetry -> SM St RunStoreError RunRecord;
  start_retry_attempt : RetryAttemptRequest -> SM St RunStoreError RetryAttemptStarted;
  get_run : RunId -> SM St RunStoreError (option RunRecord);
  active_runs : SM St RunStoreError (list RunRecord);
  runs_for_task : TaskId -> SM St RunStoreError (list RunRecord)
}.

(** Reads do not change the state; [repr] is kept by [refines]. *)
Definition spec_get (id : RunId) (m : Runs) : RunStoreResult (option RunRecord * Runs) :=
  Ok (m !! id, m).

Class RunStoreLaws (St : Type) `{RunStore St} := {
  runs_repr : St -> Runs -> Prop;
  repr_wf_law : forall s m, runs_repr s m ->
    (forall id r, m !! id = Some r -> rr_run_id r = id) /\
    (forall i j r q, m !! i = Some r -> m !! j = Some q ->
      run_is_active r = true -> run_is_active q = true -> lane r = lane q -> i = j);
  create_run_law : forall record, refines runs_repr (create_run record) (spec_create record);
  claim_run_law : forall now x, refines runs_repr (claim_run now x) (spec_claim now x);
  renew_claim_law : forall n1 n2 id g,
    refines runs_repr (renew_claim n1 n2 id g) (spec_renew n1 n2 id g);
  release_claim_law : forall now x, refines runs_repr (release_claim now x) (spec_release now x);
  complete_run_law : forall now x, refines runs_repr (complete_run now x) (spec_complete now x);
  fail_run_law : forall now x, refines runs_repr (fail_run now x) (spec_fail now x);
  record_continuation_law : forall now x,
    refines runs_repr (record_continuation now x) (spec_continue now x);
  queue_retry_law : forall now x, refines runs_repr (queue_retry now x) (spec_retry now x);
  start_retry_attempt_law : forall x,
    refines runs_repr (start_retry_attempt x) (spec_start_retry x);
  get_run_law : forall id, refines runs_repr (get_run id) (spec_get id)
}.

(** *** Calls and sequences of calls *)

Inductive RunOp :=
| OpCreate (record : RunRecord)
| OpClaim (now : DateTime) (request : ClaimRequest)
| OpRenew (now1 now2 : DateTime) (run_id : RunId) (generation : ClaimGeneration)
| OpRelease (now : DateTime) (release : ClaimRelease)
| OpComplete (now : DateTime) (completion : RunCompletion)
| OpFail (now : DateTime) (failure : RunFailure)
| OpContinue (now : DateTime) (continuation : RunContinuation)
| OpRetry (now : DateTime) (retry : RunRetry)
| OpStartRetry (request : RetryAttemptRequest).

Definition spec_op (op : RunOp) (m : Runs) : RunStoreResult Runs :=
  match op with
  | OpCreate record => let? (_, m') := spec_create record m in Ok m'
  | OpClaim now request => let? (_, m') := spec_claim now request m in Ok m'
  | OpRenew now1 now2 id g => let? (_, m') := spec_renew now1 now2 id g m in Ok m'
  | OpRelease now release => let? (_, m') := spec_release now release m in Ok m'
  | OpComplete now completion => let? (_, m') := spec_complete now completion m in Ok m'
  | OpFail now failure => let? (_, m') := spec_fail now failure m in Ok m'
  | OpContinue now continuation => let? (_, m') := spec_continue now continuation m in Ok m'
  | OpRetry now retry => let? (_, m') := spec_retry now retry m in Ok m'
  | OpStartRetry request => let? (_, m') := spec_start_retry request m in Ok m'
  end.

(** [run_steps m ops m']: the calls [ops], in this order; a refused one leaves
    the store as it is. *)
Inductive run_steps : Runs -> list RunOp -> Runs -> Prop :=
| run_steps_nil m : run_steps m [] m
| run_steps_ok m op m1 ops m' :
    spec_op op m = Ok m1 -> run_steps m1 ops m' -> run_steps m (op :: ops) m'
| run_steps_err m op e ops m' :
    spec_op op m = Err e -> run_steps m ops m' -> run_steps m (op :: ops) m'.

(** The run an operation mutates with a claim generation, if it does. *)
Definition fenced_by (op : RunOp) : option (RunId * ClaimGeneration) :=
  match op with
  | OpCreate _ | OpClaim _ _ => None
  | OpRenew _ _ id g => Some (id, g)
  | OpRelease _ x => Some (cl_run_id x, cl_generation x)
  | OpComplete _ x => Some (rc_run_id x, rc_generation x)
  | OpFail _ x => Some (rf_run_id x, rf_generation x)
  | OpContinue _ x => Some (rn_run_id x, rn_generation x)
  | OpRetry _ x => Some (rt_run_id x, rt_generation x)
  | OpStartRetry x => Some (ra_queued_run_id x, ra_generation x)
  end.

(** ** Invariant *)

Record runs_wf (m : Runs) : Prop := {
  runs_own_id : forall id r, m !! id = Some r -> rr_run_id r = id;
  runs_lane_unique : forall i j r q,
    m !! i = Some r -> m !! j = Some q -> run_is_active r = true -> run_is_active q = true ->
    lane r = lane q -> i = j
}.

Lemma active_in_lane_Some m l id :
  active_in_lane m l = Some id ->
  exists r, m !! id = Some r /\ run_is_active r = true /\ lane r = l.
Proof.
  unfold active_in_lane. intros H. apply head_Some_elem_of, list_elem_of_fmap in H as [[i r] [-> Hin]].
  apply list_elem_of_filter in Hin as [[??] Hin]. apply elem_of_map_to_list in Hin. by eauto.
Qed.

Lemma active_in_lane_None m l id r :
  active_in_lane m l = None -> m !! id = Some r -> run_is_active r = true -> lane r <> l.
Proof.
  unfold active_in_lane. intros H Hid Hr Hl. apply head_None in H.
  assert (Hin : (id, r) ∈ filter (fun kv => run_is_active kv.2 = true /\ lane kv.2 = l) (map_to_list m)).
  { apply list_elem_of_filter. by rewrite elem_of_map_to_list. }
  apply fmap_nil_inv in H. rewrite H in Hin. by apply elem_of_nil in Hin.
Qed.

Lemma active_in_lane_unique m id r :
  runs_wf m -> m !! id = Some r -> run_is_active r = true -> active_in_lane m (lane r) = Some id.
Proof.
  intros Hwf Hid Hr. destruct (active_in_lane m (lane r)) as [j|] eqn:E.
  - apply active_in_lane_Some in E as (q & Hj & Hq & Hl). f_equal.
    by eapply (runs_lane_unique m Hwf).
  - by destruct (active_in_lane_None _ _ _ _ E Hid Hr).
Qed.

(** What every accepted update of a record keeps. *)
Record advances (r r' : RunRecord) : Prop := {
  adv_id : rr_run_id r' = rr_run_id r;
  adv_lane : lane r' = lane r;
  adv_active : run_is_active r = true;
  adv_generation : (rr_claim_generation r <= u64_max)%Z ->
    (rr_claim_generation r <= rr_claim_generation r' <= u64_max)%Z
}.

Lemma guard_claim_ok now g to r :
  guard_claim now g to r = Ok tt <->
  rr_claim_generation r = g /\ RunStatus.has_active_claim (rr_status r) = true /\
  claim_is_expired_at r now = false.
Proof.
  unfold guard_claim, ensure_generation, ensure_unexpired.
  destruct (Z.eqb_spec (rr_claim_generation r) g); cbn; [|naive_solver].
  destruct (RunStatus.has_active_claim (rr_status r)); cbn; [|naive_solver].
  destruct (claim_is_expired_at r now); naive_solver.
Qed.

Lemma guard_claim_stale now g to r :
  rr_claim_generation r <> g ->
  guard_claim now g to r =
    Err (RunStoreError.StaleGeneration (rr_run_id r) (rr_claim_generation r) g).
Proof.
  intros Hne. unfold guard_claim, ensure_generation. by destruct (Z.eqb_spec (rr_claim_generation r) g).
Qed.

Lemma has_active_claim_active r :
  RunStatus.has_active_claim (rr_status r) = true -> run_is_active r = true.
Proof. unfold run_is_active. by destruct (rr_status r). Qed.

Lemma can_claim_active now r : can_claim now r = true -> run_is_active r = true.
Proof. unfold can_claim, run_is_active. by destruct (rr_status r). Qed.

(** Inverts a record-level update that succeeded. *)
Ltac inv_guard H :=
  unfold renew_record, release_record, complete_record, fail_record, continue_record, retry_record in H;
  apply result_bind_Ok in H as ([] & Hguard & H);
  apply guard_claim_ok in Hguard as (Hgen & Hact & Hlive).

Lemma claim_record_advances now req r r' : claim_record now req r = Ok r' -> advances r r'.
Proof.
  unfold claim_record. intros H. case_match; [done|]. destruct (can_claim now r) eqn:Hc; cbn in H.
  - injection H as <-. split; try done; [by eapply can_claim_active|].
    cbn. unfold generation_next, sat_add. lia.
  - by destruct (RunStatus.has_active_claim (rr_status r)).
Qed.

Lemma renew_record_advances n1 n2 g r r' : renew_record n1 n2 g r = Ok r' -> advances r r'.
Proof. intros H. inv_guard H. injection H as <-. split; cbn; auto using has_active_claim_active. lia. Qed.

Lemma release_record_advances now x r r' : release_record now x r = Ok r' -> advances r r'.
Proof. intros H. inv_guard H. injection H as <-. split; cbn; auto using has_active_claim_active. lia. Qed.

Lemma complete_record_advances now x r r' : complete_record now x r = Ok r' -> advances r r'.
Proof. intros H. inv_guard H. injection H as <-. split; cbn; auto using has_active_claim_active. lia. Qed.

Lemma fail_record_advances now x r r' : fail_record now x r = Ok r' -> advances r r'.
Proof. intros H. inv_guard H. injection H as <-. split; cbn; auto using has_active_claim_active. lia. Qed.

Lemma continue_record_advances now x r r' : continue_record now x r = Ok r' -> advances r r'.
Proof.
  intros H. inv_guard H. case_match; [done|]. injection H as <-.
  split; cbn; auto using has_active_claim_active. lia.
Qed.

Lemma retry_record_advances now x r r' : retry_record now x r = Ok r' -> advances r r'.
Proof. intros H. inv_guard H. injection H as <-. split; cbn; auto using has_active_claim_active. lia. Qed.

#[export] Hint Resolve claim_record_advances renew_record_advances release_record_advances
  complete_record_advances fail_record_advances continue_record_advances retry_record_advances
  : brehon.

(** ** Elementary changes of the store *)

Inductive run_change : Runs -> Runs -> Prop :=
| change_update id r r' m :
    m !! id = Some r -> advances r r' -> run_change m (<[id := r']> m)
| change_create r m :
    m !! rr_run_id r = None ->
    (run_is_active r = true ->
     forall j q, m !! j = Some q -> run_is_active q = true -> lane q <> lane r) ->
    run_change m (<[rr_run_id r := r]> m).

Lemma run_change_wf m m' : run_change m m' -> runs_wf m -> runs_wf m'.
Proof.
  intros [id r r' m0 Hid Hadv|r m0 Hid Hfree] [Hown Huniq]; split.
  - intros i q. rewrite lookup_insert_Some. intros [[<- <-]|[_ ?]]; [|eauto].
    rewrite (adv_id _ _ Hadv). eauto.
  - intros i j p q. rewrite !lookup_insert_Some.
    intros [[<- <-]|[Hi Hp]] [[<- <-]|[Hj Hq]] Hap Haq Hl; [done|..].
    + eapply Huniq; [exact Hid|exact Hq|apply Hadv|done|]. by rewrite <-(adv_lane _ _ Hadv).
    + eapply Huniq; [exact Hp|exact Hid|done|apply Hadv|]. by rewrite <-(adv_lane _ _ Hadv).
    + by eapply Huniq.
  - intros i q. rewrite lookup_insert_Some. intros [[<- <-]|[_ ?]]; [done|eauto].
  - intros i j p q. rewrite !lookup_insert_Some.
    intros [[<- <-]|[Hi Hp]] [[<- <-]|[Hj Hq]] Hap Haq Hl; [done|..].
    + by destruct (Hfree Hap j q).
    + by destruct (Hfree Haq i p).
    + by eapply Huniq.
Qed.

(** What a change leaves of a record: a terminal one is untouched, the
    generation of any other does not decrease. *)
Lemma run_change_record m m' id r :
  run_change m m' -> m !! id = Some r ->
  exists r', m' !! id = Some r' /\
    (run_is_active r = false -> r' = r) /\
    ((rr_claim_generation r <= u64_max)%Z ->
     (rr_claim_generation r <= rr_claim_generation r' <= u64_max)%Z).
Proof.
  intros [i q q' m0 Hi Hadv|q m0 Hi Hfree] Hid.
  - destruct (decide (id = i)) as [->|Hne]; [rewrite lookup_insert_eq|rewrite lookup_insert_ne by done].
    + simplify_eq. exists q'. split_and!; [done| |apply Hadv].
      intros Ht. by rewrite (adv_active _ _ Hadv) in Ht.
    + exists r. split_and!; [done..|lia].
  - rewrite lookup_insert_ne by congruence. exists r. split_and!; [done..|lia].
Qed.

Lemma run_changes_wf m m' : rtc run_change m m' -> runs_wf m -> runs_wf m'.
Proof. induction 1; eauto using run_change_wf. Qed.

Lemma run_changes_record m m' id r :
  rtc run_change m m' -> m !! id = Some r ->
  exists r', m' !! id = Some r' /\
    (run_is_active r = false -> r' = r) /\
    ((rr_claim_generation r <= u64_max)%Z ->
     (rr_claim_generation r <= rr_claim_generation r' <= u64_max)%Z).
Proof.
  intros Hc. revert r. induction Hc as [m|m m1 m' H1 _ IH]; intros r Hid.
  - exists r. split_and!; [done..|lia].
  - destruct (run_change_record _ _ _ _ H1 Hid) as (r1 & Hid1 & Ht1 & Hg1).
    destruct (IH r1 Hid1) as (r' & Hid' & Ht' & Hg'). exists r'. split_and!; [done| |].
    + intros Ht. rewrite <-(Ht1 Ht) in Ht |- *. auto.
    + intros Hmax. specialize (Hg1 Hmax). lia.
Qed.

Lemma spec_update_change id f m x m' :
  (forall r r', f r = Ok r' -> advances r r') ->
  spec_update id f m = Ok (x, m') -> rtc run_change m m'.
Proof.
  intros Hf. unfold spec_update. destruct (m !! id) as [r|] eqn:Hid; [|done].
  intros (r' & Hr & [= <- <-])%result_bind_Ok. apply rtc_once. by eapply change_update; eauto.
Qed.

Lemma spec_create_change r m x m' : spec_create r m = Ok (x, m') -> rtc run_change m m'.
Proof.
  unfold spec_create. destruct (m !! rr_run_id r) eqn:Hid; [done|].
  intros H. case_match eqn:Hdup; [done|]. injection H as <- <-. apply rtc_once.
  set (r' := r <| rr_updated_at := rr_created_at r |>).
  apply (change_create r' m Hid). intros Hr j q Hj Hq. change (run_is_active r = true) in Hr.
  rewrite Hr in Hdup. eapply active_in_lane_None; eauto.
Qed.

Lemma close_queued_advances request queued :
  rr_status queued = RunStatus.RetryQueued -> advances queued (close_queued request queued).
Proof. intros Hs. split; cbn; [done..| |lia]. unfold run_is_active. by rewrite Hs. Qed.

Lemma check_retry_attempt_ok request queued :
  check_retry_attempt request queued = Ok tt <->
  rr_claim_generation queued = ra_generation request /\
  rr_status queued = RunStatus.RetryQueued /\
  retry_is_due_at queued (ra_created_at request) = true.
Proof.
  unfold check_retry_attempt, ensure_generation, retry_is_due_at.
  destruct (Z.eqb_spec (rr_claim_generation queued) (ra_generation request)); cbn; [|naive_solver].
  case_bool_decide; cbn; [|naive_solver].
  destruct (rr_retry_at queued) as [t|]; [|naive_solver].
  destruct (Z.ltb_spec (ra_created_at request) t).
  - rewrite (proj2 (Z.leb_gt _ _)) by lia. naive_solver.
  - rewrite (proj2 (Z.leb_le _ _)) by lia. naive_solver.
Qed.

Lemma spec_start_retry_inv request m started m' :
  runs_wf m -> spec_start_retry request m = Ok (started, m') ->
  exists queued, m !! ra_queued_run_id request = Some queued /\
    rr_status queued = RunStatus.RetryQueued /\
    rr_claim_generation queued = ra_generation request /\
    retry_is_due_at queued (ra_created_at request) = true /\
    m !! ra_new_run_id request = None /\
    started = mkRetryAttemptStarted (close_queued request queued) (next_attempt request queued) /\
    m' = <[ra_new_run_id request := next_attempt request queued]>
           (<[ra_queued_run_id request := close_queued request queued]> m).
Proof.
  intros Hwf. unfold spec_start_retry.
  destruct (m !! ra_queued_run_id request) as [queued|] eqn:Hq; [|done].
  intros ([] & (Hg & Hs & Hd)%check_retry_attempt_ok & H)%result_bind_Ok.
  destruct (m !! ra_new_run_id request) eqn:Hn; [done|]. exists queued.
  assert (Hlane : active_in_lane m (lane (next_attempt request queued)) = Some (ra_queued_run_id request)).
  { apply (active_in_lane_unique m _ queued Hwf Hq). unfold run_is_active. by rewrite Hs. }
  rewrite Hlane in H. rewrite bool_decide_eq_true_2 in H by (by rewrite (runs_own_id m Hwf _ _ Hq)).
  injection H as <- <-. done.
Qed.

Lemma spec_start_retry_change request m started m' :
  runs_wf m -> spec_start_retry request m = Ok (started, m') -> rtc run_change m m'.
Proof.
  intros Hwf H. destruct (spec_start_retry_inv _ _ _ _ Hwf H) as (queued & Hq & Hs & _ & _ & Hn & _ & ->).
  eapply rtc_l; [eapply change_update; [exact Hq|by apply close_queued_advances]|].
  apply rtc_once. apply (change_create (next_attempt request queued)).
  - cbn. by rewrite lookup_insert_ne by congruence.
  - intros _ j q. rewrite lookup_insert_Some. intros [[<- <-]|[Hne Hj]] Haq Hl; [done|].
    apply Hne. eapply (runs_lane_unique m Hwf); [exact Hq|exact Hj| |done|done].
    unfold run_is_active. by rewrite Hs.
Qed.

Lemma spec_op_changes op m m' : runs_wf m -> spec_op op m = Ok m' -> rtc run_change m m'.
Proof.
  intros Hwf. destruct op; cbn [spec_op]; intros ([x m1] & H & [= <-])%result_bind_Ok;
    first [by eapply spec_create_change|by eapply spec_start_retry_change
          |eapply spec_update_change; [|exact H]; solve [eauto with brehon]].
Qed.

Lemma run_steps_changes m ops m' : runs_wf m -> run_steps m ops m' -> rtc run_change m m'.
Proof.
  intros Hwf Hs. induction Hs as [m|m op m1 ops m' H1 _ IH|m op e ops m' _ _ IH]; [done| |auto].
  pose proof (spec_op_changes _ _ _ Hwf H1) as Hc. transitivity m1; [done|].
  apply IH. by eapply run_changes_wf.
Qed.

Lemma runs_empty_wf : runs_wf ∅.
Proof. split; intros *; rewrite lookup_empty; done. Qed.

Lemma steps_wf ops m : run_steps ∅ ops m -> runs_wf m.
Proof. eauto using run_changes_wf, run_steps_changes, runs_empty_wf. Qed.

Lemma spec_op_wf op m m' : runs_wf m -> spec_op op m = Ok m' -> runs_wf m'.
Proof. eauto using run_changes_wf, spec_op_changes. Qed.

(** The store after a sequence of calls, as a function. *)
Definition run_ops (ops : list RunOp) (m : Runs) : Runs :=
  foldl (fun m op => match spec_op op m with Ok m' => m' | Err _ => m end) m ops.

Lemma run_ops_steps ops m : run_steps m ops (run_ops ops m).
Proof.
  revert m. induction ops as [|op ops IH]; intros m; [constructor|]. cbn.
  destruct (spec_op op m) eqn:E; [by eapply run_steps_ok|by eapply run_steps_err].
Qed.

(** *** Fencing and frame *)

(** The runs an accepted call writes. *)
Definition writes (op : RunOp) : list RunId :=
  match op with
  | OpCreate r => [rr_run_id r]
  | OpClaim _ x => [cr_run_id x]
  | OpRenew _ _ id _ => [id]
  | OpRelease _ x => [cl_run_id x]
  | OpComplete _ x => [rc_run_id x]
  | OpFail _ x => [rf_run_id x]
  | OpContinue _ x => [rn_run_id x]
  | OpRetry _ x => [rt_run_id x]
  | OpStartRetry x => [ra_queued_run_id x; ra_new_run_id x]
  end.

Lemma spec_update_inv id f m x m' :
  spec_update id f m = Ok (x, m') ->
  exists r, m !! id = Some r /\ f r = Ok x /\ m' = <[id := x]> m.
Proof.
  unfold spec_update. destruct (m !! id) as [r|]; [|done].
  intros (r' & Hr & [= <- <-])%result_bind_Ok. by eauto.
Qed.

Lemma spec_op_frame op m m' id :
  spec_op op m = Ok m' -> id ∉ writes op -> m' !! id = m !! id.
Proof.
  intros H Hid. destruct op; cbn [spec_op writes] in *; apply result_bind_Ok in H as ([x m1] & H & [= <-]);
    try (apply spec_update_inv in H as (r & _ & _ & ->); apply lookup_insert_ne; set_solver).
  - unfold spec_create in H. destruct (m !! rr_run_id record); [done|].
    case_match; [done|]. injection H as <- <-. apply lookup_insert_ne. set_solver.
  - unfold spec_start_retry in H. destruct (m !! ra_queued_run_id request); [|done].
    apply result_bind_Ok in H as (_ & _ & H). destruct (m !! ra_new_run_id request); [done|].
    assert (Hfr : forall c n, (<[ra_new_run_id request := n]> (<[ra_queued_run_id request := c]> m) : Runs) !! id = m !! id).
    { intros c n. rewrite !lookup_insert_ne by set_solver. done. }
    repeat case_match; simplify_eq; apply Hfr.
Qed.

(** A new run or a retry attempt does not overwrite an existing run. *)
Lemma spec_op_fresh op m m' id :
  spec_op op m = Ok m' -> is_Some (m !! id) ->
  (forall r, op = OpCreate r -> rr_run_id r <> id) /\
  (forall x, op = OpStartRetry x -> ra_new_run_id x <> id).
Proof.
  intros H [r Hr]. split; intros x -> <-; cbn [spec_op] in H;
    apply result_bind_Ok in H as ([y m1] & H & _).
  - unfold spec_create in H. by rewrite Hr in H.
  - unfold spec_start_retry in H. destruct (m !! ra_queued_run_id x); [|done].
    apply result_bind_Ok in H as (_ & _ & H). by rewrite Hr in H.
Qed.

(** A fenced call is refused unless it carries the current generation. *)
Lemma fenced_stale op m id g r :
  fenced_by op = Some (id, g) -> m !! id = Some r -> rr_claim_generation r <> g ->
  spec_op op m = Err (RunStoreError.StaleGeneration (rr_run_id r) (rr_claim_generation r) g).
Proof.
  intros Hf Hid Hg. destruct op; cbn in Hf; simplify_eq; cbn [spec_op];
    unfold spec_renew, spec_release, spec_complete, spec_fail, spec_continue, spec_retry,
      spec_update, spec_start_retry; rewrite Hid;
    unfold renew_record, release_record, complete_record, fail_record, continue_record, retry_record;
    try (by rewrite guard_claim_stale).
  unfold check_retry_attempt, ensure_generation.
  by destruct (Z.eqb_spec (rr_claim_generation r) (ra_generation request)).
Qed.

(** While a lease lasts, a call that is neither the holder's nor a new claim
    after the lease's end cannot change the run. *)
Definition not_holder (id : RunId) (g : ClaimGeneration) (expires : DateTime) (op : RunOp) : Prop :=
  fenced_by op <> Some (id, g) /\
  forall now request, op = OpClaim now request -> cr_run_id request = id -> (now < expires)%Z.

Lemma claimed_run_stable op m m' id r e :
  runs_wf m -> m !! id = Some r ->
  rr_status r = RunStatus.Claimed -> rr_lease_expires_at r = Some e ->
  not_holder id (rr_claim_generation r) e op ->
  spec_op op m = Ok m' -> m' !! id = Some r.
Proof.
  intros Hwf Hid Hs He [Hnf Hnc] H.
  destruct (decide (id ∈ writes op)) as [Hw|Hw]; [|by rewrite (spec_op_frame _ _ _ _ H Hw)].
  exfalso. destruct (spec_op_fresh op m m' id H) as [Hfc Hfr]; [by eauto|].
  assert (Hfenced : forall i g, fenced_by op = Some (i, g) -> i <> id).
  { intros i g Hop ->. destruct (decide (rr_claim_generation r = g)) as [<-|Hg]; [done|].
    rewrite (fenced_stale _ _ _ _ _ Hop Hid Hg) in H. done. }
  destruct op; cbn [writes fenced_by] in *;
    try (apply list_elem_of_singleton in Hw as ->; by eapply Hfenced).
  - apply list_elem_of_singleton in Hw as ->. by eapply Hfc.
  - apply list_elem_of_singleton in Hw as ->. specialize (Hnc _ _ eq_refl eq_refl).
    cbn [spec_op] in H. apply result_bind_Ok in H as ([x m1] & H & _).
    apply spec_update_inv in H as (r0 & Hr0 & Hc & _). simplify_eq.
    unfold claim_record, can_claim, retry_is_due_at, claim_is_expired_at in Hc.
    rewrite Hs, He in Hc. cbn in Hc. rewrite (proj2 (Z.leb_gt _ _)) in Hc by done. done.
  - apply elem_of_cons in Hw as [->|Hw%list_elem_of_singleton]; [by eapply Hfenced|by eapply Hfr].
Qed.

(** *** Clients of the port: traces of calls and their outcomes *)

Section traces.
Context {St : Type} `{RunStoreLaws St}.

Definition exec_op (op : RunOp) : SM St RunStoreError unit :=
  match op with
  | OpCreate record => let! _ := create_run record in sm_ret tt
  | OpClaim now x => let! _ := claim_run now x in sm_ret tt
  | OpRenew n1 n2 id g => let! _ := renew_claim n1 n2 id g in sm_ret tt
  | OpRelease now x => let! _ := release_claim now x in sm_ret tt
  | OpComplete now x => let! _ := complete_run now x in sm_ret tt
  | OpFail now x => let! _ := fail_run now x in sm_ret tt
  | OpContinue now x => let! _ := record_continuation now x in sm_ret tt
  | OpRetry now x => let! _ := queue_retry now x in sm_ret tt
  | OpStartRetry x => let! _ := start_retry_attempt x in sm_ret tt
  end.

Fixpoint exec_ops (ops : list RunOp) (s : St) : St * list (RunStoreResult unit) :=
  match ops with
  | [] => (s, [])
  | op :: ops =>
      let '(s1, r) := exec_op op s in
      let '(s2, rs) := exec_ops ops s1 in (s2, r :: rs)
  end.
End traces.

(** [port_trace m ops outcomes m']: calls and the outcomes the caller saw.  An
    outcome that is not an I/O error is the one of the abstract store; a call
    that failed with an I/O error has happened or not. *)
Inductive port_trace : Runs -> list RunOp -> list (RunStoreResult unit) -> Runs -> Prop :=
| trace_nil m : port_trace m [] [] m
| trace_ok m op m1 ops rs m' :
    spec_op op m = Ok m1 -> port_trace m1 ops rs m' -> port_trace m (op :: ops) (Ok tt :: rs) m'
| trace_err m op e ops rs m' :
    spec_op op m = Err e -> port_trace m ops rs m' -> port_trace m (op :: ops) (Err e :: rs) m'
| trace_io_lost m op e ops rs m' :
    is_io_error e = true -> port_trace m ops rs m' -> port_trace m (op :: ops) (Err e :: rs) m'
| trace_io_done m op e m1 ops rs m' :
    is_io_error e = true -> spec_op op m = Ok m1 -> port_trace m1 ops rs m' ->
    port_trace m (op :: ops) (Err e :: rs) m'.

(** Whatever failed, the store went through the calls of a sublist. *)
Lemma port_trace_steps m ops rs m' :
  port_trace m ops rs m' -> exists ops', ops' `sublist_of` ops /\ run_steps m ops' m'.
Proof.
  induction 1 as [m|m op m1 ops rs m' H1 _ (ops' & ? & ?)|m op e ops rs m' H1 _ (ops' & ? & ?)
    |m op e ops rs m' _ _ (ops' & ? & ?)|m op e m1 ops rs m' _ H1 _ (ops' & ? & ?)].
  - exists []. split; [done|constructor].
  - exists (op :: ops'). split; [by constructor|by eapply run_steps_ok].
  - exists (op :: ops'). split; [by constructor|by eapply run_steps_err].
  - exists ops'. split; [by constructor|done].
  - exists (op :: ops'). split; [by constructor|by eapply run_steps_ok].
Qed.

(** Forgetting the value a call returns. *)
Lemma refines_op {St A} (repr : St -> Runs -> Prop) (op : SM St RunStoreError A) spec (rop : RunOp) :
  refines repr op spec -> (forall m, spec_op rop m = result_bind (spec m) (fun '(_, m') => Ok m')) ->
  forall s m, repr s m ->
  match (let! _ := op in sm_ret tt) s with
  | (s', Ok _) => exists m', spec_op rop m = Ok m' /\ repr s' m'
  | (s', Err e) => (spec_op rop m = Err e /\ repr s' m) \/
      (is_io_error e = true /\ (repr s' m \/ exists m', spec_op rop m = Ok m' /\ repr s' m'))
  end.
Proof.
  intros Href Hspec s m Hr. specialize (Href s m Hr). rewrite !Hspec. unfold sm_bind.
  destruct (op s) as [s' [a|e]]; cbn.
  - destruct Href as (m' & -> & ?). by eauto.
  - destruct Href as [[-> ?]|[? [?|(a & m' & -> & ?)]]]; eauto 6.
Qed.

Lemma exec_op_refines {St} `{RunStoreLaws St} op s m :
  runs_repr s m ->
  match exec_op op s with
  | (s', Ok _) => exists m', spec_op op m = Ok m' /\ runs_repr s' m'
  | (s', Err e) => (spec_op op m = Err e /\ runs_repr s' m) \/
      (is_io_error e = true /\
       (runs_repr s' m \/ exists m', spec_op op m = Ok m' /\ runs_repr s' m'))
  end.
Proof.
  destruct op; cbn [exec_op]; eapply refines_op;
    [apply create_run_law|reflexivity|apply claim_run_law|reflexivity|apply renew_claim_law|reflexivity
    |apply release_claim_law|reflexivity|apply complete_run_law|reflexivity|apply fail_run_law|reflexivity
    |apply record_continuation_law|reflexivity|apply queue_retry_law|reflexivity
    |apply start_retry_attempt_law|reflexivity].
Qed.

Lemma exec_ops_trace {St} `{RunStoreLaws St} ops : forall s m,
  runs_repr s m ->
  exists m', port_trace m ops (exec_ops ops s).2 m' /\ runs_repr (exec_ops ops s).1 m'.
Proof.
  induction ops as [|op ops IH]; intros s m Hr; cbn [exec_ops].
  { exists m. split; [constructor|done]. }
  pose proof (exec_op_refines op s m Hr) as Hop. destruct (exec_op op s) as [s1 [[]|e]].
  - destruct Hop as (m1 & Hs & Hr1). destruct (IH s1 m1 Hr1) as (m' & Ht & Hr').
    destruct (exec_ops ops s1) as [s2 rs]. exists m'. split; [by eapply trace_ok|done].
  - destruct Hop as [[Hs Hr1]|[He [Hr1|(m1 & Hs & Hr1)]]];
      destruct (IH s1 _ Hr1) as (m' & Ht & Hr'); destruct (exec_ops ops s1) as [s2 rs]; exists m';
      (split; [|done]); [by eapply trace_err|by eapply trace_io_lost|by eapply trace_io_done].
Qed.

(** ** Properties *)


(** a terminal run is final.  Once a run is [Completed], [Failed] or
    [Abandoned], no later sequence of calls changes any field of its record or
    removes it. *)
Theorem terminal_run_is_final ops0 m ops m' id r :
  run_steps ∅ ops0 m -> run_steps m ops m' ->
  m !! id = Some r -> RunStatus.is_terminal (rr_status r) = true ->
  m' !! id = Some r.
Proof.
  intros Hwf%steps_wf H1 Hid Ht.
  destruct (run_changes_record _ _ _ _ (run_steps_changes _ _ _ Hwf H1) Hid) as (r' & Hr' & Heq & _).
  rewrite Hr'. f_equal. apply Heq. unfold run_is_active. by rewrite Ht.
Qed.

(** C34: fencing.  When a run is claimed, every generation handed out for it
    before becomes useless for good: after the claim and any further calls, a
    renewal, release, completion, failure, continuation, retry queueing or
    retry attempt that carries an older generation [g] is refused with
    [StaleGeneration] and changes nothing.  (Generations saturate at
    [u64::MAX], hence the bound.) *)
Theorem stale_holder_is_fenced ops0 m now request m1 ops m2 r0 g op :
  run_steps ∅ ops0 m ->
  m !! cr_run_id request = Some r0 -> (g <= rr_claim_generation r0 < u64_max)%Z ->
  spec_op (OpClaim now request) m = Ok m1 -> run_steps m1 ops m2 ->
  fenced_by op = Some (cr_run_id request, g) ->
  exists current, (g < current)%Z /\
    spec_op op m2 = Err (RunStoreError.StaleGeneration (cr_run_id request) current g).
Proof.
  intros Hwf%steps_wf Hr0 Hg H1 H2 Hop. pose proof (spec_op_wf _ _ _ Hwf H1) as Hwf1.
  pose proof (run_changes_wf _ _ (run_steps_changes _ _ _ Hwf1 H2) Hwf1) as Hwf2.
  cbn [spec_op] in H1. apply result_bind_Ok in H1 as ([x m1'] & H1 & [= <-]).
  apply spec_update_inv in H1 as (r & Hr & Hc & ->). simplify_eq.
  assert (Hx : rr_claim_generation x = (rr_claim_generation r0 + 1)%Z).
  { unfold claim_record in Hc. case_match; [done|]. case_match; [by case_match|].
    injection Hc as <-. cbn. unfold generation_next, sat_add. lia. }
  destruct (run_changes_record _ _ (cr_run_id request) x (run_steps_changes _ _ _ Hwf1 H2))
    as (r2 & Hr2 & _ & Hmono); [by rewrite lookup_insert_eq|].
  exists (rr_claim_generation r2). split; [lia|].
  rewrite (fenced_stale op m2 _ g r2 Hop Hr2) by lia. by rewrite (runs_own_id _ Hwf2 _ _ Hr2).
Qed.

(** a lease is exclusive.  After a successful claim and until its lease
    expires, no call that does not carry the new generation can change the run
    in any way: whatever other calls are made (on other runs, with other
    generations, or claims of this run at times before the expiry), the record
    is still exactly the one the claim returned. *)
Theorem lease_is_exclusive ops0 m now request r m1 ops m2 :
  run_steps ∅ ops0 m ->
  spec_claim now request m = Ok (r, m1) -> run_steps m1 ops m2 ->
  Forall (not_holder (cr_run_id request) (rr_claim_generation r) (cr_lease_expires_at request)) ops ->
  m2 !! cr_run_id request = Some r /\ rr_claim_owner r = Some (cr_owner request).
Proof.
  intros Hwf%steps_wf H1 H2 Hops.
  assert (Hop1 : spec_op (OpClaim now request) m = Ok m1) by (cbn; by rewrite H1).
  pose proof (spec_op_wf _ _ _ Hwf Hop1) as Hwf1.
  apply spec_update_inv in H1 as (r0 & Hr0 & Hc & ->).
  assert (Hr : rr_status r = RunStatus.Claimed /\ rr_lease_expires_at r = Some (cr_lease_expires_at request)
    /\ rr_claim_owner r = Some (cr_owner request)).
  { unfold claim_record in Hc. case_match; [done|]. case_match; [by case_match|]. by injection Hc as <-. }
  destruct Hr as (Hs & He & Ho). split; [|done]. clear Hop1 Hc.
  assert (Hid : <[cr_run_id request := r]> m !! cr_run_id request = Some r) by apply lookup_insert_eq.
  revert Hwf1 Hid Hops. generalize (<[cr_run_id request := r]> m) as m1, H2. clear H2. intros m1 H2 Hwf1 Hid Hops.
  induction H2 as [m1|m1 op m1' ops m2 Hop _ IH|m1 op e ops m2 _ _ IH];
    [done|apply Forall_cons in Hops as [Ho1 Hops]..]; [|by apply IH].
  apply IH; [by eapply spec_op_wf| |done].
  by eapply claimed_run_stable.
Qed.

(** a retry is started exactly once.  When [start_retry_attempt] succeeds,
    the queued run was in [RetryQueued] with the caller's generation and due;
    it becomes [Failed] for good, a fresh run of the same lane appears with the
    attempt counter increased by one, and no other run changes; every later
    attempt to start a retry of the same queued run is refused. *)
Theorem retry_started_once ops0 m request started m1 ops m2 request' :
  run_steps ∅ ops0 m ->
  spec_start_retry request m = Ok (started, m1) ->
  run_steps m1 ops m2 -> ra_queued_run_id request' = ra_queued_run_id request ->
  (exists queued, m !! ra_queued_run_id request = Some queued /\
     rr_status queued = RunStatus.RetryQueued /\
     rr_claim_generation queued = ra_generation request /\
     retry_is_due_at queued (ra_created_at request) = true /\
     m !! ra_new_run_id request = None /\
     m2 !! ra_queued_run_id request = Some (rs_queued_run started) /\
     rr_status (rs_queued_run started) = RunStatus.Failed /\
     lane (rs_retry_run started) = lane queued /\
     rr_status (rs_retry_run started) = RunStatus.Created /\
     rr_attempt (rs_retry_run started) = sat_add u32_max (rr_attempt queued) 1) /\
  (forall id, id <> ra_queued_run_id request -> id <> ra_new_run_id request -> m1 !! id = m !! id) /\
  is_ok (spec_start_retry request' m2) = false.
Proof.
  intros Hwf%steps_wf H1 H2 Hid.
  assert (Hop : spec_op (OpStartRetry request) m = Ok m1) by (cbn; by rewrite H1).
  pose proof (spec_op_wf _ _ _ Hwf Hop) as Hwf1.
  destruct (spec_start_retry_inv _ _ _ _ Hwf H1) as (queued & Hq & Hs & Hg & Hd & Hn & -> & ->).
  set (closed := close_queued request queued).
  destruct (run_changes_record _ _ (ra_queued_run_id request) closed (run_steps_changes _ _ _ Hwf1 H2))
    as (r2 & Hr2 & Heq & _).
  { rewrite lookup_insert_ne by congruence. apply lookup_insert_eq. }
  rewrite Heq in Hr2 by done. split; [exists queued; done|]. split.
  - intros id ??. by rewrite !lookup_insert_ne.
  - unfold spec_start_retry. rewrite Hid, Hr2.
    destruct (check_retry_attempt request' closed) eqn:E; [|done]. destruct a.
    apply check_retry_attempt_ok in E as (_ & Hst & _). done.
Qed.

(** ** Witnesses *)

Definition sample_run : RunRecord := RunRecord_new "r1" "T-1" RunRole.Worker 0.
Definition claim_a : ClaimRequest := mkClaimRequest "r1" "agent-a" (Some "s1") 10 100.
Definition claim_b : ClaimRequest := mkClaimRequest "r1" "agent-b" None 200 300.
Definition retry_a : RunRetry := mkRunRetry "r1" 1 20 50 "timeout".
Definition attempt_2 : RetryAttemptRequest := mkRetryAttemptRequest "r1" 1 "r2" 60.

(** Created, claimed by [a]; [b] tries in vain before the lease ends. *)
Definition sample_runs : Runs := run_ops [OpCreate sample_run; OpClaim 10 claim_a; OpClaim 99 claim_b] ∅.


Lemma terminal_run_is_final_witness :
  let m := run_ops [OpComplete 50 (mkRunCompletion "r1" 1 50 None)] sample_runs in
  let m' := run_ops [OpClaim 500 claim_b; OpFail 60 (mkRunFailure "r1" 1 60 "late")] m in
  exists r, m !! "r1" = Some r /\ rr_status r = RunStatus.Completed /\ m' !! "r1" = Some r.
Proof.
  intros m m'. destruct (m !! "r1") as [r|] eqn:E; [|vm_compute in E; discriminate].
  assert (Hs : rr_status r = RunStatus.Completed) by (vm_compute in E; injection E as <-; reflexivity).
  exists r. split; [reflexivity|]. split; [exact Hs|].
  assert (Hm : run_steps ∅ ([OpCreate sample_run; OpClaim 10 claim_a; OpClaim 99 claim_b]
    ++ [OpComplete 50 (mkRunCompletion "r1" 1 50 None)]) m).
  { assert (Heq : m = run_ops ([OpCreate sample_run; OpClaim 10 claim_a; OpClaim 99 claim_b]
      ++ [OpComplete 50 (mkRunCompletion "r1" 1 50 None)]) ∅) by (vm_compute; reflexivity).
    rewrite Heq. apply run_ops_steps. }
  apply (terminal_run_is_final _ m _ m' "r1" r Hm (run_ops_steps _ _)); [exact E|].
  rewrite Hs. reflexivity.
Defined.

Lemma stale_holder_is_fenced_witness :
  exists current,
    (1 < current)%Z /\
    spec_op (OpComplete 250 (mkRunCompletion "r1" 1 250 None)) (run_ops [OpClaim 200 claim_b] sample_runs)
    = Err (RunStoreError.StaleGeneration "r1" current 1).
Proof.
  destruct (sample_runs !! "r1") as [r|] eqn:E; [|vm_compute in E; discriminate].
  eapply (stale_holder_is_fenced _ sample_runs 200 claim_b _ [] _ r 1
    (OpComplete 250 (mkRunCompletion "r1" 1 250 None))).
  - apply run_ops_steps.
  - exact E.
  - vm_compute in E. injection E as <-. vm_compute. split; [discriminate|reflexivity].
  - vm_compute. reflexivity.
  - assert (Hm : run_ops [OpClaim 200 claim_b] sample_runs =
      match spec_op (OpClaim 200 claim_b) sample_runs with Ok m => m | Err _ => ∅ end)
      by (vm_compute; reflexivity).
    rewrite Hm. vm_compute. constructor.
  - reflexivity.
Defined.

Lemma lease_is_exclusive_witness :
  exists r, spec_claim 10 claim_a (run_ops [OpCreate sample_run] ∅) = Ok (r, run_ops [OpCreate sample_run; OpClaim 10 claim_a] ∅) /\
    sample_runs !! "r1" = Some r /\ rr_claim_owner r = Some "agent-a".
Proof.
  destruct (spec_claim 10 claim_a (run_ops [OpCreate sample_run] ∅)) as [[r m1]|] eqn:E;
    [|vm_compute in E; discriminate].
  exists r. split; [vm_compute in E |- *; congruence|].
  apply (lease_is_exclusive [OpCreate sample_run] _ 10 claim_a r m1 [OpClaim 99 claim_b]
    sample_runs (run_ops_steps _ _) E).
  - assert (Hm : sample_runs = run_ops [OpClaim 99 claim_b] m1)
      by (vm_compute in E; injection E as <- <-; vm_compute; reflexivity).
    rewrite Hm. apply run_ops_steps.
  - constructor; [|constructor]. split; [discriminate|]. intros now request [= <- <-] _. reflexivity.
Defined.

Lemma retry_started_once_witness :
  let m := run_ops [OpRetry 20 retry_a] sample_runs in
  is_ok (spec_start_retry attempt_2 m) = true /\
  forall started m1, spec_start_retry attempt_2 m = Ok (started, m1) ->
    is_ok (spec_start_retry (mkRetryAttemptRequest "r1" 1 "r3" 70) m1) = false.
Proof.
  intros m. split; [vm_compute; reflexivity|]. intros started m1 H.
  assert (Hm : run_steps ∅ ([OpCreate sample_run; OpClaim 10 claim_a; OpClaim 99 claim_b]
    ++ [OpRetry 20 retry_a]) m).
  { assert (Heq : m = run_ops ([OpCreate sample_run; OpClaim 10 claim_a; OpClaim 99 claim_b]
      ++ [OpRetry 20 retry_a]) ∅) by (vm_compute; reflexivity).
    rewrite Heq. apply run_ops_steps. }
  eapply (retry_started_once _ m attempt_2 started m1 [] m1 (mkRetryAttemptRequest "r1" 1 "r3" 70) Hm H);
    [constructor|reflexivity].
Defined.
