(* ===== verification/RunStore.v ===== *)
(** * The durable run store (brehon-store-fjall/src/run_store.rs)

    [RunStoreManager]: records and their indexes in one partition of the fjall
    key-value store, changed in atomic batches under a mutex, so that calls are
    sequential.  The engine and the JSON codec are parameters: [KvStore] with
    [KvLaws] and [Json] with [JsonLaws] (Kv.v) state the documented behaviour
    the code relies on.  The result of the file is the instance
    [fjall_run_store_laws]: the manager implements the port of [RunPort.v],
    whatever storage errors occur. *)

From Stdlib Require Import Ascii.
From S2P Require Import Prelude StrLib Types Keys Kv RunPort.

(** ** Indexes of a record *)

Definition active_task_role_marker (record : RunRecord) : string :=
  run_active_task_role_key (rr_task_id record) (RunRole.as_str (rr_role record)).

Definition record_index_keys (record : RunRecord) : list string :=
  [run_task_index_key (rr_task_id record) (rr_run_id record)]
  ++ match rr_session_id record with
     | Some session_id => [run_session_index_key session_id (rr_run_id record)]
     | None => []
     end
  ++ match rr_claim_owner record with
     | Some owner => [run_owner_index_key owner (rr_run_id record)]
     | None => []
     end
  ++ if run_is_active record then
       [run_active_role_index_key (RunRole.as_str (rr_role record)) (rr_run_id record);
        run_active_task_role_key (rr_task_id record) (RunRole.as_str (rr_role record))]
     else [].

Definition remove_record_indexes (record : RunRecord) : list BatchOp :=
  BatchRemove <$> record_index_keys record.

Definition insert_record_indexes (record : RunRecord) : list BatchOp :=
  (fun key => BatchInsert key
     (if String.eqb key (active_task_role_marker record) then rr_run_id record else ""))
  <$> record_index_keys record.

Section manager.
Context `{KvLaws} `{JsonLaws RunRecord}.

Abbreviation Store A := (SM kv_state RunStoreError A).

(** ** Private helpers *)

Definition serialize (record : RunRecord) : RunStoreResult string :=
  result_map_err RunStoreError.Serialization (to_vec record).
Definition deserialize (bytes : string) : RunStoreResult RunRecord :=
  result_map_err RunStoreError.Serialization (from_slice bytes).

Definition storage_get (key : string) : Store (option string) := fun s =>
  (s, result_map_err RunStoreError.Storage (kv_get s key)).
Definition storage_remove (key : string) : Store unit := fun s =>
  let '(s', r) := kv_remove key s in (s', result_map_err RunStoreError.Storage r).
Definition storage_commit (ops : list BatchOp) : Store unit := fun s =>
  let '(s', r) := kv_commit ops s in (s', result_map_err RunStoreError.Storage r).

Definition get_run_locked (run_id : RunId) : Store (option RunRecord) :=
  let! value := storage_get (run_record_key run_id) in
  match value with
  | Some bytes => sm_lift (let? record := deserialize bytes in Ok (Some record))
  | None => sm_ret None
  end.

(** The entries of the batch of one record: the indexes of the previous version
    go, the record and its indexes come. *)
Definition record_batch (previous : option RunRecord) (record : RunRecord) (bytes : string)
    : list BatchOp :=
  match previous with Some previous => remove_record_indexes previous | None => [] end
  ++ BatchInsert (run_record_key (rr_run_id record)) bytes :: insert_record_indexes record.

Definition commit_record (previous : option RunRecord) (record : RunRecord) : Store unit :=
  let! bytes := sm_lift (serialize record) in
  storage_commit (record_batch previous record bytes).

Definition find_active_duplicate (record : RunRecord) : Store (option RunId) :=
  let marker := active_task_role_marker record in
  let! value := storage_get marker in
  match value with
  | None => sm_ret None
  | Some value =>
      let existing_id := from_utf8_lossy value in
      if String.eqb existing_id (rr_run_id record) then sm_ret None
      else
        let! existing := get_run_locked existing_id in
        match existing with
        | None => let! _ := storage_remove marker in sm_ret None
        | Some existing =>
            if run_is_active existing then sm_ret (Some existing_id)
            else let! _ := storage_remove marker in sm_ret None
        end
  end.

Definition load_required (run_id : RunId) : Store RunRecord :=
  let! record := get_run_locked run_id in
  match record with
  | Some record => sm_ret record
  | None => sm_lift (Err (RunStoreError.NotFound run_id))
  end.

(** ** Operations *)

Definition fjall_create_run (record : RunRecord) : Store RunRecord :=
  let! existing := get_run_locked (rr_run_id record) in
  match existing with
  | Some _ =>
      sm_lift (Err (RunStoreError.InvalidStatusTransition (rr_run_id record) (rr_status record)
                      (rr_status record)))
  | None =>
      let! duplicate :=
        if run_is_active record then find_active_duplicate record else sm_ret None in
      match duplicate with
      | Some existing_run_id =>
          sm_lift (Err (RunStoreError.DuplicateActiveClaim (rr_task_id record) (rr_role record)
                          existing_run_id))
      | None =>
          let record := record <| rr_updated_at := rr_created_at record |> in
          let! _ := commit_record None record in
          sm_ret record
      end
  end.

(** The shape of the operations that change one record: load it, check and
    update it, commit the new version against the previous one. *)
Definition update_run (run_id : RunId) (f : RunRecord -> RunStoreResult RunRecord)
    : Store RunRecord :=
  let! record := load_required run_id in
  let! record' := sm_lift (f record) in
  let! _ := commit_record (Some record) record' in
  sm_ret record'.

Definition fjall_claim_run (now : DateTime) (request : ClaimRequest) : Store RunRecord :=
  update_run (cr_run_id request) (claim_record now request).
Definition fjall_renew_claim (now1 now2 : DateTime) (run_id : RunId) (generation : ClaimGeneration)
    : Store RunRecord := update_run run_id (renew_record now1 now2 generation).
Definition fjall_release_claim (now : DateTime) (release : ClaimRelease) : Store RunRecord :=
  update_run (cl_run_id release) (release_record now release).
Definition fjall_complete_run (now : DateTime) (completion : RunCompletion) : Store RunRecord :=
  update_run (rc_run_id completion) (complete_record now completion).
Definition fjall_fail_run (now : DateTime) (failure : RunFailure) : Store RunRecord :=
  update_run (rf_run_id failure) (fail_record now failure).
Definition fjall_record_continuation (now : DateTime) (continuation : RunContinuation)
    : Store RunRecord := update_run (rn_run_id continuation) (continue_record now continuation).
Definition fjall_queue_retry (now : DateTime) (retry : RunRetry) : Store RunRecord :=
  update_run (rt_run_id retry) (retry_record now retry).

Definition fjall_start_retry_attempt (request : RetryAttemptRequest) : Store RetryAttemptStarted :=
  let! previous := load_required (ra_queued_run_id request) in
  let! _ := sm_lift (check_retry_attempt request previous) in
  let! existing := get_run_locked (ra_new_run_id request) in
  match existing with
  | Some _ =>
      sm_lift (Err (RunStoreError.InvalidStatusTransition (ra_new_run_id request)
                      RunStatus.Created RunStatus.Created))
  | None =>
      let queued := close_queued request previous in
      let retry_run := next_attempt request previous in
      let! duplicate := find_active_duplicate retry_run in
      let! _ := sm_lift match duplicate with
        | Some existing_run_id =>
            if negb (String.eqb existing_run_id (rr_run_id queued)) then
              Err (RunStoreError.DuplicateActiveClaim (rr_task_id retry_run) (rr_role retry_run)
                     existing_run_id)
            else Ok tt
        | None => Ok tt
        end in
      let! queued_bytes := sm_lift (serialize queued) in
      let! retry_bytes := sm_lift (serialize retry_run) in
      let! _ := storage_commit (record_batch (Some previous) queued queued_bytes
                                ++ record_batch None retry_run retry_bytes) in
      sm_ret (mkRetryAttemptStarted queued retry_run)
  end.

(** The loop over an index scan: the run id is read off the key. *)
Fixpoint load_indexed (keep : RunRecord -> bool) (items : list (Result (string * string) string))
    : Store (list RunRecord) :=
  match items with
  | [] => sm_ret []
  | item :: items =>
      let! (key, _) := sm_lift (result_map_err RunStoreError.Storage item) in
      let run_id := rsplit_last ":" (from_utf8_lossy key) in
      let! record := get_run_locked run_id in
      let! records := load_indexed keep items in
      sm_ret (match record with
              | Some record => if keep record then record :: records else records
              | None => records
              end)
  end.

Definition run_id_leb (a b : RunRecord) : bool := str_leb (rr_run_id a) (rr_run_id b).

Definition fjall_active_runs : Store (list RunRecord) := fun s =>
  (let! records := load_indexed run_is_active (kv_prefix s "index:run:active-role:") in
   sm_ret (sort_by run_id_leb records)) s.

Definition fjall_runs_for_task (task_id : TaskId) : Store (list RunRecord) := fun s =>
  (let! records := load_indexed (fun _ => true) (kv_prefix s (run_task_index_prefix task_id)) in
   sm_ret (sort_by run_id_leb records)) s.
End manager.

(** ** Keys of a record, by family *)

Definition index_store_keys (r : RunRecord) : list StoreKey :=
  [RunTaskIndexKey (rr_task_id r) (rr_run_id r)]
  ++ match rr_session_id r with Some x => [RunSessionIndexKey x (rr_run_id r)] | None => [] end
  ++ match rr_claim_owner r with Some x => [RunOwnerIndexKey x (rr_run_id r)] | None => [] end
  ++ if run_is_active r then
       [RunActiveRoleIndexKey (RunRole.as_str (rr_role r)) (rr_run_id r);
        RunActiveTaskRoleKey (rr_task_id r) (RunRole.as_str (rr_role r))]
     else [].

Lemma record_index_keys_render r : record_index_keys r = render <$> index_store_keys r.
Proof.
  unfold record_index_keys, index_store_keys.
  by destruct (rr_session_id r), (rr_claim_owner r), (run_is_active r).
Qed.

Lemma index_store_keys_family r k : k ∈ index_store_keys r -> key_in_range k /\ key_family k = KeyType.RunIndex.
Proof.
  unfold index_store_keys. destruct (rr_session_id r), (rr_claim_owner r), (run_is_active r); cbn;
    rewrite ?elem_of_cons, elem_of_nil; naive_solver.
Qed.

Lemma elem_of_index_keys r k :
  k ∈ record_index_keys r <-> exists sk, k = render sk /\ sk ∈ index_store_keys r.
Proof. rewrite record_index_keys_render. apply list_elem_of_fmap. Qed.

Lemma elem_of_index_render r sk :
  key_in_range sk -> render sk ∈ record_index_keys r <-> sk ∈ index_store_keys r.
Proof.
  intros Hr. rewrite elem_of_index_keys. split; [|by eauto].
  intros (sk' & Heq & Hin). destruct (index_store_keys_family _ _ Hin) as [Hr' _].
  by rewrite (render_inj _ _ Hr Hr' Heq).
Qed.

(** An index key names its run, except the marker of the lane. *)
Definition key_run_id (k : StoreKey) : option RunId :=
  match k with
  | RunTaskIndexKey _ id | RunSessionIndexKey _ id | RunOwnerIndexKey _ id
  | RunActiveRoleIndexKey _ id => Some id
  | _ => None
  end.

Lemma index_store_keys_inv r k :
  k ∈ index_store_keys r ->
  key_run_id k = Some (rr_run_id r) \/
  (run_is_active r = true /\ k = RunActiveTaskRoleKey (lane r).1 (lane r).2).
Proof.
  unfold index_store_keys.
  destruct (rr_session_id r), (rr_claim_owner r), (run_is_active r); cbn;
    rewrite ?elem_of_cons, elem_of_nil; naive_solver.
Qed.

(** Two records share an index key only when they are the same run, or when
    both are active in one lane and the key is the lane's marker. *)
Lemma index_keys_shared r q k :
  k ∈ record_index_keys r -> k ∈ record_index_keys q ->
  rr_run_id r = rr_run_id q \/
  (run_is_active r = true /\ run_is_active q = true /\ lane r = lane q).
Proof.
  rewrite !elem_of_index_keys. intros (a & -> & Ha) (b & Heq & Hb).
  destruct (index_store_keys_family _ _ Ha) as [Hra _], (index_store_keys_family _ _ Hb) as [Hrb _].
  apply (render_inj _ _ Hra Hrb) in Heq as <-.
  apply index_store_keys_inv in Ha as [Ha|[Ha ->]], Hb as [Hb|[Hb Hk]]; [left; congruence|..].
  - by subst.
  - done.
  - right. split_and!; [done..|]. destruct (lane r), (lane q). cbn in Hk. congruence.
Qed.

Lemma marker_render r :
  active_task_role_marker r = render (RunActiveTaskRoleKey (rr_task_id r) (RunRole.as_str (rr_role r))).
Proof. done. Qed.

Lemma marker_in_keys r q :
  active_task_role_marker r ∈ record_index_keys q <-> run_is_active q = true /\ lane r = lane q.
Proof.
  rewrite marker_render, elem_of_index_render by done. split.
  - intros [Hk|[Ha Hk]]%index_store_keys_inv; [done|]. split; [done|].
    unfold lane in *. injection Hk as -> ->. done.
  - unfold lane. intros [Ha [= -> ->]]. unfold index_store_keys. rewrite Ha.
    rewrite !elem_of_app. right; right; right. right. left.
Qed.

Lemma run_index_prefix r k : k ∈ record_index_keys r -> starts_with "index:run:" k = true.
Proof.
  rewrite elem_of_index_keys. intros (sk & -> & Hin).
  destruct (index_store_keys_family _ _ Hin) as [_ Hf]. by destruct sk.
Qed.

Lemma record_key_not_index id : starts_with "index:run:" (run_record_key id) = false.
Proof. done. Qed.

Lemma run_record_key_inj i j : run_record_key i = run_record_key j -> i = j.
Proof. intros Heq. by injection (render_inj (RunRecordKey i) (RunRecordKey j) I I Heq). Qed.

(** ** Batches *)

Definition previous_keys (previous : option RunRecord) : list string :=
  match previous with Some previous => record_index_keys previous | None => [] end.

(** What a record's batch leaves at a key. *)
Lemma record_batch_lookup previous record bytes c k :
  apply_batch (record_batch previous record bytes) c !! k =
  if decide (k ∈ record_index_keys record) then
    Some (if String.eqb k (active_task_role_marker record) then rr_run_id record else "")
  else if decide (k = run_record_key (rr_run_id record)) then Some bytes
  else if decide (k ∈ previous_keys previous) then None
  else c !! k.
Proof.
  unfold record_batch. rewrite apply_batch_app.
  change (BatchInsert (run_record_key (rr_run_id record)) bytes :: insert_record_indexes record)
    with ([BatchInsert (run_record_key (rr_run_id record)) bytes] ++ insert_record_indexes record).
  rewrite apply_batch_app. unfold insert_record_indexes.
  rewrite (apply_inserts (fun key =>
    if String.eqb key (active_task_role_marker record) then rr_run_id record else "")).
  destruct (decide (k ∈ record_index_keys record)); [done|]. rewrite apply_batch_one.
  destruct (decide (k = run_record_key (rr_run_id record))) as [->|Hne].
  - by rewrite lookup_insert_eq.
  - rewrite lookup_insert_ne by done. destruct previous as [previous|]; cbn [previous_keys].
    + apply apply_removes.
    + by rewrite decide_False by apply not_elem_of_nil.
Qed.

(** ** What the contents of the partition mean *)

Section representation.
Context `{JsonLaws RunRecord}.

(** The contents [c] hold the runs [m]: every run's record under its key and
    nothing else there; the index keys are exactly those of the records; the
    marker of a lane holds the id of its active run. *)
Record represents (c : gmap string string) (m : Runs) : Prop := {
  rep_wf : runs_wf m;
  rep_record : forall id r, m !! id = Some r ->
    exists b, c !! run_record_key id = Some b /\ from_slice b = Ok r;
  rep_no_record : forall id, m !! id = None -> c !! run_record_key id = None;
  rep_index : forall k, starts_with "index:run:" k = true ->
    is_Some (c !! k) <-> exists id r, m !! id = Some r /\ k ∈ record_index_keys r;
  rep_marker : forall id r, m !! id = Some r -> run_is_active r = true ->
    c !! active_task_role_marker r = Some id
}.

Lemma represents_empty : represents ∅ ∅.
Proof.
  split.
  - apply runs_empty_wf.
  - intros id r. by rewrite lookup_empty.
  - intros. apply lookup_empty.
  - intros k _. rewrite lookup_empty. split; [by intros []|]. intros (id & r & Hr & _).
    by rewrite lookup_empty in Hr.
  - intros id r. by rewrite lookup_empty.
Qed.

(** An index key that the new record does not have belongs to a stored record
    exactly when it is not one of the previous version's. *)
Lemma index_key_moves m r' k :
  runs_wf m -> runs_wf (<[rr_run_id r' := r']> m) -> k ∉ record_index_keys r' ->
  (exists id r, <[rr_run_id r' := r']> m !! id = Some r /\ k ∈ record_index_keys r) <->
  (k ∉ previous_keys (m !! rr_run_id r')) /\ exists id r, m !! id = Some r /\ k ∈ record_index_keys r.
Proof.
  intros Hwf Hwf' Hk. split.
  - intros (id & r & [[<- <-]|[Hne Hr]]%lookup_insert_Some & Hin); [done|].
    split; [|by eauto]. destruct (m !! rr_run_id r') as [p|] eqn:Hp; cbn; [|apply not_elem_of_nil].
    intros Hp'. destruct (index_keys_shared _ _ _ Hin Hp') as [Heq|(Ha & Ha' & Hl)].
    + rewrite (runs_own_id m Hwf _ _ Hr), (runs_own_id m Hwf _ _ Hp) in Heq. congruence.
    + pose proof (runs_lane_unique m Hwf _ _ _ _ Hr Hp Ha Ha' Hl). congruence.
  - intros [Hp (id & r & Hr & Hin)]. exists id, r. split; [|done].
    rewrite lookup_insert_ne; [done|]. intros <-. rewrite Hr in Hp. done.
Qed.

(** The batch of a record takes the contents from one map to the next. *)
Lemma record_batch_represents c m r' b :
  represents c m -> runs_wf (<[rr_run_id r' := r']> m) -> to_vec r' = Ok b ->
  represents (apply_batch (record_batch (m !! rr_run_id r') r' b) c) (<[rr_run_id r' := r']> m).
Proof.
  intros [Hwf Hrec Hnone Hidx Hmark] Hwf' Hb.
  assert (Hrk : forall id, run_record_key id ∉ record_index_keys r').
  { intros id Hin%run_index_prefix. by rewrite record_key_not_index in Hin. }
  assert (Hpk : forall id, run_record_key id ∉ previous_keys (m !! rr_run_id r')).
  { intros id. destruct (m !! rr_run_id r'); cbn; [|apply not_elem_of_nil].
    intros Hin%run_index_prefix. by rewrite record_key_not_index in Hin. }
  split; [done|..].
  - intros id r. rewrite lookup_insert_Some, record_batch_lookup, decide_False by done.
    intros [[<- <-]|[Hne Hr]]; [rewrite decide_True by done; eauto using json_roundtrip|].
    rewrite decide_False, decide_False by (done || (intros ?%run_record_key_inj; congruence)). eauto.
  - intros id [Hm Hne]%lookup_insert_None. rewrite record_batch_lookup, !decide_False; [eauto|done| |done].
    intros ?%run_record_key_inj. congruence.
  - intros k Hk. rewrite record_batch_lookup. destruct (decide (k ∈ record_index_keys r')) as [Hin|Hin].
    + split; [intros _|by eauto]. exists (rr_run_id r'), r'. split; [apply lookup_insert_eq|done].
    + rewrite decide_False by (intros ->; by rewrite record_key_not_index in Hk).
      rewrite (index_key_moves m r' k Hwf Hwf' Hin), <-(Hidx k Hk).
      case_decide; [|by intuition]. split; [by intros []|by intuition].
  - intros id r Hid Ha. rewrite record_batch_lookup.
    destruct (decide (active_task_role_marker r ∈ record_index_keys r')) as [Hin|Hin].
    + apply marker_in_keys in Hin as [Ha' Hl].
      assert (Heq : active_task_role_marker r = active_task_role_marker r').
      { unfold active_task_role_marker. unfold lane in Hl. by injection Hl as -> ->. }
      rewrite Heq, String.eqb_refl. f_equal. symmetry.
      eapply (runs_lane_unique _ Hwf'); [exact Hid|apply lookup_insert_eq|done..].
    + rewrite decide_False by done.
      apply lookup_insert_Some in Hid as [[<- <-]|[Hne Hr]].
      { destruct Hin. by apply marker_in_keys. }
      rewrite decide_False; [by apply Hmark|].
      destruct (m !! rr_run_id r') as [p|] eqn:Hp; cbn; [|apply not_elem_of_nil].
      intros [Hap Hl]%marker_in_keys.
      pose proof (runs_lane_unique m Hwf _ _ _ _ Hr Hp Ha Hap Hl). congruence.
Qed.
End representation.

(** ** The operations implement the abstract store *)

Section refinement.
Context `{KvLaws} `{JsonLaws RunRecord}.

Definition fjall_repr (s : kv_state) (m : Runs) : Prop := represents (kv_contents s) m.

(** A read: it leaves the state as it is and returns [v], or fails. *)
Definition reads {A} (op : SM kv_state RunStoreError A) (s : kv_state) (v : A) : Prop :=
  match op s with
  | (s', Ok a) => s' = s /\ a = v
  | (s', Err e) => s' = s /\ is_io_error e = true
  end.

Lemma reads_bind {A B} (op : SM kv_state RunStoreError A) (k : A -> SM kv_state RunStoreError B) s v :
  reads op s v ->
  sm_bind op k s = k v s \/ exists e, sm_bind op k s = (s, Err e) /\ is_io_error e = true.
Proof.
  unfold reads, sm_bind. destruct (op s) as [s' [a|e]]; intros [-> Hr]; [subst; by left|right; by eauto].
Qed.

Lemma storage_get_reads s k : reads (storage_get k) s (kv_contents s !! k).
Proof.
  unfold reads, storage_get. destruct (kv_get s k) eqn:E; cbn; [|done].
  split; [done|]. by eapply kv_get_law.
Qed.

Lemma get_run_locked_reads s m id : fjall_repr s m -> reads (get_run_locked id) s (m !! id).
Proof.
  intros Hr. unfold reads, get_run_locked.
  destruct (reads_bind _ (fun value => match value with
    | Some bytes => sm_lift (let? record := deserialize bytes in Ok (Some record))
    | None => sm_ret None end) _ _ (storage_get_reads s (run_record_key id))) as [->|(e & -> & He)]; [|done].
  destruct (m !! id) as [r|] eqn:Hid.
  - destruct (rep_record _ _ Hr id r Hid) as (b & -> & Hb). unfold deserialize. cbn. by rewrite Hb.
  - by rewrite (rep_no_record _ _ Hr id Hid).
Qed.

Lemma load_required_cases s m id :
  fjall_repr s m ->
  match load_required id s with
  | (s', Ok r) => s' = s /\ m !! id = Some r
  | (s', Err e) => s' = s /\ (is_io_error e = true \/ (m !! id = None /\ e = RunStoreError.NotFound id))
  end.
Proof.
  intros Hr. unfold load_required.
  destruct (reads_bind _ (fun record => match record with
    | Some record => sm_ret record | None => sm_lift (Err (RunStoreError.NotFound id)) end)
    _ _ (get_run_locked_reads s m id Hr)) as [->|(e & -> & He)]; [|by auto].
  destruct (m !! id); cbn; auto.
Qed.

(** The marker of a lane names the run that is active in it. *)
Lemma marker_lookup s m r :
  fjall_repr s m -> kv_contents s !! active_task_role_marker r = active_in_lane m (lane r).
Proof.
  intros Hr. destruct (active_in_lane m (lane r)) as [id|] eqn:E.
  - apply active_in_lane_Some in E as (q & Hq & Ha & Hl).
    rewrite <-(rep_marker _ _ Hr id q Hq Ha). unfold active_task_role_marker.
    unfold lane in Hl. by injection Hl as -> ->.
  - destruct (kv_contents s !! active_task_role_marker r) eqn:Ec; [|done]. exfalso.
    destruct (rep_index _ _ Hr (active_task_role_marker r) eq_refl) as [Hi _].
    destruct Hi as (id & q & Hq & [Ha Hl]%marker_in_keys); [by eauto|].
    by eapply (active_in_lane_None m (lane r) id q).
Qed.

Lemma find_active_duplicate_reads s m r :
  fjall_repr s m -> m !! rr_run_id r = None ->
  reads (find_active_duplicate r) s (active_in_lane m (lane r)).
Proof.
  intros Hr Hfresh. unfold reads, find_active_duplicate.
  match goal with |- context [sm_bind _ ?k s] =>
    destruct (reads_bind _ k _ _ (storage_get_reads s (active_task_role_marker r)))
      as [->|(e & -> & He)]; [|done] end.
  rewrite (marker_lookup _ _ _ Hr). destruct (active_in_lane m (lane r)) as [id|] eqn:E; [|done].
  apply active_in_lane_Some in E as (q & Hq & Ha & Hl). unfold from_utf8_lossy.
  destruct (String.eqb_spec id (rr_run_id r)) as [->|Hne]; [congruence|].
  match goal with |- context [sm_bind _ ?k s] =>
    destruct (reads_bind _ k _ _ (get_run_locked_reads s m id Hr)) as [->|(e & -> & He)]; [|done] end.
  rewrite Hq, Ha. done.
Qed.

(** A commit: on success the contents are the new ones, on an error the new or
    the old ones. *)
Lemma storage_commit_cases ops s :
  match storage_commit ops s with
  | (s', Ok _) => kv_contents s' = apply_batch ops (kv_contents s)
  | (s', Err e) => is_io_error e = true /\
      (kv_contents s' = apply_batch ops (kv_contents s) \/ kv_contents s' = kv_contents s)
  end.
Proof.
  unfold storage_commit. destruct (kv_commit ops s) as [s' [[]|e]] eqn:E;
    destruct (kv_commit_law _ _ _ _ E) as [Hc|[Hr Hc]]; cbn; auto. done.
Qed.

Lemma commit_record_cases s m r' :
  fjall_repr s m -> runs_wf (<[rr_run_id r' := r']> m) ->
  match commit_record (m !! rr_run_id r') r' s with
  | (s', Ok _) => fjall_repr s' (<[rr_run_id r' := r']> m)
  | (s', Err e) => is_io_error e = true /\
      (fjall_repr s' m \/ fjall_repr s' (<[rr_run_id r' := r']> m))
  end.
Proof.
  intros Hr Hwf. unfold commit_record, serialize, sm_bind, sm_lift.
  destruct (to_vec r') as [b|e] eqn:Hb; cbn; [|by auto].
  pose proof (record_batch_represents _ _ _ _ Hr Hwf Hb) as Hr'.
  pose proof (storage_commit_cases (record_batch (m !! rr_run_id r') r' b) s) as Hc. unfold fjall_repr in *.
  destruct (storage_commit _ s) as [s' [[]|e]]; [by rewrite Hc|].
  destruct Hc as [He [Hc|Hc]]; rewrite Hc; auto.
Qed.

Lemma update_run_refines id f :
  (forall r r', f r = Ok r' -> advances r r') ->
  refines fjall_repr (update_run id f) (spec_update id f).
Proof.
  intros Hf s m Hr. unfold update_run, spec_update. unfold sm_bind at 1.
  pose proof (load_required_cases s m id Hr) as Hl.
  destruct (load_required id s) as [s1 [r|e]]; cycle 1.
  { destruct Hl as [-> [He|[-> ->]]]; auto. }
  destruct Hl as [-> Hid]. rewrite Hid. unfold sm_bind at 1, sm_lift.
  destruct (f r) as [r'|e] eqn:Hfr; cbn [result_bind]; [|by auto].
  pose proof (Hf _ _ Hfr) as Hadv.
  assert (Hid' : rr_run_id r' = id).
  { rewrite (adv_id _ _ Hadv). apply (runs_own_id m (rep_wf _ _ Hr) _ _ Hid). }
  assert (Hwf : runs_wf (<[id := r']> m)).
  { eapply run_change_wf, rep_wf, Hr. by eapply change_update. }
  pose proof (commit_record_cases s m r' Hr) as Hc. rewrite Hid', Hid in Hc. specialize (Hc Hwf).
  unfold sm_bind. destruct (commit_record (Some r) r' s) as [s' [[]|e]]; cbn.
  - by eauto.
  - destruct Hc as [He [Hc|Hc]]; right; eauto 10.
Qed.

Lemma create_run_refines record :
  refines fjall_repr (fjall_create_run record) (spec_create record).
Proof.
  intros s m Hr. unfold fjall_create_run, spec_create.
  match goal with |- context [sm_bind _ ?k s] =>
    destruct (reads_bind _ k _ _ (get_run_locked_reads s m (rr_run_id record) Hr))
      as [->|(e & -> & He)]; [|by auto] end.
  destruct (m !! rr_run_id record) as [r|] eqn:Hid; [by left|].
  assert (Hdup : reads (if run_is_active record then find_active_duplicate record else sm_ret None) s
    (if run_is_active record then active_in_lane m (lane record) else None)).
  { destruct (run_is_active record); [by apply find_active_duplicate_reads|done]. }
  match goal with |- context [sm_bind _ ?k s] =>
    destruct (reads_bind _ k _ _ Hdup) as [->|(e & -> & He)]; [|by auto] end.
  destruct (if run_is_active record then active_in_lane m (lane record) else None) as [x|] eqn:Ed;
    [by left|].
  set (r' := record <| rr_updated_at := rr_created_at record |>).
  assert (Hwf : runs_wf (<[rr_run_id r' := r']> m)).
  { eapply run_change_wf, rep_wf, Hr. apply change_create; [done|]. intros Ha j q Hj Hq.
    change (run_is_active record = true) in Ha. rewrite Ha in Ed. by eapply active_in_lane_None. }
  pose proof (commit_record_cases s m r' Hr Hwf) as Hc.
  change (rr_run_id r') with (rr_run_id record) in Hc at 1. rewrite Hid in Hc.
  unfold sm_bind. destruct (commit_record None r' s) as [s' [[]|e]]; cbn.
  - eexists. split; [done|]. exact Hc.
  - destruct Hc as [He [Hc|Hc]]; right; eauto 10.
Qed.

(** The single batch of [start_retry_attempt] closes the queued run and adds
    the next attempt. *)
Lemma retry_batch_represents c m request queued started m' b1 b2 :
  represents c m -> spec_start_retry request m = Ok (started, m') ->
  m !! ra_queued_run_id request = Some queued ->
  to_vec (close_queued request queued) = Ok b1 -> to_vec (next_attempt request queued) = Ok b2 ->
  represents (apply_batch (record_batch (Some queued) (close_queued request queued) b1
                           ++ record_batch None (next_attempt request queued) b2) c) m'.
Proof.
  intros Hr Hop Hq Hb1 Hb2. pose proof (rep_wf _ _ Hr) as Hwf.
  pose proof (run_changes_wf _ _ (spec_start_retry_change _ _ _ _ Hwf Hop) Hwf) as Hwf2.
  destruct (spec_start_retry_inv _ _ _ _ Hwf Hop) as (queued' & Hq' & Hs & _ & _ & Hn & _ & ->).
  rewrite Hq' in Hq. injection Hq as ->.
  pose proof (runs_own_id m Hwf _ _ Hq') as Hown.
  assert (Hwf1 : runs_wf (<[ra_queued_run_id request := close_queued request queued]> m)).
  { eapply run_change_wf, Hwf. eapply change_update; [exact Hq'|]. by apply close_queued_advances. }
  pose proof (record_batch_represents _ _ (close_queued request queued) b1 Hr) as Hr1.
  change (rr_run_id (close_queued request queued)) with (rr_run_id queued) in Hr1.
  rewrite Hown, Hq' in Hr1. specialize (Hr1 Hwf1 Hb1).
  pose proof (record_batch_represents _ _ (next_attempt request queued) b2 Hr1) as Hr2.
  change (rr_run_id (next_attempt request queued)) with (ra_new_run_id request) in Hr2.
  rewrite lookup_insert_ne, Hn in Hr2 by congruence. rewrite apply_batch_app. by apply Hr2.
Qed.

Lemma start_retry_attempt_refines request :
  refines fjall_repr (fjall_start_retry_attempt request) (spec_start_retry request).
Proof.
  intros s m Hr. pose proof (rep_wf _ _ Hr) as Hwf.
  unfold fjall_start_retry_attempt, spec_start_retry. unfold sm_bind at 1.
  pose proof (load_required_cases s m (ra_queued_run_id request) Hr) as Hl.
  destruct (load_required (ra_queued_run_id request) s) as [s1 [queued|e]]; cycle 1.
  { destruct Hl as [-> [He|[-> ->]]]; auto. }
  destruct Hl as [-> Hq]. rewrite Hq. unfold sm_bind at 1, sm_lift at 1.
  destruct (check_retry_attempt request queued) as [[]|e] eqn:Hchk; cbn [result_bind]; [|by auto].
  apply check_retry_attempt_ok in Hchk as (Hg & Hs & Hd).
  match goal with |- context [sm_bind _ ?k s] =>
    destruct (reads_bind _ k _ _ (get_run_locked_reads s m (ra_new_run_id request) Hr))
      as [->|(e & -> & He)]; [|by auto] end.
  destruct (m !! ra_new_run_id request) as [x|] eqn:Hn; [by left|].
  set (closed := close_queued request queued). set (retry_run := next_attempt request queued).
  match goal with |- context [sm_bind _ ?k s] =>
    destruct (reads_bind _ k _ _ (find_active_duplicate_reads s m retry_run Hr Hn))
      as [->|(e & -> & He)]; [|by auto] end.
  assert (Hact : run_is_active queued = true) by (unfold run_is_active; by rewrite Hs).
  assert (Hlane : active_in_lane m (lane retry_run) = Some (ra_queued_run_id request)).
  { by apply (active_in_lane_unique m _ queued Hwf Hq). }
  pose proof (runs_own_id m Hwf _ _ Hq) as Hown.
  rewrite Hlane. change (rr_run_id closed) with (rr_run_id queued). rewrite Hown, String.eqb_refl.
  rewrite bool_decide_eq_true_2 by done. cbn [negb]. unfold sm_bind at 1, sm_lift at 1.
  assert (Hop : spec_start_retry request m = Ok (mkRetryAttemptStarted closed retry_run,
    <[ra_new_run_id request := retry_run]> (<[ra_queued_run_id request := closed]> m))).
  { unfold spec_start_retry. rewrite Hq, (proj2 (check_retry_attempt_ok request queued)) by done.
    cbn [result_bind]. fold closed retry_run.
    by rewrite Hn, Hlane, Hown, bool_decide_eq_true_2 by done. }
  unfold sm_bind at 1, sm_lift at 1, serialize at 1.
  destruct (to_vec closed) as [b1|e] eqn:Hb1; cbn [result_map_err]; [|by auto].
  unfold sm_bind at 1, sm_lift at 1, serialize at 1.
  destruct (to_vec retry_run) as [b2|e] eqn:Hb2; cbn [result_map_err]; [|by auto].
  pose proof (retry_batch_represents _ _ request queued _ _ b1 b2 Hr Hop Hq Hb1 Hb2) as Hr2.
  pose proof (storage_commit_cases (record_batch (Some queued) closed b1 ++ record_batch None retry_run b2) s) as Hc.
  unfold sm_bind. destruct (storage_commit _ s) as [s' [[]|e]]; cbn.
  - eexists. split; [done|]. unfold fjall_repr. by rewrite Hc.
  - destruct Hc as [He Hc]. right. split; [done|]. unfold fjall_repr. destruct Hc as [->| ->]; eauto 10.
Qed.

Lemma get_run_refines id : refines fjall_repr (get_run_locked id) (spec_get id).
Proof.
  intros s m Hr. pose proof (get_run_locked_reads s m id Hr) as Hg. unfold reads in Hg.
  destruct (get_run_locked id s) as [s' [v|e]]; destruct Hg as [-> Hv]; [subst v; unfold spec_get|]; eauto.
Qed.
End refinement.

(** ** The instance of the port *)

#[export] Instance fjall_run_store `{KvStore} `{Json RunRecord} : RunStore kv_state := {
  create_run := fjall_create_run;
  claim_run := fjall_claim_run;
  renew_claim := fjall_renew_claim;
  release_claim := fjall_release_claim;
  complete_run := fjall_complete_run;
  fail_run := fjall_fail_run;
  record_continuation := fjall_record_continuation;
  queue_retry := fjall_queue_retry;
  start_retry_attempt := fjall_start_retry_attempt;
  get_run := get_run_locked;
  active_runs := fjall_active_runs;
  runs_for_task := fjall_runs_for_task
}.

#[export] Instance fjall_run_store_laws `{KvLaws} `{JsonLaws RunRecord} : RunStoreLaws kv_state := {
  runs_repr := fjall_repr;
  create_run_law := create_run_refines;
  claim_run_law now x := update_run_refines _ _ (claim_record_advances now x);
  renew_claim_law n1 n2 id g := update_run_refines _ _ (renew_record_advances n1 n2 g);
  release_claim_law now x := update_run_refines _ _ (release_record_advances now x);
  complete_run_law now x := update_run_refines _ _ (complete_record_advances now x);
  fail_run_law now x := update_run_refines _ _ (fail_record_advances now x);
  record_continuation_law now x := update_run_refines _ _ (continue_record_advances now x);
  queue_retry_law now x := update_run_refines _ _ (retry_record_advances now x);
  start_retry_attempt_law := start_retry_attempt_refines;
  get_run_law := get_run_refines;
  repr_wf_law s m Hr := conj (runs_own_id m (rep_wf _ _ Hr)) (runs_lane_unique m (rep_wf _ _ Hr))
}.

(** ** Index scans *)

Section scans.
Context `{KvLaws} `{JsonLaws RunRecord}.

(** What the loop over a scan keeps of an entry. *)
Definition pick (m : Runs) (keep : RunRecord -> bool) (kv : string * string) : option RunRecord :=
  match m !! rsplit_last ":" kv.1 with
  | Some r => if keep r then Some r else None
  | None => None
  end.

Lemma load_indexed_cases s m keep items :
  fjall_repr s m ->
  match load_indexed keep items s with
  | (s', Ok l) => s' = s /\ exists entries, items = Ok <$> entries /\ l = omap (pick m keep) entries
  | (s', Err e) => s' = s /\ is_io_error e = true
  end.
Proof.
  intros Hr. induction items as [|[[k v]|e] items IH].
  - split; [done|]. by exists [].
  - pose proof (get_run_locked_reads s m (rsplit_last ":" k) Hr) as Hg. unfold reads in Hg.
    cbn [load_indexed]. unfold sm_bind, sm_lift, from_utf8_lossy in *. cbn [result_map_err] in *.
    destruct (get_run_locked (rsplit_last ":" k) s) as [s1 [o|e]]; destruct Hg as [-> Hg]; [|done].
    destruct (load_indexed keep items s) as [s1 [l|e]]; [|done].
    destruct IH as (-> & entries & -> & ->). split; [done|]. exists ((k, v) :: entries).
    split; [done|].
    assert (Hp : pick m keep (k, v) = match o with
      | Some r => if keep r then Some r else None | None => None end) by by rewrite Hg.
    change (omap (pick m keep) ((k, v) :: entries)) with
      (match pick m keep (k, v) with Some r => r :: omap (pick m keep) entries
       | None => omap (pick m keep) entries end).
    rewrite Hp. destruct o as [r|]; [by destruct (keep r)|done].
  - done.
Qed.

Lemma rsplit_role_key role id :
  rsplit_last ":" (run_active_role_index_key role id) = key_escape id.
Proof.
  unfold run_active_role_index_key. rewrite <-append_assoc.
  apply (rsplit_last_app ":"), key_escape_no_colon.
Qed.

Lemma rsplit_task_key t id : rsplit_last ":" (run_task_index_key t id) = key_escape id.
Proof.
  unfold run_task_index_key. rewrite <-append_assoc.
  apply (rsplit_last_app ":"), key_escape_no_colon.
Qed.

Lemma role_key_scan r k :
  k ∈ record_index_keys r /\ starts_with "index:run:active-role:" k = true <->
  run_is_active r = true /\ k = run_active_role_index_key (RunRole.as_str (rr_role r)) (rr_run_id r).
Proof.
  rewrite elem_of_index_keys. unfold index_store_keys. split.
  - intros [(sk & -> & Hin) Hp]. revert Hin Hp.
    destruct (rr_session_id r), (rr_claim_owner r), (run_is_active r); cbn [app];
      rewrite ?elem_of_cons, elem_of_nil; naive_solver.
  - intros [Ha ->]. split; [|reflexivity].
    exists (RunActiveRoleIndexKey (RunRole.as_str (rr_role r)) (rr_run_id r)). split; [done|].
    rewrite Ha, !elem_of_app. right; right; right. left.
Qed.

(** Ids that the keys carry unchanged. *)
Definition ids_unreserved (m : Runs) : Prop :=
  forall id r, m !! id = Some r -> key_escape id = id.

(** The runs a map holds that satisfy [keep], in some order. *)
Definition runs_where (keep : RunRecord -> bool) (m : Runs) : list RunRecord :=
  filter (fun r => keep r = true) (map_to_list m).*2.

Lemma elem_of_runs_where keep m r :
  r ∈ runs_where keep m <-> keep r = true /\ exists id, m !! id = Some r.
Proof.
  unfold runs_where. rewrite list_elem_of_filter, list_elem_of_fmap. split.
  - intros [Hk ([id q] & -> & Hin%elem_of_map_to_list)]. eauto.
  - intros [Hk [id Hid]]. split; [done|]. exists (id, r). by rewrite elem_of_map_to_list.
Qed.

Lemma NoDup_runs_where keep m : runs_wf m -> NoDup (runs_where keep m).
Proof.
  intros Hwf. apply NoDup_filter, NoDup_fmap_2_strong; [|apply NoDup_map_to_list].
  intros [i r] [j q] Hi%elem_of_map_to_list Hj%elem_of_map_to_list Heq. cbn in Heq. subst q.
  by rewrite <-(runs_own_id m Hwf i r Hi), (runs_own_id m Hwf j r Hj).
Qed.

Lemma task_key_scan t r k :
  k ∈ record_index_keys r /\ starts_with (run_task_index_prefix t) k = true <->
  bool_decide (rr_task_id r = t) = true /\ k = run_task_index_key (rr_task_id r) (rr_run_id r).
Proof.
  rewrite elem_of_index_keys, bool_decide_eq_true. split.
  - intros [(sk & -> & Hin) [rest Hp]%starts_with_iff].
    destruct (index_store_keys_family _ _ Hin) as [_ Hf].
    unfold run_task_index_prefix in Hp. rewrite append_assoc in Hp.
    destruct sk; try discriminate Hf; try discriminate Hp. cbn [render] in Hp |- *.
    apply append_inj_l in Hp. rewrite append_assoc in Hp.
    change (key_escape task_id +:+ String ":" (key_escape run_id) = key_escape t +:+ String ":" rest) in Hp.
    apply sep_inj in Hp as [?%key_escape_inj _]; [|apply key_escape_no_colon..].
    unfold index_store_keys in Hin. revert Hin.
    destruct (rr_session_id r), (rr_claim_owner r), (run_is_active r); cbn [app];
      rewrite ?elem_of_cons, elem_of_nil; naive_solver.
  - intros [<- ->]. split.
    + exists (RunTaskIndexKey (rr_task_id r) (rr_run_id r)). split; [done|]. left.
    + apply starts_with_iff. exists (key_escape (rr_run_id r)).
      unfold run_task_index_prefix, run_task_index_key. by rewrite !append_assoc.
Qed.

(** A scan whose prefix selects one kind of index key returns the runs that
    have this key. *)
Lemma scan_exact s m p keep sel key_of entries :
  fjall_repr s m -> ids_unreserved m ->
  (forall r k, k ∈ record_index_keys r /\ starts_with p k = true <-> sel r = true /\ k = key_of r) ->
  (forall r, rsplit_last ":" (key_of r) = key_escape (rr_run_id r)) ->
  (forall k, starts_with p k = true -> starts_with "index:run:" k = true) ->
  (forall r, sel r = true -> keep r = true) ->
  kv_prefix s p = Ok <$> entries ->
  omap (pick m keep) entries ≡ₚ runs_where sel m.
Proof.
  intros Hr Hids Hsel Hkey Hpre Hkeep He. rewrite (kv_prefix_law s p entries He).
  set (E := filter (fun kv => starts_with p kv.1 = true) (map_to_list (kv_contents s))).
  assert (HE : forall k v, (k, v) ∈ E <-> starts_with p k = true /\ kv_contents s !! k = Some v).
  { intros k v. unfold E. by rewrite list_elem_of_filter, elem_of_map_to_list. }
  assert (Hown := runs_own_id m (rep_wf _ _ Hr)).
  assert (Hpick : forall k v r, (k, v) ∈ E -> pick m keep (k, v) = Some r ->
    sel r = true /\ k = key_of r /\ m !! rr_run_id r = Some r).
  { intros k v r [Hk Hc]%HE Hp.
    destruct (rep_index _ _ Hr k (Hpre k Hk)) as [Hi _].
    destruct Hi as (id & q & Hq & Hin); [by eauto|].
    destruct (proj1 (Hsel q k) (conj Hin Hk)) as [Hs ->]. unfold pick in Hp. cbn [fst] in Hp.
    rewrite Hkey, (Hown _ _ Hq), (Hids _ _ Hq), Hq, (Hkeep q Hs) in Hp. injection Hp as ->.
    by rewrite (Hown _ _ Hq). }
  apply NoDup_Permutation; [|apply NoDup_runs_where, Hr|].
  - apply NoDup_omap_inj; [apply NoDup_filter, NoDup_map_to_list|].
    intros [k v] [k' v'] r Hx Hy Hpx Hpy.
    destruct (Hpick _ _ _ Hx Hpx) as (_ & -> & _), (Hpick _ _ _ Hy Hpy) as (_ & -> & _).
    apply HE in Hx as [_ Hx], Hy as [_ Hy]. congruence.
  - intros r. rewrite list_elem_of_omap, elem_of_runs_where. split.
    + intros ([k v] & Hin & Hp). destruct (Hpick _ _ _ Hin Hp) as (Hs & _ & Hm). eauto.
    + intros [Hs [id Hid]]. destruct (proj2 (Hsel r (key_of r)) (conj Hs eq_refl)) as [Hin Hp].
      destruct (rep_index _ _ Hr (key_of r) (Hpre _ Hp)) as [_ Hi].
      destruct Hi as [v Hv]; [by eauto|]. exists (key_of r, v). split; [by apply HE|].
      unfold pick. cbn [fst]. by rewrite Hkey, (Hown _ _ Hid), (Hids _ _ Hid), Hid, (Hkeep r Hs).
Qed.

(** The two listings, sorted by run id. *)
Definition lists (op : SM kv_state RunStoreError (list RunRecord)) (s : kv_state)
    (expected : list RunRecord) : Prop :=
  match op s with
  | (s', Ok l) => s' = s /\ l ≡ₚ expected /\
      StronglySorted (fun a b => str_leb (rr_run_id a) (rr_run_id b) = true) l
  | (s', Err e) => s' = s /\ is_io_error e = true
  end.

Lemma sorted_listing s m p keep sel :
  fjall_repr s m ->
  (forall entries, kv_prefix s p = Ok <$> entries -> omap (pick m keep) entries ≡ₚ runs_where sel m) ->
  lists (fun s => (let! records := load_indexed keep (kv_prefix s p) in
                   sm_ret (sort_by run_id_leb records)) s) s (runs_where sel m).
Proof.
  intros Hr Hscan. unfold lists, sm_bind. pose proof (load_indexed_cases s m keep (kv_prefix s p) Hr) as Hl.
  destruct (load_indexed keep (kv_prefix s p) s) as [s' [l|e]]; [|done].
  destruct Hl as (-> & entries & He & ->). cbn. split; [done|]. split.
  - rewrite sort_by_perm. by apply Hscan.
  - apply (sort_by_sorted run_id_leb); unfold run_id_leb; eauto using str_leb_total, str_leb_trans.
Qed.

Lemma active_runs_lists s m :
  fjall_repr s m -> ids_unreserved m -> lists fjall_active_runs s (runs_where run_is_active m).
Proof.
  intros Hr Hids. apply (sorted_listing _ _ _ _ run_is_active Hr). intros entries He.
  eapply (scan_exact s m _ run_is_active run_is_active _ _ Hr Hids role_key_scan); [..|exact He].
  - intros r. apply rsplit_role_key.
  - intros k. rewrite !starts_with_iff. intros [rest ->]. by exists ("active-role:" +:+ rest).
  - done.
Qed.

Lemma runs_for_task_lists s m t :
  fjall_repr s m -> ids_unreserved m ->
  lists (fjall_runs_for_task t) s (runs_where (fun r => bool_decide (rr_task_id r = t)) m).
Proof.
  intros Hr Hids. apply (sorted_listing _ _ _ _ (fun r => bool_decide (rr_task_id r = t)) Hr).
  intros entries He.
  eapply (scan_exact s m _ (fun _ => true) _ _ _ Hr Hids (task_key_scan t)); [..|exact He].
  - intros r. apply rsplit_task_key.
  - intros k. unfold run_task_index_prefix. rewrite !starts_with_iff.
    intros [rest ->]. rewrite append_assoc. by eexists ("task:" +:+ _).
  - done.
Qed.
End scans.

(** ** A codec, for evaluation *)

Module MemRuns.

(** A codec: the fields as numbers, the list of numbers as a binary numeral. *)
Definition fields (r : RunRecord) : list positive := [
  encode (rr_run_id r); encode (rr_task_id r);
  encode (match rr_role r with
          | RunRole.Worker => inl 0 | RunRole.Reviewer => inl 1 | RunRole.Supervisor => inl 2
          | RunRole.Integration => inl 3 | RunRole.Maintenance => inl 4
          | RunRole.Custom v => inr v end : nat + string);
  encode (match rr_status r with
          | RunStatus.Created => 0 | RunStatus.Claimed => 1 | RunStatus.Running => 2
          | RunStatus.Released => 3 | RunStatus.RetryQueued => 4 | RunStatus.Completed => 5
          | RunStatus.Failed => 6 | RunStatus.Abandoned => 7 end);
  encode (rr_claim_generation r); encode (rr_claim_owner r); encode (rr_session_id r);
  encode (rr_lease_expires_at r); encode (rr_attempt r); encode (rr_created_at r);
  encode (rr_updated_at r); encode (rr_claimed_at r); encode (rr_started_at r);
  encode (rr_last_activity_at r); encode (rr_released_at r); encode (rr_release_reason r);
  encode (rr_completed_at r); encode (rr_completion_summary r); encode (rr_failed_at r);
  encode (rr_failure_reason r); encode (rr_retry_queued_at r); encode (rr_retry_at r);
  encode (rr_retry_reason r); encode (rr_continuation_turns r); encode (rr_last_continuation_at r);
  encode (rr_abandoned_at r); encode (rr_abandoned_reason r)].

Definition role_of (x : nat + string) : RunRole :=
  match x with
  | inl 0 => RunRole.Worker | inl 1 => RunRole.Reviewer | inl 2 => RunRole.Supervisor
  | inl 3 => RunRole.Integration | inl _ => RunRole.Maintenance
  | inr v => RunRole.Custom v
  end.

Definition status_of (n : nat) : RunStatus :=
  match n with
  | 0 => RunStatus.Created | 1 => RunStatus.Claimed | 2 => RunStatus.Running
  | 3 => RunStatus.Released | 4 => RunStatus.RetryQueued | 5 => RunStatus.Completed
  | 6 => RunStatus.Failed | _ => RunStatus.Abandoned
  end.

Definition of_fields (l : list positive) : option RunRecord :=
  match l with
  | [a1; a2; a3; a4; a5; a6; a7; a8; a9; a10; a11; a12; a13; a14; a15; a16; a17; a18; a19; a20;
     a21; a22; a23; a24; a25; a26; a27] =>
      x1 ← decode a1; x2 ← decode a2; x3 ← decode a3; x4 ← decode a4; x5 ← decode a5;
      x6 ← decode a6; x7 ← decode a7; x8 ← decode a8; x9 ← decode a9; x10 ← decode a10;
      x11 ← decode a11; x12 ← decode a12; x13 ← decode a13; x14 ← decode a14; x15 ← decode a15;
      x16 ← decode a16; x17 ← decode a17; x18 ← decode a18; x19 ← decode a19; x20 ← decode a20;
      x21 ← decode a21; x22 ← decode a22; x23 ← decode a23; x24 ← decode a24; x25 ← decode a25;
      x26 ← decode a26; x27 ← decode a27;
      Some (mkRunRecord x1 x2 (role_of x3) (status_of x4) x5 x6 x7 x8 x9 x10 x11 x12 x13 x14 x15
              x16 x17 x18 x19 x20 x21 x22 x23 x24 x25 x26 x27)
  | _ => None
  end.

Lemma of_fields_fields r : of_fields (fields r) = Some r.
Proof.
  unfold of_fields, fields. rewrite !decode_encode. cbn. destruct r as [? ? role status]. cbn.
  by destruct role, status.
Qed.

#[export] Instance mem_codec : Json RunRecord :=
  numeral_json fields of_fields.

#[export] Instance mem_codec_laws : JsonLaws RunRecord.
Proof. apply numeral_json_laws, of_fields_fields. Defined.
End MemRuns.

(** ** Properties *)

(** C32: the durable store implements the port.  Start from an empty partition
    and make any sequence of calls, with storage, scan and serialization errors
    striking at any point.  Then the partition represents the abstract store:
    every outcome that is not an I/O error is the outcome of the abstract call,
    and a call that ended in an I/O error has taken effect completely or not at
    all; all records decode, the index keys are exactly those of the stored
    records, and the marker of every lane names its active run. *)
Theorem run_store_refines_port `{KvLaws} `{JsonLaws RunRecord} (s : kv_state) (ops : list RunOp) :
  kv_contents s = ∅ ->
  exists m, port_trace ∅ ops (exec_ops ops s).2 m /\
    represents (kv_contents (exec_ops ops s).1) m.
Proof.
  intros Hs. assert (Hr : runs_repr s ∅) by (cbn; unfold fjall_repr; rewrite Hs; apply represents_empty).
  exact (exec_ops_trace ops s ∅ Hr).
Qed.

(** the listings are complete and sorted.  On a store that represents [m],
    when no run id contains a reserved character, [active_runs] returns exactly
    the runs that are not terminal and [runs_for_task] exactly the runs of the
    task, each once and sorted by run id, or an I/O error; neither changes the
    store. *)
Theorem run_listings_exact `{KvLaws} `{JsonLaws RunRecord} (s : kv_state) (m : Runs) (t : TaskId) :
  represents (kv_contents s) m -> ids_unreserved m ->
  lists fjall_active_runs s (runs_where run_is_active m) /\
  lists (fjall_runs_for_task t) s (runs_where (fun r => bool_decide (rr_task_id r = t)) m).
Proof. intros Hr Hids. split; [by apply active_runs_lists|by apply runs_for_task_lists]. Qed.

(** a run whose id contains a colon is never listed.  The index key holds
    the escaped id, and the listings look up the escaped text as if it were the
    id: whatever the store contains, such a run is in no result of
    [active_runs], although [get_run] finds it. *)
Theorem colon_run_never_listed `{KvLaws} `{JsonLaws RunRecord} (s : kv_state) (m : Runs) (r : RunRecord) :
  represents (kv_contents s) m -> m !! rr_run_id r = Some r -> occurs ":" (rr_run_id r) = true ->
  reads (get_run_locked (rr_run_id r)) s (Some r) /\
  forall s' l, fjall_active_runs s = (s', Ok l) -> r ∉ l.
Proof.
  intros Hr Hid Hc. split; [rewrite <-Hid; by apply get_run_locked_reads|].
  intros s' l Hl. unfold fjall_active_runs, sm_bind in Hl.
  pose proof (load_indexed_cases s m run_is_active (kv_prefix s "index:run:active-role:") Hr) as Hli.
  destruct (load_indexed _ _ s) as [s1 [l1|e]]; [|done]. destruct Hli as (-> & entries & He & ->).
  injection Hl as <- <-. rewrite sort_by_perm, (kv_prefix_law s _ _ He), list_elem_of_omap.
  intros ([k v] & [Hk Hin]%list_elem_of_filter & Hp). cbn [fst] in Hk.
  apply elem_of_map_to_list in Hin.
  destruct (rep_index _ _ Hr k) as [Hi _].
  { apply starts_with_iff in Hk as [rest ->]. apply starts_with_iff. by exists ("active-role:" +:+ rest). }
  destruct Hi as (id & q & Hq & Hkq); [by eauto|].
  destruct (proj1 (role_key_scan q k) (conj Hkq Hk)) as [_ ->].
  unfold pick in Hp. cbn [fst] in Hp. rewrite rsplit_role_key in Hp.
  destruct (m !! key_escape (rr_run_id q)) as [r'|] eqn:Hr'; [|done].
  destruct (run_is_active r'); [|done]. injection Hp as ->.
  apply (runs_own_id m (rep_wf _ _ Hr)) in Hr'. rewrite Hr', key_escape_no_colon in Hc. done.
Qed.

(** ** Witnesses *)

Import MemKv MemRuns.

Definition sample_calls : list RunOp :=
  [OpCreate (RunRecord_new "r1" "T-1" RunRole.Worker 0);
   OpClaim 10 (mkClaimRequest "r1" "agent-a" (Some "s1") 10 100);
   OpCreate (RunRecord_new "r2" "T-1" RunRole.Worker 20);
   OpComplete 50 (mkRunCompletion "r1" 1 50 None);
   OpCreate (RunRecord_new "x:1" "T-2" RunRole.Reviewer 60)].

Lemma run_store_refines_port_witness :
  (exec_ops sample_calls empty_store).2
  = [Ok tt; Ok tt;
     Err (RunStoreError.DuplicateActiveClaim "T-1" RunRole.Worker "r1"); Ok tt; Ok tt] /\
  exists m, port_trace ∅ sample_calls (exec_ops sample_calls empty_store).2 m /\
    represents (kv_contents (exec_ops sample_calls empty_store).1) m.
Proof.
  split; [vm_compute; reflexivity|].
  exact (run_store_refines_port empty_store sample_calls eq_refl).
Defined.

(** One stored run, by its batch. *)
Definition one_run (id : RunId) : RunRecord := RunRecord_new id "T-1" RunRole.Worker 0.
Definition one_run_store (id : RunId) : kv_state :=
  mkMemKv (apply_batch (record_batch None (one_run id) (numeral (encode (fields (one_run id))))) ∅) false.

Lemma one_run_represents id : represents (kv_contents (one_run_store id)) {[id := one_run id]}.
Proof.
  pose proof (record_batch_represents ∅ ∅ (one_run id) (numeral (encode (fields (one_run id))))) as Hr.
  rewrite lookup_empty in Hr. apply Hr; [apply represents_empty| |reflexivity].
  eapply run_change_wf, runs_empty_wf. apply (change_create (one_run id)); [apply lookup_empty|].
  intros _ j q Hj. by rewrite lookup_empty in Hj.
Defined.

Lemma run_listings_exact_witness :
  fjall_active_runs (one_run_store "r1") = (one_run_store "r1", Ok [one_run "r1"]) /\
  lists fjall_active_runs (one_run_store "r1")
    (runs_where run_is_active {["r1" := one_run "r1"]}).
Proof.
  split; [vm_compute; reflexivity|].
  assert (Hids : ids_unreserved {["r1" := one_run "r1"]})
    by (intros id r [<- _]%lookup_singleton_Some; reflexivity).
  exact (proj1 (run_listings_exact (one_run_store "r1") {["r1" := one_run "r1"]} "T-1"
    (one_run_represents "r1") Hids)).
Defined.

Lemma colon_run_never_listed_witness :
  fjall_active_runs (one_run_store "x:1") = (one_run_store "x:1", Ok []) /\
  reads (get_run_locked "x:1") (one_run_store "x:1") (Some (one_run "x:1")).
Proof.
  split; [vm_compute; reflexivity|].
  exact (proj1 (colon_run_never_listed (one_run_store "x:1") {["x:1" := one_run "x:1"]}
    (one_run "x:1") (one_run_represents "x:1") (lookup_singleton_eq _ _) eq_refl)).
Defined.
