(* ===== verification/RetryPolicy.v ===== *)
(** * Retry and continuation policies (retry.rs and continuation.rs of
    brehon-orchestrator)

    The two pure decision functions that say what to do with a run that failed
    or went idle, with the exponential backoff; their exact conditions, the
    bounds they put on attempts and turns, and their agreement with the checks
    of the run store. *)

From S2P Require Import Prelude Types TaskLifecycle RunPort.

(** ** Retry *)

Module RetryFailureKind.
Inductive RetryFailureKind := Transient | Interrupted | Deterministic | PermissionDenied | Unknown.
End RetryFailureKind.
Abbreviation RetryFailureKind := RetryFailureKind.RetryFailureKind.

Module RetryReviewStatus.
Inductive RetryReviewStatus :=
  NotInReview | WaitingForReview | Approved | ChangesRequested | NeedsOperator.
End RetryReviewStatus.
Abbreviation RetryReviewStatus := RetryReviewStatus.RetryReviewStatus.

Module RetryPermissionState.
Inductive RetryPermissionState := NotRequired | Pending | Approved | Denied.
End RetryPermissionState.
Abbreviation RetryPermissionState := RetryPermissionState.RetryPermissionState.

Module RetryOperatorOverride.
Inductive RetryOperatorOverride :=
  ForceRetryNow | ForceRetryLater | ForceFailTerminal | SuppressRetry.
End RetryOperatorOverride.
Abbreviation RetryOperatorOverride := RetryOperatorOverride.RetryOperatorOverride.

Record RetryInput := mkRetryInput {
  ri_run_status : RunStatus;
  ri_failure_kind : RetryFailureKind;
  ri_attempt_count : Z;
  ri_task_status : TaskStatus;
  ri_review_status : option RetryReviewStatus;
  ri_permission_state : option RetryPermissionState;
  ri_operator_override : option RetryOperatorOverride
}.

Module RetryDecision.
Inductive RetryDecision :=
| RetryNow (next_attempt : Z) (reason : string)
| RetryLater (next_attempt delay_ms jitter_ms : Z) (reason : string)
| FailTerminal (reason : string)
| Escalate (reason : string)
| NoAction (reason : string).
End RetryDecision.
Abbreviation RetryDecision := RetryDecision.RetryDecision.

Definition retry_delay_ms (attempt_count : Z) (policy : RetryPolicyConfig) : Z :=
  let exponent := Z.min (sat_sub attempt_count 1) 31 in
  let multiplier := Z.shiftl 1 exponent in
  Z.min (sat_mul u64_max (rpc_base_delay_ms policy) multiplier) (rpc_max_delay_ms policy).

Definition decide_operator_override (input : RetryInput) (policy : RetryPolicyConfig)
    (override_decision : RetryOperatorOverride) : RetryDecision :=
  match override_decision with
  | RetryOperatorOverride.ForceRetryNow =>
      RetryDecision.RetryNow (sat_add u32_max (ri_attempt_count input) 1) "operator forced retry now"
  | RetryOperatorOverride.ForceRetryLater =>
      RetryDecision.RetryLater (sat_add u32_max (ri_attempt_count input) 1)
        (retry_delay_ms (Z.max (ri_attempt_count input) 1) policy) (rpc_jitter_ms policy)
        "operator forced retry later"
  | RetryOperatorOverride.ForceFailTerminal =>
      RetryDecision.FailTerminal "operator forced terminal failure"
  | RetryOperatorOverride.SuppressRetry => RetryDecision.NoAction "operator suppressed retry"
  end.

(** [decide_retry] after the guards on the task and the run *)
Definition decide_automatic (input : RetryInput) (policy : RetryPolicyConfig) : RetryDecision :=
  if negb (rpc_enabled policy) then RetryDecision.NoAction "retry policy is disabled"
  else if ((rpc_max_attempts policy =? 0) || (ri_attempt_count input =? 0))%Z then
    RetryDecision.Escalate "retry policy or attempt count is invalid"
  else match ri_permission_state input with
  | Some RetryPermissionState.Denied => RetryDecision.Escalate "permission denied"
  | Some RetryPermissionState.Pending => RetryDecision.NoAction "permission decision is pending"
  | _ =>
      match ri_review_status input with
      | Some RetryReviewStatus.NeedsOperator =>
          RetryDecision.Escalate "review state requires operator attention"
      | _ =>
          if (rpc_max_attempts policy <=? ri_attempt_count input)%Z then
            RetryDecision.Escalate "retry attempts exhausted"
          else
            let next_attempt := sat_add u32_max (ri_attempt_count input) 1 in
            match ri_failure_kind input with
            | RetryFailureKind.Transient =>
                RetryDecision.RetryLater next_attempt
                  (retry_delay_ms (ri_attempt_count input) policy) (rpc_jitter_ms policy)
                  "transient failure"
            | RetryFailureKind.Interrupted => RetryDecision.RetryNow next_attempt "interrupted run"
            | RetryFailureKind.Deterministic => RetryDecision.FailTerminal "deterministic failure"
            | RetryFailureKind.PermissionDenied => RetryDecision.Escalate "permission denied"
            | RetryFailureKind.Unknown => RetryDecision.Escalate "unknown failure kind"
            end
      end
  end.

Definition decide_retry (input : RetryInput) (policy : RetryPolicyConfig) : RetryDecision :=
  if is_terminal (ri_task_status input) then RetryDecision.NoAction "task is terminal"
  else match ri_run_status input with
  | RunStatus.Completed | RunStatus.Abandoned =>
      RetryDecision.NoAction "run is terminal and not retryable"
  | RunStatus.RetryQueued => RetryDecision.NoAction "run is already queued for retry"
  | RunStatus.Created | RunStatus.Released =>
      RetryDecision.Escalate "failure observed for unclaimed run"
  | RunStatus.Claimed | RunStatus.Running | RunStatus.Failed =>
      match ri_operator_override input with
      | Some override_decision => decide_operator_override input policy override_decision
      | None => decide_automatic input policy
      end
  end.

(** ** Continuation *)

Module ContinuationSessionHealth.
Inductive ContinuationSessionHealth := Healthy | Unhealthy | Unknown | Missing.
End ContinuationSessionHealth.
Abbreviation ContinuationSessionHealth := ContinuationSessionHealth.ContinuationSessionHealth.

Module ContinuationReviewState.
Inductive ContinuationReviewState := NotInReview | WaitingForReview | Approved | ChangesRequested.
End ContinuationReviewState.
Abbreviation ContinuationReviewState := ContinuationReviewState.ContinuationReviewState.

Record ContinuationInput := mkContinuationInput {
  ci_task_status : TaskStatus;
  ci_run_status : RunStatus;
  ci_session_health : ContinuationSessionHealth;
  ci_turn_count : Z;
  ci_run_matches_task : bool;
  ci_session_matches_task : bool;
  ci_review_state : option ContinuationReviewState;
  ci_idle_for_secs : Z
}.

Module ContinuationDecision.
Inductive ContinuationDecision :=
| ContinueNow (next_turn : Z) (reason : string)
| Stop (reason : string)
| Escalate (reason : string)
| NoAction (reason : string).
End ContinuationDecision.
Abbreviation ContinuationDecision := ContinuationDecision.ContinuationDecision.

Definition in_review_state (input : ContinuationInput) : bool :=
  match ci_task_status input with
  | TaskStatus.InReview | TaskStatus.ChangesRequested | TaskStatus.Approved => true
  | _ => false
  end
  || match ci_review_state input with
     | Some ContinuationReviewState.WaitingForReview
     | Some ContinuationReviewState.ChangesRequested
     | Some ContinuationReviewState.Approved => true
     | _ => false
     end.

(** [decide_continuation] from the check of the session on *)
Definition decide_session (input : ContinuationInput) (policy : ContinuationPolicyConfig)
    : ContinuationDecision :=
  match ci_session_health input with
  | ContinuationSessionHealth.Unhealthy | ContinuationSessionHealth.Missing =>
      ContinuationDecision.Escalate "session is not healthy"
  | ContinuationSessionHealth.Unknown => ContinuationDecision.NoAction "session health is unknown"
  | ContinuationSessionHealth.Healthy =>
      if negb (ci_run_matches_task input) || negb (ci_session_matches_task input) then
        ContinuationDecision.Escalate "run ownership does not match active task"
      else if (cpc_max_turns_per_run policy <=? ci_turn_count input)%Z then
        ContinuationDecision.Stop "continuation turn cap reached"
      else if (ci_idle_for_secs input <? cpc_idle_prompt_after_secs policy)%Z then
        ContinuationDecision.NoAction "run has not been idle long enough"
      else
        ContinuationDecision.ContinueNow (sat_add u32_max (ci_turn_count input) 1)
          "active run is eligible for continuation"
  end.

Definition decide_continuation (input : ContinuationInput) (policy : ContinuationPolicyConfig)
    : ContinuationDecision :=
  if negb (cpc_enabled policy) then ContinuationDecision.NoAction "continuation policy is disabled"
  else if ((cpc_max_turns_per_run policy =? 0) || (cpc_idle_prompt_after_secs policy =? 0))%Z then
    ContinuationDecision.Escalate "continuation policy is invalid"
  else if is_terminal (ci_task_status input) then ContinuationDecision.Stop "task is terminal"
  else if in_review_state input then ContinuationDecision.Stop "task is in review state"
  else if negb match ci_task_status input with
               | TaskStatus.Assigned | TaskStatus.InProgress => true | _ => false end then
    ContinuationDecision.NoAction "task is not active"
  else match ci_run_status input with
  | RunStatus.Claimed | RunStatus.Running => decide_session input policy
  | RunStatus.Completed | RunStatus.Failed | RunStatus.Abandoned =>
      ContinuationDecision.Stop "run is terminal"
  | RunStatus.RetryQueued => ContinuationDecision.NoAction "run is retry queued"
  | RunStatus.Created | RunStatus.Released => ContinuationDecision.NoAction "run is not claimed"
  end.

(** ** Lemmas *)

(** The attempt a decision starts, if it starts one. *)
Definition retry_attempt (d : RetryDecision) : option Z :=
  match d with
  | RetryDecision.RetryNow n _ | RetryDecision.RetryLater n _ _ _ => Some n
  | _ => None
  end.

Lemma automatic_retry_inv input policy n :
  retry_attempt (decide_automatic input policy) = Some n ->
  rpc_enabled policy = true /\
  (ri_failure_kind input = RetryFailureKind.Transient \/
   ri_failure_kind input = RetryFailureKind.Interrupted) /\
  ri_permission_state input <> Some RetryPermissionState.Denied /\
  ri_permission_state input <> Some RetryPermissionState.Pending /\
  ri_review_status input <> Some RetryReviewStatus.NeedsOperator /\
  (ri_attempt_count input < rpc_max_attempts policy)%Z /\ ri_attempt_count input <> 0%Z /\
  n = sat_add u32_max (ri_attempt_count input) 1.
Proof.
  unfold decide_automatic. destruct (rpc_enabled policy); cbn; [|done].
  destruct (Z.eqb_spec (rpc_max_attempts policy) 0); cbn; [done|].
  destruct (Z.eqb_spec (ri_attempt_count input) 0); cbn; [done|].
  destruct (ri_permission_state input) as [[]|], (ri_review_status input) as [[]|];
    try done; (destruct (Z.leb_spec (rpc_max_attempts policy) (ri_attempt_count input)); [done|]);
    destruct (ri_failure_kind input); intros [= <-]; split_and!; auto; done.
Qed.

Lemma decide_retry_inv input policy n :
  ri_operator_override input = None ->
  retry_attempt (decide_retry input policy) = Some n ->
  retry_attempt (decide_automatic input policy) = Some n /\
  is_terminal (ri_task_status input) = false /\
  ri_run_status input ∈ [RunStatus.Claimed; RunStatus.Running; RunStatus.Failed].
Proof.
  intros Ho. unfold decide_retry. rewrite Ho.
  destruct (is_terminal (ri_task_status input)); [done|].
  destruct (ri_run_status input) eqn:E; try done; intros Hn; split_and!; try done;
    rewrite !elem_of_cons; auto.
Qed.

Lemma retry_delay_formula a policy :
  (1 <= a)%Z -> is_u64 (rpc_base_delay_ms policy) -> (rpc_max_delay_ms policy <= u64_max)%Z ->
  retry_delay_ms a policy =
  Z.min (rpc_base_delay_ms policy * 2 ^ Z.min (a - 1) 31) (rpc_max_delay_ms policy).
Proof.
  intros Ha [??] ?. unfold retry_delay_ms, sat_sub, sat_mul.
  rewrite Z.shiftl_1_l, Z.max_r by lia. lia.
Qed.

Lemma pow2_mono a b : (0 <= a <= b)%Z -> (0 < 2 ^ a <= 2 ^ b)%Z.
Proof.
  intros Hab. split; [apply Z.pow_pos_nonneg; lia|apply Z.pow_le_mono_r; lia].
Qed.

(** One automatic retry: some failure of attempt [a] leads to attempt [a']. *)
Definition auto_retry (policy : RetryPolicyConfig) (a a' : Z) : Prop :=
  exists input, ri_operator_override input = None /\ ri_attempt_count input = a /\
    retry_attempt (decide_retry input policy) = Some a'.

(** [n] automatic retries in a row, from attempt [a]. *)
Inductive auto_retries (policy : RetryPolicyConfig) : nat -> Z -> Z -> Prop :=
| retries_none a : auto_retries policy 0 a a
| retries_one n a a' a'' :
    auto_retry policy a a' -> auto_retries policy n a' a'' -> auto_retries policy (S n) a a''.

Lemma auto_retry_step policy a a' :
  is_u32 (rpc_max_attempts policy) -> auto_retry policy a a' ->
  (a < rpc_max_attempts policy)%Z /\ a' = (a + 1)%Z.
Proof.
  intros [_ Hmax] (input & Ho & <- & H). destruct (decide_retry_inv _ _ _ Ho H) as (Ha & _).
  apply automatic_retry_inv in Ha as (_ & _ & _ & _ & _ & Hlt & _ & ->).
  split; [done|]. unfold sat_add. lia.
Qed.

Lemma decide_session_continue input policy n reason :
  decide_session input policy = ContinuationDecision.ContinueNow n reason <->
  ci_session_health input = ContinuationSessionHealth.Healthy /\
  ci_run_matches_task input = true /\ ci_session_matches_task input = true /\
  (ci_turn_count input < cpc_max_turns_per_run policy)%Z /\
  (cpc_idle_prompt_after_secs policy <= ci_idle_for_secs input)%Z /\
  n = sat_add u32_max (ci_turn_count input) 1 /\
  reason = "active run is eligible for continuation".
Proof.
  unfold decide_session. destruct (ci_session_health input); try (split; [done|intuition done]).
  destruct (ci_run_matches_task input), (ci_session_matches_task input); cbn;
    try (split; [done|intuition done]).
  destruct (Z.leb_spec (cpc_max_turns_per_run policy) (ci_turn_count input));
    [split; [done|intuition lia]|].
  destruct (Z.ltb_spec (ci_idle_for_secs input) (cpc_idle_prompt_after_secs policy));
    [split; [done|intuition lia]|].
  split; [intros [= <- <-]; done|]. by intros (_ & _ & _ & _ & _ & -> & ->).
Qed.

(** The conditions on the task and its review. *)
Definition task_open_for_prompt (input : ContinuationInput) : Prop :=
  (ci_task_status input = TaskStatus.Assigned \/ ci_task_status input = TaskStatus.InProgress) /\
  (ci_review_state input = None \/ ci_review_state input = Some ContinuationReviewState.NotInReview).

Lemma task_guards input {A} (stop1 stop2 none rest : A) :
  task_open_for_prompt input ->
  (if is_terminal (ci_task_status input) then stop1
   else if in_review_state input then stop2
   else if negb match ci_task_status input with
                | TaskStatus.Assigned | TaskStatus.InProgress => true | _ => false end then none
   else rest) = rest.
Proof. unfold in_review_state. by intros [[-> | ->] [-> | ->]]. Qed.

Lemma task_guards_closed input {A} (stop1 stop2 none rest : A) x :
  (if is_terminal (ci_task_status input) then stop1
   else if in_review_state input then stop2
   else if negb match ci_task_status input with
                | TaskStatus.Assigned | TaskStatus.InProgress => true | _ => false end then none
   else rest) = x -> x <> stop1 -> x <> stop2 -> x <> none -> task_open_for_prompt input /\ rest = x.
Proof.
  unfold task_open_for_prompt, in_review_state.
  destruct (ci_task_status input), (ci_review_state input) as [[]|]; cbn; try congruence; auto.
Qed.

Lemma decide_continuation_continue input policy n reason :
  decide_continuation input policy = ContinuationDecision.ContinueNow n reason <->
  cpc_enabled policy = true /\ cpc_max_turns_per_run policy <> 0%Z /\
  cpc_idle_prompt_after_secs policy <> 0%Z /\ task_open_for_prompt input /\
  RunStatus.has_active_claim (ci_run_status input) = true /\
  decide_session input policy = ContinuationDecision.ContinueNow n reason.
Proof.
  unfold decide_continuation. destruct (cpc_enabled policy); cbn [negb]; [|split; [done|intuition done]].
  destruct (Z.eqb_spec (cpc_max_turns_per_run policy) 0); cbn [orb]; [split; [done|intuition done]|].
  destruct (Z.eqb_spec (cpc_idle_prompt_after_secs policy) 0); [split; [done|intuition done]|].
  split.
  - intros H. apply task_guards_closed in H as [Hopen H]; [|done..].
    split_and!; [done..| |]; destruct (ci_run_status input); try discriminate H; done.
  - intros (_ & _ & _ & Hopen & Hact & Hs).
    match goal with |- ?x = _ => set (lhs := x) end.
    assert (Hl : lhs = decide_session input policy); [|congruence].
    unfold lhs. rewrite task_guards by done. by destruct (ci_run_status input).
Qed.

(** ** Properties *)

(** automatic retries are bounded.  Without operator overrides, starting
    from the first attempt of a run at most [max_attempts - 1] retries follow,
    whatever failures, task, review and permission states are observed; each
    one increases the attempt counter by one, and is only decided for a claimed,
    running or failed run of a task that is not merged, after a transient or
    interrupting failure. *)
Theorem automatic_retries_bounded policy n a :
  is_u32 (rpc_max_attempts policy) -> auto_retries policy n 1 a ->
  (Z.of_nat n <= Z.max 0 (rpc_max_attempts policy - 1))%Z /\ a = (1 + Z.of_nat n)%Z.
Proof.
  intros Hmax. enough (Hgen : forall b, auto_retries policy n b a ->
    a = (b + Z.of_nat n)%Z /\ (n <> 0 -> (b + Z.of_nat n <= rpc_max_attempts policy)%Z)).
  { intros [-> Hb]%Hgen. split; [|lia]. destruct n; lia. }
  intros b Hr. induction Hr as [b|n b a' a Hs Hr IH]; [lia|].
  destruct (auto_retry_step _ _ _ Hmax Hs) as [Hlt ->]. destruct IH as [-> IH].
  split; [lia|]. intros _. destruct n; [inversion Hr; lia|]. lia.
Qed.

(** the backoff.  For every attempt the delay before the next one is
    [base * 2^(attempt - 1)], the exponent capped at 31 and the product at
    [max_delay_ms] (the saturation at [u64::MAX] never shows); it never exceeds
    [max_delay_ms] and never decreases from one attempt to the next. *)
Theorem retry_backoff_exact a policy :
  (1 <= a)%Z -> is_u64 (rpc_base_delay_ms policy) -> is_u64 (rpc_max_delay_ms policy) ->
  retry_delay_ms a policy =
    Z.min (rpc_base_delay_ms policy * 2 ^ Z.min (a - 1) 31) (rpc_max_delay_ms policy) /\
  (0 <= retry_delay_ms a policy <= rpc_max_delay_ms policy)%Z /\
  (retry_delay_ms a policy <= retry_delay_ms (a + 1) policy)%Z.
Proof.
  intros Ha Hb [Hm0 Hm]. rewrite !retry_delay_formula by (done || lia).
  pose proof (pow2_mono (Z.min (a - 1) 31) (Z.min (a + 1 - 1) 31)) as Hp.
  destruct Hb as [Hb0 Hb]. split_and!; [done|nia|lia|].
  apply Z.min_le_compat_r, Z.mul_le_mono_nonneg_l; lia.
Qed.

(** a decision to prompt an idle run is safe and the store accepts it.
    Whenever [decide_continuation] answers [ContinueNow], the task is assigned
    or in progress and not in review, the session is healthy and the run has
    been idle long enough; and the turn it proposes is the one the run store
    accepts: recording it on a record with this status and turn count, with the
    current generation and a live lease, succeeds, increases the turn count by
    one and keeps it within the cap. *)
Theorem continuation_decision_accepted input policy n reason r now id t :
  decide_continuation input policy = ContinuationDecision.ContinueNow n reason ->
  rr_status r = ci_run_status input -> rr_continuation_turns r = ci_turn_count input ->
  claim_is_expired_at r now = false -> is_u32 (cpc_max_turns_per_run policy) ->
  task_open_for_prompt input /\ ci_session_health input = ContinuationSessionHealth.Healthy /\
  (cpc_idle_prompt_after_secs policy <= ci_idle_for_secs input)%Z /\
  exists r', continue_record now (mkRunContinuation id (rr_claim_generation r) t n) r = Ok r' /\
    rr_continuation_turns r' = (rr_continuation_turns r + 1)%Z /\
    (rr_continuation_turns r' <= cpc_max_turns_per_run policy)%Z.
Proof.
  intros H Hst Hturn Hlive [_ Hu32].
  apply decide_continuation_continue in H as (_ & _ & _ & Hopen & Hact & Hs).
  apply decide_session_continue in Hs as (Hh & _ & _ & Hcap & Hidle & -> & _).
  split_and!; [done..|]. unfold continue_record. rewrite (proj2 (guard_claim_ok _ _ _ _)) by by rewrite Hst.
  cbn [result_bind rn_turn]. rewrite Hturn, Z.eqb_refl. cbn. eexists. split; [done|]. cbn.
  unfold sat_add. lia.
Qed.

(** ** Witnesses *)

Definition failing_run (a : Z) : RetryInput :=
  mkRetryInput RunStatus.Running RetryFailureKind.Transient a TaskStatus.InProgress None None None.

Lemma automatic_retries_bounded_witness :
  auto_retries RetryPolicyConfig_default 1 1 2 /\ (2 = 1 + Z.of_nat 1)%Z.
Proof.
  assert (H : auto_retries RetryPolicyConfig_default 1 1 2).
  { eapply retries_one; [|constructor]. exists (failing_run 1). vm_compute. auto. }
  split; [exact H|].
  apply (automatic_retries_bounded RetryPolicyConfig_default 1 2); [split; vm_compute; discriminate|exact H].
Defined.

Lemma retry_backoff_exact_witness :
  retry_delay_ms 3 RetryPolicyConfig_default = 40000%Z /\
  (retry_delay_ms 3 RetryPolicyConfig_default <= retry_delay_ms 4 RetryPolicyConfig_default)%Z.
Proof.
  split; [vm_compute; reflexivity|].
  apply (retry_backoff_exact 3 RetryPolicyConfig_default); [lia|split; vm_compute; discriminate..].
Defined.

Definition idle_input : ContinuationInput :=
  mkContinuationInput TaskStatus.InProgress RunStatus.Claimed ContinuationSessionHealth.Healthy 0
    true true None 400.

Definition idle_run : RunRecord :=
  RunRecord_new "r1" "T-1" RunRole.Worker 0 <| rr_status := RunStatus.Claimed |>
    <| rr_claim_generation := 1%Z |> <| rr_lease_expires_at := Some 100%Z |>.

Lemma continuation_decision_accepted_witness :
  exists r', continue_record 50 (mkRunContinuation "r1" 1 50 1) idle_run = Ok r' /\
    rr_continuation_turns r' = 1%Z.
Proof.
  destruct (continuation_decision_accepted idle_input ContinuationPolicyConfig_default 1
    "active run is eligible for continuation" idle_run 50 "r1" 50)
    as (_ & _ & _ & r' & Hr & Ht & _); [reflexivity..|split; vm_compute; discriminate|].
  exists r'. split; [exact Hr|exact Ht].
Defined.
