(* ===== verification/WorkerPool.v ===== *)
(** * Worker pool and assignment engine (worker_pool.rs and assignment.rs of
    brehon-orchestrator)

    The pool of agent sessions with its minimum size, the reconciliation of a
    worker's death, the assignment of tasks to idle workers and the engine that
    picks the worker.

    The gateway that starts sessions is a parameter ([AgentGateway], Ports.v); the pool's
    optional handle on the shared task board is the argument [board], its
    current content ([None] when no board is attached).  Methods take the pool
    by exclusive reference or under a lock, so calls are sequential. *)

From Stdlib Require Import Ascii.
From S2P Require Import Prelude StrLib Types Events TaskLifecycle TaskBoard Ports.

Module WorkerKind.
Inductive WorkerKind := Worker | Reviewer.
End WorkerKind.
Abbreviation WorkerKind := WorkerKind.WorkerKind.

Record WorkerInfo := mkWorkerInfo {
  wi_id : WorkerId;
  wi_kind : WorkerKind;
  wi_agent_type : string;
  wi_session_id : SessionId;
  wi_assigned_task : option string;
  wi_spawned_at : DateTime;
  wi_is_alive : bool
}.

#[export] Instance eta_WorkerInfo : Eta WorkerInfo := fun w =>
  mkWorkerInfo (wi_id w) (wi_kind w) (wi_agent_type w) (wi_session_id w) (wi_assigned_task w)
    (wi_spawned_at w) (wi_is_alive w).

Definition WorkerInfo_new (now : DateTime) (id : WorkerId) (kind : WorkerKind) (agent_type : string)
    (session_id : SessionId) : WorkerInfo :=
  mkWorkerInfo id kind agent_type session_id None now true.

Record WorkerSpawnPlan := mkWorkerSpawnPlan { sp_worker_id : WorkerId; sp_spec : SessionSpec }.

Record WorkerPoolConfig := mkWorkerPoolConfig {
  wc_agent_type : string;
  wc_kind : WorkerKind;
  wc_min_count : nat;
  wc_max_count : nat;
  wc_worktree_base : string
}.

Record WorkerAssignment := mkWorkerAssignment {
  wa_worker_id : WorkerId;
  wa_session_id : SessionId;
  wa_assigned_at : DateTime
}.

Record WorkerPool := mkWorkerPool {
  wp_config : WorkerPoolConfig;
  wp_workers : gmap WorkerId WorkerInfo;
  wp_session_to_worker : gmap SessionId WorkerId;
  wp_assignment_history : list WorkerAssignment;
  wp_max_assignment_history : nat
}.

#[export] Instance eta_WorkerPool : Eta WorkerPool := fun p =>
  mkWorkerPool (wp_config p) (wp_workers p) (wp_session_to_worker p) (wp_assignment_history p)
    (wp_max_assignment_history p).

(** [WorkerPool::with_max_assignment_history]; [WorkerPool::new] uses 1000. *)
Definition with_max_assignment_history (config : WorkerPoolConfig) (max_assignment_history : nat)
    : WorkerPool := mkWorkerPool config ∅ ∅ [] max_assignment_history.

Definition set_max_assignment_history (max : nat) (p : WorkerPool) : WorkerPool :=
  p <| wp_max_assignment_history := max |>.

(** ** Queries *)

Definition is_task_terminal (board : option TaskBoard) (task_id : string) : bool :=
  match board with
  | Some board =>
      match get_task board task_id with
      | Some task => is_terminal (te_status task)
      | None => false
      end
  | None => false
  end.

Definition has_non_terminal_task (board : option TaskBoard) (p : WorkerPool) (worker_id : WorkerId)
    : bool :=
  match wp_workers p !! worker_id with
  | None => false
  | Some worker =>
      match wi_assigned_task worker with
      | None => false
      | Some task_id =>
          match board with
          | Some board =>
              match get_task board task_id with
              | Some task => negb (is_terminal (te_status task))
              | None => true
              end
          | None => true
          end
      end
  end.

(** The filter of [get_idle_worker], [get_idle_workers] and [available_count] *)
Definition worker_is_idle (board : option TaskBoard) (w : WorkerInfo) : bool :=
  wi_is_alive w &&
  match wi_assigned_task w with None => true | Some task_id => is_task_terminal board task_id end.

Section queries.
Context {ord : IterOrder string}.

Definition pool_workers (p : WorkerPool) : list WorkerInfo := (iter_map (wp_workers p)).*2.
Definition alive_workers (p : WorkerPool) : list WorkerInfo := List.filter wi_is_alive (pool_workers p).
Definition alive_count (p : WorkerPool) : nat := length (alive_workers p).
Definition total_count (p : WorkerPool) : nat := size (wp_workers p).
Definition get_idle_workers (board : option TaskBoard) (p : WorkerPool) : list WorkerId :=
  wi_id <$> List.filter (worker_is_idle board) (pool_workers p).
Definition get_idle_worker (board : option TaskBoard) (p : WorkerPool) : option WorkerId :=
  match List.find (worker_is_idle board) (pool_workers p) with
  | Some w => Some (wi_id w)
  | None => None
  end.
Definition available_count (board : option TaskBoard) (p : WorkerPool) : nat :=
  length (List.filter (worker_is_idle board) (pool_workers p)).
Definition can_spawn_more (p : WorkerPool) : bool := Nat.ltb (alive_count p) (wc_max_count (wp_config p)).
End queries.

Definition get_worker (p : WorkerPool) (worker_id : WorkerId) : option WorkerInfo :=
  wp_workers p !! worker_id.
Definition get_worker_by_session (p : WorkerPool) (session_id : SessionId) : option WorkerInfo :=
  match wp_session_to_worker p !! session_id with
  | Some id => wp_workers p !! id
  | None => None
  end.

(** ** Spawning *)

(** [format!("{}", index)] of an unsigned integer *)
Definition fmt_index (index : nat) : string := pretty (N.of_nat index).

Definition spawn_plan (config : WorkerPoolConfig) (index : nat) : WorkerSpawnPlan :=
  let worker_id := wc_agent_type config +:+ "-" +:+ fmt_index index in
  let worktree_path := wc_worktree_base config +:+ "/" +:+ wc_agent_type config +:+ "-"
                       +:+ fmt_index index in
  let role := match wc_kind config with
              | WorkerKind.Worker => "worker"
              | WorkerKind.Reviewer => "reviewer"
              end in
  mkWorkerSpawnPlan worker_id (SessionSpec_new (wc_agent_type config) role worktree_path).

Definition record_spawned_worker (now : DateTime) (plan : WorkerSpawnPlan) (session_id : SessionId)
    (p : WorkerPool) : WorkerPool * WorkerId :=
  let info := WorkerInfo_new now (sp_worker_id plan) (wc_kind (wp_config p))
                (wc_agent_type (wp_config p)) session_id in
  (p <| wp_workers := <[sp_worker_id plan := info]> (wp_workers p) |>
     <| wp_session_to_worker := <[session_id := sp_worker_id plan]> (wp_session_to_worker p) |>,
   sp_worker_id plan).

Section spawning.
Context {ord : IterOrder string} `{AgentGateway}.

Definition plan_spawn_to_min (p : WorkerPool) : list WorkerSpawnPlan :=
  let current_count := alive_count p in
  let needed := wc_min_count (wp_config p) in
  if Nat.leb needed current_count then []
  else (fun i => spawn_plan (wp_config p) (i + current_count)) <$> seq 0 (needed - current_count).

Definition spawn_worker_from_plan (now : DateTime) (plan : WorkerSpawnPlan)
    : SM (gw_state * WorkerPool) OrchestratorError WorkerId := fun '(g, p) =>
  match gw_spawn (sp_spec plan) g with
  | (g', Ok session_id) =>
      let '(p', worker_id) := record_spawned_worker now plan session_id p in ((g', p'), Ok worker_id)
  | (g', Err e) =>
      ((g', p), Err (OrchestratorError.WorkerPoolError ("Failed to spawn worker: " +:+ e)))
  end.

(** The loop of [spawn_to_min]; a failed spawn is logged and skipped. *)
Fixpoint spawn_all (now : DateTime) (plans : list WorkerSpawnPlan) (s : gw_state * WorkerPool)
    : (gw_state * WorkerPool) * list WorkerId :=
  match plans with
  | [] => (s, [])
  | plan :: plans =>
      let '(s1, r) := spawn_worker_from_plan now plan s in
      let '(s2, ids) := spawn_all now plans s1 in
      (s2, match r with Ok id => id :: ids | Err _ => ids end)
  end.

Definition spawn_to_min (now : DateTime) (s : gw_state * WorkerPool)
    : (gw_state * WorkerPool) * list WorkerId :=
  match plan_spawn_to_min s.2 with
  | [] => (s, [])
  | plans => spawn_all now plans s
  end.

(** ** Death *)

Definition mark_dead (w : WorkerInfo) : WorkerInfo :=
  w <| wi_is_alive := false |> <| wi_assigned_task := None |>.

(** [worker_id.as_str().parse().unwrap_or(0)] *)
Definition respawn_index (worker_id : WorkerId) : nat :=
  match parse_u32 worker_id with Some n => Z.to_nat n | None => 0 end.

Definition reconcile_worker_death (session_id : SessionId) (p : WorkerPool)
    : WorkerPool * option WorkerSpawnPlan :=
  match wp_session_to_worker p !! session_id with
  | None => (p, None)
  | Some worker_id =>
      match wp_workers p !! worker_id with
      | None => (p, None)
      | Some worker =>
          let p := p <| wp_workers := <[worker_id := mark_dead worker]> (wp_workers p) |> in
          if Nat.ltb (alive_count p) (wc_min_count (wp_config p)) then
            (p, Some (spawn_plan (wp_config p) (respawn_index worker_id)))
          else (p, None)
      end
  end.

Definition handle_worker_death (now : DateTime) (session_id : SessionId)
    : SM (gw_state * WorkerPool) OrchestratorError (option WorkerId) := fun '(g, p) =>
  let '(p, plan) := reconcile_worker_death session_id p in
  match plan with
  | Some plan =>
      let '(s, r) := spawn_worker_from_plan now plan (g, p) in
      (s, let? worker_id := r in Ok (Some worker_id))
  | None => ((g, p), Ok None)
  end.
End spawning.

Definition mark_workers_dead_by_sessions (sessions : list SessionId) (p : WorkerPool) : WorkerPool :=
  let workers := foldl (fun workers session_id =>
    match wp_session_to_worker p !! session_id with
    | Some worker_id => alter mark_dead worker_id workers
    | None => workers
    end) (wp_workers p) sessions in
  p <| wp_workers := workers |>
    <| wp_session_to_worker := filter (fun kv =>
         match workers !! kv.2 with Some w => wi_is_alive w | None => false end = true)
         (wp_session_to_worker p) |>.

(** ** Assignment *)

Definition worker_not_alive (worker_id : WorkerId) : OrchestratorError :=
  OrchestratorError.AssignmentError ("Worker " +:+ worker_id +:+ " is not alive").

Definition worker_busy (board : option TaskBoard) (worker_id existing : string) : OrchestratorError :=
  let status_info := match board with
    | Some board =>
        match get_task board existing with
        | Some task => debug_TaskStatus (te_status task)
        | None => "unknown"
        end
    | None => "unknown (no task board)"
    end in
  OrchestratorError.AssignmentError ("Worker " +:+ worker_id +:+ " already has non-terminal task "
    +:+ existing +:+ " (status: " +:+ status_info +:+ "). Cannot assign another.").

(** [WorkerPool::assign_task] *)
Definition pool_assign_task (board : option TaskBoard) (now : DateTime) (worker_id : WorkerId)
    (task_id : string) : SM WorkerPool OrchestratorError unit := fun p =>
  match wp_workers p !! worker_id with
  | None => (p, Err (OrchestratorError.WorkerNotFound worker_id))
  | Some worker =>
      if negb (wi_is_alive worker) then (p, Err (worker_not_alive worker_id))
      else
        let busy := match wi_assigned_task worker with
          | Some existing =>
              if has_non_terminal_task board p worker_id then Some existing else None
          | None => None
          end in
        match busy with
        | Some existing => (p, Err (worker_busy board worker_id existing))
        | None =>
            let history := wp_assignment_history p
                           ++ [mkWorkerAssignment worker_id (wi_session_id worker) now] in
            let excess := length history - wp_max_assignment_history p in
            (p <| wp_workers :=
                    <[worker_id := worker <| wi_assigned_task := Some task_id |>]> (wp_workers p) |>
               <| wp_assignment_history := drop excess history |>,
             Ok tt)
        end
  end.

Definition clear_assignment (worker_id : WorkerId) : SM WorkerPool OrchestratorError unit := fun p =>
  match wp_workers p !! worker_id with
  | None => (p, Err (OrchestratorError.WorkerNotFound worker_id))
  | Some worker =>
      (p <| wp_workers := <[worker_id := worker <| wi_assigned_task := None |>]> (wp_workers p) |>,
       Ok tt)
  end.

(** ** The assignment engine (assignment.rs) *)

Record Assignment := mkAssignment {
  as_task_id : TaskId;
  as_worker_id : WorkerId;
  as_session_id : SessionId;
  as_assigned_at : DateTime
}.

(** The engine's own state and the pool it shares. *)
Record AssignmentEngine := mkAssignmentEngine {
  ae_worker_pool : WorkerPool;
  ae_round_robin_indices : gmap string nat;
  ae_assignment_history : list Assignment
}.

#[export] Instance eta_AssignmentEngine : Eta AssignmentEngine := fun e =>
  mkAssignmentEngine (ae_worker_pool e) (ae_round_robin_indices e) (ae_assignment_history e).

(** [round_robin_select] on a list that is not empty; [first] is its head. *)
Definition round_robin_select (first : WorkerInfo) (rest : list WorkerInfo)
    (indices : gmap string nat) : gmap string nat * WorkerId :=
  let workers := first :: rest in
  let agent_type := wi_agent_type first in
  let index := default 0 (indices !! agent_type) in
  let selected := default first (workers !! (index mod length workers)) in
  (<[agent_type := (index + 1) mod length workers]> indices, wi_id selected).

Section engine.
Context {ord : IterOrder string}.

Definition select_worker_for_task : SM AssignmentEngine OrchestratorError WorkerId := fun e =>
  let idle_workers := List.filter (fun w => match wi_assigned_task w with None => true | _ => false end)
                        (alive_workers (ae_worker_pool e)) in
  match idle_workers with
  | [] => (e, Err OrchestratorError.NoAvailableWorkers)
  | [w] => (e, Ok (wi_id w))
  | first :: rest =>
      let '(indices, worker_id) := round_robin_select first rest (ae_round_robin_indices e) in
      (e <| ae_round_robin_indices := indices |>, Ok worker_id)
  end.

(** [AssignmentEngine::assign_task]; [reassign_task] has the same body. *)
Definition engine_assign_task (board : option TaskBoard) (now : DateTime) (task : TaskEntry)
    : SM AssignmentEngine OrchestratorError Assignment :=
  let! worker_id := select_worker_for_task in
  fun e =>
    match get_worker (ae_worker_pool e) worker_id with
    | None => (e, Err (OrchestratorError.AssignmentError ("Worker " +:+ worker_id +:+ " not found")))
    | Some worker =>
        let assignment := mkAssignment (te_id task) worker_id (wi_session_id worker) now in
        match pool_assign_task board now worker_id (te_id task) (ae_worker_pool e) with
        | (pool, Ok _) =>
            (e <| ae_worker_pool := pool |>
               <| ae_assignment_history := ae_assignment_history e ++ [assignment] |>,
             Ok assignment)
        | (pool, Err err) => (e <| ae_worker_pool := pool |>, Err err)
        end
    end.
End engine.

(** [AssignmentEngine::handle_worker_death] *)
Definition affected_tasks (worker_id : WorkerId) (e : AssignmentEngine) : list TaskId :=
  as_task_id <$> filter (fun a => as_worker_id a = worker_id) (ae_assignment_history e).

Definition get_assignment_for_task (task_id : TaskId) (e : AssignmentEngine) : option Assignment :=
  List.find (fun a => bool_decide (as_task_id a = task_id)) (reverse (ae_assignment_history e)).

Definition get_assignments_for_worker (worker_id : WorkerId) (e : AssignmentEngine) : list Assignment :=
  filter (fun a => as_worker_id a = worker_id) (ae_assignment_history e).

Definition clear_completed (completed_tasks : list TaskId) (e : AssignmentEngine) : AssignmentEngine :=
  e <| ae_worker_pool := foldl (fun pool a =>
         if bool_decide (as_task_id a ∈ completed_tasks)
         then (clear_assignment (as_worker_id a) pool).1 else pool)
       (ae_worker_pool e) (ae_assignment_history e) |>.

(** ** Invariant *)

Record pool_inv (p : WorkerPool) : Prop := {
  pi_own : forall id w, wp_workers p !! id = Some w -> wi_id w = id;
  pi_dead : forall id w, wp_workers p !! id = Some w -> wi_is_alive w = false -> wi_assigned_task w = None
}.

Lemma pool_inv_insert p id w sessions history :
  pool_inv p -> wi_id w = id -> (wi_is_alive w = false -> wi_assigned_task w = None) ->
  pool_inv (mkWorkerPool (wp_config p) (<[id := w]> (wp_workers p)) sessions history
              (wp_max_assignment_history p)).
Proof.
  intros [Hown Hdead] Hid Hd. split; cbn; intros i u; rewrite lookup_insert_Some;
    intros [[<- <-]|[_ Hu]]; eauto.
Qed.

Lemma record_spawned_inv now plan sid p : pool_inv p -> pool_inv (record_spawned_worker now plan sid p).1.
Proof. intros Hp. by apply (pool_inv_insert p). Qed.

Lemma reconcile_death_inv {ord : IterOrder string} sid p :
  pool_inv p -> pool_inv (reconcile_worker_death sid p).1.
Proof.
  intros Hp. unfold reconcile_worker_death.
  destruct (wp_session_to_worker p !! sid) as [id|]; [|done].
  destruct (wp_workers p !! id) as [w|] eqn:Hw; [|done].
  case_match; cbn; (apply (pool_inv_insert p); [done|exact (pi_own p Hp _ _ Hw)|done]).
Qed.

Lemma clear_assignment_inv id p : pool_inv p -> pool_inv (clear_assignment id p).1.
Proof.
  intros Hp. unfold clear_assignment. destruct (wp_workers p !! id) as [w|] eqn:Hw; [|done].
  apply (pool_inv_insert p); [done|exact (pi_own p Hp _ _ Hw)|done].
Qed.

Lemma pool_assign_inv board now id t p : pool_inv p -> pool_inv (pool_assign_task board now id t p).1.
Proof.
  intros Hp. unfold pool_assign_task. destruct (wp_workers p !! id) as [w|] eqn:Hw; [|done].
  destruct (wi_is_alive w) eqn:Ha; [|done]. cbn [negb].
  case_match; [done|]. apply (pool_inv_insert p); [done|exact (pi_own p Hp _ _ Hw)|]. cbn. congruence.
Qed.

Lemma mark_dead_sessions_inv sessions p : pool_inv p -> pool_inv (mark_workers_dead_by_sessions sessions p).
Proof.
  intros [Hown Hdead]. unfold mark_workers_dead_by_sessions.
  set (workers := foldl _ (wp_workers p) sessions).
  assert (Hw : forall id w, workers !! id = Some w ->
    wi_id w = id /\ (wi_is_alive w = false -> wi_assigned_task w = None)).
  { unfold workers. generalize (wp_workers p), Hown, Hdead. clear workers Hown Hdead.
    induction sessions as [|s sessions IH]; intros m Hown Hdead; cbn [foldl]; [eauto|].
    destruct (wp_session_to_worker p !! s) as [i|]; [|by apply IH].
    apply IH; intros j u; rewrite lookup_alter_Some; intros [(-> & v & Hv & ->)|[_ ?]]; cbn; eauto. }
  split; cbn; intros id w H; destruct (Hw id w H); auto.
Qed.

#[export] Hint Resolve record_spawned_inv reconcile_death_inv clear_assignment_inv pool_assign_inv
  mark_dead_sessions_inv : brehon.

(** ** Assignment *)

(** The workers the engine chooses among. *)
Definition is_free (w : WorkerInfo) : bool :=
  wi_is_alive w && match wi_assigned_task w with None => true | _ => false end.

Lemma filter_filter {A} (f g : A -> bool) l :
  List.filter f (List.filter g l) = List.filter (fun x => g x && f x) l.
Proof. induction l as [|x l IH]; cbn; [done|]. destruct (g x); cbn; [destruct (f x)|]; by rewrite IH. Qed.

Lemma elem_of_free {ord : IterOrder string} p w :
  w ∈ List.filter is_free (pool_workers p) <->
  is_free w = true /\ exists id, wp_workers p !! id = Some w.
Proof.
  unfold pool_workers. rewrite list_elem_of_In, filter_In, <-list_elem_of_In, elem_of_iter_map_snd. naive_solver.
Qed.

(** The engine picks a free worker, and picks one whenever there is one. *)
Lemma select_worker_cases {ord : IterOrder string} e :
  pool_inv (ae_worker_pool e) ->
  match select_worker_for_task e with
  | (e', Ok id) => ae_worker_pool e' = ae_worker_pool e /\
      ae_assignment_history e' = ae_assignment_history e /\
      exists w, wp_workers (ae_worker_pool e) !! id = Some w /\ is_free w = true
  | (e', Err err) => e' = e /\ err = OrchestratorError.NoAvailableWorkers /\
      forall id w, wp_workers (ae_worker_pool e) !! id = Some w -> is_free w = false
  end.
Proof.
  intros Hp. unfold select_worker_for_task, alive_workers. rewrite filter_filter.
  change (fun x => wi_is_alive x && _) with is_free.
  pose proof (elem_of_free (ae_worker_pool e)) as Hel.
  assert (Hpick : forall w, w ∈ List.filter is_free (pool_workers (ae_worker_pool e)) ->
    exists u, wp_workers (ae_worker_pool e) !! wi_id w = Some u /\ is_free u = true).
  { intros w [Hf [id Hid]]%Hel. exists w. by rewrite (pi_own _ Hp _ _ Hid). }
  destruct (List.filter is_free (pool_workers (ae_worker_pool e))) as [|w1 [|w2 l]].
  - split_and!; [done..|]. intros id w Hw. destruct (is_free w) eqn:Hf; [|done].
    assert (Hin : w ∈ @nil WorkerInfo) by (apply Hel; eauto). by apply elem_of_nil in Hin.
  - split_and!; [done..|]. apply Hpick. left.
  - cbn. split_and!; [done..|]. apply Hpick.
    set (ws := w1 :: w2 :: l).
    destruct (ws !! _) as [w|] eqn:Hw; cbn; [by eapply list_elem_of_lookup_2|left].
Qed.

Lemma pool_assign_free board now id t p w :
  wp_workers p !! id = Some w -> is_free w = true ->
  exists p', pool_assign_task board now id t p = (p', Ok tt) /\
    wp_workers p' = <[id := w <| wi_assigned_task := Some t |>]> (wp_workers p) /\
    wp_session_to_worker p' = wp_session_to_worker p /\
    length (wp_assignment_history p') <= wp_max_assignment_history p.
Proof.
  intros Hw [Ha Ht]%andb_true_iff. unfold pool_assign_task. rewrite Hw, Ha. cbn [negb].
  destruct (wi_assigned_task w); [done|]. eexists. split_and!; [done..|]. cbn.
  rewrite length_drop. lia.
Qed.

(** ** Contiguous pools *)

Definition plan_id (c : WorkerPoolConfig) (i : nat) : WorkerId := sp_worker_id (spawn_plan c i).

Lemma plan_id_inj c i j : plan_id c i = plan_id c j -> i = j.
Proof.
  unfold plan_id; cbn. intros H%append_inj_l%append_inj_l. unfold fmt_index in H.
  apply (inj pretty) in H. lia.
Qed.

Lemma plan_id_dash c i : occurs "-" (plan_id c i) = true.
Proof. unfold plan_id; cbn. rewrite occurs_app. cbn. apply orb_true_r. Qed.

(** No worker id of the pool is a number, so a respawn always takes index 0. *)
Lemma respawn_index_zero c i : respawn_index (plan_id c i) = 0.
Proof.
  unfold respawn_index, parse_u32.
  by rewrite (parse_unsigned_none _ "-"%char _ eq_refl ltac:(done) (plan_id_dash c i)).
Qed.

(** The living workers are those of indices [0..k-1]. *)
Definition contiguous (k : nat) (p : WorkerPool) : Prop :=
  forall id, id ∈ keys_where wi_is_alive (wp_workers p) <-> exists i, i < k /\ id = plan_id (wp_config p) i.

Lemma alive_count_keys {ord : IterOrder string} p : alive_count p = size (keys_where wi_is_alive (wp_workers p)).
Proof. apply count_values. Qed.

Lemma contiguous_count {ord : IterOrder string} k p : contiguous k p -> alive_count p = k.
Proof.
  intros Hc. rewrite alive_count_keys.
  replace (keys_where wi_is_alive (wp_workers p))
    with (list_to_set (plan_id (wp_config p) <$> seq 0 k) : gset string).
  - rewrite size_list_to_set; [by rewrite length_fmap, length_seq|].
    apply NoDup_fmap_2_strong; [|apply NoDup_seq]. intros i j _ _. apply plan_id_inj.
  - apply leibniz_equiv. intros id. rewrite elem_of_list_to_set, list_elem_of_fmap, (Hc id).
    setoid_rewrite elem_of_seq. split; intros (i & ? & ?); exists i; split; done || lia.
Qed.

Lemma record_spawned_keys now plan sid p id :
  id ∈ keys_where wi_is_alive (wp_workers (record_spawned_worker now plan sid p).1) <->
  id = sp_worker_id plan \/ id ∈ keys_where wi_is_alive (wp_workers p).
Proof.
  rewrite !elem_of_keys_where. cbn. split.
  - intros (w & [[<- <-]|[Hne Hw]]%lookup_insert_Some & Ha); eauto.
  - intros [->|(w & Hw & Ha)]; [eexists; by rewrite lookup_insert_eq|].
    destruct (decide (id = sp_worker_id plan)) as [->|Hne];
      [eexists; by rewrite lookup_insert_eq|exists w; by rewrite lookup_insert_ne].
Qed.

(** Every pool the program can build; [mark_workers_dead_by_sessions] is the
    shutdown path. *)
Inductive pool_reachable : WorkerPool -> Prop :=
| pool_reach_new config max : pool_reachable (with_max_assignment_history config max)
| pool_reach_history max p : pool_reachable p -> pool_reachable (set_max_assignment_history max p)
| pool_reach_spawn now plan sid p :
    pool_reachable p -> pool_reachable (record_spawned_worker now plan sid p).1
| pool_reach_death (ord : IterOrder string) sid p :
    pool_reachable p -> pool_reachable (reconcile_worker_death sid p).1
| pool_reach_assign board now id t p :
    pool_reachable p -> pool_reachable (pool_assign_task board now id t p).1
| pool_reach_clear id p : pool_reachable p -> pool_reachable (clear_assignment id p).1
| pool_reach_shutdown sessions p :
    pool_reachable p -> pool_reachable (mark_workers_dead_by_sessions sessions p).

Lemma reachable_pool_inv p : pool_reachable p -> pool_inv p.
Proof.
  induction 1; auto with brehon.
  - split; cbn; intros id w; by rewrite lookup_empty.
  - destruct IHpool_reachable. by split.
Qed.

(** A dead worker leaves the set of living ones. *)
Lemma mark_dead_keys id w (m : gmap WorkerId WorkerInfo) :
  keys_where wi_is_alive (<[id := mark_dead w]> m) = keys_where wi_is_alive m ∖ {[id]}.
Proof.
  apply leibniz_equiv. intros i. rewrite elem_of_difference, elem_of_singleton, !elem_of_keys_where.
  destruct (decide (i = id)) as [->|Hne].
  - rewrite lookup_insert_eq. split; [intros (v & [= <-] & Hv); done|intros [_ []]; done].
  - rewrite lookup_insert_ne by done. naive_solver.
Qed.

Section spawning_lemmas.
Context {ord : IterOrder string} `{AgentGateway}.

(** A gateway that always starts the session. *)
Definition gateway_up : Prop := forall spec g, exists g' sid, gw_spawn spec g = (g', Ok sid).

Lemma record_spawned_contiguous now sid k p :
  contiguous k p -> contiguous (S k) (record_spawned_worker now (spawn_plan (wp_config p) k) sid p).1.
Proof.
  intros Hc id. rewrite record_spawned_keys, (Hc id). cbn. split.
  - intros [->|(i & Hi & ->)]; [exists k|exists i]; (split; [lia|done]).
  - intros (i & Hi & ->). destruct (decide (i = k)) as [->|Hne]; [by left|].
    right. exists i. split; [lia|done].
Qed.

Lemma spawn_all_contiguous now n : gateway_up -> forall k g p,
  contiguous k p ->
  let '((g', p'), ids) :=
    spawn_all now ((fun i => spawn_plan (wp_config p) (i + k)) <$> seq 0 n) (g, p) in
  contiguous (n + k) p' /\ wp_config p' = wp_config p /\
  ids = (fun i => plan_id (wp_config p) (i + k)) <$> seq 0 n.
Proof.
  intros Hup. induction n as [|n IH]; intros k g p Hc; [done|].
  cbn [seq fmap list_fmap spawn_all]. rewrite <-fmap_S_seq, <-!list_fmap_compose.
  unfold spawn_worker_from_plan at 1.
  destruct (Hup (sp_spec (spawn_plan (wp_config p) (0 + k))) g) as (g1 & sid & Hs). rewrite Hs.
  set (p1 := (record_spawned_worker now (spawn_plan (wp_config p) (0 + k)) sid p).1).
  specialize (IH (S k) g1 p1 (record_spawned_contiguous now sid k p Hc)).
  change (record_spawned_worker now (spawn_plan (wp_config p) (0 + k)) sid p)
    with (p1, sp_worker_id (spawn_plan (wp_config p) (0 + k))).
  assert (Hext : forall A (f : nat -> A), (f ∘ (fun i => i + S k)) <$> seq 0 n = ((fun i => f (i + k)) ∘ S) <$> seq 0 n).
  { intros A f. apply list_fmap_ext. intros ? i _. cbn. f_equal. lia. }
  change (wp_config p1) with (wp_config p) in IH.
  pose proof (Hext _ (spawn_plan (wp_config p))) as H1.
  pose proof (Hext _ (plan_id (wp_config p))) as H2. unfold compose in *.
  rewrite H1, H2 in IH. destruct (spawn_all now _ (g1, p1)) as [[g' p'] ids].
  destruct IH as (Hc' & Hcfg & ->). split_and!; [|done|done].
  by replace (S n + k) with (n + S k) by lia.
Qed.
End spawning_lemmas.

(** The cases of [AssignmentEngine::assign_task]. *)
Lemma engine_assign_cases (ord : IterOrder string) board now task e e' r :
  pool_inv (ae_worker_pool e) -> engine_assign_task board now task e = (e', r) ->
  match r with
  | Ok a => exists w,
      wp_workers (ae_worker_pool e) !! as_worker_id a = Some w /\ is_free w = true /\
      as_task_id a = te_id task /\ as_session_id a = wi_session_id w /\
      wp_workers (ae_worker_pool e') =
        <[as_worker_id a := w <| wi_assigned_task := Some (te_id task) |>]> (wp_workers (ae_worker_pool e)) /\
      ae_assignment_history e' = ae_assignment_history e ++ [a] /\
      length (wp_assignment_history (ae_worker_pool e')) <= wp_max_assignment_history (ae_worker_pool e)
  | Err err => err = OrchestratorError.NoAvailableWorkers /\ e' = e /\
      forall id w, wp_workers (ae_worker_pool e) !! id = Some w -> is_free w = false
  end.
Proof.
  intros Hp Hrun. unfold engine_assign_task, sm_bind in Hrun.
  pose proof (select_worker_cases e Hp) as Hsel.
  destruct (select_worker_for_task e) as [e1 [id|err]].
  - destruct Hsel as (Hpool & Hhist & w & Hw & Hfree). unfold get_worker in Hrun. rewrite Hpool, Hw in Hrun.
    destruct (pool_assign_free board now id (te_id task) _ w Hw Hfree) as (p' & Hok & Hw' & _ & Hlen).
    rewrite Hok in Hrun. injection Hrun as <- <-. exists w. cbn. rewrite Hhist. done.
  - injection Hrun as <- <-. destruct Hsel as (-> & -> & Hnone). done.
Qed.

(** ** Properties *)

(** assignment is exclusive and never fails while a worker is free.  On a
    pool the program can build, [assign_task] of the engine either returns
    [NoAvailableWorkers], and then no living worker is without a task and
    nothing has changed, or it picks one living worker that had no task, gives
    it this task and no other worker anything, records the assignment with that
    worker's session, and keeps the pool's history within its bound. *)
Theorem assignment_is_exclusive (ord : IterOrder string) board now task e e' r :
  pool_reachable (ae_worker_pool e) -> engine_assign_task board now task e = (e', r) ->
  match r with
  | Ok a => exists w,
      wp_workers (ae_worker_pool e) !! as_worker_id a = Some w /\ is_free w = true /\
      as_task_id a = te_id task /\ as_session_id a = wi_session_id w /\
      wp_workers (ae_worker_pool e') =
        <[as_worker_id a := w <| wi_assigned_task := Some (te_id task) |>]> (wp_workers (ae_worker_pool e)) /\
      ae_assignment_history e' = ae_assignment_history e ++ [a] /\
      length (wp_assignment_history (ae_worker_pool e')) <= wp_max_assignment_history (ae_worker_pool e)
  | Err err => err = OrchestratorError.NoAvailableWorkers /\ e' = e /\
      forall id w, wp_workers (ae_worker_pool e) !! id = Some w -> is_free w = false
  end.
Proof. intros Hp%reachable_pool_inv. by apply engine_assign_cases. Qed.

(** [spawn_to_min] reaches the minimum.  When the living workers are the
    first [k] by index (as in a new pool, [k = 0]) and the gateway starts every
    session, it spawns exactly the missing ones, with the next indices, and the
    pool then has [max(k, min_count)] living workers; a second call spawns
    nothing. *)
Theorem spawn_to_min_reaches_minimum (ord : IterOrder string) `{AgentGateway} now k g p g' p' ids :
  gateway_up -> contiguous k p -> spawn_to_min now (g, p) = ((g', p'), ids) ->
  let n := wc_min_count (wp_config p) - k in
  contiguous (n + k) p' /\ alive_count p' = Nat.max k (wc_min_count (wp_config p)) /\
  ids = (fun i => plan_id (wp_config p) (i + k)) <$> seq 0 n /\
  spawn_to_min now (g', p') = ((g', p'), []).
Proof.
  intros Hup Hc Hrun n.
  assert (Hres : contiguous (n + k) p' /\ wp_config p' = wp_config p /\
    ids = (fun i => plan_id (wp_config p) (i + k)) <$> seq 0 n).
  { unfold spawn_to_min, plan_spawn_to_min in Hrun. cbn [snd] in Hrun.
    rewrite (contiguous_count k p Hc) in Hrun.
    destruct (Nat.leb_spec (wc_min_count (wp_config p)) k).
    - injection Hrun as <- <- <-. unfold n. by replace (wc_min_count (wp_config p) - k) with 0 by lia.
    - pose proof (spawn_all_contiguous now n Hup k g p Hc) as Hs. fold n in Hrun.
      destruct n as [|n'] eqn:En; [lia|]. cbn [seq fmap list_fmap] in Hrun, Hs.
      rewrite Hrun in Hs. exact Hs. }
  destruct Hres as (Hc' & Hcfg & Hids). pose proof (contiguous_count (n + k) p' Hc') as Hn.
  split_and!; [done|rewrite Hn; unfold n; lia|done|].
  unfold spawn_to_min, plan_spawn_to_min. cbn [snd]. rewrite Hn, Hcfg.
  destruct (Nat.leb_spec (wc_min_count (wp_config p)) (n + k)); [done|unfold n in *; lia].
Qed.

(** a death below the minimum replaces the first worker instead of the dead
    one.  The replacement's index is read off the dead worker's id as if it
    were a number; ids are [type-index], so the index is always 0.  In a pool
    at its minimum [k], when worker [j >= 1] dies and the gateway starts the
    replacement, the new session takes the place of the living worker 0, whose
    session is forgotten, and the pool is left with [k - 1] living workers,
    below its minimum. *)
Theorem death_replaces_worker_zero (ord : IterOrder string) `{AgentGateway} now k g p j sid g1 sid' :
  contiguous k p -> wc_min_count (wp_config p) = k -> 1 <= j < k ->
  wp_session_to_worker p !! sid = Some (plan_id (wp_config p) j) ->
  gw_spawn (sp_spec (spawn_plan (wp_config p) 0)) g = (g1, Ok sid') ->
  exists p' w0 w0',
    handle_worker_death now sid (g, p) = ((g1, p'), Ok (Some (plan_id (wp_config p) 0))) /\
    wp_workers p !! plan_id (wp_config p) 0 = Some w0 /\ wi_is_alive w0 = true /\
    wp_workers p' !! plan_id (wp_config p) 0 = Some w0' /\ wi_session_id w0' = sid' /\
    alive_count p' = k - 1.
Proof.
  intros Hc Hmin Hj Hsid Hspawn. set (c := wp_config p) in *.
  assert (Halive : forall i, i < k -> exists w, wp_workers p !! plan_id c i = Some w /\ wi_is_alive w = true).
  { intros i Hi. apply elem_of_keys_where, Hc. by exists i. }
  destruct (Halive j ltac:(lia)) as (wj & Hwj & _), (Halive 0 ltac:(lia)) as (w0 & Hw0 & Ha0).
  set (p1 := p <| wp_workers := <[plan_id c j := mark_dead wj]> (wp_workers p) |>).
  assert (Hk1 : keys_where wi_is_alive (wp_workers p1) = keys_where wi_is_alive (wp_workers p) ∖ {[plan_id c j]})
    by apply mark_dead_keys.
  assert (Hn1 : alive_count p1 = k - 1).
  { rewrite alive_count_keys, Hk1, size_difference, size_singleton, <-alive_count_keys, (contiguous_count k p Hc);
      [done|]. apply singleton_subseteq_l, Hc. exists j. split; [lia|done]. }
  assert (Hrec : reconcile_worker_death sid p = (p1, Some (spawn_plan c 0))).
  { unfold reconcile_worker_death. rewrite Hsid, Hwj. fold p1.
    change (wp_config p1) with c. rewrite Hn1, Hmin, respawn_index_zero.
    destruct (Nat.ltb_spec (k - 1) k); [done|lia]. }
  unfold handle_worker_death. rewrite Hrec. unfold spawn_worker_from_plan. rewrite Hspawn.
  eexists _, w0, _. split; [done|]. split_and!; [done|done|cbn; apply lookup_insert_eq|done|].
  rewrite alive_count_keys, <-Hn1, alive_count_keys. f_equal. apply leibniz_equiv. intros id.
  etrans; [exact (record_spawned_keys now (spawn_plan c 0) sid' p1 id)|].
  split; [|by right]. intros [->|?]; [|done]. rewrite Hk1, elem_of_difference, elem_of_singleton. split.
  - apply Hc. exists 0. split; [lia|done].
  - intros Heq%plan_id_inj. lia.
Qed.

(** ** Witnesses *)

(** A gateway that numbers its sessions. *)
Definition counting_gateway : AgentGateway := {|
  gw_state := nat;
  gw_spawn := fun _ n => (S n, Ok ("session-" +:+ fmt_index n));
  gw_kill_session := fun _ n => (n, Ok tt)
|}.

Definition sample_config : WorkerPoolConfig :=
  mkWorkerPoolConfig "claude" WorkerKind.Worker 2 3 "/tmp/worktrees".

Definition sample_pool : WorkerPool := with_max_assignment_history sample_config 1000.

(** Two workers, started by [spawn_to_min]. *)
Definition two_workers : WorkerPool :=
  (record_spawned_worker 1 (spawn_plan sample_config 1) "session-1"
    (record_spawned_worker 1 (spawn_plan sample_config 0) "session-0" sample_pool).1).1.

Definition sample_engine : AssignmentEngine := mkAssignmentEngine two_workers ∅ [].
Definition sample_task : TaskEntry := TaskEntry_new 5 "T-1" "title" "".

Lemma empty_contiguous : contiguous 0 sample_pool.
Proof.
  intros id. rewrite elem_of_keys_where. cbn. split; [intros (w & Hw & _); by rewrite lookup_empty in Hw|].
  intros (i & Hi & _). lia.
Defined.

Lemma two_workers_contiguous : contiguous 2 two_workers.
Proof. exact (record_spawned_contiguous _ _ 1 _ (record_spawned_contiguous _ _ 0 _ empty_contiguous)). Defined.

Lemma two_workers_reachable : pool_reachable two_workers.
Proof. repeat constructor. Defined.

Lemma assignment_is_exclusive_witness :
  exists e' a, engine_assign_task (ord := canonical_order string) None 9 sample_task sample_engine = (e', Ok a) /\
    as_task_id a = "T-1".
Proof.
  destruct (engine_assign_task (ord := canonical_order string) None 9 sample_task sample_engine)
    as [e' [a|err]] eqn:E; [|vm_compute in E; discriminate].
  exists e', a. split; [reflexivity|].
  destruct (assignment_is_exclusive (canonical_order string) None 9 sample_task sample_engine e' (Ok a)
    two_workers_reachable E) as (w & _ & _ & Ht & _). exact Ht.
Defined.

Lemma spawn_to_min_reaches_minimum_witness :
  (spawn_to_min (ord := canonical_order string) (H := counting_gateway) 1 (0, sample_pool)).2
  = ["claude-0"; "claude-1"].
Proof.
  destruct (spawn_to_min (ord := canonical_order string) (H := counting_gateway) 1 (0, sample_pool))
    as [[g' p'] ids] eqn:E.
  destruct (spawn_to_min_reaches_minimum (canonical_order string) (H := counting_gateway)
    1 0 0 sample_pool g' p' ids) as (_ & _ & Hids & _).
  - intros spec g. eexists _, _. reflexivity.
  - exact empty_contiguous.
  - exact E.
  - cbn [snd]. rewrite Hids. vm_compute. reflexivity.
Defined.

Lemma death_replaces_worker_zero_witness :
  exists p', alive_count (ord := canonical_order string) p' = 1 /\
    handle_worker_death (ord := canonical_order string) (H := counting_gateway)
      9 "session-1" (2, two_workers) = ((3, p'), Ok (Some "claude-0")).
Proof.
  destruct (death_replaces_worker_zero (canonical_order string) (H := counting_gateway)
    9 2 2 two_workers 1 "session-1" 3 "session-2") as (p' & w0 & w0' & Hrun & _ & _ & _ & _ & Hn).
  - exact two_workers_contiguous.
  - reflexivity.
  - lia.
  - vm_compute. reflexivity.
  - vm_compute. reflexivity.
  - exists p'. split; [exact Hn|exact Hrun].
Defined.
