(* ===== verification/Scoring.v ===== *)
(** * Score collection and threshold evaluation (brehon-review/src/scoring.rs)

    The collector keeps the last score and verdict of each reviewer; the
    evaluator compares them with the review policy.  The average is a quotient
    of doubles: [f64_div_int] computes the double nearest to the quotient, and
    the comparison with a small integer is shown exact.  Proved here: the
    outcome of [evaluate] for every collection, whatever the order of the hash
    map, and the collections on which the code misjudges the number of
    approvals. *)

From S2P Require Import Prelude Types.

(** ** Doubles

    A non-negative finite [f64] as [mantissa * 2^-scale]. *)

Record f64 := mkF64 { f64_mantissa : Z; f64_scale : Z }.

Definition f64_of_int (z : Z) : f64 := mkF64 z 0.

(** The integer nearest to [num / den], ties to even. *)
Definition round_half_even (num den : Z) : Z :=
  let q := (num / den)%Z in
  let r := (num mod den)%Z in
  if (2 * r <? den)%Z then q
  else if (den <? 2 * r)%Z then (q + 1)%Z
  else if Z.even q then q else (q + 1)%Z.

(** The exponent of the quotient: [2^e <= t / n < 2^(e + 1)]. *)
Definition quotient_exponent (t n : Z) : Z :=
  let e := (Z.log2 t - Z.log2 n)%Z in
  if (t * 2 ^ Z.max 0 (- e) <? n * 2 ^ Z.max 0 e)%Z then (e - 1)%Z else e.

(** [t as f64 / n as f64] for integers below [2^53], which convert exactly: the
    quotient with a mantissa of 53 bits, rounded to nearest, ties to even. *)
Definition f64_div_int (t n : Z) : f64 :=
  if (t =? 0)%Z then mkF64 0 0
  else let s := (52 - quotient_exponent t n)%Z in mkF64 (round_half_even (t * 2 ^ s) n) s.

Definition f64_ltb (a b : f64) : bool :=
  (f64_mantissa a * 2 ^ f64_scale b <? f64_mantissa b * 2 ^ f64_scale a)%Z.

(** ** The collector *)

Module ThresholdResult.
Inductive ThresholdResult := Approved | ChangesRequested | Rejected | NeedMoreReviewers.
End ThresholdResult.
Abbreviation ThresholdResult := ThresholdResult.ThresholdResult.

#[export] Instance ThresholdResult_eq_dec : EqDecision ThresholdResult.
Proof. solve_decision. Defined.

Abbreviation ScoreCollector := (gmap string (ReviewScore * ReviewVerdict)).

Section collector.
Context {ord : IterOrder string}.

Definition collector_new : ScoreCollector := ∅.

Definition collector_add (reviewer_id : string) (score : ReviewScore) (verdict : ReviewVerdict)
    (c : ScoreCollector) : ScoreCollector := <[reviewer_id := (score, verdict)]> c.

Definition collector_clear (c : ScoreCollector) : ScoreCollector := ∅.

Definition collector_values (c : ScoreCollector) : list (ReviewScore * ReviewVerdict) :=
  (iter_map c).*2.

Definition collector_count (c : ScoreCollector) : nat := size c.

Definition total_score (c : ScoreCollector) : Z :=
  foldr Z.add 0%Z ((fun sv => score_u8 sv.1) <$> collector_values c).

Definition average_score (c : ScoreCollector) : option f64 :=
  if decide (c = ∅) then None
  else Some (f64_div_int (total_score c) (Z.of_nat (size c))).

(** [Iterator::min] and [Iterator::max] on integers *)
Definition iter_best (best : Z -> Z -> Z) (l : list Z) : option Z :=
  match l with [] => None | x :: l => Some (foldl best x l) end.

Definition best_score (best : Z -> Z -> Z) (c : ScoreCollector) : Result (option ReviewScore) Panic :=
  match iter_best best ((fun sv => score_u8 sv.1) <$> collector_values c) with
  | None => Ok None
  | Some s => let? score := unwrap (review_score_try_from s) in Ok (Some score)
  end.

Definition min_score : ScoreCollector -> Result (option ReviewScore) Panic := best_score Z.min.
Definition max_score : ScoreCollector -> Result (option ReviewScore) Panic := best_score Z.max.

Definition approval_count (c : ScoreCollector) : nat :=
  length (List.filter (fun sv => bool_decide (sv.2 = ReviewVerdict.Approve)) (collector_values c)).

Definition has_rejection (c : ScoreCollector) : bool :=
  existsb (fun sv => bool_decide (sv.2 = ReviewVerdict.Reject)) (collector_values c).

Definition has_blocking_findings (c : ScoreCollector) : bool :=
  existsb (fun sv => (score_u8 sv.1 <=? 5)%Z) (collector_values c).

(** ** The evaluator *)

(** The first two loops of [evaluate]: the verdict that ends them. *)
Definition rejects (sv : ReviewScore * ReviewVerdict) : bool :=
  (score_u8 sv.1 <=? 3)%Z || bool_decide (sv.2 = ReviewVerdict.Reject).
Definition blocks (policy : ReviewPolicy) (sv : ReviewScore * ReviewVerdict) : bool :=
  (score_u8 sv.1 <=? rp_blocking_score policy)%Z
  || bool_decide (sv.2 = ReviewVerdict.ChangesRequested).

Definition evaluate (policy : ReviewPolicy) (c : ScoreCollector) : Result ThresholdResult Panic :=
  let scores := collector_values c in
  match scores with
  | [] => Ok ThresholdResult.NeedMoreReviewers
  | _ =>
      if existsb rejects scores then Ok ThresholdResult.Rejected
      else if existsb (blocks policy) scores then Ok ThresholdResult.ChangesRequested
      else if (as_u8 (Z.of_nat (approval_count c)) <? rp_min_approvals policy)%Z then
        Ok ThresholdResult.NeedMoreReviewers
      else
        let? min_score := min_score c in
        if match min_score with
           | Some min_score => (score_u8 min_score <? rp_min_individual_score policy)%Z
           | None => false
           end
        then Ok ThresholdResult.ChangesRequested
        else
          Ok (if match average_score c with
                 | Some avg => f64_ltb avg (f64_of_int (rp_min_average_score policy))
                 | None => false
                 end
              then ThresholdResult.ChangesRequested
              else ThresholdResult.Approved)
  end.

Definition evaluate_with_reviewer_count (policy : ReviewPolicy) (c : ScoreCollector)
    (reviewer_count : nat) : Result ThresholdResult Panic :=
  if Nat.ltb (collector_count c) reviewer_count then Ok ThresholdResult.NeedMoreReviewers
  else
    let? result := evaluate policy c in
    Ok (if bool_decide (result = ThresholdResult.Approved)
           && Nat.ltb (approval_count c) reviewer_count
        then ThresholdResult.NeedMoreReviewers else result).
End collector.

(** ** The quotient of doubles *)

Lemma round_half_even_bounds num den :
  (0 < den)%Z -> (num / den <= round_half_even num den <= num / den + 1)%Z.
Proof.
  intros Hd. unfold round_half_even. cbn zeta.
  repeat (case_match; try lia).
Qed.

(** The rounded mantissa is a nearest one. *)
Lemma round_half_even_nearest num den :
  (0 < den)%Z -> (2 * Z.abs (round_half_even num den * den - num) <= den)%Z.
Proof.
  intros Hd. pose proof (Z.div_mod num den) as Hdm. pose proof (Z.mod_pos_bound num den Hd) as Hm.
  unfold round_half_even. cbn zeta.
  destruct (Z.ltb_spec (2 * (num mod den)) den); [nia|].
  destruct (Z.ltb_spec den (2 * (num mod den))); [nia|].
  destruct (Z.even _); nia.
Qed.

Lemma quotient_exponent_le t n m :
  (0 < n)%Z -> (0 < t)%Z -> (t < m * n)%Z -> (m <= 256)%Z -> (quotient_exponent t n <= 8)%Z.
Proof.
  intros Hn Ht Hlt Hm. assert (Hlog : (Z.log2 t <= 8 + Z.log2 n)%Z).
  { transitivity (Z.log2 (n * 2 ^ 8)); [apply Z.log2_le_mono; change (2 ^ 8)%Z with 256%Z; nia|].
    rewrite Z.log2_mul_pow2 by lia. lia. }
  unfold quotient_exponent. cbn zeta. case_match; lia.
Qed.

Lemma quotient_exponent_le_52 t n :
  (0 < n)%Z -> (0 < t < 2 ^ 53)%Z -> (quotient_exponent t n <= 52)%Z.
Proof.
  intros Hn [Ht Ht53]. assert (Z.log2 t < 53)%Z by (by apply Z.log2_lt_pow2).
  pose proof (Z.log2_nonneg n). unfold quotient_exponent. cbn zeta. case_match; lia.
Qed.

(** Comparing the average of at most [2^43] scores with an integer threshold is
    exact: no rounding reaches the threshold from below. *)
Lemma f64_average_exact t n m :
  (0 <= t < 2 ^ 53)%Z -> (0 < n <= 2 ^ 43)%Z -> (0 <= m <= 255)%Z ->
  f64_ltb (f64_div_int t n) (f64_of_int m) = (t <? m * n)%Z.
Proof.
  intros Ht Hn Hm. unfold f64_ltb, f64_div_int, f64_of_int.
  destruct (Z.eqb_spec t 0) as [->|Ht0].
  { cbn. rewrite Z.mul_1_r. destruct (Z.ltb_spec 0 m), (Z.ltb_spec 0 (m * n)); nia. }
  cbn [f64_mantissa f64_scale]. rewrite Z.pow_0_r, Z.mul_1_r.
  pose proof (quotient_exponent_le_52 t n) as H52.
  set (s := (52 - quotient_exponent t n)%Z). assert (Hs0 : (0 <= s)%Z) by lia.
  assert (Hp : (0 < 2 ^ s)%Z) by (apply Z.pow_pos_nonneg; lia).
  pose proof (round_half_even_bounds (t * 2 ^ s) n ltac:(lia)) as [Hlo Hhi].
  destruct (Z.ltb_spec t (m * n)) as [Hlt|Hge].
  - apply Z.ltb_lt. assert (Hs : (44 <= s)%Z).
    { pose proof (quotient_exponent_le t n m). lia. }
    assert (Hbig : (2 ^ 44 <= 2 ^ s)%Z) by (apply Z.pow_le_mono_r; lia).
    assert (t * 2 ^ s / n <= m * 2 ^ s - 2)%Z; [|lia].
    apply Z.div_le_upper_bound; [lia|]. assert (t * 2 ^ s <= (m * n - 1) * 2 ^ s)%Z by nia. nia.
  - apply Z.ltb_ge. assert (m * 2 ^ s <= t * 2 ^ s / n)%Z; [|lia].
    apply Z.div_le_lower_bound; [lia|]. nia.
Qed.

(** ** Aggregates of a collection *)

Section aggregates.
Context {ord : IterOrder string}.

(** The sum of the scores, without an order. *)
Definition score_sum (c : ScoreCollector) : Z :=
  foldr Z.add 0%Z ((fun e => score_u8 e.2.1) <$> map_to_list c).

Lemma sum_perm (l l' : list Z) : l ≡ₚ l' -> foldr Z.add 0%Z l = foldr Z.add 0%Z l'.
Proof. induction 1; cbn; lia. Qed.

Lemma total_score_sum c : total_score c = score_sum c.
Proof.
  unfold total_score, score_sum, collector_values. rewrite <-list_fmap_compose.
  apply sum_perm, fmap_Permutation, iter_map_perm.
Qed.

(** Every entry satisfies [P]. *)
Definition entries_all (P : Z -> ReviewVerdict -> Prop) (c : ScoreCollector) : Prop :=
  forall id s v, c !! id = Some (s, v) -> P (score_u8 s) v.

Lemma entries_all_values P c :
  entries_all P c <-> forall sv, sv ∈ collector_values c -> P (score_u8 sv.1) sv.2.
Proof.
  unfold entries_all, collector_values. setoid_rewrite elem_of_iter_map_snd. split.
  - intros Hall [s v] [id Hid]. by eapply Hall.
  - intros Hall id s v Hid. apply (Hall (s, v)). by exists id.
Qed.

Lemma existsb_values (f : ReviewScore * ReviewVerdict -> bool) (P : Z -> ReviewVerdict -> Prop) c :
  (forall sv, f sv = false <-> P (score_u8 sv.1) sv.2) ->
  existsb f (collector_values c) = false <-> entries_all P c.
Proof.
  intros Hf. rewrite entries_all_values, <-not_true_iff_false, existsb_exists. split.
  - intros Hno sv Hin. apply Hf. destruct (f sv) eqn:E; [|done]. destruct Hno. exists sv.
    by rewrite <-list_elem_of_In.
  - intros Hall (sv & Hin & Hsv). apply list_elem_of_In, Hall, Hf in Hin. congruence.
Qed.

Lemma length_values c : length (collector_values c) = size c.
Proof. unfold collector_values. by rewrite length_fmap, length_iter_map. Qed.

Lemma values_nil c : collector_values c = [] <-> c = ∅.
Proof. by rewrite <-length_zero_iff_nil, length_values, map_size_empty_iff. Qed.

Lemma score_sum_bounds lo hi c :
  entries_all (fun s _ => lo <= s <= hi)%Z c ->
  (lo * Z.of_nat (size c) <= total_score c <= hi * Z.of_nat (size c))%Z.
Proof.
  rewrite entries_all_values, <-length_values. unfold total_score.
  induction (collector_values c) as [|sv l IH]; intros Hall; cbn; [lia|].
  pose proof (Hall sv ltac:(by left)). cbn in *.
  specialize (IH ltac:(intros x Hx; apply Hall; by right)). lia.
Qed.

Lemma all_approve_count c :
  entries_all (fun _ v => v = ReviewVerdict.Approve) c -> approval_count c = size c.
Proof.
  rewrite entries_all_values, <-length_values. unfold approval_count.
  induction (collector_values c) as [|sv l IH]; intros Hall; cbn; [done|].
  rewrite (Hall sv) by left. rewrite bool_decide_true by done. cbn.
  by rewrite IH by (intros x Hx; apply Hall; by right).
Qed.

Lemma foldl_min_spec (x : Z) l : forall k, (k <= foldl Z.min x l)%Z <-> Forall (fun y => k <= y)%Z (x :: l).
Proof.
  revert x. induction l as [|y l IH]; intros x k; cbn.
  - rewrite Forall_singleton. done.
  - rewrite IH, !Forall_cons. rewrite Z.min_glb_iff. tauto.
Qed.

Lemma foldl_min_in (x : Z) l : foldl Z.min x l ∈ x :: l.
Proof.
  revert x. induction l as [|y l IH]; intros x; cbn; [by left|].
  specialize (IH (Z.min x y)). rewrite !elem_of_cons in *.
  destruct (Z.min_spec x y) as [[_ Hm]|[_ Hm]]; rewrite Hm in *; tauto.
Qed.

(** The least score: of an entry, and not above any entry. *)
Lemma min_score_spec c :
  c <> ∅ -> entries_all (fun s _ => 1 <= s <= 10)%Z c ->
  exists m, min_score c = Ok (Some (mkReviewScore m)) /\
    forall k, (m <? k)%Z = false <-> entries_all (fun s _ => k <= s)%Z c.
Proof.
  intros Hne Hv. unfold min_score, best_score. rewrite <-values_nil in Hne.
  setoid_rewrite entries_all_values. rewrite entries_all_values in Hv.
  destruct (collector_values c) as [|sv l]; [done|]. cbn [fmap list_fmap iter_best].
  set (m := foldl _ _ _). exists m. split.
  - assert (Hin : m ∈ (fun sv : ReviewScore * ReviewVerdict => score_u8 sv.1) <$> (sv :: l))
      by apply foldl_min_in.
    apply list_elem_of_fmap in Hin as (sv' & -> & Hin). specialize (Hv sv' Hin).
    unfold review_score_try_from. by rewrite !(proj2 (Z.leb_le _ _)) by lia.
  - intros k. rewrite Z.ltb_ge. unfold m. rewrite foldl_min_spec, Forall_forall. split.
    + intros Hall x Hx. apply Hall.
      exact (list_elem_of_fmap_2 (fun sv : ReviewScore * ReviewVerdict => score_u8 sv.1) _ _ Hx).
    + intros Hall x Hx.
      apply (list_elem_of_fmap (fun sv : ReviewScore * ReviewVerdict => score_u8 sv.1) (sv :: l)) in Hx
        as (sv' & -> & Hin). by apply Hall.
Qed.
End aggregates.

(** ** Properties *)

Section properties.
Context {ord : IterOrder string}.

(** No entry rejects, blocks or requests changes. *)
Definition clean (policy : ReviewPolicy) : ScoreCollector -> Prop :=
  entries_all (fun s v => 3 < s /\ rp_blocking_score policy < s /\ v = ReviewVerdict.Approve)%Z.

Definition scores_valid : ScoreCollector -> Prop := entries_all (fun s _ => 1 <= s <= 10)%Z.

(** The approvals as [evaluate] counts them. *)
Definition approvals (c : ScoreCollector) : Z := as_u8 (Z.of_nat (size c)).

Lemma not_rejects sv :
  rejects sv = false <-> (3 < score_u8 sv.1)%Z /\ sv.2 <> ReviewVerdict.Reject.
Proof. unfold rejects. by rewrite orb_false_iff, Z.leb_gt, bool_decide_eq_false. Qed.

Lemma not_blocks policy sv :
  blocks policy sv = false <->
  (rp_blocking_score policy < score_u8 sv.1)%Z /\ sv.2 <> ReviewVerdict.ChangesRequested.
Proof. unfold blocks. by rewrite orb_false_iff, Z.leb_gt, bool_decide_eq_false. Qed.

Lemma clean_split policy c :
  clean policy c <->
  entries_all (fun s v => 3 < s /\ v <> ReviewVerdict.Reject)%Z c /\
  entries_all (fun s v => rp_blocking_score policy < s /\ v <> ReviewVerdict.ChangesRequested)%Z c.
Proof.
  split.
  - intros Hc. split; intros id s v Hid; destruct (Hc _ _ _ Hid) as (? & ? & ->); done.
  - intros [H1 H2] id s v Hid. destruct (H1 _ _ _ Hid), (H2 _ _ _ Hid). by destruct v.
Qed.

Lemma not_all_rejects c :
  existsb rejects (collector_values c) = true <->
  exists id s v, c !! id = Some (s, v) /\ ((score_u8 s <= 3)%Z \/ v = ReviewVerdict.Reject).
Proof.
  rewrite existsb_exists. split.
  - intros ([s v] & Hin & Hr). apply list_elem_of_In, elem_of_iter_map_snd in Hin as [id Hid].
    exists id, s, v. split; [done|]. unfold rejects in Hr.
    by rewrite orb_true_iff, Z.leb_le, bool_decide_eq_true in Hr.
  - intros (id & s & v & Hid & Hr). exists (s, v). split.
    + apply list_elem_of_In, elem_of_iter_map_snd. by exists id.
    + unfold rejects. by rewrite orb_true_iff, Z.leb_le, bool_decide_eq_true.
Qed.

(** The outcomes, by the entries. *)
Lemma evaluate_outcome (policy : ReviewPolicy) (c : ScoreCollector) :
  scores_valid c -> is_u8 (rp_min_average_score policy) -> (Z.of_nat (size c) <= 2 ^ 43)%Z ->
  exists r, evaluate policy c = Ok r /\
    (r = ThresholdResult.Rejected <->
     exists id s v, c !! id = Some (s, v) /\ ((score_u8 s <= 3)%Z \/ v = ReviewVerdict.Reject)) /\
    (r = ThresholdResult.Approved <->
     c <> ∅ /\ clean policy c /\ (rp_min_approvals policy <= approvals c)%Z /\
     entries_all (fun s _ => rp_min_individual_score policy <= s)%Z c /\
     (rp_min_average_score policy * Z.of_nat (size c) <= score_sum c)%Z) /\
    (r = ThresholdResult.NeedMoreReviewers <->
     c = ∅ \/ (clean policy c /\ (approvals c < rp_min_approvals policy)%Z)).
Proof.
  intros Hv Havg Hsize. unfold evaluate. destruct (decide (c = ∅)) as [->|Hne].
  { rewrite (proj2 (values_nil ∅) eq_refl). eexists. split; [done|]. split_and!; [|naive_solver..].
    split; [done|]. intros (id & s & v & Hid & _). by rewrite lookup_empty in Hid. }
  destruct (collector_values c) as [|sv l] eqn:Hl; [by apply values_nil in Hl|]. rewrite <-Hl. clear sv l Hl.
  pose proof (not_all_rejects c) as HR. pose proof (clean_split policy c) as HC.
  rewrite <-(existsb_values rejects _ c not_rejects),
    <-(existsb_values (blocks policy) _ c (not_blocks policy)) in HC.
  destruct (existsb rejects _) eqn:Hrej; [eexists; split; [done|]; rewrite <-HR, HC; naive_solver|].
  destruct (existsb (blocks policy) _) eqn:Hblk; [eexists; split; [done|]; rewrite <-HR, HC; naive_solver|].
  assert (Happ : as_u8 (Z.of_nat (approval_count c)) = approvals c).
  { unfold approvals. rewrite all_approve_count; [done|].
    intros id s v Hid. by apply (proj2 HC (conj eq_refl eq_refl) id s v). }
  rewrite Happ. destruct (Z.ltb_spec (approvals c) (rp_min_approvals policy)) as [Hlt|Hge].
  { eexists. split; [done|]. rewrite <-HR, HC. split_and!; [done|split; [done|lia]|naive_solver]. }
  destruct (min_score_spec c Hne Hv) as (m & -> & Hmin). cbn [result_bind score_u8].
  specialize (Hmin (rp_min_individual_score policy)).
  destruct (m <? rp_min_individual_score policy)%Z.
  { eexists. split; [done|]. rewrite <-HR, HC, <-Hmin. split_and!; [done|naive_solver|split; [done|]]. intros [?|[_ ?]]; [done|lia]. }
  pose proof (score_sum_bounds _ _ _ Hv) as [Hlo Hhi].
  assert (0 < size c) by (destruct (size c) eqn:E; [by apply map_size_empty_iff in E|lia]).
  unfold average_score. rewrite decide_False, f64_average_exact by (done || unfold is_u8, u8_max in *; lia).
  rewrite total_score_sum.
  destruct (Z.ltb_spec (score_sum c) (rp_min_average_score policy * Z.of_nat (size c)));
    eexists; (split; [done|]); rewrite <-HR, HC, <-Hmin; (split_and!; [done| |split; [done|intros [?|[_ ?]]; [done|lia]]]).
  - split; [done|]. intros (_ & _ & _ & _ & ?). lia.
  - done.
Qed.


(** [evaluate_with_reviewer_count] approves exactly the approved collections
    with at least that many entries; all of them approve. *)
Lemma reviewer_count_approved policy c reviewer_count :
  evaluate_with_reviewer_count policy c reviewer_count = Ok ThresholdResult.Approved <->
  evaluate policy c = Ok ThresholdResult.Approved /\ reviewer_count <= size c /\
  reviewer_count <= approval_count c.
Proof.
  unfold evaluate_with_reviewer_count, collector_count.
  destruct (Nat.ltb_spec (size c) reviewer_count) as [?|?]; [split; [done|intros (_ & ? & _); lia]|].
  destruct (evaluate policy c) as [r|e]; cbn [result_bind]; [|by split; [|intros [? _]]].
  case_bool_decide as Hr0; cbn [andb]; [subst r|by split; [congruence|intros [? _]; congruence]].
  destruct (Nat.ltb_spec (approval_count c) reviewer_count) as [?|?]; split; intros Hr.
  - discriminate Hr.
  - destruct Hr as (_ & _ & ?). lia.
  - done.
  - done.
Qed.

(** 256 approvals count as none: the cast of the count to [u8] keeps its low
    byte, and the evaluation asks for more reviewers. *)
Lemma approvals_wrap_at_256 policy c :
  scores_valid c -> is_u8 (rp_min_average_score policy) -> clean policy c -> size c = 256 ->
  (0 < rp_min_approvals policy)%Z -> evaluate policy c = Ok ThresholdResult.NeedMoreReviewers.
Proof.
  intros Hv Ha Hc Hs Hm.
  destruct (evaluate_outcome policy c Hv Ha) as (r & -> & _ & _ & Hn); [rewrite Hs; done|].
  f_equal. apply Hn. right. split; [done|]. unfold approvals. rewrite Hs. exact Hm.
Qed.
End properties.

(** ** Witness *)

#[local] Existing Instance canonical_order.

Definition two_scores : ScoreCollector :=
  collector_add "r1" (mkReviewScore 8) ReviewVerdict.Approve
    (collector_add "r2" (mkReviewScore 7) ReviewVerdict.Approve collector_new).

