(* ===== verification/ReviewPanel.v ===== *)
(** * Review panels (brehon-review/src/panel.rs) and stale detection (stale.rs)

    A panel keeps the reviewers of a review, their sessions and the submissions
    of the current round.  The agent gateway and the git port are parameters.
    Proved here: [spawn_sessions] starts one session per reviewer without one,
    keeps what it has when a spawn fails and can be repeated; the stale check
    is exact. *)

From S2P Require Import Prelude StrLib Types Ports.

(** ** Data *)

Module PanelError.
Inductive PanelError :=
| SpawnFailed (message : string)
| KillFailed (message : string)
| PanelExists (review_id : string)
| NotFound (id : string)
| ReviewerNotAvailable
| Gateway (message : string).
End PanelError.
Abbreviation PanelError := PanelError.PanelError.

Record ReviewerSubmission := mkReviewerSubmission {
  rs_reviewer_id : string;
  rs_session_id : SessionId;
  rs_score : ReviewScore;
  rs_verdict : ReviewVerdict;
  rs_findings : list ReviewFinding
}.

Record PanelAffinity := mkPanelAffinity {
  pa_review_id : ReviewId;
  pa_task_id : string;
  pa_reviewer_ids : list string;
  pa_round : Z;
  pa_sessions : gmap string SessionId;
  pa_submissions : gmap string ReviewerSubmission
}.

#[export] Instance eta_PanelAffinity : Eta PanelAffinity := fun a =>
  mkPanelAffinity (pa_review_id a) (pa_task_id a) (pa_reviewer_ids a) (pa_round a)
    (pa_sessions a) (pa_submissions a).

Definition PanelAffinity_new (review_id : ReviewId) (task_id : string) (reviewer_ids : list string)
    : PanelAffinity := mkPanelAffinity review_id task_id reviewer_ids 1 ∅ ∅.

Definition panel_is_complete (a : PanelAffinity) (required_reviewers : nat) : bool :=
  Nat.leb (Nat.min required_reviewers (length (pa_reviewer_ids a))) (size (pa_submissions a)).

Definition advance_round (a : PanelAffinity) : PanelAffinity :=
  a <| pa_round := as_u32 (pa_round a + 1) |> <| pa_submissions := ∅ |>.

Definition has_more_rounds (a : PanelAffinity) (max_rounds : Z) : bool := (pa_round a <? max_rounds)%Z.

Definition submitted (a : PanelAffinity) (id : string) : bool :=
  match pa_submissions a !! id with Some _ => true | None => false end.

Definition get_missing_reviewers (a : PanelAffinity) : list string :=
  List.filter (fun id => negb (submitted a id)) (pa_reviewer_ids a).

(** [ReviewPanel]: the affinity and the worktree of its sessions. *)
Record ReviewPanel := mkReviewPanel {
  rp_affinity : PanelAffinity;
  rp_worktree_path : string;
  rp_branch : string
}.

#[export] Instance eta_ReviewPanel : Eta ReviewPanel := fun p =>
  mkReviewPanel (rp_affinity p) (rp_worktree_path p) (rp_branch p).

Definition panel_submit (submission : ReviewerSubmission) (p : ReviewPanel) : ReviewPanel :=
  p <| rp_affinity := (rp_affinity p)
         <| pa_submissions :=
              <[rs_reviewer_id submission := submission]> (pa_submissions (rp_affinity p)) |> |>.

Definition is_round_complete (p : ReviewPanel) : bool :=
  forallb (submitted (rp_affinity p)) (pa_reviewer_ids (rp_affinity p)).

Section sessions.
Context {ord : IterOrder string} `{AgentGateway}.

Definition reviewer_spec (p : ReviewPanel) (reviewer_id : string) : SessionSpec :=
  SessionSpec_new reviewer_id "reviewer" (rp_worktree_path p).

(** The loop of [spawn_sessions]; an error ends it and keeps the sessions
    started so far. *)
Fixpoint spawn_loop (reviewer_ids : list string) : SM (gw_state * ReviewPanel) PanelError unit :=
  match reviewer_ids with
  | [] => sm_ret tt
  | reviewer_id :: reviewer_ids => fun '(g, p) =>
      match pa_sessions (rp_affinity p) !! reviewer_id with
      | Some _ => spawn_loop reviewer_ids (g, p)
      | None =>
          match gw_spawn (reviewer_spec p reviewer_id) g with
          | (g', Err e) => ((g', p), Err (PanelError.SpawnFailed e))
          | (g', Ok session_id) =>
              spawn_loop reviewer_ids
                (g', p <| rp_affinity := (rp_affinity p)
                            <| pa_sessions := <[reviewer_id := session_id]>
                                 (pa_sessions (rp_affinity p)) |> |>)
          end
      end
  end.

Definition spawn_sessions : SM (gw_state * ReviewPanel) PanelError unit := fun '(g, p) =>
  spawn_loop (pa_reviewer_ids (rp_affinity p)) (g, p).

(** The loop of [kill_all_sessions]: every session is tried, errors are
    collected. *)
Fixpoint kill_loop (sessions : list (string * SessionId)) (errors : list string) (g : gw_state)
    : gw_state * list string :=
  match sessions with
  | [] => (g, errors)
  | (reviewer_id, session_id) :: sessions =>
      match gw_kill_session session_id g with
      | (g', Ok _) => kill_loop sessions errors g'
      | (g', Err e) =>
          kill_loop sessions (errors ++ [reviewer_id +:+ " (" +:+ session_id +:+ "): " +:+ e]) g'
      end
  end.

Definition kill_all_sessions (p : ReviewPanel) : SM gw_state PanelError unit := fun g =>
  let '(g', errors) := kill_loop (iter_map (pa_sessions (rp_affinity p))) [] g in
  match errors with
  | [] => (g', Ok tt)
  | _ => (g', Err (PanelError.KillFailed
            ("failed to kill " +:+ pretty (length errors) +:+ " reviewer session(s): "
             +:+ join ", " errors)))
  end.

Definition kill_session (p : ReviewPanel) (reviewer_id : string) : SM gw_state PanelError unit := fun g =>
  match pa_sessions (rp_affinity p) !! reviewer_id with
  | None => (g, Err (PanelError.NotFound reviewer_id))
  | Some session_id =>
      let '(g', r) := gw_kill_session session_id g in (g', result_map_err PanelError.KillFailed r)
  end.
End sessions.

(** ** Stale detection (stale.rs) *)

Module StaleDetection.
Inductive StaleDetection := Fresh | Stale.
End StaleDetection.
Abbreviation StaleDetection := StaleDetection.StaleDetection.

#[export] Instance StaleDetection_eq_dec : EqDecision StaleDetection.
Proof. solve_decision. Defined.

(** [StaleDetector]: the files it ignores. *)
Abbreviation StaleDetector := (gset string).

Definition StaleDetector_new : StaleDetector := ∅.
Definition with_ignored_files (files : list string) (d : StaleDetector) : StaleDetector :=
  list_to_set files.

Definition kept_files (ignore_files : StaleDetector) (files : list string) : gset string :=
  list_to_set (filter (fun f => f ∉ ignore_files) files).

Definition stale_check `{GitOperations} (d : StaleDetector)
    (review_branch base_commit main_branch : string) : Result StaleDetection string :=
  let? review_diff := git_diff review_branch base_commit in
  let? main_diff := git_diff main_branch base_commit in
  let overlap := elements (kept_files d review_diff ∩ kept_files d main_diff) in
  match overlap with
  | [] => Ok StaleDetection.Fresh
  | _ => Ok StaleDetection.Stale
  end.

Definition files_overlap (files_a files_b : list string) : bool :=
  negb (bool_decide ((list_to_set files_a : gset string) ## list_to_set files_b)).

(** The check is exact: stale when a file that is not ignored is in both
    diffs. *)
Lemma stale_check_exact `{GitOperations} d review_branch base_commit main_branch fs gs :
  git_diff review_branch base_commit = Ok fs -> git_diff main_branch base_commit = Ok gs ->
  stale_check d review_branch base_commit main_branch = Ok StaleDetection.Stale <->
  exists f, f ∈ fs /\ f ∈ gs /\ f ∉ d.
Proof.
  intros Hf Hg. unfold stale_check. rewrite Hf. cbn [result_bind]. rewrite Hg. cbn [result_bind].
  assert (Hin : forall f, f ∈ elements (kept_files d fs ∩ kept_files d gs) <-> f ∈ fs /\ f ∈ gs /\ f ∉ d).
  { intros f. unfold kept_files.
    rewrite elem_of_elements, elem_of_intersection, !elem_of_list_to_set, !list_elem_of_filter. tauto. }
  destruct (elements _) as [|f l]; split.
  - done.
  - intros (f & Hf'). apply Hin in Hf'. by apply elem_of_nil in Hf'.
  - intros _. exists f. apply Hin. by left.
  - done.
Qed.

(** ** Sessions of a panel *)

Section properties.
Context {ord : IterOrder string} `{AgentGateway}.

(** [p'] is [p] with more sessions, for reviewers of [ids] only. *)
Definition sessions_added (ids : list string) (p p' : ReviewPanel) : Prop :=
  p' = p <| rp_affinity := (rp_affinity p) <| pa_sessions := pa_sessions (rp_affinity p') |> |> /\
  pa_sessions (rp_affinity p) ⊆ pa_sessions (rp_affinity p') /\
  forall id, id ∈ dom (pa_sessions (rp_affinity p')) ->
    id ∈ dom (pa_sessions (rp_affinity p)) \/ id ∈ ids.

Lemma sessions_added_refl ids p : sessions_added ids p p.
Proof. split; [by destruct p as [[]]|]. split; [done|by left]. Qed.

Lemma sessions_added_one ids id sid p p' :
  pa_sessions (rp_affinity p) !! id = None ->
  sessions_added ids (p <| rp_affinity := (rp_affinity p)
    <| pa_sessions := <[id := sid]> (pa_sessions (rp_affinity p)) |> |>) p' ->
  sessions_added (id :: ids) p p'.
Proof.
  intros Hnone (Heq & Hsub & Hdom). cbn in *. split; [by destruct p as [[]]|]. split.
  - etrans; [|exact Hsub]. by apply insert_subseteq.
  - intros id' [Hid|Hid]%Hdom; [|by right; right].
    rewrite dom_insert, elem_of_union, elem_of_singleton in Hid.
    destruct Hid as [->|Hid]; [by right; left|by left].
Qed.

Lemma sessions_added_more ids id p p' : sessions_added ids p p' -> sessions_added (id :: ids) p p'.
Proof. intros (Heq & Hsub & Hdom). split; [done|]. split; [done|]. intros i [?|?]%Hdom; [by left|by right; right]. Qed.

Lemma spawn_loop_post ids s :
  sm_post (spawn_loop ids) s (fun s' r => sessions_added ids s.2 s'.2 /\
    (r = Ok tt -> forall id, id ∈ ids -> id ∈ dom (pa_sessions (rp_affinity s'.2)))).
Proof.
  revert s. induction ids as [|id ids IH]; intros [g p]; unfold sm_post; cbn [spawn_loop].
  { cbn. split; [apply sessions_added_refl|]. intros _ id Hid. by apply elem_of_nil in Hid. }
  destruct (pa_sessions (rp_affinity p) !! id) as [sid|] eqn:Hid.
  - destruct (IH (g, p)) as [Hadd Hok]. split; [by apply sessions_added_more|].
    intros Hr id' [->|Hin]%elem_of_cons; [|by apply Hok].
    destruct Hadd as (_ & Hsub & _). apply subseteq_dom in Hsub. apply Hsub, elem_of_dom. exists sid. exact Hid.
  - destruct (gw_spawn _ g) as [g' [sid|e]]; cbn; [|by split; [apply sessions_added_refl|]].
    set (p1 := p <| rp_affinity := _ |>). destruct (IH (g', p1)) as [Hadd Hok].
    split; [by eapply sessions_added_one|].
    intros Hr id' [->|Hin]%elem_of_cons; [|by apply Hok].
    destruct Hadd as (_ & Hsub & _). apply subseteq_dom in Hsub. apply Hsub. cbn. set_solver.
Qed.

(** With a session for every reviewer there is nothing to do. *)
Lemma spawn_loop_done ids g p :
  (forall id, id ∈ ids -> id ∈ dom (pa_sessions (rp_affinity p))) ->
  spawn_loop ids (g, p) = ((g, p), Ok tt).
Proof.
  induction ids as [|id ids IH]; intros Hall; [done|]. cbn [spawn_loop].
  assert (Hid : id ∈ dom (pa_sessions (rp_affinity p))) by (apply Hall; by left).
  apply elem_of_dom in Hid as [sid ->].
  apply IH. intros id' Hin. apply Hall. by right.
Qed.

(** spawning the panel is safe to repeat.  Whatever the gateway does,
    [spawn_sessions] changes only the sessions, keeps the ones there are and
    adds sessions only for reviewers of the panel; when it succeeds every
    reviewer has one, and calling it again starts nothing. *)
Theorem spawn_sessions_complete (g : gw_state) (p : ReviewPanel) :
  let '((g', p'), r) := spawn_sessions (g, p) in
  sessions_added (pa_reviewer_ids (rp_affinity p)) p p' /\
  (r = Ok tt ->
   (forall id, id ∈ pa_reviewer_ids (rp_affinity p) -> id ∈ dom (pa_sessions (rp_affinity p'))) /\
   spawn_sessions (g', p') = ((g', p'), Ok tt)).
Proof.
  pose proof (spawn_loop_post (pa_reviewer_ids (rp_affinity p)) (g, p)) as Hp.
  unfold spawn_sessions, sm_post in *. destruct (spawn_loop _ _) as [[g' p'] r]. cbn in *.
  destruct Hp as [Hadd Hok]. split; [done|]. intros Hr. specialize (Hok Hr). split; [done|].
  apply spawn_loop_done. destruct Hadd as (-> & _). exact Hok.
Qed.

(** Every session is killed once, in the order of the map, whatever fails. *)
Lemma kill_loop_state sessions errors g :
  (kill_loop sessions errors g).1 = foldl (fun g x => (gw_kill_session x.2 g).1) g sessions.
Proof.
  revert errors g. induction sessions as [|[id sid] sessions IH]; intros errors g; cbn; [done|].
  by destruct (gw_kill_session sid g) as [g' []]; cbn; rewrite IH.
Qed.
End properties.
