(* ===== verification/Consolidation.v ===== *)
(** * Feedback consolidation (brehon-review/src/consolidation.rs)

    The findings of all submissions are sorted by severity; blocking findings
    and suggestions are grouped by a key and a finding similar to an earlier
    one of its group is dropped.  Unicode lower-casing and whitespace splitting
    are parameters ([TextOps]); the similarity of two descriptions is a
    quotient of doubles.  Proved here: every finding survives or has a similar
    representative, nothing is invented or reordered, and no two survivors of a
    group are similar. *)

From Stdlib Require Import Ascii.
From S2P Require Import Prelude StrLib Chars Types Scoring ReviewPanel.

(** [a >= b] on doubles *)
Definition f64_geb (a b : f64) : bool := negb (f64_ltb a b).

(** [FeedbackConsolidator { similarity_threshold }] *)
Record FeedbackConsolidator := mkFeedbackConsolidator { similarity_threshold : f64 }.

(** The double written [0.7]. *)
Definition FeedbackConsolidator_default : FeedbackConsolidator :=
  mkFeedbackConsolidator (mkF64 6305039478318694 53).

Section consolidator.
Context {ord : IterOrder string} `{TextOps} (self : FeedbackConsolidator).

Definition words (s : string) : gset string := list_to_set (split_whitespace (to_lowercase s)).

Definition text_similarity (a b : string) : f64 :=
  let words_a := words a in
  let words_b := words b in
  if bool_decide (words_a = ∅) || bool_decide (words_b = ∅) then mkF64 0 0
  else
    let intersection := size (words_a ∩ words_b) in
    let union := size (words_a ∪ words_b) in
    if Nat.eqb union 0 then mkF64 0 0
    else f64_div_int (Z.of_nat intersection) (Z.of_nat union).

(** Both branches of the source compare the descriptions; the subtraction of
    the line numbers is wrapping [i32] arithmetic. *)
Definition is_similar (a b : ReviewFinding) : bool :=
  let similar := f64_geb (text_similarity (fd_description a) (fd_description b))
                         (similarity_threshold self) in
  match fd_location a, fd_location b with
  | Some loc_a, Some loc_b =>
      if String.eqb (ic_file loc_a) (ic_file loc_b)
         && (Z.abs (as_i32 (as_i32 (ic_line loc_a) - as_i32 (ic_line loc_b))) <=? 3)%Z
      then similar else similar
  | _, _ => similar
  end.

Definition get_grouping_key (finding : ReviewFinding) : string :=
  match fd_location finding with
  | Some location => ic_file location +:+ ":" +:+ pretty (ic_line location)
  | None => to_lowercase (join " " (take 5 (split_whitespace (fd_description finding))))
  end.

(** The groups seen so far and the output. *)
Abbreviation Groups := (gmap string (list ReviewFinding) * list ReviewFinding)%type.

Definition add_finding_to_group (finding : ReviewFinding) (g : Groups) : Groups :=
  let '(seen, output) := g in
  let key := get_grouping_key finding in
  match seen !! key with
  | Some existing =>
      if existsb (is_similar finding) existing then (seen, output)
      else (<[key := existing ++ [finding]]> seen, output ++ [finding])
  | None => (<[key := [finding]]> seen, output ++ [finding])
  end.

(** The accumulators of [consolidate]. *)
Record Buckets := mkBuckets {
  bk_blocking : Groups;
  bk_suggestions : Groups;
  bk_nitpicks : list ReviewFinding
}.

Definition add_finding (b : Buckets) (finding : ReviewFinding) : Buckets :=
  match fd_severity finding with
  | CommentSeverity.Blocking =>
      mkBuckets (add_finding_to_group finding (bk_blocking b)) (bk_suggestions b) (bk_nitpicks b)
  | CommentSeverity.Suggestion =>
      mkBuckets (bk_blocking b) (add_finding_to_group finding (bk_suggestions b)) (bk_nitpicks b)
  | CommentSeverity.Nitpick =>
      mkBuckets (bk_blocking b) (bk_suggestions b) (bk_nitpicks b ++ [finding])
  end.

Definition verdicts_by_file (submissions : list ReviewerSubmission)
    : gmap string (list (string * ReviewVerdict)) :=
  foldl (fun m submission =>
    foldl (fun m finding =>
      match fd_location finding with
      | Some location =>
          <[ic_file location := default [] (m !! ic_file location)
              ++ [(fd_description finding, rs_verdict submission)]]> m
      | None => m
      end) m (rs_findings submission)) ∅ submissions.

Definition has_verdict (v : ReviewVerdict) (verdicts : list ReviewVerdict) : bool :=
  bool_decide (v ∈ verdicts).

Definition file_dissent (entry : string * list (string * ReviewVerdict)) : list string :=
  let '(file, verdicts) := entry in
  if has_verdict ReviewVerdict.Approve verdicts.*2
     && (has_verdict ReviewVerdict.Reject verdicts.*2
         || has_verdict ReviewVerdict.ChangesRequested verdicts.*2)
  then ["Dissent on " +:+ file +:+ ": reviewers disagree - '" +:+ join "', '" verdicts.*1 +:+ "'"]
  else [].

Definition detect_dissent (submissions : list ReviewerSubmission) : list string :=
  (iter_map (verdicts_by_file submissions) ≫= file_dissent)
  ++ let verdicts := rs_verdict <$> submissions in
     if has_verdict ReviewVerdict.Approve verdicts && has_verdict ReviewVerdict.Reject verdicts
     then ["Reviewers have conflicting verdicts (some approve, some reject)"] else [].

Definition consolidate (submissions : list ReviewerSubmission) : ConsolidatedFeedback :=
  let b := foldl (fun b submission => foldl add_finding b (rs_findings submission))
             (mkBuckets (∅, []) (∅, []) []) submissions in
  mkConsolidatedFeedback (bk_blocking b).2 (bk_suggestions b).2 (bk_nitpicks b)
    (detect_dissent submissions).

(** ** Groups *)

(** The findings, in the order they are met. *)
Definition all_findings (submissions : list ReviewerSubmission) : list ReviewFinding :=
  submissions ≫= rs_findings.

Definition is_blocking (f : ReviewFinding) : bool :=
  match fd_severity f with CommentSeverity.Blocking => true | _ => false end.
Definition is_suggestion (f : ReviewFinding) : bool :=
  match fd_severity f with CommentSeverity.Suggestion => true | _ => false end.
Definition is_nitpick (f : ReviewFinding) : bool :=
  match fd_severity f with CommentSeverity.Nitpick => true | _ => false end.

Definition group (l : list ReviewFinding) : Groups :=
  foldl (fun g f => add_finding_to_group f g) (∅, []) l.

Lemma consolidate_groups submissions :
  let l := all_findings submissions in
  cf_blocking (consolidate submissions) = (group (List.filter is_blocking l)).2 /\
  cf_suggestions (consolidate submissions) = (group (List.filter is_suggestion l)).2 /\
  cf_nitpicks (consolidate submissions) = List.filter is_nitpick l.
Proof.
  assert (Hfold : forall (l : list ReviewFinding) b, foldl add_finding b l =
    mkBuckets (foldl (fun g f => add_finding_to_group f g) (bk_blocking b) (List.filter is_blocking l))
      (foldl (fun g f => add_finding_to_group f g) (bk_suggestions b) (List.filter is_suggestion l))
      (bk_nitpicks b ++ List.filter is_nitpick l)).
  { induction l as [|f l IH]; intros b; cbn; [by rewrite app_nil_r; destruct b|].
    rewrite IH. unfold add_finding, is_blocking, is_suggestion, is_nitpick.
    destruct (fd_severity f); cbn; rewrite <-?app_assoc; done. }
  assert (Hall : forall b, foldl (fun b submission => foldl add_finding b (rs_findings submission))
    b submissions = foldl add_finding b (all_findings submissions)).
  { induction submissions as [|s l IH]; intros b; cbn; [done|]. rewrite IH. symmetry. apply foldl_app. }
  unfold consolidate. rewrite Hall, Hfold. done.
Qed.

(** A finding and its group: the outputs with its key. *)
Definition same_group (f g : ReviewFinding) : bool :=
  String.eqb (get_grouping_key f) (get_grouping_key g).

(** [seen] files the output by key. *)
Definition groups_wf (g : Groups) : Prop :=
  forall f, default [] (g.1 !! get_grouping_key f) = List.filter (same_group f) g.2.

(** The outcome of one finding: dropped when an output of its group is similar
    to it, else added at the end. *)
Lemma add_finding_cases f g :
  groups_wf g ->
  let similar h := same_group f h && is_similar f h in
  (existsb similar g.2 = true /\ add_finding_to_group f g = g) \/
  (existsb similar g.2 = false /\ groups_wf (add_finding_to_group f g) /\
   (add_finding_to_group f g).2 = g.2 ++ [f]).
Proof.
  intros Hwf similar. destruct g as [seen output]. unfold groups_wf in Hwf. cbn [fst snd] in *.
  assert (Hex : existsb similar output = existsb (is_similar f) (List.filter (same_group f) output)).
  { unfold similar. clear. induction output as [|h l IH]; cbn; [done|]. rewrite IH.
    by destruct (same_group f h). }
  assert (Hadd : forall existing, default [] (seen !! get_grouping_key f) = existing ->
    groups_wf (<[get_grouping_key f := existing ++ [f]]> seen, output ++ [f])).
  { intros existing He h. cbn [fst snd]. rewrite List.filter_app. cbn.
    unfold same_group at 2. destruct (String.eqb_spec (get_grouping_key h) (get_grouping_key f)) as [Hk|Hk].
    - rewrite Hk, lookup_insert_eq. cbn. rewrite <-He, Hwf. f_equal.
      apply List.filter_ext. intros x. unfold same_group. by rewrite Hk.
    - by rewrite lookup_insert_ne, Hwf, app_nil_r by done. }
  rewrite Hex, <-Hwf. unfold add_finding_to_group.
  destruct (seen !! get_grouping_key f) as [existing|] eqn:He; cbn [from_option].
  - unfold id. destruct (existsb (is_similar f) existing); [by left|right]. split_and!; [done|by apply Hadd|done].
  - right. split_and!; [done|by apply (Hadd [])|done].
Qed.

(** [out] represents the findings [l]: it is made of findings of [l] in their
    order, every finding of [l] is in it or similar to one of its group in it,
    and no finding is similar to an earlier one of its group. *)
Definition represents_findings (l out : list ReviewFinding) : Prop :=
  out `sublist_of` l /\
  (forall f, f ∈ l -> exists g, g ∈ out /\ (g = f \/ (same_group f g = true /\ is_similar f g = true))) /\
  (forall i j f g, i < j -> out !! i = Some f -> out !! j = Some g ->
     same_group g f = true -> is_similar g f = false).

Lemma group_snoc l f : group (l ++ [f]) = add_finding_to_group f (group l).
Proof. unfold group. by rewrite foldl_app. Qed.

Lemma represents_snoc_drop l out f :
  represents_findings l out -> existsb (fun h => same_group f h && is_similar f h) out = true ->
  represents_findings (l ++ [f]) out.
Proof.
  intros (Hsub & Hcov & Hpair) (g & Hg & Hs)%existsb_exists. split_and!; [| |done].
  - etrans; [exact Hsub|]. by apply sublist_inserts_r.
  - intros h [Hh| ->%list_elem_of_singleton]%elem_of_app; [by apply Hcov|].
    exists g. split; [by apply list_elem_of_In|]. right. by apply andb_true_iff.
Qed.

Lemma represents_snoc_add l out f :
  represents_findings l out -> existsb (fun h => same_group f h && is_similar f h) out = false ->
  represents_findings (l ++ [f]) (out ++ [f]).
Proof.
  intros (Hsub & Hcov & Hpair) Hno. split_and!.
  - by apply sublist_app.
  - intros h [Hh| ->%list_elem_of_singleton]%elem_of_app.
    + destruct (Hcov h Hh) as (g & Hg & Hr). exists g. split; [apply elem_of_app; by left|done].
    + exists f. split; [apply elem_of_app; right; by left|by left].
  - intros i j h g Hlt Hi Hj Hsame. rewrite lookup_app in Hi, Hj.
    destruct (out !! j) as [g'|] eqn:Hoj; [injection Hj as ->|].
    + destruct (out !! i) eqn:Hoi; [injection Hi as ->; by eapply (Hpair i j)|].
      apply lookup_ge_None in Hoi. apply lookup_lt_Some in Hoj. lia.
    + apply lookup_ge_None in Hoj. apply list_lookup_singleton_Some in Hj as [Hj ->].
      destruct (out !! i) eqn:Hoi; [injection Hi as ->|].
      * destruct (is_similar g h) eqn:Hsim; [|done]. rewrite <-Hno. symmetry. apply existsb_exists.
        exists h. split; [by eapply list_elem_of_In, list_elem_of_lookup_2|]. by rewrite Hsame, Hsim.
      * apply list_lookup_singleton_Some in Hi as [Hi ->]. apply lookup_ge_None in Hoi. lia.
Qed.

Lemma group_represents l : groups_wf (group l) /\ represents_findings l (group l).2.
Proof.
  induction l as [|f l [Hwf Hrep]] using rev_ind.
  - split; [intros f; by cbn; rewrite lookup_empty|]. split_and!; [done| |done].
    intros f Hf. by apply elem_of_nil in Hf.
  - rewrite group_snoc. destruct (add_finding_cases f (group l) Hwf) as [[Hs ->]|(Hs & Hwf' & ->)].
    + split; [done|]. by apply represents_snoc_drop.
    + split; [done|]. by apply represents_snoc_add.
Qed.

(** ** Properties *)

(** consolidation loses nothing and invents nothing.  For any submissions,
    whatever the words of a text are: the blocking findings of the result
    represent the blocking findings of the submissions (each is kept or similar
    to a kept one of its group, in their order, without similar pairs in a
    group), the suggestions likewise, and the nitpicks are all kept. *)
Theorem consolidation_lossless (submissions : list ReviewerSubmission) :
  let feedback := consolidate submissions in
  let findings := all_findings submissions in
  represents_findings (List.filter is_blocking findings) (cf_blocking feedback) /\
  represents_findings (List.filter is_suggestion findings) (cf_suggestions feedback) /\
  cf_nitpicks feedback = List.filter is_nitpick findings.
Proof.
  cbn zeta. destruct (consolidate_groups submissions) as (-> & -> & ->).
  split_and!; [apply group_represents..|done].
Qed.

(** Where a finding is found does not matter to the comparison: the branch for
    nearby lines compares the descriptions like the other one. *)
Lemma is_similar_ignores_location a b :
  is_similar a b = f64_geb (text_similarity (fd_description a) (fd_description b))
                     (similarity_threshold self).
Proof. unfold is_similar. by repeat case_match. Qed.
End consolidator.

(** A description without words is similar to nothing, itself included: equal
    findings of this kind are never merged. *)
Lemma wordless_finding_not_similar `{TextOps} f g :
  words (fd_description f) = ∅ -> is_similar FeedbackConsolidator_default f g = false.
Proof.
  intros Hw. rewrite is_similar_ignores_location. unfold text_similarity.
  by rewrite Hw, bool_decide_true by done.
Qed.
