(* ===== verification/Coordinator.v ===== *)
(** * The review coordinator (brehon-review/src/coordinator.rs, queue.rs,
    lifecycle.rs, calibration.rs)

    The coordinator claims review requests from the priority lanes, runs a
    panel per review, evaluates complete rounds and closes reviews.  Its state
    is [Coordinator]; the event store and the agent gateway are reached through
    the classes of Ports.v and their states are threaded along ([World]).  A
    call of the source that panics ends in [Panicked].  The sink that shows
    review contexts in the terminal is fire-and-forget and left out, and one
    reading of the clock stamps all events of a call.

    Proved here: what a check of the active reviews does to each of them; that
    approvals are only announced for reviews that were evaluated as approved
    and acknowledged; that a round after the first does not wait for the panel;
    that an approved review whose claim cannot be acknowledged is forgotten. *)

From Stdlib Require Import Ascii.
From S2P Require Import Prelude StrLib Chars Types Events Kv Queue Ports Scoring ReviewPanel Consolidation.

(** ** Errors *)

Module QueueError.
Inductive QueueError :=
| ClaimNotFound (id : string) | ClaimExpired (id : string) | QueueEmpty | Storage (message : string).
End QueueError.
Abbreviation QueueError := QueueError.QueueError.

Module LifecycleError.
Inductive LifecycleError :=
| MaxRoundsExceeded | PanelError (message : string) | ScoringError (message : string)
| StorageError (message : string) | NoReviewers | SpawnFailed (message : string) | Timeout.
End LifecycleError.
Abbreviation LifecycleError := LifecycleError.LifecycleError.

Module ReviewError.
Inductive ReviewError :=
| Queue (e : QueueError) | Lifecycle (e : LifecycleError) | Panel (e : PanelError)
| Scoring (message : string) | StaleDetection (message : string) | Storage (message : string)
| Gateway (message : string) | Git (message : string) | Config (message : string).
End ReviewError.
Abbreviation ReviewError := ReviewError.ReviewError.

(** How a call ends when it does not return [Ok]. *)
Inductive Failure := Raised (e : ReviewError) | Panicked (p : Panic).

(** ** Calibration (calibration.rs) *)

Record PerReviewerStats := mkPerReviewerStats {
  prs_review_count : Z;
  prs_score_sum : Z;
  prs_score_squared_sum : Z;
  prs_approval_count : Z;
  prs_rejection_count : Z;
  prs_changes_requested_count : Z
}.

Definition PerReviewerStats_new : PerReviewerStats := mkPerReviewerStats 0 0 0 0 0 0.

Definition add_review (score : Z) (is_approval is_rejection : bool) (s : PerReviewerStats)
    : PerReviewerStats :=
  let bump (b : bool) (n : Z) := if b then as_u32 (n + 1) else n in
  mkPerReviewerStats (as_u32 (prs_review_count s + 1)) (prs_score_sum s + score)
    (prs_score_squared_sum s + score * score) (bump is_approval (prs_approval_count s))
    (bump is_rejection (prs_rejection_count s))
    (bump (negb is_rejection && negb is_approval) (prs_changes_requested_count s)).

Abbreviation ReviewerCalibration := (gmap string PerReviewerStats).

Definition record_review (reviewer_id : string) (score : Z) (is_approval is_rejection : bool)
    (c : ReviewerCalibration) : ReviewerCalibration :=
  <[reviewer_id := add_review score is_approval is_rejection
      (default PerReviewerStats_new (c !! reviewer_id))]> c.

(** ** State *)

Record CoordinatorConfig := mkCoordinatorConfig {
  cc_panel_size : nat;
  cc_default_reviewers : list string;
  cc_claim_lease_duration : Z;
  cc_poll_interval : Z;
  cc_policy : ReviewPolicy;
  cc_stale_detection_enabled : bool
}.

Definition CoordinatorConfig_default : CoordinatorConfig :=
  mkCoordinatorConfig 3 [] 300000000000 5000000000 ReviewPolicy_default true.

Record ActiveReview := mkActiveReview {
  ar_review_id : ReviewId;
  ar_task_id : string;
  ar_branch : string;
  ar_base_commit : string;
  ar_claim_id : ClaimId;
  ar_panel : ReviewPanel;
  ar_round : Z;
  ar_collector : ScoreCollector
}.

#[export] Instance eta_ActiveReview : Eta ActiveReview := fun r =>
  mkActiveReview (ar_review_id r) (ar_task_id r) (ar_branch r) (ar_base_commit r) (ar_claim_id r)
    (ar_panel r) (ar_round r) (ar_collector r).

Record Coordinator := mkCoordinator {
  co_config : CoordinatorConfig;
  co_calibration : ReviewerCalibration;
  co_stale_detector : option StaleDetector;
  co_active_reviews : list ActiveReview
}.

#[export] Instance eta_Coordinator : Eta Coordinator := fun c =>
  mkCoordinator (co_config c) (co_calibration c) (co_stale_detector c) (co_active_reviews c).

Definition Coordinator_new (config : CoordinatorConfig) : Coordinator :=
  mkCoordinator config ∅
    (if cc_stale_detection_enabled config then Some StaleDetector_new else None) [].

Module ReviewOutcome.
Inductive ReviewOutcome :=
| Approved
| ChangesRequested (feedback : ConsolidatedFeedback)
| Rejected (feedback : ConsolidatedFeedback)
| Escalate (reason : string) (feedback : ConsolidatedFeedback).
End ReviewOutcome.
Abbreviation ReviewOutcome := ReviewOutcome.ReviewOutcome.

Section coordinator.
Context {ord : IterOrder string} `{TextOps} `{EventStore} `{AgentGateway} `{GitOperations}.

Record World := mkWorld { w_store : es_state; w_gateway : gw_state; w_self : Coordinator }.

#[export] Instance eta_World : Eta World := fun w =>
  mkWorld (w_store w) (w_gateway w) (w_self w).

Abbreviation Call A := (SM World Failure A).

(** A call of the event store, its error wrapped. *)
Definition on_store {A} (op : SM es_state PortError A) (wrap : string -> ReviewError) : Call A := fun w =>
  let '(s', r) := op (w_store w) in
  (w <| w_store := s' |>, result_map_err (fun e => Raised (wrap (PortError.to_string e))) r).

Definition get_self : Call Coordinator := fun w => (w, Ok (w_self w)).
Definition set_self (f : Coordinator -> Coordinator) : Call unit := fun w =>
  (w <| w_self := f (w_self w) |>, Ok tt).
Definition raise {A} (e : ReviewError) : Call A := sm_lift (Err (Raised e)).

(** ** Priority queue (queue.rs) *)

Definition LANE_NAMES : list string := ["critical"; "high"; "medium"; "low"].

Definition priority_to_lane (priority : Priority) : string :=
  match priority with
  | Priority.Critical => "critical" | Priority.High => "high"
  | Priority.Medium => "medium" | Priority.Low => "low"
  end.

Definition lane_to_priority (lane : string) : option Priority :=
  if String.eqb lane "critical" then Some Priority.Critical
  else if String.eqb lane "high" then Some Priority.High
  else if String.eqb lane "medium" then Some Priority.Medium
  else if String.eqb lane "low" then Some Priority.Low
  else None.

Definition review_requested_idempotency_key (review_id : string) : string :=
  "review_requested:" +:+ review_id.

Definition storage_error (e : string) : ReviewError := ReviewError.Queue (QueueError.Storage e).

Definition queue_enqueue (now : DateTime) (review_id task_id : string) (priority : Priority) : Call unit :=
  let queue_name := "review:" +:+ priority_to_lane priority in
  let event := mkEvent (EventKind.ReviewRequested task_id review_id) now review_id in
  let! _ := on_store (es_append_and_enqueue event queue_name review_id
                        (Some (review_requested_idempotency_key review_id))) storage_error in
  sm_ret tt.

(** The loop of [claim_next] over the lanes. *)
Fixpoint claim_lanes (lanes : list string) (consumer : string) (lease : Z) : Call (option QueueClaim) :=
  match lanes with
  | [] => sm_ret None
  | lane :: lanes =>
      let! claim := on_store (es_claim_next ("review:" +:+ lane) consumer lease) storage_error in
      match claim with
      | Some claim => sm_ret (Some claim)
      | None => claim_lanes lanes consumer lease
      end
  end.

Definition queue_claim_next (consumer : string) : Call (option QueueClaim) :=
  let! self := get_self in
  claim_lanes LANE_NAMES consumer (cc_claim_lease_duration (co_config self)).

Definition queue_ack (claim_id : ClaimId) : Call unit := on_store (es_ack_claim claim_id) storage_error.

Definition queue_renew (claim_id : ClaimId) : Call unit :=
  let! self := get_self in
  on_store (es_renew_claim claim_id (cc_claim_lease_duration (co_config self))) storage_error.

(** ** Lifecycle (lifecycle.rs) *)

Definition process_round (policy : ReviewPolicy) (panel : ReviewPanel) (collector : ScoreCollector)
    : Result (Result ReviewOutcome LifecycleError) Panic :=
  let submissions := pa_submissions (rp_affinity panel) in
  if decide (submissions = ∅) then Ok (Err LifecycleError.NoReviewers)
  else
    let? result := evaluate policy collector in
    let feedback := consolidate FeedbackConsolidator_default (iter_map submissions).*2 in
    Ok match result with
       | ThresholdResult.Approved => Ok ReviewOutcome.Approved
       | ThresholdResult.Rejected => Ok (ReviewOutcome.Rejected feedback)
       | ThresholdResult.ChangesRequested => Ok (ReviewOutcome.ChangesRequested feedback)
       | ThresholdResult.NeedMoreReviewers => Err LifecycleError.NoReviewers
       end.

Definition check_max_rounds (policy : ReviewPolicy) (current_round : Z) : bool :=
  (rp_max_review_rounds policy <=? current_round)%Z.

Definition emit (event : Event) : Call unit :=
  let! _ := on_store (es_append event)
              (fun e => ReviewError.Lifecycle (LifecycleError.StorageError e)) in
  sm_ret tt.

Definition emit_approval (now : DateTime) (review_id : string) : Call unit :=
  emit (mkEvent (EventKind.ReviewApproved review_id) now review_id).
Definition emit_changes_requested (now : DateTime) (review_id : string) : Call unit :=
  emit (mkEvent (EventKind.ReviewChangesRequested review_id) now review_id).
Definition emit_rejection (now : DateTime) (review_id : string) : Call unit :=
  emit (mkEvent (EventKind.ReviewRejected review_id) now review_id).
Definition emit_escalation_event (now : DateTime) (reason : string) : Call unit :=
  emit (mkEvent (EventKind.EscalationTriggered "Max review rounds exceeded"
                   ("Review stuck: " +:+ reason)) now "review-coordinator").

Definition escalate (now : DateTime) (panel : ReviewPanel) (reason : string) : Call ReviewOutcome :=
  let feedback := consolidate FeedbackConsolidator_default
                    (iter_map (pa_submissions (rp_affinity panel))).*2 in
  let! _ := emit_escalation_event now reason in
  sm_ret (ReviewOutcome.Escalate reason feedback).

(** ** Coordinator (coordinator.rs) *)

Definition record_calibration_data (review : ActiveReview) (c : ReviewerCalibration)
    : ReviewerCalibration :=
  foldl (fun c '(reviewer_id, submission) =>
    record_review reviewer_id (score_u8 (rs_score submission))
      (bool_decide (rs_verdict submission = ReviewVerdict.Approve))
      (bool_decide (rs_verdict submission = ReviewVerdict.Reject)) c)
    c (iter_map (pa_submissions (rp_affinity (ar_panel review)))).

(** Killing the sessions of a review; a failure is only logged. *)
Definition kill_review_sessions (review : ActiveReview) : Call unit := fun w =>
  (w <| w_gateway := (kill_all_sessions (ar_panel review) (w_gateway w)).1 |>, Ok tt).

Definition select_reviewers (config : CoordinatorConfig) : Result (list string) ReviewError :=
  match cc_default_reviewers config with
  | [] => Err (ReviewError.Config "No default reviewers configured")
  | reviewers =>
      let count := Nat.min (cc_panel_size config) (length reviewers) in
      Ok (take count reviewers)
  end.

Definition start_review (item_id : string) (claim_id : ClaimId) : Call unit :=
  let! self := get_self in
  let! reviewers := sm_lift (result_map_err Raised (select_reviewers (co_config self))) in
  match reviewers with
  | [] =>
      let! _ := queue_ack claim_id in
      raise (ReviewError.Config "No reviewers available")
  | _ => fun w =>
      let panel := mkReviewPanel (PanelAffinity_new item_id item_id reviewers) "worktree" "branch" in
      let '((g', panel'), r) := spawn_sessions (w_gateway w, panel) in
      match r with
      | Err e =>
          (w <| w_gateway := (kill_all_sessions panel' g').1 |>, Err (Raised (ReviewError.Panel e)))
      | Ok _ =>
          let review := mkActiveReview item_id item_id "" "" claim_id panel' 1 collector_new in
          (w <| w_gateway := g' |>
             <| w_self := (w_self w)
                  <| co_active_reviews := co_active_reviews (w_self w) ++ [review] |> |>, Ok tt)
      end
  end.

(** The first active review with an identifier is changed. *)
Fixpoint update_review (review_id : string) (f : ActiveReview -> ActiveReview)
    (l : list ActiveReview) : option (list ActiveReview) :=
  match l with
  | [] => None
  | r :: l =>
      if String.eqb (ar_review_id r) review_id then Some (f r :: l)
      else l' ← update_review review_id f l; Some (r :: l')
  end.

Definition apply_submission (submission : ReviewerSubmission) (review : ActiveReview) : ActiveReview :=
  review <| ar_panel := panel_submit submission (ar_panel review) |>
         <| ar_collector := collector_add (rs_reviewer_id submission) (rs_score submission)
                              (rs_verdict submission) (ar_collector review) |>.

Definition submit_review (review_id : string) (submission : ReviewerSubmission) : Call unit :=
  let! self := get_self in
  match update_review review_id (apply_submission submission) (co_active_reviews self) with
  | None => raise (ReviewError.Panel (PanelError.NotFound review_id))
  | Some active => set_self (fun c => c <| co_active_reviews := active |>)
  end.

(** The first loop of [check_active_reviews]: the outcomes of the complete
    rounds, errors skipped. *)
Fixpoint round_outcomes (policy : ReviewPolicy) (idx : nat) (active : list ActiveReview)
    : Result (list (nat * ReviewOutcome)) Panic :=
  match active with
  | [] => Ok []
  | review :: active =>
      let? here :=
        if is_round_complete (ar_panel review) then
          let? r := process_round policy (ar_panel review) (ar_collector review) in
          Ok match r with Ok outcome => [(idx, outcome)] | Err _ => [] end
        else Ok [] in
      let? rest := round_outcomes policy (S idx) active in
      Ok (here ++ rest)
  end.

Definition next_round (review : ActiveReview) : ActiveReview :=
  review <| ar_round := as_u32 (ar_round review + 1) |>
         <| ar_collector := collector_clear (ar_collector review) |>.

(** The second loop: events, and the reviews that are done, with whether they
    are approved. *)
Fixpoint handle_outcomes (now : DateTime) (outcomes : list (nat * ReviewOutcome))
    (completed : list (nat * bool)) : Call (list (nat * bool)) :=
  match outcomes with
  | [] => sm_ret completed
  | (idx, outcome) :: outcomes =>
      let! self := get_self in
      match co_active_reviews self !! idx with
      | None => sm_lift (Err (Panicked (mkPanic "index out of bounds")))
      | Some review =>
          match outcome with
          | ReviewOutcome.Approved => handle_outcomes now outcomes (completed ++ [(idx, true)])
          | ReviewOutcome.ChangesRequested _ =>
              let! _ := emit_changes_requested now (ar_review_id review) in
              if check_max_rounds (cc_policy (co_config self)) (ar_round review) then
                handle_outcomes now outcomes (completed ++ [(idx, false)])
              else
                let! _ := set_self (fun c =>
                  c <| co_active_reviews := <[idx := next_round review]> (co_active_reviews c) |>) in
                handle_outcomes now outcomes completed
          | ReviewOutcome.Rejected _ =>
              let! _ := emit_rejection now (ar_review_id review) in
              handle_outcomes now outcomes (completed ++ [(idx, false)])
          | ReviewOutcome.Escalate reason _ =>
              let event := mkEvent (EventKind.EscalationTriggered reason
                ("Review " +:+ ar_review_id review +:+ ": max rounds exceeded")) now
                (ar_review_id review) in
              let! _ := on_store (es_append event) ReviewError.Storage in
              handle_outcomes now outcomes (completed ++ [(idx, false)])
          end
      end
  end.

(** [Vec::dedup] *)
Fixpoint dedup (l : list (nat * bool)) : list (nat * bool) :=
  match l with
  | [] => []
  | x :: l' =>
      match l' with
      | y :: _ => if decide (x = y) then dedup l' else x :: dedup l'
      | [] => [x]
      end
  end.

(** The third loop: the reviews that are done leave, the latest index first. *)
Fixpoint close_reviews (now : DateTime) (completed : list (nat * bool)) : Call unit :=
  match completed with
  | [] => sm_ret tt
  | (idx, approved) :: completed =>
      let! self := get_self in
      match co_active_reviews self !! idx with
      | None => sm_lift (Err (Panicked (mkPanic "removal index out of bounds")))
      | Some review =>
          let! _ := set_self (fun c =>
            c <| co_active_reviews := delete idx (co_active_reviews c) |>
              <| co_calibration := record_calibration_data review (co_calibration c) |>) in
          let! _ := kill_review_sessions review in
          let! _ :=
            if approved then
              let! _ := queue_ack (ar_claim_id review) in emit_approval now (ar_review_id review)
            else sm_ret tt in
          close_reviews now completed
      end
  end.

Definition check_active_reviews (now : DateTime) : Call unit :=
  let! self := get_self in
  let! outcomes := sm_lift (result_map_err Panicked
    (round_outcomes (cc_policy (co_config self)) 0 (co_active_reviews self))) in
  let! completed := handle_outcomes now outcomes [] in
  close_reviews now (dedup (sort_by (fun x y => Nat.leb y.1 x.1) completed)).

Definition tick (now : DateTime) : Call unit :=
  let! _ := check_active_reviews now in
  let! claim := queue_claim_next "review-coordinator" in
  match claim with
  | Some claim => start_review (qc_item_id claim) (qc_claim_id claim)
  | None => sm_ret tt
  end.

(** [shutdown]: all reviews leave, their sessions are killed. *)
Fixpoint shut_reviews (active : list ActiveReview) : Call unit :=
  match active with
  | [] => sm_ret tt
  | review :: active =>
      let! _ := set_self (fun c =>
        c <| co_calibration := record_calibration_data review (co_calibration c) |>) in
      let! _ := kill_review_sessions review in
      shut_reviews active
  end.

Definition shutdown : Call unit :=
  let! self := get_self in
  let! _ := set_self (fun c => c <| co_active_reviews := [] |>) in
  shut_reviews (co_active_reviews self).

Fixpoint stale_loop (d : StaleDetector) (active : list ActiveReview) : Result (list string) ReviewError :=
  match active with
  | [] => Ok []
  | review :: active =>
      let? result := result_map_err ReviewError.StaleDetection
        (stale_check d (ar_branch review) (ar_base_commit review) "main") in
      let? rest := stale_loop d active in
      Ok (if bool_decide (result = StaleDetection.Stale) then ar_review_id review :: rest else rest)
  end.

Definition check_stale_reviews (c : Coordinator) : Result (list string) ReviewError :=
  match co_stale_detector c with
  | Some d => stale_loop d (co_active_reviews c)
  | None => Ok []
  end.

(** ** The fate of a review in a check *)

Inductive Fate := Keep | Next | Close (approved : bool).

Definition outcome_of (policy : ReviewPolicy) (review : ActiveReview)
    : Result (option ReviewOutcome) Panic :=
  if is_round_complete (ar_panel review) then
    let? r := process_round policy (ar_panel review) (ar_collector review) in
    Ok match r with Ok outcome => Some outcome | Err _ => None end
  else Ok None.

Definition fate (policy : ReviewPolicy) (review : ActiveReview) : Fate :=
  match outcome_of policy review with
  | Ok (Some ReviewOutcome.Approved) => Close true
  | Ok (Some (ReviewOutcome.ChangesRequested _)) =>
      if check_max_rounds policy (ar_round review) then Close false else Next
  | Ok (Some _) => Close false
  | _ => Keep
  end.

Definition survivor (policy : ReviewPolicy) (review : ActiveReview) : option ActiveReview :=
  match fate policy review with
  | Keep => Some review
  | Next => Some (next_round review)
  | Close _ => None
  end.

(** A review is approved when its round is complete and its scores are. *)
Lemma fate_approved policy review :
  fate policy review = Close true <->
  is_round_complete (ar_panel review) = true /\
  pa_submissions (rp_affinity (ar_panel review)) <> ∅ /\
  evaluate policy (ar_collector review) = Ok ThresholdResult.Approved.
Proof.
  unfold fate, outcome_of, process_round. destruct (is_round_complete _); [|naive_solver].
  destruct (decide _) as [Hs|Hs]; cbn [result_bind]; [naive_solver|].
  destruct (evaluate _ _) as [[]|p]; cbn [result_bind]; [naive_solver| |naive_solver..].
  destruct (check_max_rounds _ _); naive_solver.
Qed.

(** The reviews a check closes, from index [idx] on. *)
Fixpoint closings (policy : ReviewPolicy) (idx : nat) (active : list ActiveReview) : list (nat * bool) :=
  match active with
  | [] => []
  | review :: active =>
      match fate policy review with
      | Close approved => [(idx, approved)]
      | _ => []
      end ++ closings policy (S idx) active
  end.

Definition advanced (policy : ReviewPolicy) (review : ActiveReview) : ActiveReview :=
  match fate policy review with Next => next_round review | _ => review end.

Lemma round_outcomes_cons policy idx review active :
  round_outcomes policy idx (review :: active) =
  (let? o := outcome_of policy review in
   let? rest := round_outcomes policy (S idx) active in
   Ok (match o with Some o => [(idx, o)] | None => [] end ++ rest)).
Proof.
  cbn [round_outcomes]. unfold outcome_of. destruct (is_round_complete _); [|done].
  by destruct (process_round _ _ _) as [[]|].
Qed.

Lemma closings_ge policy idx active x : x ∈ closings policy idx active -> idx <= x.1.
Proof.
  revert idx. induction active as [|review active IH]; intros idx; cbn; [by intros ?%elem_of_nil|].
  intros [Hx|Hx%IH]%elem_of_app; [|lia].
  destruct (fate policy review); [by apply elem_of_nil in Hx..|].
  by apply list_elem_of_singleton in Hx as ->.
Qed.

(** Sorting by descending index reverses the closings, and removes nothing. *)
Lemma sort_insert_last (x : nat * bool) l :
  (forall y, y ∈ l -> x.1 < y.1) -> sort_insert (fun x y => Nat.leb y.1 x.1) x l = l ++ [x].
Proof.
  induction l as [|y l IH]; intros Hlt; cbn; [done|].
  rewrite (proj2 (Nat.leb_gt _ _)) by (apply Hlt; by left). f_equal. apply IH. intros z Hz. apply Hlt. by right.
Qed.

Lemma sort_closings policy idx active :
  sort_by (fun x y => Nat.leb y.1 x.1) (closings policy idx active) = rev (closings policy idx active).
Proof.
  revert idx. induction active as [|review active IH]; intros idx; cbn; [done|].
  destruct (fate policy review) as [| |approved]; cbn [app]; [apply IH..|].
  cbn [sort_by foldr rev]. fold (sort_by (fun x y : nat * bool => Nat.leb y.1 x.1) (closings policy (S idx) active)).
  rewrite IH. apply sort_insert_last. intros y Hy. apply list_elem_of_In, in_rev, list_elem_of_In, closings_ge in Hy.
  cbn. lia.
Qed.

Lemma dedup_descending (l : list (nat * bool)) :
  StronglySorted (fun x y => y.1 < x.1) l -> dedup l = l.
Proof.
  induction 1 as [|x l Hs IH Hall]; cbn; [done|]. destruct l as [|y l]; [done|].
  rewrite decide_False; [by rewrite IH|]. intros ->. apply Forall_inv in Hall. lia.
Qed.

Lemma closings_descending policy idx active :
  StronglySorted (fun x y : nat * bool => y.1 < x.1) (rev (closings policy idx active)).
Proof.
  revert idx. induction active as [|review active IH]; intros idx; cbn; [constructor|].
  rewrite rev_app_distr. apply StronglySorted_app_2; [|apply IH|].
  - intros x y Hx Hy. apply list_elem_of_In, in_rev, list_elem_of_In, closings_ge in Hx.
    destruct (fate policy review); cbn in Hy; [by apply elem_of_nil in Hy..|].
    apply list_elem_of_singleton in Hy as ->. cbn. lia.
  - destruct (fate policy review); repeat constructor.
Qed.
End coordinator.

(** ** A check, step by step *)

Section checks.
Context {ord : IterOrder string} `{TextOps} `{EventStoreLaws} `{AgentGateway} `{GitOperations}.

(** The log grows, and only identifiers of [ids] are announced as approved. *)
Definition announces (ids : string -> Prop) (w w' : World) : Prop :=
  exists evs, es_log (w_store w') = es_log (w_store w) ++ evs /\
    forall e id, e ∈ evs -> ev_kind e = EventKind.ReviewApproved id -> ids id.

Lemma announces_same ids w w' : w_store w' = w_store w -> announces ids w w'.
Proof. intros Hs. exists []. rewrite Hs, app_nil_r. split; [done|]. by intros e id ?%elem_of_nil. Qed.

Lemma announces_trans ids w1 w2 w3 : announces ids w1 w2 -> announces ids w2 w3 -> announces ids w1 w3.
Proof.
  intros (l & Hl & Hal) (m & Hm & Ham). exists (l ++ m). rewrite Hm, Hl, app_assoc. split; [done|].
  intros e id [He|He]%elem_of_app; [by eapply Hal|by eapply Ham].
Qed.

Lemma announces_mono (ids ids' : string -> Prop) w w' :
  announces ids w w' -> (forall id, ids id -> ids' id) -> announces ids' w w'.
Proof. intros (l & Hl & Hal) Hi. exists l. eauto. Qed.

Lemma append_post e (wrap : string -> ReviewError) w :
  sm_post (on_store (es_append e) wrap) w (fun w' _ => w_self w' = w_self w /\
    announces (fun id => ev_kind e = EventKind.ReviewApproved id) w w').
Proof.
  unfold sm_post, on_store. destruct (es_append e (w_store w)) as [s' r] eqn:E. cbn. split; [done|].
  destruct (es_append_law _ _ _ _ E) as [Hl|[_ Hl]].
  - exists [e]. split; [done|]. by intros e' id ->%list_elem_of_singleton.
  - exists []. rewrite app_nil_r. split; [done|]. by intros e' id ?%elem_of_nil.
Qed.

Lemma emit_post e w :
  sm_post (emit e) w (fun w' _ => w_self w' = w_self w /\
    announces (fun id => ev_kind e = EventKind.ReviewApproved id) w w').
Proof.
  apply sm_post_bind. eapply sm_post_mono; [apply append_post|]. cbn beta. by intros w' [a|err] Hp.
Qed.

(** A call that leaves the coordinator alone and announces no approval. *)
Definition quiet {A} (op : SM World Failure A) : Prop := forall w,
  sm_post op w (fun w' _ => w_self w' = w_self w /\ announces (fun _ => False) w w').

Lemma quiet_append e (wrap : string -> ReviewError) :
  (forall id, ev_kind e <> EventKind.ReviewApproved id) -> quiet (on_store (es_append e) wrap).
Proof.
  intros Hne w. eapply sm_post_mono; [apply append_post|]. cbn beta. intros w' r [Hs Han].
  split; [done|]. eapply announces_mono; [exact Han|]. by intros id ?%Hne.
Qed.

Lemma quiet_emit e : (forall id, ev_kind e <> EventKind.ReviewApproved id) -> quiet (emit e).
Proof.
  intros Hne w. apply sm_post_bind. eapply sm_post_mono; [by apply quiet_append|].
  cbn beta. by intros w' [a|err] Hp.
Qed.

Lemma quiet_then {A B} (op : SM World Failure A) (k : A -> SM World Failure B) w
    (Q : World -> Result B Failure -> Prop) :
  quiet op ->
  (forall a w1, w_self w1 = w_self w -> announces (fun _ => False) w w1 -> sm_post (k a) w1 Q) ->
  (forall e w1, announces (fun _ => False) w w1 -> Q w1 (Err e)) ->
  sm_post (sm_bind op k) w Q.
Proof.
  intros Hq Hk He. apply sm_post_bind. eapply sm_post_mono; [apply Hq|]. cbn beta.
  intros w1 [a|err] [Hs Han]; [by apply Hk|by apply He].
Qed.

(** What the second loop leaves of the reviews from [length before] on: they
    have advanced, the closings are collected, no approval is announced. *)
Definition handled (policy : ReviewPolicy) (before active : list ActiveReview)
    (completed : list (nat * bool)) (w w' : World) (r : Result (list (nat * bool)) Failure) : Prop :=
  announces (fun _ => False) w w' /\
  match r with
  | Ok closed => closed = completed ++ closings policy (length before) active /\
      w_self w' = w_self w <| co_active_reviews := before ++ (advanced policy <$> active) |>
  | Err _ => True
  end.

Definition closing (policy : ReviewPolicy) (idx : nat) (review : ActiveReview) : list (nat * bool) :=
  match fate policy review with Close approved => [(idx, approved)] | _ => [] end.

Lemma handled_cons policy before review active completed w w1 w' r :
  w_self w1 = w_self w <| co_active_reviews := (before ++ [advanced policy review]) ++ active |> ->
  announces (fun _ => False) w w1 ->
  handled policy (before ++ [advanced policy review]) active
    (completed ++ closing policy (length before) review) w1 w' r ->
  handled policy before (review :: active) completed w w' r.
Proof.
  intros Hw1 Han [Han' Hr]. split; [by eapply announces_trans|]. destruct r as [closed|]; [|done].
  destruct Hr as [-> Hself]. cbn [closings]. fold (closing policy (length before) review).
  rewrite <-app_assoc, length_app, Nat.add_1_r. split; [done|].
  rewrite Hself, Hw1. cbn. by rewrite <-app_assoc.
Qed.

Lemma handle_outcomes_post now policy before active os completed w :
  cc_policy (co_config (w_self w)) = policy -> co_active_reviews (w_self w) = before ++ active ->
  round_outcomes policy (length before) active = Ok os ->
  sm_post (handle_outcomes now os completed) w (handled policy before active completed w).
Proof.
  revert before os completed w. induction active as [|review active IH]; intros before os completed w Hpol Hact.
  { intros [= <-]. apply sm_post_ret. split; [by apply announces_same|]. cbn [closings fmap list_fmap].
    rewrite app_nil_r. split; [done|]. rewrite <-Hact. by destruct (w_self w). }
  rewrite round_outcomes_cons. destruct (outcome_of policy review) as [o|p] eqn:Ho; cbn [result_bind]; [|done].
  destruct (round_outcomes policy (S (length before)) active) as [rest|p] eqn:Hrest; cbn [result_bind]; [|done].
  intros [= <-].
  assert (Hgo : forall w1 completed',
    w_self w1 = w_self w <| co_active_reviews := (before ++ [advanced policy review]) ++ active |> ->
    announces (fun _ => False) w w1 -> completed' = completed ++ closing policy (length before) review ->
    sm_post (handle_outcomes now rest completed') w1 (handled policy before (review :: active) completed w)).
  { intros w1 completed' Hw1 Han ->.
    eapply sm_post_mono; [apply (IH (before ++ [advanced policy review]) rest)|].
    - by rewrite Hw1.
    - by rewrite Hw1.
    - by rewrite length_app, Nat.add_1_r.
    - cbn beta. intros w' r. by apply handled_cons. }
  assert (Hstay : forall w1, w_self w1 = w_self w -> advanced policy review = review ->
    w_self w1 = w_self w <| co_active_reviews := (before ++ [advanced policy review]) ++ active |>).
  { intros w1 -> ->. rewrite <-app_assoc. cbn. rewrite <-Hact. by destruct (w_self w). }
  assert (Hlook : co_active_reviews (w_self w) !! length before = Some review)
    by (rewrite Hact; by apply list_lookup_middle).
  destruct o as [outcome|]; cbn [app]; cycle 1.
  { apply Hgo; [apply Hstay; [done|]|by apply announces_same|]; unfold advanced, closing, fate; rewrite Ho;
      [done|by rewrite app_nil_r]. }
  cbn [handle_outcomes]. apply sm_post_bind. unfold get_self, sm_post at 1. cbn [fst snd]. rewrite Hlook, Hpol.
  assert (Herr : forall e w1, announces (fun _ => False) w w1 ->
    handled policy before (review :: active) completed w w1 (Err e)) by done.
  destruct outcome as [|feedback|feedback|reason feedback].
  - apply Hgo; [apply Hstay; [done|]|by apply announces_same|]; unfold advanced, closing, fate; by rewrite Ho.
  - apply quiet_then; [by apply quiet_emit| |done]. intros _ w1 Hs Han.
    destruct (check_max_rounds policy (ar_round review)) eqn:Hmax.
    + apply Hgo; [apply Hstay; [done|]|done|]; unfold advanced, closing, fate; by rewrite Ho, Hmax.
    + apply sm_post_bind. unfold sm_post, set_self. cbn beta iota. apply Hgo; cbn [fst snd].
      * cbn. rewrite Hs, Hact, insert_app_r_alt, Nat.sub_diag by lia. cbn.
        unfold advanced, fate. by rewrite Ho, Hmax, <-app_assoc.
      * exact Han.
      * unfold closing, fate. by rewrite Ho, Hmax, app_nil_r.
  - apply quiet_then; [by apply quiet_emit| |done]. intros _ w1 Hs Han.
    apply Hgo; [apply Hstay; [done|]|done|]; unfold advanced, closing, fate; by rewrite Ho.
  - apply quiet_then; [by apply quiet_append| |done]. intros _ w1 Hs Han.
    apply Hgo; [apply Hstay; [done|]|done|]; unfold advanced, closing, fate; by rewrite Ho.
Qed.

(** ** Closing *)

Lemma close_app now l1 l2 w :
  close_reviews now (l1 ++ l2) w = sm_bind (close_reviews now l1) (fun _ => close_reviews now l2) w.
Proof.
  revert w. induction l1 as [|[idx approved] l1 IH]; intros w; [done|].
  unfold sm_bind in IH. cbn [app close_reviews].
  unfold sm_bind, get_self, set_self, kill_review_sessions. cbn beta iota.
  destruct (co_active_reviews (w_self w) !! idx) as [review|]; [|done].
  destruct approved; [|apply IH].
  destruct (queue_ack _ _) as [w2 [[]|e]]; [|done].
  destruct (emit_approval _ _ _) as [w3 [[]|e]]; [apply IH|done].
Qed.

Lemma close_app_post now l1 l2 w (Q : World -> Result unit Failure -> Prop) :
  sm_post (close_reviews now l1) w (fun w' r =>
    match r with Ok _ => sm_post (close_reviews now l2) w' Q | Err e => Q w' (Err e) end) ->
  sm_post (close_reviews now (l1 ++ l2)) w Q.
Proof. unfold sm_post at 3. rewrite close_app. intros Hp. by apply (sm_post_bind _ (fun _ => _)). Qed.

(** One review leaves; at most its own approval is announced. *)
Lemma close_one_post now idx approved review w :
  co_active_reviews (w_self w) !! idx = Some review ->
  sm_post (close_reviews now [(idx, approved)]) w (fun w' r =>
    co_active_reviews (w_self w') = delete idx (co_active_reviews (w_self w)) /\
    co_config (w_self w') = co_config (w_self w) /\
    announces (fun id => approved = true /\ id = ar_review_id review) w w').
Proof.
  intros Hlook. cbn [close_reviews]. apply sm_post_bind. unfold get_self, sm_post at 1. cbn [fst snd].
  rewrite Hlook. apply sm_post_bind. unfold set_self, sm_post at 1. cbn [fst snd].
  apply sm_post_bind. unfold kill_review_sessions, sm_post at 1. cbn [fst snd].
  set (w1 := w <| w_self := _ |> <| w_gateway := _ |>).
  assert (Hw1 : w_store w1 = w_store w) by done.
  assert (Hdone : forall w', w_self w' = w_self w1 ->
    announces (fun id => approved = true /\ id = ar_review_id review) w w' ->
    co_active_reviews (w_self w') = delete idx (co_active_reviews (w_self w)) /\
    co_config (w_self w') = co_config (w_self w) /\
    announces (fun id => approved = true /\ id = ar_review_id review) w w').
  { intros w' Hs Han. by rewrite Hs. }
  apply sm_post_bind. destruct approved; cycle 1.
  { apply sm_post_ret, sm_post_ret, Hdone; [done|by apply announces_same]. }
  apply sm_post_bind. unfold queue_ack, on_store, sm_post at 1.
  destruct (es_ack_claim (ar_claim_id review) (w_store w1)) as [s' [[]|e]] eqn:Hack; cbn [fst snd result_map_err];
    apply es_ack_law in Hack.
  - eapply sm_post_mono; [apply emit_post|]. cbn beta. intros w' r [Hs Han].
    assert (Han' : announces (fun id => true = true /\ id = ar_review_id review) w w').
    { eapply (announces_trans _ _ (w1 <| w_store := s' |>)).
      - exists []. cbn. rewrite Hack, app_nil_r. split; [done|]. by intros ? ? ?%elem_of_nil.
      - eapply announces_mono; [exact Han|]. cbn. by intros id [= ->]. }
    destruct r; [apply sm_post_ret|]; by apply Hdone.
  - apply Hdone; [done|]. exists []. cbn. rewrite Hack, app_nil_r. split; [done|].
    by intros ? ? ?%elem_of_nil.
Qed.

(** The identifiers of the reviews of [active] that are approved. *)
Definition approved_in (policy : ReviewPolicy) (active : list ActiveReview) (id : string) : Prop :=
  exists review, review ∈ active /\ ar_review_id review = id /\ fate policy review = Close true.

Lemma close_reviews_post now policy before active w :
  co_active_reviews (w_self w) = before ++ (advanced policy <$> active) ->
  sm_post (close_reviews now (rev (closings policy (length before) active))) w (fun w' r =>
    announces (approved_in policy active) w w' /\ co_config (w_self w') = co_config (w_self w) /\
    match r with
    | Ok _ => co_active_reviews (w_self w') = before ++ omap (survivor policy) active
    | Err _ => True
    end).
Proof.
  revert before w. induction active as [|review active IH]; intros before w Hact.
  { apply sm_post_ret. split; [by apply announces_same|done]. }
  cbn [closings]. rewrite rev_app_distr. apply close_app_post.
  eapply sm_post_mono.
  { pose proof (IH (before ++ [advanced policy review]) w) as Hp.
    rewrite length_app, Nat.add_1_r in Hp. apply Hp. rewrite Hact. by rewrite <-app_assoc. }
  assert (Hin : forall id, approved_in policy active id -> approved_in policy (review :: active) id).
  { intros id (rv & Hrv & Hr). exists rv. split; [by right|done]. }
  cbn beta. intros w1 [[]|e] (Han & Hcfg & Hr); [|by split; [eapply announces_mono|]].
  assert (Homap : omap (survivor policy) (review :: active) =
    match survivor policy review with Some r => [r] | None => [] end ++ omap (survivor policy) active)
    by (cbn; by destruct (survivor policy review)).
  rewrite Homap. unfold survivor at 1. unfold advanced in Hr. rewrite <-app_assoc in Hr.
  destruct (fate policy review) as [| |approved] eqn:Hf; cbn [rev app] in *.
  - apply sm_post_ret. split; [by eapply announces_mono|]. by rewrite Hr.
  - apply sm_post_ret. split; [by eapply announces_mono|]. by rewrite Hr.
  - assert (Hlook : co_active_reviews (w_self w1) !! length before = Some review).
    { rewrite Hr. by apply list_lookup_middle. }
    eapply sm_post_mono; [by apply close_one_post|]. cbn beta. intros w' r (Hdel & Hcfg' & Han').
    split_and!.
    + eapply announces_trans; [by eapply announces_mono|]. eapply announces_mono; [exact Han'|].
      intros id [-> ->]. exists review. split; [by left|done].
    + congruence.
    + destruct r; [|done]. rewrite Hdel, Hr. by rewrite delete_middle.
Qed.
End checks.

(** ** Properties *)

Section properties.
Context {ord : IterOrder string} `{TextOps} `{EventStoreLaws} `{AgentGateway} `{GitOperations}.

Abbreviation policy_of w := (cc_policy (co_config (w_self w))).
Abbreviation active_of w := (co_active_reviews (w_self w)).

Lemma check_active_reviews_post now w :
  sm_post (check_active_reviews now) w (fun w' r =>
    announces (approved_in (policy_of w) (active_of w)) w w' /\
    match r with
    | Ok _ => active_of w' = omap (survivor (policy_of w)) (active_of w)
    | Err _ => True
    end).
Proof.
  apply sm_post_bind. unfold get_self, sm_post at 1. cbn [fst snd]. apply sm_post_bind, sm_post_lift.
  destruct (round_outcomes _ 0 _) as [os|p] eqn:Hos; cbn [result_map_err]; [|by split; [apply announces_same|]].
  apply sm_post_bind.
  eapply sm_post_mono; [by apply (handle_outcomes_post now (policy_of w) [] (active_of w) os [])|].
  intros w1 r [Han Hr]. apply (announces_mono _ (approved_in (policy_of w) (active_of w))) in Han; [|done].
  destruct r as [closed|e]; [|done]. destruct Hr as [-> Hself]. cbn [app length] in *.
  rewrite sort_closings, dedup_descending by apply closings_descending.
  eapply sm_post_mono; [apply (close_reviews_post now (policy_of w) [] (active_of w) w1); by rewrite Hself|].
  cbn beta. intros w' r' (Han' & _ & Hr). split; [by eapply announces_trans|done].
Qed.

(** C38: approvals are earned.  Whatever the store and the gateway do, and
    however a check of the active reviews ends, it only appends to the log, and
    every approval it announces is of an active review whose panel has
    submitted and whose scores the policy approves. *)
Theorem approvals_are_earned (now : DateTime) (w : World) :
  exists evs, es_log (w_store (check_active_reviews now w).1) = es_log (w_store w) ++ evs /\
    forall e id, e ∈ evs -> ev_kind e = EventKind.ReviewApproved id ->
      exists review, review ∈ active_of w /\ ar_review_id review = id /\
        is_round_complete (ar_panel review) = true /\
        evaluate (policy_of w) (ar_collector review) = Ok ThresholdResult.Approved.
Proof.
  destruct (check_active_reviews_post now w) as [(evs & Hlog & Hev) _]. exists evs. split; [exact Hlog|].
  intros e id He Hk. destruct (Hev e id He Hk) as (review & Hin & Hid & (Hc & _ & Hs)%fate_approved).
  by exists review.
Qed.

(** a check settles every active review.  When it returns normally, the
    reviews whose round is not complete or lacks reviewers are as before, those
    with changes requested and rounds left are in their next round, and the
    approved and rejected ones and those out of rounds are gone; the order is
    kept. *)
Theorem check_settles_reviews (now : DateTime) (w w' : World) :
  check_active_reviews now w = (w', Ok tt) ->
  active_of w' = omap (survivor (policy_of w)) (active_of w).
Proof.
  intros Hc. pose proof (check_active_reviews_post now w) as [_ Hr]. unfold sm_post in Hr.
  rewrite Hc in Hr. exact Hr.
Qed.

(** Submissions after the round has advanced. *)
Lemma submissions_keep_complete review subs :
  is_round_complete (ar_panel review) = true ->
  is_round_complete (ar_panel (foldr apply_submission review subs)) = true.
Proof.
  intros Hc. induction subs as [|s subs IH]; [done|]. cbn [foldr].
  set (r := foldr apply_submission review subs) in *.
  unfold is_round_complete in *. cbn [apply_submission ar_panel]. rewrite forallb_forall in IH |- *.
  intros id Hid. specialize (IH id Hid). unfold submitted in *. cbn.
  destruct (decide (rs_reviewer_id s = id)) as [->|Hne]; [by rewrite lookup_insert_eq|].
  by rewrite lookup_insert_ne.
Qed.

(** A submission in full agreement. *)
Definition full_marks (s : ReviewerSubmission) : Prop :=
  score_u8 (rs_score s) = 10%Z /\ rs_verdict s = ReviewVerdict.Approve.

Lemma collector_of_submissions review subs :
  ar_collector review = ∅ -> NoDup (rs_reviewer_id <$> subs) -> Forall full_marks subs ->
  let c := ar_collector (foldr apply_submission review subs) in
  size c = length subs /\ entries_all (fun s v => s = 10%Z /\ v = ReviewVerdict.Approve) c /\
  dom c = list_to_set (rs_reviewer_id <$> subs) /\ score_sum c = (10 * Z.of_nat (length subs))%Z.
Proof.
  intros Hc. induction subs as [|s subs IH]; intros Hnd Hall; cbn zeta.
  { cbn. rewrite Hc. split_and!; [done| |done|done]. by intros id sc v; rewrite lookup_empty. }
  apply NoDup_cons in Hnd as [Hs Hnd]. apply Forall_cons in Hall as [[Hs10 Hsv] Hall].
  destruct (IH Hnd Hall) as (Hsize & Hent & Hdom & Hsum). cbn [foldr].
  set (r := foldr apply_submission review subs) in *. cbn [apply_submission ar_collector].
  change (ar_collector _) with
    (<[rs_reviewer_id s := (rs_score s, rs_verdict s)]> (ar_collector r)).
  assert (Hfresh : ar_collector r !! rs_reviewer_id s = None).
  { apply not_elem_of_dom. rewrite Hdom, elem_of_list_to_set. exact Hs. }
  split_and!.
  - rewrite map_size_insert_None, Hsize by done. done.
  - intros id sc v [[_ [= <- <-]]|[_ Hid]]%lookup_insert_Some; [done|]. by eapply Hent.
  - rewrite dom_insert_L, Hdom. done.
  - unfold score_sum in *.
    rewrite (sum_perm _ _ (fmap_Permutation _ _ _ (map_to_list_insert _ _ _ Hfresh))).
    cbn [fmap list_fmap foldr fst snd length]. rewrite Hs10. lia.
Qed.

(** after the first round the panel is not waited for.  When a check sends
    a review into its next round, the submissions of the old round stay on the
    panel, so that the new round counts as complete from its start: as soon as
    [min_approvals] reviewers have approved with full marks (two of the three
    of the default configuration), the next check approves the review, whoever
    else is on the panel and whether or not they withdrew their requests for
    changes. *)
Theorem later_round_ignores_panel (policy : ReviewPolicy) (review : ActiveReview)
    (subs : list ReviewerSubmission) :
  fate policy review = Next ->
  subs <> [] -> NoDup (rs_reviewer_id <$> subs) -> Forall full_marks subs ->
  (rp_min_approvals policy <= Z.of_nat (length subs) < 256)%Z ->
  (rp_blocking_score policy < 10)%Z -> (rp_min_individual_score policy <= 10)%Z ->
  (0 <= rp_min_average_score policy <= 10)%Z ->
  is_round_complete (ar_panel (next_round review)) = true /\
  fate policy (foldr apply_submission (next_round review) subs) = Close true.
Proof.
  intros Hf Hne Hnd Hall Hlen Hblk Hind Havg.
  assert (Hcomp : is_round_complete (ar_panel (next_round review)) = true).
  { change (ar_panel (next_round review)) with (ar_panel review). unfold fate, outcome_of in Hf.
    by destruct (is_round_complete (ar_panel review)). }
  split; [done|]. apply fate_approved. split; [by apply submissions_keep_complete|]. split.
  { destruct subs as [|s subs]; [done|]. cbn. apply insert_non_empty. }
  destruct (collector_of_submissions (next_round review) subs eq_refl Hnd Hall) as (Hsize & Hent & _ & Hsum).
  set (c := ar_collector _) in *.
  assert (Hpos : length subs <> 0) by (by destruct subs).
  destruct (evaluate_outcome policy c) as (r & -> & _ & Happ & _).
  - intros id s v Hid. destruct (Hent _ _ _ Hid) as [-> _]. lia.
  - unfold is_u8, u8_max. lia.
  - rewrite Hsize. lia.
  - f_equal. apply Happ. split_and!.
    + intros Hc0. by rewrite Hc0, map_size_empty in Hsize.
    + intros id s v Hid. destruct (Hent _ _ _ Hid) as [-> ->]. split; [lia|done].
    + unfold approvals, as_u8. rewrite Hsize, Z.mod_small by lia. lia.
    + intros id s v Hid. destruct (Hent _ _ _ Hid) as [-> _]. lia.
    + rewrite Hsum, Hsize. nia.
Qed.

(** an approval that cannot be acknowledged is forgotten.  When the claim
    of an approved review has expired (a claim is never renewed) or the
    acknowledgement fails for another reason, the check ends with that error
    after the review has left the active reviews: it is neither announced as
    approved nor kept. *)
Theorem unacked_approval_forgotten (now : DateTime) (w : World) (review : ActiveReview)
    (s' : es_state) (e : PortError) :
  active_of w = [review] -> fate (policy_of w) review = Close true ->
  es_ack_claim (ar_claim_id review) (w_store w) = (s', Err e) ->
  let '(w', r) := check_active_reviews now w in
  r = Err (Raised (storage_error (PortError.to_string e))) /\ active_of w' = [] /\ es_log (w_store w') = es_log (w_store w).
Proof.
  intros Hact Hf Hack. pose proof Hack as Hlog. apply es_ack_law in Hlog.
  unfold check_active_reviews, sm_bind, get_self. cbn beta iota. rewrite Hact, round_outcomes_cons.
  assert (Ho : outcome_of (policy_of w) review = Ok (Some ReviewOutcome.Approved)).
  { unfold fate in Hf. destruct (outcome_of _ _) as [[[]|]|]; try done. by destruct (check_max_rounds _ _). }
  rewrite Ho. cbn. unfold sm_bind, get_self, set_self, kill_review_sessions, queue_ack, on_store.
  rewrite Hact. cbn. rewrite Hact. cbn. unfold sm_bind, queue_ack, on_store. cbn.
  rewrite Hack. cbn. by rewrite Hact.
Qed.
End properties.

(** ** Witnesses *)

Module MemReview.
Import MemKv MemClaims.

(** ASCII text *)
Definition lower (c : Ascii.ascii) : Ascii.ascii :=
  let n := Ascii.nat_of_ascii c in
  if Nat.leb 65 n && Nat.leb n 90 then Ascii.ascii_of_nat (n + 32) else c.
Fixpoint lower_string (s : string) : string :=
  match s with EmptyString => EmptyString | String c s => String (lower c) (lower_string s) end.
#[export] Instance ascii_text : TextOps := {|
  to_lowercase := lower_string
|}.

Definition store_error_text (e : StoreError) : string :=
  match e with
  | StoreError.Io m => "IO error: " +:+ m
  | StoreError.Storage m => "Storage error: " +:+ m
  | StoreError.Serialization m => "Serialization error: " +:+ m
  | StoreError.ClaimNotFound id => "Claim not found: " +:+ id
  | StoreError.ClaimExpired id => "Claim expired: " +:+ id
  | StoreError.VersionMismatch _ _ => "Version mismatch"
  end.

(** The queue of Queue.v beside a log in memory, at one reading of the clock. *)
Definition lift_queue {A} (op : SM kv_state StoreError A) : SM (kv_state * list Event) PortError A :=
  fun '(k, l) => let '(k', r) := op k in ((k', l), result_map_err (fun e => PortError.Storage (store_error_text e)) r).

Lemma lift_queue_log {A} (op : SM kv_state StoreError A) k l s' r :
  lift_queue op (k, l) = (s', r) -> s'.2 = l.
Proof. cbn. destruct (op k) as [k' r']. by intros [= <- <-]. Qed.

Definition store_at (clk : ClockReading) : EventStore := {|
  es_state := kv_state * list Event;
  es_append e := fun '(k, l) => ((k, l ++ [e]), Ok (Z.of_nat (S (length l))));
  es_append_and_enqueue e q item key := fun '(k, l) =>
    let seq := Z.of_nat (S (length l)) in
    let '(k', r) := enqueue_row q item seq k in
    match r with
    | Ok _ => ((k', l ++ [e]), Ok seq)
    | Err e => ((k', l), Err (PortError.Storage (store_error_text e)))
    end;
  es_claim_next q consumer lease := fun s =>
    lift_queue (claim_next "e" clk (fun _ => clk) ("claim-" +:+ pretty (size (mem_contents s.1)))
                  q consumer lease) s;
  es_ack_claim id := lift_queue (ack_claim "e" clk id);
  es_renew_claim id lease := lift_queue (renew_claim "e" clk clk clk id lease)
|}.

Definition store_at_laws (clk : ClockReading) : @EventStoreLaws (store_at clk).
Proof.
  refine {| es_log := snd : @es_state (store_at clk) -> list Event |}.
  - intros e [k l] s' r [= <- <-]. by left.
  - intros id [k l] s' r Hs. by apply lift_queue_log in Hs.
  - intros q consumer lease [k l] s' r Hs. by apply lift_queue_log in Hs.
Defined.

#[export] Instance mem_gateway : AgentGateway := {|
  gw_state := nat;
  gw_spawn _ n := (S n, Ok ("session-" +:+ pretty n));
  gw_kill_session _ n := (n, Ok tt)
|}.

Definition reviewers : list string := ["r1"; "r2"; "r3"].

Definition config : CoordinatorConfig :=
  mkCoordinatorConfig 3 reviewers 300000000000 5000000000 ReviewPolicy_default false.

Definition submission (id : string) (score : Z) (verdict : ReviewVerdict) : ReviewerSubmission :=
  mkReviewerSubmission id ("s-" +:+ id) (mkReviewScore score) verdict [].

Definition fresh_review (claim : ClaimId) : ActiveReview :=
  mkActiveReview "R-1" "R-1" "" "" claim
    (mkReviewPanel (PanelAffinity_new "R-1" "R-1" reviewers) "worktree" "branch") 1 collector_new.

(** The first round of a review: one reviewer asks for changes. *)
Definition first_round (claim : ClaimId) : ActiveReview :=
  foldr apply_submission (fresh_review claim)
    [submission "r1" 8 ReviewVerdict.Approve; submission "r2" 9 ReviewVerdict.Approve;
     submission "r3" 6 ReviewVerdict.ChangesRequested].

(** All three approve. *)
Definition approved_review (claim : ClaimId) : ActiveReview :=
  foldr apply_submission (fresh_review claim)
    [submission "r1" 8 ReviewVerdict.Approve; submission "r2" 9 ReviewVerdict.Approve;
     submission "r3" 8 ReviewVerdict.Approve].

(** One review queued at the start and claimed for 300 seconds. *)
Definition claimed_queue : kv_state :=
  (claim_next "e" (at_ms 0) (fun _ => at_ms 0) "c1" "review:high" "review-coordinator" 300000000000
    (enqueue_row "review:high" "R-1" 1 empty_store).1).1.
End MemReview.

Import MemReview.
#[local] Existing Instance canonical_order.

Lemma later_round_ignores_panel_witness :
  fate ReviewPolicy_default (first_round "c1") = Next /\
  fate ReviewPolicy_default (foldr apply_submission (next_round (first_round "c1"))
    [submission "r1" 10 ReviewVerdict.Approve; submission "r2" 10 ReviewVerdict.Approve]) = Close true.
Proof.
  assert (Hf : fate ReviewPolicy_default (first_round "c1") = Next) by (vm_compute; reflexivity).
  split; [exact Hf|].
  apply (later_round_ignores_panel ReviewPolicy_default (first_round "c1")
    [submission "r1" 10 ReviewVerdict.Approve; submission "r2" 10 ReviewVerdict.Approve] Hf);
    [discriminate| | |cbn; lia..].
  - apply (bool_decide_unpack _). vm_compute. exact I.
  - repeat constructor.
Defined.

(** The review above and one whose panel has not submitted. *)
Definition two_active (clk : ClockReading) : @World (store_at clk) mem_gateway :=
  @mkWorld (store_at clk) mem_gateway (MemKv.empty_store, []) 0
    (mkCoordinator config ∅ None [first_round "c1"; fresh_review "c2"]).

Lemma check_settles_reviews_witness :
  let w := two_active (Queue.at_ms 0) in
  (@check_active_reviews _ _ (store_at (Queue.at_ms 0)) mem_gateway 0 w).2 = Ok tt /\
  co_active_reviews (w_self (@check_active_reviews _ _ (store_at (Queue.at_ms 0)) mem_gateway 0 w).1)
  = omap (survivor ReviewPolicy_default) [first_round "c1"; fresh_review "c2"].
Proof.
  cbn zeta. set (run := check_active_reviews _ _).
  assert (Hok : run.2 = Ok tt) by (vm_compute; reflexivity). split; [exact Hok|].
  apply (@check_settles_reviews _ _ (store_at (Queue.at_ms 0)) (store_at_laws (Queue.at_ms 0)) mem_gateway 0
    (two_active (Queue.at_ms 0)) run.1).
  fold run. destruct run as [w' r]. cbn in Hok. by subst r.
Defined.

(** The review above took longer than its lease. *)
Definition late (clk : ClockReading) : @World (store_at clk) mem_gateway :=
  @mkWorld (store_at clk) mem_gateway (claimed_queue, []) 0
    (mkCoordinator config ∅ None [approved_review "c1"]).

Lemma unacked_approval_forgotten_witness :
  let '(w', r) := @check_active_reviews _ _ (store_at (Queue.at_ms 400000)) mem_gateway 0
                    (late (Queue.at_ms 400000)) in
  r = Err (Raised (storage_error "Storage error: Claim expired: c1")) /\ co_active_reviews (w_self w') = [] /\
  snd (w_store w') = [].
Proof.
  assert (Hf : fate ReviewPolicy_default (approved_review "c1") = Close true) by (vm_compute; reflexivity).
  assert (Hr : (es_ack_claim (EventStore := store_at (Queue.at_ms 400000)) "c1" (claimed_queue, [])).2
    = Err (PortError.Storage "Claim expired: c1")) by (vm_compute; reflexivity).
  destruct (es_ack_claim (EventStore := store_at (Queue.at_ms 400000)) "c1" (claimed_queue, []))
    as [s' r] eqn:Hack. cbn [snd] in Hr. subst r.
  pose proof (@unacked_approval_forgotten _ _ (store_at (Queue.at_ms 400000))
    (store_at_laws (Queue.at_ms 400000)) mem_gateway 0 (late (Queue.at_ms 400000)) (approved_review "c1")
    s' (PortError.Storage "Claim expired: c1") eq_refl Hf Hack) as Hp.
  revert Hp. generalize (@check_active_reviews _ _ (store_at (Queue.at_ms 400000)) mem_gateway 0
    (late (Queue.at_ms 400000))). intros [w' r] (Hp1 & Hp2 & Hp3).
  split; [exact Hp1|]. split; [exact Hp2|exact Hp3].
Defined.
