(* ===== verification/Chunking.v ===== *)
(** * Splitting large diffs (brehon-review/src/chunking.rs)

    A diff whose estimated size exceeds a limit is split into chunks of files or
    of directories.  The release profile checks overflow, so sums that leave
    their width panic. *)

From Stdlib Require Import Ascii.
From S2P Require Import Prelude StrLib.

Module ChunkStrategy.
Inductive ChunkStrategy := ByDirectory | ByFile | None_.
End ChunkStrategy.
Abbreviation ChunkStrategy := ChunkStrategy.ChunkStrategy.

(** [FileDiff] and [Diff] of brehon-ports/src/git_ops.rs *)
Record FileDiff := mkFileDiff { fd_path : string; fd_additions : Z; fd_deletions : Z }.
Record Diff := mkDiff { df_files : list FileDiff }.

Record ChunkingConfig := mkChunkingConfig {
  ck_max_diff_tokens : Z;
  ck_strategy : ChunkStrategy;
  ck_tokens_per_line : Z;
  ck_file_overhead_tokens : Z
}.

Definition ChunkingConfig_default : ChunkingConfig := mkChunkingConfig 8000 ChunkStrategy.ByDirectory 4 50.

Definition ChunkingConfig_new (max_diff_tokens : Z) (strategy : ChunkStrategy) : ChunkingConfig :=
  mkChunkingConfig max_diff_tokens strategy 4 50.

Record DiffChunk := mkDiffChunk {
  dk_index : nat;
  dk_total : nat;
  dk_files : list FileDiff;
  dk_description : string
}.

(** Arithmetic of an unsigned type whose greatest value is [m]. *)
Definition checked_add (m a b : Z) : Result Z Panic :=
  if (a + b <=? m)%Z then Ok (a + b)%Z else Err (mkPanic "attempt to add with overflow").
Definition checked_mul (m a b : Z) : Result Z Panic :=
  if (a * b <=? m)%Z then Ok (a * b)%Z else Err (mkPanic "attempt to multiply with overflow").

(** [str::trim_start_matches] of a character *)
Fixpoint trim_start_char (c : ascii) (s : string) : string :=
  match s with
  | String d s' => if Ascii.eqb d c then trim_start_char c s' else s
  | EmptyString => EmptyString
  end.

Definition get_directory (path : string) : string :=
  match split_on "/"%char (trim_start_char "/"%char path) with
  | first :: second :: rest =>
      if String.eqb first "src" && match rest with [] => false | _ => true end then "src/" +:+ second else first
  | _ => "root"
  end.

Section chunker.
Context {ord : IterOrder string} (config : ChunkingConfig).

Definition estimate_tokens (file : FileDiff) : Result Z Panic :=
  let? lines := checked_add u64_max (fd_additions file) (fd_deletions file) in
  let? line_estimate := checked_mul u32_max (as_u32 lines) (ck_tokens_per_line config) in
  checked_add u32_max line_estimate (ck_file_overhead_tokens config).

(** [files.iter().map(estimate_tokens).sum()] *)
Fixpoint sum_tokens (acc : Z) (files : list FileDiff) : Result Z Panic :=
  match files with
  | [] => Ok acc
  | file :: files =>
      let? tokens := estimate_tokens file in
      let? acc := checked_add u32_max acc tokens in
      sum_tokens acc files
  end.

Definition estimate_total_tokens (diff : Diff) : Result Z Panic := sum_tokens 0 (df_files diff).

Definition needs_chunking (diff : Diff) : Result bool Panic :=
  let? total := estimate_total_tokens diff in Ok (ck_max_diff_tokens config <? total)%Z.

(** The variables of the loops: the chunks so far and the current one. *)
Record Packing := mkPacking {
  pk_chunks : list DiffChunk;
  pk_files : list FileDiff;
  pk_tokens : Z;
  pk_dirs : list string
}.

Definition push_chunk (describe : nat -> list string -> string) (acc : Packing) : list DiffChunk :=
  pk_chunks acc ++ [mkDiffChunk (length (pk_chunks acc)) 0 (pk_files acc)
                      (describe (length (pk_chunks acc)) (pk_dirs acc))].

(** The body of both loops, for a directory or a file that is not split. *)
Definition pack (describe : nat -> list string -> string) (acc : Packing) (dir : string) (files : list FileDiff)
    (tokens : Z) : Result Packing Panic :=
  let? together := checked_add u32_max (pk_tokens acc) tokens in
  let acc :=
    if (ck_max_diff_tokens config <? together)%Z && match pk_files acc with [] => false | _ => true end
    then mkPacking (push_chunk describe acc) [] 0 [] else acc in
  let? sum := checked_add u32_max (pk_tokens acc) tokens in
  Ok (mkPacking (pk_chunks acc) (pk_files acc ++ files) sum (pk_dirs acc ++ [dir])).

Fixpoint pack_all (describe : nat -> list string -> string) (acc : Packing) (groups : list (string * list FileDiff))
    : Result Packing Panic :=
  match groups with
  | [] => Ok acc
  | (dir, files) :: groups =>
      let? tokens := sum_tokens 0 files in
      let? acc := pack describe acc dir files tokens in
      pack_all describe acc groups
  end.

(** The last chunk and the totals. *)
Definition finish (describe : nat -> list string -> string) (acc : Packing) : list DiffChunk :=
  let chunks := match pk_files acc with [] => pk_chunks acc | _ => push_chunk describe acc end in
  (fun chunk => mkDiffChunk (dk_index chunk) (length chunks) (dk_files chunk) (dk_description chunk)) <$> chunks.

Definition describe_dirs (_ : nat) (dirs : list string) : string :=
  match dirs with
  | [dir] => dir
  | _ => "Directories " +:+ List.hd "" dirs +:+ "-" +:+ List.last dirs ""
  end.

(** [Remaining files] for no directories, which cannot happen in the loop. *)
Definition describe_last_dirs (n : nat) (dirs : list string) : string :=
  match dirs with [] => "Remaining files" | _ => describe_dirs n dirs end.

Definition by_directory (files : list FileDiff) : gmap string (list FileDiff) :=
  foldl (fun m file =>
    let dir := get_directory (fd_path file) in <[dir := default [] (m !! dir) ++ [file]]> m) ∅ files.

Definition sorted_directories (files : list FileDiff) : list (string * list FileDiff) :=
  sort_by (fun a b => str_leb a.1 b.1) (iter_map (by_directory files)).

Definition chunk_by_directory (diff : Diff) : Result (list DiffChunk) Panic :=
  let? acc := pack_all describe_dirs (mkPacking [] [] 0 []) (sorted_directories (df_files diff)) in
  Ok (finish describe_last_dirs acc).

Definition describe_files (n : nat) (_ : list string) : string :=
  "Files " +:+ pretty (n * 10 + 1) +:+ "-" +:+ pretty ((n + 1) * 10).

Definition chunk_by_file (diff : Diff) : Result (list DiffChunk) Panic :=
  let? acc := pack_all describe_files (mkPacking [] [] 0 []) ((fun f => (fd_path f, [f])) <$> df_files diff) in
  Ok (finish (fun _ _ => "Remaining files") acc).

Definition chunk (diff : Diff) : Result (list DiffChunk) Panic :=
  let? needed := needs_chunking diff in
  if negb needed then Ok [mkDiffChunk 0 1 (df_files diff) "Full diff"]
  else match ck_strategy config with
  | ChunkStrategy.ByDirectory => chunk_by_directory diff
  | ChunkStrategy.ByFile => chunk_by_file diff
  | ChunkStrategy.None_ => Ok [mkDiffChunk 0 1 (df_files diff) "Full diff (no chunking)"]
  end.

Lemma mjoin_cons {A} (x : list A) l : mjoin (x :: l) = x ++ mjoin l.
Proof. done. Qed.

Lemma mjoin_app_singleton {A} (l : list (list A)) x : mjoin (l ++ [x]) = mjoin l ++ x.
Proof. rewrite join_app. cbn. by rewrite app_nil_r. Qed.

(** ** Estimates *)

(** The estimate of a file and of files, without bounds. *)
Definition size_of (file : FileDiff) : Z :=
  ((fd_additions file + fd_deletions file) * ck_tokens_per_line config + ck_file_overhead_tokens config)%Z.
Fixpoint sizes (files : list FileDiff) : Z :=
  match files with [] => 0%Z | f :: files => (size_of f + sizes files)%Z end.

(** Counts are natural numbers, and a line and a file have a positive size. *)
Definition sane (files : list FileDiff) : Prop :=
  (0 < ck_tokens_per_line config)%Z /\ (0 <= ck_file_overhead_tokens config)%Z
  /\ Forall (fun f => (0 <= fd_additions f)%Z /\ (0 <= fd_deletions f)%Z) files.

Lemma sizes_app l k : sizes (l ++ k) = (sizes l + sizes k)%Z.
Proof. induction l as [|f l IH]; cbn; [done|]. rewrite IH. lia. Qed.

Lemma sizes_perm l k : l ≡ₚ k -> sizes l = sizes k.
Proof. induction 1; cbn; lia. Qed.

Lemma sane_app l k : sane (l ++ k) <-> sane l /\ sane k.
Proof. unfold sane. rewrite Forall_app. naive_solver. Qed.

Lemma sane_perm l k : l ≡ₚ k -> sane l -> sane k.
Proof. intros Hlk (Ht & Ho & Hl). split; [done|]. split; [done|]. by rewrite <-Hlk. Qed.

Lemma size_of_nonneg f : sane [f] -> (0 <= size_of f)%Z.
Proof. intros (Ht & Ho & [Ha Hd]%Forall_singleton). unfold size_of. nia. Qed.

Lemma sizes_nonneg l : sane l -> (0 <= sizes l)%Z.
Proof.
  induction l as [|f l IH]; cbn; [done|]. intros [Hf Hl]%(sane_app [f]). pose proof (size_of_nonneg f Hf).
  specialize (IH Hl). lia.
Qed.

Lemma checked_add_ok m a b : (a + b <= m)%Z -> checked_add m a b = Ok (a + b)%Z.
Proof. intros Hle. unfold checked_add. by rewrite (proj2 (Z.leb_le _ _) Hle). Qed.

Lemma checked_mul_ok m a b : (a * b <= m)%Z -> checked_mul m a b = Ok (a * b)%Z.
Proof. intros Hle. unfold checked_mul. by rewrite (proj2 (Z.leb_le _ _) Hle). Qed.

Lemma estimate_ok f : sane [f] -> (size_of f <= u32_max)%Z -> estimate_tokens f = Ok (size_of f).
Proof.
  intros (Ht & Ho & [Ha Hd]%Forall_singleton). unfold size_of, estimate_tokens. intros Hle.
  assert (Hlines : (0 <= fd_additions f + fd_deletions f <= u32_max)%Z) by nia.
  rewrite checked_add_ok by (unfold u32_max, u64_max in *; lia). cbn [result_bind].
  assert (Has : as_u32 (fd_additions f + fd_deletions f) = (fd_additions f + fd_deletions f)%Z).
  { unfold as_u32. apply Z.mod_small. unfold u32_max in Hlines. lia. }
  rewrite Has, checked_mul_ok by lia. cbn [result_bind]. by rewrite checked_add_ok.
Qed.

Lemma sum_tokens_ok files acc :
  sane files -> (0 <= acc)%Z -> (acc + sizes files <= u32_max)%Z -> sum_tokens acc files = Ok (acc + sizes files)%Z.
Proof.
  revert acc. induction files as [|f files IH]; intros acc Hsane Hacc Hle; cbn in *; [f_equal; lia|].
  apply (sane_app [f]) in Hsane as [Hf Hfiles]. pose proof (size_of_nonneg f Hf). pose proof (sizes_nonneg files Hfiles).
  rewrite estimate_ok by (done || lia). cbn [result_bind]. rewrite checked_add_ok by lia. cbn [result_bind].
  rewrite IH by (done || lia). f_equal. lia.
Qed.

(** ** Directories *)

Definition in_directory (dir : string) (f : FileDiff) : bool := String.eqb (get_directory (fd_path f)) dir.

(** The files of a directory, in the order of the diff. *)
Lemma by_directory_lookup files dir :
  by_directory files !! dir = match List.filter (in_directory dir) files with [] => None | l => Some l end.
Proof.
  unfold by_directory. induction files as [|f files IH] using rev_ind; [done|].
  rewrite foldl_snoc, List.filter_app. cbn. unfold in_directory at 2.
  destruct (String.eqb_spec (get_directory (fd_path f)) dir) as [->|Hne].
  - rewrite lookup_insert_eq, IH. by destruct (List.filter (in_directory dir) files).
  - rewrite lookup_insert_ne, IH, app_nil_r by done. done.
Qed.

Lemma elem_of_directories files dir l :
  (dir, l) ∈ sorted_directories files <-> l = List.filter (in_directory dir) files /\ l <> [].
Proof.
  unfold sorted_directories. rewrite sort_by_perm, elem_of_iter_map, by_directory_lookup.
  destruct (List.filter (in_directory dir) files); naive_solver.
Qed.

Lemma elem_of_in_directory f dir files :
  f ∈ List.filter (in_directory dir) files <-> f ∈ files /\ get_directory (fd_path f) = dir.
Proof.
  rewrite !list_elem_of_In, filter_In. unfold in_directory. by rewrite String.eqb_eq.
Qed.

(** Grouping a file adds it to the files of one group. *)
Lemma group_insert (m : gmap string (list FileDiff)) dir f :
  mjoin (map_to_list (<[dir := default [] (m !! dir) ++ [f]]> m)).*2 ≡ₚ f :: mjoin (map_to_list m).*2.
Proof.
  destruct (m !! dir) as [l|] eqn:Hm; cbn.
  - rewrite <-(insert_id m dir l Hm) at 2. rewrite <-!(insert_delete_eq m dir).
    rewrite !map_to_list_insert by apply lookup_delete_eq. cbn. by rewrite <-app_assoc, Permutation_middle.
  - rewrite map_to_list_insert by done. done.
Qed.

Lemma directories_files files : mjoin (sorted_directories files).*2 ≡ₚ files.
Proof.
  unfold sorted_directories. rewrite sort_by_perm, iter_map_perm. unfold by_directory.
  induction files as [|f files IH] using rev_ind; [done|].
  rewrite foldl_snoc. cbn. by rewrite group_insert, IH, Permutation_app_comm.
Qed.

(** ** Packing *)

Abbreviation group := (string * list FileDiff)%type (only parsing).
Abbreviation files_of part := (mjoin (part.*2)) (only parsing).

Lemma files_of_snoc (part : list group) dir files : files_of (part ++ [(dir, files)]) = files_of part ++ files.
Proof. rewrite fmap_app, join_app. cbn. by rewrite app_nil_r. Qed.

(** A chunk is one group, or keeps the limit. *)
Definition part_ok (part : list group) : Prop :=
  part <> [] /\ (length part = 1 \/ (sizes (files_of part) <= ck_max_diff_tokens config)%Z).

(** The chunks so far are [parts], and the current one is [current]. *)
Definition packed (acc : Packing) (parts : list (list group)) (current : list group) : Prop :=
  dk_files <$> pk_chunks acc = (fun part => files_of part) <$> parts
  /\ dk_index <$> pk_chunks acc = seq 0 (length parts)
  /\ Forall part_ok parts
  /\ pk_files acc = files_of current /\ pk_tokens acc = sizes (pk_files acc)
  /\ (current <> [] -> part_ok current).

Definition group_ok (g : group) : Prop := g.2 <> [].

Lemma files_of_nil part : Forall group_ok part -> files_of part = [] -> part = [].
Proof. intros [|[dir files] part' Hg _]; [done|]. cbn. by destruct files. Qed.

Lemma push_packed describe acc parts current :
  packed acc parts current -> current <> [] ->
  dk_files <$> push_chunk describe acc = (fun part => files_of part) <$> (parts ++ [current])
  /\ dk_index <$> push_chunk describe acc = seq 0 (length (parts ++ [current]))
  /\ Forall part_ok (parts ++ [current]).
Proof.
  intros (Hf & Hi & Hp & Hcf & _ & Hok) Hne. unfold push_chunk. rewrite !fmap_app, Hf, Hi. cbn. rewrite Hcf.
  split; [done|]. split.
  - rewrite length_app, seq_app. do 2 f_equal. apply (f_equal length) in Hf. rewrite !length_fmap in Hf. by rewrite Hf.
  - apply Forall_app. split; [done|]. constructor; [by apply Hok|constructor].
Qed.

Lemma pack_packed describe acc parts current dir files :
  packed acc parts current -> Forall group_ok current -> sane (files_of current ++ files) ->
  (sizes (files_of current ++ files) <= u32_max)%Z ->
  exists acc' parts' current', pack describe acc dir files (sizes files) = Ok acc' /\ packed acc' parts' current'
    /\ current' <> [] /\ suffix current' (current ++ [(dir, files)])
    /\ mjoin parts' ++ current' = mjoin parts ++ current ++ [(dir, files)].
Proof.
  intros Hpk Hcur [Hs1 Hs2]%sane_app Hle. rewrite sizes_app in Hle. pose proof Hpk as (Hf & Hi & Hp & Hcf & Ht & Hok).
  pose proof (sizes_nonneg _ Hs1). pose proof (sizes_nonneg _ Hs2). rewrite Hcf in Ht. unfold pack.
  rewrite checked_add_ok by lia. cbn [result_bind].
  destruct (ck_max_diff_tokens config <? pk_tokens acc + sizes files)%Z eqn:Hover; cbn [andb].
  1: destruct (pk_files acc) as [|f0 l0] eqn:Hpf.
  - symmetry in Hcf. apply files_of_nil in Hcf as ->; [|done]. cbn in Ht, Hle. rewrite checked_add_ok by (rewrite Ht; lia). cbn [result_bind].
    eexists _, parts, [(dir, files)]. split; [done|]. split.
    + split; [done|]. split; [done|]. split; [done|]. cbn. rewrite Hpf. cbn. rewrite app_nil_r.
      split; [done|]. split; [lia|]. intros _. split; [done|by left].
    + split; [done|]. split; [done|]. done.
  - assert (Hne : current <> []) by (intros ->; done).
    destruct (push_packed describe acc parts current Hpk Hne) as (Hf' & Hi' & Hp'). cbn [pk_tokens].
    rewrite checked_add_ok by lia. cbn [result_bind pk_chunks pk_files pk_dirs].
    eexists _, (parts ++ [current]), [(dir, files)]. split; [done|]. split.
    + split; [done|]. split; [done|]. split; [done|]. cbn. rewrite app_nil_r.
      split; [done|]. split; [lia|]. intros _. split; [done|by left].
    + split; [done|]. split; [by exists current|]. rewrite mjoin_app_singleton, <-app_assoc. done.
  - rewrite checked_add_ok by lia. cbn [result_bind]. eexists _, parts, (current ++ [(dir, files)]). split; [done|].
    split; [|split; [by destruct current|split; [done|done]]].
    split; [done|]. split; [done|]. split; [done|]. cbn. split; [|split].
    + by rewrite Hcf, files_of_snoc.
    + rewrite Hcf, sizes_app. lia.
    + intros _. split; [by destruct current|]. right. rewrite files_of_snoc, sizes_app. apply Z.ltb_ge in Hover. lia.
Qed.

Lemma pack_all_packed describe groups acc parts current :
  packed acc parts current -> Forall group_ok (current ++ groups) -> sane (files_of (current ++ groups)) ->
  (sizes (files_of (current ++ groups)) <= u32_max)%Z ->
  exists acc' parts' current', pack_all describe acc groups = Ok acc' /\ packed acc' parts' current'
    /\ Forall group_ok current' /\ mjoin parts' ++ current' = mjoin parts ++ current ++ groups.
Proof.
  revert acc parts current. induction groups as [|[dir files] groups IH]; intros acc parts current Hpk Hok Hsane Hle.
  { exists acc, parts, current. rewrite app_nil_r in *. done. }
  rewrite cons_middle, app_assoc in Hok, Hsane, Hle.
  assert (Hsplit : files_of ((current ++ [(dir, files)]) ++ groups) = (files_of current ++ files) ++ files_of groups).
  { by rewrite fmap_app, join_app, files_of_snoc. }
  rewrite Hsplit in Hsane, Hle. rewrite sizes_app in Hle. apply sane_app in Hsane as [Hs Hsg].
  pose proof (sizes_nonneg _ Hsg). pose proof Hs as [Hsc Hsf]%sane_app.
  cbn [pack_all]. pose proof (sizes_nonneg _ Hsc). rewrite sizes_app in Hle.
  rewrite sum_tokens_ok by (done || lia). cbn [result_bind]. rewrite Z.add_0_l.
  pose proof Hok as [Hoks Hokg]%Forall_app.
  destruct (pack_packed describe acc parts current dir files Hpk) as (acc1 & parts1 & cur1 & -> & Hpk1 & _ & [pre Hpre] & Hj1);
    [by apply Forall_app in Hoks as [??]|done|rewrite sizes_app; lia|].
  cbn [result_bind].
  assert (Hcur : files_of (current ++ [(dir, files)]) = files_of pre ++ files_of cur1).
  { by rewrite Hpre, fmap_app, join_app. }
  rewrite files_of_snoc in Hcur. rewrite Hcur in Hs. apply sane_app in Hs as [Hspre Hscur].
  pose proof (sizes_nonneg _ Hspre). apply (f_equal sizes) in Hcur. rewrite !sizes_app in Hcur.
  rewrite Hpre in Hoks. apply Forall_app in Hoks as [_ Hok1].
  destruct (IH acc1 parts1 cur1 Hpk1) as (acc' & parts' & cur' & -> & Hpk' & Hok' & Hj).
  - by apply Forall_app.
  - rewrite fmap_app, join_app. by apply sane_app.
  - rewrite fmap_app, join_app, sizes_app. lia.
  - exists acc', parts', cur'. rewrite Hj. split; [done|]. split; [done|]. split; [done|].
    rewrite app_assoc, Hj1, <-!app_assoc. done.
Qed.

(** The chunks are the parts of a division of the groups. *)
Definition divides (groups : list group) (chunks : list DiffChunk) : Prop :=
  exists parts, mjoin parts = groups /\ Forall part_ok parts
    /\ dk_files <$> chunks = (fun part => files_of part) <$> parts
    /\ dk_index <$> chunks = seq 0 (length chunks)
    /\ Forall (fun c => dk_total c = length chunks) chunks.

Lemma chunked_divides describe describe_last groups :
  Forall group_ok groups -> sane (files_of groups) -> (sizes (files_of groups) <= u32_max)%Z ->
  exists acc, pack_all describe (mkPacking [] [] 0 []) groups = Ok acc /\ divides groups (finish describe_last acc).
Proof.
  intros Hok Hsane Hle.
  destruct (pack_all_packed describe groups (mkPacking [] [] 0 []) [] []) as (acc & parts & cur & -> & Hpk & Hcur & Hj); [done..|].
  exists acc. split; [done|]. cbn in Hj. pose proof Hpk as (Hf & Hi & Hp & Hcf & _).
  assert (Hlast : exists all, mjoin all = groups /\ Forall part_ok all
    /\ let chunks := match pk_files acc with [] => pk_chunks acc | _ => push_chunk describe_last acc end in
       dk_files <$> chunks = (fun part => files_of part) <$> all /\ dk_index <$> chunks = seq 0 (length all)).
  { destruct (pk_files acc) eqn:Hpf.
    - symmetry in Hcf. apply files_of_nil in Hcf as ->; [|done]. rewrite app_nil_r in Hj. by exists parts.
    - assert (Hne : cur <> []) by (intros ->; done).
      destruct (push_packed describe_last acc parts cur Hpk Hne) as (Hf' & Hi' & Hp').
      exists (parts ++ [cur]). split; [by rewrite mjoin_app_singleton|]. done. }
  destruct Hlast as (all & Hall & Hokall & Hfiles & Hindex). unfold finish. cbv zeta in *.
  set (chunks := match pk_files acc with [] => _ | _ => _ end) in *. exists all. split; [done|]. split; [done|].
  rewrite length_fmap, <-!list_fmap_compose. split; [exact Hfiles|]. split.
  - apply (f_equal length) in Hfiles. rewrite !length_fmap in Hfiles. rewrite Hfiles. exact Hindex.
  - apply Forall_fmap. by apply Forall_true.
Qed.

(** A chunk that is not divided further: one file, or one directory. *)
Definition indivisible (files : list FileDiff) : Prop :=
  match ck_strategy config with
  | ChunkStrategy.ByFile => length files = 1
  | _ => exists dir, Forall (fun f => get_directory (fd_path f) = dir) files
  end.

Lemma sizes_files (groups : list group) files : files_of groups ≡ₚ files ->
  sane files -> (sizes files <= u32_max)%Z -> sane (files_of groups) /\ (sizes (files_of groups) <= u32_max)%Z.
Proof. intros Hperm Hsane Hle. split; [by eapply sane_perm|]. by rewrite (sizes_perm _ _ Hperm). Qed.

(** The facts about chunks that do not depend on the kind of group. *)
Lemma divides_facts groups chunks :
  Forall group_ok groups -> (forall g, g ∈ groups -> indivisible g.2) -> divides groups chunks ->
  mjoin (dk_files <$> chunks) = files_of groups
  /\ Forall (fun c => dk_files c <> [] /\ ((sizes (dk_files c) <= ck_max_diff_tokens config)%Z \/ indivisible (dk_files c))) chunks
  /\ (forall c f, c ∈ chunks -> f ∈ dk_files c ->
       exists g, g ∈ groups /\ f ∈ g.2 /\ forall f', f' ∈ g.2 -> f' ∈ dk_files c).
Proof.
  intros Hok Hind (parts & <- & Hparts & Hfiles & _).
  assert (Hpart : forall c, c ∈ chunks -> exists part, part ∈ parts /\ dk_files c = files_of part).
  { intros c Hc. apply (list_elem_of_fmap_2 dk_files) in Hc. rewrite Hfiles in Hc.
    apply list_elem_of_fmap in Hc as (part & -> & Hpart). by exists part. }
  split; [|split].
  - rewrite Hfiles. clear. induction parts as [|part parts IH]; [done|].
    rewrite fmap_cons, !mjoin_cons, IH, fmap_app, join_app. done.
  - apply Forall_forall. intros c Hc. destruct (Hpart c Hc) as (part & Hin & ->).
    assert (Hsub : forall g, g ∈ part -> g ∈ mjoin parts) by (intros g Hg; apply list_elem_of_join; eauto).
    rewrite Forall_forall in Hparts. destruct (Hparts part Hin) as [Hne Hfit]. split.
    + intros Hnil. apply Hne, files_of_nil; [|done]. apply Forall_forall. intros g Hg.
      rewrite Forall_forall in Hok. by apply Hok, Hsub.
    + destruct Hfit as [Hone|Hfit]; [right|by left]. destruct part as [|g [|]]; try done. cbn. rewrite app_nil_r.
      apply Hind, Hsub. by left.
  - intros c f Hc Hf. destruct (Hpart c Hc) as (part & Hin & Heq). rewrite Heq in Hf.
    apply list_elem_of_join in Hf as (l & Hf & Hl). apply list_elem_of_fmap in Hl as (g & -> & Hg).
    exists g. split; [apply list_elem_of_join; eauto|]. split; [done|]. intros f' Hf'. rewrite Heq.
    apply list_elem_of_join. exists g.2. split; [done|]. by apply list_elem_of_fmap_2.
Qed.

End chunker.

Module ChunkingSample.
#[local] Instance order : IterOrder string := canonical_order string.
Definition small : ChunkingConfig := ChunkingConfig_new 300 ChunkStrategy.ByDirectory.
Definition diff : Diff :=
  mkDiff [mkFileDiff "src/a/x.rs" 20 5; mkFileDiff "docs/y.md" 10 0; mkFileDiff "src/a/z.rs" 30 10; mkFileDiff "z.md" 1 0].

End ChunkingSample.
