(* ===== verification/Keyspace.v ===== *)
(** * The keyspace: several partitions written together (fjall, not under src/)

    The event store keeps its events, views, queues, metadata and archive in
    partitions of one fjall keyspace, which a batch writes atomically.
    [Keyspace] lists the calls the store makes, [KeyspaceLaws] the documented
    behaviour it relies on, faults included: a commit that fails has changed
    nothing, or it has been applied but the keyspace is poisoned and refuses
    every later write until it is opened again.  One partition of a keyspace is a
    [KvStore] ([partition_kv]), so that the components of one partition
    run on it.  The module [MemKeyspace] is a keyspace in memory, used by the
    witnesses. *)

From Stdlib Require Import Ascii.
From S2P Require Import Prelude StrLib Kv.

(** The partitions of the store (the [*_PARTITION] names of store.rs). *)
Module Partition.
Inductive Partition := Events | Views | Queue | Meta | Archive | Runs | Proofs.
End Partition.
Abbreviation Partition := Partition.Partition.

#[export] Instance Partition_eq_dec : EqDecision Partition.
Proof. solve_decision. Defined.

(** ** Numbers as eight bytes: [to_be_bytes] and [from_be_bytes] of [u64] *)

Fixpoint be_bytes (width : nat) (n : Z) : string :=
  match width with
  | O => ""
  | S width => be_bytes width (n / 256) +:+ String (ascii_of_N (Z.to_N (n mod 256))) ""
  end.

Definition to_be_bytes (n : Z) : string := be_bytes 8 n.

Fixpoint be_value (acc : Z) (s : string) : Z :=
  match s with
  | EmptyString => acc
  | String c s => be_value (acc * 256 + Z.of_N (N_of_ascii c)) s
  end.

(** [bytes.try_into()] to [[u8; 8]], then [u64::from_be_bytes] *)
Definition from_be_bytes (s : string) : option Z :=
  if (String.length s =? 8)%nat then Some (be_value 0 s) else None.

Lemma length_be_bytes w n : String.length (be_bytes w n) = w.
Proof.
  revert n. induction w as [|w IH]; intros n; cbn [be_bytes]; [done|].
  rewrite length_append, IH. cbn. lia.
Qed.

Lemma be_value_app acc s t : be_value acc (s +:+ t) = be_value (be_value acc s) t.
Proof. revert acc. induction s as [|c s IH]; intros acc; [done|]. rewrite append_cons. cbn. apply IH. Qed.

Lemma be_value_bytes w n :
  (0 <= n < 256 ^ Z.of_nat w)%Z -> be_value 0 (be_bytes w n) = n.
Proof.
  revert n. induction w as [|w IH]; intros n Hn; cbn [be_bytes].
  { cbn in *. lia. }
  rewrite Nat2Z.inj_succ, Z.pow_succ_r in Hn by lia.
  rewrite be_value_app, IH.
  - cbn [be_value]. rewrite N_ascii_embedding.
    + pose proof (Z.mod_pos_bound n 256). rewrite Z2N.id by lia. pose proof (Z.div_mod n 256). lia.
    + pose proof (Z.mod_pos_bound n 256). lia.
  - split; [apply Z.div_pos; lia|]. apply Z.div_lt_upper_bound; lia.
Qed.

Lemma from_to_be_bytes n : is_u64 n -> from_be_bytes (to_be_bytes n) = Some n.
Proof.
  intros [H0 Hn]. unfold from_be_bytes, to_be_bytes. rewrite length_be_bytes. cbn [Nat.eqb].
  f_equal. apply be_value_bytes. unfold u64_max in Hn. cbn. lia.
Qed.

(** ** The keyspace *)

Abbreviation KsOps := (list (Partition * BatchOp)).

(** What a batch does to one partition. *)
Definition ops_on (p : Partition) (ops : KsOps) : list BatchOp :=
  omap (fun op => if decide (op.1 = p) then Some op.2 else None) ops.

Lemma ops_on_app p ops1 ops2 : ops_on p (ops1 ++ ops2) = ops_on p ops1 ++ ops_on p ops2.
Proof. apply omap_app. Qed.

Lemma ops_on_cons p q op ops :
  ops_on p ((q, op) :: ops) = if decide (q = p) then op :: ops_on p ops else ops_on p ops.
Proof. unfold ops_on. cbn. by case_decide. Qed.

Lemma ops_on_same p ops : ops_on p (pair p <$> ops) = ops.
Proof. induction ops as [|op ops IH]; [done|]. cbn [fmap list_fmap]. by rewrite ops_on_cons, decide_True, IH. Qed.

Lemma ops_on_other p q ops : p <> q -> ops_on q (pair p <$> ops) = [].
Proof.
  intros Hne. induction ops as [|op ops IH]; [done|]. cbn [fmap list_fmap].
  by rewrite ops_on_cons, decide_False, IH.
Qed.

Lemma elem_of_ops_on p ops op : op ∈ ops_on p ops <-> (p, op) ∈ ops.
Proof.
  unfold ops_on. rewrite list_elem_of_omap. split.
  - intros ([q op'] & Hin & Hop). cbn in Hop. case_decide; by simplify_eq.
  - intros Hin. exists (p, op). split; [done|]. cbn. by rewrite decide_True.
Qed.

Class Keyspace := {
  ks_state : Type;
  ks_contents : ks_state -> Partition -> gmap string string;
  ks_get : ks_state -> Partition -> string -> Result (option string) string;
  ks_insert : Partition -> string -> string -> SM ks_state string unit;
  ks_remove : Partition -> string -> SM ks_state string unit;
  ks_commit : KsOps -> SM ks_state string unit;
  ks_prefix : ks_state -> Partition -> string -> list (Result (string * string) string);
  ks_iter : ks_state -> Partition -> list (Result (string * string) string);
  (** [prefix(..).next_back().transpose()] *)
  ks_prefix_last : ks_state -> Partition -> string -> Result (option (string * string)) string;
  ks_persist : SM ks_state string unit;
  (** the keyspace as the next process finds it *)
  ks_reopen : ks_state -> ks_state
}.

(** The writes: [insert] and [remove] on a partition, [commit] of a batch. *)
Inductive ks_writes `{Keyspace} : KsOps -> SM ks_state string unit -> Prop :=
| writes_insert p k v : ks_writes [(p, BatchInsert k v)] (ks_insert p k v)
| writes_remove p k : ks_writes [(p, BatchRemove k)] (ks_remove p k)
| writes_commit ops : ks_writes ops (ks_commit ops).

(** Reads return the contents, scans yield the entries in the order of their
    keys until an error interrupts them.  A write that succeeds is applied to
    every partition; one that fails is not, or is and poisons the keyspace;
    a poisoned keyspace refuses writes; opening it again keeps its contents. *)
Class KeyspaceLaws `{Keyspace} := {
  ks_poisoned : ks_state -> Prop;
  ks_get_law : forall s p k v, ks_get s p k = Ok v -> v = ks_contents s p !! k;
  ks_write_law : forall ops write s s' r, ks_writes ops write -> write s = (s', r) ->
    ((forall p, ks_contents s' p = apply_batch (ops_on p ops) (ks_contents s p)) /\
     (is_ok r = false -> ks_poisoned s')) \/
    (is_ok r = false /\ forall p, ks_contents s' p = ks_contents s p);
  ks_poisoned_law : forall ops write s s' r, ks_writes ops write -> write s = (s', r) ->
    ks_poisoned s ->
    is_ok r = false /\ ks_poisoned s' /\ forall p, ks_contents s' p = ks_contents s p;
  ks_prefix_law : forall s p pre, exists entries, yields (ks_prefix s p pre) entries /\
    entries ≡ₚ filter (fun kv => starts_with pre kv.1 = true) (map_to_list (ks_contents s p)) /\
    StronglySorted (fun a b => key_leb a b = true) entries;
  ks_prefix_last_law : forall s p pre o, ks_prefix_last s p pre = Ok o -> exists entries,
    o = last entries /\
    entries ≡ₚ filter (fun kv => starts_with pre kv.1 = true) (map_to_list (ks_contents s p)) /\
    StronglySorted (fun a b => key_leb a b = true) entries;
  ks_iter_law : forall s p, exists entries, yields (ks_iter s p) entries /\
    entries ≡ₚ map_to_list (ks_contents s p) /\
    StronglySorted (fun a b => key_leb a b = true) entries;
  ks_persist_law : forall s s' r, ks_persist s = (s', r) ->
    (forall p, ks_contents s' p = ks_contents s p) /\ (ks_poisoned s -> ks_poisoned s');
  ks_reopen_law : forall s p, ks_contents (ks_reopen s) p = ks_contents s p
}.

(** ** One partition *)

Definition partition_kv `{Keyspace} (p : Partition) : KvStore := {|
  kv_state := ks_state;
  kv_contents s := ks_contents s p;
  kv_get s k := ks_get s p k;
  kv_remove k := ks_remove p k;
  kv_commit ops := ks_commit (pair p <$> ops);
  kv_prefix s pre := ks_prefix s p pre;
  kv_iter s := ks_iter s p
|}.

Lemma partition_kv_laws `{KeyspaceLaws} (p : Partition) : @KvLaws (partition_kv p).
Proof.
  split; cbn.
  - intros s k v. apply ks_get_law.
  - intros k s s' r Hr. destruct (ks_write_law _ _ _ _ _ (writes_remove p k) Hr) as [[Hc _]|[Hr' Hc]].
    + left. rewrite Hc, ops_on_cons, decide_True; done.
    + right. auto.
  - intros ops s s' r Hr.
    destruct (ks_write_law _ _ _ _ _ (writes_commit (pair p <$> ops)) Hr) as [[Hc _]|[Hr' Hc]].
    + left. by rewrite Hc, ops_on_same.
    + right. auto.
  - intros s pre entries Heq. destruct (ks_prefix_law s p pre) as (entries' & Hy & Hp & _).
    destruct Hy as [Hy|(n & e & rest & Hy)].
    + rewrite Heq in Hy. apply list_fmap_eq_inj in Hy; [by rewrite Hy|]. by intros ? ? [= ->].
    + exfalso. rewrite Heq in Hy.
      assert (Hin : Err e ∈ @Ok (string * string) string <$> entries).
      { rewrite Hy. apply elem_of_app. right. left. }
      by apply list_elem_of_fmap in Hin as (? & ? & _).
  - intros s. apply ks_iter_law.
Qed.

(** Writing one partition does not touch the others. *)
Lemma write_frame `{KeyspaceLaws} p q ops write s s' r :
  ks_writes ops write -> write s = (s', r) -> ops_on q ops = [] -> p = q ->
  ks_contents s' p = ks_contents s p.
Proof.
  intros Hw Hr Hq ->. destruct (ks_write_law _ _ _ _ _ Hw Hr) as [[Hc _]|[_ Hc]]; [|done].
  by rewrite Hc, Hq.
Qed.

(** ** A keyspace in memory, for evaluation *)

Module MemKeyspace.

(** Contents of each partition, what is to happen at the coming writes, and
    whether writes are refused. *)
Inductive Fault := NoFault | Refused | Poisons.

Record MemKs := mkMemKs {
  mk_contents : Partition -> gmap string string;
  mk_faults : list Fault;
  mk_poisoned : bool
}.

Definition mem_write (ops : KsOps) : SM MemKs string unit := fun s =>
  if mk_poisoned s then (s, Err "poisoned")
  else
    let applied p := apply_batch (ops_on p ops) (mk_contents s p) in
    match mk_faults s with
    | [] => (mkMemKs applied [] false, Ok tt)
    | NoFault :: fs => (mkMemKs applied fs false, Ok tt)
    | Refused :: fs => (mkMemKs (mk_contents s) fs false, Err "disk full")
    | Poisons :: fs => (mkMemKs applied fs true, Err "sync failed")
    end.

#[export] Instance mem_keyspace : Keyspace := {
  ks_state := MemKs;
  ks_contents := mk_contents;
  ks_get s p k := Ok (mk_contents s p !! k);
  ks_insert p k v := mem_write [(p, BatchInsert k v)];
  ks_remove p k := mem_write [(p, BatchRemove k)];
  ks_commit := mem_write;
  ks_prefix s p pre := Ok <$> sort_by key_leb
    (filter (fun kv => starts_with pre kv.1 = true) (map_to_list (mk_contents s p)));
  ks_iter s p := Ok <$> sort_by key_leb (map_to_list (mk_contents s p));
  ks_prefix_last s p pre := Ok (last (sort_by key_leb
    (filter (fun kv => starts_with pre kv.1 = true) (map_to_list (mk_contents s p)))));
  ks_persist := sm_ret tt;
  ks_reopen s := mkMemKs (mk_contents s) (mk_faults s) false
}.

Lemma mem_writes ops write s : ks_writes ops write -> write s = mem_write ops s.
Proof. by destruct 1. Qed.

Lemma key_leb_sorted l : StronglySorted (fun a b => key_leb a b = true) (sort_by key_leb l).
Proof. apply sort_by_sorted; intros; [apply str_leb_total|by eapply str_leb_trans]. Qed.

#[export] Instance mem_keyspace_laws : KeyspaceLaws.
Proof.
  refine {| ks_poisoned := fun s => mk_poisoned s = true |}; cbn.
  - congruence.
  - intros ops write s s' r Hw. rewrite (mem_writes _ _ _ Hw). unfold mem_write.
    destruct (mk_poisoned s); [intros [= <- <-]; by right|].
    destruct (mk_faults s) as [|[| |] fs]; intros [= <- <-]; cbn; auto.
  - intros ops write s s' r Hw. rewrite (mem_writes _ _ _ Hw). unfold mem_write.
    intros Hr Hp. rewrite Hp in Hr. by injection Hr as <- <-.
  - intros s p pre. eexists. split; [by left|]. split; [apply sort_by_perm|apply key_leb_sorted].
  - intros s p pre o [= <-]. eexists. split; [done|]. split; [apply sort_by_perm|apply key_leb_sorted].
  - intros s p. eexists. split; [by left|]. split; [apply sort_by_perm|apply key_leb_sorted].
  - by intros s s' r [= <- <-].
  - done.
Defined.

Definition empty_keyspace (faults : list Fault) : ks_state := mkMemKs (fun _ => ∅) faults false.
End MemKeyspace.
