(* ===== verification/Views.v ===== *)
(** * Materialized views (brehon-store-fjall/src/views.rs)

    [ViewManager]: the task and review views the store keeps in its views
    partition, their projection from the events, the updates that
    [append_atomic] stages in its batch, and the checks at startup.  The
    readings of [Utc::now()] are arguments; the JSON codecs of the views and of
    their status fields are classes of Kv.v. *)

From Stdlib Require Import Ascii.
From S2P Require Import Prelude StrLib Types Events Keys Kv Queue Keyspace.

(** ** Data (brehon-types/src/view.rs, review.rs) *)

Module ReviewStatus.
Inductive ReviewStatus := Pending | InProgress | Completed.
End ReviewStatus.
Abbreviation ReviewStatus := ReviewStatus.ReviewStatus.

Record TaskView := mkTaskView {
  tv_task_id : string;
  tv_status : TaskStatus;
  tv_assignee : option string;
  tv_session_id : option string;
  tv_branch : option string;
  tv_review_rounds : Z;
  tv_last_event_id : Z;
  tv_updated_at : DateTime
}.

#[export] Instance TaskView_eta : Eta TaskView := fun v =>
  mkTaskView (tv_task_id v) (tv_status v) (tv_assignee v) (tv_session_id v) (tv_branch v)
    (tv_review_rounds v) (tv_last_event_id v) (tv_updated_at v).

Record ReviewView := mkReviewView {
  rv_review_id : string;
  rv_task_id : string;
  rv_status : ReviewStatus;
  rv_round : Z;
  rv_scores : list (string * Z);
  rv_panel : list string;
  rv_last_event_id : Z;
  rv_updated_at : DateTime
}.

#[export] Instance ReviewView_eta : Eta ReviewView := fun v =>
  mkReviewView (rv_review_id v) (rv_task_id v) (rv_status v) (rv_round v) (rv_scores v)
    (rv_panel v) (rv_last_event_id v) (rv_updated_at v).

Module ViewType.
Inductive ViewType := Task | Review | Agent | Budget.
End ViewType.
Abbreviation ViewType := ViewType.ViewType.

Module ViewOperation.
Inductive ViewOperation :=
| Set_ (field value : string)
| Increment (field : string) (amount : Z)
| Append (field value : string)
| Remove (field value : string).
End ViewOperation.
Abbreviation ViewOperation := ViewOperation.ViewOperation.

Record ViewUpdate := mkViewUpdate {
  vu_view_type : ViewType;
  vu_key : string;
  vu_operation : ViewOperation
}.

(** An operation of the store fails with a [StoreError], or panics. *)
Inductive StoreFault := Failed (e : StoreError) | Aborted (p : Panic).

Abbreviation storage := (fun e => Failed (StoreError.Storage e)) (only parsing).
Abbreviation serialization := (fun e => Failed (StoreError.Serialization e)) (only parsing).

(** ** Defaults and operations on one view *)

Definition default_task_view (now : DateTime) (task_id : string) : TaskView :=
  mkTaskView task_id TaskStatus.Pending None None None 0 0 now.

Definition default_review_view (now : DateTime) (review_id : string) : ReviewView :=
  mkReviewView review_id "" ReviewStatus.Pending 0 [] [] 0 now.

(** [i64::MIN], whose negation overflows *)
Definition i64_min : Z := -9223372036854775808.

(** The [Increment] of a [u32] field by an [i64]: the casts keep the low 32
    bits. *)
Definition increment_field (value amount : Z) : Result Z Panic :=
  if (0 <? amount)%Z then Ok (sat_add u32_max value (as_u32 amount))
  else if (amount =? i64_min)%Z then Err (mkPanic "attempt to negate with overflow")
  else Ok (sat_sub value (as_u32 (- amount))).

(** [value.splitn(2, ':')], when it has two parts *)
Fixpoint split_once (c : ascii) (s : string) : option (string * string) :=
  match s with
  | EmptyString => None
  | String d s =>
      if Ascii.eqb d c then Some ("", s)
      else match split_once c s with
           | Some (a, b) => Some (String d a, b)
           | None => None
           end
  end.

Section operations.
Context `{Json TaskStatus} `{Json ReviewStatus}.

Definition apply_task_operation (operation : ViewOperation) (view : TaskView)
    : Result TaskView Panic :=
  match operation with
  | ViewOperation.Set_ field value =>
      Ok (if String.eqb field "status" then
            view <| tv_status := match from_slice value with
                                 | Ok status => status | Err _ => TaskStatus.Pending end |>
          else if String.eqb field "assignee" then view <| tv_assignee := Some value |>
          else if String.eqb field "session_id" then view <| tv_session_id := Some value |>
          else if String.eqb field "branch" then view <| tv_branch := Some value |>
          else view)
  | ViewOperation.Increment field amount =>
      if String.eqb field "review_rounds" then
        let? rounds := increment_field (tv_review_rounds view) amount in
        Ok (view <| tv_review_rounds := rounds |>)
      else Ok view
  | ViewOperation.Remove field value =>
      let view := if String.eqb field "assignee" && bool_decide (tv_assignee view = Some value)
                  then view <| tv_assignee := None |> else view in
      let view := if String.eqb field "session_id" && bool_decide (tv_session_id view = Some value)
                  then view <| tv_session_id := None |> else view in
      Ok (if String.eqb field "branch" && bool_decide (tv_branch view = Some value)
          then view <| tv_branch := None |> else view)
  | ViewOperation.Append _ _ => Ok view
  end.

Definition apply_review_operation (operation : ViewOperation) (view : ReviewView)
    : Result ReviewView Panic :=
  match operation with
  | ViewOperation.Set_ field value =>
      Ok (if String.eqb field "status" then
            view <| rv_status := match from_slice value with
                                 | Ok status => status | Err _ => ReviewStatus.Pending end |>
          else if String.eqb field "task_id" then view <| rv_task_id := value |>
          else if String.eqb field "round" then
            match parse_u32 value with Some r => view <| rv_round := r |> | None => view end
          else view)
  | ViewOperation.Append field value =>
      let view := if String.eqb field "scores" then
                    match split_once ":" value with
                    | Some (reviewer, score) =>
                        match parse_unsigned u8_max score with
                        | Some score => view <| rv_scores := rv_scores view ++ [(reviewer, score)] |>
                        | None => view
                        end
                    | None => view
                    end
                  else view in
      Ok (if String.eqb field "panel" then view <| rv_panel := rv_panel view ++ [value] |> else view)
  | ViewOperation.Increment field amount =>
      if String.eqb field "round" then
        let? round := increment_field (rv_round view) amount in
        Ok (view <| rv_round := round |>)
      else Ok view
  | ViewOperation.Remove _ _ => Ok view
  end.
End operations.

(** ** Projection of events *)

Record Projection := mkProjection {
  pj_tasks : gmap string TaskView;
  pj_reviews : gmap string ReviewView;
  pj_review_to_task : gmap string string
}.

#[export] Instance Projection_eta : Eta Projection := fun p =>
  mkProjection (pj_tasks p) (pj_reviews p) (pj_review_to_task p).

Definition task_id_for_review (review_to_task : gmap string string)
    (review_views : gmap string ReviewView) (review_id : string) : option string :=
  match review_to_task !! review_id with
  | Some task_id => Some task_id
  | None =>
      match review_views !! review_id with
      | Some view => if negb (String.eqb (rv_task_id view) "") then Some (rv_task_id view) else None
      | None => None
      end
  end.

Section projection.
(** [Utc::now()] while the events are projected, and the event. *)
Context (now : DateTime) (event : Event) (event_id : EventId).

(** [task_views.entry(id).or_insert_with(default)], changed by [f], with the
    event recorded as the last one seen *)
Definition on_task (task_id : string) (f : TaskView -> TaskView) (p : Projection) : Projection :=
  let view := default (default_task_view now task_id) (pj_tasks p !! task_id) in
  p <| pj_tasks := <[task_id := f view <| tv_last_event_id := event_id |>
                                      <| tv_updated_at := ev_timestamp event |>]> (pj_tasks p) |>.

Definition on_review (review_id : string) (f : ReviewView -> ReviewView) (p : Projection)
    : Projection :=
  let view := default (default_review_view now review_id) (pj_reviews p !! review_id) in
  p <| pj_reviews := <[review_id := f view <| rv_last_event_id := event_id |>
                                        <| rv_updated_at := ev_timestamp event |>]> (pj_reviews p) |>.

(** The verdict events: the review is completed and its task, when known, gets
    the status. *)
Definition on_verdict (review_id : string) (status : TaskStatus) (p : Projection) : Projection :=
  let p := on_review review_id (fun v => v <| rv_status := ReviewStatus.Completed |>) p in
  match task_id_for_review (pj_review_to_task p) (pj_reviews p) review_id with
  | Some task_id => on_task task_id (fun v => v <| tv_status := status |>) p
  | None => p
  end.

Definition apply_event_to_views (p : Projection) : Projection :=
  match ev_kind event with
  | EventKind.TaskCreated task_id =>
      match pj_tasks p !! task_id with
      | Some _ => p
      | None => p <| pj_tasks := <[task_id := mkTaskView task_id TaskStatus.Pending None None None 0
                                                event_id (ev_timestamp event)]> (pj_tasks p) |>
      end
  | EventKind.TaskAssigned task_id agent_id =>
      on_task task_id (fun v => v <| tv_status := TaskStatus.Assigned |>
                                  <| tv_assignee := Some agent_id |>) p
  | EventKind.TaskCompleted task_id =>
      on_task task_id (fun v => v <| tv_status := TaskStatus.InReview |>) p
  | EventKind.MergePrepared task_id branch =>
      on_task task_id (fun v => v <| tv_branch := Some branch |>) p
  | EventKind.MergeAborted task_id _ =>
      on_task task_id (fun v => v <| tv_status := TaskStatus.InProgress |>) p
  | EventKind.MergeCommitted task_id =>
      on_task task_id (fun v => v <| tv_status := TaskStatus.Merged |>) p
  | EventKind.ReviewRequested task_id review_id =>
      let p := on_task task_id (fun v => v <| tv_status := TaskStatus.InReview |>
                 <| tv_review_rounds := sat_add u32_max (tv_review_rounds v) 1 |>) p in
      let p := on_review review_id (fun v => v <| rv_task_id := task_id |>
                 <| rv_status := ReviewStatus.Pending |>
                 <| rv_round := sat_add u32_max (rv_round v) 1 |>
                 <| rv_scores := [] |> <| rv_panel := [] |>) p in
      p <| pj_review_to_task := <[review_id := task_id]> (pj_review_to_task p) |>
  | EventKind.ReviewScoreReceived review_id reviewer_id score =>
      on_review review_id (fun v => v <| rv_status := ReviewStatus.InProgress |>
                                      <| rv_scores := rv_scores v ++ [(reviewer_id, score)] |>) p
  | EventKind.ReviewApproved review_id => on_verdict review_id TaskStatus.Approved p
  | EventKind.ReviewRejected review_id => on_verdict review_id TaskStatus.ChangesRequested p
  | EventKind.ReviewChangesRequested review_id =>
      on_verdict review_id TaskStatus.ChangesRequested p
  | EventKind.WorkerReassigned _ new_worker task_id _ _ =>
      on_task task_id (fun v => v <| tv_assignee := Some new_worker |>) p
  | _ => p
  end.
End projection.

Definition empty_projection : Projection := mkProjection ∅ ∅ ∅.

Definition project (now : DateTime) (envelopes : list EventEnvelope) : Projection :=
  foldl (fun p env => apply_event_to_views now (ee_event env) (ee_event_id env) p)
    empty_projection envelopes.

(** ** The manager *)

Section manager.
Context {ord : IterOrder string} `{KeyspaceLaws} `{Json TaskStatus} `{Json ReviewStatus}
  `{Json TaskView} `{Json ReviewView} `{Json EventEnvelope}.

Abbreviation Store A := (SM ks_state StoreFault A).

(** The writes of the store, with fjall's errors as [StoreError::Storage]. *)
Definition commit (ops : KsOps) : Store unit := fun s =>
  let '(s', r) := ks_commit ops s in (s', result_map_err storage r).
Definition insert_key (p : Partition) (key value : string) : Store unit := fun s =>
  let '(s', r) := ks_insert p key value s in (s', result_map_err storage r).
Definition get_key (s : ks_state) (p : Partition) (key : string)
    : Result (option string) StoreFault := result_map_err storage (ks_get s p key).

Definition decode_value {A} `{Json A} (bytes : string) : Result A StoreFault :=
  result_map_err serialization (from_slice bytes).
Definition encode_value {A} `{Json A} (a : A) : Result string StoreFault :=
  result_map_err serialization (to_vec a).

Definition get_view {A} `{Json A} (key : string) (s : ks_state) : Result (option A) StoreFault :=
  let? bytes := get_key s Partition.Views key in
  match bytes with
  | Some bytes => let? view := decode_value bytes in Ok (Some view)
  | None => Ok None
  end.

Definition get_task_view (task_id : string) (s : ks_state) : Result (option TaskView) StoreFault :=
  get_view (task_view_key task_id) s.
Definition get_review_view (review_id : string) (s : ks_state)
    : Result (option ReviewView) StoreFault := get_view (review_view_key review_id) s.

Definition task_view_op (view : TaskView) : Result (Partition * BatchOp) StoreFault :=
  let? value := encode_value view in
  Ok (Partition.Views, BatchInsert (task_view_key (tv_task_id view)) value).
Definition review_view_op (view : ReviewView) : Result (Partition * BatchOp) StoreFault :=
  let? value := encode_value view in
  Ok (Partition.Views, BatchInsert (review_view_key (rv_review_id view)) value).

(** The entries of all views, tasks first, in the order of the hash maps. *)
Definition persist_views (tasks : gmap string TaskView) (reviews : gmap string ReviewView)
    : Result KsOps StoreFault :=
  let? task_ops := result_mapM task_view_op (iter_map tasks).*2 in
  let? review_ops := result_mapM review_view_op (iter_map reviews).*2 in
  Ok (task_ops ++ review_ops).

(** *** [ViewManager::stage_updates]

    A view is read once and then updated in memory; [clocks i] is the time at
    which the [i]-th update is applied. *)
Definition stage_update (s : ks_state) (now : DateTime) (update : ViewUpdate)
    (staged : gmap string TaskView * gmap string ReviewView)
    : Result (gmap string TaskView * gmap string ReviewView) StoreFault :=
  let '(tasks, reviews) := staged in
  let key := vu_key update in
  match vu_view_type update with
  | ViewType.Task =>
      let? view := match tasks !! key with
                   | Some view => Ok view
                   | None => let? loaded := get_task_view key s in
                             Ok (default (default_task_view now key) loaded)
                   end in
      let? view := result_map_err Aborted (apply_task_operation (vu_operation update) view) in
      Ok (<[key := view <| tv_updated_at := now |>]> tasks, reviews)
  | ViewType.Review =>
      let? view := match reviews !! key with
                   | Some view => Ok view
                   | None => let? loaded := get_review_view key s in
                             Ok (default (default_review_view now key) loaded)
                   end in
      let? view := result_map_err Aborted (apply_review_operation (vu_operation update) view) in
      Ok (tasks, <[key := view <| rv_updated_at := now |>]> reviews)
  | ViewType.Agent | ViewType.Budget => Ok (tasks, reviews)
  end.

Fixpoint stage_loop (s : ks_state) (clocks : nat -> DateTime) (i : nat) (updates : list ViewUpdate)
    (staged : gmap string TaskView * gmap string ReviewView)
    : Result (gmap string TaskView * gmap string ReviewView) StoreFault :=
  match updates with
  | [] => Ok staged
  | update :: updates =>
      let? staged := stage_update s (clocks i) update staged in
      stage_loop s clocks (S i) updates staged
  end.

Definition stage_updates (clocks : nat -> DateTime) (updates : list ViewUpdate) (s : ks_state)
    : Result KsOps StoreFault :=
  let? (tasks, reviews) := stage_loop s clocks 0 updates (∅, ∅) in
  persist_views tasks reviews.

(** *** [ViewManager::apply_update] *)
Definition apply_update (now : DateTime) (update : ViewUpdate) : Store unit := fun s =>
  let key := vu_key update in
  match vu_view_type update with
  | ViewType.Task =>
      (let! view := sm_lift (get_task_view key s) in
       let! view := sm_lift (result_map_err Aborted (apply_task_operation (vu_operation update)
                               (default (default_task_view now key) view))) in
       let view := view <| tv_updated_at := now |> in
       let! value := sm_lift (encode_value view) in
       insert_key Partition.Views (task_view_key (tv_task_id view)) value) s
  | ViewType.Review =>
      (let! view := sm_lift (get_review_view key s) in
       let! view := sm_lift (result_map_err Aborted (apply_review_operation (vu_operation update)
                               (default (default_review_view now key) view))) in
       let view := view <| rv_updated_at := now |> in
       let! value := sm_lift (encode_value view) in
       insert_key Partition.Views (review_view_key (rv_review_id view)) value) s
  | ViewType.Agent | ViewType.Budget => (s, Ok tt)
  end.

(** *** Rebuilding *)

(** The envelopes of a scan of the log. *)
Definition decode_entry (item : Result (string * string) string) : Result EventEnvelope StoreFault :=
  let? (_, value) := result_map_err storage item in decode_value value.

Definition is_view_key (key : string) : bool :=
  starts_with "view:task:" key || starts_with "view:review:" key.

Definition stage_view_partition_deletions (s : ks_state) : Result KsOps StoreFault :=
  let? entries := result_mapM (fun item => result_map_err storage item) (ks_iter s Partition.Views) in
  Ok ((fun kv => (Partition.Views, BatchRemove kv.1)) <$>
        List.filter (fun kv => is_view_key kv.1) entries).

Definition rebuild_views_from_events (now : DateTime) : Store nat := fun s =>
  (let! envelopes := sm_lift (result_mapM decode_entry (ks_prefix s Partition.Events "log:")) in
   let p := project now envelopes in
   let! deletions := sm_lift (stage_view_partition_deletions s) in
   let! rebuilt := sm_lift (persist_views (pj_tasks p) (pj_reviews p)) in
   let! _ := commit (deletions ++ rebuilt) in
   sm_ret (size (pj_tasks p) + size (pj_reviews p))%nat) s.

(** *** [ViewManager::validate_views] *)
Fixpoint validate_entries (expected_last_event_id : Z) (items : list (Result (string * string) string))
    : Result bool StoreFault :=
  match items with
  | [] => Ok true
  | item :: items =>
      let? (key, value) := result_map_err storage item in
      let last_event_id :=
        if starts_with "view:task:" key then
          match from_slice (A := TaskView) value with
          | Ok view => Some (tv_last_event_id view) | Err _ => None end
        else if starts_with "view:review:" key then
          match from_slice (A := ReviewView) value with
          | Ok view => Some (rv_last_event_id view) | Err _ => None end
        else Some 0%Z in
      match last_event_id with
      | None => Ok false
      | Some id => if (expected_last_event_id <? id)%Z then Ok false
                   else validate_entries expected_last_event_id items
      end
  end.

Definition validate_views (expected_last_event_id : Z) (s : ks_state) : Result bool StoreFault :=
  validate_entries expected_last_event_id (ks_iter s Partition.Views).

(** *** [ViewManager::list_orphaned_tasks] *)
Definition is_orphaned (view : TaskView) : bool :=
  bool_decide (tv_status view = TaskStatus.InProgress) &&
  match tv_session_id view with None => true | Some _ => false end.

Fixpoint orphaned_entries (items : list (Result (string * string) string))
    : Result (list TaskView) StoreFault :=
  match items with
  | [] => Ok []
  | item :: items =>
      let? (key, value) := result_map_err storage item in
      if negb (starts_with "view:task:" key) then orphaned_entries items
      else
        let? view := decode_value (A := TaskView) value in
        let? orphaned := orphaned_entries items in
        Ok (if is_orphaned view then view :: orphaned else orphaned)
  end.

Definition list_orphaned_tasks (s : ks_state) : Result (list TaskView) StoreFault :=
  orphaned_entries (ks_iter s Partition.Views).
End manager.

(** ** Panics

    A view operation panics only when it negates [i64::MIN]. *)

Definition no_abort {A} (r : Result A StoreFault) : Prop :=
  match r with Err (Aborted _) => False | _ => True end.

Lemma no_abort_bind {A B} (c : Result A StoreFault) (k : A -> Result B StoreFault) :
  no_abort c -> (forall a, no_abort (k a)) -> no_abort (result_bind c k).
Proof. destruct c as [a|[]]; cbn; auto. Qed.

Lemma no_abort_storage {A} (r : Result A string) : no_abort (result_map_err storage r).
Proof. by destruct r. Qed.

Lemma no_abort_serialization {A} (r : Result A string) : no_abort (result_map_err serialization r).
Proof. by destruct r. Qed.

Lemma no_abort_mapM {A B} (f : A -> Result B StoreFault) l :
  (forall a, no_abort (f a)) -> no_abort (result_mapM f l).
Proof.
  intros Hf. induction l as [|x l IH]; cbn [result_mapM]; [done|].
  apply no_abort_bind; [apply Hf|]. intros y. by apply no_abort_bind.
Qed.

#[export] Hint Resolve no_abort_storage no_abort_serialization : brehon.

Ltac no_abort :=
  repeat first [solve [auto with brehon] | done | apply no_abort_bind; [|intros ?]
               | apply no_abort_mapM; intros ? | case_match].

(** No update negates [i64::MIN]. *)
Definition no_overflow (update : ViewUpdate) : Prop :=
  forall field, vu_operation update <> ViewOperation.Increment field i64_min.

Section panics.
Context {ord : IterOrder string} `{Keyspace} `{Json TaskStatus} `{Json ReviewStatus}
  `{Json TaskView} `{Json ReviewView}.

Lemma increment_field_ok value amount :
  amount <> i64_min -> exists v, increment_field value amount = Ok v.
Proof.
  intros Hne. unfold increment_field. destruct (0 <? amount)%Z; [by eexists|].
  rewrite (proj2 (Z.eqb_neq _ _) Hne). by eexists.
Qed.

Lemma apply_task_operation_ok op view :
  (forall f, op <> ViewOperation.Increment f i64_min) -> exists v, apply_task_operation op view = Ok v.
Proof.
  intros Hne. destruct op as [field value|field amount|field value|field value]; cbn; eauto.
  destruct (String.eqb _ _); [|eauto].
  destruct (increment_field_ok (tv_review_rounds view) amount) as [v ->]; [|cbn; eauto].
  intros ->. by eapply Hne.
Qed.

Lemma apply_review_operation_ok op view :
  (forall f, op <> ViewOperation.Increment f i64_min) -> exists v, apply_review_operation op view = Ok v.
Proof.
  intros Hne. destruct op as [field value|field amount|field value|field value]; cbn; eauto.
  destruct (String.eqb _ _); [|eauto].
  destruct (increment_field_ok (rv_round view) amount) as [v ->]; [|cbn; eauto].
  intros ->. by eapply Hne.
Qed.

Lemma get_view_no_abort {A} `{Json A} key s : no_abort (get_view (A := A) key s).
Proof. unfold get_view, get_key, decode_value. no_abort. Qed.

Lemma stage_update_no_abort s now update staged :
  no_overflow update -> no_abort (stage_update s now update staged).
Proof.
  intros Hu. unfold stage_update, get_task_view, get_review_view. destruct staged as [tasks reviews].
  destruct (vu_view_type update); [..|done|done]; (apply no_abort_bind; [|intros view]).
  - destruct (tasks !! _); [done|]. apply no_abort_bind; [apply get_view_no_abort|done].
  - by destruct (apply_task_operation_ok (vu_operation update) view Hu) as [v ->].
  - destruct (reviews !! _); [done|]. apply no_abort_bind; [apply get_view_no_abort|done].
  - by destruct (apply_review_operation_ok (vu_operation update) view Hu) as [v ->].
Qed.

Lemma stage_loop_no_abort s clocks i updates staged :
  Forall no_overflow updates -> no_abort (stage_loop s clocks i updates staged).
Proof.
  intros Hall. revert i staged. induction Hall as [|u us Hu Hall IH]; intros i staged; cbn [stage_loop]; [done|].
  apply no_abort_bind; [by apply stage_update_no_abort|auto].
Qed.

Lemma stage_updates_no_abort clocks updates s :
  Forall no_overflow updates -> no_abort (stage_updates clocks updates s).
Proof.
  intros Hall. unfold stage_updates. apply no_abort_bind; [by apply stage_loop_no_abort|].
  intros [tasks reviews]. unfold persist_views, task_view_op, review_view_op, encode_value. no_abort.
Qed.
End panics.
