(* ===== verification/MemStore.v ===== *)
(** * An event store in memory

    Codecs for the values the event store keeps, so that with the keyspace in
    memory of Keyspace.v its calls can be evaluated.  Envelopes of a few kinds
    of events are supported; serializing another one fails. *)

From S2P Require Import Prelude StrLib Types Events Keys Kv Queue Keyspace Views.

Module MemStore.

Definition task_status_code (s : TaskStatus) : nat :=
  match s with
  | TaskStatus.Pending => 0 | TaskStatus.Assigned => 1 | TaskStatus.InProgress => 2
  | TaskStatus.InReview => 3 | TaskStatus.ChangesRequested => 4 | TaskStatus.Approved => 5
  | TaskStatus.Merged => 6 | TaskStatus.Blocked => 7
  end.

Definition task_status_of (n : nat) : TaskStatus :=
  match n with
  | 0 => TaskStatus.Pending | 1 => TaskStatus.Assigned | 2 => TaskStatus.InProgress
  | 3 => TaskStatus.InReview | 4 => TaskStatus.ChangesRequested | 5 => TaskStatus.Approved
  | 6 => TaskStatus.Merged | _ => TaskStatus.Blocked
  end.

Definition review_status_code (s : ReviewStatus) : nat :=
  match s with ReviewStatus.Pending => 0 | ReviewStatus.InProgress => 1 | ReviewStatus.Completed => 2 end.

Definition review_status_of (n : nat) : ReviewStatus :=
  match n with 0 => ReviewStatus.Pending | 1 => ReviewStatus.InProgress | _ => ReviewStatus.Completed end.

#[export] Instance task_status_json : Json TaskStatus := numeral_json
  (fun s => [encode (task_status_code s)])
  (fun l => match l with [a] => task_status_of <$> decode a | _ => None end).

#[export] Instance review_status_json : Json ReviewStatus := numeral_json
  (fun s => [encode (review_status_code s)])
  (fun l => match l with [a] => review_status_of <$> decode a | _ => None end).

#[export] Instance task_view_json : Json TaskView := numeral_json
  (fun v => [encode (tv_task_id v); encode (task_status_code (tv_status v)); encode (tv_assignee v);
             encode (tv_session_id v); encode (tv_branch v); encode (tv_review_rounds v);
             encode (tv_last_event_id v); encode (tv_updated_at v)])
  (fun l => match l with
    | [a1; a2; a3; a4; a5; a6; a7; a8] =>
        x1 ← decode a1; x2 ← decode a2; x3 ← decode a3; x4 ← decode a4; x5 ← decode a5;
        x6 ← decode a6; x7 ← decode a7; x8 ← decode a8;
        Some (mkTaskView x1 (task_status_of x2) x3 x4 x5 x6 x7 x8)
    | _ => None
    end).

#[export] Instance review_view_json : Json ReviewView := numeral_json
  (fun v => [encode (rv_review_id v); encode (rv_task_id v); encode (review_status_code (rv_status v));
             encode (rv_round v); encode (rv_scores v); encode (rv_panel v);
             encode (rv_last_event_id v); encode (rv_updated_at v)])
  (fun l => match l with
    | [a1; a2; a3; a4; a5; a6; a7; a8] =>
        x1 ← decode a1; x2 ← decode a2; x3 ← decode a3; x4 ← decode a4; x5 ← decode a5;
        x6 ← decode a6; x7 ← decode a7; x8 ← decode a8;
        Some (mkReviewView x1 x2 (review_status_of x3) x4 x5 x6 x7 x8)
    | _ => None
    end).

Definition kind_code (k : EventKind) : option (nat * list string) :=
  match k with
  | EventKind.TaskCreated t => Some (0, [t])
  | EventKind.TaskAssigned t a => Some (1, [t; a])
  | EventKind.TaskCompleted t => Some (2, [t])
  | EventKind.ReviewRequested t r => Some (3, [t; r])
  | EventKind.ReviewApproved r => Some (4, [r])
  | EventKind.MergePrepared t b => Some (5, [t; b])
  | EventKind.MergeAborted t r => Some (6, [t; r])
  | EventKind.MergeCommitted t => Some (7, [t])
  | EventKind.SystemDraining r => Some (8, [r])
  | _ => None
  end.

Definition kind_of (c : nat * list string) : option EventKind :=
  match c with
  | (0, [t]) => Some (EventKind.TaskCreated t)
  | (1, [t; a]) => Some (EventKind.TaskAssigned t a)
  | (2, [t]) => Some (EventKind.TaskCompleted t)
  | (3, [t; r]) => Some (EventKind.ReviewRequested t r)
  | (4, [r]) => Some (EventKind.ReviewApproved r)
  | (5, [t; b]) => Some (EventKind.MergePrepared t b)
  | (6, [t; r]) => Some (EventKind.MergeAborted t r)
  | (7, [t]) => Some (EventKind.MergeCommitted t)
  | (8, [r]) => Some (EventKind.SystemDraining r)
  | _ => None
  end.

Lemma kind_of_code k c : kind_code k = Some c -> kind_of c = Some k.
Proof. destruct k; cbn; intros [= <-]; done. Qed.

Definition envelope_fields (e : EventEnvelope) : option (list positive) :=
  c ← kind_code (ev_kind (ee_event e));
  Some [encode c; encode (ev_timestamp (ee_event e)); encode (ev_aggregate_id (ee_event e));
        encode (ee_event_id e); encode (ee_correlation_id e); encode (ee_causation_id e);
        encode (ee_idempotency_key e)].

Definition envelope_of_fields (l : list positive) : option EventEnvelope :=
  match l with
  | [a1; a2; a3; a4; a5; a6; a7] =>
      x1 ← decode a1; x2 ← decode a2; x3 ← decode a3; x4 ← decode a4; x5 ← decode a5;
      x6 ← decode a6; x7 ← decode a7; k ← kind_of x1;
      Some (mkEventEnvelope (mkEvent k x2 x3) x4 x5 x6 x7)
  | _ => None
  end.

#[export] Instance envelope_json : Json EventEnvelope :=
  partial_numeral_json envelope_fields envelope_of_fields.

#[export] Instance envelope_json_laws : JsonLaws EventEnvelope.
Proof.
  apply partial_numeral_json_laws. intros e l. unfold envelope_fields.
  destruct (kind_code _) as [c|] eqn:Hc; [|done]. cbn [mbind option_bind]. intros [= <-].
  unfold envelope_of_fields. rewrite !decode_encode. cbn [mbind option_bind].
  rewrite (kind_of_code _ _ Hc). cbn. by destruct e as [[]].
Defined.
End MemStore.
