(* ===== verification/Recovery.v ===== *)
(** * Startup recovery and schema versions (brehon-store-fjall/src/recovery.rs
    and migrations.rs)

    [RecoveryScanner::scan] looks for tasks in progress without a session,
    prepared merges that were neither committed nor aborted, and expired
    claims, repairs them, and reports what is left; [MigrationRunner] stamps a
    fresh store with the schema version and refuses a newer one.  The clock
    readings are arguments. *)

From Stdlib Require Import Ascii.
From S2P Require Import Prelude StrLib Types Events Keys Kv Queue Keyspace Views.

Section recovery.
Context {ord : IterOrder string} `{KeyspaceLaws} `{Json TaskStatus} `{Json ReviewStatus}
  `{Json TaskView} `{Json ReviewView} `{Json EventEnvelope} `{Json QueueClaim}.

(** The lease clock of the starting process. *)
Context (active_lease_epoch : string) (active_lease_elapsed_ms : Z).

Abbreviation Store A := (SM ks_state StoreFault A).

Record RecoveryReport := mkRecoveryReport {
  rp_orphaned_tasks : list TaskView;
  rp_prepared_merges : list string;
  rp_expired_claims : list string;
  rp_recovered_count : nat
}.

Definition has_issues (r : RecoveryReport) : bool :=
  negb (bool_decide (rp_prepared_merges r = [])) || negb (bool_decide (rp_expired_claims r = []))
  || match rp_orphaned_tasks r with [] => false | _ => true end.

Definition find_orphaned_tasks (s : ks_state) : Result (list TaskView) StoreFault :=
  let? tasks := list_orphaned_tasks s in
  Ok (List.filter is_orphaned tasks).

(** The tasks with a merge event, by kind: prepared, committed, aborted. *)
Definition merge_sets := (gset string * gset string * gset string)%type.

Definition collect_merge (env : EventEnvelope) (sets : merge_sets) : merge_sets :=
  let '(prepared, committed, aborted) := sets in
  match ev_kind (ee_event env) with
  | EventKind.MergePrepared task_id _ => ({[task_id]} ∪ prepared, committed, aborted)
  | EventKind.MergeCommitted task_id => (prepared, {[task_id]} ∪ committed, aborted)
  | EventKind.MergeAborted task_id _ => (prepared, committed, {[task_id]} ∪ aborted)
  | _ => sets
  end.

Fixpoint collect_merges (items : list (Result (string * string) string)) (sets : merge_sets)
    : Result merge_sets StoreFault :=
  match items with
  | [] => Ok sets
  | item :: items =>
      let? (key, value) := result_map_err storage item in
      if negb (starts_with "log:" key) then collect_merges items sets
      else match from_slice value with
           | Ok env => collect_merges items (collect_merge env sets)
           | Err _ => collect_merges items sets
           end
  end.

Fixpoint with_branch (s : ks_state) (tasks : list string) : Result (list string) StoreFault :=
  match tasks with
  | [] => Ok []
  | task_id :: tasks =>
      let? view := get_task_view task_id s in
      let? rest := with_branch s tasks in
      Ok (match view with
          | Some view => match tv_branch view with Some _ => task_id :: rest | None => rest end
          | None => rest
          end)
  end.

Definition find_prepared_merges (s : ks_state) : Result (list string) StoreFault :=
  let? (prepared, committed, aborted) := collect_merges (ks_iter s Partition.Events) (∅, ∅, ∅) in
  with_branch s (filter (fun t => (t ∉ committed) /\ (t ∉ aborted)) (iter_set prepared)).

Definition recovery_claim_is_expired (now : DateTime) (claim : QueueClaim) : bool :=
  match qc_lease_epoch claim with
  | Some epoch =>
      if negb (String.eqb epoch active_lease_epoch) then true
      else match qc_monotonic_deadline_ms claim with
           | Some deadline => (deadline <=? active_lease_elapsed_ms)%Z
           | None => (qc_expires_at claim <? now)%Z
           end
  | None => (qc_expires_at claim <? now)%Z
  end.

Fixpoint expired_entries (clocks : nat -> DateTime) (i : nat)
    (items : list (Result (string * string) string)) : Result (list QueueClaim) StoreFault :=
  match items with
  | [] => Ok []
  | item :: items =>
      let? (key, value) := result_map_err storage item in
      if negb (starts_with "lease:" key) then expired_entries clocks i items
      else match from_slice value with
           | Err _ => expired_entries clocks i items
           | Ok claim =>
               let? expired := expired_entries clocks (S i) items in
               Ok (if recovery_claim_is_expired (clocks i) claim then claim :: expired else expired)
           end
  end.

Definition find_expired_claims (clocks : nat -> DateTime) (s : ks_state)
    : Result (list QueueClaim) StoreFault := expired_entries clocks 0 (ks_iter s Partition.Queue).

Definition task_update (key : string) (operation : ViewOperation) : ViewUpdate :=
  mkViewUpdate ViewType.Task key operation.

(** The clock readings of the three updates of the [i]-th task. *)
Fixpoint clean_orphaned_tasks (clocks : nat -> DateTime) (i : nat) (tasks : list TaskView)
    : Store nat :=
  match tasks with
  | [] => sm_ret 0
  | task :: tasks =>
      let! pending := sm_lift (encode_value TaskStatus.Pending) in
      let! _ := apply_update (clocks (3 * i))
        (task_update (tv_task_id task) (ViewOperation.Set_ "status" pending)) in
      let! _ := match tv_assignee task with
        | Some assignee => apply_update (clocks (3 * i + 1))
            (task_update (tv_task_id task) (ViewOperation.Remove "assignee" assignee))
        | None => sm_ret tt
        end in
      let! _ := match tv_session_id task with
        | Some session_id => apply_update (clocks (3 * i + 2))
            (task_update (tv_task_id task) (ViewOperation.Remove "session_id" session_id))
        | None => sm_ret tt
        end in
      let! n := clean_orphaned_tasks clocks (S i) tasks in
      sm_ret (S n)
  end.

Fixpoint clean_prepared_merges (clocks : nat -> DateTime) (i : nat) (tasks : list string)
    : Store nat :=
  match tasks with
  | [] => sm_ret 0
  | task_id :: tasks => fun s =>
      (let! view := sm_lift (get_task_view task_id s) in
       match view ≫= tv_branch with
       | None => clean_prepared_merges clocks (S i) tasks
       | Some branch =>
           let! _ := apply_update (clocks i) (task_update task_id (ViewOperation.Remove "branch" branch)) in
           let! n := clean_prepared_merges clocks (S i) tasks in
           sm_ret (S n)
       end) s
  end.

Definition remove_key (p : Partition) (key : string) : Store unit := fun s =>
  let '(s', r) := ks_remove p key s in (s', result_map_err storage r).

Fixpoint clean_expired_claims (claims : list QueueClaim) : Store nat :=
  match claims with
  | [] => sm_ret 0
  | claim :: claims =>
      let! _ := remove_key Partition.Queue (claimed_key (qc_queue claim) (qc_item_id claim)) in
      let! _ := remove_key Partition.Queue (lease_key (qc_claim_id claim)) in
      let! n := clean_expired_claims claims in
      sm_ret (S n)
  end.

(** A read of the whole store as a step. *)
Definition reads {A} (f : ks_state -> Result A StoreFault) : Store A := fun s => (s, f s).

(** Clock readings of a scan: the expiry checks before and after the repairs,
    and the view updates of the repairs. *)
Record ScanClocks := mkScanClocks {
  sc_before : nat -> DateTime; sc_after : nat -> DateTime;
  sc_orphaned : nat -> DateTime; sc_merges : nat -> DateTime
}.

Definition scan (clocks : ScanClocks) : Store RecoveryReport :=
  let! orphaned_tasks := reads find_orphaned_tasks in
  let! prepared_merges := reads find_prepared_merges in
  let! expired_claims := reads (find_expired_claims (sc_before clocks)) in
  let! recovered_orphaned := clean_orphaned_tasks (sc_orphaned clocks) 0 orphaned_tasks in
  let! recovered_merges := clean_prepared_merges (sc_merges clocks) 0 prepared_merges in
  let! recovered_claims := clean_expired_claims expired_claims in
  let! orphaned_left := reads find_orphaned_tasks in
  let! merges_left := reads find_prepared_merges in
  let! claims_left := reads (find_expired_claims (sc_after clocks)) in
  sm_ret (mkRecoveryReport orphaned_left merges_left (qc_claim_id <$> claims_left)
            (recovered_orphaned + recovered_merges + recovered_claims)).

(** ** Schema version *)

Definition CURRENT_SCHEMA_VERSION : Z := 1.

(** [to_le_bytes] and [from_le_bytes]: the bytes in the other order *)
Fixpoint string_rev (s acc : string) : string :=
  match s with EmptyString => acc | String c s => string_rev s (String c acc) end.
Definition to_le_bytes (n : Z) : string := string_rev (to_be_bytes n) "".
Definition from_le_bytes (s : string) : option Z := from_be_bytes (string_rev s "").

Definition get_version (s : ks_state) : Result Z StoreFault :=
  let? bytes := get_key s Partition.Meta KEY_META_SCHEMA_VERSION in
  match bytes with
  | Some bytes =>
      match from_le_bytes bytes with
      | Some n => Ok n
      | None => Err (Failed (StoreError.Storage "Invalid schema version format"))
      end
  | None => Ok 0%Z
  end.

(** Whether a migration was applied. *)
Definition run_migrations : Store bool :=
  let! current_version := reads get_version in
  let! applied :=
    if (current_version <? 1)%Z then
      let! _ := insert_key Partition.Meta KEY_META_SCHEMA_VERSION (to_le_bytes 1) in sm_ret true
    else sm_ret false in
  if (CURRENT_SCHEMA_VERSION <? current_version)%Z then
    sm_lift (Err (Failed (StoreError.VersionMismatch CURRENT_SCHEMA_VERSION current_version)))
  else sm_ret applied.
End recovery.
