(* ===== verification/EventLog.v ===== *)
(** * The durable event store (brehon-store-fjall/src/store.rs)

    [FjallEventStore]: appending events one by one, with a queue row, or as a
    batch with view updates; idempotency keys; archiving, pruning and expiring;
    streaming; and opening the store after a crash.  The keyspace is that of
    Keyspace.v with its faults, the sequence counter is the atomic of the
    process, which [fetch_add] and [fetch_max] change.  The append lock makes
    the appends sequential.  This file holds the definitions; LogState.v says
    what the contents of the keyspace mean, LogSteps.v what each call does to
    them, and LogRuns.v states the properties over sequences of calls, crashes
    and restarts. *)

From Stdlib Require Import Ascii.
From S2P Require Import Prelude StrLib Types Events Keys Kv Queue Keyspace Views Recovery.

Section store.
Context {ord : IterOrder string} `{KeyspaceLaws} `{Json TaskStatus} `{Json ReviewStatus}
  `{Json TaskView} `{Json ReviewView} `{JsonLaws EventEnvelope} `{Json QueueClaim}.

Record FjallEventStore := mkFjallEventStore { fs_ks : ks_state; fs_seq : Z }.

#[export] Instance FjallEventStore_eta : Eta FjallEventStore := fun st =>
  mkFjallEventStore (fs_ks st) (fs_seq st).

Abbreviation Store A := (SM FjallEventStore StoreFault A).

(** Reads and writes of the keyspace as steps of the store. *)
Definition read_ks {A} (f : ks_state -> Result A StoreFault) : Store A := fun st =>
  (st, f (fs_ks st)).
Definition on_ks {A} (op : SM ks_state StoreFault A) : Store A := fun st =>
  let '(s', r) := op (fs_ks st) in (st <| fs_ks := s' |>, r).

(** ** Sequence numbers *)

(** A [u64] stored in the metadata, with the message for one that is not eight
    bytes long. *)
Definition load_meta_u64 (key message : string) (s : ks_state) : Result Z StoreFault :=
  let? bytes := get_key s Partition.Meta key in
  match bytes with
  | Some bytes =>
      match from_be_bytes bytes with
      | Some n => Ok n
      | None => Err (Failed (StoreError.Storage message))
      end
  | None => Ok 0%Z
  end.

Definition load_high_water_mark (s : ks_state) : Result Z StoreFault :=
  let? last_log_entry := result_map_err storage (ks_prefix_last s Partition.Events "log:") in
  Ok (match last_log_entry with
      | Some (key, _) => default 0%Z (parse_seq_from_log_key key)
      | None => 0%Z
      end).

Definition load_seq (s : ks_state) : Result Z StoreFault :=
  let? persisted_seq := load_meta_u64 KEY_META_SEQ "Invalid sequence number format" s in
  let? high_water_mark := load_high_water_mark s in
  Ok (Z.max persisted_seq high_water_mark).

Definition load_views_watermark (s : ks_state) : Result Z StoreFault :=
  load_meta_u64 KEY_META_VIEWS_LAST_EVENT_ID "Invalid view watermark format" s.

Definition save_views_watermark (watermark : Z) : SM ks_state StoreFault unit :=
  insert_key Partition.Meta KEY_META_VIEWS_LAST_EVENT_ID (to_be_bytes watermark).

(** [fetch_add] wraps; the addition after it is checked. *)
Definition next_event_id : Store EventId := fun st =>
  let seq := fs_seq st in
  (st <| fs_seq := ((seq + 1) mod (u64_max + 1))%Z |>,
   if (seq <? u64_max)%Z then Ok (seq + 1)%Z
   else Err (Aborted (mkPanic "attempt to add with overflow"))).

(** The closure of an append and [restore_seq_on_error]; a panic unwinds past
    the restoration. *)
Definition restore_seq_on_error {A} (body : Store A) : Store A := fun st =>
  let seq_before := fs_seq st in
  match body st with
  | (st', Err (Failed e)) => (st' <| fs_seq := seq_before |>, Err (Failed e))
  | outcome => outcome
  end.

Definition fetch_max (n : Z) : Store unit := fun st =>
  (st <| fs_seq := Z.max (fs_seq st) n |>, Ok tt).

(** ** Pieces of a batch *)

Definition build_event_envelope (event : Event) (event_id : EventId) (key : option string)
    : EventEnvelope := mkEventEnvelope event event_id None None key.

Definition make_index_keys (event : Event) (seq : Z) : list string :=
  match event_task_id (ev_kind event) with Some id => [task_index_key id seq] | None => [] end
  ++ match event_review_id (ev_kind event) with Some id => [review_index_key id seq] | None => [] end
  ++ match event_agent_id (ev_kind event) with Some id => [agent_index_key id seq] | None => [] end.

Definition index_ops (index_keys : list string) : KsOps :=
  (fun key => (Partition.Events, BatchInsert key "")) <$> index_keys.

Definition set_index_start_seq_if_needed (seq : Z) (s : ks_state) : Result KsOps StoreFault :=
  let? existing := get_key s Partition.Meta KEY_META_INDEX_START_SEQ in
  Ok (match existing with
      | Some _ => []
      | None => [(Partition.Meta, BatchInsert KEY_META_INDEX_START_SEQ (to_be_bytes seq))]
      end).

(** [if !index_keys.is_empty() { set_index_start_seq_if_needed(..) }] *)
Definition index_start_ops (index_keys : list string) (seq : Z) (s : ks_state)
    : Result KsOps StoreFault :=
  match index_keys with [] => Ok [] | _ => set_index_start_seq_if_needed seq s end.

Definition log_op (seq : Z) (value : string) : Partition * BatchOp :=
  (Partition.Events, BatchInsert (log_key seq) value).
Definition meta_op (key : string) (n : Z) : Partition * BatchOp :=
  (Partition.Meta, BatchInsert key (to_be_bytes n)).

(** ** Idempotency *)

Definition check_idempotency (key : option string) (s : ks_state)
    : Result (option EventId) StoreFault :=
  match key with
  | None => Ok None
  | Some key =>
      let? bytes := get_key s Partition.Meta (idempotency_key key) in
      match bytes with
      | None => Ok None
      | Some bytes =>
          match from_be_bytes bytes with
          | Some n => Ok (Some n)
          | None => Err (Failed (StoreError.Storage "Invalid idempotency key format"))
          end
      end
  end.

Definition queue_materialized (key : string) (s : ks_state) : Result bool StoreFault :=
  let? v := get_key s Partition.Meta (queue_materialization_key key) in
  Ok (match v with Some _ => true | None => false end).

(** ** Appending *)

Definition append_body (event : Event) (key : option string) : Store EventId :=
  let! event_id := next_event_id in
  let! value := sm_lift (encode_value (build_event_envelope event event_id key)) in
  let index_keys := make_index_keys event event_id in
  let! start_ops := read_ks (index_start_ops index_keys event_id) in
  let! _ := on_ks (commit
    ([log_op event_id value] ++ index_ops index_keys ++ start_ops
     ++ [meta_op KEY_META_SEQ event_id]
     ++ match key with Some key => [meta_op (idempotency_key key) event_id] | None => [] end)) in
  sm_ret event_id.

Definition append_event_inner_locked (event : Event) (key : option string) : Store EventId :=
  let! existing := read_ks (check_idempotency key) in
  match existing with
  | Some existing_id => let! _ := fetch_max existing_id in sm_ret existing_id
  | None => restore_seq_on_error (append_body event key)
  end.

(** The recovery path of [append_and_enqueue]: the event is durable, its queue
    row is not known to be. *)
Definition rematerialize (event : Event) (queue item_id key : string) (existing_id : EventId)
    : Store unit :=
  let! materialized := read_ks (queue_materialized key) in
  if materialized then sm_ret tt
  else
    let index_keys := make_index_keys event existing_id in
    let! start_ops := read_ks (index_start_ops index_keys existing_id) in
    on_ks (commit
      ([(Partition.Queue, BatchInsert (queue_key queue existing_id) item_id);
        meta_op (queue_materialization_key key) existing_id]
       ++ index_ops index_keys ++ start_ops)).

Definition enqueue_body (event : Event) (queue item_id : string) (key : option string)
    : Store EventId :=
  let! event_id := next_event_id in
  let! value := sm_lift (encode_value (build_event_envelope event event_id key)) in
  let index_keys := make_index_keys event event_id in
  let! start_ops := read_ks (index_start_ops index_keys event_id) in
  let! _ := on_ks (commit
    ([log_op event_id value] ++ index_ops index_keys ++ start_ops
     ++ [meta_op KEY_META_SEQ event_id;
         (Partition.Queue, BatchInsert (queue_key queue event_id) item_id)]
     ++ match key with
        | Some key => [meta_op (idempotency_key key) event_id;
                       meta_op (queue_materialization_key key) event_id]
        | None => []
        end)) in
  sm_ret event_id.

Definition append_and_enqueue_inner_locked (event : Event) (queue item_id : string)
    (key : option string) : Store EventId :=
  let! existing := read_ks (check_idempotency key) in
  match existing with
  | Some existing_id =>
      let! _ := match key with
                | Some key => rematerialize event queue item_id key existing_id
                | None => sm_ret tt
                end in
      let! _ := fetch_max existing_id in
      sm_ret existing_id
  | None => restore_seq_on_error (enqueue_body event queue item_id key)
  end.

(** The loop of [append_atomic]: the ids given, the first of an indexed event,
    and the batch. *)
Fixpoint atomic_loop (events : list Event) : Store (list EventId * option Z * KsOps) :=
  match events with
  | [] => sm_ret ([], None, [])
  | event :: events =>
      let! event_id := next_event_id in
      let! value := sm_lift (encode_value (build_event_envelope event event_id None)) in
      let index_keys := make_index_keys event event_id in
      let! (ids, first_indexed, ops) := atomic_loop events in
      sm_ret (event_id :: ids,
              match index_keys with [] => first_indexed | _ => Some event_id end,
              log_op event_id value :: index_ops index_keys ++ ops)
  end.

Definition atomic_body (events : list Event) (clocks : nat -> DateTime) (views : list ViewUpdate)
    : Store (list EventId) :=
  let! (event_ids, first_indexed_seq, ops) := atomic_loop events in
  let! start_ops := match first_indexed_seq with
                    | Some seq => read_ks (set_index_start_seq_if_needed seq)
                    | None => sm_ret []
                    end in
  let! final_seq := sm_lift (match last event_ids with
                             | Some seq => Ok seq
                             | None => Err (Aborted (mkPanic "events is not empty"))
                             end) in
  let! view_ops := read_ks (stage_updates clocks views) in
  let! _ := on_ks (commit
    (ops ++ start_ops ++ [meta_op KEY_META_SEQ final_seq]
     ++ match views with [] => [] | _ => [meta_op KEY_META_VIEWS_LAST_EVENT_ID final_seq] end
     ++ view_ops)) in
  sm_ret event_ids.

Definition append_atomic_inner_locked (events : list Event) (clocks : nat -> DateTime)
    (views : list ViewUpdate) : Store (list EventId) :=
  match events with
  | [] => sm_ret []
  | _ => restore_seq_on_error (atomic_body events clocks views)
  end.

(** ** Archiving, pruning, expiring *)

(** The log entries up to the cutoff: the scan stops behind it. *)
Fixpoint archive_log (cutoff_seq : Z) (items : list (Result (string * string) string))
    : Result (KsOps * Z) StoreFault :=
  match items with
  | [] => Ok ([], 0%Z)
  | item :: items =>
      let? (key, value) := result_map_err storage item in
      match parse_seq_from_log_key key with
      | Some seq =>
          if (seq <=? cutoff_seq)%Z then
            let? (ops, archived) := archive_log cutoff_seq items in
            Ok ((Partition.Archive, BatchInsert (archive_key seq) value)
                :: (Partition.Events, BatchRemove key) :: ops, (archived + 1)%Z)
          else Ok ([], 0%Z)
      | None => archive_log cutoff_seq items
      end
  end.

Fixpoint archive_indexes (cutoff_seq : Z) (items : list (Result (string * string) string))
    : Result KsOps StoreFault :=
  match items with
  | [] => Ok []
  | item :: items =>
      let? (key, _) := result_map_err storage item in
      let? ops := archive_indexes cutoff_seq items in
      Ok (match parse_seq_from_index_key key with
          | Some seq => if (seq <=? cutoff_seq)%Z then (Partition.Events, BatchRemove key) :: ops
                        else ops
          | None => ops
          end)
  end.

Definition archive_events_before (cutoff_seq : Z) : Store Z := fun st =>
  (let! (log_ops, archived) :=
     sm_lift (archive_log cutoff_seq (ks_prefix (fs_ks st) Partition.Events "log:")) in
   let! index_removals :=
     sm_lift (archive_indexes cutoff_seq (ks_prefix (fs_ks st) Partition.Events "index:")) in
   let! new_index_start :=
     sm_lift (if (cutoff_seq <? u64_max)%Z then Ok (cutoff_seq + 1)%Z
              else Err (Aborted (mkPanic "attempt to add with overflow"))) in
   let! _ := on_ks (commit (log_ops ++ index_removals
     ++ [meta_op KEY_META_INDEX_START_SEQ new_index_start])) in
   sm_ret archived) st.

(** [EventStore::retain_events] *)
Definition retain_events (before : EventId) : Store Z :=
  archive_events_before (sat_sub before 1).

(** [u64::from_be_bytes(value[..8])] when the value is long enough *)
Definition leading_u64 (value : string) : option Z :=
  if (8 <=? String.length value)%nat then from_be_bytes (String.substring 0 8 value) else None.

(** The idempotency keys whose event satisfies [gone]. *)
Fixpoint idempotency_keys_where (gone : EventId -> bool)
    (items : list (Result (string * string) string)) : Result (list string) StoreFault :=
  match items with
  | [] => Ok []
  | item :: items =>
      let? (key, value) := result_map_err storage item in
      let? keys := idempotency_keys_where gone items in
      Ok (match leading_u64 value with
          | Some event_id => if gone event_id then key :: keys else keys
          | None => keys
          end)
  end.

Definition remove_idempotency_keys (gone : EventId -> bool) : Store Z := fun st =>
  (let! to_remove := sm_lift (idempotency_keys_where gone
     (ks_prefix (fs_ks st) Partition.Meta "meta:idempotency:")) in
   match to_remove with
   | [] => sm_ret 0%Z
   | _ =>
       let! _ := on_ks (commit ((fun key => (Partition.Meta, BatchRemove key)) <$> to_remove)) in
       sm_ret (Z.of_nat (length to_remove))
   end) st.

Definition prune_idempotency_keys (cutoff_seq : Z) : Store Z :=
  remove_idempotency_keys (fun event_id => (event_id <=? cutoff_seq)%Z).

(** The timestamp of an event, hot or archived. *)
Definition event_timestamp (s : ks_state) (event_id : EventId) : option DateTime :=
  let timestamp bytes := match from_slice bytes with
                         | Ok env => Some (ev_timestamp (ee_event env)) | Err _ => None end in
  match ks_get s Partition.Events (log_key event_id) with
  | Ok (Some bytes) => timestamp bytes
  | _ => match ks_get s Partition.Archive (archive_key event_id) with
         | Ok (Some bytes) => timestamp bytes
         | _ => None
         end
  end.

Definition expire_idempotency_keys_inner (cutoff : DateTime) : Store Z := fun st =>
  remove_idempotency_keys (fun event_id =>
    match event_timestamp (fs_ks st) event_id with
    | Some ts => (ts <? cutoff)%Z
    | None => true
    end) st.

(** ** Reading *)

Definition get_current_seq (st : FjallEventStore) : Z := fs_seq st.

(** The events of [start_seq..start_seq + n], hot or archived. *)
Fixpoint stream_loop (s : ks_state) (seq : Z) (n : nat) : Result (list (Event * EventId)) StoreFault :=
  match n with
  | O => Ok []
  | S n =>
      let? hot := get_key s Partition.Events (log_key seq) in
      let? bytes := match hot with
                    | Some bytes => Ok (Some bytes)
                    | None => get_key s Partition.Archive (archive_key seq)
                    end in
      let? found := match bytes with
                    | Some bytes => let? env := decode_value bytes in Ok [(ee_event env, ee_event_id env)]
                    | None => Ok []
                    end in
      let? rest := stream_loop s (seq + 1) n in
      Ok (found ++ rest)
  end.

(** A checked addition of [u64]. *)
Definition checked_add (a b : Z) : Result Z StoreFault :=
  if (a + b <=? u64_max)%Z then Ok (a + b)%Z
  else Err (Aborted (mkPanic "attempt to add with overflow")).

(** [EventStore::stream]; [limit] is a [usize] *)
Definition stream (since : option EventId) (limit : Z) (st : FjallEventStore)
    : Result (list (Event * EventId)) StoreFault :=
  let? start_seq := match since with Some id => checked_add id 1 | None => Ok 1%Z end in
  let current_seq := get_current_seq st in
  if (current_seq <? start_seq)%Z then Ok []
  else
    let? range_end := checked_add start_seq limit in
    let? log_end := checked_add current_seq 1 in
    let end_seq := Z.min range_end log_end in
    stream_loop (fs_ks st) start_seq (Z.to_nat (end_seq - start_seq)).

Definition event_count (s : ks_state) : Result nat StoreFault :=
  let? entries := result_mapM (fun item => result_map_err storage item)
                    (ks_prefix s Partition.Events "log:") in
  Ok (length entries).

(** ** Opening the store: [FjallEventStore::new]

    The proof projection, the locks and the logging are left out. *)

Definition persist_when (b : bool) : SM ks_state StoreFault unit := fun s =>
  if b then let '(s', r) := ks_persist s in (s', result_map_err storage r) else (s, Ok tt).

Definition open_store (epoch : string) (elapsed_ms : Z) (now : DateTime) (clocks : ScanClocks)
    : SM ks_state StoreFault Z :=
  let! seq := reads load_seq in
  let! applied := run_migrations in
  let! _ := persist_when applied in
  let! views_watermark := reads load_views_watermark in
  let! events_watermark := reads load_high_water_mark in
  let! views_are_valid := reads (validate_views events_watermark) in
  let! _ :=
    if negb (views_watermark =? events_watermark)%Z || negb views_are_valid then
      let! _ := rebuild_views_from_events now in save_views_watermark events_watermark
    else sm_ret tt in
  let! report := scan epoch elapsed_ms clocks in
  let! _ := persist_when (0 <? rp_recovered_count report)%nat in
  sm_ret seq.
End store.
