(* ===== verification/LogState.v ===== *)
(** * The state of the event store

    [durable ev ar me n] says what the events, archive and metadata partitions
    hold when [n] events have been appended; the batches of the appends and of
    archiving preserve it, and the steps of the other components leave it
    alone ([same_log], [quiet]). *)

From Stdlib Require Import Ascii.
From S2P Require Import Prelude StrLib Types Events Keys Kv Queue Keyspace Views Recovery EventLog.

(** ** What the contents of the keyspace mean *)

Section durable.
Context `{JsonLaws EventEnvelope}.

Abbreviation kmap := (gmap string string).

Definition envelope_of (b : string) : option EventEnvelope :=
  match from_slice b with Ok env => Some env | Err _ => None end.

(** The event with number [m] in the log proper. *)
Definition hot (ev : kmap) (m : Z) : option EventEnvelope := ev !! log_key m ≫= envelope_of.

(** The event with number [m], hot or archived. *)
Definition stored (ev ar : kmap) (m : Z) : option EventEnvelope :=
  match ev !! log_key m with
  | Some b => envelope_of b
  | None => ar !! archive_key m ≫= envelope_of
  end.

(** The events 1 to [n] are stored, each under its number, and no other; the
    index entries are those of the hot events; the metadata says [n]; an
    idempotency key points to an event that carries it, and its queue row has
    been written. *)
Record durable (ev ar me : kmap) (n : Z) : Prop := mkDurable {
  du_range : is_u64 n;
  du_seq : match me !! KEY_META_SEQ with Some b => b = to_be_bytes n | None => n = 0%Z end;
  du_stored : forall m, (1 <= m <= n)%Z ->
    exists env, stored ev ar m = Some env /\ ee_event_id env = m;
  du_log : forall k v, ev !! k = Some v -> starts_with "log:" k = true ->
    exists m, (1 <= m <= n)%Z /\ k = log_key m;
  du_archive : forall k v, ar !! k = Some v -> exists m, (1 <= m <= n)%Z /\ k = archive_key m;
  du_index : forall m env k, (1 <= m <= n)%Z -> hot ev m = Some env ->
    k ∈ make_index_keys (ee_event env) m -> is_Some (ev !! k);
  du_index_sound : forall k v, ev !! k = Some v -> starts_with "log:" k = false ->
    exists m env, (1 <= m <= n)%Z /\ hot ev m = Some env /\ k ∈ make_index_keys (ee_event env) m;
  du_start : forall b, me !! KEY_META_INDEX_START_SEQ = Some b ->
    exists i, is_u64 i /\ b = to_be_bytes i;
  du_idem : forall key b, me !! idempotency_key key = Some b ->
    exists id env, b = to_be_bytes id /\ (1 <= id <= n)%Z /\ stored ev ar id = Some env /\
      ee_idempotency_key env = Some key;
  du_materialized : forall key b, me !! idempotency_key key = Some b ->
    is_Some (me !! queue_materialization_key key)
}.

Lemma durable_empty : durable ∅ ∅ ∅ 0.
Proof.
  split; try (intros k v; by rewrite lookup_empty).
  - by split.
  - by rewrite lookup_empty.
  - intros m Hm. lia.
  - intros m env k Hm. lia.
  - intros v. by rewrite lookup_empty.
Qed.

Lemma log_key_inj n m : is_u64 n -> is_u64 m -> log_key n = log_key m -> n = m.
Proof. intros Hn Hm Heq. apply (render_inj (LogKey n) (LogKey m)) in Heq; [congruence|done..]. Qed.

Lemma archive_key_inj n m : is_u64 n -> is_u64 m -> archive_key n = archive_key m -> n = m.
Proof. intros Hn Hm Heq. apply (render_inj (ArchiveKey n) (ArchiveKey m)) in Heq; [congruence|done..]. Qed.

Lemma log_key_prefix m : starts_with "log:" (log_key m) = true.
Proof. apply starts_with_app. Qed.

(** Numbers above [n] are free. *)
Lemma durable_fresh ev ar me n m :
  durable ev ar me n -> is_u64 m -> (n < m)%Z -> ev !! log_key m = None /\ ar !! archive_key m = None.
Proof.
  intros D Hm Hlt. split.
  - destruct (ev !! log_key m) as [v|] eqn:E; [|done].
    destruct (du_log _ _ _ _ D _ _ E (log_key_prefix m)) as (m' & Hm' & Heq).
    apply log_key_inj in Heq; [lia|done|]. pose proof (du_range _ _ _ _ D). unfold is_u64 in *. lia.
  - destruct (ar !! archive_key m) as [v|] eqn:E; [|done].
    destruct (du_archive _ _ _ _ D _ _ E) as (m' & Hm' & Heq).
    apply archive_key_inj in Heq; [lia|done|]. pose proof (du_range _ _ _ _ D). unfold is_u64 in *. lia.
Qed.

(** ** Index keys *)

Lemma make_index_keys_numbered event m k :
  k ∈ make_index_keys event m -> exists p, k = ("index:" +:+ p) +:+ ":" +:+ fmt020 m.
Proof.
  unfold make_index_keys. rewrite !elem_of_app. intros [Hk|[Hk|Hk]]; case_match;
    rewrite ?list_elem_of_singleton in Hk; try (by apply elem_of_nil in Hk); subst k.
  - exists ("task:" +:+ s). unfold task_index_key. by rewrite <-!append_assoc.
  - exists ("review:" +:+ s). unfold review_index_key. by rewrite <-!append_assoc.
  - exists ("agent:" +:+ s). unfold agent_index_key. by rewrite <-!append_assoc.
Qed.

Lemma index_key_parse event m k :
  is_u64 m -> k ∈ make_index_keys event m -> parse_seq_from_index_key k = Some m.
Proof. intros Hm [p ->]%make_index_keys_numbered. by apply parse_numbered. Qed.

Lemma index_key_prefix event m k : k ∈ make_index_keys event m -> starts_with "index:" k = true.
Proof. intros [p ->]%make_index_keys_numbered. rewrite append_assoc. apply starts_with_app. Qed.

Lemma index_key_not_log event seq k : k ∈ make_index_keys event seq -> starts_with "log:" k = false.
Proof. intros [r ->]%index_key_prefix%starts_with_iff. done. Qed.

(** ** Batches that append

    The part of a batch that goes to the events partition: the log entries of
    [envs], under the numbers after [b], and their index entries. *)
Record log_batch (b : Z) (envs : list EventEnvelope) (ops : KsOps) : Prop := mkLogBatch {
  lb_only : forall op, (Partition.Events, op) ∈ ops -> exists i env, envs !! i = Some env /\
    ((exists v, op = BatchInsert (log_key (b + 1 + Z.of_nat i)) v /\ from_slice v = Ok env) \/
     (exists k, k ∈ make_index_keys (ee_event env) (b + 1 + Z.of_nat i) /\ op = BatchInsert k ""));
  lb_log : forall i env, envs !! i = Some env ->
    exists v, (Partition.Events, BatchInsert (log_key (b + 1 + Z.of_nat i)) v) ∈ ops;
  lb_index : forall i env k, envs !! i = Some env ->
    k ∈ make_index_keys (ee_event env) (b + 1 + Z.of_nat i) ->
    (Partition.Events, BatchInsert k "") ∈ ops
}.

(** What an append writes outside the events partition: the counter, the start
    of the index, an idempotency key with its companion, queue rows, views. *)
Inductive tail_op (b : Z) (envs : list EventEnvelope) : Partition * BatchOp -> Prop :=
| tail_seq : tail_op b envs (meta_op KEY_META_SEQ (b + Z.of_nat (length envs)))
| tail_start i : is_u64 i -> tail_op b envs (meta_op KEY_META_INDEX_START_SEQ i)
| tail_views v : tail_op b envs (Partition.Meta, BatchInsert KEY_META_VIEWS_LAST_EVENT_ID v)
| tail_materialized key v : tail_op b envs (Partition.Meta, BatchInsert (queue_materialization_key key) v)
| tail_idem key i env : envs !! i = Some env -> ee_idempotency_key env = Some key ->
    tail_op b envs (meta_op (idempotency_key key) (b + 1 + Z.of_nat i))
| tail_queue op : tail_op b envs (Partition.Queue, op)
| tail_view op : tail_op b envs (Partition.Views, op).

Record append_batch (b : Z) (envs : list EventEnvelope) (ops : KsOps) : Prop := mkAppendBatch {
  ab_ids : forall i env, envs !! i = Some env -> ee_event_id env = (b + 1 + Z.of_nat i)%Z;
  ab_log : log_batch b envs ops;
  ab_tail : forall p op, (p, op) ∈ ops -> p <> Partition.Events -> tail_op b envs (p, op);
  ab_seq : envs <> [] -> meta_op KEY_META_SEQ (b + Z.of_nat (length envs)) ∈ ops;
  ab_materialized : forall key v, (Partition.Meta, BatchInsert (idempotency_key key) v) ∈ ops ->
    exists w, (Partition.Meta, BatchInsert (queue_materialization_key key) w) ∈ ops
}.

Section apply_append.
Context (ev ar me : kmap) (b : Z) (envs : list EventEnvelope) (ops : KsOps).
Context (D : durable ev ar me b) (B : append_batch b envs ops).
Context (room : (b + Z.of_nat (length envs) <= u64_max)%Z).

Let ev' := apply_batch (ops_on Partition.Events ops) ev.
Let me' := apply_batch (ops_on Partition.Meta ops) me.

Local Lemma event_inserts op : op ∈ ops_on Partition.Events ops -> is_insert op = true.
Proof.
  intros Hin%elem_of_ops_on.
  by destruct (lb_only _ _ _ (ab_log _ _ _ B) _ Hin) as (i & env & _ & [(v & -> & _)|(k & _ & ->)]).
Qed.

Lemma meta_inserts op : op ∈ ops_on Partition.Meta ops -> is_insert op = true.
Proof. intros Hin%elem_of_ops_on. apply (ab_tail _ _ _ B) in Hin; [|done]. by inversion Hin. Qed.

Local Lemma new_in_range i : (i < length envs)%nat -> is_u64 (b + 1 + Z.of_nat i).
Proof. pose proof (du_range _ _ _ _ D). unfold is_u64 in *. lia. Qed.

(** A log entry of the batch is that of one of the new events. *)
Local Lemma log_insert k v :
  (Partition.Events, BatchInsert k v) ∈ ops -> starts_with "log:" k = true ->
  exists i env, envs !! i = Some env /\ k = log_key (b + 1 + Z.of_nat i) /\ from_slice v = Ok env.
Proof.
  intros Hin Hk. destruct (lb_only _ _ _ (ab_log _ _ _ B) _ Hin) as (i & env & Hi & [(w & Heq & Hw)|(k' & Hk' & Heq)]);
    apply BatchInsert_inj in Heq as [-> ->]; [by eauto|]. apply index_key_not_log in Hk'. congruence.
Qed.

Lemma appended_hot_new i env : envs !! i = Some env -> hot ev' (b + 1 + Z.of_nat i) = Some env.
Proof.
  intros Hi. pose proof (lookup_lt_Some _ _ _ Hi) as Hlt. unfold hot, ev'.
  destruct (lb_log _ _ _ (ab_log _ _ _ B) _ _ Hi) as (v & Hv).
  destruct (inserts_lookup _ ev (log_key (b + 1 + Z.of_nat i)) event_inserts) as [(w & Hin & ->)|[Hno _]].
  - apply elem_of_ops_on in Hin. destruct (log_insert _ _ Hin (log_key_prefix _)) as (j & env' & Hj & Heq & Hw).
    pose proof (lookup_lt_Some _ _ _ Hj) as Hlt'. apply log_key_inj in Heq; [|by apply new_in_range..].
    assert (i = j) as <- by lia. cbn. unfold envelope_of. rewrite Hw. congruence.
  - destruct (Hno v). by apply elem_of_ops_on.
Qed.

(** The new events are stored under their numbers. *)
Lemma appended_stored i env :
  envs !! i = Some env -> stored ev' ar (b + 1 + Z.of_nat i) = Some env.
Proof.
  intros Hi. pose proof (appended_hot_new _ _ Hi) as Hh. unfold stored. unfold hot in Hh.
  by destruct (ev' !! log_key _).
Qed.

(** The old ones are where they were. *)
Lemma appended_log_old m : is_u64 m -> (m <= b)%Z -> ev' !! log_key m = ev !! log_key m.
Proof.
  intros Hm Hle. unfold ev'.
  destruct (inserts_lookup _ ev (log_key m) event_inserts) as [(w & Hin & _)|[_ ->]]; [|done].
  apply elem_of_ops_on in Hin. destruct (log_insert _ _ Hin (log_key_prefix _)) as (j & env' & Hj & Heq & _).
  apply lookup_lt_Some in Hj. apply log_key_inj in Heq; [lia|done|by apply new_in_range].
Qed.

Lemma appended_old m : is_u64 m -> (m <= b)%Z -> stored ev' ar m = stored ev ar m.
Proof. intros Hm Hle. unfold stored. by rewrite appended_log_old. Qed.

Lemma appended_hot_old m : is_u64 m -> (m <= b)%Z -> hot ev' m = hot ev m.
Proof. intros Hm Hle. unfold hot. by rewrite appended_log_old. Qed.

Local Lemma new_number m : (b < m <= b + Z.of_nat (length envs))%Z ->
  exists i env, envs !! i = Some env /\ m = (b + 1 + Z.of_nat i)%Z.
Proof.
  intros Hm. destruct (lookup_lt_is_Some_2 envs (Z.to_nat (m - b - 1))) as [env Henv]; [lia|].
  exists (Z.to_nat (m - b - 1)), env. split; [done|lia].
Qed.

(** Nothing that was in the events partition or in the metadata goes. *)
Local Lemma appended_event_kept k : is_Some (ev !! k) -> is_Some (ev' !! k).
Proof.
  intros Hk. unfold ev'. destruct (inserts_lookup _ ev k event_inserts) as [(w & _ & ->)|[_ ->]]; eauto.
Qed.

Local Lemma appended_meta_kept k : is_Some (me !! k) -> is_Some (me' !! k).
Proof.
  intros Hk. unfold me'. destruct (inserts_lookup _ me k meta_inserts) as [(w & _ & ->)|[_ ->]]; eauto.
Qed.

(** A metadata entry afterwards: an old one, or one of the batch. *)
Local Lemma appended_meta k v :
  me' !! k = Some v -> me !! k = Some v \/ tail_op b envs (Partition.Meta, BatchInsert k v).
Proof.
  unfold me'. destruct (inserts_lookup _ me k meta_inserts) as [(w & Hin & ->)|[_ ->]]; [|by left].
  intros [= ->]. right. apply elem_of_ops_on in Hin. by apply (ab_tail _ _ _ B).
Qed.

Local Lemma appended_index m env k :
  (1 <= m <= b + Z.of_nat (length envs))%Z -> hot ev' m = Some env ->
  k ∈ make_index_keys (ee_event env) m -> is_Some (ev' !! k).
Proof.
  intros Hm Hh Hk. destruct (decide (m <= b)%Z).
  - apply appended_event_kept. rewrite appended_hot_old in Hh by (unfold is_u64 in *; lia).
    eapply (du_index _ _ _ _ D); eauto. lia.
  - destruct (new_number m) as (i & env' & Hi & ->); [lia|]. rewrite (appended_hot_new _ _ Hi) in Hh.
    injection Hh as ->. pose proof (lb_index _ _ _ (ab_log _ _ _ B) _ _ _ Hi Hk) as Hin. unfold ev'.
    destruct (inserts_lookup _ ev k event_inserts) as [(w & _ & ->)|[Hno _]]; [eauto|].
    destruct (Hno ""). by apply elem_of_ops_on.
Qed.

Local Lemma appended_index_sound k v :
  ev' !! k = Some v -> starts_with "log:" k = false -> exists m env,
    (1 <= m <= b + Z.of_nat (length envs))%Z /\ hot ev' m = Some env /\
    k ∈ make_index_keys (ee_event env) m.
Proof.
  pose proof (du_range _ _ _ _ D) as Hb. unfold is_u64 in Hb.
  intros Hk Hp. unfold ev' in Hk. destruct (inserts_lookup _ ev k event_inserts) as [(w & Hin & _)|[_ Heq]].
  - apply elem_of_ops_on in Hin.
    destruct (lb_only _ _ _ (ab_log _ _ _ B) _ Hin) as (i & env & Hi & [(w' & Heq & _)|(k' & Hk' & Heq)]);
      apply BatchInsert_inj in Heq as [-> ->]; [by rewrite log_key_prefix in Hp|].
    exists (b + 1 + Z.of_nat i)%Z, env. pose proof (lookup_lt_Some _ _ _ Hi).
    split_and!; [lia|lia|by apply appended_hot_new|done].
  - rewrite Heq in Hk. destruct (du_index_sound _ _ _ _ D _ _ Hk Hp) as (m & env & Hm & Hh & Hin).
    exists m, env. split; [lia|]. split; [|done]. rewrite appended_hot_old; [done|unfold is_u64; lia|lia].
Qed.

Local Lemma appended_counter : match me' !! KEY_META_SEQ with
  | Some v => v = to_be_bytes (b + Z.of_nat (length envs))
  | None => (b + Z.of_nat (length envs) = 0)%Z
  end.
Proof.
  unfold me'. destruct (inserts_lookup _ me KEY_META_SEQ meta_inserts) as [(w & Hw & ->)|[Hno ->]].
  - apply elem_of_ops_on, (ab_tail _ _ _ B) in Hw; [|done]. by inversion Hw.
  - destruct (decide (envs = [])) as [Hnil|Hne].
    + rewrite Hnil. cbn [length Z.of_nat]. rewrite Z.add_0_r. apply (du_seq _ _ _ _ D).
    + pose proof (ab_seq _ _ _ B Hne).
      by destruct (Hno (to_be_bytes (b + Z.of_nat (length envs)))); apply elem_of_ops_on.
Qed.

Local Lemma appended_materialized key v :
  me' !! idempotency_key key = Some v -> is_Some (me' !! queue_materialization_key key).
Proof.
  intros Hv. destruct (me !! idempotency_key key) as [w|] eqn:Hold.
  { apply appended_meta_kept. by eapply (du_materialized _ _ _ _ D). }
  unfold me' in Hv |- *.
  destruct (inserts_lookup _ me (idempotency_key key) meta_inserts) as [(w & Hin & _)|[_ Heq]]; [|congruence].
  apply elem_of_ops_on in Hin. destruct (ab_materialized _ _ _ B _ _ Hin) as (u & Hu).
  destruct (inserts_lookup _ me (queue_materialization_key key) meta_inserts) as [(x & _ & ->)|[Hno _]];
    [eauto|]. by destruct (Hno u); apply elem_of_ops_on.
Qed.

Lemma appended_durable : durable ev' ar me' (b + Z.of_nat (length envs)).
Proof.
  pose proof (du_range _ _ _ _ D) as Hb. unfold is_u64 in Hb. split.
  - unfold is_u64. lia.
  - apply appended_counter.
  - intros m Hm. destruct (decide (m <= b)%Z).
    + rewrite appended_old by (unfold is_u64 in *; lia). apply (du_stored _ _ _ _ D). lia.
    + destruct (new_number m) as (i & env & Henv & ->); [lia|]. exists env.
      split; [by apply appended_stored|by eapply ab_ids].
  - intros k v Hk Hp. unfold ev' in Hk.
    destruct (inserts_lookup _ ev k event_inserts) as [(w & Hin & _)|[_ Heq]].
    + apply elem_of_ops_on in Hin. destruct (log_insert _ _ Hin Hp) as (i & env & Hi & -> & _).
      apply lookup_lt_Some in Hi. eexists. split; [|done]. lia.
    + rewrite Heq in Hk. destruct (du_log _ _ _ _ D _ _ Hk Hp) as (m & Hm & ->).
      exists m. split; [lia|done].
  - intros k v Hk. destruct (du_archive _ _ _ _ D _ _ Hk) as (m & Hm & ->). exists m. split; [lia|done].
  - apply appended_index.
  - apply appended_index_sound.
  - intros v [Hold|Ht]%appended_meta; [by apply (du_start _ _ _ _ D)|]. inversion Ht; try done. eauto.
  - intros key v [Hold|Ht]%appended_meta.
    + destruct (du_idem _ _ _ _ D _ _ Hold) as (id & env & -> & Hid & Hst & Hkey).
      exists id, env. split_and!; [done|lia|lia| |done]. rewrite appended_old; [done|unfold is_u64; lia|lia].
    + inversion Ht as [| | | |key' i env Hi Hkey Heq| |]; try done. apply append_inj_l in Heq as ->.
      pose proof (lookup_lt_Some _ _ _ Hi). exists (b + 1 + Z.of_nat i)%Z, env.
      split_and!; [done|lia|lia|by apply appended_stored|done].
  - apply appended_materialized.
Qed.
End apply_append.

(** ** Batches that move events to the archive *)

Record archive_batch (cutoff : Z) (ev : kmap) (ops : KsOps) : Prop := mkArchiveBatch {
  mb_events : forall op, (Partition.Events, op) ∈ ops -> exists k, op = BatchRemove k /\
    ((exists m, is_u64 m /\ (m <= cutoff)%Z /\ k = log_key m) \/
     (starts_with "log:" k = false /\
      exists m, parse_seq_from_index_key k = Some m /\ (m <= cutoff)%Z));
  mb_complete : forall m v, is_u64 m -> (m <= cutoff)%Z -> ev !! log_key m = Some v ->
    (Partition.Events, BatchRemove (log_key m)) ∈ ops;
  mb_index_complete : forall k v m, ev !! k = Some v -> starts_with "index:" k = true ->
    parse_seq_from_index_key k = Some m -> (m <= cutoff)%Z -> (Partition.Events, BatchRemove k) ∈ ops;
  mb_moved : forall m, (Partition.Events, BatchRemove (log_key m)) ∈ ops -> is_u64 m ->
    exists v, (Partition.Archive, BatchInsert (archive_key m) v) ∈ ops;
  mb_archive : forall op, (Partition.Archive, op) ∈ ops ->
    exists m v, is_u64 m /\ op = BatchInsert (archive_key m) v /\ ev !! log_key m = Some v;
  mb_meta : forall op, (Partition.Meta, op) ∈ ops ->
    exists i, is_u64 i /\ op = BatchInsert KEY_META_INDEX_START_SEQ (to_be_bytes i)
}.

(** Of the metadata only the counter, the start of the index and the keys of
    idempotent appends matter. *)
Lemma durable_meta ev ar me me' n :
  durable ev ar me n -> me' !! KEY_META_SEQ = me !! KEY_META_SEQ ->
  (forall key b, me' !! idempotency_key key = Some b -> me !! idempotency_key key = Some b) ->
  (forall key, me' !! queue_materialization_key key = me !! queue_materialization_key key) ->
  (forall b, me' !! KEY_META_INDEX_START_SEQ = Some b -> exists i, is_u64 i /\ b = to_be_bytes i) ->
  durable ev ar me' n.
Proof.
  intros D Hseq Hidem Hmat Hstart. split; try apply D.
  - rewrite Hseq. apply D.
  - done.
  - intros key b Hb. by apply (du_idem _ _ _ _ D), Hidem.
  - intros key b Hb. rewrite Hmat. by eapply (du_materialized _ _ _ _ D), Hidem.
Qed.

Section apply_archive.
Context (ev ar me : kmap) (n cutoff : Z) (ops : KsOps).
Context (D : durable ev ar me n) (B : archive_batch cutoff ev ops).

Let ev' := apply_batch (ops_on Partition.Events ops) ev.
Let ar' := apply_batch (ops_on Partition.Archive ops) ar.
Let me' := apply_batch (ops_on Partition.Meta ops) me.

Local Lemma archive_inserts op : op ∈ ops_on Partition.Archive ops -> is_insert op = true.
Proof. intros Hin%elem_of_ops_on. by destruct (mb_archive _ _ _ B _ Hin) as (m & v & _ & -> & _). Qed.

Local Lemma event_removes op : op ∈ ops_on Partition.Events ops -> is_insert op = false.
Proof. intros Hin%elem_of_ops_on. by destruct (mb_events _ _ _ B _ Hin) as (k & -> & _). Qed.

(** What the archive holds afterwards under a number. *)
Lemma archived_lookup m : is_u64 m ->
  (exists v, (Partition.Archive, BatchInsert (archive_key m) v) ∈ ops /\
     ev !! log_key m = Some v /\ ar' !! archive_key m = Some v) \/
  ((forall v, (Partition.Archive, BatchInsert (archive_key m) v) ∉ ops) /\
   ar' !! archive_key m = ar !! archive_key m).
Proof.
  intros Hm. unfold ar'.
  destruct (inserts_lookup _ ar (archive_key m) archive_inserts) as [(v & Hin & Hv)|[Hno Heq]].
  - left. apply elem_of_ops_on in Hin. exists v. split; [done|]. split; [|done].
    destruct (mb_archive _ _ _ B _ Hin) as (m' & v' & Hm' & Heq & Hev). apply BatchInsert_inj in Heq as [Heq ->].
    apply archive_key_inj in Heq; [by subst|done..].
  - right. split; [|done]. intros v Hin. apply (Hno v). by apply elem_of_ops_on.
Qed.

(** Moving does not change what is stored. *)
Lemma archived_stored m : is_u64 m -> stored ev' ar' m = stored ev ar m.
Proof.
  intros Hm. unfold stored, ev'.
  destruct (removes_lookup _ ev (log_key m) event_removes) as [[Hin ->]|[_ ->]].
  - apply elem_of_ops_on in Hin. destruct (mb_moved _ _ _ B _ Hin Hm) as (v & Hv).
    destruct (archived_lookup m Hm) as [(v' & _ & -> & ->)|[Hno _]]; [done|by destruct (Hno v)].
  - destruct (ev !! log_key m) eqn:Hev; [done|].
    destruct (archived_lookup m Hm) as [(v' & _ & Hev' & _)|[_ ->]]; [congruence|done].
Qed.

(** The log keeps exactly the events behind the cutoff. *)
Lemma archived_log m : is_u64 m ->
  ev' !! log_key m = if (m <=? cutoff)%Z then None else ev !! log_key m.
Proof.
  intros Hm. unfold ev'.
  destruct (removes_lookup _ ev (log_key m) event_removes) as [[Hin ->]|[Hno ->]].
  - apply elem_of_ops_on in Hin. destruct (mb_events _ _ _ B _ Hin) as (k & Heq & Hk).
    assert (k = log_key m) as -> by congruence. destruct Hk as [(m' & Hm' & Hle & Heq')|[Hk _]].
    + apply log_key_inj in Heq' as <-; [|done..]. by rewrite (proj2 (Z.leb_le _ _)).
    + by rewrite log_key_prefix in Hk.
  - destruct (Z.leb_spec m cutoff); [|done]. destruct (ev !! log_key m) eqn:Hev; [|done].
    destruct Hno. apply elem_of_ops_on. by eapply mb_complete.
Qed.

Local Lemma archived_hot m env :
  is_u64 m -> hot ev' m = Some env <-> hot ev m = Some env /\ (cutoff < m)%Z.
Proof.
  intros Hm. unfold hot. rewrite archived_log by done. destruct (Z.leb_spec m cutoff); cbn.
  - split; [done|]. intros [_ ?]. lia.
  - naive_solver.
Qed.

Local Lemma archived_index m env k :
  (1 <= m <= n)%Z -> hot ev' m = Some env -> k ∈ make_index_keys (ee_event env) m -> is_Some (ev' !! k).
Proof.
  pose proof (du_range _ _ _ _ D) as Hn. intros Hm Hh Hk.
  assert (Hu : is_u64 m) by (unfold is_u64 in *; lia). apply archived_hot in Hh as [Hh Hlt]; [|done].
  unfold ev'. destruct (removes_lookup _ ev k event_removes) as [[Hin _]|[_ ->]];
    [|by eapply (du_index _ _ _ _ D)].
  apply elem_of_ops_on in Hin. destruct (mb_events _ _ _ B _ Hin) as (k' & [= <-] & Hor).
  destruct Hor as [(m' & _ & _ & Heq)|(_ & m' & Hp & Hle)].
  - apply index_key_not_log in Hk. rewrite Heq in Hk. by rewrite log_key_prefix in Hk.
  - rewrite (index_key_parse _ _ _ Hu Hk) in Hp. injection Hp as <-. lia.
Qed.

Local Lemma archived_index_sound k v :
  ev' !! k = Some v -> starts_with "log:" k = false ->
  exists m env, (1 <= m <= n)%Z /\ hot ev' m = Some env /\ k ∈ make_index_keys (ee_event env) m.
Proof.
  pose proof (du_range _ _ _ _ D) as Hn. intros Hk Hp. unfold ev' in Hk.
  destruct (removes_lookup _ ev k event_removes) as [[_ Heq]|[Hno Heq]]; rewrite Heq in Hk; [done|].
  destruct (du_index_sound _ _ _ _ D _ _ Hk Hp) as (m & env & Hm & Hh & Hin).
  assert (Hu : is_u64 m) by (unfold is_u64 in *; lia). exists m, env. split; [done|]. split; [|done].
  apply archived_hot; [done|]. split; [done|]. apply Z.nle_gt. intros Hle. apply Hno, elem_of_ops_on.
  eapply (mb_index_complete _ _ _ B); [done|by eapply index_key_prefix|by eapply index_key_parse|done].
Qed.

Lemma archived_durable : durable ev' ar' me' n.
Proof.
  pose proof (du_range _ _ _ _ D) as Hn.
  assert (Hst : forall m, (1 <= m <= n)%Z -> stored ev' ar' m = stored ev ar m).
  { intros m Hm. apply archived_stored. unfold is_u64 in *. lia. }
  assert (Hme : forall k, k <> KEY_META_INDEX_START_SEQ -> me' !! k = me !! k).
  { intros k Hk. apply apply_batch_frame. intros op Hop%elem_of_ops_on.
    destruct (mb_meta _ _ _ B _ Hop) as (i & _ & ->). done. }
  apply (durable_meta ev' ar' me); [|by apply Hme|..].
  - split; try apply D.
    + intros m Hm. rewrite Hst by done. by apply (du_stored _ _ _ _ D).
    + intros k v Hk. unfold ev' in Hk.
      destruct (removes_lookup _ ev k event_removes) as [[_ Heq]|[_ Heq]]; rewrite Heq in Hk; [done|].
      by apply (du_log _ _ _ _ D _ v).
    + intros k v Hk. unfold ar' in Hk.
      destruct (inserts_lookup _ ar k archive_inserts) as [(w & Hin & _)|[_ Heq]].
      * apply elem_of_ops_on in Hin. destruct (mb_archive _ _ _ B _ Hin) as (m & v' & Hm & Heq & Hev).
        apply BatchInsert_inj in Heq as [-> ->].
        destruct (du_log _ _ _ _ D _ _ Hev (log_key_prefix m)) as (m' & Hm' & Heq).
        apply log_key_inj in Heq; [|done|unfold is_u64 in *; lia]. exists m'. by subst.
      * rewrite Heq in Hk. by apply (du_archive _ _ _ _ D _ v).
    + apply archived_index.
    + apply archived_index_sound.
    + intros key b Hb. destruct (du_idem _ _ _ _ D _ _ Hb) as (id & env & -> & Hid & Hs & Hkey).
      exists id, env. rewrite Hst by done. done.
  - intros key b. by rewrite Hme.
  - intros key. by apply Hme.
  - intros b Hb. unfold me' in Hb.
    destruct (inserts_lookup (ops_on Partition.Meta ops) me KEY_META_INDEX_START_SEQ)
      as [(w & Hin & Hw)|[_ Heq]].
    + intros op Hop%elem_of_ops_on. by destruct (mb_meta _ _ _ B _ Hop) as (i & _ & ->).
    + rewrite Hw in Hb. injection Hb as ->. apply elem_of_ops_on in Hin.
      destruct (mb_meta _ _ _ B _ Hin) as (i & Hi & Heq). apply BatchInsert_inj in Heq as [_ ->]. eauto.
    + rewrite Heq in Hb. by apply (du_start _ _ _ _ D).
Qed.
End apply_archive.
End durable.

(** ** Steps that leave the log alone *)

Section quiet.
Context {ord : IterOrder string} `{KeyspaceLaws} `{Json TaskStatus} `{Json ReviewStatus}
  `{Json TaskView} `{Json ReviewView} `{JsonLaws EventEnvelope} `{Json QueueClaim}.

Definition ks_durable (s : ks_state) (n : Z) : Prop :=
  durable (ks_contents s Partition.Events) (ks_contents s Partition.Archive)
    (ks_contents s Partition.Meta) n.

Definition ks_stored (s : ks_state) (m : Z) : option EventEnvelope :=
  stored (ks_contents s Partition.Events) (ks_contents s Partition.Archive) m.

(** Events, archive and metadata agree, the schema version and the watermark of
    the views apart. *)
Record same_log (s s' : ks_state) : Prop := mkSameLog {
  sl_events : ks_contents s' Partition.Events = ks_contents s Partition.Events;
  sl_archive : ks_contents s' Partition.Archive = ks_contents s Partition.Archive;
  sl_meta : forall k, k <> KEY_META_SCHEMA_VERSION -> k <> KEY_META_VIEWS_LAST_EVENT_ID ->
    ks_contents s' Partition.Meta !! k = ks_contents s Partition.Meta !! k;
  sl_poisoned : ks_poisoned s -> ks_poisoned s'
}.

#[export] Instance same_log_preorder : PreOrder same_log.
Proof.
  split; [by split|]. intros s1 s2 s3 [He1 Ha1 Hm1 Hp1] [He2 Ha2 Hm2 Hp2]. split.
  - congruence.
  - congruence.
  - intros k Hk Hk'. by rewrite Hm2, Hm1.
  - auto.
Qed.

Lemma same_log_durable s s' n : same_log s s' -> ks_durable s n -> ks_durable s' n.
Proof.
  intros [He Ha Hm _] D. unfold ks_durable. rewrite He, Ha.
  apply (durable_meta _ _ (ks_contents s Partition.Meta)); [done|by apply Hm|..].
  - intros key b. by rewrite Hm.
  - intros key. by apply Hm.
  - intros b. rewrite Hm by done. apply D.
Qed.

Lemma same_log_stored s s' m : same_log s s' -> ks_stored s' m = ks_stored s m.
Proof. intros [He Ha _ _]. unfold ks_stored. by rewrite He, Ha. Qed.

(** A write that only touches views, queues and the two excepted keys. *)
Definition quiet_op (op : Partition * BatchOp) : Prop :=
  op.1 = Partition.Views \/ op.1 = Partition.Queue \/
  (op.1 = Partition.Meta /\
   (op_key op.2 = KEY_META_SCHEMA_VERSION \/ op_key op.2 = KEY_META_VIEWS_LAST_EVENT_ID)).

Lemma quiet_write ops write s s' r :
  ks_writes ops write -> write s = (s', r) -> Forall quiet_op ops -> same_log s s'.
Proof.
  intros Hw Hr Hq. rewrite Forall_forall in Hq.
  assert (Hpoison : ks_poisoned s -> ks_poisoned s').
  { intros Hp. by destruct (ks_poisoned_law _ _ _ _ _ Hw Hr Hp) as (_ & ? & _). }
  destruct (ks_write_law _ _ _ _ _ Hw Hr) as [[Hc _]|[_ Hc]]; [|by split; rewrite ?Hc].
  split; [..|done].
  - rewrite Hc. apply map_eq. intros k. apply apply_batch_frame. intros op Hin%elem_of_ops_on.
    by destruct (Hq _ Hin) as [?|[?|[? _]]].
  - rewrite Hc. apply map_eq. intros k. apply apply_batch_frame. intros op Hin%elem_of_ops_on.
    by destruct (Hq _ Hin) as [?|[?|[? _]]].
  - intros k Hk Hk'. rewrite Hc. apply apply_batch_frame. intros op Hin%elem_of_ops_on.
    destruct (Hq _ Hin) as [?|[?|[_ Hor]]]; [done..|]. cbn in Hor. naive_solver.
Qed.

Definition quiet {E A} (c : SM ks_state E A) : Prop := forall s, same_log s (c s).1.

Lemma quiet_ret {E A} (a : A) : quiet (@sm_ret ks_state E A a).
Proof. by intros s. Qed.
Lemma quiet_lift {E A} (r : Result A E) : quiet (sm_lift r).
Proof. by intros s. Qed.
Lemma quiet_reads {A} (f : ks_state -> Result A StoreFault) : quiet (reads f).
Proof. by intros s. Qed.
Lemma quiet_bind {E A B} (c : SM ks_state E A) (k : A -> SM ks_state E B) :
  quiet c -> (forall a, quiet (k a)) -> quiet (sm_bind c k).
Proof.
  intros Hc Hk s. unfold sm_bind. specialize (Hc s). destruct (c s) as [s' [a|e]]; [|done].
  etrans; [exact Hc|apply Hk].
Qed.
(** A step that reads the store and then acts on it. *)
Lemma quiet_at {E A} (c : ks_state -> SM ks_state E A) : (forall s, quiet (c s)) -> quiet (fun s => c s s).
Proof. intros Hc s. apply Hc. Qed.

Lemma quiet_commit ops : Forall quiet_op ops -> quiet (commit ops).
Proof.
  intros Hq s. unfold commit. destruct (ks_commit ops s) as [s' r] eqn:E.
  by apply (quiet_write _ _ _ _ _ (writes_commit ops) E).
Qed.
Lemma quiet_insert p k v : quiet_op (p, BatchInsert k v) -> quiet (insert_key p k v).
Proof.
  intros Hq s. unfold insert_key. destruct (ks_insert p k v s) as [s' r] eqn:E.
  apply (quiet_write _ _ _ _ _ (writes_insert p k v) E). by constructor.
Qed.
Lemma quiet_remove p k : quiet_op (p, BatchRemove k) -> quiet (remove_key p k).
Proof.
  intros Hq s. unfold remove_key. destruct (ks_remove p k s) as [s' r] eqn:E.
  apply (quiet_write _ _ _ _ _ (writes_remove p k) E). by constructor.
Qed.
Lemma quiet_persist b : quiet (persist_when b).
Proof.
  intros s. unfold persist_when. destruct b; [|done]. destruct (ks_persist s) as [s' r] eqn:E.
  destruct (ks_persist_law _ _ _ E) as [Hc Hp]. split; intros; by rewrite ?Hc; auto.
Qed.
End quiet.

#[export] Hint Resolve quiet_ret quiet_lift quiet_reads quiet_persist : brehon.

(** Splits a step into its parts and closes the ones that are known quiet. *)
Ltac quiet_steps :=
  repeat first
    [ solve [eauto with brehon]
    | apply quiet_bind; [|intros ?]
    | apply quiet_insert | apply quiet_remove
    | case_match ].

Section quiet_steps.
Context {ord : IterOrder string} `{KeyspaceLaws} `{Json TaskStatus} `{Json ReviewStatus}
  `{Json TaskView} `{Json ReviewView} `{JsonLaws EventEnvelope} `{Json QueueClaim}.

Lemma quiet_apply_update now update : quiet (apply_update now update).
Proof.
  unfold apply_update. apply (quiet_at (fun s => _)). intros s.
  destruct (vu_view_type update); quiet_steps; by left.
Qed.

#[local] Hint Resolve quiet_apply_update : brehon.

Lemma result_mapM_Forall {A B E} (f : A -> Result B E) (P : B -> Prop) l ys :
  (forall a b, f a = Ok b -> P b) -> result_mapM f l = Ok ys -> Forall P ys.
Proof.
  intros Hf. revert ys. induction l as [|x l IH]; intros ys; cbn; [by intros [= <-]|].
  intros Hm. inv_bind. constructor; [by eapply Hf|by apply IH].
Qed.

Lemma persist_views_only tasks reviews ops :
  persist_views tasks reviews = Ok ops -> Forall (fun op => op.1 = Partition.Views) ops.
Proof.
  unfold persist_views. intros Hp. inv_bind. apply Forall_app. split.
  - eapply result_mapM_Forall; [|done]. intros view op. unfold task_view_op. intros Ho. by inv_bind.
  - eapply result_mapM_Forall; [|done]. intros view op. unfold review_view_op. intros Ho. by inv_bind.
Qed.

Lemma persist_views_quiet tasks reviews ops :
  persist_views tasks reviews = Ok ops -> Forall quiet_op ops.
Proof. intros Hp%persist_views_only. eapply Forall_impl; [exact Hp|]. intros op Hop. by left. Qed.

Lemma deletions_quiet s ops : stage_view_partition_deletions s = Ok ops -> Forall quiet_op ops.
Proof.
  unfold stage_view_partition_deletions. intros Hd. inv_bind. apply Forall_fmap, Forall_forall.
  intros kv _. by left.
Qed.

Lemma quiet_rebuild now : quiet (rebuild_views_from_events now).
Proof.
  unfold rebuild_views_from_events. apply (quiet_at (fun s => _)). intros s.
  apply quiet_bind; [apply quiet_lift|intros envs]. 
  intros s1. unfold sm_bind, sm_lift, sm_ret.
  destruct (stage_view_partition_deletions s) as [dels|] eqn:Hd; [|done].
  destruct (persist_views _ _) as [ops|] eqn:Hp; [|done].
  pose proof (quiet_commit (dels ++ ops)) as Hc. unfold quiet in Hc. specialize (Hc ltac:(
    apply Forall_app; split; [by eapply deletions_quiet|by eapply persist_views_quiet]) s1).
  by destruct (commit (dels ++ ops) s1) as [s2 [[]|e]].
Qed.

Lemma quiet_clean_orphaned clocks i tasks : quiet (clean_orphaned_tasks clocks i tasks).
Proof.
  revert i. induction tasks as [|task tasks IH]; intros i; cbn [clean_orphaned_tasks]; [apply quiet_ret|].
  quiet_steps.
Qed.

Lemma quiet_clean_merges clocks i tasks : quiet (clean_prepared_merges clocks i tasks).
Proof.
  revert i. induction tasks as [|task tasks IH]; intros i; cbn [clean_prepared_merges]; [apply quiet_ret|].
  apply (quiet_at (fun s => _)). intros s. quiet_steps.
Qed.

Lemma quiet_clean_claims claims : quiet (clean_expired_claims claims).
Proof.
  induction claims as [|claim claims IH]; cbn [clean_expired_claims]; [apply quiet_ret|].
  quiet_steps; by right; left.
Qed.

#[local] Hint Resolve quiet_rebuild quiet_clean_orphaned quiet_clean_merges quiet_clean_claims : brehon.

Lemma quiet_scan epoch elapsed clocks : quiet (scan epoch elapsed clocks).
Proof.
  unfold scan. quiet_steps.
Qed.

#[local] Hint Resolve quiet_scan : brehon.

Lemma quiet_open epoch elapsed now clocks : quiet (open_store epoch elapsed now clocks).
Proof.
  unfold open_store, run_migrations, save_views_watermark.
  quiet_steps; right; right; split; auto.
Qed.

(** *** The queue, on its partition of the keyspace *)

#[local] Instance queue_kv : KvStore := partition_kv Partition.Queue.

Lemma quiet_queue_commit ops : quiet (queue_commit (H := queue_kv) ops).
Proof.
  intros s. unfold queue_commit. cbn [kv_commit queue_kv partition_kv].
  destruct (ks_commit (pair Partition.Queue <$> ops) s) as [s' r] eqn:E.
  apply (quiet_write _ _ _ _ _ (writes_commit _) E). apply Forall_fmap, Forall_forall.
  intros op _. by right; left.
Qed.

Lemma quiet_queue_get k : quiet (queue_get (H := queue_kv) k).
Proof. by intros s. Qed.

#[local] Hint Resolve quiet_queue_commit quiet_queue_get : brehon.

Lemma quiet_marker epoch clk k q i : quiet (claim_marker_is_active (H := queue_kv) epoch clk k q i).
Proof. unfold claim_marker_is_active. quiet_steps. Qed.

#[local] Hint Resolve quiet_marker : brehon.

Lemma quiet_claim_loop epoch clocks q make i items :
  quiet (claim_loop (H := queue_kv) epoch clocks q make i items).
Proof.
  revert i. induction items as [|item items IH]; intros i; cbn [claim_loop]; [apply quiet_ret|].
  quiet_steps.
Qed.

Lemma quiet_load_live epoch clk id : quiet (load_live_claim (H := queue_kv) epoch clk id).
Proof. unfold load_live_claim. quiet_steps. Qed.

#[local] Hint Resolve quiet_load_live : brehon.

(** No call of the queue manager touches the log. *)
Lemma quiet_exec_queue epoch op : quiet (exec_queue (H := queue_kv) epoch op).
Proof.
  destruct op; cbn [exec_queue]; unfold sm_void.
  - unfold claim_next. apply (quiet_at (fun s => _)). intros s. apply quiet_claim_loop.
  - unfold ack_claim. apply quiet_bind; [|auto with brehon]. apply quiet_bind; [apply quiet_load_live|].
    intros claim. apply (quiet_at (fun s => _)). intros s. quiet_steps.
  - unfold renew_claim. quiet_steps.
  - unfold cleanup_expired_claims. apply quiet_bind; [|auto with brehon].
    apply (quiet_at (fun s => _)). intros s. quiet_steps.
  - unfold enqueue_row. quiet_steps.
Qed.
End quiet_steps.
