(* ===== verification/LogSteps.v ===== *)
(** * The calls of the event store

    What each call of EventLog.v does to the log and to the counter of the
    process, whatever storage faults it meets. *)

From Stdlib Require Import Ascii.
From S2P Require Import Prelude StrLib Types Events Keys Kv Queue Keyspace Views Recovery EventLog LogState.

(** ** Appending *)

Section appending.
Context {ord : IterOrder string} `{KeyspaceLaws} `{Json TaskStatus} `{Json ReviewStatus}
  `{Json TaskView} `{Json ReviewView} `{JsonLaws EventEnvelope} `{Json QueueClaim}.

(** The counter of the process is the last stored number, unless a failed
    commit has poisoned the keyspace. *)
Record store_inv (st : FjallEventStore) (n : Z) : Prop := mkStoreInv {
  si_durable : ks_durable (fs_ks st) n;
  si_range : (0 <= fs_seq st <= n)%Z;
  si_seq : ks_poisoned (fs_ks st) \/ fs_seq st = n
}.

Abbreviation meta st := (ks_contents (fs_ks st) Partition.Meta).

(** The store has taken up the events [new], behind the [n] it had. *)
Record appended (st st' : FjallEventStore) (n : Z) (new : list EventEnvelope) : Prop := mkAppended {
  ap_inv : store_inv st' (n + Z.of_nat (length new));
  ap_old : forall m, is_u64 m -> (m <= n)%Z -> ks_stored (fs_ks st') m = ks_stored (fs_ks st) m;
  ap_new : forall i env, new !! i = Some env ->
    ks_stored (fs_ks st') (n + 1 + Z.of_nat i) = Some env;
  ap_idem : forall key b, meta st !! idempotency_key key = Some b ->
    meta st' !! idempotency_key key = Some b
}.

Lemma appended_same_log st s' n seq :
  store_inv st n -> same_log (fs_ks st) s' -> (fs_seq st <= seq <= n)%Z ->
  appended st (mkFjallEventStore s' seq) n [].
Proof.
  intros [D Hr Hs] Hsl Hle. split; cbn [length Z.of_nat fs_ks]; rewrite ?Z.add_0_r.
  - split; cbn [fs_ks fs_seq]; [by eapply same_log_durable|lia|].
    destruct Hs as [Hp|<-]; [left; by apply Hsl|right; lia].
  - intros m _ _. by apply same_log_stored.
  - done.
  - intros key b. rewrite (sl_meta _ _ Hsl) by done. done.
Qed.

Lemma appended_refl st n : store_inv st n -> appended st st n [].
Proof. intros Hi. destruct st as [s seq]. apply appended_same_log; [done..|]. destruct Hi. cbn in *. lia. Qed.

(** The commit of an append, and the counter as [restore_seq_on_error] leaves
    it. *)
Lemma commit_restored st n envs ops s' r :
  store_inv st n -> append_batch (fs_seq st) envs ops ->
  (fs_seq st + Z.of_nat (length envs) <= u64_max)%Z ->
  (forall key v, (Partition.Meta, BatchInsert (idempotency_key key) v) ∈ ops ->
    meta st !! idempotency_key key = None) ->
  commit ops (fs_ks st) = (s', r) ->
  match r with
  | Ok _ => fs_seq st = n /\
      (forall p, ks_contents s' p = apply_batch (ops_on p ops) (ks_contents (fs_ks st) p)) /\
      appended st (mkFjallEventStore s' (fs_seq st + Z.of_nat (length envs))) n envs
  | Err (Failed _) => appended st (mkFjallEventStore s' (fs_seq st)) n [] \/
      appended st (mkFjallEventStore s' (fs_seq st)) n envs
  | Err (Aborted _) => False
  end.
Proof.
  intros Hi B Hroom Hfresh Hc. pose proof Hi as [D Hr Hs]. unfold commit in Hc.
  destruct (ks_commit ops (fs_ks st)) as [s1 r1] eqn:E. injection Hc as <- <-.
  pose proof (writes_commit ops) as Hw.
  assert (Hsame : (forall p, ks_contents s1 p = ks_contents (fs_ks st) p) ->
    (ks_poisoned (fs_ks st) -> ks_poisoned s1) ->
    appended st (mkFjallEventStore s1 (fs_seq st)) n []).
  { intros Hc Hp. apply appended_same_log; [done|by split; intros; rewrite ?Hc; auto|lia]. }
  assert (Hpoison : ks_poisoned (fs_ks st) -> is_ok r1 = false /\ ks_poisoned s1 /\
    forall p, ks_contents s1 p = ks_contents (fs_ks st) p) by by apply (ks_poisoned_law _ _ _ _ _ Hw E).
  destruct Hs as [Hp|Hs].
  { destruct (Hpoison Hp) as (Hok & Hp' & Hc'). destruct r1; [done|]. left. by apply Hsame. }
  destruct (ks_write_law _ _ _ _ _ Hw E) as [[Hc Herr]|[Hok Hc]]; cycle 1.
  { destruct r1; [done|]. left. apply Hsame; [done|]. by intros (_ & ? & _)%Hpoison. }
  assert (Happ : forall seq, (0 <= seq <= n + Z.of_nat (length envs))%Z ->
    (ks_poisoned s1 \/ seq = n + Z.of_nat (length envs))%Z ->
    appended st (mkFjallEventStore s1 seq) n envs).
  { rewrite Hs in B, Hroom. intros seq Hrange Hseq.
    assert (Har : ks_contents s1 Partition.Archive = ks_contents (fs_ks st) Partition.Archive).
    { rewrite Hc. apply map_eq. intros k. apply apply_batch_frame. intros op Hop%elem_of_ops_on.
      apply (ab_tail _ _ _ B) in Hop; [|done]. inversion Hop. }
    split; cbn [fs_ks].
    - split; cbn [fs_ks fs_seq]; [|done|done]. unfold ks_durable. rewrite Har, !Hc.
      by apply appended_durable.
    - intros m Hm Hle. unfold ks_stored. rewrite Har, Hc. by eapply appended_old.
    - intros i env Hi'. unfold ks_stored. rewrite Har, Hc. by eapply appended_stored.
    - intros key v Hk. rewrite Hc.
      destruct (inserts_lookup (ops_on Partition.Meta ops) (meta st) (idempotency_key key))
        as [(w & Hin & _)|[_ ->]]; [by eapply meta_inserts|..|done].
      apply elem_of_ops_on in Hin. apply Hfresh in Hin. congruence. }
  destruct r1 as [[]|e]; cbn [result_map_err].
  - split; [done|]. split; [done|]. apply Happ; [lia|right; lia].
  - right. apply Happ; [lia|]. left. by apply Herr.
Qed.

(** ** The batches of the three appends *)

Lemma elem_of_index_ops p op keys :
  (p, op) ∈ index_ops keys <-> p = Partition.Events /\ exists k, k ∈ keys /\ op = BatchInsert k "".
Proof. unfold index_ops. rewrite list_elem_of_fmap. naive_solver. Qed.

Lemma set_index_start_spec seq s ops op :
  set_index_start_seq_if_needed seq s = Ok ops -> op ∈ ops -> op = meta_op KEY_META_INDEX_START_SEQ seq.
Proof.
  unfold set_index_start_seq_if_needed. intros Ho Hin. inv_bind.
  case_match; [by apply elem_of_nil in Hin|]. by apply list_elem_of_singleton in Hin.
Qed.

Lemma index_start_ops_spec keys seq s ops :
  index_start_ops keys seq s = Ok ops ->
  forall op, op ∈ ops -> op = meta_op KEY_META_INDEX_START_SEQ seq.
Proof.
  unfold index_start_ops. intros Ho op Hin.
  destruct keys; [by injection Ho as <-; apply elem_of_nil in Hin|]. by eapply set_index_start_spec.
Qed.

(** The events part of a batch and the rest. *)
Lemma build_append_batch b envs evops rest :
  log_batch b envs evops -> (forall p op, (p, op) ∈ evops -> p = Partition.Events) ->
  (forall i env, envs !! i = Some env -> ee_event_id env = (b + 1 + Z.of_nat i)%Z) ->
  (forall op, op ∈ rest -> tail_op b envs op) ->
  (envs <> [] -> meta_op KEY_META_SEQ (b + Z.of_nat (length envs)) ∈ rest) ->
  (forall key v, (Partition.Meta, BatchInsert (idempotency_key key) v) ∈ rest ->
    exists w, (Partition.Meta, BatchInsert (queue_materialization_key key) w) ∈ rest) ->
  append_batch b envs (evops ++ rest).
Proof.
  intros L Hev Hids Htail Hseq Hmat.
  assert (Hevents : forall op, (Partition.Events, op) ∈ evops ++ rest -> (Partition.Events, op) ∈ evops).
  { intros op [Hin|Hin]%elem_of_app; [done|]. apply Htail in Hin. inversion Hin. }
  split.
  - done.
  - split.
    + intros op Hin%Hevents. by apply (lb_only _ _ _ L).
    + intros i env Hi. destruct (lb_log _ _ _ L _ _ Hi) as (v & Hv). exists v. apply elem_of_app. by left.
    + intros i env k Hi Hk. apply elem_of_app. left. by apply (lb_index _ _ _ L _ _ _ Hi).
  - intros p op [Hin|Hin]%elem_of_app Hne; [by destruct Hne; eapply Hev|by apply Htail].
  - intros Hne. apply elem_of_app. right. by apply Hseq.
  - intros key v [Hin|Hin]%elem_of_app; [by apply Hev in Hin|].
    destruct (Hmat _ _ Hin) as (w & Hw). exists w. apply elem_of_app. by right.
Qed.

(** One event: what [append] and [append_and_enqueue] write to the log. *)
Lemma single_log_batch b env value :
  to_vec env = Ok value ->
  log_batch b [env] ([log_op (b + 1) value] ++ index_ops (make_index_keys (ee_event env) (b + 1))).
Proof.
  intros Hv. apply json_roundtrip in Hv. split.
  - intros op Hin. exists 0, env. split; [done|]. cbn [Z.of_nat]. rewrite Z.add_0_r.
    apply elem_of_app in Hin as [Hin|Hin].
    + apply list_elem_of_singleton in Hin. injection Hin as ->. left. eauto.
    + apply elem_of_index_ops in Hin as (_ & k & Hk & ->). right. eauto.
  - intros [|i] env' Hi; [|done]. injection Hi as <-. cbn [Z.of_nat]. rewrite Z.add_0_r.
    exists value. apply elem_of_app. left. by left.
  - intros [|i] env' k Hi Hk; [|done]. injection Hi as <-. cbn [Z.of_nat] in Hk. rewrite Z.add_0_r in Hk.
    apply elem_of_app. right. apply elem_of_index_ops. eauto.
Qed.

(** [append] and [append_and_enqueue] up to what they write behind the log. *)
Definition single_body (event : Event) (key : option string) (tail : Z -> KsOps)
    : SM FjallEventStore StoreFault EventId :=
  let! event_id := next_event_id in
  let! value := sm_lift (encode_value (build_event_envelope event event_id key)) in
  let index_keys := make_index_keys event event_id in
  let! start_ops := read_ks (index_start_ops index_keys event_id) in
  let! _ := on_ks (commit
    ([log_op event_id value] ++ index_ops index_keys ++ start_ops ++ tail event_id)) in
  sm_ret event_id.

Lemma next_event_id_ok st :
  (0 <= fs_seq st < u64_max)%Z ->
  next_event_id st = (mkFjallEventStore (fs_ks st) (fs_seq st + 1), Ok (fs_seq st + 1)%Z).
Proof.
  intros Hr. unfold next_event_id. destruct st as [s seq]; cbn in *.
  rewrite (proj2 (Z.ltb_lt _ _)) by lia. by rewrite Z.mod_small by lia.
Qed.

(** The outcome of appending one event under the next number; [tail] is what is
    written behind the log. *)
Definition single_outcome (event : Event) (key : option string) (tail : Z -> KsOps)
    (st : FjallEventStore) (n : Z) (st' : FjallEventStore) (r : Result EventId StoreFault) : Prop :=
  let env := build_event_envelope event (fs_seq st + 1) key in
  match r with
  | Ok id => fs_seq st = n /\ id = (n + 1)%Z /\ appended st st' n [env] /\
      (forall p, p <> Partition.Events -> p <> Partition.Meta ->
        ks_contents (fs_ks st') p = apply_batch (ops_on p (tail id)) (ks_contents (fs_ks st) p)) /\
      (forall k, key = Some k -> meta st' !! idempotency_key k = Some (to_be_bytes id))
  | Err _ => appended st st' n [] \/ appended st st' n [env]
  end.

(** What [tail] must be like. *)
Record good_tail (b : Z) (key : option string) (env : EventEnvelope) (tail : KsOps) : Prop := mkGoodTail {
  gt_ops : forall op, op ∈ tail -> tail_op b [env] op;
  gt_seq : meta_op KEY_META_SEQ (b + 1) ∈ tail;
  gt_idem : forall k, key = Some k ->
    meta_op (idempotency_key k) (b + 1) ∈ tail /\ meta_op (queue_materialization_key k) (b + 1) ∈ tail
}.

Lemma single_append_batch st event key value start_ops tail :
  is_u64 (fs_seq st + 1) ->
  let env := build_event_envelope event (fs_seq st + 1) key in
  to_vec env = Ok value -> good_tail (fs_seq st) key env tail ->
  (forall op, op ∈ start_ops -> op = meta_op KEY_META_INDEX_START_SEQ (fs_seq st + 1)) ->
  append_batch (fs_seq st) [env]
    ([log_op (fs_seq st + 1) value] ++ index_ops (make_index_keys event (fs_seq st + 1))
     ++ start_ops ++ tail).
Proof.
  intros Hu env Hv T Hspec. rewrite app_assoc. apply build_append_batch.
  - by apply single_log_batch.
  - intros p op [Hin|Hin]%elem_of_app.
    + apply list_elem_of_singleton in Hin. by injection Hin.
    + by apply elem_of_index_ops in Hin as [-> _].
  - intros [|i] env' Hi'; [|done]. injection Hi' as <-. cbn. lia.
  - intros op [->%Hspec|Hin]%elem_of_app; [by apply tail_start|by apply T].
  - intros _. apply elem_of_app. right. apply T.
  - intros k v [Hin%Hspec|Hin]%elem_of_app; [by injection Hin|].
    pose proof (gt_ops _ _ _ _ T _ Hin) as Ht.
    inversion Ht as [| | | |k' i env' Hi' Hk Heq| |]; try done. apply append_inj_l in Heq as ->.
    destruct i; [|done]. injection Hi' as <-.
    destruct (gt_idem _ _ _ _ T k Hk) as [_ Hm]. eexists. apply elem_of_app. right. exact Hm.
Qed.

Lemma ops_on_tail p value seq event start_ops tail :
  p <> Partition.Events -> p <> Partition.Meta ->
  (forall op, op ∈ start_ops -> op = meta_op KEY_META_INDEX_START_SEQ seq) ->
  ops_on p ([log_op seq value] ++ index_ops (make_index_keys event seq) ++ start_ops ++ tail)
  = ops_on p tail.
Proof.
  intros He Hm Hs. rewrite !ops_on_app.
  rewrite (elem_of_nil_inv (ops_on p [log_op seq value])), (elem_of_nil_inv (ops_on p (index_ops _))),
    (elem_of_nil_inv (ops_on p start_ops)); [done|..].
  - intros op Hin%elem_of_ops_on%Hs. by injection Hin.
  - intros op [-> _]%elem_of_ops_on%elem_of_index_ops. done.
  - intros op Hin%elem_of_ops_on%list_elem_of_singleton. by injection Hin.
Qed.

Lemma single_append_post event key tail st n :
  store_inv st n -> (fs_seq st < u64_max)%Z ->
  good_tail (fs_seq st) key (build_event_envelope event (fs_seq st + 1) key) (tail (fs_seq st + 1)%Z) ->
  (forall k, key = Some k -> meta st !! idempotency_key k = None) ->
  sm_post (restore_seq_on_error (single_body event key tail)) st (single_outcome event key tail st n).
Proof.
  intros Hi Hroom T Hkey. pose proof (si_range _ _ Hi) as Hr.
  unfold sm_post, restore_seq_on_error, single_body, sm_bind, sm_lift, sm_ret, read_ks, on_ks.
  rewrite next_event_id_ok by lia. cbn beta iota. cbn [fs_ks].
  assert (Hst : forall seq, mkFjallEventStore (fs_ks st) seq <| fs_seq := fs_seq st |> = st)
    by (by destruct st).
  unfold encode_value.
  destruct (to_vec (build_event_envelope _ _ _)) as [value|e] eqn:Hv; cbn [result_map_err]; cycle 1.
  { cbn [fst snd]. rewrite Hst. left. by apply appended_refl. }
  destruct (index_start_ops _ _ _) as [start_ops|f] eqn:Hstart; cbn beta iota; cycle 1.
  { destruct f; cbn [fst snd]; [rewrite Hst; left; by apply appended_refl|].
    unfold index_start_ops, set_index_start_seq_if_needed, get_key in Hstart.
    destruct (make_index_keys _ _); [done|]. by destruct (ks_get _ _ _) as [[]|]. }
  pose proof (index_start_ops_spec _ _ _ _ Hstart) as Hspec.
  pose proof (single_append_batch st event key value start_ops (tail (fs_seq st + 1)%Z)
    ltac:(unfold is_u64; lia) Hv T Hspec) as B.
  set (ops := _ ++ _) in *. set (env := build_event_envelope _ _ _) in *.
  assert (Hmeta : forall k v, (Partition.Meta, BatchInsert (idempotency_key k) v) ∈ ops ->
    key = Some k /\ v = to_be_bytes (fs_seq st + 1)).
  { intros k v Hin. apply (ab_tail _ _ _ B) in Hin; [|done].
    inversion Hin as [| | | |k' i env' Hi' Hk Heq| |]; try done. apply append_inj_l in Heq as ->.
    destruct i; [|done]. injection Hi' as <-. change (Z.of_nat 0) with 0%Z. by rewrite Z.add_0_r. }
  destruct (commit ops (fs_ks st)) as [s' r] eqn:Hc.
  pose proof (commit_restored _ _ _ _ s' r Hi B) as Hres. cbn [length Z.of_nat] in Hres.
  specialize (Hres ltac:(lia) ltac:(by intros k v [? _]%Hmeta; apply Hkey) Hc).
  destruct r as [[]|[e|p]]; cbn [fst snd]; [|done|done].
  destruct Hres as (Hn & Hcont & Happ). unfold single_outcome. split_and!; [done|lia|done|..].
  - intros p Hp Hp'. cbn [fs_ks]. rewrite Hcont. unfold ops. by rewrite ops_on_tail.
  - intros k Hk. cbn [fs_ks]. rewrite Hcont.
    destruct (inserts_lookup (ops_on Partition.Meta ops) (meta st) (idempotency_key k))
      as [(w & Hw & ->)|[Hno _]]; [by eapply meta_inserts|..].
    + by apply elem_of_ops_on, Hmeta in Hw as [_ ->].
    + destruct (Hno (to_be_bytes (fs_seq st + 1))). apply elem_of_ops_on. unfold ops.
      rewrite !elem_of_app. right. right. right. by apply (gt_idem _ _ _ _ T).
Qed.

(** ** The three appends *)

Lemma appended_seq st st' n new seq :
  appended st st' n new -> (fs_seq st' <= seq <= n + Z.of_nat (length new))%Z ->
  appended st (mkFjallEventStore (fs_ks st') seq) n new.
Proof.
  intros [[D Hr Hs] Ho Hn Hk] Hle. split; [|done..]. split; cbn [fs_ks fs_seq]; [done|lia|].
  destruct Hs as [?|Hs]; [by left|right; lia].
Qed.

(** An idempotency key points to an event that was appended with it. *)
Lemma check_idempotency_spec key st n :
  store_inv st n ->
  match check_idempotency key (fs_ks st) with
  | Ok (Some id) => exists k env, key = Some k /\ (1 <= id <= n)%Z /\
      meta st !! idempotency_key k = Some (to_be_bytes id) /\
      ks_stored (fs_ks st) id = Some env /\ ee_idempotency_key env = key
  | Ok None => forall k, key = Some k -> meta st !! idempotency_key k = None
  | Err (Failed _) => True
  | Err (Aborted _) => False
  end.
Proof.
  intros [D _ _]. unfold check_idempotency. destruct key as [k|]; [|done].
  unfold get_key. destruct (ks_get _ _ _) as [v|e] eqn:Hg; cbn [result_map_err result_bind]; [|done].
  apply ks_get_law in Hg. destruct v as [b|]; [|intros k' [= <-]; done].
  symmetry in Hg. destruct (du_idem _ _ _ _ D _ _ Hg) as (id & env & -> & Hid & Hs & Hk).
  pose proof (du_range _ _ _ _ D) as Hn. unfold is_u64 in Hn.
  rewrite from_to_be_bytes by (unfold is_u64; lia). exists k, env. done.
Qed.

Definition append_tail (id : Z) : KsOps := [meta_op KEY_META_SEQ id].

Lemma append_event_post event st n :
  store_inv st n -> (fs_seq st < u64_max)%Z ->
  sm_post (append_event_inner_locked event None) st (single_outcome event None append_tail st n).
Proof.
  intros Hi Hroom. apply (single_append_post event None append_tail); [done..| |done].
  split; [|left|done]. intros op ->%list_elem_of_singleton. apply (tail_seq _ [_]).
Qed.

(** What [append_and_enqueue] reports: the number of the event that was
    appended with the key, without any write, or of the one it appends together
    with the queue row. *)
Definition enqueue_tail (queue item_id : string) (key : option string) (id : Z) : KsOps :=
  [meta_op KEY_META_SEQ id; (Partition.Queue, BatchInsert (queue_key queue id) item_id)]
  ++ match key with
     | Some key => [meta_op (idempotency_key key) id; meta_op (queue_materialization_key key) id]
     | None => []
     end.

Definition enqueue_outcome (event : Event) (queue item_id : string) (key : option string)
    (st : FjallEventStore) (n : Z) (st' : FjallEventStore) (r : Result EventId StoreFault) : Prop :=
  (exists id k env, r = Ok id /\ key = Some k /\ (1 <= id <= n)%Z /\ fs_ks st' = fs_ks st /\
     appended st st' n [] /\ meta st !! idempotency_key k = Some (to_be_bytes id) /\
     ks_stored (fs_ks st) id = Some env /\ ee_idempotency_key env = key) \/
  (is_ok r = false /\ st' = st) \/
  ((forall k, key = Some k -> meta st !! idempotency_key k = None) /\
   single_outcome event key (enqueue_tail queue item_id key) st n st' r).

Lemma append_and_enqueue_post event queue item_id key st n :
  store_inv st n -> (fs_seq st < u64_max)%Z ->
  sm_post (append_and_enqueue_inner_locked event queue item_id key) st
    (enqueue_outcome event queue item_id key st n).
Proof.
  intros Hi Hroom. pose proof (check_idempotency_spec key st n Hi) as Hidem.
  unfold append_and_enqueue_inner_locked, sm_post, sm_bind, read_ks.
  destruct (check_idempotency key (fs_ks st)) as [[id|]|e]; cbn [fst snd].
  - destruct Hidem as (k & env & -> & Hid & Hm & Hs & Hke). unfold rematerialize, sm_bind, read_ks.
    unfold queue_materialized, get_key.
    destruct (ks_get _ _ _) as [v|e] eqn:Hg; cbn [result_map_err result_bind]; [|by right; left].
    apply ks_get_law in Hg.
    destruct (du_materialized _ _ _ _ (si_durable _ _ Hi) _ _ Hm) as [w Hw].
    assert (v = Some w) as -> by (by rewrite Hg). unfold fetch_max, sm_ret; cbn [fst snd].
    left. exists id, k, env. split_and!; try done; try lia.
    apply (appended_seq _ _ _ _ _ (appended_refl _ _ Hi)). destruct Hi. cbn [length]. lia.
  - right. right. split; [done|].
    apply (single_append_post event key (enqueue_tail queue item_id key)); [done..| |done].
    split; [|by left|].
    + unfold enqueue_tail. intros op. rewrite elem_of_app, !elem_of_cons, elem_of_nil.
      intros [[->|[->|[]]]|Hin]; [apply (tail_seq _ [_])|apply tail_queue|].
      destruct key as [k|]; [|by apply elem_of_nil in Hin].
      apply elem_of_cons in Hin as [->|Hin]; [|apply list_elem_of_singleton in Hin as ->; apply tail_materialized].
      rewrite <-(Z.add_0_r (fs_seq st + 1)) at 2. by eapply (tail_idem _ _ k 0).
    + intros k ->. unfold enqueue_tail. rewrite !elem_of_app, !elem_of_cons. auto 10.
  - right. by left.
Qed.

(** *** [append_atomic] *)

Fixpoint number_envs (b : Z) (events : list Event) : list EventEnvelope :=
  match events with
  | [] => []
  | event :: events => build_event_envelope event (b + 1) None :: number_envs (b + 1) events
  end.

Lemma length_number_envs b events : length (number_envs b events) = length events.
Proof. revert b. induction events as [|event events IH]; intros b; cbn; [done|]. by rewrite IH. Qed.

Lemma number_envs_id b events i env :
  number_envs b events !! i = Some env ->
  ee_event_id env = (b + 1 + Z.of_nat i)%Z /\ ee_idempotency_key env = None /\
  events !! i = Some (ee_event env).
Proof.
  revert b i. induction events as [|event events IH]; intros b [|i]; cbn [number_envs lookup list_lookup]; [done..| |].
  - intros [= <-]. cbn. split; [lia|done].
  - intros Hi. apply IH in Hi as [-> Hi]. split; [lia|done].
Qed.

Lemma log_batch_cons b env value envs ops :
  to_vec env = Ok value -> log_batch (b + 1) envs ops ->
  log_batch b (env :: envs)
    (log_op (b + 1) value :: index_ops (make_index_keys (ee_event env) (b + 1)) ++ ops).
Proof.
  intros Hv L. destruct (single_log_batch b env value Hv) as [Ho Hl Hx].
  assert (Hshift : forall i, (b + 1 + 1 + Z.of_nat i = b + 1 + Z.of_nat (S i))%Z) by lia.
  split.
  - intros op Hin. rewrite app_comm_cons in Hin. apply elem_of_app in Hin as [Hin|Hin].
    + destruct (Ho op Hin) as ([|i] & env' & Hi & Hor); [|done]. by exists 0, env'.
    + destruct (lb_only _ _ _ L _ Hin) as (i & env' & Hi & Hor). rewrite Hshift in Hor. by exists (S i), env'.
  - intros [|i] env' Hi; rewrite app_comm_cons.
    + destruct (Hl 0 env' Hi) as (v & Hin). exists v. apply elem_of_app. by left.
    + rewrite <-Hshift. destruct (lb_log _ _ _ L i env' Hi) as (v & Hin). exists v. apply elem_of_app. by right.
  - intros [|i] env' k Hi Hk; rewrite app_comm_cons; apply elem_of_app.
    + left. by apply (Hx 0 env').
    + right. rewrite <-Hshift in Hk. by eapply (lb_index _ _ _ L i env').
Qed.

Lemma atomic_loop_spec events st :
  (0 <= fs_seq st)%Z -> (fs_seq st + Z.of_nat (length events) <= u64_max)%Z ->
  let envs := number_envs (fs_seq st) events in
  match atomic_loop events st with
  | (st', Ok (ids, first, ops)) =>
      st' = mkFjallEventStore (fs_ks st) (fs_seq st + Z.of_nat (length events)) /\
      ids = ee_event_id <$> envs /\ log_batch (fs_seq st) envs ops /\
      (forall p op, (p, op) ∈ ops -> p = Partition.Events) /\ (forall i, first = Some i -> is_u64 i)
  | (st', Err (Failed _)) => fs_ks st' = fs_ks st
  | (_, Err (Aborted _)) => False
  end.
Proof.
  revert st. induction events as [|event events IH]; intros st H0' Hroom; cbn [atomic_loop number_envs].
  - cbn. split_and!; [destruct st; cbn; f_equal; lia|done|..].
    + split; [|done..]. intros op Hin. by apply elem_of_nil in Hin.
    + intros p op Hin. by apply elem_of_nil in Hin.
    + done.
  - cbn [length] in Hroom. unfold sm_bind at 1. rewrite next_event_id_ok by lia. cbn beta iota.
    unfold sm_bind at 1, sm_lift, encode_value.
    destruct (to_vec _) as [value|e] eqn:Hv; cbn [result_map_err]; [|done].
    set (st1 := mkFjallEventStore (fs_ks st) (fs_seq st + 1)).
    specialize (IH st1 ltac:(cbn; lia) ltac:(cbn; lia)). unfold sm_bind. cbn [fs_seq fs_ks st1] in IH.
    destruct (atomic_loop events st1) as [st2 [[[ids first] ops]|[e|p]]]; [|done|done].
    destruct IH as (-> & -> & L & Hev & Hfirst). cbn [sm_ret]. split_and!.
    + f_equal. cbn [length]. lia.
    + done.
    + by apply log_batch_cons.
    + intros p op. rewrite elem_of_cons, elem_of_app. intros [Hin|[Hin|Hin]].
      * by injection Hin.
      * by apply elem_of_index_ops in Hin as [-> _].
      * by eapply Hev.
    + intros i. destruct (make_index_keys _ _); [apply Hfirst|]. intros [= <-]. unfold is_u64. lia.
Qed.

Lemma stage_updates_views clocks views s ops :
  stage_updates clocks views s = Ok ops -> Forall (fun op => op.1 = Partition.Views) ops.
Proof. unfold stage_updates. intros Hs. inv_bind. case_match. by eapply persist_views_only. Qed.

(** The outcome of appending a batch of events. *)
Definition atomic_outcome (events : list Event) (st : FjallEventStore) (n : Z)
    (st' : FjallEventStore) (r : Result (list EventId) StoreFault) : Prop :=
  let envs := number_envs (fs_seq st) events in
  match r with
  | Ok ids => ids = ee_event_id <$> envs /\ appended st st' n envs /\ (events <> [] -> fs_seq st = n)
  | Err _ => appended st st' n [] \/ appended st st' n envs
  end.

Lemma last_number_envs b events :
  events <> [] -> last (ee_event_id <$> number_envs b events) = Some (b + Z.of_nat (length events))%Z.
Proof.
  revert b. induction events as [|event events IH]; intros b Hne; [done|]. cbn [number_envs fmap list_fmap].
  destruct events as [|event' events]; [cbn; f_equal; lia|].
  specialize (IH (b + 1)%Z ltac:(done)). cbn [number_envs fmap list_fmap] in IH |- *. rewrite last_cons_cons, IH.
  cbn [length]. f_equal. lia.
Qed.

(** The batch of [append_atomic]. *)
Lemma atomic_append_batch b events ops start_ops (views : list ViewUpdate) view_ops :
  events <> [] -> log_batch b (number_envs b events) ops ->
  (forall p op, (p, op) ∈ ops -> p = Partition.Events) ->
  (forall op, op ∈ start_ops -> exists i, is_u64 i /\ op = meta_op KEY_META_INDEX_START_SEQ i) ->
  Forall (fun op => op.1 = Partition.Views) view_ops ->
  let final_seq := (b + Z.of_nat (length events))%Z in
  append_batch b (number_envs b events)
    (ops ++ start_ops ++ [meta_op KEY_META_SEQ final_seq]
     ++ match views with [] => [] | _ :: _ => [meta_op KEY_META_VIEWS_LAST_EVENT_ID final_seq] end
     ++ view_ops).
Proof.
  intros Hne L Hev Hstart Hview final_seq. rewrite Forall_forall in Hview.
  set (rest := start_ops ++ _).
  assert (Hrest : forall op, op ∈ rest -> tail_op b (number_envs b events) op /\
    forall key v, op <> (Partition.Meta, BatchInsert (idempotency_key key) v)).
  { intros op. unfold rest. rewrite !elem_of_app, list_elem_of_singleton.
    intros [(i & Hi & ->)%Hstart|[->|[Hin|Hin]]].
    - split; [by apply tail_start|]. done.
    - unfold final_seq. rewrite <-(length_number_envs b). split; [apply tail_seq|]. done.
    - destruct views; [by apply elem_of_nil in Hin|]. apply list_elem_of_singleton in Hin as ->.
      split; [apply tail_views|]. done.
    - apply Hview in Hin. destruct op as [p op]. cbn in Hin. subst p. split; [apply tail_view|done]. }
  apply build_append_batch; [done|done| | | |].
  - intros i env Hi. by apply number_envs_id in Hi as [-> _].
  - intros op Hin. by apply Hrest.
  - intros _. unfold rest. rewrite length_number_envs, !elem_of_app. right. left. by left.
  - intros key v Hin. apply Hrest in Hin as [_ Hno]. by destruct (Hno key v).
Qed.

Lemma append_atomic_post events clocks views st n :
  store_inv st n -> (fs_seq st + Z.of_nat (length events) <= u64_max)%Z -> Forall no_overflow views ->
  sm_post (append_atomic_inner_locked events clocks views) st (atomic_outcome events st n).
Proof.
  intros Hi Hroom Hviews. pose proof (si_range _ _ Hi) as Hr. unfold append_atomic_inner_locked.
  destruct (decide (events = [])) as [->|Hne].
  { split; [done|]. split; [by apply appended_refl|done]. }
  assert (Heq : match events with [] => sm_ret [] | _ :: _ => restore_seq_on_error (atomic_body events clocks views) end
    = restore_seq_on_error (atomic_body events clocks views)) by by destruct events.
  rewrite Heq. clear Heq. unfold sm_post, restore_seq_on_error, atomic_body, sm_bind, sm_lift.
  assert (Hst : forall st' : FjallEventStore, fs_ks st' = fs_ks st -> st' <| fs_seq := fs_seq st |> = st).
  { intros [s' q] Hq. cbn in Hq. subst s'. by destruct st. }
  pose proof (atomic_loop_spec events st ltac:(lia) Hroom) as Hloop.
  destruct (atomic_loop events st) as [st1 [[[ids first] ops]|[e|p]]]; [| |done]; cycle 1.
  { cbn [fst snd]. rewrite Hst by done. left. by apply appended_refl. }
  destruct Hloop as (-> & -> & L & Hev & Hfirst). rewrite last_number_envs by done.
  set (st1 := mkFjallEventStore _ _).
  assert (Hread : exists rs, match first with
      | Some seq => read_ks (set_index_start_seq_if_needed seq) | None => sm_ret [] end st1 = (st1, rs) /\
    match rs with
    | Ok so => forall op, op ∈ so -> exists i, is_u64 i /\ op = meta_op KEY_META_INDEX_START_SEQ i
    | Err f => no_abort (@Err unit _ f) end).
  { destruct first as [seq|]; [|eexists; split; [done|]; intros op Hin; by apply elem_of_nil in Hin].
    eexists. split; [done|]. destruct (set_index_start_seq_if_needed seq _) as [so|f] eqn:Hs.
    - intros op Hin. exists seq. split; [by apply Hfirst|by eapply set_index_start_spec].
    - unfold set_index_start_seq_if_needed, get_key in Hs. by destruct (ks_get _ _ _) as [v|]; simplify_eq/=. }
  destruct Hread as (rs & -> & Hrs). destruct rs as [start_ops|[e|p]]; [| |done]; cycle 1.
  { cbn [fst snd]. rewrite Hst by done. left. by apply appended_refl. }
  unfold read_ks, on_ks. pose proof (stage_updates_no_abort clocks views (fs_ks st1) Hviews) as Hstage.
  destruct (stage_updates clocks views _) as [view_ops|[e|p]] eqn:Hv; [| |done]; cycle 1.
  { cbn [fst snd]. rewrite Hst by done. left. by apply appended_refl. }
  pose proof (atomic_append_batch (fs_seq st) events ops start_ops views view_ops Hne L Hev Hrs
    (stage_updates_views _ _ _ _ Hv)) as B.
  set (all := _ ++ _) in *. cbn [st1 fs_ks]. destruct (commit all (fs_ks st)) as [s' r] eqn:Hc.
  assert (Hmeta : forall k v, (Partition.Meta, BatchInsert (idempotency_key k) v) ∈ all ->
    meta st !! idempotency_key k = None).
  { intros k v Hin. apply (ab_tail _ _ _ B) in Hin; [|done].
    inversion Hin as [| | | |k' i env' Hi' Hk Hq| |]; try done. apply number_envs_id in Hi' as (_ & ? & _). congruence. }
  pose proof (commit_restored _ _ _ _ s' r Hi B) as Hres. rewrite length_number_envs in Hres.
  specialize (Hres Hroom Hmeta Hc). destruct r as [[]|[e|p]]; cbn [fst snd]; [|done|done].
  destruct Hres as (Hn & _ & Happ). by split_and!.
Qed.

(** ** Archiving *)

Lemma commit_cases ops s s' r :
  commit ops s = (s', r) ->
  (ks_poisoned s -> ks_poisoned s') /\
  ((forall p, ks_contents s' p = apply_batch (ops_on p ops) (ks_contents s p)) \/
   (is_ok r = false /\ forall p, ks_contents s' p = ks_contents s p)).
Proof.
  unfold commit. destruct (ks_commit ops s) as [s1 r1] eqn:E. intros [= <- <-].
  pose proof (writes_commit ops) as Hw. split.
  - intros Hp. by destruct (ks_poisoned_law _ _ _ _ _ Hw E Hp) as (_ & ? & _).
  - destruct (ks_write_law _ _ _ _ _ Hw E) as [[Hc _]|[Hr Hc]]; [by left|]. right. by destruct r1.
Qed.

(** The scan of the log: the entries up to the first one behind the cutoff. *)
Lemma archive_log_spec cutoff l rest ops k :
  (forall kv, kv ∈ l -> exists m, parse_seq_from_log_key kv.1 = Some m) ->
  (rest = [] \/ exists e more, rest = Err e :: more) ->
  archive_log cutoff ((Ok <$> l) ++ rest) = Ok (ops, k) ->
  exists l1 l2, l = l1 ++ l2 /\ k = Z.of_nat (length l1) /\
    (forall kv, kv ∈ l1 -> exists m, parse_seq_from_log_key kv.1 = Some m /\ (m <= cutoff)%Z) /\
    (forall p op, (p, op) ∈ ops <-> exists kv m, kv ∈ l1 /\ parse_seq_from_log_key kv.1 = Some m /\
       ((p = Partition.Archive /\ op = BatchInsert (archive_key m) kv.2) \/
        (p = Partition.Events /\ op = BatchRemove kv.1))) /\
    ((l2 = [] /\ rest = []) \/
     exists kv l3 m, l2 = kv :: l3 /\ parse_seq_from_log_key kv.1 = Some m /\ (cutoff < m)%Z).
Proof.
  revert ops k. induction l as [|[key v] l IH]; intros ops k Hl Hrest; cbn [fmap list_fmap app archive_log].
  - destruct Hrest as [->|(e & more & ->)]; [|done]. cbn. intros [= <- <-]. exists [], [].
    split_and!; [done|done|by intros ? ?%elem_of_nil| |by left].
    intros p op. rewrite elem_of_nil. split; [done|]. intros (kv & m & Hin & _). by apply elem_of_nil in Hin.
  - cbn [result_map_err result_bind]. destruct (Hl (key, v)) as [m Hm]; [left|]. cbn in Hm. rewrite Hm.
    destruct (Z.leb_spec m cutoff) as [Hle|Hlt]; cycle 1.
    { intros [= <- <-]. exists [], ((key, v) :: l).
      split_and!; [done|done|by intros ? ?%elem_of_nil| |right; by exists (key, v), l, m].
      intros p op. rewrite elem_of_nil. split; [done|]. intros (kv & m' & Hin & _). by apply elem_of_nil in Hin. }
    destruct (archive_log cutoff _) as [[ops' k']|] eqn:E; cbn [result_bind]; [|done].
    intros [= <- <-].
    destruct (IH ops' k') as (l1 & l2 & -> & -> & Hl1 & Hops & Hl2); [|done|done|].
    { intros kv Hin. apply Hl. by right. }
    exists ((key, v) :: l1), l2. split_and!; [done|cbn [length]; lia| | |done].
    + intros kv [->|Hin]%elem_of_cons; [by exists m|by apply Hl1].
    + intros p op. rewrite !elem_of_cons, Hops. split.
      * intros [[= -> ->]|[[= -> ->]|(kv & m' & Hin & Hp & Hor)]].
        -- exists (key, v), m. split; [left|]. auto.
        -- exists (key, v), m. split; [left|]. auto.
        -- exists kv, m'. split; [by right|done].
      * intros (kv & m' & [->|Hin]%elem_of_cons & Hp & Hor); cbn in *.
        -- assert (m' = m) as -> by congruence. naive_solver.
        -- right. right. by exists kv, m'.
Qed.

Lemma archive_indexes_spec cutoff l rest ops :
  (rest = [] \/ exists e more, rest = Err e :: more) ->
  archive_indexes cutoff ((Ok <$> l) ++ rest) = Ok ops ->
  rest = [] /\ forall p op, (p, op) ∈ ops <-> exists kv m, kv ∈ l /\
    parse_seq_from_index_key kv.1 = Some m /\ (m <= cutoff)%Z /\
    p = Partition.Events /\ op = BatchRemove kv.1.
Proof.
  intros Hrest. revert ops. induction l as [|[key v] l IH]; intros ops; cbn [fmap list_fmap app archive_indexes].
  - destruct Hrest as [->|(e & more & ->)]; [|done]. cbn. intros [= <-]. split; [done|].
    intros p op. rewrite elem_of_nil. split; [done|]. intros (kv & m & Hin & _). by apply elem_of_nil in Hin.
  - cbn [result_map_err result_bind]. destruct (archive_indexes cutoff _) as [ops'|]; cbn [result_bind]; [|done].
    destruct (IH ops' eq_refl) as [-> Hops]. intros [= <-]. split; [done|]. intros p op.
    assert (Hstep : (exists kv m, kv ∈ (key, v) :: l /\ parse_seq_from_index_key kv.1 = Some m /\
      (m <= cutoff)%Z /\ p = Partition.Events /\ op = BatchRemove kv.1) <->
      (exists m, parse_seq_from_index_key key = Some m /\ (m <= cutoff)%Z /\
         (p, op) = (Partition.Events, BatchRemove key)) \/ (p, op) ∈ ops').
    { rewrite Hops. setoid_rewrite elem_of_cons. split.
      - intros (kv & m & [->|Hin] & Hp & Hle & -> & ->); [left; eauto|right; by exists kv, m].
      - intros [(m & Hp & Hle & [= -> ->])|(kv & m & Hin & ?)]; [exists (key, v), m; auto|exists kv, m; auto]. }
    rewrite Hstep. destruct (parse_seq_from_index_key key) as [m|]; [|naive_solver].
    destruct (Z.leb_spec m cutoff); [rewrite elem_of_cons|]; naive_solver lia.
Qed.

Lemma log_key_leb m m' :
  is_u64 m -> is_u64 m' -> str_leb (log_key m) (log_key m') = true -> (m <= m')%Z.
Proof.
  intros Hm Hm'. unfold str_leb, String.leb, log_key. rewrite compare_append_l, compare_fmt020 by done.
  destruct (Z.compare_spec m m'); [lia|lia|done].
Qed.

(** The entries of a scan by prefix. *)
Lemma elem_of_prefix_entries s p pre entries k v :
  entries ≡ₚ filter (fun kv => starts_with pre kv.1 = true) (map_to_list (ks_contents s p)) ->
  (k, v) ∈ entries <-> ks_contents s p !! k = Some v /\ starts_with pre k = true.
Proof. intros ->. rewrite list_elem_of_filter, elem_of_map_to_list. cbn. tauto. Qed.

Lemma log_entries s n entries :
  ks_durable s n ->
  entries ≡ₚ filter (fun kv => starts_with "log:" kv.1 = true)
    (map_to_list (ks_contents s Partition.Events)) ->
  forall kv, kv ∈ entries -> exists m, is_u64 m /\ (1 <= m <= n)%Z /\ kv.1 = log_key m /\
    ks_contents s Partition.Events !! log_key m = Some kv.2.
Proof.
  intros D Hp [k v] Hin. apply (elem_of_prefix_entries _ _ _ _ _ _ Hp) in Hin as [Hk Hpre].
  destruct (du_log _ _ _ _ D _ _ Hk Hpre) as (m & Hm & ->). exists m.
  pose proof (du_range _ _ _ _ D). unfold is_u64 in *. split; [lia|done].
Qed.

(** A complete or interrupted scan that ends behind the cutoff has seen every
    log entry up to the cutoff. *)
Lemma archive_scan_complete s n cutoff N entries l1 l2 rest m v :
  ks_durable s n ->
  entries ≡ₚ filter (fun kv => starts_with "log:" kv.1 = true)
    (map_to_list (ks_contents s Partition.Events)) ->
  StronglySorted (fun a b => key_leb a b = true) entries ->
  take N entries = l1 ++ l2 ->
  ((rest = [] /\ take N entries = entries) \/ exists (e : string) (more : list (Result (string * string) string)), rest = Err e :: more) ->
  ((l2 = [] /\ rest = []) \/
   exists kv l3 m, l2 = kv :: l3 /\ parse_seq_from_log_key kv.1 = Some m /\ (cutoff < m)%Z) ->
  is_u64 m -> (m <= cutoff)%Z -> ks_contents s Partition.Events !! log_key m = Some v ->
  (log_key m, v) ∈ l1.
Proof.
  intros D Hp Hs Htake Hrest Hend Hm Hle Hv.
  assert (Hin : (log_key m, v) ∈ entries).
  { apply (elem_of_prefix_entries _ _ _ _ _ _ Hp). split; [done|apply log_key_prefix]. }
  rewrite <-(take_drop N entries), Htake, <-app_assoc in Hin, Hs. apply elem_of_app in Hin as [Hin|Hin]; [done|].
  exfalso. destruct Hend as [[-> ->]|(kv & l3 & m' & -> & Hp' & Hlt)].
  - destruct Hrest as [[_ Hall]|(e & more & ?)]; [|done].
    assert (Hd : drop N entries = []).
    { pose proof (take_drop N entries) as Ht. rewrite Hall in Ht.
      rewrite <-(app_nil_r entries) in Ht at 3. by apply app_inv_head in Ht. }
    rewrite Hd in Hin. by apply elem_of_nil in Hin.
  - destruct (log_entries s n entries D Hp kv) as (m'' & Hu & _ & Hk & _).
    { rewrite <-(take_drop N entries), Htake. apply elem_of_app. left. apply elem_of_app. right. left. }
    rewrite Hk, parse_log_key in Hp' by done. injection Hp' as <-.
    apply StronglySorted_app_1_r in Hs. cbn [app] in Hin, Hs.
    apply elem_of_cons in Hin as [Heq|Hin].
    + assert (Hkv : kv.1 = log_key m) by by rewrite <-Heq. rewrite Hk in Hkv. apply log_key_inj in Hkv; [lia|done..].
    + inversion Hs as [|? ? _ Hall]; subst. rewrite Forall_forall in Hall. specialize (Hall _ Hin).
      unfold key_leb in Hall. cbn in Hall. rewrite Hk in Hall. apply log_key_leb in Hall; [lia|done..].
Qed.

(** What the scans of [archive_events_before] collect, when they succeed. *)
Lemma archive_log_of s n cutoff log_ops k :
  ks_durable s n -> archive_log cutoff (ks_prefix s Partition.Events "log:") = Ok (log_ops, k) ->
  forall p op, (p, op) ∈ log_ops <-> exists m v, is_u64 m /\ (m <= cutoff)%Z /\
    ks_contents s Partition.Events !! log_key m = Some v /\
    ((p = Partition.Archive /\ op = BatchInsert (archive_key m) v) \/
     (p = Partition.Events /\ op = BatchRemove (log_key m))).
Proof.
  intros D Hlog. destruct (ks_prefix_law s Partition.Events "log:") as (entries & Hy & Hp & Hs).
  destruct (yields_prefix _ _ Hy) as (N & rest & Hitems & Hrest). rewrite Hitems in Hlog.
  pose proof (log_entries s n entries D Hp) as Hent.
  assert (Hsub : forall kv, kv ∈ take N entries -> kv ∈ entries).
  { intros kv Hin. rewrite <-(take_drop N entries). apply elem_of_app. by left. }
  apply archive_log_spec in Hlog as (l1 & l2 & Htake & _ & Hl1 & Hops & Hend); cycle 1.
  { intros kv Hin%Hsub. destruct (Hent kv Hin) as (m & Hu & _ & -> & _). exists m. by apply parse_log_key. }
  { destruct Hrest as [[-> _]|?]; auto. }
  intros p op. rewrite Hops. split.
  - intros (kv & m & Hin & Hm & Hor). destruct (Hl1 kv Hin) as (m' & Hm' & Hle).
    destruct (Hent kv) as (m'' & Hu & _ & Hk & Hv); [apply Hsub; rewrite Htake; apply elem_of_app; by left|].
    rewrite Hk in Hm, Hm', Hor. rewrite parse_log_key in Hm, Hm' by done. simplify_eq. eauto 10.
  - intros (m & v & Hu & Hle & Hv & Hor). exists (log_key m, v), m.
    split_and!; [by eapply archive_scan_complete|by apply parse_log_key|done].
Qed.

Lemma archive_indexes_of s cutoff ops :
  archive_indexes cutoff (ks_prefix s Partition.Events "index:") = Ok ops ->
  forall p op, (p, op) ∈ ops <-> exists k m, is_Some (ks_contents s Partition.Events !! k) /\
    starts_with "index:" k = true /\ parse_seq_from_index_key k = Some m /\ (m <= cutoff)%Z /\
    p = Partition.Events /\ op = BatchRemove k.
Proof.
  intros Hidx. destruct (ks_prefix_law s Partition.Events "index:") as (entries & Hy & Hp & _).
  destruct (yields_prefix _ _ Hy) as (N & rest & Hitems & Hrest). rewrite Hitems in Hidx.
  apply archive_indexes_spec in Hidx as [-> Hops]; [|destruct Hrest as [[-> _]|?]; auto].
  destruct Hrest as [[_ Hall]|(e & more & ?)]; [|done]. rewrite Hall in Hops.
  intros p op. rewrite Hops. split.
  - intros ([k v] & m & Hin & Hm & Hle & -> & ->). exists k, m.
    apply (elem_of_prefix_entries _ _ _ _ _ _ Hp) in Hin as [Hv Hpre]. eauto 10.
  - intros (k & m & [v Hv] & Hpre & Hm & Hle & -> & ->). exists (k, v), m. split_and!; try done.
    by apply (elem_of_prefix_entries _ _ _ _ _ _ Hp).
Qed.

Lemma archive_batch_of s n cutoff log_ops k index_removals :
  ks_durable s n -> is_u64 cutoff -> (cutoff < u64_max)%Z ->
  archive_log cutoff (ks_prefix s Partition.Events "log:") = Ok (log_ops, k) ->
  archive_indexes cutoff (ks_prefix s Partition.Events "index:") = Ok index_removals ->
  archive_batch cutoff (ks_contents s Partition.Events)
    (log_ops ++ index_removals ++ [meta_op KEY_META_INDEX_START_SEQ (cutoff + 1)]).
Proof.
  intros D Hcut Hlt Hlog Hidx. pose proof (archive_log_of _ _ _ _ _ D Hlog) as Hops.
  pose proof (archive_indexes_of _ _ _ Hidx) as Hiops.
  assert (Hin : forall p op, (p, op) ∈ log_ops ++ index_removals ++
      [meta_op KEY_META_INDEX_START_SEQ (cutoff + 1)] <->
    (p, op) ∈ log_ops \/ (p, op) ∈ index_removals \/
    (p = Partition.Meta /\ op = BatchInsert KEY_META_INDEX_START_SEQ (to_be_bytes (cutoff + 1)))).
  { intros p op. rewrite !elem_of_app, list_elem_of_singleton. unfold meta_op.
    split; (intros [?|[?|Heq]]; [by auto..|right; right]); [by injection Heq as -> ->|by destruct Heq as [-> ->]]. }
  split.
  - intros op [Hop|[Hop|[? _]]]%Hin; [| |done].
    + apply Hops in Hop as (m & v & Hu & Hle & _ & [[? _]|[_ ->]]); [done|]. eexists. split; [done|]. left. eauto.
    + apply Hiops in Hop as (k' & m & _ & Hpre & Hm & Hle & _ & ->). exists k'. split; [done|]. right.
      split; [|eauto]. by apply starts_with_iff in Hpre as [r ->].
  - intros m v Hu Hle Hv. apply Hin. left. apply Hops. exists m, v. auto 10.
  - intros k' v m Hv Hpre Hm Hle. apply Hin. right. left. apply Hiops. exists k', m. by eauto 10.
  - intros m [Hop|[Hop|[? _]]]%Hin Hu; [| |done].
    + apply Hops in Hop as (m' & v & Hu' & Hle & Hv & [[? _]|[_ Heq]]); [done|].
      assert (Hk : log_key m = log_key m') by congruence. apply log_key_inj in Hk as <-; [|done..].
      exists v. apply Hin. left. apply Hops. exists m, v. auto 10.
    + apply Hiops in Hop as (k' & m' & _ & Hpre & _ & _ & _ & Heq).
      assert (Hk : k' = log_key m) by congruence. by rewrite Hk in Hpre.
  - intros op [Hop|[Hop|[? _]]]%Hin; [| |done].
    + apply Hops in Hop as (m & v & Hu & _ & Hv & [[_ ->]|[? _]]); [|done]. exists m, v. auto.
    + by apply Hiops in Hop as (? & ? & _ & _ & _ & _ & ? & _).
  - intros op [Hop|[Hop|[_ ->]]]%Hin.
    + by apply Hops in Hop as (? & ? & _ & _ & _ & [[? _]|[? _]]).
    + by apply Hiops in Hop as (? & ? & _ & _ & _ & _ & ? & _).
    + exists (cutoff + 1)%Z. split; [unfold is_u64 in *; lia|done].
Qed.

(** [archive_events_before]: what is stored stays, and the log proper keeps the
    events behind the cutoff. *)
Lemma archive_post cutoff st n :
  store_inv st n -> is_u64 cutoff ->
  sm_post (archive_events_before cutoff) st (fun st' r => appended st st' n [] /\
    (is_ok r = true -> forall m, is_u64 m ->
      ks_contents (fs_ks st') Partition.Events !! log_key m =
      if (m <=? cutoff)%Z then None else ks_contents (fs_ks st) Partition.Events !! log_key m)).
Proof.
  intros Hi Hcut. pose proof Hi as [D Hr Hs]. unfold archive_events_before, sm_post, sm_bind, sm_lift, sm_ret, on_ks.
  assert (Hrefl : appended st st n []) by by apply appended_refl.
  destruct (archive_log _ _) as [[log_ops k]|e] eqn:Hlog; [|by split].
  destruct (archive_indexes _ _) as [index_removals|e] eqn:Hidx; [|by split].
  destruct (Z.ltb_spec cutoff u64_max) as [Hlt|Hge]; [|by split].
  pose proof (archive_batch_of _ _ _ _ _ _ D Hcut Hlt Hlog Hidx) as B. set (ops := log_ops ++ _) in *.
  destruct (commit ops (fs_ks st)) as [s' r] eqn:Hc. apply commit_cases in Hc as [Hp Hc].
  destruct Hc as [Hc|[Hok Hc]]; cycle 1.
  { assert (Happ : appended st (st <| fs_ks := s' |>) n []).
    { destruct st as [s q]. apply appended_same_log; [done|by split; intros; rewrite ?Hc; auto|cbn in *; lia]. }
    by destruct r. }
  assert (Happ : appended st (st <| fs_ks := s' |>) n []).
  { split; cbn [length Z.of_nat]; rewrite ?Z.add_0_r.
    - split; [|done|destruct Hs; auto]. unfold ks_durable. cbn. rewrite !Hc. by eapply archived_durable.
    - intros m Hm _. unfold ks_stored. cbn. rewrite !Hc. by eapply archived_stored.
    - done.
    - intros key b Hb. cbn. rewrite Hc, apply_batch_frame; [done|]. intros op Hop%elem_of_ops_on.
      by destruct (mb_meta _ _ _ B _ Hop) as (i & _ & ->). }
  assert (Hlogs : forall m, is_u64 m -> ks_contents s' Partition.Events !! log_key m =
    if (m <=? cutoff)%Z then None else ks_contents (fs_ks st) Partition.Events !! log_key m).
  { intros m Hm. rewrite Hc. by eapply archived_log. }
  by destruct r as [[]|e].
Qed.

(** ** Forgetting idempotency keys *)

Lemma idempotency_keys_sub gone l rest keys :
  (rest = [] \/ exists e more, rest = Err e :: more) ->
  idempotency_keys_where gone ((Ok <$> l) ++ rest) = Ok keys ->
  forall k, k ∈ keys -> exists v, (k, v) ∈ l.
Proof.
  intros Hrest. revert keys. induction l as [|[key v] l IH]; intros keys;
    cbn [fmap list_fmap app idempotency_keys_where].
  - destruct Hrest as [->|(e & more & ->)]; [|done]. cbn. intros [= <-] k Hk. by apply elem_of_nil in Hk.
  - cbn [result_map_err result_bind]. destruct (idempotency_keys_where _ _) as [keys'|]; cbn [result_bind]; [|done].
    intros [= <-] k Hk.
    assert (Hk' : k = key \/ k ∈ keys').
    { repeat case_match; [apply elem_of_cons in Hk|..]; tauto. }
    destruct Hk' as [->|Hin]; [exists v; left|]. destruct (IH _ eq_refl _ Hin) as [w Hw]. exists w. by right.
Qed.

Lemma remove_idempotency_post gone st n :
  store_inv st n ->
  sm_post (remove_idempotency_keys gone) st (fun st' _ => store_inv st' n /\
    forall m, ks_stored (fs_ks st') m = ks_stored (fs_ks st) m).
Proof.
  intros Hi. pose proof Hi as [D Hr Hs]. unfold remove_idempotency_keys, sm_post, sm_bind, sm_lift, sm_ret, on_ks.
  destruct (idempotency_keys_where _ _) as [keys|e] eqn:Hk; [|by split].
  destruct keys as [|key keys']; [by split|]. set (keys := key :: keys') in *. set (ops := _ <$> keys).
  assert (Hops : forall p op, (p, op) ∈ ops -> p = Partition.Meta /\
    exists r, op = BatchRemove ("meta:idempotency:" +:+ r)).
  { intros p op Hin. apply list_elem_of_fmap in Hin as (k & [= -> ->] & Hin). split; [done|].
    destruct (ks_prefix_law (fs_ks st) Partition.Meta "meta:idempotency:") as (entries & Hy & Hp & _).
    destruct (yields_prefix _ _ Hy) as (N & rest & Hitems & Hrest). rewrite Hitems in Hk.
    assert (Hend : rest = [] \/ exists e more, rest = Err e :: more) by (destruct Hrest as [[-> _]|?]; auto).
    destruct (idempotency_keys_sub _ _ _ _ Hend Hk k Hin) as [v Hv].
    assert (Hv' : (k, v) ∈ entries) by (rewrite <-(take_drop N entries); apply elem_of_app; by left).
    apply (elem_of_prefix_entries _ _ _ _ _ _ Hp) in Hv' as [_ [r ->]%starts_with_iff]. by exists r. }
  destruct (commit ops (fs_ks st)) as [s' r] eqn:Hc. apply commit_cases in Hc as [Hp Hc].
  assert (Hgo : store_inv (st <| fs_ks := s' |>) n /\ forall m, ks_stored s' m = ks_stored (fs_ks st) m);
    [|by destruct r].
  assert (Hsame : forall p, p <> Partition.Meta -> ks_contents s' p = ks_contents (fs_ks st) p).
  { intros p Hne. destruct Hc as [Hc|[_ Hc]]; [|done]. rewrite Hc. apply map_eq. intros k.
    apply apply_batch_frame. intros op Hin%elem_of_ops_on. by apply Hops in Hin as [? _]. }
  assert (Hmeta : forall k, (ks_contents s' Partition.Meta !! k = None /\ starts_with "meta:idempotency:" k = true)
    \/ ks_contents s' Partition.Meta !! k = meta st !! k).
  { intros k. destruct Hc as [Hc|[_ Hc]]; [|right; by rewrite Hc]. rewrite Hc.
    destruct (removes_lookup (ops_on Partition.Meta ops) (meta st) k) as [[Hin ->]|[_ ->]]; [| |by right].
    - intros op Hin%elem_of_ops_on. by apply Hops in Hin as [_ [r' ->]].
    - left. split; [done|]. apply elem_of_ops_on, Hops in Hin as [_ [r' [= ->]]]. apply starts_with_app. }
  split.
  - split; [|done|destruct Hs; auto]. unfold ks_durable. cbn. rewrite !Hsame by done.
    apply (durable_meta _ _ (meta st)); [done|..].
    + by destruct (Hmeta KEY_META_SEQ) as [[_ ?]|].
    + intros k b. destruct (Hmeta (idempotency_key k)) as [[-> _]| ->]; done.
    + intros k. by destruct (Hmeta (queue_materialization_key k)) as [[_ ?]|].
    + intros b. destruct (Hmeta KEY_META_INDEX_START_SEQ) as [[_ ?]| ->]; [done|apply D].
  - intros m. unfold ks_stored. by rewrite !Hsame.
Qed.
End appending.
