(* ===== verification/LogRuns.v ===== *)
(** * Runs of the event store

    A process works on the keyspace until it crashes; the next one opens it
    again.  Proved here, over all sequences of calls, storage faults, crashes
    and restarts: stored events are permanent and numbered without gaps; an
    append takes effect wholly or not at all; an idempotent append happens
    once; archiving moves exactly what it should; a stream returns exactly the
    events of its range. *)

From Stdlib Require Import Ascii.
From S2P Require Import Prelude StrLib Types Events Keys Kv Queue Keyspace Views Recovery EventLog LogState LogSteps.

Section runs.
Context {ord : IterOrder string} `{KeyspaceLaws} `{Json TaskStatus} `{Json ReviewStatus}
  `{Json TaskView} `{Json ReviewView} `{JsonLaws EventEnvelope} `{Json QueueClaim}.

#[local] Instance queue_partition : KvStore := partition_kv Partition.Queue.

(** ** Calls *)

Inductive Process := Running (st : FjallEventStore) | Down (s : ks_state).

Definition process_ks (p : Process) : ks_state :=
  match p with Running st => fs_ks st | Down s => s end.

Inductive StoreOp :=
| SAppend (event : Event)
| SEnqueue (event : Event) (queue item_id : string) (key : option string)
| SAtomic (events : list Event) (clocks : nat -> DateTime) (views : list ViewUpdate)
| SRetain (before : EventId)
| SPrune (cutoff_seq : Z)
| SExpire (cutoff : DateTime)
| SQueue (epoch : string) (op : QueueOp)
| SCrash
| SOpen (epoch : string) (elapsed_ms : Z) (now : DateTime) (clocks : ScanClocks).

Definition result_map {A B E} (f : A -> B) (r : Result A E) : Result B E :=
  match r with Ok a => Ok (f a) | Err e => Err e end.

(** A call on a process, with the numbers it returns. *)
Definition call {A} (op : SM FjallEventStore StoreFault A) (ids : A -> list EventId) (p : Process)
    : option (Process * Result (list EventId) StoreFault) :=
  match p with
  | Running st => let '(st', r) := op st in Some (Running st', result_map ids r)
  | Down _ => None
  end.

Definition queue_call (epoch : string) (op : QueueOp) : SM FjallEventStore StoreFault unit := fun st =>
  let '(s', r) := exec_queue epoch op (fs_ks st) in
  (st <| fs_ks := s' |>, result_map (fun _ => tt) (result_map_err Failed r)).

(** [None]: the call cannot be made, because no process runs or one does. *)
Definition exec_store (op : StoreOp) (p : Process)
    : option (Process * Result (list EventId) StoreFault) :=
  match op with
  | SAppend event => call (append_event_inner_locked event None) (fun id => [id]) p
  | SEnqueue event queue item_id key =>
      call (append_and_enqueue_inner_locked event queue item_id key) (fun id => [id]) p
  | SAtomic events clocks views => call (append_atomic_inner_locked events clocks views) id p
  | SRetain before => call (retain_events before) (fun _ => []) p
  | SPrune cutoff_seq => call (prune_idempotency_keys cutoff_seq) (fun _ => []) p
  | SExpire cutoff => call (expire_idempotency_keys_inner cutoff) (fun _ => []) p
  | SQueue epoch op => call (queue_call epoch op) (fun _ => []) p
  | SCrash => match p with Running st => Some (Down (ks_reopen (fs_ks st)), Ok []) | Down _ => None end
  | SOpen epoch elapsed_ms now clocks =>
      match p with
      | Running _ => None
      | Down s =>
          let '(s', r) := open_store epoch elapsed_ms now clocks s in
          match r with
          | Ok seq => Some (Running (mkFjallEventStore s' seq), Ok [])
          | Err e => Some (Down s', Err e)
          end
      end
  end.

(** The events a call appends. *)
Definition op_events (op : StoreOp) : list Event :=
  match op with
  | SAppend event | SEnqueue event _ _ _ => [event]
  | SAtomic events _ _ => events
  | _ => []
  end.

Definition op_key (op : StoreOp) : option string :=
  match op with SEnqueue _ _ _ key => key | _ => None end.

Definition keeps_keys (op : StoreOp) : bool :=
  match op with SPrune _ | SExpire _ => false | _ => true end.

(** The arguments are in range, and there are numbers left for the events. *)
Definition op_ok (op : StoreOp) (p : Process) : Prop :=
  match p with
  | Running st => (fs_seq st + Z.of_nat (length (op_events op)) <= u64_max)%Z
  | Down _ => True
  end /\
  match op with
  | SAtomic _ _ views => Forall no_overflow views
  | SRetain before => is_u64 before
  | _ => True
  end.

Abbreviation Trace := (list (StoreOp * Result (list EventId) StoreFault)).

Inductive store_run : Process -> Trace -> Process -> Prop :=
| store_run_nil p : store_run p [] p
| store_run_cons p op p1 r tr p2 :
    op_ok op p -> exec_store op p = Some (p1, r) -> store_run p1 tr p2 ->
    store_run p ((op, r) :: tr) p2.

Lemma store_run_app p tr1 tr2 p2 :
  store_run p (tr1 ++ tr2) p2 <-> exists p1, store_run p tr1 p1 /\ store_run p1 tr2 p2.
Proof.
  revert p. induction tr1 as [|[op r] tr1 IH]; intros p; cbn [app]; split.
  - intros Hr. exists p. split; [constructor|done].
  - intros (p1 & Hr1 & Hr2). by inversion Hr1; subst.
  - intros Hr. inversion Hr as [|? ? p1 ? ? ? Hok He Hr']; subst. apply IH in Hr' as (p3 & Ha & Hb).
    exists p3. split; [by econstructor|done].
  - intros (p1 & Hr1 & Hr2). inversion Hr1 as [|? ? p3 ? ? ? Hok He Hr']; subst.
    econstructor; [done..|]. apply IH. eauto.
Qed.

(** ** The invariant of a process *)

Definition process_inv (p : Process) (n : Z) : Prop :=
  match p with Running st => store_inv st n | Down s => ks_durable s n end.

Definition process_stored (p : Process) (m : Z) : option EventEnvelope := ks_stored (process_ks p) m.

Lemma process_durable p n : process_inv p n -> ks_durable (process_ks p) n.
Proof. destruct p; [by intros []|done]. Qed.

Lemma reopen_durable s n : ks_durable s n -> ks_durable (ks_reopen s) n.
Proof. unfold ks_durable. by rewrite !ks_reopen_law. Qed.

(** Opening finds the counter: it is the last stored number. *)
Lemma load_seq_spec s n seq : ks_durable s n -> load_seq s = Ok seq -> seq = n.
Proof.
  intros D Hl. unfold load_seq, load_meta_u64, load_high_water_mark, get_key in Hl.
  pose proof (du_range _ _ _ _ D) as Hn. pose proof (du_seq _ _ _ _ D) as Hseq.
  destruct (ks_get s Partition.Meta KEY_META_SEQ) as [v|] eqn:Hg; cbn [result_map_err result_bind] in Hl; [|done].
  apply ks_get_law in Hg. rewrite <-Hg in Hseq.
  assert (Hp : match v with
    | Some bytes => match from_be_bytes bytes with
                    | Some n => Ok n
                    | None => Err (Failed (StoreError.Storage "Invalid sequence number format")) end
    | None => Ok 0%Z end = @Ok Z StoreFault n).
  { destruct v as [b|]; [|by subst n]. subst b. by rewrite from_to_be_bytes. }
  rewrite Hp in Hl. cbn [result_bind] in Hl.
  destruct (ks_prefix_last s Partition.Events "log:") as [o|] eqn:Ho; cbn [result_map_err result_bind] in Hl; [|done].
  injection Hl as <-. apply ks_prefix_last_law in Ho as (entries & -> & Hperm & _).
  destruct (last entries) as [[k b]|] eqn:Hlast; cycle 1.
  { unfold is_u64 in Hn. lia. }
  apply last_Some_elem_of in Hlast. destruct (log_entries s n entries D Hperm _ Hlast) as (m & Hu & Hm & Hk & _).
  cbn in Hk. rewrite Hk, parse_log_key by done. cbn. lia.
Qed.

(** The number a process starts with. *)
Lemma open_store_seq epoch elapsed now clocks s s' seq n :
  ks_durable s n -> open_store epoch elapsed now clocks s = (s', Ok seq) -> seq = n.
Proof.
  intros D. unfold open_store, sm_bind at 1, reads at 1. destruct (load_seq s) as [q|e] eqn:Hl; [|done].
  intros Ho. assert (Hq : Ok seq = @Ok Z StoreFault q); [|injection Hq as ->; by eapply load_seq_spec].
  revert Ho. unfold sm_bind, sm_ret.
  repeat match goal with |- context [let (_, _) := ?c in _] => destruct c as [? []] end;
    intros [= <- <-]; done.
Qed.

(** ** What one step does to the log *)

(** [kp]: the step keeps the idempotency keys. *)
Record step_effect (kp : bool) (p p' : Process) (n : Z) (new : list EventEnvelope) : Prop := mkStepEffect {
  se_inv : process_inv p' (n + Z.of_nat (length new));
  se_old : forall m, is_u64 m -> (m <= n)%Z -> process_stored p' m = process_stored p m;
  se_new : forall i env, new !! i = Some env -> process_stored p' (n + 1 + Z.of_nat i) = Some env;
  se_keys : kp = true -> forall key b,
    ks_contents (process_ks p) Partition.Meta !! idempotency_key key = Some b ->
    ks_contents (process_ks p') Partition.Meta !! idempotency_key key = Some b
}.

Lemma appended_effect kp st st' n new :
  appended st st' n new -> step_effect kp (Running st) (Running st') n new.
Proof. intros [Hi Ho Hn Hk]. by split. Qed.

Lemma same_log_effect kp p p' n :
  process_inv p' n -> same_log (process_ks p) (process_ks p') -> step_effect kp p p' n [].
Proof.
  intros Hi Hs. split; cbn [length Z.of_nat]; rewrite ?Z.add_0_r; [done| |done|].
  - intros m _ _. by apply same_log_stored.
  - intros _ key b. by rewrite (sl_meta _ _ Hs).
Qed.

(** A call with an idempotency key that finds the event of an earlier one. *)
Definition key_hit (op : StoreOp) (p : Process) (n : Z) (ids : list EventId) : Prop :=
  exists k id env, op_key op = Some k /\ ids = [id] /\ (1 <= id <= n)%Z /\
    process_stored p id = Some env /\ ee_idempotency_key env = Some k.

Definition step_outcome (op : StoreOp) (p : Process) (n : Z) (new : list EventEnvelope)
    (r : Result (list EventId) StoreFault) : Prop :=
  Forall (fun env => ee_idempotency_key env = op_key op) new /\
  match r with
  | Ok ids => (ee_event <$> new = op_events op /\ ids = ee_event_id <$> new) \/
              (new = [] /\ key_hit op p n ids)
  | Err _ => new = [] \/ ee_event <$> new = op_events op
  end.

Lemma single_step kp event key tail st n st' r :
  single_outcome event key tail st n st' r ->
  exists new, step_effect kp (Running st) (Running st') n new /\
    Forall (fun env => ee_idempotency_key env = key) new /\
    match r with
    | Ok id => ee_event <$> new = [event] /\ [id] = ee_event_id <$> new
    | Err _ => new = [] \/ ee_event <$> new = [event]
    end.
Proof.
  unfold single_outcome. destruct r as [id|e].
  - intros (Hn & -> & Ha & _). eexists. split; [by apply appended_effect|]. split; [by repeat constructor|].
    cbn. by rewrite Hn.
  - intros [Ha|Ha]; (eexists; split; [by apply appended_effect|]); [by auto|].
    split; [by repeat constructor|by right].
Qed.

Lemma number_envs_spec b events :
  ee_event <$> number_envs b events = events /\
  Forall (fun env => ee_idempotency_key env = None) (number_envs b events).
Proof.
  revert b. induction events as [|event events IH]; intros b; cbn; [done|].
  destruct (IH (b + 1)%Z) as [-> Hall]. by split; [|constructor].
Qed.

Lemma quiet_step kp op st n p' r :
  store_inv st n -> op_events op = [] -> same_log (fs_ks st) (fs_ks p') ->
  fs_seq p' = fs_seq st -> r = Ok [] \/ is_ok r = false ->
  exists new, step_effect kp (Running st) (Running p') n new /\ step_outcome op (Running st) n new r.
Proof.
  intros Hi He Hs Hseq Hr. exists []. split.
  - apply same_log_effect; [|done]. destruct Hi as [D Hrange Hor]. split; rewrite ?Hseq; [by eapply same_log_durable|done|].
    destruct Hor as [Hp|Hor]; [left; by apply Hs|by right].
  - split; [constructor|]. destruct r; [|by left]. left. destruct Hr as [[= ->]|]; [|done]. by rewrite He.
Qed.

Lemma open_step kp epoch elapsed_ms now clocks s p' r n :
  ks_durable s n -> exec_store (SOpen epoch elapsed_ms now clocks) (Down s) = Some (p', r) ->
  step_effect kp (Down s) p' n [] /\ (r = Ok [] \/ is_ok r = false).
Proof.
  intros D He. cbn [exec_store] in He. destruct (open_store epoch elapsed_ms now clocks s) as [s' r'] eqn:Ho.
  pose proof (quiet_open epoch elapsed_ms now clocks s) as Hq. rewrite Ho in Hq. cbn [fst] in Hq.
  pose proof (same_log_durable _ _ _ Hq D) as D'.
  destruct r' as [seq|e]; injection He as <- <-; (split; [|by auto]); (apply same_log_effect; [|done]).
  - apply open_store_seq with (n := n) in Ho as ->; [|done].
    pose proof (du_range _ _ _ _ D') as [? _]. split; cbn; [done|lia|by right].
  - done.
Qed.

Lemma crash_step kp st n :
  store_inv st n -> step_effect kp (Running st) (Down (ks_reopen (fs_ks st))) n [].
Proof.
  intros [D _ _]. split; cbn [length Z.of_nat]; rewrite ?Z.add_0_r; [by apply reopen_durable| |done|].
  - intros m _ _. unfold process_stored, ks_stored. cbn [process_ks]. by rewrite !ks_reopen_law.
  - intros _ key b. cbn [process_ks]. by rewrite ks_reopen_law.
Qed.

(** A step without events, and its outcome. *)
Lemma eventless_outcome op p n (r : Result (list EventId) StoreFault) :
  op_events op = [] -> r = Ok [] \/ is_ok r = false -> step_outcome op p n [] r.
Proof. intros He [->|Hr]; (split; [constructor|]); [left; by rewrite He|destruct r; [done|by left]]. Qed.

Lemma removal_step gone st n st' r :
  store_inv st n -> remove_idempotency_keys gone st = (st', r) ->
  step_effect false (Running st) (Running st') n [].
Proof.
  intros Hi Hr. pose proof (remove_idempotency_post gone st n Hi) as Hp. unfold sm_post in Hp.
  rewrite Hr in Hp. cbn [fst] in Hp. destruct Hp as [Hi' Hs].
  split; cbn [length Z.of_nat]; rewrite ?Z.add_0_r; [done| |done|done]. intros m _ _. apply Hs.
Qed.

Lemma enqueue_step kp event queue item_id key st n st' r :
  enqueue_outcome event queue item_id key st n st' r -> store_inv st n ->
  exists new, step_effect kp (Running st) (Running st') n new /\
    step_outcome (SEnqueue event queue item_id key) (Running st) n new (result_map (fun id => [id]) r).
Proof.
  intros [(id & k & env & -> & -> & Hid & _ & Ha & _ & Hs & Hk)|[[Hf ->]|[_ Hp]]] Hi.
  - exists []. split; [by apply appended_effect|]. split; [constructor|]. right. split; [done|].
    by exists k, id, env.
  - exists []. split; [by apply appended_effect, appended_refl|]. split; [constructor|]. destruct r; [done|by left].
  - apply (single_step kp) in Hp as (new & Hs & Hall & Hr). exists new. split; [done|]. split; [done|].
    destruct r as [id|e]; [by left|done].
Qed.

Lemma atomic_step kp events clocks views st n st' r :
  atomic_outcome events st n st' r ->
  exists new, step_effect kp (Running st) (Running st') n new /\
    step_outcome (SAtomic events clocks views) (Running st) n new r.
Proof.
  intros Hp. destruct (number_envs_spec (fs_seq st) events) as [Hev Hall]. destruct r as [ids|e].
  - destruct Hp as (-> & Ha & _). eexists. split; [by apply appended_effect|]. split; [done|]. by left.
  - destruct Hp as [Ha|Ha]; (eexists; split; [by apply appended_effect|]); (split; [done|]); by auto.
Qed.

Lemma step_spec op p p' r n :
  process_inv p n -> op_ok op p -> exec_store op p = Some (p', r) ->
  exists new, step_effect (keeps_keys op) p p' n new /\ step_outcome op p n new r.
Proof.
  intros Hi [Hroom Hok] He. destruct p as [st|s]; cycle 1.
  { destruct op; try done. apply (open_step true) with (n := n) in He as [Heff Hr]; [|done].
    exists []. split; [done|]. by apply eventless_outcome. }
  cbn [process_inv] in Hi.
  destruct op as [event|event queue item_id key|events clocks views|before|cutoff|cutoff|epoch op| |];
    cbn [exec_store call op_events length] in He, Hroom; [..|done].
  - pose proof (append_event_post event st n Hi ltac:(lia)) as Hp. unfold sm_post in Hp.
    destruct (append_event_inner_locked _ _ _) as [st' r']. injection He as <- <-. cbn [fst snd] in Hp.
    apply (single_step true) in Hp as (new & Hs & Hall & Hr). exists new. split; [done|]. split; [done|].
    destruct r' as [id|e]; [by left|done].
  - pose proof (append_and_enqueue_post event queue item_id key st n Hi ltac:(lia)) as Hp. unfold sm_post in Hp.
    destruct (append_and_enqueue_inner_locked _ _ _ _ _) as [st' r']. injection He as <- <-. by apply enqueue_step.
  - pose proof (append_atomic_post events clocks views st n Hi Hroom Hok) as Hp. unfold sm_post in Hp.
    destruct (append_atomic_inner_locked _ _ _ _) as [st' r']. injection He as <- <-.
    destruct r'; by apply atomic_step.
  - pose proof (archive_post (sat_sub before 1) st n Hi) as Hp. unfold sm_post in Hp.
    unfold retain_events in He. destruct (archive_events_before _ _) as [st' r']. injection He as <- <-.
    destruct Hp as [Ha _]; [cbn in Hok; unfold is_u64, sat_sub in *; lia|]. exists [].
    split; [by apply appended_effect|]. apply eventless_outcome; [done|]. destruct r'; auto.
  - unfold prune_idempotency_keys in He. destruct (remove_idempotency_keys _ _) as [st' r'] eqn:Hr.
    injection He as <- <-. exists []. split; [by eapply removal_step|].
    apply eventless_outcome; [done|]. destruct r'; auto.
  - unfold expire_idempotency_keys_inner in He. destruct (remove_idempotency_keys _ _) as [st' r'] eqn:Hr.
    injection He as <- <-. exists []. split; [by eapply removal_step|].
    apply eventless_outcome; [done|]. destruct r'; auto.
  - unfold queue_call in He. pose proof (quiet_exec_queue epoch op (fs_ks st)) as Hq.
    change (same_log (fs_ks st) (exec_queue (H := queue_partition) epoch op (fs_ks st)).1) in Hq.
    destruct (exec_queue (H := queue_partition) epoch op (fs_ks st)) as [s' r'].
    injection He as <- <-. apply quiet_step; [done..|]. destruct r'; auto.
  - injection He as <- <-. exists []. split; [by apply crash_step|]. apply eventless_outcome; auto.
Qed.

(** ** Runs *)

Lemma run_spec p tr p' n :
  process_inv p n -> store_run p tr p' ->
  exists n', (n <= n')%Z /\ process_inv p' n' /\
    (forall m, is_u64 m -> (m <= n)%Z -> process_stored p' m = process_stored p m) /\
    ((forall op r, (op, r) ∈ tr -> keeps_keys op = true) -> forall key b,
      ks_contents (process_ks p) Partition.Meta !! idempotency_key key = Some b ->
      ks_contents (process_ks p') Partition.Meta !! idempotency_key key = Some b).
Proof.
  intros Hi Hr. revert n Hi. induction Hr as [p|p op p1 r tr p2 Hok He Hr IH]; intros n Hi.
  { exists n. split_and!; try done. }
  destruct (step_spec _ _ _ _ _ Hi Hok He) as (new & [Hi1 Hold _ Hkeys] & _).
  destruct (IH _ Hi1) as (n' & Hle & Hi2 & Hold2 & Hkeys2). exists n'. split_and!; [lia|done|..].
  - intros m Hm Hmn. rewrite Hold2, Hold; [done..|lia].
  - intros Hall key b Hb. apply Hkeys2; [intros op' r' Hin; apply (Hall op' r'); by right|].
    apply Hkeys; [apply (Hall op r); left|done].
Qed.

(** The store holds exactly the events 1 to [n], under their numbers. *)
Definition holds_log (p : Process) (n : Z) : Prop :=
  (forall m, (1 <= m <= n)%Z -> exists env, process_stored p m = Some env /\ ee_event_id env = m) /\
  (forall m, is_u64 m -> ~ (1 <= m <= n)%Z -> process_stored p m = None).

Lemma durable_zero ev ar me n : durable ev ar me n -> stored ev ar 0 = None.
Proof.
  intros D. pose proof (du_range _ _ _ _ D). unfold stored.
  destruct (ev !! log_key 0) as [v|] eqn:E.
  { destruct (du_log _ _ _ _ D _ _ E (log_key_prefix 0)) as (m' & Hm' & Heq).
    apply log_key_inj in Heq; [lia|done|unfold is_u64 in *; lia]. }
  destruct (ar !! archive_key 0) as [v|] eqn:E'; [|done].
  destruct (du_archive _ _ _ _ D _ _ E') as (m' & Hm' & Heq).
  apply archive_key_inj in Heq; [lia|done|unfold is_u64 in *; lia].
Qed.

Lemma process_holds_log p n : process_inv p n -> holds_log p n.
Proof.
  intros D%process_durable. split; [apply (du_stored _ _ _ _ D)|].
  intros m Hm Hno. unfold process_stored, ks_stored.
  destruct (decide (m = 0)%Z) as [->|Hne]; [by eapply durable_zero|].
  destruct (durable_fresh _ _ _ _ m D Hm) as [He Ha]; [unfold is_u64 in Hm; lia|].
  unfold stored. by rewrite He, Ha.
Qed.

Definition empty_ks (s : ks_state) : Prop := forall p, ks_contents s p = ∅.

Lemma empty_inv s : empty_ks s -> process_inv (Down s) 0.
Proof. intros He. cbn. unfold ks_durable. rewrite !He. apply durable_empty. Qed.

(** ** Streams *)

Lemma stream_loop_spec s n start k :
  ks_durable s n -> (1 <= start)%Z -> (start + Z.of_nat k - 1 <= n)%Z ->
  match stream_loop s start k with
  | Ok l => l.*2 = seqZ start (Z.of_nat k) /\
      forall event m, (event, m) ∈ l -> exists env, ks_stored s m = Some env /\ ee_event env = event
  | Err (Failed (StoreError.Storage _)) => True
  | Err _ => False
  end.
Proof.
  intros D. revert start. induction k as [|k IH]; intros start Hs Hk; cbn [stream_loop].
  { split; [done|]. intros event m Hin. by apply elem_of_nil in Hin. }
  destruct (du_stored _ _ _ _ D start) as (env & Henv & Hid); [lia|].
  unfold get_key. destruct (ks_get s Partition.Events _) as [hot|] eqn:Hh; cbn [result_map_err result_bind]; [|done].
  apply ks_get_law in Hh.
  assert (Hfound : match (match hot with Some b => Ok (Some b) | None =>
      result_map_err storage (ks_get s Partition.Archive (archive_key start)) end) with
    | Ok o => exists b, o = Some b /\ from_slice b = Ok env
    | Err (Failed (StoreError.Storage _)) => True | Err _ => False end).
  { unfold stored in Henv. rewrite <-Hh in Henv. destruct hot as [b|].
    - exists b. split; [done|]. unfold envelope_of in Henv. destruct (from_slice b); congruence.
    - destruct (ks_get s Partition.Archive _) as [o|] eqn:Ha; cbn [result_map_err]; [|done].
      apply ks_get_law in Ha. rewrite <-Ha in Henv. destruct o as [b|]; [|done]. exists b. split; [done|].
      cbn in Henv. unfold envelope_of in Henv. destruct (from_slice b); congruence. }
  destruct (match hot with Some b => Ok (Some b) | None => _ end) as [o|[e|]]; cbn [result_bind]; [|by destruct e|done].
  destruct Hfound as (b & -> & Hb). unfold decode_value. rewrite Hb. cbn [result_map_err result_bind].
  specialize (IH (start + 1)%Z ltac:(lia) ltac:(lia)).
  destruct (stream_loop s (start + 1) k) as [rest|[e|]]; cbn [result_bind]; [|done|done].
  destruct IH as [Hnum Hall]. split.
  - rewrite seqZ_cons by lia. cbn [app]. rewrite fmap_cons. cbn [snd]. rewrite Hid, Hnum. f_equal. f_equal; lia.
  - intros event m [Heq|Hin]%elem_of_cons; [|by apply Hall]. injection Heq as -> ->. exists env.
    rewrite Hid. done.
Qed.

(** What a stream returns on a store that satisfies the invariant. *)
Lemma stream_spec (st : FjallEventStore) (n : Z) (since : option EventId) (limit : Z) :
  store_inv st n -> (forall id, since = Some id -> (0 <= id)%Z) -> (0 <= limit)%Z ->
  let start := match since with Some id => (id + 1)%Z | None => 1%Z end in
  match stream since limit st with
  | Ok l => l.*2 = seqZ start (Z.min limit (fs_seq st + 1 - start)) /\
      forall event m, (event, m) ∈ l ->
        exists env, ks_stored (fs_ks st) m = Some env /\ ee_event env = event
  | Err (Failed (StoreError.Storage _)) => True
  | Err (Failed _) => False
  | Err (Aborted _) => (u64_max < start + limit)%Z \/ fs_seq st = u64_max
  end.
Proof.
  intros Hi Hsince Hlimit start.
  pose proof Hi as [D Hrange _]. pose proof (du_range _ _ _ _ D) as Hn. unfold is_u64 in *.
  assert (Hstart : (1 <= start)%Z) by (unfold start; destruct since as [id|]; [specialize (Hsince id eq_refl)|]; lia).
  unfold stream, checked_add, get_current_seq. fold start.
  assert (Hs : match since with
    | Some id => if (id + 1 <=? u64_max)%Z then Ok (id + 1)%Z
                 else Err (Aborted (mkPanic "attempt to add with overflow"))
    | None => Ok 1%Z end = if (start <=? u64_max)%Z then Ok start
      else Err (Aborted (mkPanic "attempt to add with overflow"))) by by destruct since.
  rewrite Hs. destruct (Z.leb_spec start u64_max); cbn [result_bind]; [|left; lia].
  destruct (Z.ltb_spec (fs_seq st) start) as [Hlt|Hge].
  { split; [|intros ? ? Hin; by apply elem_of_nil in Hin].
    symmetry. apply nil_length_inv. rewrite length_seqZ. lia. }
  destruct (Z.leb_spec (start + limit) u64_max) as [Hl|Hl]; cbn [result_bind]; [|by left].
  destruct (Z.leb_spec (fs_seq st + 1) u64_max) as [Hq|Hq]; cbn [result_bind]; [|right; lia].
  set (k := Z.to_nat _).
  assert (Hk : Z.of_nat k = Z.min limit (fs_seq st + 1 - start)) by lia.
  pose proof (stream_loop_spec (fs_ks st) n start k D Hstart ltac:(lia)) as Hloop. rewrite Hk in Hloop.
  destruct (stream_loop (fs_ks st) start k) as [l|[e|]]; [done| |done]. by destruct e.
Qed.

(** ** Properties *)


(** C2: an append happens wholly or not at all, also when it reports an error.
    Of a reachable store that holds [n] events, a call that returns numbers has
    stored all its events, in order, under the numbers [n + 1], [n + 2], ...
    that it returns, or it carries an idempotency key and returns the number of
    the stored event with that key; a call that fails has stored all of its
    events or none. *)
Theorem append_all_or_nothing (s0 : ks_state) (tr : Trace) (p p' : Process) (op : StoreOp)
    (r : Result (list EventId) StoreFault) :
  empty_ks s0 -> store_run (Down s0) tr p -> op_ok op p -> exec_store op p = Some (p', r) ->
  exists n new, holds_log p n /\ holds_log p' (n + Z.of_nat (length new)) /\
    (forall i env, new !! i = Some env -> process_stored p' (n + 1 + Z.of_nat i) = Some env) /\
    step_outcome op p n new r.
Proof.
  intros He Hr Hok Hx. destruct (run_spec _ _ _ _ (empty_inv _ He) Hr) as (n & _ & Hi & _).
  destruct (step_spec _ _ _ _ _ Hi Hok Hx) as (new & [Hi' _ Hnew _] & Ho).
  exists n, new. split_and!; [by apply process_holds_log|by apply process_holds_log|done|done].
Qed.

(** C3: an idempotent [append_and_enqueue] happens once.  After a call with key
    [k] has returned [id], and as long as no idempotency keys are pruned or
    expired, another call with the same key, by the same or by a later process,
    after any other calls, faults, crashes and restarts, returns [id] or fails
    on a storage fault, and leaves the keyspace as it is: no second event, no
    second queue row. *)
Theorem idempotent_enqueue_once (s0 : ks_state) (tr mid : Trace) (p1 : Process)
    (st2 : FjallEventStore) (p3 : Process) (event event' : Event) (q q' item item' k : string)
    (id : EventId) (r : Result (list EventId) StoreFault) :
  empty_ks s0 ->
  store_run (Down s0) (tr ++ [(SEnqueue event q item (Some k), Ok [id])]) p1 ->
  store_run p1 mid (Running st2) ->
  (forall op r', (op, r') ∈ mid -> keeps_keys op = true) ->
  op_ok (SEnqueue event' q' item' (Some k)) (Running st2) ->
  exec_store (SEnqueue event' q' item' (Some k)) (Running st2) = Some (p3, r) ->
  process_ks p3 = fs_ks st2 /\ (r = Ok [id] \/ is_ok r = false).
Proof.
  intros He (p0 & Hr0 & Hr1)%store_run_app Hmid Hall [Hroom _] Hx.
  destruct (run_spec _ _ _ _ (empty_inv _ He) Hr0) as (n0 & _ & Hi0 & _).
  inversion Hr1 as [|? ? p1' ? ? ? Hok Hx1 Hnil]; subst. inversion Hnil; subst. clear Hr1 Hnil.
  destruct (step_spec _ _ _ _ _ Hi0 Hok Hx1) as (new & [Hi1 _ _ _] & _).
  assert (Hkey : ks_contents (process_ks p1) Partition.Meta !! idempotency_key k = Some (to_be_bytes id) /\ is_u64 id).
  { destruct p0 as [st0|]; [|done]. cbn [exec_store call process_inv] in Hx1, Hi0.
    destruct Hok as [Hroom0 _]. cbn in Hroom0.
    pose proof (append_and_enqueue_post event q item (Some k) st0 n0 Hi0 ltac:(lia)) as Hp. unfold sm_post in Hp.
    destruct (append_and_enqueue_inner_locked _ _ _ _ _) as [st1 r1]. injection Hx1 as <- Hr.
    destruct r1 as [id1|]; [|done]. injection Hr as ->. cbn [fst snd] in Hp.
    pose proof (du_range _ _ _ _ (si_durable _ _ Hi0)) as Hn.
    destruct Hp as [(id' & k' & env & [= <-] & [= <-] & Hid & Hks & _ & Hm & _)|[[? _]|[_ Hp]]]; [|done|].
    - cbn. rewrite Hks. split; [done|]. unfold is_u64 in *. lia.
    - destruct Hp as (Hn' & -> & Ha & _ & Hm). split; [by apply Hm|]. unfold is_u64, u64_max in *. lia. }
  destruct Hkey as [Hkey Hu].
  destruct (run_spec _ _ _ _ Hi1 Hmid) as (n2 & _ & Hi2 & _ & Hkeys).
  specialize (Hkeys Hall _ _ Hkey). cbn [process_ks process_inv] in Hkeys, Hi2.
  cbn [exec_store call] in Hx. cbn in Hroom.
  pose proof (append_and_enqueue_post event' q' item' (Some k) st2 n2 Hi2 ltac:(lia)) as Hp. unfold sm_post in Hp.
  destruct (append_and_enqueue_inner_locked _ _ _ _ _) as [st3 r3]. injection Hx as <- <-. cbn [fst snd] in Hp.
  destruct Hp as [(id' & k' & env & -> & [= <-] & Hid & Hks & _ & Hm & _)|[[Hf ->]|[Hno _]]].
  - split; [done|]. left. cbn. assert (Heqb : to_be_bytes id = to_be_bytes id') by congruence.
    pose proof (du_range _ _ _ _ (si_durable _ _ Hi2)).
    assert (Heq : Some id = Some id').
    { rewrite <-(from_to_be_bytes id), <-(from_to_be_bytes id') by (unfold is_u64 in *; lia). by rewrite Heqb. }
    by injection Heq as ->.
  - split; [done|]. right. by destruct r3.
  - rewrite Hno in Hkeys; done.
Qed.

(** a stream returns exactly the events of its range.  On a reachable store
    whose counter is [fs_seq st], a stream of at most [limit] events after
    [since] returns the events with the next numbers, in order and without
    gaps, hot or archived, up to the counter; it fails only on a storage fault
    or when the range leaves the 64-bit numbers, never on what is stored. *)
Theorem stream_exact (s0 : ks_state) (tr : Trace) (st : FjallEventStore) (since : option EventId)
    (limit : Z) :
  empty_ks s0 -> store_run (Down s0) tr (Running st) ->
  (forall id, since = Some id -> is_u64 id) -> is_u64 limit ->
  let start := match since with Some id => (id + 1)%Z | None => 1%Z end in
  match stream since limit st with
  | Ok l => l.*2 = seqZ start (Z.min limit (fs_seq st + 1 - start)) /\
      forall event m, (event, m) ∈ l ->
        exists env, process_stored (Running st) m = Some env /\ ee_event env = event
  | Err (Failed (StoreError.Storage _)) => True
  | Err (Failed _) => False
  | Err (Aborted _) => (u64_max < start + limit)%Z \/ fs_seq st = u64_max
  end.
Proof.
  intros He Hr Hsince Hlimit. destruct (run_spec _ _ _ _ (empty_inv _ He) Hr) as (n & _ & Hi & _).
  apply (stream_spec st n); [done|by intros id ?%Hsince; unfold is_u64 in *; lia|unfold is_u64 in *; lia].
Qed.

(** retention moves exactly the old events.  When [retain_events before]
    succeeds on a reachable store, the log proper keeps exactly the events from
    [before] on, all events remain stored under their numbers, and a call that
    fails loses nothing either. *)
Theorem retention_exact (s0 : ks_state) (tr : Trace) (st st' : FjallEventStore) (before : EventId)
    (r : Result Z StoreFault) :
  empty_ks s0 -> store_run (Down s0) tr (Running st) -> is_u64 before ->
  retain_events before st = (st', r) ->
  (forall m, is_u64 m -> process_stored (Running st') m = process_stored (Running st) m) /\
  (is_ok r = true -> forall m, is_u64 m -> (1 <= m)%Z ->
    hot (ks_contents (fs_ks st') Partition.Events) m =
    if (m <? before)%Z then None else hot (ks_contents (fs_ks st) Partition.Events) m).
Proof.
  intros He Hr Hb Hx. destruct (run_spec _ _ _ _ (empty_inv _ He) Hr) as (n & _ & Hi & _).
  cbn [process_inv] in Hi. pose proof (archive_post (sat_sub before 1) st n Hi) as Hp. unfold sm_post in Hp.
  unfold retain_events in Hx. rewrite Hx in Hp. cbn [fst snd] in Hp.
  destruct Hp as [Ha Hlog]; [unfold is_u64, sat_sub in *; lia|]. split.
  - intros m Hm. destruct (decide (m <= n)%Z); [by apply (ap_old _ _ _ _ Ha)|].
    pose proof (ap_inv _ _ _ _ Ha) as Hi'. cbn [length Z.of_nat] in Hi'. rewrite Z.add_0_r in Hi'.
    destruct (process_holds_log (Running st) n Hi) as [_ Hno], (process_holds_log (Running st') n Hi') as [_ Hno'].
    rewrite Hno, Hno'; [done|done|lia|done|lia].
  - intros Hok m Hm H1m. unfold hot. rewrite (Hlog Hok m Hm).
    assert (Hcmp : (m <=? sat_sub before 1)%Z = (m <? before)%Z).
    { unfold sat_sub. destruct (Z.leb_spec m (Z.max 0 (before - 1))), (Z.ltb_spec m before); lia. }
    rewrite Hcmp. by destruct (m <? before)%Z.
Qed.

(** ** Evaluation *)

Definition update_okb (u : ViewUpdate) : bool :=
  match vu_operation u with
  | ViewOperation.Increment _ amount => negb (amount =? i64_min)%Z
  | _ => true
  end.

Definition op_okb (op : StoreOp) (p : Process) : bool :=
  match p with
  | Running st => (fs_seq st + Z.of_nat (length (op_events op)) <=? u64_max)%Z
  | Down _ => true
  end &&
  match op with
  | SAtomic _ _ views => forallb update_okb views
  | SRetain before => (0 <=? before)%Z && (before <=? u64_max)%Z
  | _ => true
  end.

Lemma op_okb_sound op p : op_okb op p = true -> op_ok op p.
Proof.
  unfold op_okb, op_ok. intros [Hr Ho]%andb_true_iff. split; [destruct p; [by apply Z.leb_le|done]|].
  destruct op; try done.
  - apply Forall_forall. intros u Hu field Heq.
    rewrite forallb_forall in Ho. specialize (Ho u ltac:(by apply list_elem_of_In)).
    unfold update_okb in Ho. by rewrite Heq in Ho.
  - apply andb_true_iff in Ho as [?%Z.leb_le ?%Z.leb_le]. done.
Qed.

Fixpoint run_ops (ops : list StoreOp) (p : Process) : Trace * Process * bool :=
  match ops with
  | [] => ([], p, true)
  | op :: ops =>
      match exec_store op p with
      | Some (p1, r) =>
          let '(tr, p2, ok) := run_ops ops p1 in ((op, r) :: tr, p2, op_okb op p && ok)
      | None => ([], p, false)
      end
  end.

Lemma run_ops_run ops p :
  (run_ops ops p).2 = true -> store_run p (run_ops ops p).1.1 (run_ops ops p).1.2.
Proof.
  revert p. induction ops as [|op ops IH]; intros p; cbn [run_ops]; [constructor|].
  destruct (exec_store op p) as [[p1 r]|] eqn:Hx; [|done]. specialize (IH p1).
  destruct (run_ops ops p1) as [[tr p2] ok]. cbn in *. intros [Ho Hok]%andb_true_iff.
  econstructor; [by apply op_okb_sound|done|by apply IH].
Qed.
End runs.

(** ** Witnesses

    A process appends, its second append is reported as failed although it is
    durable and poisons the keyspace, the third is refused; the process
    crashes, and the next one goes on behind the durable event. *)

From S2P Require Import MemStore.

Section witnesses.
Import MemKeyspace MemStore MemClaims.
#[local] Instance witness_order : IterOrder string := canonical_order string.

Definition no_clocks : ScanClocks :=
  mkScanClocks (fun _ => 0%Z) (fun _ => 0%Z) (fun _ => 0%Z) (fun _ => 0%Z).
Definition open_op : StoreOp := SOpen "e" 0 0 no_clocks.
Definition created (t : string) : Event := mkEvent (EventKind.TaskCreated t) 7 t.
Definition requested (t r : string) : Event := mkEvent (EventKind.ReviewRequested t r) 8 t.

Definition faulty : ks_state := empty_keyspace [NoFault; NoFault; Poisons].
Definition before_crash : list StoreOp := [open_op; SAppend (created "T-1"); SAppend (created "T-2")].
Definition after_crash : list StoreOp :=
  [SAppend (created "T-3"); SCrash; open_op; SAppend (created "T-4")].

Lemma faulty_empty : empty_ks faulty.
Proof. by intros p. Qed.

Definition first_run := run_ops before_crash (Down faulty).
Definition second_run := run_ops after_crash first_run.1.2.

Lemma first_run_ok : store_run (Down faulty) first_run.1.1 first_run.1.2.
Proof. apply run_ops_run. vm_compute. reflexivity. Qed.
Lemma second_run_ok : store_run first_run.1.2 second_run.1.1 second_run.1.2.
Proof. apply run_ops_run. vm_compute. reflexivity. Qed.


Lemma both_runs_ok : store_run (Down faulty) (first_run.1.1 ++ second_run.1.1) second_run.1.2.
Proof. apply store_run_app. exists first_run.1.2. split; [apply first_run_ok|apply second_run_ok]. Qed.

Definition batch_op : StoreOp :=
  SAtomic [created "T-5"; requested "T-5" "R-5"] (fun _ => 9%Z)
    [mkViewUpdate ViewType.Task "T-5" (ViewOperation.Set_ "branch" "b5")].

Lemma append_all_or_nothing_witness :
  (run_ops [batch_op] second_run.1.2).1.1.*2 = [Ok [4%Z; 5%Z]] /\
  exists n, holds_log (run_ops [batch_op] second_run.1.2).1.2 (n + 2).
Proof.
  assert (Hr : (run_ops [batch_op] second_run.1.2).1.1.*2 = [Ok [4%Z; 5%Z]]) by (vm_compute; reflexivity).
  split; [exact Hr|]. assert (Hok : op_okb batch_op second_run.1.2 = true) by (vm_compute; reflexivity).
  apply op_okb_sound in Hok. pose proof both_runs_ok as Hrun. revert Hr Hok Hrun.
  generalize (first_run.1.1 ++ second_run.1.1) as tr, second_run.1.2 as p. intros tr p Hr Hok Hrun.
  cbn [run_ops] in Hr |- *. destruct (exec_store batch_op p) as [[p' r]|] eqn:Hx; [|discriminate Hr].
  destruct (append_all_or_nothing faulty tr p p' batch_op r faulty_empty Hrun Hok Hx)
    as (n & new & _ & Hlog & _ & _ & Hout).
  cbn in Hr. injection Hr as ->. exists n. cbn [fst snd].
  destruct Hout as [[_ Hids]|[_ Hhit]].
  - apply (f_equal length) in Hids. rewrite length_fmap in Hids. rewrite <-Hids in Hlog. exact Hlog.
  - destruct Hhit as (k & id & env & Hk & _). discriminate Hk.
Defined.

Definition is_running (p : Process) : bool := match p with Running _ => true | Down _ => false end.
Definition store_of (p : Process) : FjallEventStore :=
  match p with Running st => st | Down s => mkFjallEventStore s 0 end.

Lemma running_store p : is_running p = true -> p = Running (store_of p).
Proof. by destruct p. Qed.

Lemma second_running : second_run.1.2 = Running (store_of second_run.1.2).
Proof. apply running_store. vm_compute. reflexivity. Qed.

Lemma stream_exact_witness :
  match stream (Some 1%Z) 10 (store_of second_run.1.2) with
  | Ok l => l = [(created "T-2", 2%Z); (created "T-4", 3%Z)] /\ l.*2 = seqZ 2 2
  | Err _ => False
  end.
Proof.
  pose proof both_runs_ok as Hrun. rewrite second_running in Hrun.
  pose proof (stream_exact faulty _ _ (Some 1%Z) 10 faulty_empty Hrun) as Hs.
  specialize (Hs ltac:(intros id [= <-]; by split) ltac:(by split)).
  assert (Hseq : fs_seq (store_of second_run.1.2) = 3%Z) by (vm_compute; reflexivity).
  assert (Hl : stream (Some 1%Z) 10 (store_of second_run.1.2) =
    Ok [(created "T-2", 2%Z); (created "T-4", 3%Z)]) by (vm_compute; reflexivity).
  rewrite Hl, Hseq in Hs. rewrite Hl. split; [reflexivity|]. exact (proj1 Hs).
Defined.

Definition retained := retain_events 3 (store_of second_run.1.2).

Lemma retention_exact_witness :
  is_ok retained.2 = true /\
  process_stored (Running retained.1) 1 = Some (mkEventEnvelope (created "T-1") 1 None None None) /\
  hot (ks_contents (fs_ks retained.1) Partition.Events) 1 = None.
Proof.
  assert (Hok : is_ok retained.2 = true) by (vm_compute; reflexivity). split; [exact Hok|].
  assert (Hst : process_stored (Running (store_of second_run.1.2)) 1 =
    Some (mkEventEnvelope (created "T-1") 1 None None None)) by (vm_compute; reflexivity).
  pose proof both_runs_ok as Hrun. rewrite second_running in Hrun. revert Hok Hst Hrun. unfold retained.
  generalize (store_of second_run.1.2) as st. intros st Hok Hst Hrun.
  destruct (retain_events 3 st) as [st' r] eqn:Hx. cbn [fst snd] in *.
  destruct (retention_exact faulty _ st st' 3 r faulty_empty Hrun ltac:(by split) Hx) as [Hstored Hhot].
  split.
  - rewrite Hstored; [exact Hst|by split].
  - rewrite (Hhot Hok 1%Z ltac:(by split) ltac:(lia)). reflexivity.
Defined.

Definition enqueue_op : StoreOp := SEnqueue (requested "T-1" "R-1") "review:high" "R-1" (Some "k").
Definition enqueued := run_ops [open_op; enqueue_op] (Down (empty_keyspace [])).
Definition restarted := run_ops [SAppend (created "T-2"); SCrash; open_op] enqueued.1.2.

Lemma enqueued_ok : store_run (Down (empty_keyspace [])) enqueued.1.1 enqueued.1.2.
Proof. apply run_ops_run. vm_compute. reflexivity. Qed.
Lemma restarted_ok : store_run enqueued.1.2 restarted.1.1 restarted.1.2.
Proof. apply run_ops_run. vm_compute. reflexivity. Qed.
Lemma restarted_running : restarted.1.2 = Running (store_of restarted.1.2).
Proof. apply running_store. vm_compute. reflexivity. Qed.

Lemma idempotent_enqueue_once_witness :
  (run_ops [enqueue_op] restarted.1.2).1.1.*2 = [Ok [1%Z]] /\
  process_ks (run_ops [enqueue_op] restarted.1.2).1.2 = process_ks restarted.1.2.
Proof.
  assert (Hr : (run_ops [enqueue_op] restarted.1.2).1.1.*2 = [Ok [1%Z]]) by (vm_compute; reflexivity).
  split; [exact Hr|]. assert (Hok : op_okb enqueue_op restarted.1.2 = true) by (vm_compute; reflexivity).
  apply op_okb_sound in Hok. pose proof restarted_ok as Hmid.
  assert (Hall : forallb (fun x => keeps_keys x.1) restarted.1.1 = true) by (vm_compute; reflexivity).
  assert (Htr : enqueued.1.1 = [(open_op, Ok [])] ++ [(enqueue_op, Ok [1%Z])]) by (vm_compute; reflexivity).
  pose proof enqueued_ok as Hrun. rewrite Htr in Hrun. rewrite restarted_running in *. revert Hr Hok Hmid Hrun Hall.
  generalize (store_of restarted.1.2) as st2, restarted.1.1 as mid, enqueued.1.2 as p1.
  intros st2 mid p1 Hr Hok Hmid Hrun Hall. cbn [run_ops] in Hr |- *.
  destruct (exec_store enqueue_op (Running st2)) as [[p3 r]|] eqn:Hx; [|discriminate Hr].
  assert (Hkeep : forall op r', (op, r') ∈ mid -> keeps_keys op = true).
  { intros op r' Hin. rewrite forallb_forall in Hall. apply (Hall (op, r')). by apply list_elem_of_In. }
  exact (proj1 (idempotent_enqueue_once (empty_keyspace []) _ mid p1 st2 p3 _ _ _ _ _ _ "k" 1 r
    (fun p => eq_refl) Hrun Hmid Hkeep Hok Hx)).
Defined.
End witnesses.
