(* ===== verification/FjallPort.v ===== *)
(** * The durable event store behind the event port
    (impl EventStore for FjallEventStore in brehon-store-fjall/src/store.rs)

    The methods of the port run the calls of EventLog.v and Queue.v and turn
    faults and panics into port errors.  Proved here: they satisfy what the
    clients of the port rely on (Ports.v), as instances of its classes, so that
    the theorems about the orchestrator, the supervisor and the coordinator hold
    over the stored log.  The instances follow the store as long as it has
    numbers left; with the last 64-bit number its counter wraps. *)

From S2P Require Import Prelude StrLib Types Events Keys Kv Queue Keyspace Views Recovery Ports EventLog LogState LogSteps LogRuns.

(** [Display] of [StoreError] *)
Definition store_error_to_string (e : StoreError) : string :=
  match e with
  | StoreError.Io m => "IO error: " +:+ m
  | StoreError.Storage m => "Storage error: " +:+ m
  | StoreError.Serialization m => "Serialization error: " +:+ m
  | StoreError.ClaimNotFound id => "Claim not found: " +:+ id
  | StoreError.ClaimExpired id => "Claim expired: " +:+ id
  | StoreError.VersionMismatch expected actual =>
      "Version mismatch: expected " +:+ pretty expected +:+ ", got " +:+ pretty actual
  end.

(** [From<StoreError> for PortError] *)
Definition port_error_from (e : StoreError) : PortError := PortError.Storage (store_error_to_string e).

Lemma omap_total {A B} (f : A -> option B) (g : A -> B) (l : list A) :
  (forall x, x ∈ l -> f x = Some (g x)) -> omap f l = g <$> l.
Proof.
  induction l as [|x l IH]; intros Hf; [done|]. cbn. rewrite (Hf x) by left. f_equal. apply IH. intros y Hy. apply Hf. by right.
Qed.

Lemma omap_agree {A B} (f g : A -> option B) (l : list A) : (forall x, x ∈ l -> f x = g x) -> omap f l = omap g l.
Proof.
  induction l as [|x l IH]; intros Hf; [done|]. cbn. rewrite (Hf x) by left. rewrite IH; [done|]. intros y Hy. apply Hf. by right.
Qed.

Section port.
Context {ord : IterOrder string} `{KeyspaceLaws} `{Json TaskStatus} `{Json ReviewStatus}
  `{Json TaskView} `{Json ReviewView} `{JsonLaws EventEnvelope} `{Json QueueClaim}.
(** The text of a [JoinError]; the epoch of the process; the readings of the
    clock and the generated id of each call. *)
Context (join_error : Panic -> string) (epoch : string) (clock : nat -> nat -> ClockReading) (uuid : nat -> string).

#[local] Instance queue_partition : KvStore := partition_kv Partition.Queue.

Abbreviation Store A := (SM FjallEventStore StoreFault A).

Definition map_blocking {A} (joined : Result A StoreFault) : Result A PortError :=
  match joined with
  | Ok a => Ok a
  | Err (Failed e) => Err (port_error_from e)
  | Err (Aborted p) => Err (PortError.Storage ("event store storage task panicked: " +:+ join_error p))
  end.

(** A call of the queue manager as a call of the store. *)
Definition on_queue {A} (op : SM kv_state StoreError A) : Store A := fun st =>
  let '(s', r) := op (fs_ks st) in (st <| fs_ks := s' |>, result_map_err Failed r).

(** ** The methods; [i] is the number of the call *)

Definition port_append (event : Event) : Store EventId := append_event_inner_locked event None.

Definition port_append_and_enqueue (event : Event) (queue item_id : string) (key : option string) : Store EventId :=
  append_and_enqueue_inner_locked event queue item_id key.

Definition port_claim_next (i : nat) (queue consumer : string) (lease_for : Duration) : Store (option QueueClaim) :=
  on_queue (claim_next epoch (clock i 0) (fun j => clock i (S j)) (uuid i) queue consumer lease_for).

Definition port_ack_claim (i : nat) (claim_id : ClaimId) : Store unit := on_queue (ack_claim epoch (clock i 0) claim_id).

Definition port_renew_claim (i : nat) (claim_id : ClaimId) (lease_for : Duration) : Store unit :=
  on_queue (renew_claim epoch (clock i 0) (clock i 1) (clock i 2) claim_id lease_for).

Definition port_stream (since : option EventId) (limit : nat) : Store (list (Event * EventId)) := fun st =>
  (st, stream since (Z.of_nat limit) st).

Definition port_high_water_mark : Store EventId := fun st => (st, Ok (get_current_seq st)).

Definition port_retain_events (before : EventId) : Store nat :=
  let! archived := retain_events before in sm_ret (Z.to_nat archived).

(** [chrono::Duration::from_std(older_than).unwrap_or(chrono::Duration::MAX)] *)
Definition retention_duration (older_than : Duration) : Duration := Z.min older_than (9223372036854775807 * 1000000).

Definition port_expire_idempotency_keys (i : nat) (older_than : Duration) : Store nat :=
  let! removed := expire_idempotency_keys_inner (clk_utc (clock i 0) - retention_duration older_than)%Z in
  sm_ret (Z.to_nat removed).

(** ** What the store shows *)

(** The events up to the counter, with their numbers. *)
Definition shown (st : FjallEventStore) : list (Event * EventId) :=
  omap (fun m => (fun env => (ee_event env, m)) <$> ks_stored (fs_ks st) m) (seqZ 1 (fs_seq st)).

(** The event stored under a number. *)
Definition event_at (st : FjallEventStore) (m : Z) : Event :=
  default (mkEvent (EventKind.SystemDraining "") 0 "") (ee_event <$> ks_stored (fs_ks st) m).

Lemma shown_fmap st n : store_inv st n -> shown st = (fun m => (event_at st m, m)) <$> seqZ 1 (fs_seq st).
Proof.
  intros Hi. apply omap_total. intros m Hm%elem_of_seqZ. unfold event_at.
  destruct (process_holds_log (Running st) n Hi) as [Hlog _]. pose proof (si_range _ _ Hi).
  destruct (Hlog m) as (env & Henv & _); [lia|]. unfold process_stored in Henv. cbn in Henv. by rewrite Henv.
Qed.

Lemma shown_ids st n : store_inv st n -> (shown st).*2 = seqZ 1 (fs_seq st).
Proof. intros Hi. rewrite (shown_fmap st n Hi), <-list_fmap_compose. apply list_fmap_id. Qed.

(** Two stores with the same counter and the same events show the same. *)
Lemma shown_same st st' n : store_inv st n -> fs_seq st' = fs_seq st ->
  (forall m, is_u64 m -> (m <= n)%Z -> ks_stored (fs_ks st') m = ks_stored (fs_ks st) m) -> shown st' = shown st.
Proof.
  intros Hi Hseq Hsame. unfold shown. rewrite Hseq. apply omap_agree. intros m Hm%elem_of_seqZ.
  pose proof (si_range _ _ Hi). pose proof (du_range _ _ _ _ (si_durable _ _ Hi)). unfold is_u64 in *.
  rewrite Hsame; [done|unfold is_u64; lia|lia].
Qed.

(** ** What the methods do *)

(** A call that leaves a store satisfying the invariant. *)
Definition keeps_inv {A} (op : Store A) : Prop :=
  forall st n, store_inv st n -> (fs_seq st < u64_max)%Z -> exists n', store_inv (op st).1 n'.

(** A call that also shows the same events. *)
Definition keeps_shown {A} (op : Store A) : Prop := forall st n,
  store_inv st n -> (fs_seq st < u64_max)%Z -> (exists n', store_inv (op st).1 n') /\ shown (op st).1 = shown st.

Lemma keeps_shown_inv {A} (op : Store A) : keeps_shown op -> keeps_inv op.
Proof. intros Hop st n Hi Hroom. by destruct (Hop st n Hi Hroom). Qed.

(** The counter after an append. *)
Lemma append_counter event st :
  (0 <= fs_seq st < u64_max)%Z ->
  match port_append event st with
  | (st', Ok id) => fs_seq st' = id
  | (st', Err _) => fs_seq st' = fs_seq st
  end.
Proof.
  intros Hroom. unfold port_append, append_event_inner_locked, restore_seq_on_error, append_body, sm_bind, sm_lift, sm_ret, read_ks, on_ks.
  cbn [check_idempotency]. rewrite next_event_id_ok by lia. cbn beta iota. cbn [fs_ks]. unfold encode_value.
  destruct (to_vec _) as [value|e]; cbn [result_map_err]; [|done].
  destruct (index_start_ops _ _ _) as [ops|[e|p]] eqn:Hix; cbn beta iota; [|done|].
  - unfold commit. destruct (ks_commit _ _) as [s' [[]|e]]; done.
  - unfold index_start_ops, set_index_start_seq_if_needed, get_key in Hix.
    destruct (make_index_keys _ _); [done|]. by destruct (ks_get _ _ _) as [[]|].
Qed.

Lemma append_shows event st n : store_inv st n -> (fs_seq st < u64_max)%Z ->
  (exists n', store_inv (port_append event st).1 n') /\
  match port_append event st with
  | (st', Ok id) => shown st' = shown st ++ [(event, id)]
  | (st', Err _) => shown st' = shown st
  end.
Proof.
  intros Hi Hroom. pose proof (append_event_post event st n Hi Hroom) as Hpost. unfold sm_post in Hpost.
  pose proof (append_counter event st) as Hseq. pose proof (si_range _ _ Hi) as Hr. specialize (Hseq ltac:(lia)).
  unfold port_append in *. destruct (append_event_inner_locked event None st) as [st' [id|e]]; cbn [fst snd] in *.
  - destruct Hpost as (Hn & -> & Happ & _). split; [eexists; apply (ap_inv _ _ _ _ Happ)|].
    unfold shown. rewrite Hseq, Hn, (seqZ_app 1 n 1) by lia. rewrite omap_app. f_equal.
    + apply omap_agree. intros m Hm%elem_of_seqZ. pose proof (du_range _ _ _ _ (si_durable _ _ Hi)).
      unfold is_u64 in *. rewrite (ap_old _ _ _ _ Happ); [done|unfold is_u64; lia|lia].
    + pose proof (ap_new _ _ _ _ Happ 0 _ eq_refl) as Hnew. rewrite Z.add_0_r in Hnew.
      replace (seqZ (1 + n) 1) with [(n + 1)%Z] by (unfold seqZ; change (Z.to_nat 1) with 1; cbn [seq fmap list_fmap]; f_equal; lia).
      cbn [omap list_omap]. by rewrite Hnew.
  - destruct Hpost as [Happ|Happ]; (split; [eexists; apply (ap_inv _ _ _ _ Happ)|]);
      apply (shown_same st st' n Hi Hseq); intros m; apply (ap_old _ _ _ _ Happ).
Qed.

Lemma append_and_enqueue_inv event queue item_id key : keeps_inv (port_append_and_enqueue event queue item_id key).
Proof.
  intros st n Hi Hroom. pose proof (append_and_enqueue_post event queue item_id key st n Hi Hroom) as Hpost.
  unfold sm_post in Hpost. unfold port_append_and_enqueue. destruct (append_and_enqueue_inner_locked _ _ _ _ _) as [st' r]. cbn [fst snd] in *.
  destruct (enqueue_step true _ _ _ _ _ _ _ _ Hpost Hi) as (new & Heff & _). eexists. apply (se_inv _ _ _ _ _ Heff).
Qed.

(** The counter and the log are left alone. *)
Lemma same_log_shown st s' n : store_inv st n -> same_log (fs_ks st) s' ->
  (exists n', store_inv (st <| fs_ks := s' |>) n') /\ shown (st <| fs_ks := s' |>) = shown st.
Proof.
  intros Hi Hsame. destruct st as [s q]. cbn in Hsame |- *. split.
  - exists n. destruct Hi as [D Hr Hs]. split; cbn in *; [by eapply same_log_durable|done|].
    destruct Hs as [Hp|Hs]; [left; by apply Hsame|by right].
  - apply (shown_same (mkFjallEventStore s q) (mkFjallEventStore s' q) n Hi eq_refl). intros m _ _. by apply same_log_stored.
Qed.

Lemma queue_call_shown {A} (op : SM kv_state StoreError A) (qop : QueueOp) :
  (forall s, (op s).1 = (exec_queue epoch qop s).1) -> keeps_shown (on_queue op).
Proof.
  intros Hop st n Hi _. unfold on_queue.
  pose proof (quiet_exec_queue epoch qop (fs_ks st)) as Hq. change (same_log (fs_ks st) (exec_queue epoch qop (fs_ks st)).1) in Hq.
  rewrite <-Hop in Hq. destruct (op (fs_ks st)) as [s' r]. cbn [fst] in *. by apply (same_log_shown st s' n).
Qed.

Lemma sm_void_state {S E A B} (c : SM S E A) s : (sm_void (B := B) c s).1 = (c s).1.
Proof. unfold sm_void, sm_bind. by destruct (c s) as [s' []]. Qed.

Lemma claim_next_shown i queue consumer lease : keeps_shown (port_claim_next i queue consumer lease).
Proof. by apply (queue_call_shown _ (QClaim (clock i 0) (fun j => clock i (S j)) (uuid i) queue consumer lease)). Qed.

Lemma ack_claim_shown i id : keeps_shown (port_ack_claim i id).
Proof. apply (queue_call_shown _ (QAck (clock i 0) id)). intros s. cbn. by rewrite sm_void_state. Qed.

Lemma renew_claim_shown i id lease : keeps_shown (port_renew_claim i id lease).
Proof.
  apply (queue_call_shown _ (QRenew (clock i 0) (clock i 1) (clock i 2) id lease)). intros s. cbn. by rewrite sm_void_state.
Qed.

Lemma stream_shown since limit : keeps_shown (port_stream since limit).
Proof. intros st n Hi _. split; [by exists n|done]. Qed.

Lemma high_water_shown : keeps_shown port_high_water_mark.
Proof. intros st n Hi _. split; [by exists n|done]. Qed.

Lemma archive_counter cutoff st : fs_seq (archive_events_before cutoff st).1 = fs_seq st.
Proof.
  unfold archive_events_before, sm_bind, sm_lift, sm_ret, on_ks.
  repeat first [done | case_match; cbn [fst]]; simplify_eq; done.
Qed.

Lemma remove_keys_counter gone st : fs_seq (remove_idempotency_keys gone st).1 = fs_seq st.
Proof.
  unfold remove_idempotency_keys, sm_bind, sm_lift, sm_ret, on_ks.
  repeat first [done | case_match; cbn [fst]]; simplify_eq; done.
Qed.

Lemma sm_map_state {S E A B} (c : SM S E A) (f : A -> B) s : (sm_bind c (fun a => sm_ret (f a)) s).1 = (c s).1.
Proof. unfold sm_bind. by destruct (c s) as [s' []]. Qed.

Lemma retain_shown before : is_u64 before -> keeps_shown (port_retain_events before).
Proof.
  intros Hbefore st n Hi _. unfold port_retain_events. rewrite sm_map_state. unfold retain_events.
  pose proof (archive_post (sat_sub before 1) st n Hi) as Hpost. unfold sm_post in Hpost.
  destruct Hpost as [Happ _]; [unfold is_u64, sat_sub in *; lia|]. split; [eexists; apply (ap_inv _ _ _ _ Happ)|].
  apply (shown_same st _ n Hi (archive_counter _ _)). intros m. apply (ap_old _ _ _ _ Happ).
Qed.

Lemma expire_shown i older_than : keeps_shown (port_expire_idempotency_keys i older_than).
Proof.
  intros st n Hi _. unfold port_expire_idempotency_keys. rewrite sm_map_state. unfold expire_idempotency_keys_inner.
  match goal with |- context [remove_idempotency_keys ?gone st] =>
    pose proof (remove_idempotency_post gone st n Hi) as Hpost; pose proof (remove_keys_counter gone st) as Hseq end.
  unfold sm_post in Hpost. destruct Hpost as [Hi' Hs]. split; [by exists n|]. apply (shown_same st _ n Hi Hseq). auto.
Qed.

(** *** Streams *)

Lemma take_seqZ k a len : take k (seqZ a len) = seqZ a (Z.min (Z.of_nat k) len).
Proof.
  unfold seqZ. rewrite <-fmap_take, take_seq. f_equal. f_equal. lia.
Qed.

Lemma filter_seqZ id len : (0 <= id)%Z -> List.filter (fun m => (id <? m)%Z) (seqZ 1 len) = seqZ (id + 1) (len - id).
Proof.
  intros Hid. destruct (Z.le_gt_cases len id) as [Hle|Hgt].
  - assert (Hnil : seqZ (id + 1) (len - id) = []) by (apply nil_length_inv; rewrite length_seqZ; lia). rewrite Hnil.
    apply elem_of_nil_inv. intros m Hm. apply list_elem_of_In, List.filter_In in Hm as [Hm Hlt].
    apply list_elem_of_In, elem_of_seqZ in Hm. lia.
  - replace len with (id + (len - id))%Z at 1 by lia. rewrite seqZ_app, List.filter_app by lia.
    assert (Hfirst : List.filter (fun m => (id <? m)%Z) (seqZ 1 id) = []).
    { apply elem_of_nil_inv. intros m Hm. apply list_elem_of_In, List.filter_In in Hm as [Hm Hlt].
      apply list_elem_of_In, elem_of_seqZ in Hm. lia. }
    rewrite Hfirst. cbn [app]. replace (1 + id)%Z with (id + 1)%Z by lia. apply forallb_filter_id, forallb_forall.
    intros m Hm. apply list_elem_of_In, elem_of_seqZ in Hm. lia.
Qed.

Lemma filter_pairs (f : Z -> Event) (since : option EventId) (l : list Z) :
  List.filter (after since) ((fun m => (f m, m)) <$> l) =
  (fun m => (f m, m)) <$> List.filter (fun m => match since with Some id => (id <? m)%Z | None => true end) l.
Proof.
  induction l as [|m l IH]; [done|]. cbn [fmap list_fmap List.filter]. unfold after at 1. cbn [snd]. rewrite IH.
  destruct since as [id|]; [by destruct (id <? m)%Z|done].
Qed.

Lemma stream_returns st n since limit l :
  store_inv st n -> (forall id, since = Some id -> (0 <= id)%Z) ->
  (port_stream since limit st).2 = Ok l -> l = take limit (List.filter (after since) (shown st)).
Proof.
  intros Hi Hsince Hl. cbn [port_stream snd] in Hl.
  pose proof (stream_spec st n since (Z.of_nat limit) Hi Hsince ltac:(lia)) as Hspec. cbv zeta in Hspec.
  unfold port_stream in Hl. cbn [snd] in Hl. rewrite Hl in Hspec. destruct Hspec as [Hids Hev].
  assert (Hmap : l = (fun m => (event_at st m, m)) <$> l.*2).
  { clear Hl Hids. induction l as [|[e m] l IH]; [done|]. cbn. f_equal.
    - destruct (Hev e m) as (env & Henv & <-); [left|]. unfold event_at. by rewrite Henv.
    - apply IH. intros e' m' Hin. apply Hev. by right. }
  rewrite Hmap, Hids, (shown_fmap st n Hi), filter_pairs, <-fmap_take. f_equal.
  destruct since as [id|].
  - rewrite filter_seqZ, take_seqZ by by apply Hsince. f_equal. lia.
  - rewrite forallb_filter_id by (by apply forallb_forall). rewrite take_seqZ. f_equal. lia.
Qed.


(** ** The port *)

(** A store that satisfies the invariant, and the number of calls so far. *)
Record PortState := mkPortState {
  po_store : FjallEventStore;
  po_calls : nat;
  po_inv : exists n, store_inv po_store n
}.

(** A call of the port on a store that has numbers left. *)
Definition port_call {A} (op : nat -> Store A) (Hop : forall i, keeps_inv (op i)) : SM PortState PortError A := fun s =>
  match decide (fs_seq (po_store s) < u64_max)%Z with
  | left Hroom =>
      (mkPortState (op (po_calls s) (po_store s)).1 (S (po_calls s))
         (let '(ex_intro _ n Hi) := po_inv s in Hop (po_calls s) (po_store s) n Hi Hroom),
       map_blocking (op (po_calls s) (po_store s)).2)
  | right _ => (s, Err (PortError.Storage "event numbers are exhausted"))
  end.

(** Numbers outside of the 64-bit type stand for its ends. *)
Definition as_event_id (id : EventId) : EventId := Z.max 0 (Z.min id u64_max).

Lemma as_event_id_range id : is_u64 (as_event_id id).
Proof. unfold as_event_id, is_u64, u64_max. lia. Qed.

Lemma as_event_id_id id : is_u64 id -> as_event_id id = id.
Proof. unfold as_event_id, is_u64. lia. Qed.

Lemma port_call_cases {A} (op : nat -> Store A) Hop s :
  let '(s', r) := port_call op Hop s in
  (exists n, store_inv (po_store s) n /\ (fs_seq (po_store s) < u64_max)%Z
    /\ po_store s' = (op (po_calls s) (po_store s)).1 /\ r = map_blocking (op (po_calls s) (po_store s)).2)
  \/ (s' = s /\ is_ok r = false).
Proof.
  unfold port_call. destruct (decide _) as [Hroom|]; [|by right]. left. destruct (po_inv s) as [n Hi]. by exists n.
Qed.

Lemma port_call_shown {A} (op : nat -> Store A) Hop s : (forall i, keeps_shown (op i)) ->
  shown (po_store (port_call op Hop s).1) = shown (po_store s).
Proof.
  intros Hshown. pose proof (port_call_cases op Hop s) as Hc. destruct (port_call op Hop s) as [s' r]. cbn [fst].
  destruct Hc as [(n & Hi & Hroom & -> & _)|[-> _]]; [|done]. by destruct (Hshown (po_calls s) _ _ Hi Hroom).
Qed.

Lemma append_inv event : keeps_inv (port_append event).
Proof. intros st n Hi Hroom. by destruct (append_shows event st n Hi Hroom). Qed.

Lemma retain_as_id_shown before : keeps_shown (port_retain_events (as_event_id before)).
Proof. apply retain_shown, as_event_id_range. Qed.

Definition fjall_event_store : EventStore := {|
  es_state := PortState;
  es_append event := port_call (fun _ => port_append event) (fun _ => append_inv event);
  es_append_and_enqueue event queue item_id key :=
    port_call (fun _ => port_append_and_enqueue event queue item_id key)
      (fun _ => append_and_enqueue_inv event queue item_id key);
  es_claim_next queue consumer lease :=
    port_call (fun i => port_claim_next i queue consumer lease) (fun i => keeps_shown_inv _ (claim_next_shown i queue consumer lease));
  es_ack_claim id := port_call (fun i => port_ack_claim i id) (fun i => keeps_shown_inv _ (ack_claim_shown i id));
  es_renew_claim id lease :=
    port_call (fun i => port_renew_claim i id lease) (fun i => keeps_shown_inv _ (renew_claim_shown i id lease))
|}.

#[local] Existing Instance fjall_event_store.

Definition fjall_event_stream : EventStream := {|
  es_stream since limit :=
    port_call (fun _ => port_stream (Z.max 0 <$> since) limit) (fun _ => keeps_shown_inv _ (stream_shown _ limit));
  es_high_water_mark := port_call (fun _ => port_high_water_mark) (fun _ => keeps_shown_inv _ high_water_shown);
  es_retain_events before :=
    port_call (fun _ => port_retain_events (as_event_id before)) (fun _ => keeps_shown_inv _ (retain_as_id_shown before));
  es_expire_idempotency_keys older_than :=
    port_call (fun i => port_expire_idempotency_keys i older_than) (fun i => keeps_shown_inv _ (expire_shown i older_than))
|}.

#[local] Existing Instance fjall_event_stream.

Lemma es_append_shows event (s s' : PortState) r : es_append event s = (s', r) ->
  match r with
  | Ok id => shown (po_store s') = shown (po_store s) ++ [(event, id)]
  | Err _ => shown (po_store s') = shown (po_store s)
  end.
Proof.
  cbn. intros Hc. pose proof (port_call_cases (fun _ => port_append event) (fun _ => append_inv event) s) as Hcases. rewrite Hc in Hcases.
  destruct Hcases as [(n & Hi & Hroom & -> & ->)|[-> Hr]]; [|by destruct r].
  destruct (append_shows event _ n Hi Hroom) as [_ Hshow].
  destruct (port_append event (po_store s)) as [st' [id|[e|p]]]; done.
Qed.

Definition fjall_store_laws : EventStoreLaws.
Proof.
  refine {| es_log := fun s : es_state => (shown (po_store s)).*1 |}.
  - intros e s s' r Hs%es_append_shows. destruct r; [left; by rewrite Hs, fmap_app|right; by rewrite Hs].
  - intros id s s' r Hs. pose proof (port_call_shown _ (fun i => keeps_shown_inv _ (ack_claim_shown i id)) s
      (fun i => ack_claim_shown i id)) as Hc. cbn in Hs. rewrite Hs in Hc. cbn [fst] in Hc. by rewrite Hc.
  - intros q c l s s' r Hs. pose proof (port_call_shown _ (fun i => keeps_shown_inv _ (claim_next_shown i q c l)) s
      (fun i => claim_next_shown i q c l)) as Hc. cbn in Hs. rewrite Hs in Hc. cbn [fst] in Hc. by rewrite Hc.
Defined.

Definition fjall_stream_laws : EventStreamLaws.
Proof.
  refine {| es_held := fun s : es_state => shown (po_store s) |}.
  - intros e s x Hx. destruct (es_append e s) as [s' r] eqn:Hs. apply es_append_shows in Hs. cbn [fst].
    destruct r; rewrite Hs; [apply elem_of_app; by left|done].
  - intros since limit s. apply port_call_shown. intros _. apply stream_shown.
  - intros s. apply port_call_shown. intros _. apply high_water_shown.
  - intros d s. apply port_call_shown. intros i. apply expire_shown.
  - intros before s x Hx _. cbn [es_retain_events fjall_event_stream]. rewrite port_call_shown; [done|]. intros _. apply retain_as_id_shown.
Defined.

#[local] Existing Instance fjall_stream_laws.

Lemma filter_after_clamped st n since : store_inv st n ->
  List.filter (after since) (shown st) = List.filter (after (Z.max 0 <$> since)) (shown st).
Proof.
  intros Hi. apply List.filter_ext_in. intros x Hx%list_elem_of_In. destruct since as [id|]; [|done]. cbn.
  assert (Hid : x.2 ∈ seqZ 1 (fs_seq st)) by (rewrite <-(shown_ids st n Hi); by apply list_elem_of_fmap_2).
  apply elem_of_seqZ in Hid. destruct (Z.ltb_spec id x.2), (Z.ltb_spec (Z.max 0 id) x.2); try done; lia.
Qed.

Definition fjall_stream_order : EventStreamOrder.
Proof.
  split.
  - intros s. cbn. destruct (po_inv s) as [n Hi]. rewrite (shown_ids _ n Hi). apply sorted_seqZ.
  - intros e s s' id Hs. by apply es_append_shows in Hs.
  - intros e s s' err Hs. left. by apply es_append_shows in Hs.
  - intros since limit s s' l Hs. cbn in Hs |- *.
    pose proof (port_call_cases (fun _ => port_stream (Z.max 0 <$> since) limit) (fun _ => keeps_shown_inv _ (stream_shown _ limit)) s) as Hc.
    rewrite Hs in Hc. destruct Hc as [(n & Hi & _ & _ & Hl)|[_ ?]]; [|done].
    rewrite (filter_after_clamped _ n since Hi). apply (stream_returns (po_store s) n); [done| |].
    + intros id Hid. destruct since; [|done]. injection Hid as <-. lia.
    + destruct ((port_stream (Z.max 0 <$> since) limit (po_store s)).2) as [l'|[e|p]]; cbn in Hl; congruence.
Defined.
End port.

(** ** A store after a fault and a crash *)

From S2P Require Import MemStore.

Module PortSample.
Import MemKeyspace MemStore MemClaims.
#[local] Instance order : IterOrder string := canonical_order string.

Definition after_restart : FjallEventStore := store_of second_run.1.2.

End PortSample.
