(* ===== verification/Queries.v ===== *)
(** * Event queries (brehon-store-fjall/src/queries.rs)

    [QueryExecutor]: a filter is answered by a scan of the log, or by the task,
    review or agent index from the number where the index starts and a scan
    before it.  [query_result] is the reference: what the filter selects from the
    events of the log, in the order of their numbers.  The theorem at the end
    says that the executor returns it on every reachable store. *)

From Stdlib Require Import Ascii.
From S2P Require Import Prelude StrLib Types Events Keys Kv Queue Keyspace Views Recovery EventLog LogState LogSteps LogRuns MemStore.

Record EventFilter := mkEventFilter {
  ef_aggregate_id : option string;
  ef_kinds : option (list EventKind);
  ef_agent_id : option string;
  ef_task_id : option string;
  ef_review_id : option string;
  ef_session_id : option string;
  ef_since : option DateTime;
  ef_until : option DateTime;
  ef_limit : option nat
}.

#[export] Instance EventFilter_eta : Eta EventFilter := fun f =>
  mkEventFilter (ef_aggregate_id f) (ef_kinds f) (ef_agent_id f) (ef_task_id f) (ef_review_id f)
    (ef_session_id f) (ef_since f) (ef_until f) (ef_limit f).

(** [EventFilter::new] *)
Definition EventFilter_new : EventFilter :=
  mkEventFilter None None None None None None None None None.

(** [DateTime::timestamp]: whole seconds *)
Definition timestamp (t : DateTime) : Z := (t / 1000000000)%Z.

(** ** The conditions of the indexed queries *)

(** the closure of [query_by_task] *)
Definition task_condition (task_id : string) (event : Event) : bool :=
  match ev_kind event with
  | EventKind.TaskCreated t | EventKind.TaskAssigned t _ | EventKind.TaskCompleted t
  | EventKind.ReviewRequested t _ | EventKind.MergePrepared t _ | EventKind.MergeCommitted t
  | EventKind.MergeAborted t _
  | EventKind.RunCreated _ t _ _ | EventKind.RunClaimed _ t _ _ _ _ _
  | EventKind.RunClaimRenewed _ t _ _ _ _ | EventKind.RunStarted _ t _ _ _
  | EventKind.RunActivityObserved _ t _ _ _ _ | EventKind.RunReleased _ t _ _ _ _
  | EventKind.RunRetryQueued _ t _ _ _ _ _ | EventKind.RunCompleted _ t _ _ _
  | EventKind.RunFailed _ t _ _ _ _ | EventKind.RunAbandoned _ t _ _ _ _
  | EventKind.StaleRunMutationRejected _ t _ _ _ _ => bool_decide (t = task_id)
  | _ => false
  end.

(** the closure of [query_by_review] *)
Definition review_condition (review_id : string) (event : Event) : bool :=
  match ev_kind event with
  | EventKind.ReviewRequested _ r | EventKind.ReviewScoreReceived r _ _
  | EventKind.ReviewApproved r | EventKind.ReviewRejected r
  | EventKind.ReviewChangesRequested r => bool_decide (r = review_id)
  | _ => false
  end.

(** the closure of [query_by_agent] *)
Definition agent_condition (agent_id : string) (event : Event) : bool :=
  match ev_kind event with
  | EventKind.AgentSpawned a _ _ | EventKind.AgentDied a _ _ | EventKind.TaskAssigned _ a =>
      bool_decide (a = agent_id)
  | _ => false
  end.

Definition kind_matches (filter : EventFilter) (event : Event) : bool :=
  match ef_kinds filter with
  | Some kinds => existsb (fun k => bool_decide (k = ev_kind event)) kinds
  | None => true
  end.

(** The tests of the loops, in their order: [since], [until] to the second, the
    condition, the kinds. *)
Definition coarse_match (filter : EventFilter) (condition : Event -> bool) (event : Event) : bool :=
  match ef_since filter with
  | Some t => negb (timestamp (ev_timestamp event) <? timestamp t)%Z
  | None => true
  end
  && match ef_until filter with
     | Some t => negb (timestamp t <? timestamp (ev_timestamp event))%Z
     | None => true
     end
  && condition event && kind_matches filter event.

(** [count >= limit]; without a limit the bound is [usize::MAX], which a [Vec]
    cannot reach. *)
Definition at_limit (limit : option nat) (count : nat) : bool :=
  match limit with Some limit => (limit <=? count)%nat | None => false end.

(** [events.truncate(limit)] and [events.into_iter().take(limit)] *)
Definition truncate {A} (limit : option nat) (l : list A) : list A :=
  match limit with Some limit => take limit l | None => l end.

(** [apply_filters] *)
Definition apply_filters (events : list Event) (f : EventFilter) : list Event :=
  let events := match ef_kinds f with
                | Some _ => filter (fun e => kind_matches f e = true) events | None => events end in
  let events := match ef_since f with
                | Some since => filter (fun e => (since <=? ev_timestamp e)%Z = true) events
                | None => events end in
  match ef_until f with
  | Some until => filter (fun e => (ev_timestamp e <=? until)%Z = true) events
  | None => events
  end.

Section executor.
Context {ord : IterOrder string} `{KeyspaceLaws} `{Json TaskStatus} `{Json ReviewStatus}
  `{Json TaskView} `{Json ReviewView} `{JsonLaws EventEnvelope} `{JsonLaws QueueClaim}.

Abbreviation Items := (list (Result (string * string) string)).

(** ** Scans of the log *)

Fixpoint scan_loop (limit : option nat) (count : nat) (items : Items) : Result (list Event) StoreFault :=
  match items with
  | [] => Ok []
  | item :: items =>
      if at_limit limit count then Ok []
      else
        let? (_, value) := result_map_err storage item in
        let? envelope := decode_value value in
        let? events := scan_loop limit (S count) items in
        Ok (ee_event envelope :: events)
  end.

Definition scan_all_events (filter : EventFilter) (s : ks_state) : Result (list Event) StoreFault :=
  scan_loop (ef_limit filter) 0 (ks_prefix s Partition.Events "log:").

Fixpoint condition_loop (filter : EventFilter) (condition : Event -> bool) (count : nat)
    (items : Items) : Result (list Event) StoreFault :=
  match items with
  | [] => Ok []
  | item :: items =>
      if at_limit (ef_limit filter) count then Ok []
      else
        let? (_, value) := result_map_err storage item in
        let? envelope := decode_value value in
        if coarse_match filter condition (ee_event envelope) then
          let? events := condition_loop filter condition (S count) items in
          Ok (ee_event envelope :: events)
        else condition_loop filter condition count items
  end.

Definition scan_all_events_with_condition (filter : EventFilter) (condition : Event -> bool)
    (s : ks_state) : Result (list Event) StoreFault :=
  condition_loop filter condition 0 (ks_prefix s Partition.Events "log:").

Fixpoint before_loop (filter : EventFilter) (exclusive_max_seq : Z) (condition : Event -> bool)
    (count : nat) (items : Items) : Result (list Event) StoreFault :=
  match items with
  | [] => Ok []
  | item :: items =>
      if at_limit (ef_limit filter) count then Ok []
      else
        let? (key, value) := result_map_err storage item in
        match parse_seq_from_log_key key with
        | None => before_loop filter exclusive_max_seq condition count items
        | Some seq =>
            if (exclusive_max_seq <=? seq)%Z then Ok []
            else
              let? envelope := decode_value value in
              if coarse_match filter condition (ee_event envelope) then
                let? events := before_loop filter exclusive_max_seq condition (S count) items in
                Ok (ee_event envelope :: events)
              else before_loop filter exclusive_max_seq condition count items
        end
  end.

Definition scan_all_events_before_seq (filter : EventFilter) (exclusive_max_seq : Z)
    (condition : Event -> bool) (s : ks_state) : Result (list Event) StoreFault :=
  before_loop filter exclusive_max_seq condition 0 (ks_prefix s Partition.Events "log:").

(** ** The index *)

Definition index_start_seq (s : ks_state) : Result Z StoreFault :=
  load_meta_u64 KEY_META_INDEX_START_SEQ "Invalid index watermark format" s.

(** the first item of the scan, if any *)
Definition has_index_data_for_prefix (prefix : string) (s : ks_state) : Result bool StoreFault :=
  match ks_prefix s Partition.Events prefix with
  | [] => Ok false
  | item :: _ => let? _ := result_map_err storage item in Ok true
  end.

Fixpoint index_loop (s : ks_state) (filter : EventFilter) (min_seq : Z) (condition : Event -> bool)
    (count : nat) (items : Items) : Result (list Event) StoreFault :=
  match items with
  | [] => Ok []
  | item :: items =>
      if at_limit (ef_limit filter) count then Ok []
      else
        let? (index_key, _) := result_map_err storage item in
        match parse_seq_from_index_key index_key with
        | None => index_loop s filter min_seq condition count items
        | Some seq =>
            if (seq <? min_seq)%Z then index_loop s filter min_seq condition count items
            else
              let? event_value := get_key s Partition.Events (log_key seq) in
              match event_value with
              | None => index_loop s filter min_seq condition count items
              | Some value =>
                  let? envelope := decode_value value in
                  if coarse_match filter condition (ee_event envelope) then
                    let? events := index_loop s filter min_seq condition (S count) items in
                    Ok (ee_event envelope :: events)
                  else index_loop s filter min_seq condition count items
              end
        end
  end.

Definition query_by_index_prefix (index_prefix : string) (filter : EventFilter) (min_seq : Z)
    (condition : Event -> bool) (s : ks_state) : Result (list Event) StoreFault :=
  index_loop s filter min_seq condition 0 (ks_prefix s Partition.Events index_prefix).

(** The common body of [query_by_task], [query_by_review] and [query_by_agent]. *)
Definition query_indexed (index_prefix : string) (condition : Event -> bool) (filter : EventFilter)
    (s : ks_state) : Result (list Event) StoreFault :=
  let? start := index_start_seq s in
  let filter_without_limit := filter <| ef_limit := None |> in
  if (start =? 0)%Z then scan_all_events_with_condition filter_without_limit condition s
  else
    let? events := scan_all_events_before_seq filter_without_limit start condition s in
    let? has_index := has_index_data_for_prefix index_prefix s in
    let? indexed := if has_index
                    then query_by_index_prefix index_prefix filter_without_limit start condition s
                    else Ok [] in
    Ok (truncate (ef_limit filter) (events ++ indexed)).

Definition query_by_aggregate (aggregate_id : string) (filter : EventFilter) (s : ks_state)
    : Result (list Event) StoreFault :=
  scan_all_events_with_condition filter (fun event => bool_decide (ev_aggregate_id event = aggregate_id)) s.

Definition query_by_task (task_id : string) : EventFilter -> ks_state -> Result (list Event) StoreFault :=
  query_indexed (task_index_prefix task_id) (task_condition task_id).

Definition query_by_review (review_id : string) : EventFilter -> ks_state -> Result (list Event) StoreFault :=
  query_indexed (review_index_prefix review_id) (review_condition review_id).

Definition query_by_agent (agent_id : string) : EventFilter -> ks_state -> Result (list Event) StoreFault :=
  query_indexed (agent_index_prefix agent_id) (agent_condition agent_id).

(** The choice of [execute]: the first dimension of the filter decides. *)
Definition select_events (filter : EventFilter) (s : ks_state) : Result (list Event) StoreFault :=
  match ef_aggregate_id filter, ef_task_id filter, ef_review_id filter, ef_agent_id filter with
  | Some aggregate_id, _, _, _ => query_by_aggregate aggregate_id filter s
  | None, Some task_id, _, _ => query_by_task task_id filter s
  | None, None, Some review_id, _ => query_by_review review_id filter s
  | None, None, None, Some agent_id => query_by_agent agent_id filter s
  | None, None, None, None => scan_all_events filter s
  end.

(** [QueryExecutor::execute], the [query] of the event store *)
Definition execute (filter : EventFilter) (s : ks_state) : Result (list Event) StoreFault :=
  let? events := select_events filter s in
  Ok (truncate (ef_limit filter) (apply_filters events filter)).

(** ** The reference *)

(** The events of the log proper, in the order of their numbers. *)
Definition hot_events (s : ks_state) (n : Z) : list Event :=
  omap (fun m => ee_event <$> hot (ks_contents s Partition.Events) m) (seqZ 1 n).

(** The dimension a filter selects: only the first one given counts. *)
Definition dimension (filter : EventFilter) : option (Event -> bool) :=
  match ef_aggregate_id filter, ef_task_id filter, ef_review_id filter, ef_agent_id filter with
  | Some aggregate_id, _, _, _ => Some (fun event => bool_decide (ev_aggregate_id event = aggregate_id))
  | None, Some task_id, _, _ => Some (task_condition task_id)
  | None, None, Some review_id, _ => Some (review_condition review_id)
  | None, None, None, Some agent_id => Some (agent_condition agent_id)
  | None, None, None, None => None
  end.

(** The events a filter describes. *)
Definition filter_matches (f : EventFilter) (event : Event) : bool :=
  match dimension f with Some condition => condition event | None => true end
  && kind_matches f event
  && match ef_since f with Some since => (since <=? ev_timestamp event)%Z | None => true end
  && match ef_until f with Some until => (ev_timestamp event <=? until)%Z | None => true end.

(** ** Loops over a scan *)

(** What an entry of the log holds. *)
Definition entry_event (kv : string * string) (e : Event) : Prop :=
  exists env, from_slice kv.2 = Ok env /\ ee_event env = e.

(** A result is the list, or a storage fault. *)
Definition answers (r : Result (list Event) StoreFault) (l : list Event) : Prop :=
  match r with Ok l' => l' = l | Err (Failed (StoreError.Storage _)) => True | Err _ => False end.

Lemma answers_cons r e l : answers r l -> answers (let? l' := r in Ok (e :: l')) (e :: l).
Proof. destruct r as [l'|]; cbn; [by intros ->|done]. Qed.

Definition truncate_from {A} (limit : option nat) (count : nat) (l : list A) : list A :=
  match limit with Some k => take (k - count) l | None => l end.

Lemma truncate_from_0 {A} limit (l : list A) : truncate_from limit 0 l = truncate limit l.
Proof. destruct limit; cbn; [by rewrite Nat.sub_0_r|done]. Qed.

Lemma at_limit_truncate {A} limit count (l : list A) :
  at_limit limit count = true -> truncate_from limit count l = [].
Proof. destruct limit as [k|]; cbn; [|done]. intros ?%Nat.leb_le. by rewrite (proj2 (Nat.sub_0_le _ _)). Qed.

Lemma truncate_from_cons {A} limit count (x : A) l :
  at_limit limit count = false ->
  truncate_from limit count (x :: l) = x :: truncate_from limit (S count) l.
Proof.
  destruct limit as [k|]; cbn; [|done]. intros ?%Nat.leb_gt.
  by replace (k - count)%nat with (S (k - S count)) by lia.
Qed.

Lemma decode_entry_event kv e :
  entry_event kv e -> exists env, decode_value kv.2 = Ok env /\ ee_event env = e.
Proof. intros (env & Hd & He). exists env. unfold decode_value. by rewrite Hd. Qed.

Lemma scan_loop_spec limit entries events : Forall2 entry_event entries events ->
  forall count items, yields items entries ->
  answers (scan_loop limit count items) (truncate_from limit count events).
Proof.
  induction 1 as [|[k v] e entries events He _ IH]; intros count items Hy.
  { apply yields_nil_inv in Hy as [->|(err & rest & ->)]; cbn [scan_loop]; [by destruct limit; cbn; rewrite ?take_nil|].
    destruct (at_limit limit count); [by destruct limit; cbn; rewrite ?take_nil|done]. }
  apply yields_cons_inv in Hy as [(items' & -> & Hy)|(err & rest & ->)]; cbn [scan_loop];
    destruct (at_limit limit count) eqn:Hl; try (by rewrite at_limit_truncate); [|done].
  destruct (decode_entry_event _ _ He) as (env & Hd & <-). cbn [result_map_err result_bind].
  cbn [snd] in Hd. rewrite Hd. cbn [result_bind]. rewrite truncate_from_cons by done.
  by apply answers_cons, IH.
Qed.

Lemma condition_loop_spec f c entries events : Forall2 entry_event entries events ->
  forall count items, yields items entries ->
  answers (condition_loop f c count items)
    (truncate_from (ef_limit f) count (filter (fun e => coarse_match f c e = true) events)).
Proof.
  induction 1 as [|[k v] e entries events He _ IH]; intros count items Hy.
  { apply yields_nil_inv in Hy as [->|(err & rest & ->)]; cbn [condition_loop];
      [by destruct (ef_limit f); cbn; rewrite ?take_nil|].
    destruct (at_limit (ef_limit f) count); [by destruct (ef_limit f); cbn; rewrite ?take_nil|done]. }
  apply yields_cons_inv in Hy as [(items' & -> & Hy)|(err & rest & ->)]; cbn [condition_loop];
    destruct (at_limit (ef_limit f) count) eqn:Hl; try (by rewrite at_limit_truncate); [|done].
  destruct (decode_entry_event _ _ He) as (env & Hd & <-). cbn [result_map_err result_bind].
  cbn [snd] in Hd. rewrite Hd. cbn [result_bind]. rewrite filter_cons.
  destruct (coarse_match f c (ee_event env)); case_decide; try done; [|by apply IH].
  rewrite truncate_from_cons by done. by apply answers_cons, IH.
Qed.

(** ** The log as a list *)

Section reachable.
Context (s : ks_state) (n : Z) (D : ks_durable s n).

Let ev := ks_contents s Partition.Events.

Definition log_entry (m : Z) : option (string * string) := pair (log_key m) <$> ev !! log_key m.
Definition hot_event (m : Z) : option Event := ee_event <$> hot ev m.

Lemma log_entry_inv m k v : log_entry m = Some (k, v) -> k = log_key m /\ ev !! log_key m = Some v.
Proof. unfold log_entry. destruct (ev !! log_key m) as [w|]; cbn; [|done]. intros Heq. split; congruence. Qed.

Lemma number_u64 m : (1 <= m <= n)%Z -> is_u64 m.
Proof. pose proof (du_range _ _ _ _ D). unfold is_u64 in *. lia. Qed.

(** A log entry decodes to the event of its number. *)
Lemma log_entry_event m : (1 <= m <= n)%Z ->
  match log_entry m with
  | Some kv => exists env, from_slice kv.2 = Ok env /\ hot ev m = Some env
  | None => hot ev m = None
  end.
Proof.
  intros Hm. destruct (du_stored _ _ _ _ D m Hm) as (env & Henv & _). revert Henv.
  unfold log_entry, hot, stored. fold ev. destruct (ev !! log_key m) as [v|]; cbn; [|done].
  unfold envelope_of. destruct (from_slice v) as [env'|]; [|done]. eauto.
Qed.

Lemma log_entries_events ms : Forall (fun m => 1 <= m <= n)%Z ms ->
  Forall2 entry_event (omap log_entry ms) (omap hot_event ms).
Proof.
  induction 1 as [|m ms Hm _ IH]; cbn; [constructor|]. pose proof (log_entry_event m Hm) as He.
  unfold hot_event. destruct (log_entry m) as [kv|]; [|by rewrite He].
  destruct He as (env & Hd & ->). cbn. constructor; [by exists env|done].
Qed.

Lemma seqZ_numbers : Forall (fun m => 1 <= m <= n)%Z (seqZ 1 n).
Proof. apply Forall_forall. intros m Hm%elem_of_seqZ. lia. Qed.

Lemma elem_of_log_list k v :
  (k, v) ∈ omap log_entry (seqZ 1 n) <-> ev !! k = Some v /\ starts_with "log:" k = true.
Proof.
  rewrite list_elem_of_omap. split.
  - intros (m & _ & [-> Hv]%log_entry_inv). split; [done|apply log_key_prefix].
  - intros [Hv Hp]. destruct (du_log _ _ _ _ D _ _ Hv Hp) as (m & Hm & ->). exists m.
    split; [apply elem_of_seqZ; lia|]. unfold log_entry. by rewrite Hv.
Qed.

(** The order of the keys is that of the numbers. *)
Lemma log_key_leb_of m m' : is_u64 m -> is_u64 m' -> (m < m')%Z -> str_leb (log_key m) (log_key m') = true.
Proof.
  intros Hm Hm' Hlt. unfold str_leb, String.leb, log_key. rewrite compare_append_l, compare_fmt020 by done.
  by destruct (Z.compare_spec m m'); [lia| |lia].
Qed.

(** A scan of the log yields its entries in the order of their numbers. *)
Lemma log_scan : yields (ks_prefix s Partition.Events "log:") (omap log_entry (seqZ 1 n)).
Proof.
  destruct (ks_prefix_law s Partition.Events "log:") as (entries & Hy & Hp & Hs).
  assert (entries = omap log_entry (seqZ 1 n)) as <-; [|done].
  apply (StronglySorted_unique_strong (fun a b => key_leb a b = true)); [|done|..].
  - intros [k v] [k' v'] Hin Hin' Hle Hge.
    apply (elem_of_prefix_entries _ _ _ _ _ _ Hp) in Hin as [Hk _]. apply elem_of_log_list in Hin' as [Hk' _].
    assert (k = k') as <- by (apply String.leb_antisym; done). fold ev in Hk. congruence.
  - eapply (sorted_omap Z.lt); [|apply sorted_seqZ].
    intros m m' [k v] [k' v'] Hm Hm' Hlt [-> _]%log_entry_inv [-> _]%log_entry_inv. apply elem_of_seqZ in Hm, Hm'.
    apply log_key_leb_of; [apply number_u64; lia..|done].
  - apply NoDup_Permutation.
    + rewrite Hp. apply NoDup_filter, NoDup_map_to_list.
    + apply NoDup_omap_inj; [apply NoDup_seqZ|]. intros m m' [k v] Hm Hm' [-> _]%log_entry_inv [Heq _]%log_entry_inv.
      apply elem_of_seqZ in Hm, Hm'. apply log_key_inj; [apply number_u64; lia..|done].
    + intros [k v]. rewrite (elem_of_prefix_entries _ _ _ _ _ _ Hp), elem_of_log_list. done.
Qed.

(** ** The scan before the index and the scan of the index *)

Definition coarse (f : EventFilter) (c : Event -> bool) (m : Z) : option Event :=
  match hot_event m with Some e => if coarse_match f c e then Some e else None | None => None end.

Lemma coarse_filter f c (ms : list Z) : omap (coarse f c) ms = filter (fun e => coarse_match f c e = true) (omap hot_event ms).
Proof.
  induction ms as [|m ms IH]; [done|]. cbn [omap list_omap]. unfold coarse at 1.
  destruct (hot_event m) as [e|]; [|done]. rewrite filter_cons.
  destruct (coarse_match f c e); case_decide; try done; by rewrite IH.
Qed.

(** Without a limit the loop over the log stops at the bound. *)
Lemma before_loop_spec f c start ms count : ef_limit f = None ->
  Forall (fun m => 1 <= m <= n)%Z ms -> StronglySorted Z.lt ms ->
  forall items, yields items (omap log_entry ms) ->
  answers (before_loop f start c count items)
    (omap (coarse f c) (filter (fun m => m < start)%Z ms)).
Proof.
  intros Hnl Hall Hs. revert count Hall. induction Hs as [|m ms Hs IH Hlt]; intros count Hall items Hy.
  { apply yields_nil_inv in Hy as [->|(err & rest & ->)]; cbn; [done|]. by rewrite Hnl. }
  apply Forall_cons in Hall as [Hm Hall]. pose proof (log_entry_event m Hm) as He.
  cbn in Hy. rewrite filter_cons. destruct (log_entry m) as [[k v]|] eqn:Hkv; cycle 1.
  { assert (Hc : coarse f c m = None) by (unfold coarse, hot_event; by rewrite He).
    case_decide; cbn; rewrite ?Hc; by apply IH. }
  destruct He as (env & Hd & Hh). apply log_entry_inv in Hkv as [-> _].
  apply yields_cons_inv in Hy as [(items' & -> & Hy)|(err & rest & ->)]; cbn [before_loop];
    rewrite Hnl; cbn [at_limit result_map_err result_bind]; [|done].
  rewrite parse_log_key by by apply number_u64. destruct (Z.leb_spec start m) as [Hge|Hb].
  { rewrite decide_False by lia.
    rewrite filter_none; [done|]. apply Forall_impl with (1 := Hlt). lia. }
  rewrite decide_True by lia. cbn [snd] in Hd. unfold decode_value. rewrite Hd. cbn [result_map_err result_bind].
  cbn [omap list_omap]. unfold coarse at 1, hot_event. rewrite Hh. cbn.
  destruct (coarse_match f c (ee_event env)); [apply answers_cons|]; by apply IH.
Qed.

(** What one index entry contributes. *)
Definition index_pick (f : EventFilter) (c : Event -> bool) (start : Z) (kv : string * string)
    : option (Z * Event) :=
  match parse_seq_from_index_key kv.1 with
  | Some m => if (start <=? m)%Z then pair m <$> coarse f c m else None
  | None => None
  end.

(** A dimension of the index: the events that satisfy the condition have their
    entry under the prefix, and only that one. *)
Record index_dimension (pre : string) (c : Event -> bool) : Prop := mkIndexDimension {
  id_key : forall e m, c e = true -> pre +:+ fmt020 m ∈ make_index_keys e m;
  id_only : forall e m k, c e = true -> k ∈ make_index_keys e m -> starts_with pre k = true ->
    k = pre +:+ fmt020 m;
  id_log : forall k, starts_with pre k = true -> starts_with "log:" k = false
}.

Lemma coarse_Some f c m e : coarse f c m = Some e -> hot_event m = Some e /\ c e = true.
Proof.
  unfold coarse. destruct (hot_event m) as [e'|]; [|done]. destruct (coarse_match f c e') eqn:Hc; [|done]. intros [= ->].
  split; [done|]. unfold coarse_match in Hc. by destruct (c e); rewrite ?andb_false_r in Hc.
Qed.

Section dimension.
Context (pre : string) (c : Event -> bool) (I : index_dimension pre c) (f : EventFilter) (start : Z).

(** An entry under the prefix is that of a hot event. *)
Lemma index_entry k v : ev !! k = Some v -> starts_with pre k = true ->
  exists m e, (1 <= m <= n)%Z /\ parse_seq_from_index_key k = Some m /\ hot_event m = Some e /\
    k ∈ make_index_keys e m.
Proof.
  intros Hk Hp. destruct (du_index_sound _ _ _ _ D _ _ Hk (id_log _ _ I _ Hp)) as (m & env & Hm & Hh & Hin).
  exists m, (ee_event env). split_and!; [lia..|by eapply index_key_parse, Hin; apply number_u64| |done].
  unfold hot_event. fold ev in Hh. by rewrite Hh.
Qed.

Lemma index_pick_inv k v m e : ev !! k = Some v -> starts_with pre k = true ->
  index_pick f c start (k, v) = Some (m, e) ->
  (1 <= m <= n)%Z /\ (start <= m)%Z /\ coarse f c m = Some e /\ k = pre +:+ fmt020 m.
Proof.
  intros Hk Hp Hpick. destruct (index_entry _ _ Hk Hp) as (m' & e' & Hm & Hparse & Hh & Hin).
  unfold index_pick in Hpick. cbn [fst] in Hpick. rewrite Hparse in Hpick.
  destruct (Z.leb_spec start m'); [|done]. destruct (coarse f c m') as [e''|] eqn:Hc; [|done].
  injection Hpick as -> ->. split_and!; [lia..|done|]. apply coarse_Some in Hc as [Hh' Hce].
  assert (e' = e) as -> by congruence. by eapply id_only.
Qed.

Lemma index_loop_spec entries count : ef_limit f = None ->
  (forall k v, (k, v) ∈ entries -> ev !! k = Some v /\ starts_with pre k = true) ->
  forall items, yields items entries ->
  answers (index_loop s f start c count items) (omap (index_pick f c start) entries).*2.
Proof.
  intros Hnl. revert count. induction entries as [|[k v] entries IH]; intros count Hin items Hy.
  { apply yields_nil_inv in Hy as [->|(err & rest & ->)]; cbn; [done|]. by rewrite Hnl. }
  destruct (Hin k v) as [Hk Hp]; [left|]. specialize (fun cnt => IH cnt (fun k v Hkv => Hin k v (list_elem_of_further _ _ _ Hkv))).
  destruct (index_entry _ _ Hk Hp) as (m & e & Hm & Hparse & Hh & _).
  apply yields_cons_inv in Hy as [(items' & -> & Hy)|(err & rest & ->)]; cbn [index_loop];
    rewrite Hnl; cbn [at_limit result_map_err result_bind]; [|done].
  cbn [omap list_omap]. unfold index_pick at 1. cbn [fst]. rewrite Hparse.
  destruct (Z.ltb_spec m start) as [Hlt|Hge], (Z.leb_spec start m); try lia; [by apply IH|].
  unfold get_key. destruct (ks_get s Partition.Events (log_key m)) as [o|] eqn:Hg; cbn; [|done].
  apply ks_get_law in Hg. fold ev in Hg. unfold coarse. rewrite Hh. unfold hot_event, hot in Hh. rewrite <-Hg in Hh.
  destruct o as [w|]; [|done]. cbn in Hh. unfold envelope_of in Hh. unfold decode_value.
  destruct (from_slice w) as [env|]; cbn in *; [|done]. injection Hh as ->.
  destruct (coarse_match f c e); [apply answers_cons|]; by apply IH.
Qed.

Lemma index_key_leb m m' : is_u64 m -> is_u64 m' ->
  str_leb (pre +:+ fmt020 m) (pre +:+ fmt020 m') = true -> (m <= m')%Z.
Proof.
  intros Hm Hm'. unfold str_leb, String.leb. rewrite compare_append_l, compare_fmt020 by done.
  destruct (Z.compare_spec m m'); [lia|lia|done].
Qed.

(** Every event from the start of the index on has its entry there. *)
Lemma index_pick_complete (entries : list (string * string)) m e :
  (forall k v, (k, v) ∈ entries <-> ev !! k = Some v /\ starts_with pre k = true) ->
  (start <= m)%Z -> (1 <= m <= n)%Z -> coarse f c m = Some e ->
  exists kv, kv ∈ entries /\ index_pick f c start kv = Some (m, e).
Proof.
  intros Hin Hs Hm Hc. pose proof (coarse_Some _ _ _ _ Hc) as [Hh Hce]. unfold hot_event in Hh.
  destruct (hot ev m) as [env|] eqn:He; [|done]. injection Hh as <-.
  pose proof (id_key _ _ I _ m Hce) as Hkey.
  destruct (du_index _ _ _ _ D m env _ Hm He Hkey) as [v Hv].
  exists (pre +:+ fmt020 m, v). split; [apply Hin; split; [done|apply starts_with_app]|].
  unfold index_pick. cbn [fst]. rewrite (index_key_parse _ _ _ (number_u64 _ Hm) Hkey).
  rewrite (proj2 (Z.leb_le _ _) Hs), Hc. done.
Qed.

(** The scan of the index finds the events from its start on. *)
Lemma index_scan : exists entries, yields (ks_prefix s Partition.Events pre) entries /\
  (forall k v, (k, v) ∈ entries -> ev !! k = Some v /\ starts_with pre k = true) /\
  (omap (index_pick f c start) entries).*2 = omap (coarse f c) (filter (fun m => start <= m)%Z (seqZ 1 n)).
Proof.
  destruct (ks_prefix_law s Partition.Events pre) as (entries & Hy & Hp & Hs). exists entries. split; [done|].
  assert (Hin : forall k v, (k, v) ∈ entries <-> ev !! k = Some v /\ starts_with pre k = true).
  { intros k v. apply (elem_of_prefix_entries _ _ _ _ _ _ Hp). }
  split; [intros k v; apply Hin|].
  set (numbered m := pair m <$> coarse f c m).
  set (ms := filter (fun m => start <= m)%Z (seqZ 1 n)).
  assert (Hms : forall m, m ∈ ms <-> (start <= m)%Z /\ (1 <= m <= n)%Z).
  { intros m. unfold ms. rewrite list_elem_of_filter, elem_of_seqZ. lia. }
  assert (Hnum : forall m p, numbered m = Some p -> p.1 = m /\ coarse f c m = Some p.2).
  { intros m p. unfold numbered. destruct (coarse f c m); cbn; [|done]. by intros [= <-]. }
  assert (omap (index_pick f c start) entries = omap numbered ms) as ->; cycle 1.
  { rewrite list_fmap_omap. clear Hms. induction ms as [|m ms IH]; cbn; [done|]. unfold numbered at 1.
    destruct (coarse f c m); cbn; by rewrite IH. }
  assert (Hpick : forall m e, (m, e) ∈ omap (index_pick f c start) entries <-> (m, e) ∈ omap numbered ms).
  { intros m e. rewrite !list_elem_of_omap. split.
    - intros ([k v] & [Hk Hpre]%Hin & Hpick). destruct (index_pick_inv _ _ _ _ Hk Hpre Hpick) as (? & ? & Hc & _).
      exists m. split; [by apply Hms|]. unfold numbered. by rewrite Hc.
    - intros (m' & [? ?]%Hms & [Heq Hc]%Hnum). cbn in Heq, Hc. subst m'. by apply index_pick_complete. }
  apply (StronglySorted_unique_strong (fun a b => a.1 <= b.1)%Z).
  - intros [m e] [m' e'] (m1 & _ & [? He]%Hnum)%Hpick%list_elem_of_omap (m2 & _ & [? He']%Hnum)%list_elem_of_omap Hle Hge.
    cbn in *. assert (m' = m) by lia. congruence.
  - eapply sorted_omap, Hs. intros [k v] [k' v'] [m e] [m' e'] [Hk Hpre]%Hin [Hk' Hpre']%Hin Hle Hp1 Hp2. cbn.
    destruct (index_pick_inv _ _ _ _ Hk Hpre Hp1) as (? & _ & _ & ->),
      (index_pick_inv _ _ _ _ Hk' Hpre' Hp2) as (? & _ & _ & ->).
    apply index_key_leb in Hle; [done|by apply number_u64..].
  - apply (sorted_omap Z.lt); [|apply sorted_filter_Prop, sorted_seqZ].
    intros m m' p p' _ _ Hlt [-> _]%Hnum [-> _]%Hnum. lia.
  - apply NoDup_Permutation; [apply NoDup_omap_inj|apply NoDup_omap_inj|by intros []].
    + rewrite Hp. apply NoDup_filter, NoDup_map_to_list.
    + intros [k v] [k' v'] [m e] [Hk Hpre]%Hin [Hk' Hpre']%Hin Hp1 Hp2.
      destruct (index_pick_inv _ _ _ _ Hk Hpre Hp1) as (_ & _ & _ & ->),
        (index_pick_inv _ _ _ _ Hk' Hpre' Hp2) as (_ & _ & _ & ->). congruence.
    + apply NoDup_filter, NoDup_seqZ.
    + intros m m' p _ _ [<- _]%Hnum [<- _]%Hnum. done.
Qed.

Lemma query_by_index_spec : ef_limit f = None ->
  answers (query_by_index_prefix pre f start c s)
    (omap (coarse f c) (filter (fun m => start <= m)%Z (seqZ 1 n))).
Proof.
  intros Hnl. destruct index_scan as (entries & Hy & Hin & <-). by eapply index_loop_spec.
Qed.

(** Without entries under the prefix there is no such event. *)
Lemma no_index_data : has_index_data_for_prefix pre s = Ok false ->
  omap (coarse f c) (filter (fun m => start <= m)%Z (seqZ 1 n)) = [].
Proof.
  unfold has_index_data_for_prefix. destruct index_scan as (entries & Hy & _ & <-).
  destruct (ks_prefix s Partition.Events pre) as [|[[k v]|e] items]; try done.
  destruct entries as [|kv entries]; [done|]. by apply yields_cons_inv in Hy as [(? & ? & _)|(? & ? & ?)].
Qed.
End dimension.

Lemma answers_bind (r : Result (list Event) StoreFault) k l l' :
  answers r l -> answers (k l) l' -> answers (result_bind r k) l'.
Proof. destruct r as [l0|]; cbn; [by intros ->|done]. Qed.

(** The index starts somewhere, or there is none yet. *)
Lemma index_start_seq_spec :
  match index_start_seq s with Ok _ => True | Err (Failed (StoreError.Storage _)) => True | Err _ => False end.
Proof.
  unfold index_start_seq, load_meta_u64, get_key.
  destruct (ks_get s Partition.Meta _) as [v|] eqn:Hg; cbn; [|done]. apply ks_get_law in Hg.
  destruct v as [b|]; [|done]. destruct (du_start _ _ _ _ D b) as (i & Hi & ->); [by rewrite <-Hg|].
  by rewrite from_to_be_bytes.
Qed.

Lemma query_indexed_spec pre c f : index_dimension pre c -> exists cut : bool,
  answers (query_indexed pre c f s)
    ((if cut then truncate (ef_limit f) else id)
      (filter (fun e => coarse_match f c e = true) (hot_events s n))).
Proof.
  intros I. pose proof index_start_seq_spec as Hst. unfold query_indexed.
  destruct (index_start_seq s) as [start|[[]|]]; cbn [result_bind]; try done; [|by exists true].
  set (g := f <| ef_limit := None |>). destruct (Z.eqb_spec start 0) as [_|Hne].
  { exists false. cbn [id]. pose proof (condition_loop_spec g c _ _ (log_entries_events _ seqZ_numbers) 0 _ log_scan) as Hc.
    apply Hc. }
  exists true. pose proof (before_loop_spec g c start (seqZ 1 n) 0 eq_refl seqZ_numbers (sorted_seqZ 1 n) _ log_scan) as Hb.
  apply (answers_bind _ _ _ _ Hb). clear Hb.
  destruct (has_index_data_for_prefix pre s) as [b|e] eqn:Hhas; cbn [result_bind]; cycle 1.
  { revert Hhas. unfold has_index_data_for_prefix. by destruct (ks_prefix s Partition.Events pre) as [|[] ?]; intros [= <-]. }
  assert (Hi : answers (if b then query_by_index_prefix pre g start c s else Ok [])
    (omap (coarse g c) (filter (fun m => start <= m)%Z (seqZ 1 n)))).
  { destruct b; [by apply query_by_index_spec|]. cbn. by rewrite (no_index_data pre c I g start). }
  apply (answers_bind _ _ _ _ Hi). cbn. f_equal.
  rewrite <-omap_app, sorted_split by apply sorted_seqZ. exact (coarse_filter g c (seqZ 1 n)).
Qed.
End reachable.

(** ** The dimensions *)

Lemma elem_of_option_keys {A} (P : A -> string) (o : option A) (k : string) :
  k ∈ match o with Some a => [P a] | None => [] end <-> exists a, o = Some a /\ k = P a.
Proof.
  destruct o as [a|]; rewrite ?list_elem_of_singleton; [split; [by eauto|by intros (? & [= ->] & ->)]|].
  split; [by intros ?%elem_of_nil|by intros (? & ? & _)].
Qed.

Lemma elem_of_make_index_keys e m k : k ∈ make_index_keys e m <->
  (exists t, event_task_id (ev_kind e) = Some t /\ k = task_index_key t m) \/
  (exists r, event_review_id (ev_kind e) = Some r /\ k = review_index_key r m) \/
  (exists a, event_agent_id (ev_kind e) = Some a /\ k = agent_index_key a m).
Proof. unfold make_index_keys. by rewrite !elem_of_app, !elem_of_option_keys. Qed.

Lemma task_condition_id t e : task_condition t e = true -> event_task_id (ev_kind e) = Some t.
Proof. unfold task_condition. destruct (ev_kind e); cbn; try done; by intros ->%bool_decide_eq_true. Qed.

Lemma review_condition_id r e : review_condition r e = true -> event_review_id (ev_kind e) = Some r.
Proof. unfold review_condition. destruct (ev_kind e); cbn; try done; by intros ->%bool_decide_eq_true. Qed.

Lemma agent_condition_id a e : agent_condition a e = true -> event_agent_id (ev_kind e) = Some a.
Proof. unfold agent_condition. destruct (ev_kind e); cbn; try done; by intros ->%bool_decide_eq_true. Qed.

(** The entry of its own dimension is the only one under the prefix. *)
Ltac solve_dimension condition_id :=
  split;
  [ intros e m Hc; apply condition_id in Hc; apply elem_of_make_index_keys;
    unfold task_index_key, review_index_key, agent_index_key, task_index_prefix,
      review_index_prefix, agent_index_prefix; rewrite !append_assoc; eauto 6
  | intros e m k Hc [(? & ? & ->)|[(? & ? & ->)|(? & ? & ->)]]%elem_of_make_index_keys Hp;
    apply condition_id in Hc;
    first [ by apply starts_with_iff in Hp as [? ?]
          | simplify_eq;
            unfold task_index_key, review_index_key, agent_index_key, task_index_prefix,
              review_index_prefix, agent_index_prefix; by rewrite <-!append_assoc ]
  | by intros k [? ->]%starts_with_iff ].

Lemma task_dimension t : index_dimension (task_index_prefix t) (task_condition t).
Proof. solve_dimension task_condition_id. Qed.

Lemma review_dimension r : index_dimension (review_index_prefix r) (review_condition r).
Proof. solve_dimension review_condition_id. Qed.

Lemma agent_dimension a : index_dimension (agent_index_prefix a) (agent_condition a).
Proof. solve_dimension agent_condition_id. Qed.

(** ** The answer to a filter *)

(** The exact tests. *)
Definition exact_match (f : EventFilter) (event : Event) : bool :=
  kind_matches f event
  && match ef_since f with Some since => (since <=? ev_timestamp event)%Z | None => true end
  && match ef_until f with Some until => (ev_timestamp event <=? until)%Z | None => true end.

Lemma filter_true {A} (p : A -> bool) (l : list A) : (forall x, p x = true) -> filter (fun x => p x = true) l = l.
Proof. intros Hp. apply filter_id. auto. Qed.

Lemma filter_andb {A} (p q : A -> bool) (l : list A) :
  filter (fun x => p x = true) (filter (fun x => q x = true) l) = filter (fun x => q x && p x = true) l.
Proof.
  induction l as [|x l IH]; [done|]. rewrite !filter_cons.
  destruct (q x) eqn:Hq; cbn [andb]; case_decide; try done; rewrite ?filter_cons; by rewrite IH.
Qed.

Lemma apply_filters_exact events f : apply_filters events f = filter (fun e => exact_match f e = true) events.
Proof.
  unfold apply_filters, exact_match. assert (Hk : match ef_kinds f with
    | Some _ => filter (fun e => kind_matches f e = true) events | None => events end =
    filter (fun e => kind_matches f e = true) events).
  { unfold kind_matches. destruct (ef_kinds f); [done|]. symmetry. by apply (filter_true (fun _ => true)). }
  rewrite Hk. destruct (ef_since f), (ef_until f); rewrite ?filter_andb; apply list_filter_iff;
    intros e; by rewrite ?andb_true_r, ?andb_assoc.
Qed.

(** The test to the second lets through what the exact test does. *)
Lemma exact_coarse f c e : c e && exact_match f e = true -> coarse_match f c e && exact_match f e = true.
Proof.
  unfold coarse_match, exact_match, timestamp. intros (Hc & ((Hk & Hs)%andb_prop & Hu)%andb_prop)%andb_prop.
  repeat (apply andb_true_intro; split); try done.
  - destruct (ef_since f) as [t|]; [|done]. apply Z.leb_le in Hs. apply negb_true_iff, Z.ltb_ge, Z.div_le_mono; lia.
  - destruct (ef_until f) as [t|]; [|done]. apply Z.leb_le in Hu. apply negb_true_iff, Z.ltb_ge, Z.div_le_mono; lia.
Qed.

Lemma matches_coarse f c (log : list Event) : dimension f = Some c ->
  filter (fun e => exact_match f e = true) (filter (fun e => coarse_match f c e = true) log) =
  filter (fun e => filter_matches f e = true) log.
Proof.
  intros Hd. rewrite filter_andb. apply list_filter_iff. intros e.
  assert (Hf : filter_matches f e = c e && exact_match f e).
  { unfold filter_matches, exact_match. by rewrite Hd, !andb_assoc. }
  rewrite Hf. split; [|apply exact_coarse]. unfold coarse_match. intros ((((_ & _)%andb_prop & Hc)%andb_prop & _)%andb_prop & Hx)%andb_prop. by rewrite Hc, Hx.
Qed.

Lemma matches_all f (log : list Event) : dimension f = None ->
  filter (fun e => exact_match f e = true) log = filter (fun e => filter_matches f e = true) log.
Proof. intros Hd. apply list_filter_iff. intros e. unfold filter_matches, exact_match. by rewrite Hd. Qed.

Lemma filter_prefix {A} (P : A -> Prop) `{!forall x, Decision (P x)} (l1 l2 : list A) :
  l1 `prefix_of` l2 -> filter P l1 `prefix_of` filter P l2.
Proof. intros [k ->]. rewrite filter_app. by exists (filter P k). Qed.

Lemma truncate_prefix {A} limit (l : list A) : truncate limit l `prefix_of` l.
Proof. destruct limit; [apply prefix_take|done]. Qed.

(** What the first stage of a query selects. *)
Lemma select_spec f s n : ks_durable s n ->
  exists cut : bool, answers (select_events f s)
    ((if cut then truncate (ef_limit f) else id)
      (match dimension f with
       | Some c => filter (fun e => coarse_match f c e = true) (hot_events s n)
       | None => hot_events s n
       end)).
Proof.
  intros D. unfold select_events, dimension.
  destruct (ef_aggregate_id f) as [a|].
  { exists true. unfold query_by_aggregate. rewrite <-truncate_from_0.
    exact (condition_loop_spec f _ _ _ (log_entries_events s n D _ (seqZ_numbers n)) 0 _ (log_scan s n D)). }
  destruct (ef_task_id f) as [t|]; [by eapply query_indexed_spec, task_dimension|].
  destruct (ef_review_id f) as [r|]; [by eapply query_indexed_spec, review_dimension|].
  destruct (ef_agent_id f) as [a|]; [by eapply query_indexed_spec, agent_dimension|].
  exists true. rewrite <-truncate_from_0.
  exact (scan_loop_spec _ _ _ (log_entries_events s n D _ (seqZ_numbers n)) 0 _ (log_scan s n D)).
Qed.

Lemma execute_spec f s n : ks_durable s n ->
  let wanted := filter (fun e => filter_matches f e = true) (hot_events s n) in
  match execute f s with
  | Ok l => l `prefix_of` wanted /\
      (forall k, ef_limit f = Some k -> (length l <= k)%nat) /\
      (ef_limit f = None \/
       (ef_since f = None /\ ef_until f = None /\ (dimension f <> None \/ ef_kinds f = None)) ->
       l = truncate (ef_limit f) wanted)
  | Err (Failed (StoreError.Storage _)) => True
  | Err _ => False
  end.
Proof.
  intros D wanted. destruct (select_spec f s n D) as [cut Hsel]. unfold execute. fold (select_events f s).
  destruct (select_events f s) as [l|]; cbn in *; [|done]. subst l. rewrite apply_filters_exact.
  split_and!.
  - etrans; [apply truncate_prefix|]. destruct (dimension f) as [c|] eqn:Hd.
    + unfold wanted. rewrite <-(matches_coarse f c) by done. apply filter_prefix.
      destruct cut; [apply truncate_prefix|done].
    + unfold wanted. rewrite <-(matches_all f) by done. apply filter_prefix.
      destruct cut; [apply truncate_prefix|done].
  - intros k ->. cbn. rewrite length_take. lia.
  - intros Hwhole. unfold wanted. set (sel := match dimension f with Some c => _ | None => _ end).
    assert (Hsel : filter (fun e => exact_match f e = true) sel = filter (fun e => filter_matches f e = true) (hot_events s n)).
    { unfold sel. destruct (dimension f) eqn:Hd; [by apply matches_coarse|by apply matches_all]. }
    rewrite <-Hsel. destruct Hwhole as [Hl|Hb]; [by destruct cut; rewrite ?Hl|].
    assert (Hex : forall e, e ∈ sel -> exact_match f e = true).
    { destruct Hb as (Hs & Hu & Hk). unfold exact_match. rewrite Hs, Hu. intros e He. rewrite !andb_true_r. revert He.
      unfold sel. destruct (dimension f) as [c|] eqn:Hd.
      - intros [Hc _]%list_elem_of_filter. unfold coarse_match in Hc. rewrite andb_true_iff in Hc. tauto.
      - intros _. unfold kind_matches. by destruct Hk as [?| ->]. }
    rewrite (filter_id _ sel) by done. destruct cut; cbn [id]; [|by rewrite (filter_id _ sel)].
    rewrite filter_id; [by destruct (ef_limit f); cbn; rewrite ?take_take, ?Nat.min_id|].
    intros e He. apply Hex. destruct (truncate_prefix (ef_limit f) sel) as [rest Hrest].
    rewrite Hrest. apply elem_of_app. by left.
Qed.

End executor.

(** The reassignment of a task is indexed under the task, but a query by task
    drops it; so are its proof and feedback events. *)
Lemma task_query_drops_reassignment old new t reason state :
  let kind := EventKind.WorkerReassigned old new t reason state in
  event_task_id kind = Some t /\ forall ts a, task_condition t (mkEvent kind ts a) = false.
Proof. done. Qed.

(** ** Witnesses *)

Section witnesses.
Import MemKeyspace MemStore MemClaims.
#[local] Instance query_order : IterOrder string := canonical_order string.

Definition at_ms (ms : Z) (kind : EventKind) (aggregate : string) : Event :=
  mkEvent kind (ms * 1000000) aggregate.

Definition queried_ops : list StoreOp :=
  [open_op; SAppend (at_ms 100 (EventKind.TaskCreated "T-1") "T-1");
   SAppend (at_ms 600 (EventKind.TaskCreated "T-2") "T-2");
   SRetain 2;
   SAppend (at_ms 900 (EventKind.TaskCompleted "T-2") "T-2")].

Definition queried_run := run_ops queried_ops (Down (empty_keyspace [])).
Definition task_filter : EventFilter := EventFilter_new <| ef_task_id := Some "T-2" |>.

Lemma queried_run_ok : store_run (Down (empty_keyspace [])) queried_run.1.1 queried_run.1.2.
Proof. apply run_ops_run. vm_compute. reflexivity. Qed.

Lemma queried_running : queried_run.1.2 = Running (store_of queried_run.1.2).
Proof. apply running_store. vm_compute. reflexivity. Qed.


(** A limit is spent on events the other parts of the filter drop: the log holds
    a completed task, but a query for it with limit 1 and no dimension returns
    nothing. *)
Lemma limit_before_kinds :
  let f := EventFilter_new <| ef_kinds := Some [EventKind.TaskCompleted "T-2"] |> in
  let log := fs_ks (store_of queried_run.1.2) in
  execute (f <| ef_limit := Some 1%nat |>) log = Ok [] /\
  execute f log = Ok [at_ms 900 (EventKind.TaskCompleted "T-2") "T-2"].
Proof. split; vm_compute; reflexivity. Qed.

(** The same with a bound on the time inside a second. *)
Lemma limit_before_since :
  let f := task_filter <| ef_since := Some 700000000%Z |> in
  let log := fs_ks (store_of queried_run.1.2) in
  execute (f <| ef_limit := Some 1%nat |>) log = Ok [] /\
  execute f log = Ok [at_ms 900 (EventKind.TaskCompleted "T-2") "T-2"].
Proof. split; vm_compute; reflexivity. Qed.
End witnesses.
