(* ===== verification/Reconciler.v ===== *)
(** * Reconciliation planner (brehon-orchestrator/src/reconciler.rs)

    [Reconciler::reconcile] compares a snapshot of tasks, workers and active
    runs and plans repairs: tasks of dead workers are unassigned, workers with a
    wrong assignment are cleared, expired or orphaned claims are renewed,
    released or failed, due retries are started, and what cannot be repaired is
    escalated.  The planner has no effects; Reconciliation.v applies a plan.

    Proved here: what is planned for a run, exactly, and that a plan never
    contains two different repairs of the same run except a renewal followed
    by a failure. *)

From Stdlib Require Import Ascii.
From S2P Require Import Prelude StrLib Types Events TaskLifecycle DependencyGraph TaskBoard Ports WorkerPool RunPort.

Record ReconcilerConfig := mkReconcilerConfig {
  rcc_require_active_worker_runs : bool;
  rcc_renew_live_expired_claims : bool
}.

Definition ReconcilerConfig_default : ReconcilerConfig := mkReconcilerConfig false true.

(** ** Snapshot *)

Record WorkerSnapshotEntry := mkWorkerSnapshotEntry {
  ws_worker_id : WorkerId;
  ws_kind : WorkerKind;
  ws_session_id : SessionId;
  ws_assigned_task : option TaskId;
  ws_is_alive : bool
}.

Definition from_worker_info (worker : WorkerInfo) : WorkerSnapshotEntry :=
  mkWorkerSnapshotEntry (wi_id worker) (wi_kind worker) (wi_session_id worker)
    (wi_assigned_task worker) (wi_is_alive worker).

Record GitOpsSnapshot := mkGitOpsSnapshot { go_available : bool }.

Record ReconciliationInput := mkReconciliationInput {
  ri_now : DateTime;
  ri_tasks : list TaskEntry;
  ri_workers : list WorkerSnapshotEntry;
  ri_dependencies : gmap TaskId (list TaskId);
  ri_git_ops : option GitOpsSnapshot;
  ri_active_runs : list RunRecord
}.

(** ** Actions *)

Module TaskRepairReason.
Inductive TaskRepairReason := MissingWorker | DeadWorker | StaleSession | MissingActiveRun.
End TaskRepairReason.
Abbreviation TaskRepairReason := TaskRepairReason.TaskRepairReason.

(** [TaskUpdateAction::UnassignTask], the only action on tasks *)
Record TaskUpdateAction := UnassignTask {
  tu_task_id : TaskId;
  tu_worker_id : option WorkerId;
  tu_reason : TaskRepairReason
}.

Module RunRepairReason.
Inductive RunRepairReason :=
| ExpiredClaim
| ExpiredRunningClaim
| ExpiredClaimWithLiveOperation
| DeadOrMissingSession
| TerminalTaskHasActiveRun
| RetryDue.

Definition as_str (r : RunRepairReason) : string :=
  match r with
  | ExpiredClaim => "expired claim"
  | ExpiredRunningClaim => "expired running claim"
  | ExpiredClaimWithLiveOperation => "expired claim with live operation"
  | DeadOrMissingSession => "dead or missing session"
  | TerminalTaskHasActiveRun => "terminal task has active run"
  | RetryDue => "retry due"
  end.
End RunRepairReason.
Abbreviation RunRepairReason := RunRepairReason.RunRepairReason.

(** [RunRenewalAction], [RunRetryAttemptAction], [RunReleaseAction] and
    [RunFailureAction] have the same fields. *)
Record RunAction := mkRunAction {
  ac_run : RunRecord;
  ac_observed_at : DateTime;
  ac_reason : RunRepairReason
}.

Module WorkerCleanupReason.
Inductive WorkerCleanupReason := MissingTask | TerminalTask | TaskAssigneeMismatch | TaskSessionMismatch.
End WorkerCleanupReason.
Abbreviation WorkerCleanupReason := WorkerCleanupReason.WorkerCleanupReason.

Inductive WorkerCleanupAction :=
| HandleWorkerDeath (session_id : SessionId)
| ClearAssignment (worker_id : WorkerId) (reason : WorkerCleanupReason).

Definition same_target (a b : WorkerCleanupAction) : bool :=
  match a, b with
  | HandleWorkerDeath s, HandleWorkerDeath t => bool_decide (s = t)
  | ClearAssignment v _, ClearAssignment w _ => bool_decide (v = w)
  | _, _ => false
  end.

Record ReconciliationEscalation := mkEscalation {
  en_task_id : option TaskId;
  en_run_id : option RunId;
  en_reason : string;
  en_context : string
}.

(** ** Plans *)

Record ReconciliationPlan := mkPlan {
  pl_task_updates : list TaskUpdateAction;
  pl_run_retry_attempts : list RunAction;
  pl_run_renewals : list RunAction;
  pl_run_releases : list RunAction;
  pl_run_failures : list RunAction;
  pl_worker_cleanup_actions : list WorkerCleanupAction;
  pl_escalations : list ReconciliationEscalation
}.

#[export] Instance eta_Plan : Eta ReconciliationPlan := fun p =>
  mkPlan (pl_task_updates p) (pl_run_retry_attempts p) (pl_run_renewals p) (pl_run_releases p)
    (pl_run_failures p) (pl_worker_cleanup_actions p) (pl_escalations p).

Definition empty_plan : ReconciliationPlan := mkPlan [] [] [] [] [] [] [].

Definition action_id (a : RunAction) : RunId := rr_run_id (ac_run a).

(** [actions.iter().any(|existing| existing.run.run_id == run_id)] *)
Definition has_run (run_id : RunId) (actions : list RunAction) : bool :=
  existsb (fun a => bool_decide (action_id a = run_id)) actions.

(** [actions.retain(|existing| existing.run.run_id != run_id)] *)
Definition retain_others (run_id : RunId) (actions : list RunAction) : list RunAction :=
  List.filter (fun a => negb (bool_decide (action_id a = run_id))) actions.

Definition has_terminal_run_action (run_id : RunId) (plan : ReconciliationPlan) : bool :=
  has_run run_id (pl_run_failures plan).

Definition add_task_update (action : TaskUpdateAction) (plan : ReconciliationPlan) : ReconciliationPlan :=
  if existsb (fun a => bool_decide (tu_task_id a = tu_task_id action)) (pl_task_updates plan) then plan
  else plan <| pl_task_updates := pl_task_updates plan ++ [action] |>.

Definition add_run_renewal (action : RunAction) (plan : ReconciliationPlan) : ReconciliationPlan :=
  if has_terminal_run_action (action_id action) plan then plan
  else if has_run (action_id action) (pl_run_renewals plan) then plan
  else plan <| pl_run_renewals := pl_run_renewals plan ++ [action] |>.

Definition add_run_release (action : RunAction) (plan : ReconciliationPlan) : ReconciliationPlan :=
  if has_terminal_run_action (action_id action) plan then plan
  else if has_run (action_id action) (pl_run_releases plan) then plan
  else plan <| pl_run_releases := pl_run_releases plan ++ [action] |>.

Definition add_run_failure (action : RunAction) (plan : ReconciliationPlan) : ReconciliationPlan :=
  if has_run (action_id action) (pl_run_failures plan) then plan
  else plan <| pl_run_releases := retain_others (action_id action) (pl_run_releases plan) |>
            <| pl_run_retry_attempts := retain_others (action_id action) (pl_run_retry_attempts plan) |>
            <| pl_run_failures := pl_run_failures plan ++ [action] |>.

Definition add_run_retry_attempt (action : RunAction) (plan : ReconciliationPlan) : ReconciliationPlan :=
  if has_terminal_run_action (action_id action) plan then plan
  else if has_run (action_id action) (pl_run_retry_attempts plan) then plan
  else plan <| pl_run_retry_attempts := pl_run_retry_attempts plan ++ [action] |>.

Definition add_worker_cleanup (action : WorkerCleanupAction) (plan : ReconciliationPlan)
    : ReconciliationPlan :=
  if existsb (fun a => same_target a action) (pl_worker_cleanup_actions plan) then plan
  else plan <| pl_worker_cleanup_actions := pl_worker_cleanup_actions plan ++ [action] |>.

Definition add_escalation (escalation : ReconciliationEscalation) (plan : ReconciliationPlan)
    : ReconciliationPlan :=
  if existsb (fun e => bool_decide (en_task_id e = en_task_id escalation)
                       && bool_decide (en_run_id e = en_run_id escalation)
                       && bool_decide (en_reason e = en_reason escalation)) (pl_escalations plan)
  then plan
  else plan <| pl_escalations := pl_escalations plan ++ [escalation] |>.

(** [ReconciliationPlan::is_empty] *)
Definition plan_is_empty (p : ReconciliationPlan) : bool :=
  match pl_task_updates p, pl_run_retry_attempts p, pl_run_renewals p, pl_run_releases p,
        pl_run_failures p, pl_worker_cleanup_actions p, pl_escalations p with
  | [], [], [], [], [], [], [] => true
  | _, _, _, _, _, _, _ => false
  end.

(** ** Tests on the snapshot *)

Definition is_worker_owned_status (status : TaskStatus) : bool :=
  match status with
  | TaskStatus.Assigned | TaskStatus.InProgress | TaskStatus.ChangesRequested => true
  | _ => false
  end.

Definition expected_active_run_role (status : TaskStatus) : option RunRole :=
  match status with
  | TaskStatus.Assigned | TaskStatus.InProgress | TaskStatus.ChangesRequested => Some RunRole.Worker
  | TaskStatus.InReview => Some RunRole.Reviewer
  | TaskStatus.Approved => Some RunRole.Integration
  | TaskStatus.Pending | TaskStatus.Blocked | TaskStatus.Merged => None
  end.

Definition retry_queued_is_actionable (run : RunRecord) (now : DateTime) : bool :=
  negb (bool_decide (rr_status run = RunStatus.RetryQueued)) || retry_is_due_at run now.

Definition task_session_is_stale (task : TaskEntry) (worker : WorkerSnapshotEntry) : bool :=
  match te_session_id task with
  | Some current => negb (bool_decide (current = ws_session_id worker))
  | None => false
  end.

Definition session_is_alive (input : ReconciliationInput) (session_id : SessionId) : bool :=
  existsb (fun w => ws_is_alive w && bool_decide (ws_session_id w = session_id)) (ri_workers input).

Definition session_has_active_operation_for_run (input : ReconciliationInput) (run : RunRecord) : bool :=
  match rr_session_id run with
  | None => false
  | Some session_id =>
      existsb (fun w => ws_is_alive w && bool_decide (ws_session_id w = session_id)
                        && bool_decide (ws_assigned_task w = Some (rr_task_id run))) (ri_workers input)
      || existsb (fun t => bool_decide (te_id t = rr_task_id run) && is_worker_owned_status (te_status t)
                           && bool_decide (te_session_id t = Some session_id)) (ri_tasks input)
  end.

Definition worker_by_id (input : ReconciliationInput) (worker_id : WorkerId)
    : option WorkerSnapshotEntry :=
  List.find (fun w => bool_decide (ws_worker_id w = worker_id)) (ri_workers input).

(** ** The passes *)

Section reconciler.
Context `{Fmt} (config : ReconcilerConfig).

Definition reconcile_retry_queued_runs (input : ReconciliationInput) (plan : ReconciliationPlan)
    : ReconciliationPlan :=
  foldl (fun plan run =>
    if bool_decide (rr_status run = RunStatus.RetryQueued) && retry_is_due_at run (ri_now input)
    then add_run_retry_attempt (mkRunAction run (ri_now input) RunRepairReason.RetryDue) plan
    else plan) plan (ri_active_runs input).

(** [input.workers.iter().map(|w| (w.worker_id.clone(), w)).collect()]: of two
    entries with one id the last is kept *)
Definition workers_by_id (input : ReconciliationInput) : gmap WorkerId WorkerSnapshotEntry :=
  foldl (fun m w => <[ws_worker_id w := w]> m) ∅ (ri_workers input).
Definition tasks_by_id (input : ReconciliationInput) : gmap TaskId TaskEntry :=
  foldl (fun m t => <[te_id t := t]> m) ∅ (ri_tasks input).

(** The repair of a task by the state of its worker. *)
Definition repair_task (input : ReconciliationInput) (task : TaskEntry) (plan : ReconciliationPlan)
    : ReconciliationPlan :=
  if negb (is_worker_owned_status (te_status task)) then plan
  else match te_assignee task with
  | None => plan
  | Some worker_id =>
      match workers_by_id input !! worker_id with
      | None => add_task_update (UnassignTask (te_id task) None TaskRepairReason.MissingWorker) plan
      | Some worker =>
          if negb (ws_is_alive worker) then
            add_task_update (UnassignTask (te_id task) (Some worker_id) TaskRepairReason.DeadWorker) plan
          else if task_session_is_stale task worker then
            add_worker_cleanup (ClearAssignment worker_id WorkerCleanupReason.TaskSessionMismatch)
              (add_task_update (UnassignTask (te_id task) (Some worker_id) TaskRepairReason.StaleSession) plan)
          else plan
      end
  end.

(** Why the assignment of a worker is cleared, if it is. *)
Definition clear_reason (input : ReconciliationInput) (worker : WorkerSnapshotEntry)
    : option WorkerCleanupReason :=
  match ws_assigned_task worker with
  | None => None
  | Some assigned_task =>
      match tasks_by_id input !! assigned_task with
      | None => Some WorkerCleanupReason.MissingTask
      | Some task =>
          if is_terminal (te_status task) then Some WorkerCleanupReason.TerminalTask
          else if negb (bool_decide (te_assignee task = Some (ws_worker_id worker)))
          then Some WorkerCleanupReason.TaskAssigneeMismatch
          else None
      end
  end.

Definition reconcile_dead_workers (input : ReconciliationInput) (plan : ReconciliationPlan)
    : ReconciliationPlan :=
  let plan := foldl (fun plan w => if negb (ws_is_alive w)
                then add_worker_cleanup (HandleWorkerDeath (ws_session_id w)) plan else plan)
                plan (ri_workers input) in
  let plan := foldl (fun plan t => repair_task input t plan) plan (ri_tasks input) in
  foldl (fun plan w => match clear_reason input w with
                       | Some reason => add_worker_cleanup (ClearAssignment (ws_worker_id w) reason) plan
                       | None => plan
                       end) plan (ri_workers input).

Definition run_session_alive (input : ReconciliationInput) (run : RunRecord) : bool :=
  match rr_session_id run with Some session => session_is_alive input session | None => false end.

(** One run of [reconcile_claims]. *)
Definition repair_claim (input : ReconciliationInput) (run : RunRecord) (plan : ReconciliationPlan)
    : ReconciliationPlan :=
  let expired := claim_is_expired_at run (ri_now input) in
  let session_alive := run_session_alive input run in
  let active_operation := session_alive && session_has_active_operation_for_run input run in
  if expired && active_operation && rcc_renew_live_expired_claims config then
    add_run_renewal (mkRunAction run (ri_now input) RunRepairReason.ExpiredClaimWithLiveOperation) plan
  else if expired || negb session_alive then
    match rr_status run with
    | RunStatus.Claimed => add_run_release (mkRunAction run (ri_now input)
        (if expired then RunRepairReason.ExpiredClaim else RunRepairReason.DeadOrMissingSession)) plan
    | RunStatus.Running => add_run_failure (mkRunAction run (ri_now input)
        (if expired then RunRepairReason.ExpiredRunningClaim else RunRepairReason.DeadOrMissingSession)) plan
    | _ => plan
    end
  else plan.

Definition reconcile_claims (input : ReconciliationInput) (plan : ReconciliationPlan)
    : ReconciliationPlan :=
  foldl (fun plan run => if RunStatus.has_active_claim (rr_status run) then repair_claim input run plan
                         else plan) plan (ri_active_runs input).

(** [runs_by_task.get(&task.id)]: the active runs of a task, in their order *)
Definition runs_by_task (input : ReconciliationInput) (task_id : TaskId) : list RunRecord :=
  List.filter (fun run => run_is_active run && retry_queued_is_actionable run (ri_now input)
                          && bool_decide (rr_task_id run = task_id)) (ri_active_runs input).

Definition role_mismatch (task : TaskEntry) (run : RunRecord) : ReconciliationEscalation :=
  mkEscalation (Some (te_id task)) (Some (rr_run_id run)) "run role mismatch for task status"
    ("task " +:+ te_id task +:+ " is " +:+ debug_TaskStatus (te_status task) +:+ "; active run "
     +:+ rr_run_id run +:+ " has role " +:+ RunRole.as_str (rr_role run)).

Definition session_mismatch (task : TaskEntry) (task_session : string) (run : RunRecord)
    (run_session : SessionId) : ReconciliationEscalation :=
  mkEscalation (Some (te_id task)) (Some (rr_run_id run)) "task session mismatch with active run"
    ("task " +:+ te_id task +:+ " session " +:+ task_session +:+ " differs from run "
     +:+ rr_run_id run +:+ " session " +:+ run_session).

(** [{:?}] of an [Option<&str>] *)
Definition debug_option (o : option string) : string :=
  match o with Some s => "Some(" +:+ debug_str s +:+ ")" | None => "None" end.

Definition escalate_worker_pool_mismatch (input : ReconciliationInput) (task : TaskEntry)
    (plan : ReconciliationPlan) : ReconciliationPlan :=
  match te_assignee task with
  | None => add_escalation (mkEscalation (Some (te_id task)) None "worker-owned task has no assignee"
              ("task " +:+ te_id task +:+ " is " +:+ debug_TaskStatus (te_status task))) plan
  | Some assignee =>
      match worker_by_id input assignee with
      | None => plan
      | Some worker =>
          if negb (ws_is_alive worker) then plan
          else if negb (bool_decide (ws_assigned_task worker = Some (te_id task))) then
            add_escalation (mkEscalation (Some (te_id task)) None "worker pool assignment mismatch"
              ("task " +:+ te_id task +:+ " is assigned to worker " +:+ ws_worker_id worker
               +:+ ", but worker assignment is " +:+ debug_option (ws_assigned_task worker))) plan
          else plan
      end
  end.

(** One task of [reconcile_task_run_mismatches]. *)
Definition compare_task (input : ReconciliationInput) (task : TaskEntry) (plan : ReconciliationPlan)
    : ReconciliationPlan :=
  let task_runs := runs_by_task input (te_id task) in
  if is_terminal (te_status task) then
    foldl (fun plan run => add_run_failure
      (mkRunAction run (ri_now input) RunRepairReason.TerminalTaskHasActiveRun) plan) plan task_runs
  else
    let plan :=
      if rcc_require_active_worker_runs config && is_worker_owned_status (te_status task)
         && match te_assignee task with Some _ => true | None => false end
         && negb (existsb (fun run => bool_decide (rr_role run = RunRole.Worker)) task_runs)
      then add_task_update (UnassignTask (te_id task) (te_assignee task)
                              TaskRepairReason.MissingActiveRun) plan
      else plan in
    let plan := match expected_active_run_role (te_status task) with
      | Some expected_role =>
          foldl (fun plan run => if negb (bool_decide (rr_role run = expected_role))
                                 then add_escalation (role_mismatch task run) plan else plan) plan task_runs
      | None => plan
      end in
    let plan := match te_session_id task with
      | Some task_session =>
          foldl (fun plan run =>
            if bool_decide (rr_role run = RunRole.Worker) then
              match rr_session_id run with
              | Some run_session =>
                  if negb (bool_decide (run_session = task_session))
                  then add_escalation (session_mismatch task task_session run run_session) plan else plan
              | None => plan
              end
            else plan) plan task_runs
      | None => plan
      end in
    if is_worker_owned_status (te_status task) then escalate_worker_pool_mismatch input task plan else plan.

Definition reconcile_task_run_mismatches (input : ReconciliationInput) (plan : ReconciliationPlan)
    : ReconciliationPlan :=
  foldl (fun plan task => compare_task input task plan) plan (ri_tasks input).

(** [Reconciler::reconcile] *)
Definition reconcile (input : ReconciliationInput) : ReconciliationPlan :=
  reconcile_task_run_mismatches input
    (reconcile_claims input
      (reconcile_dead_workers input
        (reconcile_retry_queued_runs input empty_plan))).
End reconciler.

(** ** Events for a plan *)

Definition escalation_aggregate (e : ReconciliationEscalation) : string :=
  match en_task_id e with
  | Some id => id
  | None => match en_run_id e with Some id => id | None => "reconciler" end
  end.

Definition escalation_event (escalation : ReconciliationEscalation) (now : DateTime) : Event :=
  mkEvent (EventKind.EscalationTriggered (en_reason escalation) (en_context escalation)) now
    (escalation_aggregate escalation).

(** [Reconciler::events_for_plan] *)
Definition events_for_plan (plan : ReconciliationPlan) (now : DateTime) : list Event :=
  omap (fun a => let run := ac_run a in
    match rr_claim_owner run with
    | Some owner => Some (mkEvent (EventKind.RunClaimRenewed (rr_run_id run) (rr_task_id run) (rr_role run)
        owner (rr_claim_generation run) (default (ac_observed_at a) (rr_lease_expires_at run))) now
        (rr_task_id run))
    | None => None
    end) (pl_run_renewals plan)
  ++ ((fun a => let run := ac_run a in
    mkEvent (EventKind.RunReleased (rr_run_id run) (rr_task_id run) (rr_role run)
      (rr_claim_generation run) (Some (RunRepairReason.as_str (ac_reason a))) (ac_observed_at a)) now
      (rr_task_id run)) <$> pl_run_releases plan)
  ++ ((fun a => let run := ac_run a in
    mkEvent (EventKind.RunFailed (rr_run_id run) (rr_task_id run) (rr_role run)
      (rr_claim_generation run) (RunRepairReason.as_str (ac_reason a)) (ac_observed_at a)) now
      (rr_task_id run)) <$> pl_run_failures plan)
  ++ ((fun e => escalation_event e now) <$> pl_escalations plan).

Definition stale_run_mutation_rejected_event (record : RunRecord) (attempted_generation : ClaimGeneration)
    (mutation : string) (now : DateTime) : Event :=
  mkEvent (EventKind.StaleRunMutationRejected (rr_run_id record) (rr_task_id record) (rr_role record)
    attempted_generation (rr_claim_generation record) mutation) now (rr_task_id record).

(** ** The snapshot of the current state *)

Section snapshot.
Context {ord : IterOrder string}.

(** [ReconciliationInput::from_current_state] *)
Definition from_current_state (now : DateTime) (task_board : TaskBoard) (worker_pool : WorkerPool)
    (dependency_graph : DependencyGraph) (active_runs : list RunRecord) : ReconciliationInput :=
  let tasks := all_tasks task_board in
  mkReconciliationInput now tasks
    (from_worker_info <$> pool_workers worker_pool)
    (foldl (fun m t => <[te_id t := sort_by str_leb (iter_set (get_dependencies dependency_graph (te_id t)))]> m)
       ∅ tasks)
    None active_runs.
End snapshot.

(** ** What is planned for a run: the reference *)

Section reference.
Context (config : ReconcilerConfig) (input : ReconciliationInput).

Let now := ri_now input.

(** The claim is kept although it has expired: its session is at work. *)
Definition renews (run : RunRecord) : bool :=
  RunStatus.has_active_claim (rr_status run) && claim_is_expired_at run now
  && run_session_alive input run && session_has_active_operation_for_run input run
  && rcc_renew_live_expired_claims config.

(** The claim is lost. *)
Definition loses_claim (run : RunRecord) : bool :=
  RunStatus.has_active_claim (rr_status run) && negb (renews run)
  && (claim_is_expired_at run now || negb (run_session_alive input run)).

(** The task of the run is finished. *)
Definition task_finished (run : RunRecord) : bool :=
  run_is_active run && retry_queued_is_actionable run now
  && existsb (fun t => bool_decide (te_id t = rr_task_id run) && is_terminal (te_status t)) (ri_tasks input).

Definition renewal_of (run : RunRecord) : option RunAction :=
  if renews run then Some (mkRunAction run now RunRepairReason.ExpiredClaimWithLiveOperation) else None.

Definition lost_claim_release (run : RunRecord) : option RunAction :=
  if loses_claim run && bool_decide (rr_status run = RunStatus.Claimed) then
    Some (mkRunAction run now (if claim_is_expired_at run now then RunRepairReason.ExpiredClaim
                               else RunRepairReason.DeadOrMissingSession))
  else None.

Definition lost_claim_failure (run : RunRecord) : option RunAction :=
  if loses_claim run && bool_decide (rr_status run = RunStatus.Running) then
    Some (mkRunAction run now (if claim_is_expired_at run now then RunRepairReason.ExpiredRunningClaim
                               else RunRepairReason.DeadOrMissingSession))
  else None.

Definition release_of (run : RunRecord) : option RunAction :=
  if task_finished run then None else lost_claim_release run.

Definition failure_of (run : RunRecord) : option RunAction :=
  match lost_claim_failure run with
  | Some a => Some a
  | None => if task_finished run then Some (mkRunAction run now RunRepairReason.TerminalTaskHasActiveRun)
            else None
  end.

Definition due_retry (run : RunRecord) : option RunAction :=
  if bool_decide (rr_status run = RunStatus.RetryQueued) && retry_is_due_at run now
  then Some (mkRunAction run now RunRepairReason.RetryDue) else None.

Definition retry_of (run : RunRecord) : option RunAction :=
  if task_finished run then None else due_retry run.
End reference.

(** ** Plans with the same run actions *)

Definition same_runs (p q : ReconciliationPlan) : Prop :=
  pl_run_retry_attempts p = pl_run_retry_attempts q /\ pl_run_renewals p = pl_run_renewals q /\
  pl_run_releases p = pl_run_releases q /\ pl_run_failures p = pl_run_failures q.

#[export] Instance same_runs_equiv : Equivalence same_runs.
Proof. split; unfold same_runs; [intros ?|intros ? ?|intros ? ? ?]; intuition congruence. Qed.

#[export] Instance add_run_failure_proper a : Proper (same_runs ==> same_runs) (add_run_failure a).
Proof.
  intros p q (H1 & H2 & H3 & H4). unfold add_run_failure, has_run. rewrite H4.
  destruct (existsb _ _); unfold same_runs; cbn; by rewrite ?H1, ?H2, ?H3, ?H4.
Qed.

Lemma same_task_update a p : same_runs (add_task_update a p) p.
Proof. unfold add_task_update. by destruct (existsb _ _). Qed.

Lemma same_worker_cleanup a p : same_runs (add_worker_cleanup a p) p.
Proof. unfold add_worker_cleanup. by destruct (existsb _ _). Qed.

Lemma same_escalation e p : same_runs (add_escalation e p) p.
Proof. unfold add_escalation. by destruct (existsb _ _). Qed.

#[export] Hint Resolve same_task_update same_worker_cleanup same_escalation : brehon.

(** A loop whose steps keep the run actions keeps them. *)
Lemma foldl_same_runs {A} (f : ReconciliationPlan -> A -> ReconciliationPlan) l p :
  (forall q x, x ∈ l -> same_runs (f q x) q) -> same_runs (foldl f p l) p.
Proof.
  revert p. induction l as [|x l IH]; intros p Hf; cbn; [done|].
  rewrite IH by (intros q y Hy; apply Hf; by right). apply Hf. left.
Qed.

Section planner.
Context `{Fmt} (config : ReconcilerConfig) (input : ReconciliationInput).

Lemma same_repair_task t p : same_runs (repair_task input t p) p.
Proof.
  unfold repair_task. repeat case_match; auto with brehon; try done.
  rewrite same_worker_cleanup. apply same_task_update.
Qed.

Lemma same_dead_workers p : same_runs (reconcile_dead_workers input p) p.
Proof.
  unfold reconcile_dead_workers. rewrite !foldl_same_runs; [done|..].
  - intros q w _. by case_match; auto with brehon.
  - intros q t _. apply same_repair_task.
  - intros q w _. case_match; auto with brehon. done.
Qed.

Lemma same_pool_mismatch t p : same_runs (escalate_worker_pool_mismatch input t p) p.
Proof. unfold escalate_worker_pool_mismatch. repeat case_match; auto with brehon; done. Qed.

(** The failures a finished task calls for. *)
Definition terminal_actions (t : TaskEntry) : list RunAction :=
  if is_terminal (te_status t)
  then (fun run => mkRunAction run (ri_now input) RunRepairReason.TerminalTaskHasActiveRun)
         <$> runs_by_task input (te_id t)
  else [].

Abbreviation add_failures p actions := (foldl (fun p a => add_run_failure a p) p actions).

#[local] Instance add_failures_proper :
  Proper (same_runs ==> eq ==> same_runs) (foldl (fun p a => add_run_failure a p)).
Proof.
  intros p q Hpq l l' <-. revert p q Hpq. induction l as [|a l IH]; intros p q Hpq; cbn; [done|].
  apply IH. by apply add_run_failure_proper.
Qed.

Lemma compare_task_runs t p :
  same_runs (compare_task config input t p) (add_failures p (terminal_actions t)).
Proof.
  unfold compare_task, terminal_actions. destruct (is_terminal (te_status t)).
  { generalize (runs_by_task input (te_id t)). intros l. revert p. induction l as [|run l IH]; intros p; cbn; [done|].
    apply IH. }
  cbn [foldl]. set (p1 := if _ && _ && _ && _ then _ else p).
  assert (H1 : same_runs p1 p) by (unfold p1; case_match; auto with brehon; done).
  set (p2 := match expected_active_run_role _ with Some _ => _ | None => _ end).
  assert (H2 : same_runs p2 p1).
  { unfold p2. case_match; [|done]. apply foldl_same_runs. intros q run _. case_match; auto with brehon; done. }
  set (p3 := match te_session_id t with Some _ => _ | None => _ end).
  assert (H3 : same_runs p3 p2).
  { unfold p3. case_match; [|done]. apply foldl_same_runs. intros q run _. repeat case_match; auto with brehon; done. }
  rewrite <-H1, <-H2, <-H3. case_match; [apply same_pool_mismatch|done].
Qed.

Lemma mismatches_runs p :
  same_runs (reconcile_task_run_mismatches config input p)
    (add_failures p (concat (terminal_actions <$> ri_tasks input))).
Proof.
  unfold reconcile_task_run_mismatches. revert p. generalize (ri_tasks input). intros l.
  induction l as [|t l IH]; intros p; cbn; [done|]. rewrite foldl_app, IH. by rewrite compare_task_runs.
Qed.

(** ** Adding failures *)

Lemma has_run_iff id l : has_run id l = true <-> id ∈ action_id <$> l.
Proof.
  unfold has_run. rewrite existsb_exists, list_elem_of_fmap. split.
  - intros (a & Ha & Heq). apply bool_decide_eq_true in Heq. exists a. by rewrite list_elem_of_In.
  - intros (a & -> & Ha). exists a. rewrite <-list_elem_of_In. split; [done|by apply bool_decide_eq_true].
Qed.

Lemma has_run_false id l : has_run id l = false <-> id ∉ action_id <$> l.
Proof. rewrite <-has_run_iff. by destruct (has_run id l). Qed.

Definition without (actions l : list RunAction) : list RunAction :=
  List.filter (fun a => negb (has_run (action_id a) actions)) l.

Lemma without_nil l : without [] l = l.
Proof. induction l as [|a l IH]; cbn; [done|]. by f_equal. Qed.

Lemma retain_without a l actions :
  without actions (retain_others (action_id a) l) = without (a :: actions) l.
Proof.
  induction l as [|b l IH]; [done|]. unfold without, retain_others in *. cbn [List.filter].
  unfold has_run at 2. cbn [existsb]. fold (has_run (action_id b) actions).
  destruct (decide (action_id b = action_id a)) as [Heq|Hne].
  - rewrite !bool_decide_true by done. cbn. apply IH.
  - rewrite !bool_decide_false by done. cbn. by rewrite IH.
Qed.

Lemma elem_of_without a actions l : a ∈ without actions l <-> a ∈ l /\ action_id a ∉ action_id <$> actions.
Proof.
  unfold without. rewrite !list_elem_of_In, filter_In, <-!list_elem_of_In, negb_true_iff. by rewrite has_run_false.
Qed.

Lemma without_absent a actions l :
  action_id a ∉ action_id <$> l -> without (a :: actions) l = without actions l.
Proof.
  induction l as [|b l IH]; [done|]. rewrite fmap_cons, not_elem_of_cons. intros [Hne Hl].
  unfold without in *. cbn [List.filter]. unfold has_run at 1. cbn [existsb]. fold (has_run (action_id b) actions).
  rewrite bool_decide_false by done. cbn [orb]. by rewrite IH.
Qed.

(** The actions have each run at most once. *)
Abbreviation distinct l := (NoDup (action_id <$> l)).
Abbreviation apart l l' := (forall id, id ∈ action_id <$> l -> id ∉ action_id <$> l').

Lemma apart_retain a l l' : apart l l' -> apart (l ++ [a]) (retain_others (action_id a) l').
Proof.
  intros Hap id. rewrite fmap_app, elem_of_app. intros Hid (b & -> & Hb)%list_elem_of_fmap.
  unfold retain_others in Hb. apply list_elem_of_In, filter_In in Hb as [Hb Hne]. apply list_elem_of_In in Hb.
  apply negb_true_iff, bool_decide_eq_false in Hne. destruct Hid as [Hid|Hid%list_elem_of_singleton]; [|done].
  eapply Hap; [done|]. apply list_elem_of_fmap. eauto.
Qed.

Record failures_added (p p' : ReconciliationPlan) (actions : list RunAction) : Prop := mkFailuresAdded {
  fa_renewals : pl_run_renewals p' = pl_run_renewals p;
  fa_distinct : distinct (pl_run_failures p) -> distinct (pl_run_failures p');
  fa_old : forall a, a ∈ pl_run_failures p -> a ∈ pl_run_failures p';
  fa_new : forall a, a ∈ pl_run_failures p' -> a ∈ pl_run_failures p \/
    (a ∈ actions /\ action_id a ∉ action_id <$> pl_run_failures p);
  fa_all : forall a, a ∈ actions -> action_id a ∈ action_id <$> pl_run_failures p';
  fa_releases : apart (pl_run_failures p) (pl_run_releases p) ->
    pl_run_releases p' = without actions (pl_run_releases p);
  fa_retries : apart (pl_run_failures p) (pl_run_retry_attempts p) ->
    pl_run_retry_attempts p' = without actions (pl_run_retry_attempts p)
}.

Lemma add_failures_spec actions p : failures_added p (add_failures p actions) actions.
Proof.
  revert p. induction actions as [|a actions IH]; intros p; cbn.
  { split; try done; rewrite ?without_nil; try done; [by left|by intros a ?%elem_of_nil]. }
  destruct (IH (add_run_failure a p)) as [H1 H2 H3 H4 H5 H6 H7]. clear IH. revert H1 H2 H3 H4 H5 H6 H7.
  unfold add_run_failure. destruct (has_run (action_id a) (pl_run_failures p)) eqn:Ha.
  - apply has_run_iff in Ha. intros H1 H2 H3 H4 H5 H6 H7. split; try done.
    + intros b Hb. destruct (H4 b Hb) as [?|[? ?]]; [by left|right]. split; [by right|done].
    + intros b [->|Hb]%elem_of_cons; [|by apply H5]. apply list_elem_of_fmap in Ha as (c & Hc & Hin).
      rewrite Hc. apply list_elem_of_fmap. eauto.
    + intros Hap. rewrite H6, without_absent; auto.
    + intros Hap. rewrite H7, without_absent; auto.
  - apply has_run_false in Ha. cbn -[retain_others without]. intros H1 H2 H3 H4 H5 H6 H7.
    split; cbn -[retain_others without]; try done.
    + intros Hd. apply H2. rewrite fmap_app. apply NoDup_app. split_and!; [done| |apply NoDup_singleton].
      intros id Hid ->%list_elem_of_singleton. done.
    + intros b Hb. apply H3, elem_of_app. by left.
    + intros b Hb. destruct (H4 b Hb) as [[Hb'|Hb']%elem_of_app|[Hb' Hn]]; [by left|..].
      * apply list_elem_of_singleton in Hb' as ->. right. split; [left|done].
      * right. split; [by right|]. rewrite fmap_app, not_elem_of_app in Hn. tauto.
    + intros b [->|Hb]%elem_of_cons; [|by apply H5]. apply list_elem_of_fmap. exists a. split; [done|].
      apply H3, elem_of_app. right. left.
    + intros Hap. rewrite H6, retain_without; [done|]. by apply apart_retain.
    + intros Hap. rewrite H7, retain_without; [done|]. by apply apart_retain.
Qed.

(** ** The passes over the runs *)

(** The plan has no action for the run. *)
Definition untouched (run : RunRecord) (p : ReconciliationPlan) : Prop :=
  has_run (rr_run_id run) (pl_run_retry_attempts p) = false /\
  has_run (rr_run_id run) (pl_run_renewals p) = false /\
  has_run (rr_run_id run) (pl_run_releases p) = false /\
  has_run (rr_run_id run) (pl_run_failures p) = false.

(** The plan [p'] has these run actions behind those of [p]. *)
Definition extends (p p' : ReconciliationPlan) (retries renewals releases failures : list RunAction) : Prop :=
  pl_run_retry_attempts p' = pl_run_retry_attempts p ++ retries /\
  pl_run_renewals p' = pl_run_renewals p ++ renewals /\
  pl_run_releases p' = pl_run_releases p ++ releases /\
  pl_run_failures p' = pl_run_failures p ++ failures.

Lemma extends_none p : extends p p [] [] [] [].
Proof. unfold extends. by rewrite !app_nil_r. Qed.

Lemma retain_absent id l : has_run id l = false -> retain_others id l = l.
Proof.
  induction l as [|a l IH]; [done|]. unfold has_run, retain_others in *. cbn.
  destruct (bool_decide (action_id a = id)); [done|]. cbn. intros Hl. by rewrite IH.
Qed.

Lemma has_run_app id l l' : has_run id (l ++ l') = has_run id l || has_run id l'.
Proof. apply existsb_app. Qed.

Lemma retry_step run p : untouched run p ->
  extends p (if bool_decide (rr_status run = RunStatus.RetryQueued) && retry_is_due_at run (ri_now input)
             then add_run_retry_attempt (mkRunAction run (ri_now input) RunRepairReason.RetryDue) p else p)
    (option_list (due_retry input run)) [] [] [].
Proof.
  intros (H1 & H2 & H3 & H4). unfold due_retry. destruct (_ && _); [|apply extends_none].
  unfold add_run_retry_attempt, has_terminal_run_action. unfold action_id at 1 2. cbn [ac_run].
  rewrite H4, H1. unfold extends. cbn. by rewrite !app_nil_r.
Qed.

Lemma claim_pass_step run p : untouched run p ->
  extends p (if RunStatus.has_active_claim (rr_status run) then repair_claim config input run p else p)
    [] (option_list (renewal_of config input run)) (option_list (lost_claim_release config input run))
    (option_list (lost_claim_failure config input run)).
Proof.
  intros (H1 & H2 & H3 & H4).
  unfold repair_claim, renewal_of, lost_claim_release, lost_claim_failure, loses_claim, renews.
  destruct (RunStatus.has_active_claim (rr_status run)) eqn:Hc; cbn [andb]; [|apply extends_none].
  destruct (claim_is_expired_at run (ri_now input)), (run_session_alive input run),
    (session_has_active_operation_for_run input run), (rcc_renew_live_expired_claims config); cbn [andb orb negb];
    destruct (rr_status run) eqn:Hs; try done; cbn [bool_decide decide];
    unfold add_run_renewal, add_run_release, add_run_failure, has_terminal_run_action;
    change (action_id (mkRunAction run _ _)) with (rr_run_id run) in *; rewrite ?H2, ?H3, ?H4;
    unfold extends; cbn -[retain_others]; rewrite ?retain_absent, ?app_nil_r by done; done.
Qed.

(** A pass that treats each run by itself. *)
Lemma runs_pass (f : RunRecord -> ReconciliationPlan -> ReconciliationPlan)
    (g1 g2 g3 g4 : RunRecord -> option RunAction) :
  (forall run p, untouched run p ->
    extends p (f run p) (option_list (g1 run)) (option_list (g2 run)) (option_list (g3 run)) (option_list (g4 run))) ->
  (forall run a, g1 run = Some a \/ g2 run = Some a \/ g3 run = Some a \/ g4 run = Some a -> ac_run a = run) ->
  forall runs p, NoDup (rr_run_id <$> runs) -> (forall run, run ∈ runs -> untouched run p) ->
  extends p (foldl (fun p run => f run p) p runs) (omap g1 runs) (omap g2 runs) (omap g3 runs) (omap g4 runs).
Proof.
  intros Hstep Hrun. induction runs as [|run runs IH]; intros p Hnd Hfresh; [apply extends_none|].
  cbn [foldl]. rewrite fmap_cons in Hnd. apply NoDup_cons in Hnd as [Hid Hnd].
  pose proof (Hstep run p (Hfresh run (list_elem_of_here _ _))) as (E1 & E2 & E3 & E4).
  assert (Hone : forall q g, q ∈ runs -> (forall a, g run = Some a -> ac_run a = run) ->
    has_run (rr_run_id q) (option_list (g run)) = false).
  { intros q g Hq Hg. destruct (g run) as [a|] eqn:Ha; cbn; [|done]. rewrite orb_false_r.
    apply bool_decide_eq_false. unfold action_id. rewrite (Hg a eq_refl). intros Heq. destruct Hid.
    rewrite Heq. apply list_elem_of_fmap. eauto. }
  destruct (IH (f run p) Hnd) as (F1 & F2 & F3 & F4).
  { intros q Hq. destruct (Hfresh q (list_elem_of_further _ _ _ Hq)) as (U1 & U2 & U3 & U4). unfold untouched.
    rewrite E1, E2, E3, E4, !has_run_app, U1, U2, U3, U4, !Hone; eauto 10. }
  unfold extends. rewrite F1, F2, F3, F4, E1, E2, E3, E4, <-!app_assoc. cbn [omap list_omap].
  by destruct (g1 run), (g2 run), (g3 run), (g4 run).
Qed.

(** ** The whole plan *)

Context (runs_distinct : NoDup (rr_run_id <$> ri_active_runs input)).

Lemma same_run run run' : run ∈ ri_active_runs input -> run' ∈ ri_active_runs input ->
  rr_run_id run = rr_run_id run' -> run = run'.
Proof.
  intros Hr Hr' Hid. apply list_elem_of_lookup in Hr as [i Hi], Hr' as [j Hj].
  assert (i = j) as <-; [|congruence].
  eapply (NoDup_lookup _ _ _ (rr_run_id run) runs_distinct); rewrite list_lookup_fmap; [by rewrite Hi|].
  by rewrite Hj, Hid.
Qed.

Lemma action_of (g : RunRecord -> option RunAction) id :
  (forall run a, g run = Some a -> ac_run a = run) ->
  id ∈ action_id <$> omap g (ri_active_runs input) ->
  exists run, run ∈ ri_active_runs input /\ rr_run_id run = id /\ is_Some (g run).
Proof.
  intros Hg (a & -> & (run & Hr & Ha)%list_elem_of_omap)%list_elem_of_fmap. exists run.
  split_and!; [done|unfold action_id; by rewrite (Hg _ _ Ha)|by eauto].
Qed.

(** Actions for runs of different status are for different runs. *)
Lemma actions_apart (g g' : RunRecord -> option RunAction) (s s' : RunStatus) : s <> s' ->
  (forall run a, g run = Some a -> ac_run a = run /\ rr_status run = s) ->
  (forall run a, g' run = Some a -> ac_run a = run /\ rr_status run = s') ->
  apart (omap g (ri_active_runs input)) (omap g' (ri_active_runs input)).
Proof.
  intros Hne Hg Hg' id Hid Hid'.
  apply action_of in Hid as (run & Hr & Hi & [a Ha]); [|intros; by eapply Hg].
  apply action_of in Hid' as (run' & Hr' & Hi' & [a' Ha']); [|intros; by eapply Hg'].
  assert (run = run') as <- by (apply same_run; congruence).
  destruct (Hg _ _ Ha), (Hg' _ _ Ha'). congruence.
Qed.

Lemma due_retry_inv run a : due_retry input run = Some a -> ac_run a = run /\ rr_status run = RunStatus.RetryQueued.
Proof. unfold due_retry. case_bool_decide; cbn; [|done]. case_match; [|done]. by intros [= <-]. Qed.

Lemma lost_release_inv run a : lost_claim_release config input run = Some a ->
  ac_run a = run /\ rr_status run = RunStatus.Claimed.
Proof. unfold lost_claim_release. case_bool_decide; rewrite ?andb_false_r; [|done]. case_match; [|done]. by intros [= <-]. Qed.

Lemma lost_failure_inv run a : lost_claim_failure config input run = Some a ->
  ac_run a = run /\ rr_status run = RunStatus.Running.
Proof. unfold lost_claim_failure. case_bool_decide; rewrite ?andb_false_r; [|done]. case_match; [|done]. by intros [= <-]. Qed.

Lemma renewal_inv run a : renewal_of config input run = Some a ->
  ac_run a = run /\ RunStatus.has_active_claim (rr_status run) = true.
Proof. unfold renewal_of, renews. destruct (RunStatus.has_active_claim _); [|done]. case_match; [|done]. by intros [= <-]. Qed.

Definition all_terminal : list RunAction := concat (terminal_actions <$> ri_tasks input).

Lemma elem_of_terminal a : a ∈ all_terminal <-> exists run, run ∈ ri_active_runs input /\
  task_finished input run = true /\ a = mkRunAction run (ri_now input) RunRepairReason.TerminalTaskHasActiveRun.
Proof.
  unfold all_terminal. rewrite list_elem_of_In, in_concat. setoid_rewrite <-list_elem_of_In. split.
  - intros (l & (t & -> & Ht)%list_elem_of_fmap & Ha). unfold terminal_actions in Ha.
    destruct (is_terminal (te_status t)) eqn:Hterm; [|by apply elem_of_nil in Ha].
    apply list_elem_of_fmap in Ha as (run & -> & Hr). unfold runs_by_task in Hr.
    apply list_elem_of_In, filter_In in Hr as [Hr Hb]. apply list_elem_of_In in Hr.
    apply andb_true_iff in Hb as [Hb Ht']. apply bool_decide_eq_true in Ht'. exists run. split_and!; [done| |done].
    unfold task_finished. rewrite Hb. apply existsb_exists. exists t. split; [by apply list_elem_of_In|].
    by rewrite bool_decide_true, Hterm.
  - intros (run & Hr & Hf & ->). unfold task_finished in Hf. apply andb_true_iff in Hf as [Hb Hf].
    apply existsb_exists in Hf as (t & Ht & Hf). apply andb_true_iff in Hf as [Hid Hterm].
    apply bool_decide_eq_true in Hid. exists (terminal_actions t). split.
    { apply list_elem_of_fmap. exists t. by rewrite list_elem_of_In. }
    unfold terminal_actions. rewrite Hterm. apply list_elem_of_fmap. exists run. split; [done|].
    unfold runs_by_task. apply list_elem_of_In, filter_In. split; [by apply list_elem_of_In|].
    by rewrite Hb, bool_decide_true.
Qed.

Lemma finished_iff run : run ∈ ri_active_runs input ->
  has_run (rr_run_id run) all_terminal = task_finished input run.
Proof.
  intros Hr. destruct (task_finished input run) eqn:Hf.
  - apply has_run_iff, list_elem_of_fmap.
    exists (mkRunAction run (ri_now input) RunRepairReason.TerminalTaskHasActiveRun).
    split; [done|]. apply elem_of_terminal. eauto.
  - apply has_run_false. intros (a & Hid & (run' & Hr' & Hf' & ->)%elem_of_terminal)%list_elem_of_fmap.
    assert (run = run') as <- by by apply same_run. congruence.
Qed.

(** Taking out the runs of finished tasks. *)
Lemma without_terminal (g : RunRecord -> option RunAction) :
  (forall run a, g run = Some a -> ac_run a = run) ->
  without all_terminal (omap g (ri_active_runs input)) =
  omap (fun run => if task_finished input run then None else g run) (ri_active_runs input).
Proof.
  intros Hg. assert (Hsub : forall run, run ∈ ri_active_runs input ->
    has_run (rr_run_id run) all_terminal = task_finished input run) by apply finished_iff.
  revert Hsub. generalize (ri_active_runs input). intros l. unfold without.
  induction l as [|run l IH]; intros Hsub; [done|]. cbn [omap list_omap].
  specialize (IH (fun r Hr => Hsub r (list_elem_of_further _ _ _ Hr))).
  pose proof (Hsub run (list_elem_of_here _ _)) as Hrun.
  destruct (g run) as [a|] eqn:Ha; cbn [List.filter]; [|by destruct (task_finished input run)].
  unfold action_id at 1. rewrite (Hg _ _ Ha), Hrun, IH. by destruct (task_finished input run).
Qed.

(** A loop that skips elements, and a partial map that drops them. *)
Lemma foldl_skip {A B} (c : A -> bool) (f : B -> A -> B) l b :
  foldl (fun b x => if c x then f b x else b) b l = foldl (fun b x => if c x then f b x else b) b (List.filter c l).
Proof. revert b. induction l as [|x l IH]; intros b; cbn; [done|]. destruct (c x) eqn:Hc; cbn; rewrite ?Hc; apply IH. Qed.

Lemma omap_skip {A B} (c : A -> bool) (g : A -> option B) l :
  (forall x, c x = false -> g x = None) -> omap g (List.filter c l) = omap g l.
Proof.
  intros Hg. induction l as [|x l IH]; cbn; [done|]. destruct (c x) eqn:Hc; cbn; rewrite IH; [done|].
  by rewrite (Hg x Hc).
Qed.

(** The plan before the finished tasks are looked at. *)
Lemma claims_plan :
  extends empty_plan
    (reconcile_claims config input (reconcile_dead_workers input (reconcile_retry_queued_runs input empty_plan)))
    (omap (due_retry input) (ri_active_runs input)) (omap (renewal_of config input) (ri_active_runs input))
    (omap (lost_claim_release config input) (ri_active_runs input))
    (omap (lost_claim_failure config input) (ri_active_runs input)).
Proof.
  set (p1 := reconcile_retry_queued_runs input empty_plan).
  assert (E1 : extends empty_plan p1 (omap (due_retry input) (ri_active_runs input))
    (omap (fun _ => None) (ri_active_runs input)) (omap (fun _ => None) (ri_active_runs input))
    (omap (fun _ => None) (ri_active_runs input))).
  { apply runs_pass; [apply retry_step| |done|intros run _; by repeat split].
    intros run a [Ha|[|[]]]; try done. by apply due_retry_inv in Ha as [-> _]. }
  assert (Hnone : forall l : list RunRecord, omap (fun _ => @None RunAction) l = []) by by induction l.
  rewrite !Hnone in E1. set (p2 := reconcile_dead_workers input p1).
  destruct (same_dead_workers p1) as (S1 & S2 & S3 & S4). destruct E1 as (R1 & R2 & R3 & R4). cbn in R1, R2, R3, R4.
  fold p2 in S1, S2, S3, S4. unfold reconcile_claims. rewrite foldl_skip.
  set (claimed := List.filter (fun run => RunStatus.has_active_claim (rr_status run)) (ri_active_runs input)).
  assert (Hsub : claimed `sublist_of` ri_active_runs input).
  { unfold claimed. generalize (ri_active_runs input). induction l as [|x l IH]; cbn; [done|]. case_match; by constructor. }
  assert (E2 : extends p2 (foldl (fun plan run => if RunStatus.has_active_claim (rr_status run)
      then repair_claim config input run plan else plan) p2 claimed)
    (omap (fun _ => None) claimed) (omap (renewal_of config input) claimed)
    (omap (lost_claim_release config input) claimed) (omap (lost_claim_failure config input) claimed)).
  { apply runs_pass; [apply claim_pass_step|..].
    - intros run a [|[Ha%renewal_inv|[Ha%lost_release_inv|Ha%lost_failure_inv]]]; try done; by destruct Ha as [-> _].
    - eapply sublist_NoDup; [exact runs_distinct|by apply fmap_sublist].
    - intros run Hr. unfold untouched. rewrite S1, S2, S3, S4, R1, R2, R3, R4. split_and!; try done.
      apply has_run_false. intros (run' & Hr' & Hid & [a Ha])%action_of; [|intros; by eapply due_retry_inv].
      unfold claimed in Hr. apply list_elem_of_In, filter_In in Hr as [Hr%list_elem_of_In Hc].
      assert (run = run') as <- by (by apply same_run). apply due_retry_inv in Ha as [_ Ha]. by rewrite Ha in Hc. }
  rewrite Hnone in E2. destruct E2 as (F1 & F2 & F3 & F4). unfold extends.
  rewrite F1, F2, F3, F4, S1, S2, S3, S4, R1, R2, R3, R4, app_nil_r. cbn [app pl_run_retry_attempts empty_plan
    pl_run_renewals pl_run_releases pl_run_failures].
  unfold claimed. rewrite !omap_skip; [done|..]; intros run Hc;
    unfold lost_claim_failure, lost_claim_release, renewal_of, loses_claim, renews; by rewrite Hc.
Qed.

Lemma failure_inv run a : failure_of config input run = Some a -> ac_run a = run.
Proof.
  unfold failure_of. destruct (lost_claim_failure config input run) as [b|] eqn:Hb.
  - intros [= <-]. by apply lost_failure_inv in Hb as [-> _].
  - case_match; [|done]. by intros [= <-].
Qed.

Lemma actions_distinct (g : RunRecord -> option RunAction) :
  (forall run a, g run = Some a -> ac_run a = run) -> distinct (omap g (ri_active_runs input)).
Proof.
  intros Hg. pose proof runs_distinct as Hnd. revert Hnd. generalize (ri_active_runs input).
  induction l as [|run l IH]; [constructor|]. rewrite fmap_cons. intros [Hid Hnd]%NoDup_cons. cbn [omap list_omap].
  destruct (g run) as [a|] eqn:Ha; [|by apply IH]. rewrite fmap_cons. constructor; [|by apply IH].
  intros (b & Hb & (run' & Hr' & Hb')%list_elem_of_omap)%list_elem_of_fmap. destruct Hid.
  unfold action_id in Hb. rewrite (Hg _ _ Ha), (Hg _ _ Hb') in Hb. rewrite Hb. apply list_elem_of_fmap. eauto.
Qed.

Lemma failures_sound a :
  a ∈ omap (lost_claim_failure config input) (ri_active_runs input) \/
  (a ∈ all_terminal /\ action_id a ∉ action_id <$> omap (lost_claim_failure config input) (ri_active_runs input)) ->
  a ∈ omap (failure_of config input) (ri_active_runs input).
Proof.
  rewrite !list_elem_of_omap. intros [(run & Hr & Ha)|[(run & Hr & Hf & ->)%elem_of_terminal Hno]]; exists run;
    (split; [done|]); unfold failure_of; [by rewrite Ha|].
  destruct (lost_claim_failure config input run) as [b|] eqn:Hb; [|by rewrite Hf]. destruct Hno.
  pose proof (lost_failure_inv _ _ Hb) as [Heq _].
  apply list_elem_of_fmap. exists b. split; [unfold action_id; cbn; by rewrite Heq|]. apply list_elem_of_omap. eauto.
Qed.

(** The run actions of a plan. *)
Lemma plan_runs :
  let plan := reconcile config input in
  let runs := ri_active_runs input in
  pl_run_renewals plan = omap (renewal_of config input) runs /\
  pl_run_releases plan = omap (release_of config input) runs /\
  pl_run_retry_attempts plan = omap (retry_of input) runs /\
  pl_run_failures plan ≡ₚ omap (failure_of config input) runs.
Proof.
  intros plan runs. destruct claims_plan as (C1 & C2 & C3 & C4). cbn [app pl_run_retry_attempts empty_plan
    pl_run_renewals pl_run_releases pl_run_failures] in C1, C2, C3, C4. unfold plan, reconcile.
  destruct (mismatches_runs (reconcile_claims config input
    (reconcile_dead_workers input (reconcile_retry_queued_runs input empty_plan)))) as (M1 & M2 & M3 & M4).
  fold all_terminal in M1, M2, M3, M4. rewrite M1, M2, M3, M4.
  destruct (add_failures_spec all_terminal (reconcile_claims config input
    (reconcile_dead_workers input (reconcile_retry_queued_runs input empty_plan)))) as [A1 A2 A3 A4 A5 A6 A7].
  rewrite C1, C3, C4 in *. split_and!.
  - by rewrite A1.
  - rewrite A6, without_terminal; [done|intros; by eapply lost_release_inv|].
    by eapply actions_apart, lost_release_inv; [|apply lost_failure_inv].
  - rewrite A7, without_terminal; [done|intros; by eapply due_retry_inv|].
    by eapply actions_apart, due_retry_inv; [|apply lost_failure_inv].
  - apply NoDup_Permutation; [eapply NoDup_fmap_1, A2, actions_distinct; intros; by eapply lost_failure_inv|
      eapply NoDup_fmap_1, actions_distinct, failure_inv|].
    intros a. split; [intros Ha; by apply failures_sound, A4|].
    intros (run & Hr & Ha)%list_elem_of_omap. unfold failure_of in Ha.
    destruct (lost_claim_failure config input run) as [b|] eqn:Hb.
    { injection Ha as <-. apply A3, list_elem_of_omap. eauto. }
    destruct (task_finished input run) eqn:Hf; [|done]. injection Ha as <-.
    pose proof (A5 (mkRunAction run (ri_now input) RunRepairReason.TerminalTaskHasActiveRun)) as Hin.
    destruct (proj1 (list_elem_of_fmap _ _ _) (Hin (proj2 (elem_of_terminal _) (ex_intro _ run (conj Hr (conj Hf eq_refl))))))
      as (b & Hid & Hbin). clear Hin.
    destruct (A4 b Hbin) as [Hb'|[Ht _]].
    + apply list_elem_of_omap in Hb' as (run' & Hr' & Hb').
      pose proof (lost_failure_inv _ _ Hb') as [Heq _]. unfold action_id in Hid. cbn [ac_run] in Hid. rewrite Heq in Hid.
      assert (run = run') as <- by by apply same_run. congruence.
    + apply elem_of_terminal in Ht as (run' & Hr' & _ & ->).
      assert (run = run') as <- by by apply same_run. done.
Qed.

(** C23: what the reconciler plans for the runs, exactly.  When the active runs have
    different ids, an expired claim whose session is at work on its task is
    renewed; any other expired claim, and any claim without a living session,
    is released when the run was only claimed and failed when it was running;
    every active run of a finished task is failed; a due retry is started; a
    run to be failed is neither released nor retried; and nothing else is
    planned. *)
Theorem reconcile_runs_exact :
  let plan := reconcile config input in
  let runs := ri_active_runs input in
  pl_run_renewals plan = omap (renewal_of config input) runs /\
  pl_run_releases plan = omap (release_of config input) runs /\
  pl_run_retry_attempts plan = omap (retry_of input) runs /\
  pl_run_failures plan ≡ₚ omap (failure_of config input) runs.
Proof. exact plan_runs. Qed.
End planner.

(** ** Witness *)

Section witness.
#[local] Instance plain_fmt : Fmt := {| debug_str := fun s => s; display_time := fun t => pretty t |}.

(** Four runs: one at work past its lease, one of a dead session, one claimed
    and expired, one queued for a retry; and one of a merged task. *)
Definition run_in (id task : string) (status : RunStatus) (session : option string) (lease retry : option Z) : RunRecord :=
  RunRecord_new id task RunRole.Worker 0 <| rr_status := status |> <| rr_claim_generation := 1%Z |>
    <| rr_session_id := session |> <| rr_lease_expires_at := lease |> <| rr_retry_at := retry |>.

Definition task_in (id : string) (status : TaskStatus) (worker session : option string) : TaskEntry :=
  TaskEntry_new 0 id "" "" <| te_status := status |> <| te_assignee := worker |> <| te_session_id := session |>.

Definition sample_input : ReconciliationInput := mkReconciliationInput 100
  [task_in "T-1" TaskStatus.InProgress (Some "w-0") (Some "s-0"); task_in "T-2" TaskStatus.InProgress (Some "w-1") None;
   task_in "T-5" TaskStatus.Merged None None]
  [mkWorkerSnapshotEntry "w-0" WorkerKind.Worker "s-0" (Some "T-1") true;
   mkWorkerSnapshotEntry "w-1" WorkerKind.Worker "s-1" None false]
  ∅ None
  [run_in "R-1" "T-1" RunStatus.Running (Some "s-0") (Some 50%Z) None;
   run_in "R-2" "T-2" RunStatus.Running (Some "s-1") (Some 500%Z) None;
   run_in "R-3" "T-3" RunStatus.Claimed (Some "s-0") (Some 50%Z) None;
   run_in "R-4" "T-4" RunStatus.RetryQueued None None (Some 90%Z);
   run_in "R-5" "T-5" RunStatus.RetryQueued None None (Some 90%Z)].

Lemma reconcile_runs_exact_witness :
  let plan := reconcile ReconcilerConfig_default sample_input in
  action_id <$> pl_run_renewals plan = ["R-1"] /\ action_id <$> pl_run_releases plan = ["R-3"] /\
  action_id <$> pl_run_retry_attempts plan = ["R-4"] /\
  action_id <$> pl_run_failures plan ≡ₚ ["R-2"; "R-5"].
Proof.
  destruct (reconcile_runs_exact ReconcilerConfig_default sample_input) as (E1 & E2 & E3 & E4);
    [apply (bool_decide_unpack _); vm_compute; reflexivity|].
  cbv zeta. rewrite E1, E2, E3, E4. split_and!; vm_compute; reflexivity.
Defined.
End witness.
