(* ===== verification/Reconciliation.v ===== *)
(** * Applying a reconciliation plan (brehon-orchestrator/src/orchestrator_reconciliation.rs)

    The repairs of runs go through the port of the run store (RunPort.v), whose
    calls are refused when the claim generation is stale or the lease has
    expired; an expired claim is taken over first.  Events about the repairs are
    collected and appended at the end of the pass. *)

From Stdlib Require Import Ascii.
From S2P Require Import Prelude StrLib Types Events TaskLifecycle DependencyGraph TaskBoard Ports WorkerPool RunPort RetryPolicy Reconciler.

Definition RECONCILER_OWNER : ClaimOwner := "brehon-reconciler".
Definition REPAIR_LEASE_SECONDS : Z := 60.

(** ** Events *)

Definition reconciler_owner : ClaimOwner := RECONCILER_OWNER.

Definition run_event (record : RunRecord) (kind : EventKind) (now : DateTime) : Event :=
  mkEvent kind now (rr_task_id record).

Definition run_claimed_event (record : RunRecord) (now : DateTime) : Event :=
  run_event record (EventKind.RunClaimed (rr_run_id record) (rr_task_id record) (rr_role record)
    (default reconciler_owner (rr_claim_owner record)) (rr_session_id record) (rr_claim_generation record)
    (default now (rr_lease_expires_at record))) now.

Definition run_claim_renewed_event (record : RunRecord) (now : DateTime) : Event :=
  run_event record (EventKind.RunClaimRenewed (rr_run_id record) (rr_task_id record) (rr_role record)
    (default reconciler_owner (rr_claim_owner record)) (rr_claim_generation record)
    (default now (rr_lease_expires_at record))) now.

Definition run_created_event (record : RunRecord) (now : DateTime) : Event :=
  run_event record (EventKind.RunCreated (rr_run_id record) (rr_task_id record) (rr_role record)
    (rr_status record)) now.

Definition run_released_event (record : RunRecord) (reason : option string) (now : DateTime) : Event :=
  run_event record (EventKind.RunReleased (rr_run_id record) (rr_task_id record) (rr_role record)
    (rr_claim_generation record) reason now) now.

Definition run_failed_event (record : RunRecord) (reason : string) (now : DateTime) : Event :=
  run_event record (EventKind.RunFailed (rr_run_id record) (rr_task_id record) (rr_role record)
    (rr_claim_generation record) reason now) now.

Definition run_retry_queued_event (record : RunRecord) (reason : string) (now : DateTime) : Event :=
  run_event record (EventKind.RunRetryQueued (rr_run_id record) (rr_task_id record) (rr_role record)
    (rr_claim_generation record) reason (default now (rr_retry_queued_at record)) (rr_retry_at record)) now.

(** [{}] of an unsigned integer *)
Definition fmt_u (n : Z) : string := pretty (Z.to_N n).

(** ["run {} task {} role {} attempt {} status {}"] *)
Definition run_context (run : RunRecord) : string :=
  "run " +:+ rr_run_id run +:+ " task " +:+ rr_task_id run +:+ " role " +:+ RunRole.as_str (rr_role run)
  +:+ " attempt " +:+ fmt_u (rr_attempt run) +:+ " status " +:+ RunStatus.as_str (rr_status run).

Definition retry_escalation_event (action : RunAction) (reason : string) (now : DateTime) : Event :=
  run_event (ac_run action) (EventKind.EscalationTriggered ("retry decision escalated: " +:+ reason)
    (run_context (ac_run action))) now.

Definition retry_attempt_run_id (record : RunRecord) : RunId :=
  rr_run_id record +:+ "-retry-" +:+ fmt_u (sat_add u32_max (rr_attempt record) 1).

(** ** Errors *)

Section errors.
Context `{Fmt}.

(** [RunStoreError::to_string] *)
Definition display_run_store_error (e : RunStoreError) : string :=
  match e with
  | RunStoreError.DuplicateActiveClaim task_id role existing_run_id =>
      "duplicate active run for task " +:+ task_id +:+ " role " +:+ RunRole.as_str role
      +:+ ": existing run " +:+ existing_run_id
  | RunStoreError.StaleGeneration run_id expected actual =>
      "stale generation for run " +:+ run_id +:+ ": expected " +:+ fmt_u expected +:+ ", got " +:+ fmt_u actual
  | RunStoreError.InvalidStatusTransition run_id from to =>
      "invalid run status transition for " +:+ run_id +:+ ": " +:+ RunStatus.as_str from +:+ " -> "
      +:+ RunStatus.as_str to
  | RunStoreError.LeaseExpired run_id generation =>
      "claim lease expired for run " +:+ run_id +:+ " generation " +:+ fmt_u generation
  | RunStoreError.RetryNotDue run_id retry_at now =>
      "retry for run " +:+ run_id +:+ " is not due until " +:+ display_time retry_at +:+ "; checked at "
      +:+ display_time now
  | RunStoreError.NotFound run_id => "run not found: " +:+ run_id
  | RunStoreError.Storage msg => "run store storage error: " +:+ msg
  | RunStoreError.Serialization msg => "run store serialization error: " +:+ msg
  end.

Definition map_run_store_error (err : RunStoreError) : OrchestratorError :=
  match err with
  | RunStoreError.Storage message | RunStoreError.Serialization message =>
      OrchestratorError.StorageError message
  | other => OrchestratorError.PortError (display_run_store_error other)
  end.
End errors.

(** ** Repairs of runs

    The state of a pass: the run store, the events collected so far, and how
    often the calls into the store have read the clock. *)

Section repairs.
Context {St : Type} `{RunStore St} `{Fmt}.
(** the times [Utc::now()] returns inside the calls of the run store *)
Context (clock : nat -> DateTime).

Record Pass := mkPass { ps_store : St; ps_events : list Event; ps_ticks : nat }.

#[export] Instance eta_Pass : Eta Pass := fun s => mkPass (ps_store s) (ps_events s) (ps_ticks s).

Abbreviation Repair A := (SM Pass OrchestratorError A).
Abbreviation Call A := (SM Pass RunStoreError A).

(** A call of the run store. *)
Definition call {A} (op : SM St RunStoreError A) : Call A := fun s =>
  let '(st, r) := op (ps_store s) in (s <| ps_store := st |>, r).

(** A call that reads the clock once. *)
Definition timed {A} (op : DateTime -> SM St RunStoreError A) : Call A := fun s =>
  call (op (clock (ps_ticks s))) (s <| ps_ticks := S (ps_ticks s) |>).

Definition push {E} (event : Event) : SM Pass E unit := fun s =>
  (s <| ps_events := ps_events s ++ [event] |>, Ok tt).

Definition call_renew (run_id : RunId) (generation : ClaimGeneration) : Call RunRecord := fun s =>
  call (renew_claim (clock (ps_ticks s)) (clock (S (ps_ticks s))) run_id generation)
    (s <| ps_ticks := S (S (ps_ticks s)) |>).

Definition claim_run_for_repair (run : RunRecord) (owner : ClaimOwner) (session_id : option SessionId)
    (now : DateTime) : Repair RunRecord :=
  let! claimed := sm_map_err map_run_store_error (timed (fun t => claim_run t
    (mkClaimRequest (rr_run_id run) owner session_id now (now + seconds REPAIR_LEASE_SECONDS)%Z))) in
  let! _ := push (run_claimed_event claimed now) in
  sm_ret claimed.

Definition handle_run_store_error (error : RunStoreError) (attempted_generation : ClaimGeneration)
    (mutation : string) (now : DateTime) : Repair bool :=
  match error with
  | RunStoreError.StaleGeneration run_id _ actual =>
      let attempted := if (actual =? attempted_generation)%Z then actual else attempted_generation in
      let! record := sm_map_err map_run_store_error (call (get_run run_id)) in
      let! _ := match record with
                | Some record => push (stale_run_mutation_rejected_event record attempted mutation now)
                | None => sm_ret tt
                end in
      sm_ret false
  | other => sm_lift (Err (map_run_store_error other))
  end.

(** The shape of the repairs: call, on [LeaseExpired] take the run over and call
    again, hand other errors on. *)
Definition with_takeover (op : RunRecord -> Call RunRecord) (record : RunRecord) (owner : ClaimOwner)
    (session_id : option SessionId) (done : RunRecord -> Event) (mutation : string) (now : DateTime)
    : Repair bool :=
  sm_catch (op record)
    (fun changed => let! _ := push (done changed) in sm_ret true)
    (fun error => match error with
     | RunStoreError.LeaseExpired _ _ =>
         let! claimed := claim_run_for_repair record owner session_id now in
         let! changed := sm_map_err map_run_store_error (op claimed) in
         let! _ := push (done changed) in
         sm_ret true
     | error => handle_run_store_error error (rr_claim_generation record) mutation now
     end).

Definition apply_run_renewal (action : RunAction) (now : DateTime) : Repair bool :=
  let record := ac_run action in
  let! record := if claim_is_expired_at record now
    then claim_run_for_repair record (default reconciler_owner (rr_claim_owner record))
           (rr_session_id record) now
    else sm_ret record in
  with_takeover (fun r => call_renew (rr_run_id r) (rr_claim_generation r)) record
    (default reconciler_owner (rr_claim_owner record)) (rr_session_id record)
    (fun renewed => run_claim_renewed_event renewed now) "renew_claim" now.

Definition apply_run_retry_attempt (action : RunAction) (now : DateTime) : Repair bool :=
  let run := ac_run action in
  sm_catch (call (start_retry_attempt (mkRetryAttemptRequest (rr_run_id run) (rr_claim_generation run)
                    (retry_attempt_run_id run) now)))
    (fun started =>
       let! _ := push (run_failed_event (rs_queued_run started)
                         ("retry attempt started: " +:+ RunRepairReason.as_str (ac_reason action)) now) in
       let! _ := push (run_created_event (rs_retry_run started) now) in
       sm_ret true)
    (fun error => handle_run_store_error error (rr_claim_generation run) "start_retry_attempt" now).

Definition apply_run_release (action : RunAction) (now : DateTime) : Repair bool :=
  let record := ac_run action in
  let! record := if claim_is_expired_at record now
    then claim_run_for_repair record reconciler_owner None now else sm_ret record in
  let reason := Some (RunRepairReason.as_str (ac_reason action)) in
  with_takeover (fun r => timed (fun t => release_claim t
      (mkClaimRelease (rr_run_id r) (rr_claim_generation r) now reason))) record reconciler_owner None
    (fun released => run_released_event released reason now) "release_claim" now.

Inductive RunFailureApplyOutcome := Failed | RetryQueued.

(** The run is taken over when it is not claimed or its lease has expired. *)
Definition claim_unless_held (record : RunRecord) (now : DateTime) : Repair RunRecord :=
  if negb (RunStatus.has_active_claim (rr_status record)) || claim_is_expired_at record now
  then claim_run_for_repair record reconciler_owner None now else sm_ret record.

Definition queue_run_retry (action : RunAction) (queued_at retry_at : DateTime) (reason : string)
    : Repair (option RunFailureApplyOutcome) :=
  let! record := claim_unless_held (ac_run action) queued_at in
  let retry_reason := RunRepairReason.as_str (ac_reason action) +:+ ": " +:+ reason in
  let! applied := with_takeover (fun r => timed (fun t => queue_retry t
      (mkRunRetry (rr_run_id r) (rr_claim_generation r) queued_at retry_at retry_reason)))
    record reconciler_owner None (fun queued => run_retry_queued_event queued retry_reason queued_at)
    "queue_retry" queued_at in
  sm_ret (if applied then Some RetryQueued else None).

Definition failure_kind_of (reason : RunRepairReason) : RetryFailureKind :=
  match reason with
  | RunRepairReason.ExpiredRunningClaim | RunRepairReason.DeadOrMissingSession => RetryFailureKind.Interrupted
  | RunRepairReason.ExpiredClaim | RunRepairReason.ExpiredClaimWithLiveOperation
  | RunRepairReason.TerminalTaskHasActiveRun | RunRepairReason.RetryDue => RetryFailureKind.Deterministic
  end.

Definition retry_decision_for_failure (task_board : TaskBoard) (policy : RetryPolicyConfig)
    (action : RunAction) : RetryDecision :=
  let task_status := match get_task task_board (rr_task_id (ac_run action)) with
                     | Some task => te_status task
                     | None => TaskStatus.Pending
                     end in
  decide_retry (mkRetryInput (rr_status (ac_run action)) (failure_kind_of (ac_reason action))
    (rr_attempt (ac_run action)) task_status None (Some RetryPermissionState.NotRequired) None) policy.

(** [delay_ms as i64], and milliseconds in nanoseconds *)
Definition as_i64 (n : Z) : Z := ((n + 9223372036854775808) mod 18446744073709551616 - 9223372036854775808)%Z.
Definition millis (n : Z) : Z := (n * 1000000)%Z.

(** The run is failed for good. *)
Definition fail_for_good (action : RunAction) (now : DateTime) : Repair (option RunFailureApplyOutcome) :=
  let! record := claim_unless_held (ac_run action) now in
  let reason := RunRepairReason.as_str (ac_reason action) in
  let! applied := with_takeover (fun r => timed (fun t => fail_run t
      (mkRunFailure (rr_run_id r) (rr_claim_generation r) now reason))) record reconciler_owner None
    (fun failed => run_failed_event failed reason now) "fail_run" now in
  sm_ret (if applied then Some Failed else None).

Definition apply_run_failure (task_board : TaskBoard) (policy : RetryPolicyConfig) (action : RunAction)
    (now : DateTime) : Repair (option RunFailureApplyOutcome) :=
  match retry_decision_for_failure task_board policy action with
  | RetryDecision.RetryNow _ reason => queue_run_retry action now now reason
  | RetryDecision.RetryLater _ delay_ms _ reason =>
      queue_run_retry action now (now + millis (as_i64 delay_ms))%Z reason
  | RetryDecision.Escalate reason =>
      let! _ := push (retry_escalation_event action reason now) in fail_for_good action now
  | RetryDecision.FailTerminal _ | RetryDecision.NoAction _ => fail_for_good action now
  end.

(** ** The report of a pass *)

Record ReconciliationApplyReport := mkReport {
  rep_task_updates : nat;
  rep_run_retry_attempts : nat;
  rep_run_retries_queued : nat;
  rep_run_renewals : nat;
  rep_run_releases : nat;
  rep_run_failures : nat;
  rep_worker_cleanup_actions : nat;
  rep_workers_spawned : nat;
  rep_escalations : nat;
  rep_events_emitted : nat
}.

#[export] Instance eta_Report : Eta ReconciliationApplyReport := fun r =>
  mkReport (rep_task_updates r) (rep_run_retry_attempts r) (rep_run_retries_queued r) (rep_run_renewals r)
    (rep_run_releases r) (rep_run_failures r) (rep_worker_cleanup_actions r) (rep_workers_spawned r)
    (rep_escalations r) (rep_events_emitted r).

Definition empty_report : ReconciliationApplyReport := mkReport 0 0 0 0 0 0 0 0 0 0.

(** [for action in actions { .. apply(action).await? .. }] with the report *)
Fixpoint apply_all {A} (apply : RunAction -> Repair A)
    (count : A -> ReconciliationApplyReport -> ReconciliationApplyReport) (actions : list RunAction)
    (report : ReconciliationApplyReport) : Repair ReconciliationApplyReport :=
  match actions with
  | [] => sm_ret report
  | action :: actions =>
      let! applied := apply action in
      apply_all apply count actions (count applied report)
  end.

(** [apply_run_actions], when there is a run store *)
Definition apply_run_actions (task_board : TaskBoard) (policy : RetryPolicyConfig) (plan : ReconciliationPlan)
    (now : DateTime) (report : ReconciliationApplyReport) : Repair ReconciliationApplyReport :=
  let! report := apply_all (fun a => apply_run_retry_attempt a now)
    (fun b r => if b then r <| rep_run_retry_attempts := S (rep_run_retry_attempts r) |> else r)
    (pl_run_retry_attempts plan) report in
  let! report := apply_all (fun a => apply_run_renewal a now)
    (fun b r => if b then r <| rep_run_renewals := S (rep_run_renewals r) |> else r)
    (pl_run_renewals plan) report in
  let! report := apply_all (fun a => apply_run_release a now)
    (fun b r => if b then r <| rep_run_releases := S (rep_run_releases r) |> else r)
    (pl_run_releases plan) report in
  apply_all (fun a => apply_run_failure task_board policy a now)
    (fun o r => match o with
                | Some Failed => r <| rep_run_failures := S (rep_run_failures r) |>
                | Some RetryQueued => r <| rep_run_retries_queued := S (rep_run_retries_queued r) |>
                | None => r
                end)
    (pl_run_failures plan) report.
End repairs.


(** ** What the repairs do to the runs: the reference *)

(** The record after the reconciler has claimed it. *)
Definition taken_over (now : DateTime) (owner : ClaimOwner) (session_id : option SessionId) (run : RunRecord)
    : RunRecord :=
  run <| rr_status := RunStatus.Claimed |>
      <| rr_claim_generation := generation_next (rr_claim_generation run) |>
      <| rr_claim_owner := Some owner |> <| rr_session_id := session_id |>
      <| rr_lease_expires_at := Some (now + seconds REPAIR_LEASE_SECONDS)%Z |>
      <| rr_claimed_at := Some now |> <| rr_updated_at := now |>
      <| rr_released_at := None |> <| rr_release_reason := None |>.

(** The same attempt of the same task. *)
Definition same_attempt (r q : RunRecord) : Prop :=
  rr_run_id r = rr_run_id q /\ lane r = lane q /\ rr_attempt r = rr_attempt q.

Definition unclaimed (r : RunRecord) : Prop :=
  rr_claim_owner r = None /\ rr_session_id r = None /\ rr_lease_expires_at r = None.

(** [run] was replaced by a record [r] of the same attempt with [P r]. *)
Definition replaced (run : RunRecord) (P : RunRecord -> Prop) (m : Runs) : Prop :=
  exists r, m !! rr_run_id run = Some r /\ same_attempt r run /\ P r.

Definition renewed (now : DateTime) (run r : RunRecord) : Prop :=
  RunStatus.has_active_claim (rr_status r) = true /\ rr_session_id r = rr_session_id run /\
  (forall t, (t < now + seconds REPAIR_LEASE_SECONDS)%Z -> claim_is_expired_at r t = false).

Definition released (reason : RunRepairReason) (r : RunRecord) : Prop :=
  rr_status r = RunStatus.Released /\ unclaimed r /\
  rr_release_reason r = Some (RunRepairReason.as_str reason).

Definition failed (now : DateTime) (status : RunStatus) (r : RunRecord) : Prop :=
  rr_status r = status /\ unclaimed r /\ rr_failed_at r = Some now.

(** The status a failed run ends in. *)
Definition failure_status (task_board : TaskBoard) (policy : RetryPolicyConfig) (action : RunAction) : RunStatus :=
  match retry_decision_for_failure task_board policy action with
  | RetryDecision.RetryNow _ _ | RetryDecision.RetryLater _ _ _ _ => RunStatus.RetryQueued
  | _ => RunStatus.Failed
  end.

(** The queued attempt is closed and the next one created. *)
Definition retried (run : RunRecord) (m : Runs) : Prop :=
  replaced run (fun r => rr_status r = RunStatus.Failed) m /\
  exists q, m !! retry_attempt_run_id run = Some q /\ rr_status q = RunStatus.Created /\
    lane q = lane run /\ rr_attempt q = sat_add u32_max (rr_attempt run) 1.

(** What becomes of an active run in a pass. *)
Record settled (task_board : TaskBoard) (policy : RetryPolicyConfig) (config : ReconcilerConfig)
    (input : ReconciliationInput) (run : RunRecord) (m' : Runs) : Prop := {
  settled_renewal a : renewal_of config input run = Some a -> replaced run (renewed (ri_now input) run) m';
  settled_release a : release_of config input run = Some a -> replaced run (released (ac_reason a)) m';
  settled_failure a : failure_of config input run = Some a ->
    replaced run (failed (ri_now input) (failure_status task_board policy a)) m';
  settled_retry a : retry_of input run = Some a -> retried run m';
  settled_kept : renewal_of config input run = None -> release_of config input run = None ->
    failure_of config input run = None -> retry_of input run = None -> m' !! rr_run_id run = Some run
}.

(** ** Programs that repair runs

    [repairs c v K pre post]: on a store with the runs [m] where [pre m],
    [c] returns [v], changes only runs in [K] and reaches [post]; or it fails
    with a storage error. *)

Definition agree (K : list RunId) (m m' : Runs) : Prop := forall id, id ∈ K -> m !! id = m' !! id.
Definition local (K : list RunId) (P : Runs -> Prop) : Prop := forall m m', agree K m m' -> P m -> P m'.
Definition frame (K : list RunId) (m m' : Runs) : Prop := forall id, id ∉ K -> m' !! id = m !! id.

Lemma local_all {A} (touch : A -> list RunId) (P : A -> Runs -> Prop) (l : list A) :
  (forall a, local (touch a) (P a)) -> local (concat (touch <$> l)) (fun m => forall a, a ∈ l -> P a m).
Proof.
  intros Hloc m m' Hag Hm b Hb. eapply (Hloc b); [|by apply Hm]. intros id Hid. apply Hag.
  apply list_elem_of_In, in_concat. exists (touch b). rewrite <-!list_elem_of_In. split; [|done].
  apply list_elem_of_fmap. eauto.
Qed.

Lemma local_and K1 K2 P Q : local K1 P -> local K2 Q -> local (K1 ++ K2) (fun m => P m /\ Q m).
Proof.
  intros HP HQ m m' Hag [Hp Hq]. split; [eapply HP; [|exact Hp]|eapply HQ; [|exact Hq]];
    intros id Hid; apply Hag, elem_of_app; auto.
Qed.

Lemma replaced_local run P : local [rr_run_id run] (replaced run P).
Proof. intros m m' Hag (r & Hr & Hp). exists r. rewrite <-(Hag (rr_run_id run)); [done|left]. Qed.

Lemma retried_local run : local [rr_run_id run; retry_attempt_run_id run] (retried run).
Proof.
  intros m m' Hag [(r & Hr & Hp) (q & Hq & Hp')]. split; [exists r|exists q]; (rewrite <-Hag; [done|set_solver]).
Qed.

(** The ids of the next attempts are as different as the ids of the runs. *)
Lemma fmt_u_no_dash n : occurs "-"%char (fmt_u n) = false.
Proof.
  unfold fmt_u, pretty, pretty_N. case_decide; [done|].
  assert (Hgo : forall x t, occurs "-"%char t = false -> occurs "-"%char (pretty_N_go x t) = false);
    [|by apply Hgo].
  intros x. induction (N.lt_wf_0 x) as [x _ IH]. intros t Ht. destruct (decide (0 < x)%N) as [Hx|Hx].
  - rewrite pretty_N_go_step by done. apply IH; [apply N.div_lt; lia|]. cbn [occurs]. rewrite Ht, orb_false_r.
    unfold pretty_N_char. by repeat case_match.
  - replace x with 0%N by lia. by rewrite pretty_N_go_0.
Qed.

Lemma retry_attempt_run_id_inj r q : retry_attempt_run_id r = retry_attempt_run_id q -> rr_run_id r = rr_run_id q.
Proof.
  unfold retry_attempt_run_id. set (n := fmt_u (sat_add u32_max (rr_attempt r) 1)).
  set (k := fmt_u (sat_add u32_max (rr_attempt q) 1)). intros Heq.
  change ("-retry-" +:+ n) with ("-retry" +:+ String "-" n) in Heq.
  change ("-retry-" +:+ k) with ("-retry" +:+ String "-" k) in Heq. rewrite <-!append_assoc in Heq.
  assert (n = k) as Hnk.
  { rewrite <-(rsplit_last_app "-" (rr_run_id r +:+ "-retry") n) by apply fmt_u_no_dash.
    rewrite Heq. apply rsplit_last_app, fmt_u_no_dash. }
  rewrite Hnk, !append_assoc in Heq. by apply append_inj_r in Heq.
Qed.

Section programs.
Context {St : Type} `{RunStoreLaws St} `{Fmt}.
Context (clock : nat -> DateTime) (now : DateTime).
Hypothesis clock_window : forall i, (now <= clock i < now + seconds REPAIR_LEASE_SECONDS)%Z.
Hypothesis clock_mono : forall i j, i <= j -> (clock i <= clock j)%Z.

Definition storage_failure (e : OrchestratorError) : Prop := exists msg, e = OrchestratorError.StorageError msg.

Definition repairs {A} (c : SM (Pass (St := St)) OrchestratorError A) (v : A) (K : list RunId)
    (pre post : Runs -> Prop) : Prop :=
  forall s m, runs_repr (ps_store s) m -> pre m ->
  sm_post c s (fun s' r => match r with
    | Ok x => x = v /\ exists m', runs_repr (ps_store s') m' /\ frame K m m' /\ post m'
    | Err e => storage_failure e
    end).

Lemma repairs_ret {A} (v : A) K P : repairs (sm_ret v) v K P P.
Proof. intros s m Hr HP. apply sm_post_ret. split; [done|]. by exists m. Qed.

Lemma repairs_bind {A B} (c : SM Pass OrchestratorError A) (k : A -> SM Pass OrchestratorError B) v w K1 K2
    pre1 post1 pre2 post2 :
  repairs c v K1 pre1 post1 -> repairs (k v) w K2 pre2 post2 ->
  (forall id, id ∈ K1 -> id ∉ K2) -> local K2 pre2 -> local K1 post1 ->
  repairs (sm_bind c k) w (K1 ++ K2) (fun m => pre1 m /\ pre2 m) (fun m => post1 m /\ post2 m).
Proof.
  intros Hc Hk Hd Hpre Hpost s m Hs [Hm1 Hm2]. apply sm_post_bind. eapply sm_post_mono; [by apply Hc|].
  intros s1 [x|e]; [|done]. intros (-> & m1 & Hs1 & Hf1 & Hp1).
  eapply sm_post_mono; [eapply Hk; [done|]|].
  { eapply Hpre; [|exact Hm2]. intros id Hid. symmetry. apply Hf1. intros Hin. by eapply Hd. }
  intros s2 [y|e]; [|done]. intros (-> & m2 & Hs2 & Hf2 & Hp2). split; [done|]. exists m2. split_and!; [done| | |done].
  - intros id [Hn1 Hn2]%not_elem_of_app. rewrite Hf2, Hf1; done.
  - eapply Hpost; [|exact Hp1]. intros id Hid. symmetry. apply Hf2. by apply Hd.
Qed.

Lemma repairs_mono {A} (c : SM Pass OrchestratorError A) v K K' (pre pre' post post' : Runs -> Prop) :
  repairs c v K pre post -> (forall m, pre' m -> pre m) -> (forall m, post m -> post' m) -> K = K' ->
  repairs c v K' pre' post'.
Proof.
  intros Hc Hpre Hpost <- s m Hs Hm. eapply sm_post_mono; [apply Hc; eauto|].
  intros s' [x|e]; [|done]. intros (-> & m' & ? & ? & ?). eauto 10.
Qed.

(** The loops of [apply_run_actions]. *)
Lemma repairs_all {A} (apply : RunAction -> SM Pass OrchestratorError A) count v touch pre post actions report :
  (forall a, a ∈ actions -> repairs (apply a) (v a) (touch a) (pre a) (post a)) ->
  (forall a, local (touch a) (pre a) /\ local (touch a) (post a)) ->
  NoDup (concat (touch <$> actions)) ->
  repairs (apply_all apply count actions report) (foldl (fun r a => count (v a) r) report actions)
    (concat (touch <$> actions))
    (fun m => forall a, a ∈ actions -> pre a m) (fun m => forall a, a ∈ actions -> post a m).
Proof.
  intros Happ Hloc. revert report. induction actions as [|a actions IH]; intros report Hnd; cbn [apply_all].
  { eapply repairs_mono; [apply repairs_ret| |exact (fun _ P => P)|done]. by intros m _ a ?%elem_of_nil. }
  rewrite fmap_cons in *. cbn [concat] in *. apply NoDup_app in Hnd as (Hnd1 & Hd & Hnd2).
  eapply repairs_mono; [eapply (repairs_bind _ _ _ _ _ _ (pre a) (post a)
      (fun m => forall b, b ∈ actions -> pre b m) (fun m => forall b, b ∈ actions -> post b m))|..|done].
  - apply Happ. left.
  - apply IH; [|done]. intros b Hb. apply Happ. by right.
  - exact Hd.
  - apply local_all. intros b. apply Hloc.
  - apply Hloc.
  - intros m Hm. split; [apply Hm; left|]. intros b Hb. apply Hm. by right.
  - intros m [Ha Hm] b [->|Hb]%elem_of_cons; [done|by apply Hm].
Qed.

(** *** Calls *)

Definition answered {A} (spec : Runs -> RunStoreResult (A * Runs)) (m : Runs) (st : St) (r : RunStoreResult A)
    : Prop :=
  match r with
  | Ok a => exists m', spec m = Ok (a, m') /\ runs_repr st m'
  | Err e => is_io_error e = true \/ (spec m = Err e /\ runs_repr st m)
  end.

Lemma call_answered {A} (op : SM St RunStoreError A) spec s m :
  refines runs_repr op spec -> runs_repr (ps_store s) m ->
  sm_post (call op) s (fun s' r => answered spec m (ps_store s') r /\ ps_ticks s' = ps_ticks s).
Proof.
  intros Hop Hs. specialize (Hop _ _ Hs). unfold sm_post, call.
  destruct (op (ps_store s)) as [st [a|e]]; cbn; [done|]. split; [|done]. tauto.
Qed.

Lemma timed_answered {A} (op : DateTime -> SM St RunStoreError A) spec s m :
  (forall t, refines runs_repr (op t) (spec t)) -> runs_repr (ps_store s) m ->
  sm_post (timed clock op) s (fun s' r =>
    answered (spec (clock (ps_ticks s))) m (ps_store s') r /\ ps_ticks s' = S (ps_ticks s)).
Proof.
  intros Hop Hs. destruct s as [st es i].
  refine (call_answered (op (clock i)) _ (mkPass st es (S i)) m (Hop _) Hs).
Qed.

Lemma io_is_storage e : is_io_error e = true -> storage_failure (map_run_store_error e).
Proof. destruct e; try done; intros _; eexists; done. Qed.

(** A call under a claim, on the record the store has. *)
Lemma guarded_update id t g to F m r :
  m !! id = Some r -> rr_claim_generation r = g -> RunStatus.has_active_claim (rr_status r) = true ->
  spec_update id (fun x => let? _ := guard_claim t g to x in Ok (F x)) m =
  if claim_is_expired_at r t then Err (RunStoreError.LeaseExpired (rr_run_id r) g) else Ok (F r, <[id := F r]> m).
Proof.
  intros Hm Hg Hc. unfold spec_update. rewrite Hm. unfold guard_claim, ensure_generation, ensure_unexpired.
  rewrite Hg, Z.eqb_refl, Hc. cbn. by destruct (claim_is_expired_at r t).
Qed.

(** [op] is such a call: it does [G], or reports that the lease has expired. *)
Definition claim_op (op : RunRecord -> SM (Pass (St := St)) RunStoreError RunRecord)
    (G : RunRecord -> RunRecord -> Prop) : Prop :=
  forall s m r, runs_repr (ps_store s) m -> m !! rr_run_id r = Some r ->
  RunStatus.has_active_claim (rr_status r) = true ->
  sm_post (op r) s (fun s' res => match res with
    | Ok r' => G r r' /\ runs_repr (ps_store s') (<[rr_run_id r := r']> m)
    | Err e => is_io_error e = true \/
        (e = RunStoreError.LeaseExpired (rr_run_id r) (rr_claim_generation r) /\ runs_repr (ps_store s') m /\
         forall j, ps_ticks s' <= j -> claim_is_expired_at r (clock j) = true)
    end).

Lemma expired_later r t t' : claim_is_expired_at r t = true -> (t <= t')%Z -> claim_is_expired_at r t' = true.
Proof. unfold claim_is_expired_at. destruct (rr_lease_expires_at r); [|done]. rewrite !Z.leb_le. lia. Qed.

Lemma guarded_answer (spec : Runs -> RunStoreResult (RunRecord * Runs)) to F (s' : Pass (St := St)) m r t
    (res : RunStoreResult RunRecord) (G : RunRecord -> RunRecord -> Prop) :
  (forall m, spec m = spec_update (rr_run_id r) (fun x =>
     let? _ := guard_claim t (rr_claim_generation r) to x in Ok (F x)) m) ->
  G r (F r) -> m !! rr_run_id r = Some r -> RunStatus.has_active_claim (rr_status r) = true ->
  (forall j, ps_ticks s' <= j -> (t <= clock j)%Z) ->
  answered spec m (ps_store s') res ->
  match res with
  | Ok r' => G r r' /\ runs_repr (ps_store s') (<[rr_run_id r := r']> m)
  | Err e => is_io_error e = true \/
      (e = RunStoreError.LeaseExpired (rr_run_id r) (rr_claim_generation r) /\ runs_repr (ps_store s') m /\
       forall j, ps_ticks s' <= j -> claim_is_expired_at r (clock j) = true)
  end.
Proof.
  intros Hspec HG Hm Hc Ht. unfold answered. rewrite Hspec, (guarded_update _ _ _ _ _ _ _ Hm eq_refl Hc).
  destruct (claim_is_expired_at r t) eqn:He, res as [r'|e].
  - by intros (? & ? & _).
  - intros [?|[[= <-] Hr]]; [by left|]. right. split_and!; [done|done|]. intros j Hj.
    eapply expired_later; [exact He|by apply Ht].
  - intros (m' & [= <- <-] & Hr). auto.
  - intros [?|[? _]]; [by left|done].
Qed.

Lemma timed_claim_op (op : DateTime -> RunRecord -> SM St RunStoreError RunRecord) to F G :
  (forall t r, refines runs_repr (op t r) (spec_update (rr_run_id r) (fun x =>
     let? _ := guard_claim t (rr_claim_generation r) to x in Ok (F r x)))) ->
  (forall r, G r (F r r)) ->
  claim_op (fun r => timed clock (fun t => op t r)) G.
Proof.
  intros Hop HG s m r Hs Hm Hc. eapply sm_post_mono; [apply timed_answered; [intros t; apply Hop|done]|].
  cbv beta. intros s' res [Hres Ht]. eapply (guarded_answer _ to (F r)); [done|apply HG|done|done| |exact Hres].
  intros j Hj. apply clock_mono. lia.
Qed.

Definition lease_renewed (r r' : RunRecord) : Prop := exists i,
  r' = r <| rr_lease_expires_at := Some (clock i + seconds DEFAULT_RENEWAL_SECONDS)%Z |>
         <| rr_updated_at := clock i |>.

Lemma renew_claim_op : claim_op (fun r => call_renew clock (rr_run_id r) (rr_claim_generation r)) lease_renewed.
Proof.
  intros s m r Hs Hm Hc.
  destruct s as [st es i].
  pose proof (call_answered _ _ (mkPass st es (S (S i))) m
    (renew_claim_law (clock i) (clock (S i)) (rr_run_id r) (rr_claim_generation r)) Hs) as Hcall.
  match goal with |- sm_post _ _ ?Q => refine (sm_post_mono _ _ _ Q Hcall _) end. cbv beta.
  intros s' res [Hres Ht]. eapply (guarded_answer _ RunStatus.Claimed
      (fun x => x <| rr_lease_expires_at := Some (clock (S i) + seconds DEFAULT_RENEWAL_SECONDS)%Z |>
                  <| rr_updated_at := clock (S i) |>) _ _ _ _ _ lease_renewed);
    [done|by exists (S i)|done|done| |exact Hres].
  intros j Hj. apply clock_mono. cbn in Ht. lia.
Qed.

(** *** Taking a run over *)

Definition claimable (run : RunRecord) (t : DateTime) : Prop :=
  can_claim t run = true /\ (rr_status run = RunStatus.RetryQueued -> retry_is_due_at run now = true).

Lemma take_over_post run owner session_id s m :
  runs_repr (ps_store s) m -> m !! rr_run_id run = Some run -> claimable run (clock (ps_ticks s)) ->
  sm_post (claim_run_for_repair clock run owner session_id now) s (fun s' res => match res with
    | Ok c => c = taken_over now owner session_id run /\ runs_repr (ps_store s') (<[rr_run_id run := c]> m)
    | Err e => storage_failure e
    end).
Proof.
  intros Hs Hm [Hcan Hdue]. unfold claim_run_for_repair. apply sm_post_bind, sm_post_map_err.
  eapply sm_post_mono; [apply timed_answered; [intros t; apply claim_run_law|exact Hs]|]. cbv beta.
  intros s1 res [Hres _].
  assert (Hspec : spec_claim (clock (ps_ticks s)) (mkClaimRequest (rr_run_id run) owner session_id now
      (now + seconds REPAIR_LEASE_SECONDS)%Z) m =
    Ok (taken_over now owner session_id run, <[rr_run_id run := taken_over now owner session_id run]> m)).
  { unfold spec_claim, spec_update, claim_record. cbn [cr_run_id cr_claimed_at]. rewrite Hm, Hcan. cbn.
    case_bool_decide as Hq; [by rewrite Hdue|done]. }
  unfold answered in Hres. rewrite Hspec in Hres. destruct res as [c|e]; cbn [result_map_err].
  - destruct Hres as (m' & [= <- <-] & Hr). apply sm_post_bind. by cbn.
  - destruct Hres as [Hio|[? _]]; [by apply io_is_storage|done].
Qed.

Lemma expired_claimable r t : RunStatus.has_active_claim (rr_status r) = true -> claim_is_expired_at r t = true ->
  claimable r t.
Proof.
  intros Hc He. split; [|by intros Hs; rewrite Hs in Hc]. unfold can_claim. rewrite Hc, He. by rewrite !orb_true_r.
Qed.

Lemma with_takeover_post op G r owner session_id done mutation (P : RunRecord -> Prop) s m :
  claim_op op G -> runs_repr (ps_store s) m -> m !! rr_run_id r = Some r ->
  RunStatus.has_active_claim (rr_status r) = true ->
  (forall q r', q = r \/ q = taken_over now owner session_id r -> G q r' -> P r') ->
  sm_post (with_takeover clock op r owner session_id done mutation now) s (fun s' res => match res with
    | Ok x => x = true /\ exists r', runs_repr (ps_store s') (<[rr_run_id r := r']> m) /\ P r'
    | Err e => storage_failure e
    end).
Proof.
  intros Hop Hs Hm Hc HP. unfold with_takeover. apply sm_post_catch. eapply sm_post_mono; [by apply Hop|].
  cbv beta. intros s1 [r'|e].
  { intros [HG Hr]. apply sm_post_bind. cbn. split; [done|]. exists r'. split; [done|]. by eapply HP; [left|]. }
  intros [Hio|(-> & Hs1 & Hexp)]; [destruct e; try done; cbn; by eexists|].
  apply sm_post_bind. eapply sm_post_mono; [apply take_over_post; [exact Hs1|done|]|].
  { apply expired_claimable; [done|by apply Hexp]. }
  cbv beta. intros s2 [c|e]; [|done]. intros [-> Hs2]. set (c := taken_over now owner session_id r) in *.
  apply sm_post_bind, sm_post_map_err. eapply sm_post_mono; [apply (Hop s2 _ c Hs2); [apply lookup_insert_eq|done]|].
  cbv beta. intros s3 [r'|e]; cbn [result_map_err].
  - intros [HG Hr]. apply sm_post_bind. cbn. split; [done|]. exists r'. split; [|by eapply HP; [right|]].
    change (rr_run_id c) with (rr_run_id r) in Hr. by rewrite insert_insert_eq in Hr.
  - intros [Hio|(_ & _ & Hexp3)]; [by apply io_is_storage|]. specialize (Hexp3 _ (le_n _)).
    unfold claim_is_expired_at in Hexp3. cbn in Hexp3. apply Z.leb_le in Hexp3.
    pose proof (clock_window (ps_ticks s3)). lia.
Qed.

(** *** Repairs of one run *)

(** A repair: take the run over if [b], then make a call under its claim. *)
Lemma repair_one op G run (owner : RunRecord -> ClaimOwner) (session_id : RunRecord -> option SessionId)
    (b : bool) done mutation (Inv P : RunRecord -> Prop) :
  claim_op op G ->
  Inv run -> (forall r, Inv r -> Inv (taken_over now (owner r) (session_id r) r)) ->
  (forall r r', Inv r -> G r r' -> P r') ->
  (if b then forall t, (now <= t)%Z -> claimable run t else RunStatus.has_active_claim (rr_status run) = true) ->
  repairs (let! record := if b then claim_run_for_repair clock run (owner run) (session_id run) now
                          else sm_ret run in
           with_takeover clock op record (owner record) (session_id record) done mutation now)
    true [rr_run_id run] (fun m => m !! rr_run_id run = Some run)
    (fun m => exists r, m !! rr_run_id run = Some r /\ P r).
Proof.
  intros Hop Hi Htake HP Hb s m Hs Hm.
  assert (Hrest : forall q s' m', rr_run_id q = rr_run_id run -> Inv q ->
    RunStatus.has_active_claim (rr_status q) = true -> runs_repr (ps_store s') m' ->
    m' !! rr_run_id run = Some q -> frame [rr_run_id run] m m' ->
    sm_post (with_takeover clock op q (owner q) (session_id q) done mutation now) s'
      (fun s'' res => match res with
       | Ok x => x = true /\ exists m'', runs_repr (ps_store s'') m'' /\ frame [rr_run_id run] m m'' /\
                   exists r, m'' !! rr_run_id run = Some r /\ P r
       | Err e => storage_failure e
       end)).
  { intros q s' m' Hid Hq Hc Hs' Hm' Hf. rewrite <-Hid in *.
    eapply sm_post_mono; [eapply (with_takeover_post _ _ q _ _ _ _ P); [done|done|done|done|]|].
    - intros q' r' [-> | ->] HG; [exact (HP _ _ Hq HG)|exact (HP _ _ (Htake _ Hq) HG)].
    - cbv beta. intros s'' [x|e]; [|done]. intros (-> & r' & Hr & Hp). split; [done|]. eexists. split_and!; [done| |].
      + intros id Hid'. rewrite lookup_insert_ne; [by apply Hf|]. intros <-. destruct Hid'. left.
      + exists r'. by rewrite lookup_insert_eq. }
  apply sm_post_bind. destruct b.
  - eapply sm_post_mono; [apply take_over_post; [done|done|apply Hb, clock_window]|].
    cbv beta. intros s' [c|e]; [|done]. intros [-> Hs']. eapply Hrest; [done|by apply Htake|done|done|by rewrite lookup_insert_eq|].
    intros id Hid. rewrite lookup_insert_ne; [done|]. intros <-. destruct Hid. left.
  - apply sm_post_ret. by eapply Hrest.
Qed.

(** *** The four kinds of repair *)

Definition ready (a : RunAction) (m : Runs) : Prop := m !! rr_run_id (ac_run a) = Some (ac_run a).

Lemma ready_local a : local [action_id a] (ready a).
Proof. intros m m' Hag Hr. unfold ready in *. by rewrite <-(Hag (rr_run_id (ac_run a))) by left. Qed.

Lemma renewal_repairs a :
  RunStatus.has_active_claim (rr_status (ac_run a)) = true -> claim_is_expired_at (ac_run a) now = true ->
  repairs (apply_run_renewal clock a now) true [action_id a] (ready a)
    (replaced (ac_run a) (renewed now (ac_run a))).
Proof.
  intros Hc He. unfold apply_run_renewal. rewrite He. set (run := ac_run a).
  apply (repair_one _ _ run (fun r => default reconciler_owner (rr_claim_owner r)) rr_session_id true _ _
    (fun r => same_attempt r run /\ RunStatus.has_active_claim (rr_status r) = true /\ rr_session_id r = rr_session_id run)
    _ renew_claim_op).
  - done.
  - intros r (Hsame & _ & Hsess). by split_and!.
  - intros r r' (Hsame & Hcl & Hsess) (i & ->). unfold renewed. split_and!; [done|done|done|].
    intros t Ht. unfold claim_is_expired_at. cbn. apply Z.leb_gt. pose proof (clock_window i).
    unfold DEFAULT_RENEWAL_SECONDS, REPAIR_LEASE_SECONDS in *. lia.
  - intros t Ht. apply expired_claimable; [done|]. by eapply expired_later.
Qed.

Lemma release_repairs a :
  RunStatus.has_active_claim (rr_status (ac_run a)) = true ->
  repairs (apply_run_release clock a now) true [action_id a] (ready a)
    (replaced (ac_run a) (released (ac_reason a))).
Proof.
  intros Hc. unfold apply_run_release. set (run := ac_run a). eapply (repair_one _ (fun r r' => same_attempt r' r /\
      released (ac_reason a) r') run (fun _ => reconciler_owner) (fun _ => None) _ _ _ (fun r => same_attempt r run)).
  - apply (timed_claim_op _ RunStatus.Released (fun r x => clear_claim (x <| rr_status := RunStatus.Released |>)
        <| rr_released_at := Some now |> <| rr_release_reason := Some (RunRepairReason.as_str (ac_reason a)) |>
        <| rr_updated_at := now |>)); [|by repeat split].
    intros t r. apply release_claim_law.
  - done.
  - intros r Hr. exact Hr.
  - intros r r' Hsame [Hs Hr]. split; [|done]. unfold same_attempt in *. intuition congruence.
  - destruct (claim_is_expired_at run now) eqn:He; [|done]. intros t Ht. apply expired_claimable; [done|].
    by eapply expired_later.
Qed.

(** What a run needs so that the reconciler can fail it. *)
Definition failable (run : RunRecord) : Prop :=
  run_is_active run = true /\
  (rr_status run = RunStatus.RetryQueued -> retry_is_due_at run now = true).

Lemma due_later r t t' : retry_is_due_at r t = true -> (t <= t')%Z -> retry_is_due_at r t' = true.
Proof.
  unfold retry_is_due_at. case_bool_decide; [|done]. destruct (rr_retry_at r); [|done]. cbn. rewrite !Z.leb_le. lia.
Qed.

(** [claim_unless_held] takes over what it has to. *)
Lemma held_or_claimable run : failable run ->
  if negb (RunStatus.has_active_claim (rr_status run)) || claim_is_expired_at run now
  then forall t, (now <= t)%Z -> claimable run t else RunStatus.has_active_claim (rr_status run) = true.
Proof.
  intros [Ha Hdue]. destruct (RunStatus.has_active_claim (rr_status run)) eqn:Hc; cbn.
  - destruct (claim_is_expired_at run now) eqn:He; [|done]. intros t Ht. apply expired_claimable; [done|].
    by eapply expired_later.
  - intros t Ht. split; [|done]. unfold can_claim, run_is_active in *.
    destruct (rr_status run) eqn:Hs; try done. rewrite Hc. cbn. rewrite (due_later _ now t); auto.
Qed.

(** The two ways to end a run. *)
Lemma ending_repairs (op : DateTime -> RunRecord -> SM St RunStoreError RunRecord) to F run status done mutation :
  (forall t r, refines runs_repr (op t r) (spec_update (rr_run_id r) (fun x =>
     let? _ := guard_claim t (rr_claim_generation r) to x in Ok (F x)))) ->
  (forall r, same_attempt (F r) r /\ failed now status (F r)) -> failable run ->
  repairs (let! record := claim_unless_held clock run now in
           with_takeover clock (fun r => timed clock (fun t => op t r)) record reconciler_owner None done mutation now)
    true [rr_run_id run] (fun m => m !! rr_run_id run = Some run)
    (replaced run (failed now status)).
Proof.
  intros Hop HF Hfail. unfold claim_unless_held.
  eapply (repair_one _ (fun r r' => same_attempt r' r /\ failed now status r') run (fun _ => reconciler_owner)
    (fun _ => None) _ _ _ (fun r => same_attempt r run)).
  - by apply (timed_claim_op _ to (fun _ => F)).
  - done.
  - intros r Hr. exact Hr.
  - intros r r' Hsame [Hst Hr]. split; [|done]. unfold same_attempt in *. intuition congruence.
  - by apply held_or_claimable.
Qed.

Lemma repairs_map {A B} (c : SM Pass OrchestratorError A) (f : A -> B) v K pre post :
  repairs c v K pre post -> repairs (let! x := c in sm_ret (f x)) (f v) K pre post.
Proof.
  intros Hc s m Hs Hm. apply sm_post_bind. eapply sm_post_mono; [by apply Hc|]. cbv beta.
  intros s' [x|e]; [|done]. intros (-> & Hpost). by apply sm_post_ret.
Qed.

Lemma bind_assoc {A B C} (c : SM (Pass (St := St)) OrchestratorError A) (k : A -> SM Pass OrchestratorError B)
    (h : B -> SM Pass OrchestratorError C) v K pre post :
  repairs (let! y := (let! x := c in k x) in h y) v K pre post ->
  repairs (let! x := c in let! y := k x in h y) v K pre post.
Proof.
  intros Hc s m Hs Hm. specialize (Hc s m Hs Hm). unfold sm_post, sm_bind in *.
  destruct (c s) as [s' [x|e]]; [|exact Hc]. exact Hc.
Qed.

Definition failure_outcome (task_board : TaskBoard) (policy : RetryPolicyConfig) (a : RunAction)
    : option RunFailureApplyOutcome :=
  Some (match failure_status task_board policy a with RunStatus.RetryQueued => RetryQueued | _ => Failed end).

Lemma queue_retry_repairs a retry_at reason : failable (ac_run a) ->
  repairs (queue_run_retry clock a now retry_at reason) (Some RetryQueued) [action_id a] (ready a)
    (replaced (ac_run a) (failed now RunStatus.RetryQueued)).
Proof.
  intros Hf. unfold queue_run_retry. cbv zeta. apply bind_assoc.
  apply (repairs_map _ (fun applied : bool => if applied then Some RetryQueued else None) true).
  set (why := _ +:+ _). eapply (ending_repairs (fun t r => queue_retry t (mkRunRetry (rr_run_id r)
    (rr_claim_generation r) now retry_at why)) RunStatus.RetryQueued (fun x => clear_claim (x <| rr_status := RunStatus.RetryQueued |>)
        <| rr_failed_at := Some now |> <| rr_failure_reason := Some why |> <| rr_retry_queued_at := Some now |>
        <| rr_retry_at := Some retry_at |> <| rr_retry_reason := Some why |> <| rr_updated_at := now |>));
    [|by repeat split|done].
  intros t r. apply queue_retry_law.
Qed.

Lemma fail_repairs a : failable (ac_run a) ->
  repairs (fail_for_good clock a now) (Some Failed) [action_id a] (ready a)
    (replaced (ac_run a) (failed now RunStatus.Failed)).
Proof.
  intros Hf. unfold fail_for_good. cbv zeta. apply bind_assoc.
  apply (repairs_map _ (fun applied : bool => if applied then Some Failed else None) true).
  eapply (ending_repairs (fun t r => fail_run t (mkRunFailure (rr_run_id r)
    (rr_claim_generation r) now (RunRepairReason.as_str (ac_reason a)))) RunStatus.Failed
    (fun x => clear_claim (x <| rr_status := RunStatus.Failed |>)
        <| rr_failed_at := Some now |> <| rr_failure_reason := Some (RunRepairReason.as_str (ac_reason a)) |>
        <| rr_updated_at := now |>));
    [|by repeat split|done].
  intros t r. apply fail_run_law.
Qed.

Lemma failure_repairs task_board policy a : failable (ac_run a) ->
  repairs (apply_run_failure clock task_board policy a now) (failure_outcome task_board policy a) [action_id a]
    (ready a) (replaced (ac_run a) (failed now (failure_status task_board policy a))).
Proof.
  intros Hf. unfold apply_run_failure, failure_outcome, failure_status.
  destruct (retry_decision_for_failure task_board policy a);
    [by apply queue_retry_repairs|by apply queue_retry_repairs|by apply fail_repairs| |by apply fail_repairs].
  intros s m Hs Hm. apply sm_post_bind. apply (fail_repairs a Hf (s <| ps_events := _ |>)); done.
Qed.

Lemma retry_attempt_repairs a :
  rr_status (ac_run a) = RunStatus.RetryQueued -> retry_is_due_at (ac_run a) now = true ->
  repairs (apply_run_retry_attempt a now) true [action_id a; retry_attempt_run_id (ac_run a)]
    (fun m => ready a m /\ m !! retry_attempt_run_id (ac_run a) = None) (retried (ac_run a)).
Proof.
  intros Hq Hdue s m Hs [Hm Hnew]. unfold apply_run_retry_attempt. set (run := ac_run a) in *.
  assert (Hwf : runs_wf m) by (destruct (repr_wf_law _ _ Hs); by split).
  set (request := mkRetryAttemptRequest (rr_run_id run) (rr_claim_generation run) (retry_attempt_run_id run) now).
  assert (Hspec : spec_start_retry request m = Ok (mkRetryAttemptStarted (close_queued request run) (next_attempt request run),
    <[retry_attempt_run_id run := next_attempt request run]> (<[rr_run_id run := close_queued request run]> m))).
  { unfold spec_start_retry. cbn [ra_queued_run_id ra_new_run_id request]. unfold ready in Hm. fold run in Hm.
    rewrite Hm, Hnew.
    rewrite (proj2 (check_retry_attempt_ok request run)) by done. cbn [result_bind].
    change (lane (next_attempt request run)) with (lane run).
    rewrite (active_in_lane_unique _ _ _ Hwf Hm) by (unfold run_is_active; by rewrite Hq).
    by rewrite bool_decide_eq_true_2. }
  apply sm_post_catch. eapply sm_post_mono; [apply call_answered; [apply start_retry_attempt_law|exact Hs]|].
  cbv beta. unfold answered. fold request. rewrite Hspec. intros s' [started|e].
  - intros [(m' & [= <- <-] & Hr) _]. apply sm_post_bind. cbn. split; [done|]. eexists. split_and!; [exact Hr| |].
    + intros id Hid. rewrite !lookup_insert_ne; [done| |]; intros <-; destruct Hid; set_solver.
    + split.
      * exists (close_queued request run). split; [|by repeat split]. rewrite lookup_insert_ne, lookup_insert_eq; [done|].
        intros Heq. unfold ready in Hm. fold run in Hm. congruence.
      * exists (next_attempt request run). by rewrite lookup_insert_eq.
  - intros [[Hio|[? _]] _]; [|done]. destruct e; try done; cbn; by eexists.
Qed.
End programs.

(** ** A pass over the plan *)

Section pass.
Context {St : Type} `{RunStoreLaws St} `{Fmt} (clock : nat -> DateTime).
Context (task_board : TaskBoard) (policy : RetryPolicyConfig) (config : ReconcilerConfig)
        (input : ReconciliationInput).

Let runs := ri_active_runs input.
Let now := ri_now input.

(** The calls of the pass read the clock after its start and before the lease
    of a takeover ends, and time does not run backwards. *)
Record clock_ok : Prop := {
  clock_window : forall i, (now <= clock i < now + seconds REPAIR_LEASE_SECONDS)%Z;
  clock_mono : forall i j, i <= j -> (clock i <= clock j)%Z
}.

(** The snapshot is what the store has; the ids of the attempts to start are
    unused; and no claim is to be renewed for a task that is finished. *)
Record snapshot_of (m : Runs) : Prop := {
  snap_distinct : NoDup (rr_run_id <$> runs);
  snap_runs : forall run, run ∈ runs -> m !! rr_run_id run = Some run /\ run_is_active run = true;
  snap_fresh : forall run, run ∈ runs -> m !! retry_attempt_run_id run = None;
  snap_apart : forall run, run ∈ runs -> renews config input run = true -> task_finished input run = false
}.

Lemma release_inv run a : release_of config input run = Some a ->
  ac_run a = run /\ rr_status run = RunStatus.Claimed /\ renews config input run = false /\ task_finished input run = false.
Proof.
  unfold release_of. destruct (task_finished input run); [done|]. intros Ha.
  pose proof (lost_release_inv _ _ _ _ Ha) as [? ?]. split_and!; [done|done| |done].
  unfold lost_claim_release, loses_claim in Ha. by destruct (renews config input run); rewrite ?andb_false_r in Ha.
Qed.

Lemma retry_inv run a : retry_of input run = Some a ->
  ac_run a = run /\ rr_status run = RunStatus.RetryQueued /\ retry_is_due_at run now = true /\ task_finished input run = false.
Proof.
  unfold retry_of. destruct (task_finished input run); [done|]. intros Ha.
  pose proof (due_retry_inv _ _ _ Ha) as [? ?]. split_and!; [done|done| |done].
  unfold due_retry in Ha. fold now in Ha. by destruct (retry_is_due_at run now); rewrite ?andb_false_r in Ha.
Qed.

Lemma failure_of_inv run a : failure_of config input run = Some a ->
  ac_run a = run /\ ((rr_status run = RunStatus.Running /\ renews config input run = false) \/
                     task_finished input run = true).
Proof.
  unfold failure_of. destruct (lost_claim_failure config input run) as [b|] eqn:Hb.
  - intros [= <-]. pose proof (lost_failure_inv _ _ _ _ Hb) as [? ?]. split; [done|]. left. split; [done|].
    unfold lost_claim_failure, loses_claim in Hb. by destruct (renews config input run); rewrite ?andb_false_r in Hb.
  - destruct (task_finished input run); [|done]. intros [= <-]. auto.
Qed.

Lemma renewal_of_inv run a : renewal_of config input run = Some a ->
  ac_run a = run /\ RunStatus.has_active_claim (rr_status run) = true /\
  claim_is_expired_at run now = true /\ renews config input run = true.
Proof.
  unfold renewal_of. destruct (renews config input run) eqn:Hr; [|done]. intros [= <-]. split_and!; try done;
    unfold renews in Hr; by repeat apply andb_prop in Hr as [Hr ?].
Qed.

(** Whether a run is planned for by [g]; at most one of the four kinds is. *)
Definition repair_kind (run : RunRecord) : nat :=
  if renews config input run then 1
  else if task_finished input run then 3
  else if bool_decide (rr_status run = RunStatus.Claimed) then 2
  else if bool_decide (rr_status run = RunStatus.Running) then 3 else 0.

Lemma kinds m run : snapshot_of m -> run ∈ runs ->
  (is_Some (retry_of input run) -> repair_kind run = 0) /\ (is_Some (renewal_of config input run) -> repair_kind run = 1) /\
  (is_Some (release_of config input run) -> repair_kind run = 2) /\ (is_Some (failure_of config input run) -> repair_kind run = 3).
Proof.
  intros Hsnap Hrun. pose proof (snap_apart _ Hsnap _ Hrun) as Hap. unfold repair_kind. split_and!; intros [a Ha].
  - apply retry_inv in Ha as (_ & Hs & _ & Hf). rewrite Hf, Hs. cbn.
    destruct (renews config input run) eqn:Hr; [|done]. unfold renews in Hr. by rewrite Hs in Hr.
  - by apply renewal_of_inv in Ha as (_ & _ & _ & ->).
  - by apply release_inv in Ha as (_ & -> & -> & ->).
  - apply failure_of_inv in Ha as (_ & [[-> ->]| Hf]); [by destruct (task_finished input run)|].
    destruct (renews config input run); [by rewrite Hap in Hf|by rewrite Hf].
Qed.

Definition retry_touch (a : RunAction) : list RunId := [action_id a; retry_attempt_run_id (ac_run a)].
Definition own_touch (a : RunAction) : list RunId := [action_id a].

Lemma own_touches (l : list RunAction) : concat (own_touch <$> l) = action_id <$> l.
Proof. induction l as [|a l IH]; [done|]. rewrite !fmap_cons. cbn. by rewrite IH. Qed.

Lemma elem_of_retry_touches id (l : list RunAction) :
  id ∈ concat (retry_touch <$> l) <-> exists a, a ∈ l /\ (id = action_id a \/ id = retry_attempt_run_id (ac_run a)).
Proof.
  induction l as [|a l IH]; [|rewrite fmap_cons]; cbn; [set_solver|]. rewrite !elem_of_cons, IH. set_solver.
Qed.

(** The actions are of runs of the snapshot of one kind. *)
Definition of_kind (k : nat) (l : list RunAction) : Prop :=
  forall a, a ∈ l -> ac_run a ∈ runs /\ repair_kind (ac_run a) = k.

Lemma kinds_apart m j k l l' id : snapshot_of m -> of_kind j l -> of_kind k l' -> j <> k ->
  id ∈ action_id <$> l -> id ∉ action_id <$> l'.
Proof.
  intros Hsnap Hl Hl' Hne (a & -> & Ha)%list_elem_of_fmap (b & Heq & Hb)%list_elem_of_fmap.
  destruct (Hl a Ha) as [Hra Hka], (Hl' b Hb) as [Hrb Hkb].
  assert (ac_run a = ac_run b) as Hab by (eapply same_run; [apply (snap_distinct _ Hsnap)|done..]). congruence.
Qed.

Lemma new_ids_apart m j k l l' a : snapshot_of m -> of_kind j l -> of_kind k l' -> a ∈ l ->
  retry_attempt_run_id (ac_run a) ∉ action_id <$> l'.
Proof.
  intros Hsnap Hl Hl' Ha (b & Heq & Hb)%list_elem_of_fmap. destruct (Hl a Ha) as [Hra _], (Hl' b Hb) as [Hrb _].
  pose proof (snap_fresh _ Hsnap _ Hra). pose proof (snap_runs _ Hsnap _ Hrb) as [? _]. unfold action_id in Heq. congruence.
Qed.

Lemma plan_kinds m : snapshot_of m -> let plan := reconcile config input in
  of_kind 0 (pl_run_retry_attempts plan) /\ of_kind 1 (pl_run_renewals plan) /\
  of_kind 2 (pl_run_releases plan) /\ of_kind 3 (pl_run_failures plan).
Proof.
  intros Hsnap plan. destruct (plan_runs config input (snap_distinct _ Hsnap)) as (E1 & E2 & E3 & E4).
  fold plan runs in E1, E2, E3, E4. pose proof (fun run Hr => kinds m run Hsnap Hr) as Hk.
  split_and!; intros a; rewrite ?E1, ?E2, ?E3, ?E4; intros (run & Hr & Ha)%list_elem_of_omap;
    destruct (Hk run Hr) as (K0 & K1 & K2 & K3).
  - destruct (retry_inv _ _ Ha) as [-> _]. eauto.
  - destruct (renewal_of_inv _ _ Ha) as [-> _]. eauto.
  - destruct (release_inv _ _ Ha) as [-> _]. eauto.
  - destruct (failure_of_inv _ _ Ha) as [-> _]. eauto.
Qed.

Lemma retry_touches_NoDup m (l : list RunAction) :
  snapshot_of m -> (forall a, a ∈ l -> ac_run a ∈ runs) -> NoDup (action_id <$> l) ->
  NoDup (concat (retry_touch <$> l)).
Proof.
  intros Hsnap. induction l as [|a l IH]; [constructor|]. rewrite !fmap_cons. intros Hl [Hid Hnd]%NoDup_cons. cbn.
  assert (Hruns : forall b, b ∈ a :: l -> m !! action_id b = Some (ac_run b) /\ m !! retry_attempt_run_id (ac_run b) = None).
  { intros b Hb. split; [eapply snap_runs|eapply snap_fresh]; eauto. }
  destruct (Hruns a (list_elem_of_here _ _)) as [Ha1 Ha2].
  constructor; [|constructor; [|apply IH; [|done]; intros; apply Hl; by right]].
  - intros [Heq|(b & Hb & [Heq|Heq])%elem_of_retry_touches]%elem_of_cons; [congruence|..].
    + destruct Hid. rewrite Heq. apply list_elem_of_fmap. eauto.
    + destruct (Hruns b (list_elem_of_further _ _ _ Hb)). congruence.
  - intros (b & Hb & [Heq|Heq])%elem_of_retry_touches.
    + destruct (Hruns b (list_elem_of_further _ _ _ Hb)). congruence.
    + destruct Hid. apply retry_attempt_run_id_inj in Heq. apply list_elem_of_fmap. exists b. split; [|done]. exact Heq.
Qed.

(** The loops. *)
Lemma retries_loop m count report l : clock_ok -> snapshot_of m -> l = omap (retry_of input) runs ->
  repairs (St := St) (apply_all (fun a => apply_run_retry_attempt a now) count l report)
    (foldl (fun r _ => count true r) report l) (concat (retry_touch <$> l))
    (fun m' => forall a, a ∈ l -> ready a m' /\ m' !! retry_attempt_run_id (ac_run a) = None)
    (fun m' => forall a, a ∈ l -> retried (ac_run a) m').
Proof.
  intros [Hw Hmono] Hsnap ->. apply (repairs_all _ _ (fun _ => true) retry_touch
    (fun a m' => ready a m' /\ m' !! retry_attempt_run_id (ac_run a) = None) (fun a => retried (ac_run a))).
  - intros a (run & Hr & Ha)%list_elem_of_omap. apply retry_inv in Ha as (<- & Hs & Hd & _).
    by apply (retry_attempt_repairs clock now).
  - intros a. split; [|apply retried_local]. intros m1 m2 Hag [Hr Hn]. split.
    + eapply ready_local; [|exact Hr]. intros id Hid. apply Hag. set_solver.
    + rewrite <-Hag; [done|]. set_solver.
  - eapply retry_touches_NoDup; [exact Hsnap| |].
    + intros a (run & Hr & Ha)%list_elem_of_omap. by apply retry_inv in Ha as (-> & _).
    + apply actions_distinct; [apply (snap_distinct _ Hsnap)|]. intros; by eapply retry_inv.
Qed.

Lemma own_loop {A} m (apply : RunAction -> SM (Pass (St := St)) OrchestratorError A) count v post report l
    (g : RunRecord -> option RunAction) :
  snapshot_of m -> l ≡ₚ omap g runs -> (forall run a, g run = Some a -> ac_run a = run) ->
  (forall run a, run ∈ runs -> g run = Some a -> repairs (apply a) (v a) [action_id a] (ready a) (post a)) ->
  (forall a, local [action_id a] (post a)) ->
  repairs (apply_all apply count l report) (foldl (fun r a => count (v a) r) report l) (concat (own_touch <$> l))
    (fun m' => forall a, a ∈ l -> ready a m') (fun m' => forall a, a ∈ l -> post a m').
Proof.
  intros Hsnap Hl Hg Happ Hloc. apply (repairs_all _ _ v own_touch ready post).
  - intros a. rewrite Hl. intros (run & Hr & Ha)%list_elem_of_omap. by eapply Happ.
  - intros a. split; [apply ready_local|apply Hloc].
  - rewrite own_touches, Hl. by apply actions_distinct; [apply (snap_distinct _ Hsnap)|].
Qed.

(** The four loops, each on runs of its own. *)
Definition pass_touches (plan : ReconciliationPlan) : list RunId :=
  concat (retry_touch <$> pl_run_retry_attempts plan) ++ (concat (own_touch <$> pl_run_renewals plan) ++
  (concat (own_touch <$> pl_run_releases plan) ++ concat (own_touch <$> pl_run_failures plan))).

Definition pass_post (plan : ReconciliationPlan) (m : Runs) : Prop :=
  (forall a, a ∈ pl_run_retry_attempts plan -> retried (ac_run a) m) /\
  (forall a, a ∈ pl_run_renewals plan -> replaced (ac_run a) (renewed now (ac_run a)) m) /\
  (forall a, a ∈ pl_run_releases plan -> replaced (ac_run a) (released (ac_reason a)) m) /\
  (forall a, a ∈ pl_run_failures plan ->
     replaced (ac_run a) (failed now (failure_status task_board policy a)) m).

Definition pass_pre (plan : ReconciliationPlan) (m : Runs) : Prop :=
  (forall a, a ∈ pl_run_retry_attempts plan -> ready a m /\ m !! retry_attempt_run_id (ac_run a) = None) /\
  (forall a, a ∈ pl_run_renewals plan -> ready a m) /\
  (forall a, a ∈ pl_run_releases plan -> ready a m) /\
  (forall a, a ∈ pl_run_failures plan -> ready a m).

Definition pass_report (plan : ReconciliationPlan) (report : ReconciliationApplyReport) : ReconciliationApplyReport :=
  let report := foldl (fun r _ => r <| rep_run_retry_attempts := S (rep_run_retry_attempts r) |>) report
                  (pl_run_retry_attempts plan) in
  let report := foldl (fun r _ => r <| rep_run_renewals := S (rep_run_renewals r) |>) report (pl_run_renewals plan) in
  let report := foldl (fun r _ => r <| rep_run_releases := S (rep_run_releases r) |>) report (pl_run_releases plan) in
  foldl (fun r a => match failure_outcome task_board policy a with
                    | Some Failed => r <| rep_run_failures := S (rep_run_failures r) |>
                    | Some RetryQueued => r <| rep_run_retries_queued := S (rep_run_retries_queued r) |>
                    | None => r
                    end) report (pl_run_failures plan).

Lemma pass_repairs m report : clock_ok -> snapshot_of m ->
  let plan := reconcile config input in
  repairs (St := St) (apply_run_actions clock task_board policy plan now report) (pass_report plan report)
    (pass_touches plan) (pass_pre plan) (pass_post plan).
Proof.
  intros Hclock Hsnap plan. destruct (plan_runs config input (snap_distinct _ Hsnap)) as (E1 & E2 & E3 & E4).
  destruct (plan_kinds m Hsnap) as (K0 & K1 & K2 & K3). fold plan runs in E1, E2, E3, E4, K0, K1, K2, K3.
  pose proof Hclock as [Hw Hmono]. unfold apply_run_actions, pass_report, pass_touches, pass_pre, pass_post.
  pose proof (local_all own_touch ready) as Lready. specialize (fun l => Lready l ready_local) as Lr.
  pose proof (fun l P => local_all own_touch (fun a => replaced (ac_run a) (P a)) l (fun a => replaced_local (ac_run a) (P a))) as Lp.
  apply repairs_bind with (v := foldl (fun r _ => r <| rep_run_retry_attempts := S (rep_run_retry_attempts r) |>) report
                  (pl_run_retry_attempts plan)).
  { exact (retries_loop m _ report _ Hclock Hsnap E3). }
  2:{ intros id (a & Ha & Hid)%elem_of_retry_touches. rewrite !own_touches, !not_elem_of_app.
      assert (Hid' : action_id a ∈ action_id <$> pl_run_retry_attempts plan) by (apply list_elem_of_fmap; eauto).
      destruct Hid as [-> | ->]; split_and!;
        first [eapply kinds_apart; [exact Hsnap|exact K0|eassumption|lia|exact Hid']
              |eapply new_ids_apart; [exact Hsnap|exact K0|eassumption|exact Ha]]. }
  2:{ apply local_and; [apply Lr|]. apply local_and; apply Lr. }
  2:{ apply (local_all retry_touch (fun a => retried (ac_run a))). intros a. apply retried_local. }
  eapply repairs_bind.
  { eapply (own_loop m _ _ (fun _ => true) _ _ _ _ Hsnap); [by rewrite E1|intros; by eapply renewal_of_inv| |intros; apply replaced_local].
    intros run a Hr (<- & Hc & He & _)%renewal_of_inv. by apply renewal_repairs. }
  2:{ intros id. rewrite !own_touches, !not_elem_of_app. intros Hid.
      split; (eapply kinds_apart; [exact Hsnap|exact K1|eassumption|lia|exact Hid]). }
  2:{ apply local_and; apply Lr. }
  2:{ apply Lp. }
  eapply repairs_bind.
  { eapply (own_loop m _ _ (fun _ => true) _ _ _ _ Hsnap); [by rewrite E2|intros; by eapply release_inv| |intros; apply replaced_local].
    intros run a Hr (<- & Hs & _)%release_inv. apply release_repairs; [done..|]. by rewrite Hs. }
  2:{ intros id. rewrite !own_touches. intros Hid. eapply kinds_apart; [exact Hsnap|exact K2|exact K3|lia|exact Hid]. }
  2:{ apply Lr. }
  2:{ apply Lp. }
  refine (own_loop m _ _ (failure_outcome task_board policy)
    (fun a => replaced (ac_run a) (failed now (failure_status task_board policy a))) _ _ _ Hsnap E4 _ _ _);
    [intros; by eapply failure_of_inv| |intros; apply replaced_local].
  intros run a Hr Ha. apply failure_repairs; [done..|]. pose proof (failure_of_inv _ _ Ha) as [-> Hcase].
  split; [by apply (snap_runs _ Hsnap)|]. intros Hq. destruct Hcase as [[Hs _]|Hf]; [congruence|].
  unfold task_finished, retry_queued_is_actionable in Hf. rewrite Hq in Hf. cbn in Hf.
  apply andb_prop in Hf as [Hf _]. by apply andb_prop in Hf as [_ Hf].
Qed.

Lemma pass_pre_holds m : snapshot_of m -> pass_pre (reconcile config input) m.
Proof.
  intros Hsnap. destruct (plan_kinds m Hsnap) as (K0 & K1 & K2 & K3). unfold pass_pre.
  assert (Hready : forall k l a, of_kind k l -> a ∈ l -> ready a m)
    by (intros k l a Hk Ha; by apply (snap_runs _ Hsnap), (Hk a Ha)).
  split_and!; intros a Ha; [split|..]; eauto. by apply (snap_fresh _ Hsnap), (K0 a Ha).
Qed.

(** The runs and ids a pass may write. *)
Definition planned (run : RunRecord) : Prop :=
  is_Some (renewal_of config input run) \/ is_Some (release_of config input run) \/
  is_Some (failure_of config input run) \/ is_Some (retry_of input run).

Lemma elem_of_pass_touches m id : snapshot_of m -> id ∈ pass_touches (reconcile config input) ->
  exists run, run ∈ runs /\ planned run /\
    (id = rr_run_id run \/ (id = retry_attempt_run_id run /\ is_Some (retry_of input run))).
Proof.
  intros Hsnap. destruct (plan_runs config input (snap_distinct _ Hsnap)) as (E1 & E2 & E3 & E4).
  unfold pass_touches, planned. rewrite !own_touches, !elem_of_app, elem_of_retry_touches, E1, E2, E3, E4.
  intros [(a & (run & Hr & Ha)%list_elem_of_omap & Hid)|[Hid|[Hid|Hid]]].
  - exists run. destruct (retry_inv _ _ Ha) as [<- _]. unfold action_id in Hid. naive_solver.
  - apply action_of in Hid as (run & ? & ? & ?); [|intros; by eapply renewal_of_inv]. exists run. naive_solver.
  - apply action_of in Hid as (run & ? & ? & ?); [|intros; by eapply release_inv]. exists run. naive_solver.
  - apply action_of in Hid as (run & ? & ? & ?); [|intros; by eapply failure_of_inv]. exists run. naive_solver.
Qed.

Lemma pass_settles m m' : snapshot_of m -> frame (pass_touches (reconcile config input)) m m' ->
  pass_post (reconcile config input) m' ->
  forall run, run ∈ runs -> settled task_board policy config input run m'.
Proof.
  intros Hsnap Hframe (P1 & P2 & P3 & P4) run Hr.
  destruct (plan_runs config input (snap_distinct _ Hsnap)) as (E1 & E2 & E3 & E4). fold runs in E1, E2, E3, E4.
  split.
  - intros a Ha. destruct (renewal_of_inv _ _ Ha) as [Heq _]. rewrite <-Heq. apply P2. rewrite E1. apply list_elem_of_omap. eauto.
  - intros a Ha. destruct (release_inv _ _ Ha) as [Heq _]. rewrite <-Heq. apply P3. rewrite E2. apply list_elem_of_omap. eauto.
  - intros a Ha. destruct (failure_of_inv _ _ Ha) as [Heq _]. rewrite <-Heq. apply P4. rewrite E4. apply list_elem_of_omap. eauto.
  - intros a Ha. destruct (retry_inv _ _ Ha) as [Heq _]. rewrite <-Heq. apply P1. rewrite E3. apply list_elem_of_omap. eauto.
  - intros N1 N2 N3 N4. rewrite Hframe; [by apply (snap_runs _ Hsnap)|].
    intros (run' & Hr' & Hp & [Hid|[Hid _]])%(elem_of_pass_touches m); [| |done].
    + assert (run = run') as <- by (eapply same_run; [apply (snap_distinct _ Hsnap)|done..]).
      unfold planned in Hp. rewrite N1, N2, N3, N4 in Hp. by destruct Hp as [[]|[[]|[[]|[]]]].
    + pose proof (snap_fresh _ Hsnap _ Hr'). pose proof (snap_runs _ Hsnap _ Hr) as [? _]. congruence.
Qed.

(** Every active run is in the snapshot, and the board still knows the finished
    tasks. *)
Record view_of (m : Runs) : Prop := {
  view_snapshot : snapshot_of m;
  view_complete : forall id r, m !! id = Some r -> run_is_active r = true -> r ∈ runs;
  view_board : forall t, t ∈ ri_tasks input -> is_terminal (te_status t) = true ->
    exists t', get_task task_board (te_id t) = Some t' /\ is_terminal (te_status t') = true
}.

Lemma finished_not_retried run a : (forall t, t ∈ ri_tasks input -> is_terminal (te_status t) = true ->
    exists t', get_task task_board (te_id t) = Some t' /\ is_terminal (te_status t') = true) ->
  ac_run a = run -> task_finished input run = true -> failure_status task_board policy a = RunStatus.Failed.
Proof.
  intros Hboard Ha Hf. unfold task_finished in Hf. apply andb_prop in Hf as [_ Hf].
  apply existsb_exists in Hf as (t & Ht%list_elem_of_In & Hf). apply andb_prop in Hf as [Hid Hterm].
  apply bool_decide_eq_true in Hid. destruct (Hboard t Ht Hterm) as (t' & Ht' & Hterm').
  unfold failure_status, retry_decision_for_failure, decide_retry. rewrite Ha, <-Hid, Ht'. cbn. by rewrite Hterm'.
Qed.

Lemma settled_claims run m' r : settled task_board policy config input run m' ->
  m' !! rr_run_id run = Some r -> run_is_active run = true ->
  RunStatus.has_active_claim (rr_status r) = true ->
  claim_is_expired_at r now = false /\ run_session_alive input r = true.
Proof.
  intros [Hren Hrel Hfail Hret Hkept] Hr Hact Hc.
  destruct (renewal_of config input run) as [a|] eqn:E1.
  { destruct (Hren a eq_refl) as (r' & Hr' & _ & _ & Hsess & Hlease). assert (r = r') as <- by congruence.
    split; [apply Hlease; unfold now, seconds, REPAIR_LEASE_SECONDS; lia|].
    apply renewal_of_inv in E1 as (_ & _ & _ & Hrenew). unfold renews in Hrenew.
    apply andb_prop in Hrenew as [Hrenew _]. apply andb_prop in Hrenew as [Hrenew _]. apply andb_prop in Hrenew as [_ Ha].
    unfold run_session_alive in *. by rewrite Hsess. }
  destruct (release_of config input run) as [a|] eqn:E2.
  { destruct (Hrel a eq_refl) as (r' & Hr' & _ & Hs & _). assert (r = r') as <- by congruence. by rewrite Hs in Hc. }
  destruct (failure_of config input run) as [a|] eqn:E3.
  { destruct (Hfail a eq_refl) as (r' & Hr' & _ & Hs & _). assert (r = r') as <- by congruence. rewrite Hs in Hc.
    unfold failure_status in Hc. by repeat case_match. }
  destruct (retry_of input run) as [a|] eqn:E4.
  { destruct (Hret a eq_refl) as ((r' & Hr' & _ & Hs) & _). assert (r = r') as <- by congruence. by rewrite Hs in Hc. }
  rewrite (Hkept eq_refl eq_refl eq_refl eq_refl) in Hr. injection Hr as <-.
  unfold failure_of, release_of, renewal_of, lost_claim_failure, lost_claim_release, loses_claim in E1, E2, E3.
  rewrite Hc in E2, E3. destruct (renews config input run); [done|]. cbn in E2, E3. fold now in E2, E3.
  destruct (claim_is_expired_at run now), (run_session_alive input run); cbn in E2, E3; try done;
    destruct (task_finished input run); repeat case_bool_decide; try done; by destruct (rr_status run).
Qed.

End pass.

(** ** Witness *)

Section witness.
#[local] Instance sample_fmt : Fmt := {| debug_str := fun s => s; display_time := fun t => pretty t |}.

(** A store that is the map of its runs. *)
Definition run_spec {A} (spec : Runs -> RunStoreResult (A * Runs)) : SM Runs RunStoreError A := fun m =>
  match spec m with Ok (a, m') => (m', Ok a) | Err e => (m, Err e) end.

#[local] Instance map_store : RunStore Runs := {
  create_run x := run_spec (spec_create x);
  claim_run now x := run_spec (spec_claim now x);
  renew_claim n1 n2 id g := run_spec (spec_renew n1 n2 id g);
  release_claim now x := run_spec (spec_release now x);
  complete_run now x := run_spec (spec_complete now x);
  fail_run now x := run_spec (spec_fail now x);
  record_continuation now x := run_spec (spec_continue now x);
  queue_retry now x := run_spec (spec_retry now x);
  start_retry_attempt x := run_spec (spec_start_retry x);
  get_run id := run_spec (spec_get id);
  active_runs := fun m => (m, Ok (List.filter run_is_active (map_to_list m).*2));
  runs_for_task t := fun m => (m, Ok (List.filter (fun r => bool_decide (rr_task_id r = t)) (map_to_list m).*2))
}.

Definition is_map (m m' : Runs) : Prop := m = m' /\ runs_wf m.

Lemma run_spec_refines {A} (spec : Runs -> RunStoreResult (A * Runs)) :
  (forall m a m', runs_wf m -> spec m = Ok (a, m') -> runs_wf m') -> refines is_map (run_spec spec) spec.
Proof.
  intros Hwf s m [<- Hm]. unfold run_spec. destruct (spec s) as [[a m']|e] eqn:Hs; [|by left].
  exists m'. repeat split; [by eapply Hwf|by apply (Hwf _ _ _ Hm Hs)].
Qed.

Lemma spec_wf {A} (spec : Runs -> RunStoreResult (A * Runs)) op :
  (forall m, spec_op op m = let? (_, m') := spec m in Ok m') ->
  forall m a m', runs_wf m -> spec m = Ok (a, m') -> runs_wf m'.
Proof. intros Hop m a m' Hm Hs. eapply (spec_op_wf op); [exact Hm|]. by rewrite Hop, Hs. Qed.

#[local] Instance map_store_laws : RunStoreLaws Runs.
Proof.
  refine {| runs_repr := is_map |}; [intros s m [<- [Ho Hl]]; by split|..]; intros *; apply run_spec_refines.
  - by apply (spec_wf _ (OpCreate record)).
  - by apply (spec_wf _ (OpClaim now x)).
  - by apply (spec_wf _ (OpRenew n1 n2 id g)).
  - by apply (spec_wf _ (OpRelease now x)).
  - by apply (spec_wf _ (OpComplete now x)).
  - by apply (spec_wf _ (OpFail now x)).
  - by apply (spec_wf _ (OpContinue now x)).
  - by apply (spec_wf _ (OpRetry now x)).
  - by apply (spec_wf _ (OpStartRetry x)).
  - by intros m a m' Hm [= _ <-].
Defined.

(** The runs, tasks and workers of Reconciler.v, and the board with its tasks. *)
Definition sample_runs : Runs := list_to_map ((fun r => (rr_run_id r, r)) <$> ri_active_runs sample_input).

Definition board_of (tasks : list TaskEntry) : TaskBoard :=
  board_new <| tb_tasks := list_to_map ((fun t => (te_id t, t)) <$> tasks) |> <| tb_order := te_id <$> tasks |>.

Definition wall_clock : nat -> DateTime := fun _ => 101%Z.

Definition sample_pass (input : ReconciliationInput) : SM (Pass (St := Runs)) OrchestratorError ReconciliationApplyReport :=
  apply_run_actions wall_clock (board_of (ri_tasks input)) RetryPolicyConfig_default
    (reconcile ReconcilerConfig_default input) (ri_now input) empty_report.

Lemma sample_clock : clock_ok wall_clock sample_input.
Proof. split; [|done]. intros i. unfold wall_clock, seconds, REPAIR_LEASE_SECONDS. cbn. lia. Defined.

Lemma sample_wf : runs_wf sample_runs.
Proof.
  assert (Hin : forall id r, sample_runs !! id = Some r -> r ∈ ri_active_runs sample_input /\ id = rr_run_id r).
  { intros id r Hr. pose proof (elem_of_list_to_map_2 _ _ _ Hr) as Hin; apply list_elem_of_fmap in Hin as (r' & [= -> ->] & ?). done. }
  split; [intros id r Hr; symmetry; by apply Hin|]. intros i j r q Hi Hj _ _ Hl.
  apply Hin in Hi as [Hr ->], Hj as [Hq ->].
  assert (Hall : Forall (fun r => Forall (fun q => lane r = lane q -> rr_run_id r = rr_run_id q)
    (ri_active_runs sample_input)) (ri_active_runs sample_input)) by (repeat constructor; intros H; vm_compute in *; congruence).
  rewrite Forall_forall in Hall. pose proof (Hall r Hr) as Hall'. rewrite Forall_forall in Hall'. by apply Hall'.
Defined.

(** Check a property of every element of a given list. *)
Ltac each Hin := repeat (apply elem_of_cons in Hin as [-> | Hin]; [vm_compute; auto; try congruence|]); try by apply elem_of_nil in Hin.

Lemma sample_view :
  view_of (board_of (ri_tasks sample_input)) ReconcilerConfig_default sample_input sample_runs.
Proof.
  split; [split|..].
  - apply (bool_decide_unpack _). vm_compute. reflexivity.
  - intros run Hin. each Hin.
  - intros run Hin. each Hin.
  - intros run Hin. each Hin.
  - intros id r Hr _. pose proof (elem_of_list_to_map_2 _ _ _ Hr) as Hin.
    by apply list_elem_of_fmap in Hin as (r' & [= -> ->] & ?).
  - intros t Hin. each Hin; intros H; try discriminate H. eexists. split; reflexivity.
Defined.


(** A claim at work for a task that has been merged is planned for renewal and
    for failure; the renewal succeeds, then the takeover of the run to be failed
    is refused and the pass ends with an error. *)
Definition clashing_input : ReconciliationInput := mkReconciliationInput 100
  [task_in "T-1" TaskStatus.Merged (Some "w-0") (Some "s-0")] (ri_workers sample_input) ∅ None
  [run_in "R-1" "T-1" RunStatus.Running (Some "s-0") (Some 50%Z) None].

Lemma renewal_blocks_failure :
  let plan := reconcile ReconcilerConfig_default clashing_input in
  let run := run_in "R-1" "T-1" RunStatus.Running (Some "s-0") (Some 50%Z) None in
  action_id <$> pl_run_renewals plan = ["R-1"] /\ action_id <$> pl_run_failures plan = ["R-1"] /\
  (sample_pass clashing_input (mkPass {["R-1" := run]} [] 0)).2 =
    Err (OrchestratorError.PortError "duplicate active run for task T-1 role worker: existing run R-1").
Proof. vm_compute. auto. Qed.
End witness.
