(* ===== verification/Orchestrator.v ===== *)
(** * The orchestrator (orchestrator.rs, orchestrator_reconciliation.rs and
    orchestrator_continuation.rs of brehon-orchestrator)

    The state of [Orchestrator] and its handlers: events, reconciliation,
    continuation, dispatch, bounds, retention, shutdown, [tick] and the loop of
    [run], composed of the task board, the dependency graph, the worker pool
    with its assignment engine, and the ports.

    A handler is an operation on the state that may fail.  The clocks
    ([Utc::now], [Instant::now]) and the generator of prompt ids are functions
    of the number of reads so far. *)

From S2P Require Import Prelude StrLib Types Events TaskLifecycle DependencyGraph TaskBoard Ports WorkerPool RunPort RetryPolicy Reconciler Reconciliation.

(** ** Configuration *)

Record RetentionConfig := mkRetentionConfig {
  rt_max_events : option Z;
  rt_idempotency_ttl_hours : option Z;
  rt_max_completed_tasks : nat;
  rt_max_assignment_history : nat;
  rt_max_tasks : nat;
  rt_sweep_interval_secs : Z
}.

Definition DEFAULT_RETENTION_SWEEP_INTERVAL_SECS : Z := 60.

(** The fields the handlers read; [oc_git_ops] is [deps.git_ops.is_some()]. *)
Record OrchestratorConfig := mkOrchestratorConfig {
  oc_worker_config : WorkerPoolConfig;
  oc_worktree_isolation : bool;
  oc_git_ops : bool;
  oc_retention : RetentionConfig;
  oc_retry_policy : RetryPolicyConfig;
  oc_continuation_policy : ContinuationPolicyConfig
}.

(** [OrchestratorError::from(PortError)] *)
Definition from_port_error (err : PortError) : OrchestratorError :=
  match err with
  | PortError.Storage msg => OrchestratorError.StorageError msg
  | PortError.Agent msg => OrchestratorError.PortError msg
  | PortError.Git msg => OrchestratorError.GitUnavailable msg
  | _ => OrchestratorError.PortError (PortError.to_string err)
  end.

Definition debug_Priority (p : Priority) : string :=
  match p with
  | Priority.Low => "Low" | Priority.Medium => "Medium"
  | Priority.High => "High" | Priority.Critical => "Critical"
  end.

(** ** State *)

Section orchestrator.
Context {ord : IterOrder string} `{Fmt} {St : Type} `{RunStore St} `{AgentSessions} `{EventStream}.
Context (config : OrchestratorConfig).
Context (clock : nat -> DateTime) (instants : nat -> Z) (uuid : nat -> string).

(** [worker_pool] is shared with the assignment engine, whose state holds it. *)
Record Orchestrator := mkOrchestrator {
  or_task_board : TaskBoard;
  or_dependency_graph : DependencyGraph;
  or_engine : AssignmentEngine;
  or_run_store : option St;
  or_gateway : gw_state;
  or_event_store : es_state;
  or_running : bool;
  or_last_processed_event : option EventId;
  or_completed_tasks : gset TaskId;
  or_last_retention_sweep : option Z;
  or_reads : nat
}.

#[export] Instance eta_Orchestrator : Eta Orchestrator := fun o =>
  mkOrchestrator (or_task_board o) (or_dependency_graph o) (or_engine o) (or_run_store o) (or_gateway o)
    (or_event_store o) (or_running o) (or_last_processed_event o) (or_completed_tasks o)
    (or_last_retention_sweep o) (or_reads o).

Definition or_worker_pool (o : Orchestrator) : WorkerPool := ae_worker_pool (or_engine o).

Definition set_pool (p : WorkerPool) (o : Orchestrator) : Orchestrator :=
  o <| or_engine := or_engine o <| ae_worker_pool := p |> |>.

(** [Orchestrator::new] and [set_run_store] *)
Definition orchestrator_new (gateway : gw_state) (event_store : es_state) : Orchestrator :=
  let retention := oc_retention config in
  mkOrchestrator (with_max_tasks (rt_max_tasks retention)) graph_new
    (mkAssignmentEngine (with_max_assignment_history (oc_worker_config config)
       (rt_max_assignment_history retention)) ∅ [])
    None gateway event_store false None ∅ None 0.

Definition set_run_store (run_store : St) (o : Orchestrator) : Orchestrator :=
  o <| or_run_store := Some run_store |>.

Abbreviation Op A := (SM Orchestrator OrchestratorError A).

Definition get {A} (f : Orchestrator -> A) : Op A := fun o => (o, Ok (f o)).
Definition modify (f : Orchestrator -> Orchestrator) : Op unit := fun o => (f o, Ok tt).

Definition read {A} (source : nat -> A) : Op A := fun o =>
  (o <| or_reads := S (or_reads o) |>, Ok (source (or_reads o))).

(** A call of the gateway or of the event store. *)
Definition on_gateway {A} (op : SM gw_state string A) : SM Orchestrator string A := fun o =>
  let '(g, r) := op (or_gateway o) in (o <| or_gateway := g |>, r).

Definition on_events {A} (op : SM es_state PortError A) : SM Orchestrator PortError A := fun o =>
  let '(s, r) := op (or_event_store o) in (o <| or_event_store := s |>, r).

(** A command of the board, at the current time, whose error is dropped with
    [.ok()]. *)
Definition board_ok (command : DateTime -> TaskBoard -> TaskBoard * Result unit OrchestratorError)
    (o : Orchestrator) : Orchestrator :=
  o <| or_task_board := (command (clock (or_reads o)) (or_task_board o)).1 |>
    <| or_reads := S (or_reads o) |>.

(** The same, when the handler looks at the outcome. *)
Definition try_board (command : DateTime -> TaskBoard -> TaskBoard * Result unit OrchestratorError) : Op bool :=
  fun o => (board_ok command o, Ok (is_ok (command (clock (or_reads o)) (or_task_board o)).2)).

(** An operation on the pool under its lock. *)
Definition with_pool {A} (f : DateTime -> WorkerPool -> WorkerPool * A) : Op A := fun o =>
  let '(p, a) := f (clock (or_reads o)) (or_worker_pool o) in
  (set_pool p o <| or_reads := S (or_reads o) |>, Ok a).

(** ** Events *)

(** [process_event] *)
Definition process_event (event : Event) (o : Orchestrator) : Orchestrator :=
  match ev_kind event with
  | EventKind.TaskCreated task_id =>
      if board_has_task (or_task_board o) task_id then o
      else o <| or_task_board := board_add_task (TaskEntry_new (clock (or_reads o)) task_id "" "") (or_task_board o) |>
             <| or_reads := S (or_reads o) |>
             <| or_dependency_graph := add_task task_id (or_dependency_graph o) |>
  | EventKind.TaskAssigned task_id agent_id =>
      match get_task (or_task_board o) task_id with
      | Some _ => board_ok (fun now => assign_task now task_id agent_id None) o
      | None => o
      end
  | EventKind.TaskCompleted task_id =>
      match get_task (or_task_board o) task_id with
      | Some task =>
          match apply (te_status task) Transition.Complete with
          | Ok new_status => board_ok (fun now => update_task_status now task_id new_status) o
          | Err _ => o
          end
      | None => o
      end
  | EventKind.AgentDied _ session_id _ =>
      match get_worker_by_session (or_worker_pool o) session_id with
      | Some worker =>
          foldl (fun o task_id => board_ok (fun now => unassign_task now task_id) o) o
            (affected_tasks (wi_id worker) (or_engine o))
      | None => o
      end
  | EventKind.MergeCommitted task_id =>
      board_ok (fun now => update_task_status now task_id TaskStatus.Merged)
        (o <| or_completed_tasks := or_completed_tasks o ∪ {[task_id]} |>)
  | EventKind.MergeAborted task_id _ =>
      match get_task (or_task_board o) task_id with
      | Some task =>
          match apply (te_status task) Transition.Assign with
          | Ok new_status => board_ok (fun now => update_task_status now task_id new_status) o
          | Err _ => o
          end
      | None => o
      end
  | _ => o
  end.

(** ** Commands *)

(** [Orchestrator::add_task] *)
Definition orchestrator_add_task (task_id : TaskId) (title description : string) (dependencies : list TaskId)
    (o : Orchestrator) : Orchestrator :=
  let entry := TaskEntry_new (clock (or_reads o)) task_id title description in
  let graph := foldl (fun g dep => (add_dependency task_id dep g).1) (or_dependency_graph o) dependencies in
  o <| or_dependency_graph := graph |>
    <| or_task_board := board_add_task (entry <| te_dependencies := dependencies |>) (or_task_board o) |>
    <| or_reads := S (or_reads o) |>.

(** [Orchestrator::add_dependency] *)
Definition orchestrator_add_dependency (task_id depends_on : TaskId) : Op unit := fun o =>
  let '(g, r) := add_dependency task_id depends_on (or_dependency_graph o) in
  (o <| or_dependency_graph := g |>, r).

Definition stop (o : Orchestrator) : Orchestrator := o <| or_running := false |>.

(** The loop of [shutdown]: the errors and the sessions that were killed. *)
Fixpoint kill_workers (sessions : list SessionId) (g : gw_state) : gw_state * (list string * list SessionId) :=
  match sessions with
  | [] => (g, ([], []))
  | session :: sessions =>
      match gw_kill_session session g with
      | (g, Err e) =>
          let '(g, (errors, killed)) := kill_workers sessions g in
          (g, ((session +:+ ": " +:+ e) :: errors, killed))
      | (g, Ok _) =>
          let '(g, (errors, killed)) := kill_workers sessions g in (g, (errors, session :: killed))
      end
  end.

Definition shutdown : Op unit := fun o =>
  let o := stop o in
  let alive_sessions := wi_session_id <$> alive_workers (or_worker_pool o) in
  let '(g, (errors, killed_sessions)) := kill_workers alive_sessions (or_gateway o) in
  let o := o <| or_gateway := g |> in
  let o := match killed_sessions with
           | [] => o
           | _ => set_pool (mark_workers_dead_by_sessions killed_sessions (or_worker_pool o)) o
           end in
  (o, match errors with
      | [] => Ok tt
      | _ => Err (OrchestratorError.WorkerPoolError
               ("Failed to kill " +:+ fmt_index (length errors) +:+ " worker session(s) during shutdown: "
                +:+ join ", " errors))
      end).

(** ** Spawning and reconciliation *)

(** [Orchestrator::spawn_worker_from_plan]: a failed spawn is logged *)
Definition orchestrator_spawn (plan : WorkerSpawnPlan) : Op (option WorkerId) :=
  sm_catch (on_gateway (gw_spawn (sp_spec plan)))
    (fun session_id =>
       let! spawned := with_pool (fun now => record_spawned_worker now plan session_id) in
       sm_ret (Some spawned))
    (fun _ => sm_ret None).

Fixpoint spawn_plans (plans : list WorkerSpawnPlan) : Op (list WorkerId) :=
  match plans with
  | [] => sm_ret []
  | plan :: plans =>
      let! worker_id := orchestrator_spawn plan in
      let! spawned := spawn_plans plans in
      sm_ret (match worker_id with Some id => id :: spawned | None => spawned end)
  end.

Definition spawn_workers_to_min : Op (list WorkerId) :=
  let! pool := get or_worker_pool in
  match plan_spawn_to_min pool with
  | [] => sm_ret []
  | plans => spawn_plans plans
  end.

Fixpoint apply_task_updates (actions : list TaskUpdateAction) (report : ReconciliationApplyReport)
    : Op ReconciliationApplyReport :=
  match actions with
  | [] => sm_ret report
  | action :: actions =>
      let! ok := try_board (fun now => unassign_task now (tu_task_id action)) in
      apply_task_updates actions
        (if ok then report <| rep_task_updates := S (rep_task_updates report) |> else report)
  end.

(** One action of [apply_worker_cleanup_actions]. *)
Definition apply_worker_cleanup (action : WorkerCleanupAction) (report : ReconciliationApplyReport)
    : Op ReconciliationApplyReport :=
  let cleaned := report <| rep_worker_cleanup_actions := S (rep_worker_cleanup_actions report) |> in
  match action with
  | ClearAssignment worker_id _ =>
      let! r := with_pool (fun _ => clear_assignment worker_id) in
      sm_ret (if is_ok r then cleaned else report)
  | HandleWorkerDeath session_id =>
      let! spawn_plan := with_pool (fun _ => reconcile_worker_death session_id) in
      match spawn_plan with
      | Some spawn_plan =>
          let! spawned := orchestrator_spawn spawn_plan in
          sm_ret (match spawned with
                  | Some _ => cleaned <| rep_workers_spawned := S (rep_workers_spawned cleaned) |>
                  | None => cleaned
                  end)
      | None => sm_ret cleaned
      end
  end.

Fixpoint apply_worker_cleanup_actions (actions : list WorkerCleanupAction) (report : ReconciliationApplyReport)
    : Op ReconciliationApplyReport :=
  match actions with
  | [] => sm_ret report
  | action :: actions =>
      let! report := apply_worker_cleanup action report in
      apply_worker_cleanup_actions actions report
  end.

(** The repairs of runs, on the run store; the events are those pushed so far. *)
Definition run_repairs (plan : ReconciliationPlan) (now : DateTime) (report : ReconciliationApplyReport)
    : Op (ReconciliationApplyReport * list Event) := fun o =>
  match or_run_store o with
  | None => (o, Ok (report, []))
  | Some store =>
      let '(s, r) := apply_run_actions clock (or_task_board o) (oc_retry_policy config) plan now report
                       (mkPass store [] (or_reads o)) in
      (o <| or_run_store := Some (ps_store s) |> <| or_reads := ps_ticks s |>,
       let? report := r in Ok (report, ps_events s))
  end.

(** [emit_reconciliation_events] and [emit_continuation_events] *)
Fixpoint emit_events (events : list Event) : Op nat :=
  match events with
  | [] => sm_ret 0
  | event :: events =>
      let! _ := sm_map_err from_port_error (on_events (es_append event)) in
      let! emitted := emit_events events in
      sm_ret (S emitted)
  end.

Definition load_active_runs (to_error : RunStoreError -> OrchestratorError) : Op (list RunRecord) := fun o =>
  match or_run_store o with
  | None => (o, Ok [])
  | Some store =>
      let '(store, r) := active_runs store in
      (o <| or_run_store := Some store |>, result_map_err to_error r)
  end.

Definition reconcile_before_dispatch : Op ReconciliationApplyReport :=
  let! now := read clock in
  let! runs := load_active_runs map_run_store_error in
  let! input := get (fun o => from_current_state now (or_task_board o) (or_worker_pool o)
                                (or_dependency_graph o) runs) in
  let plan := reconcile ReconcilerConfig_default input in
  let! report := apply_task_updates (pl_task_updates plan) empty_report in
  let! report := apply_worker_cleanup_actions (pl_worker_cleanup_actions plan) report in
  let! (report, events) := run_repairs plan now report in
  let escalations := (fun e => escalation_event e now) <$> pl_escalations plan in
  let report := report <| rep_escalations := rep_escalations report + length escalations |> in
  let! emitted := emit_events (events ++ escalations) in
  sm_ret (report <| rep_events_emitted := emitted |>).

(** ** Continuation *)

Record ContinuationApplyReport := mkContinuationReport {
  cont_continued : nat;
  cont_stopped : nat;
  cont_escalated : nat;
  cont_no_action : nat;
  cont_events_emitted : nat
}.

#[export] Instance eta_ContinuationReport : Eta ContinuationApplyReport := fun r =>
  mkContinuationReport (cont_continued r) (cont_stopped r) (cont_escalated r) (cont_no_action r)
    (cont_events_emitted r).

Definition review_state_for_task (status : TaskStatus) : option ContinuationReviewState :=
  match status with
  | TaskStatus.InReview => Some ContinuationReviewState.WaitingForReview
  | TaskStatus.Approved => Some ContinuationReviewState.Approved
  | TaskStatus.ChangesRequested => Some ContinuationReviewState.ChangesRequested
  | _ => Some ContinuationReviewState.NotInReview
  end.

Definition idle_since (run : RunRecord) : DateTime :=
  default (rr_updated_at run)
    (match rr_last_continuation_at run with Some t => Some t | None =>
     match rr_last_activity_at run with Some t => Some t | None =>
     match rr_started_at run with Some t => Some t | None => rr_claimed_at run end end end).

(** [(now - idle_since).num_seconds().max(0) as u64]; a duration is rounded
    towards zero. *)
Definition idle_for_secs (run : RunRecord) (now : DateTime) : Z :=
  Z.max (Z.quot (now - idle_since run) 1000000000) 0.

Definition continuation_input (run : RunRecord) (task : option TaskEntry)
    (session_health : ContinuationSessionHealth) (now : DateTime) : ContinuationInput :=
  let task_status := match task with Some task => te_status task | None => TaskStatus.Pending end in
  mkContinuationInput task_status (rr_status run) session_health (rr_continuation_turns run)
    (match task with Some task => bool_decide (te_id task = rr_task_id run) | None => false end)
    (match task with
     | Some task => match te_session_id task, rr_session_id run with
                    | Some task_session, Some run_session => bool_decide (task_session = run_session)
                    | _, _ => false
                    end
     | None => false
     end)
    (review_state_for_task task_status) (idle_for_secs run now).

(** ["Continue task {} ({title}). State: {status}. Run: {} attempt {} continuation
    turn {next_turn}. ..."] *)
Definition build_continuation_prompt (prompt_id : string) (run : RunRecord) (task : option TaskEntry)
    (next_turn : Z) (now : DateTime) : PromptTurn :=
  let title := match task with
               | Some task => if String.eqb (te_title task) "" then "current task" else te_title task
               | None => "current task"
               end in
  let status := match task with Some task => debug_TaskStatus (te_status task) | None => "unknown" end in
  mkPromptTurn prompt_id
    ("Continue task " +:+ rr_task_id run +:+ " (" +:+ title +:+ "). State: " +:+ status +:+ ". Run: "
     +:+ rr_run_id run +:+ " attempt " +:+ fmt_u (rr_attempt run) +:+ " continuation turn " +:+ fmt_u next_turn
     +:+ ". Continue from existing session context; report completion or blockers.")
    MessageKind.Nudge now.

Definition continuation_activity_event (record : RunRecord) (turn : Z) (now : DateTime) : Event :=
  run_event record (EventKind.RunActivityObserved (rr_run_id record) (rr_task_id record) (rr_role record)
    (rr_claim_generation record) ("continuation prompt sent: turn " +:+ fmt_u turn) now) now.

Definition continuation_escalation_event (run : RunRecord) (reason : string) (now : DateTime) : Event :=
  run_event run (EventKind.EscalationTriggered ("continuation decision escalated: " +:+ reason)
    (run_context run)) now.

Definition continuation_session_health (run : RunRecord) : Op ContinuationSessionHealth :=
  match rr_session_id run with
  | None => sm_ret ContinuationSessionHealth.Missing
  | Some session_id =>
      sm_catch (on_gateway (gw_health_check session_id))
        (fun health => sm_ret match health with
         | HealthStatus.Healthy => ContinuationSessionHealth.Healthy
         | HealthStatus.Unhealthy => ContinuationSessionHealth.Unhealthy
         | HealthStatus.Unknown => ContinuationSessionHealth.Unknown
         end)
        (fun _ => sm_ret ContinuationSessionHealth.Missing)
  end.

Definition run_store_port_error (err : RunStoreError) : OrchestratorError :=
  OrchestratorError.PortError (display_run_store_error err).

(** [record_continuation]; [store] stands for the clone of the [Arc], which points
    to the store in the state. *)
Definition record_turn (run : RunRecord) (next_turn : Z) (now : DateTime) (store : St) : Op RunRecord := fun o =>
  let '(store, r) := record_continuation (clock (or_reads o))
        (mkRunContinuation (rr_run_id run) (rr_claim_generation run) now next_turn)
        (default store (or_run_store o)) in
  (o <| or_run_store := Some store |> <| or_reads := S (or_reads o) |>, result_map_err run_store_port_error r).

(** The events and the report are threaded through the calls. *)
Definition Progress : Type := list Event * ContinuationApplyReport.

Definition escalated (event : Event) (p : Progress) : Progress :=
  (p.1 ++ [event], p.2 <| cont_escalated := S (cont_escalated p.2) |>).

Definition send_continuation_prompt (store : St) (run : RunRecord) (task : option TaskEntry) (next_turn : Z)
    (now : DateTime) (p : Progress) : Op Progress :=
  match rr_session_id run with
  | None => sm_ret (escalated (continuation_escalation_event run "run has no session for continuation" now) p)
  | Some session_id =>
      let! prompt_id := read uuid in
      sm_catch (on_gateway (gw_send_prompt session_id (build_continuation_prompt prompt_id run task next_turn now)))
        (fun _ =>
           let! updated := record_turn run next_turn now store in
           sm_ret (p.1 ++ [continuation_activity_event updated next_turn now],
                   p.2 <| cont_continued := S (cont_continued p.2) |>))
        (fun _ => sm_ret (escalated (continuation_escalation_event run "failed to send continuation prompt" now) p))
  end.

Definition apply_continuation_decision (store : St) (run : RunRecord) (now : DateTime) (p : Progress)
    : Op Progress :=
  let! task := get (fun o => get_task (or_task_board o) (rr_task_id run)) in
  let! session_health := continuation_session_health run in
  match decide_continuation (continuation_input run task session_health now) (oc_continuation_policy config) with
  | ContinuationDecision.ContinueNow next_turn _ => send_continuation_prompt store run task next_turn now p
  | ContinuationDecision.Stop _ => sm_ret (p.1, p.2 <| cont_stopped := S (cont_stopped p.2) |>)
  | ContinuationDecision.Escalate reason => sm_ret (escalated (continuation_escalation_event run reason now) p)
  | ContinuationDecision.NoAction _ => sm_ret (p.1, p.2 <| cont_no_action := S (cont_no_action p.2) |>)
  end.

Fixpoint apply_continuations (store : St) (runs : list RunRecord) (now : DateTime) (p : Progress) : Op Progress :=
  match runs with
  | [] => sm_ret p
  | run :: runs =>
      let! p := apply_continuation_decision store run now p in
      apply_continuations store runs now p
  end.

Definition continue_active_runs : Op ContinuationApplyReport :=
  let! run_store := get or_run_store in
  match run_store with
  | None => sm_ret (mkContinuationReport 0 0 0 0 0)
  | Some store =>
      let! now := read clock in
      let! runs := load_active_runs run_store_port_error in
      let! (events, report) := apply_continuations store
        (List.filter (fun run => RunStatus.has_active_claim (rr_status run)) runs) now
        ([], mkContinuationReport 0 0 0 0 0) in
      let! emitted := emit_events events in
      sm_ret (report <| cont_events_emitted := emitted |>)
  end.

(** ** Dispatch *)

(** [AssignmentEngine::assign_task] on the shared pool; the pool of the
    orchestrator has no task board. *)
Definition engine_assign (task : TaskEntry) : Op Assignment := fun o =>
  let '(e, r) := engine_assign_task None (clock (or_reads o)) task (or_engine o) in
  (o <| or_engine := e |> <| or_reads := S (or_reads o) |>, r).

Definition build_task_prompt (prompt_id : string) (now : DateTime) (task : TaskEntry) : PromptTurn :=
  mkPromptTurn prompt_id
    ("Task: " +:+ te_title task +:+ NL +:+ NL +:+ "Description: " +:+ te_description task +:+ NL +:+ NL
     +:+ "Priority: " +:+ debug_Priority (te_priority task))
    MessageKind.TaskAssignment now.

(** [AssignmentEngine::dispatch_task] *)
Definition dispatch_task (assignment : Assignment) (task : TaskEntry) : Op unit :=
  let! prompt_id := read uuid in
  let! now := read clock in
  sm_map_err (fun e => OrchestratorError.AssignmentError ("Failed to dispatch task: " +:+ e))
    (on_gateway (gw_send_prompt (as_session_id assignment) (build_task_prompt prompt_id now task))).

Definition task_has_pending_retry (task_id : TaskId) : Op bool :=
  let! run_store := get or_run_store in
  match run_store with
  | None => sm_ret false
  | Some store =>
      let! now := read clock in
      let '(store, r) := runs_for_task task_id store in
      let! _ := modify (fun o => o <| or_run_store := Some store |>) in
      let! runs := sm_lift (result_map_err run_store_port_error r) in
      sm_ret (existsb (fun run => bool_decide (rr_status run = RunStatus.RetryQueued)
                                  && negb (retry_is_due_at run now)) runs)
  end.

Definition check_git_available : bool :=
  if negb (oc_worktree_isolation config) then true else oc_git_ops config.

(** A task that may be dispatched: assign it, send it, record it. *)
Definition dispatch_one (task : TaskEntry) : Op bool :=
  sm_catch (engine_assign task)
    (fun assignment =>
       sm_catch (dispatch_task assignment task)
         (fun _ =>
            let! _ := modify (board_ok (fun now => update_task_status now (te_id task) TaskStatus.Assigned)) in
            let! _ := modify (board_ok (fun now => assign_task now (te_id task) (as_worker_id assignment)
                                                    (Some (as_session_id assignment)))) in
            sm_ret true)
         (fun _ =>
            let! _ := modify (board_ok (fun now => unassign_task now (te_id task))) in
            sm_ret true))
    (fun e => sm_ret match e with OrchestratorError.NoAvailableWorkers => false | _ => true end).

(** The loop of [dispatch_ready_tasks]. *)
Fixpoint dispatch_loop (tasks : list TaskEntry) : Op unit :=
  match tasks with
  | [] => sm_ret tt
  | task :: tasks =>
      let! o := get (fun o => o) in
      if negb (is_ready (or_dependency_graph o) (te_id task) (or_completed_tasks o)) then
        let unmet := get_unmet_dependencies (or_dependency_graph o) (te_id task) in
        let! _ := modify (board_ok (fun now => set_blocked now (te_id task) unmet)) in
        dispatch_loop tasks
      else if Nat.eqb (available_count None (or_worker_pool o)) 0 then sm_ret tt
      else
        let! pending := task_has_pending_retry (te_id task) in
        if pending then dispatch_loop tasks
        else if negb check_git_available then dispatch_loop tasks
        else
          let! continue_ := dispatch_one task in
          if continue_ then dispatch_loop tasks else sm_ret tt
  end.

Definition dispatch_ready_tasks : Op unit :=
  let! tasks := get (fun o => get_assignable_tasks (or_task_board o)) in
  dispatch_loop tasks.

(** ** Bounds and retention *)

(** [Orchestrator::apply_bounds] *)
Definition orchestrator_apply_bounds (o : Orchestrator) : Orchestrator :=
  let o := o <| or_task_board := (apply_bounds (or_task_board o)).1 |> in
  let max_completed_tasks := rt_max_completed_tasks (oc_retention config) in
  if Nat.ltb max_completed_tasks (size (or_completed_tasks o)) then
    let to_remove := size (or_completed_tasks o) - max_completed_tasks in
    let candidates := List.filter (fun task_id => bool_decide (get_dependents (or_dependency_graph o) task_id = ∅))
                        (iter_set (or_completed_tasks o)) in
    o <| or_completed_tasks := or_completed_tasks o ∖ list_to_set (take to_remove candidates) |>
  else o.

(** The archive step of [sweep_retention]; the result tells whether it had an
    error. *)
Definition sweep_events (max_events : Z) : Op bool :=
  sm_catch (on_events es_high_water_mark)
    (fun high =>
       if (max_events <? high)%Z then
         let! last_processed := get or_last_processed_event in
         let safe_before := match last_processed with
                            | Some last => sat_add u64_max last 1
                            | None => 1%Z
                            end in
         let before_seq := Z.min (sat_add u64_max (sat_sub high max_events) 1) safe_before in
         if (1 <? before_seq)%Z then
           sm_catch (on_events (es_retain_events before_seq)) (fun _ => sm_ret false) (fun _ => sm_ret true)
         else sm_ret false
       else sm_ret false)
    (fun _ => sm_ret true).

Definition sweep_keys (ttl_hours : Z) : Op bool :=
  sm_catch (on_events (es_expire_idempotency_keys (seconds (sat_mul u64_max ttl_hours 3600))))
    (fun _ => sm_ret false) (fun _ => sm_ret true).

Definition sweep_retention : Op unit :=
  let retention := oc_retention config in
  match rt_max_events retention, rt_idempotency_ttl_hours retention with
  | None, None => sm_ret tt
  | _, _ =>
      let sweep_interval_secs := if (rt_sweep_interval_secs retention =? 0)%Z
        then DEFAULT_RETENTION_SWEEP_INTERVAL_SECS else rt_sweep_interval_secs retention in
      let! now := read instants in
      let! last := get or_last_retention_sweep in
      let recent := match last with
                    | Some last_sweep => (sat_sub now last_sweep <? seconds sweep_interval_secs)%Z
                    | None => false
                    end in
      if recent then sm_ret tt
      else
        let! e1 := match rt_max_events retention with Some m => sweep_events m | None => sm_ret false end in
        let! e2 := match rt_idempotency_ttl_hours retention with Some h => sweep_keys h | None => sm_ret false end in
        if e1 || e2 then sm_ret tt
        else modify (fun o => o <| or_last_retention_sweep := Some now |>)
  end.

(** ** The loop *)

Definition process_stream : Op unit :=
  let! since := get or_last_processed_event in
  let! events := sm_map_err from_port_error (on_events (es_stream since 100)) in
  let! _ := modify (fun o => foldl (fun o x => process_event x.1 o) o events) in
  modify (fun o => match last events with
                   | Some (_, last_event_id) => o <| or_last_processed_event := Some last_event_id |>
                   | None => o
                   end).

(** [tick]; [update_dependencies] does nothing. *)
Definition tick : Op unit :=
  let! _ := process_stream in
  let! _ := reconcile_before_dispatch in
  let! _ := continue_active_runs in
  let! _ := dispatch_ready_tasks in
  let! _ := modify orchestrator_apply_bounds in
  sweep_retention.

(** The loop of [run]: [flags] are the successive readings of the shutdown flag;
    an error of a tick is logged. *)
Fixpoint run_loop (flags : list bool) (o : Orchestrator) : Orchestrator :=
  match flags with
  | [] => o
  | shutdown_requested :: flags =>
      if or_running o && negb shutdown_requested then run_loop flags (tick o).1 else o
  end.

Definition run (flags : list bool) : Op unit :=
  let! _ := modify (fun o => o <| or_running := true |>) in
  let! _ := reconcile_before_dispatch in
  let! _ := spawn_workers_to_min in
  modify (run_loop flags).
End orchestrator.
