(* ===== verification/OrchestratorProofs.v ===== *)
(** * Properties of the orchestrator

    What the handlers of Orchestrator.v keep and do: the invariants of the board,
    the pool and the graph in every state the orchestrator can reach; what a
    dispatch does to every task and worker; that retention never removes an
    event that has not been processed; that pruning the finished tasks does not
    change which tasks are ready; and three behaviours worth knowing: a blocked
    task is never dispatched again, the death of a worker reopens every task it
    ever had, and the completion of a dispatched task is ignored. *)

From S2P Require Import Prelude StrLib Types Events TaskLifecycle DependencyGraph TaskBoard Ports WorkerPool RunPort RetryPolicy Reconciler Reconciliation Orchestrator.

(** ** Handlers that keep a relation between states *)

Section keeps.
Context {S : Type} (R : S -> S -> Prop) `{!PreOrder R}.

Definition keeps {E A} (op : SM S E A) : Prop := forall s, R s (op s).1.

Lemma keeps_ret {E A} (a : A) : keeps (E := E) (sm_ret a).
Proof. intros s. reflexivity. Qed.

Lemma keeps_lift {E A} (r : Result A E) : keeps (sm_lift r).
Proof. intros s. reflexivity. Qed.

Lemma keeps_bind {E A B} (c : SM S E A) (k : A -> SM S E B) :
  keeps c -> (forall a, keeps (k a)) -> keeps (sm_bind c k).
Proof.
  intros Hc Hk s. specialize (Hc s). unfold sm_bind. destruct (c s) as [s' [a|e]]; [|done].
  etrans; [exact Hc|apply Hk].
Qed.

Lemma keeps_catch {E F A B} (c : SM S E A) (k : A -> SM S F B) (h : E -> SM S F B) :
  keeps c -> (forall a, keeps (k a)) -> (forall e, keeps (h e)) -> keeps (sm_catch c k h).
Proof.
  intros Hc Hk Hh s. specialize (Hc s). unfold sm_catch. destruct (c s) as [s' [a|e]];
    (etrans; [exact Hc|]); [apply Hk|apply Hh].
Qed.

Lemma keeps_map_err {E F A} (f : E -> F) (c : SM S E A) : keeps c -> keeps (sm_map_err f c).
Proof. intros Hc s. specialize (Hc s). unfold sm_map_err. by destruct (c s). Qed.
End keeps.

Create HintDb keeps.

(** Walk through a handler; what is left are its primitive steps. *)
Ltac keeps_walk := repeat first
  [ solve [auto with keeps nocore]
  | apply keeps_ret; typeclasses eauto | apply keeps_lift; typeclasses eauto
  | apply keeps_bind; [typeclasses eauto| |intros ?]
  | apply keeps_catch; [typeclasses eauto| |intros ?|intros ?]
  | apply keeps_map_err
  | progress case_match ].

Section handlers.
Context {ord : IterOrder string} `{Fmt} {St : Type} `{RunStore St} `{AgentSessions} `{EventStream}.
Context (config : OrchestratorConfig).
Context (clock : nat -> DateTime) (instants : nat -> Z) (uuid : nat -> string).

Abbreviation State := (Orchestrator (St := St)).

(** A command that keeps the ids of the tasks and what they are blocked by. *)
Definition gentle (command : DateTime -> TaskBoard -> TaskBoard * Result unit OrchestratorError) : Prop :=
  forall now, exists id f, command now = update_task id f /\
    forall t, te_id (f t) = te_id t /\ te_blocked_by (f t) = te_blocked_by t.

Lemma gentle_unassign id : gentle (fun now => unassign_task now id).
Proof. intros now. by eexists _, _. Qed.
Lemma gentle_assign id w sid : gentle (fun now => assign_task now id w sid).
Proof. intros now. by eexists _, _. Qed.
Lemma gentle_status id st : gentle (fun now => update_task_status now id st).
Proof. intros now. by eexists _, _. Qed.
#[local] Hint Resolve gentle_unassign gentle_assign gentle_status : core.

(** A relation that does not see the ports, the clocks and the marks of the event
    loop. *)
Class Quiet (R : State -> State -> Prop) := {
  al_order : PreOrder R;
  al_quiet o o' : or_task_board o' = or_task_board o -> or_dependency_graph o' = or_dependency_graph o ->
    or_engine o' = or_engine o -> or_completed_tasks o' = or_completed_tasks o -> R o o'
}.

(** What a relation must allow so that the handlers of events and of the
    reconciliation keep it. *)
Class Allows (R : State -> State -> Prop) := {
  al_is_quiet : Quiet R;
  al_pool o p : (pool_inv (or_worker_pool o) -> pool_inv p) -> R o (set_pool p o);
  al_board command o : gentle command -> R o (board_ok clock command o);
  al_create o id now : tb_tasks (or_task_board o) !! id = None ->
    R o (o <| or_task_board := board_add_task (TaskEntry_new now id "" "") (or_task_board o) |>
           <| or_dependency_graph := add_task id (or_dependency_graph o) |>);
  al_completed o X : R o (o <| or_completed_tasks := X |>)
}.

Section quiet_walk.
Context (R : State -> State -> Prop) `{!Quiet R}.
#[local] Instance quiet_order : PreOrder R := al_order.

Lemma keeps_get {A} (f : State -> A) : keeps R (get f).
Proof. intros o. reflexivity. Qed.

Lemma keeps_read {A} (f : nat -> A) : keeps R (read f).
Proof. intros o. by apply al_quiet. Qed.

Lemma keeps_modify f : (forall o, R o (f o)) -> keeps R (modify f).
Proof. intros Hf o. apply Hf. Qed.

Lemma keeps_gateway {A} (op : SM gw_state string A) : keeps R (on_gateway op).
Proof. intros o. unfold on_gateway. destruct (op (or_gateway o)). by apply al_quiet. Qed.

Lemma keeps_events {A} (op : SM es_state PortError A) : keeps R (on_events op).
Proof. intros o. unfold on_events. destruct (op (or_event_store o)). by apply al_quiet. Qed.

Lemma keeps_load f : keeps R (load_active_runs f).
Proof. intros o. unfold load_active_runs. case_match; [|reflexivity]. destruct (active_runs s). by apply al_quiet. Qed.

Lemma keeps_repairs plan now report : keeps R (run_repairs config clock plan now report).
Proof. intros o. unfold run_repairs. case_match; [|reflexivity]. destruct (apply_run_actions _ _ _ _ _ _ _). by apply al_quiet. Qed.

Lemma keeps_turn run turn now store : keeps R (record_turn clock run turn now store).
Proof. intros o. unfold record_turn. destruct (record_continuation _ _ _). by apply al_quiet. Qed.

#[local] Hint Resolve keeps_get keeps_read keeps_gateway keeps_events keeps_load keeps_repairs keeps_turn : keeps.

Lemma keeps_emit events : keeps R (emit_events events).
Proof. induction events as [|e events IH]; cbn; keeps_walk; apply IH. Qed.

#[local] Hint Resolve keeps_emit : keeps.

Lemma keeps_decision store run now p : keeps R (apply_continuation_decision config clock uuid store run now p).
Proof.
  unfold apply_continuation_decision, continuation_session_health, send_continuation_prompt. keeps_walk.
Qed.

#[local] Hint Resolve keeps_decision : keeps.

Lemma keeps_continuations store runs now p : keeps R (apply_continuations config clock uuid store runs now p).
Proof. revert p. induction runs as [|run runs IH]; intros p; cbn; keeps_walk; apply IH. Qed.

#[local] Hint Resolve keeps_continuations : keeps.

Lemma keeps_continue : keeps R (continue_active_runs config clock uuid).
Proof.
  unfold continue_active_runs. keeps_walk.
Qed.

Lemma keeps_sweep : keeps R (sweep_retention config instants).
Proof.
  unfold sweep_retention, sweep_events, sweep_keys. keeps_walk;
    apply keeps_modify; intros o; by apply al_quiet.
Qed.

Lemma keeps_pending_retry id : keeps R (task_has_pending_retry clock id).
Proof.
  intros o. unfold task_has_pending_retry, sm_bind, get. destruct (or_run_store o) as [store|]; [|reflexivity].
  cbn. destruct (runs_for_task id store) as [store' [runs|e]]; by apply al_quiet.
Qed.

Lemma keeps_dispatch_task a t : keeps R (dispatch_task clock uuid a t).
Proof. unfold dispatch_task. keeps_walk. Qed.
End quiet_walk.

Section walk.
Context (R : State -> State -> Prop) `{!Allows R}.
#[local] Instance allows_quiet : Quiet R := al_is_quiet.
#[local] Instance allows_order : PreOrder R := al_order.
#[local] Hint Resolve keeps_get keeps_read keeps_gateway keeps_events keeps_load keeps_repairs keeps_turn
  keeps_emit keeps_pending_retry allows_quiet : keeps.

Lemma keeps_try_board command : gentle command -> keeps R (try_board clock command).
Proof. intros Hc o. by apply al_board. Qed.

Lemma keeps_with_pool {A} (f : DateTime -> WorkerPool -> WorkerPool * A) :
  (forall now p, pool_inv p -> pool_inv (f now p).1) -> keeps R (with_pool clock f).
Proof.
  intros Hf o. unfold with_pool. specialize (Hf (clock (or_reads o)) (or_worker_pool o)).
  destruct (f _ _) as [p a]. etrans; [by apply (al_pool o p)|by apply al_quiet].
Qed.

Lemma keeps_spawn plan : keeps R (orchestrator_spawn clock plan).
Proof.
  unfold orchestrator_spawn. keeps_walk. apply keeps_with_pool.
  intros now p. apply record_spawned_inv.
Qed.

#[local] Hint Resolve keeps_spawn : keeps.

Lemma keeps_spawn_plans plans : keeps R (spawn_plans clock plans).
Proof. induction plans as [|plan plans IH]; cbn; keeps_walk; apply IH. Qed.

#[local] Hint Resolve keeps_spawn_plans : keeps.

Lemma keeps_spawn_to_min : keeps R (spawn_workers_to_min clock).
Proof. unfold spawn_workers_to_min. keeps_walk. Qed.

Lemma keeps_task_updates actions report : keeps R (apply_task_updates clock actions report).
Proof. revert report. induction actions as [|a actions IH]; intros report; cbn; keeps_walk. by apply keeps_try_board. Qed.

Lemma keeps_worker_cleanup a report : keeps R (apply_worker_cleanup clock a report).
Proof.
  unfold apply_worker_cleanup. keeps_walk.
  - apply keeps_with_pool. intros _ p. apply reconcile_death_inv.
  - apply keeps_with_pool. intros _ p. apply clear_assignment_inv.
Qed.

#[local] Hint Resolve keeps_worker_cleanup : keeps.

Lemma keeps_worker_cleanups actions report : keeps R (apply_worker_cleanup_actions clock actions report).
Proof.
  revert report. induction actions as [|a actions IH]; intros report; cbn; keeps_walk; apply IH.
Qed.

#[local] Hint Resolve keeps_task_updates keeps_worker_cleanups : keeps.

Lemma keeps_reconcile : keeps R (reconcile_before_dispatch config clock).
Proof.
  unfold reconcile_before_dispatch. keeps_walk.
Qed.



Lemma allows_event event o : R o (process_event clock event o).
Proof.
  unfold process_event. destruct (ev_kind event); try reflexivity.
  - destruct (get_worker_by_session _ _) as [w|]; [|reflexivity].
    generalize (affected_tasks (wi_id w) (or_engine o)). intros ids.
    revert o. induction ids as [|id ids IH]; intros o; cbn; [reflexivity|].
    etrans; [by apply (al_board (fun now => unassign_task now id))|by apply IH].
  - unfold board_has_task. destruct (tb_tasks (or_task_board o) !! task_id) eqn:Hid; [reflexivity|].
    etrans; [by apply (al_create o task_id (clock (or_reads o)))|by apply al_quiet].
  - case_match; [|reflexivity]. by apply al_board.
  - case_match; [|reflexivity]. case_match; [|reflexivity]. by apply al_board.
  - etrans; [apply (al_completed o (or_completed_tasks o ∪ {[task_id]}))|by apply al_board].
  - case_match; [|reflexivity]. case_match; [|reflexivity]. by apply al_board.
Qed.

Lemma keeps_stream : keeps R (process_stream clock).
Proof.
  unfold process_stream. apply keeps_bind; [typeclasses eauto|auto with keeps|intros since].
  apply keeps_bind; [typeclasses eauto|apply keeps_map_err; auto with keeps|intros events].
  apply keeps_bind; [typeclasses eauto|apply keeps_modify; intros o|intros _; apply keeps_modify; intros o];
    [|case_match; [case_match|]; by apply al_quiet].
  revert o. induction events as [|x events IH]; intros o; cbn; [reflexivity|].
  etrans; [apply (allows_event x.1)|apply IH].
Qed.

(** Dispatch, for a relation that allows what it does to the engine and to the
    tasks it may block. *)

Lemma keeps_dispatch_one task : (forall o, R o (engine_assign clock task o).1) -> keeps R (dispatch_one clock uuid task).
Proof.
  intros He. assert (He' : keeps R (engine_assign clock task)) by exact He.
  unfold dispatch_one, dispatch_task. keeps_walk; apply keeps_modify; intros o; by apply al_board.
Qed.

Lemma keeps_dispatch_loop tasks : (forall task o, R o (engine_assign clock task o).1) ->
  (forall task l o, task ∈ tasks -> R o (board_ok clock (fun now => set_blocked now (te_id task) l) o)) ->
  keeps R (dispatch_loop config clock uuid tasks).
Proof.
  intros He. induction tasks as [|task tasks IH]; intros Hb; cbn [dispatch_loop]; [keeps_walk|].
  assert (IH' : keeps R (dispatch_loop config clock uuid tasks)) by (apply IH; intros; apply Hb; by right).
  assert (Hblock : forall l, keeps R (modify (board_ok clock (fun now => set_blocked now (te_id task) l))))
    by (intros l; apply keeps_modify; intros o; apply Hb; left).
  assert (Hone : keeps R (dispatch_one clock uuid task)) by (apply keeps_dispatch_one; auto).
  keeps_walk.
Qed.
End walk.

(** What the quiet handlers keep, exactly. *)
Definition same_core (o o' : State) : Prop :=
  or_task_board o' = or_task_board o /\ or_dependency_graph o' = or_dependency_graph o /\
  or_engine o' = or_engine o /\ or_completed_tasks o' = or_completed_tasks o.

#[local] Instance same_core_quiet : Quiet same_core.
Proof.
  split; [|by intros]. split; [by intros o|]. unfold same_core. intros o1 o2 o3. intuition congruence.
Qed.

(** ** Invariants *)

Record orchestrator_inv (o : State) : Prop := {
  oi_board : board_inv (or_task_board o);
  oi_pool : pool_inv (or_worker_pool o);
  oi_graph : graph_wf (or_dependency_graph o)
}.

Definition inv_kept (o o' : State) : Prop := orchestrator_inv o -> orchestrator_inv o'.

#[local] Instance inv_kept_order : PreOrder inv_kept.
Proof. split; [intros o Ho; exact Ho|]. intros o1 o2 o3 H12 H23 Ho. auto. Qed.

Lemma inv_board command o : (forall now, board_inv (or_task_board o) -> board_inv (command now (or_task_board o)).1) ->
  inv_kept o (board_ok clock command o).
Proof. intros Hc [Hb Hp Hg]. split; [by apply Hc|done..]. Qed.

#[local] Instance inv_quiet : Quiet inv_kept.
Proof.
  split; [typeclasses eauto|]. intros o o' E1 E2 E3 _ [Hb Hp Hg]. split; unfold or_worker_pool in *; by rewrite ?E1, ?E2, ?E3.
Qed.

#[local] Instance inv_allows : Allows inv_kept.
Proof.
  split; [typeclasses eauto|..].
  - intros o p Hp [Hb Hp' Hg]. split; cbn; auto.
  - intros command o Hc. apply inv_board. intros now Hb. destruct (Hc now) as (id & f & -> & Hf).
    apply update_task_inv; [apply Hf|done].
  - intros o id now Hid [Hb Hp Hg]. split; cbn; auto using board_add_inv. by apply (add_task_wf).
  - intros o X [Hb Hp Hg]. by split.
Qed.

Lemma engine_assign_inv task o : inv_kept o (engine_assign clock task o).1.
Proof.
  intros [Hb Hp Hg]. unfold engine_assign. destruct (engine_assign_task None _ task (or_engine o)) as [e r] eqn:He.
  split; cbn; [done| |done]. unfold or_worker_pool. cbn.
  pose proof (engine_assign_cases _ _ _ _ _ _ _ Hp He) as Hc. destruct r as [a|err].
  - destruct Hc as (w & Hw & Hfree & _ & _ & Hws & _). apply andb_prop in Hfree as [Ha _]. destruct Hp as [Hown Hdead].
    split; intros id w'; rewrite Hws, lookup_insert_Some; intros [[<- <-]|[_ Hid]]; eauto; cbn; [by apply Hown|congruence].
  - by destruct Hc as (_ & -> & _).
Qed.

Lemma set_blocked_inv now id l b : board_inv b -> board_inv (set_blocked now id l b).1.
Proof. apply update_task_inv. intros t. by destruct (_ || _). Qed.

Lemma dispatch_inv : keeps inv_kept (dispatch_ready_tasks config clock uuid).
Proof.
  unfold dispatch_ready_tasks. apply keeps_bind; [typeclasses eauto|apply keeps_get; typeclasses eauto|intros tasks].
  apply keeps_dispatch_loop; [typeclasses eauto|apply engine_assign_inv|]. intros task l o _. apply inv_board.
  intros now. apply set_blocked_inv.
Qed.

Lemma bounds_inv o : inv_kept o (orchestrator_apply_bounds config o).
Proof.
  intros [Hb Hp Hg]. unfold orchestrator_apply_bounds.
  assert (Hb' : board_inv (apply_bounds (or_task_board o)).1) by by apply apply_bounds_inv.
  case_match; split; cbn; done.
Qed.

Lemma tick_inv : keeps inv_kept (tick config clock instants uuid).
Proof.
  unfold tick. repeat (apply keeps_bind; [typeclasses eauto| |intros _]).
  - by apply keeps_stream, _.
  - by apply keeps_reconcile, _.
  - by apply keeps_continue, _.
  - apply dispatch_inv.
  - apply keeps_modify, bounds_inv.
  - by apply keeps_sweep, _.
Qed.

Lemma run_loop_inv flags o : inv_kept o (run_loop config clock instants uuid flags o).
Proof.
  revert o. induction flags as [|b flags IH]; intros o; cbn; [reflexivity|]. case_match; [|reflexivity].
  etrans; [apply (tick_inv o)|apply IH].
Qed.

Lemma run_inv flags : keeps inv_kept (run config clock instants uuid flags).
Proof.
  unfold run. repeat (apply keeps_bind; [typeclasses eauto| |intros _]).
  - apply keeps_modify. intros o [Hb Hp Hg]. by split.
  - by apply keeps_reconcile, _.
  - by apply keeps_spawn_to_min, _.
  - apply keeps_modify. intros o. apply run_loop_inv.
Qed.

Lemma shutdown_inv : keeps inv_kept shutdown.
Proof.
  intros o [Hb Hp Hg]. unfold shutdown. destruct (kill_workers _ _) as [g [errors killed]].
  destruct killed; split; cbn; auto. by apply mark_dead_sessions_inv.
Qed.

Lemma add_task_inv id title description deps o : inv_kept o (orchestrator_add_task clock id title description deps o).
Proof.
  intros [Hb Hp Hg]. split; cbn; [by apply board_add_inv|done|].
  revert Hg. generalize (or_dependency_graph o). induction deps as [|d deps IH]; intros g Hg; cbn; [done|].
  by apply IH, add_dependency_wf.
Qed.

(** What can happen to an orchestrator from outside. *)
Inductive orchestrator_reachable : State -> Prop :=
| orch_new gateway event_store : orchestrator_reachable (orchestrator_new config gateway event_store)
| orch_run_store store o : orchestrator_reachable o -> orchestrator_reachable (set_run_store store o)
| orch_add_task id title description deps o :
    orchestrator_reachable o -> orchestrator_reachable (orchestrator_add_task clock id title description deps o)
| orch_add_dependency id dep o :
    orchestrator_reachable o -> orchestrator_reachable (orchestrator_add_dependency id dep o).1
| orch_run flags o :
    orchestrator_reachable o -> orchestrator_reachable (run config clock instants uuid flags o).1
| orch_tick o : orchestrator_reachable o -> orchestrator_reachable (tick config clock instants uuid o).1
| orch_stop o : orchestrator_reachable o -> orchestrator_reachable (stop o)
| orch_shutdown o : orchestrator_reachable o -> orchestrator_reachable (shutdown o).1
| orch_environment o g s store :
    orchestrator_reachable o ->
    orchestrator_reachable (o <| or_gateway := g |> <| or_event_store := s |> <| or_run_store := store |>).

Lemma reachable_orchestrator_inv o : orchestrator_reachable o -> orchestrator_inv o.
Proof.
  induction 1 as [| | | id dep o _ IH| | | | |].
  - split; cbn; [apply board_inv_empty| |apply graph_new_wf]. split; intros id w; cbn; by rewrite lookup_empty.
  - by destruct IHorchestrator_reachable.
  - by apply add_task_inv.
  - destruct IH as [Hb Hp Hg]. unfold orchestrator_add_dependency. pose proof (add_dependency_wf id dep _ Hg) as Hg'.
    destruct (add_dependency id dep _) as [g r]. by split.
  - by apply run_inv.
  - by apply tick_inv.
  - by destruct IHorchestrator_reachable.
  - by apply shutdown_inv.
  - by destruct IHorchestrator_reachable.
Qed.

(** ** Blocked tasks *)

(** The task is on the board and blocked by [l]. *)
Definition blocked_by (id : TaskId) (l : list TaskId) (o : State) : Prop :=
  exists t, get_task (or_task_board o) id = Some t /\ te_blocked_by t = l.

Definition block_kept (id : TaskId) (l : list TaskId) (o o' : State) : Prop :=
  orchestrator_inv o /\ blocked_by id l o -> orchestrator_inv o' /\ blocked_by id l o'.

#[local] Instance block_kept_order id l : PreOrder (block_kept id l).
Proof. split; [intros o Ho; exact Ho|]. intros o1 o2 o3 H12 H23 Ho. auto. Qed.

Lemma update_task_blocked_by id l i f b :
  (i = id -> forall t, te_blocked_by (f t) = te_blocked_by t) ->
  (exists t, get_task b id = Some t /\ te_blocked_by t = l) ->
  exists t, get_task (update_task i f b).1 id = Some t /\ te_blocked_by t = l.
Proof.
  intros Hf (t & Ht & Hl). unfold update_task, get_task in *. destruct (tb_tasks b !! i) as [u|] eqn:Hu; [|by exists t].
  cbn. destruct (decide (i = id)) as [->|Hne].
  - rewrite lookup_insert_eq. exists (f u). split; [done|]. rewrite Hf by done. congruence.
  - rewrite lookup_insert_ne by done. eauto.
Qed.

#[local] Instance block_quiet id l : Quiet (block_kept id l).
Proof.
  split; [typeclasses eauto|]. intros o o' E1 E2 E3 E4 [Hi Hb].
  split; [by apply (al_quiet (R := inv_kept) o o')|]. unfold blocked_by. by rewrite E1.
Qed.

#[local] Instance block_allows id l : Allows (block_kept id l).
Proof.
  split; [typeclasses eauto|..].
  - intros o p Hp [Hi Hb]. split; [by apply (al_pool (R := inv_kept) o p)|done].
  - intros command o Hc [Hi Hb]. split; [by apply (al_board (R := inv_kept) command o)|].
    unfold blocked_by. cbn. destruct (Hc (clock (or_reads o))) as (i & f & -> & Hf).
    apply update_task_blocked_by; [|done]. intros _ t. apply Hf.
  - intros o i now Hid [Hi Hb]. split; [by apply (al_create (R := inv_kept) o i now)|].
    destruct Hb as (t & Ht & Hl). exists t. split; [|done]. unfold get_task in *. cbn.
    rewrite lookup_insert_ne; [done|]. intros <-. cbn in *. congruence.
  - intros o X [Hi Hb]. split; [by apply (al_completed (R := inv_kept) o X)|done].
Qed.

Lemma engine_assign_block id l task o : block_kept id l o (engine_assign clock task o).1.
Proof.
  intros [Hi Hb]. split; [by apply engine_assign_inv|]. unfold engine_assign.
  by destruct (engine_assign_task None _ task (or_engine o)).
Qed.

(** A blocked task is not among the tasks to dispatch. *)
Lemma assignable_not_blocked b id t u : board_inv b -> get_task b id = Some t -> te_blocked_by t <> [] ->
  u ∈ get_assignable_tasks b -> te_id u <> id.
Proof.
  intros Hb Ht Hl Hu Hid. unfold get_assignable_tasks, tasks_where in Hu.
  apply list_elem_of_In, filter_In in Hu as [Hu Ha]. apply list_elem_of_In, list_elem_of_fmap in Hu as ([i u'] & -> & Hu).
  rewrite iter_map_perm in Hu. apply elem_of_map_to_list in Hu. cbn in *. pose proof (bi_own b Hb _ _ Hu) as Hown.
  assert (u' = t) as -> by (unfold get_task in Ht; congruence). unfold is_assignable in Ha. apply andb_prop in Ha as [_ Ha].
  by destruct (te_blocked_by t).
Qed.

Lemma dispatch_block id l : l <> [] -> keeps (block_kept id l) (dispatch_ready_tasks config clock uuid).
Proof.
  intros Hl o Ho. unfold dispatch_ready_tasks, sm_bind, get. cbn.
  apply (keeps_dispatch_loop (block_kept id l) (get_assignable_tasks (or_task_board o))); [apply engine_assign_block| |exact Ho].
  intros task deps o' Htask [Hi Hb]. destruct Ho as [[Hbo _ _] (t & Ht & Hlt)]. split.
  - apply inv_board; [|done]. intros now. apply set_blocked_inv.
  - unfold blocked_by. cbn. apply update_task_blocked_by; [|done].
    intros Heq. by destruct (assignable_not_blocked _ _ _ _ Hbo Ht ltac:(by rewrite Hlt) Htask).
Qed.

(** Bounds only remove tasks. *)
Lemma bounds_entry b id t : get_task (apply_bounds b).1 id = Some t -> get_task b id = Some t.
Proof.
  unfold apply_bounds, get_task. case_match; [done|]. cbn. generalize (merged_to_evict
    (size (tb_tasks b) - tb_max_tasks b) (tb_tasks b) (tb_order b)). intros ids. generalize (tb_tasks b).
  induction ids as [|i ids IH]; intros m; cbn; [done|]. intros Ht%IH. by apply lookup_delete_Some in Ht as [_ Ht].
Qed.

Definition tick_state (o : State) : State := (tick config clock instants uuid o).1.

(** The part of [tick] before the bounds. *)
Lemma tick_block id l o : l <> [] -> orchestrator_inv o -> blocked_by id l o ->
  forall t, get_task (or_task_board (tick_state o)) id = Some t -> te_blocked_by t = l.
Proof.
  intros Hl Hi Hb.
  set (before := let! _ := process_stream clock in let! _ := reconcile_before_dispatch config clock in
                 let! _ := continue_active_runs config clock uuid in dispatch_ready_tasks config clock uuid).
  assert (Hk : keeps (block_kept id l) before).
  { unfold before. repeat (apply keeps_bind; [typeclasses eauto| |intros _]); [by apply keeps_stream, _|
      by apply keeps_reconcile, _|by apply keeps_continue, _|by apply dispatch_block]. }
  assert (Htick : tick_state o = match before o with
    | (o', Ok _) => (sm_bind (modify (orchestrator_apply_bounds config)) (fun _ => sweep_retention config instants) o').1
    | (o', Err _) => o'
    end).
  { unfold tick_state, tick, before, sm_bind. destruct (process_stream clock o) as [o1 [?|?]]; [|done].
    destruct (reconcile_before_dispatch config clock o1) as [o2 [?|?]]; [|done].
    destruct (continue_active_runs config clock uuid o2) as [o3 [?|?]]; [|done].
    by destruct (dispatch_ready_tasks config clock uuid o3) as [o4 [?|?]]. }
  specialize (Hk o (conj Hi Hb)). rewrite Htick. destruct (before o) as [o' [?|?]]; cbn in Hk.
  - destruct Hk as [_ (t' & Ht' & Hl')]. intros t. cbn.
    destruct (keeps_sweep same_core (orchestrator_apply_bounds config o')) as [-> _]. intros Ht. assert (Ht2 : get_task (or_task_board o') id = Some t).
    { unfold orchestrator_apply_bounds in Ht. case_match; by apply bounds_entry in Ht. }
    congruence.
  - destruct Hk as [_ (t' & Ht' & Hl')]. intros t Ht. congruence.
Qed.

(** ** Dispatch, task by task *)

Definition workers (o : State) : gmap WorkerId WorkerInfo := wp_workers (or_worker_pool o).

(** The state of an assigned task, and of one whose prompt could not be sent. *)
Definition sent_entry (now : DateTime) (worker_id : WorkerId) (session : SessionId) (t : TaskEntry) : TaskEntry :=
  t <| te_status := TaskStatus.Assigned |> <| te_assignee := Some worker_id |> <| te_session_id := Some session |>
    <| te_updated_at := now |>.
Definition unsent_entry (now : DateTime) (t : TaskEntry) : TaskEntry :=
  t <| te_status := TaskStatus.Pending |> <| te_assignee := None |> <| te_session_id := None |>
    <| te_updated_at := now |>.
Definition blocked_entry (now : DateTime) (deps : list TaskId) (t : TaskEntry) : TaskEntry :=
  t <| te_status := TaskStatus.Blocked |> <| te_blocked_by := deps |> <| te_updated_at := now |>.

(** The task took the free worker [w]. *)
Definition took (o o' : State) (w : WorkerId) (info : WorkerInfo) (id : TaskId) : Prop :=
  workers o !! w = Some info /\ is_free info = true /\
  workers o' !! w = Some (info <| wi_assigned_task := Some id |>).

(** What a dispatch from [o] to [o'] does to a task that was assignable. *)
Inductive dispatched (o o' : State) (t : TaskEntry) : Prop :=
| dispatched_kept : get_task (or_task_board o') (te_id t) = Some t -> dispatched o o' t
| dispatched_blocked now :
    is_ready (or_dependency_graph o) (te_id t) (or_completed_tasks o) = false ->
    get_task (or_task_board o') (te_id t) =
      Some (blocked_entry now (get_unmet_dependencies (or_dependency_graph o) (te_id t)) t) -> dispatched o o' t
| dispatched_sent now w info :
    is_ready (or_dependency_graph o) (te_id t) (or_completed_tasks o) = true -> check_git_available config = true ->
    took o o' w info (te_id t) ->
    get_task (or_task_board o') (te_id t) = Some (sent_entry now w (wi_session_id info) t) -> dispatched o o' t
| dispatched_failed now w info :
    is_ready (or_dependency_graph o) (te_id t) (or_completed_tasks o) = true ->
    took o o' w info (te_id t) ->
    get_task (or_task_board o') (te_id t) = Some (unsent_entry now t) -> dispatched o o' t.

(** Workers only get busy, other tasks stay as they are. *)
Record dispatch_frame (ids : list TaskId) (o o' : State) : Prop := {
  df_graph : or_dependency_graph o' = or_dependency_graph o;
  df_completed : or_completed_tasks o' = or_completed_tasks o;
  df_busy w i : workers o !! w = Some i -> is_free i = false -> workers o' !! w = Some i;
  df_free w i : workers o' !! w = Some i -> is_free i = true -> workers o !! w = Some i;
  df_tasks id : id ∉ ids -> get_task (or_task_board o') id = get_task (or_task_board o) id
}.

Lemma frame_core ids o o' : same_core o o' -> dispatch_frame ids o o'.
Proof. intros (E1 & E2 & E3 & E4). split; unfold workers, or_worker_pool; rewrite ?E1, ?E2, ?E3, ?E4; done. Qed.

Lemma frame_trans ids ids' o1 o2 o3 : dispatch_frame ids o1 o2 -> dispatch_frame ids' o2 o3 ->
  dispatch_frame (ids ++ ids') o1 o3.
Proof.
  intros [G1 C1 B1 F1 T1] [G2 C2 B2 F2 T2]. split; [congruence|congruence|auto|auto|].
  intros id [Hn1 Hn2]%not_elem_of_app. by rewrite T2, T1.
Qed.

Lemma frame_again ids o1 o2 o3 : dispatch_frame ids o1 o2 -> dispatch_frame ids o2 o3 -> dispatch_frame ids o1 o3.
Proof.
  intros H12 H23. destruct (frame_trans _ _ _ _ _ H12 H23) as [G C B F T]. split; try done.
  intros id Hid. apply T. set_solver.
Qed.

(** What was done to a task is still so after the other tasks, *)
Lemma dispatched_later ids o1 o2 o3 t : dispatched o1 o2 t -> dispatch_frame ids o2 o3 -> te_id t ∉ ids ->
  dispatched o1 o3 t.
Proof.
  intros Hd [_ _ Hbusy _ Htasks] Hid. pose proof (Htasks _ Hid) as Heq.
  assert (Htook : forall w info, took o1 o2 w info (te_id t) -> took o1 o3 w info (te_id t)).
  { intros w info (H1' & H2' & H3'). split_and!; [done|done|]. apply Hbusy; [done|].
    unfold is_free. cbn. by rewrite andb_false_r. }
  destruct Hd as [Ht|now Hr Ht|now w info Hr Hg Hw Ht|now w info Hr Hw Ht]; rewrite <-Heq in Ht.
  - by apply dispatched_kept.
  - by eapply dispatched_blocked.
  - eapply dispatched_sent; eauto.
  - eapply dispatched_failed; eauto.
Qed.

(** and what is done later is a dispatch from the start. *)
Lemma dispatched_earlier ids o1 o2 o3 t : dispatch_frame ids o1 o2 -> dispatched o2 o3 t -> dispatched o1 o3 t.
Proof.
  intros [HG HC _ Hfree _] Hd.
  assert (Htook : forall w info, took o2 o3 w info (te_id t) -> took o1 o3 w info (te_id t)).
  { intros w info (H1' & H2' & H3'). split_and!; [by apply Hfree|done|done]. }
  destruct Hd as [Ht|now Hr Ht|now w info Hr Hg Hw Ht|now w info Hr Hw Ht]; rewrite ?HG, ?HC in *.
  - by apply dispatched_kept.
  - by eapply dispatched_blocked.
  - eapply dispatched_sent; eauto.
  - eapply dispatched_failed; eauto.
Qed.

Lemma board_ok_entry (o : State) id (f : DateTime -> TaskEntry -> TaskEntry) i :
  get_task (or_task_board (board_ok clock (fun now => update_task id (f now)) o)) i =
  if decide (i = id) then f (clock (or_reads o)) <$> get_task (or_task_board o) id else get_task (or_task_board o) i.
Proof.
  unfold board_ok, get_task. cbn. unfold update_task. destruct (tb_tasks (or_task_board o) !! id) as [t|] eqn:Ht; cbn;
    case_decide as Hi; subst; rewrite ?lookup_insert_eq, ?lookup_insert_ne by done; done.
Qed.

Lemma board_ok_frame (o : State) id (f : DateTime -> TaskEntry -> TaskEntry) :
  dispatch_frame [id] o (board_ok clock (fun now => update_task id (f now)) o).
Proof.
  split; try done. intros i Hi. rewrite board_ok_entry, decide_False; [done|]. set_solver.
Qed.

(** The assignment of a worker. *)
Lemma engine_assign_step o t o1 r : orchestrator_inv o -> engine_assign clock t o = (o1, r) ->
  or_task_board o1 = or_task_board o /\ dispatch_frame [] o o1 /\
  match r with
  | Ok a => exists info, took o o1 (as_worker_id a) info (te_id t) /\ as_session_id a = wi_session_id info
  | Err e => e = OrchestratorError.NoAvailableWorkers
  end.
Proof.
  intros [_ Hp _]. unfold engine_assign. destruct (engine_assign_task None _ t (or_engine o)) as [e r'] eqn:He.
  intros [= <- <-]. split; [done|]. pose proof (engine_assign_cases _ _ _ _ _ _ _ Hp He) as Hc. destruct r' as [a|err].
  - destruct Hc as (w & Hw & Hfree & _ & Hsess & Hws & _).
    assert (Htook : took o (o <| or_engine := e |> <| or_reads := S (or_reads o) |>) (as_worker_id a) w (te_id t)).
    { split_and!; [done|done|]. unfold workers, or_worker_pool. cbn. by rewrite Hws, lookup_insert_eq. }
    split; [|by exists w]. split; try done; unfold workers, or_worker_pool in *; cbn; rewrite Hws; intros w' i Hi Hf.
    + rewrite lookup_insert_ne; [done|]. intros <-. congruence.
    + apply lookup_insert_Some in Hi as [[<- <-]|[_ Hi]]; [|done]. unfold is_free in Hf. cbn in Hf. by rewrite andb_false_r in Hf.
  - destruct Hc as (-> & -> & _). split; [|done]. by apply frame_core.
Qed.

Lemma dispatch_one_step o t :
  orchestrator_inv o -> get_task (or_task_board o) (te_id t) = Some t -> is_assignable t = true ->
  is_ready (or_dependency_graph o) (te_id t) (or_completed_tasks o) = true -> check_git_available config = true ->
  let o' := (dispatch_one clock uuid t o).1 in dispatched o o' t /\ dispatch_frame [te_id t] o o'.
Proof.
  intros Hi Ht Ha Hready Hgit. unfold dispatch_one, sm_catch. destruct (engine_assign clock t o) as [o1 r] eqn:He.
  destruct (engine_assign_step _ _ _ _ Hi He) as (Hb1 & Hf1 & Hr). destruct r as [a|e].
  2:{ cbn. split; [apply dispatched_kept; by rewrite Hb1|]. apply (frame_trans [] [te_id t] o o1 o1 Hf1). by apply frame_core. }
  destruct Hr as (info & Htook & Hsess).
  pose proof (keeps_dispatch_task same_core a t o1) as Hq.
  destruct (dispatch_task clock uuid a t o1) as [o2 [u|e]]; cbn [fst] in Hq; pose proof Hq as (Hb2 & _ & He2 & _).
  - assert (Hf2 : dispatch_frame [te_id t] o o2)
      by (apply (frame_trans [] [te_id t] o o1 o2 Hf1); by apply frame_core).
    cbv beta iota delta [sm_bind modify sm_ret fst]. set (o3 := board_ok clock _ o2). set (o4 := board_ok clock _ o3).
    assert (Hf3 : dispatch_frame [te_id t] o2 o3) by apply board_ok_frame.
    assert (Hf4 : dispatch_frame [te_id t] o3 o4) by apply board_ok_frame. split.
    + eapply (dispatched_sent _ _ _ (clock (or_reads o3)) (as_worker_id a) info); [done|done| |].
      { destruct Htook as (? & ? & Hw). split_and!; [done|done|]. unfold workers, or_worker_pool in *.
        change (or_engine o4) with (or_engine o2). by rewrite He2. }
      unfold o4, assign_task. rewrite board_ok_entry, decide_True by done. unfold o3, update_task_status.
      rewrite board_ok_entry, decide_True by done. rewrite Hb2, Hb1, Ht, Hsess. by destruct t.
    + eauto using frame_again.
  - assert (Hf2 : dispatch_frame [te_id t] o o2)
      by (apply (frame_trans [] [te_id t] o o1 o2 Hf1); by apply frame_core).
    cbv beta iota delta [sm_bind modify sm_ret fst]. set (o3 := board_ok clock _ o2). assert (Hf3 : dispatch_frame [te_id t] o2 o3) by apply board_ok_frame. split.
    + eapply (dispatched_failed _ _ _ (clock (or_reads o2)) (as_worker_id a) info); [done| |].
      { destruct Htook as (? & ? & Hw). split_and!; [done|done|]. unfold workers, or_worker_pool in *.
        change (or_engine o3) with (or_engine o2). by rewrite He2. }
      unfold o3, unassign_task. rewrite board_ok_entry, decide_True by done. by rewrite Hb2, Hb1, Ht.
    + eauto using frame_again.
Qed.

(** One task of the loop: the state after it, and whether the loop goes on. *)
Definition dispatch_step (t : TaskEntry) (o : State) : State * bool :=
  if negb (is_ready (or_dependency_graph o) (te_id t) (or_completed_tasks o)) then
    (board_ok clock (fun now => set_blocked now (te_id t) (get_unmet_dependencies (or_dependency_graph o) (te_id t))) o, true)
  else if Nat.eqb (available_count None (or_worker_pool o)) 0 then (o, false)
  else match task_has_pending_retry clock (te_id t) o with
  | (o1, Err _) => (o1, false)
  | (o1, Ok true) => (o1, true)
  | (o1, Ok false) =>
      if negb (check_git_available config) then (o1, true)
      else ((dispatch_one clock uuid t o1).1,
            match (dispatch_one clock uuid t o1).2 with Ok b => b | Err _ => false end)
  end.

Lemma dispatch_loop_cons t tasks o :
  (dispatch_loop config clock uuid (t :: tasks) o).1 =
  let '(o1, go_on) := dispatch_step t o in
  if go_on then (dispatch_loop config clock uuid tasks o1).1 else o1.
Proof.
  cbn [dispatch_loop]. unfold dispatch_step, sm_bind, get. destruct (negb (is_ready _ _ _)); [done|].
  destruct (Nat.eqb _ 0); [done|]. destruct (task_has_pending_retry clock (te_id t) o) as [o1 [[]|e]]; [done| |done].
  destruct (negb (check_git_available config)); [done|]. by destruct (dispatch_one clock uuid t o1) as [o2 [[]|e]].
Qed.

Lemma dispatch_step_exact t o : orchestrator_inv o -> get_task (or_task_board o) (te_id t) = Some t ->
  is_assignable t = true ->
  let o' := (dispatch_step t o).1 in dispatched o o' t /\ dispatch_frame [te_id t] o o'.
Proof.
  intros Hi Ht Ha. unfold dispatch_step. destruct (is_ready _ _ _) eqn:Hr; cbn [negb].
  - destruct (Nat.eqb _ 0); [split; [by apply dispatched_kept|by apply frame_core]|].
    pose proof (keeps_pending_retry same_core (te_id t) o) as Hq.
    pose proof (keeps_pending_retry inv_kept (te_id t) o Hi) as Hi1.
    destruct (task_has_pending_retry clock (te_id t) o) as [o1 r]. cbn [fst] in Hq, Hi1.
    assert (Hf1 : dispatch_frame [te_id t] o o1) by by apply frame_core. destruct Hq as (Hb1 & Hg1 & He1 & Hc1).
    assert (Hkept : dispatched o o1 t) by (apply dispatched_kept; by rewrite Hb1).
    destruct r as [[]|e]; [done| |done]. destruct (check_git_available config) eqn:Hgit; [|done]. cbn [negb].
    destruct (dispatch_one_step o1 t Hi1) as [Hd Hf]; [by rewrite Hb1|done|by rewrite Hg1, Hc1|done|].
    split; [by eapply dispatched_earlier|by eapply frame_again].
  - cbn [fst]. unfold set_blocked. split; [|apply board_ok_frame].
    eapply (dispatched_blocked _ _ _ (clock (or_reads o))); [done|]. rewrite board_ok_entry, decide_True by done.
    rewrite Ht. cbn [fmap option_fmap option_map]. unfold is_assignable in Ha.
    destruct t as [id title d st pr asg se dep cr up bl le]; cbn in *. by destruct st.
Qed.

Lemma dispatch_step_inv t o : inv_kept o (dispatch_step t o).1.
Proof.
  unfold dispatch_step. case_match; [apply inv_board; intros now; apply set_blocked_inv|]. case_match; [reflexivity|].
  pose proof (keeps_pending_retry inv_kept (te_id t) o) as Hk.
  destruct (task_has_pending_retry clock (te_id t) o) as [o1 [[]|e]]; cbn [fst] in Hk; [done| |done]. case_match; [done|].
  etrans; [exact Hk|]. apply (keeps_dispatch_one inv_kept t). apply engine_assign_inv.
Qed.

Lemma dispatch_loop_exact tasks o : orchestrator_inv o -> NoDup (te_id <$> tasks) ->
  (forall t, t ∈ tasks -> get_task (or_task_board o) (te_id t) = Some t /\ is_assignable t = true) ->
  let o' := (dispatch_loop config clock uuid tasks o).1 in
  (forall t, t ∈ tasks -> dispatched o o' t) /\ dispatch_frame (te_id <$> tasks) o o'.
Proof.
  revert o. induction tasks as [|t tasks IH]; intros o Hi Hnd Hon.
  { split; [by intros t ?%elem_of_nil|by apply frame_core]. }
  rewrite fmap_cons in Hnd. apply NoDup_cons in Hnd as [Hid Hnd]. destruct (Hon t (list_elem_of_here _ _)) as [Ht Ha].
  destruct (dispatch_step_exact t o Hi Ht Ha) as [Hd Hf]. pose proof (dispatch_step_inv t o Hi) as Hi1.
  cbv zeta. rewrite dispatch_loop_cons. destruct (dispatch_step t o) as [o1 b]. cbn [fst] in Hd, Hf, Hi1.
  assert (Hon1 : forall u, u ∈ tasks -> get_task (or_task_board o1) (te_id u) = Some u /\ is_assignable u = true).
  { intros u Hu. destruct (Hon u (list_elem_of_further _ _ _ Hu)). split; [|done].
    rewrite (df_tasks _ _ _ Hf); [done|]. rewrite list_elem_of_singleton. intros Heq. destruct Hid. rewrite <-Heq.
    apply list_elem_of_fmap. eauto. }
  destruct b.
  - destruct (IH o1 Hi1 Hnd Hon1) as [Hrest Hfrest]. split.
    + intros u [->|Hu]%elem_of_cons; [by eapply dispatched_later|]. eapply dispatched_earlier; [exact Hf|by apply Hrest].
    + exact (frame_trans [te_id t] _ _ _ _ Hf Hfrest).
  - split.
    + intros u [->|Hu]%elem_of_cons; [done|]. apply dispatched_kept. by apply Hon1.
    + destruct Hf as [G C B F T]. split; try done. intros id Hn. apply T. rewrite fmap_cons in Hn. set_solver.
Qed.

Lemma assignable_entries b : board_inv b -> NoDup (te_id <$> get_assignable_tasks b) /\
  forall t, t ∈ get_assignable_tasks b <-> get_task b (te_id t) = Some t /\ is_assignable t = true.
Proof.
  intros Hb. assert (Hin : forall t, t ∈ get_assignable_tasks b <-> get_task b (te_id t) = Some t /\ is_assignable t = true).
  { intros t. unfold get_assignable_tasks, tasks_where. rewrite list_elem_of_In, filter_In, <-list_elem_of_In.
    rewrite iter_map_perm, list_elem_of_fmap. unfold get_task. split; intros [Ht Ha]; (split; [|done]).
    - destruct Ht as ([i t'] & -> & Ht). apply elem_of_map_to_list in Ht. cbn. by rewrite (bi_own b Hb _ _ Ht).
    - exists (te_id t, t). split; [done|]. by apply elem_of_map_to_list. }
  split; [|done]. unfold get_assignable_tasks, tasks_where.
  assert (Hsub : te_id <$> List.filter is_assignable (iter_map (tb_tasks b)).*2 `sublist_of` te_id <$> (iter_map (tb_tasks b)).*2).
  { apply fmap_sublist. generalize ((iter_map (tb_tasks b)).*2). intros l.
    induction l as [|x l IH]; cbn; [done|]. case_match; by constructor. }
  eapply sublist_NoDup; [|exact Hsub]. rewrite <-list_fmap_compose.
  rewrite (list_fmap_ext _ fst); [apply NoDup_iter_map_fst|]. intros k [i t] Hk. cbn. apply (bi_own b Hb).
  apply list_elem_of_lookup_2 in Hk. rewrite iter_map_perm in Hk. by apply elem_of_map_to_list in Hk.
Qed.

(** ** Properties *)

(** C24: in every state that the orchestrator can reach, from a new one, by
    adding tasks and dependencies, running, ticking (with any outcome of the
    ports, any events and any clocks), stopping and shutting down, the task
    board lists every task exactly once and under its own id, the worker pool
    files every worker under its own id and no dead worker has a task, and the
    dependency graph is well formed and has no cycle. *)
Theorem orchestrator_state_wf o : orchestrator_reachable o ->
  board_inv (or_task_board o) /\ pool_inv (or_worker_pool o) /\ graph_wf (or_dependency_graph o).
Proof. intros [Hb Hp Hg]%reachable_orchestrator_inv. done. Qed.



(** the death of an agent returns every task it was ever given to Pending,
    also tasks that have been merged or given to another worker since. *)
Theorem agent_death_reopens_tasks (o : State) agent session reason w a t :
  get_worker_by_session (or_worker_pool o) session = Some w ->
  a ∈ ae_assignment_history (or_engine o) -> as_worker_id a = wi_id w ->
  get_task (or_task_board o) (as_task_id a) = Some t ->
  exists t', get_task (or_task_board (process_event clock (mkEvent (EventKind.AgentDied agent session reason) 0 agent) o))
      (as_task_id a) = Some t' /\
    te_status t' = TaskStatus.Pending /\ te_assignee t' = None /\ te_session_id t' = None /\
    te_blocked_by t' = te_blocked_by t.
Proof.
  intros Hw Ha Hid Ht. unfold process_event. cbn [ev_kind]. rewrite Hw.
  assert (Hin : as_task_id a ∈ affected_tasks (wi_id w) (or_engine o)).
  { unfold affected_tasks. apply list_elem_of_fmap. exists a. split; [done|]. by apply list_elem_of_filter. }
  revert Hin. generalize (affected_tasks (wi_id w) (or_engine o)). set (id := as_task_id a) in *.
  pose (open_ := fun u : TaskEntry => te_status u = TaskStatus.Pending /\ te_assignee u = None /\
    te_session_id u = None /\ te_blocked_by u = te_blocked_by t).
  assert (Hloop : forall ids (o : State), (exists u, get_task (or_task_board o) id = Some u /\
      (open_ u \/ (id ∈ ids /\ te_blocked_by u = te_blocked_by t))) ->
    exists u, get_task (or_task_board (foldl (fun o i => board_ok clock (fun now => unassign_task now i) o) o ids)) id = Some u /\
      open_ u); [|intros ids Hin; apply Hloop; by eauto].
  clear. induction ids as [|i ids IH]; intros o (u & Hu & Hcase); cbn.
  { exists u. destruct Hcase as [?|[?%elem_of_nil _]]; done. }
  apply IH. cbn. unfold unassign_task, update_task, get_task in *.
  destruct (decide (i = id)) as [->|Hne].
  - rewrite Hu. cbn. rewrite lookup_insert_eq. eexists. split; [done|]. left. unfold open_. cbn.
    destruct Hcase as [(_ & _ & _ & ?)|[_ ?]]; done.
  - exists u. split; [|destruct Hcase as [?|[[?|?]%elem_of_cons ?]]; [by left|congruence|by right]].
    destruct (tb_tasks (or_task_board o) !! i) eqn:Hi; cbn; [by rewrite lookup_insert_ne|done].
Qed.

(** pruning the finished tasks does not change which tasks are ready, and
    leaves at most the configured number of them, or only such as other tasks
    depend on. *)
Theorem bounds_keep_readiness (o : State) id : orchestrator_reachable o ->
  let o' := orchestrator_apply_bounds config o in
  or_completed_tasks o' ⊆ or_completed_tasks o /\
  is_ready (or_dependency_graph o') id (or_completed_tasks o') =
    is_ready (or_dependency_graph o) id (or_completed_tasks o) /\
  (size (or_completed_tasks o') <= rt_max_completed_tasks (oc_retention config) \/
   forall x, x ∈ or_completed_tasks o' -> get_dependents (or_dependency_graph o) x <> ∅).
Proof.
  intros [_ _ [Hrep _]]%reachable_orchestrator_inv. unfold orchestrator_apply_bounds.
  set (C := or_completed_tasks o). set (g := or_dependency_graph o). set (max := rt_max_completed_tasks _).
  cbn -[Nat.ltb size list_to_set take List.filter is_ready]. fold C g. destruct (Nat.ltb_spec max (size C)) as [Hlt|Hle]; cbn -[Nat.ltb size list_to_set take List.filter is_ready];
    [|split_and!; [done|done|by left]].
  set (cand := List.filter (fun x => bool_decide (get_dependents g x = ∅)) (iter_set C)).
  assert (Hcand : forall x, x ∈ cand <-> x ∈ C /\ get_dependents g x = ∅).
  { intros x. unfold cand. rewrite list_elem_of_In, filter_In, <-list_elem_of_In, elem_of_iter_set, bool_decide_eq_true. done. }
  split_and!; [set_solver| |].
  - unfold is_ready. apply eq_true_iff_eq. rewrite !forallb_forall. split; intros Hall d Hd; specialize (Hall d Hd);
      apply bool_decide_eq_true in Hall; apply bool_decide_eq_true; [set_solver|].
    apply elem_of_difference. split; [done|]. intros Hin%elem_of_list_to_set%elem_of_take. destruct Hin as (i & Hi & _).
    apply list_elem_of_lookup_2, Hcand in Hi as [_ He]. apply list_elem_of_In, elem_of_iter_set in Hd.
    apply (rep_inverse g Hrep) in Hd. set_solver.
  - destruct (decide (length cand <= size C - max)) as [Hshort|Hlong].
    + right. intros x [Hx Hn]%elem_of_difference He. apply Hn, elem_of_list_to_set. rewrite take_ge by done. by apply Hcand.
    + left. assert (Hnd : NoDup (take (size C - max) cand)).
      { eapply sublist_NoDup; [|apply sublist_take]. unfold cand. apply NoDup_ListNoDup, List.NoDup_filter, NoDup_ListNoDup, NoDup_iter_set. }
      rewrite size_difference.
      * rewrite (size_list_to_set (C := gset TaskId)) by done. rewrite length_take. lia.
      * intros x Hx%elem_of_list_to_set. apply elem_of_take in Hx as (i & Hi & _).
        by apply list_elem_of_lookup_2, Hcand in Hi as [? _].
Qed.

(** The completion of a task that was dispatched, and never started, is ignored. *)
Lemma completion_of_assigned_ignored (o : State) id t e :
  get_task (or_task_board o) id = Some t -> te_status t = TaskStatus.Assigned ->
  ev_kind e = EventKind.TaskCompleted id -> process_event clock e o = o.
Proof. intros Ht Hs He. unfold process_event. by rewrite He, Ht, Hs. Qed.

(** ** Retention *)

Section retention.
Context `{!EventStreamLaws}.

(** Events that have not been processed are kept. *)
Definition unprocessed (last : option EventId) (x : Event * EventId) : Prop :=
  match last with Some l => (l < x.2)%Z | None => True end.

Definition held_kept (o o' : State) : Prop :=
  or_last_processed_event o' = or_last_processed_event o /\
  forall x, unprocessed (or_last_processed_event o) x -> x ∈ es_held (or_event_store o) -> x ∈ es_held (or_event_store o').

#[local] Instance held_kept_order : PreOrder held_kept.
Proof.
  split; [by intros o|]. intros o1 o2 o3 [L1 H1'] [L2 H2']. split; [congruence|]. intros x Hx Hin.
  apply H2'; [by rewrite L1|]. by apply H1'.
Qed.

Lemma held_events {A} (op : SM es_state PortError A) :
  (forall s, es_held (op s).1 = es_held s) -> keeps held_kept (on_events op).
Proof.
  intros Hop o. unfold on_events. specialize (Hop (or_event_store o)). destruct (op (or_event_store o)) as [s r].
  split; [done|]. cbn in *. rewrite Hop. done.
Qed.

Lemma held_sweep_events max : keeps held_kept (sweep_events max).
Proof.
  unfold sweep_events. apply keeps_catch; [typeclasses eauto|apply held_events, es_high_water_held| |].
  - intros high. case_match; [|keeps_walk]. intros o. unfold sm_bind, get.
    set (last := or_last_processed_event o). set (before := Z.min _ _). destruct (Z.ltb_spec 1 before); [|reflexivity].
    assert (Hstep : held_kept o (on_events (es_retain_events before) o).1).
    { unfold on_events. pose proof (es_retain_held before (or_event_store o)) as Hret.
      destruct (es_retain_events before (or_event_store o)) as [s r]. split; [done|]. intros x Hx Hin. apply Hret; [done|].
      unfold unprocessed in Hx. fold last in Hx. unfold before, sat_add, sat_sub in *. destruct last; lia. }
    unfold sm_catch. by destruct (on_events (es_retain_events before) o) as [o' [n|e]].
  - intros e. keeps_walk.
Qed.

Lemma held_sweep_keys ttl : keeps held_kept (sweep_keys ttl).
Proof. unfold sweep_keys. apply keeps_catch; [typeclasses eauto|apply held_events, es_expire_held|..]; intros ?; keeps_walk. Qed.

(** a retention sweep never removes an event that has not been processed, whatever the
    configured number of events, the high-water mark and the errors of the
    store; before the first event has been processed it removes none. *)
Theorem sweep_keeps_unprocessed (o : State) x :
  x ∈ es_held (or_event_store o) -> unprocessed (or_last_processed_event o) x ->
  x ∈ es_held (or_event_store (sweep_retention config instants o).1).
Proof.
  assert (Hk : keeps held_kept (sweep_retention config instants)).
  { assert (Hget : forall A (f : State -> A), keeps held_kept (get f)) by (intros A f o'; reflexivity).
    assert (Hread : keeps held_kept (read instants)) by (by intros o').
    assert (Hmod : forall t, keeps held_kept (modify (fun o' : State => o' <| or_last_retention_sweep := Some t |>)))
      by (by intros t o').
    pose proof held_sweep_events. pose proof held_sweep_keys. unfold sweep_retention. keeps_walk. }
  intros Hin Hx. by apply (Hk o).
Qed.
End retention.
End handlers.

(** ** Witnesses *)

Module Sample.
#[local] Instance order : IterOrder string := canonical_order string.
#[local] Instance fmt : Fmt := {| debug_str := fun s => s; display_time := fun t => pretty t |}.

(** Sessions are numbered; every prompt is accepted. *)
#[local] Instance gateway : AgentGateway := {|
  gw_state := nat;
  gw_spawn := fun _ n => (S n, Ok ("session-" +:+ fmt_index n));
  gw_kill_session := fun _ n => (n, Ok tt)
|}.
#[local] Instance sessions : AgentSessions := {|
  gw_send_prompt := fun _ _ n => (n, Ok tt);
  gw_health_check := fun _ n => (n, Ok HealthStatus.Healthy)
|}.

(** A log in memory; the id of an event is its position, from 1. *)
#[local] Instance store : EventStore := {|
  es_state := list (Event * EventId);
  es_append := fun e l => (l ++ [(e, Z.of_nat (S (length l)))], Ok (Z.of_nat (S (length l))));
  es_append_and_enqueue := fun e _ _ _ l => (l ++ [(e, Z.of_nat (S (length l)))], Ok (Z.of_nat (S (length l))));
  es_claim_next := fun _ _ _ l => (l, Ok None);
  es_ack_claim := fun _ l => (l, Ok tt);
  es_renew_claim := fun _ _ l => (l, Ok tt)
|}.
#[local] Instance stream : EventStream := {|
  es_stream := fun since n l =>
    (l, Ok (take n (List.filter (fun x => (default 0 since <? x.2)%Z) l)));
  es_high_water_mark := fun l => (l, Ok (Z.of_nat (length l)));
  es_retain_events := fun before l =>
    (List.filter (fun x => (before <=? x.2)%Z) l, Ok (length (List.filter (fun x => negb (before <=? x.2)%Z) l)));
  es_expire_idempotency_keys := fun _ l => (l, Ok 0)
|}.
#[local] Instance stream_laws : EventStreamLaws.
Proof.
  refine {| es_held := fun l : @es_state store => l |}; try done.
  - intros e s x Hx. apply elem_of_app. by left.
  - intros before s x Hx Hb. apply list_elem_of_In, filter_In. rewrite <-list_elem_of_In. split; [done|]. by apply Z.leb_le.
Defined.
#[local] Existing Instance map_store.

Definition config : OrchestratorConfig := mkOrchestratorConfig
  sample_config false true
  (mkRetentionConfig (Some 1%Z) None 0 10 10 60) RetryPolicyConfig_default
  (mkContinuationPolicyConfig true 3 60)%Z.
Definition clock (n : nat) : DateTime := Z.of_nat n.
Definition uuid (n : nat) : string := "prompt-" +:+ fmt_index n.

Abbreviation State := (Orchestrator (St := Runs)).

(** Task B depends on task A; two workers are started. *)
Definition started : State :=
  (run config clock clock uuid [] (orchestrator_add_task clock "B" "b" "" ["A"]
    (orchestrator_add_task clock "A" "a" "" [] (orchestrator_new config 0 [])))).1.

(** The first tick sends A and blocks B; then A is merged. *)
Definition first : State := tick_state config clock clock uuid started.
Definition merged : State := first <| or_gateway := or_gateway first |>
  <| or_event_store := [(mkEvent (EventKind.MergeCommitted "A") 9 "A", 1%Z)] |> <| or_run_store := or_run_store first |>.

Lemma started_reachable : orchestrator_reachable config clock clock uuid started.
Proof. unfold started. apply orch_run, orch_add_task, orch_add_task, orch_new. Defined.

Lemma merged_reachable : orchestrator_reachable config clock clock uuid merged.
Proof.
  assert (Hfirst : orchestrator_reachable config clock clock uuid first)
    by exact (orch_tick config clock clock uuid started started_reachable).
  unfold merged. generalize dependent first. intros o Ho. by apply orch_environment.
Defined.

Lemma orchestrator_state_wf_witness :
  map_size (tb_tasks (or_task_board merged)) = 2 /\ acyclic (or_dependency_graph merged).
Proof.
  split; [vm_compute; reflexivity|].
  exact (wf_acyclic _ (proj2 (proj2 (orchestrator_state_wf config clock clock uuid merged merged_reachable)))).
Defined.



(** The worker that had A dies after A has been merged. *)
Lemma agent_death_reopens_tasks_witness :
  let o := tick_state config clock clock uuid merged in
  let o' := process_event clock (mkEvent (EventKind.AgentDied "claude" "session-1" "killed") 0 "claude") o in
  te_status <$> get_task (or_task_board o) "A" = Some TaskStatus.Merged /\
  exists t', get_task (or_task_board o') "A" = Some t' /\ te_status t' = TaskStatus.Pending.
Proof.
  split; [vm_compute; reflexivity|]. cbv zeta. set (o := tick_state config clock clock uuid merged).
  destruct (ae_assignment_history (or_engine o)) as [|a l] eqn:Ha; [vm_compute in Ha; discriminate|].
  assert (Haid : as_task_id a = "A" /\ as_worker_id a = "claude-1") by (vm_compute in Ha; injection Ha as <- _; auto).
  destruct (get_worker_by_session (or_worker_pool o) "session-1") as [w|] eqn:Hw; [|vm_compute in Hw; discriminate].
  assert (Hwid : wi_id w = "claude-1") by (vm_compute in Hw; injection Hw as <-; reflexivity).
  destruct (get_task (or_task_board o) "A") as [t|] eqn:Ht; [|vm_compute in Ht; discriminate].
  destruct Haid as [Hid Hwa].
  destruct (agent_death_reopens_tasks clock o "claude" "session-1" "killed" w a t Hw) as (t' & Ht' & Hs & _).
  - rewrite Ha. left.
  - congruence.
  - by rewrite Hid.
  - rewrite Hid in Ht'. exists t'. split; [exact Ht'|exact Hs].
Defined.

(** The bound on finished tasks is 0, A is finished and B depends on it. *)
Lemma bounds_keep_readiness_witness :
  let o := tick_state config clock clock uuid merged in
  or_completed_tasks (orchestrator_apply_bounds config o) = {["A"]} /\
  is_ready (or_dependency_graph (orchestrator_apply_bounds config o)) "B"
    (or_completed_tasks (orchestrator_apply_bounds config o)) =
  is_ready (or_dependency_graph o) "B" (or_completed_tasks o).
Proof.
  split; [apply (bool_decide_unpack _); vm_compute; reflexivity|].
  exact (proj1 (proj2 (bounds_keep_readiness config clock clock uuid (tick_state config clock clock uuid merged) "B"
    (orch_tick config clock clock uuid merged merged_reachable)))).
Defined.

(** Two events, one processed: with room for one event the first is archived. *)
Definition one_processed : State := merged <| or_last_processed_event := Some 1%Z |> <| or_last_retention_sweep := None |>
  <| or_event_store := [(mkEvent (EventKind.MergeCommitted "A") 9 "A", 1%Z);
                        (mkEvent (EventKind.MergeCommitted "B") 9 "B", 2%Z)] |>.

Lemma sweep_keeps_unprocessed_witness :
  let o' := (sweep_retention config clock one_processed).1 in
  snd <$> (or_event_store o' : list (Event * EventId)) = [2%Z] /\
  (mkEvent (EventKind.MergeCommitted "B") 9 "B", 2%Z) ∈ es_held (or_event_store o').
Proof.
  split; [vm_compute; reflexivity|]. apply (sweep_keeps_unprocessed config clock one_processed).
  - right. left.
  - reflexivity.
Defined.
End Sample.
