(* ===== verification/Feedback.v ===== *)
(** * Feedback triggers (brehon-types/src/feedback.rs and
    brehon-supervisor/src/feedback/trigger.rs)

    The domain types of supervisor feedback, and the detector that derives
    triggers from events and snapshots and drops those it has already seen.  A
    call of the detector reads the clock for triggers that have no time of
    their own; those readings are one argument.  Proved here: what the detector
    returns, in terms of the triggers it derives and the keys it knows. *)

From S2P Require Import Prelude StrLib Chars Types Events.

(** ** Structured payloads ([serde_json::Value])

    An object lists its fields; all objects of the source have distinct keys. *)

#[local] Set Warnings "-register-all".

Inductive JsonValue :=
| JNull
| JBool (b : bool)
| JNumber (n : Z)
| JString (s : string)
| JArray (l : list JsonValue)
| JObject (fields : list (string * JsonValue)).

Definition json_opt (s : option string) : JsonValue :=
  match s with Some s => JString s | None => JNull end.

(** [value.get(key)] and [value.as_str()] *)
Fixpoint field_of (key : string) (fields : list (string * JsonValue)) : option JsonValue :=
  match fields with
  | [] => None
  | (k, v) :: fields => if String.eqb k key then Some v else field_of key fields
  end.

Definition json_get (key : string) (v : JsonValue) : option JsonValue :=
  match v with JObject fields => field_of key fields | _ => None end.

Definition json_as_str (v : JsonValue) : option string :=
  match v with JString s => Some s | _ => None end.

(** ** Kinds and triggers *)

Definition trigger_kind_str (k : FeedbackTriggerKind) : string :=
  match k with
  | FeedbackTriggerKind.ReviewerFollowup => "reviewer_followup"
  | FeedbackTriggerKind.ReviewChangesRequested => "review_changes_requested"
  | FeedbackTriggerKind.WorkerFailed => "worker_failed"
  | FeedbackTriggerKind.WorkerStuck => "worker_stuck"
  | FeedbackTriggerKind.WorkerBlocked => "worker_blocked"
  | FeedbackTriggerKind.PermissionBlocked => "permission_blocked"
  | FeedbackTriggerKind.IntegrationConflict => "integration_conflict"
  | FeedbackTriggerKind.CloseGateBlocked => "close_gate_blocked"
  | FeedbackTriggerKind.StaleClaim => "stale_claim"
  end.

Record FeedbackTrigger := mkFeedbackTrigger {
  tr_trigger_id : FeedbackTriggerId;
  tr_kind : FeedbackTriggerKind;
  tr_task_id : option TaskId;
  tr_run_id : option RunId;
  tr_review_id : option ReviewId;
  tr_source_event_ids : list EventId;
  tr_covered_event_range : option (EventId * EventId);
  tr_summary : string;
  tr_payload : JsonValue;
  tr_created_at : DateTime
}.

(** [.map(str::trim).filter(|value| !value.is_empty())] *)
Definition non_blank (s : option string) : option string :=
  s ≫= fun s => if String.eqb (trim s) "" then None else Some (trim s).

Definition followup_scope (payload : JsonValue) : option string :=
  non_blank (json_get "followup_id" payload ≫= json_as_str).

(** [FeedbackTrigger::dedup_payload_scope] and [FeedbackTrigger::dedup_key] *)
Definition dedup_payload_scope (t : FeedbackTrigger) : option string :=
  match tr_kind t with
  | FeedbackTriggerKind.ReviewerFollowup =>
      (fun value => "followup:" +:+ value) <$> followup_scope (tr_payload t)
  | _ => None
  end.

Definition dedup_key (t : FeedbackTrigger) : string :=
  trigger_kind_str (tr_kind t) +:+ "|" +:+ default "-" (tr_task_id t) +:+ "|"
    +:+ default "-" (tr_run_id t) +:+ "|" +:+ default "-" (tr_review_id t) +:+ "|"
    +:+ default "-" (dedup_payload_scope t).

(** ** The detector *)

Record TriggerDetectorPolicy := mkTriggerDetectorPolicy {
  tp_stuck_on_nudge_timeout : bool;
  tp_failure_on_retry_exhausted : bool
}.

Definition TriggerDetectorPolicy_default : TriggerDetectorPolicy := mkTriggerDetectorPolicy true true.

Record ReviewerFollowupSnapshot := mkReviewerFollowupSnapshot {
  fs_followup_id : string;
  fs_task_id : string;
  fs_review_id : option string;
  fs_severity : string;
  fs_summary : string
}.

Record RunActivitySnapshot := mkRunActivitySnapshot {
  as_run_id : option RunId;
  as_task_id : option TaskId;
  as_session_id : option string;
  as_stale_since : option DateTime;
  as_stale_reason : string
}.

Record PermissionSnapshot := mkPermissionSnapshot {
  pm_permission_id : string;
  pm_session_id : string;
  pm_task_id : option TaskId;
  pm_status : string;
  pm_action : string
}.

Record NudgeSnapshot := mkNudgeSnapshot {
  ns_session_id : string;
  ns_task_id : option TaskId;
  ns_run_id : option RunId;
  ns_nudge_kind : string;
  ns_elapsed_secs : Z
}.

Record FeedbackTriggerDetectorInput := mkDetectorInput {
  di_events : list (EventId * Event);
  di_open_followups : list ReviewerFollowupSnapshot;
  di_stuck_runs : list RunActivitySnapshot;
  di_pending_permissions : list PermissionSnapshot;
  di_timed_out_nudges : list NudgeSnapshot;
  di_known_dedup_keys : gset string;
  di_policy : TriggerDetectorPolicy
}.

Definition sanitize_id_component (value : string) : string :=
  of_chars ((fun ch =>
    if is_ascii_alphanumeric ch || String.eqb ch "-" || String.eqb ch "_" then ch else "_")
    <$> chars value).

Definition derive_trigger_id (kind : FeedbackTriggerKind) (task_id : option TaskId)
    (run_id : option RunId) (review_id : option ReviewId) (payload : JsonValue) : FeedbackTriggerId :=
  let scope := match kind with
               | FeedbackTriggerKind.ReviewerFollowup => default "-" (followup_scope payload)
               | _ => "-"
               end in
  "fb-" +:+ trigger_kind_str kind +:+ "-" +:+ default "-" task_id +:+ "-" +:+ default "-" run_id
    +:+ "-" +:+ default "-" review_id +:+ "-" +:+ sanitize_id_component scope.

Definition make_trigger (kind : FeedbackTriggerKind) (task_id : option TaskId) (run_id : option RunId)
    (review_id : option ReviewId) (source_event_ids : list EventId)
    (covered : option (EventId * EventId)) (created_at : DateTime) (summary : string)
    (payload : JsonValue) : FeedbackTrigger :=
  mkFeedbackTrigger (derive_trigger_id kind task_id run_id review_id payload) kind task_id run_id
    review_id source_event_ids covered summary payload created_at.

Definition covered_range (events : list (EventId * Event)) : option (EventId * EventId) :=
  match head events, last events with
  | Some (first, _), Some (last, _) =>
      Some (if (first <=? last)%Z then (first, last) else (last, first))
  | _, _ => None
  end.

Definition task_id_from_aggregate (aggregate_id : string) : option TaskId :=
  let trimmed := trim aggregate_id in
  if String.eqb trimmed "" then None else Some trimmed.

Definition compact (text : string) (max_chars : nat) : string :=
  let trimmed := trim text in
  if (char_count trimmed <=? max_chars)%nat then trimmed
  else of_chars (take (max_chars - 1) (chars trimmed)) +:+ ELLIPSIS.

(** The match of [detect_triggers] on one event. *)
Definition event_trigger (policy : TriggerDetectorPolicy) (covered : option (EventId * EventId))
    (entry : EventId * Event) : option FeedbackTrigger :=
  let '(event_id, event) := entry in
  match ev_kind event with
  | EventKind.ReviewChangesRequested review_id =>
      Some (make_trigger FeedbackTriggerKind.ReviewChangesRequested None None (Some review_id)
        [event_id] covered (ev_timestamp event)
        ("Review " +:+ review_id +:+ " consolidated as changes_requested.")
        (JObject [("review_id", JString review_id)]))
  | EventKind.ReviewRejected review_id =>
      Some (make_trigger FeedbackTriggerKind.ReviewChangesRequested None None (Some review_id)
        [event_id] covered (ev_timestamp event)
        ("Review " +:+ review_id +:+ " consolidated as rejected.")
        (JObject [("review_id", JString review_id)]))
  | EventKind.RunFailed run_id task_id _ generation reason failed_at =>
      Some (make_trigger FeedbackTriggerKind.WorkerFailed (Some task_id) (Some run_id) None
        [event_id] covered failed_at
        ("Run " +:+ run_id +:+ " failed: " +:+ reason)
        (JObject [("generation", JNumber generation); ("reason", JString reason)]))
  | EventKind.RunAbandoned run_id task_id _ _ reason abandoned_at =>
      if tp_failure_on_retry_exhausted policy then
        Some (make_trigger FeedbackTriggerKind.WorkerFailed (Some task_id) (Some run_id) None
          [event_id] covered abandoned_at
          ("Run " +:+ run_id +:+ " abandoned: " +:+ reason)
          (JObject [("reason", JString reason)]))
      else None
  | EventKind.StaleRunMutationRejected run_id task_id _ attempted current mutation =>
      Some (make_trigger FeedbackTriggerKind.StaleClaim (Some task_id) (Some run_id) None
        [event_id] covered (ev_timestamp event)
        ("Stale run mutation '" +:+ mutation +:+ "' rejected for run " +:+ run_id +:+ ": attempt gen "
          +:+ pretty attempted +:+ " vs current gen " +:+ pretty current +:+ ".")
        (JObject [("mutation", JString mutation); ("attempted_generation", JNumber attempted);
                  ("current_generation", JNumber current)]))
  | EventKind.ProofBlockerRecorded _ task_id blocker _ =>
      match pb_status blocker with
      | ProofBlockerStatus.Open =>
          Some (make_trigger FeedbackTriggerKind.WorkerBlocked (Some task_id) None None
            [event_id] covered (ev_timestamp event)
            ("Open proof blocker on task " +:+ task_id +:+ ": " +:+ compact (pb_summary blocker) 200)
            (JObject [("blocker_id", json_opt (pb_blocker_id blocker));
                      ("source", json_opt (pb_source blocker))]))
      | _ => None
      end
  | EventKind.ProofIntegrationRecorded _ task_id integration _ =>
      if negb (bool_decide (pi_conflicts integration = []))
         || String.eqb (pi_status integration) "aborted"
         || String.eqb (pi_status integration) "conflict"
      then
        Some (make_trigger FeedbackTriggerKind.IntegrationConflict (Some task_id) None None
          [event_id] covered (ev_timestamp event)
          ("Integration on task " +:+ task_id +:+ " recorded status '" +:+ pi_status integration
            +:+ "' with " +:+ pretty (Z.of_nat (length (pi_conflicts integration)))
            +:+ " conflict file(s).")
          (JObject [("status", JString (pi_status integration));
                    ("conflicts", JArray (JString <$> pi_conflicts integration));
                    ("branch", json_opt (pi_branch integration));
                    ("base_branch", json_opt (pi_base_branch integration))]))
      else None
  | EventKind.EscalationTriggered reason context =>
      Some (make_trigger FeedbackTriggerKind.CloseGateBlocked
        (task_id_from_aggregate (ev_aggregate_id event)) None None
        [event_id] covered (ev_timestamp event)
        ("Escalation triggered: " +:+ compact reason 80 +:+ " — " +:+ compact context 120)
        (JObject [("reason", JString reason)]))
  | _ => None
  end.

Section detector.
(** [DateTime::to_rfc3339] *)
Context (to_rfc3339 : DateTime -> string) (now : DateTime).

Definition followup_trigger (covered : option (EventId * EventId)) (followup : ReviewerFollowupSnapshot)
    : FeedbackTrigger :=
  make_trigger FeedbackTriggerKind.ReviewerFollowup (Some (fs_task_id followup)) None
    (fs_review_id followup) [] covered now
    ("Open reviewer follow-up " +:+ fs_followup_id followup +:+ " on task " +:+ fs_task_id followup
      +:+ ": " +:+ compact (fs_summary followup) 160)
    (JObject [("followup_id", JString (fs_followup_id followup));
              ("severity", JString (fs_severity followup))]).

Definition stuck_trigger (covered : option (EventId * EventId)) (stuck : RunActivitySnapshot)
    : FeedbackTrigger :=
  make_trigger FeedbackTriggerKind.WorkerStuck (as_task_id stuck) (as_run_id stuck) None [] covered
    (default now (as_stale_since stuck))
    ("Run " +:+ default "(unknown)" (as_run_id stuck) +:+ " on task "
      +:+ default "(unknown)" (as_task_id stuck) +:+ " appears stuck: "
      +:+ compact (as_stale_reason stuck) 120)
    (JObject (option_list ((fun s => ("session_id", JString s)) <$> as_session_id stuck)
      ++ option_list ((fun t => ("stale_since", JString (to_rfc3339 t))) <$> as_stale_since stuck))).

Definition nudge_trigger (covered : option (EventId * EventId)) (nudge : NudgeSnapshot) : FeedbackTrigger :=
  make_trigger FeedbackTriggerKind.WorkerStuck (ns_task_id nudge) (ns_run_id nudge) None [] covered now
    ("Nudge '" +:+ ns_nudge_kind nudge +:+ "' timed out after " +:+ pretty (ns_elapsed_secs nudge)
      +:+ "s on session " +:+ ns_session_id nudge +:+ ".")
    (JObject [("session_id", JString (ns_session_id nudge));
              ("nudge_kind", JString (ns_nudge_kind nudge));
              ("elapsed_secs", JNumber (ns_elapsed_secs nudge))]).

Definition permission_trigger (covered : option (EventId * EventId)) (permission : PermissionSnapshot)
    : FeedbackTrigger :=
  make_trigger FeedbackTriggerKind.PermissionBlocked (pm_task_id permission) None None [] covered now
    ("Permission '" +:+ pm_permission_id permission +:+ "' status " +:+ pm_status permission
      +:+ " on session " +:+ pm_session_id permission +:+ " for action "
      +:+ compact (pm_action permission) 80 +:+ ".")
    (JObject [("permission_id", JString (pm_permission_id permission));
              ("status", JString (pm_status permission));
              ("session_id", JString (pm_session_id permission))]).

(** The triggers derived before deduplication, in order. *)
Definition derived_triggers (input : FeedbackTriggerDetectorInput) : list FeedbackTrigger :=
  let covered := covered_range (di_events input) in
  omap (event_trigger (di_policy input) covered) (di_events input)
  ++ (followup_trigger covered <$> di_open_followups input)
  ++ (stuck_trigger covered <$> di_stuck_runs input)
  ++ (if tp_stuck_on_nudge_timeout (di_policy input)
      then nudge_trigger covered <$> di_timed_out_nudges input else [])
  ++ (permission_trigger covered <$> di_pending_permissions input).

(** The loop of [dedup_triggers]; the map of summaries it also fills is never
    read. *)
Fixpoint dedup_loop (known seen : gset string) (triggers : list FeedbackTrigger) : list FeedbackTrigger :=
  match triggers with
  | [] => []
  | trigger :: triggers =>
      let key := dedup_key trigger in
      if decide (key ∈ known) then dedup_loop known seen triggers
      else if decide (key ∈ seen) then dedup_loop known seen triggers
      else trigger :: dedup_loop known (seen ∪ {[key]}) triggers
  end.

Definition dedup_triggers (triggers : list FeedbackTrigger) (known : gset string) : list FeedbackTrigger :=
  dedup_loop known ∅ triggers.

Definition detect_triggers (input : FeedbackTriggerDetectorInput) : list FeedbackTrigger :=
  dedup_triggers (derived_triggers input) (di_known_dedup_keys input).
End detector.

(** ** Deduplication *)

Lemma dedup_loop_sublist known seen l : sublist (dedup_loop known seen l) l.
Proof.
  revert seen. induction l as [|t l IH]; intros seen; cbn; [done|].
  repeat case_decide; [by apply sublist_cons..|by apply sublist_skip].
Qed.

Lemma elem_of_dedup_loop known seen l t :
  t ∈ dedup_loop known seen l <-> exists before after, l = before ++ t :: after
    /\ (dedup_key t ∉ known) /\ (dedup_key t ∉ seen) /\ (dedup_key t ∉ (dedup_key <$> before)).
Proof.
  revert seen. induction l as [|u l IH]; intros seen; cbn [dedup_loop].
  { split; [by intros ?%elem_of_nil|]. intros (before & after & ? & _). by destruct before. }
  assert (Hskip : dedup_key u ∈ known \/ dedup_key u ∈ seen ->
    t ∈ dedup_loop known seen l <-> exists before after, u :: l = before ++ t :: after
      /\ (dedup_key t ∉ known) /\ (dedup_key t ∉ seen) /\ (dedup_key t ∉ (dedup_key <$> before))).
  { intros Hu. rewrite IH. split.
    - intros (before & after & -> & Hk & Hs & Hb). exists (u :: before), after.
      split_and!; [done..|]. cbn. intros [Heq|?]%elem_of_cons; [|done]. rewrite Heq in *. naive_solver.
    - intros ([|v before] & after & [= -> ->] & Hk & Hs & Hb); [naive_solver|].
      exists before, after. split_and!; [done..|]. cbn in Hb. set_solver. }
  case_decide as Hk; [by apply Hskip; left|]. case_decide as Hs; [by apply Hskip; right|].
  rewrite elem_of_cons, IH. split.
  - intros [->|(before & after & -> & ? & ? & ?)].
    + exists [], l. split_and!; [done..|]. apply not_elem_of_nil.
    + exists (u :: before), after. cbn. set_solver.
  - intros ([|v before] & after & [= -> ->] & ? & ? & Hb); [by left|]. right.
    exists before, after. cbn in Hb. set_solver.
Qed.

Lemma NoDup_dedup_loop known seen l : NoDup (dedup_key <$> dedup_loop known seen l).
Proof.
  revert seen. induction l as [|t l IH]; intros seen; cbn; [constructor|].
  repeat case_decide; [done..|]. cbn. constructor; [|done].
  rewrite list_elem_of_fmap. intros (u & Hu & (? & ? & _ & _ & Hs & _)%elem_of_dedup_loop). set_solver.
Qed.

Lemma dedup_loop_nil known seen l : (forall t, t ∈ l -> dedup_key t ∈ known) -> dedup_loop known seen l = [].
Proof.
  induction l as [|t l IH]; intros Hl; cbn; [done|].
  rewrite decide_True by (apply Hl; constructor). apply IH. intros u Hu. apply Hl. by constructor.
Qed.

(** The key of every trigger is known or that of a trigger that is kept. *)
Lemma dedup_covers known l t :
  t ∈ l -> dedup_key t ∈ known \/ dedup_key t ∈ (dedup_key <$> dedup_triggers l known).
Proof.
  intros Ht. destruct (decide (dedup_key t ∈ known)) as [|Hk]; [by left|right].
  destruct (list_find (fun u => dedup_key u = dedup_key t) l) as [[i u]|] eqn:E.
  - apply list_find_Some in E as (Hi & Hu & Hmin). rewrite <-Hu. apply list_elem_of_fmap_2.
    apply elem_of_dedup_loop. exists (take i l), (drop (S i) l).
    split_and!; [by rewrite take_drop_middle|by rewrite Hu|set_solver|].
    rewrite list_elem_of_fmap. intros (v & Hv & (j & Hj & Hlt)%elem_of_take).
    apply (Hmin j v); [done|done|congruence].
  - apply list_find_None in E. rewrite Forall_forall in E. by apply E in Ht.
Qed.

(** the detector keeps the first trigger of every key it does not know: its
    output is a part of the derived triggers in their order, no key occurs
    twice, a trigger is in it exactly when its key is not known and no trigger
    before it has that key, and a second pass over the same input that knows the
    keys of the first returns nothing. *)
Theorem detect_triggers_exact to_rfc3339 now input :
  let derived := derived_triggers to_rfc3339 now input in
  let out := detect_triggers to_rfc3339 now input in
  sublist out derived /\ NoDup (dedup_key <$> out)
  /\ (forall t, t ∈ out <-> exists before after, derived = before ++ t :: after
       /\ (dedup_key t ∉ di_known_dedup_keys input) /\ (dedup_key t ∉ (dedup_key <$> before)))
  /\ dedup_triggers derived (di_known_dedup_keys input ∪ list_to_set (dedup_key <$> out)) = [].
Proof.
  cbn zeta. unfold detect_triggers. split_and!; [apply dedup_loop_sublist|apply NoDup_dedup_loop|..].
  - intros t. unfold dedup_triggers. rewrite elem_of_dedup_loop.
    split; intros (before & after & ?); exists before, after; set_solver.
  - apply dedup_loop_nil. intros t Ht. rewrite elem_of_union, elem_of_list_to_set. by apply dedup_covers.
Qed.
