(* ===== verification/FeedbackLoop.v ===== *)
(** * The feedback loop (brief.rs, outcome.rs, apply.rs, worker_failure.rs and
    integration_conflict.rs of brehon-supervisor/src/feedback, proof.rs and
    feedback.rs of brehon-types)

    A brief of bounded size is built for a trigger, the supervisor's outcome is
    validated against the brief and the policy, and a validated outcome is
    turned into a plan.  Proved here: the size of a brief and what its sections
    hold, which outcomes are accepted, and which plan follows. *)

From S2P Require Import Prelude StrLib Chars Types Events Feedback.

(** ** Proof summaries (proof.rs) *)

Record ProofSummary := mkProofSummary {
  ps_proof_bundle_id : option string;
  ps_status : string;
  ps_command_count : Z;
  ps_test_count : Z;
  ps_failed_tests : Z;
  ps_check_count : Z;
  ps_commits : list string;
  ps_diff_summary : option string;
  ps_reviews : list string;
  ps_review_verdicts : list string;
  ps_review_findings : list string;
  ps_followups : list string;
  ps_integration_status : option string;
  ps_integration_branch : option string;
  ps_integration_base : option string;
  ps_integration_commit : option string;
  ps_integration_conflicts : list string;
  ps_open_blockers : list string;
  ps_missing : list string;
  ps_absent : bool;
  ps_updated_at : option string
}.

(** [if !list.is_empty() { out.push_str(&f(list.join(sep))) }] *)
Definition push_list (prefix sep suffix : string) (l : list string) : string :=
  match l with [] => "" | _ => prefix +:+ join sep l +:+ suffix end.

(** [if let Some(value) = opt { out.push_str(...) }] *)
Definition push_opt (prefix suffix : string) (o : option string) : string :=
  match o with Some v => prefix +:+ v +:+ suffix | None => "" end.

(** [ProofSummary::render_text] *)
Definition render_text (self : ProofSummary) : string :=
  if ps_absent self then "Proof bundle: none recorded."
  else
    match ps_proof_bundle_id self with
    | Some id => "Proof bundle " +:+ id +:+ " (" +:+ ps_status self +:+ "):" +:+ NL
    | None => "Proof bundle (" +:+ ps_status self +:+ "):" +:+ NL
    end
    +:+ "- commands: " +:+ pretty (ps_command_count self) +:+ ", tests: " +:+ pretty (ps_test_count self)
    +:+ " (" +:+ pretty (ps_failed_tests self) +:+ " failed), checks: " +:+ pretty (ps_check_count self) +:+ NL
    +:+ push_list "- commits: " ", " NL (ps_commits self)
    +:+ push_opt "- diff: " NL (ps_diff_summary self)
    +:+ match ps_reviews self with
        | [] => ""
        | reviews => "- reviews: " +:+ join ", " reviews +:+ " (verdicts: "
            +:+ match ps_review_verdicts self with [] => "none" | verdicts => join ", " verdicts end
            +:+ ")" +:+ NL
        end
    +:+ match ps_integration_status self with
        | Some status =>
            "- integration: " +:+ status +:+ push_opt " branch=" "" (ps_integration_branch self)
            +:+ push_opt " base=" "" (ps_integration_base self)
            +:+ push_opt " commit=" "" (ps_integration_commit self) +:+ NL
            +:+ push_list "  conflicts: " ", " NL (ps_integration_conflicts self)
        | None => ""
        end
    +:+ push_list "- open blockers: " "; " NL (ps_open_blockers self)
    +:+ push_list "- review findings: " "; " NL (ps_review_findings self)
    +:+ push_list "- followups: " "; " NL (ps_followups self)
    +:+ push_list "- missing or incomplete: " "; " NL (ps_missing self).

(** ** Outcomes and policy (feedback.rs) *)

Definition outcome_kind_str (k : FeedbackOutcomeKind) : string :=
  match k with
  | FeedbackOutcomeKind.NoAction => "no_action"
  | FeedbackOutcomeKind.NudgeWorker => "nudge_worker"
  | FeedbackOutcomeKind.RequestRework => "request_rework"
  | FeedbackOutcomeKind.RetryRun => "retry_run"
  | FeedbackOutcomeKind.PromoteReviewerFollowup => "promote_reviewer_followup"
  | FeedbackOutcomeKind.WaiveReviewerFollowup => "waive_reviewer_followup"
  | FeedbackOutcomeKind.RequestOperatorClarification => "request_operator_clarification"
  | FeedbackOutcomeKind.QueueConflictResolution => "queue_conflict_resolution"
  | FeedbackOutcomeKind.RequestIntegrationRepair => "request_integration_repair"
  | FeedbackOutcomeKind.EnterDrain => "enter_drain"
  | FeedbackOutcomeKind.EnterSafeMode => "enter_safe_mode"
  | FeedbackOutcomeKind.Escalate => "escalate"
  end.

Definition is_mutating (k : FeedbackOutcomeKind) : bool :=
  match k with
  | FeedbackOutcomeKind.RequestRework | FeedbackOutcomeKind.RetryRun
  | FeedbackOutcomeKind.PromoteReviewerFollowup | FeedbackOutcomeKind.WaiveReviewerFollowup
  | FeedbackOutcomeKind.QueueConflictResolution | FeedbackOutcomeKind.RequestIntegrationRepair
  | FeedbackOutcomeKind.EnterDrain | FeedbackOutcomeKind.EnterSafeMode => true
  | _ => false
  end.

(** [FeedbackOutcomeKind::all] *)
Definition all_outcomes : list FeedbackOutcomeKind :=
  [FeedbackOutcomeKind.NoAction; FeedbackOutcomeKind.NudgeWorker; FeedbackOutcomeKind.RequestRework;
   FeedbackOutcomeKind.RetryRun; FeedbackOutcomeKind.PromoteReviewerFollowup;
   FeedbackOutcomeKind.WaiveReviewerFollowup; FeedbackOutcomeKind.RequestOperatorClarification;
   FeedbackOutcomeKind.QueueConflictResolution; FeedbackOutcomeKind.RequestIntegrationRepair;
   FeedbackOutcomeKind.EnterDrain; FeedbackOutcomeKind.EnterSafeMode; FeedbackOutcomeKind.Escalate].

(** A [BTreeSet] of outcome kinds is the list of its elements in the order of
    the enum. *)
Record FeedbackPolicy := mkFeedbackPolicy {
  fp_allowed_outcomes : list FeedbackOutcomeKind;
  fp_rationale_min_chars : nat;
  fp_rationale_max_chars : nat;
  fp_max_brief_bytes : nat;
  fp_allow_drain : bool;
  fp_allow_safe_mode : bool
}.

(** [FeedbackPolicy::conservative] *)
Definition conservative : FeedbackPolicy :=
  let allowed := filter (fun k => k <> FeedbackOutcomeKind.EnterDrain /\ k <> FeedbackOutcomeKind.EnterSafeMode)
                   all_outcomes in
  mkFeedbackPolicy allowed 8 (Z.to_nat 4000) (Z.to_nat (16 * 1024)) false false.

(** [FeedbackPolicy::allows] *)
Definition allows (self : FeedbackPolicy) (kind : FeedbackOutcomeKind) : bool :=
  if negb (bool_decide (kind ∈ fp_allowed_outcomes self)) then false
  else match kind with
       | FeedbackOutcomeKind.EnterDrain => fp_allow_drain self
       | FeedbackOutcomeKind.EnterSafeMode => fp_allow_safe_mode self
       | _ => true
       end.

(** ** Briefs (brief.rs) *)

Record FeedbackBriefSection := mkSection {
  sc_heading : string;
  sc_body : string;
  sc_truncated : bool;
  sc_missing : bool
}.

Record FeedbackBrief := mkFeedbackBrief {
  br_turn_id : FeedbackTurnId;
  br_contract_version : Z;
  br_trigger : FeedbackTrigger;
  br_sections : list FeedbackBriefSection;
  br_total_bytes : nat;
  br_truncated : bool;
  br_has_missing_context : bool;
  br_allowed_outcomes : list FeedbackOutcomeKind;
  br_rationale_max_chars : nat;
  br_rationale_min_chars : nat;
  br_built_at : DateTime
}.

Definition FEEDBACK_CONTRACT_VERSION : Z := 1.

Record BriefSourceContext := mkBriefSourceContext {
  bc_task_summary : option string;
  bc_active_run : option string;
  bc_review_state : option string;
  bc_proof : option ProofSummary;
  bc_recent_events : list string;
  bc_policy_notes : list string;
  bc_turn_id : option FeedbackTurnId
}.

(** The loop of [char_safe_truncate]: the last boundary within [max_bytes]. *)
Fixpoint safe_end (max_bytes idx : nat) (text : list string) : nat :=
  match text with
  | [] => idx
  | ch :: text =>
      let next := idx + String.length ch in
      if (max_bytes <? next)%nat then idx else safe_end max_bytes next text
  end.

Definition char_safe_truncate (text : string) (max_bytes : nat) : string :=
  if (String.length text <=? max_bytes)%nat then text
  else bytes_to (safe_end max_bytes 0 (chars text)) text.

(** The mutable state of [build_brief]. *)
Record BriefAcc := mkBriefAcc {
  ba_sections : list FeedbackBriefSection;
  ba_budget : nat;
  ba_truncated_any : bool
}.

(** The body of a section and whether it was cut, for a positive budget. *)
Definition fit_body (budget : nat) (raw_body : string) : string * bool :=
  let trimmed := trim raw_body in
  let ellipsis_len := String.length ELLIPSIS in
  if (String.length trimmed <=? budget)%nat then (trimmed, false)
  else if (budget <=? ellipsis_len)%nat then (char_safe_truncate trimmed budget, true)
  else (char_safe_truncate trimmed (budget - ellipsis_len) +:+ ELLIPSIS, true).

Definition push_section (heading raw_body : string) (missing : bool) (acc : BriefAcc) : BriefAcc :=
  if Nat.eqb (ba_budget acc) 0 then
    mkBriefAcc (ba_sections acc ++ [mkSection heading "" true missing]) (ba_budget acc) true
  else
    let '(body, truncated) := fit_body (ba_budget acc) raw_body in
    mkBriefAcc (ba_sections acc ++ [mkSection heading body truncated missing])
      (ba_budget acc - String.length body) (ba_truncated_any acc || truncated).

Definition synthesize_turn_id (trigger : FeedbackTrigger) : FeedbackTurnId :=
  let range := match tr_covered_event_range trigger with
               | Some (low, high) => pretty low +:+ "-" +:+ pretty high
               | None => "no-range"
               end in
  "turn-" +:+ tr_trigger_id trigger +:+ "-" +:+ range.

Definition format_event_ids (ids : list EventId) : string :=
  match ids with [] => "none" | _ => join ", " (pretty <$> ids) end.

Definition format_range (range : option (EventId * EventId)) : string :=
  match range with
  | Some (low, high) => "[" +:+ pretty low +:+ ".." +:+ pretty high +:+ "]"
  | None => "(none)"
  end.

Definition format_outcomes (set : list FeedbackOutcomeKind) : string :=
  join ", " (sort_by str_leb (outcome_kind_str <$> set)).

Definition fmt_bool (b : bool) : string := if b then "true" else "false".

Definition trigger_body (trigger : FeedbackTrigger) : string :=
  "kind: " +:+ trigger_kind_str (tr_kind trigger) +:+ NL +:+ "summary: " +:+ tr_summary trigger
    +:+ NL +:+ "source_events: " +:+ format_event_ids (tr_source_event_ids trigger)
    +:+ NL +:+ "event_range: " +:+ format_range (tr_covered_event_range trigger).

Definition policy_body (policy : FeedbackPolicy) (notes : list string) : string :=
  join NL ([ "rationale_min=" +:+ pretty (fp_rationale_min_chars policy) +:+ " rationale_max="
               +:+ pretty (fp_rationale_max_chars policy);
             "max_brief_bytes=" +:+ pretty (fp_max_brief_bytes policy) +:+ " allow_drain="
               +:+ fmt_bool (fp_allow_drain policy) +:+ " allow_safe_mode="
               +:+ fmt_bool (fp_allow_safe_mode policy);
             "allowed_outcomes=" +:+ format_outcomes (fp_allowed_outcomes policy) ] ++ notes).

(** A section that is marked missing when its context is absent. *)
Definition context_section (heading placeholder : string) (context : option string) : string * string * bool :=
  match context with
  | Some text => (heading, text, false)
  | None => (heading, placeholder, true)
  end.

(** The sections of a brief in their order: heading, text and whether the
    context is missing. *)
Definition brief_sources (trigger : FeedbackTrigger) (context : BriefSourceContext) (policy : FeedbackPolicy)
    : list (string * string * bool) :=
  [ ("trigger", trigger_body trigger, false);
    context_section "task" "(no task summary available)" (bc_task_summary context);
    context_section "active_run" "(no active run snapshot)" (bc_active_run context);
    context_section "review" "(no review state snapshot)" (bc_review_state context);
    context_section "proof" "(no proof bundle attached)" (render_text <$> bc_proof context);
    match bc_recent_events context with
    | [] => ("recent_events", "(no recent event summaries supplied)", true)
    | events => ("recent_events", join NL events, false)
    end;
    ("policy", policy_body policy (bc_policy_notes context), false) ].

Definition build_brief (now : DateTime) (trigger : FeedbackTrigger) (context : BriefSourceContext)
    (policy : FeedbackPolicy) : FeedbackBrief :=
  let acc := foldl (fun acc '(heading, body, missing) => push_section heading body missing acc)
               (mkBriefAcc [] (fp_max_brief_bytes policy) false) (brief_sources trigger context policy) in
  let sections := ba_sections acc in
  mkFeedbackBrief (default (synthesize_turn_id trigger) (bc_turn_id context)) FEEDBACK_CONTRACT_VERSION
    trigger sections (sum_list ((fun section => String.length (sc_body section)) <$> sections))
    (ba_truncated_any acc) (existsb sc_missing sections)
    (List.filter (allows policy) (fp_allowed_outcomes policy))
    (fp_rationale_max_chars policy) (fp_rationale_min_chars policy) now.

(** ** Briefs are bounded *)

Definition total_length (sections : list FeedbackBriefSection) : nat :=
  sum_list ((fun section => String.length (sc_body section)) <$> sections).

(** A prefix of a text, cut between characters. *)
Definition char_prefix (p text : string) : Prop := exists k, p = of_chars (take k (chars text)).

(** What a section holds of its source. *)
Definition section_of (source : string * string * bool) (section : FeedbackBriefSection) : Prop :=
  let '(heading, text, missing) := source in
  sc_heading section = heading /\ sc_missing section = missing
  /\ if sc_truncated section
     then exists p, char_prefix p (trim text) /\ (sc_body section = p \/ sc_body section = p +:+ ELLIPSIS)
     else sc_body section = trim text.

Lemma safe_end_spec max_bytes l idx : idx <= max_bytes ->
  exists k, safe_end max_bytes idx l = idx + String.length (of_chars (take k l))
    /\ safe_end max_bytes idx l <= max_bytes.
Proof.
  revert idx. induction l as [|ch l IH]; intros idx Hidx; cbn [safe_end].
  { exists 0. cbn. lia. }
  destruct (Nat.ltb_spec max_bytes (idx + String.length ch)) as [|Hle].
  { exists 0. cbn. lia. }
  destruct (IH _ Hle) as (k & -> & Hk). exists (S k). cbn [take].
  rewrite of_chars_cons, length_append. lia.
Qed.

Lemma char_safe_truncate_spec text max_bytes :
  char_prefix (char_safe_truncate text max_bytes) text
  /\ String.length (char_safe_truncate text max_bytes) <= max_bytes.
Proof.
  unfold char_safe_truncate. destruct (Nat.leb_spec (String.length text) max_bytes) as [Hle|_].
  { split; [|done]. exists (length (chars text)). by rewrite take_ge, of_chars_chars. }
  destruct (safe_end_spec max_bytes (chars text) 0) as (k & Hend & Hle); [lia|]. rewrite Hend in *.
  enough (bytes_to (0 + String.length (of_chars (take k (chars text)))) text = of_chars (take k (chars text))) as ->.
  { split; [by exists k|done]. }
  rewrite <-(of_chars_chars text) at 2. rewrite <-(take_drop k (chars text)) at 2.
  rewrite of_chars_app. apply bytes_to_app.
Qed.

Lemma fit_body_spec budget text body truncated : fit_body budget text = (body, truncated) ->
  String.length body <= budget
  /\ if truncated
     then exists p, char_prefix p (trim text) /\ (body = p \/ body = p +:+ ELLIPSIS)
     else body = trim text.
Proof.
  unfold fit_body. destruct (Nat.leb_spec (String.length (trim text)) budget) as [Hle|_].
  { by intros [= <- <-]. }
  destruct (Nat.leb_spec budget (String.length ELLIPSIS)) as [_|Hlt]; intros [= <- <-].
  - destruct (char_safe_truncate_spec (trim text) budget). eauto.
  - destruct (char_safe_truncate_spec (trim text) (budget - String.length ELLIPSIS)) as [Hp Hl].
    rewrite length_append. change (String.length ELLIPSIS) with 3 in *. split; [lia|eauto].
Qed.

Lemma push_section_spec heading text missing acc :
  exists section, let acc' := push_section heading text missing acc in
    ba_sections acc' = ba_sections acc ++ [section] /\ section_of (heading, text, missing) section
    /\ String.length (sc_body section) + ba_budget acc' = ba_budget acc
    /\ ba_truncated_any acc' = ba_truncated_any acc || sc_truncated section.
Proof.
  unfold push_section. destruct (Nat.eqb_spec (ba_budget acc) 0) as [Hz|_].
  { exists (mkSection heading "" true missing). cbn.
    split_and!; [done..| |done|by rewrite orb_true_r]. exists "". split; [by exists 0|by left]. }
  destruct (fit_body (ba_budget acc) text) as [body truncated] eqn:E.
  apply fit_body_spec in E as [Hle Hbody]. 
  exists (mkSection heading body truncated missing). cbn. split_and!; [done..|lia|done].
Qed.

Lemma push_sections_spec sources acc :
  exists sections,
    let acc' := foldl (fun acc '(heading, body, missing) => push_section heading body missing acc) acc sources in
    ba_sections acc' = ba_sections acc ++ sections /\ Forall2 section_of sources sections
    /\ total_length sections + ba_budget acc' = ba_budget acc
    /\ ba_truncated_any acc' = ba_truncated_any acc || existsb sc_truncated sections.
Proof.
  revert acc. induction sources as [|[[heading text] missing] sources IH]; intros acc; cbn [foldl].
  { exists []. cbn. by rewrite app_nil_r, orb_false_r. }
  destruct (push_section_spec heading text missing acc) as (section & Hsec & Hof & Hlen & Htr).
  destruct (IH (push_section heading text missing acc)) as (sections & -> & Hall & Hsum & ->).
  exists (section :: sections). cbn. rewrite Hsec, <-app_assoc, Htr, orb_assoc.
  split_and!; [done|by constructor| |done].
  unfold total_length in *. cbn. lia.
Qed.

Lemma missing_of_sources sources sections :
  Forall2 section_of sources sections -> sc_missing <$> sections = (fun source => source.2) <$> sources.
Proof. induction 1 as [|[[??]?] ??? (_ & Hm & _) _ IH]; cbn; [done|]. by rewrite Hm, IH. Qed.

Lemma existsb_fmap {A} (f : A -> bool) (l : list A) : existsb f l = existsb id (f <$> l).
Proof. induction l as [|x l IH]; cbn; [done|]. by rewrite IH. Qed.

(** a brief never exceeds [max_brief_bytes]; it has its seven sections in
    order, each the whole trimmed text of its source or, when it is marked
    truncated, a prefix of it cut between characters with or without an
    ellipsis; and its flags say exactly whether a section was cut and whether
    context was missing. *)
Theorem brief_is_bounded now trigger context policy :
  let brief := build_brief now trigger context policy in
  br_total_bytes brief = total_length (br_sections brief)
  /\ br_total_bytes brief <= fp_max_brief_bytes policy
  /\ Forall2 section_of (brief_sources trigger context policy) (br_sections brief)
  /\ br_truncated brief = existsb sc_truncated (br_sections brief)
  /\ br_has_missing_context brief
     = existsb (fun source => source.2) (brief_sources trigger context policy).
Proof.
  cbn zeta. unfold build_brief. cbn [br_total_bytes br_sections br_truncated br_has_missing_context].
  destruct (push_sections_spec (brief_sources trigger context policy)
    (mkBriefAcc [] (fp_max_brief_bytes policy) false)) as (sections & -> & Hall & Hsum & ->).
  cbn [ba_sections ba_budget ba_truncated_any app] in *. unfold total_length in *.
  split_and!; [done|lia|done|done|].
  rewrite (existsb_fmap sc_missing), (existsb_fmap (fun source => source.2)).
  by rewrite (missing_of_sources _ _ Hall).
Qed.
