(* ===== verification/FeedbackOutcome.v ===== *)
(** * Outcomes of feedback (outcome.rs, apply.rs, worker_failure.rs,
    integration_conflict.rs and lifecycle.rs of brehon-supervisor/src/feedback)

    An outcome answers a brief; it is validated, recorded, planned and handed
    to an executor, with an event for every step.  The readings of the clock
    within a call are one argument.  Proved here: what can be planned for an
    accepted outcome, and which events a turn leaves in the log, whatever
    appends fail. *)

From S2P Require Import Prelude StrLib Chars Types Events Queue Ports MemEvents Feedback FeedbackLoop.

(** ** Outcomes and decisions (feedback.rs) *)

Record FeedbackOutcome := mkFeedbackOutcome {
  fo_contract_version : Z;
  fo_turn_id : FeedbackTurnId;
  fo_trigger_id : FeedbackTriggerId;
  fo_kind : FeedbackOutcomeKind;
  fo_rationale : string;
  fo_followup_id : option string;
  fo_task_id : option TaskId;
  fo_run_id : option RunId;
  fo_supervisor_id : option string;
  fo_payload : JsonValue
}.

Record FeedbackDecision := mkFeedbackDecision {
  fd_brief : FeedbackBrief;
  fd_outcome : FeedbackOutcome;
  fd_decided_at : DateTime
}.

(** ** Validation (outcome.rs) *)

(** [Accepted(ValidatedOutcome { decision })] carries the decision. *)
Module OutcomeValidation.
Inductive OutcomeValidation :=
| Accepted (decision : FeedbackDecision)
| Rejected (reason : FeedbackOutcomeRejectionReason) (message : string).
End OutcomeValidation.
Abbreviation OutcomeValidation := OutcomeValidation.OutcomeValidation.

Definition reject (reason : FeedbackOutcomeRejectionReason) (message : string) : OutcomeValidation :=
  OutcomeValidation.Rejected reason message.

Definition is_blank (s : option string) : bool :=
  match s with Some s => String.eqb (trim s) "" | None => true end.

Definition is_none {A} (o : option A) : bool := match o with Some _ => false | None => true end.

Definition required_fields_missing (outcome : FeedbackOutcome) : option string :=
  let kind := outcome_kind_str (fo_kind outcome) in
  match fo_kind outcome with
  | FeedbackOutcomeKind.PromoteReviewerFollowup | FeedbackOutcomeKind.WaiveReviewerFollowup =>
      if is_blank (fo_followup_id outcome)
      then Some ("Outcome kind " +:+ kind +:+ " requires a non-empty followup_id.") else None
  | FeedbackOutcomeKind.RetryRun =>
      if is_none (fo_run_id outcome) && is_none (fo_task_id outcome)
      then Some "Outcome kind retry_run requires either run_id or task_id." else None
  | FeedbackOutcomeKind.RequestRework =>
      if is_none (fo_task_id outcome) then Some "Outcome kind request_rework requires task_id." else None
  | FeedbackOutcomeKind.QueueConflictResolution | FeedbackOutcomeKind.RequestIntegrationRepair =>
      if is_none (fo_task_id outcome)
      then Some ("Outcome kind " +:+ kind +:+ " requires task_id of the conflicting task.") else None
  | _ => None
  end.

Definition outcome_allowed_for_trigger (trigger_kind : FeedbackTriggerKind)
    (outcome_kind : FeedbackOutcomeKind) : bool :=
  match outcome_kind, trigger_kind with
  | FeedbackOutcomeKind.NoAction, _ | FeedbackOutcomeKind.RequestOperatorClarification, _
  | FeedbackOutcomeKind.Escalate, _ | FeedbackOutcomeKind.EnterDrain, _
  | FeedbackOutcomeKind.EnterSafeMode, _ => true
  | FeedbackOutcomeKind.PromoteReviewerFollowup, FeedbackTriggerKind.ReviewerFollowup
  | FeedbackOutcomeKind.WaiveReviewerFollowup, FeedbackTriggerKind.ReviewerFollowup => true
  | FeedbackOutcomeKind.RequestRework,
    (FeedbackTriggerKind.ReviewerFollowup | FeedbackTriggerKind.ReviewChangesRequested
    | FeedbackTriggerKind.WorkerFailed | FeedbackTriggerKind.WorkerStuck
    | FeedbackTriggerKind.WorkerBlocked) => true
  | FeedbackOutcomeKind.RetryRun,
    (FeedbackTriggerKind.WorkerFailed | FeedbackTriggerKind.WorkerStuck
    | FeedbackTriggerKind.StaleClaim) => true
  | FeedbackOutcomeKind.NudgeWorker,
    (FeedbackTriggerKind.WorkerFailed | FeedbackTriggerKind.WorkerStuck
    | FeedbackTriggerKind.WorkerBlocked | FeedbackTriggerKind.PermissionBlocked
    | FeedbackTriggerKind.StaleClaim) => true
  | FeedbackOutcomeKind.QueueConflictResolution, FeedbackTriggerKind.IntegrationConflict
  | FeedbackOutcomeKind.RequestIntegrationRepair, FeedbackTriggerKind.IntegrationConflict => true
  | _, _ => false
  end.

Definition validate_outcome (now : DateTime) (brief : FeedbackBrief) (outcome : FeedbackOutcome)
    (policy : FeedbackPolicy) : OutcomeValidation :=
  let kind := fo_kind outcome in
  let trigger := br_trigger brief in
  let rationale_chars := char_count (fo_rationale outcome) in
  if (negb (fo_contract_version outcome =? br_contract_version brief)
      || negb (fo_contract_version outcome =? FEEDBACK_CONTRACT_VERSION))%Z then
    reject FeedbackOutcomeRejectionReason.ContractVersionMismatch
      ("Outcome contract_version=" +:+ pretty (fo_contract_version outcome) +:+ " but brief expects "
        +:+ pretty (br_contract_version brief) +:+ " (current FEEDBACK_CONTRACT_VERSION="
        +:+ pretty FEEDBACK_CONTRACT_VERSION +:+ ").")
  else if negb (String.eqb (fo_turn_id outcome) (br_turn_id brief)) then
    reject FeedbackOutcomeRejectionReason.TurnIdMismatch
      ("Outcome turn_id " +:+ fo_turn_id outcome +:+ " did not match brief turn_id " +:+ br_turn_id brief)
  else if negb (String.eqb (fo_trigger_id outcome) (tr_trigger_id trigger)) then
    reject FeedbackOutcomeRejectionReason.TriggerIdMismatch
      ("Outcome trigger_id " +:+ fo_trigger_id outcome +:+ " did not match brief trigger_id "
        +:+ tr_trigger_id trigger)
  else if negb (allows policy kind) then
    reject FeedbackOutcomeRejectionReason.OutcomeKindDenied
      ("Outcome kind " +:+ outcome_kind_str kind +:+ " is not permitted by current FeedbackPolicy.")
  else if negb (bool_decide (kind ∈ br_allowed_outcomes brief)) then
    reject FeedbackOutcomeRejectionReason.OutcomeKindDenied
      ("Outcome kind " +:+ outcome_kind_str kind +:+ " is not in the brief's allow-list.")
  else if negb (outcome_allowed_for_trigger (tr_kind trigger) kind) then
    reject FeedbackOutcomeRejectionReason.TriggerKindMismatch
      ("Outcome kind " +:+ outcome_kind_str kind +:+ " is not valid for trigger kind "
        +:+ trigger_kind_str (tr_kind trigger) +:+ ".")
  else if (fp_rationale_max_chars policy <? rationale_chars)%nat then
    reject FeedbackOutcomeRejectionReason.RationaleTooLong
      ("Rationale length " +:+ pretty rationale_chars +:+ " exceeds policy max "
        +:+ pretty (fp_rationale_max_chars policy) +:+ ".")
  else if is_mutating kind && (rationale_chars <? fp_rationale_min_chars policy)%nat then
    reject FeedbackOutcomeRejectionReason.MissingRationale
      ("Mutating outcome " +:+ outcome_kind_str kind +:+ " requires rationale of at least "
        +:+ pretty (fp_rationale_min_chars policy) +:+ " chars (got " +:+ pretty rationale_chars +:+ ").")
  else match required_fields_missing outcome with
  | Some reason => reject FeedbackOutcomeRejectionReason.MissingRequiredField reason
  | None => OutcomeValidation.Accepted (mkFeedbackDecision brief outcome now)
  end.

(** ** Plans (apply.rs) *)

Module ApplyPlan.
Inductive ApplyPlan :=
| NoAction (rationale : string)
| NudgeWorker (task_id run_id : option string) (rationale : string)
| PromoteFollowup (task_id followup_id rationale : string)
| WaiveFollowup (task_id followup_id rationale : string)
| RequestRework (task_id rationale : string)
| RetryRun (task_id run_id : option string) (rationale : string)
| QueueConflictResolution (task_id rationale : string)
| RequestIntegrationRepair (task_id rationale : string)
| RequestOperatorClarification (task_id : option string) (rationale : string)
| EnterDrain (rationale : string)
| EnterSafeMode (rationale : string)
| Escalate (task_id : option string) (rationale : string).

Definition label (plan : ApplyPlan) : string :=
  match plan with
  | NoAction _ => "no_action"
  | NudgeWorker _ _ _ => "nudge_worker"
  | PromoteFollowup _ _ _ => "promote_followup"
  | WaiveFollowup _ _ _ => "waive_followup"
  | RequestRework _ _ => "request_rework"
  | RetryRun _ _ _ => "retry_run"
  | QueueConflictResolution _ _ => "queue_conflict_resolution"
  | RequestIntegrationRepair _ _ => "request_integration_repair"
  | RequestOperatorClarification _ _ => "request_operator_clarification"
  | EnterDrain _ => "enter_drain"
  | EnterSafeMode _ => "enter_safe_mode"
  | Escalate _ _ => "escalate"
  end.
End ApplyPlan.
Abbreviation ApplyPlan := ApplyPlan.ApplyPlan.

Definition missing_field_escalation (task_id : option string) (field : string) (outcome : FeedbackOutcome)
    : ApplyPlan :=
  ApplyPlan.Escalate task_id ("Validated outcome " +:+ outcome_kind_str (fo_kind outcome)
    +:+ " could not be applied because " +:+ field +:+ " was missing.").

(** [outcome.task_id.or_else(|| trigger.task_id)], and the same for runs *)
Definition decision_task (decision : FeedbackDecision) : option string :=
  match fo_task_id (fd_outcome decision) with
  | Some id => Some id
  | None => tr_task_id (br_trigger (fd_brief decision))
  end.

Definition decision_run (decision : FeedbackDecision) : option string :=
  match fo_run_id (fd_outcome decision) with
  | Some id => Some id
  | None => tr_run_id (br_trigger (fd_brief decision))
  end.

(** The branches of [plan_application] for follow-ups: [verb] and [plan] are
    those of promoting or of waiving. *)
Definition plan_followup (verb : string) (plan : string -> string -> string -> ApplyPlan)
    (decision : FeedbackDecision) : ApplyPlan :=
  let outcome := fd_outcome decision in
  match tr_kind (br_trigger (fd_brief decision)) with
  | FeedbackTriggerKind.ReviewerFollowup =>
      match decision_task decision with
      | None => missing_field_escalation None "task_id" outcome
      | Some task_id =>
          match non_blank (fo_followup_id outcome) with
          | None => missing_field_escalation (Some task_id) "followup_id" outcome
          | Some followup_id => plan task_id followup_id (fo_rationale outcome)
          end
      end
  | trigger_kind =>
      ApplyPlan.Escalate (decision_task decision)
        ("Cannot " +:+ verb +:+ " reviewer follow-up from trigger kind " +:+ trigger_kind_str trigger_kind
          +:+ ".")
  end.

(** [let Some(task_id) = outcome_task else { return missing ... }; plan] *)
Definition plan_on_task (plan : string -> string -> ApplyPlan) (decision : FeedbackDecision) : ApplyPlan :=
  match decision_task decision with
  | None => missing_field_escalation None "task_id" (fd_outcome decision)
  | Some task_id => plan task_id (fo_rationale (fd_outcome decision))
  end.

Definition plan_application (decision : FeedbackDecision) : ApplyPlan :=
  let outcome := fd_outcome decision in
  let rationale := fo_rationale outcome in
  match fo_kind outcome with
  | FeedbackOutcomeKind.NoAction => ApplyPlan.NoAction rationale
  | FeedbackOutcomeKind.NudgeWorker =>
      ApplyPlan.NudgeWorker (decision_task decision) (decision_run decision) rationale
  | FeedbackOutcomeKind.PromoteReviewerFollowup => plan_followup "promote" ApplyPlan.PromoteFollowup decision
  | FeedbackOutcomeKind.WaiveReviewerFollowup => plan_followup "waive" ApplyPlan.WaiveFollowup decision
  | FeedbackOutcomeKind.RequestRework => plan_on_task ApplyPlan.RequestRework decision
  | FeedbackOutcomeKind.RetryRun =>
      ApplyPlan.RetryRun (decision_task decision) (decision_run decision) rationale
  | FeedbackOutcomeKind.QueueConflictResolution => plan_on_task ApplyPlan.QueueConflictResolution decision
  | FeedbackOutcomeKind.RequestIntegrationRepair => plan_on_task ApplyPlan.RequestIntegrationRepair decision
  | FeedbackOutcomeKind.RequestOperatorClarification =>
      ApplyPlan.RequestOperatorClarification (decision_task decision) rationale
  | FeedbackOutcomeKind.EnterDrain => ApplyPlan.EnterDrain rationale
  | FeedbackOutcomeKind.EnterSafeMode => ApplyPlan.EnterSafeMode rationale
  | FeedbackOutcomeKind.Escalate => ApplyPlan.Escalate (decision_task decision) rationale
  end.

(** ** Recovery of failed workers (worker_failure.rs) *)

Module EscalateCause.
Inductive EscalateCause := SupervisorChoice | RetryExhausted | MissingRequiredField | UnsupportedOutcome.
End EscalateCause.
Abbreviation EscalateCause := EscalateCause.EscalateCause.

Module WorkerFailureRecovery.
Inductive WorkerFailureRecovery :=
| Retry (task_id run_id : option string) (attempt_count max_attempts : Z) (rationale : string)
| Nudge (task_id run_id : option string) (rationale : string)
| Rework (task_id rationale : string)
| Escalate (task_id : option string) (rationale : string) (cause : EscalateCause)
| Drain (rationale : string)
| SafeMode (rationale : string)
| NoAction.
End WorkerFailureRecovery.
Abbreviation WorkerFailureRecovery := WorkerFailureRecovery.WorkerFailureRecovery.

Definition plan_worker_failure_recovery (decision : FeedbackDecision) (current_attempt : Z)
    (retry_policy : RetryPolicyConfig) : WorkerFailureRecovery :=
  let outcome := fd_outcome decision in
  let task_id := decision_task decision in
  let run_id := decision_run decision in
  let rationale := fo_rationale outcome in
  match fo_kind outcome with
  | FeedbackOutcomeKind.RetryRun =>
      if is_none task_id && is_none run_id then
        WorkerFailureRecovery.Escalate task_id "Outcome kind retry_run requires either run_id or task_id."
          EscalateCause.MissingRequiredField
      else if negb (rpc_enabled retry_policy) || (rpc_max_attempts retry_policy <=? current_attempt)%Z then
        WorkerFailureRecovery.Escalate task_id
          ("Retry exhausted: attempt " +:+ pretty current_attempt +:+ " of max "
            +:+ pretty (rpc_max_attempts retry_policy) +:+ " (retry_enabled="
            +:+ fmt_bool (rpc_enabled retry_policy) +:+ "). " +:+ rationale)
          EscalateCause.RetryExhausted
      else WorkerFailureRecovery.Retry task_id run_id current_attempt (rpc_max_attempts retry_policy) rationale
  | FeedbackOutcomeKind.NudgeWorker => WorkerFailureRecovery.Nudge task_id run_id rationale
  | FeedbackOutcomeKind.RequestRework =>
      match task_id with
      | None => WorkerFailureRecovery.Escalate None "Outcome kind request_rework requires task_id."
                  EscalateCause.MissingRequiredField
      | Some task_id => WorkerFailureRecovery.Rework task_id rationale
      end
  | FeedbackOutcomeKind.Escalate =>
      WorkerFailureRecovery.Escalate task_id rationale EscalateCause.SupervisorChoice
  | FeedbackOutcomeKind.EnterDrain => WorkerFailureRecovery.Drain rationale
  | FeedbackOutcomeKind.EnterSafeMode => WorkerFailureRecovery.SafeMode rationale
  | FeedbackOutcomeKind.NoAction => WorkerFailureRecovery.NoAction
  | kind =>
      WorkerFailureRecovery.Escalate task_id
        ("Outcome kind " +:+ outcome_kind_str kind +:+ " is not supported on worker_failed triggers.")
        EscalateCause.UnsupportedOutcome
  end.

(** ** Integration conflicts (integration_conflict.rs) *)

Module ConflictEscalateCause.
Inductive ConflictEscalateCause :=
| SupervisorChoice | UnsupportedOutcome | MissingRequiredField | TriggerKindMismatch.
End ConflictEscalateCause.
Abbreviation ConflictEscalateCause := ConflictEscalateCause.ConflictEscalateCause.

Module ConflictResolutionPlan.
Inductive ConflictResolutionPlan :=
| QueueResolutionTask (task_id dedup_key rationale : string)
| RequestRepair (task_id dedup_key rationale : string)
| Escalate (task_id : option string) (rationale : string) (cause : ConflictEscalateCause)
| NoAction.
End ConflictResolutionPlan.
Abbreviation ConflictResolutionPlan := ConflictResolutionPlan.ConflictResolutionPlan.

Definition conflict_dedup_key (task_id : string) : string := "integration_conflict:" +:+ task_id.

(** The two branches that need a task. *)
Definition conflict_on_task (plan : string -> string -> string -> ConflictResolutionPlan)
    (decision : FeedbackDecision) : ConflictResolutionPlan :=
  let outcome := fd_outcome decision in
  match decision_task decision with
  | None => ConflictResolutionPlan.Escalate None
              ("Outcome kind " +:+ outcome_kind_str (fo_kind outcome) +:+ " requires task_id.")
              ConflictEscalateCause.MissingRequiredField
  | Some task_id => plan task_id (conflict_dedup_key task_id) (fo_rationale outcome)
  end.

Definition plan_integration_conflict (decision : FeedbackDecision) : ConflictResolutionPlan :=
  let outcome := fd_outcome decision in
  let trigger := br_trigger (fd_brief decision) in
  match tr_kind trigger with
  | FeedbackTriggerKind.IntegrationConflict =>
      match fo_kind outcome with
      | FeedbackOutcomeKind.QueueConflictResolution =>
          conflict_on_task ConflictResolutionPlan.QueueResolutionTask decision
      | FeedbackOutcomeKind.RequestIntegrationRepair =>
          conflict_on_task ConflictResolutionPlan.RequestRepair decision
      | FeedbackOutcomeKind.Escalate | FeedbackOutcomeKind.RequestOperatorClarification =>
          ConflictResolutionPlan.Escalate (decision_task decision) (fo_rationale outcome)
            ConflictEscalateCause.SupervisorChoice
      | FeedbackOutcomeKind.NoAction => ConflictResolutionPlan.NoAction
      | kind =>
          ConflictResolutionPlan.Escalate (decision_task decision)
            ("Outcome kind " +:+ outcome_kind_str kind +:+ " is not supported on integration_conflict triggers.")
            ConflictEscalateCause.UnsupportedOutcome
      end
  | kind =>
      ConflictResolutionPlan.Escalate (tr_task_id trigger)
        ("Integration-conflict planner invoked for trigger kind " +:+ trigger_kind_str kind +:+ ".")
        ConflictEscalateCause.TriggerKindMismatch
  end.

(** ** Recording a turn (lifecycle.rs) *)

Definition feedback_event (now : DateTime) (kind : EventKind) (task_id : option TaskId) (fallback : string)
    : Event := mkEvent kind now (default fallback task_id).

(** The events of a turn carry the task of the brief's trigger. *)
Definition turn_event (now : DateTime) (brief : FeedbackBrief) (kind : EventKind) : Event :=
  feedback_event now kind (tr_task_id (br_trigger brief)) (tr_trigger_id (br_trigger brief)).

Definition decision_summary (outcome : FeedbackOutcome) : string :=
  join " " ([outcome_kind_str (fo_kind outcome)]
    ++ option_list ((fun t => "task=" +:+ t) <$> fo_task_id outcome)
    ++ option_list ((fun r => "run=" +:+ r) <$> fo_run_id outcome)
    ++ option_list ((fun f => "followup=" +:+ f) <$> fo_followup_id outcome)).

Module FeedbackLifecycleResult.
Inductive FeedbackLifecycleResult :=
| Rejected (reason : FeedbackOutcomeRejectionReason) (message : string)
| Applied (summary : string)
| Failed (error : string).
End FeedbackLifecycleResult.
Abbreviation FeedbackLifecycleResult := FeedbackLifecycleResult.FeedbackLifecycleResult.

(** [trait FeedbackActionExecutor], over a state of its own *)
Class FeedbackActionExecutor := {
  fx_state : Type;
  fx_apply : ApplyPlan -> SM fx_state string string
}.

(** [EventOnlyFeedbackActionExecutor] *)
Definition event_only_apply (plan : ApplyPlan) : Result string string :=
  match plan with
  | ApplyPlan.NoAction rationale => Ok ("no action recorded: " +:+ rationale)
  | ApplyPlan.RequestOperatorClarification _ rationale =>
      Ok ("operator clarification requested: " +:+ rationale)
  | ApplyPlan.Escalate _ rationale => Ok ("escalated: " +:+ rationale)
  | ApplyPlan.EnterDrain rationale => Ok ("drain requested: " +:+ rationale)
  | other => Err ("no feedback action executor configured for " +:+ ApplyPlan.label other)
  end.

Definition EventOnlyFeedbackActionExecutor : FeedbackActionExecutor :=
  {| fx_state := unit; fx_apply := fun plan s => (s, event_only_apply plan) |}.

Section lifecycle.
Context `{EventStore} `{FeedbackActionExecutor} (now : DateTime).

(** A turn acts on the event store and on what the executor reaches. *)
Abbreviation World := (es_state * fx_state)%type.

Definition append_event (event : Event) : SM World PortError EventId := fun w =>
  let '(s, r) := es_append event w.1 in ((s, w.2), r).

Definition execute_plan (plan : ApplyPlan) : SM World string string := fun w =>
  let '(x, r) := fx_apply plan w.2 in ((w.1, x), r).

(** [record_detected_triggers] *)
Definition trigger_event (trigger : FeedbackTrigger) : Event :=
  feedback_event now
    (EventKind.FeedbackTriggerDetected (tr_trigger_id trigger) (dedup_key trigger) (tr_kind trigger)
      (tr_task_id trigger) (tr_run_id trigger) (tr_review_id trigger) (tr_source_event_ids trigger)
      (tr_covered_event_range trigger) (tr_summary trigger) now)
    (tr_task_id trigger) (tr_trigger_id trigger).

Fixpoint record_detected_triggers (triggers : list FeedbackTrigger) : SM es_state PortError (list EventId) :=
  match triggers with
  | [] => sm_ret []
  | trigger :: triggers =>
      let! id := es_append (trigger_event trigger) in
      let! ids := record_detected_triggers triggers in
      sm_ret (id :: ids)
  end.

Definition record_brief_built (brief : FeedbackBrief) : SM World PortError EventId :=
  let trigger := br_trigger brief in
  append_event (turn_event now brief
    (EventKind.FeedbackBriefBuilt (tr_trigger_id trigger) (br_turn_id brief) (tr_task_id trigger)
      (tr_run_id trigger) (tr_source_event_ids trigger) (tr_covered_event_range trigger)
      (br_contract_version brief) (Z.of_nat (br_total_bytes brief))
      (Z.of_nat (length (br_sections brief))) (br_truncated brief) (br_has_missing_context brief) now)).

Definition record_turn_started (brief : FeedbackBrief) (supervisor_id : option string)
    : SM World PortError EventId :=
  let trigger := br_trigger brief in
  append_event (turn_event now brief
    (EventKind.FeedbackTurnStarted (tr_trigger_id trigger) (br_turn_id brief) (tr_task_id trigger)
      (tr_source_event_ids trigger) (tr_covered_event_range trigger) supervisor_id now)).

Definition append_outcome_received (brief : FeedbackBrief) (outcome : FeedbackOutcome)
    : SM World PortError EventId :=
  let trigger := br_trigger brief in
  append_event (turn_event now brief
    (EventKind.FeedbackOutcomeReceived (tr_trigger_id trigger) (br_turn_id brief) (tr_task_id trigger)
      (tr_source_event_ids trigger) (tr_covered_event_range trigger) (fo_kind outcome) now)).

(** The events of [emit_event_native_effects], one at most. *)
Definition effect_event (brief : FeedbackBrief) (outcome : FeedbackOutcome) (plan : ApplyPlan)
    : option EventKind :=
  let context rationale := "feedback " +:+ tr_trigger_id (br_trigger brief) +:+ ": " +:+ rationale in
  match plan with
  | ApplyPlan.EnterDrain rationale => Some (EventKind.SystemDraining (context rationale))
  | ApplyPlan.RequestOperatorClarification _ rationale | ApplyPlan.Escalate _ rationale =>
      Some (EventKind.EscalationTriggered (outcome_kind_str (fo_kind outcome)) (context rationale))
  | _ => None
  end.

Definition emit_event_native_effects (brief : FeedbackBrief) (outcome : FeedbackOutcome) (plan : ApplyPlan)
    : SM World PortError unit :=
  match effect_event brief outcome plan with
  | Some kind => let! _ := append_event (turn_event now brief kind) in sm_ret tt
  | None => sm_ret tt
  end.

(** The events of the outcome's stages. *)
Definition outcome_rejected (brief : FeedbackBrief) (outcome : FeedbackOutcome)
    (reason : FeedbackOutcomeRejectionReason) (message : string) : Event :=
  let trigger := br_trigger brief in
  turn_event now brief
    (EventKind.FeedbackOutcomeRejected (tr_trigger_id trigger) (br_turn_id brief) (tr_task_id trigger)
      (tr_source_event_ids trigger) (tr_covered_event_range trigger) (Some (fo_kind outcome))
      reason message now).

Definition outcome_validated (brief : FeedbackBrief) (outcome : FeedbackOutcome) : Event :=
  let trigger := br_trigger brief in
  turn_event now brief
    (EventKind.FeedbackOutcomeValidated (tr_trigger_id trigger) (br_turn_id brief) (tr_task_id trigger)
      (tr_source_event_ids trigger) (tr_covered_event_range trigger) (fo_kind outcome) now).

Definition decision_recorded (brief : FeedbackBrief) (outcome : FeedbackOutcome) (decided_at : DateTime)
    : Event :=
  let trigger := br_trigger brief in
  turn_event now brief
    (EventKind.FeedbackDecisionRecorded (tr_trigger_id trigger) (br_turn_id brief) (tr_task_id trigger)
      (tr_source_event_ids trigger) (tr_covered_event_range trigger) (fo_kind outcome) decided_at
      (decision_summary outcome)).

Definition feedback_applied (brief : FeedbackBrief) (outcome : FeedbackOutcome) (summary : string) : Event :=
  let trigger := br_trigger brief in
  turn_event now brief
    (EventKind.FeedbackApplied (tr_trigger_id trigger) (br_turn_id brief) (tr_task_id trigger)
      (tr_source_event_ids trigger) (tr_covered_event_range trigger) (fo_kind outcome) summary now).

Definition feedback_failed (brief : FeedbackBrief) (outcome : FeedbackOutcome) (error : string) : Event :=
  let trigger := br_trigger brief in
  turn_event now brief
    (EventKind.FeedbackFailed (tr_trigger_id trigger) (br_turn_id brief) (tr_task_id trigger)
      (tr_source_event_ids trigger) (tr_covered_event_range trigger) (fo_kind outcome) error now).

(** [record_validate_and_apply_outcome], without the summary file written for
    the terminal interface. *)
Definition record_validate_and_apply_outcome (brief : FeedbackBrief) (outcome : FeedbackOutcome)
    (policy : FeedbackPolicy) : SM World PortError FeedbackLifecycleResult :=
  let! _ := record_turn_started brief (fo_supervisor_id outcome) in
  let! _ := append_outcome_received brief outcome in
  match validate_outcome now brief outcome policy with
  | OutcomeValidation.Rejected reason message =>
      let! _ := append_event (outcome_rejected brief outcome reason message) in
      sm_ret (FeedbackLifecycleResult.Rejected reason message)
  | OutcomeValidation.Accepted decision =>
      let! _ := append_event (outcome_validated brief outcome) in
      let! _ := append_event (decision_recorded brief outcome (fd_decided_at decision)) in
      let plan := plan_application decision in
      sm_catch (execute_plan plan)
        (fun summary =>
          let! _ := emit_event_native_effects brief outcome plan in
          let! _ := append_event (feedback_applied brief outcome summary) in
          sm_ret (FeedbackLifecycleResult.Applied summary))
        (fun error =>
          let! _ := append_event (feedback_failed brief outcome error) in
          sm_ret (FeedbackLifecycleResult.Failed error))
  end.
End lifecycle.

(** ** Accepted outcomes *)

Section accepted.
Implicit Types (outcome : FeedbackOutcome) (policy : FeedbackPolicy) (brief : FeedbackBrief).

Lemma validate_accepted now brief outcome policy decision :
  validate_outcome now brief outcome policy = OutcomeValidation.Accepted decision ->
  decision = mkFeedbackDecision brief outcome now
  /\ fo_turn_id outcome = br_turn_id brief /\ fo_trigger_id outcome = tr_trigger_id (br_trigger brief)
  /\ allows policy (fo_kind outcome) = true /\ fo_kind outcome ∈ br_allowed_outcomes brief
  /\ outcome_allowed_for_trigger (tr_kind (br_trigger brief)) (fo_kind outcome) = true
  /\ char_count (fo_rationale outcome) <= fp_rationale_max_chars policy
  /\ (is_mutating (fo_kind outcome) = true ->
      fp_rationale_min_chars policy <= char_count (fo_rationale outcome))
  /\ required_fields_missing outcome = None.
Proof.
  unfold validate_outcome, reject. cbn zeta. intros Hv.
  repeat match type of Hv with
  | (if ?b then _ else _) = _ => destruct b eqn:?; [discriminate|]
  | match ?b with Some _ => _ | None => _ end = _ => destruct b eqn:?; [discriminate|]
  end.
  simplify_eq. repeat match goal with
  | E : negb _ = false |- _ => apply negb_false_iff in E
  | E : (_ =? _)%string = true |- _ => apply String.eqb_eq in E
  | E : bool_decide _ = true |- _ => apply bool_decide_eq_true in E
  | E : (_ <? _)%nat = false |- _ => apply Nat.ltb_ge in E
  end.
  split_and!; try done. intros Hm. rewrite Hm in *. by apply Nat.ltb_ge.
Qed.

(** The kind of outcome a plan carries out, and its rationale. *)
Definition plan_kind (plan : ApplyPlan) : FeedbackOutcomeKind :=
  match plan with
  | ApplyPlan.NoAction _ => FeedbackOutcomeKind.NoAction
  | ApplyPlan.NudgeWorker _ _ _ => FeedbackOutcomeKind.NudgeWorker
  | ApplyPlan.PromoteFollowup _ _ _ => FeedbackOutcomeKind.PromoteReviewerFollowup
  | ApplyPlan.WaiveFollowup _ _ _ => FeedbackOutcomeKind.WaiveReviewerFollowup
  | ApplyPlan.RequestRework _ _ => FeedbackOutcomeKind.RequestRework
  | ApplyPlan.RetryRun _ _ _ => FeedbackOutcomeKind.RetryRun
  | ApplyPlan.QueueConflictResolution _ _ => FeedbackOutcomeKind.QueueConflictResolution
  | ApplyPlan.RequestIntegrationRepair _ _ => FeedbackOutcomeKind.RequestIntegrationRepair
  | ApplyPlan.RequestOperatorClarification _ _ => FeedbackOutcomeKind.RequestOperatorClarification
  | ApplyPlan.EnterDrain _ => FeedbackOutcomeKind.EnterDrain
  | ApplyPlan.EnterSafeMode _ => FeedbackOutcomeKind.EnterSafeMode
  | ApplyPlan.Escalate _ _ => FeedbackOutcomeKind.Escalate
  end.

Definition plan_rationale (plan : ApplyPlan) : string :=
  match plan with
  | ApplyPlan.NoAction r | ApplyPlan.NudgeWorker _ _ r | ApplyPlan.PromoteFollowup _ _ r
  | ApplyPlan.WaiveFollowup _ _ r | ApplyPlan.RequestRework _ r | ApplyPlan.RetryRun _ _ r
  | ApplyPlan.QueueConflictResolution _ r | ApplyPlan.RequestIntegrationRepair _ r
  | ApplyPlan.RequestOperatorClarification _ r | ApplyPlan.EnterDrain r | ApplyPlan.EnterSafeMode r
  | ApplyPlan.Escalate _ r => r
  end.

Definition targets_followup (kind : FeedbackOutcomeKind) : bool :=
  match kind with
  | FeedbackOutcomeKind.PromoteReviewerFollowup | FeedbackOutcomeKind.WaiveReviewerFollowup => true
  | _ => false
  end.

Lemma plan_followup_cases verb plan decision :
  tr_kind (br_trigger (fd_brief decision)) = FeedbackTriggerKind.ReviewerFollowup ->
  is_blank (fo_followup_id (fd_outcome decision)) = false ->
  match decision_task decision with
  | Some task_id => exists followup_id,
      plan_followup verb plan decision = plan task_id followup_id (fo_rationale (fd_outcome decision))
  | None => plan_followup verb plan decision = missing_field_escalation None "task_id" (fd_outcome decision)
  end.
Proof.
  unfold plan_followup, non_blank. intros ->. destruct (decision_task decision) as [t|]; [|done].
  destruct (fo_followup_id (fd_outcome decision)) as [f|]; cbn; [|done]. intros ->. cbn. eauto.
Qed.

Lemma plan_of_accepted now brief outcome policy decision :
  validate_outcome now brief outcome policy = OutcomeValidation.Accepted decision ->
  let plan := plan_application decision in
  plan_kind plan = fo_kind outcome /\ plan_rationale plan = fo_rationale outcome
  \/ targets_followup (fo_kind outcome) = true /\ decision_task decision = None
     /\ plan = missing_field_escalation None "task_id" outcome.
Proof.
  intros (-> & _ & _ & _ & _ & Hfit & _ & _ & Hreq)%validate_accepted. cbn zeta.
  unfold plan_application, plan_on_task, decision_task in *. cbn [fd_outcome fd_brief].
  unfold required_fields_missing in Hreq.
  destruct (fo_kind outcome) eqn:Hk; cbn in *; try (left; done).
  all: try (destruct (fo_task_id outcome); [left; done|discriminate]).
  all: destruct (is_blank (fo_followup_id outcome)) eqn:Hb; [discriminate|].
  all: destruct (tr_kind (br_trigger brief)) eqn:Ht; try discriminate.
  all: match goal with |- context [plan_followup ?v ?p ?d] =>
    pose proof (plan_followup_cases v p d Ht Hb) as Hp end.
  all: unfold decision_task in Hp; cbn [fd_outcome fd_brief] in Hp.
  all: destruct (match fo_task_id outcome with Some _ => _ | None => _ end) as [t|] eqn:E;
    [destruct Hp as (f & ->); by left|right; by rewrite Hp].
Qed.

(** an accepted outcome answers the turn and the trigger of its brief, is
    of a kind that policy, brief and trigger allow, has a rationale within the
    bounds of the policy, and is planned as what it says with its own rationale;
    the one exception is a follow-up without any task, which is escalated. In
    particular a drain or safe mode is planned only where the policy enables it. *)
Theorem accepted_outcome_plan now brief outcome policy decision :
  validate_outcome now brief outcome policy = OutcomeValidation.Accepted decision ->
  let plan := plan_application decision in
  let kind := fo_kind outcome in
  fo_turn_id outcome = br_turn_id brief /\ fo_trigger_id outcome = tr_trigger_id (br_trigger brief)
  /\ kind ∈ fp_allowed_outcomes policy /\ kind ∈ br_allowed_outcomes brief
  /\ outcome_allowed_for_trigger (tr_kind (br_trigger brief)) kind = true
  /\ char_count (fo_rationale outcome) <= fp_rationale_max_chars policy
  /\ (is_mutating kind = true -> fp_rationale_min_chars policy <= char_count (fo_rationale outcome))
  /\ (plan_kind plan = kind /\ plan_rationale plan = fo_rationale outcome
      \/ targets_followup kind = true /\ decision_task decision = None
         /\ plan = missing_field_escalation None "task_id" outcome)
  /\ (plan_kind plan = FeedbackOutcomeKind.EnterDrain -> fp_allow_drain policy = true)
  /\ (plan_kind plan = FeedbackOutcomeKind.EnterSafeMode -> fp_allow_safe_mode policy = true).
Proof.
  intros Hacc. cbn zeta. pose proof (plan_of_accepted _ _ _ _ _ Hacc) as Hplan.
  apply validate_accepted in Hacc as (_ & Hturn & Htrig & Hallow & Hin & Hfit & Hmax & Hmin & _).
  unfold allows in Hallow. destruct (bool_decide_reflect (fo_kind outcome ∈ fp_allowed_outcomes policy))
    as [Hpol|]; [cbn in Hallow|discriminate].
  split_and!; try done; intros Hk; destruct Hplan as [[Heq _]|(_ & _ & Heq)];
    rewrite Heq in Hk; try discriminate; by rewrite Hk in Hallow.
Qed.
End accepted.

(** ** The events of a turn *)

Section turn.
Context `{EventStoreLaws} `{FeedbackActionExecutor} (now : DateTime).
Context (brief : FeedbackBrief) (outcome : FeedbackOutcome) (policy : FeedbackPolicy).

Definition turn_started : Event :=
  let trigger := br_trigger brief in
  turn_event now brief
    (EventKind.FeedbackTurnStarted (tr_trigger_id trigger) (br_turn_id brief) (tr_task_id trigger)
      (tr_source_event_ids trigger) (tr_covered_event_range trigger) (fo_supervisor_id outcome) now).

Definition outcome_received : Event :=
  let trigger := br_trigger brief in
  turn_event now brief
    (EventKind.FeedbackOutcomeReceived (tr_trigger_id trigger) (br_turn_id brief) (tr_task_id trigger)
      (tr_source_event_ids trigger) (tr_covered_event_range trigger) (fo_kind outcome) now).

Definition effects_of (plan : ApplyPlan) : list Event :=
  option_list (turn_event now brief <$> effect_event brief outcome plan).

Definition recorded : list Event :=
  [turn_started; outcome_received; outcome_validated now brief outcome; decision_recorded now brief outcome now].

(** The events of a complete turn with a given result. *)
Definition turn_log (plan : ApplyPlan) (result : FeedbackLifecycleResult) : list Event :=
  match result with
  | FeedbackLifecycleResult.Rejected reason message =>
      [turn_started; outcome_received; outcome_rejected now brief outcome reason message]
  | FeedbackLifecycleResult.Applied summary =>
      recorded ++ effects_of plan ++ [feedback_applied now brief outcome summary]
  | FeedbackLifecycleResult.Failed error => recorded ++ [feedback_failed now brief outcome error]
  end.

Definition the_plan : ApplyPlan := plan_application (mkFeedbackDecision brief outcome now).

(** How a turn ended: the executor acted on the plan of an accepted outcome,
    exactly when the result says so. *)
Definition turn_result (x x' : fx_state) (result : FeedbackLifecycleResult) : Prop :=
  match result with
  | FeedbackLifecycleResult.Rejected reason message =>
      validate_outcome now brief outcome policy = OutcomeValidation.Rejected reason message /\ x' = x
  | FeedbackLifecycleResult.Applied summary =>
      validate_outcome now brief outcome policy
        = OutcomeValidation.Accepted (mkFeedbackDecision brief outcome now)
      /\ fx_apply the_plan x = (x', Ok summary)
  | FeedbackLifecycleResult.Failed error =>
      validate_outcome now brief outcome policy
        = OutcomeValidation.Accepted (mkFeedbackDecision brief outcome now)
      /\ fx_apply the_plan x = (x', Err error)
  end.

(** What a turn leaves behind, from the log [log] and the executor state [x]. *)
Definition turn_post (log : list Event) (x : fx_state) (w : es_state * fx_state)
    (r : Result FeedbackLifecycleResult PortError) : Prop :=
  exists events, es_log w.1 = log ++ events
  /\ match r with
     | Ok result => events = turn_log the_plan result /\ turn_result x w.2 result
     | Err _ => (exists result, events `prefix_of` turn_log the_plan result)
                /\ (w.2 = x \/ recorded `prefix_of` events)
     end.

Lemma append_then {A} e (k : EventId -> SM (es_state * fx_state) PortError A) w log l Q :
  es_log w.1 = log ++ l ->
  (forall s id, es_log s = log ++ l ++ [e] -> sm_post (k id) (s, w.2) Q) ->
  (forall s err l', es_log s = log ++ l' -> l' = l \/ l' = l ++ [e] -> Q (s, w.2) (Err err)) ->
  sm_post (sm_bind (append_event e) k) w Q.
Proof.
  intros Hw Hok Herr. apply sm_post_bind. unfold sm_post, append_event.
  destruct (es_append e w.1) as [s r] eqn:E. cbn.
  apply es_append_law in E as [Hs|[Hr Hs]]; rewrite Hw, <-?app_assoc in Hs.
  - destruct r as [id|err]; [by eapply Hok|]. eapply Herr; [exact Hs|by right].
  - destruct r as [id|err]; [done|]. eapply Herr; [exact Hs|by left].
Qed.

(** A turn that stops at a failed append has logged a part of [full]. *)
Lemma turn_stopped log x x' s err l l' e result :
  es_log s = log ++ l' -> l' = l \/ l' = l ++ [e] ->
  l ++ [e] `prefix_of` turn_log the_plan result -> (x' = x \/ recorded `prefix_of` l) ->
  turn_post log x (s, x') (Err err).
Proof.
  intros Hs Hl Hpre Hx. exists l'. split; [done|].
  assert (Hl' : l' `prefix_of` l ++ [e]) by (destruct Hl as [->| ->]; [apply prefix_app_r|]; done).
  split; [exists result; by etrans|]. destruct Hx as [|Hx]; [by left|]. right.
  etrans; [exact Hx|]. destruct Hl as [->| ->]; [done|by apply prefix_app_r].
Qed.

Lemma apply_accepted log x w decision :
  validate_outcome now brief outcome policy = OutcomeValidation.Accepted decision ->
  es_log w.1 = log ++ recorded -> w.2 = x ->
  sm_post (sm_catch (execute_plan (plan_application decision))
    (fun summary =>
      let! _ := emit_event_native_effects now brief outcome (plan_application decision) in
      let! _ := append_event (feedback_applied now brief outcome summary) in
      sm_ret (FeedbackLifecycleResult.Applied summary))
    (fun error =>
      let! _ := append_event (feedback_failed now brief outcome error) in
      sm_ret (FeedbackLifecycleResult.Failed error))) w (turn_post log x).
Proof.
  intros Hacc Hw Hx. destruct (validate_accepted _ _ _ _ _ Hacc) as [-> _]. change (plan_application _) with the_plan.
  apply sm_post_catch. unfold sm_post at 1, execute_plan.
  destruct (fx_apply the_plan w.2) as [x' [summary|error]] eqn:Ex; cbn -[append_event]; rewrite Hx in Ex.
  - set (apply_step := fun _ : unit => sm_bind (append_event (feedback_applied now brief outcome summary))
      (fun _ => sm_ret (FeedbackLifecycleResult.Applied summary))).
    assert (Hend : forall s, es_log s = log ++ recorded ++ effects_of the_plan ->
      sm_post (apply_step tt) (s, x') (turn_post log x)).
    { intros s Hs. eapply append_then; [exact Hs|..].
      - intros s' id Hs'. apply sm_post_ret. exists (turn_log the_plan (FeedbackLifecycleResult.Applied summary)).
        cbn [fst]. split; [by rewrite Hs', <-!app_assoc|done].
      - intros s' err l' Hs' Hl. eapply turn_stopped; [exact Hs'|exact Hl|..].
        + instantiate (1 := FeedbackLifecycleResult.Applied summary). cbn [turn_log]. by rewrite <-app_assoc.
        + right. by apply prefix_app_r. }
    unfold emit_event_native_effects. unfold effects_of in Hend.
    destruct (effect_event brief outcome the_plan) as [kind|] eqn:Ek.
    + apply sm_post_bind. eapply append_then; [exact Hw|..]; cbn [snd].
      * intros s id Hs. apply sm_post_ret, Hend. exact Hs.
      * intros s err l' Hs Hl. eapply turn_stopped; [exact Hs|exact Hl| |by right].
        instantiate (1 := FeedbackLifecycleResult.Applied summary). cbn [turn_log].
        unfold effects_of. rewrite Ek. cbn [fmap option_fmap option_map option_list].
        rewrite app_assoc. by apply prefix_app_r.
    + apply sm_post_bind, sm_post_ret, Hend. exact Hw.
  - eapply append_then; [exact Hw|..]; cbn [snd].
    + intros s id Hs. apply sm_post_ret. exists (turn_log the_plan (FeedbackLifecycleResult.Failed error)).
      split; [done|]. done.
    + intros s err l' Hs Hl. eapply turn_stopped; [exact Hs|exact Hl| |by right].
      by instantiate (1 := FeedbackLifecycleResult.Failed error).
Qed.

Lemma turn_recorded w :
  sm_post (record_validate_and_apply_outcome now brief outcome policy) w (turn_post (es_log w.1) w.2).
Proof.
  unfold record_validate_and_apply_outcome, record_turn_started, append_outcome_received.
  assert (Hstop : forall s err l l' e result, es_log s = es_log w.1 ++ l' -> l' = l \/ l' = l ++ [e] ->
    l ++ [e] `prefix_of` turn_log the_plan result -> turn_post (es_log w.1) w.2 (s, w.2) (Err err)).
  { intros. eapply turn_stopped; eauto. }
  eapply (append_then turn_started); [by rewrite app_nil_r| |].
  2: { intros s err l' Hs Hl. eapply (Hstop s err []); [exact Hs|exact Hl|].
       instantiate (1 := FeedbackLifecycleResult.Failed ""). by exists (tail recorded ++ [feedback_failed now brief outcome ""]). }
  intros s1 id1 Hs1. cbn [app snd] in *.
  eapply (append_then outcome_received); [exact Hs1| |].
  2: { intros s err l' Hs Hl. eapply Hstop; [exact Hs|exact Hl|].
       instantiate (1 := FeedbackLifecycleResult.Failed "").
       by exists (drop 2 recorded ++ [feedback_failed now brief outcome ""]). }
  intros s2 id2 Hs2. cbn [app snd] in *.
  destruct (validate_outcome now brief outcome policy) as [decision|reason message] eqn:Hv.
  - destruct (validate_accepted _ _ _ _ _ Hv) as [Hd _].
    eapply append_then; [exact Hs2| |].
    2: { intros s err l' Hs Hl. eapply Hstop; [exact Hs|exact Hl|].
         instantiate (1 := FeedbackLifecycleResult.Failed "").
         by exists (drop 3 recorded ++ [feedback_failed now brief outcome ""]). }
    intros s3 id3 Hs3. cbn [app snd] in *. eapply append_then; [exact Hs3| |].
    2: { intros s err l' Hs Hl. eapply Hstop; [exact Hs|exact Hl|].
         instantiate (1 := FeedbackLifecycleResult.Failed ""). rewrite Hd.
         by exists [feedback_failed now brief outcome ""]. }
    intros s4 id4 Hs4. rewrite Hd in Hs4. by apply apply_accepted.
  - eapply append_then; [exact Hs2| |].
    + intros s3 id3 Hs3. apply sm_post_ret.
      exists (turn_log the_plan (FeedbackLifecycleResult.Rejected reason message)). by split_and!.
    + intros s err l' Hs Hl. eapply Hstop; [exact Hs|exact Hl|].
      by instantiate (1 := FeedbackLifecycleResult.Rejected reason message).
Qed.
End turn.

(** what one feedback turn leaves behind, whatever appends fail. A turn that
    ends logs exactly the events of its result: a rejected outcome three events
    and no effect; an accepted one its validation and its decision before the
    executor sees the plan, then the event of a drain or an escalation and
    [FeedbackApplied], or [FeedbackFailed] with the executor's error. A turn
    that stops at a storage error has logged a part of such a sequence, and the
    executor has acted only if the decision is already in the log. *)
Theorem feedback_turn_exact `{EventStoreLaws} `{FeedbackActionExecutor} now brief outcome policy w w' r :
  record_validate_and_apply_outcome now brief outcome policy w = (w', r) ->
  exists events, es_log w'.1 = es_log w.1 ++ events
  /\ match r with
     | Ok result =>
         events = turn_log now brief outcome (the_plan now brief outcome) result
         /\ turn_result now brief outcome policy w.2 w'.2 result
     | Err _ =>
         (exists result, events `prefix_of` turn_log now brief outcome (the_plan now brief outcome) result)
         /\ (w'.2 = w.2 \/ recorded now brief outcome `prefix_of` events)
     end.
Proof.
  intros E. pose proof (turn_recorded now brief outcome policy w) as Hpost.
  unfold sm_post in Hpost. by rewrite E in Hpost.
Qed.

Module TurnSample.
Definition trigger : FeedbackTrigger :=
  make_trigger FeedbackTriggerKind.WorkerFailed (Some "T1") (Some "R1") None [7%Z] (Some (7%Z, 7%Z)) 0%Z
    "Run R1 failed: tests" (JObject [("reason", JString "tests")]).

Definition context : BriefSourceContext := mkBriefSourceContext None None None None [] [] None.

Definition policy : FeedbackPolicy :=
  mkFeedbackPolicy all_outcomes 4 40 600 true false.

Definition brief : FeedbackBrief := build_brief 1%Z trigger context policy.

Definition outcome : FeedbackOutcome :=
  mkFeedbackOutcome 1%Z (br_turn_id brief) (tr_trigger_id trigger) FeedbackOutcomeKind.EnterDrain
    "stop here" None None None None JNull.

(** A drain is accepted, and applied by the executor for events only. *)
Lemma outcome_accepted :
  validate_outcome 2%Z brief outcome policy = OutcomeValidation.Accepted (mkFeedbackDecision brief outcome 2%Z).
Proof. vm_compute. reflexivity. Defined.

#[local] Existing Instances Mem.store Mem.store_laws EventOnlyFeedbackActionExecutor.

Definition turn := record_validate_and_apply_outcome 2%Z brief outcome policy ([], tt).

(** A whole turn: six events, the last [FeedbackApplied] after the drain. *)
Lemma feedback_turn_exact_witness :
  exists w r, turn = (w, r)
  /\ (exists summary, r = Ok (FeedbackLifecycleResult.Applied summary)) /\ length (es_log w.1) = 6
  /\ exists events, es_log w.1 = es_log [] ++ events
     /\ match r with
        | Ok result =>
            events = turn_log 2%Z brief outcome
                       (the_plan 2%Z brief outcome) result
            /\ turn_result 2%Z brief outcome
                 policy tt w.2 result
        | Err _ =>
            (exists result, events `prefix_of` turn_log 2%Z brief outcome
                              (the_plan 2%Z brief outcome) result)
            /\ (w.2 = tt \/ recorded 2%Z brief outcome `prefix_of` events)
        end.
Proof.
  eexists _, _. split; [by apply surjective_pairing|].
  split; [eexists; vm_compute; reflexivity|]. split; [vm_compute; reflexivity|].
  apply (@feedback_turn_exact Mem.store Mem.store_laws EventOnlyFeedbackActionExecutor 2%Z brief outcome
    policy ([], tt)). apply surjective_pairing.
Defined.
End TurnSample.

Lemma accepted_outcome_plan_witness :
  let decision := mkFeedbackDecision TurnSample.brief TurnSample.outcome 2%Z in
  validate_outcome 2%Z TurnSample.brief TurnSample.outcome TurnSample.policy
    = OutcomeValidation.Accepted decision
  /\ plan_application decision = ApplyPlan.EnterDrain "stop here"
  /\ (plan_kind (plan_application decision) = FeedbackOutcomeKind.EnterDrain ->
      fp_allow_drain TurnSample.policy = true).
Proof.
  split; [exact TurnSample.outcome_accepted|split; [reflexivity|]].
  apply (accepted_outcome_plan 2%Z TurnSample.brief TurnSample.outcome TurnSample.policy
    (mkFeedbackDecision TurnSample.brief TurnSample.outcome 2%Z) TurnSample.outcome_accepted).
Defined.
