(* ===== verification/EventMonitor.v ===== *)
(** * Event monitor, stuck detection and nudges (event_monitor.rs,
    stuck_detection.rs and nudge.rs of brehon-supervisor)

    The supervisor keeps an in-memory state of agents and tasks, rebuilt from
    the events of the log, and derives from it which agents are stuck.  One call
    of [process_event] reads the clock at most twice; [now 0] and [now 1] are
    the readings.  Proved here: the life of a nudge, and that bounding the state
    drops dead agents and merged tasks only. *)

From S2P Require Import Prelude StrLib Chars Types Events Queue Ports.

(** A [Duration] of seconds, in nanoseconds, and the whole seconds of one. *)
Definition seconds (s : Z) : Z := (s * 1000000000)%Z.
Definition as_secs (duration : Z) : Z := (duration / 1000000000)%Z.

(** [(a - b).to_std().unwrap_or(Duration::ZERO)] *)
Definition elapsed_since (a b : DateTime) : Z := Z.max 0 (a - b).

(** [DateTime::timestamp] *)
Definition unix_seconds (t : DateTime) : Z := (t / 1000000000)%Z.

(** ** Agents, tasks and nudges *)

Module NudgeDeliveryState.
Inductive NudgeDeliveryState := Delivered | Acknowledged | ActedOn | TimedOut.
End NudgeDeliveryState.
Abbreviation NudgeDeliveryState := NudgeDeliveryState.NudgeDeliveryState.

#[export] Instance NudgeDeliveryState_eq_dec : EqDecision NudgeDeliveryState.
Proof. solve_decision. Defined.

Module SystemState.
Inductive SystemState := Recovering | Running | Draining | SafeMode | Stopped.
End SystemState.
Abbreviation SystemState := SystemState.SystemState.

#[export] Instance SystemState_eq_dec : EqDecision SystemState.
Proof. solve_decision. Defined.

Record ActiveNudge := mkActiveNudge {
  an_nudge_id : string;
  an_nudge_kind : string;
  an_delivery_state : NudgeDeliveryState;
  an_sent_at : DateTime;
  an_acknowledged_at : option DateTime;
  an_acted_on_at : option DateTime;
  an_timed_out_at : option DateTime
}.

#[export] Instance eta_ActiveNudge : Eta ActiveNudge := fun n =>
  mkActiveNudge (an_nudge_id n) (an_nudge_kind n) (an_delivery_state n) (an_sent_at n)
    (an_acknowledged_at n) (an_acted_on_at n) (an_timed_out_at n).

Definition ActiveNudge_new (nudge_kind : string) (sent_at : DateTime) (session_id : string) : ActiveNudge :=
  mkActiveNudge (session_id +:+ "-" +:+ nudge_kind +:+ "-" +:+ pretty (unix_seconds sent_at)) nudge_kind
    NudgeDeliveryState.Delivered sent_at None None None.

Record AgentState := mkAgentState {
  ag_agent_id : string;
  ag_session_id : string;
  ag_role : string;
  ag_is_alive : bool;
  ag_current_task_id : option string;
  ag_last_event_at : DateTime;
  ag_current_operation : option string;
  ag_last_message_content : option string;
  ag_message_history : list (DateTime * string);
  ag_active_nudge : option ActiveNudge
}.

#[export] Instance eta_AgentState : Eta AgentState := fun a =>
  mkAgentState (ag_agent_id a) (ag_session_id a) (ag_role a) (ag_is_alive a) (ag_current_task_id a)
    (ag_last_event_at a) (ag_current_operation a) (ag_last_message_content a) (ag_message_history a)
    (ag_active_nudge a).

Definition AgentState_new (now : DateTime) (agent_id session_id role : string) : AgentState :=
  mkAgentState agent_id session_id role true None now None None [] None.

Definition is_in_operation (a : AgentState) : bool :=
  match ag_current_operation a with Some _ => true | None => false end.

Definition idle_duration (a : AgentState) (now : DateTime) : Z := elapsed_since now (ag_last_event_at a).

(** Keeping the last [limit] entries: [v.drain(0..v.len() - limit)]. *)
Definition keep_last {A} (limit : nat) (l : list A) : list A := drop (length l - limit) l.

Definition record_message (now : DateTime) (content : string) (a : AgentState) : AgentState :=
  a <| ag_last_message_content := Some content |>
    <| ag_message_history := keep_last 100 (ag_message_history a ++ [(now, content)]) |>.

Definition recent_messages (now : DateTime) (within_minutes : Z) (a : AgentState) : list string :=
  let cutoff := (now - seconds (within_minutes * 60))%Z in
  (filter (fun entry => cutoff <= entry.1)%Z (ag_message_history a)).*2.

Record TaskState := mkTaskState {
  ts_task_id : string;
  ts_status : TaskStatus;
  ts_assignee : option string;
  ts_session_id : option string;
  ts_last_event_at : DateTime
}.

#[export] Instance eta_TaskState : Eta TaskState := fun t =>
  mkTaskState (ts_task_id t) (ts_status t) (ts_assignee t) (ts_session_id t) (ts_last_event_at t).

Definition TaskState_new (now : DateTime) (task_id : string) : TaskState :=
  mkTaskState task_id TaskStatus.Pending None None now.

Record SupervisorState := mkSupervisorState {
  ss_agents : gmap string AgentState;
  ss_tasks : gmap string TaskState;
  ss_last_event_id : option EventId;
  ss_system_state : SystemState
}.

#[export] Instance eta_SupervisorState : Eta SupervisorState := fun s =>
  mkSupervisorState (ss_agents s) (ss_tasks s) (ss_last_event_id s) (ss_system_state s).

Definition SupervisorState_new : SupervisorState := mkSupervisorState ∅ ∅ None SystemState.Running.

(** ** The monitor *)

Section monitor.
Context {ord : IterOrder string}.

Definition agent_values (s : SupervisorState) : list AgentState := (iter_map (ss_agents s)).*2.

Definition active_agents (s : SupervisorState) : list AgentState := List.filter ag_is_alive (agent_values s).

Definition agents_in_operation (s : SupervisorState) : list AgentState :=
  List.filter (fun a => ag_is_alive a && is_in_operation a) (agent_values s).

Definition agents_by_role (role : string) (s : SupervisorState) : list AgentState :=
  List.filter (fun a => ag_is_alive a && String.eqb (ag_role a) role) (agent_values s).

Definition stuck_candidates (now : DateTime) (threshold_minutes : Z) (s : SupervisorState) : list AgentState :=
  List.filter (fun a => ag_is_alive a && negb (is_in_operation a)
      && (seconds (threshold_minutes * 60) <? idle_duration a now)%Z)
    (agent_values s).

Definition nudge_state_for_session (session_id : string) (s : SupervisorState) : option NudgeDeliveryState :=
  an_delivery_state <$> (ss_agents s !! session_id ≫= ag_active_nudge).

(** A nudge that still waits for an answer or for progress. *)
Definition is_open (n : ActiveNudge) : bool :=
  match an_delivery_state n with
  | NudgeDeliveryState.Delivered | NudgeDeliveryState.Acknowledged => true
  | _ => false
  end.

(** The closure of [nudge_timeout_events]. *)
Definition nudge_timeout_event (now : DateTime) (timeout : Z) (entry : string * AgentState) : option Event :=
  let '(session_id, agent) := entry in
  ag_active_nudge agent ≫= fun nudge =>
  if negb (is_open nudge) then None
  else
    let elapsed := elapsed_since now (an_sent_at nudge) in
    if (elapsed <? timeout)%Z then None
    else Some (mkEvent (EventKind.NudgeTimedOut session_id (an_nudge_id nudge) (an_nudge_kind nudge)
                          (as_secs elapsed)) now session_id).

Definition nudge_timeout_events (now : DateTime) (timeout : Z) (s : SupervisorState) : list Event :=
  omap (nudge_timeout_event now timeout) (iter_map (ss_agents s)).

Definition update_agent (session_id : string) (f : AgentState -> AgentState) (s : SupervisorState)
    : SupervisorState := s <| ss_agents := alter f session_id (ss_agents s) |>.

Definition update_task (task_id : string) (f : TaskState -> TaskState) (s : SupervisorState)
    : SupervisorState := s <| ss_tasks := alter f task_id (ss_tasks s) |>.

(** [if let Some(nudge) = &mut agent.active_nudge { if cond { f } }] *)
Definition update_nudge (cond : ActiveNudge -> bool) (f : ActiveNudge -> ActiveNudge) (a : AgentState)
    : AgentState :=
  a <| ag_active_nudge := (fun n => if cond n then f n else n) <$> ag_active_nudge a |>.

(** The event emitted for the nudge of a session that is in a given state. *)
Definition nudge_event (now : DateTime) (session_id : string) (in_state : NudgeDeliveryState)
    (kind : string -> EventKind) (s : SupervisorState) : list Event :=
  match ss_agents s !! session_id ≫= ag_active_nudge with
  | Some nudge =>
      if decide (an_delivery_state nudge = in_state)
      then [mkEvent (kind (an_nudge_kind nudge)) now session_id] else []
  | None => []
  end.

(** The loop of the [TaskAssigned] branch: the first living agent with the id. *)
Definition set_current_task (agent_id task_id : string) (s : SupervisorState) : SupervisorState :=
  match List.find (fun entry => String.eqb (ag_agent_id entry.2) agent_id && ag_is_alive entry.2)
          (iter_map (ss_agents s)) with
  | Some (session_id, _) => update_agent session_id (fun a => a <| ag_current_task_id := Some task_id |>) s
  | None => s
  end.

(** [EventMonitor::process_event]: the new state and the events to emit. *)
Definition monitor_event (now : nat -> DateTime) (event : Event) (event_id : EventId) (state : SupervisorState)
    : SupervisorState * list Event :=
  let s := state <| ss_last_event_id := Some event_id |> in
  let at_event := fun a => a <| ag_last_event_at := ev_timestamp event |> in
  match ev_kind event with
  | EventKind.AgentSpawned agent_id session_id role =>
      (s <| ss_agents := <[session_id := AgentState_new (now 0) agent_id session_id role]> (ss_agents s) |>, [])
  | EventKind.AgentDied _ session_id _ =>
      (update_agent session_id (fun a => a <| ag_is_alive := false |>) s, [])
  | EventKind.PromptSent session_id _ content =>
      (update_agent session_id (fun a => record_message (now 1) content (a <| ag_last_event_at := now 0 |>)) s, [])
  | EventKind.ResponseReceived session_id _ _ =>
      (update_agent session_id (fun a => a <| ag_last_event_at := now 0 |>) s,
       nudge_event (now 1) session_id NudgeDeliveryState.Delivered
         (fun kind => EventKind.NudgeAcknowledged session_id kind) s)
  | EventKind.OperationStarted session_id operation =>
      (update_agent session_id
         (fun a => a <| ag_last_event_at := now 0 |> <| ag_current_operation := Some operation |>) s,
       nudge_event (now 1) session_id NudgeDeliveryState.Acknowledged
         (fun kind => EventKind.NudgeActedOn session_id kind "operation") s)
  | EventKind.OperationCompleted session_id _ _ =>
      (update_agent session_id
         (fun a => a <| ag_last_event_at := now 0 |> <| ag_current_operation := None |>) s,
       nudge_event (now 1) session_id NudgeDeliveryState.Acknowledged
         (fun kind => EventKind.NudgeActedOn session_id kind "operation_completed") s)
  | EventKind.TaskCreated task_id =>
      (s <| ss_tasks := <[task_id := TaskState_new (now 0) task_id]> (ss_tasks s) |>, [])
  | EventKind.TaskAssigned task_id agent_id =>
      (set_current_task agent_id task_id
         (update_task task_id (fun t => t <| ts_status := TaskStatus.Assigned |>
            <| ts_assignee := Some agent_id |> <| ts_last_event_at := now 0 |>) s), [])
  | EventKind.TaskCompleted task_id =>
      (update_task task_id (fun t => t <| ts_status := TaskStatus.InReview |> <| ts_last_event_at := now 0 |>) s, [])
  | EventKind.NudgeSent session_id kind _ =>
      (update_agent session_id (fun a => at_event a
         <| ag_active_nudge := Some (ActiveNudge_new kind (ev_timestamp event) session_id) |>) s, [])
  | EventKind.NudgeAcknowledged session_id nudge_kind =>
      (update_agent session_id (fun a => update_nudge
         (fun n => bool_decide (an_delivery_state n = NudgeDeliveryState.Delivered)
                   && String.eqb (an_nudge_kind n) nudge_kind)
         (fun n => n <| an_delivery_state := NudgeDeliveryState.Acknowledged |>
                     <| an_acknowledged_at := Some (ev_timestamp event) |>) (at_event a)) s, [])
  | EventKind.NudgeActedOn session_id nudge_kind _ =>
      (update_agent session_id (fun a => update_nudge
         (fun n => bool_decide (an_delivery_state n = NudgeDeliveryState.Acknowledged)
                   && String.eqb (an_nudge_kind n) nudge_kind)
         (fun n => n <| an_delivery_state := NudgeDeliveryState.ActedOn |>
                     <| an_acted_on_at := Some (ev_timestamp event) |>) (at_event a)) s, [])
  | EventKind.NudgeTimedOut session_id nudge_id nudge_kind _ =>
      (update_agent session_id (fun a => update_nudge
         (fun n => is_open n && String.eqb (an_nudge_id n) nudge_id && String.eqb (an_nudge_kind n) nudge_kind)
         (fun n => n <| an_delivery_state := NudgeDeliveryState.TimedOut |>
                     <| an_timed_out_at := Some (ev_timestamp event) |>) (at_event a)) s, [])
  | EventKind.StuckDetected session_id _ _ =>
      (update_agent session_id (fun a => a <| ag_last_event_at := now 0 |>) s, [])
  | EventKind.SystemDraining _ => (s <| ss_system_state := SystemState.Draining |>, [])
  | _ => (s, [])
  end.

(** [collect] the keys of a kind, remove the first ones above the limit. *)
Definition prune {V} (f : V -> bool) (limit : nat) (m : gmap string V) : gmap string V :=
  let keys := (List.filter (fun entry => f entry.2) (iter_map m)).*1 in
  foldl (fun m k => delete k m) m (take (length keys - limit) keys).

(** [EventMonitor::apply_bounds] *)
Definition is_merged (t : TaskState) : bool :=
  match ts_status t with TaskStatus.Merged => true | _ => false end.

Definition monitor_apply_bounds (max_dead_agents max_completed_tasks : nat) (s : SupervisorState)
    : SupervisorState :=
  s <| ss_agents := prune (fun a => negb (ag_is_alive a)) max_dead_agents (ss_agents s) |>
    <| ss_tasks := prune is_merged max_completed_tasks (ss_tasks s) |>.
End monitor.

(** ** Well-formed monitor states *)

(** The times a nudge carries, by its state. *)
Definition nudge_times_ok (n : ActiveNudge) : Prop :=
  match an_delivery_state n with
  | NudgeDeliveryState.Delivered =>
      an_acknowledged_at n = None /\ an_acted_on_at n = None /\ an_timed_out_at n = None
  | NudgeDeliveryState.Acknowledged =>
      is_Some (an_acknowledged_at n) /\ an_acted_on_at n = None /\ an_timed_out_at n = None
  | NudgeDeliveryState.ActedOn =>
      is_Some (an_acknowledged_at n) /\ is_Some (an_acted_on_at n) /\ an_timed_out_at n = None
  | NudgeDeliveryState.TimedOut => an_acted_on_at n = None /\ is_Some (an_timed_out_at n)
  end.

Definition nudge_wf (session_id : string) (n : ActiveNudge) : Prop :=
  an_nudge_id n = an_nudge_id (ActiveNudge_new (an_nudge_kind n) (an_sent_at n) session_id)
  /\ nudge_times_ok n.

Definition agent_wf (session_id : string) (a : AgentState) : Prop :=
  ag_session_id a = session_id /\ length (ag_message_history a) <= 100
  /\ (forall n, ag_active_nudge a = Some n -> nudge_wf session_id n).

(** The monitor follows a task up to its review and no further. *)
Definition task_wf (t : TaskState) : Prop :=
  match ts_status t with
  | TaskStatus.Pending | TaskStatus.Assigned | TaskStatus.InReview => True
  | _ => False
  end.

Definition monitor_wf (s : SupervisorState) : Prop :=
  map_Forall agent_wf (ss_agents s) /\ map_Forall (fun _ => task_wf) (ss_tasks s).

Lemma map_Forall_alter {K V} `{Countable K} (P : K -> V -> Prop) (f : V -> V) k (m : gmap K V) :
  map_Forall P m -> (forall v, P k v -> P k (f v)) -> map_Forall P (alter f k m).
Proof.
  intros Hm Hf j v. destruct (decide (k = j)) as [<-|Hne].
  - rewrite lookup_alter_eq. intros (u & Hu & ->)%fmap_Some. eauto.
  - rewrite lookup_alter_ne by done. eauto.
Qed.

Lemma foldl_delete_subseteq {K V} `{Countable K} (keys : list K) (m : gmap K V) :
  foldl (fun m k => delete k m) m keys ⊆ m.
Proof.
  revert m. induction keys as [|k keys IH]; intros m; cbn; [done|].
  etrans; [apply IH|]. apply delete_subseteq.
Qed.

Lemma length_keep_last {A} limit (l : list A) : length (keep_last limit l) <= limit.
Proof. unfold keep_last. rewrite length_drop. lia. Qed.

Section monitor_proofs.
Context {ord : IterOrder string}.

Lemma update_agent_wf session_id f s :
  monitor_wf s -> (forall a, agent_wf session_id a -> agent_wf session_id (f a)) ->
  monitor_wf (update_agent session_id f s).
Proof. intros [Ha Ht] Hf. split; [|done]. by apply map_Forall_alter. Qed.

Lemma update_task_wf task_id f s :
  monitor_wf s -> (forall t, task_wf t -> task_wf (f t)) -> monitor_wf (update_task task_id f s).
Proof. intros [Ha Ht] Hf. split; [done|]. by apply map_Forall_alter. Qed.

Lemma set_current_task_wf agent_id task_id s : monitor_wf s -> monitor_wf (set_current_task agent_id task_id s).
Proof.
  intros Hs. unfold set_current_task. case_match; [|done]. case_match. by apply update_agent_wf.
Qed.

(** Changes of an agent that leave its session, messages and nudge alone. *)
Definition same_nudge (a a' : AgentState) : Prop :=
  ag_session_id a' = ag_session_id a /\ ag_message_history a' = ag_message_history a
  /\ ag_active_nudge a' = ag_active_nudge a.

Lemma same_nudge_wf session_id a a' : same_nudge a a' -> agent_wf session_id a -> agent_wf session_id a'.
Proof. unfold agent_wf. by intros (-> & -> & ->). Qed.

Lemma update_nudge_wf session_id cond f a :
  agent_wf session_id a ->
  (forall n, nudge_wf session_id n -> cond n = true -> nudge_wf session_id (f n)) ->
  agent_wf session_id (update_nudge cond f a).
Proof.
  intros (Hs & Hh & Hn) Hf. split_and!; [done..|]. cbn. intros n' (n & Ho & ->)%fmap_Some.
  destruct (cond n) eqn:E; eauto.
Qed.

Lemma monitor_event_wf now event event_id s :
  monitor_wf s -> monitor_wf (monitor_event now event event_id s).1.
Proof.
  intros Hs. assert (Hs' : monitor_wf (s <| ss_last_event_id := Some event_id |>)) by exact Hs.
  unfold monitor_event. set (s1 := s <| ss_last_event_id := Some event_id |>) in *. clearbody s1.
  destruct (ev_kind event); cbn [fst]; try exact Hs'.
  all: try (apply update_agent_wf; [done|]; intros a; by apply same_nudge_wf).
  all: try (apply update_task_wf; [done|]; by intros t).
  - destruct Hs' as [Ha Ht]. split; [|done]. apply map_Forall_insert_2; [|done].
    split_and!; cbn; [done|lia|done].
  - apply update_agent_wf; [done|]. intros a (Hsid & Hh & Hn). split_and!; [done|apply length_keep_last|done].
  - destruct Hs' as [Ha Ht]. split; [done|]. by apply map_Forall_insert_2.
  - apply set_current_task_wf, update_task_wf; [done|]. by intros t.
  - apply update_agent_wf; [done|]. intros a (Hsid & Hh & Hn). split_and!; [done..|].
    cbn. intros n [= <-]. by split.
  - apply update_agent_wf; [done|]. intros a Ha. apply update_nudge_wf; [exact Ha|].
    intros n [Hid Hst] [Hd%bool_decide_eq_true _]%andb_true_iff. split; [exact Hid|].
    unfold nudge_times_ok in *. rewrite Hd in Hst. cbn. naive_solver.
  - apply update_agent_wf; [done|]. intros a Ha. apply update_nudge_wf; [exact Ha|].
    intros n [Hid Hst] [Hd%bool_decide_eq_true _]%andb_true_iff. split; [exact Hid|].
    unfold nudge_times_ok in *. rewrite Hd in Hst. cbn. naive_solver.
  - apply update_agent_wf; [done|]. intros a Ha. apply update_nudge_wf; [exact Ha|].
    intros n [Hid Hst] [[Ho _]%andb_true_iff _]%andb_true_iff. split; [exact Hid|].
    unfold is_open, nudge_times_ok in *. cbn. destruct (an_delivery_state n); naive_solver.
Qed.

Lemma prune_subseteq {V} (f : V -> bool) limit (m : gmap string V) : prune f limit m ⊆ m.
Proof. apply foldl_delete_subseteq. Qed.

Lemma map_Forall_subseteq {V} (P : string -> V -> Prop) (m m' : gmap string V) :
  m' ⊆ m -> map_Forall P m -> map_Forall P m'.
Proof. intros Hsub Hm k v Hk. apply Hm. by eapply lookup_weaken. Qed.

Lemma monitor_bounds_wf dead completed s : monitor_wf s -> monitor_wf (monitor_apply_bounds dead completed s).
Proof. intros [Ha Ht]. split; cbn; (eapply map_Forall_subseteq; [apply prune_subseteq|done]). Qed.

(** States of a monitor fed with any events and bounded at any times. *)
Inductive monitor_reachable : SupervisorState -> Prop :=
| mr_new : monitor_reachable SupervisorState_new
| mr_event now event event_id s :
    monitor_reachable s -> monitor_reachable (monitor_event now event event_id s).1
| mr_bounds dead completed s :
    monitor_reachable s -> monitor_reachable (monitor_apply_bounds dead completed s).

Lemma monitor_reachable_wf s : monitor_reachable s -> monitor_wf s.
Proof.
  induction 1; [split; apply map_Forall_empty|by apply monitor_event_wf|by apply monitor_bounds_wf].
Qed.

(** *** One step of a nudge *)

Definition nudge_moves (n n' : ActiveNudge) : Prop :=
  an_nudge_id n' = an_nudge_id n /\ an_nudge_kind n' = an_nudge_kind n /\ an_sent_at n' = an_sent_at n
  /\ match an_delivery_state n, an_delivery_state n' with
     | NudgeDeliveryState.Delivered, (NudgeDeliveryState.Acknowledged | NudgeDeliveryState.TimedOut)
     | NudgeDeliveryState.Acknowledged, (NudgeDeliveryState.ActedOn | NudgeDeliveryState.TimedOut) => True
     | _, _ => False
     end.

(** What an event may do to the nudge [n] of an agent. *)
Definition nudge_after (event : Event) (session : string) (n : ActiveNudge) (o : option ActiveNudge) : Prop :=
  match o with
  | None => exists agent_id role, ev_kind event = EventKind.AgentSpawned agent_id session role
  | Some n' => n' = n \/ nudge_moves n n'
      \/ exists kind content, ev_kind event = EventKind.NudgeSent session kind content
           /\ n' = ActiveNudge_new kind (ev_timestamp event) session
  end.

Lemma update_agent_nudge event k f s session a n :
  ss_agents s !! session = Some a -> ag_active_nudge a = Some n ->
  (k = session -> nudge_after event session n (ag_active_nudge (f a))) ->
  exists a', ss_agents (update_agent k f s) !! session = Some a'
    /\ nudge_after event session n (ag_active_nudge a').
Proof.
  intros Ha Hn Hf. cbn. destruct (decide (k = session)) as [->|Hne].
  - exists (f a). rewrite lookup_alter_eq, Ha. split; [done|]. by apply Hf.
  - exists a. rewrite lookup_alter_ne, Hn by done. split; [done|by left].
Qed.

Lemma update_nudge_after event session cond g a n :
  ag_active_nudge a = Some n -> (cond n = true -> nudge_moves n (g n)) ->
  nudge_after event session n (ag_active_nudge (update_nudge cond g a)).
Proof. intros Hn Hg. cbn. rewrite Hn. cbn. destruct (cond n); [right; left; by apply Hg|by left]. Qed.

Lemma monitor_event_nudge now event event_id s session a n :
  ss_agents s !! session = Some a -> ag_active_nudge a = Some n ->
  exists a', ss_agents (monitor_event now event event_id s).1 !! session = Some a'
    /\ nudge_after event session n (ag_active_nudge a').
Proof.
  intros Ha Hn. unfold monitor_event. set (s1 := s <| ss_last_event_id := Some event_id |>).
  assert (Ha1 : ss_agents s1 !! session = Some a) by exact Ha. clearbody s1.
  assert (Hsame : exists a', ss_agents s1 !! session = Some a' /\ nudge_after event session n (ag_active_nudge a')).
  { exists a. rewrite Hn. split; [done|by left]. }
  destruct (ev_kind event) eqn:Ek; cbn [fst]; try exact Hsame.
  all: try (eapply update_agent_nudge; [exact Ha1|exact Hn|]; intros ->; cbn; rewrite Hn; by left).
  - cbn. destruct (decide (session_id = session)) as [->|Hne].
    + rewrite lookup_insert_eq. eexists. split; [done|]. cbn. eauto.
    + by rewrite lookup_insert_ne.
  - unfold set_current_task. case_match; [|exact Hsame]. case_match.
    eapply update_agent_nudge; [exact Ha1|exact Hn|]. intros ->. cbn. rewrite Hn. by left.
  - eapply update_agent_nudge; [exact Ha1|exact Hn|]. intros ->. cbn. right. right. eauto.
  - eapply update_agent_nudge; [exact Ha1|exact Hn|]. intros ->. apply update_nudge_after; [exact Hn|].
    intros [Hd%bool_decide_eq_true _]%andb_true_iff. split_and!; [done..|]. cbn. by rewrite Hd.
  - eapply update_agent_nudge; [exact Ha1|exact Hn|]. intros ->. apply update_nudge_after; [exact Hn|].
    intros [Hd%bool_decide_eq_true _]%andb_true_iff. split_and!; [done..|]. cbn. by rewrite Hd.
  - eapply update_agent_nudge; [exact Ha1|exact Hn|]. intros ->. apply update_nudge_after; [exact Hn|].
    intros [[Ho _]%andb_true_iff _]%andb_true_iff. split_and!; [done..|]. cbn.
    unfold is_open in Ho. by destruct (an_delivery_state n).
Qed.

(** in every state the monitor can reach, a nudge carries the times of its
    state and the id of its session, and the next event leaves it, moves it
    from delivered to acknowledged, from acknowledged to acted on, or from one
    of these two to timed out, or replaces it by a newly sent nudge; only a
    respawn of the session removes it. *)
Theorem nudge_lifecycle s now event event_id session a n :
  monitor_reachable s -> ss_agents s !! session = Some a -> ag_active_nudge a = Some n ->
  nudge_wf session n
  /\ exists a', ss_agents (monitor_event now event event_id s).1 !! session = Some a'
     /\ nudge_after event session n (ag_active_nudge a').
Proof.
  intros Hs Ha Hn. split; [|by eapply monitor_event_nudge].
  by apply (proj1 (monitor_reachable_wf s Hs) session a Ha).
Qed.

(** *** Bounds *)

Lemma foldl_delete_ne {V} (keys : list string) (m : gmap string V) k :
  k ∉ keys -> foldl (fun m k => delete k m) m keys !! k = m !! k.
Proof.
  revert m. induction keys as [|j keys IH]; intros m Hk; cbn; [done|].
  apply not_elem_of_cons in Hk as [Hne Hk]. by rewrite IH, lookup_delete_ne.
Qed.

Lemma size_foldl_delete {V} (keys : list string) (m : gmap string V) :
  NoDup keys -> (forall k, k ∈ keys -> is_Some (m !! k)) ->
  size (foldl (fun m k => delete k m) m keys) + length keys = size m.
Proof.
  revert m. induction keys as [|k keys IH]; intros m Hnd Hin; cbn; [lia|].
  apply NoDup_cons in Hnd as [Hk Hnd]. rewrite Nat.add_succ_r, IH; [|done|].
  - destruct (Hin k) as [v Hv]; [by constructor|].
    rewrite map_size_delete, Hv. assert (size m <> 0); [|lia].
    intros H0%map_size_empty_inv. by rewrite H0, lookup_empty in Hv.
  - intros j Hj. rewrite lookup_delete_ne by set_solver. apply Hin. by constructor.
Qed.

(** The entries a predicate selects. *)
Definition selected {V} (f : V -> bool) (m : gmap string V) : gmap string V := filter (fun kv => f kv.2 = true) m.

Lemma selected_foldl_delete {V} (f : V -> bool) keys (m : gmap string V) :
  selected f (foldl (fun m k => delete k m) m keys) = foldl (fun m k => delete k m) (selected f m) keys.
Proof.
  revert m. induction keys as [|k keys IH]; intros m; cbn; [done|].
  rewrite IH. unfold selected. by rewrite map_filter_delete.
Qed.

Definition prune_keys {V} (f : V -> bool) (m : gmap string V) : list string :=
  (List.filter (fun entry => f entry.2) (iter_map m)).*1.

Lemma elem_of_prune_keys {V} (f : V -> bool) (m : gmap string V) k :
  k ∈ prune_keys f m <-> is_Some (selected f m !! k).
Proof.
  unfold prune_keys. rewrite list_elem_of_fmap. split.
  - intros ([j v] & -> & [Hin Hf]%list_elem_of_In%filter_In). apply list_elem_of_In, elem_of_iter_map in Hin.
    exists v. by apply map_lookup_filter_Some.
  - intros [v [Hk Hf]%map_lookup_filter_Some]. exists (k, v). split; [done|].
    apply list_elem_of_In, filter_In. rewrite <-list_elem_of_In. by rewrite elem_of_iter_map.
Qed.

Lemma NoDup_prune_keys {V} (f : V -> bool) (m : gmap string V) : NoDup (prune_keys f m).
Proof.
  eapply sublist_NoDup; [apply (NoDup_iter_map_fst m)|]. apply fmap_sublist.
  induction (iter_map m) as [|x l IH]; cbn; [done|].
  destruct (f x.2); [by apply sublist_skip|by apply sublist_cons].
Qed.

Lemma prune_keeps {V} (f : V -> bool) limit (m : gmap string V) k v :
  m !! k = Some v -> f v = false -> prune f limit m !! k = Some v.
Proof.
  intros Hk Hf. unfold prune. fold (prune_keys f m). rewrite foldl_delete_ne; [done|].
  intros (i & Hi & _)%elem_of_take. apply list_elem_of_lookup_2, elem_of_prune_keys in Hi.
  destruct Hi as [w [Hw Hfw]%map_lookup_filter_Some]. cbn in Hfw. congruence.
Qed.

Lemma prune_size {V} (f : V -> bool) limit (m : gmap string V) :
  size (selected f (prune f limit m)) = Nat.min limit (size (selected f m)).
Proof.
  unfold prune. fold (prune_keys f m). rewrite selected_foldl_delete.
  assert (Hlen : length (prune_keys f m) = size (selected f m)).
  { pose proof (size_foldl_delete (prune_keys f m) (selected f m) (NoDup_prune_keys f m)) as Hsize.
    specialize (Hsize (fun k => proj1 (elem_of_prune_keys f m k))).
    assert (foldl (fun m k => delete k m) (selected f m) (prune_keys f m) = ∅) as Hempty.
    { apply map_empty. intros k. destruct (decide (k ∈ prune_keys f m)) as [Hk|Hk].
      - clear Hsize. revert Hk. generalize (selected f m). induction (prune_keys f m) as [|j l IH]; [set_solver|].
        intros m' Hk. cbn. destruct (decide (k ∈ l)) as [|Hl]; [by apply IH|].
        rewrite foldl_delete_ne by done. apply elem_of_cons in Hk as [->|]; [apply lookup_delete_eq|done].
      - rewrite foldl_delete_ne by done. apply eq_None_not_Some. by rewrite <-elem_of_prune_keys. }
    rewrite Hempty, map_size_empty in Hsize. lia. }
  pose proof (size_foldl_delete (take (length (prune_keys f m) - limit) (prune_keys f m)) (selected f m)) as Hsize.
  rewrite length_take in Hsize. unfold prune_keys in *. lapply Hsize.
  - intros Hs. rewrite Hlen in *. lapply Hs; [lia|]. intros k (i & Hi & _)%elem_of_take.
    apply list_elem_of_lookup_2 in Hi. by apply elem_of_prune_keys.
  - eapply sublist_NoDup; [apply (NoDup_prune_keys f m)|apply sublist_take].
Qed.

(** Bounding the monitor keeps every living agent and leaves at most
    [max_dead_agents] dead ones, exactly the bound if there were more; but it
    never removes a task, whatever the bound, because no event the monitor
    understands gives a task the status [Merged]. *)
Theorem monitor_bounds_exact s dead completed :
  monitor_reachable s ->
  let s' := monitor_apply_bounds dead completed s in
  ss_agents s' ⊆ ss_agents s
  /\ (forall k a, ss_agents s !! k = Some a -> ag_is_alive a = true -> ss_agents s' !! k = Some a)
  /\ size (selected (fun a => negb (ag_is_alive a)) (ss_agents s'))
     = Nat.min dead (size (selected (fun a => negb (ag_is_alive a)) (ss_agents s)))
  /\ ss_tasks s' = ss_tasks s.
Proof.
  intros [_ Htasks]%monitor_reachable_wf. cbn. split_and!; [apply prune_subseteq| |apply prune_size|].
  - intros k a Ha Halive. apply prune_keeps; [done|]. by rewrite Halive.
  - apply map_eq. intros k. destruct (ss_tasks s !! k) as [t|] eqn:Et.
    + apply prune_keeps; [done|]. specialize (Htasks k t Et). unfold task_wf, is_merged in *.
      by destruct (ts_status t).
    + apply eq_None_not_Some. intros [t Ht]. apply (lookup_weaken _ (ss_tasks s)) in Ht; [congruence|].
      apply prune_subseteq.
Qed.
End monitor_proofs.

(** ** A monitored session *)
Module MonitorSample.
#[local] Instance order : IterOrder string := canonical_order string.
Definition now (n : nat) : DateTime := Z.of_nat n.
Definition observe (kind : EventKind) (s : SupervisorState) : SupervisorState :=
  (monitor_event now (mkEvent kind 5%Z "s1") 1%Z s).1.

Definition nudged : SupervisorState :=
  observe (EventKind.NudgeSent "s1" "soft" "go on")
    (observe (EventKind.AgentSpawned "a" "s1" "worker") SupervisorState_new).

Definition acknowledged : Event := mkEvent (EventKind.NudgeAcknowledged "s1" "soft") 7%Z "s1".

Lemma nudged_reachable : monitor_reachable nudged.
Proof. apply mr_event, mr_event, mr_new. Qed.

(** The nudge of the session is acknowledged. *)
Lemma nudge_lifecycle_witness :
  nudge_state_for_session "s1" nudged = Some NudgeDeliveryState.Delivered
  /\ nudge_state_for_session "s1" (monitor_event now acknowledged 2%Z nudged).1 = Some NudgeDeliveryState.Acknowledged
  /\ exists a', ss_agents (monitor_event now acknowledged 2%Z nudged).1 !! "s1" = Some a'
     /\ nudge_after acknowledged "s1" (ActiveNudge_new "soft" 5%Z "s1") (ag_active_nudge a').
Proof.
  split; [vm_compute; reflexivity|split; [vm_compute; reflexivity|]].
  refine (proj2 (nudge_lifecycle nudged now acknowledged 2%Z "s1"
    (default (AgentState_new 0%Z "" "" "") (ss_agents nudged !! "s1")) _ nudged_reachable _ _));
    vm_compute; reflexivity.
Defined.

(** Two of three dead agents are forgotten. *)
Definition dead_agents : SupervisorState :=
  foldr (fun sid s => observe (EventKind.AgentDied "a" sid "lost") (observe (EventKind.AgentSpawned "a" sid "worker") s))
    nudged ["d1"; "d2"; "d3"].

Lemma monitor_bounds_exact_witness :
  let s' := monitor_apply_bounds 1 0 dead_agents in
  size (ss_agents dead_agents) = 4 /\ is_Some (ss_agents s' !! "s1")
  /\ size (selected (fun a => negb (ag_is_alive a)) (ss_agents s')) = 1.
Proof.
  destruct (monitor_bounds_exact dead_agents 1 0) as (_ & Halive & Hdead & _).
  - do 6 apply mr_event. exact nudged_reachable.
  - cbv zeta. split; [vm_compute; reflexivity|split].
    + eexists. eapply Halive; vm_compute; reflexivity.
    + rewrite Hdead. vm_compute. reflexivity.
Defined.
End MonitorSample.
