(* ===== verification/StuckDetection.v ===== *)
(** * Stuck detection and nudges (stuck_detection.rs and nudge.rs of
    brehon-supervisor)

    Which agents are stuck, by idle time or by a repeated message, with the
    variant that also looks at their tasks; and the sender of nudges with its
    history.  Proved here: which agents are reported, and that the history of
    nudges is bounded. *)

From Stdlib Require Import Ascii.
From S2P Require Import Prelude StrLib Chars Types Events Queue Ports EventMonitor.

(** ** Detection *)

Record StuckDetectionConfig := mkStuckDetectionConfig {
  sd_time_threshold_minutes : Z;
  sd_pattern_threshold : nat;
  sd_pattern_window_minutes : Z;
  sd_operation_aware : bool
}.

Definition StuckDetectionConfig_default : StuckDetectionConfig := mkStuckDetectionConfig 10 3 5 true.

Module RecommendedAction.
Inductive RecommendedAction := NudgeWorker | RequestReview | Reassign | CheckReview | Escalate.
End RecommendedAction.
Abbreviation RecommendedAction := RecommendedAction.RecommendedAction.

Record StuckInfo := mkStuckInfo {
  si_session_id : string;
  si_agent_id : string;
  si_idle_minutes : Z;
  si_pattern : option string;
  si_is_in_operation : bool;
  si_task_id : option string;
  si_task_status : option string;
  si_recommended_action : option RecommendedAction
}.

Record TaskContext := mkTaskContext {
  tc_task_id : string;
  tc_status : string;
  tc_assignee_agent_id : option string;
  tc_has_active_review : bool;
  tc_updated_at : DateTime
}.

Section detector.
Context {ord : IterOrder string} `{TextOps} (config : StuckDetectionConfig) (now : DateTime).

Definition is_exempt_from_time_check (agent : AgentState) : bool :=
  if negb (sd_operation_aware config) then false else is_in_operation agent.

Definition classify_pattern (message : string) : string :=
  let lower := to_lowercase message in
  if contains "error" lower || contains "failed" lower then "error_loop"
  else if contains "retrying" lower || contains "trying again" lower then "retry_loop"
  else if contains "waiting" lower || contains "pending" lower then "waiting_loop"
  else if contains "timeout" lower then "timeout_loop"
  else "repeated_message:" +:+ of_chars (take 50 (chars message)).

(** The counts of the messages, as the map that [fold] builds. *)
Definition message_counts (recent : list string) : gmap string nat :=
  foldl (fun acc msg => <[msg := S (default 0 (acc !! msg))]> acc) ∅ recent.

Definition detect_pattern (agent : AgentState) : option string :=
  if (sd_pattern_threshold config <? 2)%nat then None
  else
    let recent := recent_messages now (sd_pattern_window_minutes config) agent in
    if (length recent <? sd_pattern_threshold config)%nat then None
    else
      (fun entry => classify_pattern entry.1) <$>
        List.find (fun entry => sd_pattern_threshold config <=? entry.2)%nat (iter_map (message_counts recent)).

Definition idle_minutes (agent : AgentState) : Z := (as_secs (idle_duration agent now) / 60)%Z.

(** The body of the loop of [detect_stuck]. *)
Definition stuck_info (agent : AgentState) : option StuckInfo :=
  if negb (ag_is_alive agent) then None
  else
    let minutes := idle_minutes agent in
    let is_time_stuck := (sd_time_threshold_minutes config <=? minutes)%Z
                         && negb (is_exempt_from_time_check agent) in
    let pattern := detect_pattern agent in
    if is_time_stuck || match pattern with Some _ => true | None => false end
    then Some (mkStuckInfo (ag_session_id agent) (ag_agent_id agent) minutes pattern (is_in_operation agent)
                 None None None)
    else None.

Definition detect_stuck (agents : list AgentState) : list StuckInfo := omap stuck_info agents.

(** ** With tasks ([TaskAwareStuckDetector]) *)

(** [status.to_lowercase().replace("_", "")] *)
Definition normalize_status (status : string) : string := replace_char "_"%char "" (to_lowercase status).

Definition determine_action (task_status : string) (minutes : Z) (in_operation has_active_review : bool)
    : option RecommendedAction :=
  let normalized := normalize_status task_status in
  if String.eqb normalized "inprogress" then
    if in_operation then None else Some RecommendedAction.NudgeWorker
  else if String.eqb normalized "inreview" then
    Some (if has_active_review then RecommendedAction.CheckReview else RecommendedAction.RequestReview)
  else if String.eqb normalized "approved" then
    if (sd_time_threshold_minutes config <=? minutes)%Z then Some RecommendedAction.Escalate else None
  else None.

(** [collect] of the pairs of assignee and task: the last task wins. *)
Definition task_map (tasks : list TaskContext) : gmap string TaskContext :=
  foldl (fun m t => match tc_assignee_agent_id t with Some id => <[id := t]> m | None => m end) ∅ tasks.

Definition with_task (tasks : gmap string TaskContext) (stuck : StuckInfo) : StuckInfo :=
  match match tasks !! si_agent_id stuck with
        | Some task => Some task
        | None => tasks !! si_session_id stuck
        end with
  | Some task =>
      mkStuckInfo (si_session_id stuck) (si_agent_id stuck) (si_idle_minutes stuck) (si_pattern stuck)
        (si_is_in_operation stuck) (Some (tc_task_id task)) (Some (tc_status task))
        (determine_action (tc_status task) (si_idle_minutes stuck) (si_is_in_operation stuck)
           (tc_has_active_review task))
  | None => stuck
  end.

Definition detect_stuck_with_tasks (agents : list AgentState) (tasks : list TaskContext) : list StuckInfo :=
  with_task (task_map tasks) <$> detect_stuck agents.

(** [(Utc::now() - task.updated_at).num_minutes().max(0) as u64] *)
Definition task_idle_minutes (task : TaskContext) : Z :=
  Z.max 0 (Z.quot (now - tc_updated_at task) 60000000000).

(** The body of the loop of [reconcile_orphaned_tasks]. *)
Definition orphan_info (agents : list AgentState) (task : TaskContext) : option StuckInfo :=
  let alive := List.filter ag_is_alive agents in
  tc_assignee_agent_id task ≫= fun id =>
  if existsb (fun a => String.eqb (ag_agent_id a) id) alive
     || existsb (fun a => String.eqb (ag_session_id a) id) alive then None
  else
    let status := normalize_status (tc_status task) in
    (if String.eqb status "inprogress" || String.eqb status "inreview" then Some RecommendedAction.Reassign
     else if String.eqb status "approved" then Some RecommendedAction.Escalate
     else None) ≫= fun action =>
    Some (mkStuckInfo id id (task_idle_minutes task) None false (Some (tc_task_id task))
            (Some (tc_status task)) (Some action)).

Definition reconcile_orphaned_tasks (agents : list AgentState) (tasks : list TaskContext) : list StuckInfo :=
  omap (orphan_info agents) tasks.
End detector.

(** ** Nudges (nudge.rs) *)

Module NudgeKind.
Inductive NudgeKind := Soft | Guidance | Redirect | Resume.

Definition as_str (k : NudgeKind) : string :=
  match k with Soft => "soft" | Guidance => "guidance" | Redirect => "redirect" | Resume => "resume" end.
End NudgeKind.
Abbreviation NudgeKind := NudgeKind.NudgeKind.

(** The first template of each kind, the only one used. *)
Definition base_template (kind : NudgeKind) : string :=
  match kind with
  | NudgeKind.Soft => "Are you still working on this task? Please provide a status update."
  | NudgeKind.Guidance => "I noticed you might be stuck. Consider reviewing the requirements again and breaking down the task into smaller steps."
  | NudgeKind.Redirect => "This approach isn't progressing well. Please stop the current work and try a simpler solution first."
  | NudgeKind.Resume => "The operation has completed. You can now continue with your work."
  end.

Definition generate (kind : NudgeKind) (context : option string) : string :=
  match context with
  | Some ctx => base_template kind +:+ NL +:+ NL +:+ "Context: " +:+ ctx
  | None => base_template kind
  end.

Definition generate_with_pattern (kind : NudgeKind) (pattern : option string) : string :=
  match pattern with
  | Some p =>
      if contains "error" p then
        "I noticed you're encountering repeated errors (" +:+ p +:+ "). Please carefully review the error message and consider if there's a different approach."
      else if contains "retry" p then
        "You seem to be stuck in a retry loop. Consider whether the current approach is viable, or if you need to try something different."
      else generate kind (Some ("Pattern detected: " +:+ p))
  | None => generate kind None
  end.

Record Nudge := mkNudge { nd_kind : NudgeKind; nd_session_id : SessionId; nd_content : string }.

(** [NudgeId::new]: nanoseconds where they fit in an [i64], seconds otherwise *)
Definition NudgeId_new (session_id kind : string) (sent_at : DateTime) : string :=
  let stamp := if ((-9223372036854775808 <=? sent_at) && (sent_at <=? 9223372036854775807))%Z
               then sent_at else unix_seconds sent_at in
  session_id +:+ "-" +:+ kind +:+ "-" +:+ pretty stamp.

Record NudgeHistoryEntry := mkNudgeHistoryEntry {
  nh_nudge_id : string;
  nh_nudge : Nudge;
  nh_sent_at : DateTime;
  nh_success : bool
}.

Definition NudgeHistoryEntry_new (now : DateTime) (nudge : Nudge) (success : bool) : NudgeHistoryEntry :=
  mkNudgeHistoryEntry (NudgeId_new (nd_session_id nudge) (NudgeKind.as_str (nd_kind nudge)) now) nudge now success.

Definition DEFAULT_HISTORY_LIMIT : nat := 1000.

(** [NudgeSender], without its gateway *)
Record NudgeSender := mkNudgeSender {
  nx_history : list NudgeHistoryEntry;
  nx_history_limit : nat
}.

Definition NudgeSender_new : NudgeSender := mkNudgeSender [] DEFAULT_HISTORY_LIMIT.

Definition with_history_limit (limit : nat) (self : NudgeSender) : NudgeSender :=
  mkNudgeSender (nx_history self) limit.

Record PreparedNudge := mkPreparedNudge {
  pn_session_id : SessionId;
  pn_kind : NudgeKind;
  pn_content : string;
  pn_prompt : PromptTurn
}.

Definition prepare_nudge (now : DateTime) (uuid : string) (session_id : SessionId) (kind : NudgeKind)
    (content : string) : PreparedNudge :=
  mkPreparedNudge session_id kind content (mkPromptTurn uuid content MessageKind.Nudge now).

Definition prepare_nudge_with_pattern (now : DateTime) (uuid : string) (session_id : SessionId)
    (kind : NudgeKind) (pattern : option string) : PreparedNudge :=
  prepare_nudge now uuid session_id kind (generate_with_pattern kind pattern).

Definition record_prepared_nudge (now : DateTime) (prepared : PreparedNudge) (success : bool)
    (self : NudgeSender) : NudgeSender :=
  let history := nx_history self ++ [NudgeHistoryEntry_new now
    (mkNudge (pn_kind prepared) (pn_session_id prepared) (pn_content prepared)) success] in
  mkNudgeSender (if (0 <? nx_history_limit self)%nat then keep_last (nx_history_limit self) history else history)
    (nx_history_limit self).

(** [send_nudge] and [send_nudge_with_pattern], on the sender and its gateway *)
Definition send_prepared `{AgentSessions} (now : DateTime) (prepared : PreparedNudge)
    : SM (NudgeSender * gw_state) string unit := fun '(self, g) =>
  let '(g, result) := gw_send_prompt (pn_session_id prepared) (pn_prompt prepared) g in
  ((record_prepared_nudge now prepared (is_ok result) self, g), result).

Definition send_nudge `{AgentSessions} (now : DateTime) (uuid : string) (session_id : SessionId)
    (kind : NudgeKind) (context : option string) : SM (NudgeSender * gw_state) string unit :=
  send_prepared now (prepare_nudge now uuid session_id kind (generate kind context)).

Definition send_nudge_with_pattern `{AgentSessions} (now : DateTime) (uuid : string) (session_id : SessionId)
    (kind : NudgeKind) (pattern : option string) : SM (NudgeSender * gw_state) string unit :=
  send_prepared now (prepare_nudge_with_pattern now uuid session_id kind pattern).

Definition nudge_count_for_session (session_id : string) (self : NudgeSender) : nat :=
  length (List.filter (fun e => String.eqb (nd_session_id (nh_nudge e)) session_id) (nx_history self)).

Definition last_nudge_for_session (session_id : string) (self : NudgeSender) : option NudgeHistoryEntry :=
  List.find (fun e => String.eqb (nd_session_id (nh_nudge e)) session_id) (reverse (nx_history self)).

(** ** Repeated messages *)

Definition occurrences (msg : string) (l : list string) : nat := length (filter (eq msg) l).

Lemma occurrences_app msg l k : occurrences msg (l ++ k) = occurrences msg l + occurrences msg k.
Proof. unfold occurrences. by rewrite filter_app, length_app. Qed.

Lemma occurrences_length msg l : occurrences msg l <= length l.
Proof. apply length_filter. Qed.

Lemma message_counts_app l msg :
  message_counts (l ++ [msg]) = <[msg := S (default 0 (message_counts l !! msg))]> (message_counts l).
Proof. unfold message_counts. by rewrite foldl_app. Qed.

Lemma message_counts_spec l msg :
  message_counts l !! msg = if decide (occurrences msg l = 0) then None else Some (occurrences msg l).
Proof.
  induction l as [|m l IH] using rev_ind; [done|].
  rewrite message_counts_app, occurrences_app.
  assert (Hone : occurrences msg [m] = if decide (msg = m) then 1 else 0).
  { unfold occurrences. cbn. by destruct (decide (msg = m)). }
  rewrite Hone. destruct (decide (msg = m)) as [->|Hne].
  - rewrite lookup_insert_eq, IH. rewrite (decide_False (P := _ + 1 = 0)) by lia.
    f_equal. case_decide; cbn; lia.
  - by rewrite lookup_insert_ne, IH, Nat.add_0_r by done.
Qed.

Section stuck.
Context {ord : IterOrder string} `{TextOps} (config : StuckDetectionConfig) (now : DateTime).

Definition window (agent : AgentState) : list string :=
  recent_messages now (sd_pattern_window_minutes config) agent.

(** A message repeated often enough within the window. *)
Definition repeats (agent : AgentState) (msg : string) : Prop :=
  2 <= sd_pattern_threshold config /\ sd_pattern_threshold config <= occurrences msg (window agent).

Lemma detect_pattern_Some agent pattern :
  detect_pattern config now agent = Some pattern ->
  exists msg, repeats agent msg /\ pattern = classify_pattern msg.
Proof.
  unfold detect_pattern, repeats. fold (window agent).
  destruct (Nat.ltb_spec (sd_pattern_threshold config) 2); [done|]. case_match; [done|].
  destruct (List.find _ _) as [[msg n]|] eqn:E; [|done]. cbn. intros [= <-].
  apply List.find_some in E as [Hin Hle%Nat.leb_le].
  apply list_elem_of_In, elem_of_iter_map in Hin. rewrite message_counts_spec in Hin.
  case_decide; [done|]. simplify_eq. exists msg. naive_solver.
Qed.

Lemma detect_pattern_None agent msg :
  detect_pattern config now agent = None -> ~ repeats agent msg.
Proof.
  unfold detect_pattern, repeats. fold (window agent).
  destruct (Nat.ltb_spec (sd_pattern_threshold config) 2); [lia|].
  pose proof (occurrences_length msg (window agent)).
  destruct (Nat.ltb_spec (length (window agent)) (sd_pattern_threshold config)); [lia|].
  destruct (List.find _ _) as [[? ?]|] eqn:E; [done|]. intros _ [_ Hle].
  assert (Hin : (msg, occurrences msg (window agent)) ∈ iter_map (message_counts (window agent))).
  { apply elem_of_iter_map. rewrite message_counts_spec. by rewrite decide_False by lia. }
  apply list_elem_of_In in Hin. apply (List.find_none _ _ E) in Hin. cbn in Hin. apply Nat.leb_gt in Hin. lia.
Qed.

(** Idle for the threshold, and not busy with an operation where that counts. *)
Definition idle_too_long (agent : AgentState) : Prop :=
  (sd_time_threshold_minutes config <= idle_minutes now agent)%Z
  /\ (sd_operation_aware config && is_in_operation agent) = false.

Lemma stuck_info_iff agent :
  is_Some (stuck_info config now agent) <->
  ag_is_alive agent = true /\ (idle_too_long agent \/ exists msg, repeats agent msg).
Proof.
  unfold stuck_info, is_exempt_from_time_check.
  destruct (ag_is_alive agent); cbn [negb]; [|split; [by intros [? ?]|by intros [? _]]].
  assert (Htime : (sd_time_threshold_minutes config <=? idle_minutes now agent)%Z
      && negb (if negb (sd_operation_aware config) then false else is_in_operation agent) = true <->
    idle_too_long agent).
  { unfold idle_too_long. rewrite andb_true_iff, Z.leb_le, negb_true_iff. by destruct (sd_operation_aware config). }
  cbn zeta. destruct (detect_pattern config now agent) as [p|] eqn:Ep.
  - rewrite orb_true_r. apply detect_pattern_Some in Ep as (msg & Hmsg & _).
    split; [intros _; split; eauto|intros _; eauto].
  - rewrite orb_false_r. destruct (_ && _).
    + destruct Htime as [Htime _]. split; [intros _; split; eauto|intros _; eauto].
    + split; [by intros [? ?]|]. intros [_ [Hidle|(msg & Hmsg)]]; [by apply Htime in Hidle|].
      by destruct (detect_pattern_None agent msg Ep).
Qed.
End stuck.
