(* ===== verification/Supervisor.v ===== *)
(** * The supervisor (supervisor.rs, heartbeat.rs, autonomy.rs and escalation.rs
    of brehon-supervisor)

    The state of [Supervisor] with the components its [run] creates, and its
    handlers, composed as in [tick] and [run].  A handler is an operation on the
    state that may fail.  The clock and the generator of ids are functions of
    the number of reads so far; the panics [run] would catch do not occur in
    these definitions. *)

From S2P Require Import Prelude StrLib Chars Types Events Queue Ports Scoring Feedback FeedbackLoop FeedbackOutcome EventMonitor StuckDetection Budget.

(** ** Autonomy (autonomy.rs) *)

Module AutonomyLevel.
Inductive AutonomyLevel := Full | Guided | Minimal.
End AutonomyLevel.
Abbreviation AutonomyLevel := AutonomyLevel.AutonomyLevel.

Definition should_invoke_ai_for_planning (level : AutonomyLevel) : bool :=
  match level with AutonomyLevel.Full | AutonomyLevel.Guided => true | AutonomyLevel.Minimal => false end.

Definition should_invoke_ai_for_assignment (level : AutonomyLevel) (task_status : TaskStatus) : bool :=
  match level with
  | AutonomyLevel.Full => true
  | AutonomyLevel.Guided => bool_decide (task_status = TaskStatus.Pending)
  | AutonomyLevel.Minimal => false
  end.

Definition should_invoke_ai_for_stuck (level : AutonomyLevel) : bool := true.
Definition should_invoke_ai_for_failure (level : AutonomyLevel) : bool := true.
Definition should_invoke_ai_for_deadlock (level : AutonomyLevel) : bool := true.

Definition should_invoke_ai_for_heartbeat (level : AutonomyLevel) : bool :=
  match level with AutonomyLevel.Full | AutonomyLevel.Guided => true | AutonomyLevel.Minimal => false end.

Definition should_invoke_ai_for_sanity_check (level : AutonomyLevel) : bool :=
  match level with AutonomyLevel.Full => true | _ => false end.

Definition should_invoke_ai_for (level : AutonomyLevel) (kind : DecisionKind) : bool :=
  match kind with
  | DecisionKind.PlanExecution | DecisionKind.NextAction => should_invoke_ai_for_planning level
  | DecisionKind.AssignWorker => should_invoke_ai_for_assignment level TaskStatus.Pending
  | DecisionKind.StuckGuidance => should_invoke_ai_for_stuck level
  | DecisionKind.ReviewDeadlock => should_invoke_ai_for_deadlock level
  | DecisionKind.MergeConflict | DecisionKind.ErrorHandler => should_invoke_ai_for_failure level
  | DecisionKind.HeartbeatCheck => should_invoke_ai_for_heartbeat level
  end.

(** ** Heartbeat (heartbeat.rs) *)

Record HeartbeatConfig := mkHeartbeatConfig { hc_interval_minutes : Z; hc_enabled : bool }.

Definition HeartbeatConfig_default : HeartbeatConfig := mkHeartbeatConfig 5 true.

Definition interval (config : HeartbeatConfig) : Z := seconds (hc_interval_minutes config * 60).

(** The counters are [u32]: at one heartbeat a second they last a century. *)
Record HeartbeatState := mkHeartbeatState {
  hb_last_heartbeat : option DateTime;
  hb_last_confidence : option DecisionConfidence;
  hb_consecutive_low_confidence : Z;
  hb_total_checkouts : Z
}.

Definition HeartbeatState_new : HeartbeatState := mkHeartbeatState None None 0 0.

Definition should_run_heartbeat (now : DateTime) (config : HeartbeatConfig) (s : HeartbeatState) : bool :=
  if negb (hc_enabled config) then false
  else match hb_last_heartbeat s with
       | None => true
       | Some last => (interval config <=? now - last)%Z
       end.

Definition record_heartbeat (now : DateTime) (confidence : DecisionConfidence) (s : HeartbeatState)
    : HeartbeatState :=
  mkHeartbeatState (Some now) (Some confidence)
    (match confidence with DecisionConfidence.Low => hb_consecutive_low_confidence s + 1 | _ => 0 end)%Z
    (hb_total_checkouts s + 1).

Definition needs_escalation (threshold : Z) (s : HeartbeatState) : bool :=
  (threshold <=? hb_consecutive_low_confidence s)%Z.

Record HeartbeatSummary := mkHeartbeatSummary {
  hs_active_agents : nat;
  hs_active_tasks : nat;
  hs_pending_tasks : nat;
  hs_stuck_agents : nat;
  hs_recent_events : nat;
  hs_budget_used_percent : f64;
  hs_system_state : string
}.

(** [format!("{:.1}", x)]: the exact value rounded to one decimal *)
Definition fmt_f64_1 (x : f64) : string :=
  let tenths := round_half_even (f64_mantissa x * 10 * 2 ^ Z.max 0 (- f64_scale x))
                  (2 ^ Z.max 0 (f64_scale x)) in
  pretty (tenths / 10)%Z +:+ "." +:+ pretty (tenths mod 10)%Z.

Definition heartbeat_request (now : DateTime) (uuid : string) (summary : HeartbeatSummary) : DecisionRequest :=
  mkDecisionRequest uuid DecisionKind.HeartbeatCheck
    ("Active agents: " +:+ pretty (hs_active_agents summary) +:+ NL +:+ "Active tasks: "
      +:+ pretty (hs_active_tasks summary) +:+ NL +:+ "Pending tasks: " +:+ pretty (hs_pending_tasks summary)
      +:+ NL +:+ "Stuck agents: " +:+ pretty (hs_stuck_agents summary) +:+ NL +:+ "Recent events: "
      +:+ pretty (hs_recent_events summary) +:+ NL +:+ "Budget used: "
      +:+ fmt_f64_1 (hs_budget_used_percent summary) +:+ "%" +:+ NL +:+ "System state: "
      +:+ hs_system_state summary)
    [] ["proceed"; "stuck"; "escalate"] now.

(** ** Escalation (escalation.rs) *)

Record EscalationConfig := mkEscalationConfig { ec_max_retries : Z; ec_timeout_minutes : Z }.

Definition EscalationConfig_default : EscalationConfig := mkEscalationConfig 3 30.

Record EscalationRecord := mkEscalationRecord {
  es_reason : string;
  es_context : string;
  es_retry_count : Z;
  es_escalated_at : DateTime;
  es_resolved : bool
}.

(** [trait NotificationSink]: an error toast and a modal with its actions *)
Class NotificationSink := {
  nt_state : Type;
  nt_toast_error : string -> SM nt_state PortError unit;
  nt_modal : string -> list (string * string) -> SM nt_state PortError unit
}.

Section escalation.
Context `{NotificationSink} {ord : IterOrder string}.

(** [em_sink] is the sink with its state, if one is attached. *)
Record EscalationManager := mkEscalationManager {
  em_config : EscalationConfig;
  em_sink : option nt_state;
  em_escalations : list EscalationRecord;
  em_retry_counts : gmap string Z
}.

#[export] Instance eta_EscalationManager : Eta EscalationManager := fun m =>
  mkEscalationManager (em_config m) (em_sink m) (em_escalations m) (em_retry_counts m).

Definition EscalationManager_new (config : EscalationConfig) : EscalationManager :=
  mkEscalationManager config None [] ∅.

Definition should_escalate (decision_id : string) (m : EscalationManager) : bool :=
  (ec_max_retries (em_config m) <=? default 0 (em_retry_counts m !! decision_id))%Z.

Definition record_retry (decision_id : string) (m : EscalationManager) : EscalationManager * Z :=
  let count := (default 0 (em_retry_counts m !! decision_id) + 1)%Z in
  (m <| em_retry_counts := <[decision_id := count]> (em_retry_counts m) |>, count).

Definition reset_retry (decision_id : string) (m : EscalationManager) : EscalationManager :=
  m <| em_retry_counts := delete decision_id (em_retry_counts m) |>.

Definition escalate (now : DateTime) (reason context : string) : SM EscalationManager PortError unit := fun m =>
  let record := mkEscalationRecord reason context
    (foldr Z.add 0%Z (iter_map (em_retry_counts m)).*2) now false in
  let m := m <| em_escalations := em_escalations m ++ [record] |> in
  match em_sink m with
  | Some sink =>
      let message := "ESCALATION REQUIRED" +:+ NL +:+ NL +:+ "Reason: " +:+ reason +:+ NL +:+ NL
        +:+ "Context:" +:+ NL +:+ context in
      let actions := [("Acknowledge", "ack"); ("View Details", "details"); ("Take Over", "takeover")] in
      let '(sink, r) := (let! _ := nt_modal message actions in nt_toast_error reason) sink in
      (m <| em_sink := Some sink |>, r)
  | None => (m, Ok tt)
  end.

(** Marks the first matching record, on the reversed list. *)
Fixpoint resolve_first (reason : string) (l : list EscalationRecord) : list EscalationRecord :=
  match l with
  | [] => []
  | r :: l =>
      if negb (es_resolved r) && String.eqb (es_reason r) reason
      then mkEscalationRecord (es_reason r) (es_context r) (es_retry_count r) (es_escalated_at r) true :: l
      else r :: resolve_first reason l
  end.

Definition resolve (reason : string) (m : EscalationManager) : EscalationManager :=
  m <| em_escalations := reverse (resolve_first reason (reverse (em_escalations m))) |>.

Definition pending_escalations (m : EscalationManager) : list EscalationRecord :=
  List.filter (fun r => negb (es_resolved r)) (em_escalations m).

Definition clear_escalations (m : EscalationManager) : EscalationManager :=
  m <| em_escalations := [] |> <| em_retry_counts := ∅ |>.
End escalation.

(** ** The supervisor *)

Record SupervisorConfig := mkSupervisorConfig {
  sc_autonomy : AutonomyLevel;
  sc_stuck_detection : StuckDetectionConfig;
  sc_heartbeat : HeartbeatConfig;
  sc_budget : BudgetPolicy;
  sc_escalation : EscalationConfig;
  sc_event_batch_size : nat;
  sc_max_dead_agents : nat;
  sc_max_completed_tasks : nat;
  sc_nudge_timeout : Z
}.

Definition DEFAULT_EVENT_BATCH_SIZE : nat := 100.
Definition DEFAULT_NUDGE_TIMEOUT : Z := seconds 120.

Definition SupervisorConfig_default : SupervisorConfig :=
  mkSupervisorConfig AutonomyLevel.Guided StuckDetectionConfig_default HeartbeatConfig_default
    BudgetPolicy_default EscalationConfig_default DEFAULT_EVENT_BATCH_SIZE 100 1000 DEFAULT_NUDGE_TIMEOUT.

Section supervisor.
Context {ord : IterOrder string} `{TextOps} `{AgentSessions} `{EventStream} `{DecisionEngine}.
Context (config : SupervisorConfig).
Context (clock : nat -> DateTime) (uuid : nat -> string) (to_rfc3339 : DateTime -> string).

(** [Supervisor] with the monitor, tracker, sender and heartbeat of [run] and
    the states behind its ports.  The escalation manager [run] also creates is
    never called. *)
Record Supervisor := mkSupervisor {
  sv_state : SystemState;
  sv_running : bool;
  sv_last_processed_event : option EventId;
  sv_known_keys : gset string;
  sv_monitor : SupervisorState;
  sv_budget : BudgetTracker;
  sv_nudges : NudgeSender;
  sv_heartbeat : HeartbeatState;
  sv_gateway : gw_state;
  sv_store : es_state;
  sv_decisions : de_state;
  sv_reads : nat
}.

#[export] Instance eta_Supervisor : Eta Supervisor := fun s =>
  mkSupervisor (sv_state s) (sv_running s) (sv_last_processed_event s) (sv_known_keys s) (sv_monitor s)
    (sv_budget s) (sv_nudges s) (sv_heartbeat s) (sv_gateway s) (sv_store s) (sv_decisions s) (sv_reads s).

(** [Supervisor::new], with components as [run] creates them *)
Definition supervisor_new (gateway : gw_state) (store : es_state) (decisions : de_state) : Supervisor :=
  mkSupervisor SystemState.Running false None ∅ SupervisorState_new
    (BudgetTracker_new (clock 0) (sc_budget config)) NudgeSender_new HeartbeatState_new
    gateway store decisions 1.

Abbreviation Op A := (SM Supervisor PortError A).

Definition sv_get {A} (f : Supervisor -> A) : Op A := fun s => (s, Ok (f s)).
Definition sv_modify (f : Supervisor -> Supervisor) : Op unit := fun s => (f s, Ok tt).

(** Reading the clock or a fresh id. *)
Definition sv_read {A} (source : nat -> A) : Op A := fun s =>
  (s <| sv_reads := S (sv_reads s) |>, Ok (source (sv_reads s))).

Definition on_store {A} (op : SM es_state PortError A) : Op A := fun s =>
  let '(st, r) := op (sv_store s) in (s <| sv_store := st |>, r).

(** The gateway reports an error by its text. *)
Definition on_sessions {A} (op : SM gw_state string A) : SM Supervisor string A := fun s =>
  let '(g, r) := op (sv_gateway s) in (s <| sv_gateway := g |>, r).

(** A loop whose body may fail. *)
Fixpoint sv_for {A} (f : A -> Op unit) (l : list A) : Op unit :=
  match l with
  | [] => sm_ret tt
  | x :: l => let! _ := f x in sv_for f l
  end.

(** [event_monitor.process_event], which returns the events to emit *)
Definition observe_event (event : Event) (event_id : EventId) : Op (list Event) := fun s =>
  let '(m, emitted) := monitor_event (fun i => clock (sv_reads s + i)) event event_id (sv_monitor s) in
  (s <| sv_monitor := m |> <| sv_reads := sv_reads s + 2 |>, Ok emitted).

Definition track_budget (event : Event) : Op unit := fun s =>
  (s <| sv_budget := budget_event (clock (sv_reads s)) event (sv_budget s) |> <| sv_reads := S (sv_reads s) |>, Ok tt).

(** [Supervisor::process_event] *)
Definition supervisor_event (event : Event) (event_id : EventId) : Op unit :=
  let! events_to_emit := observe_event event event_id in
  let! _ := track_budget event in
  let! _ := sv_for (fun e => let! _ := on_store (es_append e) in sm_ret tt) events_to_emit in
  match ev_kind event with
  | EventKind.SystemDraining _ => sv_modify (fun s => s <| sv_state := SystemState.Draining |>)
  | EventKind.FeedbackTriggerDetected _ key _ _ _ _ _ _ _ _ =>
      sv_modify (fun s => s <| sv_known_keys := sv_known_keys s ∪ {[key]} |>)
  | _ => sm_ret tt
  end.

(** A failed event is logged and the loop goes on. *)
Fixpoint process_events (events : list (Event * EventId)) : Op unit :=
  match events with
  | [] => sm_ret tt
  | (event, event_id) :: events =>
      sm_catch (supervisor_event event event_id) (fun _ => process_events events) (fun _ => process_events events)
  end.

(** The keys of triggers recorded in the log. *)
Definition trigger_keys (events : list (Event * EventId)) : list string :=
  omap (fun '(event, _) =>
    match ev_kind event with
    | EventKind.FeedbackTriggerDetected _ key _ _ _ _ _ _ _ _ => Some key
    | _ => None
    end) events.

(** The loop of [hydrate_feedback_dedup_keys] reads batches until an empty one.
    [fuel] bounds the number of batches; [Ok false] means it ran out. *)
Fixpoint hydrate_loop (fuel : nat) (since : option EventId) : Op bool :=
  match fuel with
  | 0 => sm_ret false
  | S fuel =>
      let! events := on_store (es_stream since 1000) in
      match last events with
      | None => sm_ret true
      | Some (_, event_id) =>
          let! _ := sv_modify (fun s =>
            s <| sv_known_keys := sv_known_keys s ∪ list_to_set (trigger_keys events) |>) in
          hydrate_loop fuel (Some event_id)
      end
  end.

Definition hydrate_feedback_dedup_keys (fuel : nat) : Op bool := hydrate_loop fuel None.

(** [detect_feedback_triggers] *)
Definition detect_feedback_triggers (events : list (Event * EventId)) : Op unit :=
  match events with
  | [] => sm_ret tt
  | _ =>
      let! known := sv_get sv_known_keys in
      let! now := sv_read clock in
      let input := mkDetectorInput ((fun '(event, id) => (id, event)) <$> events) [] [] [] [] known
                     TriggerDetectorPolicy_default in
      let triggers := detect_triggers to_rfc3339 now input in
      match triggers with
      | [] => sm_ret tt
      | _ =>
          let! now := sv_read clock in
          let! _ := on_store (record_detected_triggers now triggers) in
          sv_modify (fun s => s <| sv_known_keys := sv_known_keys s ∪ list_to_set (dedup_key <$> triggers) |>)
      end
  end.

(** An event of the supervisor's own: appended, shown to the monitor, and
    noted as processed. *)
Definition record_own_event (event : Event) : Op unit :=
  let! event_id := on_store (es_append event) in
  let! _ := observe_event event event_id in
  sv_modify (fun s => s <| sv_last_processed_event := Some event_id |>).

Definition check_nudge_timeouts : Op unit :=
  let! now := sv_read clock in
  let! monitor := sv_get sv_monitor in
  sv_for record_own_event (nudge_timeout_events now (sc_nudge_timeout config) monitor).

(** The body of the loop of [check_stuck_agents]. *)
Definition nudge_stuck (stuck : StuckInfo) : Op unit :=
  if should_invoke_ai_for_stuck (sc_autonomy config) && negb (si_is_in_operation stuck) then
    let kind := if (30 <? si_idle_minutes stuck)%Z then NudgeKind.Guidance else NudgeKind.Soft in
    let! id := sv_read uuid in
    let! now := sv_read clock in
    let prepared := prepare_nudge_with_pattern now id (si_session_id stuck) kind (si_pattern stuck) in
    let record success := sv_modify (fun s =>
      s <| sv_nudges := record_prepared_nudge (clock (sv_reads s)) prepared success (sv_nudges s) |>
        <| sv_reads := S (sv_reads s) |>) in
    sm_catch (on_sessions (gw_send_prompt (si_session_id stuck) (pn_prompt prepared)))
      (fun _ =>
        let! _ := record true in
        let! now := sv_read clock in
        record_own_event (mkEvent (EventKind.NudgeSent (si_session_id stuck) (NudgeKind.as_str kind)
                                     (pn_content prepared)) now (si_session_id stuck)))
      (fun error => let! _ := record false in sm_lift (Err (PortError.Agent error)))
  else sm_ret tt.

Definition check_stuck_agents : Op unit :=
  let! now := sv_read clock in
  let! monitor := sv_get sv_monitor in
  sv_for nudge_stuck (detect_stuck (sc_stuck_detection config) now (active_agents monitor)).

Definition count_tasks (status : TaskStatus) (monitor : SupervisorState) : nat :=
  length (List.filter (fun t => bool_decide (ts_status t = status)) (iter_map (ss_tasks monitor)).*2).

(** [Supervisor::run_heartbeat] and [HeartbeatRunner::run_heartbeat] *)
Definition run_heartbeat : Op unit :=
  let! now := sv_read clock in
  let! monitor := sv_get sv_monitor in
  let summary := mkHeartbeatSummary (length (active_agents monitor)) (count_tasks TaskStatus.InProgress monitor)
    (count_tasks TaskStatus.Pending monitor) (length (stuck_candidates now 100 monitor)) 0 (f64_of_u64 0)
    "running" in
  let! id := sv_read uuid in
  let! now := sv_read clock in
  let! response := (fun s => let '(d, r) := de_decide (heartbeat_request now id summary) (sv_decisions s) in
                             (s <| sv_decisions := d |>, r)) in
  let! now := sv_read clock in
  sv_modify (fun s => s <| sv_heartbeat := record_heartbeat now (dr_confidence response) (sv_heartbeat s) |>).

Definition handle_budget_exceeded : Op unit :=
  let! _ := sv_modify (fun s => s <| sv_state := SystemState.Draining |>) in
  let! now := sv_read clock in
  let! _ := on_store (es_append (mkEvent (EventKind.SystemDraining "Budget exceeded") now "system")) in
  sm_ret tt.

Definition poll_events : Op (list (Event * EventId)) :=
  let! since := sv_get (fun s => ss_last_event_id (sv_monitor s)) in
  on_store (es_stream since (sc_event_batch_size config)).

(** The first half of [tick]: events, triggers and timeouts. *)
Definition take_in_events : Op unit :=
  let! events := poll_events in
  let! _ := process_events events in
  let! _ := sv_modify (fun s =>
    match events with
    | [] => s
    | _ => s <| sv_last_processed_event := ss_last_event_id (sv_monitor s) |>
    end) in
  let! _ := detect_feedback_triggers events in
  check_nudge_timeouts.

(** The rest of [tick] after [check_stuck_agents]. *)
Definition heartbeat_and_budget : Op bool :=
  let! now := sv_read clock in
  let! due := sv_get (fun s => should_invoke_ai_for_heartbeat (sc_autonomy config)
                               && should_run_heartbeat now (sc_heartbeat config) (sv_heartbeat s)) in
  let! _ := (if due then run_heartbeat else sm_ret tt) in
  let! over := sv_get (fun s => is_over_budget (sv_budget s)) in
  let! _ := (if over : bool then handle_budget_exceeded else sm_ret tt) in
  let! _ := sv_modify (fun s => s <| sv_monitor :=
    monitor_apply_bounds (sc_max_dead_agents config) (sc_max_completed_tasks config) (sv_monitor s) |>) in
  sm_ret true.

(** [Supervisor::tick] *)
Definition supervisor_tick : Op bool :=
  let! state := sv_get sv_state in
  if decide (state = SystemState.Draining) then
    let! active := sv_get (fun s => length (agents_in_operation (sv_monitor s))) in
    if Nat.eqb active 0 then
      let! _ := sv_modify (fun s => s <| sv_running := false |>) in
      sm_ret false
    else sm_ret true
  else
    let! _ := take_in_events in
    let! _ := check_stuck_agents in
    heartbeat_and_budget.

Definition supervisor_stop (s : Supervisor) : Supervisor := s <| sv_running := false |>.

(** The loop of [run], for the readings [flags] of the shutdown flag. *)
Fixpoint supervisor_loop (flags : list bool) (s : Supervisor) : Supervisor :=
  match flags with
  | [] => s
  | flag :: flags =>
      if negb (sv_running s) || flag then s
      else match supervisor_tick s with
           | (s, Ok true) => supervisor_loop flags s
           | (s, Ok false) => s
           | (s, Err _) => if decide (sv_state s = SystemState.Draining) then s else supervisor_loop flags s
           end
  end.

(** [Supervisor::run], which starts with new components *)
Definition supervisor_run (fuel : nat) (flags : list bool) : Op bool := fun s =>
  let s := s <| sv_running := true |> <| sv_state := SystemState.Running |>
             <| sv_monitor := SupervisorState_new |>
             <| sv_budget := BudgetTracker_new (clock (sv_reads s)) (sc_budget config) |>
             <| sv_nudges := NudgeSender_new |> <| sv_heartbeat := HeartbeatState_new |>
             <| sv_reads := S (sv_reads s) |> in
  match hydrate_feedback_dedup_keys fuel s with
  | (s, Ok true) => (supervisor_loop flags s, Ok true)
  | (s, Ok false) => (s, Ok false)
  | (s, Err e) => (s, Err e)
  end.
End supervisor.
