(* ===== verification/SupervisorProofs.v ===== *)
(** * Properties of the supervisor

    What a tick of Supervisor.v does: the budget it accounts for and enforces,
    the events it reads, and where the loop stops.  Handlers are followed
    through their parts by relations between the state before and after, which
    compose along [let!]. *)

From S2P Require Import Prelude Effects StrLib Chars Types Events Queue Ports MemEvents Scoring Feedback FeedbackLoop FeedbackOutcome EventMonitor StuckDetection Budget Supervisor.

(** Loops over a list *)
Lemma relates_for `{AgentSessions} `{EventStream} `{DecisionEngine} {A}
    (R : Supervisor -> Supervisor -> Prop) `{!PreOrder R} (f : A -> SM Supervisor PortError unit) l :
  (forall x, relates R (f x)) -> relates R (sv_for f l).
Proof.
  intros Hf. induction l as [|x l IH]; cbn; [by apply relates_ret|]. by apply relates_bind.
Qed.

(** Follows the structure of a handler, up to the calls that change the state. *)
Create HintDb supervisor.

Ltac follow :=
  repeat first
    [ solve [eauto with supervisor]
    | apply relates_ret; apply _
    | apply relates_lift; apply _
    | apply relates_bind; [apply _| |intros ?]
    | apply relates_catch; [apply _| |intros ?|intros ?]
    | apply relates_for; [apply _|intros ?]
    | case_match ].

Section supervisor_proofs.
Context {ord : IterOrder string} `{TextOps} `{AgentSessions} `{EventStream} `{DecisionEngine}.
Context (config : SupervisorConfig).
Context (clock : nat -> DateTime) (uuid : nat -> string) (to_rfc3339 : DateTime -> string).

Abbreviation tick := (supervisor_tick config clock uuid to_rfc3339).
Abbreviation Sup := Supervisor.

(** ** The parts of the state a handler does not touch *)

(** Projections that ignore the clock, the ports and the sender's history. *)
Class Core {A} (P : Sup -> A) := {
  core_reads : forall s n, P (s <| sv_reads := n |>) = P s;
  core_store : forall s x, P (s <| sv_store := x |>) = P s;
  core_gateway : forall s x, P (s <| sv_gateway := x |>) = P s;
  core_nudges : forall s x, P (s <| sv_nudges := x |>) = P s;
  core_decisions : forall s x, P (s <| sv_decisions := x |>) = P s;
  core_heartbeat : forall s x, P (s <| sv_heartbeat := x |>) = P s;
  core_processed : forall s x, P (s <| sv_last_processed_event := x |>) = P s;
  core_keys : forall s x, P (s <| sv_known_keys := x |>) = P s;
  core_monitor : forall s x, P (s <| sv_monitor := x |>) = P s
}.

#[local] Instance core_state : Core sv_state.
Proof. by split. Qed.
#[local] Instance core_budget : Core sv_budget.
Proof. by split. Qed.
#[local] Instance core_running : Core sv_running.
Proof. by split. Qed.

Section core.
Context {A : Type} (P : Sup -> A) `{!Core P}.
Implicit Types op : SM Sup PortError unit.

Lemma same_get {B} (f : Sup -> B) : relates (same P) (sv_get f).
Proof. by intros s. Qed.

Lemma same_read {B} (source : nat -> B) : relates (same P) (sv_read source).
Proof. intros s. apply core_reads. Qed.

Lemma same_store {B} (op : SM es_state PortError B) : relates (same P) (on_store op).
Proof. intros s. unfold on_store. destruct (op (sv_store s)). apply core_store. Qed.

Lemma same_sessions {B} (op : SM gw_state string B) : relates (same P) (on_sessions op).
Proof. intros s. unfold on_sessions. destruct (op (sv_gateway s)). apply core_gateway. Qed.

Lemma same_observe e id : relates (same P) (observe_event clock e id).
Proof.
  intros s. unfold observe_event. destruct (monitor_event _ _ _ _) as [m emitted]. unfold same. cbn [fst].
  by rewrite core_reads, core_monitor.
Qed.

#[local] Hint Resolve same_get same_read same_store same_sessions same_observe : supervisor.

Lemma same_own_event e : relates (same P) (record_own_event clock e).
Proof. unfold record_own_event. follow. intros s. apply core_processed. Qed.

#[local] Hint Resolve same_own_event : supervisor.

Lemma same_timeouts : relates (same P) (check_nudge_timeouts config clock).
Proof. unfold check_nudge_timeouts. follow. Qed.

Lemma same_nudge_stuck stuck : relates (same P) (nudge_stuck config clock uuid stuck).
Proof.
  assert (Hrec : forall p b, relates (same P) (sv_modify (fun s =>
    s <| sv_nudges := record_prepared_nudge (clock (sv_reads s)) p b (sv_nudges s) |>
      <| sv_reads := S (sv_reads s) |>))).
  { intros p b s. unfold same. cbn [fst sv_modify]. by rewrite core_reads, core_nudges. }
  unfold nudge_stuck. follow.
Qed.

#[local] Hint Resolve same_timeouts same_nudge_stuck : supervisor.

Lemma same_stuck : relates (same P) (check_stuck_agents config clock uuid).
Proof. unfold check_stuck_agents. follow. Qed.

Lemma same_detect events : relates (same P) (detect_feedback_triggers clock to_rfc3339 events).
Proof. unfold detect_feedback_triggers. follow. intros s. apply core_keys. Qed.

Lemma same_heartbeat : relates (same P) (run_heartbeat clock uuid).
Proof.
  unfold run_heartbeat. follow; intros s; [|apply core_heartbeat].
  destruct (de_decide _ _). apply core_decisions.
Qed.
End core.

(** ** The budget *)

Lemma supervisor_event_budget e id s :
  sv_budget (supervisor_event clock e id s).1 = budget_event (clock (sv_reads s + 2)) e (sv_budget s).
Proof.
  unfold supervisor_event, sm_bind at 1. unfold observe_event.
  destruct (monitor_event _ _ _ _) as [m emitted]. unfold sm_bind at 1, track_budget.
  match goal with |- sv_budget (sm_bind ?c ?k ?s1).1 = _ =>
    assert (Hrest : relates (same sv_budget) (sm_bind c k)) end.
  { apply relates_bind; [apply _| |].
    - apply relates_for; [apply _|]. intros e'. apply relates_bind; [apply _|by apply same_store; apply _|].
      intros _. by apply relates_ret; apply _.
    - intros _. case_match; (by apply relates_ret; apply _) || by intros ?. }
  rewrite Hrest. done.
Qed.

Lemma process_events_budget events s :
  exists l, l.*2 = events.*1
    /\ sv_budget (process_events clock events s).1 = process_budget l (sv_budget s).
Proof.
  revert s. induction events as [|[e id] events IH]; intros s; cbn [process_events]; [by exists []|].
  unfold sm_catch. pose proof (supervisor_event_budget e id s) as Hb.
  destruct (supervisor_event clock e id s) as [s1 r]. cbn in Hb.
  destruct (IH s1) as (l & Hl & Heq). exists ((clock (sv_reads s + 2), e) :: l). cbn. rewrite Hl. split; [done|].
  rewrite <-Hb. by destruct r.
Qed.

Lemma process_events_Ok events s : exists s', process_events clock events s = (s', Ok tt).
Proof.
  revert s. induction events as [|[e id] events IH]; intros s; cbn; [by eexists|].
  unfold sm_catch. destruct (supervisor_event clock e id s) as [s1 [?|?]]; apply IH.
Qed.

(** A running tick, taken apart. *)
Lemma tick_running s : sv_state s <> SystemState.Draining ->
  tick s = sm_bind (take_in_events config clock to_rfc3339)
             (fun _ => sm_bind (check_stuck_agents config clock uuid)
                (fun _ => heartbeat_and_budget config clock uuid)) s.
Proof. intros Hs. unfold supervisor_tick, sm_bind at 1, sv_get at 1. by rewrite decide_False. Qed.

Lemma take_in_events_budget s s1 s0 l :
  poll_events config s = (s0, Ok l) -> take_in_events config clock to_rfc3339 s = (s1, Ok tt) ->
  exists bl, bl.*2 = l.*1 /\ sv_budget s1 = process_budget bl (sv_budget s).
Proof.
  intros Hpoll Htake. unfold take_in_events in Htake. unfold sm_bind at 1 in Htake. rewrite Hpoll in Htake.
  assert (Hs0 : sv_budget s0 = sv_budget s).
  { pose proof (same_store sv_budget (es_stream (ss_last_event_id (sv_monitor s)) (sc_event_batch_size config)) s) as Hsame.
    unfold poll_events, sm_bind, sv_get in Hpoll. by rewrite Hpoll in Hsame. }
  destruct (process_events_budget l s0) as (bl & Hbl & Hb). exists bl. split; [done|].
  apply sm_bind_Ok in Htake as (s2 & [] & Hproc & Htake). rewrite Hproc in Hb. cbn in Hb. rewrite <-Hs0, <-Hb.
  match type of Htake with ?op s2 = _ => assert (Hrest : relates (same sv_budget) op) end.
  { apply relates_bind; [apply _| |intros _; apply relates_bind; [apply _| |intros _]].
    - intros s3. unfold sv_modify, same. by destruct l.
    - apply same_detect. apply _.
    - apply same_timeouts. apply _. }
  specialize (Hrest s2). rewrite Htake in Hrest. exact Hrest.
Qed.

Lemma heartbeat_and_budget_state s s' b :
  heartbeat_and_budget config clock uuid s = (s', Ok b) ->
  b = true /\ sv_budget s' = sv_budget s
  /\ sv_state s' = if is_over_budget (sv_budget s) then SystemState.Draining else sv_state s.
Proof.
  intros Hrun. unfold heartbeat_and_budget in Hrun.
  apply sm_bind_Ok in Hrun as (s1 & now & Hread & Hrun). injection Hread as <- <-.
  apply sm_bind_Ok in Hrun as (s2 & due & Hget & Hrun). injection Hget as <- <-.
  apply sm_bind_Ok in Hrun as (s3 & [] & Hbeat & Hrun).
  assert (Hs3 : sv_budget s3 = sv_budget s /\ sv_state s3 = sv_state s).
  { match type of Hbeat with (if ?due then _ else _) ?s0 = _ =>
      pose proof (same_heartbeat sv_budget s0) as Hb; pose proof (same_heartbeat sv_state s0) as Hst;
      destruct due end.
    - rewrite Hbeat in Hb, Hst. split; [exact Hb|exact Hst].
    - by injection Hbeat as <-. }
  apply sm_bind_Ok in Hrun as (s4 & over & Hget & Hrun). injection Hget as <- <-.
  destruct Hs3 as [Hb3 Hst3]. rewrite Hb3 in Hrun. destruct (is_over_budget (sv_budget s)).
  - apply sm_bind_Ok in Hrun as (s5 & [] & Hover & Hrun). injection Hrun as <- <-. split; [done|].
    unfold handle_budget_exceeded, sm_bind, sv_modify, sv_read, on_store in Hover. cbn in Hover.
    destruct (es_append _ _) as [st [id|e]]; [|discriminate]. injection Hover as <-. by split.
  - apply sm_bind_Ok in Hrun as (s5 & [] & Hover & Hrun). injection Hover as <-. by injection Hrun as <- <-.
Qed.

(** a tick that runs to its end counts the tokens of exactly the responses
    it read, saturating at the greatest [u64], and leaves the supervisor draining
    whenever the total has reached the limit of the policy. *)
Theorem tick_enforces_budget s s0 l s' b :
  sv_state s <> SystemState.Draining -> poll_events config s = (s0, Ok l) -> tick s = (s', Ok b) ->
  Forall event_tokens_ok l.*1 -> is_u64 (total_tokens (sv_budget s)) ->
  total_tokens (sv_budget s') = sat_add u64_max (total_tokens (sv_budget s)) (tokens_of l.*1)
  /\ bt_policy (sv_budget s') = bt_policy (sv_budget s)
  /\ (is_over_budget (sv_budget s') = true -> sv_state s' = SystemState.Draining).
Proof.
  intros Hs Hpoll Htick Hok Htotal. rewrite tick_running in Htick by done.
  apply sm_bind_Ok in Htick as (s1 & [] & Htake & Htick). apply sm_bind_Ok in Htick as (s2 & [] & Hstuck & Hrest).
  destruct (take_in_events_budget _ _ _ _ Hpoll Htake) as (bl & Hbl & Hb1).
  pose proof (same_stuck sv_budget s1) as Hb2. rewrite Hstuck in Hb2. cbn in Hb2. unfold same in Hb2.
  apply heartbeat_and_budget_state in Hrest as (_ & Hb & Hst). rewrite Hb2, Hb1 in *. rewrite Hb.
  rewrite process_budget_total, process_budget_policy, Hbl by (by rewrite ?Hbl). split_and!; [done..|].
  intros Hover. by rewrite Hover in Hst.
Qed.

(** ** A session that refuses prompts *)

(** The agents a pass of [check_stuck_agents] from [s] finds stuck. *)
Definition stuck_now (s : Sup) : list StuckInfo :=
  detect_stuck (sc_stuck_detection config) (clock (sv_reads s)) (active_agents (sv_monitor s)).

Definition refuses (session : SessionId) : Prop :=
  forall prompt g, is_ok (gw_send_prompt session prompt g).2 = false.

Lemma nudge_refused stuck s :
  si_is_in_operation stuck = false -> refuses (si_session_id stuck) ->
  exists s' e, nudge_stuck config clock uuid stuck s = (s', Err e).
Proof.
  intros Hop Href. unfold nudge_stuck. rewrite Hop. cbn [should_invoke_ai_for_stuck negb andb].
  unfold sm_bind at 1, sv_read at 1. unfold sm_bind at 1, sv_read at 1. unfold sm_catch, on_sessions.
  match goal with |- context [gw_send_prompt ?x ?p ?g] => specialize (Href p g);
    destruct (gw_send_prompt x p g) as [g' [[]|e]] end; [done|]. by do 2 eexists.
Qed.

Lemma nudge_loop_refused l s stuck :
  stuck ∈ l -> si_is_in_operation stuck = false -> refuses (si_session_id stuck) ->
  exists s' e, sv_for (nudge_stuck config clock uuid) l s = (s', Err e).
Proof.
  intros Hin Hop Href. revert s. induction l as [|x l IH]; intros s; [set_solver|]. cbn [sv_for].
  unfold sm_bind. destruct (nudge_stuck config clock uuid x s) as [s1 [[]|e]] eqn:E; [|eauto].
  apply elem_of_cons in Hin as [<-|Hin]; [|by apply IH].
  destruct (nudge_refused stuck s Hop Href) as (s2 & e & E'). congruence.
Qed.

(** one idle agent whose session refuses prompts switches off the budget:
    when its nudge fails, the tick ends with that error before the budget is
    looked at, so the supervisor does not start to drain however far the total
    is over the limit. *)
Theorem refused_nudge_skips_budget s s1 stuck :
  sv_state s <> SystemState.Draining ->
  take_in_events config clock to_rfc3339 s = (s1, Ok tt) ->
  stuck ∈ stuck_now s1 -> si_is_in_operation stuck = false -> refuses (si_session_id stuck) ->
  exists s' e, tick s = (s', Err e) /\ sv_state s' = sv_state s1 /\ sv_budget s' = sv_budget s1.
Proof.
  intros Hs Htake Hin Hop Href. rewrite tick_running by done. unfold sm_bind at 1. rewrite Htake.
  unfold sm_bind at 1.
  pose proof (same_stuck sv_state s1) as Hst. pose proof (same_stuck sv_budget s1) as Hb.
  destruct (nudge_loop_refused (stuck_now s1) (s1 <| sv_reads := S (sv_reads s1) |>) stuck Hin Hop Href)
    as (s' & e & E).
  assert (Hrun : check_stuck_agents config clock uuid s1 = (s', Err e)) by exact E.
  rewrite Hrun in *. exists s', e. by split_and!.
Qed.

(** ** Draining *)

Lemma tick_draining s :
  sv_state s = SystemState.Draining ->
  tick s = if decide (agents_in_operation (sv_monitor s) = [])
           then (s <| sv_running := false |>, Ok false) else (s, Ok true).
Proof.
  intros Hs. unfold supervisor_tick, sm_bind at 1, sv_get at 1. rewrite decide_True by done.
  unfold sm_bind, sv_get. by destruct (agents_in_operation (sv_monitor s)).
Qed.

(** a supervisor that starts to drain while an agent is in an operation
    never stops by itself: it no longer reads events, so whatever the log goes
    on to say about that operation, every tick leaves it as it is. With no agent
    in an operation the next tick stops it. *)
Theorem drain_waits_forever s :
  sv_state s = SystemState.Draining -> sv_running s = true ->
  if decide (agents_in_operation (sv_monitor s) = [])
  then tick s = (s <| sv_running := false |>, Ok false)
  else forall ticks store,
    supervisor_loop config clock uuid to_rfc3339 (replicate ticks false) (s <| sv_store := store |>)
    = s <| sv_store := store |>.
Proof.
  intros Hs Hrun. case_decide as Hops; [by rewrite tick_draining, decide_True|].
  intros ticks store. induction ticks as [|n IH]; cbn [replicate supervisor_loop]; [done|].
  change (sv_running (s <| sv_store := store |>)) with (sv_running s). rewrite Hrun. cbn [negb orb].
  rewrite tick_draining by exact Hs. by rewrite decide_False by exact Hops.
Qed.
End supervisor_proofs.

(** ** The cursor into the log *)

Section cursor.
Context {ord : IterOrder string} `{TextOps} `{AgentSessions} `{EventStreamOrder} `{DecisionEngine}.
Context (config : SupervisorConfig).
Context (clock : nat -> DateTime) (uuid : nat -> string) (to_rfc3339 : DateTime -> string).

Abbreviation tick := (supervisor_tick config clock uuid to_rfc3339).
Abbreviation Sup := Supervisor.

Definition held (s : Sup) : list (Event * EventId) := es_held (sv_store s).
Definition cursor (s : Sup) : option EventId := ss_last_event_id (sv_monitor s).

Definition cursor_le (a b : option EventId) : Prop :=
  match a, b with
  | None, _ => True
  | Some c, Some d => (c <= d)%Z
  | Some _, None => False
  end.

#[local] Instance cursor_le_preorder : PreOrder cursor_le.
Proof. split; [by intros [c|]; cbn|]. intros [a|] [b|] [c|]; cbn; try done. lia. Qed.

(** The cursor is the number of an event of the log, or of one before. *)
Definition cursor_ok (s : Sup) : Prop := forall c, cursor s = Some c -> exists x, x ∈ held s /\ (c <= x.2)%Z.

(** The log has grown; the cursor has not moved; it has not gone back. *)
Definition grows (s s' : Sup) : Prop := exists l, held s' = held s ++ l.
Definition quiet (s s' : Sup) : Prop := grows s s' /\ cursor s' = cursor s.
Definition advance (s s' : Sup) : Prop :=
  grows s s' /\ (cursor_ok s -> cursor_ok s' /\ cursor_le (cursor s) (cursor s')).

#[local] Instance grows_preorder : PreOrder grows.
Proof.
  split; [intros s; exists []; by rewrite app_nil_r|]. intros s1 s2 s3 [l1 Hl1] [l2 Hl2].
  exists (l1 ++ l2). by rewrite Hl2, Hl1, app_assoc.
Qed.

#[local] Instance quiet_preorder : PreOrder quiet.
Proof. split; [by intros s|]. intros s1 s2 s3 [G1 C1] [G2 C2]. split; [by etrans|congruence]. Qed.

#[local] Instance advance_preorder : PreOrder advance.
Proof.
  split; [intros s; by split|]. intros s1 s2 s3 [G1 A1] [G2 A2]. split; [by etrans|].
  intros [Hok2 Hle1]%A1. destruct (A2 Hok2) as [Hok3 Hle2]. split; [done|]. by etrans.
Qed.

Lemma grows_held s s' x : grows s s' -> x ∈ held s -> x ∈ held s'.
Proof. intros [l ->] Hx. apply elem_of_app. by left. Qed.

Lemma quiet_advance s s' : quiet s s' -> advance s s'.
Proof.
  intros [Hg Hc]. split; [done|]. intros Hok. rewrite Hc. split; [|done].
  intros c Hcur. rewrite Hc in Hcur. destruct (Hok c Hcur) as (x & Hx & Hle). exists x. split; [|done].
  by eapply grows_held.
Qed.

Lemma relates_advance {E A} (op : SM Sup E A) : relates quiet op -> relates advance op.
Proof. intros Hop s. apply quiet_advance, Hop. Qed.

(** Calls of the store that only add to the log. *)
Definition only_adds {A} (op : SM es_state PortError A) : Prop :=
  forall st, exists l, es_held (op st).1 = es_held st ++ l.

Lemma append_adds e : only_adds (es_append e).
Proof.
  intros st. destruct (es_append e st) as [st' [id|err]] eqn:E; cbn.
  - exists [(e, id)]. by apply es_append_spec.
  - apply es_append_failed in E as [->|[id ->]]; eauto. exists []. by rewrite app_nil_r.
Qed.

Lemma stream_adds since n : only_adds (es_stream since n).
Proof. intros st. exists []. by rewrite es_stream_held, app_nil_r. Qed.

Lemma record_triggers_adds now triggers : only_adds (record_detected_triggers now triggers).
Proof.
  induction triggers as [|t triggers IH]; intros st; cbn; [exists []; by rewrite app_nil_r|].
  unfold sm_bind. destruct (append_adds (trigger_event now t) st) as [l Hl].
  destruct (es_append _ st) as [st1 [id|err]]; cbn in Hl; [|eauto].
  destruct (IH st1) as [l' Hl']. destruct (record_detected_triggers now triggers st1) as [st2 [ids|err]];
    cbn in Hl' |- *; exists (l ++ l'); by rewrite Hl', Hl, app_assoc.
Qed.

Lemma quiet_store {A} (op : SM es_state PortError A) : only_adds op -> relates quiet (on_store op).
Proof.
  intros Hop s. unfold on_store. destruct (Hop (sv_store s)) as [l Hl]. destruct (op (sv_store s)) as [st r].
  split; [|done]. by exists l.
Qed.

Lemma quiet_same {A} (op : SM Sup PortError A) :
  relates (same sv_store) op -> relates (same sv_monitor) op -> relates quiet op.
Proof.
  intros Hst Hm s. specialize (Hst s). specialize (Hm s). unfold same, quiet, grows, held, cursor in *.
  rewrite Hst, Hm. split; [|done]. exists []. by rewrite app_nil_r.
Qed.

Lemma quiet_get {A} (f : Sup -> A) : relates quiet (sv_get f).
Proof. by intros s. Qed.

Lemma quiet_read {A} (source : nat -> A) : relates quiet (sv_read source).
Proof. by apply quiet_same; intros s. Qed.

Lemma quiet_modify f :
  (forall s, sv_store (f s) = sv_store s) -> (forall s, cursor (f s) = cursor s) -> relates quiet (sv_modify f).
Proof.
  intros Hst Hc s. unfold sv_modify, quiet, grows, held. cbn. rewrite Hst, Hc. split; [|done].
  exists []. by rewrite app_nil_r.
Qed.

Lemma quiet_sessions {A} (op : SM gw_state string A) : relates quiet (on_sessions op).
Proof.
  intros s. unfold on_sessions. destruct (op (sv_gateway s)) as [g r]. split; [|done].
  exists []. by rewrite app_nil_r.
Qed.

#[local] Hint Resolve quiet_get quiet_read quiet_store quiet_sessions append_adds stream_adds
  record_triggers_adds : supervisor.

(** The monitor moves the cursor to the event it is shown. *)
Lemma observe_cursor e id s : cursor (observe_event clock e id s).1 = Some id.
Proof.
  unfold observe_event. assert (Hm : ss_last_event_id (monitor_event (fun i => clock (sv_reads s + i)) e id (sv_monitor s)).1 = Some id).
  { unfold monitor_event. destruct (ev_kind e); try done. unfold set_current_task. by repeat case_match. }
  by destruct (monitor_event _ _ _ _) as [m emitted].
Qed.

Lemma observe_held e id s : held (observe_event clock e id s).1 = held s.
Proof. unfold observe_event. by destruct (monitor_event _ _ _ _). Qed.

Lemma observe_advance e id s x :
  x ∈ held s -> (id <= x.2)%Z -> cursor_le (cursor s) (Some id) -> advance s (observe_event clock e id s).1.
Proof.
  intros Hx Hle Hc. split; [exists []; by rewrite observe_held, app_nil_r|]. intros _.
  rewrite observe_cursor. split; [|done]. intros c [= <-]%(eq_trans (eq_sym (observe_cursor e id s))).
  exists x. by rewrite observe_held.
Qed.

(** Numbers of new events are greater than all before. *)
Lemma append_id_greater e st st' id x :
  es_append e st = (st', Ok id) -> x ∈ es_held st -> (x.2 < id)%Z.
Proof.
  intros Happ%es_append_spec Hx. pose proof (es_held_sorted st') as Hsorted. rewrite Happ, fmap_app in Hsorted.
  apply StronglySorted_app_1_elem_of with (x1 := x.2) (x2 := id) in Hsorted; [done|by apply list_elem_of_fmap_2|].
  cbn. set_solver.
Qed.

(** The state after an own event was recorded. *)
Lemma own_event_Ok e s s' :
  record_own_event clock e s = (s', Ok tt) ->
  exists st id, es_append e (sv_store s) = (st, Ok id) /\ held s' = held s ++ [(e, id)] /\ cursor s' = Some id.
Proof.
  intros Hrun. apply sm_bind_Ok in Hrun as (s1 & id & Happ & Hrun).
  unfold on_store in Happ. destruct (es_append e (sv_store s)) as [st r] eqn:E. injection Happ as <- ->.
  apply sm_bind_Ok in Hrun as (s2 & emitted & Hobs & Hrun). injection Hrun as <-.
  exists st, id. split; [done|].
  pose proof (observe_held e id (s <| sv_store := st |>)) as Hh. pose proof (observe_cursor e id (s <| sv_store := st |>)) as Hc.
  rewrite Hobs in Hh, Hc. cbn in Hh, Hc. unfold held in *. cbn. rewrite Hh. cbn. split; [by apply es_append_spec|exact Hc].
Qed.

Lemma own_event_advance e : relates advance (record_own_event clock e).
Proof.
  intros s. unfold record_own_event, sm_bind at 1. destruct (on_store (es_append e) s) as [s1 [id|err]] eqn:E.
  2: { apply quiet_advance. pose proof (quiet_store _ (append_adds e) s) as Hq. by rewrite E in Hq. }
  pose proof (quiet_store _ (append_adds e) s) as Hq. rewrite E in Hq. cbn in Hq.
  unfold on_store in E. destruct (es_append e (sv_store s)) as [st r] eqn:Eapp. injection E as <- ->.
  assert (Hnew : (e, id) ∈ held (s <| sv_store := st |>)).
  { unfold held. cbn. rewrite (es_append_spec _ _ _ _ Eapp). set_solver. }
  assert (Hobs : cursor_ok s -> advance s (observe_event clock e id (s <| sv_store := st |>)).1).
  { intros Hok. etrans; [by apply quiet_advance|]. eapply observe_advance; [exact Hnew|cbn; lia|].
    destruct Hq as [_ Hc]. rewrite Hc. destruct (cursor s) as [c|] eqn:Ec; cbn; [|done].
    destruct (Hok c Ec) as (x & Hx & Hle). pose proof (append_id_greater _ _ _ _ _ Eapp Hx). lia. }
  unfold sm_bind. pose proof (observe_held e id (s <| sv_store := st |>)) as Hh.
  destruct (observe_event clock e id (s <| sv_store := st |>)) as [s2 [emitted|err]] eqn:Eobs; cbn [fst] in *.
  - split.
    + destruct Hq as [[l Hl] _]. exists l. unfold held in *. cbn. by rewrite Hh.
    + intros Hok. destruct (Hobs Hok) as [_ Hadv]. by apply Hadv.
  - split; [|by intros Hok; apply Hobs]. destruct Hq as [[l Hl] _]. exists l. unfold held in *. by rewrite Hh.
Qed.

Lemma advance_get {A} (f : Sup -> A) : relates advance (sv_get f).
Proof. apply relates_advance, quiet_get. Qed.

Lemma advance_read {A} (source : nat -> A) : relates advance (sv_read source).
Proof. apply relates_advance, quiet_read. Qed.

Lemma timeouts_advance : relates advance (check_nudge_timeouts config clock).
Proof.
  apply relates_bind; [apply _|apply advance_read|intros now].
  apply relates_bind; [apply _|apply advance_get|intros m]. apply relates_for; [apply _|apply own_event_advance].
Qed.

Lemma record_nudge_quiet p b : relates quiet (sv_modify (fun s =>
  s <| sv_nudges := record_prepared_nudge (clock (sv_reads s)) p b (sv_nudges s) |>
    <| sv_reads := S (sv_reads s) |>)).
Proof. by apply quiet_modify. Qed.

Lemma nudge_stuck_advance stuck : relates advance (nudge_stuck config clock uuid stuck).
Proof.
  unfold nudge_stuck. case_match; [|by apply relates_ret; apply _].
  apply relates_bind; [apply _|apply advance_read|intros id].
  apply relates_bind; [apply _|apply advance_read|intros now].
  apply relates_catch; [apply _|apply relates_advance, quiet_sessions|intros _|intros e].
  - apply relates_bind; [apply _|apply relates_advance, record_nudge_quiet|intros _].
    apply relates_bind; [apply _|apply advance_read|intros t]. apply own_event_advance.
  - apply relates_bind; [apply _|apply relates_advance, record_nudge_quiet|intros _].
    apply relates_lift. apply _.
Qed.

Lemma stuck_advance : relates advance (check_stuck_agents config clock uuid).
Proof.
  apply relates_bind; [apply _|apply advance_read|intros now].
  apply relates_bind; [apply _|apply advance_get|intros m]. apply relates_for; [apply _|apply nudge_stuck_advance].
Qed.

Lemma detect_quiet events : relates quiet (detect_feedback_triggers clock to_rfc3339 events).
Proof. unfold detect_feedback_triggers. follow. by apply quiet_modify. Qed.

Lemma heartbeat_quiet : relates quiet (run_heartbeat clock uuid).
Proof.
  unfold run_heartbeat. follow; [|by apply quiet_modify].
  intros s. destruct (de_decide _ _) as [d r]. split; [|done]. exists []. by rewrite app_nil_r.
Qed.

Lemma budget_quiet : relates quiet (heartbeat_and_budget config clock uuid).
Proof.
  unfold heartbeat_and_budget, handle_budget_exceeded. pose proof heartbeat_quiet.
  follow; by apply quiet_modify.
Qed.

(** What follows the observation of an event only adds to the log. *)
Lemma supervisor_event_advance e id s :
  (e, id) ∈ held s -> cursor_le (cursor s) (Some id) ->
  advance s (supervisor_event clock e id s).1 /\ cursor (supervisor_event clock e id s).1 = Some id.
Proof.
  intros Hin Hle.
  pose proof (observe_advance e id s (e, id) Hin (Z.le_refl _) Hle) as Hadv.
  pose proof (observe_cursor e id s) as Hc.
  assert (Hq : quiet (observe_event clock e id s).1 (supervisor_event clock e id s).1).
  { unfold supervisor_event. apply relates_after; [apply _|intros emitted].
    apply relates_bind; [apply _|by apply quiet_same; intros ?|intros _]. follow; by apply quiet_modify. }
  split; [etrans; [exact Hadv|by apply quiet_advance]|]. destruct Hq as [_ Hq]. by rewrite Hq.
Qed.

Lemma process_events_advance events s :
  (forall x, x ∈ events -> x ∈ held s) -> StronglySorted Z.lt events.*2 ->
  (forall x, x ∈ events -> cursor_le (cursor s) (Some x.2)) ->
  advance s (process_events clock events s).1.
Proof.
  revert s. induction events as [|[e id] events IH]; intros s Hin Hsorted Hcur; cbn [process_events]; [done|].
  destruct (supervisor_event_advance e id s) as [Hadv Hc]; [apply Hin; constructor|apply (Hcur (e, id)); constructor|].
  unfold sm_catch. destruct (supervisor_event clock e id s) as [s1 r]. cbn [fst] in *.
  apply StronglySorted_inv in Hsorted as [Hsorted Hmin].
  assert (Hrest : advance s1 (process_events clock events s1).1).
  { apply IH; [|done|].
    - intros x Hx. destruct Hadv as [Hg _]. eapply grows_held; [exact Hg|]. apply Hin. by constructor.
    - intros x Hx. rewrite Hc. cbn. rewrite Forall_forall in Hmin.
      pose proof (Hmin x.2 (list_elem_of_fmap_2 _ _ _ Hx)) as Hlt. cbn in Hlt. lia. }
  destruct r; by etrans.
Qed.

Lemma poll_events_spec s s0 l :
  poll_events config s = (s0, Ok l) ->
  l = take (sc_event_batch_size config) (List.filter (after (cursor s)) (held s)) /\ quiet s s0.
Proof.
  intros Hpoll. unfold poll_events, sm_bind, sv_get in Hpoll.
  pose proof (quiet_store _ (stream_adds (cursor s) (sc_event_batch_size config)) s) as Hq.
  unfold cursor in Hq at 1. rewrite Hpoll in Hq. split; [|exact Hq].
  unfold on_store in Hpoll. destruct (es_stream _ _ _) as [st r] eqn:E. injection Hpoll as <- ->.
  by apply es_stream_spec in E.
Qed.

Lemma sorted_sublist (l k : list (Event * EventId)) :
  sublist l k -> StronglySorted Z.lt k.*2 -> StronglySorted Z.lt l.*2.
Proof.
  induction 1 as [|x l k Hsub IH|x l k Hsub IH]; cbn; [done|..]; intros [Hk Hall]%StronglySorted_inv; [|auto].
  constructor; [auto|]. rewrite Forall_forall in *. intros y (z & -> & Hz)%list_elem_of_fmap.
  apply Hall, list_elem_of_fmap_2. by eapply elem_of_sublist.
Qed.

Lemma take_in_events_advance : relates advance (take_in_events config clock to_rfc3339).
Proof.
  intros s. unfold take_in_events, sm_bind at 1. destruct (poll_events config s) as [s0 [l|err]] eqn:Hpoll.
  2: { apply quiet_advance. unfold poll_events, sm_bind, sv_get in Hpoll.
       pose proof (quiet_store _ (stream_adds (cursor s) (sc_event_batch_size config)) s) as Hq.
       unfold cursor in Hq at 1. by rewrite Hpoll in Hq. }
  apply poll_events_spec in Hpoll as [Hl Hq].
  assert (Hsub : sublist l (held s)).
  { rewrite Hl. etrans; [apply sublist_take|apply filter_sublist]. }
  assert (Hproc : advance s (process_events clock l s0).1).
  { etrans; [by apply quiet_advance|]. destruct Hq as [Hg Hc]. apply process_events_advance.
    - intros x Hx. eapply grows_held; [exact Hg|]. by eapply elem_of_sublist.
    - eapply sorted_sublist; [exact Hsub|apply es_held_sorted].
    - intros x Hx. rewrite Hc. rewrite Hl in Hx. apply elem_of_take in Hx as (i & Hi & _).
      apply list_elem_of_lookup_2, list_elem_of_In, filter_In in Hi as [_ Hafter].
      unfold after in Hafter. destruct (cursor s); cbn; [apply Z.ltb_lt in Hafter; lia|done]. }
  etrans; [exact Hproc|]. apply relates_after; [apply _|intros []].
  apply relates_bind; [apply _| |intros _].
  - apply relates_advance, quiet_modify; intros s1; by destruct l.
  - apply relates_bind; [apply _|apply relates_advance, detect_quiet|intros _]. apply timeouts_advance.
Qed.

Lemma tick_advance : relates advance tick.
Proof.
  intros s. destruct (decide (sv_state s = SystemState.Draining)) as [Hs|Hs].
  - rewrite tick_draining by done. case_decide; [|done]. apply quiet_advance. split; [|done]. exists []. by rewrite app_nil_r.
  - rewrite tick_running by done.
    apply (relates_bind advance _ _ take_in_events_advance). intros _.
    apply relates_bind; [apply _|apply stuck_advance|intros _]. apply relates_advance, budget_quiet.
Qed.

(** ** Runs of the supervisor among other writers

    Between two ticks other processes may append to the log, and gateway and
    decision engine may change. *)
Inductive steps : Sup -> Sup -> Prop :=
| steps_refl s : steps s s
| steps_tick s s' : steps s s' -> steps s (tick s').1
| steps_others s s' store gateway decisions l :
    steps s s' -> es_held store = held s' ++ l ->
    steps s (s' <| sv_store := store |> <| sv_gateway := gateway |> <| sv_decisions := decisions |>).

Lemma steps_advance s s' : steps s s' -> advance s s'.
Proof.
  induction 1 as [s|s s' _ IH|s s' store gateway decisions l _ IH Hl]; [done|etrans; [exact IH|apply tick_advance]|].
  etrans; [exact IH|]. apply quiet_advance. split; [by exists l|done].
Qed.

(** A supervisor that has just started, and what it can reach. *)
Definition supervisor_reachable (s : Sup) : Prop :=
  exists s0, sv_monitor s0 = SupervisorState_new /\ steps s0 s.

Lemma reachable_cursor_ok s : supervisor_reachable s -> cursor_ok s.
Proof.
  intros (s0 & Hm & Hsteps%steps_advance). destruct Hsteps as [_ Hadv]. apply Hadv.
  intros c. unfold cursor. by rewrite Hm.
Qed.

(** ** Sending a nudge moves the cursor to the end of the log *)

(** All of [h] is behind the cursor. *)
Definition covers (h : list (Event * EventId)) (s : Sup) : Prop :=
  exists c, cursor s = Some c /\ forall x, x ∈ h -> (x.2 <= c)%Z.

Lemma covers_advance h s s' : cursor_ok s -> advance s s' -> covers h s -> covers h s'.
Proof.
  intros Hok [_ Hadv] (c & Hc & Hall). destruct (Hadv Hok) as [_ Hle]. rewrite Hc in Hle.
  destruct (cursor s') as [c'|] eqn:Hc'; [|done]. cbn in Hle. exists c'. split; [done|].
  intros x Hx. specialize (Hall x Hx). lia.
Qed.

Lemma nudge_sent_covers h stuck s s' :
  (forall x, x ∈ h -> x ∈ held s) -> si_is_in_operation stuck = false ->
  nudge_stuck config clock uuid stuck s = (s', Ok tt) -> covers h s'.
Proof.
  intros Hh Hop Hrun. unfold nudge_stuck in Hrun. rewrite Hop in Hrun. cbn [should_invoke_ai_for_stuck negb andb] in Hrun.
  apply sm_bind_Ok in Hrun as (s1 & id & Hread1 & Hrun). injection Hread1 as <- <-.
  apply sm_bind_Ok in Hrun as (s2 & now & Hread2 & Hrun). injection Hread2 as <- <-.
  unfold sm_catch in Hrun. match type of Hrun with context [on_sessions ?op ?s1] =>
    pose proof (quiet_sessions op s1) as Hq; destruct (on_sessions op s1) as [s3 [[]|e]] end.
  2: { by apply sm_bind_Ok in Hrun as (? & ? & _ & Hrun). }
  apply sm_bind_Ok in Hrun as (s4 & [] & Hrec & Hrun). apply sm_bind_Ok in Hrun as (s5 & t & Hread & Hown).
  assert (Hheld : held s5 = held s3) by (injection Hrec as <-; by injection Hread as <- <-).
  destruct Hq as [Hg _]. cbn [fst] in Hg.
  apply own_event_Ok in Hown as (st & eid & Happ & _ & Hc). exists eid. split; [done|].
  intros x Hx. enough (x.2 < eid)%Z by lia. eapply append_id_greater; [exact Happ|].
  change (x ∈ held s5). rewrite Hheld. eapply grows_held; [exact Hg|]. by apply Hh.
Qed.

Lemma nudges_cover h l s s' stuck :
  cursor_ok s -> (forall x, x ∈ h -> x ∈ held s) -> stuck ∈ l -> si_is_in_operation stuck = false ->
  sv_for (nudge_stuck config clock uuid) l s = (s', Ok tt) -> covers h s'.
Proof.
  revert s. induction l as [|y l IH]; intros s Hok Hh Hin Hop Hrun; [set_solver|].
  apply sm_bind_Ok in Hrun as (s1 & [] & Hy & Hrun).
  change (sv_for (nudge_stuck config clock uuid) l s1 = (s', Ok tt)) in Hrun.
  pose proof (nudge_stuck_advance y s) as Hadv. rewrite Hy in Hadv. cbn [fst] in Hadv.
  pose proof Hadv as [Hg Hadv']. destruct (Hadv' Hok) as [Hok1 _].
  apply elem_of_cons in Hin as [<-|Hin].
  - eapply covers_advance; [exact Hok1| |by eapply nudge_sent_covers].
    pose proof (relates_for advance _ l nudge_stuck_advance s1) as Hrest. by rewrite Hrun in Hrest.
  - eapply IH; [exact Hok1| |exact Hin|done|exact Hrun]. intros x Hx. eapply grows_held; [exact Hg|]. by apply Hh.
Qed.

(** sending a nudge skips unread events: the nudge's own event moves the
    monitor's cursor to the end of the log, so no event that was in the log when
    the stuck agents were looked for, read or not, is ever returned by a later
    poll, whatever ticks and other writers do in between. *)
Theorem nudge_hides_unread_events s s0 s' b stuck s2 s3 l x :
  supervisor_reachable s -> sv_state s <> SystemState.Draining ->
  take_in_events config clock to_rfc3339 s = (s0, Ok tt) ->
  stuck ∈ stuck_now config clock s0 -> si_is_in_operation stuck = false -> x ∈ held s0 ->
  tick s = (s', Ok b) -> steps s' s2 -> poll_events config s2 = (s3, Ok l) ->
  x ∉ l.
Proof.
  intros Hreach%reachable_cursor_ok Hs Htake Hstuck Hop Hx Htick Hsteps Hpoll Hin.
  rewrite tick_running in Htick by done. unfold sm_bind at 1 in Htick. rewrite Htake in Htick.
  apply sm_bind_Ok in Htick as (s1 & [] & Hcheck & Hrest).
  pose proof (take_in_events_advance s) as [_ Hadv0]. rewrite Htake in Hadv0. destruct (Hadv0 Hreach) as [Hok0 _].
  assert (Hcov1 : covers (held s0) s1).
  { eapply (nudges_cover (held s0) (stuck_now config clock s0) (s0 <| sv_reads := S (sv_reads s0) |>));
      [exact Hok0|done|exact Hstuck|exact Hop|exact Hcheck]. }
  pose proof (stuck_advance s0) as [_ Hadv1]. rewrite Hcheck in Hadv1. destruct (Hadv1 Hok0) as [Hok1 _].
  assert (Hadv2 : advance s1 s2).
  { etrans; [|by apply steps_advance]. apply quiet_advance. pose proof (budget_quiet s1) as Hq.
    by rewrite Hrest in Hq. }
  destruct (covers_advance (held s0) s1 s2 Hok1 Hadv2 Hcov1) as (c & Hc & Hall).
  apply poll_events_spec in Hpoll as [-> _]. apply elem_of_take in Hin as (i & Hi & _).
  apply list_elem_of_lookup_2, list_elem_of_In, filter_In in Hi as [_ Hafter].
  rewrite Hc in Hafter. cbn in Hafter. apply Z.ltb_lt in Hafter. specialize (Hall x Hx). lia.
Qed.
End cursor.
