(* ===== verification/SupervisorRuns.v ===== *)
(** * Start-up and runs of the supervisor

    The loop of [hydrate_feedback_dedup_keys] (supervisor.rs) ends after it has
    read the whole log.  The module [SupervisorSample] runs ticks on concrete
    logs, sessions and clocks. *)

From S2P Require Import Prelude Effects StrLib Chars Types Events Queue Ports MemEvents Scoring WorkerPool Feedback FeedbackLoop FeedbackOutcome EventMonitor StuckDetection Budget Supervisor SupervisorProofs.

(** ** Reading a sorted log in batches *)

Lemma filter_after_sorted (l1 l2 : list (Event * EventId)) x :
  StronglySorted Z.lt (l1 ++ x :: l2).*2 -> List.filter (after (Some x.2)) (l1 ++ x :: l2) = l2.
Proof.
  intros Hsorted. induction l1 as [|y l1 IH]; cbn [app fmap list_fmap List.filter] in *;
    apply StronglySorted_inv in Hsorted as [Hsorted Hall]; rewrite Forall_forall in Hall.
  - cbn. rewrite Z.ltb_irrefl. apply forallb_filter_id, forallb_forall. intros y Hy%list_elem_of_In. cbn.
    apply Z.ltb_lt, Hall. by apply list_elem_of_fmap_2.
  - cbn [after]. assert (y.2 < x.2)%Z by (apply Hall, list_elem_of_fmap_2; set_solver).
    destruct (Z.ltb_spec x.2 y.2); [lia|]. by apply IH.
Qed.

(** Whatever is after [x] is also after what [x] is after. *)
Lemma filter_after_trans since x (l : list (Event * EventId)) :
  after since x = true ->
  List.filter (after (Some x.2)) l = List.filter (after (Some x.2)) (List.filter (after since) l).
Proof.
  intros Hx. induction l as [|y l IH]; [done|]. cbn [List.filter].
  destruct (after (Some x.2) y) eqn:Hy; destruct (after since y) eqn:Hsince; cbn [List.filter];
    rewrite ?Hy, <-?IH; [done| |done..].
  unfold after in *. destruct since; [|done]. lia.
Qed.

(** The batch that follows one ending in [x] is the rest of the log. *)
Lemma next_batch since n (l : list (Event * EventId)) x :
  StronglySorted Z.lt l.*2 -> last (take n (List.filter (after since) l)) = Some x ->
  List.filter (after (Some x.2)) l = drop n (List.filter (after since) l).
Proof.
  intros Hsorted [k Hk]%last_Some. set (F := List.filter (after since) l) in *.
  assert (HF : F = k ++ x :: drop n F) by (rewrite <-(take_drop n F) at 1; rewrite Hk, <-app_assoc; done).
  assert (Hx : x ∈ F) by (rewrite HF; set_solver).
  rewrite (filter_after_trans since); [|by apply list_elem_of_In, filter_In in Hx as [_ Hx]].
  fold F. rewrite HF at 1. apply filter_after_sorted. rewrite <-HF.
  eapply sorted_sublist; [apply filter_sublist|done].
Qed.

Section hydration.
Context {ord : IterOrder string} `{TextOps} `{AgentSessions} `{EventStreamOrder} `{DecisionEngine}.

Lemma hydrate_loop_spec fuel since s :
  length (List.filter (after since) (held s)) < fuel ->
  exists s' r, hydrate_loop fuel since s = (s', r) /\ r <> Ok false /\ held s' = held s
    /\ (r = Ok true -> sv_known_keys s' =
          sv_known_keys s ∪ list_to_set (trigger_keys (List.filter (after since) (held s)))).
Proof.
  revert since s. induction fuel as [|fuel IH]; intros since s Hfuel; [lia|]. cbn [hydrate_loop].
  unfold sm_bind at 1, on_store. pose proof (es_stream_held since 1000 (sv_store s)) as Hheld.
  destruct (es_stream since 1000 (sv_store s)) as [st [l|e]] eqn:E; cbn [fst] in Hheld; [|by do 2 eexists].
  apply es_stream_spec in E. change (es_held (sv_store s)) with (held s) in *.
  set (F := List.filter (after since) (held s)) in *.
  destruct (last l) as [[e id]|] eqn:Hlast.
  - unfold sm_bind, sv_modify. rewrite E in Hlast.
    pose proof (next_batch _ _ _ _ (es_held_sorted _) Hlast) as Hnext. cbn [snd] in Hnext. fold F in Hnext.
    assert (Hpos : 0 < length F) by (destruct F; [done|apply Nat.lt_0_succ]).
    match goal with |- context [hydrate_loop fuel _ ?s1] => destruct (IH (Some id) s1) as (s' & r & Hrun & Hr & Hh & Hkeys) end;
      unfold held in *; cbn -[hydrate_loop] in *; rewrite Hheld in *; rewrite Hnext in *.
    + rewrite length_drop. fold F. lia.
    + exists s', r. split_and!; [done..|]. intros Hok. rewrite (Hkeys Hok).
      fold F. rewrite <-(take_drop 1000 F) at 2. rewrite <-E. unfold trigger_keys. rewrite omap_app, list_to_set_app_L. by rewrite assoc_L by apply _.
  - do 2 eexists. split_and!; [done..| ]. intros _. cbn. apply last_None in Hlast.
    rewrite Hlast in E. destruct F; [set_solver|done].
Qed.

(** hydration terminates and loses nothing: with fuel for one batch per
    event of the log and one more, [hydrate_feedback_dedup_keys] always returns,
    with an error of the store or with the keys of exactly the triggers the log
    holds, in however many batches of a thousand it reads them. *)
Theorem hydration_reads_whole_log s fuel :
  length (held s) < fuel ->
  exists s' r, hydrate_feedback_dedup_keys fuel s = (s', r) /\ r <> Ok false /\ held s' = held s
    /\ (r = Ok true -> sv_known_keys s' = sv_known_keys s ∪ list_to_set (trigger_keys (held s))).
Proof.
  intros Hfuel. pose proof (hydrate_loop_spec fuel None s) as Hspec.
  assert (Hall : List.filter (after None) (held s) = held s) by (by apply forallb_filter_id, forallb_forall).
  rewrite Hall in Hspec. by apply Hspec.
Qed.
End hydration.

(** ** Runs on concrete logs *)
Module SupervisorSample.
#[local] Instance order : IterOrder string := canonical_order string.
#[local] Instance text : TextOps := {| to_lowercase := fun s => s |}.
#[local] Existing Instances Mem.store Mem.store_laws Mem.stream Mem.stream_laws Mem.stream_order.

(** Every session but "mute" takes prompts. *)
#[local] Instance gateway : AgentGateway := {|
  gw_state := nat;
  gw_spawn := fun _ n => (S n, Ok (pretty n));
  gw_kill_session := fun _ n => (n, Ok tt)
|}.
#[local] Instance sessions : AgentSessions := {|
  gw_send_prompt := fun session _ n => (n, if String.eqb session "mute" then Err "closed" else Ok tt);
  gw_health_check := fun _ n => (n, Ok HealthStatus.Healthy)
|}.

#[local] Instance decisions : DecisionEngine := {|
  de_state := unit;
  de_decide := fun request _ =>
    (tt, Ok (mkDecisionResponse (dq_request_id request) "go on" "" DecisionConfidence.High [] 10 0))
|}.

(** [batch] events a tick; the budget is a hundred tokens; an hour passes
    between two readings of the clock. *)
Definition config (batch : nat) : SupervisorConfig :=
  mkSupervisorConfig AutonomyLevel.Guided StuckDetectionConfig_default HeartbeatConfig_default
    (mkBudgetPolicy (Some 100) None 80 true)%Z EscalationConfig_default batch 100 1000 DEFAULT_NUDGE_TIMEOUT.
Definition clock (n : nat) : DateTime := seconds (3600 * Z.of_nat n).
Definition uuid (n : nat) : string := "id-" +:+ pretty n.
Definition rfc3339 (t : DateTime) : string := pretty t.

Definition event (kind : EventKind) : Event := mkEvent kind 0%Z "s".
Definition spawned (session : string) : Event := event (EventKind.AgentSpawned "agent" session "worker").
Definition spent (tokens : Z) : Event := event (EventKind.ResponseReceived "s1" "p" tokens).

Definition start (l : list Event) : Supervisor :=
  supervisor_new (config 1) clock 0 l tt <| sv_running := true |>.
Abbreviation run_tick batch := (supervisor_tick (config batch) clock uuid rfc3339).

(** The parts of the result of an operation. *)
Lemma result_of {S E A} (m : SM S E A) s r : (m s).2 = r -> m s = ((m s).1, r).
Proof. intros <-. apply surjective_pairing. Qed.

(** The tick that reads the response that breaks the budget drains. *)
Lemma tick_enforces_budget_witness :
  let s := start [spent 150] in
  let s' := (run_tick 1 s).1 in
  total_tokens (sv_budget s') = 150%Z /\ sv_state s' = SystemState.Draining.
Proof.
  intros s s'.
  destruct (tick_enforces_budget (config 1) clock uuid rfc3339 s (poll_events (config 1) s).1
              [(spent 150, 1%Z)] s' true) as (Htotal & _ & Hdrain).
  - vm_compute. discriminate.
  - refine (result_of (poll_events (config 1)) s (Ok [(spent 150, 1%Z)]) _). vm_compute. reflexivity.
  - refine (result_of (run_tick 1) s (Ok true) _). vm_compute. reflexivity.
  - apply Forall_singleton. vm_compute. split; discriminate.
  - vm_compute. split; discriminate.
  - split; [rewrite Htotal; vm_compute; reflexivity|]. apply Hdrain. vm_compute. reflexivity.
Defined.

(** The agent of the session "mute" is idle, the budget is spent, and the
    supervisor goes on. *)
Lemma refused_nudge_skips_budget_witness :
  let s := start [spawned "mute"; spent 150] in
  exists s' e, run_tick 2 s = (s', Err e) /\ sv_state s' = SystemState.Running
    /\ is_over_budget (sv_budget s') = true.
Proof.
  intros s. set (s1 := (take_in_events (config 2) clock rfc3339 s).1).
  destruct (refused_nudge_skips_budget (config 2) clock uuid rfc3339 s s1
              (hd (mkStuckInfo "" "" 0 None false None None None) (stuck_now (config 2) clock s1)))
    as (s' & e & Hrun & Hst & Hb).
  - vm_compute. discriminate.
  - refine (result_of (take_in_events (config 2) clock rfc3339) s (Ok tt) _). vm_compute. reflexivity.
  - vm_compute. apply elem_of_cons. left. reflexivity.
  - vm_compute. reflexivity.
  - intros prompt g. vm_compute. reflexivity.
  - exists s', e. split; [exact Hrun|]. rewrite Hst, Hb. split; vm_compute; reflexivity.
Defined.

(** An agent started a build before the drain, and its completion, though in
    the log, is not noticed in a thousand ticks. *)
Lemma drain_waits_forever_witness :
  let s := (run_tick 3 (start [spawned "s1"; event (EventKind.OperationStarted "s1" "build");
                               event (EventKind.SystemDraining "stop")])).1 in
  let later := s <| sv_store := sv_store s ++ [event (EventKind.OperationCompleted "s1" "build" true)] |> in
  supervisor_loop (config 3) clock uuid rfc3339 (replicate 1000 false) later = later.
Proof.
  intros s later. pose proof (drain_waits_forever (config 3) clock uuid rfc3339 s) as Hdrain.
  assert (Hops : agents_in_operation (sv_monitor s) <> []) by (vm_compute; discriminate).
  rewrite decide_False in Hdrain by exact Hops.
  refine (Hdrain _ _ 1000 (sv_store s ++ [event (EventKind.OperationCompleted "s1" "build" true)]));
    vm_compute; reflexivity.
Defined.

(** The second event is in the log before the nudge and is never read. *)
Lemma nudge_hides_unread_events_witness :
  let s := start [spawned "s1"; event (EventKind.TaskCreated "T1")] in
  let s' := (run_tick 1 s).1 in
  ((event (EventKind.TaskCreated "T1"), 2%Z) ∉ []) /\ (poll_events (config 1) s').2 = Ok [].
Proof.
  intros s s'. split; [|vm_compute; reflexivity]. set (s0 := (take_in_events (config 1) clock rfc3339 s).1).
  apply (nudge_hides_unread_events (config 1) clock uuid rfc3339 s s0 s' true
    (hd (mkStuckInfo "" "" 0 None false None None None) (stuck_now (config 1) clock s0)) s'
    (poll_events (config 1) s').1).
  - exists s. split; [reflexivity|apply steps_refl].
  - vm_compute. discriminate.
  - refine (result_of (take_in_events (config 1) clock rfc3339) s (Ok tt) _). vm_compute. reflexivity.
  - vm_compute. apply elem_of_cons. left. reflexivity.
  - vm_compute. reflexivity.
  - vm_compute. apply elem_of_cons. right. apply elem_of_cons. left. reflexivity.
  - refine (result_of (run_tick 1) s (Ok true) _). vm_compute. reflexivity.
  - apply steps_refl.
  - refine (result_of (poll_events (config 1)) s' (Ok []) _). vm_compute. reflexivity.
Defined.

Definition detected : FeedbackTrigger :=
  make_trigger FeedbackTriggerKind.WorkerFailed (Some "T1") (Some "R1") None [7%Z] (Some (7%Z, 7%Z)) 0%Z
    "Run R1 failed: tests" JNull.

Lemma hydration_reads_whole_log_witness :
  let s := start [spent 5; trigger_event 0%Z detected] in
  exists s', hydrate_feedback_dedup_keys 3 s = (s', Ok true) /\ sv_known_keys s' = {[dedup_key detected]}.
Proof.
  intros s. destruct (hydration_reads_whole_log s 3) as (s' & r & Hrun & _ & _ & Hkeys).
  - vm_compute. lia.
  - assert (Hr : r = Ok true).
    { transitivity (hydrate_feedback_dedup_keys 3 s).2; [by rewrite Hrun|vm_compute; reflexivity]. }
    exists s'. split; [by rewrite Hrun, Hr|]. rewrite (Hkeys Hr). vm_compute. reflexivity.
Defined.
End SupervisorSample.
