(* ===== verification/RuntimeTypes.v ===== *)
(** * Runtime events and commands (brehon-types/src/runtime.rs, and the terminal
    host settings of config.rs)

    The vocabulary of the runtime side channel: events that panes, detectors,
    policies and workflows produce, and commands that change panes.  Unsigned
    numbers of fixed width are [Z], sizes are [nat]. *)

From S2P Require Import Prelude.

(** ** Panes *)

Module RuntimeSource.
Inductive RuntimeSource :=
| Mux | Daemon | EmbeddedTui | Web | NativeGui | Headless | Detector | Policy | Other (name : string).
End RuntimeSource.
Abbreviation RuntimeSource := RuntimeSource.RuntimeSource.

Module RuntimePaneState.
Inductive RuntimePaneState := Ready | Busy | Blocked | Dead | Unknown.
End RuntimePaneState.
Abbreviation RuntimePaneState := RuntimePaneState.RuntimePaneState.

Module RuntimePaneKind.
Inductive RuntimePaneKind :=
| Supervisor | Worker | Reviewer | Advisor | Research | Director | Shell | Unknown | Other (name : string).
End RuntimePaneKind.
Abbreviation RuntimePaneKind := RuntimePaneKind.RuntimePaneKind.

Module RuntimePaneBlockKind.
Inductive RuntimePaneBlockKind := PermissionRequest | TerminalPrompt | ProviderContextLimit.
End RuntimePaneBlockKind.
Abbreviation RuntimePaneBlockKind := RuntimePaneBlockKind.RuntimePaneBlockKind.

Record RuntimePaneBlockInfo := mkRuntimePaneBlockInfo {
  bi_kind : RuntimePaneBlockKind;
  bi_summary : string;
  bi_command_or_tool : option string;
  bi_request_id : option string;
  bi_task_id : option string;
  bi_excerpt : option string
}.

#[export] Instance RuntimeSource_eq_dec : EqDecision RuntimeSource.
Proof. solve_decision. Defined.
#[export] Instance RuntimePaneState_eq_dec : EqDecision RuntimePaneState.
Proof. solve_decision. Defined.
#[export] Instance RuntimePaneKind_eq_dec : EqDecision RuntimePaneKind.
Proof. solve_decision. Defined.
#[export] Instance RuntimePaneBlockKind_eq_dec : EqDecision RuntimePaneBlockKind.
Proof. solve_decision. Defined.
#[export] Instance RuntimePaneBlockInfo_eq_dec : EqDecision RuntimePaneBlockInfo.
Proof. solve_decision. Defined.

(** ** Commands *)

Module PromptDeliveryMode.
Inductive PromptDeliveryMode := Attempt | Enqueue | Direct.
End PromptDeliveryMode.
Abbreviation PromptDeliveryMode := PromptDeliveryMode.PromptDeliveryMode.

Module RuntimeCommandKind.
Inductive RuntimeCommandKind :=
| SendPrompt (prompt_id text : string) (from : option string) (delivery : PromptDeliveryMode)
| BroadcastPrompt (prompt_id text : string) (pane_ids : list string)
| SendTerminalInput (bytes : string)
| Interrupt (reason : string)
| ResetPane (reason : string)
| RecyclePane (reason : string)
| QuarantinePane (reason : string)
| SpawnPane (kind : RuntimePaneKind) (pane_id title cwd : option string) (command : list string)
    (env : gmap string string) (rows cols : option Z)
| ResizePane (rows cols : Z)
| ClosePane (reason : string)
| ResolveApproval (approval_id : string) (approved : bool).
End RuntimeCommandKind.
Abbreviation RuntimeCommandKind := RuntimeCommandKind.RuntimeCommandKind.

Record RuntimeCommandTarget := mkRuntimeCommandTarget {
  ct_session_id : string;
  ct_pane_id : option string;
  ct_generation : option Z
}.

Record RuntimeCommand := mkRuntimeCommand {
  cm_command_id : string;
  cm_target : RuntimeCommandTarget;
  cm_issued_at_ms : Z;
  cm_kind : RuntimeCommandKind
}.

Module RuntimeCommandStatus.
Inductive RuntimeCommandStatus := Accepted | Applied | Rejected | Deferred.
End RuntimeCommandStatus.
Abbreviation RuntimeCommandStatus := RuntimeCommandStatus.RuntimeCommandStatus.

Record RuntimeCommandResult := mkRuntimeCommandResult {
  cr_command_id : string;
  cr_status : RuntimeCommandStatus;
  cr_message : option string
}.

Module RuntimeOperation.
Inductive RuntimeOperation :=
| SendPrompt | BroadcastPrompt | SendTerminalInput | Interrupt | ResetPane | RecyclePane
| QuarantinePane | SpawnPane | ResizePane | ClosePane | ResolveApproval | Other (name : string).
End RuntimeOperation.
Abbreviation RuntimeOperation := RuntimeOperation.RuntimeOperation.

#[export] Instance PromptDeliveryMode_eq_dec : EqDecision PromptDeliveryMode.
Proof. solve_decision. Defined.
#[export] Instance RuntimeCommandKind_eq_dec : EqDecision RuntimeCommandKind.
Proof. solve_decision. Defined.
#[export] Instance RuntimeCommandTarget_eq_dec : EqDecision RuntimeCommandTarget.
Proof. solve_decision. Defined.
#[export] Instance RuntimeCommand_eq_dec : EqDecision RuntimeCommand.
Proof. solve_decision. Defined.
#[export] Instance RuntimeCommandStatus_eq_dec : EqDecision RuntimeCommandStatus.
Proof. solve_decision. Defined.
#[export] Instance RuntimeCommandResult_eq_dec : EqDecision RuntimeCommandResult.
Proof. solve_decision. Defined.
#[export] Instance RuntimeOperation_eq_dec : EqDecision RuntimeOperation.
Proof. solve_decision. Defined.

(** ** Policy *)

Module RuntimePolicyDecision.
Inductive RuntimePolicyDecision :=
| Allow
| Deny (reason : string)
| Defer (retry_after_ms : Z) (reason : string)
| RequireApproval (reason : string).
End RuntimePolicyDecision.
Abbreviation RuntimePolicyDecision := RuntimePolicyDecision.RuntimePolicyDecision.

Record RuntimePolicyContext := mkRuntimePolicyContext {
  pc_pane_state : option RuntimePaneState;
  pc_queued_prompts : option nat;
  pc_broadcast_fanout : option nat;
  pc_recent_failures : option nat;
  pc_rate_limited_until_ms : option Z;
  pc_approval_required : bool
}.

#[export] Instance eta_RuntimePolicyContext : Eta RuntimePolicyContext := fun c =>
  mkRuntimePolicyContext (pc_pane_state c) (pc_queued_prompts c) (pc_broadcast_fanout c)
    (pc_recent_failures c) (pc_rate_limited_until_ms c) (pc_approval_required c).

Definition RuntimePolicyContext_default : RuntimePolicyContext :=
  mkRuntimePolicyContext None None None None None false.

Record RuntimePolicyRequest := mkRuntimePolicyRequest {
  pr_command : RuntimeCommand;
  pr_context : RuntimePolicyContext
}.

#[export] Instance RuntimePolicyDecision_eq_dec : EqDecision RuntimePolicyDecision.
Proof. solve_decision. Defined.
#[export] Instance RuntimePolicyContext_eq_dec : EqDecision RuntimePolicyContext.
Proof. solve_decision. Defined.

(** ** Events *)

Record RuntimeEventMeta := mkRuntimeEventMeta {
  em_event_id : option string;
  em_session_id : string;
  em_pane_id : string;
  em_generation : Z;
  em_correlation_id : option string;
  em_timestamp_ms : Z;
  em_source : RuntimeSource
}.

#[export] Instance eta_RuntimeEventMeta : Eta RuntimeEventMeta := fun m =>
  mkRuntimeEventMeta (em_event_id m) (em_session_id m) (em_pane_id m) (em_generation m)
    (em_correlation_id m) (em_timestamp_ms m) (em_source m).

Definition RuntimeEventMeta_new (session_id pane_id : string) (generation : Z) (source : RuntimeSource)
    (timestamp_ms : Z) : RuntimeEventMeta :=
  mkRuntimeEventMeta None session_id pane_id generation None timestamp_ms source.

Definition with_correlation_id (correlation_id : string) (m : RuntimeEventMeta) : RuntimeEventMeta :=
  m <| em_correlation_id := Some correlation_id |>.

Module DetectionSeverity.
Inductive DetectionSeverity := Info | Warning | Blocking.
End DetectionSeverity.
Abbreviation DetectionSeverity := DetectionSeverity.DetectionSeverity.

Record RuntimeTextSpan := mkRuntimeTextSpan { sp_start_line : Z; sp_end_line : Z }.

Record DetectionEvent := mkDetectionEvent {
  dt_detection_id : string;
  dt_rule_id : string;
  dt_severity : DetectionSeverity;
  dt_message : string;
  dt_span : option RuntimeTextSpan
}.

Record PaneOutputEvent := mkPaneOutputEvent { po_bytes : string; po_text : option string }.

Record PaneStateChangedEvent := mkPaneStateChangedEvent {
  sc_previous : option RuntimePaneState;
  sc_current : RuntimePaneState;
  sc_reason : option string;
  sc_blocked : option RuntimePaneBlockInfo
}.

Record PolicyDecisionEvent := mkPolicyDecisionEvent {
  pd_decision_id : string;
  pd_operation : RuntimeOperation;
  pd_decision : RuntimePolicyDecision
}.

Module WorkflowActionStatus.
Inductive WorkflowActionStatus := DryRun | Requested | Applied | Failed | Skipped.
End WorkflowActionStatus.
Abbreviation WorkflowActionStatus := WorkflowActionStatus.WorkflowActionStatus.

Record WorkflowActionEvent := mkWorkflowActionEvent {
  wa_workflow_id : string;
  wa_action_id : string;
  wa_operation : RuntimeOperation;
  wa_status : WorkflowActionStatus;
  wa_reason : string;
  wa_command_id : option string
}.

Module RuntimeActivityKind.
Inductive RuntimeActivityKind :=
| Output | ToolStarted | ToolCompleted | OperationStarted | OperationCompleted
| PermissionRequested | PermissionResolved | Heartbeat | Other (name : string).
End RuntimeActivityKind.
Abbreviation RuntimeActivityKind := RuntimeActivityKind.RuntimeActivityKind.

Module RuntimeEventKind.
Inductive RuntimeEventKind :=
| PaneOutput (output : PaneOutputEvent)
| PaneStateChanged (changed : PaneStateChangedEvent)
| PromptQueued (prompt_id : string) (queue_depth : nat)
| PromptDelivered (prompt_id : string)
| PromptRejected (prompt_id reason : string)
| AgentTurnStarted (prompt_id reason : option string)
| AgentTurnEnded (prompt_id reason : option string)
| ActivityObserved (kind : RuntimeActivityKind) (description : option string)
| DetectionEvent_ (detection : DetectionEvent)
| PolicyDecision (decision : PolicyDecisionEvent)
| WorkflowAction (action : WorkflowActionEvent)
| PaneSpawned (kind : RuntimePaneKind) (title : option string)
| PaneExited (exit_code : option Z) (reason : option string).
End RuntimeEventKind.
Abbreviation RuntimeEventKind := RuntimeEventKind.RuntimeEventKind.

Record RuntimeEvent := mkRuntimeEvent { re_meta : RuntimeEventMeta; re_kind : RuntimeEventKind }.

#[export] Instance DetectionSeverity_eq_dec : EqDecision DetectionSeverity.
Proof. solve_decision. Defined.
#[export] Instance RuntimeTextSpan_eq_dec : EqDecision RuntimeTextSpan.
Proof. solve_decision. Defined.
#[export] Instance DetectionEvent_eq_dec : EqDecision DetectionEvent.
Proof. solve_decision. Defined.
#[export] Instance PaneOutputEvent_eq_dec : EqDecision PaneOutputEvent.
Proof. solve_decision. Defined.
#[export] Instance PaneStateChangedEvent_eq_dec : EqDecision PaneStateChangedEvent.
Proof. solve_decision. Defined.
#[export] Instance PolicyDecisionEvent_eq_dec : EqDecision PolicyDecisionEvent.
Proof. solve_decision. Defined.
#[export] Instance WorkflowActionStatus_eq_dec : EqDecision WorkflowActionStatus.
Proof. solve_decision. Defined.
#[export] Instance WorkflowActionEvent_eq_dec : EqDecision WorkflowActionEvent.
Proof. solve_decision. Defined.
#[export] Instance RuntimeActivityKind_eq_dec : EqDecision RuntimeActivityKind.
Proof. solve_decision. Defined.
#[export] Instance RuntimeEventKind_eq_dec : EqDecision RuntimeEventKind.
Proof. solve_decision. Defined.
#[export] Instance RuntimeEventMeta_eq_dec : EqDecision RuntimeEventMeta.
Proof. solve_decision. Defined.
#[export] Instance RuntimeEvent_eq_dec : EqDecision RuntimeEvent.
Proof. solve_decision. Defined.

(** ** Terminal hosts *)

Module RuntimeTerminalHostKind.
Inductive RuntimeTerminalHostKind := Embedded | Headless | Web | NativeGui.
End RuntimeTerminalHostKind.
Abbreviation RuntimeTerminalHostKind := RuntimeTerminalHostKind.RuntimeTerminalHostKind.

Module RuntimeTerminalHostPaneOwnership.
Inductive RuntimeTerminalHostPaneOwnership := Mux | Host.
End RuntimeTerminalHostPaneOwnership.
Abbreviation RuntimeTerminalHostPaneOwnership :=
  RuntimeTerminalHostPaneOwnership.RuntimeTerminalHostPaneOwnership.

Record TerminalHostCapabilities := mkTerminalHostCapabilities {
  hc_source : RuntimeSource;
  hc_interactive_pty : bool;
  hc_scrollback : bool;
  hc_structured_activity : bool;
  hc_absolute_resize : bool;
  hc_out_of_process_lifecycle : bool;
  hc_replay : bool
}.

#[export] Instance RuntimeTerminalHostKind_eq_dec : EqDecision RuntimeTerminalHostKind.
Proof. solve_decision. Defined.
#[export] Instance RuntimeTerminalHostPaneOwnership_eq_dec : EqDecision RuntimeTerminalHostPaneOwnership.
Proof. solve_decision. Defined.
