(* ===== verification/PolicyGate.v ===== *)
(** * Policy gates (crate brehon-policy, and the traits PolicyGate and
    RuntimeCommandPort of brehon-ports/src/runtime.rs)

    A gate decides about a command before it is executed.  [BasicPolicyGate] is
    the gate of the program; what it allows is characterised exactly. *)

From S2P Require Import Prelude RuntimeTypes Ports.

(** ** The ports *)

Class PolicyGate := {
  pg_state : Type;
  pg_evaluate : RuntimePolicyRequest -> SM pg_state PortError RuntimePolicyDecision
}.

Class RuntimeCommandPort := {
  cp_state : Type;
  cp_execute : RuntimeCommand -> SM cp_state PortError RuntimeCommandResult
}.

(** ** The basic gate *)

Record RuntimePolicyConfig := mkRuntimePolicyConfig {
  rp_max_queued_prompts_per_pane : nat;
  rp_max_broadcast_fanout : nat;
  rp_max_recent_failures : nat;
  rp_default_rate_limit_defer_ms : Z
}.

Definition RuntimePolicyConfig_default : RuntimePolicyConfig := mkRuntimePolicyConfig 8 16 3 30000.

Definition command_requires_live_pane (kind : RuntimeCommandKind) : bool :=
  match kind with
  | RuntimeCommandKind.SendPrompt _ _ _ _ | RuntimeCommandKind.SendTerminalInput _
  | RuntimeCommandKind.Interrupt _ | RuntimeCommandKind.ResizePane _ _ => true
  | _ => false
  end.

Definition command_requires_unblocked_pane (kind : RuntimeCommandKind) : bool :=
  match kind with
  | RuntimeCommandKind.SendPrompt _ _ _ _ | RuntimeCommandKind.SendTerminalInput _
  | RuntimeCommandKind.Interrupt _ => true
  | _ => false
  end.

(** The [match] on the kind of the command at the end of [evaluate_sync]. *)
Definition evaluate_kind (config : RuntimePolicyConfig) (request : RuntimePolicyRequest)
    : RuntimePolicyDecision :=
  let context := pr_context request in
  match cm_kind (pr_command request) with
  | RuntimeCommandKind.SendPrompt _ _ _ delivery =>
      if bool_decide (pc_pane_state context = Some RuntimePaneState.Busy)
         && bool_decide (delivery = PromptDeliveryMode.Direct) then
        RuntimePolicyDecision.Deny "direct prompt delivery to a busy pane is not allowed"
      else match pc_queued_prompts context with
      | Some queued_prompts =>
          if (rp_max_queued_prompts_per_pane config <=? queued_prompts)%nat then
            RuntimePolicyDecision.Defer (rp_default_rate_limit_defer_ms config)
              ("pane prompt queue is full (" +:+ pretty queued_prompts +:+ "/"
                +:+ pretty (rp_max_queued_prompts_per_pane config) +:+ ")")
          else RuntimePolicyDecision.Allow
      | None => RuntimePolicyDecision.Allow
      end
  | RuntimeCommandKind.BroadcastPrompt _ _ pane_ids =>
      let fanout := default (length pane_ids) (pc_broadcast_fanout context) in
      if (rp_max_broadcast_fanout config <? fanout)%nat then
        RuntimePolicyDecision.Deny
          ("broadcast fanout " +:+ pretty fanout +:+ " exceeds limit " +:+ pretty (rp_max_broadcast_fanout config))
      else RuntimePolicyDecision.Allow
  | _ => RuntimePolicyDecision.Allow
  end.

Definition evaluate_sync (config : RuntimePolicyConfig) (request : RuntimePolicyRequest)
    : RuntimePolicyDecision :=
  let context := pr_context request in
  let command := pr_command request in
  let cooldown := until_ms ← pc_rate_limited_until_ms context;
                  if (cm_issued_at_ms command <? until_ms)%Z then Some until_ms else None in
  if pc_approval_required context then
    RuntimePolicyDecision.RequireApproval "operation requires explicit approval"
  else match cooldown with
  | Some until_ms =>
      RuntimePolicyDecision.Defer (sat_sub until_ms (cm_issued_at_ms command)) "pane is in rate-limit cooldown"
  | None =>
  if bool_decide (pc_pane_state context = Some RuntimePaneState.Dead)
     && command_requires_live_pane (cm_kind command) then
    RuntimePolicyDecision.Deny "operation requires a live pane"
  else if bool_decide (pc_pane_state context = Some RuntimePaneState.Blocked)
     && command_requires_unblocked_pane (cm_kind command) then
    RuntimePolicyDecision.Deny "operation requires a pane that is not prompt-blocked"
  else match pc_recent_failures context with
  | Some recent_failures =>
      if (rp_max_recent_failures config <=? recent_failures)%nat then
        RuntimePolicyDecision.Deny
          ("recent failure count " +:+ pretty recent_failures +:+ " reached circuit breaker threshold "
            +:+ pretty (rp_max_recent_failures config))
      else evaluate_kind config request
  | None => evaluate_kind config request
  end
  end.

(** [impl PolicyGate for BasicPolicyGate]; the gate keeps no state. *)
Definition BasicPolicyGate (config : RuntimePolicyConfig) : PolicyGate := {|
  pg_state := unit;
  pg_evaluate := fun request => sm_ret (evaluate_sync config request)
|}.

(** ** What the gate allows *)

(** The condition on the pane's state that the kind of a command imposes. *)
Definition pane_state_ok (kind : RuntimeCommandKind) (state : option RuntimePaneState) : Prop :=
  match kind, state with
  | RuntimeCommandKind.SendPrompt _ _ _ PromptDeliveryMode.Direct, Some RuntimePaneState.Busy => False
  | (RuntimeCommandKind.SendPrompt _ _ _ _ | RuntimeCommandKind.SendTerminalInput _
     | RuntimeCommandKind.Interrupt _), Some (RuntimePaneState.Dead | RuntimePaneState.Blocked) => False
  | RuntimeCommandKind.ResizePane _ _, Some RuntimePaneState.Dead => False
  | _, _ => True
  end.

(** The limit that the kind of a command is subject to. *)
Definition within_limits (config : RuntimePolicyConfig) (kind : RuntimeCommandKind)
    (context : RuntimePolicyContext) : Prop :=
  match kind with
  | RuntimeCommandKind.SendPrompt _ _ _ _ =>
      forall n, pc_queued_prompts context = Some n -> n < rp_max_queued_prompts_per_pane config
  | RuntimeCommandKind.BroadcastPrompt _ _ panes =>
      default (length panes) (pc_broadcast_fanout context) <= rp_max_broadcast_fanout config
  | _ => True
  end.

Lemma evaluate_kind_allows config command context :
  evaluate_kind config (mkRuntimePolicyRequest command context) = RuntimePolicyDecision.Allow
  <-> ~ (exists id text from, cm_kind command = RuntimeCommandKind.SendPrompt id text from PromptDeliveryMode.Direct
         /\ pc_pane_state context = Some RuntimePaneState.Busy)
      /\ within_limits config (cm_kind command) context.
Proof.
  unfold evaluate_kind, within_limits. cbn -[Nat.ltb Nat.leb]. destruct (cm_kind command) as [id text from delivery|id text panes| | | | | | | | |]; try naive_solver.
  - destruct (bool_decide _ && bool_decide _) eqn:E.
    + apply andb_true_iff in E as [Hb%bool_decide_eq_true Hd%bool_decide_eq_true]. naive_solver.
    + apply andb_false_iff in E.
      assert (Hn : ~ exists id' text' from', RuntimeCommandKind.SendPrompt id text from delivery
                = RuntimeCommandKind.SendPrompt id' text' from' PromptDeliveryMode.Direct
                /\ pc_pane_state context = Some RuntimePaneState.Busy).
      { intros (? & ? & ? & [= -> -> -> ->] & Hb). destruct E as [E|E]; apply bool_decide_eq_false in E; naive_solver. }
      destruct (pc_queued_prompts context) as [n|]; [|naive_solver].
      destruct (Nat.leb_spec (rp_max_queued_prompts_per_pane config) n); split; try done.
      * intros [_ Hl]. specialize (Hl n eq_refl). lia.
      * intros _. split; [done|]. by intros ? [= <-].
  - destruct (Nat.ltb_spec (rp_max_broadcast_fanout config) (default (length panes) (pc_broadcast_fanout context))).
    + split; [done|]. intros [_ Hl]. lia.
    + split; [|done]. intros _. split; [naive_solver|lia].
Qed.

(** Past the tests for dead and blocked panes only direct prompts to busy panes
    are left to refuse. *)
Lemma pane_state_ok_iff kind state :
  bool_decide (state = Some RuntimePaneState.Dead) && command_requires_live_pane kind = false ->
  bool_decide (state = Some RuntimePaneState.Blocked) && command_requires_unblocked_pane kind = false ->
  (~ exists id text from, kind = RuntimeCommandKind.SendPrompt id text from PromptDeliveryMode.Direct
     /\ state = Some RuntimePaneState.Busy) <-> pane_state_ok kind state.
Proof.
  destruct state as [[]|], kind as [? ? ? []| | | | | | | | | |]; cbn; naive_solver.
Qed.

(** the basic gate allows a command exactly when no approval is required,
    the command was not issued before the end of a rate limit, the pane's state
    admits its kind, the recent failures are below the threshold and the limit
    on queued prompts or on the broadcast is kept. *)
Theorem gate_allows_exactly config command context :
  evaluate_sync config (mkRuntimePolicyRequest command context) = RuntimePolicyDecision.Allow
  <-> pc_approval_required context = false
      /\ (forall until_ms, pc_rate_limited_until_ms context = Some until_ms -> (until_ms <= cm_issued_at_ms command)%Z)
      /\ pane_state_ok (cm_kind command) (pc_pane_state context)
      /\ (forall n, pc_recent_failures context = Some n -> n < rp_max_recent_failures config)
      /\ within_limits config (cm_kind command) context.
Proof.
  pose proof (evaluate_kind_allows config command context) as Hkind.
  unfold evaluate_sync. cbn [pr_context pr_command].
  destruct (pc_approval_required context); [split; [done|naive_solver]|].
  destruct (pc_rate_limited_until_ms context) as [until_ms|] eqn:Hrate; cbn [mbind option_bind].
  1: destruct (Z.ltb_spec (cm_issued_at_ms command) until_ms).
  1: { split; [done|]. intros (_ & Hu & _). specialize (Hu _ eq_refl). lia. }
  all: match goal with |- _ <-> _ /\ ?P /\ _ => assert (Hcool : P) by naive_solver end.
  all: destruct (bool_decide (_ = Some RuntimePaneState.Dead) && _) eqn:Hdead.
  1,3: apply andb_true_iff in Hdead as [Hd%bool_decide_eq_true Hk]; split; [done|]; intros (_ & _ & Hst & _);
    rewrite Hd in Hst; by destruct (cm_kind command) as [? ? ? []| | | | | | | | | |].
  all: destruct (bool_decide (_ = Some RuntimePaneState.Blocked) && _) eqn:Hblocked.
  1,3: apply andb_true_iff in Hblocked as [Hd%bool_decide_eq_true Hk]; split; [done|]; intros (_ & _ & Hst & _);
    rewrite Hd in Hst; by destruct (cm_kind command) as [? ? ? []| | | | | | | | | |].
  all: assert (Hpane : (~ exists id text from,
         cm_kind command = RuntimeCommandKind.SendPrompt id text from PromptDeliveryMode.Direct
         /\ pc_pane_state context = Some RuntimePaneState.Busy)
       <-> pane_state_ok (cm_kind command) (pc_pane_state context)) by (by apply pane_state_ok_iff).
  all: destruct (pc_recent_failures context) as [n|]; [|rewrite Hkind; naive_solver].
  all: destruct (Nat.leb_spec (rp_max_recent_failures config) n); [split; [done|]|rewrite Hkind; naive_solver].
  all: intros (_ & _ & _ & Hf & _); specialize (Hf _ eq_refl); lia.
Qed.
