(* ===== verification/Terminal.v ===== *)
(** * Terminal text (normalize_terminal_text and split_normalized_lines of
    brehon-detect/src/lib.rs, and the text functions of the standard library
    they and the daemon use)

    Output of agents is text with terminal control sequences.  Proved here:
    normalisation yields text without control characters, leaves such text
    alone, and removes control sequences without touching the text around them. *)

From Stdlib Require Import Ascii.
From S2P Require Import Prelude StrLib Chars.

(** ** The standard library *)

Definition in_range (lo hi : N) (c : ascii) : bool := (lo <=? N_of_ascii c)%N && (N_of_ascii c <=? hi)%N.

(** U+FFFD *)
Definition REPLACEMENT : string := utf8 [239; 191; 189].

(** The range of the second byte of a character of three or four bytes. *)
Definition second_byte (lead : ascii) : ascii -> bool :=
  let n := N_of_ascii lead in
  if (n =? 224)%N then in_range 160 191 else if (n =? 237)%N then in_range 128 159
  else if (n =? 240)%N then in_range 144 191 else if (n =? 244)%N then in_range 128 143
  else in_range 128 191.

(** [String::from_utf8_lossy]: a maximal prefix of a character that is not
    completed is replaced by one replacement character. *)
Fixpoint utf8_lossy (s : string) : string :=
  match s with
  | EmptyString => ""
  | String a s1 =>
      if in_range 0 127 a then String a (utf8_lossy s1)
      else if in_range 194 223 a then
        match s1 with
        | String b s2 => if is_continuation b then String a (String b (utf8_lossy s2)) else REPLACEMENT +:+ utf8_lossy s1
        | EmptyString => REPLACEMENT
        end
      else if in_range 224 239 a then
        match s1 with
        | String b s2 =>
            if second_byte a b then
              match s2 with
              | String c s3 =>
                  if is_continuation c then String a (String b (String c (utf8_lossy s3)))
                  else REPLACEMENT +:+ utf8_lossy s2
              | EmptyString => REPLACEMENT
              end
            else REPLACEMENT +:+ utf8_lossy s1
        | EmptyString => REPLACEMENT
        end
      else if in_range 240 244 a then
        match s1 with
        | String b s2 =>
            if second_byte a b then
              match s2 with
              | String c s3 =>
                  if is_continuation c then
                    match s3 with
                    | String d s4 =>
                        if is_continuation d then String a (String b (String c (String d (utf8_lossy s4))))
                        else REPLACEMENT +:+ utf8_lossy s3
                    | EmptyString => REPLACEMENT
                    end
                  else REPLACEMENT +:+ utf8_lossy s2
              | EmptyString => REPLACEMENT
              end
            else REPLACEMENT +:+ utf8_lossy s1
        | EmptyString => REPLACEMENT
        end
      else REPLACEMENT +:+ utf8_lossy s1
  end.

(** [str::to_ascii_lowercase] *)
Fixpoint to_ascii_lowercase (s : string) : string :=
  match s with
  | EmptyString => ""
  | String c s => String (if in_range 65 90 c then ascii_of_N (N_of_ascii c + 32) else c) (to_ascii_lowercase s)
  end.

(** [line.strip_suffix('\r')], if there is one *)
Definition strip_cr (line : string) : string :=
  match reverse (String.list_ascii_of_string line) with
  | c :: rest => if (N_of_ascii c =? 13)%N then String.string_of_list_ascii (reverse rest) else line
  | [] => line
  end.

(** [str::lines]: a final line end does not start another line. *)
Definition str_lines (s : string) : list string :=
  let parts := split_on (ascii_of_nat 10) s in
  strip_cr <$> match last parts with Some EmptyString => removelast parts | _ => parts end.

(** ** Normalisation *)

Definition ESC : string := utf8 [27].
Definition BEL : string := utf8 [7].
Definition CR : string := utf8 [13].
Definition TAB : string := utf8 [9].
Definition BACKSLASH : string := utf8 [92].

(** [char::is_control]: the Unicode category Cc *)
Definition is_control (ch : string) : bool :=
  match ch with
  | String a EmptyString => in_range 0 31 a || in_range 127 127 a
  | String a (String b EmptyString) => in_range 194 194 a && in_range 128 159 b
  | _ => false
  end.

(** [('@'..='~').contains(&c)] *)
Definition is_final_byte (ch : string) : bool :=
  match ch with String a EmptyString => in_range 64 126 a | _ => false end.

(** Where the loops of [normalize_terminal_text] stand: in the text, after an
    escape that was peeked behind, or in one of the two inner loops. *)
Inductive mode := InText | AfterEscape | InCsi | InOsc (prev_was_escape : bool).

Fixpoint normalize_chars (m : mode) (l : list string) : list string :=
  match l with
  | [] => []
  | ch :: l =>
      match m with
      | InText =>
          if String.eqb ch ESC then normalize_chars AfterEscape l
          else if String.eqb ch CR then NL :: normalize_chars InText l
          else if is_control ch && negb (String.eqb ch NL) && negb (String.eqb ch TAB) then normalize_chars InText l
          else ch :: normalize_chars InText l
      | AfterEscape =>
          if String.eqb ch "[" then normalize_chars InCsi l
          else if String.eqb ch "]" then normalize_chars (InOsc false) l
          else normalize_chars InText l
      | InCsi => if is_final_byte ch then normalize_chars InText l else normalize_chars InCsi l
      | InOsc prev_was_escape =>
          if String.eqb ch BEL || (prev_was_escape && String.eqb ch BACKSLASH) then normalize_chars InText l
          else normalize_chars (InOsc (String.eqb ch ESC)) l
      end
  end.

Definition normalize_terminal_text (input : string) : string :=
  of_chars (normalize_chars InText (chars input)).

Definition split_normalized_lines (input : string) : list string :=
  List.filter (fun line => negb (String.eqb line "")) (trim <$> str_lines input).

(** ** Characters *)

(** One byte and continuation bytes, as [chars] yields them; a character of
    valid UTF-8 does not start with a continuation byte. *)
Fixpoint all_continuation (s : string) : bool :=
  match s with EmptyString => true | String c s => is_continuation c && all_continuation s end.

Definition char_shaped (ch : string) : bool :=
  match ch with String _ rest => all_continuation rest | EmptyString => false end.

Definition char_ok (ch : string) : bool :=
  match ch with String c _ => negb (is_continuation c) && char_shaped ch | EmptyString => false end.

(** A list of characters that splits as it was joined. *)
Definition chars_shaped (l : list string) : Prop :=
  match l with [] => True | ch :: l => char_shaped ch = true /\ Forall (fun ch => char_ok ch = true) l end.

Lemma chars_shaped_chars s : chars_shaped (chars s).
Proof.
  induction s as [|c s IH]; [done|]. cbn [chars]. destruct (chars s) as [|[|d ch] rest]; cbn [cons_byte]; [done|by destruct IH|].
  destruct IH as [Hch Hrest]. destruct (is_continuation d) eqn:Hd; cbn.
  - rewrite Hd. cbn in Hch. by rewrite Hch.
  - split; [done|]. constructor; [|done]. cbn in Hch |- *. by rewrite Hd, Hch.
Qed.

(** Putting a character of well-formed text in front. *)
Lemma chars_app_ok ch s :
  char_shaped ch = true -> (match s with String c _ => is_continuation c = false | EmptyString => True end) ->
  chars (ch +:+ s) = ch :: chars s.
Proof.
  destruct ch as [|c rest]; [done|]. cbn [char_shaped]. revert c.
  induction rest as [|d rest IH]; intros c Hrest Hs; rewrite append_cons; cbn [chars].
  - rewrite append_nil_l. destruct s as [|e s]; [done|]. cbn [chars].
    pose proof (chars_shaped_chars s) as Hsh. destruct (chars s) as [|[|f ch] l]; cbn [cons_byte].
    + cbn. by rewrite Hs.
    + by destruct Hsh.
    + destruct (is_continuation f); cbn; by rewrite Hs.
  - cbn [all_continuation] in Hrest. apply andb_true_iff in Hrest as [Hd Hrest].
    rewrite IH by done. cbn [cons_byte]. by rewrite Hd.
Qed.

Lemma chars_of_chars l : chars_shaped l -> chars (of_chars l) = l.
Proof.
  induction l as [|ch l IH]; [done|]. intros [Hch Hl]. rewrite of_chars_cons, chars_app_ok; [|done|].
  - f_equal. apply IH. destruct l as [|ch' l]; [done|]. apply Forall_cons in Hl as [Hch' Hl]. split; [|done].
    destruct ch'; [done|]. unfold char_ok in Hch'. by apply andb_true_iff in Hch' as [_ ?].
  - destruct l as [|[|c ch'] l]; [done|by apply Forall_cons in Hl as [? _]|].
    apply Forall_cons in Hl as [Hc _]. cbn in Hc |- *. apply andb_true_iff in Hc as [Hc _].
    by apply negb_true_iff.
Qed.

(** ** Clean text *)

(** A character that normalisation keeps. *)
Definition is_clean (ch : string) : bool := negb (is_control ch) || String.eqb ch NL || String.eqb ch TAB.

Definition clean_text (s : string) : Prop := Forall (fun ch => is_clean ch = true) (chars s).

Lemma clean_not_escape ch : is_clean ch = true -> String.eqb ch ESC = false /\ String.eqb ch CR = false.
Proof.
  intros Hch. split; apply String.eqb_neq; intros ->; discriminate.
Qed.

Lemma normalize_clean_chars l :
  Forall (fun ch => is_clean ch = true) l -> normalize_chars InText l = l.
Proof.
  induction 1 as [|ch l Hch _ IH]; [done|]. cbn [normalize_chars].
  destruct (clean_not_escape ch Hch) as [-> ->]. unfold is_clean in Hch.
  destruct (is_control ch), (String.eqb ch NL), (String.eqb ch TAB); cbn in *; congruence.
Qed.

Lemma normalize_chars_clean m l : Forall (fun ch => is_clean ch = true) (normalize_chars m l).
Proof.
  revert m. induction l as [|ch l IH]; intros m; [constructor|]. cbn [normalize_chars].
  destruct m; repeat case_match; try apply IH; constructor; try apply IH; [done|].
  unfold is_clean. destruct (is_control ch), (String.eqb ch NL), (String.eqb ch TAB); done.
Qed.

Lemma normalize_chars_ok m l :
  Forall (fun ch => char_ok ch = true) l -> Forall (fun ch => char_ok ch = true) (normalize_chars m l).
Proof.
  intros Hl. revert m. induction Hl as [|ch l Hch _ IH]; intros m; [constructor|]. cbn [normalize_chars].
  destruct m; repeat case_match; try apply IH; constructor; try apply IH; done.
Qed.

Lemma normalize_chars_shaped l : chars_shaped l -> chars_shaped (normalize_chars InText l).
Proof.
  destruct l as [|ch l]; [done|]. intros [Hch Hl]. cbn [normalize_chars].
  assert (Hok : forall m, chars_shaped (normalize_chars m l)).
  { intros m. apply (normalize_chars_ok m) in Hl. destruct (normalize_chars m l) as [|ch' l']; [done|].
    apply Forall_cons in Hl as [Hch' Hl']. split; [|done]. destruct ch'; [done|].
    unfold char_ok in Hch'. by apply andb_true_iff in Hch' as [_ ?]. }
  repeat case_match; try apply Hok; split; try done; by apply normalize_chars_ok.
Qed.

(** Normalisation is the projection of terminal output onto clean text, of
    characters that are no control characters except line ends and tabs: its
    result is clean and clean text is left as it is, so normalising twice is
    normalising once. *)
Theorem normalization_is_projection s :
  clean_text (normalize_terminal_text s)
  /\ (clean_text s -> normalize_terminal_text s = s)
  /\ normalize_terminal_text (normalize_terminal_text s) = normalize_terminal_text s.
Proof.
  assert (Hchars : chars (normalize_terminal_text s) = normalize_chars InText (chars s)).
  { apply chars_of_chars, normalize_chars_shaped, chars_shaped_chars. }
  assert (Hclean : clean_text (normalize_terminal_text s)).
  { unfold clean_text. rewrite Hchars. apply normalize_chars_clean. }
  assert (Hid : forall t, clean_text t -> normalize_terminal_text t = t).
  { intros t Ht. unfold normalize_terminal_text. by rewrite normalize_clean_chars, of_chars_chars. }
  split_and!; [done|apply Hid|by apply Hid].
Qed.

(** ** Control sequences vanish *)

Lemma normalize_chars_app l k :
  Forall (fun ch => is_clean ch = true) l -> normalize_chars InText (l ++ k) = l ++ normalize_chars InText k.
Proof.
  induction 1 as [|ch l Hch Hl IH]; [done|]. rewrite <-app_comm_cons. cbn [normalize_chars].
  destruct (clean_not_escape ch Hch) as [-> ->]. unfold is_clean in Hch.
  destruct (is_control ch), (String.eqb ch NL), (String.eqb ch TAB); cbn in *; congruence.
Qed.

Lemma normalize_csi params final k :
  Forall (fun ch => is_final_byte ch = false) params -> is_final_byte final = true ->
  normalize_chars InText (ESC :: "[" :: params ++ final :: k) = normalize_chars InText k.
Proof.
  intros Hp Hf. cbn [normalize_chars]. rewrite String.eqb_refl. cbn.
  induction Hp as [|ch params Hch _ IH]; cbn; [by rewrite Hf|by rewrite Hch].
Qed.
