(* ===== verification/ProofStore.v ===== *)
(** * Proof bundles and their store (brehon-types/src/proof.rs and
    brehon-store-fjall/src/proof_store.rs)

    The evidence for a task is a projection of the events about its bundle.  The
    manager keeps the bundles and two indexes, by task and by run, in one
    partition; it applies one event at a time or rebuilds everything from the
    log.  The engine and the codecs are parameters as in RunStore.v.  Proved
    here: the partition represents the abstract projection whatever storage
    errors occur, bundles hold exactly the evidence of their events, and a
    rebuild agrees with the application of events one by one. *)

From Stdlib Require Import Ascii.
From S2P Require Import Prelude StrLib Chars Terminal Types Events Keys Kv FeedbackLoop.

(** ** Bundles *)

Record ProofBundle := mkProofBundle {
  bd_proof_bundle_id : ProofBundleId;
  bd_task_id : TaskId;
  bd_run_ids : list RunId;
  bd_commands : list ProofCommand;
  bd_checks : list ProofCheck;
  bd_test_results : list ProofCheck;
  bd_commits : list string;
  bd_diff_summary : option string;
  bd_review_ids : list ReviewId;
  bd_review_scores : list ProofReview;
  bd_review_findings : list string;
  bd_followups : list string;
  bd_integration_result : option ProofIntegration;
  bd_conflicts : list string;
  bd_operator_decisions : list ProofDecision;
  bd_supervisor_decisions : list ProofDecision;
  bd_blockers : list ProofBlocker;
  bd_final_status : ProofBundleStatus;
  bd_created_at : DateTime;
  bd_updated_at : DateTime
}.

#[export] Instance eta_ProofBundle : Eta ProofBundle := fun b =>
  mkProofBundle (bd_proof_bundle_id b) (bd_task_id b) (bd_run_ids b) (bd_commands b) (bd_checks b)
    (bd_test_results b) (bd_commits b) (bd_diff_summary b) (bd_review_ids b) (bd_review_scores b)
    (bd_review_findings b) (bd_followups b) (bd_integration_result b) (bd_conflicts b)
    (bd_operator_decisions b) (bd_supervisor_decisions b) (bd_blockers b) (bd_final_status b)
    (bd_created_at b) (bd_updated_at b).

(** [ProofBundle::empty] *)
Definition empty_bundle (proof_bundle_id : ProofBundleId) (task_id : TaskId) (created_at : DateTime) : ProofBundle :=
  mkProofBundle proof_bundle_id task_id [] [] [] [] [] None [] [] [] [] None [] [] [] []
    ProofBundleStatus.Incomplete created_at created_at.

Definition status_is_incomplete (s : ProofBundleStatus) : bool :=
  match s with ProofBundleStatus.Incomplete => true | _ => false end.

Definition is_nil {A} (l : list A) : bool := match l with [] => true | _ => false end.
Definition is_none {A} (o : option A) : bool := match o with None => true | _ => false end.

Definition bundle_is_empty (self : ProofBundle) : bool :=
  is_nil (bd_run_ids self) && is_nil (bd_commands self) && is_nil (bd_checks self)
  && is_nil (bd_test_results self) && is_nil (bd_commits self) && is_none (bd_diff_summary self)
  && is_nil (bd_review_ids self) && is_nil (bd_review_scores self) && is_nil (bd_review_findings self)
  && is_nil (bd_followups self) && is_none (bd_integration_result self) && is_nil (bd_conflicts self)
  && is_nil (bd_operator_decisions self) && is_nil (bd_supervisor_decisions self) && is_nil (bd_blockers self).

Definition bundle_is_incomplete (self : ProofBundle) : bool :=
  status_is_incomplete (bd_final_status self) || bundle_is_empty self.

(** [FromStr for ProofBundleId] *)
Definition proof_bundle_id_from_str (value : string) : Result ProofBundleId string :=
  let trimmed := trim value in
  if String.eqb trimmed "" then Err "proof bundle id cannot be empty" else Ok trimmed.

(** ** Events applied to a bundle *)

Definition push_unique (items : list string) (item : string) : list string :=
  if decide (item ∈ items) then items else items ++ [item].

Definition merge_run_ids (bundle : ProofBundle) (run_ids : list RunId) : ProofBundle :=
  bundle <| bd_run_ids := foldl push_unique (bd_run_ids bundle) run_ids |>.

(** [strip_prefix(p).map(str::trim).filter(|value| !value.is_empty())] *)
Definition tagged (p item : string) : option string :=
  match strip_prefix p item with
  | Some rest => let value := trim rest in if String.eqb value "" then None else Some value
  | None => None
  end.

Definition record_evidence_item (bundle : ProofBundle) (item : string) : ProofBundle :=
  match tagged "commit:" item with
  | Some commit => bundle <| bd_commits := push_unique (bd_commits bundle) commit |>
  | None =>
      match tagged "diff_summary:" item with
      | Some summary => bundle <| bd_diff_summary := Some summary |>
      | None => bundle
      end
  end.

Definition record_command (bundle : ProofBundle) (command : ProofCommand) : ProofBundle :=
  let bundle := match pc_run_id command with
    | Some run_id => bundle <| bd_run_ids := push_unique (bd_run_ids bundle) run_id |>
    | None => bundle
    end in
  let bundle := match pc_evidence_ref command with
    | Some evidence_ref => foldl record_evidence_item bundle (trim <$> str_lines evidence_ref)
    | None => bundle
    end in
  bundle <| bd_commands := bd_commands bundle ++ [command] |>.

Definition record_check (bundle : ProofBundle) (check : ProofCheck) (is_test_result : bool) : ProofBundle :=
  if is_test_result then bundle <| bd_test_results := bd_test_results bundle ++ [check] |>
  else bundle <| bd_checks := bd_checks bundle ++ [check] |>.

Definition record_review (bundle : ProofBundle) (review : ProofReview) : ProofBundle :=
  bundle <| bd_review_ids := push_unique (bd_review_ids bundle) (pv_review_id review) |>
         <| bd_review_findings := bd_review_findings bundle ++ pv_findings review |>
         <| bd_followups := bd_followups bundle ++ pv_followups review |>
         <| bd_review_scores := bd_review_scores bundle ++ [review] |>.

Definition record_integration (bundle : ProofBundle) (integration : ProofIntegration) : ProofBundle :=
  bundle <| bd_conflicts := bd_conflicts bundle ++ pi_conflicts integration |>
         <| bd_integration_result := Some integration |>.

Definition record_decision (bundle : ProofBundle) (scope : ProofDecisionScope) (decision : ProofDecision)
    : ProofBundle :=
  match scope with
  | ProofDecisionScope.Operator => bundle <| bd_operator_decisions := bd_operator_decisions bundle ++ [decision] |>
  | ProofDecisionScope.Supervisor => bundle <| bd_supervisor_decisions := bd_supervisor_decisions bundle ++ [decision] |>
  end.

(** The first blocker with the id is replaced; without one it is added. *)
Fixpoint replace_blocker (blocker_id : string) (blocker : ProofBlocker) (blockers : list ProofBlocker)
    : option (list ProofBlocker) :=
  match blockers with
  | [] => None
  | candidate :: blockers =>
      if decide (pb_blocker_id candidate = Some blocker_id) then Some (blocker :: blockers)
      else cons candidate <$> replace_blocker blocker_id blocker blockers
  end.

Definition record_blocker (bundle : ProofBundle) (blocker : ProofBlocker) : ProofBundle :=
  let replaced := match pb_blocker_id blocker with
    | Some blocker_id => replace_blocker blocker_id blocker (bd_blockers bundle)
    | None => None
    end in
  bundle <| bd_blockers := default (bd_blockers bundle ++ [blocker]) replaced |>.

Definition base_bundle (proof_bundle_id : ProofBundleId) (task_id : TaskId) (event : Event) : ProofBundle :=
  empty_bundle proof_bundle_id task_id (ev_timestamp event).

Definition apply_to_bundle (existing : option ProofBundle) (event : Event) : option ProofBundle :=
  match ev_kind event with
  | EventKind.ProofBundleCreated proof_bundle_id task_id run_ids created_at =>
      let bundle := default (empty_bundle proof_bundle_id task_id created_at) existing in
      Some (merge_run_ids bundle run_ids <| bd_updated_at := created_at |>)
  | EventKind.ProofCommandRecorded proof_bundle_id task_id command recorded_at =>
      let bundle := default (base_bundle proof_bundle_id task_id event) existing in
      Some (record_command bundle command <| bd_updated_at := recorded_at |>)
  | EventKind.ProofCheckRecorded proof_bundle_id task_id check is_test_result recorded_at =>
      let bundle := default (base_bundle proof_bundle_id task_id event) existing in
      Some (record_check bundle check is_test_result <| bd_updated_at := recorded_at |>)
  | EventKind.ProofReviewLinked proof_bundle_id task_id review linked_at =>
      let bundle := default (base_bundle proof_bundle_id task_id event) existing in
      Some (record_review bundle review <| bd_updated_at := linked_at |>)
  | EventKind.ProofIntegrationRecorded proof_bundle_id task_id integration recorded_at =>
      let bundle := default (base_bundle proof_bundle_id task_id event) existing in
      Some (record_integration bundle integration <| bd_updated_at := recorded_at |>)
  | EventKind.ProofDecisionRecorded proof_bundle_id task_id scope decision recorded_at =>
      let bundle := default (base_bundle proof_bundle_id task_id event) existing in
      Some (record_decision bundle scope decision <| bd_updated_at := recorded_at |>)
  | EventKind.ProofBlockerRecorded proof_bundle_id task_id blocker recorded_at =>
      let bundle := default (base_bundle proof_bundle_id task_id event) existing in
      Some (record_blocker bundle blocker <| bd_updated_at := recorded_at |>)
  | EventKind.ProofBundleFinalized proof_bundle_id task_id final_status finalized_at =>
      let bundle := default (base_bundle proof_bundle_id task_id event) existing in
      Some (bundle <| bd_final_status := final_status |> <| bd_updated_at := finalized_at |>)
  | _ => None
  end.

Definition proof_bundle_id (event : Event) : option ProofBundleId :=
  match ev_kind event with
  | EventKind.ProofBundleCreated id _ _ _ | EventKind.ProofCommandRecorded id _ _ _
  | EventKind.ProofCheckRecorded id _ _ _ _ | EventKind.ProofReviewLinked id _ _ _
  | EventKind.ProofIntegrationRecorded id _ _ _ | EventKind.ProofDecisionRecorded id _ _ _ _
  | EventKind.ProofBlockerRecorded id _ _ _ | EventKind.ProofBundleFinalized id _ _ _ => Some id
  | _ => None
  end.

(** ** Summaries *)

Definition PROOF_SUMMARY_LIST_CAP : nat := 5.

Definition truncate_list (items : list string) : list string :=
  if (PROOF_SUMMARY_LIST_CAP <? length items)%nat then
    let extra := length items - PROOF_SUMMARY_LIST_CAP in
    take PROOF_SUMMARY_LIST_CAP items ++ ["+" +:+ pretty extra +:+ " more"]
  else items.

Definition status_str (status : ProofBundleStatus) : string :=
  match status with
  | ProofBundleStatus.Incomplete => "incomplete"
  | ProofBundleStatus.Complete => "complete"
  | ProofBundleStatus.Blocked => "blocked"
  | ProofBundleStatus.Failed => "failed"
  | ProofBundleStatus.Superseded => "superseded"
  end.

Definition verdict_str_lower (verdict : ReviewVerdict) : string :=
  match verdict with
  | ReviewVerdict.Approve => "approved"
  | ReviewVerdict.ChangesRequested => "changes_requested"
  | ReviewVerdict.Reject => "rejected"
  end.

(** [ProofSummary::absent] *)
Definition absent_summary : ProofSummary :=
  mkProofSummary None "absent" 0 0 0 0 [] None [] [] [] [] None None None None [] []
    ["No proof bundle has been recorded for this task."] true None.

Definition open_blockers (bundle : ProofBundle) : list string :=
  pb_summary <$> filter (fun blocker => pb_status blocker = ProofBlockerStatus.Open) (bd_blockers bundle).

Definition failed_tests (bundle : ProofBundle) : nat :=
  length (filter (fun check => pk_status check = ProofCheckStatus.Failed) (bd_test_results bundle)).

Definition missing_evidence (bundle : ProofBundle) : list string :=
  let blockers := truncate_list (open_blockers bundle) in
  (if is_nil (bd_commands bundle) then ["No commands recorded."] else [])
  ++ (if is_nil (bd_test_results bundle) then ["No test evidence recorded."] else [])
  ++ (if is_nil (bd_review_scores bundle) then ["No review evidence recorded."] else [])
  ++ (if is_none (bd_integration_result bundle) then ["No integration evidence recorded."] else [])
  ++ (if (0 <? failed_tests bundle)%nat then [pretty (failed_tests bundle) +:+ " test result(s) recorded as failed."] else [])
  ++ (if is_nil blockers then [] else [pretty (length blockers) +:+ " open blocker(s) recorded."]).

(** [ProofSummary::from_bundle], given the printing of times *)
Definition from_bundle (to_rfc3339 : DateTime -> string) (bundle : ProofBundle) : ProofSummary :=
  let integration := bd_integration_result bundle in
  mkProofSummary (Some (bd_proof_bundle_id bundle)) (status_str (bd_final_status bundle))
    (Z.of_nat (length (bd_commands bundle))) (Z.of_nat (length (bd_test_results bundle)))
    (Z.of_nat (failed_tests bundle)) (Z.of_nat (length (bd_checks bundle)))
    (truncate_list (bd_commits bundle)) (bd_diff_summary bundle) (truncate_list (bd_review_ids bundle))
    (truncate_list (omap (fun review => verdict_str_lower <$> pv_verdict review) (bd_review_scores bundle)))
    (truncate_list (bd_review_findings bundle)) (truncate_list (bd_followups bundle))
    (pi_status <$> integration) (integration ≫= pi_branch) (integration ≫= pi_base_branch) (integration ≫= pi_commit)
    match integration with Some integration => truncate_list (pi_conflicts integration) | None => [] end
    (truncate_list (open_blockers bundle)) (missing_evidence bundle) false
    (Some (to_rfc3339 (bd_updated_at bundle))).

Lemma truncate_list_length l : length (truncate_list l) = Nat.min (length l) 6.
Proof.
  unfold truncate_list, PROOF_SUMMARY_LIST_CAP. destruct (Nat.ltb_spec 5 (length l)); [|lia].
  rewrite length_app, length_take. cbn [length]. lia.
Qed.

(** More than six open blockers are reported as six: the shortened list, with the
    entry that says how many are left out, is what is counted. *)
Theorem open_blockers_miscounted to_rfc3339 bundle :
  6 < length (open_blockers bundle) ->
  "6 open blocker(s) recorded." ∈ ps_missing (from_bundle to_rfc3339 bundle) /\
  length (ps_open_blockers (from_bundle to_rfc3339 bundle)) = 6.
Proof.
  intros Hmany. unfold from_bundle. cbv zeta. cbn [ps_missing ps_open_blockers].
  pose proof (truncate_list_length (open_blockers bundle)) as Hlen. split; [|lia].
  unfold missing_evidence. rewrite !elem_of_app. do 5 right.
  assert (Hsix : length (truncate_list (open_blockers bundle)) = 6) by lia. rewrite Hsix.
  destruct (truncate_list (open_blockers bundle)); [done|]. left.
Qed.

(** ** The manager *)

Module ProofStoreError.
Inductive ProofStoreError := Storage (error : string) | Serialization (error : string).
End ProofStoreError.
Abbreviation ProofStoreError := ProofStoreError.ProofStoreError.
Abbreviation ProofStoreResult A := (Result A ProofStoreError).

Definition index_keys (bundle : ProofBundle) : list string :=
  proof_task_index_key (bd_task_id bundle) :: (proof_run_index_key <$> bd_run_ids bundle).

Definition remove_indexes (bundle : ProofBundle) : list BatchOp := BatchRemove <$> index_keys bundle.

Section manager.
Context `{KvLaws} `{JsonLaws ProofBundle} `{Json EventEnvelope} {ord : IterOrder string}.

Abbreviation Store A := (SM kv_state ProofStoreError A).

Definition serialize (bundle : ProofBundle) : ProofStoreResult string :=
  result_map_err ProofStoreError.Serialization (to_vec bundle).
Definition deserialize (bytes : string) : ProofStoreResult ProofBundle :=
  result_map_err ProofStoreError.Serialization (from_slice bytes).

Definition proofs_get (key : string) : Store (option string) := fun s =>
  (s, result_map_err ProofStoreError.Storage (kv_get s key)).
Definition batch_commit (ops : list BatchOp) : Store unit := sm_map_err ProofStoreError.Storage (kv_commit ops).

Definition get_bundle_locked (proof_bundle_id : ProofBundleId) : Store (option ProofBundle) :=
  let! value := proofs_get (proof_bundle_key proof_bundle_id) in
  match value with
  | Some bytes => sm_lift (let? bundle := deserialize bytes in Ok (Some bundle))
  | None => sm_ret None
  end.

Definition bundle_id_from_index (key : string) : Store (option ProofBundleId) :=
  let! value := proofs_get key in sm_ret (from_utf8_lossy <$> value).

Definition indexed_bundle (key : string) : Store (option ProofBundle) :=
  let! id := bundle_id_from_index key in
  match id with
  | None => sm_ret None
  | Some proof_bundle_id => get_bundle_locked proof_bundle_id
  end.

Definition insert_bundle (bundle : ProofBundle) : ProofStoreResult (list BatchOp) :=
  let id := bd_proof_bundle_id bundle in
  let? bytes := serialize bundle in
  Ok (BatchInsert (proof_bundle_key id) bytes :: BatchInsert (proof_task_index_key (bd_task_id bundle)) id
      :: ((fun run_id => BatchInsert (proof_run_index_key run_id) id) <$> bd_run_ids bundle)).

Definition commit_bundle (previous : option ProofBundle) (bundle : ProofBundle) : Store unit :=
  let! inserts := sm_lift (insert_bundle bundle) in
  batch_commit (match previous with Some previous => remove_indexes previous | None => [] end ++ inserts).

Definition apply_event (event : Event) (_event_id : EventId) : Store (option ProofBundle) :=
  match proof_bundle_id event with
  | None => sm_ret None
  | Some id =>
      let! previous := get_bundle_locked id in
      match apply_to_bundle previous event with
      | None => sm_ret None
      | Some bundle => let! _ := commit_bundle previous bundle in sm_ret (Some bundle)
      end
  end.

(** The loops of [clear_and_insert_bundles]. *)
Fixpoint collect_keys (items : list (Result (string * string) string)) : ProofStoreResult (list string) :=
  match items with
  | [] => Ok []
  | item :: items =>
      let? (key, _) := result_map_err ProofStoreError.Storage item in
      let? keys := collect_keys items in
      Ok (key :: keys)
  end.

Fixpoint insert_bundles (bundles : list ProofBundle) : ProofStoreResult (list BatchOp) :=
  match bundles with
  | [] => Ok []
  | bundle :: bundles =>
      let? inserts := insert_bundle bundle in
      let? rest := insert_bundles bundles in
      Ok (inserts ++ rest)
  end.

Definition clear_and_insert_bundles (bundles : list ProofBundle) : Store unit := fun s =>
  (let! keys := sm_lift (collect_keys (kv_prefix s "")) in
   let! inserts := sm_lift (insert_bundles bundles) in
   batch_commit ((BatchRemove <$> keys) ++ inserts)) s.

(** The loop of [rebuild_from_events] over [events.prefix(b"log:")]. *)
Fixpoint replay_log (bundles : gmap ProofBundleId ProofBundle) (applied : nat)
    (items : list (Result (string * string) string)) : ProofStoreResult (gmap ProofBundleId ProofBundle * nat) :=
  match items with
  | [] => Ok (bundles, applied)
  | item :: items =>
      let? (_, value) := result_map_err ProofStoreError.Storage item in
      let? envelope := result_map_err ProofStoreError.Serialization (from_slice value) in
      match proof_bundle_id (ee_event envelope) with
      | None => replay_log bundles applied items
      | Some id =>
          match apply_to_bundle (bundles !! id) (ee_event envelope) with
          | Some bundle => replay_log (<[id := bundle]> (delete id bundles)) (S applied) items
          | None => replay_log (delete id bundles) applied items
          end
      end
  end.

Definition rebuild_from_events (events : list (Result (string * string) string)) : Store nat :=
  let! (bundles, applied) := sm_lift (replay_log ∅ 0 events) in
  let! _ := clear_and_insert_bundles (iter_map bundles).*2 in
  sm_ret applied.

Definition get_bundle (proof_bundle_id : ProofBundleId) : Store (option ProofBundle) :=
  get_bundle_locked proof_bundle_id.
Definition get_bundle_for_task (task_id : TaskId) : Store (option ProofBundle) :=
  indexed_bundle (proof_task_index_key task_id).
Definition get_bundle_for_run (run_id : RunId) : Store (option ProofBundle) :=
  indexed_bundle (proof_run_index_key run_id).

(** [ProofStore for FjallEventStore]: the manager is there or the partition could
    not be opened. *)
Definition proof_projection_unavailable : ProofStoreError :=
  ProofStoreError.Storage "proof projection is unavailable; rebuild or archive the proofs partition".

Definition with_proof_store {A} (proof_store_available : bool) (op : Store A) : Store A :=
  if proof_store_available then op else sm_lift (Err proof_projection_unavailable).

Definition rebuild_proof_projection (available : bool) (events : list (Result (string * string) string)) : Store nat :=
  with_proof_store available (rebuild_from_events events).
Definition apply_proof_event (available : bool) (event : Event) (event_id : EventId) : Store (option ProofBundle) :=
  with_proof_store available (apply_event event event_id).
Definition proof_bundle (available : bool) (id : ProofBundleId) : Store (option ProofBundle) :=
  with_proof_store available (get_bundle id).
Definition proof_bundle_for_task (available : bool) (task_id : TaskId) : Store (option ProofBundle) :=
  with_proof_store available (get_bundle_for_task task_id).
Definition proof_bundle_for_run (available : bool) (run_id : RunId) : Store (option ProofBundle) :=
  with_proof_store available (get_bundle_for_run run_id).
End manager.

(** ** How events change a bundle *)

(** The id and the task of a bundle are fixed and its runs only grow. *)
Definition grows (b b' : ProofBundle) : Prop :=
  bd_proof_bundle_id b' = bd_proof_bundle_id b /\ bd_task_id b' = bd_task_id b /\ bd_run_ids b ⊆ bd_run_ids b'.

Lemma elem_of_push_unique l x y : y ∈ push_unique l x <-> y ∈ l \/ y = x.
Proof. unfold push_unique. case_decide; set_solver. Qed.

Lemma elem_of_push_all xs l y : y ∈ foldl push_unique l xs <-> y ∈ l \/ y ∈ xs.
Proof.
  revert l. induction xs as [|x xs IH]; intros l; cbn; [set_solver|].
  rewrite IH, elem_of_push_unique. set_solver.
Qed.

(** The items of a reference only touch commits and summary. *)
Lemma record_items items b : exists commits summary,
  foldl record_evidence_item b items = b <| bd_commits := commits |> <| bd_diff_summary := summary |>.
Proof.
  revert b. induction items as [|item items IH]; intros b; cbn.
  { exists (bd_commits b), (bd_diff_summary b). by destruct b. }
  destruct (IH (record_evidence_item b item)) as (c & d & ->). exists c, d.
  unfold record_evidence_item. by destruct (tagged "commit:" item), (tagged "diff_summary:" item).
Qed.

Lemma record_command_shape b command : exists runs commits summary,
  record_command b command =
    b <| bd_run_ids := runs |> <| bd_commits := commits |> <| bd_diff_summary := summary |>
      <| bd_commands := bd_commands b ++ [command] |>
  /\ forall r, r ∈ runs <-> r ∈ bd_run_ids b \/ pc_run_id command = Some r.
Proof.
  unfold record_command.
  set (b1 := match pc_run_id command with Some _ => _ | None => b end).
  assert (Hb1 : exists runs, b1 = b <| bd_run_ids := runs |>
                  /\ forall r, r ∈ runs <-> r ∈ bd_run_ids b \/ pc_run_id command = Some r).
  { subst b1. destruct (pc_run_id command) as [r0|].
    - eexists. split; [done|]. intros r. rewrite elem_of_push_unique. naive_solver.
    - exists (bd_run_ids b). split; [by destruct b|naive_solver]. }
  destruct Hb1 as (runs & -> & Hruns). exists runs.
  destruct (pc_evidence_ref command) as [evidence_ref|].
  - destruct (record_items (trim <$> str_lines evidence_ref) (b <| bd_run_ids := runs |>)) as (c & d & ->). by exists c, d.
  - by exists (bd_commits b), (bd_diff_summary b).
Qed.

(** The evidence an event carries, by kind. *)
Definition event_runs (event : Event) : list RunId :=
  match ev_kind event with
  | EventKind.ProofBundleCreated _ _ run_ids _ => run_ids
  | EventKind.ProofCommandRecorded _ _ command _ => option_list (pc_run_id command)
  | _ => []
  end.
Definition event_commands (event : Event) : list ProofCommand :=
  match ev_kind event with EventKind.ProofCommandRecorded _ _ command _ => [command] | _ => [] end.
Definition event_checks (test : bool) (event : Event) : list ProofCheck :=
  match ev_kind event with
  | EventKind.ProofCheckRecorded _ _ check is_test _ => if Bool.eqb is_test test then [check] else []
  | _ => []
  end.
Definition event_reviews (event : Event) : list ProofReview :=
  match ev_kind event with EventKind.ProofReviewLinked _ _ review _ => [review] | _ => [] end.
Definition event_integrations (event : Event) : list ProofIntegration :=
  match ev_kind event with EventKind.ProofIntegrationRecorded _ _ integration _ => [integration] | _ => [] end.
Definition event_decisions (scope : ProofDecisionScope) (event : Event) : list ProofDecision :=
  match ev_kind event with
  | EventKind.ProofDecisionRecorded _ _ scope' decision _ => if decide (scope' = scope) then [decision] else []
  | _ => []
  end.
Definition event_statuses (event : Event) : list ProofBundleStatus :=
  match ev_kind event with EventKind.ProofBundleFinalized _ _ status _ => [status] | _ => [] end.

(** A bundle [b] that holds the evidence of the events [es], in their order:
    nothing is dropped but repeated ids and replaced blockers, and the last
    integration and final status count. *)
Record holds_evidence (es : list Event) (b : ProofBundle) : Prop := mkHoldsEvidence {
  he_runs : forall r, r ∈ bd_run_ids b <-> r ∈ es ≫= event_runs;
  he_commands : bd_commands b = es ≫= event_commands;
  he_checks : bd_checks b = es ≫= event_checks false;
  he_tests : bd_test_results b = es ≫= event_checks true;
  he_reviews : bd_review_scores b = es ≫= event_reviews;
  he_review_ids : bd_review_ids b = foldl push_unique [] (pv_review_id <$> bd_review_scores b);
  he_findings : bd_review_findings b = bd_review_scores b ≫= pv_findings;
  he_followups : bd_followups b = bd_review_scores b ≫= pv_followups;
  he_integration : bd_integration_result b = last (es ≫= event_integrations);
  he_conflicts : bd_conflicts b = (es ≫= event_integrations) ≫= pi_conflicts;
  he_operator : bd_operator_decisions b = es ≫= event_decisions ProofDecisionScope.Operator;
  he_supervisor : bd_supervisor_decisions b = es ≫= event_decisions ProofDecisionScope.Supervisor;
  he_status : bd_final_status b = default ProofBundleStatus.Incomplete (last (es ≫= event_statuses))
}.

(** The bundle an event starts when there is none. *)
Definition start_bundle (event : Event) : ProofBundle :=
  empty_bundle (default "" (proof_bundle_id event)) (default "" (event_task_id (ev_kind event)))
    match ev_kind event with EventKind.ProofBundleCreated _ _ _ created_at => created_at | _ => ev_timestamp event end.

Lemma start_holds_nothing event : holds_evidence [] (start_bundle event).
Proof. by split. Qed.

Lemma bind_snoc {A B} (f : A -> list B) l x : (l ++ [x]) ≫= f = (l ≫= f) ++ f x.
Proof. rewrite bind_app. cbn. by rewrite app_nil_r. Qed.

(** One field of the evidence after an event that adds to a field. *)
Ltac evidence_field :=
  rewrite ?bind_snoc; cbn; rewrite ?app_nil_r, ?bind_snoc, ?fmap_app, ?foldl_app, ?last_snoc; cbn;
  repeat case_decide; rewrite ?app_nil_r; first [congruence|naive_solver].

Lemma apply_to_bundle_adds existing event id es :
  proof_bundle_id event = Some id -> holds_evidence es (default (start_bundle event) existing) ->
  exists b, apply_to_bundle existing event = Some b /\ grows (default (start_bundle event) existing) b
    /\ holds_evidence (es ++ [event]) b.
Proof.
  set (b0 := default (start_bundle event) existing). intros Hid Hb0.
  assert (Hdef : forall e, e = start_bundle event -> default e existing = b0) by (intros ? ->; done).
  clearbody b0. destruct event as [k t a].
  destruct k; cbn in Hid; try discriminate Hid; simplify_eq; unfold apply_to_bundle; cbn [ev_kind];
    rewrite Hdef by done; (eexists; split; [done|]); clear Hdef.
  - split; [split; [done|split; [done|intros r Hr; apply elem_of_push_all; by left]]|].
    destruct Hb0. split; [intros r; cbn; rewrite elem_of_push_all, bind_snoc, elem_of_app; cbn; naive_solver|evidence_field..].
  - destruct (record_command_shape b0 command) as (runs & c & d & -> & Hruns).
    split; [split; [done|split; [done|intros r Hr; apply Hruns; by left]]|].
    destruct Hb0. split; [intros r; cbn; rewrite Hruns, bind_snoc, elem_of_app; cbn; rewrite elem_of_option_list; naive_solver|evidence_field..].
  - destruct is_test_result; (split; [done|]); destruct Hb0; (split; [intros r|..]); evidence_field.
  - split; [done|]. destruct Hb0. split; [intros r|..]; evidence_field.
  - split; [done|]. destruct Hb0. split; [intros r|..]; evidence_field.
  - destruct scope; (split; [done|]); destruct Hb0; (split; [intros r|..]); evidence_field.
  - split; [done|]. destruct Hb0. split; [intros r|..]; evidence_field.
  - split; [done|]. destruct Hb0. split; [intros r|..]; evidence_field.
Qed.

(** ** The abstract projection *)

(** All bundles, and the bundle last touched for each task and for each run. *)
Record Projection := mkProjection {
  pj_bundles : gmap ProofBundleId ProofBundle;
  pj_tasks : gmap TaskId ProofBundleId;
  pj_runs : gmap RunId ProofBundleId
}.

Definition no_bundles : Projection := mkProjection ∅ ∅ ∅.

Definition place_bundle (p : Projection) (b : ProofBundle) : Projection :=
  let id := bd_proof_bundle_id b in
  mkProjection (<[id := b]> (pj_bundles p)) (<[bd_task_id b := id]> (pj_tasks p))
    (foldl (fun m run_id => <[run_id := id]> m) (pj_runs p) (bd_run_ids b)).

(** The bundle an event results in, and the projection with it. *)
Definition bundle_after (p : Projection) (event : Event) : option ProofBundle :=
  id ← proof_bundle_id event; apply_to_bundle (pj_bundles p !! id) event.

Definition project_event (p : Projection) (event : Event) : Projection :=
  match bundle_after p event with Some b => place_bundle p b | None => p end.

Definition project_log (events : list Event) : Projection := foldl project_event no_bundles events.

Lemma placed_run p b r :
  pj_runs (place_bundle p b) !! r =
  if decide (r ∈ bd_run_ids b) then Some (bd_proof_bundle_id b) else pj_runs p !! r.
Proof.
  cbn. rewrite (foldl_insert_lookup (fun _ => Some (bd_proof_bundle_id b))) by done. by case_decide.
Qed.

Lemma placed_task p b t :
  pj_tasks (place_bundle p b) !! t =
  if decide (t = bd_task_id b) then Some (bd_proof_bundle_id b) else pj_tasks p !! t.
Proof. cbn. case_decide as Ht; [subst; apply lookup_insert_eq|by apply lookup_insert_ne]. Qed.

(** Bundles are stored under their own ids; every task and run of a bundle is in
    its index; an index names a bundle with that task or run. *)
Record pj_wf (p : Projection) : Prop := {
  wf_id : forall id b, pj_bundles p !! id = Some b -> bd_proof_bundle_id b = id;
  wf_task : forall id b, pj_bundles p !! id = Some b -> is_Some (pj_tasks p !! bd_task_id b);
  wf_run : forall id b r, pj_bundles p !! id = Some b -> r ∈ bd_run_ids b -> is_Some (pj_runs p !! r);
  wf_task_inv : forall t id, pj_tasks p !! t = Some id ->
    exists b, pj_bundles p !! id = Some b /\ bd_task_id b = t;
  wf_run_inv : forall r id, pj_runs p !! r = Some id ->
    exists b, pj_bundles p !! id = Some b /\ r ∈ bd_run_ids b
}.

Lemma no_bundles_wf : pj_wf no_bundles.
Proof. by split. Qed.

(** A new bundle, or a grown one, keeps the indexes right. *)
Lemma place_wf p b :
  pj_wf p -> (forall b0, pj_bundles p !! bd_proof_bundle_id b = Some b0 -> grows b0 b) -> pj_wf (place_bundle p b).
Proof.
  intros [Hid Htask Hrun Htask' Hrun'] Hgrows. set (i := bd_proof_bundle_id b) in *.
  assert (Hkeep : forall id b0, pj_bundles p !! id = Some b0 ->
    exists b1, pj_bundles (place_bundle p b) !! id = Some b1 /\ grows b0 b1).
  { intros id b0 Hb0. cbn. fold i. destruct (decide (id = i)) as [->|Hne].
    - exists b. rewrite lookup_insert_eq. auto.
    - exists b0. rewrite lookup_insert_ne by done. done. }
  assert (Hown : pj_bundles (place_bundle p b) !! i = Some b) by apply lookup_insert_eq.
  split.
  - intros id b1. cbn. fold i. intros [[<- <-]|[_ Hb1]]%lookup_insert_Some; eauto.
  - intros id b1 Hb1. rewrite placed_task. case_decide; [done|].
    cbn in Hb1. apply lookup_insert_Some in Hb1 as [[<- <-]|[_ Hb1]]; eauto; done.
  - intros id b1 r Hb1 Hr. rewrite placed_run. case_decide; [done|].
    cbn in Hb1. apply lookup_insert_Some in Hb1 as [[<- <-]|[_ Hb1]]; eauto; done.
  - intros t id. rewrite placed_task. case_decide as Ht; [intros [= <-]; eauto|].
    intros (b0 & Hb0 & <-)%Htask'. destruct (Hkeep _ _ Hb0) as (b1 & ? & ? & ? & ?). eauto.
  - intros r id. rewrite placed_run. case_decide as Ht; [intros [= <-]; eauto|].
    intros (b0 & Hb0 & Hr)%Hrun'. destruct (Hkeep _ _ Hb0) as (b1 & ? & ? & ? & Hsub). eauto.
Qed.

(** What an event does, in a projection whose bundles hold the events [es]. *)
Definition of_bundle (id : ProofBundleId) (es : list Event) : list Event :=
  filter (fun e => proof_bundle_id e = Some id) es.

Record pj_inv (es : list Event) (p : Projection) : Prop := {
  pj_inv_wf : pj_wf p;
  pj_inv_none : forall id, pj_bundles p !! id = None <-> of_bundle id es = [];
  pj_inv_some : forall id b, pj_bundles p !! id = Some b -> holds_evidence (of_bundle id es) b
}.

Lemma no_bundles_inv : pj_inv [] no_bundles.
Proof. split; [apply no_bundles_wf|done|done]. Qed.

Lemma bundle_after_grows es p event id :
  pj_inv es p -> proof_bundle_id event = Some id ->
  exists b, bundle_after p event = Some b /\ bd_proof_bundle_id b = id
    /\ holds_evidence (of_bundle id es ++ [event]) b
    /\ forall b0, pj_bundles p !! id = Some b0 -> grows b0 b.
Proof.
  intros [Hwf Hnone Hsome] Hid. unfold bundle_after. rewrite Hid. cbn [mbind option_bind].
  assert (Hb0 : holds_evidence (of_bundle id es) (default (start_bundle event) (pj_bundles p !! id))).
  { destruct (pj_bundles p !! id) as [b0|] eqn:E; [by apply Hsome|].
    apply Hnone in E. rewrite E. apply start_holds_nothing. }
  destruct (apply_to_bundle_adds _ _ _ _ Hid Hb0) as (b & -> & Hg & Hb). exists b.
  split; [done|]. split; [|split; [done|by intros b0 E; rewrite E in Hg]].
  destruct Hg as [-> _]. destruct (pj_bundles p !! id) as [b0|] eqn:E; [by apply (wf_id _ Hwf)|].
  cbn. by rewrite Hid.
Qed.

Lemma project_event_inv es p event : pj_inv es p -> pj_inv (es ++ [event]) (project_event p event).
Proof.
  intros Hinv. pose proof Hinv as [Hwf Hnone Hsome]. unfold project_event.
  destruct (proof_bundle_id event) as [id|] eqn:Hid; cycle 1.
  { assert (Hof : forall id, of_bundle id (es ++ [event]) = of_bundle id es).
    { intros id. unfold of_bundle. rewrite filter_app, filter_cons_False, filter_nil, app_nil_r by congruence. done. }
    unfold bundle_after. rewrite Hid. cbn. split; [done|..]; intros id; rewrite Hof; auto. }
  destruct (bundle_after_grows _ _ _ _ Hinv Hid) as (b & -> & <- & Hb & Hg).
  split; [by apply place_wf|..]; intros id; unfold of_bundle; rewrite filter_app, filter_cons, filter_nil;
    fold (of_bundle id es); cbn; case_decide as E.
  - rewrite Hid in E. injection E as <-. rewrite lookup_insert_eq. split; [done|by destruct (of_bundle _ es)].
  - rewrite lookup_insert_ne, app_nil_r by congruence. auto.
  - rewrite Hid in E. injection E as <-. rewrite lookup_insert_eq. by intros ? [= <-].
  - rewrite lookup_insert_ne, app_nil_r by congruence. auto.
Qed.

Lemma project_inv es : pj_inv es (project_log es).
Proof.
  unfold project_log. induction es as [|e es IH] using rev_ind; [apply no_bundles_inv|].
  rewrite foldl_app. by apply project_event_inv.
Qed.

(** ** What the contents of the partition mean *)

Lemma task_key_inj t u : proof_task_index_key t = proof_task_index_key u -> t = u.
Proof. intros Heq. by injection (render_inj (ProofTaskIndexKey t) (ProofTaskIndexKey u) I I Heq). Qed.

Lemma run_key_inj t u : proof_run_index_key t = proof_run_index_key u -> t = u.
Proof. intros Heq. by injection (render_inj (ProofRunIndexKey t) (ProofRunIndexKey u) I I Heq). Qed.

Lemma bundle_key_inj t u : proof_bundle_key t = proof_bundle_key u -> t = u.
Proof. intros Heq. by injection (render_inj (ProofBundleKey t) (ProofBundleKey u) I I Heq). Qed.

Lemma task_key_indexed t b : proof_task_index_key t ∈ index_keys b <-> t = bd_task_id b.
Proof.
  unfold index_keys. rewrite elem_of_cons, list_elem_of_fmap. split.
  - intros [Heq|(r & Heq & _)]; [by apply task_key_inj|discriminate Heq].
  - intros ->. by left.
Qed.

Lemma run_key_indexed r b : proof_run_index_key r ∈ index_keys b <-> r ∈ bd_run_ids b.
Proof.
  unfold index_keys. rewrite elem_of_cons, list_elem_of_fmap. split.
  - intros [Heq|(r' & Heq & Hr)]; [discriminate Heq|]. by apply run_key_inj in Heq as ->.
  - intros Hr. right. eauto.
Qed.

Lemma bundle_key_not_indexed id b : proof_bundle_key id ∉ index_keys b.
Proof.
  unfold index_keys. rewrite elem_of_cons, list_elem_of_fmap.
  intros [Heq|(r & Heq & _)]; discriminate Heq.
Qed.

Lemma grown_index_keys b b' k : grows b b' -> k ∈ index_keys b -> k ∈ index_keys b'.
Proof.
  intros (_ & Ht & Hr). unfold index_keys. rewrite Ht, !elem_of_cons, !list_elem_of_fmap.
  intros [?|(r & ? & ?%Hr)]; eauto.
Qed.

Section representation.
Context `{JsonLaws ProofBundle}.

Record represents (c : gmap string string) (p : Projection) : Prop := {
  rp_bundle : forall id b, pj_bundles p !! id = Some b ->
    exists bytes, c !! proof_bundle_key id = Some bytes /\ from_slice bytes = Ok b;
  rp_no_bundle : forall id, pj_bundles p !! id = None -> c !! proof_bundle_key id = None;
  rp_task : forall t, c !! proof_task_index_key t = pj_tasks p !! t;
  rp_run : forall r, c !! proof_run_index_key r = pj_runs p !! r
}.

Lemma represents_no_bundles : represents ∅ no_bundles.
Proof. by split; intros; rewrite ?lookup_empty in *. Qed.

(** What the inserts of a bundle leave at a key. *)
Lemma inserted_lookup b ops c k :
  insert_bundle b = Ok ops -> exists bytes, to_vec b = Ok bytes /\
  apply_batch ops c !! k =
    if decide (k ∈ index_keys b) then Some (bd_proof_bundle_id b)
    else if decide (k = proof_bundle_key (bd_proof_bundle_id b)) then Some bytes else c !! k.
Proof.
  unfold insert_bundle, serialize. destruct (to_vec b) as [bytes|e]; cbn [result_map_err result_bind]; [|done].
  intros [= <-]. exists bytes. split; [done|].
  set (id := bd_proof_bundle_id b).
  change (BatchInsert (proof_bundle_key id) bytes :: BatchInsert (proof_task_index_key (bd_task_id b)) id
          :: ((fun run_id => BatchInsert (proof_run_index_key run_id) id) <$> bd_run_ids b))
    with ([BatchInsert (proof_bundle_key id) bytes] ++ (BatchInsert (proof_task_index_key (bd_task_id b)) id
          :: ((fun run_id => BatchInsert (proof_run_index_key run_id) id) <$> bd_run_ids b))).
  assert (Hix : BatchInsert (proof_task_index_key (bd_task_id b)) id
          :: ((fun run_id => BatchInsert (proof_run_index_key run_id) id) <$> bd_run_ids b)
          = (fun key => BatchInsert key id) <$> index_keys b).
  { unfold index_keys. cbn. f_equal. by rewrite <-list_fmap_compose. }
  rewrite Hix, apply_batch_app, (apply_inserts (fun _ => id)), apply_batch_one.
  destruct (decide (k ∈ index_keys b)); [done|].
  case_decide as Hk; [by subst; apply lookup_insert_eq|by apply lookup_insert_ne].
Qed.

(** The inserts of a bundle take the contents from one projection to the next;
    what becomes of the index keys of the bundle before does not matter. *)
Lemma inserted_represents b ops c c' p :
  represents c p -> insert_bundle b = Ok ops -> (forall k, k ∉ index_keys b -> c' !! k = c !! k) ->
  represents (apply_batch ops c') (place_bundle p b).
Proof.
  intros [Hb Hnb Ht Hr] Hops Hc'. split.
  - intros id b1. destruct (inserted_lookup b ops c' (proof_bundle_key id) Hops) as (bytes & Hbytes & ->).
    rewrite decide_False by apply bundle_key_not_indexed. rewrite Hc' by apply bundle_key_not_indexed. cbn.
    intros [[<- <-]|[Hne Hb1]]%lookup_insert_Some.
    + rewrite decide_True by done. eauto using json_roundtrip.
    + rewrite decide_False by (intros ?%bundle_key_inj; congruence). by apply Hb.
  - intros id. destruct (inserted_lookup b ops c' (proof_bundle_key id) Hops) as (bytes & Hbytes & ->).
    rewrite decide_False by apply bundle_key_not_indexed. rewrite Hc' by apply bundle_key_not_indexed. cbn.
    intros [Hn Hne]%lookup_insert_None. rewrite decide_False by (intros ?%bundle_key_inj; congruence). by apply Hnb.
  - intros t. destruct (inserted_lookup b ops c' (proof_task_index_key t) Hops) as (bytes & _ & ->).
    rewrite placed_task, (decide_ext _ _ _ _ (task_key_indexed t b)). case_decide as E; [done|].
    rewrite decide_False by done. rewrite Hc'; [apply Ht|]. by rewrite task_key_indexed.
  - intros r. destruct (inserted_lookup b ops c' (proof_run_index_key r) Hops) as (bytes & _ & ->).
    rewrite placed_run, (decide_ext _ _ _ _ (run_key_indexed r b)). case_decide as E; [done|].
    rewrite decide_False by done. rewrite Hc'; [apply Hr|]. by rewrite run_key_indexed.
Qed.

Lemma inserted_bundles_represents bundles : forall ops c p,
  represents c p -> insert_bundles bundles = Ok ops ->
  represents (apply_batch ops c) (foldl place_bundle p bundles).
Proof.
  induction bundles as [|b bundles IH]; intros ops c p Hr Hops; cbn in Hops |- *; [by simplify_eq|].
  apply result_bind_Ok in Hops as (ins & Hins & (rest & Hrest & [= <-])%result_bind_Ok).
  rewrite apply_batch_app. eapply IH; [|exact Hrest]. by eapply inserted_represents.
Qed.
End representation.

(** ** The operations implement the projection *)

Section refinement.
Context `{KvLaws} `{JsonLaws ProofBundle} `{Json EventEnvelope} {ord : IterOrder string}.

Definition proofs_repr (s : kv_state) (p : Projection) : Prop := represents (kv_contents s) p.

(** A read that returns [v], or fails; it changes nothing. *)
Definition finds {A} (op : SM kv_state ProofStoreError A) (s : kv_state) (v : A) : Prop :=
  sm_post op s (fun s' r => s' = s /\ match r with Ok a => a = v | Err _ => True end).

Lemma finds_bind {A B} (op : SM kv_state ProofStoreError A) (k : A -> SM kv_state ProofStoreError B) s v Q :
  finds op s v -> sm_post (k v) s Q -> (forall e, Q s (Err e)) -> sm_post (sm_bind op k) s Q.
Proof.
  intros Hop Hk Herr. apply sm_post_bind. unfold finds in Hop. eapply sm_post_mono; [apply Hop|]. cbn beta.
  intros s' [a|e] [-> Ha]; [by subst|done].
Qed.

Lemma proofs_get_finds s k : finds (proofs_get k) s (kv_contents s !! k).
Proof.
  unfold finds, sm_post, proofs_get. cbn. split; [done|]. destruct (kv_get s k) eqn:E; cbn; [|done]. by eapply kv_get_law.
Qed.

Lemma get_bundle_locked_finds s p id : proofs_repr s p -> finds (get_bundle_locked id) s (pj_bundles p !! id).
Proof.
  intros Hr. eapply finds_bind; [apply proofs_get_finds| |done]. unfold proofs_repr in Hr.
  destruct (pj_bundles p !! id) as [b|] eqn:E.
  - destruct (rp_bundle _ _ Hr _ _ E) as (bytes & -> & Hb). apply sm_post_lift. unfold deserialize. by rewrite Hb.
  - by rewrite (rp_no_bundle _ _ Hr _ E).
Qed.

(** The bundle an index leads to. *)
Definition task_bundle (p : Projection) (t : TaskId) : option ProofBundle :=
  id ← pj_tasks p !! t; pj_bundles p !! id.
Definition run_bundle (p : Projection) (r : RunId) : option ProofBundle :=
  id ← pj_runs p !! r; pj_bundles p !! id.

Lemma indexed_bundle_finds s p key o :
  proofs_repr s p -> kv_contents s !! key = o ->
  finds (indexed_bundle key) s (id ← o; pj_bundles p !! id).
Proof.
  intros Hr Ho. eapply (finds_bind _ _ _ o); [|destruct o; [by apply get_bundle_locked_finds|done]|done].
  eapply finds_bind; [apply proofs_get_finds| |done]. rewrite Ho. apply sm_post_ret. by destruct o.
Qed.

Lemma batch_commit_cases ops s :
  sm_post (batch_commit ops) s (fun s' r =>
    kv_contents s' = apply_batch ops (kv_contents s) \/ (is_ok r = false /\ kv_contents s' = kv_contents s)).
Proof.
  apply sm_post_map_err. unfold sm_post. destruct (kv_commit ops s) as [s' r] eqn:E. cbn.
  destruct (kv_commit_law _ _ _ _ E) as [?|[? ?]]; [by left|right; by destruct r].
Qed.

(** The outcome of an event: the bundle it results in and the projection with
    it; on an error the projection is the old or the new one. *)
Lemma apply_event_projects s p es event n :
  proofs_repr s p -> pj_inv es p ->
  sm_post (apply_event event n) s (fun s' r =>
    match r with
    | Ok o => o = bundle_after p event /\ proofs_repr s' (project_event p event)
    | Err _ => proofs_repr s' p \/ proofs_repr s' (project_event p event)
    end).
Proof.
  intros Hr Hinv. unfold apply_event, project_event.
  destruct (proof_bundle_id event) as [id|] eqn:Hid; cycle 1.
  { unfold bundle_after. rewrite Hid. by apply sm_post_ret. }
  destruct (bundle_after_grows _ _ _ _ Hinv Hid) as (b & Hafter & Hown & _ & Hg). rewrite Hafter.
  eapply finds_bind; [by apply get_bundle_locked_finds| |by left].
  unfold bundle_after in Hafter. rewrite Hid in Hafter. cbn in Hafter. rewrite Hafter.
  apply sm_post_bind. unfold commit_bundle. apply sm_post_bind, sm_post_lift.
  destruct (insert_bundle b) as [ops|e] eqn:Hops; [|by left].
  set (removes := match pj_bundles p !! id with Some previous => remove_indexes previous | None => [] end).
  eapply sm_post_mono; [apply batch_commit_cases|]. cbn beta.
  assert (Hnew : represents (apply_batch (removes ++ ops) (kv_contents s)) (place_bundle p b)).
  { rewrite apply_batch_app. apply (inserted_represents b ops (kv_contents s)); [done|done|]. intros k Hk.
    subst removes. destruct (pj_bundles p !! id) as [b0|] eqn:E; [|done].
    unfold remove_indexes. rewrite apply_removes, decide_False; [done|]. intros Hb0. eauto using grown_index_keys. }
  unfold proofs_repr in *. intros s' [[]|e]; intros [Hc|[Hf Hc]]; try discriminate Hf; cbn; rewrite Hc; auto.
Qed.

(** Any sequence of events, with what the calls returned. *)
Fixpoint apply_events (events : list (Event * EventId)) (s : kv_state)
    : kv_state * list (ProofStoreResult (option ProofBundle)) :=
  match events with
  | [] => (s, [])
  | (event, n) :: events =>
      let '(s, r) := apply_event event n s in
      let '(s, rs) := apply_events events s in (s, r :: rs)
  end.

(** [outcomes p es outs done]: the calls for [es] returned [outs] from [p], and
    the events [done] took effect: those that succeeded and some that failed. *)
Inductive outcomes : Projection -> list Event -> list (ProofStoreResult (option ProofBundle)) -> list Event -> Prop :=
| outcomes_nil p : outcomes p [] [] []
| outcomes_ok p e es outs took :
    outcomes (project_event p e) es outs took -> outcomes p (e :: es) (Ok (bundle_after p e) :: outs) (e :: took)
| outcomes_applied p e es err outs took :
    outcomes (project_event p e) es outs took -> outcomes p (e :: es) (Err err :: outs) (e :: took)
| outcomes_lost p e es err outs took :
    outcomes p es outs took -> outcomes p (e :: es) (Err err :: outs) took.

Lemma apply_events_outcomes events : forall s p es,
  proofs_repr s p -> pj_inv es p ->
  exists took, outcomes p events.*1 (apply_events events s).2 took
    /\ proofs_repr (apply_events events s).1 (foldl project_event p took).
Proof.
  induction events as [|[e n] events IH]; intros s p es Hr Hinv; cbn.
  { exists []. split; [constructor|done]. }
  pose proof (apply_event_projects s p es e n Hr Hinv) as He. unfold sm_post in He.
  destruct (apply_event e n s) as [s1 r]. cbn in He.
  assert (Hnext : forall q fs, proofs_repr s1 q -> pj_inv fs q -> exists took,
    outcomes q events.*1 (apply_events events s1).2 took /\ proofs_repr (apply_events events s1).1 (foldl project_event q took))
    by (intros; by eapply IH).
  destruct (apply_events events s1) as [s2 rs]. cbn in *.
  pose proof (project_event_inv _ _ e Hinv) as Hinv'.
  destruct r as [o|err]; [destruct He as [-> He]|destruct He as [He|He]].
  - destruct (Hnext _ _ He Hinv') as (took & Ho & Hs). exists (e :: took). by split; [constructor|].
  - destruct (Hnext _ _ He Hinv) as (took & Ho & Hs). exists took. by split; [constructor|].
  - destruct (Hnext _ _ He Hinv') as (took & Ho & Hs). exists (e :: took). by split; [constructor|].
Qed.

(** ** Rebuilding *)

(** The scan of the log yields the events [es], all of which can be read. *)
Definition log_yields (items : list (Result (string * string) string)) (es : list Event) : Prop :=
  Forall2 (fun item e => exists k v envelope, item = Ok (k, v) /\ from_slice v = Ok envelope /\ ee_event envelope = e)
    items es.

Definition proof_events (es : list Event) : list Event := filter (fun e => is_Some (proof_bundle_id e)) es.

Lemma replay_projects items es : log_yields items es -> forall fs p n, pj_inv fs p ->
  replay_log (pj_bundles p) n items = Ok (pj_bundles (foldl project_event p es), n + length (proof_events es)).
Proof.
  induction 1 as [|item e items es (k & v & env & -> & Hv & <-) _ IH]; intros fs p n Hinv; cbn [replay_log foldl].
  { cbn. by rewrite Nat.add_0_r. }
  cbn [result_map_err result_bind]. rewrite Hv. cbn [result_map_err result_bind].
  unfold proof_events. rewrite filter_cons. fold (proof_events es).
  pose proof (project_event_inv _ _ (ee_event env) Hinv) as Hinv'.
  destruct (proof_bundle_id (ee_event env)) as [id|] eqn:Hid; cycle 1.
  { rewrite decide_False by (by intros []). rewrite <-(IH _ _ _ Hinv'). unfold project_event, bundle_after. by rewrite Hid. }
  rewrite decide_True by done. cbn [length]. rewrite Nat.add_succ_r, <-Nat.add_succ_l, <-(IH _ _ _ Hinv').
  destruct (bundle_after_grows _ _ _ _ Hinv Hid) as (b & Hafter & Hown & _). unfold project_event. rewrite Hafter.
  unfold bundle_after in Hafter. rewrite Hid in Hafter. cbn in Hafter. rewrite Hafter, insert_delete_eq. cbn.
  by rewrite Hown.
Qed.

(** No two bundles share a task or a run. *)
Definition unshared (p : Projection) : Prop := forall id b id' b',
  pj_bundles p !! id = Some b -> pj_bundles p !! id' = Some b' ->
  (bd_task_id b = bd_task_id b' \/ exists r, r ∈ bd_run_ids b /\ r ∈ bd_run_ids b') -> id = id'.

(** Then the bundles determine the indexes. *)
Lemma unshared_determined p q :
  pj_wf p -> pj_wf q -> pj_bundles p = pj_bundles q -> unshared q -> p = q.
Proof.
  intros Hp Hq Hb Hun. destruct p as [bs ts rs], q as [bs' ts' rs']. cbn in Hb. subst bs'. f_equal.
  - apply map_eq. intros t. destruct (ts !! t) as [id|] eqn:E.
    + destruct (wf_task_inv _ Hp t id E) as (b & Hid & <-). destruct (wf_task _ Hq _ _ Hid) as [id' E']. cbn in *.
      destruct (wf_task_inv _ Hq _ _ E') as (b' & Hid' & Heq). rewrite E'. f_equal. eapply Hun; [exact Hid|exact Hid'|by left].
    + destruct (ts' !! t) as [id'|] eqn:E'; [|done]. destruct (wf_task_inv _ Hq _ _ E') as (b' & Hid' & <-).
      destruct (wf_task _ Hp _ _ Hid') as [? E'']. cbn in E''. congruence.
  - apply map_eq. intros r. destruct (rs !! r) as [id|] eqn:E.
    + destruct (wf_run_inv _ Hp r id E) as (b & Hid & Hr). destruct (wf_run _ Hq _ _ _ Hid Hr) as [id' E']. cbn in *.
      destruct (wf_run_inv _ Hq _ _ E') as (b' & Hid' & Hr'). rewrite E'. f_equal. eapply Hun; [exact Hid|exact Hid'|eauto].
    + destruct (rs' !! r) as [id'|] eqn:E'; [|done]. destruct (wf_run_inv _ Hq _ _ E') as (b' & Hid' & Hr').
      destruct (wf_run _ Hp _ _ _ Hid' Hr') as [? E'']. cbn in E''. congruence.
Qed.

Lemma placed_bundles bundles : forall p,
  pj_wf p -> NoDup (bd_proof_bundle_id <$> bundles) ->
  (forall b, b ∈ bundles -> pj_bundles p !! bd_proof_bundle_id b = None) ->
  pj_wf (foldl place_bundle p bundles) /\
  forall id b, pj_bundles (foldl place_bundle p bundles) !! id = Some b <->
    pj_bundles p !! id = Some b \/ (b ∈ bundles /\ bd_proof_bundle_id b = id).
Proof.
  induction bundles as [|b0 bundles IH]; intros p Hwf Hnd Hfresh; cbn [foldl].
  { split; [done|]. intros id b. rewrite elem_of_nil. naive_solver. }
  cbn in Hnd. apply NoDup_cons in Hnd as [Hnew Hnd].
  assert (Hb0 : pj_bundles p !! bd_proof_bundle_id b0 = None) by (apply Hfresh; by left).
  destruct (IH (place_bundle p b0)) as [Hwf' Hlook]; [|done|..].
  - apply place_wf; [done|]. intros b1. by rewrite Hb0.
  - intros b Hb. cbn. rewrite lookup_insert_ne; [apply Hfresh; by right|].
    intros Heq. apply Hnew. rewrite Heq. by apply list_elem_of_fmap_2.
  - split; [done|]. intros id b. rewrite Hlook. cbn. rewrite lookup_insert_Some, elem_of_cons. split.
    + intros [[[<- <-]|[Hne Hb]]|[Hb <-]]; eauto.
    + intros [Hb|[[->|Hb] <-]]; [|by auto..]. left. right. split; [|done]. intros <-. congruence.
Qed.

(** The bundles in any order, placed one after the other. *)
Lemma placed_map p : pj_wf p ->
  pj_wf (foldl place_bundle no_bundles (iter_map (pj_bundles p)).*2) /\
  pj_bundles (foldl place_bundle no_bundles (iter_map (pj_bundles p)).*2) = pj_bundles p.
Proof.
  intros Hwf.
  assert (Hids : bd_proof_bundle_id <$> (iter_map (pj_bundles p)).*2 = (iter_map (pj_bundles p)).*1).
  { rewrite <-list_fmap_compose. apply list_fmap_ext. intros i [id b] Hin. cbn.
    apply list_elem_of_lookup_2, elem_of_iter_map in Hin. by apply (wf_id _ Hwf). }
  destruct (placed_bundles (iter_map (pj_bundles p)).*2 no_bundles) as [Hwf' Hlook].
  - apply no_bundles_wf.
  - rewrite Hids, iter_map_perm. apply NoDup_fst_map_to_list.
  - intros. apply lookup_empty.
  - split; [done|]. apply map_eq. intros id. apply option_eq. intros b. rewrite Hlook. cbn. rewrite lookup_empty.
    rewrite elem_of_iter_map_snd. split.
    + intros [?|[(id' & Hb) <-]]; [done|]. by rewrite (wf_id _ Hwf _ _ Hb).
    + intros Hb. right. split; [by eauto|by apply (wf_id _ Hwf)].
Qed.

Lemma collect_keys_Ok items keys : collect_keys items = Ok keys ->
  exists entries, items = Ok <$> entries /\ keys = entries.*1.
Proof.
  revert keys. induction items as [|[[k v]|e] items IH]; intros keys; cbn; [intros [= <-]; by exists []| |done].
  intros (ks & Hks & [= <-])%result_bind_Ok. destruct (IH _ Hks) as (entries & -> & ->). by exists ((k, v) :: entries).
Qed.

(** Removing every key that a full scan found leaves nothing. *)
Lemma cleared s keys : collect_keys (kv_prefix s "") = Ok keys ->
  apply_batch (BatchRemove <$> keys) (kv_contents s) = ∅.
Proof.
  intros (entries & Hitems & ->)%collect_keys_Ok. apply kv_prefix_law in Hitems.
  apply map_eq. intros k. rewrite apply_removes, lookup_empty. case_decide as Hk; [done|].
  destruct (kv_contents s !! k) as [v|] eqn:E; [|done]. exfalso. apply Hk. apply list_elem_of_fmap. exists (k, v).
  split; [done|]. rewrite Hitems. apply list_elem_of_filter. split; [done|]. by apply elem_of_map_to_list.
Qed.

(** What a rebuild leaves: the bundles of the log's events, with indexes that are
    right, and the same as if the events had been applied one by one when no two
    bundles share a task or a run. *)
Definition rebuilt (es : list Event) (s : kv_state) : Prop :=
  exists p, proofs_repr s p /\ pj_bundles p = pj_bundles (project_log es) /\ pj_wf p /\ (unshared (project_log es) -> p = project_log es).

(** The scan of the partition, the encoding of a bundle or the commit fails. *)
Definition rebuild_fault (es : list Event) (s : kv_state) : Prop :=
  (exists e, Err e ∈ kv_prefix s "")
  \/ (exists id b e, pj_bundles (project_log es) !! id = Some b /\ to_vec b = Err e)
  \/ exists ops, is_ok (kv_commit ops s).2 = false.

Lemma collect_keys_Err items e : collect_keys items = Err e -> exists e', Err e' ∈ items.
Proof.
  induction items as [|[[k v]|e'] items IH]; cbn; [done|..].
  - destruct (collect_keys items); [done|]. intros [= ->]. destruct (IH eq_refl) as [e' He]. exists e'. by right.
  - intros _. exists e'. by left.
Qed.

Lemma insert_bundles_Err bundles e : insert_bundles bundles = Err e -> exists b e', b ∈ bundles /\ to_vec b = Err e'.
Proof.
  induction bundles as [|b bundles IH]; cbn; [done|]. unfold insert_bundle, serialize.
  destruct (to_vec b) as [bytes|e'] eqn:E; cbn; [|intros _; exists b, e'; split; [by left|done]].
  destruct (insert_bundles bundles); cbn; [done|]. intros [= ->]. destruct (IH eq_refl) as (b' & e' & Hb & He).
  exists b', e'. split; [by right|done].
Qed.

Lemma clear_and_insert_cases s es :
  sm_post (clear_and_insert_bundles (iter_map (pj_bundles (project_log es))).*2) s (fun s' r =>
    match r with
    | Ok _ => rebuilt es s'
    | Err _ => rebuild_fault es s /\ (kv_contents s' = kv_contents s \/ rebuilt es s')
    end).
Proof.
  set (p := project_log es). assert (Hwf : pj_wf p) by apply (pj_inv_wf _ _ (project_inv es)).
  unfold sm_post, clear_and_insert_bundles. fold p. cbv beta.
  match goal with |- context [sm_bind ?a ?k s] => change (sm_post (sm_bind a k) s (fun s' r =>
    match r with Ok _ => rebuilt es s' | Err _ => rebuild_fault es s /\ (kv_contents s' = kv_contents s \/ rebuilt es s') end)) end.
  apply sm_post_bind, sm_post_lift. destruct (collect_keys (kv_prefix s "")) as [keys|e] eqn:Hkeys.
  2: { split; [left; by eapply collect_keys_Err|by left]. }
  apply sm_post_bind, sm_post_lift. destruct (insert_bundles (iter_map (pj_bundles p)).*2) as [ops|e] eqn:Hops.
  2: { split; [right; left|by left]. apply insert_bundles_Err in Hops as (b & e' & [id Hb]%elem_of_iter_map_snd & He). by exists id, b, e'. }
  assert (Hnew : represents (apply_batch ((BatchRemove <$> keys) ++ ops) (kv_contents s))
                   (foldl place_bundle no_bundles (iter_map (pj_bundles p)).*2)).
  { rewrite apply_batch_app, (cleared _ _ Hkeys). by apply inserted_bundles_represents; [apply represents_no_bundles|]. }
  destruct (placed_map p Hwf) as [Hwf' Hsame].
  assert (Hdone : forall s', kv_contents s' = apply_batch ((BatchRemove <$> keys) ++ ops) (kv_contents s) -> rebuilt es s').
  { intros s' Hs'. eexists. split; [unfold proofs_repr; rewrite Hs'; exact Hnew|]. split; [done|]. split; [done|].
    intros Hun. by apply unshared_determined. }
  pose proof (batch_commit_cases ((BatchRemove <$> keys) ++ ops) s) as Hc. unfold sm_post, batch_commit, sm_map_err in *.
  destruct (kv_commit _ s) as [s' [[]|e]] eqn:Hcommit; cbn in Hc |- *.
  - destruct Hc as [Hc|[? _]]; [by apply Hdone|done].
  - split; [right; right; eexists; by rewrite Hcommit|]. destruct Hc as [Hc|[_ Hc]]; auto.
Qed.


(** a rebuild agrees with the events applied one by one.  Whatever the
    partition held, when the log can be read the rebuild counts its proof events
    and leaves their bundles, with an index for every task and run and none that
    is wrong; when no two bundles share a task or a run nothing differs from the
    projection.  It fails only when the storage or the codec does, and then the
    partition is as before or rebuilt. *)
Theorem rebuild_agrees s items es :
  log_yields items es ->
  sm_post (rebuild_from_events items) s (fun s' r =>
    match r with
    | Ok n => n = length (proof_events es) /\ rebuilt es s'
    | Err _ => rebuild_fault es s /\ (kv_contents s' = kv_contents s \/ rebuilt es s')
    end).
Proof.
  intros Hlog. unfold rebuild_from_events. apply sm_post_bind, sm_post_lift.
  change (∅ : gmap ProofBundleId ProofBundle) with (pj_bundles no_bundles).
  rewrite (replay_projects _ _ Hlog [] no_bundles 0 no_bundles_inv). cbn [Nat.add]. fold (project_log es).
  apply sm_post_bind. eapply sm_post_mono; [apply clear_and_insert_cases|]. by intros s' [[]|e].
Qed.
End refinement.

(** ** A store in memory *)

Module ProofSample.
Import MemKv.

(** Bundles without evidence but their runs, and the events that create them,
    can be encoded. *)
Definition bundle_fields (b : ProofBundle) : option (list positive) :=
  if bundle_is_empty (b <| bd_run_ids := [] |>) && status_is_incomplete (bd_final_status b) then
    Some [encode (bd_proof_bundle_id b); encode (bd_task_id b); encode (bd_run_ids b); encode (bd_created_at b);
          encode (bd_updated_at b)]
  else None.

Definition bundle_of_fields (l : list positive) : option ProofBundle :=
  match l with
  | [a1; a2; a3; a4; a5] =>
      x1 ← decode a1; x2 ← decode a2; x3 ← decode a3; x4 ← decode a4; x5 ← decode a5;
      Some (empty_bundle x1 x2 x4 <| bd_run_ids := x3 |> <| bd_updated_at := x5 |>)
  | _ => None
  end.

#[local] Instance bundle_json : Json ProofBundle := partial_numeral_json bundle_fields bundle_of_fields.

Lemma is_nil_true {A} (l : list A) : is_nil l = true -> l = [].
Proof. by destruct l. Qed.
Lemma is_none_true {A} (o : option A) : is_none o = true -> o = None.
Proof. by destruct o. Qed.

#[local] Instance bundle_json_laws : JsonLaws ProofBundle.
Proof.
  apply partial_numeral_json_laws. intros b l. unfold bundle_fields.
  destruct (bundle_is_empty _ && _) eqn:E; [|done]. intros [= <-]. unfold bundle_of_fields. rewrite !decode_encode.
  cbn [mbind option_bind]. f_equal. destruct b. cbn in *. unfold bundle_is_empty in E. cbn in E.
  repeat match goal with
  | H : _ && _ = true |- _ => apply andb_prop in H as [H ?]
  | H : is_nil _ = true |- _ => apply is_nil_true in H
  | H : is_none _ = true |- _ => apply is_none_true in H
  end. destruct bd_final_status0; try done. subst. done.
Defined.

Definition created_fields (e : EventEnvelope) : option (list positive) :=
  match ev_kind (ee_event e) with
  | EventKind.ProofBundleCreated id t rs at_ => Some [encode id; encode t; encode rs; encode at_]
  | _ => None
  end.

#[local] Instance created_json : Json EventEnvelope := partial_numeral_json created_fields (fun l =>
  match l with
  | [a1; a2; a3; a4] =>
      x1 ← decode a1; x2 ← decode a2; x3 ← decode a3; x4 ← decode a4;
      Some (mkEventEnvelope (mkEvent (EventKind.ProofBundleCreated x1 x2 x3 x4) x4 "") 1 None None None)
  | _ => None
  end).

#[local] Instance order : IterOrder string := canonical_order string.

Definition created (id t : string) (runs : list RunId) (at_ : DateTime) : Event :=
  mkEvent (EventKind.ProofBundleCreated id t runs at_) at_ "".
Definition log_item (e : Event) : Result (string * string) string :=
  let? bytes := to_vec (mkEventEnvelope e 1 None None None) in Ok ("log:1", bytes).

(** Two bundles of one task; the first is touched last. *)
Definition shared : list Event := [created "b1" "T-1" ["r1"] 1; created "b2" "T-1" ["r2"] 2; created "b1" "T-1" ["r3"] 3].
(** Two bundles of two tasks. *)
Definition apart : list Event := [created "b1" "T-1" ["r1"] 1; created "b2" "T-2" ["r2"] 2; created "b1" "T-1" ["r3"] 3].

Definition calls (es : list Event) : list (Event * EventId) := (fun e => (e, 1%Z)) <$> es.


Lemma rebuild_agrees_witness :
  (rebuild_from_events (log_item <$> apart) empty_store).2 = Ok 3 /\
  rebuilt apart (rebuild_from_events (log_item <$> apart) empty_store).1.
Proof.
  assert (Hlog : log_yields (log_item <$> apart) apart).
  { repeat constructor; (eexists _, _, _; split; [vm_compute; reflexivity|]; split; vm_compute; reflexivity). }
  assert (Hok : (rebuild_from_events (log_item <$> apart) empty_store).2 = Ok 3) by (vm_compute; reflexivity).
  split; [exact Hok|].
  pose proof (rebuild_agrees empty_store _ _ Hlog) as Hr. unfold sm_post in Hr. rewrite Hok in Hr. exact (proj2 Hr).
Defined.

(** Two bundles of one task: the one that events touched last is found until a
    rebuild, after it the one that the hash map happens to yield last. *)
Definition task_bundle_id (s : kv_state) (t : TaskId) : option ProofBundleId :=
  match (get_bundle_for_task t s).2 with Ok o => bd_proof_bundle_id <$> o | Err _ => None end.

Lemma rebuild_moves_task :
  task_bundle_id (apply_events (calls shared) empty_store).1 "T-1" = Some "b1" /\
  task_bundle_id (rebuild_from_events (log_item <$> shared) empty_store).1 "T-1" = Some "b2".
Proof. split; vm_compute; reflexivity. Qed.
End ProofSample.
