(* ===== verification/Detect.v ===== *)
(** * Output detection (crate brehon-detect)

    The pattern detector over pane output: per pane it numbers the lines it has
    seen and the detections it has made.  Proved here: which detections an
    output yields, in which order and with which ids, and that they do not
    depend on what the pane printed before. *)

From Stdlib Require Import Ascii.
From S2P Require Import Prelude Effects StrLib Chars Terminal RuntimeTypes Ports.

Definition DEFAULT_MAX_LINES_PER_PANE : nat := 512.

Record DetectionLoopStats := mkDetectionLoopStats {
  dl_observed_events : Z;
  dl_emitted_detections : Z;
  dl_stream_errors : Z;
  dl_detection_errors : Z;
  dl_publish_errors : Z
}.

#[export] Instance eta_DetectionLoopStats : Eta DetectionLoopStats := fun s =>
  mkDetectionLoopStats (dl_observed_events s) (dl_emitted_detections s) (dl_stream_errors s)
    (dl_detection_errors s) (dl_publish_errors s).

Definition DetectionLoopStats_default : DetectionLoopStats := mkDetectionLoopStats 0 0 0 0 0.

(** [n.saturating_add(1)] of a [u64] *)
Definition count_one (n : Z) : Z := sat_add u64_max n 1.

Record PatternRule := mkPatternRule {
  ru_id : string;
  ru_severity : DetectionSeverity;
  ru_message : string;
  ru_patterns : list string
}.

Definition PatternRule_new (id : string) (severity : DetectionSeverity) (message : string)
    (patterns : list string) : PatternRule :=
  mkPatternRule id severity message (to_ascii_lowercase <$> patterns).

Definition default_rules : list PatternRule :=
  [PatternRule_new "approval.prompt" DetectionSeverity.Warning "Agent is requesting approval"
     ["requires approval"; "permission request"; "do you want to allow"; "approve this command"];
   PatternRule_new "rate_limit.warning" DetectionSeverity.Warning "Agent output indicates rate limiting"
     ["rate limit"; "rate-limit"; "too many requests"; "http 429"; "status 429"];
   PatternRule_new "usage_limit.warning" DetectionSeverity.Warning
     "Agent output indicates usage or quota exhaustion"
     ["usage limit"; "quota exceeded"; "credit balance"; "context window exceeds limit";
      "context window exceeds"; "context window exceeded"; "context length exceeded";
      "maximum context length"; "context limit exceeded"; "model token limit";
      "exceeded model token limit"; "token limit"];
   PatternRule_new "auth.failure" DetectionSeverity.Blocking "Agent output indicates authentication failure"
     ["authentication failed"; "invalid api key"; "unauthorized"; "status 401"; "http 401"];
   PatternRule_new "process.crash" DetectionSeverity.Blocking "Agent output indicates a process crash"
     ["segmentation fault"; "thread 'main' panicked"; "traceback (most recent call last)"; "fatal error:"];
   PatternRule_new "agent.completion_marker" DetectionSeverity.Info
     "Agent output includes a known completion marker" ["brehon_task_complete"; "brehon_done"]].

(** [PaneKey] *)
Definition PaneKey : Type := string * string.
Definition pane_key (meta : RuntimeEventMeta) : PaneKey := (em_session_id meta, em_pane_id meta).

Record PaneDetectionState := mkPaneDetectionState {
  ps_lines : list string;
  ps_next_line_number : Z;
  ps_next_detection_sequence : Z
}.

#[export] Instance eta_PaneDetectionState : Eta PaneDetectionState := fun s =>
  mkPaneDetectionState (ps_lines s) (ps_next_line_number s) (ps_next_detection_sequence s).

Definition PaneDetectionState_default : PaneDetectionState := mkPaneDetectionState [] 0 0.

Record PatternDetectionEngine := mkPatternDetectionEngine {
  en_rules : list PatternRule;
  en_max_lines_per_pane : nat;
  en_state : gmap PaneKey PaneDetectionState
}.

#[export] Instance eta_PatternDetectionEngine : Eta PatternDetectionEngine := fun e =>
  mkPatternDetectionEngine (en_rules e) (en_max_lines_per_pane e) (en_state e).

Definition PatternDetectionEngine_new (rules : list PatternRule) : PatternDetectionEngine :=
  mkPatternDetectionEngine rules DEFAULT_MAX_LINES_PER_PANE ∅.

Definition with_max_lines_per_pane (max_lines_per_pane : nat) (self : PatternDetectionEngine)
    : PatternDetectionEngine := self <| en_max_lines_per_pane := Nat.max max_lines_per_pane 1 |>.

Definition detection_event (source_meta : RuntimeEventMeta) (rule : PatternRule) (sequence line_number : Z)
    : RuntimeEvent :=
  mkRuntimeEvent (source_meta <| em_event_id := None |> <| em_source := RuntimeSource.Detector |>)
    (RuntimeEventKind.DetectionEvent_
      (mkDetectionEvent
        (em_session_id source_meta +:+ ":" +:+ em_pane_id source_meta +:+ ":" +:+ ru_id rule +:+ ":" +:+ pretty sequence)
        (ru_id rule) (ru_severity rule) (ru_message rule) (Some (mkRuntimeTextSpan line_number line_number)))).

Definition rule_matches (lower : string) (rule : PatternRule) : bool :=
  existsb (fun pattern => contains pattern lower) (ru_patterns rule).

(** The inner loop of [observe_output], over the rules. *)
Fixpoint match_rules (meta : RuntimeEventMeta) (lower : string) (line_number : Z) (rules : list PatternRule)
    (ps : PaneDetectionState) : PaneDetectionState * list RuntimeEvent :=
  match rules with
  | [] => (ps, [])
  | rule :: rules =>
      if rule_matches lower rule then
        let ps := ps <| ps_next_detection_sequence := count_one (ps_next_detection_sequence ps) |> in
        let detection := detection_event meta rule (ps_next_detection_sequence ps) line_number in
        let '(ps, detections) := match_rules meta lower line_number rules ps in
        (ps, detection :: detections)
      else match_rules meta lower line_number rules ps
  end.

(** [push_back], then [pop_front] while there are too many. *)
Definition retain_line (max : nat) (line : string) (lines : list string) : list string :=
  let lines := lines ++ [line] in drop (length lines - max) lines.

(** The outer loop, over the lines.  [usize] is 64 bits wide. *)
Fixpoint observe_lines (meta : RuntimeEventMeta) (rules : list PatternRule) (max : nat) (lines : list string)
    (ps : PaneDetectionState) : PaneDetectionState * list RuntimeEvent :=
  match lines with
  | [] => (ps, [])
  | line :: lines =>
      let ps := ps <| ps_next_line_number := count_one (ps_next_line_number ps) |> in
      let '(ps, found) := match_rules meta (to_ascii_lowercase line) (ps_next_line_number ps) rules ps in
      let ps := ps <| ps_lines := retain_line max line (ps_lines ps) |> in
      let '(ps, detections) := observe_lines meta rules max lines ps in
      (ps, found ++ detections)
  end.

Definition output_text (output : PaneOutputEvent) : string :=
  match po_text output with Some text => text | None => utf8_lossy (po_bytes output) end.

Definition observe_output (event : RuntimeEvent) (output : PaneOutputEvent) (self : PatternDetectionEngine)
    : PatternDetectionEngine * list RuntimeEvent :=
  let normalized := normalize_terminal_text (output_text output) in
  if String.eqb (trim normalized) "" then (self, [])
  else
    let key := pane_key (re_meta event) in
    let pane_state := default PaneDetectionState_default (en_state self !! key) in
    let '(pane_state, detections) := observe_lines (re_meta event) (en_rules self) (en_max_lines_per_pane self)
                                       (split_normalized_lines normalized) pane_state in
    (self <| en_state := <[key := pane_state]> (en_state self) |>, detections).

(** [DetectionEngine::observe] *)
Definition detection_observe (event : RuntimeEvent) (self : PatternDetectionEngine)
    : PatternDetectionEngine * list RuntimeEvent :=
  match re_kind event with
  | RuntimeEventKind.PaneOutput output => observe_output event output self
  | _ => (self, [])
  end.

(** ** What is detected *)

(** The rules a line matches. *)
Definition line_hits (rules : list PatternRule) (line : string) : list PatternRule :=
  List.filter (rule_matches (to_ascii_lowercase line)) rules.

(** The lines of an output that are looked at. *)
Definition output_lines (output : PaneOutputEvent) : list string :=
  let normalized := normalize_terminal_text (output_text output) in
  if String.eqb (trim normalized) "" then [] else split_normalized_lines normalized.

(** The hits of lines: line by line, in the order of the rules, each with the
    number of its line, counted from [i]. *)
Fixpoint hits_from (rules : list PatternRule) (i : nat) (lines : list string) : list (nat * PatternRule) :=
  match lines with
  | [] => []
  | line :: lines => ((fun rule => (i, rule)) <$> line_hits rules line) ++ hits_from rules (S i) lines
  end.

Definition output_hits (rules : list PatternRule) (output : PaneOutputEvent) : list (nat * PatternRule) :=
  hits_from rules 0 (output_lines output).

(** Detections of hits, numbered from after [seq]; lines count from after [line]. *)
Definition detections_of (meta : RuntimeEventMeta) (seq line : Z) (hits : list (nat * PatternRule))
    : list RuntimeEvent :=
  imap (fun k hit => detection_event meta hit.2 (seq + Z.of_nat (S k)) (line + Z.of_nat (S hit.1))) hits.

Lemma count_one_below n : (n < u64_max)%Z -> count_one n = (n + 1)%Z.
Proof. unfold count_one, sat_add. lia. Qed.

Lemma match_rules_spec meta lower line rules ps :
  let hits := List.filter (rule_matches lower) rules in
  (ps_next_detection_sequence ps + Z.of_nat (length hits) <= u64_max)%Z ->
  match_rules meta lower line rules ps =
    (ps <| ps_next_detection_sequence := (ps_next_detection_sequence ps + Z.of_nat (length hits))%Z |>,
     imap (fun k rule => detection_event meta rule (ps_next_detection_sequence ps + Z.of_nat (S k)) line) hits).
Proof.
  revert ps. induction rules as [|rule rules IH]; intros ps; cbn [match_rules List.filter]; cbv zeta.
  - intros _. cbn. rewrite Z.add_0_r. by destruct ps.
  - destruct (rule_matches lower rule); [|apply IH]. cbn [length]. intros Hmax.
    rewrite count_one_below by lia.
    rewrite IH; cbn [ps_next_detection_sequence set_with]; [|lia]. rewrite imap_cons. f_equal.
    + unfold set_with. cbn. f_equal. lia.
    + apply (f_equal2 cons); [done|]. apply imap_ext. intros k r _. cbn. f_equal. lia.
Qed.

Lemma length_retain_line max line lines : length (retain_line max line lines) <= max.
Proof. unfold retain_line. rewrite length_drop. lia. Qed.

Lemma retain_line_app max lines line seen :
  drop (length (retain_line max line seen ++ lines) - max) (retain_line max line seen ++ lines)
  = drop (length (seen ++ line :: lines) - max) (seen ++ line :: lines).
Proof.
  unfold retain_line. set (l := seen ++ [line]).
  assert (Hl : seen ++ line :: lines = l ++ lines) by (unfold l; by rewrite <-app_assoc).
  rewrite Hl, <-drop_app_le by lia. rewrite drop_drop, length_drop. f_equal. rewrite length_app. lia.
Qed.

Lemma hits_from_S rules i lines :
  hits_from rules (S i) lines = (fun hit => (S hit.1, hit.2)) <$> hits_from rules i lines.
Proof.
  revert i. induction lines as [|line lines IH]; intros i; cbn [hits_from]; [done|].
  rewrite fmap_app, IH, <-list_fmap_compose. done.
Qed.

Lemma detections_of_cons meta seq line rules lines l :
  detections_of meta seq line (hits_from rules 0 (l :: lines))
  = imap (fun k rule => detection_event meta rule (seq + Z.of_nat (S k)) (line + 1)) (line_hits rules l)
    ++ detections_of meta (seq + Z.of_nat (length (line_hits rules l))) (line + 1) (hits_from rules 0 lines).
Proof.
  unfold detections_of. cbn [hits_from]. rewrite imap_app, length_fmap, hits_from_S, !imap_fmap. f_equal.
  apply imap_ext. intros k hit _. cbn. f_equal; lia.
Qed.

Lemma observe_lines_spec meta rules max lines ps :
  let hits := hits_from rules 0 lines in
  (length (ps_lines ps) <= max)%nat ->
  (ps_next_detection_sequence ps + Z.of_nat (length hits) <= u64_max)%Z ->
  (ps_next_line_number ps + Z.of_nat (length lines) <= u64_max)%Z ->
  observe_lines meta rules max lines ps =
    (mkPaneDetectionState (drop (length (ps_lines ps ++ lines) - max) (ps_lines ps ++ lines))
       (ps_next_line_number ps + Z.of_nat (length lines))
       (ps_next_detection_sequence ps + Z.of_nat (length hits)),
     detections_of meta (ps_next_detection_sequence ps) (ps_next_line_number ps) hits).
Proof.
  revert ps. induction lines as [|line lines IH]; intros ps; cbn [observe_lines]; cbv zeta.
  - intros Hlen _ _. cbn. rewrite !Z.add_0_r, app_nil_r. destruct ps as [seen n k]. cbn in *.
    by rewrite (proj2 (Nat.sub_0_le _ _)).
  - rewrite detections_of_cons. cbn [hits_from length]. rewrite length_app, length_fmap, hits_from_S, length_fmap.
    intros Hlen Hseq Hline. rewrite count_one_below by lia.
    rewrite match_rules_spec; fold (line_hits rules line); cbn [ps_next_detection_sequence ps_lines set_with]; [|lia].
    rewrite IH; cbn [ps_lines ps_next_line_number ps_next_detection_sequence set_with];
      [|apply length_retain_line|lia..].
    rewrite retain_line_app. f_equal. f_equal; lia.
Qed.

(** The state the engine keeps for a pane. *)
Definition pane_state_of (key : PaneKey) (self : PatternDetectionEngine) : PaneDetectionState :=
  default PaneDetectionState_default (en_state self !! key).

Definition detection_id_of (event : RuntimeEvent) : option string :=
  match re_kind event with RuntimeEventKind.DetectionEvent_ d => Some (dt_detection_id d) | _ => None end.

(** Printed numbers contain no colon. *)
Lemma occurs_pretty_N_go x s : occurs ":" s = false -> occurs ":" (pretty_N_go x s) = false.
Proof.
  revert s. induction (N.lt_wf_0 x) as [x _ IH]; intros s Hs.
  assert (x = 0 \/ 0 < x)%N as [->|Hx] by lia; [done|].
  rewrite pretty_N_go_step by done. apply IH; [by apply N.div_lt|]. cbn. rewrite Hs, orb_false_r.
  unfold pretty_N_char. by repeat case_match.
Qed.

Lemma occurs_pretty_Z (z : Z) : occurs ":" (pretty z) = false.
Proof.
  destruct z as [|p|p]; [done| |].
  - change (occurs ":" (pretty_N_go (Npos p) "") = false). by apply occurs_pretty_N_go.
  - change (occurs ":" ("-" +:+ pretty_N_go (Npos p) "") = false). rewrite occurs_app.
    by rewrite occurs_pretty_N_go.
Qed.

(** Ids of a pane's detections end in their number. *)
Lemma detection_id_seq meta rule rule' seq seq' line line' :
  detection_id_of (detection_event meta rule seq line) = detection_id_of (detection_event meta rule' seq' line') ->
  seq = seq'.
Proof.
  cbn. intros [= Hid]. apply (f_equal (rsplit_last ":")) in Hid.
  change (":" +:+ pretty seq) with (String ":" (pretty seq)) in Hid.
  change (":" +:+ pretty seq') with (String ":" (pretty seq')) in Hid.
  rewrite <-!append_assoc, !rsplit_last_app in Hid by apply occurs_pretty_Z. by apply (inj pretty) in Hid.
Qed.

Lemma NoDup_detections meta seq line hits : NoDup (detection_id_of <$> detections_of meta seq line hits).
Proof.
  apply NoDup_alt. intros i j x Hi Hj. unfold detections_of in *.
  rewrite list_lookup_fmap, list_lookup_imap in Hi, Hj.
  destruct (hits !! i) as [h|]; [|done]. destruct (hits !! j) as [h'|]; [|done].
  injection Hi as Hi. injection Hj as Hj. cut (seq + Z.of_nat (S i) = seq + Z.of_nat (S j))%Z; [lia|].
  eapply detection_id_seq. exact (eq_trans Hi (eq_sym Hj)).
Qed.

(** what the detector emits for an output depends on the rules and on that
    output alone, never on earlier output of the pane: one detection per line
    and matching rule, in this order, with consecutive line and sequence
    numbers, under ids that are distinct within the pane; the pane keeps its
    last [max_lines_per_pane] lines and no other pane is touched. *)
Theorem detections_exact event output self :
  re_kind event = RuntimeEventKind.PaneOutput output ->
  let key := pane_key (re_meta event) in
  let ps := pane_state_of key self in
  let hits := output_hits (en_rules self) output in
  let seen := ps_lines ps ++ output_lines output in
  length (ps_lines ps) <= en_max_lines_per_pane self ->
  (ps_next_detection_sequence ps + Z.of_nat (length hits) <= u64_max)%Z ->
  (ps_next_line_number ps + Z.of_nat (length (output_lines output)) <= u64_max)%Z ->
  let '(self', detections) := detection_observe event self in
  detections = detections_of (re_meta event) (ps_next_detection_sequence ps) (ps_next_line_number ps) hits
  /\ NoDup (detection_id_of <$> detections)
  /\ pane_state_of key self' =
       mkPaneDetectionState (drop (length seen - en_max_lines_per_pane self) seen)
         (ps_next_line_number ps + Z.of_nat (length (output_lines output)))
         (ps_next_detection_sequence ps + Z.of_nat (length hits))
  /\ forall key', key' <> key -> en_state self' !! key' = en_state self !! key'.
Proof.
  intros Hkind. cbv zeta. intros Hlen Hseq Hline. unfold detection_observe. rewrite Hkind.
  unfold observe_output. unfold output_hits, output_lines in *.
  destruct (String.eqb _ _) in *.
  - cbn in *. rewrite !Z.add_0_r, app_nil_r, (proj2 (Nat.sub_0_le _ _)), drop_0 by done.
    split_and!; [done|constructor|by destruct (pane_state_of _ _)|done].
  - fold (pane_state_of (pane_key (re_meta event)) self). rewrite observe_lines_spec by done.
    split_and!; [done|apply NoDup_detections| |].
    + unfold pane_state_of at 1. cbn. by rewrite lookup_insert_eq.
    + intros key' Hne. cbn. by rewrite lookup_insert_ne.
Qed.

Module DetectSample.
Definition output : PaneOutputEvent :=
  mkPaneOutputEvent "" (Some ("ok" +:+ NL +:+ "HTTP 429: too many requests" +:+ NL +:+ "Unauthorized")).
Definition event : RuntimeEvent :=
  mkRuntimeEvent (RuntimeEventMeta_new "s" "p" 1 RuntimeSource.Mux 5) (RuntimeEventKind.PaneOutput output).

(** Two lines match a rule each. *)
Lemma detections_exact_witness :
  let '(self', detections) := detection_observe event (PatternDetectionEngine_new default_rules) in
  detection_id_of <$> detections = [Some "s:p:rate_limit.warning:1"; Some "s:p:auth.failure:2"]
  /\ ps_next_line_number (pane_state_of ("s", "p") self') = 3%Z.
Proof.
  pose proof (detections_exact event output (PatternDetectionEngine_new default_rules) eq_refl) as Hexact.
  cbv zeta in Hexact. specialize (Hexact ltac:(vm_compute; lia) ltac:(vm_compute; discriminate) ltac:(vm_compute; discriminate)).
  destruct (detection_observe event _) as [self' detections]. destruct Hexact as (-> & _ & Hps & _).
  split; [vm_compute; reflexivity|].
  change (pane_key (re_meta event)) with ("s", "p") in Hps. rewrite Hps. vm_compute. reflexivity.
Defined.
End DetectSample.
