(* ===== verification/Workflow.v ===== *)
(** * Workflows over runtime events (crate brehon-workflow)

    Rules observe events and recommend operations; only workflows that are
    enabled by name may turn a recommendation into a command.  Proved here: what
    an engine emits for an event, and that a workflow that is not enabled never
    requests a command.  Times and ids are functions of the number of reads. *)

From S2P Require Import Prelude Effects StrLib Chars Terminal RuntimeTypes Ports Detect.

Module WorkflowMode.
Inductive WorkflowMode := DryRun.
End WorkflowMode.
Abbreviation WorkflowMode := WorkflowMode.WorkflowMode.

Record WorkflowRecommendation := mkWorkflowRecommendation {
  wr_operation : RuntimeOperation;
  wr_reason : string;
  wr_command_id : option string;
  wr_command_kind : option RuntimeCommandKind
}.

Record WorkflowEmission := mkWorkflowEmission {
  we_audit_event : RuntimeEvent;
  we_command : option RuntimeCommand;
  we_policy_context : RuntimePolicyContext
}.

(** [trait WorkflowRule] *)
Record WorkflowRule := mkWorkflowRule {
  rule_id : string;
  rule_observe : RuntimeEvent -> list WorkflowRecommendation
}.

(** [impl WorkflowRule for RateLimitQuarantineWorkflow] *)
Definition rate_limit_observe (event : RuntimeEvent) : list WorkflowRecommendation :=
  match re_kind event with
  | RuntimeEventKind.DetectionEvent_ detection =>
      let looks_rate_limited := contains "rate_limit" (dt_rule_id detection)
                                || contains "rate limit" (to_ascii_lowercase (dt_message detection)) in
      let severity_is_actionable :=
        match dt_severity detection with
        | DetectionSeverity.Warning | DetectionSeverity.Blocking => true
        | DetectionSeverity.Info => false
        end in
      if negb (looks_rate_limited && severity_is_actionable) then []
      else [mkWorkflowRecommendation RuntimeOperation.QuarantinePane
              ("rate-limit detection '" +:+ dt_rule_id detection
                +:+ "' recommends operator review before more prompts")
              None
              (Some (RuntimeCommandKind.QuarantinePane ("rate-limit detection '" +:+ dt_rule_id detection +:+ "'")))]
  | _ => []
  end.

Definition RateLimitQuarantineWorkflow : WorkflowRule :=
  mkWorkflowRule "rate_limit.quarantine_recommendation" rate_limit_observe.

Record WorkflowEngine := mkWorkflowEngine {
  eng_mode : WorkflowMode;
  eng_rules : list WorkflowRule;
  eng_enabled_workflows : gset string
}.

#[export] Instance eta_WorkflowEngine : Eta WorkflowEngine := fun e =>
  mkWorkflowEngine (eng_mode e) (eng_rules e) (eng_enabled_workflows e).

Definition WorkflowEngine_default : WorkflowEngine :=
  mkWorkflowEngine WorkflowMode.DryRun [RateLimitQuarantineWorkflow] ∅.

Definition WorkflowEngine_new (mode : WorkflowMode) (rules : list WorkflowRule) : WorkflowEngine :=
  mkWorkflowEngine mode rules ∅.

Definition with_enabled_workflows (workflow_ids : list string) (self : WorkflowEngine) : WorkflowEngine :=
  self <| eng_enabled_workflows := list_to_set workflow_ids |>.

Section engine.
Context (clock : nat -> Z) (uuid : nat -> string) (self : WorkflowEngine).

(** A recommendation of an enabled workflow that carries a command. *)
Definition requested (workflow_id : string) (recommendation : WorkflowRecommendation) : bool :=
  bool_decide (workflow_id ∈ eng_enabled_workflows self)
  && match wr_command_kind recommendation with Some _ => true | None => false end.

(** [WorkflowEngine::emission], with the number of reads before and after. *)
Definition emission (reads : nat) (observed : RuntimeEvent) (workflow_id : string)
    (recommendation : WorkflowRecommendation) : nat * WorkflowEmission :=
  let meta := re_meta observed in
  let is_requested := requested workflow_id recommendation in
  let '(reads, command_id) :=
    if is_requested then (S reads, Some ("workflow-command-" +:+ uuid reads))
    else (reads, wr_command_id recommendation) in
  let '(reads, command) :=
    match is_requested, command_id, wr_command_kind recommendation with
    | true, Some id, Some kind =>
        (S reads, Some (mkRuntimeCommand id
           (mkRuntimeCommandTarget (em_session_id meta) (Some (em_pane_id meta)) (Some (em_generation meta)))
           (clock reads) kind))
    | _, _, _ => (reads, None)
    end in
  let new_meta := RuntimeEventMeta_new (em_session_id meta) (em_pane_id meta) (em_generation meta)
                    (RuntimeSource.Other "workflow") (clock reads) in
  let new_meta := new_meta <| em_correlation_id := em_correlation_id meta |> in
  let action := mkWorkflowActionEvent workflow_id ("workflow-action-" +:+ uuid (S reads))
    (wr_operation recommendation)
    (if is_requested then WorkflowActionStatus.Requested
     else match eng_mode self with WorkflowMode.DryRun => WorkflowActionStatus.DryRun end)
    (wr_reason recommendation) command_id in
  (reads + 2, mkWorkflowEmission (mkRuntimeEvent new_meta (RuntimeEventKind.WorkflowAction action)) command
                RuntimePolicyContext_default).

(** The recommendations of all rules, in order. *)
Definition recommendations (event : RuntimeEvent) : list (string * WorkflowRecommendation) :=
  mjoin ((fun rule => (fun r => (rule_id rule, r)) <$> rule_observe rule event) <$> eng_rules self).

Fixpoint emissions (reads : nat) (event : RuntimeEvent) (l : list (string * WorkflowRecommendation))
    : nat * list WorkflowEmission :=
  match l with
  | [] => (reads, [])
  | (workflow_id, r) :: l =>
      let '(reads, e) := emission reads event workflow_id r in
      let '(reads, es) := emissions reads event l in
      (reads, e :: es)
  end.

(** [WorkflowEngine::observe_emissions] *)
Definition observe_emissions (reads : nat) (event : RuntimeEvent) : nat * list WorkflowEmission :=
  emissions reads event (recommendations event).

(** [WorkflowEngine::observe] *)
Definition workflow_observe (reads : nat) (event : RuntimeEvent) : nat * list RuntimeEvent :=
  let '(reads, es) := observe_emissions reads event in (reads, we_audit_event <$> es).
End engine.

(** ** The loop *)

Record WorkflowLoopStats := mkWorkflowLoopStats {
  wl_observed_events : Z;
  wl_emitted_actions : Z;
  wl_routed_commands : Z;
  wl_command_errors : Z;
  wl_stream_errors : Z;
  wl_publish_errors : Z
}.

#[export] Instance eta_WorkflowLoopStats : Eta WorkflowLoopStats := fun s =>
  mkWorkflowLoopStats (wl_observed_events s) (wl_emitted_actions s) (wl_routed_commands s)
    (wl_command_errors s) (wl_stream_errors s) (wl_publish_errors s).

Definition WorkflowLoopStats_default : WorkflowLoopStats := mkWorkflowLoopStats 0 0 0 0 0 0.

(** ** What an engine emits *)

Section engine_proofs.
Context (clock : nat -> Z) (uuid : nat -> string).

(** The command of an emission. *)
Definition command_for (event : RuntimeEvent) (command : RuntimeCommand) (kind : RuntimeCommandKind) : Prop :=
  cm_kind command = kind
  /\ cm_target command = mkRuntimeCommandTarget (em_session_id (re_meta event)) (Some (em_pane_id (re_meta event)))
                           (Some (em_generation (re_meta event))).

Definition emission_ok (self : WorkflowEngine) (event : RuntimeEvent)
    (source : string * WorkflowRecommendation) (e : WorkflowEmission) : Prop :=
  (exists action, re_kind (we_audit_event e) = RuntimeEventKind.WorkflowAction action
     /\ wa_workflow_id action = source.1 /\ wa_operation action = wr_operation source.2
     /\ wa_status action = (if requested self source.1 source.2 then WorkflowActionStatus.Requested
                            else WorkflowActionStatus.DryRun)
     /\ (forall command, we_command e = Some command -> wa_command_id action = Some (cm_command_id command)))
  /\ match we_command e with
     | Some command => source.1 ∈ eng_enabled_workflows self
         /\ exists kind, wr_command_kind source.2 = Some kind /\ command_for event command kind
     | None => requested self source.1 source.2 = false
     end.

Lemma emission_spec self reads event id r :
  emission_ok self event (id, r) (emission clock uuid self reads event id r).2.
Proof.
  unfold emission. destruct (requested self id r) eqn:Hreq.
  - pose proof Hreq as Hreq'. unfold requested in Hreq'. apply andb_true_iff in Hreq' as [Hen%bool_decide_eq_true Hkind].
    destruct (wr_command_kind r) as [kind|] eqn:Hk; [|done].
    split; cbn; [|split; [done|]; by exists kind].
    eexists. rewrite Hreq. split_and!; [done..|]. by intros command [= <-].
  - split; cbn; [|done]. destruct (eng_mode self). eexists. rewrite Hreq. split_and!; [done..|]. done.
Qed.

(** An engine emits one audit event per recommendation of its rules, in
    order; a command comes with it exactly when the workflow is enabled and
    recommends one, targets the pane and the generation of the observed event,
    and is named in the audit event, which otherwise says it was a dry run. *)
Theorem workflow_emissions_exact self reads event :
  Forall2 (emission_ok self event) (recommendations self event)
    (observe_emissions clock uuid self reads event).2.
Proof.
  unfold observe_emissions. generalize (recommendations self event) as l. intros l. revert reads.
  induction l as [|[id r] l IH]; intros reads; cbn [emissions]; [constructor|].
  pose proof (emission_spec self reads event id r) as He.
  destruct (emission clock uuid self reads event id r) as [reads' e].
  specialize (IH reads'). destruct (emissions clock uuid self reads' event l) as [reads'' es].
  by constructor.
Qed.
End engine_proofs.
