(* ===== verification/Files.v ===== *)
(** * Files

    The operations of tokio::fs that the daemon uses, as a class over the state
    of the file system, with what it relies on: which contents files have after
    an operation that succeeded or failed.  [MemFiles] is a file system in
    memory with an injected fault. *)

From Stdlib Require Import Ascii.
From S2P Require Import Prelude StrLib.

(** [std::io::Error], as far as the program tells errors apart *)
Module FsError.
Inductive FsError := NotFound | Other (text : string).
Definition to_string (e : FsError) : string :=
  match e with NotFound => "No such file or directory (os error 2)" | Other text => text end.
End FsError.
Abbreviation FsError := FsError.FsError.

Class Files := {
  fs_state : Type;
  fs_read_to_string : string -> SM fs_state FsError string;
  fs_create_dir_all : string -> SM fs_state FsError unit;
  fs_write : string -> string -> SM fs_state FsError unit;
  fs_rename : string -> string -> SM fs_state FsError unit;
  fs_open_append : string -> SM fs_state FsError unit;
  fs_write_all : string -> string -> SM fs_state FsError unit;
  fs_flush : string -> SM fs_state FsError unit;
  fs_remove_file : string -> SM fs_state FsError unit;
  fs_metadata : string -> SM fs_state FsError bool;
  fs_read_dir : string -> SM fs_state FsError (list (string * bool))
}.

(** Writing may fail half-way; renaming replaces the target at once or not at
    all; nothing else changes the contents of files. *)
Class FilesLaws `{Files} := {
  fs_files : fs_state -> gmap string string;
  fs_read_same : forall p s, fs_files (fs_read_to_string p s).1 = fs_files s;
  fs_read_law : forall p s s' c, fs_read_to_string p s = (s', Ok c) -> fs_files s !! p = Some c;
  fs_read_missing : forall p s s', fs_read_to_string p s = (s', Err FsError.NotFound) -> fs_files s !! p = None;
  fs_dir_same : forall p s, fs_files (fs_create_dir_all p s).1 = fs_files s;
  fs_write_law : forall p c s s' r, fs_write p c s = (s', r) ->
    match r with
    | Ok _ => fs_files s' = <[p := c]> (fs_files s)
    | Err _ => delete p (fs_files s') = delete p (fs_files s)
    end;
  fs_rename_law : forall a b s s' r, fs_rename a b s = (s', r) ->
    match r with
    | Ok _ => exists c, fs_files s !! a = Some c /\ fs_files s' = <[b := c]> (delete a (fs_files s))
    | Err _ => fs_files s' = fs_files s
    end;
  fs_open_law : forall p s s' r, fs_open_append p s = (s', r) ->
    fs_files s' = fs_files s \/ (fs_files s !! p = None /\ fs_files s' = <[p := ""]> (fs_files s));
  fs_write_all_law : forall p c s s' r, fs_write_all p c s = (s', r) ->
    exists c', fs_files s' = <[p := default "" (fs_files s !! p) +:+ c']> (fs_files s)
      /\ match r with Ok _ => c' = c | Err _ => exists rest, c = c' +:+ rest end;
  fs_flush_same : forall p s, fs_files (fs_flush p s).1 = fs_files s;
  fs_remove_law : forall p s s' r, fs_remove_file p s = (s', r) ->
    match r with
    | Ok _ => fs_files s' = delete p (fs_files s)
    | Err FsError.NotFound => fs_files s !! p = None /\ fs_files s' = fs_files s
    | Err _ => fs_files s' = fs_files s
    end;
  fs_metadata_same : forall p s, fs_files (fs_metadata p s).1 = fs_files s;
  fs_metadata_law : forall p s s', fs_metadata p s = (s', Ok true) -> is_Some (fs_files s !! p);
  fs_metadata_missing : forall p s s', fs_metadata p s = (s', Err FsError.NotFound) -> fs_files s !! p = None;
  fs_read_dir_same : forall p s, fs_files (fs_read_dir p s).1 = fs_files s;
  fs_read_dir_law : forall p s s' l name, fs_read_dir p s = (s', Ok l) ->
    (name, true) ∈ l -> is_Some (fs_files s !! (p +:+ "/" +:+ name))
}.

(** ** In memory *)

Module MemFiles.

(** The files, and how many more operations that write will succeed. *)
Record Mem := mkMem { mem_files : gmap string string; mem_credit : option nat }.

(** An operation that writes, and fails when the credit is used up. *)
Definition writing (f : gmap string string -> gmap string string) : SM Mem FsError unit := fun m =>
  match mem_credit m with
  | Some 0 => (m, Err (FsError.Other "no space left on device"))
  | Some (S n) => (mkMem (f (mem_files m)) (Some n), Ok tt)
  | None => (mkMem (f (mem_files m)) None, Ok tt)
  end.

Definition child_of (dir path : string) : option string :=
  match strip_prefix (dir +:+ "/") path with
  | Some name => if occurs "/"%char name then None else Some name
  | None => None
  end.

#[export] Instance mem_fs : Files := {|
  fs_state := Mem;
  fs_read_to_string := fun p m => (m, match mem_files m !! p with Some c => Ok c | None => Err FsError.NotFound end);
  fs_create_dir_all := fun p m => (m, Ok tt);
  fs_write := fun p c => writing (insert p c);
  fs_rename := fun a b m =>
    match mem_files m !! a with
    | Some c => writing (fun files => <[b := c]> (delete a files)) m
    | None => (m, Err FsError.NotFound)
    end;
  fs_open_append := fun p => writing (fun files => match files !! p with Some _ => files | None => <[p := ""]> files end);
  fs_write_all := fun p c m =>
    match mem_credit m with
    | Some 0 => (mkMem (<[p := default "" (mem_files m !! p) +:+ String.substring 0 1 c]> (mem_files m)) (Some 0),
                 Err (FsError.Other "no space left on device"))
    | _ => writing (fun files => <[p := default "" (files !! p) +:+ c]> files) m
    end;
  fs_flush := fun p m => (m, Ok tt);
  fs_remove_file := fun p m =>
    match mem_files m !! p with
    | Some _ => writing (delete p) m
    | None => (m, Err FsError.NotFound)
    end;
  fs_metadata := fun p m => (m, match mem_files m !! p with Some _ => Ok true | None => Err FsError.NotFound end);
  fs_read_dir := fun dir m =>
    (m, Ok ((fun name => (name, true)) <$> omap (fun kv => child_of dir kv.1) (map_to_list (mem_files m))))
|}.

Lemma writing_law f m m' r :
  writing f m = (m', r) ->
  match r with Ok _ => mem_files m' = f (mem_files m) | Err e => e <> FsError.NotFound /\ m' = m end.
Proof. unfold writing. intros Hw. destruct (mem_credit m) as [[|n]|]; by injection Hw as <- <-. Qed.

Lemma substring_0_1 c : exists rest, c = String.substring 0 1 c +:+ rest.
Proof. destruct c as [|a c]; [by exists ""|]. exists c. cbn. by destruct c. Qed.

#[export] Instance mem_laws : FilesLaws.
Proof.
  refine {| fs_files := mem_files |}; cbn.
  - done.
  - intros p s s' c [= <- Hc]. by destruct (mem_files s !! p); simplify_eq.
  - intros p s s' [= <- Hc]. by destruct (mem_files s !! p); simplify_eq.
  - done.
  - intros p c s s' r Hw%writing_law. destruct r; [done|]. by destruct Hw as [_ ->].
  - intros a b s s' r Hw. destruct (mem_files s !! a) as [c|] eqn:Hc.
    + apply writing_law in Hw. destruct r; [by exists c|]. by destruct Hw as [_ ->].
    + by injection Hw as <- <-.
  - intros p s s' r Hw%writing_law. destruct r as [[]|e].
    + destruct (mem_files s !! p) eqn:Hp; [by left|by right].
    + destruct Hw as [_ ->]. by left.
  - intros p c s s' r Hw. unfold writing in Hw. destruct (mem_credit s) as [[|n]|]; injection Hw as <- <-;
      [exists (String.substring 0 1 c)|by exists c..]. split; [done|apply substring_0_1].
  - done.
  - intros p s s' r Hw. destruct (mem_files s !! p) eqn:Hp; [|by injection Hw as <- <-].
    apply writing_law in Hw. destruct r as [|[]]; naive_solver.
  - done.
  - intros p s s' [= <- Hp]. by destruct (mem_files s !! p) eqn:E.
  - intros p s s' [= <- Hp]. by destruct (mem_files s !! p) eqn:E.
  - done.
  - intros dir s s' l name [= <- <-] Hin. apply list_elem_of_fmap in Hin as (name' & [= <-] & Hin).
    apply list_elem_of_omap in Hin as ([p c] & Hin & Hchild). apply elem_of_map_to_list in Hin.
    unfold child_of in Hchild. cbn [fst] in Hchild. destruct (strip_prefix (dir +:+ "/") p) as [n|] eqn:Hs; [|done].
    destruct (occurs "/"%char n); [done|]. injection Hchild as ->. apply strip_prefix_Some in Hs as ->.
    rewrite append_assoc in Hin. by exists c.
Defined.
End MemFiles.
