(* ===== verification/Daemon.v ===== *)
(** * The runtime daemon (crate brehon-daemon)

    The daemon keeps a registry of panes built from runtime events, routes
    commands through a policy gate to a command port, and keeps commands that
    need an approval, in memory and in a file.  Every decision is published
    before it takes effect.  An operation acts on the state of the daemon
    together with the states behind its ports; its locks are held for single
    statements, and operations are modelled as running one after the other.
    Times and ids are functions of the number of reads. *)

From S2P Require Import Prelude Effects StrLib Chars Terminal Types Kv Ports RuntimeTypes PolicyGate Files.

Definition APPROVAL_STORE_SCHEMA_VERSION : Z := 1.
Definition MAX_COMMAND_INBOX_REQUEST_ID_LEN : nat := 128.

(** Whether a gate and a port are configured, and where files are kept.  The
    capacity of the bus and the terminal host only show in the status and are
    parameters there. *)
Record RuntimeDaemonConfig := mkRuntimeDaemonConfig {
  dc_policy_gate : bool;
  dc_command_port : bool;
  dc_audit_log_path : option string;
  dc_approval_store_path : option string;
  dc_approval_store_session_id : option string
}.

Abbreviation PaneRegistryKey := (string * string)%type.

Record PaneRegistryEntry := mkPaneRegistryEntry {
  pe_session_id : string;
  pe_pane_id : string;
  pe_generation : Z;
  pe_state : RuntimePaneState;
  pe_kind : RuntimePaneKind;
  pe_source : option RuntimeSource;
  pe_title : option string;
  pe_last_event_ms : Z;
  pe_last_output_ms : option Z;
  pe_exit_code : option Z;
  pe_exit_reason : option string;
  pe_blocked : option RuntimePaneBlockInfo
}.

#[export] Instance eta_PaneRegistryEntry : Eta PaneRegistryEntry := fun e =>
  mkPaneRegistryEntry (pe_session_id e) (pe_pane_id e) (pe_generation e) (pe_state e) (pe_kind e)
    (pe_source e) (pe_title e) (pe_last_event_ms e) (pe_last_output_ms e) (pe_exit_code e)
    (pe_exit_reason e) (pe_blocked e).

Record PendingApprovalEntry := mkPendingApprovalEntry {
  pa_approval_id : string;
  pa_requested_at_ms : Z;
  pa_reason : string;
  pa_command : RuntimeCommand;
  pa_context : RuntimePolicyContext
}.

#[export] Instance PendingApprovalEntry_eq_dec : EqDecision PendingApprovalEntry.
Proof. solve_decision. Defined.

Record ApprovalStoreSnapshot := mkApprovalStoreSnapshot {
  st_schema_version : Z;
  st_session_id : option string;
  st_written_at_ms : Z;
  st_approvals : list PendingApprovalEntry
}.

#[export] Instance ApprovalStoreSnapshot_eq_dec : EqDecision ApprovalStoreSnapshot.
Proof. solve_decision. Defined.

Record ApprovalStoreLoadReport := mkApprovalStoreLoadReport { lr_loaded : nat; lr_ignored_stale : nat }.

Record RuntimeDaemonCounters := mkRuntimeDaemonCounters {
  ctr_published_events : Z;
  ctr_routed_commands : Z;
  ctr_rejected_commands : Z;
  ctr_deferred_commands : Z;
  ctr_approval_required_commands : Z;
  ctr_audit_write_errors : Z
}.

#[export] Instance eta_RuntimeDaemonCounters : Eta RuntimeDaemonCounters := fun c =>
  mkRuntimeDaemonCounters (ctr_published_events c) (ctr_routed_commands c) (ctr_rejected_commands c)
    (ctr_deferred_commands c) (ctr_approval_required_commands c) (ctr_audit_write_errors c).

Definition RuntimeDaemonCounters_default : RuntimeDaemonCounters := mkRuntimeDaemonCounters 0 0 0 0 0 0.

(** ** The registry of panes *)

Definition registry_event_updates_pane_source (kind : RuntimeEventKind) : bool :=
  match kind with
  | RuntimeEventKind.PaneSpawned _ _ | RuntimeEventKind.PaneStateChanged _ | RuntimeEventKind.PaneExited _ _
  | RuntimeEventKind.PaneOutput _ | RuntimeEventKind.AgentTurnStarted _ _ | RuntimeEventKind.AgentTurnEnded _ _
  | RuntimeEventKind.PromptDelivered _ | RuntimeEventKind.PromptRejected _ _
  | RuntimeEventKind.ActivityObserved _ _ => true
  | _ => false
  end.

Definition runtime_source_is_terminal_host (source : RuntimeSource) : bool :=
  match source with
  | RuntimeSource.EmbeddedTui | RuntimeSource.Web | RuntimeSource.NativeGui | RuntimeSource.Headless => true
  | _ => false
  end.

Definition registry_event_is_mux_shadow_of_terminal_host (entry : PaneRegistryEntry) (event : RuntimeEvent) : bool :=
  bool_decide (em_source (re_meta event) = RuntimeSource.Mux)
  && (em_generation (re_meta event) <=? pe_generation entry)%Z
  && match pe_source entry with Some source => runtime_source_is_terminal_host source | None => false end
  && match re_kind event with
     | RuntimeEventKind.PaneSpawned _ _ | RuntimeEventKind.PaneStateChanged _
     | RuntimeEventKind.PaneExited _ _ | RuntimeEventKind.PaneOutput _ => true
     | _ => false
     end.

(** The entry [or_insert_with] creates. *)
Definition new_entry (meta : RuntimeEventMeta) : PaneRegistryEntry :=
  mkPaneRegistryEntry (em_session_id meta) (em_pane_id meta) (em_generation meta) RuntimePaneState.Unknown
    RuntimePaneKind.Unknown (Some (em_source meta)) None (em_timestamp_ms meta) None None None None.

(** [!matches!(entry.state, Blocked) && entry.blocked.is_none()] *)
Definition not_blocked (entry : PaneRegistryEntry) : bool :=
  bool_decide (pe_state entry <> RuntimePaneState.Blocked) && bool_decide (pe_blocked entry = None).

(** The [match] on the kind of the event. *)
Definition apply_kind (event : RuntimeEvent) (entry : PaneRegistryEntry) : PaneRegistryEntry :=
  match re_kind event with
  | RuntimeEventKind.PaneSpawned kind title =>
      entry <| pe_kind := kind |> <| pe_title := title |> <| pe_state := RuntimePaneState.Ready |>
            <| pe_exit_code := None |> <| pe_exit_reason := None |> <| pe_blocked := None |>
  | RuntimeEventKind.PaneStateChanged changed =>
      entry <| pe_state := sc_current changed |>
            <| pe_blocked := match sc_current changed with
                             | RuntimePaneState.Blocked => sc_blocked changed
                             | _ => None
                             end |>
  | RuntimeEventKind.PaneExited exit_code reason =>
      entry <| pe_state := RuntimePaneState.Dead |> <| pe_exit_code := exit_code |>
            <| pe_exit_reason := reason |> <| pe_blocked := None |>
  | RuntimeEventKind.PaneOutput _ => entry <| pe_last_output_ms := Some (em_timestamp_ms (re_meta event)) |>
  | RuntimeEventKind.AgentTurnStarted _ _ =>
      if not_blocked entry then entry <| pe_state := RuntimePaneState.Busy |> <| pe_blocked := None |> else entry
  | RuntimeEventKind.AgentTurnEnded _ _ =>
      if not_blocked entry then entry <| pe_state := RuntimePaneState.Ready |> <| pe_blocked := None |> else entry
  | _ => entry
  end.

(** The updates of an entry that the event concerns. *)
Definition update_entry (event : RuntimeEvent) (entry : PaneRegistryEntry) : PaneRegistryEntry :=
  let meta := re_meta event in
  let entry := if (pe_generation entry <? em_generation meta)%Z
               then entry <| pe_state := RuntimePaneState.Unknown |> <| pe_last_output_ms := None |>
                          <| pe_exit_code := None |> <| pe_exit_reason := None |> <| pe_blocked := None |>
               else entry in
  let entry := entry <| pe_generation := em_generation meta |> in
  let entry := if registry_event_updates_pane_source (re_kind event)
               then entry <| pe_source := Some (em_source meta) |> else entry in
  apply_kind event (entry <| pe_last_event_ms := em_timestamp_ms meta |>).

Definition apply_registry_event (event : RuntimeEvent) (registry : gmap PaneRegistryKey PaneRegistryEntry)
    : gmap PaneRegistryKey PaneRegistryEntry :=
  let meta := re_meta event in
  let key : PaneRegistryKey := (em_session_id meta, em_pane_id meta) in
  let older := match registry !! key with
               | Some entry => (em_generation meta <? pe_generation entry)%Z
               | None => false
               end in
  if older then registry
  else
    let entry := default (new_entry meta) (registry !! key) in
    if registry_event_is_mux_shadow_of_terminal_host entry event then <[key := entry]> registry
    else <[key := update_entry event entry]> registry.

(** ** The daemon *)

Definition runtime_operation_for_command (command : RuntimeCommand) : RuntimeOperation :=
  match cm_kind command with
  | RuntimeCommandKind.SendPrompt _ _ _ _ => RuntimeOperation.SendPrompt
  | RuntimeCommandKind.BroadcastPrompt _ _ _ => RuntimeOperation.BroadcastPrompt
  | RuntimeCommandKind.SendTerminalInput _ => RuntimeOperation.SendTerminalInput
  | RuntimeCommandKind.Interrupt _ => RuntimeOperation.Interrupt
  | RuntimeCommandKind.ResetPane _ => RuntimeOperation.ResetPane
  | RuntimeCommandKind.RecyclePane _ => RuntimeOperation.RecyclePane
  | RuntimeCommandKind.QuarantinePane _ => RuntimeOperation.QuarantinePane
  | RuntimeCommandKind.SpawnPane _ _ _ _ _ _ _ _ => RuntimeOperation.SpawnPane
  | RuntimeCommandKind.ResizePane _ _ => RuntimeOperation.ResizePane
  | RuntimeCommandKind.ClosePane _ => RuntimeOperation.ClosePane
  | RuntimeCommandKind.ResolveApproval _ _ => RuntimeOperation.ResolveApproval
  end.

Definition approval_matches_session (entry : PendingApprovalEntry) (session_id : option string) : bool :=
  match session_id with
  | Some session_id => String.eqb (ct_session_id (cm_target (pa_command entry))) session_id
  | None => true
  end.

(** [Path::parent] *)
Definition path_parent (path : string) : option string :=
  match path with
  | "" | "/" => None
  | _ => Some (join "/" (removelast (split_on (Ascii.ascii_of_nat 47) path)))
  end.

Section daemon.
Context {ord : IterOrder string} `{PolicyGate} `{RuntimeCommandPort} `{Files}.
Context `{Json RuntimeEvent} `{Json ApprovalStoreSnapshot}.
Context (config : RuntimeDaemonConfig) (clock : nat -> Z) (uuid : nat -> string).

(** [RuntimeDaemonInner] with the states behind its ports.  [dm_bus] are the
    events sent to the subscribers, in order; a bus without subscribers drops
    them, which is no error. *)
Record RuntimeDaemon := mkRuntimeDaemon {
  dm_registry : gmap PaneRegistryKey PaneRegistryEntry;
  dm_approvals : gmap string PendingApprovalEntry;
  dm_counters : RuntimeDaemonCounters;
  dm_bus : list RuntimeEvent;
  dm_stopped : bool;
  dm_gate : pg_state;
  dm_port : cp_state;
  dm_files : fs_state;
  dm_reads : nat
}.

#[export] Instance eta_RuntimeDaemon : Eta RuntimeDaemon := fun d =>
  mkRuntimeDaemon (dm_registry d) (dm_approvals d) (dm_counters d) (dm_bus d) (dm_stopped d) (dm_gate d)
    (dm_port d) (dm_files d) (dm_reads d).

Definition RuntimeDaemon_new (gate : pg_state) (port : cp_state) (files : fs_state) (reads : nat) : RuntimeDaemon :=
  mkRuntimeDaemon ∅ ∅ RuntimeDaemonCounters_default [] false gate port files reads.

Abbreviation Op A := (SM RuntimeDaemon PortError A).

Definition dm_get {A} (f : RuntimeDaemon -> A) : Op A := fun d => (d, Ok (f d)).
Definition dm_modify (f : RuntimeDaemon -> RuntimeDaemon) : Op unit := fun d => (f d, Ok tt).
Definition dm_read {A} (source : nat -> A) : Op A := fun d =>
  (d <| dm_reads := S (dm_reads d) |>, Ok (source (dm_reads d))).

Definition on_files {A} (op : SM fs_state FsError A) : SM RuntimeDaemon FsError A := fun d =>
  let '(fs, r) := op (dm_files d) in (d <| dm_files := fs |>, r).
Definition on_gate {A} (op : SM pg_state PortError A) : Op A := fun d =>
  let '(g, r) := op (dm_gate d) in (d <| dm_gate := g |>, r).
Definition on_port {A} (op : SM cp_state PortError A) : Op A := fun d =>
  let '(p, r) := op (dm_port d) in (d <| dm_port := p |>, r).

(** [op?] of an input or output operation *)
Definition io {A} (op : SM fs_state FsError A) : Op A :=
  sm_map_err (fun e => PortError.IO (FsError.to_string e)) (on_files op).

Definition count (f : RuntimeDaemonCounters -> RuntimeDaemonCounters) : Op unit :=
  dm_modify (fun d => d <| dm_counters := f (dm_counters d) |>).
Definition count_up (n : Z) : Z := sat_add u64_max n 1.
Definition count_rejected : Op unit :=
  count (fun c => c <| ctr_rejected_commands := count_up (ctr_rejected_commands c) |>).
Definition count_audit_error : Op unit :=
  count (fun c => c <| ctr_audit_write_errors := count_up (ctr_audit_write_errors c) |>).
Definition count_deferred : Op unit :=
  count (fun c => c <| ctr_deferred_commands := count_up (ctr_deferred_commands c) |>).
Definition count_approval_required : Op unit :=
  count (fun c => c <| ctr_approval_required_commands := count_up (ctr_approval_required_commands c) |>).

Definition ensure_running : Op unit := fun d =>
  (d, if dm_stopped d then Err (PortError.Runtime "runtime daemon is stopped") else Ok tt).

(** ** Publishing *)

Definition append_audit_event (event : RuntimeEvent) : Op unit :=
  match dc_audit_log_path config with
  | None => sm_ret tt
  | Some path =>
      let write :=
        match to_vec event with
        | Err _ => count_audit_error
        | Ok encoded =>
            sm_catch (on_files (fs_open_append path))
              (fun _ => sm_catch (on_files (fs_write_all path (encoded +:+ NL)))
                 (fun _ => sm_catch (on_files (fs_flush path)) (fun _ => sm_ret tt) (fun _ => count_audit_error))
                 (fun _ => count_audit_error))
              (fun _ => count_audit_error)
        end in
      match path_parent path with
      | Some parent => sm_catch (on_files (fs_create_dir_all parent)) (fun _ => write) (fun _ => count_audit_error)
      | None => write
      end
  end.

Definition publish_event (event : RuntimeEvent) : Op unit :=
  let! _ := ensure_running in
  let! _ := dm_modify (fun d => d <| dm_registry := apply_registry_event event (dm_registry d) |>) in
  let! _ := append_audit_event event in
  let! _ := dm_modify (fun d => d <| dm_bus := dm_bus d ++ [event] |>) in
  count (fun c => c <| ctr_published_events := count_up (ctr_published_events c) |>).

Definition policy_decision_event (now : Z) (id : string) (command : RuntimeCommand)
    (decision : RuntimePolicyDecision) : RuntimeEvent :=
  let target := cm_target command in
  mkRuntimeEvent
    (with_correlation_id (cm_command_id command)
      (RuntimeEventMeta_new (ct_session_id target) (default "runtime" (ct_pane_id target))
        (default 0%Z (ct_generation target)) RuntimeSource.Policy now))
    (RuntimeEventKind.PolicyDecision
      (mkPolicyDecisionEvent ("decision-" +:+ id) (runtime_operation_for_command command) decision)).

Definition publish_policy_decision (command : RuntimeCommand) (decision : RuntimePolicyDecision) : Op unit :=
  let! now := dm_read clock in
  let! id := dm_read uuid in
  publish_event (policy_decision_event now id command decision).

(** ** The approval store *)

Definition write_atomic (path encoded : string) : Op unit :=
  let! _ := match path_parent path with Some parent => io (fs_create_dir_all parent) | None => sm_ret tt end in
  (* [with_extension] of the extension with ".tmp" appended *)
  let tmp_path := path +:+ ".tmp" in
  let! _ := io (fs_write tmp_path encoded) in
  io (fs_rename tmp_path path).

Definition approval_leb (a b : PendingApprovalEntry) : bool := str_leb (pa_approval_id a) (pa_approval_id b).

(** [approval_registry_snapshot]: also reads the clock. *)
Definition approval_registry_snapshot : Op (list PendingApprovalEntry) :=
  let! approvals := dm_get dm_approvals in
  let! _ := dm_read clock in
  sm_ret (sort_by approval_leb (iter_map approvals).*2).

Definition persist_approval_store : Op unit :=
  match dc_approval_store_path config with
  | None => sm_ret tt
  | Some path =>
      let! approvals := approval_registry_snapshot in
      let! now := dm_read clock in
      let store := mkApprovalStoreSnapshot APPROVAL_STORE_SCHEMA_VERSION
                     (dc_approval_store_session_id config) now approvals in
      match to_vec store with
      | Err err => sm_lift (Err (PortError.Runtime ("failed to encode pending approval store: " +:+ err)))
      | Ok encoded => write_atomic path encoded
      end
  end.

Definition put_approval (id : string) (entry : PendingApprovalEntry) : Op unit :=
  dm_modify (fun d => d <| dm_approvals := <[id := entry]> (dm_approvals d) |>).
Definition drop_approval (id : string) : Op unit :=
  dm_modify (fun d => d <| dm_approvals := delete id (dm_approvals d) |>).

Definition store_pending_approval (command : RuntimeCommand) (context : RuntimePolicyContext) (reason : string)
    : Op string :=
  let! id := dm_read uuid in
  let approval_id := "approval-" +:+ id in
  let! now := dm_read clock in
  let! _ := put_approval approval_id (mkPendingApprovalEntry approval_id now reason command context) in
  sm_catch persist_approval_store
    (fun _ => sm_ret approval_id)
    (fun err => let! _ := drop_approval approval_id in sm_lift (Err err)).

(** The loop over the entries of the file. *)
Definition load_entry (session : option string) (acc : gmap string PendingApprovalEntry * nat)
    (entry : PendingApprovalEntry) : gmap string PendingApprovalEntry * nat :=
  if approval_matches_session entry session then (<[pa_approval_id entry := entry]> acc.1, acc.2)
  else (acc.1, S acc.2).

Definition load_persisted_approvals : Op ApprovalStoreLoadReport :=
  match dc_approval_store_path config with
  | None => sm_ret (mkApprovalStoreLoadReport 0 0)
  | Some path =>
      sm_catch (on_files (fs_read_to_string path))
        (fun contents =>
          match from_slice (A := ApprovalStoreSnapshot) contents with
          | Err err => sm_lift (Err (PortError.Runtime
              ("failed to decode pending approval store " +:+ path +:+ ": " +:+ err)))
          | Ok store =>
              if negb (st_schema_version store =? APPROVAL_STORE_SCHEMA_VERSION)%Z then
                sm_lift (Err (PortError.Runtime ("unsupported pending approval store schema "
                  +:+ pretty (st_schema_version store) +:+ " in " +:+ path)))
              else if bool_decide (dc_approval_store_session_id config <> None
                                   /\ st_session_id store <> dc_approval_store_session_id config) then
                let! _ := dm_modify (fun d => d <| dm_approvals := ∅ |>) in
                let! _ := persist_approval_store in
                sm_ret (mkApprovalStoreLoadReport 0 (length (st_approvals store)))
              else
                let '(approvals, ignored_stale) :=
                  foldl (load_entry (dc_approval_store_session_id config)) (∅, 0) (st_approvals store) in
                let! _ := dm_modify (fun d => d <| dm_approvals := approvals |>) in
                let! _ := (if (0 <? ignored_stale)%nat then persist_approval_store else sm_ret tt) in
                sm_ret (mkApprovalStoreLoadReport (size approvals) ignored_stale)
          end)
        (fun err =>
          match err with
          | FsError.NotFound => let! _ := persist_approval_store in sm_ret (mkApprovalStoreLoadReport 0 0)
          | FsError.Other text => sm_lift (Err (PortError.Runtime
              ("failed to read pending approval store " +:+ path +:+ ": " +:+ text)))
          end)
  end.

(** [new_with_persisted_approvals]; [new] reads the clock for [started_at_ms]. *)
Definition new_with_persisted_approvals (gate : pg_state) (port : cp_state) (files : fs_state) (reads : nat)
    : RuntimeDaemon * Result ApprovalStoreLoadReport PortError :=
  load_persisted_approvals (RuntimeDaemon_new gate port files (S reads)).

(** ** Routing commands *)

Definition registry_entry_for_command (command : RuntimeCommand) (d : RuntimeDaemon) : option PaneRegistryEntry :=
  pane_id ← ct_pane_id (cm_target command);
  dm_registry d !! (ct_session_id (cm_target command), pane_id).

Definition hydrate_policy_context (command : RuntimeCommand) (context : RuntimePolicyContext) (d : RuntimeDaemon)
    : RuntimePolicyContext :=
  match pc_pane_state context, registry_entry_for_command command d with
  | None, Some entry => context <| pc_pane_state := Some (pe_state entry) |>
  | _, _ => context
  end.

Definition registry_generation_decision (command : RuntimeCommand) (d : RuntimeDaemon)
    : option RuntimePolicyDecision :=
  requested ← ct_generation (cm_target command);
  entry ← registry_entry_for_command command d;
  if (requested =? pe_generation entry)%Z then None
  else Some (RuntimePolicyDecision.Deny ("pane generation mismatch: requested " +:+ pretty requested
               +:+ ", current " +:+ pretty (pe_generation entry))).

Definition evaluate_policy (command : RuntimeCommand) (context : RuntimePolicyContext) : Op RuntimePolicyDecision :=
  if negb (dc_policy_gate config) then sm_ret RuntimePolicyDecision.Allow
  else sm_catch (on_gate (pg_evaluate (mkRuntimePolicyRequest command context)))
         (fun decision => sm_ret decision)
         (fun err => sm_ret (RuntimePolicyDecision.Deny ("policy evaluation failed: " +:+ PortError.to_string err))).

(** The decision on a command, from its generation or from the gate. *)
Definition decide_command (command : RuntimeCommand) (context : RuntimePolicyContext) : Op RuntimePolicyDecision :=
  let! mismatch := dm_get (registry_generation_decision command) in
  match mismatch with
  | Some decision => sm_ret decision
  | None => evaluate_policy command context
  end.

Definition execute_command (command : RuntimeCommand) (accepted : string) : Op RuntimeCommandResult :=
  if dc_command_port config then on_port (cp_execute command)
  else sm_ret (mkRuntimeCommandResult (cm_command_id command) RuntimeCommandStatus.Accepted (Some accepted)).

(** What follows an approved command's decision. *)
Definition apply_approved (resolver_command_id approval_id : string) (pending : PendingApprovalEntry)
    (context : RuntimePolicyContext) (decision : RuntimePolicyDecision) : Op RuntimeCommandResult :=
  let granted := "approval '" +:+ approval_id +:+ "' was granted, but policy " in
  match decision with
  | RuntimePolicyDecision.Allow =>
      let! result := execute_command (pa_command pending)
        "approved command accepted by daemon sidecar; no command port configured" in
      sm_ret (mkRuntimeCommandResult resolver_command_id (cr_status result)
        (Some ("approval '" +:+ approval_id +:+ "' applied to " +:+ cr_command_id result +:+ ": "
               +:+ default "no command message" (cr_message result))))
  | RuntimePolicyDecision.Deny reason =>
      let! _ := count_rejected in
      sm_ret (mkRuntimeCommandResult resolver_command_id RuntimeCommandStatus.Rejected
        (Some (granted +:+ "rejected the command: " +:+ reason)))
  | RuntimePolicyDecision.Defer retry_after_ms reason =>
      let! _ := count_deferred in
      sm_ret (mkRuntimeCommandResult resolver_command_id RuntimeCommandStatus.Deferred
        (Some (granted +:+ "deferred the command: " +:+ reason +:+ "; retry after " +:+ pretty retry_after_ms +:+ "ms")))
  | RuntimePolicyDecision.RequireApproval reason =>
      let! _ := count_approval_required in
      let! new_approval_id := store_pending_approval (pa_command pending) context reason in
      sm_ret (mkRuntimeCommandResult resolver_command_id RuntimeCommandStatus.Deferred
        (Some (granted +:+ "requested approval again (" +:+ new_approval_id +:+ "): " +:+ reason)))
  end.

Definition resolve_approval (resolver_command_id approval_id : string) (approved : bool) : Op RuntimeCommandResult :=
  let! approvals := dm_get dm_approvals in
  match approvals !! approval_id with
  | None =>
      let! _ := count_rejected in
      sm_ret (mkRuntimeCommandResult resolver_command_id RuntimeCommandStatus.Rejected
        (Some ("approval '" +:+ approval_id +:+ "' was not found")))
  | Some pending =>
      let! _ := drop_approval approval_id in
      sm_catch persist_approval_store
        (fun _ =>
          if negb approved then
            let! _ := count_rejected in
            let! _ := publish_policy_decision (pa_command pending)
                        (RuntimePolicyDecision.Deny ("operator denied approval '" +:+ approval_id +:+ "'")) in
            sm_ret (mkRuntimeCommandResult resolver_command_id RuntimeCommandStatus.Rejected
              (Some ("approval '" +:+ approval_id +:+ "' denied")))
          else
            let! hydrated := dm_get (hydrate_policy_context (pa_command pending) (pa_context pending)) in
            let approved_context := hydrated <| pc_approval_required := false |> in
            let! decision := decide_command (pa_command pending) approved_context in
            let! _ := publish_policy_decision (pa_command pending) decision in
            apply_approved resolver_command_id approval_id pending approved_context decision)
        (fun err => let! _ := put_approval approval_id pending in sm_lift (Err err))
  end.

(** What follows the decision on a command. *)
Definition apply_decision (command : RuntimeCommand) (context : RuntimePolicyContext)
    (decision : RuntimePolicyDecision) : Op RuntimeCommandResult :=
  let id := cm_command_id command in
  match decision with
  | RuntimePolicyDecision.Allow =>
      execute_command command "command accepted by daemon sidecar; no command port configured"
  | RuntimePolicyDecision.Deny reason =>
      let! _ := count_rejected in
      sm_ret (mkRuntimeCommandResult id RuntimeCommandStatus.Rejected (Some reason))
  | RuntimePolicyDecision.Defer retry_after_ms reason =>
      let! _ := count_deferred in
      sm_ret (mkRuntimeCommandResult id RuntimeCommandStatus.Deferred
        (Some (reason +:+ "; retry after " +:+ pretty retry_after_ms +:+ "ms")))
  | RuntimePolicyDecision.RequireApproval reason =>
      let! _ := count_approval_required in
      let! approval_id := store_pending_approval command context reason in
      sm_ret (mkRuntimeCommandResult id RuntimeCommandStatus.Deferred
        (Some ("approval required (" +:+ approval_id +:+ "): " +:+ reason)))
  end.

Definition route_command (command : RuntimeCommand) (context : RuntimePolicyContext) : Op RuntimeCommandResult :=
  let! _ := ensure_running in
  let! _ := count (fun c => c <| ctr_routed_commands := count_up (ctr_routed_commands c) |>) in
  match cm_kind command with
  | RuntimeCommandKind.ResolveApproval approval_id approved =>
      let! _ := publish_policy_decision command RuntimePolicyDecision.Allow in
      resolve_approval (cm_command_id command) approval_id approved
  | _ =>
      let! context := dm_get (hydrate_policy_context command context) in
      let! decision := decide_command command context in
      let! _ := publish_policy_decision command decision in
      apply_decision command context decision
  end.

Definition daemon_shutdown (d : RuntimeDaemon) : RuntimeDaemon := d <| dm_stopped := true |>.
End daemon.
