(* ===== verification/DaemonProofs.v ===== *)
(** * Properties of the runtime daemon

    The registry of panes, what a routed command may do to the command port,
    and the life of a pending approval over faults and restarts. *)

From S2P Require Import Prelude Effects StrLib Chars Terminal Types Kv Ports RuntimeTypes PolicyGate Files Daemon.

(** Names the goal as a predicate of [d'] and replaces [d'] by its value there,
    so that the operation that computes it occurs once. *)
Ltac name_goal d' Q :=
  pattern d'; match goal with |- ?f _ => set (Q := f) end; subst d'.

(** ** The registry *)

(** An entry is filed under its ids and says what blocks a pane only while the
    pane is blocked. *)
Definition entry_wf (key : PaneRegistryKey) (e : PaneRegistryEntry) : Prop :=
  key = (pe_session_id e, pe_pane_id e) /\ (pe_blocked e <> None -> pe_state e = RuntimePaneState.Blocked).

Definition registry_wf (r : gmap PaneRegistryKey PaneRegistryEntry) : Prop := map_Forall entry_wf r.

(** Panes stay in the registry and their generations never go back. *)
Definition registry_le (r r' : gmap PaneRegistryKey PaneRegistryEntry) : Prop :=
  forall key e, r !! key = Some e -> exists e', r' !! key = Some e' /\ (pe_generation e <= pe_generation e')%Z.

#[export] Instance registry_le_preorder : PreOrder registry_le.
Proof.
  split.
  - intros r key e He. exists e. split; [done|lia].
  - intros r1 r2 r3 H12 H23 key e He. destruct (H12 key e He) as (e2 & He2 & Hle).
    destruct (H23 key e2 He2) as (e3 & He3 & Hle'). exists e3. split; [done|lia].
Qed.

Lemma apply_kind_ids event e :
  pe_session_id (apply_kind event e) = pe_session_id e /\ pe_pane_id (apply_kind event e) = pe_pane_id e
  /\ pe_generation (apply_kind event e) = pe_generation e.
Proof. unfold apply_kind. destruct (re_kind event); try done; by destruct (not_blocked e). Qed.

Lemma update_entry_ids event e :
  pe_session_id (update_entry event e) = pe_session_id e /\ pe_pane_id (update_entry event e) = pe_pane_id e
  /\ pe_generation (update_entry event e) = em_generation (re_meta event).
Proof.
  unfold update_entry. cbv zeta. match goal with |- context [apply_kind event ?e'] =>
    destruct (apply_kind_ids event e') as (-> & -> & ->) end.
  destruct (_ <? _)%Z, (registry_event_updates_pane_source _); done.
Qed.

Lemma apply_kind_blocked event e :
  (pe_blocked e <> None -> pe_state e = RuntimePaneState.Blocked) ->
  pe_blocked (apply_kind event e) <> None -> pe_state (apply_kind event e) = RuntimePaneState.Blocked.
Proof.
  intros He. unfold apply_kind. destruct (re_kind event); cbn; try done.
  - by destruct (sc_current changed).
  - by destruct (not_blocked e).
  - by destruct (not_blocked e).
Qed.

Lemma update_entry_blocked event e :
  (pe_blocked e <> None -> pe_state e = RuntimePaneState.Blocked) ->
  pe_blocked (update_entry event e) <> None -> pe_state (update_entry event e) = RuntimePaneState.Blocked.
Proof.
  intros He. apply apply_kind_blocked.
  destruct (_ <? _)%Z, (registry_event_updates_pane_source _); cbn; done.
Qed.

(** Events of an older generation change nothing, shadows only make sure that an
    entry exists, and others update it. *)
Lemma registry_event_cases event r :
  let key : PaneRegistryKey := (em_session_id (re_meta event), em_pane_id (re_meta event)) in
  let entry := default (new_entry (re_meta event)) (r !! key) in
  apply_registry_event event r = r
  \/ (pe_generation entry <= em_generation (re_meta event))%Z
     /\ (apply_registry_event event r = <[key := entry]> r
         \/ apply_registry_event event r = <[key := update_entry event entry]> r).
Proof.
  intros key entry. unfold apply_registry_event. fold key entry.
  destruct (match r !! key with Some e => _ | None => false end) eqn:Holder; [by left|right].
  split; [|by destruct (registry_event_is_mux_shadow_of_terminal_host entry event); [left|right]].
  unfold entry. destruct (r !! key) as [e|]; cbn; [by apply Z.ltb_ge|lia].
Qed.

Lemma registry_event_wf event r : registry_wf r -> registry_wf (apply_registry_event event r).
Proof.
  intros Hr. destruct (registry_event_cases event r) as [->|[_ Hcases]]; [done|].
  set (key := (_, _)) in Hcases. set (entry := default _ _) in Hcases.
  assert (Hentry : entry_wf key entry).
  { unfold entry. destruct (r !! key) as [e|] eqn:He; [exact (Hr _ _ He)|]. split; [done|]. cbn. naive_solver. }
  destruct Hcases as [->| ->]; apply map_Forall_insert_2; try done.
  destruct Hentry as [Hkey Hb]. split; [|by apply update_entry_blocked].
  destruct (update_entry_ids event entry) as (-> & -> & _). done.
Qed.

Lemma registry_event_le event r : registry_le r (apply_registry_event event r).
Proof.
  destruct (registry_event_cases event r) as [->|[Hle Hcases]]; [done|].
  set (k := (_, _)) in *. intros key e He. destruct (decide (k = key)) as [Heq|Hne].
  - rewrite Heq, He in Hcases, Hle. cbn in Hle, Hcases.
    destruct Hcases as [->| ->]; eexists; (split; [apply lookup_insert_eq|]); [done|].
    by destruct (update_entry_ids event e) as (_ & _ & ->).
  - exists e. split; [|lia]. by destruct Hcases as [->| ->]; rewrite lookup_insert_ne.
Qed.

(** An event of an older generation changes nothing. *)
Lemma registry_event_older event r e :
  r !! (em_session_id (re_meta event), em_pane_id (re_meta event)) = Some e ->
  (em_generation (re_meta event) < pe_generation e)%Z -> apply_registry_event event r = r.
Proof.
  intros He Hlt. unfold apply_registry_event. cbv zeta. rewrite He. by destruct (Z.ltb_spec (em_generation (re_meta event)) (pe_generation e)); [|lia].
Qed.

(** An event of this or a later generation that is no event of the multiplexer
    updates the entry. *)
Lemma registry_event_newer event r :
  em_source (re_meta event) <> RuntimeSource.Mux ->
  let key := (em_session_id (re_meta event), em_pane_id (re_meta event)) in
  (forall e, r !! key = Some e -> (pe_generation e <= em_generation (re_meta event))%Z) ->
  apply_registry_event event r = <[key := update_entry event (default (new_entry (re_meta event)) (r !! key))]> r.
Proof.
  intros Hsource key Hle. unfold apply_registry_event. fold key.
  unfold registry_event_is_mux_shadow_of_terminal_host. rewrite (bool_decide_false _ Hsource). cbn [andb].
  destruct (r !! key) as [e|]; [|done]. specialize (Hle e eq_refl).
  by destruct (Z.ltb_spec (em_generation (re_meta event)) (pe_generation e)); [lia|].
Qed.

(** ** What an operation leaves alone *)

Section daemon_proofs.
Context {ord : IterOrder string} `{PolicyGate} `{RuntimeCommandPort} `{Files}.
Context `{Json RuntimeEvent} `{Json ApprovalStoreSnapshot}.
Context (config : RuntimeDaemonConfig) (clock : nat -> Z) (uuid : nat -> string).
Abbreviation route := (route_command config clock uuid).
Abbreviation Dm := RuntimeDaemon.

(** Relations that the primitive operations respect: reading, counting, and the
    changes behind the gate and the files. *)
Class Background (R : Dm -> Dm -> Prop) := {
  bg_order :: PreOrder R;
  bg_reads : forall d n, dm_reads d <= n -> R d (d <| dm_reads := n |>);
  bg_counters : forall d c, R d (d <| dm_counters := c |>);
  bg_gate : forall d g, R d (d <| dm_gate := g |>)
}.

Section background.
Context (R : Dm -> Dm -> Prop) `{!Background R}.

Lemma bg_get {A} (f : Dm -> A) : relates R (dm_get f).
Proof. by intros d. Qed.

Lemma bg_read {A} (source : nat -> A) : relates R (dm_read source).
Proof. intros d. apply bg_reads. lia. Qed.

Lemma bg_count f : relates R (count f).
Proof. intros d. apply bg_counters. Qed.

Lemma bg_running : relates R ensure_running.
Proof. by intros d. Qed.

Lemma bg_on_gate {A} (op : SM pg_state PortError A) : relates R (on_gate op).
Proof. intros d. unfold on_gate. destruct (op (dm_gate d)). apply bg_gate. Qed.

#[local] Hint Resolve bg_get bg_read bg_count bg_running bg_on_gate : effects.

Lemma bg_decide command context : relates R (decide_command config command context).
Proof. unfold decide_command, evaluate_policy. follow_effects. Qed.
End background.

#[local] Hint Extern 1 (relates _ (dm_get _)) => apply bg_get; apply _ : effects.
#[local] Hint Extern 1 (relates _ (dm_read _)) => apply bg_read; apply _ : effects.
#[local] Hint Extern 1 (relates _ (count _)) => apply bg_count; apply _ : effects.
#[local] Hint Extern 1 (relates _ ensure_running) => apply bg_running; apply _ : effects.
#[local] Hint Extern 1 (relates _ (decide_command _ _ _)) => apply bg_decide; apply _ : effects.

(** Operations on files and changes of other fields respect a projection that
    shows neither. *)
Lemma same_files {A B} (P : Dm -> B) (op : SM fs_state FsError A) :
  (forall d fs, P (d <| dm_files := fs |>) = P d) -> relates (same P) (on_files op).
Proof. intros HP d. unfold on_files. destruct (op (dm_files d)). apply HP. Qed.

Lemma same_modify {B} (P : Dm -> B) f : (forall d, P (f d) = P d) -> relates (same P) (dm_modify f).
Proof. intros HP d. apply HP. Qed.

#[local] Hint Extern 1 (relates (same _) (on_files _)) => apply same_files; done : effects.
#[local] Hint Extern 1 (relates (same _) (dm_modify _)) => apply same_modify; done : effects.

#[local] Instance port_background : Background (same dm_port).
Proof. split; [apply _|done..]. Qed.
#[local] Instance stopped_background : Background (same dm_stopped).
Proof. split; [apply _|done..]. Qed.
#[local] Instance bus_background : Background (same dm_bus).
Proof. split; [apply _|done..]. Qed.
#[local] Instance approvals_background : Background (same dm_approvals).
Proof. split; [apply _|done..]. Qed.
#[local] Instance registry_background : Background (same dm_registry).
Proof. split; [apply _|done..]. Qed.

Lemma append_audit_same {B} (P : Dm -> B) event :
  Background (same P) -> (forall d fs, P (d <| dm_files := fs |>) = P d) ->
  relates (same P) (append_audit_event config event).
Proof.
  intros HB HP. assert (forall A (op : SM fs_state FsError A), relates (same P) (on_files op)) as Hfs.
  { intros. by apply same_files. }
  unfold append_audit_event, count_audit_error. follow_effects.
Qed.

Lemma persist_same {B} (P : Dm -> B) :
  Background (same P) -> (forall d fs, P (d <| dm_files := fs |>) = P d) ->
  relates (same P) (persist_approval_store config clock).
Proof.
  intros HB HP. assert (forall A (op : SM fs_state FsError A), relates (same P) (on_files op)) as Hfs.
  { intros. by apply same_files. }
  unfold persist_approval_store, approval_registry_snapshot, write_atomic, io. follow_effects.
Qed.

#[local] Hint Extern 1 (relates (same _) (append_audit_event _ _)) =>
  apply append_audit_same; [apply _|done] : effects.
#[local] Hint Extern 1 (relates (same _) (persist_approval_store _ _)) =>
  apply persist_same; [apply _|done] : effects.

(** Errors of the audit log are counted and go no further. *)
Lemma audit_ok event d : (append_audit_event config event d).2 = Ok tt.
Proof.
  unfold append_audit_event, sm_catch, count_audit_error, count, on_files. repeat case_match; done.
Qed.

Lemma publish_port event : relates (same dm_port) (publish_event config event).
Proof. unfold publish_event. follow_effects. Qed.

Lemma publish_decision_port command decision :
  relates (same dm_port) (publish_policy_decision config clock uuid command decision).
Proof. pose proof publish_port. unfold publish_policy_decision. follow_effects. Qed.

Lemma store_pending_port command context reason :
  relates (same dm_port) (store_pending_approval config clock uuid command context reason).
Proof. unfold store_pending_approval, put_approval, drop_approval. follow_effects. Qed.

Lemma publish_approvals event : relates (same dm_approvals) (publish_event config event).
Proof. unfold publish_event. follow_effects. Qed.

Lemma publish_decision_approvals command decision :
  relates (same dm_approvals) (publish_policy_decision config clock uuid command decision).
Proof. pose proof publish_approvals. unfold publish_policy_decision. follow_effects. Qed.

Lemma publish_stopped event : relates (same dm_stopped) (publish_event config event).
Proof. unfold publish_event. follow_effects. Qed.

(** A running daemon publishes: the event reaches registry and bus. *)
Lemma publish_running event d :
  dm_stopped d = false ->
  let d' := (publish_event config event d).1 in
  (publish_event config event d).2 = Ok tt /\ dm_bus d' = dm_bus d ++ [event]
  /\ dm_registry d' = apply_registry_event event (dm_registry d).
Proof.
  intros Hrun. unfold publish_event, sm_bind, ensure_running. rewrite Hrun.
  cbn -[append_audit_event apply_registry_event].
  set (d1 := d <| dm_registry := _ |>).
  pose proof (append_audit_same dm_bus event _ (fun _ _ => eq_refl) d1) as Hbus.
  pose proof (append_audit_same dm_registry event _ (fun _ _ => eq_refl) d1) as Hreg.
  pose proof (audit_ok event d1) as Hok. unfold same in Hbus, Hreg.
  destruct (append_audit_event config event d1) as [d2 r]. cbn [fst snd] in *. subst r. cbn.
  by rewrite Hbus, Hreg.
Qed.

Lemma publish_decision_running command decision d :
  dm_stopped d = false ->
  let event := policy_decision_event (clock (dm_reads d)) (uuid (S (dm_reads d))) command decision in
  let d' := (publish_policy_decision config clock uuid command decision d).1 in
  (publish_policy_decision config clock uuid command decision d).2 = Ok tt
  /\ dm_bus d' = dm_bus d ++ [event] /\ dm_registry d' = apply_registry_event event (dm_registry d).
Proof.
  intros Hrun event. set (d2 := d <| dm_reads := S (S (dm_reads d)) |>).
  exact (publish_running event d2 Hrun).
Qed.

Lemma publish_decision_stopped command decision d d' :
  publish_policy_decision config clock uuid command decision d = (d', Ok tt) -> dm_stopped d = false.
Proof.
  unfold publish_policy_decision, publish_event, sm_bind, ensure_running, dm_read. cbn.
  by destruct (dm_stopped d).
Qed.

(** ** Execution *)

Lemma generation_denies command d decision :
  registry_generation_decision command d = Some decision ->
  exists reason, decision = RuntimePolicyDecision.Deny reason.
Proof. unfold registry_generation_decision. intros Hgen. simplify_option_eq. case_match; simplify_eq. eauto. Qed.

(** What allowing a command means: its generation is the one registered, and
    the gate, if there is one, answered so. *)
Lemma decide_allow command context d :
  (decide_command config command context d).2 = Ok RuntimePolicyDecision.Allow <->
  registry_generation_decision command d = None
  /\ (dc_policy_gate config = true ->
      (pg_evaluate (mkRuntimePolicyRequest command context) (dm_gate d)).2 = Ok RuntimePolicyDecision.Allow).
Proof.
  unfold decide_command, evaluate_policy, sm_bind, sm_catch, on_gate. cbn.
  destruct (registry_generation_decision command d) as [decision|] eqn:Hgen.
  { apply generation_denies in Hgen as [reason ->]. cbn. naive_solver. }
  destruct (dc_policy_gate config); [|naive_solver]. cbn.
  destruct (pg_evaluate _ _) as [g [[]|e]]; naive_solver.
Qed.

Lemma decide_ok command context d : exists decision, (decide_command config command context d).2 = Ok decision.
Proof.
  unfold decide_command, evaluate_policy, sm_bind, sm_catch, on_gate. cbn. repeat case_match; cbn; eauto.
Qed.

(** A decision other than [Allow] executes nothing. *)
Lemma apply_decision_port command context decision :
  decision <> RuntimePolicyDecision.Allow ->
  relates (same dm_port) (apply_decision config clock uuid command context decision).
Proof.
  intros Hd. pose proof store_pending_port. unfold apply_decision. destruct decision; [done|..];
    unfold count_rejected, count_deferred, count_approval_required; follow_effects.
Qed.

Lemma apply_approved_port resolver id pending context decision :
  decision <> RuntimePolicyDecision.Allow ->
  relates (same dm_port) (apply_approved config clock uuid resolver id pending context decision).
Proof.
  intros Hd. pose proof store_pending_port. unfold apply_approved. destruct decision; [done|..];
    unfold count_rejected, count_deferred, count_approval_required; follow_effects.
Qed.

(** Executing changes at most what is behind the port. *)
Lemma execute_only_port command message d :
  exists p, (execute_command config command message d).1 = d <| dm_port := p |>
            /\ (p = dm_port d \/ p = (cp_execute command (dm_port d)).1).
Proof.
  unfold execute_command, on_port. destruct (dc_command_port config).
  - destruct (cp_execute command (dm_port d)) as [p r]. exists p. auto.
  - exists (dm_port d). split; [by destruct d|auto].
Qed.

(** From [d], which decided on it, to [d'], the command was executed once: its
    generation was the registered one, the gate allowed it, and the decision is
    the last event on the bus. *)
Definition ran (command : RuntimeCommand) (context : RuntimePolicyContext) (d d' : Dm) : Prop :=
  dm_port d' = (cp_execute command (dm_port d)).1
  /\ registry_generation_decision command d = None
  /\ (dc_policy_gate config = true ->
      (pg_evaluate (mkRuntimePolicyRequest command context) (dm_gate d)).2 = Ok RuntimePolicyDecision.Allow)
  /\ dm_approvals d' = dm_approvals d
  /\ exists now id, dm_bus d' = dm_bus d ++ [policy_decision_event now id command RuntimePolicyDecision.Allow].

(** Deciding, publishing and applying, the common part of both routes. *)
Lemma decided_runs command context (k : RuntimePolicyDecision -> SM Dm PortError RuntimeCommandResult) d :
  (forall decision, decision <> RuntimePolicyDecision.Allow -> relates (same dm_port) (k decision)) ->
  (forall d, exists p, (k RuntimePolicyDecision.Allow d).1 = d <| dm_port := p |>
             /\ (p = dm_port d \/ p = (cp_execute command (dm_port d)).1)) ->
  let d' := ((let! decision := decide_command config command context in
              let! _ := publish_policy_decision config clock uuid command decision in
              k decision) d).1 in
  dm_port d' = dm_port d \/ ran command context d d'.
Proof.
  intros Hother Hallow. unfold sm_bind at 1.
  pose proof (decide_allow command context d) as Hdecide.
  pose proof (bg_decide (same dm_port) command context d) as Hport1.
  pose proof (bg_decide (same dm_bus) command context d) as Hbus1.
  pose proof (bg_decide (same dm_approvals) command context d) as Happ1.
  unfold same in Hport1, Hbus1, Happ1.
  destruct (decide_command config command context d) as [d1 [decision|e]]; cbn [fst snd] in *; [|by left].
  unfold sm_bind. pose proof (publish_decision_port command decision d1) as Hport2.
  pose proof (publish_decision_approvals command decision d1) as Happ2.
  pose proof (publish_decision_running command decision d1) as Hpub. unfold same in Hport2, Happ2.
  destruct (publish_policy_decision config clock uuid command decision d1) as [d2 [[]|e]] eqn:Hrun; cbn [fst snd] in *;
    [|left; congruence].
  destruct (decide (decision = RuntimePolicyDecision.Allow)) as [->|Hne].
  - destruct (Hallow d2) as (p & -> & [Hp|Hp]); cbn; [left; congruence|right].
    destruct Hpub as (_ & Hbus & _); [by eapply publish_decision_stopped|].
    destruct (proj1 Hdecide eq_refl) as [Hgen Hgate].
    split; [cbn; congruence|]. split; [done|]. split; [done|]. split; [cbn; congruence|].
    exists (clock (dm_reads d1)), (uuid (S (dm_reads d1))). cbn. congruence.
  - left. rewrite (Hother decision Hne d2). congruence.
Qed.

(** Where an executed command comes from: it was routed itself, or it was
    waiting for the approval that was routed, which is then gone. *)
Inductive came_from (command : RuntimeCommand) (context : RuntimePolicyContext) (d d0 : Dm)
    : RuntimeCommand -> RuntimePolicyContext -> Prop :=
| came_directly :
    (forall id approved, cm_kind command <> RuntimeCommandKind.ResolveApproval id approved) ->
    dm_registry d0 = dm_registry d ->
    came_from command context d d0 command (hydrate_policy_context command context d)
| came_approved id pending :
    cm_kind command = RuntimeCommandKind.ResolveApproval id true ->
    dm_approvals d !! id = Some pending -> dm_approvals d0 = delete id (dm_approvals d) ->
    came_from command context d d0 (pa_command pending)
      (hydrate_policy_context (pa_command pending) (pa_context pending) d0 <| pc_approval_required := false |>).

(** Resolving an approval. *)
Lemma resolve_runs resolver id approved d :
  let d' := (resolve_approval config clock uuid resolver id approved d).1 in
  dm_port d' = dm_port d
  \/ exists pending d0, approved = true /\ dm_approvals d !! id = Some pending
     /\ dm_approvals d0 = delete id (dm_approvals d) /\ dm_port d0 = dm_port d
     /\ ran (pa_command pending)
           (hydrate_policy_context (pa_command pending) (pa_context pending) d0 <| pc_approval_required := false |>) d0 d'.
Proof.
  intros d'. name_goal d' Q. unfold resolve_approval, sm_bind at 1. cbn [dm_get].
  destruct (dm_approvals d !! id) as [pending|] eqn:Hid; [|by left].
  unfold sm_bind at 1, drop_approval, dm_modify, sm_catch.
  set (d1 := d <| dm_approvals := delete id (dm_approvals d) |>).
  pose proof (persist_same dm_port _ (fun _ _ => eq_refl) d1) as Hport.
  pose proof (persist_same dm_approvals _ (fun _ _ => eq_refl) d1) as Happ. unfold same in Hport, Happ.
  destruct (persist_approval_store config clock d1) as [d2 [[]|e]]; cbn [fst snd] in *; [|left; by cbn].
  destruct approved; cbn [negb].
  - unfold sm_bind at 1. cbn [dm_get]. set (context := hydrate_policy_context _ _ _ <| pc_approval_required := false |>).
    destruct (decided_runs (pa_command pending) context
                (apply_approved config clock uuid resolver id pending context) d2) as [Hsame|Hran].
    + intros. by apply apply_approved_port.
    + intros d3. unfold apply_approved, sm_bind.
      destruct (execute_only_port (pa_command pending)
        "approved command accepted by daemon sidecar; no command port configured" d3) as (p & Hd & Hp).
      exists p. split; [|done]. by destruct (execute_command _ _ _ _) as [d4 [r|e]].
    + left. rewrite Hsame. exact Hport.
    + right. exists pending, d2. split; [done|]. split; [done|]. split; [exact Happ|]. split; [exact Hport|exact Hran].
  - left. transitivity (dm_port d2); [|exact Hport].
    assert (Hrel : relates (same dm_port) (let! _ := count_rejected in
      let! _ := publish_policy_decision config clock uuid (pa_command pending)
                  (RuntimePolicyDecision.Deny ("operator denied approval '" +:+ id +:+ "'")) in
      sm_ret (mkRuntimeCommandResult resolver RuntimeCommandStatus.Rejected
              (Some ("approval '" +:+ id +:+ "' denied"))))).
    { pose proof publish_decision_port. unfold count_rejected. follow_effects. }
    apply Hrel.
Qed.


(** ** Decisions change the registry *)

(** A command of another generation than the registered one: counted, reported
    and refused. *)
Lemma route_mismatch command context d reason :
  dm_stopped d = false ->
  (forall id approved, cm_kind command <> RuntimeCommandKind.ResolveApproval id approved) ->
  registry_generation_decision command d = Some (RuntimePolicyDecision.Deny reason) ->
  exists d1, dm_stopped d1 = false /\ dm_registry d1 = dm_registry d /\ dm_port d1 = dm_port d
  /\ route command context d
     = (let d2 := (publish_policy_decision config clock uuid command (RuntimePolicyDecision.Deny reason) d1).1 in
        (d2 <| dm_counters := dm_counters d2 <| ctr_rejected_commands := count_up (ctr_rejected_commands (dm_counters d2)) |> |>,
         Ok (mkRuntimeCommandResult (cm_command_id command) RuntimeCommandStatus.Rejected (Some reason)))).
Proof.
  intros Hrun Hkind Hmis. set (d1 := d <| dm_counters := dm_counters d
    <| ctr_routed_commands := count_up (ctr_routed_commands (dm_counters d)) |> |>).
  exists d1. split; [done|]. split; [done|]. split; [done|].
  assert (Hdec : forall ctx, decide_command config command ctx d1 = (d1, Ok (RuntimePolicyDecision.Deny reason))).
  { intros ctx. unfold decide_command, sm_bind. cbn.
    change (registry_generation_decision command d1) with (registry_generation_decision command d). by rewrite Hmis. }
  unfold route_command, sm_bind at 1, ensure_running. rewrite Hrun. unfold sm_bind at 1, count, dm_modify. fold d1.
  destruct (publish_decision_running command (RuntimePolicyDecision.Deny reason) d1 Hrun) as (Hok & _).
  destruct (cm_kind command) eqn:Hk; try (by edestruct Hkind); unfold sm_bind at 1; cbn [dm_get];
    unfold sm_bind at 1; rewrite Hdec; unfold sm_bind at 1;
    destruct (publish_policy_decision _ _ _ _ _ d1) as [d2 r]; cbn [snd] in Hok; subst r; reflexivity.
Qed.

(** The event that reports a decision sets the generation of the pane. *)
Lemma decision_event_registers now id command decision pane g r :
  ct_pane_id (cm_target command) = Some pane -> ct_generation (cm_target command) = Some g ->
  let key := (ct_session_id (cm_target command), pane) in
  (forall e, r !! key = Some e -> (pe_generation e < g)%Z) ->
  exists e', apply_registry_event (policy_decision_event now id command decision) r !! key = Some e'
             /\ pe_generation e' = g /\ pe_state e' = RuntimePaneState.Unknown.
Proof.
  intros Hpane Hg key Hlt. set (event := policy_decision_event _ _ _ _).
  assert (Hkey : (em_session_id (re_meta event), em_pane_id (re_meta event)) = key).
  { unfold event. cbn. by rewrite Hpane. }
  assert (Hgen : em_generation (re_meta event) = g) by (unfold event; cbn; by rewrite Hg).
  rewrite registry_event_newer; [|done|]; rewrite Hkey, ?Hgen; [|naive_solver lia].
  eexists. split; [apply lookup_insert_eq|]. split.
  { by destruct (update_entry_ids event (default (new_entry (re_meta event)) (r !! key))) as (_ & _ & ->). }
  unfold update_entry. rewrite Hgen. cbn [event policy_decision_event re_kind registry_event_updates_pane_source apply_kind].
  destruct (r !! key) as [e|] eqn:He; cbn.
  - specialize (Hlt e eq_refl). destruct (Z.ltb_spec (pe_generation e) g); [done|lia].
  - by destruct (_ <? _)%Z.
Qed.

(** C29: a command that is refused because it names a later generation of its
    pane takes the pane over all the same: the event that reports the refusal
    registers the later generation in state unknown.  From then on events of the
    pane's real generation change nothing, and the same command passes the test
    of generations. *)
Theorem denied_command_takes_over_pane command context pane g entry d :
  dm_stopped d = false ->
  (forall id approved, cm_kind command <> RuntimeCommandKind.ResolveApproval id approved) ->
  ct_pane_id (cm_target command) = Some pane -> ct_generation (cm_target command) = Some g ->
  let key := (ct_session_id (cm_target command), pane) in
  dm_registry d !! key = Some entry -> (pe_generation entry < g)%Z ->
  let d' := (route command context d).1 in
  (exists reason, (route command context d).2
     = Ok (mkRuntimeCommandResult (cm_command_id command) RuntimeCommandStatus.Rejected (Some reason)))
  /\ dm_port d' = dm_port d
  /\ (exists e', dm_registry d' !! key = Some e' /\ pe_generation e' = g /\ pe_state e' = RuntimePaneState.Unknown)
  /\ registry_generation_decision command d' = None
  /\ (forall event, (em_session_id (re_meta event), em_pane_id (re_meta event)) = key ->
       (em_generation (re_meta event) < g)%Z -> apply_registry_event event (dm_registry d') = dm_registry d').
Proof.
  intros Hrun Hkind Hpane Hg key He Hlt d'.
  assert (Hmis : exists reason, registry_generation_decision command d = Some (RuntimePolicyDecision.Deny reason)).
  { unfold registry_generation_decision, registry_entry_for_command. rewrite Hg, Hpane. cbn. fold key. rewrite He. cbn.
    destruct (Z.eqb_spec g (pe_generation entry)); [lia|]. eauto. }
  destruct Hmis as [reason Hmis].
  pose proof (route_mismatch command context d reason Hrun Hkind Hmis) as (d1 & Hd1run & Hd1reg & Hd1port & Hroute).
  pose proof (publish_decision_running command (RuntimePolicyDecision.Deny reason) d1 Hd1run) as (_ & _ & Hreg).
  pose proof (publish_decision_port command (RuntimePolicyDecision.Deny reason) d1) as Hport.
  unfold d'. rewrite Hroute. cbn [fst snd]. set (d2 := (publish_policy_decision _ _ _ _ _ _).1) in *.
  assert (Hnew : exists e', dm_registry d2 !! key = Some e' /\ pe_generation e' = g /\ pe_state e' = RuntimePaneState.Unknown).
  { rewrite Hreg, Hd1reg. apply decision_event_registers; [done..|]. intros e' He'. fold key in He'. congruence. }
  cbn [dm_port dm_registry]. split; [by exists reason|]. split; [cbn; by rewrite Hport|]. split; [exact Hnew|].
  destruct Hnew as (e' & He' & Hge' & _). split.
  - unfold registry_generation_decision, registry_entry_for_command. cbn. rewrite Hg, Hpane. cbn. fold key.
    rewrite He'. cbn. by rewrite Hge', Z.eqb_refl.
  - intros event Hev Hold. eapply registry_event_older; [rewrite Hev; exact He'|]. lia.
Qed.

(** ** The registry over operations *)

Definition registered (d d' : Dm) : Prop :=
  (registry_wf (dm_registry d) -> registry_wf (dm_registry d')) /\ registry_le (dm_registry d) (dm_registry d').

#[local] Instance registered_preorder : PreOrder registered.
Proof.
  split; [by intros d|]. intros d1 d2 d3 [Hwf Hle] [Hwf' Hle']. split; [auto|]. by etrans.
Qed.

#[local] Instance registered_background : Background registered.
Proof. split; [apply _|..]; done. Qed.

Lemma registered_same {A} (op : SM Dm PortError A) : relates (same dm_registry) op -> relates registered op.
Proof. intros Hop d. unfold registered. by rewrite (Hop d). Qed.

Lemma registered_publish event : relates registered (publish_event config event).
Proof.
  assert (Hmod : relates registered
    (dm_modify (fun d => d <| dm_registry := apply_registry_event event (dm_registry d) |>))).
  { intros d. split; [apply registry_event_wf|apply registry_event_le]. }
  pose proof (registered_same _ (append_audit_same dm_registry event _ (fun _ _ => eq_refl))).
  assert (Hbus : forall e, relates registered (dm_modify (fun d => d <| dm_bus := dm_bus d ++ [e] |>))) by (by intros e d).
  unfold publish_event. follow_effects.
Qed.

Lemma registered_store_pending command context reason :
  relates registered (store_pending_approval config clock uuid command context reason).
Proof.
  apply registered_same. unfold store_pending_approval, put_approval, drop_approval. follow_effects.
Qed.

Lemma registered_execute command message : relates registered (execute_command config command message).
Proof. intros d. destruct (execute_only_port command message d) as (p & -> & _). done. Qed.

Lemma registered_resolve resolver id approved :
  relates registered (resolve_approval config clock uuid resolver id approved).
Proof.
  pose proof registered_publish. pose proof registered_store_pending. pose proof registered_execute.
  pose proof (registered_same _ (persist_same dm_registry _ (fun _ _ => eq_refl))).
  assert (Happ : forall f, relates registered (dm_modify (fun d => d <| dm_approvals := f d |>))) by (by intros f d).
  unfold resolve_approval, drop_approval, put_approval, apply_approved, publish_policy_decision, count_rejected,
    count_deferred, count_approval_required. follow_effects.
Qed.

(** No operation loses a pane or takes its generation back, and entries stay
    filed under their ids and say what blocks a pane only while it is blocked. *)
Theorem registry_only_advances command context event d :
  registry_wf (dm_registry d) ->
  let d1 := (route command context d).1 in
  let d2 := (publish_event config event d).1 in
  (registry_wf (dm_registry d1) /\ registry_le (dm_registry d) (dm_registry d1))
  /\ (registry_wf (dm_registry d2) /\ registry_le (dm_registry d) (dm_registry d2)).
Proof.
  intros Hwf d1 d2.
  assert (Hroute : relates registered (route command context)).
  { pose proof registered_publish. pose proof registered_store_pending. pose proof registered_execute.
    pose proof registered_resolve. unfold route_command, apply_decision, publish_policy_decision, count_rejected,
      count_deferred, count_approval_required. follow_effects. }
  destruct (Hroute d) as [Hwf1 Hle1]. destruct (registered_publish event d) as [Hwf2 Hle2].
  split; split; auto.
Qed.
End daemon_proofs.

#[export] Hint Extern 1 (relates _ (dm_get _)) => apply bg_get; apply _ : effects.
#[export] Hint Extern 1 (relates _ (dm_read _)) => apply bg_read; apply _ : effects.
#[export] Hint Extern 1 (relates _ (count _)) => apply bg_count; apply _ : effects.
#[export] Hint Extern 1 (relates _ ensure_running) => apply bg_running; apply _ : effects.
#[export] Hint Extern 1 (relates _ (decide_command _ _ _)) => apply bg_decide; apply _ : effects.
