(* ===== verification/DaemonApprovals.v ===== *)
(** * Pending approvals of the daemon over faults and restarts

    The file of pending approvals is replaced as a whole before an approval
    takes effect.  Whatever fails in between, it holds the approvals that are
    pending, so that a restart finds them again and finds none that was spent. *)

From S2P Require Import Prelude Effects StrLib Chars Terminal Types Kv Ports RuntimeTypes PolicyGate Files Daemon DaemonProofs.

(** ** Reading the entries of a file *)

(** Entries are filed under their ids. *)
Definition keyed (m : gmap string PendingApprovalEntry) : Prop :=
  map_Forall (fun id pending => pa_approval_id pending = id) m.

Definition in_session (session : option string) (m : gmap string PendingApprovalEntry)
    : gmap string PendingApprovalEntry :=
  filter (fun kv => approval_matches_session kv.2 session = true) m.

Lemma load_lookup session l acc id p :
  NoDup (pa_approval_id <$> l) ->
  (foldl (load_entry session) acc l).1 !! id = Some p <->
  (p ∈ l /\ pa_approval_id p = id /\ approval_matches_session p session = true)
  \/ (acc.1 !! id = Some p
      /\ forall q, q ∈ l -> approval_matches_session q session = true -> pa_approval_id q <> id).
Proof.
  revert acc. induction l as [|e l IH]; intros acc Hnd; cbn.
  { split; [right; split; [done|]; intros q Hq; by apply not_elem_of_nil in Hq|].
    intros [[Hin _]|[Hp _]]; [by apply not_elem_of_nil in Hin|done]. }
  apply NoDup_cons in Hnd as [Hnew Hnd]. rewrite (IH _ Hnd). unfold load_entry.
  assert (Hother : forall q, q ∈ l -> pa_approval_id q <> pa_approval_id e).
  { intros q Hq Heq. apply Hnew. rewrite <-Heq. by apply list_elem_of_fmap_2. }
  setoid_rewrite elem_of_cons.
  destruct (approval_matches_session e session) eqn:He; cbn; [rewrite lookup_insert_Some|]; split.
  - intros [(Hin & Hid & Hm)|[[[<- <-]|[Hne Hp]] Hno]]; [left; auto|left; auto|].
    right. split; [done|]. intros q [->|Hq] Hm; [done|auto].
  - intros [([->|Hin] & Hid & Hm)|[Hp Hno]].
    + right. split; [by left|]. intros q Hq _ Hid'. apply (Hother q Hq). congruence.
    + by left.
    + right. split; [|auto]. right. split; [by apply (Hno e); auto|done].
  - intros [(Hin & Hid & Hm)|[Hp Hno]]; [left; auto|right]. split; [done|].
    intros q [->|Hq] Hm; [congruence|auto].
  - intros [([->|Hin] & Hid & Hm)|[Hp Hno]]; [congruence|left; auto|right; auto].
Qed.

Lemma load_keyed session l acc : keyed acc.1 -> keyed (foldl (load_entry session) acc l).1.
Proof.
  revert acc. induction l as [|e l IH]; intros acc Hacc; cbn; [done|]. apply IH. unfold load_entry.
  destruct (approval_matches_session e session); [|done]. by apply map_Forall_insert_2.
Qed.

(** Loaded entries belong to the session. *)
Lemma load_in_session session l acc :
  in_session session acc.1 = acc.1 ->
  in_session session (foldl (load_entry session) acc l).1 = (foldl (load_entry session) acc l).1.
Proof.
  revert acc. induction l as [|e l IH]; intros acc Hacc; cbn; [done|]. apply IH. unfold load_entry.
  destruct (approval_matches_session e session) eqn:He; [|done]. cbn. unfold in_session in *.
  by rewrite map_filter_insert_True, Hacc.
Qed.

Lemma load_ignored session l acc :
  acc.2 <= (foldl (load_entry session) acc l).2
  /\ ((foldl (load_entry session) acc l).2 = acc.2 <->
      forall e, e ∈ l -> approval_matches_session e session = true).
Proof.
  revert acc. induction l as [|e l IH]; intros acc; cbn.
  { split; [done|]. split; [|done]. intros _ e He. by apply not_elem_of_nil in He. }
  destruct (IH (load_entry session acc e)) as [Hle Hiff]. setoid_rewrite elem_of_cons. unfold load_entry in *.
  destruct (approval_matches_session e session) eqn:He; cbn in *.
  - split; [done|]. rewrite Hiff. naive_solver.
  - split; [lia|]. split; [lia|]. intros Hall. specialize (Hall e (or_introl eq_refl)). congruence.
Qed.

(** ** The invariant *)

Section approvals.
Context {ord : IterOrder string} `{PolicyGate} `{RuntimeCommandPort} `{Files} `{!FilesLaws}.
Context `{Json RuntimeEvent} `{Json ApprovalStoreSnapshot} `{!JsonLaws ApprovalStoreSnapshot}.
Context (config : RuntimeDaemonConfig) (clock : nat -> Z) (uuid : nat -> string).
Abbreviation route := (route_command config clock uuid).
Abbreviation Dm := RuntimeDaemon.
Abbreviation session := (dc_approval_store_session_id config).

Definition store_file (d : Dm) : option string :=
  path ← dc_approval_store_path config; fs_files (dm_files d) !! path.

(** The file, if there is one, holds the pending approvals of the session. *)
Definition durable (d : Dm) : Prop :=
  dc_approval_store_path config <> None ->
  exists text store, store_file d = Some text /\ from_slice text = Ok store
    /\ st_schema_version store = APPROVAL_STORE_SCHEMA_VERSION
    /\ (session <> None -> st_session_id store = session)
    /\ (foldl (load_entry session) (∅, 0) (st_approvals store)).1 = in_session session (dm_approvals d).

Definition approval_of (n : nat) : string := "approval-" +:+ uuid n.

(** Ids that are still to be read are not in use. *)
Definition fresh (d : Dm) : Prop := forall n, dm_reads d <= n -> dm_approvals d !! approval_of n = None.

Definition approvals_ok (d : Dm) : Prop := keyed (dm_approvals d) /\ durable d /\ fresh d.

(** Operations that touch neither the approvals nor their file. *)
Definition silent (d d' : Dm) : Prop :=
  dm_approvals d' = dm_approvals d /\ store_file d' = store_file d /\ dm_reads d <= dm_reads d'.

(** The invariant is kept, and approvals that appear have new ids. *)
Definition evolved (d d' : Dm) : Prop :=
  approvals_ok d' /\ dm_reads d <= dm_reads d'
  /\ forall id p, dm_approvals d' !! id = Some p ->
       is_Some (dm_approvals d !! id) \/ exists n, dm_reads d <= n /\ id = approval_of n.

Definition evolves (d d' : Dm) : Prop := approvals_ok d -> evolved d d'.

#[local] Instance silent_preorder : PreOrder silent.
Proof.
  split; [by intros d|]. intros d1 d2 d3 (Ha & Hf & Hr) (Ha' & Hf' & Hr').
  split; [congruence|]. split; [congruence|lia].
Qed.

#[local] Instance evolves_preorder : PreOrder evolves.
Proof.
  split; [intros d Hd; split; [done|]; split; [done|]; eauto|].
  intros d1 d2 d3 H12 H23 Hok1. destruct (H12 Hok1) as (Hok2 & Hr12 & Hid12).
  destruct (H23 Hok2) as (Hok3 & Hr23 & Hid23). split; [done|]. split; [lia|].
  intros id p Hp. destruct (Hid23 id p Hp) as [[q Hq]|(n & Hn & ->)]; [by eauto|].
  right. exists n. split; [lia|done].
Qed.

Lemma silent_evolves d d' : silent d d' -> evolves d d'.
Proof.
  intros (Ha & Hf & Hr) (Hkey & Hdur & Hfresh). split; [|split; [done|rewrite Ha; eauto]].
  split; [by rewrite Ha|]. split.
  - intros Hpath. destruct (Hdur Hpath) as (text & store & Htext & Hstore).
    exists text, store. by rewrite Hf, Ha.
  - intros n Hn. rewrite Ha. apply Hfresh. lia.
Qed.

Lemma relates_silent {A} (op : SM Dm PortError A) : relates silent op -> relates evolves op.
Proof. intros Hop d. apply silent_evolves, Hop. Qed.

#[local] Instance silent_background : Background silent.
Proof. split; [apply _|..]; done. Qed.
#[local] Instance evolves_background : Background evolves.
Proof. split; [apply _|..]; intros; by apply silent_evolves. Qed.

(** ** Files *)

(** An operation on files that leaves the file of approvals alone. *)
Definition harmless {A} (op : SM fs_state FsError A) : Prop :=
  forall path s, dc_approval_store_path config = Some path -> fs_files (op s).1 !! path = fs_files s !! path.

Lemma silent_files {A} (op : SM fs_state FsError A) : harmless op -> relates silent (on_files op).
Proof.
  intros Hop d. unfold on_files. specialize (fun path => Hop path (dm_files d)).
  destruct (op (dm_files d)) as [fs r]. split; [done|]. split; [|done].
  unfold store_file. cbn. destruct (dc_approval_store_path config) as [path|]; [|done]. by apply Hop.
Qed.

Lemma harmless_dir path : harmless (fs_create_dir_all path).
Proof. intros p s _. by rewrite fs_dir_same. Qed.

Lemma harmless_open path : Some path <> dc_approval_store_path config -> harmless (fs_open_append path).
Proof.
  intros Hne p s Hp. destruct (fs_open_append path s) as [s' r] eqn:Hop. cbn.
  destruct (fs_open_law _ _ _ _ Hop) as [->|[_ ->]]; [done|]. rewrite lookup_insert_ne; congruence.
Qed.

Lemma harmless_write_all path text : Some path <> dc_approval_store_path config -> harmless (fs_write_all path text).
Proof.
  intros Hne p s Hp. destruct (fs_write_all path text s) as [s' r] eqn:Hop. cbn.
  destruct (fs_write_all_law _ _ _ _ _ Hop) as (c & -> & _). rewrite lookup_insert_ne; congruence.
Qed.

Lemma harmless_flush path : harmless (fs_flush path).
Proof. intros p s _. by rewrite fs_flush_same. Qed.

Lemma harmless_write path text : Some path <> dc_approval_store_path config -> harmless (fs_write path text).
Proof.
  intros Hne p s Hp. destruct (fs_write path text s) as [s' r] eqn:Hop. cbn.
  assert (Hpp : path <> p) by congruence.
  apply fs_write_law in Hop. destruct r as [[]|e]; [by rewrite Hop, lookup_insert_ne|].
  apply (f_equal (lookup p)) in Hop. by rewrite !lookup_delete_ne in Hop.
Qed.

Lemma tmp_path_ne path : path +:+ ".tmp" <> path.
Proof. intros Heq. apply (f_equal String.length) in Heq. rewrite length_append in Heq. cbn in Heq. lia. Qed.

#[local] Hint Resolve harmless_dir harmless_flush : effects.
#[local] Hint Extern 2 (relates silent (on_files _)) => apply silent_files : effects.

(** The file has the new text, or its old one. *)
Lemma write_atomic_spec path encoded d :
  dc_approval_store_path config = Some path ->
  store_file (write_atomic path encoded d).1
  = match (write_atomic path encoded d).2 with Ok _ => Some encoded | Err _ => store_file d end.
Proof.
  intros Hpath. unfold write_atomic.
  assert (Hdir : relates silent (match path_parent path with
                   | Some parent => io (fs_create_dir_all parent) | None => sm_ret tt end)).
  { destruct (path_parent path) as [parent|]; [|apply relates_ret; apply _].
    apply relates_map_err, silent_files, harmless_dir. }
  unfold sm_bind at 1 3. specialize (Hdir d). destruct (_ d) as [d1 [[]|e]]; cbn in Hdir |- *; [|apply Hdir].
  destruct Hdir as (_ & <- & _). unfold store_file. rewrite Hpath. cbn. unfold sm_bind, io, sm_map_err, on_files.
  pose proof (harmless_write (path +:+ ".tmp") encoded) as Hw.
  specialize (Hw ltac:(rewrite Hpath; intros [= Heq]; by apply tmp_path_ne in Heq) path (dm_files d1) Hpath).
  destruct (fs_write (path +:+ ".tmp") encoded (dm_files d1)) as [s1 [[]|e]] eqn:Hwrite; cbn in Hw |- *; [|exact Hw].
  apply fs_write_law in Hwrite.
  destruct (fs_rename (path +:+ ".tmp") path s1) as [s2 [[]|e]] eqn:Hren; cbn; apply fs_rename_law in Hren.
  - destruct Hren as (c & Hc & ->). rewrite Hwrite, lookup_insert_eq in Hc. injection Hc as <-.
    by rewrite lookup_insert_eq.
  - by rewrite Hren.
Qed.

#[local] Instance reads_preorder : PreOrder (fun d d' : Dm => dm_reads d <= dm_reads d').
Proof. split; [by intros d|]. intros d1 d2 d3. lia. Qed.
#[local] Instance reads_background : Background (fun d d' => dm_reads d <= dm_reads d').
Proof. split; [apply _|..]; done. Qed.
#[local] Instance approvals_background : Background (same dm_approvals).
Proof. split; [apply _|done..]. Qed.

Lemma persist_reads d : dm_reads d <= dm_reads (persist_approval_store config clock d).1.
Proof.
  assert (forall A (op : SM fs_state FsError A), relates (fun d d' => dm_reads d <= dm_reads d') (on_files op)) as Hfs.
  { intros A op d1. unfold on_files. by destruct (op (dm_files d1)). }
  revert d. change (relates (fun d d' => dm_reads d <= dm_reads d') (persist_approval_store config clock)).
  unfold persist_approval_store, approval_registry_snapshot, write_atomic, io. follow_effects.
Qed.

(** The entries that are written are the ones a restart finds. *)
Lemma snapshot_loads m :
  keyed m ->
  (foldl (load_entry session) (∅, 0) (sort_by approval_leb (iter_map m).*2)).1 = in_session session m.
Proof.
  intros Hkey. assert (Hids : pa_approval_id <$> (iter_map m).*2 = (iter_map m).*1).
  { rewrite <-list_fmap_compose. apply list_fmap_ext. intros i [id p] Hi. cbn. apply Hkey.
    apply elem_of_iter_map. by eapply list_elem_of_lookup_2. }
  apply map_eq. intros id. apply option_eq. intros p. rewrite load_lookup.
  2: { rewrite sort_by_perm, Hids. apply NoDup_iter_map_fst. }
  unfold in_session. rewrite sort_by_perm, elem_of_iter_map_snd, map_lookup_filter_Some. cbn. split.
  - intros [((k & Hk) & <- & Hm)|[Hp _]]; [|done]. by rewrite (Hkey _ _ Hk).
  - intros [Hp Hm]. left. split; [by exists id|]. split; [by apply Hkey|done].
Qed.

Lemma persist_spec d :
  keyed (dm_approvals d) ->
  let '(d', r) := persist_approval_store config clock d in
  dm_approvals d' = dm_approvals d /\ dm_reads d <= dm_reads d'
  /\ match r with Ok _ => durable d' | Err _ => store_file d' = store_file d end.
Proof.
  intros Hkey. pose proof (persist_same config clock dm_approvals _ (fun _ _ => eq_refl) d) as Happ.
  pose proof (persist_reads d) as Hreads. unfold same in Happ.
  destruct (persist_approval_store config clock d) as [d' r] eqn:Hrun. cbn in Happ, Hreads.
  split; [done|]. split; [done|]. unfold persist_approval_store in Hrun.
  destruct (dc_approval_store_path config) as [path|] eqn:Hpath.
  2: { injection Hrun as <- <-. intros Hno. by rewrite Hpath in Hno. }
  unfold approval_registry_snapshot, sm_bind, dm_get, dm_read in Hrun. cbn in Hrun.
  set (d1 := d <| dm_reads := _ |> <| dm_reads := _ |>) in Hrun.
  set (store := mkApprovalStoreSnapshot _ _ _ _) in Hrun.
  destruct (to_vec store) as [encoded|err] eqn:Henc; [|by injection Hrun as <- <-].
  pose proof (write_atomic_spec path encoded d1 Hpath) as Hw. rewrite Hrun in Hw. cbn in Hw.
  destruct r as [[]|e]; [|exact Hw]. intros _. exists encoded, store. split; [done|].
  split; [by apply json_roundtrip|]. split; [done|]. split; [done|]. rewrite Happ. by apply snapshot_loads.
Qed.

(** ** Operations *)

(** The audit log is another file than the store, and ids are not repeated. *)
Context (separate : forall path, dc_audit_log_path config = Some path -> dc_approval_store_path config <> Some path).
Context `{!Inj (=) (=) uuid}.

Lemma silent_modify f :
  (forall d, dm_approvals (f d) = dm_approvals d /\ dm_files (f d) = dm_files d /\ dm_reads (f d) = dm_reads d) ->
  relates silent (dm_modify f).
Proof.
  intros Hf d. cbn. destruct (Hf d) as (Ha & Hs & Hr). split; [done|]. split; [|lia].
  unfold store_file. by rewrite Hs.
Qed.

#[local] Hint Extern 1 (relates silent (dm_modify _)) => apply silent_modify; done : effects.

Lemma silent_audit event : relates silent (append_audit_event config event).
Proof.
  unfold append_audit_event, count_audit_error.
  destruct (dc_audit_log_path config) as [path|] eqn:Haudit; [|by apply relates_ret; apply _].
  assert (Hsep : Some path <> dc_approval_store_path config) by (intros Heq; by eapply separate).
  assert (Hopen : relates silent (on_files (fs_open_append path))) by (by apply silent_files, harmless_open).
  assert (Hwrite : forall text, relates silent (on_files (fs_write_all path text))).
  { intros text. by apply silent_files, harmless_write_all. }
  follow_effects.
Qed.

Lemma silent_publish event : relates silent (publish_event config event).
Proof. pose proof (silent_audit event). unfold publish_event. follow_effects. Qed.

Lemma silent_publish_decision command decision :
  relates silent (publish_policy_decision config clock uuid command decision).
Proof. pose proof silent_publish. unfold publish_policy_decision. follow_effects. Qed.

Lemma silent_execute command message : relates silent (execute_command config command message).
Proof.
  intros d. destruct (execute_only_port config command message d) as (p & -> & _). done.
Qed.

Lemma keyed_delete m id : keyed m -> keyed (delete id m).
Proof. intros Hm. by apply map_Forall_delete. Qed.

(** The invariant after the approvals changed, once they are on file or the
    change was undone. *)
Lemma approvals_ok_persisted d d' :
  fresh d -> keyed (dm_approvals d') -> durable d' -> dm_reads d <= dm_reads d' ->
  (forall id p, dm_approvals d' !! id = Some p -> is_Some (dm_approvals d !! id)
     \/ exists n, dm_reads d <= n < dm_reads d' /\ id = approval_of n) ->
  evolved d d'.
Proof.
  intros Hfresh Hkey Hdur Hreads Hnew. split; [|split; [done|]].
  - split; [done|]. split; [done|]. intros n Hn. apply eq_None_not_Some. intros [p Hp].
    destruct (Hnew _ _ Hp) as [[q Hq]|(m & Hm & Heq)].
    + rewrite (Hfresh n) in Hq; [done|lia].
    + unfold approval_of in Heq. apply (inj _) in Heq. apply (inj uuid) in Heq. lia.
  - intros id p Hp. destruct (Hnew _ _ Hp) as [|(n & [Hn _] & ->)]; [by left|]. right. by exists n.
Qed.

Lemma store_pending_evolves command context reason :
  relates evolves (store_pending_approval config clock uuid command context reason).
Proof.
  intros d Hok. pose proof Hok as (Hkey & Hdur & Hfresh). unfold store_pending_approval.
  unfold sm_bind at 1, dm_read at 1. unfold sm_bind at 1, dm_read at 1. cbn [dm_reads].
  set (id := "approval-" +:+ uuid (dm_reads d)). set (entry := mkPendingApprovalEntry _ _ _ _ _).
  unfold put_approval at 1, sm_bind at 1, dm_modify at 1, sm_catch.
  set (d1 := _ <| dm_approvals := _ |>).
  assert (Hreads1 : dm_reads d1 = S (S (dm_reads d))) by done.
  assert (Happ1 : dm_approvals d1 = <[id := entry]> (dm_approvals d)) by done.
  assert (Hfile1 : store_file d1 = store_file d) by done.
  assert (Hkey1 : keyed (dm_approvals d1)) by (rewrite Happ1; by apply map_Forall_insert_2).
  pose proof (persist_spec d1 Hkey1) as Hp.
  destruct (persist_approval_store config clock d1) as [d2 [[]|e]]; destruct Hp as (Happ2 & Hreads2 & Hres).
  - change (evolved d d2). apply approvals_ok_persisted; [done|by rewrite Happ2|done|lia|]. rewrite Happ2, Happ1.
    intros id' p Hid'. apply lookup_insert_Some in Hid' as [[<- _]|[_ Hid']]; [right|left; by exists p].
    exists (dm_reads d). split; [lia|done].
  - apply silent_evolves; [|done]. unfold sm_bind, drop_approval, dm_modify. cbn. split; [cbn|split; [cbn|cbn; lia]].
    + rewrite Happ2, Happ1. apply delete_insert_id. by apply Hfresh.
    + change (store_file d2 = store_file d). by rewrite Hres, Hfile1.
Qed.

(** Taking an approval off the list, up to the file. *)
Lemma drop_persist_spec d id pending d' r :
  approvals_ok d -> dm_approvals d !! id = Some pending ->
  persist_approval_store config clock (d <| dm_approvals := delete id (dm_approvals d) |>) = (d', r) ->
  match r with
  | Ok _ => dm_approvals d' = delete id (dm_approvals d) /\ evolved d d'
  | Err _ => silent d (d' <| dm_approvals := <[id := pending]> (dm_approvals d') |>)
  end.
Proof.
  intros (Hkey & Hdur & Hfresh) Hid Hrun. set (d1 := d <| dm_approvals := _ |>) in Hrun.
  pose proof (persist_spec d1 (keyed_delete _ id Hkey)) as Hp. rewrite Hrun in Hp.
  destruct Hp as (Happ & Hreads & Hres). change (dm_reads d <= dm_reads d') in Hreads.
  change (dm_approvals d' = delete id (dm_approvals d)) in Happ.
  destruct r as [[]|e].
  - split; [done|]. apply approvals_ok_persisted; [done|rewrite Happ; by apply keyed_delete|done|done|].
    intros id' p Hp. left. rewrite Happ in Hp. apply lookup_delete_Some in Hp as [_ Hp]. by exists p.
  - split; [cbn|split; [exact Hres|exact Hreads]]. rewrite Happ, insert_delete_eq. by apply insert_id.
Qed.

Lemma apply_approved_evolves resolver id pending context decision :
  relates evolves (apply_approved config clock uuid resolver id pending context decision).
Proof.
  pose proof (fun c m => relates_silent _ (silent_execute c m)). pose proof store_pending_evolves.
  unfold apply_approved, count_rejected, count_deferred, count_approval_required. follow_effects.
Qed.

Lemma apply_decision_evolves command context decision :
  relates evolves (apply_decision config clock uuid command context decision).
Proof.
  pose proof (fun c m => relates_silent _ (silent_execute c m)). pose proof store_pending_evolves.
  unfold apply_decision, count_rejected, count_deferred, count_approval_required. follow_effects.
Qed.

Lemma publish_decision_evolves command decision :
  relates evolves (publish_policy_decision config clock uuid command decision).
Proof. apply relates_silent, silent_publish_decision. Qed.

(** Resolving an approval that is pending: put back, with nothing executed, or
    taken off the list for good. *)
Lemma resolve_spec resolver id approved pending d :
  approvals_ok d -> dm_approvals d !! id = Some pending ->
  let d' := (resolve_approval config clock uuid resolver id approved d).1 in
  silent d d' /\ dm_port d' = dm_port d
  \/ exists d0, dm_approvals d0 = delete id (dm_approvals d) /\ evolved d d0 /\ evolves d0 d'.
Proof.
  intros Hok Hid d'. name_goal d' Q. unfold resolve_approval, sm_bind at 1, dm_get at 1. rewrite Hid.
  unfold sm_bind at 1, drop_approval, dm_modify, sm_catch.
  pose proof (persist_same config clock dm_port
    ltac:(split; [apply _|done..]) (fun _ _ => eq_refl) (d <| dm_approvals := delete id (dm_approvals d) |>)) as Hport.
  destruct (persist_approval_store config clock _) as [d0 r] eqn:Hrun.
  pose proof (drop_persist_spec d id pending d0 r Hok Hid Hrun) as Hspec.
  destruct r as [[]|e]; cbn in Hport.
  - right. exists d0. destruct Hspec as [Happ Hev]. split; [done|]. split; [done|].
    pose proof publish_decision_evolves. pose proof apply_approved_evolves.
    match goal with |- evolves _ (?op d0).1 => cut (relates evolves op) end; [by intros Hop|].
    unfold count_rejected. follow_effects.
  - left. split; [exact Hspec|exact Hport].
Qed.

Lemma resolve_evolves resolver id approved : relates evolves (resolve_approval config clock uuid resolver id approved).
Proof.
  intros d Hok. destruct (dm_approvals d !! id) as [pending|] eqn:Hid.
  - destruct (resolve_spec resolver id approved pending d Hok Hid) as [[Hs _]|(d0 & _ & Hev & Hev')].
    + by apply silent_evolves.
    + revert Hok. change (evolves d (resolve_approval config clock uuid resolver id approved d).1).
      transitivity d0; [by intros _|done].
  - unfold resolve_approval, sm_bind at 1, dm_get. rewrite Hid. by apply (silent_evolves d).
Qed.

Lemma route_evolves command context : relates evolves (route command context).
Proof.
  pose proof publish_decision_evolves. pose proof resolve_evolves. pose proof apply_decision_evolves.
  unfold route_command. follow_effects.
Qed.

(** Routing the resolution of an approval that is pending, or of an unknown one. *)
Lemma route_resolve command context id approved pending d :
  approvals_ok d -> dm_stopped d = false ->
  cm_kind command = RuntimeCommandKind.ResolveApproval id approved -> dm_approvals d !! id = Some pending ->
  let d' := (route command context d).1 in
  dm_approvals d' !! id = Some pending /\ dm_port d' = dm_port d
  \/ exists d0, dm_approvals d0 = delete id (dm_approvals d) /\ evolved d d0 /\ evolves d0 d'.
Proof.
  intros Hok Hrun Hkind Hid d'. name_goal d' Q. unfold route_command, sm_bind at 1, ensure_running.
  rewrite Hrun, Hkind. unfold sm_bind at 1, count, dm_modify. set (d1 := d <| dm_counters := _ |>).
  unfold sm_bind at 1. pose proof (silent_publish_decision command RuntimePolicyDecision.Allow d1) as Hsil.
  pose proof (publish_decision_port config clock uuid command RuntimePolicyDecision.Allow d1) as Hport.
  destruct (publish_decision_running config clock uuid command RuntimePolicyDecision.Allow d1 Hrun) as (Hres & _).
  destruct (publish_policy_decision _ _ _ _ _ d1) as [d2 r]. cbn in Hsil, Hport, Hres. subst r.
  assert (Hsil2 : silent d d2) by exact Hsil. destruct (silent_evolves _ _ Hsil2 Hok) as (Hok2 & Hr2 & _).
  pose proof Hsil2 as (Happ2 & _ & _).
  destruct (resolve_spec (cm_command_id command) id approved pending d2 Hok2) as [[Hs Hp]|(d0 & Happ0 & Hev & Hev')].
  - by rewrite Happ2.
  - left. destruct Hs as (Happ & _). rewrite Happ, Happ2, Hp. by split.
  - right. exists d0. rewrite Happ0, Happ2. split; [done|]. split; [|done].
    destruct Hev as (Hok0 & Hr0 & Hid0). split; [done|]. split; [lia|]. intros id' p Hp.
    destruct (Hid0 id' p Hp) as [Hq|(n & Hn & ->)]; [rewrite Happ2 in Hq; by left|]. right. exists n. split; [lia|done].
Qed.

Lemma resolve_unknown command context id approved d :
  cm_kind command = RuntimeCommandKind.ResolveApproval id approved -> dm_approvals d !! id = None ->
  dm_port (route command context d).1 = dm_port d.
Proof.
  intros Hkind Hid. unfold route_command, sm_bind at 1, ensure_running.
  rewrite Hkind. destruct (dm_stopped d); [done|]. unfold sm_bind at 1, count, dm_modify.
  set (d1 := d <| dm_counters := _ |>). unfold sm_bind at 1.
  pose proof (silent_publish_decision command RuntimePolicyDecision.Allow d1) as (Happ & _).
  pose proof (publish_decision_port config clock uuid command RuntimePolicyDecision.Allow d1) as Hport. unfold same in Hport.
  destruct (publish_policy_decision _ _ _ _ _ d1) as [d2 [[]|e]]; cbn [fst] in *; [|exact Hport].
  unfold resolve_approval, sm_bind at 1, dm_get. rewrite Happ.
  change (dm_approvals d1) with (dm_approvals d). rewrite Hid. exact Hport.
Qed.

(** ** Restarting *)

(** Reading a file that holds the approvals finds those of the session. *)
Lemma restart_loads gate d path s text :
  approvals_ok d -> dc_approval_store_path config = Some path ->
  fs_read_to_string path (dm_files d) = (s, Ok text) ->
  let '(d', r) := new_with_persisted_approvals config clock gate (dm_port d) (dm_files d) (dm_reads d) in
  dm_approvals d' = in_session session (dm_approvals d)
  /\ forall report, r = Ok report -> lr_loaded report = size (dm_approvals d').
Proof.
  intros (Hkey & Hdur & Hfresh) Hpath Hread. unfold new_with_persisted_approvals, load_persisted_approvals.
  destruct Hdur as (text' & store & Htext & Hstore & Hver & Hses & Hfold); [by rewrite Hpath|].
  unfold store_file in Htext. rewrite Hpath in Htext. cbn in Htext. rewrite Hpath.
  pose proof (fs_read_law _ _ _ _ Hread) as Hc. rewrite Htext in Hc. injection Hc as ->.
  unfold sm_catch, on_files. cbn [RuntimeDaemon_new dm_files]. rewrite Hread, Hstore, Hver, Z.eqb_refl. cbn [negb].
  rewrite bool_decide_false by naive_solver.
  destruct (foldl (load_entry session) (∅, 0) (st_approvals store)) as [m stale]. cbn in Hfold. subst m.
  unfold sm_bind, dm_modify. destruct (0 <? stale)%nat; [|cbn; split; [done|]; by intros report [= <-]].
  match goal with |- context [persist_approval_store config clock ?x] => set (d1 := x) end.
  pose proof (persist_same config clock dm_approvals _ (fun _ _ => eq_refl) d1) as Happ. unfold same in Happ.
  destruct (persist_approval_store config clock d1) as [d2 [[]|e]]; cbn in Happ |- *; rewrite Happ;
    (split; [done|]); by intros report [= <-].
Qed.

(** Persisting as the last step of loading. *)
Lemma persist_finishes {A} d d' (a b : A) :
  keyed (dm_approvals d) ->
  (let! _ := persist_approval_store config clock in sm_ret a) d = (d', Ok b) ->
  keyed (dm_approvals d') /\ durable d'.
Proof.
  intros Hkey (d1 & [] & Hrun & Hret)%sm_bind_Ok. injection Hret as <- _.
  pose proof (persist_spec d Hkey) as Hp. rewrite Hrun in Hp. destruct Hp as (Happ & _ & Hdur).
  by rewrite Happ.
Qed.

(** A daemon that started has its approvals on file. *)
Lemma started_durable gate port files reads d report :
  new_with_persisted_approvals config clock gate port files reads = (d, Ok report) ->
  keyed (dm_approvals d) /\ durable d.
Proof.
  unfold new_with_persisted_approvals, load_persisted_approvals. intros Hload.
  destruct (dc_approval_store_path config) as [path|] eqn:Hpath.
  2: { injection Hload as <- _. split; [done|]. intros Hno. by rewrite Hpath in Hno. }
  unfold sm_catch, on_files in Hload. cbn [RuntimeDaemon_new dm_files] in Hload.
  destruct (fs_read_to_string path files) as [fs [text|[|e]]] eqn:Hread; [|by eapply persist_finishes in Hload|done].
  destruct (from_slice text) as [store|e] eqn:Hstore; [|done].
  destruct (Z.eqb_spec (st_schema_version store) APPROVAL_STORE_SCHEMA_VERSION) as [Hver|]; [cbn [negb] in Hload|done].
  case_bool_decide as Hses.
  { unfold sm_bind at 1, dm_modify in Hload. by eapply persist_finishes in Hload. }
  destruct (foldl (load_entry session) (∅, 0) (st_approvals store)) as [m stale] eqn:Hfold.
  assert (Hm : keyed m).
  { change m with (m, stale).1. rewrite <-Hfold. by apply load_keyed. }
  unfold sm_bind at 1, dm_modify in Hload.
  destruct (Nat.ltb_spec 0 stale); [by eapply persist_finishes in Hload|].
  injection Hload as <- _. split; [done|]. intros _. exists text, store.
  assert (Hfile : fs_files fs !! path = Some text).
  { pose proof (fs_read_same path files) as Hsame. rewrite Hread in Hsame. cbn in Hsame. rewrite Hsame.
    by eapply fs_read_law. }
  unfold store_file. rewrite Hpath. split; [done|]. split; [done|]. split; [done|]. split.
  { intros Hs. destruct (decide (st_session_id store = session)); [done|]. by destruct Hses. }
  rewrite Hfold. cbn. change m with (m, stale).1. rewrite <-Hfold. symmetry. by apply load_in_session.
Qed.

Lemma load_reads gate port files reads :
  reads <= dm_reads (new_with_persisted_approvals config clock gate port files reads).1.
Proof.
  enough (Hrel : relates (fun d d' => dm_reads d <= dm_reads d') (load_persisted_approvals config clock)).
  { specialize (Hrel (RuntimeDaemon_new gate port files (S reads))). cbn in Hrel. unfold new_with_persisted_approvals. lia. }
  assert (forall A (op : SM fs_state FsError A), relates (fun d d' => dm_reads d <= dm_reads d') (on_files op)) as Hfs.
  { intros A op d1. unfold on_files. by destruct (op (dm_files d1)). }
  assert (Hp : relates (fun d d' => dm_reads d <= dm_reads d') (persist_approval_store config clock)) by exact persist_reads.
  assert (Hm : forall m, relates (fun d d' => dm_reads d <= dm_reads d') (dm_modify (fun d => d <| dm_approvals := m |>))).
  { by intros m d. }
  unfold load_persisted_approvals. follow_effects.
Qed.

(** ** Runs *)

Inductive dm_step (d : Dm) : Dm -> Prop :=
| step_route command context : dm_step d (route command context d).1
| step_publish event : dm_step d (publish_event config event d).1
| step_shutdown : dm_step d (daemon_shutdown d)
| step_restart gate d' report :
    new_with_persisted_approvals config clock gate (dm_port d) (dm_files d) (dm_reads d) = (d', Ok report) ->
    dm_step d d'.

(** A daemon that has started, with the ids of its approvals used up. *)
Definition started (d : Dm) : Prop :=
  fresh d /\ exists gate port files reads report,
    new_with_persisted_approvals config clock gate port files reads = (d, Ok report).

Lemma restart_evolves gate d d' report :
  new_with_persisted_approvals config clock gate (dm_port d) (dm_files d) (dm_reads d) = (d', Ok report) ->
  evolves d d'.
Proof.
  intros Hnew Hok. destruct (started_durable _ _ _ _ _ _ Hnew) as [Hkey Hdur].
  pose proof (load_reads gate (dm_port d) (dm_files d) (dm_reads d)) as Hreads. rewrite Hnew in Hreads. cbn in Hreads.
  apply approvals_ok_persisted; [apply Hok|done..|]. intros id p Hp. left.
  destruct (dc_approval_store_path config) as [path|] eqn:Hpath.
  - destruct (fs_read_to_string path (dm_files d)) as [s [text|e]] eqn:Hread.
    + pose proof (restart_loads gate d path s text Hok Hpath Hread) as Hload. rewrite Hnew in Hload.
      destruct Hload as [Happ _]. rewrite Happ in Hp. apply map_lookup_filter_Some in Hp as [Hp _]. by exists p.
    + destruct Hok as (_ & Hd & _). destruct Hd as (text & _ & Htext & _); [by rewrite Hpath|].
      unfold store_file in Htext. rewrite Hpath in Htext. cbn in Htext.
      unfold new_with_persisted_approvals, load_persisted_approvals, sm_catch, on_files in Hnew.
      rewrite Hpath in Hnew. cbn [RuntimeDaemon_new dm_files] in Hnew. rewrite Hread in Hnew.
      destruct e as [|e]; [|done]. apply fs_read_missing in Hread. congruence.
  - unfold new_with_persisted_approvals, load_persisted_approvals in Hnew. rewrite Hpath in Hnew.
    injection Hnew as <- _. cbn in Hp. by rewrite lookup_empty in Hp.
Qed.

Lemma step_evolves d d' : dm_step d d' -> evolves d d'.
Proof.
  intros [command context|event| |gate d2 report Hnew].
  - apply route_evolves.
  - by apply silent_evolves, silent_publish.
  - by apply silent_evolves.
  - by eapply restart_evolves.
Qed.

Lemma steps_evolve d d' : rtc dm_step d d' -> evolves d d'.
Proof. induction 1; [done|]. etrans; [by apply step_evolves|done]. Qed.

Lemma started_ok d d' : started d -> rtc dm_step d d' -> approvals_ok d'.
Proof.
  intros (Hfresh & gate & port & files & reads & report & Hnew) Hsteps. apply (steps_evolve _ _ Hsteps).
  destruct (started_durable _ _ _ _ _ _ Hnew). by split_and!.
Qed.

(** C28: the approvals of the session that were pending survive: after any run of
    commands, events and restarts in which writes may fail at any point, a
    restart that can read the file has exactly those approvals, with their
    commands and contexts. *)
Theorem approvals_survive_restart d0 d gate path s text :
  started d0 -> rtc dm_step d0 d -> dc_approval_store_path config = Some path ->
  fs_read_to_string path (dm_files d) = (s, Ok text) ->
  let '(d', r) := new_with_persisted_approvals config clock gate (dm_port d) (dm_files d) (dm_reads d) in
  dm_approvals d' = in_session session (dm_approvals d)
  /\ forall report, r = Ok report -> lr_loaded report = size (dm_approvals d').
Proof. intros Hstart Hsteps. apply restart_loads. by eapply started_ok. Qed.

(** C26: an approval is spent once.  Routing its resolution either leaves it
    pending, because the file could not be written, and executes nothing; or it
    is gone for good: over any later commands, events, shutdowns and restarts it
    is never pending again, and resolving it executes nothing. *)
Theorem approval_spent_once d0 d command context id approved pending :
  started d0 -> rtc dm_step d0 d -> dm_stopped d = false ->
  cm_kind command = RuntimeCommandKind.ResolveApproval id approved -> dm_approvals d !! id = Some pending ->
  let d1 := (route command context d).1 in
  dm_approvals d1 !! id = Some pending /\ dm_port d1 = dm_port d
  \/ forall d2, rtc dm_step d1 d2 ->
       dm_approvals d2 !! id = None
       /\ forall command' context' approved', cm_kind command' = RuntimeCommandKind.ResolveApproval id approved' ->
            dm_port (route command' context' d2).1 = dm_port d2.
Proof.
  intros Hstart Hsteps Hrun Hkind Hid. pose proof (started_ok _ _ Hstart Hsteps) as Hok.
  destruct (route_resolve command context id approved pending d Hok Hrun Hkind Hid)
    as [Hback|(dx & Happ & Hev & Hev')]; [by left|right].
  intros d2 Hsteps2. assert (Hgone : dm_approvals d2 !! id = None).
  { destruct Hev as (Hokx & Hreadsx & _). pose proof (steps_evolve _ _ Hsteps2) as Hlater.
    destruct (transitivity Hev' Hlater Hokx) as (_ & _ & Hnew).
    apply eq_None_not_Some. intros [p Hp]. destruct (Hnew _ _ Hp) as [[q Hq]|(n & Hn & ->)].
    - by rewrite Happ, lookup_delete_eq in Hq.
    - destruct Hok as (_ & _ & Hfresh). rewrite (Hfresh n) in Hid; [done|lia]. }
  split; [done|]. intros command' context' approved' Hkind'. by apply (resolve_unknown command' context' id approved').
Qed.
End approvals.
