(* ===== verification/DaemonRuns.v ===== *)
(** * A run of the daemon

    The daemon over files in memory, the basic gate and a port that records the
    commands it executes: a prompt that needs an approval, the pane's death, the
    approval and a restart. *)

From S2P Require Import Prelude Effects StrLib Chars Terminal Types Kv Ports RuntimeTypes PolicyGate Files Daemon DaemonProofs DaemonApprovals.

Module DaemonSample.

#[local] Instance order : IterOrder string := canonical_order string.
#[local] Existing Instance MemFiles.mem_fs.
#[local] Existing Instance MemFiles.mem_laws.
#[local] Instance gate : PolicyGate := BasicPolicyGate RuntimePolicyConfig_default.

Definition the_gate : pg_state := tt.

(** A port that records the ids of the commands it executes. *)
#[local] Instance recorder : RuntimeCommandPort := {|
  cp_state := list string;
  cp_execute := fun command log =>
    (log ++ [cm_command_id command],
     Ok (mkRuntimeCommandResult (cm_command_id command) RuntimeCommandStatus.Applied None))
|}.

(** Events are written as a fixed text, which nothing reads. *)
#[local] Instance event_json : Json RuntimeEvent := {|
  to_vec := fun _ => Ok "event"; from_slice := fun _ => Err "not read"
|}.

Definition config : RuntimeDaemonConfig :=
  mkRuntimeDaemonConfig true true (Some "log/audit.jsonl") (Some "state/approvals.json") (Some "s").
Definition clock (n : nat) : Z := 7.
Definition uuid (n : nat) : string := "u" +:+ pretty n.

#[local] Instance uuid_inj : Inj (=) (=) uuid.
Proof. intros a b Heq. unfold uuid in Heq. by apply (inj _), (inj _) in Heq. Qed.

Definition target : RuntimeCommandTarget := mkRuntimeCommandTarget "s" (Some "p") (Some 1%Z).
Definition prompt : RuntimeCommand :=
  mkRuntimeCommand "prompt-1" target 7
    (RuntimeCommandKind.SendPrompt "q" "run the tests" None PromptDeliveryMode.Enqueue).
Definition resolution : RuntimeCommand :=
  mkRuntimeCommand "resolve-1" (mkRuntimeCommandTarget "s" None None) 7
    (RuntimeCommandKind.ResolveApproval "approval-u5" true).
Definition needs_approval : RuntimePolicyContext :=
  RuntimePolicyContext_default <| pc_approval_required := true |>.

(** The prompt as it waits: the pane was ready when it was requested. *)
Definition waiting : PendingApprovalEntry :=
  mkPendingApprovalEntry "approval-u5" 7 "operation requires explicit approval" prompt
    (needs_approval <| pc_pane_state := Some RuntimePaneState.Ready |>).

Definition snapshot (approvals : list PendingApprovalEntry) : ApprovalStoreSnapshot :=
  mkApprovalStoreSnapshot APPROVAL_STORE_SCHEMA_VERSION (Some "s") 7 approvals.

(** A codec of the two stores that the run writes. *)
#[local] Instance store_json : Json ApprovalStoreSnapshot := {|
  to_vec := fun store =>
    if decide (store = snapshot []) then Ok "[]"
    else if decide (store = snapshot [waiting]) then Ok "[prompt-1]" else Err "other store";
  from_slice := fun text =>
    if String.eqb text "[]" then Ok (snapshot [])
    else if String.eqb text "[prompt-1]" then Ok (snapshot [waiting]) else Err "other text"
|}.

#[local] Instance store_json_laws : JsonLaws ApprovalStoreSnapshot.
Proof.
  split. intros store text. cbn. destruct (decide _) as [->|_]; [by intros [= <-]|].
  destruct (decide _) as [->|_]; [by intros [= <-]|done].
Qed.

Abbreviation route := (route_command config clock uuid).

Definition of_pane (kind : RuntimeEventKind) : RuntimeEvent :=
  mkRuntimeEvent (RuntimeEventMeta_new "s" "p" 1 RuntimeSource.EmbeddedTui 7) kind.
Definition spawn : RuntimeEvent := of_pane (RuntimeEventKind.PaneSpawned RuntimePaneKind.Worker None).
Definition exit : RuntimeEvent := of_pane (RuntimeEventKind.PaneExited (Some 1%Z) None).

Definition files (credit : option nat) : fs_state := MemFiles.mkMem ∅ credit.
Definition start (credit : option nat) : RuntimeDaemon :=
  (new_with_persisted_approvals config clock the_gate [] (files credit) 0).1.
Definition spawned (credit : option nat) : RuntimeDaemon := (publish_event config spawn (start credit)).1.
Definition asked (credit : option nat) : RuntimeDaemon := (route prompt needs_approval (spawned credit)).1.
Definition died (credit : option nat) : RuntimeDaemon := (publish_event config exit (asked credit)).1.
Definition approved (credit : option nat) : RuntimeDaemon :=
  (route resolution RuntimePolicyContext_default (died credit)).1.

(** The prompt is executed although its pane died while it waited: the gate is
    asked with the state that the pane had when the prompt was requested.  The
    same prompt without an approval is refused. *)
Example approved_prompt_reaches_dead_pane :
  pe_state <$> (dm_registry (died None) !! ("s", "p")) = Some RuntimePaneState.Dead
  /\ dm_port (approved None) = ["prompt-1"]
  /\ dm_port (route prompt RuntimePolicyContext_default (died None)).1 = [].
Proof. vm_compute. done. Qed.

Lemma separate path : dc_audit_log_path config = Some path -> dc_approval_store_path config <> Some path.
Proof. cbn. by intros [= <-]. Qed.

Lemma started_start : started config clock uuid (start None).
Proof.
  split; [by intros n Hn|]. exists the_gate, [], (files None), 0, (mkApprovalStoreLoadReport 0 0).
  assert (Hok : (new_with_persisted_approvals config clock the_gate [] (files None) 0).2
                = Ok (mkApprovalStoreLoadReport 0 0)) by (vm_compute; reflexivity).
  unfold start. rewrite <-Hok. apply surjective_pairing.
Qed.

Lemma run_died : rtc (dm_step config clock uuid) (start None) (died None).
Proof.
  eapply rtc_l; [exact (step_publish config clock uuid (start None) spawn)|].
  eapply rtc_l; [exact (step_route config clock uuid (spawned None) prompt needs_approval)|].
  apply rtc_once. exact (step_publish config clock uuid (asked None) exit).
Qed.

(** The approval is spent: resolving it again, after a restart, executes nothing. *)
Definition restarted : RuntimeDaemon :=
  (new_with_persisted_approvals config clock the_gate (dm_port (approved None)) (dm_files (approved None))
     (dm_reads (approved None))).1.

Lemma run_restarted : rtc (dm_step config clock uuid) (approved None) restarted.
Proof.
  apply rtc_once, (step_restart config clock uuid _ the_gate restarted (mkApprovalStoreLoadReport 0 0)).
  assert (Hok : (new_with_persisted_approvals config clock the_gate (dm_port (approved None)) (dm_files (approved None))
                   (dm_reads (approved None))).2 = Ok (mkApprovalStoreLoadReport 0 0)) by (vm_compute; reflexivity).
  unfold restarted. rewrite <-Hok. apply surjective_pairing.
Qed.

Lemma approval_spent_once_witness :
  dm_approvals (died None) !! "approval-u5" = Some waiting
  /\ dm_approvals restarted !! "approval-u5" = None
  /\ dm_port (route resolution RuntimePolicyContext_default restarted).1 = dm_port restarted.
Proof.
  assert (Hid : dm_approvals (died None) !! "approval-u5" = Some waiting) by (vm_compute; reflexivity).
  assert (Hgone : dm_approvals (approved None) !! "approval-u5" = None) by (vm_compute; reflexivity).
  split; [exact Hid|].
  destruct (approval_spent_once config clock uuid separate (start None) (died None) resolution
    RuntimePolicyContext_default "approval-u5" true waiting started_start run_died eq_refl eq_refl Hid)
    as [[Hback _]|Hspent].
  - change ((route resolution RuntimePolicyContext_default (died None)).1) with (approved None) in Hback. congruence.
  - destruct (Hspent restarted run_restarted) as [Hnone Hport]. split; [exact Hnone|].
    exact (Hport resolution RuntimePolicyContext_default true eq_refl).
Defined.

(** The approval that waits is found again. *)
Lemma approvals_survive_restart_witness :
  dm_approvals (died None) !! "approval-u5" = Some waiting
  /\ dm_approvals (new_with_persisted_approvals config clock the_gate (dm_port (died None)) (dm_files (died None))
       (dm_reads (died None))).1 = in_session (Some "s") (dm_approvals (died None)).
Proof.
  split; [vm_compute; reflexivity|].
  assert (Hread : fs_read_to_string "state/approvals.json" (dm_files (died None))
                  = (dm_files (died None), Ok "[prompt-1]")).
  { assert (Hfile : MemFiles.mem_files (dm_files (died None)) !! "state/approvals.json" = Some "[prompt-1]")
      by (vm_compute; reflexivity).
    cbn [fs_read_to_string MemFiles.mem_fs]. by rewrite Hfile. }
  pose proof (approvals_survive_restart config clock uuid separate (start None) (died None) the_gate
    "state/approvals.json" _ _ started_start run_died eq_refl Hread) as Hload.
  destruct (new_with_persisted_approvals config clock the_gate (dm_port (died None)) (dm_files (died None))
       (dm_reads (died None))) as [d r]. exact (proj1 Hload).
Defined.

(** A refused command for generation 2 of the pane, which is at generation 1. *)
Definition later : RuntimeCommand :=
  mkRuntimeCommand "prompt-2" (mkRuntimeCommandTarget "s" (Some "p") (Some 2%Z)) 7 (cm_kind prompt).

Lemma denied_command_takes_over_pane_witness :
  let d' := (route later RuntimePolicyContext_default (spawned None)).1 in
  pe_generation <$> dm_registry (spawned None) !! ("s", "p") = Some 1%Z
  /\ dm_port d' = [] /\ registry_generation_decision later d' = None
  /\ apply_registry_event exit (dm_registry d') = dm_registry d'.
Proof.
  cbv zeta. split; [vm_compute; reflexivity|].
  destruct (dm_registry (spawned None) !! ("s", "p")) as [entry|] eqn:He; [|by vm_compute in He].
  assert (Hgen : (pe_generation entry < 2)%Z).
  { assert (Hg : pe_generation <$> dm_registry (spawned None) !! ("s", "p") = Some 1%Z) by (vm_compute; reflexivity).
    rewrite He in Hg. injection Hg as ->. lia. }
  destruct (denied_command_takes_over_pane config clock uuid later RuntimePolicyContext_default "p" 2 entry
    (spawned None) eq_refl ltac:(done) eq_refl eq_refl He Hgen) as (_ & Hport & _ & Hnone & Hold).
  split; [rewrite Hport; reflexivity|]. split; [exact Hnone|]. apply Hold; [reflexivity|cbn; lia].
Defined.

Lemma registry_only_advances_witness :
  let d := (route prompt needs_approval (spawned None)).1 in
  registry_wf (dm_registry d) /\ registry_le (dm_registry (spawned None)) (dm_registry d).
Proof.
  assert (Hwf : registry_wf (dm_registry (spawned None))).
  { change (registry_wf (apply_registry_event spawn ∅)). apply registry_event_wf. done. }
  exact (proj1 (registry_only_advances config clock uuid prompt needs_approval spawn (spawned None) Hwf)).
Defined.
End DaemonSample.
