(* ===== verification/DaemonInbox.v ===== *)
(** * The audit log and the command inbox of the daemon (crate brehon-daemon)

    Published events are appended to a log of one JSON line each, which can be
    read back and replayed.  Operators leave commands as files in a directory;
    a pass routes each of them and leaves a file with its result. *)

From Stdlib Require Import Ascii.
From S2P Require Import Prelude Effects StrLib Chars Terminal Types Kv Ports RuntimeTypes PolicyGate Files Daemon DaemonProofs DaemonRuns.

Record RuntimeCommandInboxRequest := mkRuntimeCommandInboxRequest {
  rq_request_id : string;
  rq_created_at_ms : Z;
  rq_command : RuntimeCommand;
  rq_context : RuntimePolicyContext
}.

Record RuntimeCommandInboxResult := mkRuntimeCommandInboxResult {
  rs_request_id : string;
  rs_completed_at_ms : Z;
  rs_result : option RuntimeCommandResult;
  rs_error : option string
}.

(** ** Names of files *)

Definition safe_file_component (value : string) : string :=
  let sanitized := of_chars ((fun ch =>
    if is_ascii_alphanumeric ch || String.eqb ch "-" || String.eqb ch "_" then ch else "_") <$> chars value) in
  if String.eqb sanitized "" then "request" else sanitized.

(** [Path::join] with a directory that does not end in a separator *)
Definition path_join (dir name : string) : string := dir +:+ "/" +:+ name.

Definition command_inbox_result_path (results_dir request_id : string) : string :=
  path_join results_dir (safe_file_component request_id +:+ ".json").

(** [Path::file_stem] and [Path::extension] of a file's name: split at the last
    dot, unless that is its first character. *)
Definition stem_extension (name : string) : string * option string :=
  match reverse (split_on "."%char name) with
  | ext :: ((_ :: _) as before) =>
      let stem := join "." (reverse before) in
      if String.eqb stem "" then (name, None) else (stem, Some ext)
  | _ => (name, None)
  end.

Definition command_inbox_request_id_error `{Fmt} (request_id : string) : option string :=
  if String.eqb request_id "" then Some "command request_id must not be empty"
  else if (MAX_COMMAND_INBOX_REQUEST_ID_LEN <? String.length request_id)%nat then
    Some ("command request_id is too long (" +:+ pretty (String.length request_id) +:+ " bytes, max "
          +:+ pretty MAX_COMMAND_INBOX_REQUEST_ID_LEN +:+ ")")
  else if negb (String.eqb request_id (safe_file_component request_id)) then
    Some ("command request_id " +:+ debug_str request_id
          +:+ " contains unsupported file-name characters; use ASCII letters, digits, '-', or '_'")
  else None.

Section inbox.
Context {ord : IterOrder string} `{PolicyGate} `{RuntimeCommandPort} `{Files}.
Context `{Json RuntimeEvent} `{Json ApprovalStoreSnapshot}.
Context `{Json RuntimeCommandInboxRequest} `{Json RuntimeCommandInboxResult} `{Fmt}.
Context (config : RuntimeDaemonConfig) (clock : nat -> Z) (uuid : nat -> string).
Abbreviation Op A := (SM RuntimeDaemon PortError A).

(** ** The audit log *)

(** The loop over the lines, [idx] of which were read before. *)
Fixpoint decode_lines (path : string) (idx : nat) (lines : list string) : Result (list RuntimeEvent) PortError :=
  match lines with
  | [] => Ok []
  | line :: lines =>
      if String.eqb (trim line) "" then decode_lines path (S idx) lines
      else match from_slice (A := RuntimeEvent) line with
      | Err err => Err (PortError.Runtime ("failed to decode runtime audit log " +:+ path +:+ " line "
                          +:+ pretty (S idx) +:+ ": " +:+ err))
      | Ok event =>
          match decode_lines path (S idx) lines with
          | Ok events => Ok (event :: events)
          | Err err => Err err
          end
      end
  end.

Definition read_audit_log (path : string) : Op (list RuntimeEvent) :=
  sm_catch (on_files (fs_read_to_string path))
    (fun contents => sm_lift (decode_lines path 0 (str_lines contents)))
    (fun err =>
      match err with
      | FsError.NotFound => sm_ret []
      | FsError.Other text => sm_lift (Err (PortError.Runtime
          ("failed to read runtime audit log " +:+ path +:+ ": " +:+ text)))
      end).

(** [RuntimeEventSink::publish_batch] *)
Definition publish_batch (events : list RuntimeEvent) : Op unit := sm_for (publish_event config) events.

(** [replay_audit_log] into the daemon. *)
Definition replay_audit_log (path : string) : Op nat :=
  let! events := read_audit_log path in
  let! _ := publish_batch events in
  sm_ret (length events).

(** ** The inbox *)

Definition command_inbox_session_error (request : RuntimeCommandInboxRequest) : option string :=
  expected ← dc_approval_store_session_id config;
  let actual := ct_session_id (cm_target (rq_command request)) in
  if String.eqb actual expected then None
  else Some ("stale command request targets session '" +:+ actual +:+ "', but active daemon session is '"
             +:+ expected +:+ "'").

Definition command_inbox_result_exists (path : string) : Op bool :=
  sm_catch (on_files (fs_metadata path))
    (fun is_file =>
      if is_file then sm_ret true
      else sm_lift (Err (PortError.Runtime ("command inbox result path is not a file: " +:+ path))))
    (fun err =>
      match err with
      | FsError.NotFound => sm_ret false
      | FsError.Other text => sm_lift (Err (PortError.Runtime
          ("failed to inspect command inbox result at " +:+ path +:+ ": " +:+ text)))
      end).

Definition remove_command_inbox_file (path : string) : Op unit :=
  sm_catch (on_files (fs_remove_file path))
    (fun _ => sm_ret tt)
    (fun err =>
      match err with
      | FsError.NotFound => sm_ret tt
      | FsError.Other text => sm_lift (Err (PortError.Runtime
          ("failed to remove command inbox request at " +:+ path +:+ ": " +:+ text)))
      end).

Definition completion (request_id : string) (result : option RuntimeCommandResult) (error : option string)
    : Op RuntimeCommandInboxResult :=
  let! now := dm_read clock in
  sm_ret (mkRuntimeCommandInboxResult request_id now result error).

(** What a request that was decoded leads to; [None] when it was answered before. *)
Definition answer_request (path results_dir : string) (request : RuntimeCommandInboxRequest)
    : Op (option RuntimeCommandInboxResult) :=
  let! answered := command_inbox_result_exists (command_inbox_result_path results_dir (rq_request_id request)) in
  if answered : bool then
    let! _ := remove_command_inbox_file path in sm_ret None
  else
    match command_inbox_request_id_error (rq_request_id request) with
    | Some error => let! c := completion (rq_request_id request) None (Some error) in sm_ret (Some c)
    | None =>
        match command_inbox_session_error request with
        | Some error => let! c := completion (rq_request_id request) None (Some error) in sm_ret (Some c)
        | None =>
            sm_catch (route_command config clock uuid (rq_command request) (rq_context request))
              (fun result => let! c := completion (rq_request_id request) (Some result) None in sm_ret (Some c))
              (fun err => let! c := completion (rq_request_id request) None (Some (PortError.to_string err)) in
                          sm_ret (Some c))
        end
    end.

(** Leaving the result, unless there is one, and removing the request. *)
Definition record_completion (path results_dir : string) (c : RuntimeCommandInboxResult) : Op unit :=
  let result_path := command_inbox_result_path results_dir (rs_request_id c) in
  let! answered := command_inbox_result_exists result_path in
  if answered : bool then remove_command_inbox_file path
  else
    match to_vec c with
    | Err err => sm_lift (Err (PortError.Runtime ("failed to encode command inbox result: " +:+ err)))
    | Ok encoded =>
        let! _ := write_atomic result_path encoded in
        remove_command_inbox_file path
    end.

(** The body of the loop over the files. *)
Definition process_file (pending_dir results_dir name : string) : Op unit :=
  let path := path_join pending_dir name in
  let fallback_request_id := (stem_extension name).1 in
  let! answer := sm_catch (on_files (fs_read_to_string path))
    (fun contents =>
      match from_slice (A := RuntimeCommandInboxRequest) contents with
      | Ok request => answer_request path results_dir request
      | Err err =>
          let! c := completion fallback_request_id None
                      (Some ("failed to decode command request: " +:+ err)) in sm_ret (Some c)
      end)
    (fun err =>
      let! c := completion fallback_request_id None
                  (Some ("failed to read command request: " +:+ FsError.to_string err)) in sm_ret (Some c)) in
  match answer with
  | None => sm_ret tt
  | Some c => record_completion path results_dir c
  end.

(** The files that are requests, in the order of their names. *)
Definition pending_files (entries : list (string * bool)) : list string :=
  sort_by str_leb
    (fst <$> List.filter (fun entry => entry.2 && bool_decide ((stem_extension entry.1).2 = Some "json")) entries).

Definition process_command_inbox_once (root : string) : Op nat :=
  let pending_dir := path_join root "pending" in
  let results_dir := path_join root "results" in
  let! _ := io (fs_create_dir_all pending_dir) in
  let! _ := io (fs_create_dir_all results_dir) in
  let! entries := io (fs_read_dir pending_dir) in
  let files := pending_files entries in
  let! _ := sm_for (process_file pending_dir results_dir) files in
  sm_ret (length files).
End inbox.

(** ** Reading the log back *)

(** The log of events whose encodings are [texts]. *)
Definition log_text (texts : list string) : string := foldr (fun t log => t +:+ NL +:+ log) "" texts.

Lemma log_text_app texts texts' : log_text (texts ++ texts') = log_text texts +:+ log_text texts'.
Proof.
  induction texts as [|t texts IH]; [done|]. cbn [app log_text foldr]. fold (log_text (texts ++ texts')).
  fold (log_text texts). by rewrite IH, !append_assoc.
Qed.

Lemma split_log texts :
  Forall (fun t => occurs (ascii_of_nat 10) t = false) texts ->
  split_on (ascii_of_nat 10) (log_text texts) = texts ++ [""].
Proof.
  induction 1 as [|t texts Ht _ IH]; cbn [log_text foldr]; [done|]. fold (log_text texts).
  unfold NL. rewrite append_cons, append_nil_l, split_on_app, IH, split_on_none by done. done.
Qed.

Lemma str_lines_log texts :
  Forall (fun t => occurs (ascii_of_nat 10) t = false) texts -> Forall (fun t => strip_cr t = t) texts ->
  str_lines (log_text texts) = texts.
Proof.
  intros Hnl Hcr. unfold str_lines. rewrite (split_log texts Hnl), last_snoc, removelast_last.
  clear Hnl. induction Hcr as [|t texts Ht _ IH]; cbn; [done|]. by rewrite Ht, IH.
Qed.

(** What the log relies on: compact JSON is one line that is not blank. *)
Class JsonLine (A : Type) `{Json A} := {
  json_line : forall (a : A) text, to_vec a = Ok text ->
    occurs (ascii_of_nat 10) text = false /\ strip_cr text = text /\ trim text <> ""
}.

Section audit_log.
Context {ord : IterOrder string} `{PolicyGate} `{RuntimeCommandPort} `{Files} `{!FilesLaws}.
Context `{Json RuntimeEvent} `{!JsonLaws RuntimeEvent} `{!JsonLine RuntimeEvent} `{Json ApprovalStoreSnapshot}.
Context (config : RuntimeDaemonConfig).
Abbreviation Dm := RuntimeDaemon.
Abbreviation errors d := (ctr_audit_write_errors (dm_counters d)).

Definition contents (path : string) (d : Dm) : string := default "" (fs_files (dm_files d) !! path).

Lemma decode_log path idx events texts :
  Forall2 (fun e t => to_vec e = Ok t) events texts -> decode_lines path idx texts = Ok events.
Proof.
  intros Henc. revert idx. induction Henc as [|e t events texts He _ IH]; intros idx; cbn; [done|].
  destruct (json_line e t He) as (_ & _ & Hblank). destruct (String.eqb_spec (trim t) ""); [done|].
  by rewrite (json_roundtrip e t He), IH.
Qed.

(** An event is appended as a line, or an error is counted. *)
Lemma append_audit_spec path event d :
  dc_audit_log_path config = Some path ->
  let d' := (append_audit_event config event d).1 in
  errors d' = count_up (errors d)
  \/ errors d' = errors d /\ exists text, to_vec event = Ok text /\ contents path d' = contents path d +:+ text +:+ NL.
Proof.
  intros Hpath d'. name_goal d' Q. unfold append_audit_event. rewrite Hpath.
  assert (Hwrite : forall d1, dm_counters d1 = dm_counters d -> contents path d1 = contents path d ->
    Q ((match to_vec event with
        | Err _ => count_audit_error
        | Ok encoded =>
            sm_catch (on_files (fs_open_append path))
              (fun _ => sm_catch (on_files (fs_write_all path (encoded +:+ NL)))
                 (fun _ => sm_catch (on_files (fs_flush path)) (fun _ => sm_ret tt) (fun _ => count_audit_error))
                 (fun _ => count_audit_error))
              (fun _ => count_audit_error)
        end) d1).1).
  { intros d1 Hc1 Hd1. destruct (to_vec event) as [text|err] eqn:Henc; [|left; cbn; by rewrite Hc1].
    unfold sm_catch, on_files. destruct (fs_open_append path (dm_files d1)) as [s2 [[]|e]] eqn:Hopen;
      [|left; cbn; by rewrite Hc1]. cbn.
    destruct (fs_write_all path (text +:+ NL) s2) as [s3 [[]|e]] eqn:Hw; [|left; cbn; by rewrite Hc1]. cbn.
    pose proof (fs_flush_same path s3) as Hflush.
    destruct (fs_flush path s3) as [s4 [[]|e]]; [|left; cbn; by rewrite Hc1]. cbn in Hflush |- *.
    right. split; [cbn; by rewrite Hc1|]. exists text. split; [done|].
    apply fs_write_all_law in Hw as (c & Hs3 & ->). unfold contents at 1. cbn.
    rewrite Hflush, Hs3, lookup_insert_eq. unfold default, id. f_equal.
    rewrite <-Hd1. unfold contents. apply fs_open_law in Hopen as [->|[Hnone ->]]; [done|].
    by rewrite lookup_insert_eq, Hnone. }
  destruct (path_parent path) as [parent|]; [|by apply Hwrite].
  unfold sm_catch, on_files. pose proof (fs_dir_same parent (dm_files d)) as Hdir.
  destruct (fs_create_dir_all parent (dm_files d)) as [s1 [[]|e]]; [|by left]. cbn in Hdir.
  apply Hwrite; [done|]. unfold contents. cbn. by rewrite Hdir.
Qed.

Lemma publish_audit_spec path event d :
  dc_audit_log_path config = Some path -> dm_stopped d = false ->
  let d' := (publish_event config event d).1 in
  errors d' = count_up (errors d)
  \/ errors d' = errors d /\ exists text, to_vec event = Ok text /\ contents path d' = contents path d +:+ text +:+ NL.
Proof.
  intros Hpath Hrun. unfold publish_event, sm_bind, ensure_running. rewrite Hrun.
  cbn -[append_audit_event apply_registry_event]. set (d1 := d <| dm_registry := _ |>).
  pose proof (append_audit_spec path event d1 Hpath) as Hspec. cbv zeta in Hspec.
  pose proof (audit_ok config event d1) as Hok.
  destruct (append_audit_event config event d1) as [d2 r]. cbn [fst snd] in *. subst r. exact Hspec.
Qed.

(** Publishing one event of a batch. *)
Lemma publish_batch_cons event events d :
  dm_stopped d = false ->
  publish_batch config (event :: events) d = publish_batch config events (publish_event config event d).1
  /\ dm_stopped (publish_event config event d).1 = false.
Proof.
  intros Hrun. unfold publish_batch. cbn [sm_for]. unfold sm_bind.
  pose proof (publish_running config event d Hrun) as (Hok & _).
  pose proof (publish_stopped config event d) as Hstop. unfold same in Hstop.
  destruct (publish_event config event d) as [d1 r]. cbn [fst snd] in *. subst r. by rewrite Hstop.
Qed.

Lemma count_up_le n : (n <= u64_max)%Z -> (n <= count_up n <= u64_max)%Z.
Proof. unfold count_up, sat_add. lia. Qed.

Lemma publish_batch_errors path events d :
  dc_audit_log_path config = Some path -> dm_stopped d = false -> (errors d <= u64_max)%Z ->
  (errors d <= errors (publish_batch config events d).1 <= u64_max)%Z.
Proof.
  intros Hpath. revert d. induction events as [|event events IH]; intros d Hrun Herr; [cbn; lia|].
  destruct (publish_batch_cons event events d Hrun) as [-> Hrun1].
  pose proof (publish_audit_spec path event d Hpath Hrun) as Hspec. cbv zeta in Hspec.
  pose proof (count_up_le (errors d) Herr). specialize (IH _ Hrun1). destruct Hspec as [He|[He _]]; lia.
Qed.

(** Events published without an error are lines of the log. *)
Lemma publish_batch_logs path events d :
  dc_audit_log_path config = Some path -> dm_stopped d = false -> (errors d < u64_max)%Z ->
  errors (publish_batch config events d).1 = errors d ->
  exists texts, Forall2 (fun e t => to_vec e = Ok t) events texts
    /\ contents path (publish_batch config events d).1 = contents path d +:+ log_text texts.
Proof.
  intros Hpath. revert d. induction events as [|event events IH]; intros d Hrun Herr.
  { intros _. exists []. cbn. split; [done|]. by rewrite append_nil_r. }
  destruct (publish_batch_cons event events d Hrun) as [-> Hrun1]. intros Heq.
  pose proof (publish_audit_spec path event d Hpath Hrun) as Hspec. cbv zeta in Hspec.
  pose proof (publish_batch_errors path events _ Hpath Hrun1) as Hmono.
  assert (Hup : count_up (errors d) = (errors d + 1)%Z) by (unfold count_up, sat_add; lia).
  destruct Hspec as [He|[He (text & Henc & Hc)]]; [lia|].
  destruct (IH _ Hrun1) as (texts & Htexts & Hc'); [lia..|]. exists (text :: texts). split; [by constructor|].
  rewrite Hc', Hc. cbn [log_text foldr]. by rewrite !append_assoc.
Qed.

(** a log can be read back: when events were published to a new log and no
    error of the log was counted, reading the log gives exactly these events, in
    order, provided the file can be read. *)
Theorem audit_log_replays path events d s text :
  dc_audit_log_path config = Some path -> dm_stopped d = false -> (errors d < u64_max)%Z ->
  fs_files (dm_files d) !! path = None ->
  let d' := (publish_batch config events d).1 in
  errors d' = errors d -> fs_read_to_string path (dm_files d') = (s, Ok text) ->
  (read_audit_log path d').2 = Ok events.
Proof.
  intros Hpath Hrun Herr Hnew d' Heq Hread.
  destruct (publish_batch_logs path events d Hpath Hrun Herr Heq) as (texts & Henc & Hc). fold d' in Hc.
  unfold contents in Hc. rewrite (fs_read_law _ _ _ _ Hread), Hnew in Hc. cbn in Hc. rewrite append_nil_l in Hc. subst text.
  unfold read_audit_log, sm_catch, on_files. rewrite Hread. cbn [fst snd sm_lift].
  assert (Hlines : Forall (fun t => occurs (ascii_of_nat 10) t = false) texts /\ Forall (fun t => strip_cr t = t) texts).
  { split; apply Forall_forall; intros t Ht; apply list_elem_of_lookup_1 in Ht as [i Hi];
      destruct (Forall2_lookup_r _ _ _ _ _ Henc Hi) as (e & _ & He); by destruct (json_line e t He) as (? & ? & ?). }
  rewrite str_lines_log by apply Hlines. by apply decode_log.
Qed.
End audit_log.

(** ** Requests are answered once *)

Section inbox_proofs.
Context {ord : IterOrder string} `{PolicyGate} `{RuntimeCommandPort} `{Files} `{!FilesLaws}.
Context `{Json RuntimeEvent} `{Json ApprovalStoreSnapshot}.
Context `{Json RuntimeCommandInboxRequest} `{Json RuntimeCommandInboxResult} `{Fmt}.
Context (config : RuntimeDaemonConfig) (clock : nat -> Z) (uuid : nat -> string).
Abbreviation Dm := RuntimeDaemon.
Abbreviation file path d := (fs_files (dm_files d) !! path).

(** Looking for the result of a request. *)
Lemma result_exists_spec path d :
  let '(d', r) := command_inbox_result_exists path d in
  dm_port d' = dm_port d /\ fs_files (dm_files d') = fs_files (dm_files d)
  /\ match r with Ok true => is_Some (file path d) | Ok false => file path d = None | Err _ => True end.
Proof.
  unfold command_inbox_result_exists, sm_catch, on_files. pose proof (fs_metadata_same path (dm_files d)) as Hsame.
  destruct (fs_metadata path (dm_files d)) as [s [[]|[|e]]] eqn:Hm; cbn in Hsame |- *; (split; [done|]); (split; [done|]).
  - by eapply fs_metadata_law.
  - done.
  - by eapply fs_metadata_missing.
  - done.
Qed.

Lemma remove_spec path d :
  let '(d', r) := remove_command_inbox_file path d in
  dm_port d' = dm_port d
  /\ match r with Ok _ => fs_files (dm_files d') = delete path (fs_files (dm_files d)) | Err _ => True end.
Proof.
  unfold remove_command_inbox_file, sm_catch, on_files.
  destruct (fs_remove_file path (dm_files d)) as [s [[]|[|e]]] eqn:Hr; cbn; (split; [done|]);
    apply fs_remove_law in Hr; [done| |done].
  destruct Hr as [Hnone ->]. symmetry. by apply delete_id.
Qed.

Lemma write_atomic_creates path encoded d d' :
  write_atomic path encoded d = (d', Ok tt) -> file path d' = Some encoded.
Proof.
  unfold write_atomic. intros (d1 & [] & _ & Hw)%sm_bind_Ok.
  apply sm_bind_Ok in Hw as (d2 & [] & Hwrite & Hren). unfold io, sm_map_err, on_files in Hwrite, Hren.
  destruct (fs_write (path +:+ ".tmp") encoded (dm_files d1)) as [s2 [[]|e]] eqn:Hw; [|done].
  injection Hwrite as <-. cbn in Hren. apply fs_write_law in Hw.
  destruct (fs_rename (path +:+ ".tmp") path s2) as [s3 [[]|e]] eqn:Hr; [|done]. injection Hren as <-.
  apply fs_rename_law in Hr as (c & Hc & Hs3). rewrite Hw, lookup_insert_eq in Hc. injection Hc as <-.
  cbn. by rewrite Hs3, lookup_insert_eq.
Qed.

Lemma record_spec path results_dir c d d' :
  path <> command_inbox_result_path results_dir (rs_request_id c) ->
  record_completion path results_dir c d = (d', Ok tt) ->
  file path d' = None /\ is_Some (file (command_inbox_result_path results_dir (rs_request_id c)) d').
Proof.
  intros Hne. unfold record_completion. set (result := command_inbox_result_path _ _) in *.
  intros (d1 & answered & Hex & Hrest)%sm_bind_Ok. pose proof (result_exists_spec result d) as Hspec.
  rewrite Hex in Hspec. destruct Hspec as (_ & Hfiles & Hans).
  assert (Hrem : forall d2, is_Some (file result d2) -> remove_command_inbox_file path d2 = (d', Ok tt) ->
                   file path d' = None /\ is_Some (file result d')).
  { intros d2 Hsome Hr. pose proof (remove_spec path d2) as Hs. rewrite Hr in Hs. destruct Hs as [_ ->].
    by rewrite lookup_delete_eq, lookup_delete_ne. }
  destruct answered.
  - apply (Hrem d1); [by rewrite Hfiles|done].
  - destruct (to_vec c) as [encoded|err]; [|done]. apply sm_bind_Ok in Hrest as (d2 & [] & Hw & Hr).
    apply (Hrem d2); [|done]. rewrite (write_atomic_creates _ _ _ _ Hw). by eexists.
Qed.

(** The request at [path]. *)
Definition holds_request (path : string) (request : RuntimeCommandInboxRequest) (d : Dm) : Prop :=
  exists s text, fs_read_to_string path (dm_files d) = (s, Ok text) /\ from_slice text = Ok request.

Abbreviation pending_dir root := (path_join root "pending").
Abbreviation results_dir root := (path_join root "results").

Lemma pending_not_result root name id :
  path_join (pending_dir root) name <> command_inbox_result_path (results_dir root) id.
Proof.
  unfold command_inbox_result_path, path_join. rewrite !append_assoc. intros Heq%append_inj_l.
  cbn in Heq. discriminate.
Qed.

(** A pass over a request that was answered routes nothing. *)
Lemma answered_not_routed root name request d :
  holds_request (path_join (pending_dir root) name) request d ->
  is_Some (file (command_inbox_result_path (results_dir root) (rq_request_id request)) d) ->
  dm_port (process_file config clock uuid (pending_dir root) (results_dir root) name d).1 = dm_port d.
Proof.
  intros (s & text & Hread & Hreq) Hans. unfold process_file, sm_bind at 1, sm_catch, on_files.
  rewrite Hread, Hreq. set (d1 := d <| dm_files := s |>). unfold answer_request, sm_bind at 1.
  set (result := command_inbox_result_path _ _) in *.
  pose proof (result_exists_spec result d1) as Hspec.
  destruct (command_inbox_result_exists result d1) as [d2 [[]|e]]; destruct Hspec as (Hport & _ & Hres);
    [|exfalso|exact Hport].
  - unfold sm_bind. pose proof (remove_spec (path_join (pending_dir root) name) d2) as Hrem.
    destruct (remove_command_inbox_file _ d2) as [d3 [[]|e]]; destruct Hrem as [Hport' _]; cbn; by rewrite Hport'.
  - unfold d1 in Hres. cbn in Hres. pose proof (fs_read_same (path_join (pending_dir root) name) (dm_files d)) as Hsame.
    rewrite Hread in Hsame. cbn in Hsame. rewrite Hsame in Hres. rewrite Hres in Hans. by destruct Hans.
Qed.

Lemma completion_id id result error d d' answer :
  (let! c := completion clock id result error in sm_ret (Some c)) d = (d', Ok answer) ->
  exists c, answer = Some c /\ rs_request_id c = id.
Proof. unfold completion, sm_bind, dm_read. cbn. intros [= _ <-]. by eexists. Qed.

(** A request is gone and has its result once it was processed. *)
Lemma processed_answered root name request d d' :
  holds_request (path_join (pending_dir root) name) request d ->
  process_file config clock uuid (pending_dir root) (results_dir root) name d = (d', Ok tt) ->
  file (path_join (pending_dir root) name) d' = None
  /\ is_Some (file (command_inbox_result_path (results_dir root) (rq_request_id request)) d').
Proof.
  intros (s & text & Hread & Hreq) Hrun. unfold process_file in Hrun.
  apply sm_bind_Ok in Hrun as (d1 & answer & Hans & Hrest). unfold sm_catch, on_files in Hans.
  rewrite Hread, Hreq in Hans. set (d0 := d <| dm_files := s |>) in Hans. set (path := path_join _ name) in *.
  assert (Hrecord : forall c, answer = Some c -> rs_request_id c = rq_request_id request ->
    file path d' = None /\ is_Some (file (command_inbox_result_path (results_dir root) (rq_request_id request)) d')).
  { intros c -> Hid. rewrite <-Hid. eapply record_spec; [apply pending_not_result|exact Hrest]. }
  unfold answer_request in Hans. set (result := command_inbox_result_path _ _) in *.
  apply sm_bind_Ok in Hans as (d2 & answered & Hex & Hans). destruct answered.
  - apply sm_bind_Ok in Hans as (d3 & [] & Hrem & Hret). injection Hret as <- <-. injection Hrest as <-.
    pose proof (result_exists_spec result d0) as Hspec. rewrite Hex in Hspec. destruct Hspec as (_ & Hfiles & Hsome).
    pose proof (remove_spec path d2) as Hs. rewrite Hrem in Hs. destruct Hs as [_ ->].
    rewrite lookup_delete_eq, lookup_delete_ne by apply pending_not_result. by rewrite Hfiles.
  - unfold sm_catch in Hans. enough (exists c, answer = Some c /\ rs_request_id c = rq_request_id request)
      as (c & Hc & Hid) by (by eapply Hrecord).
    destruct (command_inbox_request_id_error _); [by eapply completion_id|].
    destruct (command_inbox_session_error config request); [by eapply completion_id|].
    destruct (route_command config clock uuid _ _ d2) as [d3 [r|e]]; by eapply completion_id.
Qed.

(** C30: the inbox runs a request at most once per recorded result.  When the
    processing of a request's file succeeds, the file is gone and the request's
    result is on file; and while that result is there, processing any request
    with this id, in whatever file, leaves what is behind the command port
    alone. *)
Theorem inbox_request_runs_once root name request d d1 :
  holds_request (path_join (pending_dir root) name) request d ->
  process_file config clock uuid (pending_dir root) (results_dir root) name d = (d1, Ok tt) ->
  let result := command_inbox_result_path (results_dir root) (rq_request_id request) in
  file (path_join (pending_dir root) name) d1 = None /\ is_Some (file result d1)
  /\ (is_Some (file result d) -> dm_port d1 = dm_port d)
  /\ forall d2 name' request',
       is_Some (file result d2) -> rq_request_id request' = rq_request_id request ->
       holds_request (path_join (pending_dir root) name') request' d2 ->
       dm_port (process_file config clock uuid (pending_dir root) (results_dir root) name' d2).1 = dm_port d2.
Proof.
  intros Hreq Hrun result. destruct (processed_answered _ _ _ _ _ Hreq Hrun) as [Hgone Hsome].
  split; [done|]. split; [done|]. split.
  - intros Hans. pose proof (answered_not_routed root name request d Hreq Hans) as Hport. by rewrite Hrun in Hport.
  - intros d2 name' request' Hans Hid Hreq'. apply (answered_not_routed root name' request'); [done|]. by rewrite Hid.
Qed.
End inbox_proofs.

(** ** Runs *)

Module InboxSample.
#[local] Existing Instance MemFiles.mem_fs.
#[local] Existing Instance MemFiles.mem_laws.
#[local] Existing Instance DaemonSample.order.
#[local] Existing Instance DaemonSample.gate.
#[local] Existing Instance DaemonSample.recorder.
#[local] Existing Instance DaemonSample.store_json.
Import DaemonSample.

(** A codec of the two events of the log. *)
#[local] Instance event_json : Json RuntimeEvent := {|
  to_vec := fun e => if decide (e = spawn) then Ok "{spawn}" else if decide (e = exit) then Ok "{exit}" else Err "other";
  from_slice := fun text =>
    if String.eqb text "{spawn}" then Ok spawn else if String.eqb text "{exit}" then Ok exit else Err "expected value"
|}.

#[local] Instance event_json_laws : JsonLaws RuntimeEvent.
Proof.
  split. intros e text. cbn. destruct (decide _) as [->|_]; [by intros [= <-]|].
  destruct (decide _) as [->|_]; [by intros [= <-]|done].
Qed.

#[local] Instance event_json_line : JsonLine RuntimeEvent.
Proof.
  split. intros e text. cbn. destruct (decide _) as [->|_]; [by intros [= <-]|].
  destruct (decide _) as [->|_]; [by intros [= <-]|done].
Qed.

Definition quiet : RuntimeDaemonConfig := mkRuntimeDaemonConfig true true None None (Some "s").
Definition logging : RuntimeDaemonConfig := mkRuntimeDaemonConfig true true (Some "audit.jsonl") None (Some "s").

Definition daemon (files : gmap string string) (credit : option nat) : RuntimeDaemon :=
  RuntimeDaemon_new the_gate [] (MemFiles.mkMem files credit) 0.

Lemma audit_log_replays_witness :
  (read_audit_log "audit.jsonl" (publish_batch logging [spawn; exit] (daemon ∅ None)).1).2 = Ok [spawn; exit].
Proof.
  refine (audit_log_replays logging "audit.jsonl" [spawn; exit] (daemon ∅ None)
    (dm_files (publish_batch logging [spawn; exit] (daemon ∅ None)).1) ("{spawn}" +:+ NL +:+ "{exit}" +:+ NL)
    eq_refl eq_refl _ eq_refl eq_refl _).
  - vm_compute. reflexivity.
  - vm_compute. reflexivity.
Defined.

(** When the write of a line fails half-way, the next line continues it, and no
    event of the log can be read any more, the ones before it included. *)
Example torn_line_hides_log :
  let d := (publish_batch logging [spawn; exit] (daemon ∅ (Some 3))).1 in
  let d' := (publish_event logging spawn (d <| dm_files := MemFiles.mkMem (MemFiles.mem_files (dm_files d)) None |>)).1 in
  MemFiles.mem_files (dm_files d') !! "audit.jsonl" = Some ("{spawn}" +:+ NL +:+ "{{spawn}" +:+ NL)
  /\ (read_audit_log "audit.jsonl" d').2
     = Err (PortError.Runtime "failed to decode runtime audit log audit.jsonl line 2: expected value").
Proof. vm_compute. done. Qed.

(** Requests, and the files that hold them. *)
Definition request (id command_id : string) : RuntimeCommandInboxRequest :=
  mkRuntimeCommandInboxRequest id 7
    (mkRuntimeCommand command_id (mkRuntimeCommandTarget "s" (Some "p") None) 7 (cm_kind prompt))
    RuntimePolicyContext_default.

#[local] Instance request_json : Json RuntimeCommandInboxRequest := {|
  to_vec := fun r => Ok (rq_request_id r);
  from_slice := fun text => Ok (request text ("run-" +:+ text))
|}.
#[local] Instance result_json : Json RuntimeCommandInboxResult := {|
  to_vec := fun c => Ok (rs_request_id c);
  from_slice := fun _ => Err "not read"
|}.
#[local] Instance fmt : Fmt := {| debug_str := fun s => s; display_time := fun _ => "" |}.

Abbreviation pass := (process_command_inbox_once quiet clock uuid "inbox").
Abbreviation process := (process_file quiet clock uuid (path_join "inbox" "pending") (path_join "inbox" "results")).

Definition one : RuntimeDaemon := daemon {[ "inbox/pending/a.json" := "r1" ]} None.

Lemma inbox_request_runs_once_witness :
  let d1 := (process "a.json" one).1 in
  let d2 := d1 <| dm_files := MemFiles.mkMem (<["inbox/pending/b.json" := "r1"]> (MemFiles.mem_files (dm_files d1))) None |> in
  dm_port d1 = ["run-r1"] /\ dm_port (process "b.json" d2).1 = dm_port d2.
Proof.
  cbv zeta. set (d1 := (process "a.json" one).1). set (d2 := d1 <| dm_files := _ |>).
  split; [vm_compute; reflexivity|].
  assert (Hreq : holds_request (path_join (path_join "inbox" "pending") "a.json") (request "r1" "run-r1") one).
  { exists (dm_files one), "r1". split; vm_compute; reflexivity. }
  assert (Hok : (process "a.json" one).2 = Ok tt) by (vm_compute; reflexivity).
  assert (Hrun : process "a.json" one = (d1, Ok tt)) by (rewrite <-Hok; apply surjective_pairing).
  destruct (inbox_request_runs_once quiet clock uuid "inbox" "a.json" (request "r1" "run-r1") one d1 Hreq Hrun)
    as (_ & _ & _ & Hlater).
  apply (Hlater d2 "b.json" (request "r1" "run-r1")); [by eexists; vm_compute; reflexivity|reflexivity|].
  exists (dm_files d2), "r1". split; vm_compute; reflexivity.
Defined.

(** When the result cannot be written, the pass fails after the command was
    executed, and the next pass executes it again. *)
Example unrecorded_request_runs_again :
  let full := daemon {[ "inbox/pending/a.json" := "r1" ]} (Some 0) in
  (pass full).2 = Err (PortError.IO "no space left on device")
  /\ dm_port (pass (pass full).1).1 = ["run-r1"; "run-r1"].
Proof. vm_compute. done. Qed.

(** The refusal of an id with other characters is recorded under the id with
    these replaced, and a request with that id is dropped unexecuted. *)
Example refused_id_blocks_another :
  let d := (pass (daemon {[ "inbox/pending/a.json" := "a/b" ]} None)).1 in
  let d' := d <| dm_files := MemFiles.mkMem (<["inbox/pending/b.json" := "a_b"]> (MemFiles.mem_files (dm_files d))) None |> in
  (pass d').2 = Ok 1 /\ dm_port (pass d').1 = []
  /\ MemFiles.mem_files (dm_files (pass d').1) !! "inbox/pending/b.json" = None.
Proof. vm_compute. done. Qed.
End InboxSample.
