(* ===== verification/Sidecar.v ===== *)
(** * The sidecar of the daemon (crates brehon-runtime, brehon-detect,
    brehon-workflow and brehon-daemon)

    Two loops read the daemon's events, each at its own pace: the detector
    publishes detections, the workflow loop publishes actions and routes the
    commands of enabled workflows.  Both feed the bus they read from. *)

From Stdlib Require Import Relation_Operators Wellfounded.
From S2P Require Import Prelude Effects StrLib Chars Terminal Types Kv Ports RuntimeTypes PolicyGate Files Detect Workflow Daemon DaemonProofs DaemonRuns.

(** ** The bus *)

Definition DEFAULT_RUNTIME_EVENT_CAPACITY : nat := 1024.

(** [RuntimeEventReceiver::next_event] of a receiver that has read [pos] events
    of those sent, when the channel retains the last [retained]: the position
    after it and the result, or nothing while there is no event to read. *)
Definition next_event (retained : nat) (sent : list RuntimeEvent) (pos : nat)
    : option (nat * Result RuntimeEvent PortError) :=
  let oldest := length sent - retained in
  if (pos <? oldest)%nat then
    Some (oldest, Err (PortError.Runtime ("runtime event stream lagged by " +:+ pretty (oldest - pos) +:+ " events")))
  else match sent !! pos with
  | Some event => Some (S pos, Ok event)
  | None => None
  end.

Section sidecar.
Context {ord : IterOrder string} `{PolicyGate} `{RuntimeCommandPort} `{Files}.
Context `{Json RuntimeEvent} `{Json ApprovalStoreSnapshot}.
Context (config : RuntimeDaemonConfig) (clock : nat -> Z) (uuid : nat -> string).
Context (engine : WorkflowEngine) (retained : nat).

(** The daemon, the detector, and for each loop how far it has read and its
    counts. *)
Record Sidecar := mkSidecar {
  sd_daemon : RuntimeDaemon;
  sd_detector : PatternDetectionEngine;
  sd_detection_pos : nat;
  sd_detection_stats : DetectionLoopStats;
  sd_workflow_pos : nat;
  sd_workflow_stats : WorkflowLoopStats
}.

#[export] Instance eta_Sidecar : Eta Sidecar := fun s =>
  mkSidecar (sd_daemon s) (sd_detector s) (sd_detection_pos s) (sd_detection_stats s) (sd_workflow_pos s)
    (sd_workflow_stats s).

Definition count_detection (f : DetectionLoopStats -> DetectionLoopStats) (s : Sidecar) : Sidecar :=
  s <| sd_detection_stats := f (sd_detection_stats s) |>.
Definition count_workflow (f : WorkflowLoopStats -> WorkflowLoopStats) (s : Sidecar) : Sidecar :=
  s <| sd_workflow_stats := f (sd_workflow_stats s) |>.

(** ** The detection loop *)

Definition publish_detection (detection : RuntimeEvent) (s : Sidecar) : Sidecar :=
  let '(d, r) := publish_event config detection (sd_daemon s) in
  let s := s <| sd_daemon := d |> in
  match r with
  | Ok _ => count_detection (fun c => c <| dl_emitted_detections := count_one (dl_emitted_detections c) |>) s
  | Err _ => count_detection (fun c => c <| dl_publish_errors := count_one (dl_publish_errors c) |>) s
  end.

(** One turn of the loop in [run_detection_loop]. *)
Definition detection_turn (s : Sidecar) : option Sidecar :=
  '(pos, item) ← next_event retained (dm_bus (sd_daemon s)) (sd_detection_pos s);
  let s := s <| sd_detection_pos := pos |> in
  match item with
  | Err _ => Some (count_detection (fun c => c <| dl_stream_errors := count_one (dl_stream_errors c) |>) s)
  | Ok event =>
      let s := count_detection (fun c => c <| dl_observed_events := count_one (dl_observed_events c) |>) s in
      let '(detector, detections) := detection_observe event (sd_detector s) in
      Some (sm_iter publish_detection detections (s <| sd_detector := detector |>))
  end.

(** ** The workflow loop *)

Definition route_emission (emission : WorkflowEmission) (s : Sidecar) : Sidecar :=
  let s := count_workflow (fun c => c <| wl_emitted_actions := count_one (wl_emitted_actions c) |>) s in
  let '(d, r) := publish_event config (we_audit_event emission) (sd_daemon s) in
  let s := s <| sd_daemon := d |> in
  match r, we_command emission with
  | Err _, command =>
      let s := count_workflow (fun c => c <| wl_publish_errors := count_one (wl_publish_errors c) |>) s in
      match command with
      | Some _ => count_workflow (fun c => c <| wl_command_errors := count_one (wl_command_errors c) |>) s
      | None => s
      end
  | Ok _, None => s
  | Ok _, Some command =>
      let s := count_workflow (fun c => c <| wl_routed_commands := count_one (wl_routed_commands c) |>) s in
      let '(d, r) := route_command config clock uuid command (we_policy_context emission) (sd_daemon s) in
      let s := s <| sd_daemon := d |> in
      match r with
      | Ok _ => s
      | Err _ => count_workflow (fun c => c <| wl_command_errors := count_one (wl_command_errors c) |>) s
      end
  end.

(** One turn of the loop in [run_daemon_workflow_loop]. *)
Definition workflow_turn (s : Sidecar) : option Sidecar :=
  '(pos, item) ← next_event retained (dm_bus (sd_daemon s)) (sd_workflow_pos s);
  let s := s <| sd_workflow_pos := pos |> in
  match item with
  | Err _ => Some (count_workflow (fun c => c <| wl_stream_errors := count_one (wl_stream_errors c) |>) s)
  | Ok event =>
      let s := count_workflow (fun c => c <| wl_observed_events := count_one (wl_observed_events c) |>) s in
      let '(reads, emissions) := observe_emissions clock uuid engine (dm_reads (sd_daemon s)) event in
      let s := s <| sd_daemon := sd_daemon s <| dm_reads := reads |> |> in
      Some (sm_iter route_emission emissions s)
  end.

(** The loops take turns in any order. *)
Inductive sidecar_step (s : Sidecar) : Sidecar -> Prop :=
| step_detection s' : detection_turn s = Some s' -> sidecar_step s s'
| step_workflow s' : workflow_turn s = Some s' -> sidecar_step s s'.

(** [RuntimeSidecar::start]: both loops read from the next event on. *)
Definition sidecar_start (daemon : RuntimeDaemon) (detector : PatternDetectionEngine) : Sidecar :=
  mkSidecar daemon detector (length (dm_bus daemon)) DetectionLoopStats_default
    (length (dm_bus daemon)) WorkflowLoopStats_default.
End sidecar.

(** ** Events that loops react to *)

Definition is_output (event : RuntimeEvent) : bool :=
  match re_kind event with RuntimeEventKind.PaneOutput _ => true | _ => false end.
Definition is_detection (event : RuntimeEvent) : bool :=
  match re_kind event with RuntimeEventKind.DetectionEvent_ _ => true | _ => false end.

(** Rules that recommend something on detections only, as the rule of the
    program does. *)
Definition on_detections (engine : WorkflowEngine) : Prop :=
  forall rule event, rule ∈ eng_rules engine -> is_detection event = false -> rule_observe rule event = [].

Lemma default_on_detections ids : on_detections (with_enabled_workflows ids WorkflowEngine_default).
Proof.
  intros rule event Hrule Hev. cbn in Hrule. apply list_elem_of_singleton in Hrule as ->.
  cbn. unfold rate_limit_observe, is_detection in *. by destruct (re_kind event).
Qed.

Lemma observe_nothing event detector : is_output event = false -> (detection_observe event detector).2 = [].
Proof. unfold is_output, detection_observe. by destruct (re_kind event). Qed.

Abbreviation no_output l := (Forall (fun e => is_output e = false) l) (only parsing).

Lemma match_rules_detections meta lower line rules ps :
  no_output (match_rules meta lower line rules ps).2.
Proof.
  revert ps. induction rules as [|rule rules IH]; intros ps; cbn; [constructor|].
  destruct (rule_matches lower rule); [|apply IH].
  specialize (IH (ps <| ps_next_detection_sequence := count_one (ps_next_detection_sequence ps) |>)).
  destruct (match_rules _ _ _ _ _). by constructor.
Qed.

Lemma observe_lines_detections meta rules max lines ps :
  no_output (observe_lines meta rules max lines ps).2.
Proof.
  revert ps. induction lines as [|line lines IH]; intros ps; cbn -[match_rules]; [constructor|].
  match goal with |- context [match_rules ?a ?b ?c ?d ?e] => pose proof (match_rules_detections a b c d e) as Hm;
    destruct (match_rules a b c d e) as [ps1 found] end.
  specialize (IH (ps1 <| ps_lines := retain_line max line (ps_lines ps1) |>)).
  destruct (observe_lines _ _ _ _ _). by apply Forall_app.
Qed.

Lemma observe_detections event detector : no_output (detection_observe event detector).2.
Proof.
  unfold detection_observe, observe_output. destruct (re_kind event); try constructor.
  destruct (String.eqb _ _); [constructor|].
  match goal with |- context [observe_lines ?a ?b ?c ?d ?e] => pose proof (observe_lines_detections a b c d e) as Hm;
    by destruct (observe_lines a b c d e) end.
Qed.

Lemma recommend_nothing engine event :
  on_detections engine -> is_detection event = false -> recommendations engine event = [].
Proof.
  intros Hon Hev. unfold recommendations. unfold on_detections in Hon. induction (eng_rules engine) as [|rule rules IH]; cbn; [done|].
  rewrite (Hon rule event) by (done || by left). cbn. apply IH. intros rule' event' Hin. apply Hon. by right.
Qed.

(** An emission reports an action. *)
Lemma emissions_actions clock uuid engine reads event l :
  Forall (fun e => is_output (we_audit_event e) = false /\ is_detection (we_audit_event e) = false)
    (emissions clock uuid engine reads event l).2.
Proof.
  revert reads. induction l as [|[id r] l IH]; intros reads; cbn; [constructor|].
  pose proof (emission_spec clock uuid engine reads event id r) as [(action & Hkind & _) _].
  destruct (emission clock uuid engine reads event id r) as [reads' e]. specialize (IH reads').
  destruct (emissions clock uuid engine reads' event l) as [reads'' es]. constructor; [|done].
  cbn in Hkind |- *. unfold is_output, is_detection. by rewrite Hkind.
Qed.

(** ** What is appended to the bus *)

Section sidecar_proofs.
Context {ord : IterOrder string} `{PolicyGate} `{RuntimeCommandPort} `{Files}.
Context `{Json RuntimeEvent} `{Json ApprovalStoreSnapshot}.
Context (config : RuntimeDaemonConfig) (clock : nat -> Z) (uuid : nat -> string).
Context (engine : WorkflowEngine) (retained : nat).
Abbreviation Dm := RuntimeDaemon.

Section appends.
Context (P : RuntimeEvent -> Prop).

Definition appends (d d' : Dm) : Prop := exists l, dm_bus d' = dm_bus d ++ l /\ Forall P l.

#[local] Instance appends_preorder : PreOrder appends.
Proof.
  split; [intros d; exists []; by rewrite app_nil_r|].
  intros d1 d2 d3 (l & Hl & HP) (l' & Hl' & HP'). exists (l ++ l'). rewrite Hl', Hl, app_assoc.
  split; [done|]. by apply Forall_app.
Qed.

Lemma appends_same {E A} (op : SM Dm E A) : relates (same dm_bus) op -> relates appends op.
Proof. intros Hop d. exists []. by rewrite app_nil_r, (Hop d). Qed.

#[local] Instance appends_background : Background appends.
Proof. split; [apply _|..]; intros; exists []; by rewrite app_nil_r. Qed.

#[local] Instance bus_background : Background (same dm_bus).
Proof. split; [apply _|done..]. Qed.

Lemma appends_publish event : P event -> relates appends (publish_event config event).
Proof.
  intros HP. assert (Hbus : relates appends (dm_modify (fun d => d <| dm_bus := dm_bus d ++ [event] |>))).
  { intros d. exists [event]. cbn. split; [done|]. by constructor. }
  assert (Hreg : relates appends (dm_modify (fun d => d <| dm_registry := apply_registry_event event (dm_registry d) |>))).
  { intros d. exists []. cbn. by rewrite app_nil_r. }
  pose proof (appends_same _ (append_audit_same config dm_bus event _ (fun _ _ => eq_refl))).
  unfold publish_event. follow_effects.
Qed.

Lemma appends_execute command message : relates appends (execute_command config command message).
Proof. intros d. destruct (execute_only_port config command message d) as (p & -> & _). exists []. by rewrite app_nil_r. Qed.

Context (HP : forall now id command decision, P (policy_decision_event now id command decision)).

Lemma appends_route command context : relates appends (route_command config clock uuid command context).
Proof.
  assert (Hpub : forall now id c dec, relates appends (publish_event config (policy_decision_event now id c dec))).
  { intros. by apply appends_publish. }
  pose proof (appends_same _ (persist_same config clock dm_bus _ (fun _ _ => eq_refl))).
  assert (Happ : forall f, relates appends (dm_modify (fun d => d <| dm_approvals := f d |>))).
  { intros f d. exists []. cbn. by rewrite app_nil_r. }
  pose proof appends_execute.
  assert (Hstore : forall c ctx reason, relates appends (store_pending_approval config clock uuid c ctx reason)).
  { intros. unfold store_pending_approval, put_approval, drop_approval. follow_effects. }
  unfold route_command, resolve_approval, apply_decision, apply_approved, publish_policy_decision, drop_approval,
    put_approval, count_rejected, count_deferred, count_approval_required. follow_effects.
Qed.
End appends.

(** ** The loops come to rest *)

Abbreviation bus s := (dm_bus (sd_daemon s)).
Abbreviation num f l := (length (List.filter f l)).

(** Outputs the detector and detections the workflows have still to read, and
    how far both are behind. *)
Definition outputs_left (s : Sidecar) : nat := num is_output (drop (sd_detection_pos s) (bus s)).
Definition detections_left (s : Sidecar) : nat := num is_detection (drop (sd_workflow_pos s) (bus s)).
Definition behind (s : Sidecar) : nat :=
  (length (bus s) - sd_detection_pos s) + (length (bus s) - sd_workflow_pos s).

Definition lower (s' s : Sidecar) : Prop :=
  slexprod _ _ lt (slexprod _ _ lt lt)
    (outputs_left s', (detections_left s', behind s')) (outputs_left s, (detections_left s, behind s)).

Lemma lower_wf : well_founded lower.
Proof.
  apply (wf_inverse_image _ _ _ (fun s => (outputs_left s, (detections_left s, behind s)))).
  apply wf_slexprod; [apply lt_wf|]. apply wf_slexprod; apply lt_wf.
Qed.

(** Ways of being lower. *)
Lemma lower_outputs s s' : outputs_left s' < outputs_left s -> lower s' s.
Proof. intros Hlt. by apply left_slex. Qed.

Lemma lower_detections s s' :
  outputs_left s' <= outputs_left s -> detections_left s' < detections_left s -> lower s' s.
Proof.
  intros Ho Hd. destruct (decide (outputs_left s' = outputs_left s)) as [Heq|]; [|apply lower_outputs; lia].
  unfold lower. rewrite Heq. apply right_slex. by apply left_slex.
Qed.

Lemma lower_behind s s' :
  outputs_left s' <= outputs_left s -> detections_left s' <= detections_left s -> behind s' < behind s -> lower s' s.
Proof.
  intros Ho Hd Hb. destruct (decide (detections_left s' = detections_left s)) as [Heqd|]; [|apply lower_detections; lia].
  destruct (decide (outputs_left s' = outputs_left s)) as [Heqo|]; [|apply lower_outputs; lia].
  unfold lower. rewrite Heqd, Heqo. by apply right_slex, right_slex.
Qed.

Lemma num_app f (l k : list RuntimeEvent) : num f (l ++ k) = num f l + num f k.
Proof. by rewrite List.filter_app, length_app. Qed.

Lemma num_none f (l : list RuntimeEvent) : Forall (fun e => f e = false) l -> num f l = 0.
Proof. induction 1 as [|e l He _ IH]; cbn; [done|]. by rewrite He. Qed.

(** Appending events that [f] does not count leaves the count alone. *)
Lemma num_drop_app f n (l k : list RuntimeEvent) :
  Forall (fun e => f e = false) k -> num f (drop n (l ++ k)) = num f (drop n l).
Proof.
  intros Hk. rewrite drop_app, num_app, (num_none f (drop _ k)); [lia|]. by apply Forall_drop.
Qed.

Lemma num_drop_le f n m (l : list RuntimeEvent) : n <= m -> num f (drop m l) <= num f (drop n l).
Proof.
  intros Hle. rewrite <-(take_drop (m - n) (drop n l)), num_app, drop_drop. replace (n + (m - n)) with m by lia. lia.
Qed.

Lemma num_drop_at f n (l : list RuntimeEvent) e :
  l !! n = Some e -> num f (drop n l) = (if f e then 1 else 0) + num f (drop (S n) l).
Proof. intros He. rewrite (drop_S _ _ _ He). cbn. by destruct (f e). Qed.

(** A turn reads one event, or skips those it missed. *)
Lemma next_event_cases sent pos pos' item :
  next_event retained sent pos = Some (pos', item) ->
  match item with
  | Ok event => pos' = S pos /\ sent !! pos = Some event
  | Err _ => pos < pos' <= length sent
  end.
Proof.
  unfold next_event. destruct (Nat.ltb_spec pos (length sent - retained)); [intros [= <- <-]; lia|].
  destruct (sent !! pos) eqn:Hat; [|done]. by intros [= <- <-].
Qed.

(** Publishing the detections of an event. *)
Lemma publish_detections_bus l s :
  no_output l ->
  exists added, bus (sm_iter (publish_detection config) l s) = bus s ++ added /\ no_output added
    /\ (l = [] -> added = [])
    /\ sd_detection_pos (sm_iter (publish_detection config) l s) = sd_detection_pos s
    /\ sd_workflow_pos (sm_iter (publish_detection config) l s) = sd_workflow_pos s.
Proof.
  intros Hl. revert s. induction Hl as [|e l He Hl IH]; intros s; cbn [sm_iter].
  { exists []. by rewrite app_nil_r. }
  destruct (appends_publish (fun e => is_output e = false) e He (sd_daemon s)) as (added1 & Hbus1 & Hadded1).
  assert (Hs1 : bus (publish_detection config e s) = bus s ++ added1
    /\ sd_detection_pos (publish_detection config e s) = sd_detection_pos s
    /\ sd_workflow_pos (publish_detection config e s) = sd_workflow_pos s).
  { unfold publish_detection. destruct (publish_event config e (sd_daemon s)) as [d [[]|err]]; cbn in Hbus1 |- *; by rewrite Hbus1. }
  destruct Hs1 as (Hb & Hp & Hw). destruct (IH (publish_detection config e s)) as (added & Hbus & Hadded & _ & Hp' & Hw').
  exists (added1 ++ added). rewrite Hbus, Hb, app_assoc. split; [done|]. split; [by apply Forall_app|]. split; [done|]. by rewrite Hp', Hw'.
Qed.

Abbreviation silent_event e := (is_output e = false /\ is_detection e = false).

Lemma route_emission_bus e s :
  silent_event (we_audit_event e) ->
  exists added, bus (route_emission config clock uuid e s) = bus s ++ added /\ Forall (fun e => silent_event e) added
    /\ sd_detection_pos (route_emission config clock uuid e s) = sd_detection_pos s
    /\ sd_workflow_pos (route_emission config clock uuid e s) = sd_workflow_pos s.
Proof.
  intros He. destruct (appends_publish (fun e => silent_event e) (we_audit_event e) He (sd_daemon s)) as (l1 & Hl1 & HP1).
  unfold route_emission. cbn [sd_daemon count_workflow set_with].
  change (sd_daemon (count_workflow _ s)) with (sd_daemon s).
  destruct (publish_event config (we_audit_event e) (sd_daemon s)) as [d [[]|err]]; cbn in Hl1.
  2: { exists l1. destruct (we_command e); cbn; by rewrite Hl1. }
  destruct (we_command e) as [command|]; [|exists l1; cbn; by rewrite Hl1].
  destruct (appends_route (fun e => silent_event e) (fun _ _ _ _ => conj eq_refl eq_refl) command (we_policy_context e) d)
    as (l2 & Hl2 & HP2). cbn -[route_command].
  destruct (route_command config clock uuid command (we_policy_context e) d) as [d2 [r|err]]; cbn in Hl2 |- *;
    exists (l1 ++ l2); rewrite Hl2, Hl1, app_assoc; (split; [done|]); (split; [by apply Forall_app|done]).
Qed.

Lemma route_emissions_bus l s :
  Forall (fun e => silent_event (we_audit_event e)) l ->
  exists added, bus (sm_iter (route_emission config clock uuid) l s) = bus s ++ added
    /\ Forall (fun e => silent_event e) added /\ (l = [] -> added = [])
    /\ sd_detection_pos (sm_iter (route_emission config clock uuid) l s) = sd_detection_pos s
    /\ sd_workflow_pos (sm_iter (route_emission config clock uuid) l s) = sd_workflow_pos s.
Proof.
  intros Hl. revert s. induction Hl as [|e l He Hl IH]; intros s; cbn [sm_iter].
  { exists []. by rewrite app_nil_r. }
  destruct (route_emission_bus e s He) as (l1 & Hl1 & HP1 & Hp1 & Hw1).
  destruct (IH (route_emission config clock uuid e s)) as (l2 & Hl2 & HP2 & _ & Hp2 & Hw2).
  exists (l1 ++ l2). rewrite Hl2, Hl1, app_assoc. split; [done|]. split; [by apply Forall_app|]. split; [done|].
  by rewrite Hp2, Hw2.
Qed.

Lemma detection_turn_lower s s' : detection_turn config retained s = Some s' -> lower s' s.
Proof.
  unfold detection_turn. intros Hturn. destruct (next_event retained _ _) as [[pos item]|] eqn:Hnext; [|done].
  apply next_event_cases in Hnext. cbn in Hturn. destruct item as [event|err].
  - destruct Hnext as [-> Hat].
    change (sd_detector (count_detection _ _)) with (sd_detector s) in Hturn.
    pose proof (observe_detections event (sd_detector s)) as Hno.
    pose proof (observe_nothing event (sd_detector s)) as Hnothing.
    destruct (detection_observe event (sd_detector s)) as [detector detections]. cbn [snd] in *.
    injection Hturn as <-. match goal with |- lower (sm_iter _ _ ?x) _ => set (s1 := x) end.
    destruct (publish_detections_bus detections s1 Hno) as (added & Hbus & Hadded & Hnil & Hp & Hw).
    change (bus s1) with (bus s) in Hbus. change (sd_detection_pos s1) with (S (sd_detection_pos s)) in Hp.
    change (sd_workflow_pos s1) with (sd_workflow_pos s) in Hw.
    pose proof (num_drop_at is_output _ _ _ Hat) as Hnum.
    destruct (is_output event) eqn:Hout.
    + apply lower_outputs. unfold outputs_left. rewrite Hbus, Hp, num_drop_app by done. lia.
    + rewrite (Hnil (Hnothing eq_refl)), app_nil_r in Hbus. apply lookup_lt_Some in Hat.
      apply lower_behind; unfold outputs_left, detections_left, behind; rewrite Hbus, ?Hp, ?Hw; lia.
  - injection Hturn as <-. apply lower_behind; unfold outputs_left, detections_left, behind; cbn; [|done|lia].
    apply num_drop_le. lia.
Qed.

Lemma workflow_turn_lower s s' :
  on_detections engine -> workflow_turn config clock uuid engine retained s = Some s' -> lower s' s.
Proof.
  intros Hon. unfold workflow_turn. intros Hturn.
  destruct (next_event retained _ _) as [[pos item]|] eqn:Hnext; [|done].
  apply next_event_cases in Hnext. cbn in Hturn. destruct item as [event|err].
  - destruct Hnext as [-> Hat]. unfold observe_emissions in Hturn.
    match type of Hturn with context [emissions _ _ _ ?n _ _] =>
      pose proof (emissions_actions clock uuid engine n event (recommendations engine event)) as Hacts end.
    pose proof (recommend_nothing engine event Hon) as Hnothing.
    assert (Hnone : recommendations engine event = [] -> forall n, (emissions clock uuid engine n event (recommendations engine event)).2 = []).
    { intros -> n. done. }
    match type of Hturn with context [emissions _ _ _ ?n _ _] => specialize (fun H => Hnone H n) end.
    destruct (emissions _ _ _ _ _ _) as [reads l]. cbn [snd] in *. injection Hturn as <-.
    match goal with |- lower (sm_iter _ _ ?x) _ => set (s1 := x) end.
    destruct (route_emissions_bus l s1 Hacts) as (added & Hbus & Hadded & Hnil & Hp & Hw).
    change (bus s1) with (bus s) in Hbus. change (sd_detection_pos s1) with (sd_detection_pos s) in Hp.
    change (sd_workflow_pos s1) with (S (sd_workflow_pos s)) in Hw.
    pose proof (num_drop_at is_detection _ _ _ Hat) as Hnum.
    apply Forall_and in Hadded as [Hout Hdet].
    destruct (is_detection event) eqn:Hev.
    + apply lower_detections; unfold outputs_left, detections_left; rewrite Hbus, ?Hp, ?Hw, num_drop_app by done; lia.
    + rewrite (Hnil (Hnone (Hnothing eq_refl))), app_nil_r in Hbus. apply lookup_lt_Some in Hat.
      apply lower_behind; unfold outputs_left, detections_left, behind; rewrite Hbus, ?Hp, ?Hw; lia.
  - injection Hturn as <-. apply lower_behind; unfold outputs_left, detections_left, behind; cbn; [done| |lia].
    apply num_drop_le. lia.
Qed.

(** C31: the sidecar comes to rest: although both loops publish to the bus they
    read from, every run of their turns, in any order and with any events
    missed, is finite, so long as nothing else is published. *)
Theorem sidecar_comes_to_rest s :
  on_detections engine -> Acc (fun s' s => sidecar_step config clock uuid engine retained s s') s.
Proof.
  intros Hon. induction s as [s IH] using (well_founded_induction lower_wf). constructor.
  intros s' [s1 Hturn|s1 Hturn]; apply IH; [by apply detection_turn_lower|by apply workflow_turn_lower].
Qed.

(** ** Dry runs *)

Lemma dry_run_emissions reads event l :
  eng_enabled_workflows engine = ∅ ->
  Forall (fun e => we_command e = None) (emissions clock uuid engine reads event l).2.
Proof.
  intros Hoff. revert reads. induction l as [|[id r] l IH]; intros reads; cbn; [constructor|].
  pose proof (emission_spec clock uuid engine reads event id r) as [_ Hcommand].
  destruct (emission clock uuid engine reads event id r) as [reads' e]. specialize (IH reads').
  destruct (emissions clock uuid engine reads' event l) as [reads'' es]. constructor; [|done].
  cbn in Hcommand |- *. destruct (we_command e); [|done]. destruct Hcommand as [Hin _].
  rewrite Hoff in Hin. by apply not_elem_of_empty in Hin.
Qed.

(** The parts of the daemon that commands act on. *)
Definition acted_on (s : Sidecar) : cp_state * gmap string PendingApprovalEntry :=
  (dm_port (sd_daemon s), dm_approvals (sd_daemon s)).

Lemma publish_acted_on event s d r :
  publish_event config event (sd_daemon s) = (d, r) -> acted_on (s <| sd_daemon := d |>) = acted_on s.
Proof.
  intros Hpub. pose proof (publish_port config event (sd_daemon s)) as Hport.
  pose proof (publish_approvals config event (sd_daemon s)) as Happ. unfold same in Hport, Happ.
  rewrite Hpub in Hport, Happ. cbn in Hport, Happ. unfold acted_on. cbn. by rewrite Hport, Happ.
Qed.

Lemma sm_iter_acted_on {A} (f : A -> Sidecar -> Sidecar) l s :
  (forall x s, x ∈ l -> acted_on (f x s) = acted_on s) -> acted_on (sm_iter f l s) = acted_on s.
Proof.
  revert s. induction l as [|x l IH]; intros s Hf; cbn; [done|].
  rewrite IH; [apply Hf; by left|]. intros y s1 Hy. apply Hf. by right.
Qed.

(** with no workflow enabled, as by default, no turn of either loop executes
    a command or touches a pending approval, whatever is detected. *)
Theorem dry_run_sidecar_acts_on_nothing s s' :
  eng_enabled_workflows engine = ∅ -> sidecar_step config clock uuid engine retained s s' ->
  dm_port (sd_daemon s') = dm_port (sd_daemon s) /\ dm_approvals (sd_daemon s') = dm_approvals (sd_daemon s).
Proof.
  intros Hoff Hstep. enough (Hsame : acted_on s' = acted_on s) by (by injection Hsame).
  destruct Hstep as [s' Hturn|s' Hturn]; [unfold detection_turn in Hturn|unfold workflow_turn in Hturn];
    destruct (next_event retained _ _) as [[pos [event|err]]|]; try done; cbn in Hturn; try (by injection Hturn as <-).
  - destruct (detection_observe event _) as [detector detections]. injection Hturn as <-.
    rewrite sm_iter_acted_on; [done|]. intros e s1 _. unfold publish_detection.
    destruct (publish_event config e (sd_daemon s1)) as [d [[]|err]] eqn:Hpub; exact (publish_acted_on _ _ _ _ Hpub).
  - unfold observe_emissions in Hturn.
    match type of Hturn with context [emissions _ _ _ ?n _ _] =>
      pose proof (dry_run_emissions n event (recommendations engine event) Hoff) as Hdry end.
    destruct (emissions _ _ _ _ _ _) as [reads l]. cbn [snd] in Hdry. injection Hturn as <-.
    rewrite sm_iter_acted_on; [done|]. intros e s1 He. rewrite Forall_forall in Hdry. specialize (Hdry e He).
    unfold route_emission. rewrite Hdry. change (sd_daemon (count_workflow _ s1)) with (sd_daemon s1).
    destruct (publish_event config (we_audit_event e) (sd_daemon s1)) as [d [[]|err]] eqn:Hpub;
      exact (publish_acted_on _ _ _ _ Hpub).
Qed.
End sidecar_proofs.

(** ** A run *)

Module SidecarSample.
#[local] Existing Instance MemFiles.mem_fs.
#[local] Existing Instance DaemonSample.order.
#[local] Existing Instance DaemonSample.gate.
#[local] Existing Instance DaemonSample.recorder.
#[local] Existing Instance DaemonSample.event_json.
#[local] Existing Instance DaemonSample.store_json.
Import DaemonSample.

Definition quiet : RuntimeDaemonConfig := mkRuntimeDaemonConfig true true None None None.
Definition limited : RuntimeEvent :=
  of_pane (RuntimeEventKind.PaneOutput (mkPaneOutputEvent "" (Some "HTTP 429: too many requests"))).
Definition enabled : WorkflowEngine :=
  with_enabled_workflows ["rate_limit.quarantine_recommendation"] WorkflowEngine_default.

(** A sidecar that has an output of a rate limit to read. *)
Definition limited_daemon : RuntimeDaemon :=
  (publish_event quiet limited (RuntimeDaemon_new the_gate [] (files None) 0)).1.
Definition limited_sidecar : Sidecar :=
  sidecar_start (RuntimeDaemon_new the_gate [] (files None) 0) (PatternDetectionEngine_new default_rules)
    <| sd_daemon := limited_daemon |>.

Abbreviation detect := (detection_turn quiet 1024).
Abbreviation react engine := (workflow_turn quiet clock uuid engine 1024).

Definition at_rest (engine : WorkflowEngine) (s : Sidecar) : bool :=
  match detect s, react engine s with None, None => true | _, _ => false end.

(** Both loops at work: the detection is published, the enabled workflow routes
    its command, and the loops come to rest with four events on the bus. *)
Example enabled_workflow_quarantines :
  let run := s ← detect limited_sidecar; s ← react enabled s; s ← react enabled s; s ← react enabled s;
             s ← react enabled s; s ← detect s; s ← detect s; detect s in
  (fun s => dm_port (sd_daemon s)) <$> run = Some ["workflow-command-u0"]
  /\ (fun s => length (dm_bus (sd_daemon s))) <$> run = Some 4
  /\ at_rest enabled <$> run = Some true.
Proof. vm_compute. done. Qed.

Lemma sidecar_comes_to_rest_witness :
  Acc (fun s' s => sidecar_step quiet clock uuid enabled 1024 s s') limited_sidecar.
Proof.
  apply (sidecar_comes_to_rest quiet clock uuid enabled 1024 limited_sidecar).
  exact (default_on_detections ["rate_limit.quarantine_recommendation"]).
Defined.

(** A turn that finds something to read. *)
Definition next (turn : Sidecar -> option Sidecar) (s : Sidecar) : Sidecar := default s (turn s).
Definition before : Sidecar := next (react WorkflowEngine_default) (next detect limited_sidecar).
Definition after : Sidecar := next (react WorkflowEngine_default) before.

(** The workflow reads the detection and reports what it would have done. *)
Lemma dry_run_sidecar_acts_on_nothing_witness :
  length (dm_bus (sd_daemon before)) = 2 /\ length (dm_bus (sd_daemon after)) = 3
  /\ dm_port (sd_daemon after) = dm_port (sd_daemon before).
Proof.
  split; [vm_compute; reflexivity|]. split; [vm_compute; reflexivity|].
  assert (Hsome : match react WorkflowEngine_default before with Some _ => true | None => false end = true)
    by (vm_compute; reflexivity).
  unfold after, next. destruct (react WorkflowEngine_default before) as [s'|] eqn:Hturn; [|done].
  exact (proj1 (dry_run_sidecar_acts_on_nothing quiet clock uuid WorkflowEngine_default 1024 before s' eq_refl
    (step_workflow quiet clock uuid WorkflowEngine_default 1024 before s' Hturn))).
Defined.
End SidecarSample.
