(* ===== verification/DaemonStatus.v ===== *)
(** * The daemon's reports about itself (crate brehon-daemon)

    Snapshots of the registry and the counters, the readiness of a terminal host
    to own panes, and diagnostics about it. *)

From Stdlib Require Import Ascii.
From S2P Require Import Prelude Effects StrLib Chars Terminal Types Kv Ports RuntimeTypes PolicyGate Files Daemon DaemonProofs.

(** ** Terminal hosts *)

Module RuntimeTerminalHostDiagnosticSeverity.
Inductive RuntimeTerminalHostDiagnosticSeverity := Info | Warning | Error.
End RuntimeTerminalHostDiagnosticSeverity.
Abbreviation RuntimeTerminalHostDiagnosticSeverity :=
  RuntimeTerminalHostDiagnosticSeverity.RuntimeTerminalHostDiagnosticSeverity.

Record RuntimeTerminalHostDiagnostic := mkRuntimeTerminalHostDiagnostic {
  hd_severity : RuntimeTerminalHostDiagnosticSeverity;
  hd_code : string;
  hd_message : string;
  hd_action : option string
}.

Record RuntimeTerminalHostPromotionReadiness := mkRuntimeTerminalHostPromotionReadiness {
  hr_ready : bool;
  hr_blockers : list string
}.

Module RuntimeTerminalHostCommandRouting.
Inductive RuntimeTerminalHostCommandRouting := Mux | TerminalHost.
End RuntimeTerminalHostCommandRouting.
Abbreviation RuntimeTerminalHostCommandRouting := RuntimeTerminalHostCommandRouting.RuntimeTerminalHostCommandRouting.

Module RuntimeTerminalHostAgentFactoryRouting.
Inductive RuntimeTerminalHostAgentFactoryRouting := Mux | TerminalHost.
End RuntimeTerminalHostAgentFactoryRouting.
Abbreviation RuntimeTerminalHostAgentFactoryRouting :=
  RuntimeTerminalHostAgentFactoryRouting.RuntimeTerminalHostAgentFactoryRouting.

Record RuntimeTerminalHostStatus := mkRuntimeTerminalHostStatus {
  hs_kind : RuntimeTerminalHostKind;
  hs_experimental : bool;
  hs_observation_running : bool;
  hs_command_routing : RuntimeTerminalHostCommandRouting;
  hs_pane_ownership : RuntimeTerminalHostPaneOwnership;
  hs_agent_factory : RuntimeTerminalHostAgentFactoryRouting;
  hs_capabilities : option TerminalHostCapabilities;
  hs_promotion_readiness : RuntimeTerminalHostPromotionReadiness;
  hs_session_name : option string;
  hs_socket_name : option string;
  hs_socket_dir : option string;
  hs_binary_path : option string;
  hs_diagnostics : list RuntimeTerminalHostDiagnostic
}.

#[export] Instance eta_RuntimeTerminalHostStatus : Eta RuntimeTerminalHostStatus := fun h =>
  mkRuntimeTerminalHostStatus (hs_kind h) (hs_experimental h) (hs_observation_running h) (hs_command_routing h)
    (hs_pane_ownership h) (hs_agent_factory h) (hs_capabilities h) (hs_promotion_readiness h) (hs_session_name h)
    (hs_socket_name h) (hs_socket_dir h) (hs_binary_path h) (hs_diagnostics h).

(** [if condition { blockers.push(text) }] *)
Definition push_if (condition : bool) (text : string) : list string := if condition then [text] else [].

Definition host_blockers (host : RuntimeTerminalHostStatus) : list string :=
  push_if (bool_decide (hs_kind host = RuntimeTerminalHostKind.Embedded)) "embedded host is the production default"
  ++ push_if (match hs_command_routing host with RuntimeTerminalHostCommandRouting.TerminalHost => false | _ => true end)
       "daemon commands still route to mux"
  ++ push_if (bool_decide (hs_pane_ownership host <> RuntimeTerminalHostPaneOwnership.Host))
       "agent panes are still mux-owned"
  ++ push_if (match hs_agent_factory host with RuntimeTerminalHostAgentFactoryRouting.TerminalHost => false | _ => true end)
       "worker/reviewer/supervisor factory still mux-owned"
  ++ match hs_capabilities host with
     | Some capabilities =>
         push_if (negb (hc_absolute_resize capabilities)) "terminal host does not advertise absolute resize"
     | None => ["terminal-host capabilities are missing"]
     end.

Definition terminal_host_promotion_readiness (host : option RuntimeTerminalHostStatus)
    : RuntimeTerminalHostPromotionReadiness :=
  match host with
  | None => mkRuntimeTerminalHostPromotionReadiness false ["terminal host status is missing"]
  | Some host =>
      let blockers := host_blockers host in
      mkRuntimeTerminalHostPromotionReadiness (match blockers with [] => true | _ => false end) blockers
  end.

(** [{:?}] of a kind of host *)
Definition host_kind_debug (kind : RuntimeTerminalHostKind) : string :=
  match kind with
  | RuntimeTerminalHostKind.Embedded => "Embedded"
  | RuntimeTerminalHostKind.Headless => "Headless"
  | RuntimeTerminalHostKind.Web => "Web"
  | RuntimeTerminalHostKind.NativeGui => "NativeGui"
  end.

(** [path.exists()] is a parameter, the state of the machine. *)
Definition terminal_host_binary_path_is_missing (exists_ : string -> bool) (binary_path : string) : bool :=
  (starts_with "/" binary_path || occurs "/"%char binary_path) && negb (exists_ binary_path).

Definition terminal_host_exit_reason_is_host_loss (reason : string) : bool :=
  let reason := to_ascii_lowercase reason in
  contains "disappeared" reason || contains "no server running" reason || contains "session lost" reason
  || contains "host lost" reason.

Definition source_matches_terminal_host (kind : RuntimeTerminalHostKind) (source : RuntimeSource) : bool :=
  match kind, source with
  | RuntimeTerminalHostKind.Embedded, RuntimeSource.EmbeddedTui
  | RuntimeTerminalHostKind.Headless, RuntimeSource.Headless
  | RuntimeTerminalHostKind.Web, RuntimeSource.Web
  | RuntimeTerminalHostKind.NativeGui, RuntimeSource.NativeGui => true
  | _, _ => false
  end.

(** A pane that died with its terminal host. *)
Definition is_host_loss (kind : RuntimeTerminalHostKind) (pane : PaneRegistryEntry) : bool :=
  bool_decide (pe_state pane = RuntimePaneState.Dead)
  && match pe_source pane with Some source => source_matches_terminal_host kind source | None => false end
  && match pe_exit_reason pane with Some reason => terminal_host_exit_reason_is_host_loss reason | None => false end.

Definition host_loss_diagnostic (kind : RuntimeTerminalHostKind) (panes : list PaneRegistryEntry) (first : PaneRegistryEntry)
    : RuntimeTerminalHostDiagnostic :=
  mkRuntimeTerminalHostDiagnostic RuntimeTerminalHostDiagnosticSeverity.Error "terminal_host_session_lost"
    (pretty (length panes) +:+ " " +:+ host_kind_debug kind
      +:+ " pane(s) are dead after terminal-host loss; first=" +:+ pe_session_id first +:+ "/" +:+ pe_pane_id first
      +:+ " reason=" +:+ default "host disappeared" (pe_exit_reason first))
    (Some "reattach to inspect the external host if it still exists, otherwise reset or recycle affected panes after restarting the host").

Definition terminal_host_diagnostics (exists_ : string -> bool) (host : option RuntimeTerminalHostStatus)
    (panes : list PaneRegistryEntry) (running : bool) : list RuntimeTerminalHostDiagnostic :=
  match host with
  | None =>
      [mkRuntimeTerminalHostDiagnostic RuntimeTerminalHostDiagnosticSeverity.Warning "terminal_host_status_missing"
         "terminal host status is missing"
         (Some "restart brehon run so the launcher can publish terminal-host status")]
  | Some host =>
      if bool_decide (hs_kind host = RuntimeTerminalHostKind.Embedded) then []
      else
        match hs_binary_path host with
        | Some binary_path =>
            if terminal_host_binary_path_is_missing exists_ binary_path then
              [mkRuntimeTerminalHostDiagnostic RuntimeTerminalHostDiagnosticSeverity.Error "terminal_host_binary_missing"
                 ("terminal host binary '" +:+ binary_path +:+ "' does not exist")
                 (Some "set the terminal-host binary path to a valid executable")]
            else []
        | None => []
        end
        ++ match hs_capabilities host with
           | Some capabilities =>
               if negb (hc_absolute_resize capabilities) then
                 [mkRuntimeTerminalHostDiagnostic RuntimeTerminalHostDiagnosticSeverity.Warning
                    "terminal_host_absolute_resize_unsupported"
                    (host_kind_debug (hs_kind host) +:+ " does not advertise absolute resize")
                    (Some "keep promotion blocked or use a host that supports absolute pane resize")]
               else []
           | None => []
           end
        ++ match List.filter (is_host_loss (hs_kind host)) panes with
           | first :: _ as lost => if running then [host_loss_diagnostic (hs_kind host) lost first] else []
           | [] => []
           end
  end.

(** ** Status *)

Record RuntimeSidecarStatus := mkRuntimeSidecarStatus { ss_detection_running : bool; ss_workflow_running : bool }.

Record RuntimeDaemonMetrics := mkRuntimeDaemonMetrics {
  mt_event_capacity : nat;
  mt_subscriber_count : nat;
  mt_published_events : Z;
  mt_routed_commands : Z;
  mt_rejected_commands : Z;
  mt_deferred_commands : Z;
  mt_approval_required_commands : Z;
  mt_pending_approvals : nat;
  mt_audit_write_errors : Z
}.

Record RuntimeDaemonStatus := mkRuntimeDaemonStatus {
  ds_generated_at_ms : Z;
  ds_started_at_ms : Z;
  ds_uptime_ms : Z;
  ds_running : bool;
  ds_audit_log_path : option string;
  ds_approval_store_path : option string;
  ds_metrics : RuntimeDaemonMetrics;
  ds_registry_count : nat;
  ds_registry : list PaneRegistryEntry;
  ds_approvals : list PendingApprovalEntry;
  ds_sidecar : option RuntimeSidecarStatus;
  ds_terminal_host : option RuntimeTerminalHostStatus
}.

Definition pane_leb (a b : PaneRegistryEntry) : bool :=
  if String.eqb (pe_session_id a) (pe_session_id b) then str_leb (pe_pane_id a) (pe_pane_id b)
  else str_leb (pe_session_id a) (pe_session_id b).

Section status.
Context {ord : IterOrder string} {pane_ord : IterOrder PaneRegistryKey}.
Context `{PolicyGate} `{RuntimeCommandPort} `{Files}.
Context (config : RuntimeDaemonConfig) (clock : nat -> Z).
(** The capacity of the bus, the number of subscribers, the time of the start,
    the configured host and the files of the machine. *)
Context (capacity subscribers : nat) (started_at_ms : Z) (terminal_host : option RuntimeTerminalHostStatus).
Context (exists_ : string -> bool).
Abbreviation Op A := (SM RuntimeDaemon PortError A).

Definition pane_registry_snapshot : Op (list PaneRegistryEntry) :=
  let! registry := dm_get dm_registry in
  let! _ := dm_read clock in
  sm_ret (sort_by pane_leb (iter_map registry).*2).

Definition metrics : Op RuntimeDaemonMetrics :=
  let! counters := dm_get dm_counters in
  let! approvals := dm_get dm_approvals in
  sm_ret (mkRuntimeDaemonMetrics capacity subscribers (ctr_published_events counters) (ctr_routed_commands counters)
    (ctr_rejected_commands counters) (ctr_deferred_commands counters) (ctr_approval_required_commands counters)
    (size approvals) (ctr_audit_write_errors counters)).

Definition status (sidecar : option RuntimeSidecarStatus) : Op RuntimeDaemonStatus :=
  let! generated_at_ms := dm_read clock in
  let! registry := pane_registry_snapshot in
  let! approvals := approval_registry_snapshot clock in
  let! stopped := dm_get dm_stopped in
  let running := negb stopped in
  let host := (fun host =>
    let host := host <| hs_promotion_readiness := terminal_host_promotion_readiness (Some host) |> in
    host <| hs_diagnostics := terminal_host_diagnostics exists_ (Some host) registry running |>) <$> terminal_host in
  let! m := metrics in
  sm_ret (mkRuntimeDaemonStatus generated_at_ms started_at_ms (sat_sub generated_at_ms started_at_ms) running
    (dc_audit_log_path config) (dc_approval_store_path config) m (length registry) registry approvals sidecar host).

(** [RuntimeDaemonHeartbeat::write_current_status] *)
Definition write_current_status `{Json RuntimeDaemonStatus} (path : string) (sidecar : option RuntimeSidecarStatus)
    : Op unit :=
  let! st := status sidecar in
  match to_vec st with
  | Err err => sm_lift (Err (PortError.Runtime ("failed to encode runtime daemon status: " +:+ err)))
  | Ok encoded => write_atomic path encoded
  end.

(** A report names every pane once and changes nothing but the clock. *)
Lemma status_reports sidecar d :
  let '(d', r) := status sidecar d in
  d' = d <| dm_reads := 3 + dm_reads d |>
  /\ exists st, r = Ok st /\ ds_registry st ≡ₚ (map_to_list (dm_registry d)).*2
       /\ ds_registry_count st = size (dm_registry d) /\ ds_running st = negb (dm_stopped d)
       /\ ds_approvals st ≡ₚ (map_to_list (dm_approvals d)).*2.
Proof.
  cbn. split; [done|]. eexists. split; [done|]. cbn. split_and!.
  - by rewrite sort_by_perm, iter_map_perm.
  - by rewrite sort_by_perm, length_fmap, length_iter_map.
  - done.
  - by rewrite sort_by_perm, iter_map_perm.
Qed.
End status.

(** A host is ready exactly when it owns commands, panes and agents and can
    resize, and is not the default host. *)
Lemma ready_iff host :
  hr_ready (terminal_host_promotion_readiness (Some host)) = true <->
  hs_kind host <> RuntimeTerminalHostKind.Embedded
  /\ hs_command_routing host = RuntimeTerminalHostCommandRouting.TerminalHost
  /\ hs_pane_ownership host = RuntimeTerminalHostPaneOwnership.Host
  /\ hs_agent_factory host = RuntimeTerminalHostAgentFactoryRouting.TerminalHost
  /\ exists capabilities, hs_capabilities host = Some capabilities /\ hc_absolute_resize capabilities = true.
Proof.
  unfold terminal_host_promotion_readiness, host_blockers, push_if. cbn.
  destruct host as [[] e o [] [] [] [[? ? ? ? [] ? ?]|] r s1 s2 s3 b ds]; cbn; naive_solver.
Qed.
