(* ===== verification/ConfigLayers.v ===== *)
(** * Layers of configuration (brehon-config/src/lib.rs)

    A configuration is the built-in defaults overlaid with the global file and
    then with the project's: mappings are merged key by key, everything else is
    replaced.  A layer may not empty the required structure.  Environment
    variables are substituted in the environments of launchers.  The numbers of
    the YAML values are a parameter; parsing, and the typed configuration with
    its validation, are not modelled here. *)

From Stdlib Require Import Ascii.
From S2P Require Import Prelude StrLib Chars.

Module ConfigError.
Inductive ConfigError :=
| Parse (message : string) | Io (message : string) | Validation (message : string)
| AlreadyInitialized | Missing (message : string).
End ConfigError.
Abbreviation ConfigError := ConfigError.ConfigError.

Section yaml.
Context {Number : Type} `{EqDecision Number}.

(** [serde_yaml::Value]; mappings keep the order of insertion. *)
Inductive Value :=
| Null
| YBool (b : bool)
| YNumber (n : Number)
| YString (s : string)
| Sequence (l : list Value)
| Mapping (m : list (Value * Value))
| Tagged (tag : string) (value : Value).

#[export] Instance Value_eq_dec : EqDecision Value.
Proof.
  refine (fix go (x y : Value) : {x = y} + {x <> y} :=
    match x, y with
    | Null, Null => left eq_refl
    | YBool a, YBool b => cast_if (decide (a = b))
    | YNumber a, YNumber b => cast_if (decide (a = b))
    | YString a, YString b => cast_if (decide (a = b))
    | Sequence a, Sequence b => cast_if (@list_eq_dec _ go a b)
    | Mapping a, Mapping b => cast_if (@list_eq_dec _ (@prod_eq_dec _ go _ go) a b)
    | Tagged t a, Tagged u b => cast_if_and (decide (t = u)) (go a b)
    | _, _ => right _
    end); congruence.
Defined.

(** [Mapping::get] *)
Fixpoint map_get (m : list (Value * Value)) (key : Value) : option Value :=
  match m with
  | [] => None
  | (k, v) :: m => if decide (k = key) then Some v else map_get m key
  end.

(** [*map.get_mut(&key).unwrap() = value] *)
Fixpoint map_set (m : list (Value * Value)) (key value : Value) : list (Value * Value) :=
  match m with
  | [] => []
  | (k, v) :: m => if decide (k = key) then (k, value) :: m else (k, v) :: map_set m key value
  end.

Fixpoint merge_yaml_overlay (base overlay : Value) {struct overlay} : Value :=
  match base, overlay with
  | Mapping base_map, Mapping overlay_map =>
      Mapping ((fix merge_entries (overlay_map base_map : list (Value * Value)) :=
        match overlay_map with
        | [] => base_map
        | (key, overlay_value) :: overlay_map =>
            merge_entries overlay_map
              match map_get base_map key with
              | Some base_value => map_set base_map key (merge_yaml_overlay base_value overlay_value)
              | None => base_map ++ [(key, overlay_value)]
              end
        end) overlay_map base_map)
  | _, _ => overlay
  end.

(** [Value::untag_ref] and the accessors, which look through tags *)
Fixpoint untag (v : Value) : Value := match v with Tagged _ v => untag v | _ => v end.
Definition value_get (v : Value) (key : string) : option Value :=
  match untag v with Mapping m => map_get m (YString key) | _ => None end.
Definition as_mapping (v : Value) : option (list (Value * Value)) :=
  match untag v with Mapping m => Some m | _ => None end.
Definition as_sequence (v : Value) : option (list Value) :=
  match untag v with Sequence l => Some l | _ => None end.
Definition as_str (v : Value) : option string :=
  match untag v with YString s => Some s | _ => None end.

Definition is_empty_sequence (v : Value) : bool := match as_sequence v with Some [] => true | _ => false end.
Definition is_empty_mapping (v : Value) : bool := match as_mapping v with Some [] => true | _ => false end.

(** The violation of one entry of [roles]. *)
Definition role_violation (entry : Value * Value) : list string :=
  match as_str (entry.1) with
  | Some key =>
      if String.eqb key "workers" && is_empty_sequence (entry.2) then ["must not set 'roles.workers' to an empty list"]
      else if String.eqb key "reviewers" && is_empty_sequence (entry.2)
      then ["must not set 'roles.reviewers' to an empty list"]
      else []
  | None => []
  end.

Definition violations (value : Value) : list string :=
  match value_get value "lanes" with
  | Some lanes => if is_empty_mapping lanes then ["must not set 'lanes' to an empty map"] else []
  | None => []
  end
  ++ match value_get value "roles" with
     | Some roles => match as_mapping roles with Some roles => roles ≫= role_violation | None => [] end
     | None => []
     end.

Definition validate_required_structure_layer (value : Value) : Result unit ConfigError :=
  match violations value with
  | [] => Ok tt
  | found => Err (ConfigError.Validation ("Config layer has invalid required structure: " +:+ join ", " found))
  end.

(** ** Layers *)

Section layers.
(** [serde_yaml::from_str] *)
Context (from_str : string -> Result Value string).

Definition parse_config_yaml_layer (content layer_name : string) : Result Value ConfigError :=
  let? value := result_map_err (fun err => ConfigError.Parse ("Failed to parse " +:+ layer_name +:+ ": " +:+ err))
                  (from_str content) in
  let? _ := validate_required_structure_layer value in
  Ok value.

(** A file that is not there, or what reading it returns. *)
Abbreviation LayerFile := (option (Result string string)).

Definition load_layer (io_message layer_name : string) (file : LayerFile) : Result (option Value) ConfigError :=
  match file with
  | None => Ok None
  | Some read =>
      let? content := result_map_err (fun e => ConfigError.Io (io_message +:+ e)) read in
      let? value := parse_config_yaml_layer content layer_name in
      Ok (Some value)
  end.

Definition load_global_config_value : LayerFile -> Result (option Value) ConfigError :=
  load_layer "Failed to read global config: " "global config".

Definition load_config_file_value (layer_name : string) : LayerFile -> Result (option Value) ConfigError :=
  load_layer "Failed to read project config: " layer_name.

Definition parse_defaults_value (defaults : string) : Result Value ConfigError :=
  result_map_err (fun e => ConfigError.Parse ("Failed to parse defaults: " +:+ e)) (from_str defaults).

Definition overlay_layer (base : Value) (layer : option Value) : Value :=
  match layer with Some layer => merge_yaml_overlay base layer | None => base end.

(** [load_config_with_override] and [load_config_from_merged_value], up to the
    merged value: [override] is [Some] file of the override path, if one was
    given, [project] the file of the project, if a project was given. *)
Definition merged_config_value (defaults : string) (global : LayerFile) (override project : option LayerFile)
    : Result Value ConfigError :=
  let? merged := parse_defaults_value defaults in
  let? global := load_global_config_value global in
  let merged := overlay_layer merged global in
  let? project := match override with
    | Some file => load_config_file_value "project config override" file
    | None => match project with Some file => load_config_file_value "project config" file | None => Ok None end
    end in
  Ok (overlay_layer merged project).
End layers.
End yaml.

(** ** Environment placeholders *)

(** [env::var] *)
Module EnvVar.
Inductive EnvVar := Present (value : string) | NotPresent | NotUnicode.
End EnvVar.
Abbreviation EnvVar := EnvVar.EnvVar.

(** [str::split_once] and [str::find], as the text before and after *)
Fixpoint split_once (needle s : string) : option (string * string) :=
  match strip_prefix needle s with
  | Some rest => Some ("", rest)
  | None =>
      match s with
      | EmptyString => None
      | String c s => match split_once needle s with Some (a, b) => Some (String c a, b) | None => None end
      end
  end.

Section env.
Context (env : string -> EnvVar).

Definition OPEN : string := "${".

(** The text an expression stands for. *)
Definition resolve_expr (raw expr : string) : Result string string :=
  match split_once ":-" expr with
  | Some (var, dflt) =>
      let var := trim var in
      if String.eqb var "" then Err ("empty env var name in '" +:+ raw +:+ "'")
      else match env var with
      | EnvVar.Present value => if String.eqb value "" then Ok dflt else Ok value
      | EnvVar.NotPresent => Ok dflt
      | EnvVar.NotUnicode => Err ("environment variable " +:+ var +:+ " is not valid unicode")
      end
  | None =>
      let var := trim expr in
      if String.eqb var "" then Err ("empty env var name in '" +:+ raw +:+ "'")
      else match env var with
      | EnvVar.Present value => Ok value
      | EnvVar.NotPresent => Err ("missing environment variable " +:+ var)
      | EnvVar.NotUnicode => Err ("environment variable " +:+ var +:+ " is not valid unicode")
      end
  end.

(** The loop; [fuel] bounds its turns, of which each shortens [rest]. *)
Fixpoint interpolate_loop (fuel : nat) (raw out rest : string) : Result string string :=
  match fuel with
  | O => Ok (out +:+ rest)
  | S fuel =>
      match split_once OPEN rest with
      | None => Ok (out +:+ rest)
      | Some (before, after_start) =>
          match split_once "}" after_start with
          | None => Err ("unclosed interpolation in '" +:+ raw +:+ "'")
          | Some (expr, rest) =>
              let? resolved := resolve_expr raw expr in
              interpolate_loop fuel raw (out +:+ before +:+ resolved) rest
          end
      end
  end.

Definition interpolate_env_value (raw : string) : Result string string :=
  if negb (contains OPEN raw) then Ok raw else interpolate_loop (S (String.length raw)) raw "" raw.

(** [resolve_launcher_env_placeholders]: the environments of the launchers *)
Context {ord : IterOrder string}.

Fixpoint resolve_entries (launcher_name : string) (entries : list (string * string)) (acc : gmap string string)
    : Result (gmap string string) ConfigError :=
  match entries with
  | [] => Ok acc
  | (env_key, env_value) :: entries =>
      let? value := result_map_err (fun err =>
          ConfigError.Missing ("launchers." +:+ launcher_name +:+ ".env." +:+ env_key +:+ ": " +:+ err))
        (interpolate_env_value env_value) in
      resolve_entries launcher_name entries (<[env_key := value]> acc)
  end.

Fixpoint resolve_launchers (launchers : list (string * gmap string string)) (acc : gmap string (gmap string string))
    : Result (gmap string (gmap string string)) ConfigError :=
  match launchers with
  | [] => Ok acc
  | (launcher_name, launcher_env) :: launchers =>
      let? resolved := resolve_entries launcher_name (iter_map launcher_env) launcher_env in
      resolve_launchers launchers (<[launcher_name := resolved]> acc)
  end.

Definition resolve_launcher_env_placeholders (launchers : gmap string (gmap string string))
    : Result (gmap string (gmap string string)) ConfigError := resolve_launchers (iter_map launchers) launchers.
End env.

(** ** What an overlay sets *)

Section merging.
Context {Number : Type} `{EqDecision Number}.
Abbreviation Value := (Value (Number := Number)).

(** Keys are distinct in every mapping, as [serde_yaml] has it. *)
Fixpoint unique_keys (v : Value) : Prop :=
  match v with
  | Mapping m => NoDup m.*1 /\ (fix all (m : list (Value * Value)) : Prop :=
      match m with [] => True | (_, v) :: m => unique_keys v /\ all m end) m
  | _ => True
  end.

(** The value below a path of keys. *)
Fixpoint at_path (v : Value) (path : list Value) : option Value :=
  match path with
  | [] => Some v
  | key :: path =>
      match v with
      | Mapping m => match map_get m key with Some v => at_path v path | None => None end
      | _ => None
      end
  end.

(** What a layer says of a path: a value, nothing, or that there is no such path,
    since something that is no mapping is in the way. *)
Inductive Setting := Found (v : Value) | Silent | Cut.

Fixpoint setting (layer : Value) (path : list Value) : Setting :=
  match path with
  | [] => Found layer
  | key :: path =>
      match layer with
      | Mapping m => match map_get m key with Some v => setting v path | None => Silent end
      | _ => Cut
      end
  end.

(** A value over what is below it. *)
Definition over (below : option Value) (v : Value) : Value :=
  match below with Some b => merge_yaml_overlay b v | None => v end.

Definition overlay_at (below : option Value) (layer : Value) (path : list Value) : option Value :=
  match setting layer path with Found v => Some (over below v) | Silent => below | Cut => None end.

Definition put (m : list (Value * Value)) (entry : Value * Value) : list (Value * Value) :=
  match map_get m (entry.1) with
  | Some b => map_set m (entry.1) (merge_yaml_overlay b (entry.2))
  | None => m ++ [entry]
  end.

Lemma merge_mappings (bm om : list (Value * Value)) : merge_yaml_overlay (Mapping bm) (Mapping om) = Mapping (foldl put bm om).
Proof.
  cbn. f_equal. revert bm. induction om as [|[k v] om IH]; intros bm; [done|]. cbn [foldl]. rewrite <-IH. done.
Qed.

Lemma merge_other (b o : Value) : (forall bm om, b = Mapping bm -> o = Mapping om -> False) -> merge_yaml_overlay b o = o.
Proof. intros Hno. destruct b, o; try done. by exfalso; eapply Hno. Qed.

Lemma map_get_None (m : list (Value * Value)) key : map_get m key = None <-> key ∉ m.*1.
Proof.
  induction m as [|[k v] m IH]; cbn; [split; [intros _; apply not_elem_of_nil|done]|].
  rewrite not_elem_of_cons. case_decide; naive_solver.
Qed.

Lemma map_get_elem (m : list (Value * Value)) key v : map_get m key = Some v -> (key, v) ∈ m.
Proof. induction m as [|[k w] m IH]; cbn; [done|]. case_decide; [intros [= ->]; subst; left|right; auto]. Qed.

Lemma map_get_set (m : list (Value * Value)) key v key' :
  is_Some (map_get m key) -> map_get (map_set m key v) key' = if decide (key' = key) then Some v else map_get m key'.
Proof.
  induction m as [|[k w] m IH]; cbn; [by intros []|].
  destruct (decide (k = key)) as [->|Hne]; cbn; [intros _; repeat case_decide; congruence|].
  intros Hm. rewrite IH by done. repeat case_decide; congruence.
Qed.

Lemma map_get_snoc (m : list (Value * Value)) key v key' :
  map_get m key = None -> map_get (m ++ [(key, v)]) key' = if decide (key' = key) then Some v else map_get m key'.
Proof.
  induction m as [|[k w] m IH]; cbn; [intros _; repeat case_decide; congruence|].
  destruct (decide (k = key)); [done|]. intros Hm. rewrite IH by done. repeat case_decide; congruence.
Qed.

Lemma map_get_put m entry key :
  map_get (put m entry) key = if decide (key = entry.1) then Some (over (map_get m key) (entry.2)) else map_get m key.
Proof.
  unfold put. destruct entry as [k v]; cbn. destruct (map_get m k) as [b|] eqn:E.
  - rewrite map_get_set by done. case_decide; [subst; by rewrite E|done].
  - rewrite map_get_snoc by done. case_decide; [subst; by rewrite E|done].
Qed.

Lemma map_get_merged om : forall (bm : list (Value * Value)) key, NoDup om.*1 ->
  map_get (foldl put bm om) key =
  match map_get om key with Some v => Some (over (map_get bm key) v) | None => map_get bm key end.
Proof.
  induction om as [|[k v] om IH]; intros bm key; cbn; [done|]. intros [Hk Hnd]%NoDup_cons.
  rewrite IH, map_get_put by done. cbn. apply map_get_None in Hk.
  repeat case_decide; simplify_eq; [by rewrite Hk|done].
Qed.

Lemma unique_value (m : list (Value * Value)) key v : unique_keys (Mapping m) -> map_get m key = Some v -> unique_keys v.
Proof.
  intros [_ Hall] Hv. induction m as [|[k w] m IH]; cbn in *; [done|].
  destruct Hall as [Hw Hall]. case_decide; [by simplify_eq|by apply IH].
Qed.

Lemma at_path_setting path : forall v : Value,
  at_path v path = match setting v path with Found w => Some w | _ => None end.
Proof.
  induction path as [|key path IH]; intros v; cbn; [done|]. destruct v; try done. by destruct (map_get m key).
Qed.

(** The value below a path after a merge. *)
Lemma merge_at_path path : forall b o : Value, unique_keys o ->
  at_path (merge_yaml_overlay b o) path = overlay_at (at_path b path) o path.
Proof.
  unfold overlay_at. induction path as [|key path IH]; intros b o Ho; [done|].
  destruct o as [| | | | |om|]; cbn [at_path setting]; try (rewrite merge_other by done; done).
  assert (Hcases : (exists bm, b = Mapping bm) \/ forall bm, b <> Mapping bm) by (destruct b; [right; done..|left; eauto|right; done]).
  destruct Hcases as [[bm ->]|Hb].
  - rewrite merge_mappings, map_get_merged by apply Ho.
    destruct (map_get om key) as [v|] eqn:Hv; [|done].
    destruct (map_get bm key) as [bv|]; cbn [over]; [apply IH; by eapply unique_value|].
    rewrite at_path_setting. by destruct (setting v path).
  - rewrite merge_other by (intros; by eapply Hb).
    assert (Hnone : at_path b (key :: path) = None) by (cbn; destruct b; try done; by destruct (Hb m)).
    cbn [at_path] in Hnone. rewrite Hnone. destruct (map_get om key) as [v|] eqn:Hv; [|done].
    rewrite at_path_setting. by destruct (setting v path).
Qed.
End merging.

(** ** The required structure *)

Section structure.
Context {Number : Type} `{EqDecision Number}.
Abbreviation Value := (Value (Number := Number)).

Definition LANES : list Value := [YString "lanes"].
Definition WORKERS : list Value := [YString "roles"; YString "workers"].
Definition REVIEWERS : list Value := [YString "roles"; YString "reviewers"].

(** Lanes, workers and reviewers are not set to something empty. *)
Definition required_structure (v : Value) : Prop :=
  (forall w, at_path v LANES = Some w -> is_empty_mapping w = false) /\
  (forall w, at_path v WORKERS = Some w -> is_empty_sequence w = false) /\
  (forall w, at_path v REVIEWERS = Some w -> is_empty_sequence w = false).

Lemma at_path_cons_Some (v w : Value) key path : at_path v (key :: path) = Some w ->
  exists m u, v = Mapping m /\ map_get m key = Some u /\ at_path u path = Some w.
Proof. cbn. destruct v; try done. destruct (map_get m key) as [u|] eqn:E; [|done]. eauto. Qed.

Lemma accepted_structure (v : Value) : violations v = [] -> required_structure v.
Proof.
  unfold violations. intros [Hlanes Hroles]%app_nil.
  assert (Hrole : forall key w, at_path v [YString "roles"; YString key] = Some w -> role_violation (YString key, w) = []).
  { intros key w (m & r & -> & Hr & (rm & w' & -> & Hw & [= ->])%at_path_cons_Some)%at_path_cons_Some.
    unfold value_get in Hroles. cbn [untag] in Hroles. rewrite Hr in Hroles. cbn [as_mapping untag] in Hroles.
    apply map_get_elem in Hw. apply elem_of_nil_inv. intros x Hx. apply (not_elem_of_nil x). rewrite <-Hroles.
    apply list_elem_of_bind. eauto. }
  split_and!.
  - intros w (m & w' & -> & Hw & [= ->])%at_path_cons_Some. unfold value_get in Hlanes. cbn [untag] in Hlanes.
    rewrite Hw in Hlanes. by destruct (is_empty_mapping w).
  - intros w Hw%Hrole. cbn in Hw. by destruct (is_empty_sequence w).
  - intros w Hw%Hrole. cbn in Hw. by destruct (is_empty_sequence w).
Qed.

Lemma over_sequence below (v : Value) : is_empty_sequence v = false -> is_empty_sequence (over below v) = false.
Proof. destruct below as [[]|], v; done. Qed.

Lemma put_nonempty (m : list (Value * Value)) entry : put m entry <> [].
Proof.
  unfold put. destruct (map_get m (entry.1)) eqn:E; [|by destruct m]. destruct m as [|[k w] m]; [done|]. cbn. by case_decide.
Qed.

Lemma over_mapping below (v : Value) : is_empty_mapping v = false -> is_empty_mapping (over below v) = false.
Proof.
  destruct below as [b|]; [|done]. intros Hv. cbn [over].
  destruct b as [| | | | |bm|]; try (by rewrite merge_other). destruct v as [| | | | |om|]; try (by rewrite merge_other).
  rewrite merge_mappings. destruct om as [|e om] using rev_ind; [done|]. rewrite foldl_app. cbn [foldl].
  unfold is_empty_mapping. cbn. pose proof (put_nonempty (foldl put bm om) e). by destruct (put _ e).
Qed.

(** A property of the value below a path that no layer breaks. *)
Lemma overlay_keeps (P : Value -> Prop) (b o : Value) path :
  (forall below v, P v -> P (over below v)) -> unique_keys o ->
  (forall w, at_path b path = Some w -> P w) -> (forall w, at_path o path = Some w -> P w) ->
  forall w, at_path (merge_yaml_overlay b o) path = Some w -> P w.
Proof.
  intros Hover Hu Hb Ho w. rewrite merge_at_path by done. unfold overlay_at. rewrite at_path_setting in Ho.
  destruct (setting o path); [intros [= <-]; auto|auto|done].
Qed.

Lemma overlay_structure (b o : Value) : unique_keys o ->
  required_structure b -> required_structure o -> required_structure (merge_yaml_overlay b o).
Proof.
  intros Hu (Hb1 & Hb2 & Hb3) (Ho1 & Ho2 & Ho3). split_and!;
    (eapply overlay_keeps; [|done..]; auto using over_sequence, over_mapping).
Qed.

(** ** Layers over each other *)

Section layering.
Context (from_str : string -> Result Value string).
Hypothesis from_str_unique : forall content v, from_str content = Ok v -> unique_keys v.

(** What a layer file contributes. *)
Definition contributes (file : option (Result string string)) (layer : option Value) : Prop :=
  match file with
  | None => layer = None
  | Some read => exists content v, read = Ok content /\ from_str content = Ok v /\ violations v = [] /\ layer = Some v
  end.

Definition overlay_layer_at (below : option Value) (layer : option Value) (path : list Value) : option Value :=
  match layer with Some layer => overlay_at below layer path | None => below end.

Lemma load_layer_Ok io_message layer_name file layer :
  load_layer from_str io_message layer_name file = Ok layer <-> contributes file layer.
Proof.
  unfold load_layer, contributes, parse_config_yaml_layer, validate_required_structure_layer.
  destruct file as [[content|e]|]; cbn; [| |split; congruence].
  - split.
    + destruct (from_str content) as [v|e] eqn:E; cbn; [|done]. destruct (violations v) eqn:Hv; cbn; [|done].
      intros [= <-]. eauto 10.
    + intros (content' & v & [= <-] & Hv & Hn & ->). rewrite Hv. cbn. by rewrite Hn.
  - split; [done|]. by intros (? & ? & ? & _).
Qed.

Lemma overlay_layer_at_path base file layer path : contributes file layer ->
  at_path (overlay_layer base layer) path = overlay_layer_at (at_path base path) layer path.
Proof.
  destruct file as [read|]; cbn; [|by intros ->]. intros (content & v & _ & Hv & _ & ->). cbn.
  apply merge_at_path. eauto.
Qed.

Lemma overlay_layer_structure base file layer : contributes file layer ->
  required_structure base -> required_structure (overlay_layer base layer).
Proof.
  destruct file as [read|]; cbn; [|by intros ->]. intros (content & v & _ & Hv & Hok & ->) Hb. cbn.
  apply overlay_structure; eauto using accepted_structure.
Qed.

(** The file of the project layer: the override when there is one. *)
Definition project_file (override project : option (option (Result string string))) : option (Result string string) :=
  match override with Some file => file | None => default None project end.

Lemma project_layer_Ok override project layer :
  match override with
  | Some file => load_config_file_value from_str "project config override" file
  | None => match project with Some file => load_config_file_value from_str "project config" file | None => Ok None end
  end = Ok layer <-> contributes (project_file override project) layer.
Proof.
  destruct override as [file|]; [apply load_layer_Ok|]. destruct project as [file|]; [apply load_layer_Ok|].
  cbn. split; congruence.
Qed.

End layering.
End structure.

(** ** Interpolation *)

Lemma starts_with_longer p s t : starts_with p s = true -> starts_with p (s +:+ t) = true.
Proof. rewrite !starts_with_iff. intros [r ->]. exists (r +:+ t). apply append_assoc. Qed.

Lemma split_once_None needle s : split_once needle s = None <-> contains needle s = false.
Proof.
  induction s as [|c s IH]; cbn; unfold starts_with; destruct (strip_prefix needle _) eqn:E; cbn; try done.
  destruct (split_once needle s) as [[a b]|]; [|naive_solver]. split; [done|]. intros Hs. by apply IH in Hs.
Qed.

Lemma split_once_Some needle s a b : needle <> "" -> split_once needle s = Some (a, b) ->
  s = a +:+ needle +:+ b /\ contains needle a = false.
Proof.
  intros Hne. revert a b. induction s as [|c s IH]; intros a b; cbn; destruct (strip_prefix needle _) as [rest|] eqn:E.
  1, 3: intros [= <- <-]; apply strip_prefix_Some in E; split; [done|]; cbn; unfold starts_with; by destruct needle.
  { done. }
  destruct (split_once needle s) as [[a' b']|]; [|done]. intros [= <- <-].
  destruct (IH a' b' eq_refl) as [-> Ha]. split; [by rewrite append_cons|]. cbn. rewrite Ha, orb_false_r.
  destruct (starts_with needle (String c a')) eqn:Hs; [|done].
  apply (starts_with_longer _ _ (needle +:+ b')) in Hs. unfold starts_with in Hs. by rewrite append_cons, E in Hs.
Qed.

(** A text as literal pieces with expressions between them, closed or not. *)
Inductive Tail := Closed (text : string) | Unclosed (text rest : string).

Definition render_tail (tail : Tail) : string :=
  match tail with Closed text => text | Unclosed text rest => text +:+ OPEN +:+ rest end.

Fixpoint render_pieces (pieces : list (string * string)) (tail : Tail) : string :=
  match pieces with
  | [] => render_tail tail
  | (text, expr) :: pieces => text +:+ OPEN +:+ expr +:+ "}" +:+ render_pieces pieces tail
  end.

Definition tail_ok (tail : Tail) : Prop :=
  match tail with
  | Closed text => contains OPEN text = false
  | Unclosed text rest => contains OPEN text = false /\ contains "}" rest = false
  end.

Definition pieces_ok (pieces : list (string * string)) (tail : Tail) : Prop :=
  Forall (fun p => contains OPEN p.1 = false /\ contains "}" p.2 = false) pieces /\ tail_ok tail.

Section interpolation.
Context (env : string -> EnvVar).

(** The text with its expressions resolved, or the first error. *)
Fixpoint resolve_pieces (raw : string) (pieces : list (string * string)) (tail : Tail) : Result string string :=
  match pieces with
  | [] =>
      match tail with
      | Closed text => Ok text
      | Unclosed _ _ => Err ("unclosed interpolation in '" +:+ raw +:+ "'")
      end
  | (text, expr) :: pieces =>
      let? resolved := resolve_expr env raw expr in
      let? rest := resolve_pieces raw pieces tail in
      Ok (text +:+ resolved +:+ rest)
  end.

Lemma interpolate_loop_exact raw fuel : forall out rest, String.length rest < fuel ->
  exists pieces tail, pieces_ok pieces tail /\ rest = render_pieces pieces tail /\
    interpolate_loop env fuel raw out rest = let? text := resolve_pieces raw pieces tail in Ok (out +:+ text).
Proof.
  induction fuel as [|fuel IH]; intros out rest Hfuel; [lia|]. cbn [interpolate_loop].
  destruct (split_once OPEN rest) as [[before after]|] eqn:Hopen; cycle 1.
  { exists [], (Closed rest). apply split_once_None in Hopen. by split_and!; [split|..]. }
  apply split_once_Some in Hopen as [-> Hbefore]; [|done].
  destruct (split_once "}" after) as [[expr rest]|] eqn:Hclose; cycle 1.
  { exists [], (Unclosed before after). apply split_once_None in Hclose. by split_and!; [split|..]. }
  apply split_once_Some in Hclose as [-> Hexpr]; [|done].
  destruct (IH (out +:+ before +:+ default "" match resolve_expr env raw expr with Ok t => Some t | Err _ => None end) rest)
    as (pieces & tail & [Hp Ht] & -> & Hloop).
  { rewrite !length_append in Hfuel. cbn in Hfuel. lia. }
  exists ((before, expr) :: pieces), tail. split; [by split; [constructor|]|]. split; [done|].
  cbn [resolve_pieces]. destruct (resolve_expr env raw expr) as [t|e]; cbn [result_bind]; [|done].
  cbn [default from_option id] in Hloop. rewrite Hloop. destruct (resolve_pieces raw pieces tail); cbn; [|done].
  by rewrite !append_assoc.
Qed.

(** The value of a variable is its text with every expression between "${" and
    the next "}" resolved, from left to right and once: what is substituted is
    not read again.  The first expression that cannot be resolved, or the one
    that is not closed, is the error. *)
Theorem interpolation_exact raw : exists pieces tail,
  pieces_ok pieces tail /\ raw = render_pieces pieces tail /\
  interpolate_env_value env raw = resolve_pieces raw pieces tail.
Proof.
  unfold interpolate_env_value. destruct (contains OPEN raw) eqn:Hc; cbn [negb].
  - destruct (interpolate_loop_exact raw (S (String.length raw)) "" raw) as (pieces & tail & Hok & Hraw & ->); [lia|].
    exists pieces, tail. split_and!; [done..|]. by destruct (resolve_pieces raw pieces tail).
  - exists [], (Closed raw). by split_and!; [split|..].
Qed.
End interpolation.

Module ConfigSample.
(** Values with natural numbers, and a parser of three texts. *)
Abbreviation V := (Value (Number := nat)).
Definition defaults : V :=
  Mapping [(YString "lanes", Mapping [(YString "codex", YString "a")]); (YString "tui", Mapping [(YString "toast", YNumber 5)]);
           (YString "roles", Mapping [(YString "workers", Sequence [YString "codex"])])].
Definition project_layer : V := Mapping [(YString "tui", Mapping [(YString "toast", YNumber 9); (YString "flash", YBool true)])].
Definition parse (content : string) : Result V string :=
  if String.eqb content "defaults" then Ok defaults
  else if String.eqb content "project" then Ok project_layer
  else Err "no such text".

Lemma parse_unique content v : parse content = Ok v -> unique_keys v.
Proof.
  unfold parse. repeat case_match; intros [= <-]; cbn; repeat (split || constructor); set_solver.
Defined.


(** A layer that uses another spelling of a key of the defaults ends up beside it:
    both keys are in the merged value. *)
Lemma alias_stays_beside : forall v,
  at_path (merge_yaml_overlay (Mapping [(YString "launchers", Null)]) (Mapping [(YString "agents", v)] : V))
    [YString "launchers"] = Some Null /\
  at_path (merge_yaml_overlay (Mapping [(YString "launchers", Null)]) (Mapping [(YString "agents", v)] : V))
    [YString "agents"] = Some v.
Proof. done. Qed.

Example interpolated :
  interpolate_env_value (fun var => if String.eqb var "HOME" then EnvVar.Present "/root" else EnvVar.NotPresent)
    "p=${HOME}/${ X :-y}." = Ok "p=/root/y.".
Proof. vm_compute. reflexivity. Qed.
End ConfigSample.
