(* ===== verification/Stored.v ===== *)
(** * Components over the stored log

    The event port of FjallPort.v in the place of the abstract one: what was
    proved of a client from the laws of the port holds over the log that the
    store keeps on disk, with its faults, archive and restarts. *)

From S2P Require Import Prelude StrLib Chars Types Events Keys Kv Queue Keyspace Views Recovery Ports EventLog LogState LogSteps LogRuns FjallPort Feedback Supervisor SupervisorProofs SupervisorRuns.

Section stored.
Context {ord : IterOrder string} `{KeyspaceLaws} `{Json TaskStatus} `{Json ReviewStatus}
  `{Json TaskView} `{Json ReviewView} `{JsonLaws EventEnvelope} `{Json QueueClaim}.
Context (join_error : Panic -> string) (epoch : string) (clock : nat -> nat -> ClockReading) (uuid : nat -> string).

#[local] Instance stored_events : EventStore := fjall_event_store join_error epoch clock uuid.
#[local] Instance stored_stream : EventStream := fjall_event_stream join_error epoch clock uuid.
#[local] Instance stored_laws : EventStreamLaws := fjall_stream_laws join_error epoch clock uuid.
#[local] Instance stored_order : EventStreamOrder := fjall_stream_order join_error epoch clock uuid.

Context `{TextOps} `{!AgentGateway} `{!AgentSessions} `{!DecisionEngine}.

(** A supervisor that starts over the stored log: hydration ends, with an error
    of the store or with the keys of exactly the triggers the log shows, hot or
    archived. *)
Theorem stored_hydration (s : Supervisor) fuel :
  length (shown (po_store (sv_store s))) < fuel ->
  exists s' r, hydrate_feedback_dedup_keys fuel s = (s', r) /\ r <> Ok false
    /\ shown (po_store (sv_store s')) = shown (po_store (sv_store s))
    /\ (r = Ok true -> sv_known_keys s' = sv_known_keys s ∪ list_to_set (trigger_keys (shown (po_store (sv_store s))))).
Proof.
  intros Hfuel. pose proof (hydrate_loop_spec fuel None s) as Hspec.
  assert (Hall : List.filter (after None) (held s) = held s) by (by apply forallb_filter_id, forallb_forall).
  rewrite Hall in Hspec. by apply Hspec.
Qed.
End stored.
