(* ===== verification/Wire.v ===== *)
(** * Wire format of protocol messages (brehon-protocol)

    A message is serialized as MessagePack, compressed with LZ4 when that makes
    it smaller, and sent as one binary WebSocket frame, or behind a length
    prefix on a stream.  MessagePack ([rmp_serde]) and LZ4 ([lz4_flex]) are not
    part of the repository: [Codec] lists the calls, [CodecLaws] the round trips
    both crates document.  Proved here: what was encoded is decoded again, on
    every path; the length prefix is exact below four gigabytes; a receiver sees
    the messages sent, in order, whatever control frames come in between. *)

From Stdlib Require Import Ascii.
From S2P Require Import Prelude StrLib Keyspace.

(** ** The crates the codec calls *)

Record EncodeError := mkEncodeError { ee_message : string }.
Record DecodeError := mkDecodeError { de_message : string }.
Record DecompressError := mkDecompressError { dc_message : string }.

Class Codec (T : Type) := {
  to_vec_named : T -> Result string EncodeError;
  from_slice : string -> Result T DecodeError;
  compress_prepend_size : string -> string;
  decompress_size_prepended : string -> Result string DecompressError
}.

Class CodecLaws (T : Type) `{Codec T} := {
  from_to_vec : forall (m : T) bytes, to_vec_named m = Ok bytes -> from_slice bytes = Ok m;
  decompress_compress : forall data, decompress_size_prepended (compress_prepend_size data) = Ok data
}.

(** ** Compression (compression.rs) *)

Definition PREFIX_UNCOMPRESSED : Z := 0.
Definition PREFIX_COMPRESSED : Z := 1.
Definition COMPRESSION_THRESHOLD : nat := 256.

Module CompressionError.
Inductive CompressionError :=
| Compress (message : string)
| Decompress (e : DecompressError)
| InvalidPrefix (prefix : Z)
| DataTooShort.
End CompressionError.
Abbreviation CompressionError := CompressionError.CompressionError.

Definition byte_of (z : Z) : ascii := ascii_of_N (Z.to_N z).
Definition byte_value (c : ascii) : Z := Z.of_N (N_of_ascii c).

Section codec.
Context {T : Type} `{Codec T}.

Definition compress (data : string) : string :=
  let compressed := compress_prepend_size data in
  if (COMPRESSION_THRESHOLD <? String.length data)%nat
     && (String.length compressed <? String.length data)%nat
  then String (byte_of PREFIX_COMPRESSED) compressed
  else String (byte_of PREFIX_UNCOMPRESSED) data.

Definition decompress (data : string) : Result string CompressionError :=
  match data with
  | EmptyString => Err CompressionError.DataTooShort
  | String c payload =>
      let prefix := byte_value c in
      if (prefix =? PREFIX_UNCOMPRESSED)%Z then Ok payload
      else if (prefix =? PREFIX_COMPRESSED)%Z
      then result_map_err CompressionError.Decompress (decompress_size_prepended payload)
      else Err (CompressionError.InvalidPrefix prefix)
  end.

(** ** MessagePack codec and framing (codec.rs) *)

Inductive ProtocolError :=
| Encode (e : EncodeError)
| Decode (e : DecodeError)
| Compression (e : CompressionError).

Definition encode (msg : T) : Result string ProtocolError :=
  let? msgpack := result_map_err Encode (to_vec_named msg) in
  Ok (compress msgpack).

Definition decode (bytes : string) : Result T ProtocolError :=
  let? msgpack := result_map_err Compression (decompress bytes) in
  result_map_err Decode (from_slice msgpack).

Definition encode_raw (msg : T) : Result string ProtocolError :=
  result_map_err Encode (to_vec_named msg).

Definition decode_raw (bytes : string) : Result T ProtocolError :=
  result_map_err Decode (from_slice bytes).

Definition encode_framed (msg : T) : Result string ProtocolError :=
  let? payload := encode msg in
  let len := as_u32 (Z.of_nat (String.length payload)) in
  Ok (be_bytes 4 len +:+ payload).

(** The header is exactly four bytes ([&[u8; 4]]). *)
Definition read_frame_length (header : string) : Z := be_value 0 header.

Definition MAX_MESSAGE_SIZE : Z := 16 * 1024 * 1024.
Definition FRAME_HEADER_SIZE : nat := 4.

(** ** WebSocket transport (transport.rs)

    A stream yields frames, or errors of the socket; a sink takes frames and
    may fail. *)

Inductive Message :=
| Text (text : string)
| Binary (bytes : string)
| Ping (bytes : string)
| Pong (bytes : string)
| Close
| Frame (description : string).

Inductive TransportError :=
| WebSocket (e : string)
| Protocol (e : ProtocolError)
| ConnectionClosed
| UnexpectedMessageType (description : string).

Context (debug : Message -> string).

(** [send_message] and [send] on a sink whose [send] answers [accept]: the frame
    that is handed to it, if any, and the result. *)
Definition send_message (accept : Message -> Result unit string) (msg : T) :
    option Message * Result unit TransportError :=
  match encode msg with
  | Err e => (None, Err (Protocol e))
  | Ok bytes => (Some (Binary bytes), result_map_err WebSocket (accept (Binary bytes)))
  end.

(** [recv_message] and [recv]: the result and what is left of the stream.  The
    end of the list is the end of the stream. *)
Fixpoint recv_message (stream : list (Result Message string)) :
    Result T TransportError * list (Result Message string) :=
  match stream with
  | [] => (Err ConnectionClosed, [])
  | Err e :: stream => (Err (WebSocket e), stream)
  | Ok (Binary bytes) :: stream => (result_map_err Protocol (decode bytes), stream)
  | Ok (Ping _) :: stream | Ok (Pong _) :: stream => recv_message stream
  | Ok Close :: stream => (Err ConnectionClosed, stream)
  | Ok msg :: stream => (Err (UnexpectedMessageType (debug msg)), stream)
  end.

(** A client that receives [n] messages, up to the first error. *)
Fixpoint recv_many (n : nat) (stream : list (Result Message string)) : Result (list T) TransportError :=
  match n with
  | O => Ok []
  | S n =>
      let '(r, stream) := recv_message stream in
      let? m := r in let? ms := recv_many n stream in Ok (m :: ms)
  end.

(** ** Lemmas *)

Lemma byte_value_of z : is_u8 z -> byte_value (byte_of z) = z.
Proof.
  unfold is_u8, u8_max. intros Hz. unfold byte_value, byte_of.
  rewrite N_ascii_embedding by lia. apply Z2N.id. lia.
Qed.

(** The two shapes of compressed data. *)
Lemma compress_cases data :
  compress data = String (byte_of PREFIX_UNCOMPRESSED) data
  \/ compress data = String (byte_of PREFIX_COMPRESSED) (compress_prepend_size data)
     /\ COMPRESSION_THRESHOLD < String.length data
     /\ String.length (compress_prepend_size data) < String.length data.
Proof.
  unfold compress. destruct (Nat.ltb_spec COMPRESSION_THRESHOLD (String.length data)); [|by left].
  destruct (Nat.ltb_spec (String.length (compress_prepend_size data)) (String.length data)); [|by left].
  by right.
Qed.

(** Compression costs at most the prefix byte. *)
Lemma length_compress data : String.length (compress data) <= S (String.length data).
Proof. destruct (compress_cases data) as [->|(-> & _ & Hlt)]; cbn; lia. Qed.

Lemma decompress_plain data : decompress (String (byte_of PREFIX_UNCOMPRESSED) data) = Ok data.
Proof. done. Qed.

Lemma decompress_packed data :
  decompress (String (byte_of PREFIX_COMPRESSED) data) =
  result_map_err CompressionError.Decompress (decompress_size_prepended data).
Proof. done. Qed.

Lemma decompress_invalid c payload :
  (1 < byte_value c)%Z -> decompress (String c payload) = Err (CompressionError.InvalidPrefix (byte_value c)).
Proof.
  intros Hc. cbn. unfold PREFIX_UNCOMPRESSED, PREFIX_COMPRESSED.
  rewrite (proj2 (Z.eqb_neq _ _)), (proj2 (Z.eqb_neq _ _)) by lia. done.
Qed.

Context `{!CodecLaws T}.

Lemma decompress_of_compress data : decompress (compress data) = Ok data.
Proof.
  destruct (compress_cases data) as [->|(-> & _)]; [done|].
  by rewrite decompress_packed, decompress_compress.
Qed.

Lemma decode_of_encode m bytes : encode m = Ok bytes -> decode bytes = Ok m.
Proof.
  unfold encode, decode. destruct (to_vec_named m) as [msgpack|e] eqn:Hm; [|done]. cbn.
  intros [= <-]. rewrite decompress_of_compress. cbn. by rewrite (from_to_vec m msgpack Hm).
Qed.

(** The header and the payload of a framed message. *)
Lemma encode_framed_Ok m buf : encode_framed m = Ok buf ->
  exists payload, encode m = Ok payload
    /\ buf = be_bytes 4 (as_u32 (Z.of_nat (String.length payload))) +:+ payload.
Proof.
  unfold encode_framed. destruct (encode m) as [payload|]; [|done]. cbn. intros [= <-]. by eexists.
Qed.

Lemma frame_header_value n :
  (0 <= n)%Z -> read_frame_length (be_bytes 4 (as_u32 n)) = (n mod 2 ^ 32)%Z.
Proof.
  intros Hn. unfold read_frame_length, as_u32. apply be_value_bytes.
  change (256 ^ Z.of_nat 4)%Z with 4294967296%Z. apply Z.mod_pos_bound. lia.
Qed.

(** Control frames do not reach the receiver. *)
Definition is_control (item : Result Message string) : bool :=
  match item with Ok (Ping _) | Ok (Pong _) => true | _ => false end.

Lemma recv_skips_control pre stream :
  forallb is_control pre = true -> recv_message (pre ++ stream) = recv_message stream.
Proof.
  induction pre as [|item pre IH]; [done|]. cbn [forallb]. intros [Hc Hpre]%andb_true_iff.
  rewrite <-(IH Hpre). destruct item as [[]|]; done.
Qed.

Lemma recv_binary m bytes stream :
  encode m = Ok bytes -> recv_message (Ok (Binary bytes) :: stream) = (Ok m, stream).
Proof. intros He. cbn [recv_message]. by rewrite (decode_of_encode m bytes He). Qed.

(** The frames of the messages [ms], each behind the control frames [pre]. *)
Inductive carries : list T -> list (Result Message string) -> Prop :=
| carries_nil rest : carries [] rest
| carries_cons m ms bytes pre stream :
    encode m = Ok bytes -> forallb is_control pre = true -> carries ms stream ->
    carries (m :: ms) (pre ++ Ok (Binary bytes) :: stream).

(** A message survives the wire.  What [encode] returns, [decode] turns back
    into the message; the bytes are at most one longer than the MessagePack
    form, whichever way compression goes; and [encode_framed] puts in front of
    them four bytes from which [read_frame_length] reads their number modulo
    2^32, hence exactly below that. *)
Theorem wire_round_trip (m : T) (bytes buf msgpack : string) :
  encode_raw m = Ok msgpack -> encode m = Ok bytes -> encode_framed m = Ok buf ->
  decode bytes = Ok m
  /\ decode_raw msgpack = Ok m
  /\ String.length bytes <= S (String.length msgpack)
  /\ exists header, buf = header +:+ bytes
     /\ String.length header = FRAME_HEADER_SIZE
     /\ read_frame_length header = (Z.of_nat (String.length bytes) mod 2 ^ 32)%Z
     /\ ((Z.of_nat (String.length bytes) < 2 ^ 32)%Z ->
         read_frame_length header = Z.of_nat (String.length bytes)).
Proof.
  intros Hraw Henc Hframed. split; [by apply decode_of_encode|].
  unfold encode_raw in Hraw. destruct (to_vec_named m) as [v|] eqn:Hv; [|done]. cbn in Hraw. simplify_eq.
  split; [unfold decode_raw; by rewrite (from_to_vec m msgpack Hv)|].
  split. { unfold encode in Henc. rewrite Hv in Henc. cbn in Henc. simplify_eq. apply length_compress. }
  destruct (encode_framed_Ok m buf Hframed) as (payload & Hp & ->). rewrite Henc in Hp. simplify_eq.
  exists (be_bytes 4 (as_u32 (Z.of_nat (String.length payload)))).
  rewrite length_be_bytes, frame_header_value by lia. repeat split. intros Hlt. apply Z.mod_small. lia.
Qed.

(** A receiver gets the messages that were sent, in their order, whatever
    pings and pongs arrive in between. *)
Theorem receiver_gets_sent (ms : list T) (stream : list (Result Message string)) :
  carries ms stream -> recv_many (length ms) stream = Ok ms.
Proof.
  induction 1 as [|m ms bytes pre stream He Hpre _ IH]; [done|]. cbn [length recv_many].
  rewrite (recv_skips_control pre _ Hpre), (recv_binary m bytes stream He). cbn. by rewrite IH.
Qed.
End codec.

(** ** Witnesses: messages that are their own MessagePack form *)

Module PlainCodec.
#[export] Instance plain : Codec string := {|
  to_vec_named := fun s => Ok s;
  from_slice := fun s => Ok s;
  compress_prepend_size := fun s => s;
  decompress_size_prepended := fun s => Ok s
|}.

#[export] Instance plain_laws : CodecLaws string.
Proof. split; [by intros m bytes [= <-]|done]. Qed.
End PlainCodec.
Import PlainCodec.

Lemma wire_round_trip_witness :
  decode (String (byte_of 0) "ping") = Ok "ping" /\ read_frame_length (be_bytes 4 5) = 5%Z.
Proof.
  destruct (wire_round_trip (T := string) "ping" (String (byte_of 0) "ping")
    (be_bytes 4 5 +:+ String (byte_of 0) "ping") "ping") as (Hd & _); [vm_compute; reflexivity..|].
  split; [exact Hd|vm_compute; reflexivity].
Defined.

Lemma receiver_gets_sent_witness :
  recv_many (fun _ => "") 2
    [Ok (Ping ""); Ok (Binary (String (byte_of 0) "a")); Ok (Binary (String (byte_of 0) "b")); Ok Close]
  = Ok ["a"; "b"].
Proof.
  apply (receiver_gets_sent (T := string) (fun _ => "") ["a"; "b"]).
  apply (carries_cons "a" ["b"] (String (byte_of 0) "a") [Ok (Ping "")]); [vm_compute; reflexivity..|].
  apply (carries_cons "b" [] (String (byte_of 0) "b") []); [vm_compute; reflexivity..|]. apply carries_nil.
Defined.

(** The length prefix wraps: 2^32 bytes of payload announce an empty frame. *)
Lemma frame_length_wraps : read_frame_length (be_bytes 4 (as_u32 (2 ^ 32))) = 0%Z.
Proof. reflexivity. Qed.

(** Empty input and unknown prefixes are errors. *)
Lemma decompress_empty : decompress "" = Err CompressionError.DataTooShort.
Proof. reflexivity. Qed.
