(* ===== verification/ShellCommand.v ===== *)
(** * Analysis of shell commands (brehon-native-agent/src/permissions.rs)

    Before the native agent runs a shell command it cuts the command at the
    operators outside quotes, strips wrappers such as [timeout] from each
    component and classifies what is left by risk.  The loops over characters
    are recursions over [chars]; a slice [command[start..idx]] is the text
    gathered since [start].  Proved here: the split loses nothing, plain
    commands are cut at every operator, no chain of wrappers hides the program
    behind it, and a command is critical exactly when one of its components is,
    with the reason that the permission gate looks for. *)

From Stdlib Require Import Ascii.
From S2P Require Import Prelude StrLib Chars Feedback.

(** ** Risk *)

Module PermissionRisk.
Inductive PermissionRisk := Low | Medium | High | Critical.
End PermissionRisk.
Abbreviation PermissionRisk := PermissionRisk.PermissionRisk.

#[export] Instance PermissionRisk_eq_dec : EqDecision PermissionRisk.
Proof. solve_decision. Defined.

Definition risk_as_str (r : PermissionRisk) : string :=
  match r with
  | PermissionRisk.Low => "low"
  | PermissionRisk.Medium => "medium"
  | PermissionRisk.High => "high"
  | PermissionRisk.Critical => "critical"
  end.

(** The derived order, and [Ord::max] *)
Definition risk_rank (r : PermissionRisk) : nat :=
  match r with
  | PermissionRisk.Low => 0
  | PermissionRisk.Medium => 1
  | PermissionRisk.High => 2
  | PermissionRisk.Critical => 3
  end.

Definition risk_max (a b : PermissionRisk) : PermissionRisk :=
  if (risk_rank a <=? risk_rank b)%nat then b else a.

(** ** The results of an analysis *)

Record ShellComponent := mkShellComponent {
  sc_normalized : string;
  sc_effective : string;
  sc_separator_before : option string;
  sc_stripped_wrappers : list string;
  sc_risk : PermissionRisk;
  sc_risk_reasons : list string
}.

Record ShellAnalysis := mkShellAnalysis {
  sa_components : list ShellComponent;
  sa_has_command_substitution : bool;
  sa_has_redirection : bool;
  sa_has_background : bool;
  sa_risk : PermissionRisk;
  sa_risk_reasons : list string
}.

Definition policy_subjects (c : ShellComponent) : list string :=
  sc_normalized c
  :: (if String.eqb (sc_effective c) (sc_normalized c) then [] else [sc_effective c]).

Definition json_strings (l : list string) : JsonValue := JArray (JString <$> l).

Definition component_to_json (c : ShellComponent) : JsonValue :=
  JObject [("command", JString (sc_normalized c));
           ("effectiveCommand", JString (sc_effective c));
           ("separatorBefore", json_opt (sc_separator_before c));
           ("strippedWrappers", json_strings (sc_stripped_wrappers c));
           ("risk", JString (risk_as_str (sc_risk c)));
           ("riskReasons", json_strings (sc_risk_reasons c))].

Definition analysis_to_json (a : ShellAnalysis) : JsonValue :=
  JObject [("components", JArray (component_to_json <$> sa_components a));
           ("hasCommandSubstitution", JBool (sa_has_command_substitution a));
           ("hasRedirection", JBool (sa_has_redirection a));
           ("hasBackground", JBool (sa_has_background a));
           ("risk", JString (risk_as_str (sa_risk a)));
           ("riskReasons", json_strings (sa_risk_reasons a))].

(** ** Compact text *)

Definition compact_for_key (value : string) : string := join " " (split_whitespace value).

(** The loop [while !compact.is_char_boundary(end) { end -= 1 }] *)
Definition is_char_boundary (s : string) (index : nat) : bool :=
  match String.get index s with
  | Some c => negb (is_continuation c)
  | None => Nat.eqb index (String.length s)
  end || Nat.eqb index 0.

Fixpoint floor_boundary (s : string) (index : nat) : nat :=
  if is_char_boundary s index then index
  else match index with S index => floor_boundary s index | O => O end.

Definition MAX_LEN : nat := 180.

Definition compact_for_display (value : string) : string :=
  let compact := compact_for_key value in
  if (MAX_LEN <? String.length compact)%nat
  then bytes_to (floor_boundary compact MAX_LEN) compact +:+ "..."
  else compact.

(** ** Words *)

Definition DQUOTE : string := utf8 [34].

Definition is_ascii_digit (ch : string) : bool :=
  match ch with
  | String c EmptyString => ((48 <=? N_of_ascii c) && (N_of_ascii c <=? 57))%N
  | _ => false
  end.

(** The loop of [shell_words] over the characters left, with its variables. *)
Fixpoint shell_words_loop (current : string) (single_quote double_quote escaped : bool)
    (l : list string) : list string :=
  match l with
  | [] => flush current
  | ch :: l =>
      if escaped then shell_words_loop (current +:+ ch) single_quote double_quote false l
      else if String.eqb ch "\" && negb single_quote
      then shell_words_loop current single_quote double_quote true l
      else if String.eqb ch "'" && negb double_quote
      then shell_words_loop current (negb single_quote) double_quote false l
      else if String.eqb ch DQUOTE && negb single_quote
      then shell_words_loop current single_quote (negb double_quote) false l
      else if is_whitespace ch && negb single_quote && negb double_quote
      then flush current ++ shell_words_loop "" single_quote double_quote false l
      else shell_words_loop (current +:+ ch) single_quote double_quote false l
  end.

Definition shell_words (command : string) : list string :=
  shell_words_loop "" false false false (chars command).

Definition is_one_of (l : list string) (s : string) : bool := existsb (String.eqb s) l.

Definition looks_like_duration (token : string) : bool :=
  let number := fun ch => is_ascii_digit ch || String.eqb ch "." in
  let all := chars token in
  let rest := skip_while number all in
  negb (Nat.eqb (length rest) (length all)) && forallb (is_one_of ["s"; "m"; "h"; "d"]) rest.

(** ** Wrappers *)

(** [token[1..]] of a token that starts with a hyphen *)
Definition after_hyphen (token : string) : string := default "" (strip_prefix "-" token).

(** [tokens.first().is_some_and(f)] *)
Definition first_is (f : string -> bool) (tokens : list string) : bool :=
  match tokens with token :: _ => f token | [] => false end.

Definition is_option (token : string) : bool := starts_with "-" token.

(** One iteration of the loop of [strip_shell_wrappers]: the wrapper that is
    removed and the tokens left, or [None] for [break]. *)
Definition strip_step (tokens : list string) : option (string * list string) :=
  match tokens with
  | [] => None
  | first :: rest =>
      if String.eqb first "timeout" then
        Some (first, skip_while (fun token => is_option token || looks_like_duration token) rest)
      else if is_one_of ["time"; "nohup"] first then Some (first, rest)
      else if String.eqb first "nice" then
        if first_is (fun token => String.eqb token "-n") rest then Some (first, drop 2 rest)
        else if first_is (fun token => is_option token
                            && forallb is_ascii_digit (chars (after_hyphen token))) rest
        then Some (first, drop 1 rest)
        else Some (first, rest)
      else if String.eqb first "stdbuf" then Some (first, skip_while is_option rest)
      else if String.eqb first "xargs" && (1 <? length tokens)%nat then Some (first, rest)
      else None
  end.

(** The loop; each iteration removes a token, so that the number of tokens is
    fuel enough. *)
Fixpoint strip_loop (fuel : nat) (tokens wrappers : list string) : list string * list string :=
  match fuel, strip_step tokens with
  | S fuel, Some (wrapper, rest) => strip_loop fuel rest (wrappers ++ [wrapper])
  | _, _ => (tokens, wrappers)
  end.

Definition strip_shell_wrappers (command : string) : string * list string :=
  let tokens := shell_words command in
  let '(tokens, wrappers) := strip_loop (length tokens) tokens [] in
  (match tokens with [] => command | _ => join " " tokens end, wrappers).

(** ** Classification *)

Definition is_recursive_force (token : string) : bool :=
  contains "r" token && contains "f" token && starts_with "-" token.

Definition is_critical_target (token : string) : bool :=
  is_one_of ["/"; "/*"; "/."; "/.."] token
  || starts_with "/System" token || starts_with "/bin" token
  || starts_with "/usr" token || starts_with "/etc" token.

Definition classify_shell_component (command : string) : PermissionRisk * list string :=
  let tokens := shell_words command in
  let any f := existsb f tokens in
  let second := fun s => match tokens !! 1 with Some token => String.eqb token s | None => false end in
  match tokens with
  | [] => (PermissionRisk.Low, [])
  | base :: args =>
      if String.eqb base "rm" && any is_recursive_force then
        if existsb is_critical_target args
        then (PermissionRisk.Critical, ["critical recursive force delete target"])
        else (PermissionRisk.High, ["recursive force delete"])
      else if String.eqb base "dd" && any (starts_with "of=/dev/")
      then (PermissionRisk.Critical, ["writes raw device with dd"])
      else if is_one_of ["mkfs"; "mkfs.ext4"; "mkfs.apfs"; "diskutil"] base
      then (PermissionRisk.Critical, ["disk formatting or partition command"])
      else if String.eqb base "sudo" then (PermissionRisk.High, ["privilege escalation"])
      else if String.eqb base "eval" then (PermissionRisk.High, ["dynamic shell evaluation"])
      else if is_one_of ["sh"; "bash"; "zsh"] base && second "-c"
      then (PermissionRisk.High, ["nested shell execution"])
      else if String.eqb base "find" && any (is_one_of ["-delete"; "-exec"])
      then (PermissionRisk.High, ["find can delete or execute commands"])
      else if String.eqb base "git" && second "reset" && any (String.eqb "--hard")
      then (PermissionRisk.High, ["destructive git reset"])
      else if String.eqb base "git" && second "clean"
      then (PermissionRisk.High, ["destructive git clean"])
      else if String.eqb base "git" && second "push"
      then (PermissionRisk.Medium, ["pushes repository state"])
      else if is_one_of ["curl"; "wget"] base
      then (PermissionRisk.Medium, ["network fetch from shell"])
      else (PermissionRisk.Low, [])
  end.

Definition is_shell_interpreter (command : string) : bool :=
  first_is (is_one_of ["sh"; "bash"; "zsh"; "fish"; "python"; "python3"; "ruby"; "perl"])
    (shell_words command).

Definition push_unique (items : list string) (item : string) : list string :=
  if is_one_of items item then items else items ++ [item].

Definition is_critical_reason (reason : string) : bool :=
  is_one_of ["critical recursive force delete target"; "writes raw device with dd";
             "disk formatting or partition command"] reason.

(** ** Cutting a command at its operators *)

Record SplitShellComponent := mkSplitComponent {
  sp_command : string;
  sp_separator_before : option string
}.

Record SplitState := mkSplit {
  ss_components : list SplitShellComponent;
  ss_current : string;  (* command[start..idx] *)
  ss_previous_separator : option string;
  ss_single_quote : bool;
  ss_double_quote : bool;
  ss_backtick : bool;
  ss_escaped : bool;
  ss_substitution_depth : nat;
  ss_command_substitution : bool;
  ss_redirection : bool;
  ss_background : bool
}.
#[export] Instance SplitState_eta : Eta SplitState := fun s =>
  mkSplit (ss_components s) (ss_current s) (ss_previous_separator s) (ss_single_quote s)
    (ss_double_quote s) (ss_backtick s) (ss_escaped s) (ss_substitution_depth s)
    (ss_command_substitution s) (ss_redirection s) (ss_background s).

Definition split_init : SplitState := mkSplit [] "" None false false false false 0 false false false.

Definition normalize_piece (command : string) (separator_before : option string) :
    option SplitShellComponent :=
  let normalized := compact_for_key (trim command) in
  if String.eqb normalized "" then None else Some (mkSplitComponent normalized separator_before).

Definition push_shell_component (components : list SplitShellComponent) (command : string)
    (separator_before : option string) : list SplitShellComponent :=
  components ++ option_list (normalize_piece command separator_before).

(** The separator at [ch], with the character after it: its text and whether it
    takes both *)
Definition separator_at (ch : string) (next : option string) : option (string * bool) :=
  let next_is s := match next with Some n => String.eqb n s | None => false end in
  if String.eqb ch "&" && next_is "&" then Some ("&&", true)
  else if String.eqb ch "|" && next_is "|" then Some ("||", true)
  else if String.eqb ch "|" && next_is "&" then Some ("|&", true)
  else if String.eqb ch ";" then Some (";", false)
  else if String.eqb ch "|" then Some ("|", false)
  else if String.eqb ch "&" then Some ("&", false)
  else if String.eqb ch NL then Some (NL, false)
  else None.

(** The character joins the current piece. *)
Definition take_char (ch : string) (st : SplitState) : SplitState :=
  st <| ss_current := ss_current st +:+ ch |>.

(** One iteration of the loop at [ch]: the state after it, and whether the next
    character has been consumed too ([i += 2]). *)
Definition split_step (st : SplitState) (ch : string) (next : option string) : SplitState * bool :=
  if ss_escaped st then (take_char ch st <| ss_escaped := false |>, false)
  else if String.eqb ch "\" && negb (ss_single_quote st)
  then (take_char ch st <| ss_escaped := true |>, false)
  else if String.eqb ch "'" && negb (ss_double_quote st) && negb (ss_backtick st)
          && Nat.eqb (ss_substitution_depth st) 0
  then (take_char ch st <| ss_single_quote := negb (ss_single_quote st) |>, false)
  else if String.eqb ch DQUOTE && negb (ss_single_quote st) && negb (ss_backtick st)
  then (take_char ch st <| ss_double_quote := negb (ss_double_quote st) |>, false)
  else if String.eqb ch "`" && negb (ss_single_quote st)
  then (take_char ch st <| ss_backtick := negb (ss_backtick st) |>
          <| ss_command_substitution := true |>, false)
  else if ss_single_quote st || ss_double_quote st || ss_backtick st then (take_char ch st, false)
  else if String.eqb ch "$" && match next with Some n => String.eqb n "(" | None => false end
  then (take_char "$(" st <| ss_command_substitution := true |>
          <| ss_substitution_depth := S (ss_substitution_depth st) |>, true)
  else if (0 <? ss_substitution_depth st)%nat then
    let depth := if String.eqb ch "(" then S (ss_substitution_depth st)
                 else if String.eqb ch ")" then pred (ss_substitution_depth st)
                 else ss_substitution_depth st in
    (take_char ch st <| ss_substitution_depth := depth |>, false)
  else if is_one_of ["<"; ">"] ch then (take_char ch st <| ss_redirection := true |>, false)
  else match separator_at ch next with
       | Some (separator, two) =>
           (st <| ss_components := push_shell_component (ss_components st) (ss_current st)
                                     (ss_previous_separator st) |>
               <| ss_current := "" |>
               <| ss_previous_separator := Some separator |>
               <| ss_background := ss_background st || String.eqb separator "&" |>, two)
       | None => (take_char ch st, false)
       end.

Fixpoint split_loop (l : list string) (st : SplitState) : SplitState :=
  match l with
  | [] => st
  | ch :: rest =>
      let '(st, two) := split_step st ch (head rest) in
      match two, rest with
      | true, _ :: rest => split_loop rest st
      | _, _ => split_loop rest st
      end
  end.

Record SplitShellCommand := mkSplitCommand {
  sl_components : list SplitShellComponent;
  sl_has_command_substitution : bool;
  sl_has_redirection : bool;
  sl_has_background : bool
}.

Definition split_shell_components (command : string) : SplitShellCommand :=
  let st := split_loop (chars command) split_init in
  mkSplitCommand
    (push_shell_component (ss_components st) (ss_current st) (ss_previous_separator st))
    (ss_command_substitution st) (ss_redirection st) (ss_background st).

(** ** The analysis *)

Definition analyze_shell_component (normalized : string) (separator_before : option string) :
    ShellComponent :=
  let '(effective, stripped_wrappers) := strip_shell_wrappers normalized in
  let '(risk, reasons) := classify_shell_component effective in
  let piped := match separator_before with Some s => is_one_of ["|"; "|&"] s | None => false end in
  if piped && is_shell_interpreter effective
  then mkShellComponent normalized effective separator_before stripped_wrappers
         (risk_max risk PermissionRisk.High) (push_unique reasons "pipeline into shell interpreter")
  else mkShellComponent normalized effective separator_before stripped_wrappers risk reasons.

Definition max_risk (l : list PermissionRisk) : PermissionRisk := foldr risk_max PermissionRisk.Low l.

Definition when (b : bool) (s : string) : list string := if b then [s] else [].

Definition analyze_shell_command (command : string) : ShellAnalysis :=
  let split := split_shell_components command in
  let components :=
    match sl_components split with
    | [] => [analyze_shell_component command None]
    | l => (fun c => analyze_shell_component (sp_command c) (sp_separator_before c)) <$> l
    end in
  let base := if sl_has_command_substitution split || sl_has_background split then PermissionRisk.High
              else if sl_has_redirection split then PermissionRisk.Medium else PermissionRisk.Low in
  let reasons :=
    when (sl_has_command_substitution split) "uses command substitution"
    ++ when (sl_has_redirection split) "uses shell redirection"
    ++ when (sl_has_background split) "runs a command in the background" in
  mkShellAnalysis components (sl_has_command_substitution split) (sl_has_redirection split)
    (sl_has_background split)
    (risk_max (max_risk (sc_risk <$> components)) base)
    (foldl push_unique reasons (concat (sc_risk_reasons <$> components))).

(** ** The split loses nothing *)

(** A command as its raw pieces, each with the separator before it *)
Definition piece_text (p : option string * string) : string := default "" p.1 +:+ p.2.
Definition pieces_text (l : list (option string * string)) : string :=
  foldr (fun p s => piece_text p +:+ s) "" l.
Definition normalized_pieces (l : list (option string * string)) : list SplitShellComponent :=
  omap (fun p => normalize_piece p.2 p.1) l.

(** The piece under way *)
Definition open_piece (st : SplitState) : option string * string :=
  (ss_previous_separator st, ss_current st).

(** The characters an iteration consumes *)
Definition consumed (ch : string) (next : option string) (two : bool) : string :=
  ch +:+ (if two then default "" next else "").

(** What one iteration does to the pieces: the text joins the open piece, or a
    separator closes it. *)
Lemma separator_at_text ch next separator two :
  separator_at ch next = Some (separator, two) ->
  separator = consumed ch next two /\ (two = true -> is_Some next).
Proof.
  unfold separator_at, consumed. destruct next as [n|]; intros Hs; cbn [default].
  - repeat match type of Hs with
      | context [String.eqb ?a ?b] => destruct (String.eqb_spec a b); subst; cbn in Hs
      end; simplify_eq; rewrite ?append_nil_r; split; eauto.
  - rewrite !andb_false_r in Hs.
    repeat match type of Hs with
      | context [String.eqb ?a ?b] => destruct (String.eqb_spec a b); subst; cbn in Hs
      end; simplify_eq; rewrite ?append_nil_r; split; done.
Qed.

Lemma split_step_pieces st ch next st' two :
  split_step st ch next = (st', two) ->
  (two = true -> is_Some next)
  /\ ((open_piece st' = (ss_previous_separator st, ss_current st +:+ consumed ch next two)
       /\ ss_components st' = ss_components st)
      \/ (open_piece st' = (Some (consumed ch next two), "")
          /\ ss_components st' = ss_components st ++ normalized_pieces [open_piece st])).
Proof.
  assert (Hch : consumed ch next false = ch) by apply append_nil_r.
  assert (Hjoin : forall st'', open_piece st'' = (ss_previous_separator st, ss_current st +:+ ch) ->
    ss_components st'' = ss_components st -> (st'', false) = (st', two) ->
    (two = true -> is_Some next)
    /\ ((open_piece st' = (ss_previous_separator st, ss_current st +:+ consumed ch next two)
         /\ ss_components st' = ss_components st)
        \/ (open_piece st' = (Some (consumed ch next two), "")
            /\ ss_components st' = ss_components st ++ normalized_pieces [open_piece st]))).
  { intros st'' Ho Hc [= <- <-]. split; [done|]. left. by rewrite Hch. }
  unfold split_step. intros Hs.
  repeat match type of Hs with
    | (if ?b then (_, false) else _) = _ =>
        destruct b; [by eapply Hjoin; [| |exact Hs]|]
    end.
  match type of Hs with (if ?b then _ else _) = _ => destruct b eqn:Hsub end.
  - apply andb_true_iff in Hsub as [->%String.eqb_eq Hn].
    destruct next as [n|]; [|done]. apply String.eqb_eq in Hn as ->. simplify_eq. split; [eauto|by left].
  - repeat match type of Hs with
      | (if ?b then _ else _) = _ => destruct b; [by eapply Hjoin; [| |exact Hs]|]
      end.
    destruct (separator_at ch next) as [[separator two']|] eqn:Hsep; [|by eapply Hjoin; [| |exact Hs]].
    simplify_eq. apply separator_at_text in Hsep as [<- Htwo]. split; [done|]. right.
    split; [done|]. cbn. unfold push_shell_component. by destruct (normalize_piece _ _).
Qed.

(** The loop closes pieces and leaves one open; together they spell the text. *)
Lemma split_loop_pieces n : forall l st, length l <= n ->
  exists closed,
    pieces_text (closed ++ [open_piece (split_loop l st)])
      = piece_text (open_piece st) +:+ of_chars l
    /\ ss_components (split_loop l st) = ss_components st ++ normalized_pieces closed
    /\ exists first rest, closed ++ [open_piece (split_loop l st)] = (ss_previous_separator st, first) :: rest
       /\ Forall (fun p => is_Some p.1) rest.
Proof.
  induction n as [|n IH]; intros [|ch rest] st Hn; cbn in Hn; try lia.
  1,2: exists []; cbn; rewrite ?append_nil_r, ?app_nil_r; split; [done|split; [done|by exists (ss_current st), []]].
  cbn [split_loop]. destruct (split_step st ch (head rest)) as [st' two] eqn:Hs.
  apply split_step_pieces in Hs as [Htwo Hs].
  set (rest' := if two then tail rest else rest).
  assert (Hrest : ch +:+ of_chars rest = consumed ch (head rest) two +:+ of_chars rest').
  { unfold consumed, rest'. destruct two; [|by rewrite append_nil_r].
    destruct rest as [|next rest]; [by destruct (Htwo eq_refl)|]. cbn. by rewrite append_assoc. }
  assert (Hloop : (match two, rest with true, _ :: rest => split_loop rest st' | _, _ => split_loop rest st' end)
                  = split_loop rest' st').
  { unfold rest'. by destruct two, rest. }
  rewrite Hloop. destruct (IH rest' st') as (closed & Htext & Hcomp & first & rem & Hcons & Hall).
  { unfold rest'. destruct two, rest; cbn in *; lia. }
  rewrite of_chars_cons, Hrest. destruct Hs as [[Ho Hc]|[Ho Hc]].
  - exists closed. split; [rewrite Htext, Ho; unfold piece_text; cbn; by rewrite !append_assoc|].
    split; [by rewrite Hcomp, Hc|]. exists first, rem. split; [|done]. rewrite Hcons.
    unfold open_piece in Ho. by injection Ho as -> _.
  - exists (open_piece st :: closed). cbn [app pieces_text foldr]. fold (pieces_text (closed ++ [open_piece (split_loop rest' st')])).
    rewrite Htext, Ho, Hcomp, Hc. unfold piece_text at 2. cbn [fst snd default].
    rewrite append_nil_r. split; [done|]. split.
    2:{ exists (ss_current st), (closed ++ [open_piece (split_loop rest' st')]). split; [done|].
        rewrite Hcons. unfold open_piece in Ho. injection Ho as -> _. by constructor. }
    unfold normalized_pieces. cbn. rewrite <-app_assoc. f_equal. by destruct (normalize_piece _ _).
Qed.

(** ** Plain commands are cut at every operator *)

Definition operators : list ascii := [";"; "|"; "&"; ascii_of_nat 10]%char.

Definition clean (s : string) : bool := forallb (fun op => negb (occurs op s)) operators.

(** A character that neither quotes nor escapes nor starts a substitution.  A
    character of several bytes has none below 128. *)
Definition above_ascii (ch : string) : bool :=
  forallb (fun c => (128 <=? N_of_ascii c)%N) (String.list_ascii_of_string ch).

Definition is_plain (ch : string) : bool :=
  negb (is_one_of ["\"; "'"; DQUOTE; "`"; "$"] ch)
  && (Nat.eqb (String.length ch) 1 || above_ascii ch).

Lemma clean_append a b : clean (a +:+ b) = clean a && clean b.
Proof.
  unfold clean, operators. cbn [forallb]. rewrite !occurs_app, !negb_orb.
  repeat match goal with |- context [occurs ?c ?s] => destruct (occurs c s) end; done.
Qed.

Lemma occurs_above_ascii c ch : (N_of_ascii c < 128)%N -> above_ascii ch = true -> occurs c ch = false.
Proof.
  intros Hc. unfold above_ascii. induction ch as [|d ch IH]; [done|].
  cbn [String.list_ascii_of_string forallb occurs]. intros [Hd%N.leb_le Hch]%andb_true_iff.
  destruct (Ascii.eqb_spec d c) as [->|]; [lia|]. by apply IH.
Qed.

(** A plain character that no separator starts with is no operator. *)
Lemma plain_separator_None ch next :
  is_plain ch = true -> separator_at ch next = None -> clean ch = true.
Proof.
  intros [_ [Hl%Nat.eqb_eq|Hl]%orb_true_iff]%andb_true_iff Hs.
  - destruct ch as [|c [|? ?]]; [done| |done].
    unfold separator_at in Hs. unfold clean, operators. cbn [forallb occurs].
    repeat match goal with |- context [Ascii.eqb c ?d] => destruct (Ascii.eqb_spec c d) as [->|_] end;
      try done; exfalso; destruct next; repeat case_match; done.
  - unfold clean, operators. cbn [forallb]. by rewrite !occurs_above_ascii.
Qed.

Lemma occurs_flush c word : occurs c word = false -> Forall (fun w => occurs c w = false) (flush word).
Proof. intros Hw. unfold flush. case_match; by repeat constructor. Qed.

Lemma words_from_occurs c l word :
  occurs c word = false -> occurs c (of_chars l) = false ->
  Forall (fun w => occurs c w = false) (words_from word l).
Proof.
  revert word. induction l as [|ch l IH]; intros word Hw; cbn [words_from].
  { intros _. by apply occurs_flush. }
  rewrite of_chars_cons, occurs_app. intros [Hch Hl]%orb_false_iff.
  case_match; [apply Forall_app; split; [by apply occurs_flush|by apply IH]|].
  apply IH; [|done]. by rewrite occurs_app, Hw.
Qed.

Lemma join_occurs c sep l :
  occurs c sep = false -> Forall (fun w => occurs c w = false) l -> occurs c (join sep l) = false.
Proof.
  intros Hsep. induction 1 as [|w l Hw Hl IH]; [done|]. cbn [join].
  destruct l as [|w' l]; [done|]. by rewrite !occurs_app, Hw, Hsep.
Qed.

Lemma compact_occurs c s :
  c <> " "%char -> occurs c s = false -> occurs c (compact_for_key s) = false.
Proof.
  intros Hc Hs. unfold compact_for_key, split_whitespace. apply join_occurs.
  - cbn [occurs]. by destruct (Ascii.eqb_spec " "%char c) as [<-|].
  - apply words_from_occurs; [done|]. by rewrite of_chars_chars.
Qed.

Lemma skip_while_suffix {A} (f : A -> bool) l : exists pre, l = pre ++ skip_while f l.
Proof.
  induction l as [|x l [pre IH]]; [by exists []|]. cbn. case_match; [|by exists []].
  exists (x :: pre). cbn. by rewrite <-IH.
Qed.

(** Trimming takes a part of the text. *)
Lemma trim_part s : exists pre post, s = pre +:+ trim s +:+ post.
Proof.
  unfold trim. set (mid := skip_while is_whitespace (chars s)).
  destruct (skip_while_suffix is_whitespace (chars s)) as [pre Hpre]. fold mid in Hpre.
  destruct (skip_while_suffix is_whitespace (reverse mid)) as [post Hpost].
  apply (f_equal reverse) in Hpost. rewrite reverse_involutive, reverse_app in Hpost.
  exists (of_chars pre), (of_chars (reverse post)).
  by rewrite <-of_chars_app, <-Hpost, <-of_chars_app, <-Hpre, of_chars_chars.
Qed.

Lemma normalize_piece_clean text sep c :
  clean text = true -> normalize_piece text sep = Some c -> clean (sp_command c) = true.
Proof.
  intros Ht. unfold normalize_piece. case_match; [done|]. intros [= <-]. cbn [sp_command].
  destruct (trim_part text) as (pre & post & Heq). rewrite Heq, !clean_append in Ht.
  apply andb_true_iff in Ht as [_ [Ht _]%andb_true_iff]. unfold clean in *.
  rewrite forallb_forall in *. intros op Hop. specialize (Ht op Hop).
  rewrite negb_true_iff in *. apply compact_occurs; [|done].
  intros ->. cbn in Hop. naive_solver.
Qed.

(** Outside quotes and substitutions, with nothing but clean text so far *)
Record quiet (st : SplitState) : Prop := {
  qt_flags : ss_single_quote st = false /\ ss_double_quote st = false /\ ss_backtick st = false
    /\ ss_escaped st = false /\ ss_substitution_depth st = 0;
  qt_substitution : ss_command_substitution st = false;
  qt_current : clean (ss_current st) = true;
  qt_components : forall c, c ∈ ss_components st -> clean (sp_command c) = true
}.

Lemma quiet_push st c : quiet st ->
  c ∈ push_shell_component (ss_components st) (ss_current st) (ss_previous_separator st) ->
  clean (sp_command c) = true.
Proof.
  intros [_ _ Hcur Hc]. unfold push_shell_component. rewrite elem_of_app, elem_of_option_list.
  intros [Hin|Hn]; [by apply Hc|]. by eapply normalize_piece_clean.
Qed.

Lemma quiet_split_step st ch next st' two :
  quiet st -> is_plain ch = true -> split_step st ch next = (st', two) -> quiet st'.
Proof.
  intros Hq Hp. pose proof Hq as [(Hsq & Hdq & Hbt & Hesc & Hd) Hsub Hcur Hcomp].
  pose proof Hp as [Hspecial _]%andb_true_iff.
  cbn [is_one_of existsb] in Hspecial. rewrite !negb_orb, !andb_true_iff, !negb_true_iff in Hspecial.
  destruct Hspecial as (H1 & H2 & H3 & H4 & H5 & _).
  unfold split_step. rewrite Hesc, H1, H2, H3, H4, H5, Hsq, Hdq, Hbt, Hd. cbn [andb orb Nat.ltb Nat.leb].
  destruct (is_one_of ["<"; ">"] ch) eqn:Hr.
  { intros [= <- <-]. split; [done|done| |done]. change (clean (ss_current st +:+ ch) = true). rewrite clean_append, Hcur.
    cbn in Hr. apply orb_true_iff in Hr as [->%String.eqb_eq|[->%String.eqb_eq|]%orb_true_iff]; done. }
  destruct (separator_at ch next) as [[separator two']|] eqn:Hsep; intros [= <- <-].
  - split; [done|done|done|]. cbn [ss_components]. intros c. by apply quiet_push.
  - split; [done|done| |done]. change (clean (ss_current st +:+ ch) = true).
    rewrite clean_append, Hcur. by eapply plain_separator_None.
Qed.

Lemma quiet_loop n : forall l st, length l <= n ->
  quiet st -> forallb is_plain l = true -> quiet (split_loop l st).
Proof.
  induction n as [|n IH]; intros [|ch rest] st Hn Hq; cbn in Hn; try lia; [done..|].
  cbn [forallb split_loop]. intros [Hch Hrest]%andb_true_iff.
  destruct (split_step st ch (head rest)) as [st' two] eqn:Hs.
  pose proof (quiet_split_step _ _ _ _ _ Hq Hch Hs).
  destruct two, rest as [|next rest]; cbn in Hn; apply IH; try done; cbn; try lia.
  by apply andb_true_iff in Hrest as [_ ?].
Qed.

(** ** No chain of wrappers hides a program *)

Lemma length_skip_while {A} (f : A -> bool) l : length (skip_while f l) <= length l.
Proof. destruct (skip_while_suffix f l) as [pre Hl]. rewrite Hl at 2. rewrite length_app. lia. Qed.

(** An iteration removes the wrapper and perhaps its options. *)
Lemma strip_step_suffix tokens wrapper rest :
  strip_step tokens = Some (wrapper, rest) -> exists pre, tokens = wrapper :: pre ++ rest.
Proof.
  destruct tokens as [|first tail]; [done|]. cbn [strip_step]. intros Hs.
  repeat match type of Hs with (if ?b then _ else _) = _ => destruct b end; simplify_eq;
    try (by exists []).
  - destruct (skip_while_suffix (fun token => is_option token || looks_like_duration token) tail) as [pre Hp].
    exists pre. by rewrite <-Hp.
  - exists (take 2 tail). by rewrite take_drop.
  - exists (take 1 tail). by rewrite take_drop.
  - destruct (skip_while_suffix is_option tail) as [pre Hp]. exists pre. by rewrite <-Hp.
Qed.

(** The loop ends by itself: what it leaves starts with no wrapper and is the end
    of the words. *)
Lemma strip_loop_spec fuel : forall tokens wrappers, length tokens <= fuel ->
  strip_step (strip_loop fuel tokens wrappers).1 = None
  /\ exists pre, tokens = pre ++ (strip_loop fuel tokens wrappers).1.
Proof.
  induction fuel as [|fuel IH]; intros tokens wrappers Hl; cbn [strip_loop].
  { destruct tokens; [|cbn in Hl; lia]. split; [done|by exists []]. }
  destruct (strip_step tokens) as [[wrapper rest]|] eqn:Hs; [|by split; [|exists []]].
  destruct (strip_step_suffix _ _ _ Hs) as [pre ->]. cbn in Hl. rewrite length_app in Hl.
  destruct (IH rest (wrappers ++ [wrapper])) as [Hnone [pre' Hpre]]; [lia|].
  split; [done|]. exists (wrapper :: pre ++ pre'). cbn. by rewrite <-app_assoc, <-Hpre.
Qed.

(** ** A command is critical exactly when one of its components is *)

Lemma risk_max_critical a b :
  risk_max a b = PermissionRisk.Critical <-> a = PermissionRisk.Critical \/ b = PermissionRisk.Critical.
Proof. destruct a, b; cbn; naive_solver. Qed.

Lemma max_risk_critical l :
  max_risk l = PermissionRisk.Critical <-> PermissionRisk.Critical ∈ l.
Proof.
  induction l as [|r l IH]; cbn; [by rewrite elem_of_nil|].
  rewrite risk_max_critical, elem_of_cons. fold (max_risk l). rewrite IH. naive_solver.
Qed.

Lemma is_one_of_iff l s : is_one_of l s = true <-> s ∈ l.
Proof.
  unfold is_one_of. rewrite existsb_exists. setoid_rewrite String.eqb_eq.
  setoid_rewrite <-list_elem_of_In. naive_solver.
Qed.

Lemma elem_of_pushed_unique items item r : r ∈ push_unique items item <-> r ∈ items \/ r = item.
Proof.
  unfold push_unique. destruct (is_one_of items item) eqn:Hi.
  - apply is_one_of_iff in Hi. naive_solver.
  - by rewrite elem_of_app, list_elem_of_singleton.
Qed.

Lemma elem_of_pushed_all l items r : r ∈ foldl push_unique items l <-> r ∈ items \/ r ∈ l.
Proof.
  revert items. induction l as [|x l IH]; intros items; cbn; [rewrite elem_of_nil; naive_solver|].
  rewrite IH, elem_of_pushed_unique, elem_of_cons. naive_solver.
Qed.

(** The classification, and that of a component, gives a critical reason exactly
    with the critical risk. *)
Definition has_critical (reasons : list string) : Prop :=
  exists reason, reason ∈ reasons /\ is_critical_reason reason = true.

Lemma has_critical_existsb reasons : has_critical reasons <-> existsb is_critical_reason reasons = true.
Proof. unfold has_critical. rewrite existsb_exists. by setoid_rewrite list_elem_of_In. Qed.

Lemma classify_critical command risk reasons : classify_shell_component command = (risk, reasons) ->
  risk = PermissionRisk.Critical <-> has_critical reasons.
Proof.
  rewrite has_critical_existsb. unfold classify_shell_component. intros Hc.
  destruct (shell_words command) as [|base args]; [by simplify_eq|].
  repeat match type of Hc with (if ?b then _ else _) = _ => destruct b end; by simplify_eq.
Qed.

Lemma component_critical normalized sep :
  let c := analyze_shell_component normalized sep in
  sc_risk c = PermissionRisk.Critical <-> has_critical (sc_risk_reasons c).
Proof.
  unfold analyze_shell_component. destruct (strip_shell_wrappers normalized) as [effective wrappers].
  destruct (classify_shell_component effective) as [risk reasons] eqn:Hc.
  apply classify_critical in Hc. case_match; cbn [sc_risk sc_risk_reasons]; [|done].
  rewrite risk_max_critical, Hc. unfold has_critical. setoid_rewrite elem_of_pushed_unique.
  split; [intros [|]; naive_solver|]. intros (reason & [Hin| ->] & Hr); [naive_solver|done].
Qed.

(** Each component is the analysis of a text and its separator. *)
Lemma analyzed_component command c : c ∈ sa_components (analyze_shell_command command) ->
  exists normalized sep, c = analyze_shell_component normalized sep.
Proof.
  cbn [analyze_shell_command sa_components]. destruct (sl_components _) as [|s l].
  - rewrite list_elem_of_singleton. eauto.
  - intros (x & -> & _)%list_elem_of_fmap. eauto.
Qed.

Lemma analysis_risk_critical command :
  let a := analyze_shell_command command in
  sa_risk a = PermissionRisk.Critical <->
  exists c, c ∈ sa_components a /\ sc_risk c = PermissionRisk.Critical.
Proof.
  cbn [analyze_shell_command sa_risk sa_components]. rewrite risk_max_critical, max_risk_critical, list_elem_of_fmap.
  split; [|intros (c & Hin & Hr); left; eauto].
  intros [(c & Hr & Hin)|Hb]; [eauto|]. by repeat case_match.
Qed.

Lemma analysis_has_critical command :
  let a := analyze_shell_command command in
  has_critical (sa_risk_reasons a) <->
  exists c, c ∈ sa_components a /\ has_critical (sc_risk_reasons c).
Proof.
  unfold has_critical. cbn [analyze_shell_command sa_risk_reasons sa_components].
  set (comps := match sl_components _ with [] => _ | _ => _ end).
  setoid_rewrite elem_of_pushed_all. setoid_rewrite list_elem_of_In at 2. setoid_rewrite in_concat.
  setoid_rewrite <-list_elem_of_In. setoid_rewrite list_elem_of_fmap. split.
  - intros (reason & [Hin|(l & (c & -> & Hc) & Hin)] & Hr); [|eauto 10].
    exfalso. revert Hin. rewrite !elem_of_app. unfold when.
    by intros [Hin|[Hin|Hin]]; case_match; rewrite ?elem_of_nil, ?list_elem_of_singleton in Hin; subst.
  - intros (c & Hc & reason & Hin & Hr). eauto 10.
Qed.

(** ** Theorems *)

(** Splitting a command loses nothing.  Every command is the concatenation of
    raw pieces, each after the first behind the operator that separates it; the
    components are exactly the pieces that are not blank, in their order, with
    white space normalized and with that operator.  When the command uses no
    quote, escape or substitution, no component contains an operator, and the
    split reports no substitution: nothing that the shell would run on its own
    stays inside a component. *)
Theorem split_is_lossless (command : string) :
  let split := split_shell_components command in
  (exists first rest,
     command = first +:+ pieces_text rest
     /\ Forall (fun p => exists op, p.1 = Some op) rest
     /\ sl_components split = normalized_pieces ((None, first) :: rest))
  /\ (forallb is_plain (chars command) = true ->
      sl_has_command_substitution split = false
      /\ forall c, c ∈ sl_components split -> clean (sp_command c) = true).
Proof.
  cbn zeta. unfold split_shell_components. cbn [sl_components sl_has_command_substitution].
  set (st := split_loop (chars command) split_init). split.
  - destruct (split_loop_pieces _ (chars command) split_init (le_n _))
      as (closed & Htext & Hcomp & first & rest & Hcons & Hall). fold st in Htext, Hcomp, Hcons.
    exists first, rest. rewrite Hcons, of_chars_chars in Htext. split; [by symmetry|]. split; [done|].
    change ((None, first) :: rest) with ((ss_previous_separator split_init, first) :: rest).
    rewrite <-Hcons. unfold push_shell_component, normalized_pieces. rewrite Hcomp, omap_app. cbn.
    by destruct (normalize_piece _ _).
  - intros Hplain. assert (Hq : quiet st).
    { apply (quiet_loop _ (chars command) split_init (le_n _)); [|done].
      split; try done. intros c Hin. by apply elem_of_nil in Hin. }
    split; [by apply qt_substitution|]. intros c. by apply quiet_push.
Qed.

Lemma split_is_lossless_witness :
  let split := split_shell_components "cat a | wc; rm b" in
  sl_has_command_substitution split = false
  /\ clean (sp_command (mkSplitComponent "wc" (Some "|"))) = true.
Proof.
  destruct (split_is_lossless "cat a | wc; rm b") as [_ H].
  destruct H as [Hs Hc]; [vm_compute; reflexivity|]. split; [exact Hs|].
  apply Hc. apply list_elem_of_In. vm_compute. auto.
Defined.

(** The risk of a command is that of its components: it is critical exactly
    when one of them is, and exactly then the reasons of the analysis contain one
    of the three that the permission gate refuses, so that no critical command
    lacks its reason and no reason of a harmless component counts as critical. *)
Theorem critical_exactly (command : string) :
  let a := analyze_shell_command command in
  (sa_risk a = PermissionRisk.Critical <-> has_critical (sa_risk_reasons a))
  /\ (sa_risk a = PermissionRisk.Critical <->
      exists c, c ∈ sa_components a /\ sc_risk c = PermissionRisk.Critical)
  /\ forall c, c ∈ sa_components a ->
     sc_risk c = PermissionRisk.Critical <-> has_critical (sc_risk_reasons c).
Proof.
  cbn zeta. assert (Hc : forall c, c ∈ sa_components (analyze_shell_command command) ->
    sc_risk c = PermissionRisk.Critical <-> has_critical (sc_risk_reasons c)).
  { intros c Hin. destruct (analyzed_component command c Hin) as (normalized & sep & ->).
    apply component_critical. }
  split; [|split; [apply analysis_risk_critical|done]].
  rewrite analysis_risk_critical, analysis_has_critical. naive_solver.
Qed.

(** ** What the analysis does not see *)

(** A substitution inside double quotes is not reported, although the shell runs
    it; a backtick there is. *)
Lemma quoted_substitution_unseen :
  let a := analyze_shell_command ("echo " +:+ DQUOTE +:+ "$(rm -rf /)" +:+ DQUOTE) in
  sa_has_command_substitution a = false /\ sa_risk a = PermissionRisk.Low.
Proof. vm_compute. done. Qed.

(** The words are joined without their quotes and split again: a quoted quote
    swallows the blank before the target, which is then no critical target. *)
Lemma requoted_target_unseen :
  sa_risk (analyze_shell_command ("rm -rf " +:+ DQUOTE +:+ "'" +:+ DQUOTE +:+ " /")) = PermissionRisk.High.
Proof. vm_compute. done. Qed.

(** Flags given one by one are not recognized as recursive and forced. *)
Lemma separate_flags_unseen : sa_risk (analyze_shell_command "rm -r -f /") = PermissionRisk.Low.
Proof. vm_compute. done. Qed.

(** The duplication of a file descriptor counts as a background command. *)
Lemma descriptor_is_background :
  let a := analyze_shell_command "make 2>&1" in
  sa_has_background a = true /\ sc_normalized <$> sa_components a = ["make 2>"; "1"].
Proof. vm_compute. done. Qed.
