(* ===== verification/Wildcard.v ===== *)
(** * Wildcard patterns (brehon-native-agent/src/permissions.rs)

    [wildcard_matches] fills a table of answers for all prefixes of the pattern
    and of the text.  The table is a list of rows with the indices of the
    source.  Proved here: it computes the declarative meaning of a pattern, in
    which every star stands for some piece of the text and every question mark
    for one character. *)

From S2P Require Import Prelude StrLib Chars.

(** ** The table *)

Abbreviation Table := (list (list bool)).

Definition dp_get (dp : Table) (i j : nat) : bool := default false (dp !! i ≫= fun row => row !! j).
Definition dp_set (dp : Table) (i j : nat) (b : bool) : Table := alter (insert j b) i dp.

(** [for k in from..from + n { acc = f(acc, k) }] *)
Definition for_range {A} (from n : nat) (f : A -> nat -> A) (acc : A) : A := foldl f acc (seq from n).

Definition char_at (l : list string) (i : nat) : string := default "" (l !! i).

Section table.
Context (pattern text : list string).

Definition dp_empty : Table :=
  dp_set (replicate (S (length pattern)) (replicate (S (length text)) false)) 0 0 true.

(** The first loop: column 0 *)
Definition dp_column (dp : Table) (i : nat) : Table :=
  if String.eqb (char_at pattern (i - 1)) "*" then dp_set dp i 0 (dp_get dp (i - 1) 0) else dp.

(** The second loop: one cell, one row *)
Definition dp_cell (i : nat) (dp : Table) (j : nat) : Table :=
  let ch := char_at pattern (i - 1) in
  dp_set dp i j
    (if String.eqb ch "*" then dp_get dp (i - 1) j || dp_get dp i (j - 1)
     else if String.eqb ch "?" then dp_get dp (i - 1) (j - 1)
     else String.eqb ch (char_at text (j - 1)) && dp_get dp (i - 1) (j - 1)).

Definition dp_row (dp : Table) (i : nat) : Table := for_range 1 (length text) (dp_cell i) dp.

Definition dp_table : Table :=
  for_range 1 (length pattern) dp_row (for_range 1 (length pattern) dp_column dp_empty).
End table.

Definition wildcard_matches (pattern text : string) : bool :=
  let pattern := chars pattern in
  let text := chars text in
  dp_get (dp_table pattern text) (length pattern) (length text).

(** [pattern.chars().filter(|ch| !matches!(ch, '*' | '?')).count()] *)
Definition pattern_specificity (pattern : string) : nat :=
  length (List.filter (fun ch => negb (String.eqb ch "*" || String.eqb ch "?")) (chars pattern)).

(** ** The meaning of a pattern *)

(** The pieces of text one character of a pattern stands for *)
Definition stands_for (ch : string) (piece : list string) : Prop :=
  if String.eqb ch "*" then True
  else if String.eqb ch "?" then length piece = 1
  else piece = [ch].

Definition glob (pattern text : list string) : Prop :=
  exists pieces, Forall2 stands_for pattern pieces /\ text = concat pieces.

Lemma glob_nil text : glob [] text <-> text = [].
Proof. split; [by intros (pieces & ->%Forall2_nil_inv_l & ->)|]. intros ->. by exists []. Qed.

(** The last character of a pattern stands for the end of the text. *)
Lemma glob_snoc pattern ch text :
  glob (pattern ++ [ch]) text <->
  exists start piece, text = start ++ piece /\ glob pattern start /\ stands_for ch piece.
Proof.
  unfold glob. split.
  - intros (pieces & Hp & ->). apply Forall2_app_inv_l in Hp as (start & last & Hs & Hl & ->).
    apply Forall2_cons_inv_l in Hl as (piece & [|] & Hch & Hnil & ->); [|by inversion Hnil].
    exists (concat start), piece. rewrite concat_app. cbn. rewrite app_nil_r. eauto.
  - intros (start & piece & -> & (pieces & Hp & ->) & Hch). exists (pieces ++ [piece]).
    split; [apply Forall2_app; [done|by repeat constructor]|]. rewrite concat_app. cbn. by rewrite app_nil_r.
Qed.

Lemma glob_snoc_nil pattern ch : glob (pattern ++ [ch]) [] <-> ch = "*" /\ glob pattern [].
Proof.
  rewrite glob_snoc. unfold stands_for. split.
  - intros (start & piece & Heq & Hg & Hch). symmetry in Heq. apply app_eq_nil in Heq as [-> ->].
    destruct (String.eqb_spec ch "*") as [->|]; [done|]. by destruct (String.eqb_spec ch "?").
  - intros [-> Hg]. by exists [], [].
Qed.

Lemma glob_snoc_snoc pattern ch text c :
  glob (pattern ++ [ch]) (text ++ [c]) <->
  if String.eqb ch "*" then glob pattern (text ++ [c]) \/ glob (pattern ++ [ch]) text
  else (ch = "?" \/ ch = c) /\ glob pattern text.
Proof.
  rewrite glob_snoc. unfold stands_for. destruct (String.eqb_spec ch "*") as [->|Hstar].
  - split.
    + intros (start & piece & Heq & Hg & _). destruct piece as [|d piece _] using rev_ind.
      { rewrite app_nil_r in Heq. subst start. by left. }
      rewrite app_assoc in Heq. apply app_inj_tail in Heq as [-> ->]. right. apply glob_snoc.
      by exists start, piece.
    + intros [Hg|Hg]; [exists (text ++ [c]), []; by rewrite app_nil_r|].
      apply glob_snoc in Hg as (start & piece & -> & Hg & _). exists start, (piece ++ [c]).
      by rewrite app_assoc.
  - destruct (String.eqb_spec ch "?") as [->|Hany].
    + split.
      * intros (start & piece & Heq & Hg & Hl). destruct piece as [|d [|]]; try done.
        apply app_inj_tail in Heq as [-> ->]. auto.
      * intros [_ Hg]. by exists text, [c].
    + split.
      * intros (start & piece & Heq & Hg & ->). apply app_inj_tail in Heq as [-> ->]. auto.
      * intros [[|<-] Hg]; [done|]. by exists text, [ch].
Qed.

(** ** The loops *)

(** A loop over a range keeps what each iteration keeps. *)
Lemma for_range_ind {A} (P : nat -> A -> Prop) (f : A -> nat -> A) n : forall from acc,
  P from acc -> (forall k a, from <= k < from + n -> P k a -> P (S k) (f a k)) ->
  P (from + n) (for_range from n f acc).
Proof.
  induction n as [|n IH]; intros from acc H0 Hstep; unfold for_range; cbn; [by rewrite Nat.add_0_r|].
  replace (from + S n) with (S from + n) by lia.
  apply IH; [apply Hstep; [lia|done]|]. intros k a Hk. apply Hstep. lia.
Qed.

Section correct.
Context (pattern text : list string).
Abbreviation n := (length pattern).
Abbreviation m := (length text).

Definition spec (i j : nat) : Prop := glob (take i pattern) (take j text).

(** The table keeps its size. *)
Definition sized (dp : Table) : Prop := length dp = S n /\ forall i row, dp !! i = Some row -> length row = S m.

Lemma sized_set dp i j b : sized dp -> sized (dp_set dp i j b).
Proof.
  intros [Hl Hr]. split; [by unfold dp_set; rewrite length_alter|].
  intros i' row. unfold dp_set. rewrite list_lookup_alter. case_decide; [|apply Hr].
  intros (row' & Hrow & ->)%fmap_Some. rewrite length_insert. eauto.
Qed.

Lemma dp_get_set dp i j b i' j' : sized dp -> i <= n -> j <= m ->
  dp_get (dp_set dp i j b) i' j' = if decide (i' = i /\ j' = j) then b else dp_get dp i' j'.
Proof.
  intros [Hl Hr] Hi Hj. unfold dp_get, dp_set. rewrite list_lookup_alter.
  destruct (decide (i = i')) as [<-|Hne]; [|by rewrite decide_False by naive_solver].
  destruct (lookup_lt_is_Some_2 dp i) as [row Hrow]; [lia|]. rewrite Hrow. cbn.
  rewrite list_lookup_insert. specialize (Hr i row Hrow).
  destruct (decide (j = j')) as [<-|Hne]; cycle 1.
  { rewrite !decide_False by naive_solver. done. }
  by rewrite !decide_True by (auto; lia).
Qed.

Lemma sized_empty : sized (dp_empty pattern text).
Proof.
  apply sized_set. split; [by rewrite length_replicate|].
  intros i row [-> _]%lookup_replicate. by rewrite length_replicate.
Qed.

Lemma dp_get_empty i j : dp_get (dp_empty pattern text) i j = true <-> i = 0 /\ j = 0.
Proof.
  unfold dp_empty. set (dp := replicate _ _).
  assert (Hdp : sized dp).
  { split; [by unfold dp; rewrite length_replicate|].
    intros i' row [-> _]%lookup_replicate. by rewrite length_replicate. }
  rewrite dp_get_set by (done || lia). case_decide as H0; [by split|]. split; [|done].
  unfold dp_get, dp. intros Hget. exfalso. revert Hget.
  destruct (replicate (S n) (replicate (S m) false) !! i) as [row|] eqn:Hrow; cbn -[replicate]; [|done].
  apply lookup_replicate in Hrow as [-> _].
  destruct (replicate (S m) false !! j) as [b|] eqn:Hb; cbn -[replicate]; [|done].
  by apply lookup_replicate in Hb as [-> _].
Qed.

Lemma take_char_at {l : list string} i : i < length l -> take (S i) l = take i l ++ [char_at l i].
Proof.
  intros Hi. destruct (lookup_lt_is_Some_2 l i Hi) as [c Hc]. unfold char_at. rewrite Hc. by apply take_S_r.
Qed.

(** Row 0 and column 0 *)
Definition bordered (dp : Table) : Prop :=
  sized dp /\ (forall i, i <= n -> dp_get dp i 0 = true <-> spec i 0)
  /\ forall j, j <= m -> dp_get dp 0 j = true <-> spec 0 j.

Lemma spec_0 j : j <= m -> spec 0 j <-> j = 0.
Proof.
  intros Hj. unfold spec. rewrite take_0, glob_nil. destruct j; [by rewrite take_0|].
  destruct text; cbn in *; [lia|]. split; done.
Qed.

Lemma spec_column i : i < n -> spec (S i) 0 <-> char_at pattern i = "*" /\ spec i 0.
Proof. intros Hi. unfold spec. by rewrite (take_char_at i Hi), take_0, glob_snoc_nil. Qed.

Lemma columns_bordered : bordered (for_range 1 n (dp_column pattern) (dp_empty pattern text)).
Proof.
  set (P := fun k (dp : Table) => sized dp
    /\ forall i j, i <= n -> j <= m -> dp_get dp i j = true <-> i < k /\ j = 0 /\ spec i 0).
  assert (HP : P (1 + n) (for_range 1 n (dp_column pattern) (dp_empty pattern text))).
  { apply for_range_ind.
    - split; [apply sized_empty|]. intros i j Hi Hj. rewrite dp_get_empty. split.
      + intros [-> ->]. split; [lia|]. split; [done|]. by apply spec_0; [lia|].
      + intros (Hi' & -> & _). lia.
    - intros k dp Hk [Hsz Hdp]. unfold dp_column. destruct k as [|k]; [lia|]. replace (S k - 1) with k by lia.
      pose proof (spec_column k ltac:(lia)) as Hcol.
      destruct (String.eqb_spec (char_at pattern k) "*") as [Hstar|Hstar].
      + split; [by apply sized_set|]. intros i j Hi Hj. rewrite dp_get_set by (done || lia).
        case_decide as Hc.
        * destruct Hc as [-> ->]. rewrite Hdp, Hcol by lia. split.
          -- intros (_ & _ & Hs). split; [lia|done].
          -- intros (_ & _ & _ & Hs). split; [lia|done].
        * rewrite Hdp by done. split; intros (Hlt & -> & Hs); (split; [|done]); [lia|].
          destruct (decide (i = S k)) as [->|]; [destruct Hc; done|lia].
      + split; [done|]. intros i j Hi Hj. rewrite Hdp by done.
        split; intros (Hlt & -> & Hs); (split; [|done]); [lia|].
        destruct (decide (i = S k)) as [->|]; [apply Hcol in Hs as [? _]; congruence|lia]. }
  destruct HP as [Hsz Hdp]. split; [done|]. split.
  - intros i Hi. rewrite Hdp by lia. split; [by intros (_ & _ & ?)|]. intros Hs. split; [lia|done].
  - intros j Hj. rewrite Hdp, (spec_0 j) by lia. split; [by intros (_ & -> & _)|]. intros ->. split; [lia|].
    split; [done|]. by apply spec_0; [lia|].
Qed.

(** A cell by its neighbours *)
Lemma spec_cell i j : i < n -> j < m ->
  spec (S i) (S j) <->
  if String.eqb (char_at pattern i) "*" then spec i (S j) \/ spec (S i) j
  else (char_at pattern i = "?" \/ char_at pattern i = char_at text j) /\ spec i j.
Proof. intros Hi Hj. unfold spec. by rewrite (take_char_at i Hi), (take_char_at j Hj), glob_snoc_snoc. Qed.

(** Everything up to cell [(i, j)] of row [i], exclusive, is as it should be. *)
Definition done_up_to (i j : nat) (dp : Table) : Prop :=
  bordered dp /\ forall i' j', i' <= n -> j' <= m -> i' < i \/ i' = i /\ j' < j ->
    dp_get dp i' j' = true <-> spec i' j'.

Lemma cell_done i j dp : 1 <= i <= n -> 1 <= j <= m ->
  done_up_to i j dp -> done_up_to i (S j) (dp_cell pattern text i dp j).
Proof.
  intros Hi Hj [(Hsz & Hcol & Hrow) Hdone]. destruct i as [|i]; [lia|]. destruct j as [|j]; [lia|].
  unfold dp_cell. replace (S i - 1) with i by lia. replace (S j - 1) with j by lia.
  set (b := if String.eqb (char_at pattern i) "*" then _ else _).
  assert (Hb : b = true <-> spec (S i) (S j)).
  { unfold b. rewrite (spec_cell i j) by lia.
    destruct (String.eqb (char_at pattern i) "*"); [by rewrite orb_true_iff, !Hdone by lia|].
    destruct (String.eqb_spec (char_at pattern i) "?") as [->|Hany]; [rewrite Hdone by lia; naive_solver|].
    rewrite andb_true_iff, String.eqb_eq, Hdone by lia. naive_solver. }
  split; [split; [by apply sized_set|split; [intros k Hk|intros k Hk]]|intros i' j' Hi' Hj' Hlt];
    rewrite dp_get_set by (done || lia); first [rewrite decide_False by lia|case_decide as Hc]; auto.
  - destruct Hc as [-> ->]. exact Hb.
  - apply Hdone; [done..|]. lia.
Qed.

Lemma row_done i dp : 1 <= i <= n -> done_up_to i 1 dp -> done_up_to (S i) 1 (dp_row pattern text dp i).
Proof.
  intros Hi Hdp. assert (HP : done_up_to i (1 + m) (dp_row pattern text dp i)).
  { unfold dp_row. apply (for_range_ind (done_up_to i)); [done|]. intros j dp' Hj. apply cell_done; lia. }
  destruct HP as [Hb Hdone]. split; [done|]. intros i' j' Hi' Hj' Hlt.
  destruct (decide (i' = S i /\ j' = 0)) as [[-> ->]|]; [by apply Hb|]. apply Hdone; [done..|lia].
Qed.

Lemma table_done : done_up_to (1 + n) 1 (dp_table pattern text).
Proof.
  unfold dp_table. apply (for_range_ind (fun i => done_up_to i 1)).
  - split; [apply columns_bordered|]. intros i j Hi Hj [Hlt|[-> Hlt]].
    + replace i with 0 by lia. by apply columns_bordered.
    + replace j with 0 by lia. by apply columns_bordered.
  - intros i dp Hi. apply row_done. lia.
Qed.
End correct.

(** C17: The table computes the meaning of a pattern: [wildcard_matches] answers
    [true] exactly when the text can be cut into one piece per character of the
    pattern, any piece for a star, a single character for a question mark and
    the character itself otherwise. *)
Theorem wildcard_exact (pattern text : string) :
  wildcard_matches pattern text = true <-> glob (chars pattern) (chars text).
Proof.
  unfold wildcard_matches. destruct (table_done (chars pattern) (chars text)) as [_ Hdone].
  rewrite Hdone by lia. unfold spec. by rewrite !firstn_all.
Qed.

Example wildcard_examples :
  wildcard_matches "git *" "git push" = true /\ wildcard_matches "git ?ush*" "git push" = true
  /\ wildcard_matches "git" "git push" = false /\ wildcard_matches "**" "" = true.
Proof. vm_compute. done. Qed.
