(* ===== verification/Permissions.v ===== *)
(** * Permission policy (brehon-native-agent/src/permissions.rs)

    A tool call becomes an action with a category, a subject and, for shell
    commands, its analysis.  The policy of the configuration is a list of rules,
    each for a category and perhaps a wildcard pattern.  A shell command is
    decided component by component.  Proved here: the list of rules does not
    depend on the iteration order of the configuration's hash maps; and the
    decision, exactly, in terms of the rules that match each component. *)

From S2P Require Import Prelude StrLib Chars Feedback ShellCommand Wildcard.

(** ** Configuration (brehon-types/src/config.rs) *)

Module PermissionValue.
Inductive PermissionValue := Allow | Deny | Ask.
End PermissionValue.
Abbreviation PermissionValue := PermissionValue.PermissionValue.

#[export] Instance PermissionValue_eq_dec : EqDecision PermissionValue.
Proof. solve_decision. Defined.

Inductive PermissionCategory :=
| Simple (value : PermissionValue)
| Nested (patterns : gmap string PermissionValue).

Record PermissionsConfig := mkPermissionsConfig { pc_categories : gmap string PermissionCategory }.

(** ** Actions *)

Module PermissionLevel.
Inductive PermissionLevel := ReadOnly | Write | Execute.
End PermissionLevel.
Abbreviation PermissionLevel := PermissionLevel.PermissionLevel.

Definition permission_level (name : string) : PermissionLevel :=
  if is_one_of ["write_file"; "replace_in_file"] name then PermissionLevel.Write
  else if String.eqb name "bash" then PermissionLevel.Execute
  else PermissionLevel.ReadOnly.

Definition permission_kind (level : PermissionLevel) : string :=
  match level with
  | PermissionLevel.ReadOnly => "read"
  | PermissionLevel.Write => "write"
  | PermissionLevel.Execute => "execute"
  end.

Definition get_str (args : JsonValue) (key : string) : option string := json_get key args ≫= json_as_str.

Definition path_argument (args : JsonValue) : string := default "" (get_str args "path").

Definition permission_category (name : string) (level : PermissionLevel) : string :=
  match level with
  | PermissionLevel.Execute => if String.eqb name "bash" then "bash" else "tool"
  | PermissionLevel.Write => if is_one_of ["write_file"; "replace_in_file"] name then "edit" else "tool"
  | PermissionLevel.ReadOnly =>
      if is_one_of ["read_file"; "list_files"] name then "read"
      else if String.eqb name "search_text" then "grep" else "tool"
  end.

Definition permission_scope (name : string) (level : PermissionLevel) (args : JsonValue) : string :=
  match level with
  | PermissionLevel.Execute =>
      if String.eqb name "bash" then "bash:" +:+ compact_for_key (default "" (get_str args "command")) else name
  | PermissionLevel.Write =>
      if is_one_of ["write_file"; "replace_in_file"] name then name +:+ ":" +:+ path_argument args else name
  | PermissionLevel.ReadOnly => name
  end.

Definition permission_subject (name : string) (args : JsonValue) : string :=
  if String.eqb name "bash" then
    match get_str args "command" with Some command => compact_for_display command | None => name end
  else if is_one_of ["write_file"; "replace_in_file"; "read_file"] name then
    if String.eqb (path_argument args) "" then name else path_argument args
  else if String.eqb name "list_files" then
    match get_str args "path" with
    | Some path => if String.eqb (trim path) "" then "." else path
    | None => "."
    end
  else if String.eqb name "search_text" then
    match get_str args "pattern" with Some pattern => compact_for_display pattern | None => name end
  else name.

Record PermissionAction := mkPermissionAction {
  pa_category : string;
  pa_subject : string;
  pa_scope : string;
  pa_shell : option ShellAnalysis
}.

Definition permission_action_new (name : string) (level : PermissionLevel) (args : JsonValue) : PermissionAction :=
  mkPermissionAction (permission_category name level) (permission_subject name args)
    (permission_scope name level args)
    (if String.eqb name "bash" then analyze_shell_command <$> get_str args "command" else None).

Definition action_risk (a : PermissionAction) : PermissionRisk :=
  match pa_shell a with Some shell => sa_risk shell | None => PermissionRisk.Low end.

Definition action_risk_reasons (a : PermissionAction) : list string :=
  match pa_shell a with Some shell => sa_risk_reasons shell | None => [] end.

Definition hard_deny_reason (a : PermissionAction) : option string :=
  pa_shell a ≫= fun shell =>
    List.find (fun reason => bool_decide (sa_risk shell = PermissionRisk.Critical)
                             && is_critical_reason reason) (sa_risk_reasons shell).

Definition forced_prompt_reason (a : PermissionAction) : option string :=
  pa_shell a ≫= fun shell =>
    if sa_has_command_substitution shell then Some "command substitution requires explicit approval"
    else if sa_has_redirection shell then Some "shell redirection requires explicit approval"
    else if sa_has_background shell then Some "background shell execution requires explicit approval"
    else None.

Record PolicySubjectGroup := mkGroup { sg_display : string; sg_candidates : list string }.

Definition policy_subject_groups (a : PermissionAction) : list PolicySubjectGroup :=
  let own := [mkGroup (pa_subject a) [pa_subject a]] in
  match pa_shell a with
  | Some shell =>
      match (fun c => mkGroup (sc_normalized c) (policy_subjects c)) <$> sa_components shell with
      | [] => own
      | groups => groups
      end
  | None => own
  end.

Definition permission_grant_key (session_id : string) (a : PermissionAction) : string :=
  session_id +:+ ":" +:+ pa_category a +:+ ":" +:+ pa_scope a.

(** ** Rules *)

Record PermissionRule := mkRule {
  ru_category : string;
  ru_pattern : option string;
  ru_decision : PermissionValue;
  ru_ordinal : nat;
  ru_source : string
}.

Definition permission_rule_new (category : string) (pattern : option string) (decision : PermissionValue)
    (ordinal : nat) : PermissionRule :=
  mkRule category pattern decision ordinal
    (match pattern with
     | Some pattern => "config.permissions." +:+ category +:+ "." +:+ pattern
     | None => "config.permissions." +:+ category
     end).

Definition rule_matches (r : PermissionRule) (a : PermissionAction) (g : PolicySubjectGroup) : bool :=
  if negb (String.eqb (ru_category r) "*") && negb (String.eqb (ru_category r) (pa_category a)) then false
  else match ru_pattern r with
       | Some pattern => existsb (wildcard_matches pattern) (sg_candidates g)
       | None => true
       end.

Definition category_score (category : string) (a : PermissionAction) : nat :=
  Nat.b2n (String.eqb category (pa_category a)).

Definition specificity (pattern : option string) : nat :=
  match pattern with Some pattern => pattern_specificity pattern | None => 0 end.

Definition precedence (r : PermissionRule) (a : PermissionAction) (g : PolicySubjectGroup) : nat * nat * nat :=
  (category_score (ru_category r) a,
   specificity (ru_pattern r)
   + Nat.b2n match ru_pattern r with Some pattern => wildcard_matches pattern (sg_display g) | None => false end,
   ru_ordinal r).

Record MatchedPermissionRule := mkMatched {
  mr_category : string;
  mr_pattern : option string;
  mr_decision : PermissionValue;
  mr_source : string
}.

Definition to_matched (r : PermissionRule) : MatchedPermissionRule :=
  mkMatched (ru_category r) (ru_pattern r) (ru_decision r) (ru_source r).

Definition permission_value_label (v : PermissionValue) : string :=
  match v with
  | PermissionValue.Allow => "allow"
  | PermissionValue.Ask => "ask"
  | PermissionValue.Deny => "deny"
  end.

Definition matched_to_json (r : MatchedPermissionRule) : JsonValue :=
  JObject [("category", JString (mr_category r)); ("pattern", json_opt (mr_pattern r));
           ("decision", JString (permission_value_label (mr_decision r)));
           ("source", JString (mr_source r))].

(** ** The policy *)

Module PolicyDecision.
Inductive PolicyDecision := Allow | Ask | Deny | Unspecified.
End PolicyDecision.
Abbreviation PolicyDecision := PolicyDecision.PolicyDecision.

#[export] Instance PolicyDecision_eq_dec : EqDecision PolicyDecision.
Proof. solve_decision. Defined.

Definition permission_value_decision (v : PermissionValue) : PolicyDecision :=
  match v with
  | PermissionValue.Allow => PolicyDecision.Allow
  | PermissionValue.Ask => PolicyDecision.Ask
  | PermissionValue.Deny => PolicyDecision.Deny
  end.

Record PolicyEvaluation := mkEvaluation {
  pe_decision : PolicyDecision;
  pe_matched_rule : option MatchedPermissionRule
}.

Definition unspecified : PolicyEvaluation := mkEvaluation PolicyDecision.Unspecified None.

Record PermissionPolicy := mkPolicy { pp_rules : list PermissionRule }.

(** [categories.sort_by_key(|(left, _)| *left)] *)
Definition key_le {V} (x y : string * V) : bool := str_leb x.1 y.1.

Definition push_rule (category : string) (rules : list PermissionRule)
    (entry : option string * PermissionValue) : list PermissionRule :=
  rules ++ [permission_rule_new category entry.1 entry.2 (length rules)].

Definition category_entries {ord : IterOrder string} (permission : PermissionCategory) :
    list (option string * PermissionValue) :=
  match permission with
  | Simple value => [(None, value)]
  | Nested patterns => (fun p => (Some p.1, p.2)) <$> sort_by key_le (iter_map patterns)
  end.

Definition from_config {ord : IterOrder string} (config : PermissionsConfig) : PermissionPolicy :=
  mkPolicy (foldl (fun rules c => foldl (push_rule c.1) rules (category_entries c.2)) []
              (sort_by key_le (iter_map (pc_categories config)))).

(** Tuples of [usize] compare lexicographically. *)
Definition prec_leb (x y : nat * nat * nat) : bool :=
  let '(a, b, c) := x in
  let '(a', b', c') := y in
  (a <? a')%nat || (a =? a')%nat && ((b <? b')%nat || (b =? b')%nat && (c <=? c')%nat).

(** [iter.max_by_key(key)]: the last of the greatest elements *)
Definition max_by_key {A} (key : A -> nat * nat * nat) (l : list A) : option A :=
  foldl (fun best x =>
    match best with
    | None => Some x
    | Some y => if prec_leb (key y) (key x) then Some x else Some y
    end) None l.

Definition is_deny (r : PermissionRule) : bool := bool_decide (ru_decision r = PermissionValue.Deny).

Definition evaluate_subject (p : PermissionPolicy) (a : PermissionAction) (g : PolicySubjectGroup) :
    PolicyEvaluation :=
  let matching := List.filter (fun r => rule_matches r a g) (pp_rules p) in
  let best l := max_by_key (fun r => precedence r a g) l in
  match (match best (List.filter is_deny matching) with Some r => Some r | None => best matching end) with
  | Some selected => mkEvaluation (permission_value_decision (ru_decision selected)) (Some (to_matched selected))
  | None => unspecified
  end.

(** The loop of [evaluate]: an early return, or the evaluations gathered *)
Fixpoint evaluate_groups (p : PermissionPolicy) (a : PermissionAction) (groups : list PolicySubjectGroup)
    (combined : list PolicyEvaluation) : PolicyEvaluation + list PolicyEvaluation :=
  match groups with
  | [] => inr combined
  | g :: groups =>
      let evaluation := evaluate_subject p a g in
      match pe_decision evaluation with
      | PolicyDecision.Deny => inl evaluation
      | _ => evaluate_groups p a groups (combined ++ [evaluation])
      end
  end.

Definition decides (d : PolicyDecision) (e : PolicyEvaluation) : bool := bool_decide (pe_decision e = d).

(** The pair of the source, with a last component that never decides *)
Definition allow_key (a : PermissionAction) (e : PolicyEvaluation) : nat * nat * nat :=
  match pe_matched_rule e with
  | Some rule => (category_score (mr_category rule) a, specificity (mr_pattern rule), 0)
  | None => (0, 0, 0)
  end.

Definition evaluate (p : PermissionPolicy) (a : PermissionAction) : PolicyEvaluation :=
  match pp_rules p with
  | [] => unspecified
  | _ =>
      match evaluate_groups p a (policy_subject_groups a) [] with
      | inl deny => deny
      | inr [] => unspecified
      | inr combined =>
          match List.find (decides PolicyDecision.Ask) combined with
          | Some ask => ask
          | None =>
              if existsb (decides PolicyDecision.Unspecified) combined then unspecified
              else default unspecified
                     (max_by_key (allow_key a) (List.filter (decides PolicyDecision.Allow) combined))
          end
      end
  end.

(** ** Answers to a prompt *)

Record PermissionPromptDecision := mkPromptDecision { pd_allow : bool; pd_remember : bool }.

Definition permission_prompt_decision (result : JsonValue) : PermissionPromptDecision :=
  let no := mkPromptDecision false false in
  match json_get "outcome" result with
  | None => no
  | Some outcome =>
      if bool_decide (get_str outcome "outcome" = Some "selected") then
        match get_str outcome "optionId" with
        | Some option =>
            if is_one_of ["allow-session"; "allow-always"; "always"] option then mkPromptDecision true true
            else if starts_with "allow" option then mkPromptDecision true false
            else no
        | None => no
        end
      else no
  end.

(** ** The greatest element *)

Lemma prec_lex (a b c a' b' c' : nat) :
  (a <? a')%nat || (a =? a')%nat && ((b <? b')%nat || (b =? b')%nat && (c <=? c')%nat) = true <->
  a < a' \/ a = a' /\ (b < b' \/ b = b' /\ c <= c').
Proof.
  by rewrite orb_true_iff, andb_true_iff, orb_true_iff, andb_true_iff, !Nat.ltb_lt, !Nat.eqb_eq, Nat.leb_le.
Qed.

Lemma prec_leb_total x y : prec_leb x y = true \/ prec_leb y x = true.
Proof.
  destruct x as [[a b] c], y as [[a' b'] c'].
  unfold prec_leb. rewrite ?prec_lex. lia.
Qed.

Lemma prec_leb_trans x y z : prec_leb x y = true -> prec_leb y z = true -> prec_leb x z = true.
Proof.
  destruct x as [[a b] c], y as [[a' b'] c'], z as [[a'' b''] c''].
  unfold prec_leb. rewrite ?prec_lex. lia.
Qed.

Lemma prec_leb_antisym x y : prec_leb x y = true -> prec_leb y x = true -> x = y.
Proof.
  destruct x as [[a b] c], y as [[a' b'] c'].
  unfold prec_leb. rewrite ?prec_lex.
  intros. f_equal; [f_equal|]; lia.
Qed.

Lemma prec_leb_refl x : prec_leb x x = true.
Proof. by destruct (prec_leb_total x x). Qed.

(** [x] is a greatest element of [l] by [key]. *)
Definition greatest {A} (key : A -> nat * nat * nat) (l : list A) (x : A) : Prop :=
  x ∈ l /\ forall y, y ∈ l -> prec_leb (key y) (key x) = true.

Lemma max_by_key_snoc {A} (key : A -> nat * nat * nat) l x :
  max_by_key key (l ++ [x]) =
  match max_by_key key l with
  | Some y => if prec_leb (key y) (key x) then Some x else Some y
  | None => Some x
  end.
Proof. unfold max_by_key. by rewrite foldl_app. Qed.

Lemma max_by_key_spec {A} (key : A -> nat * nat * nat) l :
  match max_by_key key l with Some x => greatest key l x | None => l = [] end.
Proof.
  induction l as [|x l IH] using rev_ind; [done|]. rewrite max_by_key_snoc.
  assert (Hel : forall z, z ∈ l ++ [x] <-> z ∈ l \/ z = x)
    by (intros z; by rewrite elem_of_app, list_elem_of_singleton).
  destruct (max_by_key key l) as [y|].
  - destruct IH as [Hin Hmax]. destruct (prec_leb (key y) (key x)) eqn:Hle.
    + split; [apply Hel; by right|]. intros z [Hz| ->]%Hel; [|apply prec_leb_refl]. eapply prec_leb_trans; eauto.
    + split; [apply Hel; by left|]. intros z [Hz| ->]%Hel; [by apply Hmax|].
      destruct (prec_leb_total (key y) (key x)); congruence.
  - subst l. split; [apply Hel; by right|].
    intros z [Hz%elem_of_nil| ->]%Hel; [done|apply prec_leb_refl].
Qed.

(** ** The rules of a configuration *)

(** Rules are numbered by their position. *)
Definition numbered (rules : list PermissionRule) : Prop :=
  forall i r, rules !! i = Some r -> ru_ordinal r = i.

Lemma numbered_push category rules entry : numbered rules -> numbered (push_rule category rules entry).
Proof.
  intros Hn i r. unfold push_rule. rewrite lookup_app_Some, list_lookup_singleton_Some.
  intros [Hr|(Hlen & Hi & <-)]; [by apply Hn|]. cbn. lia.
Qed.

Lemma numbered_config {ord : IterOrder string} config : numbered (pp_rules (from_config config)).
Proof.
  unfold from_config. cbn [pp_rules].
  assert (Hn : numbered []) by (intros i r; by rewrite lookup_nil).
  revert Hn. generalize (@nil PermissionRule). induction (sort_by _ _) as [|c l IH]; intros rules Hn; [done|].
  cbn [foldl]. apply IH. clear IH. revert rules Hn.
  induction (category_entries c.2) as [|e es IH]; intros rules Hn; [done|]. cbn [foldl].
  apply IH, numbered_push, Hn.
Qed.

Lemma numbered_rules_inj rules r r' : numbered rules ->
  r ∈ rules -> r' ∈ rules -> ru_ordinal r = ru_ordinal r' -> r = r'.
Proof.
  intros Hn [i Hi]%list_elem_of_lookup [j Hj]%list_elem_of_lookup Heq.
  rewrite (Hn i r Hi), (Hn j r' Hj) in Heq. subst j. congruence.
Qed.

(** Sorting by distinct keys forgets the order of iteration. *)
Lemma sort_by_key_unique {V} (l k : list (string * V)) :
  l ≡ₚ k -> NoDup l.*1 -> sort_by key_le l = sort_by key_le k.
Proof.
  intros Hp Hnd.
  assert (Hsorted : forall l : list (string * V), StronglySorted (fun x y => key_le x y = true) (sort_by key_le l)).
  { intros l'. apply sort_by_sorted; [intros ??; apply str_leb_total|intros ???; apply str_leb_trans]. }
  eapply (StronglySorted_unique_strong (fun x y => key_le x y = true));
    [|apply Hsorted|apply Hsorted|by rewrite !sort_by_perm].
  intros [s v] [s' v'] Hx Hy Hle Hle'. unfold key_le in Hle, Hle'. cbn in Hle, Hle'.
  assert (s = s') as <- by (by apply String.leb_antisym).
  rewrite sort_by_perm in Hx, Hy. rewrite <-Hp in Hy.
  apply list_elem_of_lookup in Hx as [i Hi], Hy as [j Hj].
  assert (i = j) as <-; [|congruence].
  eapply (NoDup_lookup l.*1); [done|by rewrite list_lookup_fmap, Hi|by rewrite list_lookup_fmap, Hj].
Qed.

Lemma sorted_map_unique {V} (ord ord' : IterOrder string) (m : gmap string V) :
  sort_by key_le (@iter_map _ _ _ ord _ m) = sort_by key_le (@iter_map _ _ _ ord' _ m).
Proof. apply sort_by_key_unique; [by rewrite !iter_map_perm|apply NoDup_iter_map_fst]. Qed.

Lemma from_config_unique (ord ord' : IterOrder string) config :
  @from_config ord config = @from_config ord' config.
Proof.
  unfold from_config. f_equal. rewrite (sorted_map_unique ord ord').
  generalize (@nil PermissionRule). induction (sort_by _ _) as [|c l IH]; intros rules; [done|].
  cbn [foldl]. rewrite IH. do 2 f_equal. unfold category_entries.
  destruct c.2; [done|]. by rewrite (sorted_map_unique ord ord').
Qed.

(** ** One subject *)

Definition matching_rule (p : PermissionPolicy) (a : PermissionAction) (g : PolicySubjectGroup)
    (r : PermissionRule) : Prop := r ∈ pp_rules p /\ rule_matches r a g = true.

(** No rule that matches takes precedence over [r]. *)
Definition wins (p : PermissionPolicy) (a : PermissionAction) (g : PolicySubjectGroup)
    (r : PermissionRule) : Prop :=
  matching_rule p a g r
  /\ forall r', matching_rule p a g r' -> prec_leb (precedence r' a g) (precedence r a g) = true.

Definition denied (p : PermissionPolicy) (a : PermissionAction) (g : PolicySubjectGroup) : Prop :=
  exists r, matching_rule p a g r /\ ru_decision r = PermissionValue.Deny.

Lemma elem_of_filter_matching p a g r :
  r ∈ List.filter (fun r => rule_matches r a g) (pp_rules p) <-> matching_rule p a g r.
Proof. by rewrite list_elem_of_In, filter_In, <-list_elem_of_In. Qed.

Lemma wins_unique p a g r r' : numbered (pp_rules p) -> wins p a g r -> wins p a g r' -> r = r'.
Proof.
  intros Hn [Hr Hmax] [Hr' Hmax']. pose proof (prec_leb_antisym _ _ (Hmax _ Hr') (Hmax' _ Hr)) as Heq.
  injection Heq as _ _ Heq. eapply numbered_rules_inj; [done|apply Hr|apply Hr'|done].
Qed.

(** What the rules that match say about a subject *)
Lemma evaluate_subject_spec p a g : numbered (pp_rules p) ->
  match pe_decision (evaluate_subject p a g) with
  | PolicyDecision.Deny => denied p a g
  | PolicyDecision.Allow => ~ denied p a g /\ exists r, wins p a g r /\ ru_decision r = PermissionValue.Allow
  | PolicyDecision.Ask => ~ denied p a g /\ exists r, wins p a g r /\ ru_decision r = PermissionValue.Ask
  | PolicyDecision.Unspecified => forall r, ~ matching_rule p a g r
  end.
Proof.
  intros Hn. unfold evaluate_subject. set (matching := List.filter _ (pp_rules p)).
  pose proof (max_by_key_spec (fun r => precedence r a g) (List.filter is_deny matching)) as Hdeny.
  destruct (max_by_key _ (List.filter is_deny matching)) as [r|].
  { destruct Hdeny as [Hin _]. rewrite list_elem_of_In, filter_In, <-list_elem_of_In in Hin.
    destruct Hin as [Hin Hd%bool_decide_eq_true]. cbn. rewrite Hd. cbn. exists r.
    by apply elem_of_filter_matching in Hin. }
  assert (Hno : ~ denied p a g).
  { intros (r & Hr & Hd). assert (Hin : r ∈ List.filter is_deny matching).
    { apply list_elem_of_In, filter_In. rewrite <-list_elem_of_In. split; [by apply elem_of_filter_matching|].
      by apply bool_decide_eq_true. }
    rewrite Hdeny in Hin. by apply elem_of_nil in Hin. }
  pose proof (max_by_key_spec (fun r => precedence r a g) matching) as Hbest.
  destruct (max_by_key _ matching) as [r|]; cbn [pe_decision unspecified]; cycle 1.
  { intros r Hr%elem_of_filter_matching. fold matching in Hr. rewrite Hbest in Hr. by apply elem_of_nil in Hr. }
  destruct Hbest as [Hin%elem_of_filter_matching Hmax].
  assert (Hwins : wins p a g r).
  { split; [done|]. intros r' Hr'. by apply Hmax, elem_of_filter_matching. }
  destruct (ru_decision r) eqn:Hd; cbn; [by eauto|by exists r|by eauto].
Qed.

(** ** All subjects *)

(** The strictest of several decisions; silence about one of them is not
    permission. *)
Definition strictest (l : list PolicyDecision) : PolicyDecision :=
  if bool_decide (PolicyDecision.Deny ∈ l) then PolicyDecision.Deny
  else if bool_decide (PolicyDecision.Ask ∈ l) then PolicyDecision.Ask
  else if bool_decide (PolicyDecision.Unspecified ∈ l) then PolicyDecision.Unspecified
  else PolicyDecision.Allow.

Lemma evaluate_groups_spec p a groups : forall combined,
  match evaluate_groups p a groups combined with
  | inl e => pe_decision e = PolicyDecision.Deny
             /\ PolicyDecision.Deny ∈ pe_decision <$> (evaluate_subject p a <$> groups)
  | inr l => l = combined ++ (evaluate_subject p a <$> groups)
             /\ PolicyDecision.Deny ∉ pe_decision <$> (evaluate_subject p a <$> groups)
  end.
Proof.
  induction groups as [|g groups IH]; intros combined; cbn.
  { rewrite app_nil_r. split; [done|apply not_elem_of_nil]. }
  specialize (IH (combined ++ [evaluate_subject p a g])).
  destruct (pe_decision (evaluate_subject p a g)) eqn:Hd; cycle 2.
  { rewrite Hd. split; [done|left]. }
  all: destruct (evaluate_groups _ _ _ _) as [e|l]; destruct IH as [H1 H2];
    [split; [done|by right]|split; [by rewrite H1, <-app_assoc|]; rewrite not_elem_of_cons; by split].
Qed.

Lemma groups_nonempty a : policy_subject_groups a <> [].
Proof. unfold policy_subject_groups. destruct (pa_shell a) as [shell|]; [|done]. by destruct (_ <$> _). Qed.

Lemma existsb_decides d l : existsb (decides d) l = bool_decide (d ∈ pe_decision <$> l).
Proof.
  apply eq_true_iff_eq. rewrite existsb_exists, bool_decide_eq_true, list_elem_of_fmap.
  setoid_rewrite <-list_elem_of_In. unfold decides. setoid_rewrite bool_decide_eq_true. naive_solver.
Qed.

Lemma find_decides d l :
  match List.find (decides d) l with
  | Some e => pe_decision e = d /\ d ∈ pe_decision <$> l
  | None => d ∉ pe_decision <$> l
  end.
Proof.
  destruct (List.find (decides d) l) as [e|] eqn:Hf.
  - apply find_some in Hf as [Hin Hd%bool_decide_eq_true]. split; [done|].
    apply list_elem_of_fmap. exists e. by rewrite list_elem_of_In.
  - intros (e & -> & Hin%list_elem_of_In)%list_elem_of_fmap. apply (find_none _ _ Hf e) in Hin.
    unfold decides in Hin. by rewrite bool_decide_true in Hin.
Qed.

Lemma evaluate_strictest p a :
  pe_decision (evaluate p a) = strictest (pe_decision <$> (evaluate_subject p a <$> policy_subject_groups a)).
Proof.
  pose proof (groups_nonempty a) as Hne. unfold evaluate, strictest.
  destruct (pp_rules p) as [|r rules] eqn:Hrules.
  { assert (Hun : forall g, evaluate_subject p a g = unspecified)
      by (intros g; unfold evaluate_subject; by rewrite Hrules).
    assert (Hall : Forall (eq PolicyDecision.Unspecified)
              (pe_decision <$> (evaluate_subject p a <$> policy_subject_groups a))).
    { apply Forall_forall. intros d (e & -> & (g & -> & _)%list_elem_of_fmap)%list_elem_of_fmap. by rewrite Hun. }
    destruct (policy_subject_groups a) as [|g groups]; [done|]. rewrite Forall_forall in Hall.
    rewrite (bool_decide_false (PolicyDecision.Deny ∈ _)) by (intros Hd; by apply Hall in Hd).
    rewrite (bool_decide_false (PolicyDecision.Ask ∈ _)) by (intros Hd; by apply Hall in Hd).
    rewrite bool_decide_true; [done|]. cbn. rewrite Hun. left. }
  pose proof (evaluate_groups_spec p a (policy_subject_groups a) []) as Hg.
  destruct (evaluate_groups _ _ _ _) as [e|combined]; destruct Hg as [Hg Hd].
  { by rewrite (bool_decide_true _ Hd). }
  rewrite (bool_decide_false _ Hd). cbn [app] in Hg. subst combined.
  set (l := evaluate_subject p a <$> policy_subject_groups a) in *.
  assert (Hl : l <> []) by (unfold l; by destruct (policy_subject_groups a)).
  assert (Hm : forall x y : PolicyEvaluation, match l with [] => x | _ => y end = y) by (by destruct l).
  rewrite Hm. pose proof (find_decides PolicyDecision.Ask l) as Hask.
  destruct (List.find _ l) as [ask|]; [destruct Hask as [Ha Hin]; by rewrite (bool_decide_true _ Hin)|].
  rewrite (bool_decide_false _ Hask), existsb_decides. case_bool_decide as Hun; [done|].
  assert (Hallow : forall e, e ∈ l -> pe_decision e = PolicyDecision.Allow).
  { intros e He. destruct (pe_decision e) eqn:Hde; [done|exfalso..]; [destruct Hask|destruct Hd|destruct Hun];
      rewrite <-Hde; by apply list_elem_of_fmap_2. }
  pose proof (max_by_key_spec (allow_key a) (List.filter (decides PolicyDecision.Allow) l)) as Hmax.
  destruct (max_by_key _ _) as [e|]; cbn [default].
  - destruct Hmax as [Hin _]. rewrite list_elem_of_In, filter_In, <-list_elem_of_In in Hin. apply Hallow, Hin.
  - exfalso. destruct l as [|e l']; [done|]. cbn in Hmax. unfold decides at 1 in Hmax.
    rewrite bool_decide_true in Hmax; [done|]. apply Hallow. left.
Qed.

Lemma elem_of_decisions p a d :
  (d ∈ pe_decision <$> (evaluate_subject p a <$> policy_subject_groups a)) <->
  exists g, g ∈ policy_subject_groups a /\ pe_decision (evaluate_subject p a g) = d.
Proof. rewrite <-list_fmap_compose, list_elem_of_fmap. naive_solver. Qed.

Lemma strictest_spec l :
  (strictest l = PolicyDecision.Deny <-> PolicyDecision.Deny ∈ l)
  /\ (strictest l = PolicyDecision.Ask <-> (PolicyDecision.Deny ∉ l) /\ (PolicyDecision.Ask ∈ l))
  /\ (strictest l = PolicyDecision.Allow <-> forall d, d ∈ l -> d = PolicyDecision.Allow).
Proof.
  unfold strictest. split; [|split]; repeat case_bool_decide; try naive_solver.
  split; [intros _|done]. intros [] Hd; naive_solver.
Qed.

(** C16: The decision of a configured policy, exactly, whatever order the hash
    maps of the configuration are iterated in.  A shell command is denied when a
    deny rule matches any of its components; it is asked about when none does
    and the rule with the highest precedence asks for some component; it is
    allowed only when for every component the rule with the highest precedence
    allows and no matching rule denies. *)
Theorem policy_decides (ord : IterOrder string) (config : PermissionsConfig) (a : PermissionAction) :
  let p := from_config config in
  let decision := pe_decision (evaluate p a) in
  (decision = PolicyDecision.Deny <->
     exists g, g ∈ policy_subject_groups a /\ denied p a g)
  /\ (decision = PolicyDecision.Ask <->
     (forall g, g ∈ policy_subject_groups a -> ~ denied p a g)
     /\ exists g r, g ∈ policy_subject_groups a /\ wins p a g r /\ ru_decision r = PermissionValue.Ask)
  /\ (decision = PolicyDecision.Allow <->
     forall g, g ∈ policy_subject_groups a ->
       ~ denied p a g /\ exists r, wins p a g r /\ ru_decision r = PermissionValue.Allow)
  /\ forall ord' : IterOrder string, @from_config ord' config = p.
Proof.
  cbn zeta. set (p := from_config config).
  pose proof (numbered_config config : numbered (pp_rules p)) as Hn.
  pose proof (fun g => evaluate_subject_spec p a g Hn) as Hspec.
  rewrite evaluate_strictest.
  destruct (strictest_spec (pe_decision <$> (evaluate_subject p a <$> policy_subject_groups a))) as (Hd & Hk & Ha).
  rewrite Hd, Hk, Ha. setoid_rewrite elem_of_decisions.
  assert (Hdeny : forall g, pe_decision (evaluate_subject p a g) = PolicyDecision.Deny <-> denied p a g).
  { intros g. specialize (Hspec g). destruct (pe_decision _); try naive_solver.
    split; [done|]. intros (r & Hr & _). by destruct (Hspec r). }
  assert (Hval : forall g r v, wins p a g r -> ru_decision r = v -> ~ denied p a g ->
            pe_decision (evaluate_subject p a g) = permission_value_decision v).
  { intros g r v Hw Hv Hnd. specialize (Hspec g). destruct (pe_decision _).
    - destruct Hspec as (_ & r' & Hw' & Hv'). rewrite (wins_unique _ _ _ _ _ Hn Hw Hw') in Hv. by rewrite <-Hv, Hv'.
    - destruct Hspec as (_ & r' & Hw' & Hv'). rewrite (wins_unique _ _ _ _ _ Hn Hw Hw') in Hv. by rewrite <-Hv, Hv'.
    - done.
    - destruct Hw as [Hm _]. by destruct (Hspec r). }
  split; [|split; [|split]].
  - setoid_rewrite Hdeny. done.
  - split.
    + intros [Hno (g & Hg & He)]. split; [intros g' Hg' Hd'; apply Hno; exists g'; by rewrite Hdeny|].
      specialize (Hspec g). rewrite He in Hspec. naive_solver.
    + intros [Hno (g & r & Hg & Hw & Hv)]. split; [intros (g' & Hg' & Hd'%Hdeny); by apply (Hno g')|].
      exists g. split; [done|]. by rewrite (Hval g r _ Hw Hv (Hno g Hg)).
  - split.
    + intros Hall g Hg. specialize (Hspec g). rewrite (Hall _ (ex_intro _ g (conj Hg eq_refl))) in Hspec. done.
    + intros Hall d (g & Hg & <-). destruct (Hall g Hg) as (Hnd & r & Hw & Hv).
      by rewrite (Hval g r _ Hw Hv Hnd).
  - intros ord'. apply from_config_unique.
Qed.
