(* ===== verification/NativeTools.v ===== *)
(** * The tools of the native agent and their permission gate
    (brehon-native-agent/src/tools.rs and agent_runtime/executor.rs)

    A tool call is normalized, passes the gate [ensure_allowed], and only then
    runs.  The state is the store of grants the sessions share; while the gate
    waits for an answer, other calls may add grants, so the request for
    permission is a parameter that may change the store.  What a call runs is
    recorded as a list of effects.  Proved here: the conditions under which the
    gate lets a call pass, exactly; that critical commands never run; that what
    runs is what the gate has seen; and that grants only come from a user's
    answer, for the same session and scope. *)

From Stdlib Require Import Ascii.
From S2P Require Import Prelude StrLib Chars Terminal Feedback ShellCommand Permissions.

(** ** Modes (runtime.rs) *)

Module PermissionMode.
Inductive PermissionMode := Default | AcceptEdits | Plan | Bypass.
End PermissionMode.
Abbreviation PermissionMode := PermissionMode.PermissionMode.

#[export] Instance PermissionMode_eq_dec : EqDecision PermissionMode.
Proof. solve_decision. Defined.

Definition permission_mode_parse (input : string) : Result PermissionMode string :=
  let mode := to_ascii_lowercase (trim input) in
  if String.eqb mode "default" then Ok PermissionMode.Default
  else if is_one_of ["accept-edits"; "accept_edits"] mode then Ok PermissionMode.AcceptEdits
  else if String.eqb mode "plan" then Ok PermissionMode.Plan
  else if is_one_of ["bypass"; "yolo"] mode then Ok PermissionMode.Bypass
  else Err ("unsupported permission mode '" +:+ mode +:+ "'").

(** ** Names *)

Definition BREHON_RAW_TOOL_NAMES : list string :=
  ["health"; "search_memories"; "create_memory"; "get_memories"; "list_memories"; "delete_memory";
   "search_rules"; "create_rule"; "search_skills"; "get_task_context"; "list_tasks"; "get_task";
   "task"; "agent"; "factory"; "verification"; "task_actions"].

Definition is_raw_brehon_tool_name (name : string) : bool := is_one_of BREHON_RAW_TOOL_NAMES name.

Definition canonical_brehon_tool_name (name tool_prefix : string) : string :=
  if negb (String.eqb tool_prefix "") && starts_with tool_prefix name then name
  else if is_raw_brehon_tool_name name then tool_prefix +:+ name
  else name.

(** ** Arguments *)

(** [map.insert(key, value)] of a JSON object *)
Fixpoint insert_field (key : string) (value : JsonValue) (fields : list (string * JsonValue)) :
    list (string * JsonValue) :=
  match fields with
  | [] => [(key, value)]
  | (k, v) :: fields =>
      if String.eqb k key then (key, value) :: fields else (k, v) :: insert_field key value fields
  end.

(** [iter.find_map(f)] *)
Fixpoint find_map {A B} (f : A -> option B) (l : list A) : option B :=
  match l with
  | [] => None
  | x :: l => match f x with Some y => Some y | None => find_map f l end
  end.

Definition field_str (fields : list (string * JsonValue)) (key : string) : option string :=
  field_of key fields ≫= json_as_str.

Definition copy_string_alias (target : string) (aliases : list string) (fields : list (string * JsonValue)) :
    list (string * JsonValue) :=
  match non_blank (field_str fields target) with
  | Some _ => fields
  | None =>
      match find_map (fun alias => non_blank (field_str fields alias)) aliases with
      | Some value => insert_field target (JString value) fields
      | None => fields
      end
  end.

Definition copy_value_alias (target : string) (aliases : list string) (fields : list (string * JsonValue)) :
    list (string * JsonValue) :=
  match field_of target fields with
  | Some _ => fields
  | None =>
      match find_map (fun alias => field_of alias fields) aliases with
      | Some value => insert_field target value fields
      | None => fields
      end
  end.

Definition path_aliases : list string := ["file_path"; "filepath"; "file"; "filename"].

Definition normalize_fields (name : string) (fields : list (string * JsonValue)) : list (string * JsonValue) :=
  if String.eqb name "bash" then copy_string_alias "command" ["cmd"] fields
  else if String.eqb name "read_file" then
    copy_value_alias "end_line" ["end"; "line_end"]
      (copy_value_alias "start_line" ["start"; "line_start"] (copy_string_alias "path" path_aliases fields))
  else if String.eqb name "write_file" then copy_string_alias "path" path_aliases fields
  else if String.eqb name "replace_in_file" then
    copy_value_alias "replace_all" ["replaceAll"]
      (copy_string_alias "new" ["new_text"; "replacement"; "replace"]
         (copy_string_alias "old" ["old_text"; "target"; "search"; "find"]
            (copy_string_alias "path" path_aliases fields)))
  else if String.eqb name "search_text" then
    copy_string_alias "path" ["dir"; "directory"]
      (copy_string_alias "pattern" ["query"; "regex"; "text"] fields)
  else if String.eqb name "list_files" then copy_string_alias "path" ["dir"; "directory"] fields
  else fields.

Definition normalize_tool_args (name : string) (args : JsonValue) : JsonValue :=
  match args with JObject fields => JObject (normalize_fields name fields) | _ => args end.

Definition required_string (args : JsonValue) (field : string) : Result string string :=
  match get_str args field with
  | Some value => if String.eqb (trim value) "" then Err ("missing required string field '" +:+ field +:+ "'")
                  else Ok value
  | None => Err ("missing required string field '" +:+ field +:+ "'")
  end.

Definition optional_u64 (args : JsonValue) (field : string) : option Z :=
  match json_get field args with
  | Some (JNumber n) => if (0 <=? n)%Z && (n <=? u64_max)%Z then Some n else None
  | _ => None
  end.

(** ** The gate *)

Record RpcResponse := mkResponse { rp_error : option JsonValue; rp_result : option JsonValue }.

Record NativeTools := mkNativeTools {
  nt_permission_mode : PermissionMode;
  nt_permission_policy : PermissionPolicy;
  nt_brehon_tool_prefix : option string
}.

Definition is_brehon_coordination_tool (t : NativeTools) (name : string) : bool :=
  match nt_brehon_tool_prefix t with
  | Some prefix => starts_with prefix name || is_raw_brehon_tool_name name
  | None => false
  end.

Definition canonical_tool_name (t : NativeTools) (name : string) : string :=
  match nt_brehon_tool_prefix t with
  | Some prefix => canonical_brehon_tool_name name prefix
  | None => name
  end.

Definition Grants := gset string.

Definition json_opt_value (v : option JsonValue) : JsonValue := default JNull v.

Definition prompt_option (id kind label : string) : JsonValue :=
  JObject [("optionId", JString id); ("kind", JString kind); ("label", JString label)].

(** The request that is sent for an action *)
Definition permission_request (session_id name : string) (level : PermissionLevel) (args : JsonValue)
    (a : PermissionAction) (e : PolicyEvaluation) : JsonValue :=
  JObject
    [("sessionId", JString session_id); ("action", JString name); ("category", JString (pa_category a));
     ("operation", JString (permission_kind level)); ("subject", JString (pa_subject a));
     ("risk", JString (risk_as_str (action_risk a))); ("riskReasons", json_strings (action_risk_reasons a));
     ("kind", JString (permission_kind level));
     ("policy", JObject
        [("source", JString (match pe_matched_rule e with Some r => mr_source r | None => "mode_default" end));
         ("matchedRule", json_opt_value (matched_to_json <$> pe_matched_rule e))]);
     ("details", JObject
        [("tool", JString name); ("arguments", args); ("subject", JString (pa_subject a));
         ("scope", JString (pa_scope a)); ("forcedPromptReason", json_opt (forced_prompt_reason a));
         ("shell", json_opt_value (analysis_to_json <$> pa_shell a))]);
     ("options", JArray
        [prompt_option "allow-once" "allow_once" "Allow once";
         prompt_option "allow-session" "allow_session" "Allow this session";
         prompt_option "deny" "deny" "Deny"])].

Section gate.
Context (tools : NativeTools) (session_id : string).

(** [rpc.request_with_cancel("session/request_permission", params, cancel)] *)
Context (request : JsonValue -> SM Grants string RpcResponse).

(** The decision a forced prompt leaves of the policy's *)
Definition effective_decision (a : PermissionAction) (e : PolicyEvaluation) : PolicyDecision :=
  match forced_prompt_reason a, pe_decision e with
  | Some _, PolicyDecision.Allow => PolicyDecision.Ask
  | _, d => d
  end.

(** What happens without a prompt: [Some] for [return Ok(())] *)
Definition allowed_silently (level : PermissionLevel) (d : PolicyDecision) : bool :=
  match d with
  | PolicyDecision.Allow => true
  | PolicyDecision.Unspecified =>
      match nt_permission_mode tools, level with
      | _, PermissionLevel.ReadOnly => true
      | PermissionMode.AcceptEdits, PermissionLevel.Write => true
      | _, _ => false
      end
  | _ => false
  end.

(** The part after the policy: grants, then the prompt *)
Definition ask_user (name : string) (level : PermissionLevel) (args : JsonValue) (a : PermissionAction)
    (e : PolicyEvaluation) : SM Grants string unit := fun grants =>
  let grant_key := permission_grant_key session_id a in
  if bool_decide (grant_key ∈ grants) then (grants, Ok ())
  else
    (let! response := request (permission_request session_id name level args a e) in
     match rp_error response, rp_result response with
     | Some _, _ => sm_lift (Err "permission request was rejected by the gateway")
     | None, None => sm_lift (Err "permission response missing result")
     | None, Some result =>
         let decision := permission_prompt_decision result in
         if negb (pd_allow decision) then sm_lift (Err ("permission denied for " +:+ name))
         else fun grants => (if pd_remember decision then {[grant_key]} ∪ grants else grants, Ok ())
     end) grants.

Definition is_mutating (level : PermissionLevel) : bool :=
  match level with PermissionLevel.ReadOnly => false | _ => true end.

Definition ensure_allowed (name : string) (level : PermissionLevel) (args : JsonValue) : SM Grants string unit :=
  if bool_decide (nt_permission_mode tools = PermissionMode.Plan) && is_mutating level
  then sm_lift (Err ("permission mode plan blocked " +:+ name +:+ "; switch modes or ask a supervisor"))
  else if is_brehon_coordination_tool tools name then sm_ret ()
  else
    let a := permission_action_new name level args in
    match hard_deny_reason a with
    | Some reason => sm_lift (Err ("permission safety blocked " +:+ name +:+ ": " +:+ reason))
    | None =>
        let e := evaluate (nt_permission_policy tools) a in
        if bool_decide (pe_decision e = PolicyDecision.Deny)
        then sm_lift (Err ("permission policy denied " +:+ name +:+ ": " +:+ pa_subject a))
        else if bool_decide (nt_permission_mode tools = PermissionMode.Bypass) then sm_ret ()
        else if allowed_silently level (effective_decision a e) then sm_ret ()
        else ask_user name level args a (mkEvaluation (effective_decision a e) (pe_matched_rule e))
    end.

(** ** Running a call *)

Inductive Effect :=
| RunShell (command : string) (timeout_secs : Z)
| CallTool (name : string) (args : JsonValue).

(** [run_shell_command] and [inner.invoke], cancellation included *)
Context (run : Effect -> Result string string).

Definition DEFAULT_COMMAND_TIMEOUT_SECS : Z := 120.
Definition MAX_COMMAND_TIMEOUT_SECS : Z := 600.
Definition MAX_COMMAND_OUTPUT_BYTES : nat := 32 * 1024.

Definition truncate_bytes (value : string) (max : nat) : string :=
  if (String.length value <=? max)%nat then value
  else bytes_to (floor_boundary value max) value +:+ "...[truncated]".

Definition run_cancellable_bash (args : JsonValue) : list Effect * Result string string :=
  match required_string args "command" with
  | Err e => ([], Err e)
  | Ok command =>
      let timeout_secs :=
        Z.max 1 (Z.min MAX_COMMAND_TIMEOUT_SECS
          (default DEFAULT_COMMAND_TIMEOUT_SECS (optional_u64 args "timeout_secs"))) in
      let effect := RunShell command timeout_secs in
      ([effect], let? output := run effect in Ok (truncate_bytes output MAX_COMMAND_OUTPUT_BYTES))
  end.

Definition invoke (name : string) (args : JsonValue) (grants : Grants) :
    Grants * (list Effect * Result string string) :=
  let name := canonical_tool_name tools name in
  let args := normalize_tool_args name args in
  let level := permission_level name in
  match ensure_allowed name level args grants with
  | (grants, Err e) => (grants, ([], Err e))
  | (grants, Ok tt) =>
      (grants,
       if String.eqb name "bash" then run_cancellable_bash args
       else ([CallTool name args], run (CallTool name args)))
  end.
End gate.

(** ** What opens the gate *)

Section gate_facts.
Context (tools : NativeTools) (session_id : string) (request : JsonValue -> SM Grants string RpcResponse).

(** The user allows the action when asked; [remember] says whether for the rest
    of the session. *)
Definition user_allows (name : string) (level : PermissionLevel) (args : JsonValue) (grants : Grants)
    (remember : bool) : Prop :=
  let a := permission_action_new name level args in
  let e := evaluate (nt_permission_policy tools) a in
  exists grants' result,
    request (permission_request session_id name level args a
               (mkEvaluation (effective_decision a e) (pe_matched_rule e))) grants
      = (grants', Ok (mkResponse None (Some result)))
    /\ permission_prompt_decision result = mkPromptDecision true remember.

Definition gate_open (name : string) (level : PermissionLevel) (args : JsonValue) (grants : Grants) : Prop :=
  let a := permission_action_new name level args in
  let decision := pe_decision (evaluate (nt_permission_policy tools) a) in
  ~ (nt_permission_mode tools = PermissionMode.Plan /\ level <> PermissionLevel.ReadOnly)
  /\ (is_brehon_coordination_tool tools name = true
      \/ hard_deny_reason a = None /\ decision <> PolicyDecision.Deny
         /\ (nt_permission_mode tools = PermissionMode.Bypass
             \/ decision = PolicyDecision.Allow /\ forced_prompt_reason a = None
             \/ decision = PolicyDecision.Unspecified
                /\ (level = PermissionLevel.ReadOnly
                    \/ nt_permission_mode tools = PermissionMode.AcceptEdits /\ level = PermissionLevel.Write)
             \/ permission_grant_key session_id a ∈ grants
             \/ exists remember, user_allows name level args grants remember)).

Lemma is_mutating_iff level : is_mutating level = true <-> level <> PermissionLevel.ReadOnly.
Proof. destruct level; naive_solver. Qed.

Lemma allowed_silently_iff level a e : pe_decision e <> PolicyDecision.Deny ->
  allowed_silently tools level (effective_decision a e) = true <->
  pe_decision e = PolicyDecision.Allow /\ forced_prompt_reason a = None
  \/ pe_decision e = PolicyDecision.Unspecified
     /\ (level = PermissionLevel.ReadOnly
         \/ nt_permission_mode tools = PermissionMode.AcceptEdits /\ level = PermissionLevel.Write).
Proof.
  intros _. unfold allowed_silently, effective_decision.
  destruct (forced_prompt_reason a), (pe_decision e), (nt_permission_mode tools), level;
    (split; [intros Ha; try discriminate Ha; auto|]); intuition (done || discriminate).
Qed.

Lemma prompt_decision_cases result :
  permission_prompt_decision result = mkPromptDecision false false
  \/ exists remember, permission_prompt_decision result = mkPromptDecision true remember.
Proof. unfold permission_prompt_decision. repeat case_match; eauto. Qed.

(** The prompt, when it comes to that *)
Lemma ask_user_spec name level args grants :
  let a := permission_action_new name level args in
  let e := evaluate (nt_permission_policy tools) a in
  (ask_user session_id request name level args a
     (mkEvaluation (effective_decision a e) (pe_matched_rule e)) grants).2 = Ok () <->
  permission_grant_key session_id a ∈ grants \/ exists remember, user_allows name level args grants remember.
Proof.
  cbn zeta. unfold ask_user, user_allows. case_bool_decide as Hin; [naive_solver|]. unfold sm_bind.
  destruct (request _ grants) as [grants' [[error result]|err]]; cbn [rp_error rp_result snd].
  2:{ split; [done|]. intros [?|(remember & g & r & Hr & _)]; [done|by simplify_eq]. }
  destruct error as [error|].
  { split; [done|]. intros [?|(remember & g & r & Hr & _)]; [done|by simplify_eq]. }
  destruct result as [result|].
  2:{ split; [done|]. intros [?|(remember & g & r & Hr & _)]; [done|by simplify_eq]. }
  destruct (prompt_decision_cases result) as [Hd|[remember Hd]]; rewrite Hd; cbn [pd_allow negb sm_lift snd].
  - split; [done|]. intros [?|(remember & g & r & Hr & Hd')]; [done|]. simplify_eq. by rewrite Hd in Hd'.
  - split; [intros _; right; by exists remember, grants', result|done].
Qed.

Lemma ensure_allowed_open name level args grants :
  (ensure_allowed tools session_id request name level args grants).2 = Ok () <->
  gate_open name level args grants.
Proof.
  unfold ensure_allowed, gate_open.
  destruct (bool_decide (nt_permission_mode tools = PermissionMode.Plan) && is_mutating level) eqn:Hplan.
  { apply andb_true_iff in Hplan as [Hp%bool_decide_eq_true Hm%is_mutating_iff]. by split; [|intros [Hno _]; destruct Hno]. }
  assert (Hnp : ~ (nt_permission_mode tools = PermissionMode.Plan /\ level <> PermissionLevel.ReadOnly)).
  { intros [Hp Hm%is_mutating_iff]. by rewrite (bool_decide_true _ Hp), Hm in Hplan. }
  clear Hplan.
  destruct (is_brehon_coordination_tool tools name) eqn:Hc; [by split; [intros _; split; [|left]|]|].
  set (a := permission_action_new name level args). destruct (hard_deny_reason a) as [reason|];
    [by split; [|intros (_ & [?|(? & _)])]|].
  set (e := evaluate (nt_permission_policy tools) a).
  case_bool_decide as Hdeny; [by unfold sm_lift; cbn [snd]; split; [intros|intros (_ & [?|(_ & ? & _)])]|].
  assert (Hopen : forall P : Prop,
    ~ (nt_permission_mode tools = PermissionMode.Plan /\ level <> PermissionLevel.ReadOnly)
    /\ (false = true \/ @None string = None /\ pe_decision e <> PolicyDecision.Deny /\ P) <-> P) by naive_solver.
  rewrite Hopen. clear Hopen. case_bool_decide as Hb; [split; [by left|done]|].
  pose proof (allowed_silently_iff level a e Hdeny) as Hs.
  destruct (allowed_silently tools level (effective_decision a e)).
  { split; [intros _|done]. right. destruct (proj1 Hs eq_refl); auto. }
  pose proof (ask_user_spec name level args grants) as Hask. cbn zeta in Hask. fold a in Hask. fold e in Hask.
  rewrite Hask. split; [by do 3 right|].
  intros [?|[H1|[H2|H3]]]; [done| | |done]; exfalso; cut (false = true); [done| |done|]; apply Hs; auto.
Qed.

(** Critical commands have a reason for refusal. *)
Lemma critical_hard_deny level command args c :
  get_str args "command" = Some command ->
  c ∈ sa_components (analyze_shell_command command) -> sc_risk c = PermissionRisk.Critical ->
  is_Some (hard_deny_reason (permission_action_new "bash" level args)).
Proof.
  intros Hcmd Hin Hc. unfold hard_deny_reason, permission_action_new. cbn [pa_shell String.eqb Ascii.eqb Bool.eqb].
  rewrite Hcmd. cbn [fmap option_fmap option_map mbind option_bind].
  assert (Hrisk : sa_risk (analyze_shell_command command) = PermissionRisk.Critical)
    by (apply analysis_risk_critical; eauto).
  assert (Hreason : has_critical (sa_risk_reasons (analyze_shell_command command))).
  { apply analysis_has_critical. exists c. split; [done|].
    destruct (analyzed_component command c Hin) as (normalized & sep & ->). by apply component_critical. }
  destruct Hreason as (reason & Hr & Hcr). destruct (List.find _ _) as [r|] eqn:Hf; [by eexists|].
  apply list_elem_of_In, (find_none _ _ Hf) in Hr. by rewrite bool_decide_true, Hcr in Hr.
Qed.

(** Where the grants after a call come from *)
Lemma ensure_allowed_grants (J : string -> Prop) name level args grants :
  (forall params g, (forall k, k ∈ g -> J k) -> forall k, k ∈ (request params g).1 -> J k) ->
  (user_allows name level args grants true ->
   J (permission_grant_key session_id (permission_action_new name level args))) ->
  (forall k, k ∈ grants -> J k) ->
  forall k, k ∈ (ensure_allowed tools session_id request name level args grants).1 -> J k.
Proof.
  intros Hreq Hrem Hg. unfold ensure_allowed. do 2 (case_match; [done|]).
  set (a := permission_action_new name level args). case_match; [done|].
  set (e := evaluate (nt_permission_policy tools) a). do 3 (case_match; [done|]).
  unfold ask_user. case_match; [done|]. unfold sm_bind, user_allows in *. fold a e in Hrem.
  specialize (Hreq (permission_request session_id name level args a
    (mkEvaluation (effective_decision a e) (pe_matched_rule e))) grants Hg).
  destruct (request _ grants) as [grants' [[error result]|err]] eqn:Hr; [|done].
  destruct error as [error|]; [done|]. destruct result as [result|]; [|done]. cbn [rp_error rp_result].
  destruct (prompt_decision_cases result) as [Hd|[remember Hd]]; rewrite Hd; cbn; [done|].
  destruct remember; [|done]. intros k. rewrite elem_of_union, elem_of_singleton.
  intros [->|Hk]; [|by apply Hreq]. apply Hrem. by exists grants', result.
Qed.
End gate_facts.

(** ** Grant keys *)

Lemma category_no_colon name level : occurs ":"%char (permission_category name level) = false.
Proof. unfold permission_category. destruct level; repeat case_match; done. Qed.

(** When session ids have no colon, a key tells its parts. *)
Lemma grant_key_inj s s' name name' level level' args args' :
  occurs ":"%char s = false -> occurs ":"%char s' = false ->
  let a := permission_action_new name level args in
  let a' := permission_action_new name' level' args' in
  permission_grant_key s a = permission_grant_key s' a' ->
  s = s' /\ pa_category a = pa_category a' /\ pa_scope a = pa_scope a'.
Proof.
  intros Hs Hs' a a'. unfold permission_grant_key. intros Heq.
  apply (sep_inj ":"%char) in Heq as [-> Heq]; [|done..].
  apply (sep_inj ":"%char) in Heq as [Hc Hsc]; [done|apply category_no_colon..].
Qed.

(** ** Sequences of calls *)

(** A call with what the gateway would answer to its prompt *)
Record Call := mkCall {
  cl_tools : NativeTools;
  cl_session : string;
  cl_name : string;
  cl_args : JsonValue;
  cl_answer : JsonValue -> Result RpcResponse string
}.

Definition call_name (c : Call) : string := canonical_tool_name (cl_tools c) (cl_name c).
Definition call_args (c : Call) : JsonValue := normalize_tool_args (call_name c) (cl_args c).
Definition call_level (c : Call) : PermissionLevel := permission_level (call_name c).
Definition call_action (c : Call) : PermissionAction :=
  permission_action_new (call_name c) (call_level c) (call_args c).
Definition call_request (c : Call) : JsonValue -> SM Grants string RpcResponse :=
  fun params => sm_lift (cl_answer c params).

(** The user answered the prompt of [c] with a permission for the session. *)
Definition remembered (c : Call) : Prop :=
  user_allows (cl_tools c) (cl_session c) (call_request c) (call_name c) (call_level c) (call_args c) ∅ true.

Definition run_calls (run : Effect -> Result string string) (calls : list Call) (grants : Grants) : Grants :=
  foldl (fun g c => (invoke (cl_tools c) (cl_session c) (call_request c) run (cl_name c) (cl_args c) g).1)
    grants calls.

Lemma invoke_grants tools session request run name args grants :
  let name' := canonical_tool_name tools name in
  let args' := normalize_tool_args name' args in
  (invoke tools session request run name args grants).1 =
  (ensure_allowed tools session request name' (permission_level name') args' grants).1.
Proof. unfold invoke. cbn zeta. by destruct (ensure_allowed _ _ _ _ _ _ _) as [g [[]|e]]. Qed.

(** ** Theorems *)

(** C13: The gate lets a tool call pass exactly under these conditions.  In plan
    mode nothing that writes or executes passes.  Brehon's own coordination
    tools pass otherwise.  Any other call passes only if it has no critical
    command and the policy does not deny it, and then only in bypass mode, or
    because the policy allows it and nothing forces a prompt, or because the
    policy is silent and the call reads (or writes, in the mode that accepts
    edits), or on an earlier grant for the session, or because the user allows
    it now. *)
Theorem gate_exact (tools : NativeTools) (session_id : string) (request : JsonValue -> SM Grants string RpcResponse)
    (name : string) (level : PermissionLevel) (args : JsonValue) (grants : Grants) :
  (ensure_allowed tools session_id request name level args grants).2 = Ok () <->
  gate_open tools session_id request name level args grants.
Proof. apply ensure_allowed_open. Qed.


(** What runs is what the gate has seen.  A call has at most one effect, and
    only if the gate was open for the very name and arguments that run; a shell
    command runs as the gate has analyzed it, with a time limit between one
    second and ten minutes. *)
Theorem runs_what_was_checked (tools : NativeTools) (session_id : string)
    (request : JsonValue -> SM Grants string RpcResponse) (run : Effect -> Result string string)
    (name : string) (args : JsonValue) (grants : Grants) :
  let '(_, (effects, result)) := invoke tools session_id request run name args grants in
  let name := canonical_tool_name tools name in
  let args := normalize_tool_args name args in
  effects = []
  \/ gate_open tools session_id request name (permission_level name) args grants
     /\ exists effect, effects = [effect]
        /\ match effect with
           | RunShell command timeout =>
               name = "bash" /\ get_str args "command" = Some command /\ (1 <= timeout <= 600)%Z
           | CallTool tool_name tool_args => name <> "bash" /\ tool_name = name /\ tool_args = args
           end.
Proof.
  unfold invoke. cbn zeta. set (name' := canonical_tool_name tools name).
  set (args' := normalize_tool_args name' args).
  pose proof (ensure_allowed_open tools session_id request name' (permission_level name') args' grants) as Hopen.
  destruct (ensure_allowed _ _ _ _ _ _ _) as [g [[]|e]]; [|by left].
  destruct (String.eqb_spec name' "bash") as [->|Hne].
  - unfold run_cancellable_bash, required_string.
    destruct (get_str args' "command") as [command|] eqn:Hcmd; [|by left].
    destruct (String.eqb (trim command) ""); [by left|]. right. split; [by apply Hopen|].
    eexists. split; [done|]. split; [done|]. split; [done|].
    unfold MAX_COMMAND_TIMEOUT_SECS. lia.
  - right. split; [by apply Hopen|]. by eexists.
Qed.

Lemma remembered_any c grants :
  user_allows (cl_tools c) (cl_session c) (call_request c) (call_name c) (call_level c) (call_args c) grants true ->
  remembered c.
Proof.
  unfold remembered, user_allows, call_request, sm_lift. intros (g & result & [= <- ->] & Hd). eauto.
Qed.

Lemma run_calls_justified run calls (J : string -> Prop) : forall grants,
  (forall c, c ∈ calls -> remembered c -> J (permission_grant_key (cl_session c) (call_action c))) ->
  (forall k, k ∈ grants -> J k) -> forall k, k ∈ run_calls run calls grants -> J k.
Proof.
  induction calls as [|c calls IH]; intros grants Hc Hg; [done|]. cbn [run_calls foldl].
  apply IH; [intros c' Hin; apply Hc; by right|]. rewrite invoke_grants.
  apply ensure_allowed_grants; [done| |done].
  intros Hall. apply Hc; [left|]. by eapply remembered_any.
Qed.


(** ** Witnesses *)

Definition plain_tools : NativeTools := mkNativeTools PermissionMode.Bypass (mkPolicy []) (Some "mcp_brehon_").
Definition bash_args (command : string) : JsonValue := JObject [("command", JString command)].
Definition no_answer : JsonValue -> SM Grants string RpcResponse := fun _ => sm_lift (Err "closed").


Definition yes_for_session : JsonValue -> Result RpcResponse string := fun _ =>
  Ok (mkResponse None (Some (JObject
    [("outcome", JObject [("outcome", JString "selected"); ("optionId", JString "allow-session")])]))).

Definition asking_tools : NativeTools := mkNativeTools PermissionMode.Default (mkPolicy []) (Some "mcp_brehon_").
Definition example_call (command : string) : Call :=
  mkCall asking_tools "s" "bash" (bash_args command) yes_for_session.


(** A client may choose session ids with colons; then keys of different sessions
    and commands coincide. *)
Lemma grant_keys_collide :
  permission_grant_key "s:bash" (permission_action_new "bash" PermissionLevel.Execute (bash_args "ls"))
  = permission_grant_key "s" (permission_action_new "bash" PermissionLevel.Execute (bash_args "bash:ls")).
Proof. reflexivity. Qed.

(** With an empty prefix every tool counts as a coordination tool: the shell runs
    a critical command in the default mode without a question. *)
Lemma empty_prefix_opens_the_gate :
  let tools := mkNativeTools PermissionMode.Default (mkPolicy []) (Some "") in
  (invoke tools "s" no_answer (fun _ => Ok "done") "bash" (bash_args "rm -rf /") ∅).2
  = ([RunShell "rm -rf /" 120], Ok "done").
Proof. vm_compute. reflexivity. Qed.

(** A substitution in double quotes passes the gate that an allow rule opens,
    although substitutions are to force a prompt. *)
Lemma quoted_substitution_is_not_asked :
  let policy := mkPolicy [permission_rule_new "bash" (Some "echo *") PermissionValue.Allow 0] in
  let command := "echo " +:+ DQUOTE +:+ "$(rm -rf /)" +:+ DQUOTE in
  let tools := mkNativeTools PermissionMode.Default policy (Some "mcp_brehon_") in
  (invoke tools "s" no_answer (fun _ => Ok "done") "bash" (bash_args command) ∅).2
  = ([RunShell command 120], Ok "done").
Proof. vm_compute. reflexivity. Qed.
