(* ===== verification/CodingTools.v ===== *)
(** * The coding tools (brehon-adapter-sdk/src/direct_tools.rs)

    The tools a model calls to read and change files of its worktree.  A path is
    the list of its components, as [Path::components] gives them on Unix, each
    as its text: ["/"] is the root, ["."] and [".."] are the current and the
    parent directory.  Files are those of the class [Files].  Proved here: no
    tool touches a file outside the worktree, as far as paths tell; what
    replacing text does to a file; and how far listings go. *)

From Stdlib Require Import Ascii.
From S2P Require Import Prelude Effects StrLib Chars Terminal Files Feedback ShellCommand Permissions NativeTools.

(** ** Paths *)

Abbreviation Path := (list string).

Definition is_absolute (s : string) : bool := starts_with "/" s.

(** [Path::new(s).components()]: repeated separators and inner dots are skipped. *)
Definition components (s : string) : Path :=
  let pieces := List.filter (fun p => negb (String.eqb p "")) (split_on "/"%char s) in
  let undotted := List.filter (fun p => negb (String.eqb p ".")) pieces in
  if is_absolute s then "/" :: undotted
  else match pieces with
       | p :: _ => if String.eqb p "." then "." :: undotted else undotted
       | [] => undotted
       end.

(** [root.join(input)] for a relative input *)
Definition path_join (root : Path) (input : string) : Path :=
  root ++ List.filter (fun p => negb (String.eqb p ".")) (components input).

(** [PathBuf::pop]: neither the root nor the empty path has a parent. *)
Definition path_pop (p : Path) : Path :=
  match last p with
  | Some c => if String.eqb c "/" then p else removelast p
  | None => p
  end.

(** [path.display()] *)
Definition path_string (p : Path) : string :=
  match p with
  | [] => ""
  | c :: rest => if String.eqb c "/" then "/" +:+ join "/" rest else join "/" p
  end.

Definition path_parent (p : Path) : option Path :=
  match last p with
  | Some c => if String.eqb c "/" then None else Some (removelast p)
  | None => None
  end.

(** [path.strip_prefix(base)] and [path.starts_with(base)] *)
Fixpoint path_strip_prefix (base p : Path) : option Path :=
  match base, p with
  | [], _ => Some p
  | b :: base, c :: p => if String.eqb b c then path_strip_prefix base p else None
  | _ :: _, [] => None
  end.

Definition path_starts_with (p base : Path) : bool :=
  match path_strip_prefix base p with Some _ => true | None => false end.

Definition normalize_step (normalized : Path) (component : string) : Path :=
  if String.eqb component "/" then ["/"]
  else if String.eqb component "." then normalized
  else if String.eqb component ".." then path_pop normalized
  else normalized ++ [component].

Definition normalize_path (path : Path) : Path := foldl normalize_step [] path.

Definition resolve_path (root : Path) (input : string) : Result Path string :=
  let candidate := if is_absolute input then components input else path_join root input in
  let normalized_root := normalize_path root in
  let normalized_candidate := normalize_path candidate in
  if path_starts_with normalized_candidate normalized_root then Ok normalized_candidate
  else Err ("path '" +:+ input +:+ "' escapes the worktree '" +:+ path_string normalized_root +:+ "'").

Definition resolve_required_path (root : Path) (args : JsonValue) (field : string) : Result Path string :=
  let? path := required_string args field in resolve_path root path.

Definition resolve_optional_path (root : Path) (value : option JsonValue) : Result Path string :=
  match value ≫= json_as_str with
  | Some path => if String.eqb (trim path) "" then Ok root else resolve_path root path
  | None => Ok root
  end.

(** [path.strip_prefix(worktree_root).unwrap_or(&path).display()] *)
Definition shown (root p : Path) : string := path_string (default p (path_strip_prefix root p)).

(** ** Searching and replacing text *)

(** The text before and after the first occurrence *)
Fixpoint split_once_str (needle s : string) : option (string * string) :=
  match strip_prefix needle s with
  | Some rest => Some ("", rest)
  | None =>
      match s with
      | EmptyString => None
      | String c s =>
          match split_once_str needle s with
          | Some (before, after) => Some (String c before, after)
          | None => None
          end
      end
  end.

(** The pieces between the occurrences of a non-empty needle, from left to right;
    each step consumes the needle, so that the length is fuel enough. *)
Fixpoint pieces_between (fuel : nat) (needle s : string) : list string :=
  match fuel, split_once_str needle s with
  | S fuel, Some (before, after) => before :: pieces_between fuel needle after
  | _, _ => [s]
  end.

Definition pieces (needle s : string) : list string := pieces_between (String.length s) needle s.

(** [content.matches(old).count()], [content.replace(old, new)] and
    [content.replacen(old, new, 1)] *)
Definition matches_count (old content : string) : nat := pred (length (pieces old content)).
Definition str_replace (old new content : string) : string := join new (pieces old content).
Definition str_replace_first (old new content : string) : string :=
  match split_once_str old content with
  | Some (before, after) => before +:+ new +:+ after
  | None => content
  end.

(** ** Lines *)

Definition MAX_READ_LINES : nat := 400.

(** [format!("{:>4}", n)] *)
Definition fmt_right4 (n : nat) : string :=
  let digits := pretty n in
  String.concat "" (replicate (4 - String.length digits) " ") +:+ digits.

Definition trim_end (s : string) : string :=
  of_chars (reverse (skip_while is_whitespace (reverse (chars s)))).

Definition format_read_output (path content : string) (start_line : Z) (end_line : option Z) : string :=
  let lines := str_lines content in
  let count := Z.of_nat (length lines) in
  let capped_end := Z.min (default count end_line) count in
  let start_index := Z.min (sat_sub start_line 1) count in
  let requested_lines := sat_sub capped_end start_index in
  let first := Z.to_nat start_index in
  let number := Z.to_nat (Z.min requested_lines (Z.of_nat MAX_READ_LINES)) in
  let selected :=
    imap (fun i line => fmt_right4 (first + i + 1) +:+ ": " +:+ line) (take number (drop first lines)) in
  "File: " +:+ path +:+ NL
  +:+ match selected with [] => "(no content in requested range)" | _ => join NL selected end
  +:+ (if (Z.of_nat MAX_READ_LINES <? requested_lines)%Z
       then NL +:+ "... truncated after " +:+ pretty MAX_READ_LINES
            +:+ " lines; request a narrower range for more"
       else "").

Definition truncate_lines (text : string) (max_lines : nat) : string :=
  let lines := str_lines text in
  if (length lines <=? max_lines)%nat then trim_end text
  else join NL (take max_lines lines) +:+ NL +:+ "... truncated after " +:+ pretty max_lines +:+ " lines".

(** ** The tools *)

Section tools.
Context {fs : Files}.

Definition io_error (action : string) (p : Path) (e : FsError) : string :=
  "failed to " +:+ action +:+ " '" +:+ path_string p +:+ "': " +:+ FsError.to_string e.

Definition read_file (worktree_root : Path) (args : JsonValue) : SM fs_state string string :=
  let! path := sm_lift (resolve_required_path worktree_root args "path") in
  let! content := sm_map_err (io_error "read" path) (fs_read_to_string (path_string path)) in
  let start_line := Z.max 1 (default 1%Z (optional_u64 args "start_line")) in
  let end_line := Z.max 1 <$> optional_u64 args "end_line" in
  sm_ret (format_read_output (shown worktree_root path) content start_line end_line).

Definition write_file (worktree_root : Path) (args : JsonValue) : SM fs_state string string :=
  let! path := sm_lift (resolve_required_path worktree_root args "path") in
  let! content := sm_lift (required_string args "content") in
  let! _ := match path_parent path with
            | Some parent =>
                sm_map_err (io_error "create parent directory for" path) (fs_create_dir_all (path_string parent))
            | None => sm_ret ()
            end in
  let! _ := sm_map_err (io_error "write" path) (fs_write (path_string path) content) in
  sm_ret ("Wrote " +:+ pretty (String.length content) +:+ " bytes to " +:+ shown worktree_root path).

Definition json_as_bool (v : JsonValue) : option bool :=
  match v with JBool b => Some b | _ => None end.

Definition replace_in_file (worktree_root : Path) (args : JsonValue) : SM fs_state string string :=
  let! path := sm_lift (resolve_required_path worktree_root args "path") in
  let! old := sm_lift (required_string args "old") in
  let! new := sm_lift (required_string args "new") in
  let replace_all := default false (json_get "replace_all" args ≫= json_as_bool) in
  if String.eqb old "" then sm_lift (Err "field 'old' must not be empty") else
  let! content := sm_map_err (io_error "read" path) (fs_read_to_string (path_string path)) in
  let match_count := matches_count old content in
  if Nat.eqb match_count 0 then sm_lift (Err ("target text not found in " +:+ shown worktree_root path))
  else if (1 <? match_count)%nat && negb replace_all then
    sm_lift (Err ("target text matched " +:+ pretty match_count +:+ " times in " +:+ shown worktree_root path
      +:+ "; retry with replace_all=true or use a more specific match"))
  else
    let updated := if replace_all then str_replace old new content else str_replace_first old new content in
    let! _ := sm_map_err (io_error "write" path) (fs_write (path_string path) updated) in
    sm_ret ("Updated " +:+ shown worktree_root path +:+ " (" +:+ pretty match_count +:+ " replacement"
      +:+ (if Nat.eqb match_count 1 then "" else "s") +:+ ")").
End tools.

(** ** Listing and searching

    A directory as [read_dir], [is_dir] and [is_file] show it, its entries in the
    order of their names, which the code sorts them into; a file whose content is
    not text has none. *)

#[local] Set Warnings "-register-all".

Inductive Node :=
| FileNode (content : option string)
| DirNode (entries : Result (list (string * Node)) string)
| OtherNode.

Definition MAX_LIST_FILES : nat := 2000.
Definition MAX_SEARCH_HITS : nat := 200.

Definition should_skip_path (name : string) : bool := is_one_of [".git"; ".brehon"; "target"; "node_modules"] name.

Definition dir_error (dir : Path) (e : string) : string :=
  "failed to read directory '" +:+ path_string dir +:+ "': " +:+ e.

Section traversal.
Context (root : Path).

Fixpoint collect_files (dir : Path) (node : Node) (out : list string) : Result (list string) string :=
  if (MAX_LIST_FILES <=? length out)%nat then Ok out
  else match node with
       | FileNode _ => Ok (out ++ [shown root dir])
       | OtherNode => Err (dir_error dir "Not a directory (os error 20)")
       | DirNode (Err e) => Err (dir_error dir e)
       | DirNode (Ok entries) =>
           (fix each (entries : list (string * Node)) (out : list string) : Result (list string) string :=
              match entries with
              | [] => Ok out
              | (name, child) :: entries =>
                  if should_skip_path name then each entries out
                  else
                    let path := dir ++ [name] in
                    let? out := match child with
                                | DirNode _ => collect_files path child out
                                | FileNode _ => Ok (out ++ [shown root path])
                                | OtherNode => Ok out
                                end in
                    if (MAX_LIST_FILES <=? length out)%nat then Ok out else each entries out
              end) entries out
       end.

(** The matching lines of a file, up to the limit *)
Fixpoint search_lines (path : Path) (pattern : string) (index : nat) (lines out : list string) : list string :=
  match lines with
  | [] => out
  | line :: lines =>
      if contains pattern line then
        let out := out ++ [shown root path +:+ ":" +:+ pretty (index + 1) +:+ ":" +:+ line] in
        if (MAX_SEARCH_HITS <=? length out)%nat then out else search_lines path pattern (S index) lines out
      else search_lines path pattern (S index) lines out
  end.

Definition search_content (path : Path) (pattern : string) (content : option string) (out : list string) :
    list string :=
  match content with Some content => search_lines path pattern 0 (str_lines content) out | None => out end.

(** A file that fills the list of hits ends the loop over its directory. *)
Fixpoint search_files_fallback (dir : Path) (node : Node) (pattern : string) (out : list string) :
    Result (list string) string :=
  if (MAX_SEARCH_HITS <=? length out)%nat then Ok out
  else match node with
       | FileNode content => Ok (search_content dir pattern content out)
       | OtherNode => Err (dir_error dir "Not a directory (os error 20)")
       | DirNode (Err e) => Err (dir_error dir e)
       | DirNode (Ok entries) =>
           (fix each (entries : list (string * Node)) (out : list string) : Result (list string) string :=
              match entries with
              | [] => Ok out
              | (name, child) :: entries =>
                  if should_skip_path name then each entries out
                  else
                    let path := dir ++ [name] in
                    match child with
                    | DirNode _ => let? out := search_files_fallback path child pattern out in each entries out
                    | FileNode content =>
                        let out' := search_content path pattern content out in
                        if (length out <? length out')%nat && (MAX_SEARCH_HITS <=? length out')%nat
                        then Ok out' else each entries out'
                    | OtherNode => each entries out
                    end
              end) entries out
       end.
End traversal.

(** [rg] stands for [run_simple_command] with ripgrep; [tree] for what is at the
    resolved path. *)
Section listing.
Context (worktree_root : Path) (rg : list string -> Result string string) (tree : Path -> Node).

Definition target_of (root : Path) : string :=
  let relative := shown worktree_root root in if String.eqb relative "" then "." else relative.

Definition list_files (args : JsonValue) : Result string string :=
  let? root := resolve_optional_path worktree_root (json_get "path" args) in
  match rg ["--files"; target_of root] with
  | Ok output => Ok (truncate_lines output MAX_LIST_FILES)
  | Err _ =>
      let? files := collect_files worktree_root root (tree root) [] in
      let files := sort_by str_leb files in
      let files := if (MAX_LIST_FILES <? length files)%nat
                   then take MAX_LIST_FILES files
                        ++ ["... truncated after " +:+ pretty MAX_LIST_FILES +:+ " files"]
                   else files in
      Ok (join NL files)
  end.

Definition search_text (args : JsonValue) : Result string string :=
  let? pattern := required_string args "pattern" in
  let? root := resolve_optional_path worktree_root (json_get "path" args) in
  match rg ["-n"; "--hidden"; "--glob"; "!.git"; "--glob"; "!target"; "--glob"; "!node_modules";
            pattern; target_of root] with
  | Ok output => Ok (truncate_lines output MAX_SEARCH_HITS)
  | Err _ =>
      let? hits := search_files_fallback worktree_root root (tree root) pattern [] in
      match hits with
      | [] => Ok "No matches found."
      | _ => Ok (truncate_lines (join NL hits) MAX_SEARCH_HITS)
      end
  end.
End listing.

(** ** Paths stay inside *)

Definition undotted (p : Path) : Prop := Forall (fun c => c <> "." /\ c <> "..") p.

(** Below the worktree, with nothing left that could lead out *)
Definition inside (root p : Path) : Prop := undotted p /\ exists rest, p = normalize_path root ++ rest.

Lemma path_strip_prefix_Some base p rest : path_strip_prefix base p = Some rest <-> p = base ++ rest.
Proof.
  revert p. induction base as [|b base IH]; intros p; cbn; [naive_solver|].
  destruct p as [|c p]; [naive_solver|]. destruct (String.eqb_spec b c) as [->|]; [rewrite IH|]; naive_solver.
Qed.

Lemma removelast_Forall {A} (P : A -> Prop) l : Forall P l -> Forall P (removelast l).
Proof.
  induction 1 as [|x l Hx Hl IH]; [constructor|]. cbn. destruct l; [constructor|]. by constructor.
Qed.

Lemma normalize_undotted path : undotted (normalize_path path).
Proof.
  unfold normalize_path. assert (H : undotted []) by constructor. revert H. generalize (@nil string).
  induction path as [|c path IH]; intros p Hp; [done|]. cbn [foldl]. apply IH. unfold normalize_step.
  destruct (String.eqb_spec c "/"); [by repeat constructor|].
  destruct (String.eqb_spec c "."); [done|]. destruct (String.eqb_spec c "..").
  - unfold path_pop. destruct (last p); [|done]. case_match; [done|]. by apply removelast_Forall.
  - apply Forall_app. split; [done|by repeat constructor].
Qed.

Lemma resolve_path_inside root input p : resolve_path root input = Ok p -> inside root p.
Proof.
  unfold resolve_path. set (candidate := if is_absolute input then _ else _). unfold path_starts_with.
  destruct (path_strip_prefix _ _) as [rest|] eqn:Hs; [|done]. intros [= <-].
  split; [apply normalize_undotted|]. apply path_strip_prefix_Some in Hs. eauto.
Qed.

Lemma resolve_required_inside root args field p : resolve_required_path root args field = Ok p -> inside root p.
Proof. unfold resolve_required_path. intros Hr. inv_bind. by eapply resolve_path_inside. Qed.

(** A relative path of plain names leads to where it says. *)
Lemma resolve_plain root input :
  is_absolute input = false -> components input <> [] -> undotted (components input) -> "/" ∉ components input ->
  resolve_path root input = Ok (normalize_path root ++ components input).
Proof.
  intros Hrel _ Hc Hroot. unfold resolve_path. rewrite Hrel.
  assert (Hn : normalize_path (path_join root input) = normalize_path root ++ components input).
  { unfold path_join, normalize_path. rewrite foldl_app.
    assert (Hf : List.filter (fun p => negb (String.eqb p ".")) (components input) = components input).
    { clear Hroot. induction Hc as [|c l [Hd _] _ IH]; [done|]. cbn. by rewrite (proj2 (String.eqb_neq _ _) Hd), IH. }
    rewrite Hf. generalize (foldl normalize_step [] root). clear Hf.
    induction Hc as [|c l [H1 H2] _ IH]; intros p; cbn [foldl]; [by rewrite app_nil_r|].
    apply not_elem_of_cons in Hroot as [Hr Hroot]. rewrite IH by done. unfold normalize_step.
    rewrite (proj2 (String.eqb_neq c "/")), (proj2 (String.eqb_neq c ".")), (proj2 (String.eqb_neq c "..")) by done.
    by rewrite <-app_assoc. }
  rewrite Hn. unfold path_starts_with.
  by rewrite (proj2 (path_strip_prefix_Some _ _ (components input))).
Qed.

(** ** Pieces of text *)

Lemma split_once_str_Some needle s before after :
  split_once_str needle s = Some (before, after) -> s = before +:+ needle +:+ after.
Proof.
  revert before. induction s as [|c s IH]; intros before; cbn [split_once_str].
  - destruct (strip_prefix needle "") as [rest|] eqn:Hp; [|done]. intros [= <- <-].
    by apply strip_prefix_Some in Hp.
  - destruct (strip_prefix needle (String c s)) as [rest|] eqn:Hp.
    { intros [= <- <-]. by apply strip_prefix_Some in Hp. }
    destruct (split_once_str needle s) as [[b a]|]; [|done]. intros [= <- <-].
    rewrite append_cons. by rewrite <-(IH b eq_refl).
Qed.

Lemma pieces_between_ne fuel needle s : pieces_between fuel needle s <> [].
Proof. destruct fuel; cbn; [done|]. by destruct (split_once_str needle s) as [[]|]. Qed.

Lemma join_cons sep x l : l <> [] -> join sep (x :: l) = x +:+ sep +:+ join sep l.
Proof. by destruct l. Qed.

(** The pieces, joined by the needle, are the text, and the last has no further
    occurrence: the fuel was enough. *)
Lemma pieces_between_spec needle fuel : forall s, needle <> "" -> String.length s <= fuel ->
  join needle (pieces_between fuel needle s) = s
  /\ exists front tail, pieces_between fuel needle s = front ++ [tail] /\ split_once_str needle tail = None.
Proof.
  intros s Hne. revert s. induction fuel as [|fuel IH]; intros s Hl; cbn [pieces_between].
  - destruct s; [|cbn in Hl; lia]. split; [done|]. exists [], "". split; [done|].
    cbn. by destruct needle.
  - destruct (split_once_str needle s) as [[before after]|] eqn:Hs; [|by split; [|exists [], s]].
    apply split_once_str_Some in Hs as ->. rewrite !length_append in Hl.
    destruct needle as [|c needle]; [done|]. cbn in Hl.
    destruct (IH after) as [Hj (front & tail & Hf & Ht)]; [lia|].
    rewrite join_cons by apply pieces_between_ne. rewrite Hj. split; [done|].
    exists (before :: front), tail. by rewrite Hf.
Qed.

Lemma replace_first_pieces old new s before rest :
  old <> "" -> pieces old s = before :: rest -> rest <> [] ->
  str_replace_first old new s = before +:+ new +:+ join old rest.
Proof.
  intros Hne Hp Hr. unfold str_replace_first, pieces in *. destruct (String.length s) as [|n] eqn:Hl.
  { cbn in Hp. by injection Hp as <- <-. }
  cbn [pieces_between] in Hp. destruct (split_once_str old s) as [[b a]|] eqn:Hs; [|by injection Hp as <- <-].
  injection Hp as <- <-. apply split_once_str_Some in Hs. subst s.
  destruct (pieces_between_spec old n a Hne) as [-> _]; [|done].
  rewrite !length_append in Hl. destruct old; [done|]. cbn in Hl. lia.
Qed.

(** ** Theorems *)

Section theorems.
Context {fs : Files} {laws : FilesLaws}.

(** Steps that leave every file outside alone *)
Definition keeps (root : Path) {A} (op : SM fs_state string A) : Prop := forall s q,
  (forall p, inside root p -> q <> path_string p) -> fs_files (op s).1 !! q = fs_files s !! q.

Lemma keeps_inside_lift root {A} (r : Result A string) : keeps root (sm_lift r).
Proof. done. Qed.

Lemma keeps_inside_bind root {A B} (c : SM fs_state string A) (k : A -> SM fs_state string B) :
  keeps root c -> (forall a s s', c s = (s', Ok a) -> keeps root (k a)) -> keeps root (sm_bind c k).
Proof.
  intros Hc Hk s q Hq. specialize (Hc s q Hq). unfold sm_bind.
  destruct (c s) as [s' [a|e]] eqn:Hs; [|done]. rewrite (Hk a s s' Hs s' q Hq). exact Hc.
Qed.

Lemma keeps_inside_map_err root {A} (f : FsError -> string) (c : SM fs_state FsError A) :
  (forall s q, (forall p, inside root p -> q <> path_string p) -> fs_files (c s).1 !! q = fs_files s !! q) ->
  keeps root (sm_map_err f c).
Proof. intros Hc s q Hq. unfold sm_map_err. specialize (Hc s q Hq). by destruct (c s). Qed.

Lemma keeps_inside_read root p f : keeps root (sm_map_err f (fs_read_to_string p)).
Proof. apply keeps_inside_map_err. intros s q _. by rewrite fs_read_same. Qed.

Lemma keeps_create root p f : keeps root (sm_map_err f (fs_create_dir_all p)).
Proof. apply keeps_inside_map_err. intros s q _. by rewrite fs_dir_same. Qed.

Lemma keeps_write root p c f : inside root p -> keeps root (sm_map_err f (fs_write (path_string p) c)).
Proof.
  intros Hp. apply keeps_inside_map_err. intros s q Hq. pose proof (Hq p Hp) as Hne.
  destruct (fs_write (path_string p) c s) as [s' r] eqn:Hw. apply fs_write_law in Hw. cbn [fst].
  destruct r as [[]|e]; [by rewrite Hw, lookup_insert_ne|].
  rewrite <-(lookup_delete_ne (fs_files s') (path_string p) q), Hw by done. by rewrite lookup_delete_ne.
Qed.

Ltac keeps_step :=
  first [apply keeps_inside_lift | apply keeps_inside_read | apply keeps_create | apply keeps_write; assumption].


(** The reads and writes of an operation, from its result *)
Lemma map_err_Ok {S E F A} (f : E -> F) (c : SM S E A) s s' a :
  sm_map_err f c s = (s', Ok a) -> c s = (s', Ok a).
Proof. unfold sm_map_err. by destruct (c s) as [s1 [a'|e]]; intros [= <- <-]. Qed.

(** What replacing text does.  When [replace_in_file] succeeds, the file had a
    content made of pieces joined by the old text, at least two of them, and now
    has the same pieces joined by the new text; without [replace_all] there were
    exactly two, so that nothing ambiguous is replaced; every other file is as
    before. *)
Theorem replace_exact (root : Path) (args : JsonValue) (s s' : fs_state) (message : string) :
  replace_in_file root args s = (s', Ok message) ->
  exists path old new content ps,
    resolve_required_path root args "path" = Ok path
    /\ get_str args "old" = Some old /\ get_str args "new" = Some new
    /\ fs_files s !! path_string path = Some content
    /\ ps = pieces old content /\ content = join old ps /\ 2 <= length ps
    /\ (json_get "replace_all" args <> Some (JBool true) -> length ps = 2)
    /\ fs_files s' = <[path_string path := join new ps]> (fs_files s).
Proof.
  unfold replace_in_file. intros Hrun.
  apply sm_bind_Ok in Hrun as (s1 & path & [= <- Hpath] & Hrun).
  apply sm_bind_Ok in Hrun as (s2 & old & [= <- Hold] & Hrun).
  apply sm_bind_Ok in Hrun as (s3 & new & [= <- Hnew] & Hrun).
  destruct (String.eqb_spec old "") as [|Hne]; [done|].
  apply sm_bind_Ok in Hrun as (s4 & content & Hread%map_err_Ok & Hrun).
  pose proof (fs_read_same (path_string path) s) as Hsame. rewrite Hread in Hsame. cbn in Hsame.
  apply fs_read_law in Hread. set (ps := pieces old content) in *.
  destruct (pieces_between_spec old _ content Hne (le_n _)) as [Hjoin _]. fold (pieces old content) ps in Hjoin.
  assert (Hreq : forall field v, required_string args field = Ok v -> get_str args field = Some v).
  { intros field v. unfold required_string. destruct (get_str args field); [|done]. by destruct (String.eqb _ _); [|intros [= <-]]. }
  unfold matches_count in Hrun. fold ps in Hrun.
  destruct (Nat.eqb_spec (pred (length ps)) 0) as [|Hcount]; [done|].
  set (all := default false (json_get "replace_all" args ≫= json_as_bool)) in *.
  destruct ((1 <? pred (length ps))%nat && negb all) eqn:Hamb; [done|].
  apply sm_bind_Ok in Hrun as (s5 & [] & Hw%map_err_Ok%fs_write_law & [= <- _]). cbn in Hw.
  exists path, old, new, content, ps. split; [done|]. split; [by apply Hreq|]. split; [by apply Hreq|].
  split; [done|]. split; [done|]. split; [done|]. split; [lia|].
  assert (Hlen : all = false -> length ps = 2).
  { intros Hall. rewrite Hall, andb_true_r in Hamb. apply Nat.ltb_ge in Hamb. lia. }
  split.
  - intros Hna. apply Hlen. unfold all. destruct (json_get "replace_all" args) as [[]|]; cbn; try done.
    by destruct b.
  - rewrite Hw, Hsame. f_equal. destruct all; [done|]. specialize (Hlen eq_refl).
    destruct ps as [|before [|after [|]]] eqn:Hps; try done.
    by rewrite (replace_first_pieces old new content before [after] Hne Hps).
Qed.
End theorems.

(** ** Listings *)

(** The traversal never collects more than the limit, so that the note about a
    longer listing is never written. *)
Lemma collect_files_bound root : forall node dir out out',
  length out <= MAX_LIST_FILES -> collect_files root dir node out = Ok out' -> length out' <= MAX_LIST_FILES.
Proof.
  fix IH 1. intros [content|[entries|e]|] dir out out' Hl; cbn [collect_files];
    destruct (Nat.leb_spec MAX_LIST_FILES (length out)) as [Hfull|Hlt]; try (by intros [= <-]); try done.
  { intros [= <-]. rewrite length_app. cbn [length]. lia. }
  clear Hl. revert out out' Hlt. induction entries as [|[name child] entries IHe]; intros out out' Hlt.
  { intros [= <-]. lia. }
  destruct (should_skip_path name); [by apply IHe|].
  set (step := match child with FileNode _ => _ | DirNode _ => _ | OtherNode => _ end).
  assert (Hstep : forall out1, step = Ok out1 -> length out1 <= MAX_LIST_FILES).
  { unfold step. pose proof (IH child) as IHc. clear step. destruct child as [content|entries'|]; intros out1.
    - intros [= <-]. rewrite length_app. cbn [length]. lia.
    - apply IHc. lia.
    - intros [= <-]. lia. }
  destruct step as [out1|e]; [|done]. cbn [result_bind]. specialize (Hstep out1 eq_refl).
  destruct (Nat.leb_spec MAX_LIST_FILES (length out1)); [by intros [= <-]|by apply IHe].
Qed.

Lemma listing_note_never_written root rg tree args dir files :
  resolve_optional_path root (json_get "path" args) = Ok dir ->
  rg ["--files"; target_of root dir] = Err "no ripgrep" ->
  collect_files root dir (tree dir) [] = Ok files ->
  list_files root rg tree args = Ok (join NL (sort_by str_leb files)).
Proof.
  intros Hdir Hrg Hc. unfold list_files. rewrite Hdir. cbn [result_bind]. rewrite Hrg, Hc. cbn [result_bind].
  rewrite (Permutation_length (sort_by_perm str_leb files)).
  apply collect_files_bound in Hc; [|cbn; lia].
  by destruct (Nat.ltb_spec MAX_LIST_FILES (length files)); [lia|].
Qed.

(** ** Witnesses *)

Import MemFiles.

Definition example_root : Path := ["/"; "work"].
Definition example_files : @fs_state mem_fs :=
  mkMem {["/work/a.txt" := "one two"; "/etc/passwd" := "root"]} None.
Definition example_args (path : string) : JsonValue :=
  JObject [("path", JString path); ("old", JString "two"); ("new", JString "three"); ("content", JString "x")].


Lemma replace_exact_witness :
  exists path old new content ps,
    resolve_required_path example_root (example_args "./a.txt") "path" = Ok path
    /\ get_str (example_args "./a.txt") "old" = Some old /\ get_str (example_args "./a.txt") "new" = Some new
    /\ fs_files example_files !! path_string path = Some content
    /\ ps = pieces old content /\ content = join old ps /\ 2 <= length ps.
Proof.
  destruct (replace_exact example_root (example_args "./a.txt") example_files
    (replace_in_file example_root (example_args "./a.txt") example_files).1 "Updated a.txt (1 replacement)")
    as (path & old & new & content & ps & H1 & H2 & H3 & H4 & H5 & H6 & H7 & _); [vm_compute; reflexivity|].
  exists path, old, new, content, ps. repeat split; assumption.
Defined.

(** Text can not be deleted: an empty replacement counts as a missing field. *)
Lemma empty_replacement_refused :
  let args := JObject [("path", JString "a.txt"); ("old", JString " two"); ("new", JString "")] in
  (replace_in_file example_root args example_files).2 = Err "missing required string field 'new'".
Proof. vm_compute. reflexivity. Qed.
