(* ===== verification/Messages.v ===== *)
(** * Conversation history of the native agent
    (brehon-native-agent/src/agent_runtime/message.rs)

    Messages of a conversation with a model, and the functions that cut the
    history to size and make it acceptable to a provider: every call of a tool
    must be followed at once by its results.  The text of a JSON value
    ([serde_json::to_string]) is a parameter.  Proved here: what is sent to the
    provider is paired in that sense and keeps every other message; what the
    limits keep. *)

From S2P Require Import Prelude StrLib Chars Feedback ShellCommand NativeTools.

(** ** Messages *)

Module AgentRole.
Inductive AgentRole := System | User | Assistant | Tool.
End AgentRole.
Abbreviation AgentRole := AgentRole.AgentRole.

#[export] Instance AgentRole_eq_dec : EqDecision AgentRole.
Proof. solve_decision. Defined.

Definition as_openai_role (r : AgentRole) : string :=
  match r with
  | AgentRole.System => "system"
  | AgentRole.User => "user"
  | AgentRole.Assistant => "assistant"
  | AgentRole.Tool => "tool"
  end.

Record ToolUseRequest := mkToolUse { tu_id : string; tu_name : string; tu_arguments : JsonValue }.

Module MessagePart.
Inductive MessagePart :=
| Text (text : string)
| ToolUse (request : ToolUseRequest)
| ToolResult (tool_call_id content : string) (is_error : bool).
End MessagePart.
Abbreviation MessagePart := MessagePart.MessagePart.

Record AgentMessage := mkMessage {
  am_role : AgentRole;
  am_parts : list MessagePart;
  am_extension_fields : list (string * JsonValue)
}.

Definition text_message (role : AgentRole) (content : string) : AgentMessage :=
  mkMessage role [MessagePart.Text content] [].
Definition system_message : string -> AgentMessage := text_message AgentRole.System.
Definition user_message : string -> AgentMessage := text_message AgentRole.User.

Definition assistant_with_extension_fields (content : option string) (tool_calls : list ToolUseRequest)
    (fields : list (string * JsonValue)) : AgentMessage :=
  mkMessage AgentRole.Assistant
    (match content with
     | Some content => if String.eqb content "" then [] else [MessagePart.Text content]
     | None => []
     end ++ (MessagePart.ToolUse <$> tool_calls)) fields.

Definition assistant_message (content : option string) (tool_calls : list ToolUseRequest) : AgentMessage :=
  assistant_with_extension_fields content tool_calls [].

Definition tool_result (tool_call_id content : string) (is_error : bool) : AgentMessage :=
  mkMessage AgentRole.Tool [MessagePart.ToolResult tool_call_id content is_error] [].

Definition text_content (m : AgentMessage) : string :=
  of_chars (omap (fun part =>
    match part with
    | MessagePart.Text text => Some text
    | MessagePart.ToolResult _ content _ => Some content
    | MessagePart.ToolUse _ => None
    end) (am_parts m)).

Definition tool_calls (m : AgentMessage) : list ToolUseRequest :=
  omap (fun part => match part with MessagePart.ToolUse call => Some call | _ => None end) (am_parts m).

Definition first_tool_result (m : AgentMessage) : option (string * string * bool) :=
  find_map (fun part =>
    match part with
    | MessagePart.ToolResult tool_call_id content is_error => Some (tool_call_id, content, is_error)
    | _ => None
    end) (am_parts m).

Definition tool_result_id (m : AgentMessage) : option string :=
  find_map (fun part => match part with MessagePart.ToolResult id _ _ => Some id | _ => None end) (am_parts m).

Section json.
(** [serde_json::to_string(value).ok()] *)
Context (json_text : JsonValue -> option string).

Definition raw_arguments_string (value : JsonValue) : string :=
  match json_as_str value with Some raw => raw | None => default "{}" (json_text value) end.

Definition to_openai_tool_call (call : ToolUseRequest) : JsonValue :=
  JObject [("id", JString (tu_id call)); ("type", JString "function");
           ("function", JObject [("name", JString (tu_name call));
                                 ("arguments", JString (raw_arguments_string (tu_arguments call)))])].

Definition to_openai_json (m : AgentMessage) : JsonValue :=
  match am_role m with
  | AgentRole.System | AgentRole.User =>
      JObject [("role", JString (as_openai_role (am_role m))); ("content", JString (text_content m))]
  | AgentRole.Assistant =>
      let content := text_content m in
      let calls := tool_calls m in
      JObject (foldl (fun fields f => insert_field f.1 f.2 fields)
        ([("role", JString "assistant");
          ("content", if String.eqb content "" then JNull else JString content)]
         ++ match calls with [] => [] | _ => [("tool_calls", JArray (to_openai_tool_call <$> calls))] end)
        (am_extension_fields m))
  | AgentRole.Tool =>
      let '(tool_call_id, content, _) := default ("", "", false) (first_tool_result m) in
      JObject [("role", JString "tool"); ("tool_call_id", JString tool_call_id); ("content", JString content)]
  end.

(** ** Limits *)

(** [messages.retain(...)] with the set of pending calls *)
Fixpoint retain_results (pending : gset string) (messages : list AgentMessage) : list AgentMessage :=
  match messages with
  | [] => []
  | m :: messages =>
      match am_role m with
      | AgentRole.Assistant => m :: retain_results (list_to_set (tu_id <$> tool_calls m)) messages
      | AgentRole.Tool =>
          match tool_result_id m with
          | None => retain_results pending messages
          | Some id =>
              if bool_decide (id ∈ pending) then m :: retain_results (pending ∖ {[id]}) messages
              else retain_results pending messages
          end
      | _ => m :: retain_results ∅ messages
      end
  end.

Definition sanitize_tool_result_adjacency (messages : list AgentMessage) : list AgentMessage :=
  retain_results ∅ messages.

Definition is_role (r : AgentRole) (m : AgentMessage) : bool := bool_decide (am_role m = r).

Fixpoint take_while {A} (f : A -> bool) (l : list A) : list A :=
  match l with
  | [] => []
  | x :: l => if f x then x :: take_while f l else []
  end.

Definition not_system (m : AgentMessage) : bool := negb (is_role AgentRole.System m).

Definition trim_message_history (messages : list AgentMessage) (max_messages : nat) : list AgentMessage :=
  if (length messages <=? max_messages)%nat then sanitize_tool_result_adjacency messages
  else
    let leading_system_messages := take_while (is_role AgentRole.System) messages in
    let keep_tail := max_messages - length leading_system_messages in
    let tail_start := length messages - keep_tail in
    sanitize_tool_result_adjacency
      (leading_system_messages ++ List.filter not_system (drop tail_start messages)).

Definition CHARS_PER_TOKEN_ESTIMATE : nat := 3.
Definition PER_MESSAGE_TOKEN_OVERHEAD : nat := 8.

Definition estimate_message_tokens (m : AgentMessage) : nat :=
  let serialized_len := match json_text (to_openai_json m) with
                        | Some json => String.length json
                        | None => String.length (text_content m)
                        end in
  serialized_len / CHARS_PER_TOKEN_ESTIMATE + PER_MESSAGE_TOKEN_OVERHEAD.

Definition total_tokens (messages : list AgentMessage) : nat := sum_list (estimate_message_tokens <$> messages).

(** The loop from the newest message back; [kept] has the oldest kept first. *)
Fixpoint keep_within (remaining : nat) (newest_first kept : list AgentMessage) : list AgentMessage :=
  match newest_first with
  | [] => kept
  | m :: older =>
      let cost := estimate_message_tokens m in
      if (cost <=? remaining)%nat then keep_within (remaining - cost) older (m :: kept)
      else match kept with [] => [m] | _ => kept end
  end.

Definition trim_message_history_to_token_budget (messages : list AgentMessage) (max_tokens : nat) :
    list AgentMessage :=
  if (total_tokens messages <=? max_tokens)%nat then sanitize_tool_result_adjacency messages
  else
    let leading_system := take_while (is_role AgentRole.System) messages in
    let remaining := max_tokens - total_tokens leading_system in
    let tail := List.filter not_system (drop (length leading_system) messages) in
    sanitize_tool_result_adjacency (leading_system ++ keep_within remaining (reverse tail) []).

Definition apply_history_limits (messages : list AgentMessage) (max_messages : nat)
    (token_budget : option nat) : list AgentMessage :=
  let messages := trim_message_history messages max_messages in
  match token_budget with
  | Some token_budget => trim_message_history_to_token_budget messages token_budget
  | None => messages
  end.
End json.

(** ** What the provider sees *)

(** The results of expected calls among the tool messages, each once *)
Fixpoint collect_results (expected seen : gset string) (messages : list AgentMessage) :
    gset string * list AgentMessage :=
  match messages with
  | [] => (seen, [])
  | m :: messages =>
      match tool_result_id m with
      | Some id =>
          if bool_decide (id ∈ expected) && negb (bool_decide (id ∈ seen)) then
            let '(seen, results) := collect_results expected ({[id]} ∪ seen) messages in (seen, m :: results)
          else collect_results expected seen messages
      | None => collect_results expected seen messages
      end
  end.

(** [messages.iter().rposition(|message| message.role() == AgentRole::User)] *)
Fixpoint last_user_index (index : nat) (messages : list AgentMessage) : option nat :=
  match messages with
  | [] => None
  | m :: messages =>
      match last_user_index (S index) messages with
      | Some i => Some i
      | None => if is_role AgentRole.User m then Some index else None
      end
  end.

(** The loop at [index]; each iteration consumes a message. *)
Fixpoint sanitize_loop (fuel : nat) (last_user : option nat) (index : nat) (messages : list AgentMessage) :
    list AgentMessage :=
  match fuel, messages with
  | S fuel, m :: rest =>
      match am_role m with
      | AgentRole.Assistant =>
          match tool_calls m with
          | [] => m :: sanitize_loop fuel last_user (S index) rest
          | calls =>
              let expected : gset string := list_to_set (tu_id <$> calls) in
              let following := take_while (is_role AgentRole.Tool) rest in
              let '(seen, results) := collect_results expected ∅ following in
              let before_latest_user := match last_user with Some u => (index <? u)%nat | None => false end in
              let next := sanitize_loop fuel last_user (S index + length following)
                            (skip_while (is_role AgentRole.Tool) rest) in
              if before_latest_user then next
              else if Nat.eqb (size seen) (size expected) then (m :: results) ++ next
              else next
          end
      | AgentRole.Tool => sanitize_loop fuel last_user (S index) rest
      | _ => m :: sanitize_loop fuel last_user (S index) rest
      end
  | _, _ => []
  end.

Definition sanitize_provider_message_history (messages : list AgentMessage) : list AgentMessage :=
  sanitize_loop (length messages) (last_user_index 0 messages) 0 messages.

(** ** Pairing *)

Definition call_ids (m : AgentMessage) : gset string := list_to_set (tu_id <$> tool_calls m).

(** A message that stands on its own *)
Definition is_plain_message (m : AgentMessage) : bool :=
  match am_role m with
  | AgentRole.System | AgentRole.User => true
  | AgentRole.Assistant => match tool_calls m with [] => true | _ => false end
  | AgentRole.Tool => false
  end.

(** Exactly one result for each call of [m] *)
Definition answers (m : AgentMessage) (results : list AgentMessage) : Prop :=
  Forall (fun r => am_role r = AgentRole.Tool) results
  /\ exists ids, tool_result_id <$> results = Some <$> ids /\ NoDup ids /\ list_to_set ids = call_ids m.

Inductive paired : list AgentMessage -> Prop :=
| paired_nil : paired []
| paired_plain m l : is_plain_message m = true -> paired l -> paired (m :: l)
| paired_calls m results l :
    am_role m = AgentRole.Assistant -> tool_calls m <> [] -> answers m results -> paired l ->
    paired ((m :: results) ++ l).

Lemma take_skip_while {A} (f : A -> bool) (l : list A) : take_while f l ++ skip_while f l = l.
Proof. induction l as [|x l IH]; cbn; [done|]. by destruct (f x); cbn; [rewrite IH|]. Qed.

Lemma take_while_all {A} (f : A -> bool) (l : list A) : Forall (fun x => f x = true) (take_while f l).
Proof. induction l as [|x l IH]; cbn; [constructor|]. destruct (f x) eqn:Hx; by constructor. Qed.

Lemma collect_results_spec expected messages : forall seen seen' results,
  collect_results expected seen messages = (seen', results) ->
  exists ids, tool_result_id <$> results = Some <$> ids /\ NoDup ids
    /\ seen' = list_to_set ids ∪ seen /\ (forall id, id ∈ ids -> id ∈ expected /\ id ∉ seen)
    /\ results ⊆ messages.
Proof.
  induction messages as [|m messages IH]; intros seen seen' results; cbn [collect_results].
  { intros [= <- <-]. exists []. split; [done|]. split; [constructor|]. set_solver. }
  assert (Hskip : collect_results expected seen messages = (seen', results) ->
    exists ids, tool_result_id <$> results = Some <$> ids /\ NoDup ids
      /\ seen' = list_to_set ids ∪ seen /\ (forall id, id ∈ ids -> id ∈ expected /\ id ∉ seen)
      /\ results ⊆ m :: messages).
  { intros (ids & H1 & H2 & H3 & H4 & H5)%IH. exists ids. do 4 (split; [done|]). set_solver. }
  destruct (tool_result_id m) as [id|] eqn:Hid; [|done].
  destruct (bool_decide (id ∈ expected) && negb (bool_decide (id ∈ seen))) eqn:Hb; [|done].
  apply andb_true_iff in Hb as [He%bool_decide_eq_true Hs%negb_true_iff%bool_decide_eq_false].
  destruct (collect_results expected ({[id]} ∪ seen) messages) as [seen1 results1] eqn:Hc.
  intros [= <- <-]. apply IH in Hc as (ids & H1 & H2 & H3 & H4 & H5). exists (id :: ids).
  split; [cbn; by rewrite Hid, H1|]. split; [constructor; [|done]; intros Hin; apply H4 in Hin; set_solver|].
  split; [rewrite H3; cbn; set_solver|]. split; [|set_solver].
  intros k [->|Hk]%elem_of_cons; [done|]. apply H4 in Hk. set_solver.
Qed.

(** All calls answered, as the code counts them *)
Lemma collect_results_answers m messages seen results :
  Forall (fun r => is_role AgentRole.Tool r = true) messages ->
  collect_results (call_ids m) ∅ messages = (seen, results) ->
  size seen = size (call_ids m) -> answers m results.
Proof.
  intros Htool Hc Hsize. apply collect_results_spec in Hc as (ids & H1 & H2 & H3 & H4 & H5).
  split.
  { apply Forall_forall. intros r Hr%H5. rewrite Forall_forall in Htool. by apply Htool, bool_decide_eq_true in Hr. }
  exists ids. split; [done|]. split; [done|]. rewrite union_empty_r_L in H3. rewrite <-H3.
  apply set_subseteq_size_eq; [|lia]. rewrite H3. intros id Hid%elem_of_list_to_set. by apply H4.
Qed.

Lemma sanitize_loop_paired fuel : forall last_user index messages,
  paired (sanitize_loop fuel last_user index messages).
Proof.
  induction fuel as [|fuel IH]; intros last_user index [|m rest]; cbn [sanitize_loop]; try constructor.
  destruct (am_role m) eqn:Hr; try apply IH.
  1,2: apply paired_plain; [by unfold is_plain_message; rewrite Hr|apply IH].
  destruct (tool_calls m) as [|call calls] eqn:Hc.
  { apply paired_plain; [by unfold is_plain_message; rewrite Hr, Hc|apply IH]. }
  rewrite <-Hc. fold (call_ids m).
  destruct (collect_results (call_ids m) ∅ _) as [seen results] eqn:Hcol.
  case_match; [apply IH|]. destruct (Nat.eqb_spec (size seen) (size (call_ids m))) as [Hs|]; [|apply IH].
  apply paired_calls; [done|by rewrite Hc| |apply IH].
  eapply collect_results_answers; [apply take_while_all|done|done].
Qed.

(** Messages that stand on their own are all kept. *)
Lemma plain_skip_tools l :
  List.filter is_plain_message (skip_while (is_role AgentRole.Tool) l) = List.filter is_plain_message l.
Proof.
  induction l as [|m l IH]; [done|]. cbn [skip_while]. destruct (is_role AgentRole.Tool m) eqn:Ht; [|done].
  apply bool_decide_eq_true in Ht. cbn [List.filter]. unfold is_plain_message at 2. by rewrite Ht.
Qed.

Lemma plain_results m results : answers m results -> List.filter is_plain_message results = [].
Proof.
  intros [Ht _]. induction Ht as [|r l Hr _ IH]; [done|]. cbn. unfold is_plain_message at 1. by rewrite Hr.
Qed.

Lemma sanitize_loop_plain fuel : forall last_user index messages, length messages <= fuel ->
  List.filter is_plain_message (sanitize_loop fuel last_user index messages)
  = List.filter is_plain_message messages.
Proof.
  induction fuel as [|fuel IH]; intros last_user index [|m rest] Hl; cbn in Hl; try lia; try done.
  cbn [sanitize_loop]. assert (Hrest : length rest <= fuel) by lia.
  destruct (am_role m) eqn:Hr.
  1,2: assert (Hplain : is_plain_message m = true) by (unfold is_plain_message; by rewrite Hr);
    cbn [List.filter]; rewrite Hplain; f_equal; by apply IH.
  2:{ assert (Hplain : is_plain_message m = false) by (unfold is_plain_message; by rewrite Hr).
      cbn [List.filter]. rewrite Hplain. by apply IH. }
  destruct (tool_calls m) as [|call calls] eqn:Hc.
  { assert (Hplain : is_plain_message m = true) by (unfold is_plain_message; by rewrite Hr, Hc).
    cbn [List.filter]. rewrite Hplain. f_equal. by apply IH. }
  rewrite <-Hc. fold (call_ids m).
  destruct (collect_results (call_ids m) ∅ _) as [seen results] eqn:Hcol.
  assert (Hplain : is_plain_message m = false) by (unfold is_plain_message; by rewrite Hr, Hc).
  assert (Hnext : forall i, List.filter is_plain_message
    (sanitize_loop fuel last_user i (skip_while (is_role AgentRole.Tool) rest)) = List.filter is_plain_message rest).
  { intros i. rewrite IH, plain_skip_tools; [done|]. etrans; [apply length_skip_while|done]. }
  cbn [List.filter]. rewrite Hplain.
  case_match; [apply Hnext|]. destruct (Nat.eqb_spec (size seen) (size (call_ids m))) as [Hs|]; [|apply Hnext].
  cbn [app List.filter]. rewrite Hplain, List.filter_app, Hnext.
  by rewrite (plain_results m results) by (eapply collect_results_answers; [apply take_while_all|done|done]).
Qed.

(** ** Limits keep a part, in order *)

Lemma retain_sublist messages : forall pending, retain_results pending messages `sublist_of` messages.
Proof.
  induction messages as [|m messages IH]; intros pending; cbn; [done|].
  repeat case_match; (by apply sublist_skip) || by apply sublist_cons.
Qed.

Lemma reverse_sublist {A} (l k : list A) : l `sublist_of` k -> reverse l `sublist_of` reverse k.
Proof.
  induction 1; rewrite ?reverse_cons; [done|by apply sublist_app|by apply sublist_inserts_r].
Qed.

(** System messages at the front stay there. *)
Lemma retain_system lead rest : forall pending, Forall (fun m => am_role m = AgentRole.System) lead ->
  lead `prefix_of` retain_results pending (lead ++ rest).
Proof.
  intros pending Hl. revert pending. induction Hl as [|m lead Hm _ IH]; intros pending; [apply prefix_nil|].
  cbn. rewrite Hm. apply prefix_cons, IH.
Qed.

Definition leading_system (messages : list AgentMessage) : list AgentMessage :=
  take_while (is_role AgentRole.System) messages.

Lemma leading_all messages : Forall (fun m => am_role m = AgentRole.System) (leading_system messages).
Proof.
  eapply Forall_impl; [apply take_while_all|]. intros m Hm. by apply bool_decide_eq_true in Hm.
Qed.

Lemma leading_prefix messages : leading_system messages `prefix_of` messages.
Proof. exists (skip_while (is_role AgentRole.System) messages). symmetry. apply take_skip_while. Qed.

Lemma prefix_leading lead messages : Forall (fun m => am_role m = AgentRole.System) lead ->
  lead `prefix_of` messages -> lead `prefix_of` leading_system messages.
Proof.
  intros Hl [rest ->]. induction Hl as [|m lead Hm _ IH]; [apply prefix_nil|].
  unfold leading_system. cbn. unfold is_role at 1. rewrite bool_decide_true by done. by apply prefix_cons.
Qed.

Lemma sanitized_prefix messages :
  leading_system messages `prefix_of` sanitize_tool_result_adjacency messages.
Proof.
  destruct (leading_prefix messages) as [rest Hr]. unfold sanitize_tool_result_adjacency.
  pose proof (retain_system _ rest ∅ (leading_all messages)) as Hp. by rewrite <-Hr in Hp.
Qed.

Lemma leading_drop_sublist (messages tail : list AgentMessage) :
  tail `sublist_of` drop (length (leading_system messages)) messages ->
  leading_system messages ++ tail `sublist_of` messages.
Proof.
  intros Ht. assert (Hsplit : forall l r x : list AgentMessage, x = l ++ r -> l ++ drop (length l) x = x)
    by (intros l r x ->; by rewrite drop_app_length).
  destruct (leading_prefix messages) as [rest Hr]. apply Hsplit in Hr.
  assert (Happ : leading_system messages ++ tail `sublist_of`
    leading_system messages ++ drop (length (leading_system messages)) messages) by by apply sublist_app.
  by rewrite Hr in Happ.
Qed.

(** What trimming by number keeps *)
Lemma trim_spec messages max_messages :
  let out := trim_message_history messages max_messages in
  out `sublist_of` messages /\ leading_system messages `prefix_of` out
  /\ length out <= max max_messages (length (leading_system messages)).
Proof.
  cbn zeta. unfold trim_message_history. fold (leading_system messages).
  destruct (Nat.leb_spec (length messages) max_messages) as [Hle|Hgt].
  { pose proof (retain_sublist messages ∅) as Hs. split; [done|]. split; [apply sanitized_prefix|].
    unfold sanitize_tool_result_adjacency. apply sublist_length in Hs. lia. }
  set (lead := leading_system messages). set (k := max_messages - length lead).
  set (tail := List.filter not_system (drop (length messages - k) messages)).
  assert (Htail : tail `sublist_of` drop (length messages - k) messages) by apply filter_sublist.
  assert (Hlen : length lead <= length messages) by (apply prefix_length, leading_prefix).
  pose proof (retain_sublist (lead ++ tail) ∅) as Hs.
  split; [|split].
  - etrans; [exact Hs|]. apply leading_drop_sublist. fold lead. etrans; [exact Htail|].
    replace (length messages - k) with (length lead + (length messages - k - length lead)) by lia.
    rewrite <-drop_drop. apply sublist_drop.
  - apply retain_system, leading_all.
  - apply sublist_length in Hs, Htail. rewrite length_app in Hs. rewrite length_drop in Htail.
    unfold sanitize_tool_result_adjacency. lia.
Qed.

Section budget.
Context (json_text : JsonValue -> option string).
Abbreviation tokens := (total_tokens json_text).

Lemma tokens_cons m l : tokens (m :: l) = estimate_message_tokens json_text m + tokens l.
Proof. done. Qed.

Lemma tokens_app l k : tokens (l ++ k) = tokens l + tokens k.
Proof. induction l as [|m l IH]; [done|]. cbn [app]. rewrite !tokens_cons, IH. lia. Qed.

Lemma tokens_sublist l k : l `sublist_of` k -> tokens l <= tokens k.
Proof. induction 1; rewrite ?tokens_cons; [done|lia|lia]. Qed.

Lemma tokens_length l : PER_MESSAGE_TOKEN_OVERHEAD * length l <= tokens l.
Proof.
  induction l as [|m l IH]; [done|]. rewrite tokens_cons. unfold estimate_message_tokens. cbn [length]. lia.
Qed.

Lemma keep_within_spec newest : forall remaining kept,
  exists k, keep_within json_text remaining newest kept = reverse (take k newest) ++ kept
    /\ (tokens (take k newest) <= remaining \/ kept = [] /\ k = 1).
Proof.
  induction newest as [|m older IH]; intros remaining kept; cbn [keep_within].
  { exists 0. split; [done|]. left. cbn. lia. }
  destruct (Nat.leb_spec (estimate_message_tokens json_text m) remaining) as [Hc|Hc].
  - destruct (IH (remaining - estimate_message_tokens json_text m) (m :: kept)) as (k & -> & Hk).
    exists (S k). cbn [take]. rewrite reverse_cons, <-app_assoc. split; [done|]. left.
    rewrite tokens_cons. destruct Hk as [Hk|[? _]]; [lia|done].
  - destruct kept as [|x kept]; [exists 1; auto|]. exists 0. split; [done|]. left. cbn. lia.
Qed.

Lemma tokens_reverse l : tokens (reverse l) = tokens l.
Proof.
  induction l as [|m l IH]; [done|]. rewrite reverse_cons, tokens_app, IH, !tokens_cons.
  change (tokens []) with 0. lia.
Qed.

(** What the token budget keeps *)
Lemma budget_spec messages max_tokens :
  let out := trim_message_history_to_token_budget json_text messages max_tokens in
  out `sublist_of` messages /\ leading_system messages `prefix_of` out
  /\ (tokens out <= max_tokens
      \/ exists lead tail, out = lead ++ tail /\ Forall (fun m => am_role m = AgentRole.System) lead
         /\ length tail <= 1).
Proof.
  cbn zeta. unfold trim_message_history_to_token_budget. fold (leading_system messages).
  destruct (Nat.leb_spec (tokens messages) max_tokens) as [Hle|Hgt].
  { pose proof (retain_sublist messages ∅) as Hs. split; [done|]. split; [apply sanitized_prefix|]. left.
    etrans; [|exact Hle]. by apply tokens_sublist. }
  set (lead := leading_system messages).
  set (tail := List.filter not_system (drop (length lead) messages)).
  assert (Htail : tail `sublist_of` drop (length lead) messages) by apply filter_sublist.
  destruct (keep_within_spec (reverse tail) (max_tokens - tokens lead) []) as (k & -> & Hk). rewrite app_nil_r.
  assert (Hkept : reverse (take k (reverse tail)) `sublist_of` tail).
  { rewrite <-(reverse_involutive tail) at 2. apply reverse_sublist, sublist_take. }
  pose proof (retain_sublist (lead ++ reverse (take k (reverse tail))) ∅) as Hs.
  split; [|split].
  - etrans; [exact Hs|]. apply leading_drop_sublist. by etrans.
  - apply retain_system, leading_all.
  - assert (Hshort : length (take k (reverse tail)) <= 1 ->
      exists lead' tail', sanitize_tool_result_adjacency (lead ++ reverse (take k (reverse tail))) = lead' ++ tail'
        /\ Forall (fun m => am_role m = AgentRole.System) lead' /\ length tail' <= 1).
    { intros Hone. destruct (retain_system lead (reverse (take k (reverse tail))) ∅ (leading_all messages)) as [rest Hr].
      exists lead, rest. split; [done|]. split; [apply leading_all|].
      apply sublist_length in Hs. rewrite Hr, !length_app, length_reverse in Hs. lia. }
    destruct Hk as [Hk|[_ ->]]; [|right; apply Hshort; rewrite length_take; lia].
    destruct (Nat.lt_ge_cases max_tokens (tokens lead)) as [Hover|Hfit].
    + right. apply Hshort. pose proof (tokens_length (take k (reverse tail))) as Hmin.
      unfold PER_MESSAGE_TOKEN_OVERHEAD in Hmin. lia.
    + left. etrans; [by apply tokens_sublist|]. rewrite tokens_app, tokens_reverse. lia.
Qed.
End budget.

(** ** Theorems *)

(** What is sent to the provider is paired: every message of the assistant
    that calls tools is followed at once by exactly one result for each of its
    calls and by nothing else, and no result stands elsewhere.  All messages of
    the system and of the user, and those of the assistant that call no tool,
    are kept, in order. *)
Theorem provider_history_paired (messages : list AgentMessage) :
  let out := sanitize_provider_message_history messages in
  paired out
  /\ List.filter is_plain_message out = List.filter is_plain_message messages.
Proof. split; [apply sanitize_loop_paired|by apply sanitize_loop_plain]. Qed.

(** The limits of the history keep a part of it, in order, and always the
    system messages at its front.  At most [max_messages] messages are left,
    unless those of the system are more; with a token budget, what is left fits
    it by the estimate, unless only system messages and at most one more are
    left. *)
Theorem history_limits (json_text : JsonValue -> option string) (messages : list AgentMessage)
    (max_messages : nat) (token_budget : option nat) :
  let out := apply_history_limits json_text messages max_messages token_budget in
  out `sublist_of` messages
  /\ leading_system messages `prefix_of` out
  /\ length out <= max max_messages (length (leading_system messages))
  /\ match token_budget with
     | Some budget =>
         total_tokens json_text out <= budget
         \/ exists lead tail, out = lead ++ tail /\ Forall (fun m => am_role m = AgentRole.System) lead
            /\ length tail <= 1
     | None => True
     end.
Proof.
  cbn zeta. unfold apply_history_limits.
  destruct (trim_spec messages max_messages) as (Hsub & Hlead & Hlen).
  set (trimmed := trim_message_history messages max_messages) in *.
  destruct token_budget as [budget|]; [|by repeat split].
  destruct (budget_spec json_text trimmed budget) as (Hsub' & Hlead' & Hfit).
  split; [by etrans|]. split.
  { etrans; [|exact Hlead']. apply prefix_leading; [apply leading_all|done]. }
  split; [|done]. apply sublist_length in Hsub'. lia.
Qed.

(** The newest message is kept "even if it alone exceeds the remaining budget",
    but a tool result is then dropped with its call: nothing of the turn is left. *)
Lemma newest_result_dropped :
  let call := assistant_message None [mkToolUse "c1" "bash" JNull] in
  let messages := [system_message "s"; user_message "go"; call; tool_result "c1" "output" false] in
  apply_history_limits (fun _ => None) messages 10 (Some 10) = [system_message "s"].
Proof. vm_compute. reflexivity. Qed.
