(* ===== verification/AgentLoop.v ===== *)
(** * The turn loop of the native agent
    (brehon-native-agent/src/agent_runtime: doom_loop.rs, orchestrator.rs,
    turn.rs and runner.rs)

    A turn alternates between the model and the tools until the model answers
    without calling a tool, fails, or a detector stops it.  The model, the tools
    and cancellation are parameters of the loop, by round; the hash function and
    the text of JSON values too.  Proved here: what the detectors detect, and
    that with a ceiling on tool rounds every turn ends, whatever the model and
    the tools answer. *)

From Stdlib Require Import Ascii.
From S2P Require Import Prelude StrLib Chars Feedback ShellCommand Permissions NativeTools CodingTools Messages ToolDispatch.

(** ** Repeated messages (doom_loop.rs) *)

Definition TOOL_RESULT_TAG : string := "[tool_result: ".
Definition TOOL_USE_TAG : string := "[tool_use: ".

(** What is written to the hasher for a tag, and the rest of the text.  [before]
    and [after] are the text around the tag. *)
Definition hash_tool_result_in_place (before after : string) : list string * string :=
  let tag := TOOL_RESULT_TAG +:+ after in
  match split_once_str "]" tag with
  | Some (_, rest) => ([before; "[tool_result]"], rest)
  | None => ([before; tag], "")
  end.

Definition hash_tool_use_in_place (before after : string) : list string * string :=
  let tag := TOOL_USE_TAG +:+ after in
  match split_once_str "(" tag, split_once_str "]" tag with
  | Some (to_paren, _), Some (_, rest) =>
      ([before; TOOL_USE_TAG; default "" (strip_prefix TOOL_USE_TAG to_paren); "]"], rest)
  | Some _, None => ([before; tag], "")
  | None, Some (to_bracket, rest) => ([before; to_bracket +:+ "]"], rest)
  | None, None => ([before; tag], "")
  end.

(** The loop: every iteration consumes a tag, so that the length of the text is
    fuel enough. *)
Fixpoint doom_chunks (fuel : nat) (rest : string) : list string :=
  match fuel with
  | O => []
  | S fuel =>
      if String.eqb rest "" then []
      else
        let continue := fun c : list string * string => c.1 ++ doom_chunks fuel c.2 in
        match split_once_str TOOL_RESULT_TAG rest, split_once_str TOOL_USE_TAG rest with
        | Some (r, after_r), Some (u, after_u) =>
            if (String.length u <? String.length r)%nat then continue (hash_tool_use_in_place u after_u)
            else continue (hash_tool_result_in_place r after_r)
        | Some (r, after_r), None => continue (hash_tool_result_in_place r after_r)
        | None, Some (u, after_u) => continue (hash_tool_use_in_place u after_u)
        | None, None => [rest]
        end
  end.

Record DoomLoopDetector := mkDetector {
  dl_last_hash : option Z;
  dl_repeats : Z;
  dl_repeat_threshold : Z
}.

Definition detector_new (repeat_threshold : Z) : DoomLoopDetector := mkDetector None 0 (Z.max repeat_threshold 2).
Definition DEFAULT_REPEAT_THRESHOLD : Z := 3.
Definition detector_default : DoomLoopDetector := detector_new DEFAULT_REPEAT_THRESHOLD.

Section agent.
(** [DefaultHasher]: the writes and [finish] *)
Context (hash_writes : list string -> Z).
Context (json_text : JsonValue -> option string).

Definition doom_loop_hash (content : string) : Z := hash_writes (doom_chunks (String.length content) content).

Definition observe (content : string) (d : DoomLoopDetector) : DoomLoopDetector * bool :=
  let hash := doom_loop_hash content in
  let d := if bool_decide (dl_last_hash d = Some hash)
           then mkDetector (dl_last_hash d) (sat_add u64_max (dl_repeats d) 1) (dl_repeat_threshold d)
           else mkDetector (Some hash) 1 (dl_repeat_threshold d) in
  (d, (dl_repeat_threshold d <=? dl_repeats d)%Z).

(** ** Repeated calls and rounds (orchestrator.rs) *)

Inductive ToolLoopControl := Continue | Stop (reason : string).

Record ToolOrchestrator := mkOrchestrator {
  or_doom_loop : DoomLoopDetector;
  or_recent_tool_calls : list (string * Z);
  or_repeat_threshold : nat;
  or_max_tool_rounds : option nat;
  or_tool_rounds : nat
}.

Definition orchestrator_new : ToolOrchestrator := mkOrchestrator detector_default [] 3 None 0.

Definition with_max_tool_rounds (max : option nat) (o : ToolOrchestrator) : ToolOrchestrator :=
  mkOrchestrator (or_doom_loop o) (or_recent_tool_calls o) (or_repeat_threshold o)
    (max ≫= fun max => if (0 <? max)%nat then Some max else None) (or_tool_rounds o).

Definition begin_turn (o : ToolOrchestrator) : ToolOrchestrator :=
  mkOrchestrator detector_default [] (or_repeat_threshold o) (or_max_tool_rounds o) 0.

(** [sort_json]: objects by key.  The fields of a value are those of a [BTreeMap]
    already. *)
Definition stable_args_text (value : JsonValue) : string := default "" (json_text value).

Definition doom_loop_signature (m : AgentMessage) : string :=
  text_content m +:+ of_chars ((fun call =>
    NL +:+ TOOL_USE_TAG +:+ tu_name call +:+ "(" +:+ tu_id call +:+ ")] " +:+ stable_args_text (tu_arguments call))
    <$> tool_calls m).

Definition observe_assistant_message (m : AgentMessage) (o : ToolOrchestrator) :
    ToolOrchestrator * ToolLoopControl :=
  let '(d, repeated) := observe (doom_loop_signature m) (or_doom_loop o) in
  (mkOrchestrator d (or_recent_tool_calls o) (or_repeat_threshold o) (or_max_tool_rounds o) (or_tool_rounds o),
   if repeated
   then Stop ("native-agent stopped a repeated provider loop after " +:+ pretty (dl_repeats d) +:+ " identical turns")
   else Continue).

Definition truncate_tool_name (name : string) : string :=
  if (String.length name <=? 256)%nat then name else bytes_to (floor_boundary name 256) name.

Definition int_arg (args : JsonValue) (keys : list string) : option Z :=
  find_map (fun key =>
    match optional_u64 args key with
    | Some n => Some n
    | None => get_str args key ≫= fun text => parse_u64 (trim text)
    end) keys.

Definition semantic_read_key (name : string) (args : JsonValue) : option string :=
  if String.eqb name "read_file" then
    (fun path =>
       "path=" +:+ path
       +:+ ";start=" +:+ pretty (default 1%Z (int_arg args ["start_line"; "start"; "line_start"]))
       +:+ ";end=" +:+ match int_arg args ["end_line"; "end"; "line_end"] with
                       | Some stop => pretty stop | None => "" end) <$> string_arg args path_keys
  else if String.eqb name "list_files" then
    Some ("path=" +:+ default "." (string_arg args ["path"; "dir"; "directory"]))
  else if String.eqb name "search_text" then
    (fun pattern => "pattern=" +:+ pattern +:+ ";path=" +:+ default "." (string_arg args ["path"; "dir"; "directory"]))
      <$> string_arg args ["pattern"; "query"; "regex"]
  else None.

Definition repeat_key (name : string) (args : JsonValue) : Z :=
  hash_writes [truncate_tool_name name; ":";
    match semantic_read_key name args with Some key => key | None => stable_args_text args end].

Definition push_tool_call (name : string) (args_hash : Z) (o : ToolOrchestrator) : ToolOrchestrator :=
  if Nat.eqb (or_repeat_threshold o) 0 then o
  else
    let window := 2 * or_repeat_threshold o in
    let recent := if (window <=? length (or_recent_tool_calls o))%nat
                  then drop 1 (or_recent_tool_calls o) else or_recent_tool_calls o in
    mkOrchestrator (or_doom_loop o) (recent ++ [(truncate_tool_name name, args_hash)]) (or_repeat_threshold o)
      (or_max_tool_rounds o) (or_tool_rounds o).

Definition same_call (name : string) (args_hash : Z) (stored : string * Z) : bool :=
  String.eqb stored.1 (truncate_tool_name name) && (stored.2 =? args_hash)%Z.

Definition is_repeat (name : string) (args_hash : Z) (o : ToolOrchestrator) : bool :=
  if Nat.eqb (or_repeat_threshold o) 0 then false
  else (or_repeat_threshold o <=? length (List.filter (same_call name args_hash) (or_recent_tool_calls o)))%nat.

Fixpoint observe_calls (calls : list ToolUseRequest) (o : ToolOrchestrator) : ToolOrchestrator * ToolLoopControl :=
  match calls with
  | [] => (o, Continue)
  | call :: calls =>
      let key := repeat_key (tu_name call) (tu_arguments call) in
      let o := push_tool_call (tu_name call) key o in
      if is_repeat (tu_name call) key o
      then (o, Stop ("native-agent stopped repeated tool call " +:+ tu_name call +:+ " with identical arguments"))
      else observe_calls calls o
  end.

Definition observe_tool_calls (calls : list ToolUseRequest) (o : ToolOrchestrator) :
    ToolOrchestrator * ToolLoopControl :=
  let o := mkOrchestrator (or_doom_loop o) (or_recent_tool_calls o) (or_repeat_threshold o)
             (or_max_tool_rounds o) (S (or_tool_rounds o)) in
  match or_max_tool_rounds o with
  | Some max =>
      if (max <? or_tool_rounds o)%nat
      then (o, Stop ("native-agent reached the maximum of " +:+ pretty max
                     +:+ " tool-call rounds in one turn; stopping to avoid an unbounded tool loop"))
      else observe_calls calls o
  | None => observe_calls calls o
  end.

(** ** The loop (runner.rs) *)

Record AssistantTurn := mkAssistantTurn {
  at_content : option string;
  at_tool_calls : list ToolUseRequest;
  at_history_message : AgentMessage;
  at_tokens_used : option Z;
  at_stop_reason : option string
}.

Record AgentTurnConfig := mkTurnConfig {
  cf_max_history_messages : nat;
  cf_context_window_tokens : option nat;
  cf_max_tool_rounds : option nat;
  cf_nudge_text_only_first_turn : bool
}.

Record AgentTurnOutcome := mkOutcome {
  oc_messages : list AgentMessage;
  oc_response : option string;
  oc_tokens_used : option Z;
  oc_stop_reason : option string;
  oc_success : bool
}.

Record AgentTurnError := mkTurnError { er_message : string; er_messages : list AgentMessage }.

(** The variables of the loop *)
Record TurnLoop := mkTurnLoop {
  tl_messages : list AgentMessage;
  tl_orchestrator : ToolOrchestrator;
  tl_response_text : string;
  tl_tokens_used : option Z;
  tl_stop_reason : option string;
  tl_empty_assistant_turns : nat;
  tl_nudge_sent : bool;
  tl_any_tool_called : bool;
  tl_rounds : nat
}.
#[export] Instance TurnLoop_eta : Eta TurnLoop := fun s =>
  mkTurnLoop (tl_messages s) (tl_orchestrator s) (tl_response_text s) (tl_tokens_used s) (tl_stop_reason s)
    (tl_empty_assistant_turns s) (tl_nudge_sent s) (tl_any_tool_called s) (tl_rounds s).

Definition MAX_EMPTY_ASSISTANT_TURNS : nat := 2.

Definition EMPTY_TURN_PROMPT : string :=
  "Your previous assistant turn returned no content and no tool calls. Continue the same task now. Use available tools when the prompt requires tool-backed work; otherwise provide a concise final answer.".
Definition TOOL_REQUIRED_NUDGE : string :=
  "Please use the available tools to complete the task. Do not announce intentions; inspect state and execute the required work. If the work is already complete, use the appropriate Brehon tool to report that state.".

Definition empty_to_none (value : string) : option string :=
  if String.eqb (trim value) "" then None else Some value.

Definition accumulate_tokens (total tokens : option Z) : option Z :=
  match tokens with Some tokens => Some (sat_add u64_max (default 0%Z total) tokens) | None => total end.

(** The parameters of a turn, by round: whether it is cancelled when the round
    starts, what the model answers to the messages ([complete_with_recovery]),
    and the results of the tools *)
Context (config : AgentTurnConfig).
Context (cancelled : nat -> bool).
Context (complete : nat -> list AgentMessage -> Result AssistantTurn string).
Context (dispatch : nat -> list ToolUseRequest -> list ToolDispatchResult).

Definition limit (messages : list AgentMessage) : list AgentMessage :=
  apply_history_limits json_text messages (cf_max_history_messages config) (cf_context_window_tokens config).

Abbreviation Step := (TurnLoop + Result AgentTurnOutcome AgentTurnError)%type.

Definition outcome (st : TurnLoop) (success : bool) : Result AgentTurnOutcome AgentTurnError :=
  Ok (mkOutcome (tl_messages st) (empty_to_none (tl_response_text st)) (tl_tokens_used st) (tl_stop_reason st) success).

Definition failed (st : TurnLoop) (message : string) : Result AgentTurnOutcome AgentTurnError :=
  Err (mkTurnError message (tl_messages st)).

(** The model answered nothing. *)
Definition empty_turn (st : TurnLoop) : Step :=
  let st := st <| tl_empty_assistant_turns := S (tl_empty_assistant_turns st) |> in
  if (MAX_EMPTY_ASSISTANT_TURNS <? tl_empty_assistant_turns st)%nat
  then inr (failed st "model returned empty assistant turns without tool calls")
  else inl (st <| tl_messages := limit (tl_messages st ++ [user_message EMPTY_TURN_PROMPT]) |>).

(** The model called no tool. *)
Definition text_turn (st : TurnLoop) : Step :=
  if cf_nudge_text_only_first_turn config && negb (tl_any_tool_called st) && negb (tl_nudge_sent st)
  then inl (st <| tl_nudge_sent := true |>
               <| tl_messages := limit (tl_messages st ++ [user_message TOOL_REQUIRED_NUDGE]) |>)
  else inr (outcome st true).

(** The model called tools. *)
Definition tool_turn (calls : list ToolUseRequest) (st : TurnLoop) : Step :=
  let '(o, control) := observe_tool_calls calls (tl_orchestrator st) in
  let st := st <| tl_orchestrator := o |> in
  match control with
  | Stop reason => inr (failed st reason)
  | Continue =>
      let messages := foldl (fun messages r =>
        limit (messages ++ [tool_result (dr_tool_call_id r) (dr_content r) (dr_is_error r)]))
        (tl_messages st) (dispatch (tl_rounds st) calls) in
      inl (st <| tl_any_tool_called := true |> <| tl_messages := messages |>)
  end.

Definition assistant_text (turn : AssistantTurn) : option string := non_blank (at_content turn).

(** The model answered with text or calls. *)
Definition answered_turn (turn : AssistantTurn) (st : TurnLoop) : Step :=
  let st := st <| tl_empty_assistant_turns := 0 |> in
  let '(o, control) := observe_assistant_message (at_history_message turn) (tl_orchestrator st) in
  let st := st <| tl_orchestrator := o |> in
  match control with
  | Stop reason => inr (failed st reason)
  | Continue =>
      let st := st <| tl_messages := limit (tl_messages st ++ [at_history_message turn]) |> in
      let st := match assistant_text turn with
                | Some text => st <| tl_response_text := tl_response_text st +:+ text +:+ NL |>
                | None => st
                end in
      match at_tool_calls turn with
      | [] => text_turn st
      | calls => tool_turn calls st
      end
  end.

(** One iteration *)
Definition turn_round (st : TurnLoop) : Step :=
  let st := st <| tl_rounds := S (tl_rounds st) |> in
  if cancelled (tl_rounds st) then inr (outcome (st <| tl_stop_reason := Some "cancelled" |>) false)
  else
    let st := st <| tl_messages := sanitize_provider_message_history (tl_messages st) |> in
    match complete (tl_rounds st) (tl_messages st) with
    | Err message => inr (failed st message)
    | Ok turn =>
        let st := st <| tl_tokens_used := accumulate_tokens (tl_tokens_used st) (at_tokens_used turn) |>
                     <| tl_stop_reason := match at_stop_reason turn with Some r => Some r | None => tl_stop_reason st end |> in
        match assistant_text turn, at_tool_calls turn with
        | None, [] => empty_turn st
        | _, _ => answered_turn turn st
        end
    end.

Fixpoint turn_loop (fuel : nat) (st : TurnLoop) : option (Result AgentTurnOutcome AgentTurnError) :=
  match fuel with
  | O => None
  | S fuel => match turn_round st with inl st => turn_loop fuel st | inr r => Some r end
  end.

Definition turn_start (messages : list AgentMessage) : TurnLoop :=
  mkTurnLoop messages (begin_turn (with_max_tool_rounds (cf_max_tool_rounds config) orchestrator_new))
    "" None (Some "stop") 0 false false 0.

Definition run_turn (fuel : nat) (messages : list AgentMessage) : option (Result AgentTurnOutcome AgentTurnError) :=
  turn_loop fuel (turn_start messages).
End agent.

(** ** The hash loop ends *)

Lemma split_once_shorter needle s before after :
  needle <> "" -> split_once_str needle s = Some (before, after) -> String.length after < String.length s.
Proof.
  intros Hne ->%split_once_str_Some. rewrite !length_append. destruct needle; [done|]. cbn. lia.
Qed.

Lemma hash_result_shorter before after :
  String.length (hash_tool_result_in_place before after).2 < String.length (before +:+ TOOL_RESULT_TAG +:+ after).
Proof.
  unfold hash_tool_result_in_place. rewrite length_append.
  destruct (split_once_str "]" _) as [[b rest]|] eqn:Hs; cbn [snd]; [|rewrite length_append; cbn; lia].
  apply split_once_shorter in Hs; [lia|done].
Qed.

Lemma hash_use_shorter before after :
  String.length (hash_tool_use_in_place before after).2 < String.length (before +:+ TOOL_USE_TAG +:+ after).
Proof.
  unfold hash_tool_use_in_place. rewrite length_append.
  destruct (split_once_str "]" _) as [[b rest]|] eqn:Hs;
    destruct (split_once_str "(" _) as [[p q]|]; cbn [snd];
    solve [apply split_once_shorter in Hs; [lia|done] | rewrite length_append; cbn; lia].
Qed.

(** The length of the text is fuel enough. *)
Lemma doom_chunks_fuel f : forall f' rest, String.length rest <= f -> String.length rest <= f' ->
  doom_chunks f rest = doom_chunks f' rest.
Proof.
  induction f as [|f IH]; intros f' rest Hf Hf'.
  { destruct rest; [|cbn in Hf; lia]. by destruct f'. }
  destruct f' as [|f']; [destruct rest; [done|cbn in Hf'; lia]|]. cbn [doom_chunks].
  destruct (String.eqb_spec rest "") as [|Hne]; [done|].
  destruct (split_once_str TOOL_RESULT_TAG rest) as [[r after_r]|] eqn:Hr;
    destruct (split_once_str TOOL_USE_TAG rest) as [[u after_u]|] eqn:Hu; [case_match|..|done].
  all: f_equal; apply IH.
  all: try apply split_once_str_Some in Hr; try apply split_once_str_Some in Hu.
  all: match goal with
    | |- context [hash_tool_use_in_place ?b ?a] => pose proof (hash_use_shorter b a) as Hlt; rewrite <-Hu in Hlt
    | |- context [hash_tool_result_in_place ?b ?a] => pose proof (hash_result_shorter b a) as Hlt; rewrite <-Hr in Hlt
    end; lia.
Qed.

(** ** The detector of repeated messages *)

Section detector.
Context (hash_writes : list string -> Z).
Abbreviation hash := (doom_loop_hash hash_writes).

(** The detector after some messages, from the start of a turn *)
Definition observed (contents : list string) : DoomLoopDetector :=
  foldl (fun d c => (observe hash_writes c d).1) detector_default contents.

(** How often the newest message stands at the front of a list, newest first *)
Fixpoint run_length (newest_first : list Z) : Z :=
  match newest_first with
  | h :: ((h' :: _) as older) => if (h =? h')%Z then 1 + run_length older else 1
  | [_] => 1
  | [] => 0
  end.

Lemma run_length_cons h h' l :
  run_length (h :: h' :: l) = if (h =? h')%Z then (1 + run_length (h' :: l))%Z else 1%Z.
Proof. done. Qed.

Lemma run_length_bounds l : (0 <= run_length l <= Z.of_nat (length l))%Z.
Proof.
  induction l as [|h l IH]; [done|]. destruct l as [|h' l]; [done|]. rewrite run_length_cons.
  case_match; cbn [length] in *; lia.
Qed.

Lemma observed_spec contents : (Z.of_nat (length contents) <= u64_max)%Z ->
  let newest_first := reverse (hash <$> contents) in
  observed contents = mkDetector (head newest_first) (run_length newest_first) DEFAULT_REPEAT_THRESHOLD.
Proof.
  cbn zeta. unfold observed. induction contents as [|c l IH] using rev_ind; [done|].
  rewrite length_app. cbn [length]. intros Hl. rewrite foldl_app. cbn [foldl]. rewrite IH by lia.
  rewrite fmap_app, reverse_app. cbn [fmap list_fmap reverse app]. unfold observe.
  cbn [dl_last_hash dl_repeats dl_repeat_threshold].
  change (reverse [hash c] ++ reverse (hash <$> l)) with (hash c :: reverse (hash <$> l)).
  pose proof (run_length_bounds (reverse (hash <$> l))) as Hb. rewrite length_reverse, length_fmap in Hb.
  destruct (reverse (hash <$> l)) as [|h older] eqn:Hr; [done|]. cbn [head].
  destruct (Z.eqb_spec (hash c) h) as [<-|Hne].
  - rewrite bool_decide_true by done. cbn [fst]. f_equal. rewrite run_length_cons, Z.eqb_refl.
    unfold sat_add. lia.
  - rewrite bool_decide_false by congruence. cbn [fst]. f_equal. rewrite run_length_cons.
    by rewrite (proj2 (Z.eqb_neq _ _)).
Qed.

Lemma run_length_3 l : (3 <= run_length l)%Z <-> exists h rest, l = h :: h :: h :: rest.
Proof.
  split.
  - destruct l as [|a [|b l]]; [cbn; lia..|]. rewrite run_length_cons.
    destruct (Z.eqb_spec a b) as [->|]; [|lia]. destruct l as [|c l]; [cbn; lia|]. rewrite run_length_cons.
    destruct (Z.eqb_spec b c) as [->|]; [|lia]. eauto.
  - intros (h & rest & ->). rewrite !run_length_cons, !Z.eqb_refl. destruct rest as [|h' rest]; [done|].
    rewrite run_length_cons. pose proof (run_length_bounds (h' :: rest)). case_match; lia.
Qed.

(** The detector fires exactly when the last three messages have one hash. *)
Lemma detector_fires contents c : (Z.of_nat (length contents) < u64_max)%Z ->
  (observe hash_writes c (observed contents)).2 = true <->
  exists older a b, contents = older ++ [a; b] /\ hash a = hash c /\ hash b = hash c.
Proof.
  intros Hl. pose proof (observed_spec (contents ++ [c])) as Hs. rewrite length_app in Hs. cbn [length] in Hs.
  specialize (Hs ltac:(lia)). unfold observed in Hs. rewrite foldl_app in Hs. cbn [foldl] in Hs.
  fold (observed contents) in Hs. unfold observe at 1. cbn zeta. cbn [snd].
  assert (Hd : (observe hash_writes c (observed contents)).2
    = (dl_repeat_threshold (observe hash_writes c (observed contents)).1
       <=? dl_repeats (observe hash_writes c (observed contents)).1)%Z) by done.
  unfold observe at 1 in Hd. cbn [snd] in Hd. rewrite Hd, Hs. cbn [dl_repeat_threshold dl_repeats].
  rewrite Z.leb_le. unfold DEFAULT_REPEAT_THRESHOLD. rewrite run_length_3, fmap_app, reverse_app.
  change (reverse (hash <$> [c])) with [hash c]. cbn [app]. split.
  - intros (h & rest & [= <- Hr]). apply (f_equal reverse) in Hr. rewrite reverse_involutive in Hr.
    rewrite !reverse_cons, <-app_assoc in Hr. cbn [app] in Hr.
    apply fmap_app_inv in Hr as (older & last2 & _ & Hlast & ->).
    symmetry in Hlast. apply fmap_cons_inv in Hlast as (a & l1 & Ha & Hlast & ->).
    symmetry in Hlast. apply fmap_cons_inv in Hlast as (b & l2 & Hb & Hnil & ->).
    symmetry in Hnil. apply fmap_nil_inv in Hnil as ->. by exists older, a, b.
  - intros (older & a & b & -> & Ha & Hb). rewrite fmap_app, reverse_app. cbn. rewrite Ha, Hb. by eexists _, _.
Qed.
End detector.

(** ** Repeated calls *)

(** The calls of a turn as the orchestrator keys them *)
Definition call_key (hash_writes : list string -> Z) (json_text : JsonValue -> option string) (call : ToolUseRequest) :
    string * Z :=
  (truncate_tool_name (tu_name call), repeat_key hash_writes json_text (tu_name call) (tu_arguments call)).

(** The last [n] elements *)
Definition newest {A} (n : nat) (l : list A) : list A := drop (length l - n) l.

Lemma newest_snoc {A} n (l : list A) x : 0 < n ->
  newest n (l ++ [x]) = (if (n <=? length (newest n l))%nat then drop 1 (newest n l) else newest n l) ++ [x].
Proof.
  intros Hn. unfold newest. rewrite length_app, length_drop. cbn [length].
  destruct (Nat.leb_spec n (length l - (length l - n))) as [Hle|Hgt].
  - rewrite drop_drop, drop_app_le by lia. do 2 f_equal. lia.
  - rewrite drop_app_le by lia. do 2 f_equal. lia.
Qed.

(** The orchestrator remembers the newest six calls. *)
Lemma push_tool_call_window o name key history : or_repeat_threshold o = 3 ->
  or_recent_tool_calls o = newest 6 history ->
  or_recent_tool_calls (push_tool_call name key o) = newest 6 (history ++ [(truncate_tool_name name, key)]).
Proof.
  intros Ht Hr. unfold push_tool_call. rewrite Ht. cbn [Nat.eqb or_recent_tool_calls Nat.mul Nat.add].
  rewrite newest_snoc by lia. by rewrite Hr.
Qed.

Lemma push_tool_call_rest o name key :
  or_repeat_threshold (push_tool_call name key o) = or_repeat_threshold o
  /\ or_max_tool_rounds (push_tool_call name key o) = or_max_tool_rounds o
  /\ or_tool_rounds (push_tool_call name key o) = or_tool_rounds o.
Proof. unfold push_tool_call. by case_match. Qed.

Lemma same_call_iff name key stored : same_call name key stored = bool_decide (stored = (truncate_tool_name name, key)).
Proof.
  destruct stored as [n k]. unfold same_call. cbn. apply eq_true_iff_eq.
  rewrite andb_true_iff, String.eqb_eq, Z.eqb_eq, bool_decide_eq_true. naive_solver.
Qed.

(** Among the newest six calls, [key] occurs three times. *)
Definition thrice (key : string * Z) (history : list (string * Z)) : bool :=
  (3 <=? length (List.filter (fun k => bool_decide (k = key)) (newest 6 history)))%nat.

Section calls.
Context (hash_writes : list string -> Z) (json_text : JsonValue -> option string).
Abbreviation key := (call_key hash_writes json_text).

(** The orchestrator stops at the first call that is its third among the newest
    six, and at no other. *)
Lemma observe_calls_spec calls : forall o history, or_repeat_threshold o = 3 ->
  or_recent_tool_calls o = newest 6 history ->
  let '(o', control) := observe_calls hash_writes json_text calls o in
  or_max_tool_rounds o' = or_max_tool_rounds o /\ or_tool_rounds o' = or_tool_rounds o
  /\ match control with
     | Continue =>
         or_repeat_threshold o' = 3 /\ or_recent_tool_calls o' = newest 6 (history ++ (key <$> calls))
         /\ forall before call after, calls = before ++ call :: after ->
              thrice (key call) (history ++ (key <$> before) ++ [key call]) = false
     | Stop _ =>
         exists before call after, calls = before ++ call :: after
           /\ thrice (key call) (history ++ (key <$> before) ++ [key call]) = true
           /\ forall before' call' after', before = before' ++ call' :: after' ->
                thrice (key call') (history ++ (key <$> before') ++ [key call']) = false
     end.
Proof.
  induction calls as [|call calls IH]; intros o history Ht Hr; cbn [observe_calls].
  { split; [done|]. split; [done|]. split; [done|]. split; [by rewrite app_nil_r|]. by intros []. }
  set (k := repeat_key hash_writes json_text (tu_name call) (tu_arguments call)).
  set (o1 := push_tool_call (tu_name call) k o).
  destruct (push_tool_call_rest o (tu_name call) k) as (Ht1 & Hm1 & Hn1). fold o1 in Ht1, Hm1, Hn1.
  pose proof (push_tool_call_window o (tu_name call) k history Ht Hr) as Hr1. fold o1 in Hr1.
  assert (Hrep : is_repeat (tu_name call) k o1 = thrice (key call) (history ++ [key call])).
  { unfold is_repeat, thrice. rewrite Ht1, Ht, Hr1. cbn [Nat.eqb]. do 2 f_equal.
    apply List.filter_ext. intros stored. apply same_call_iff. }
  rewrite Hrep. destruct (thrice (key call) (history ++ [key call])) eqn:H3.
  { split; [done|]. split; [done|]. exists [], call, calls. split; [done|]. split; [done|]. by intros []. }
  specialize (IH o1 (history ++ [key call]) ltac:(by rewrite Ht1) Hr1).
  destruct (observe_calls hash_writes json_text calls o1) as [o' control].
  destruct IH as (Hm & Hn & IH). split; [by rewrite Hm|]. split; [by rewrite Hn|].
  assert (Hassoc : forall (l : list ToolUseRequest) x,
    (history ++ [key call]) ++ (key <$> l) ++ [x] = history ++ (key <$> (call :: l)) ++ [x])
    by (intros; by rewrite <-app_assoc).
  destruct control as [|reason].
  - destruct IH as (Ht' & Hr' & Hall). split; [done|]. split; [by rewrite Hr', <-app_assoc|].
    intros [|c before] call' after [= -> Heq]; [done|]. rewrite <-Hassoc. by eapply Hall.
  - destruct IH as (before & call' & after & -> & Hthird & Hall). exists (call :: before), call', after.
    split; [done|]. rewrite <-Hassoc. split; [done|].
    intros [|c before'] call'' after'' [= -> Heq]; [done|]. rewrite <-Hassoc. by eapply Hall.
Qed.
End calls.

(** ** Turns end *)

Section turns.
Context (hash_writes : list string -> Z) (json_text : JsonValue -> option string) (config : AgentTurnConfig).
Context (cancelled : nat -> bool) (complete : nat -> list AgentMessage -> Result AssistantTurn string).
Context (dispatch : nat -> list ToolUseRequest -> list ToolDispatchResult).
Abbreviation round := (turn_round hash_writes json_text config cancelled complete dispatch).
Abbreviation loop := (turn_loop hash_writes json_text config cancelled complete dispatch).

(** The rounds a turn with a ceiling of [n] tool rounds may still have *)
Definition fuel_left (n : nat) (st : TurnLoop) : nat :=
  3 * ((n - or_tool_rounds (tl_orchestrator st)) + (if tl_nudge_sent st then 0 else 1))
  + (MAX_EMPTY_ASSISTANT_TURNS - tl_empty_assistant_turns st).

Definition ceiling (n : nat) (st : TurnLoop) : Prop := or_max_tool_rounds (tl_orchestrator st) = Some n.

Lemma observe_calls_rounds calls : forall o o' control, observe_calls hash_writes json_text calls o = (o', control) ->
  or_max_tool_rounds o' = or_max_tool_rounds o /\ or_tool_rounds o' = or_tool_rounds o.
Proof.
  induction calls as [|call calls IH]; intros o o' control; cbn [observe_calls]; [by intros [= <- <-]|].
  destruct (push_tool_call_rest o (tu_name call) (repeat_key hash_writes json_text (tu_name call) (tu_arguments call)))
    as (_ & Hm & Hn).
  case_match; [intros [= <- <-]; done|]. intros Hc%IH. by rewrite Hm, Hn in Hc.
Qed.

Lemma tool_turn_left n calls st st' : ceiling n st ->
  tool_turn hash_writes json_text config dispatch calls st = inl st' ->
  ceiling n st' /\ tl_nudge_sent st' = tl_nudge_sent st
  /\ tl_empty_assistant_turns st' = tl_empty_assistant_turns st
  /\ or_tool_rounds (tl_orchestrator st') = S (or_tool_rounds (tl_orchestrator st))
  /\ or_tool_rounds (tl_orchestrator st') <= n.
Proof.
  unfold ceiling, tool_turn, observe_tool_calls. intros Hc. cbn [or_max_tool_rounds or_tool_rounds]. rewrite Hc.
  destruct (Nat.ltb_spec n (S (or_tool_rounds (tl_orchestrator st)))) as [|Hle]; [done|].
  destruct (observe_calls _ _ calls _) as [o control] eqn:Ho. apply observe_calls_rounds in Ho as [Hm Hn].
  cbn in Hm, Hn. destruct control; [|done]. intros [= <-]. cbn. rewrite Hm, Hn. done.
Qed.

Lemma text_turn_left st st' : text_turn json_text config st = inl st' ->
  tl_orchestrator st' = tl_orchestrator st /\ tl_nudge_sent st = false /\ tl_nudge_sent st' = true
  /\ tl_empty_assistant_turns st' = tl_empty_assistant_turns st.
Proof.
  unfold text_turn. case_match eqn:Hb; [|done]. intros [= <-]. cbn.
  apply andb_true_iff in Hb as [_ Hn%negb_true_iff]. done.
Qed.

(** A round that does not end the turn uses up some of what is left. *)
Lemma turn_round_left n st st' : ceiling n st -> round st = inl st' ->
  ceiling n st' /\ fuel_left n st' < fuel_left n st.
Proof.
  unfold turn_round. intros Hc. destruct (cancelled _); [done|]. destruct (complete _ _) as [a|e]; [|done].
  set (st0 := _ <| tl_stop_reason := _ |>).
  assert (H0 : tl_orchestrator st0 = tl_orchestrator st /\ tl_nudge_sent st0 = tl_nudge_sent st
    /\ tl_empty_assistant_turns st0 = tl_empty_assistant_turns st) by done.
  revert H0. generalize st0. clear st0. intros st0 (Ho & Hn & He). intros Hr.
  assert (Hempty : forall s, empty_turn json_text config st0 = inl s -> ceiling n s /\ fuel_left n s < fuel_left n st).
  { unfold empty_turn. intros s. destruct (Nat.ltb_spec MAX_EMPTY_ASSISTANT_TURNS
      (tl_empty_assistant_turns (st0 <| tl_empty_assistant_turns := S (tl_empty_assistant_turns st0) |>))) as [|Hle]; [done|].
    intros [= <-]. cbn in Hle. unfold ceiling, fuel_left in *. cbn. rewrite Ho, Hn, He in *.
    split; [done|]. unfold MAX_EMPTY_ASSISTANT_TURNS in *. lia. }
  assert (Hanswer : forall turn s, answered_turn hash_writes json_text config dispatch turn st0 = inl s ->
    ceiling n s /\ fuel_left n s < fuel_left n st).
  { intros turn s. unfold answered_turn, observe_assistant_message.
    destruct (observe hash_writes _ _) as [d repeated]. destruct repeated; [done|].
    set (st1 := match assistant_text turn with Some _ => _ | None => _ end).
    assert (H1 : or_max_tool_rounds (tl_orchestrator st1) = or_max_tool_rounds (tl_orchestrator st)
      /\ or_tool_rounds (tl_orchestrator st1) = or_tool_rounds (tl_orchestrator st)
      /\ tl_nudge_sent st1 = tl_nudge_sent st /\ tl_empty_assistant_turns st1 = 0).
    { unfold st1. rewrite <-Ho, <-Hn. by destruct (assistant_text turn). }
    destruct H1 as (Hm1 & Ht1 & Hn1 & He1). unfold fuel_left. destruct (at_tool_calls turn) as [|call calls].
    - intros (Ho2 & Hn2 & Hn2' & He2)%text_turn_left. unfold ceiling. rewrite Ho2, Hm1, Ht1, Hn2', He2, He1.
      rewrite Hn1 in Hn2. rewrite Hn2. split; [done|]. unfold MAX_EMPTY_ASSISTANT_TURNS. lia.
    - intros (Hc2 & Hn2 & He2 & Ht2 & Hle)%(tool_turn_left n); [|unfold ceiling; by rewrite Hm1].
      split; [done|]. rewrite Hn2, He2, Ht2, He1, Hn1, Ht1 in *. unfold MAX_EMPTY_ASSISTANT_TURNS.
      destruct (tl_nudge_sent st); lia. }
  destruct (assistant_text a) as [text|]; [by eapply Hanswer|].
  destruct (at_tool_calls a) as [|call calls]; [by apply Hempty|by eapply Hanswer].
Qed.

Lemma turn_loop_ends n fuel : forall st, ceiling n st -> fuel_left n st < fuel -> is_Some (loop fuel st).
Proof.
  induction fuel as [|fuel IH]; intros st Hc Hl; [lia|]. cbn [turn_loop].
  destruct (round st) as [st'|r] eqn:Hr; [|by eexists].
  destruct (turn_round_left n st st' Hc Hr) as [Hc' Hlt]. apply IH; [done|lia].
Qed.

Lemma turn_loop_more fuel : forall st r more, loop fuel st = Some r -> loop (fuel + more) st = Some r.
Proof.
  induction fuel as [|fuel IH]; intros st r more; [done|]. cbn [turn_loop Nat.add].
  destruct (round st); [apply IH|done].
Qed.
End turns.

(** C19: A turn with a ceiling on its tool rounds always ends: whatever the model
    answers, whatever the tools return and whenever it is cancelled, at most
    [3 * n + 6] rounds pass before the turn returns an outcome or an error, and
    running the loop for longer changes nothing. *)
Theorem turn_terminates (hash_writes : list string -> Z) (json_text : JsonValue -> option string)
    (config : AgentTurnConfig) (cancelled : nat -> bool)
    (complete : nat -> list AgentMessage -> Result AssistantTurn string)
    (dispatch : nat -> list ToolUseRequest -> list ToolDispatchResult)
    (messages : list AgentMessage) (n : nat) :
  cf_max_tool_rounds config = Some n -> 0 < n ->
  exists r, forall more,
    run_turn hash_writes json_text config cancelled complete dispatch (3 * n + 6 + more) messages = Some r.
Proof.
  intros Hn Hpos. unfold run_turn.
  destruct (turn_loop_ends hash_writes json_text config cancelled complete dispatch n (3 * n + 6)
    (turn_start config messages)) as [r Hr].
  - unfold ceiling, turn_start, with_max_tool_rounds.
    cbn [tl_orchestrator begin_turn or_max_tool_rounds]. rewrite Hn. cbn [mbind option_bind].
    by rewrite (proj2 (Nat.ltb_lt _ _) Hpos).
  - unfold fuel_left, turn_start. cbn. lia.
  - exists r. intros more. by apply turn_loop_more.
Qed.

(** C20: The model is only asked about histories in which every call of a tool is
    followed by its results: two models that agree on those give the same turn,
    however they answer anything else. *)
Theorem model_sees_paired_history (hash_writes : list string -> Z) (json_text : JsonValue -> option string)
    (config : AgentTurnConfig) (cancelled : nat -> bool)
    (complete complete' : nat -> list AgentMessage -> Result AssistantTurn string)
    (dispatch : nat -> list ToolUseRequest -> list ToolDispatchResult) (fuel : nat) (messages : list AgentMessage) :
  (forall k history, paired history -> complete k history = complete' k history) ->
  run_turn hash_writes json_text config cancelled complete dispatch fuel messages
  = run_turn hash_writes json_text config cancelled complete' dispatch fuel messages.
Proof.
  intros Hagree. unfold run_turn. generalize (turn_start config messages).
  induction fuel as [|fuel IH]; intros st; [done|]. cbn [turn_loop].
  assert (Hround : turn_round hash_writes json_text config cancelled complete dispatch st
                   = turn_round hash_writes json_text config cancelled complete' dispatch st).
  { unfold turn_round. case_match; [done|]. rewrite Hagree; [done|]. apply sanitize_loop_paired. }
  rewrite Hround. destruct (turn_round _ _ _ _ complete' _ st); [apply IH|done].
Qed.

(** ** Witnesses *)

Definition sum_hash (l : list string) : Z := Z.of_nat (String.length (of_chars l)).
Definition example_config : AgentTurnConfig := mkTurnConfig 50 None (Some 2) true.

(** A model that calls a new tool in every round *)
Definition busy_model (round : nat) (_ : list AgentMessage) : Result AssistantTurn string :=
  let call := mkToolUse "c" (of_chars (replicate round "x")) JNull in
  Ok (mkAssistantTurn None [call] (assistant_message None [call]) None None).

Definition echo_tools (_ : nat) (calls : list ToolUseRequest) : list ToolDispatchResult :=
  (fun call => mkDispatchResult (tu_id call) "ok" false) <$> calls.

Lemma turn_terminates_witness :
  exists r, run_turn sum_hash (fun _ => None) example_config (fun _ => false) busy_model echo_tools 12
              [user_message "go"] = Some r.
Proof.
  destruct (turn_terminates sum_hash (fun _ => None) example_config (fun _ => false) busy_model echo_tools
    [user_message "go"] 2) as [r Hr]; [reflexivity|lia|].
  exists r. exact (Hr 0).
Defined.

(** The ceiling is what ends that turn. *)
Lemma busy_turn_stopped :
  (er_message <$> match run_turn sum_hash (fun _ => None) example_config (fun _ => false) busy_model echo_tools 12
              [user_message "go"] with Some (Err e) => Some e | _ => None end)
  = Some "native-agent reached the maximum of 2 tool-call rounds in one turn; stopping to avoid an unbounded tool loop".
Proof. vm_compute. reflexivity. Qed.

(** A model that refuses histories that start with a tool result *)
Definition strict_model (round : nat) (history : list AgentMessage) : Result AssistantTurn string :=
  match history with
  | m :: _ => if is_role AgentRole.Tool m then Err "status 400" else busy_model round history
  | [] => busy_model round history
  end.

Lemma model_sees_paired_history_witness :
  run_turn sum_hash (fun _ => None) example_config (fun _ => false) strict_model echo_tools 12
    [tool_result "lost" "x" false; user_message "go"]
  = run_turn sum_hash (fun _ => None) example_config (fun _ => false) busy_model echo_tools 12
    [tool_result "lost" "x" false; user_message "go"].
Proof.
  apply (model_sees_paired_history sum_hash (fun _ => None) example_config (fun _ => false) strict_model busy_model
    echo_tools 12 [tool_result "lost" "x" false; user_message "go"]).
  intros k history Hp. unfold strict_model. destruct Hp as [|m l Hm _|m rs l Hm _ _ _]; [reflexivity| |].
  - unfold is_role. destruct (am_role m) eqn:Hr; try reflexivity. unfold is_plain_message in Hm. rewrite Hr in Hm.
    discriminate Hm.
  - cbn. unfold is_role. rewrite Hm. reflexivity.
Defined.
