(* ===== verification/Streaming.v ===== *)
(** * Streaming answers of a model (brehon-native-agent/src/provider.rs)

    The answer of an OpenAI-compatible provider comes as server-sent events in
    network chunks of any size.  Chunks are decoded, cut into events, and each
    event is added to the assistant's turn.  Parsing of JSON
    ([serde_json::from_str]) is a parameter; the connection is the list of its
    chunks.  Proved here: the turn does not depend on how the text is cut into
    chunks, as long as no chunk ends inside a character and lines end in line
    feeds; that both conditions are needed; that recovery from failures is
    bounded; and that a request always asks for a stream. *)

From Stdlib Require Import Ascii.
From S2P Require Import Prelude StrLib Chars Terminal Feedback ShellCommand Permissions NativeTools CodingTools Messages ToolDispatch AgentLoop.

(** ** Errors *)

Inductive ProviderError :=
| MissingBaseUrl
| MissingApiKey (name : string)
| InvalidHeader (name : string)
| Http (message : string)
| RequestError (message : string)
| ProviderCancelled.

Definition provider_error_to_string (e : ProviderError) : string :=
  match e with
  | MissingBaseUrl => "missing base_url for OpenAI-compatible provider"
  | MissingApiKey name => "missing API key in environment variable " +:+ name
  | InvalidHeader name => "invalid HTTP header " +:+ name
  | Http message => "HTTP error: " +:+ message
  | RequestError message => "request failed: " +:+ message
  | ProviderCancelled => "cancelled"
  end.

(** [code.parse::<u16>()] *)
Definition request_status_code (message : string) : option Z :=
  strip_prefix "status " message ≫= fun rest =>
  head (split_whitespace rest) ≫= parse_unsigned 65535.

Definition is_retryable_status (status : Z) : bool :=
  existsb (Z.eqb status) [408; 409; 425; 429]%Z || (500 <=? status)%Z && (status <=? 599)%Z.

Definition provider_is_retryable (e : ProviderError) : bool :=
  match e with
  | Http _ => true
  | RequestError message =>
      match request_status_code message with
      | Some status => is_retryable_status status
      | None =>
          starts_with "invalid streaming chat completion chunk:" message
          || starts_with "streaming chat completion error:" message
          || starts_with "streamed tool call " message
          || starts_with "invalid tool arguments JSON:" message
      end
  | _ => false
  end.

Definition provider_category (e : ProviderError) : string :=
  match e with
  | Http _ => "transport"
  | RequestError message =>
      match request_status_code message with
      | Some status => if is_retryable_status status then "retryable_http_status" else "non_retryable_http_status"
      | None => if provider_is_retryable e then "provider_output" else "request"
      end
  | ProviderCancelled => "cancelled"
  | _ => "configuration"
  end.

(** ** Recovery (runner.rs) *)

Inductive ModelCallFailure :=
| ProviderFailure (e : ProviderError)
| IdleTimeout (message : string)
| CallCancelled (message : string).

Definition failure_is_retryable (f : ModelCallFailure) : bool :=
  match f with
  | ProviderFailure e => provider_is_retryable e
  | IdleTimeout _ => true
  | CallCancelled _ => false
  end.

Definition failure_reason (f : ModelCallFailure) : string :=
  match f with
  | ProviderFailure e => provider_category e
  | IdleTimeout _ => "stream_idle_timeout"
  | CallCancelled _ => "cancelled"
  end.

Definition failure_to_message (f : ModelCallFailure) : string :=
  match f with
  | ProviderFailure e => provider_error_to_string e
  | IdleTimeout message | CallCancelled message => message
  end.

Definition PROVIDER_RECOVERY_RETRIES : nat := 6.

(** Delays in seconds *)
Definition provider_retry_delay (failed_attempt : nat) : Z :=
  Z.min (2 * 2 ^ Z.of_nat (min (failed_attempt - 1) 10)) 60.

(** [complete_with_recovery]: the calls by number from 1, and whether the pause
    after a failure is cancelled; the result and the delays.  The recursion is
    over the retries left. *)
Fixpoint recover {A} (call : nat -> Result A ModelCallFailure) (cancelled_in_pause : nat -> bool)
    (retries failed : nat) : Result A ModelCallFailure * list Z :=
  match call (S failed) with
  | Ok a => (Ok a, [])
  | Err f =>
      match retries with
      | S retries =>
          if failure_is_retryable f then
            let delay := provider_retry_delay (S failed) in
            if cancelled_in_pause (S failed)
            then (Err (CallCancelled "model recovery cancelled during native-agent turn"), [delay])
            else let '(r, delays) := recover call cancelled_in_pause retries (S failed) in (r, delay :: delays)
          else (Err f, [])
      | O => (Err f, [])
      end
  end.

Definition complete_with_recovery {A} (call : nat -> Result A ModelCallFailure) (cancelled_in_pause : nat -> bool) :
    Result A ModelCallFailure * list Z :=
  recover call cancelled_in_pause PROVIDER_RECOVERY_RETRIES 0.

(** ** The request *)

Record ProviderRequest := mkRequest {
  rq_model : string;
  rq_reasoning_effort : option string;
  rq_reasoning_effort_param : option string;
  rq_messages : list AgentMessage;
  rq_tools : list JsonValue;
  rq_extra_body : option JsonValue
}.

Definition fail {A} (message : string) : Result A ProviderError := Err (RequestError message).

(** The segments before the leaf are walked, and created where they are missing;
    [full] is the whole path, for the messages. *)
Fixpoint set_segments (full : string) (segments : list string) (value current : JsonValue) :
    Result JsonValue ProviderError :=
  match segments with
  | [] => fail "reasoning effort request path is empty"
  | [leaf] =>
      match current with
      | JObject fields => Ok (JObject (insert_field leaf value fields))
      | _ => fail ("cannot set request field '" +:+ full +:+ "' on non-object parent")
      end
  | segment :: segments =>
      match current with
      | JObject fields =>
          let? child := set_segments full segments value (default (JObject []) (field_of segment fields)) in
          Ok (JObject (insert_field segment child fields))
      | _ => fail ("cannot set nested request field '" +:+ full +:+ "' through non-object segment '" +:+ segment +:+ "'")
      end
  end.

Definition path_segments (path : string) : list string :=
  List.filter (fun segment => negb (String.eqb segment "")) (trim <$> split_on "."%char path).

Definition set_body_path (body : JsonValue) (path : string) (value : JsonValue) : Result JsonValue ProviderError :=
  set_segments path (path_segments path) value body.

Definition not_blank (s : option string) : option string :=
  s ≫= fun s => if String.eqb (trim s) "" then None else Some s.

Section request.
Context (json_text : JsonValue -> option string).

Definition base_body (request : ProviderRequest) : list (string * JsonValue) :=
  let body := [("model", JString (rq_model request));
               ("messages", JArray (to_openai_json json_text <$> rq_messages request))] in
  match rq_tools request with [] => body | tools => insert_field "tools" (JArray tools) body end.

Definition with_extra_body (extra : option JsonValue) (body : list (string * JsonValue)) :
    Result (list (string * JsonValue)) ProviderError :=
  match extra with
  | None => Ok body
  | Some (JObject fields) => Ok (foldl (fun body f => insert_field f.1 f.2 body) body fields)
  | Some _ => fail "--extra-body-json must decode to a JSON object"
  end.

(** [body["stream_options"]] where it is missing, and [body["stream"]] *)
Definition streamed (body : JsonValue) : JsonValue :=
  match body with
  | JObject fields =>
      let fields := match field_of "stream_options" fields with
                    | None => insert_field "stream_options" (JObject [("include_usage", JBool true)]) fields
                    | Some _ => fields
                    end in
      JObject (insert_field "stream" (JBool true) fields)
  | body => body
  end.

Definition build_chat_completion_body (request : ProviderRequest) : Result JsonValue ProviderError :=
  let? body := with_extra_body (rq_extra_body request) (base_body request) in
  let? body :=
    match not_blank (rq_reasoning_effort request), not_blank (rq_reasoning_effort_param request) with
    | Some effort, Some path => set_body_path (JObject body) path (JString effort)
    | _, _ => Ok (JObject body)
    end in
  Ok (streamed body).
End request.

(** ** Text of a chunk: [String::from_utf8_lossy]

    An ill-formed sequence becomes one U+FFFD, and decoding goes on at the byte
    that did not fit.  [pending] is a sequence under way and [need] the ranges
    of the bytes it needs. *)

Definition REPLACEMENT : string := utf8 [239; 191; 189].

Definition continuation_ranges (lead : N) : option (list (N * N)) :=
  if (lead <? 128)%N then Some []
  else if (194 <=? lead)%N && (lead <=? 223)%N then Some [(128, 191)%N]
  else if (lead =? 224)%N then Some [(160, 191); (128, 191)]%N
  else if (lead =? 237)%N then Some [(128, 159); (128, 191)]%N
  else if (225 <=? lead)%N && (lead <=? 239)%N then Some [(128, 191); (128, 191)]%N
  else if (lead =? 240)%N then Some [(144, 191); (128, 191); (128, 191)]%N
  else if (241 <=? lead)%N && (lead <=? 243)%N then Some [(128, 191); (128, 191); (128, 191)]%N
  else if (lead =? 244)%N then Some [(128, 143); (128, 191); (128, 191)]%N
  else None.

Fixpoint lossy (pending : string) (need : list (N * N)) (s : string) : string :=
  match s with
  | EmptyString => match need with [] => "" | _ => REPLACEMENT end
  | String c s =>
      let start := match continuation_ranges (N_of_ascii c) with
                   | None => REPLACEMENT +:+ lossy "" [] s
                   | Some [] => String c (lossy "" [] s)
                   | Some need => lossy (String c "") need s
                   end in
      match need with
      | [] => start
      | (lo, hi) :: need =>
          if (lo <=? N_of_ascii c)%N && (N_of_ascii c <=? hi)%N then
            match need with
            | [] => pending +:+ String c (lossy "" [] s)
            | _ => lossy (pending +:+ String c "") need s
            end
          else REPLACEMENT +:+ start
      end
  end.

Definition from_utf8_lossy (bytes : string) : string := lossy "" [] bytes.

(** [text.replace("\r\n", "\n").replace('\r', "\n")] *)
Definition unify_newlines (text : string) : string :=
  replace_char (ascii_of_nat 13) NL (str_replace (CR +:+ NL) NL text).

(** ** Server-sent events *)

Definition take_sse_event (buffer : string) : option (string * string) := split_once_str (NL +:+ NL) buffer.

Definition parse_sse_data (event : string) : option string :=
  match omap (fun line => (fun rest => default rest (strip_prefix " " rest)) <$> strip_prefix "data:" line)
          (str_lines event) with
  | [] => None
  | data => Some (join NL data)
  end.

(** ** The turn under way *)

Record StreamingToolCall := mkStreamingCall { st_id : option string; st_name : string; st_arguments : string }.
Definition empty_call : StreamingToolCall := mkStreamingCall None "" "".

(** The calls in a [BTreeMap] by index: in order of the index *)
Record StreamingAssistantTurn := mkStreaming {
  sm_content : string;
  sm_tool_calls : list (nat * StreamingToolCall);
  sm_extension_fields : list (string * JsonValue);
  sm_tokens_used : option Z;
  sm_stop_reason : option string
}.
#[export] Instance Streaming_eta : Eta StreamingAssistantTurn := fun s =>
  mkStreaming (sm_content s) (sm_tool_calls s) (sm_extension_fields s) (sm_tokens_used s) (sm_stop_reason s).

Definition streaming_default : StreamingAssistantTurn := mkStreaming "" [] [] None None.

Definition non_empty (s : option string) : option string :=
  s ≫= fun s => if String.eqb s "" then None else Some s.

(** [tool_calls.entry(index).or_default()], updated with [f] *)
Fixpoint update_call (index : nat) (f : StreamingToolCall -> StreamingToolCall)
    (calls : list (nat * StreamingToolCall)) : list (nat * StreamingToolCall) :=
  match calls with
  | [] => [(index, f empty_call)]
  | (i, call) :: rest =>
      if (index <? i)%nat then (index, f empty_call) :: calls
      else if (index =? i)%nat then (i, f call) :: rest
      else (i, call) :: update_call index f rest
  end.

Definition append_streaming_tool_call (index : nat) (call : JsonValue) (calls : list (nat * StreamingToolCall)) :
    list (nat * StreamingToolCall) :=
  let function := default call (json_get "function" call) in
  update_call index (fun entry =>
    mkStreamingCall
      (match non_empty (get_str call "id") with Some id => Some id | None => st_id entry end)
      (st_name entry +:+ default "" (non_empty (get_str function "name")))
      (st_arguments entry +:+ default "" (get_str function "arguments"))) calls.

Definition append_assistant_extension_field (field : string) (value : JsonValue)
    (fields : list (string * JsonValue)) : list (string * JsonValue) :=
  match json_as_str value with
  | Some text =>
      if String.eqb text "" then fields
      else match field_of field fields with
           | Some (JString existing) => insert_field field (JString (existing +:+ text)) fields
           | _ => insert_field field (JString text) fields
           end
  | None => insert_field field value fields
  end.

Definition usage_token_field (usage : JsonValue) (names : list string) : option Z :=
  find_map (optional_u64 usage) names.

Definition parse_usage_tokens (usage : JsonValue) : option Z :=
  match usage_token_field usage ["total_tokens"; "totalTokens"; "tokens_used"; "tokensUsed"; "total"] with
  | Some n => Some n
  | None =>
      let input := usage_token_field usage ["prompt_tokens"; "promptTokens"; "input_tokens"; "inputTokens"] in
      let output := usage_token_field usage ["completion_tokens"; "completionTokens"; "output_tokens"; "outputTokens"] in
      match input, output with
      | Some input, Some output => Some (sat_add u64_max input output)
      | Some n, None | None, Some n => Some n
      | None, None => None
      end
  end.

Definition json_as_array (v : JsonValue) : option (list JsonValue) :=
  match v with JArray l => Some l | _ => None end.

Definition parse_message_content (content : option JsonValue) : option string :=
  content ≫= fun content =>
  match json_as_str content with
  | Some text => Some text
  | None =>
      (fun parts => of_chars (omap (fun part =>
         match get_str part "text" with
         | Some text => Some text
         | None => json_get "text" part ≫= fun text => get_str text "value"
         end) parts)) <$> json_as_array content
  end.

Definition not_null (v : option JsonValue) : option JsonValue :=
  v ≫= fun v => match v with JNull => None | _ => Some v end.

Section streaming.
Context (json_text : JsonValue -> option string) (from_str : string -> Result JsonValue string).
Context (passthrough : list string).

Definition parse_tool_arguments (value : option JsonValue) : Result JsonValue ProviderError :=
  match value with
  | None => Ok (JObject [])
  | Some (JString raw) =>
      result_map_err (fun err => RequestError ("invalid tool arguments JSON: " +:+ err)) (from_str raw)
  | Some value => Ok value
  end.

(** The passthrough fields of a delta *)
Definition apply_extension_fields (delta : JsonValue) (fields : list (string * JsonValue)) :
    list (string * JsonValue) :=
  foldl (fun fields field =>
    let field := trim field in
    if String.eqb field "" || is_one_of ["role"; "content"; "tool_calls"] field then fields
    else match not_null (json_get field delta) with
         | Some value => append_assistant_extension_field field value fields
         | None => fields
         end) fields passthrough.

Definition apply_tool_calls (delta : JsonValue) (calls : list (nat * StreamingToolCall)) :
    list (nat * StreamingToolCall) :=
  let calls :=
    match json_get "tool_calls" delta ≫= json_as_array with
    | Some l =>
        foldl (fun calls p =>
          let '(fallback_index, call) := p in
          append_streaming_tool_call (default fallback_index (Z.to_nat <$> optional_u64 call "index")) call calls)
          calls (imap pair l)
    | None => calls
    end in
  match json_get "function_call" delta with
  | Some (JObject fields) => append_streaming_tool_call 0 (JObject fields) calls
  | _ => calls
  end.

Definition apply_choice (acc : StreamingAssistantTurn) (choice : JsonValue) : StreamingAssistantTurn :=
  let acc := match non_empty (get_str choice "finish_reason") with
             | Some reason => acc <| sm_stop_reason := Some reason |>
             | None => acc
             end in
  match json_get "delta" choice with
  | None => acc
  | Some delta =>
      acc <| sm_content := sm_content acc +:+ default "" (parse_message_content (json_get "content" delta)) |>
          <| sm_extension_fields := apply_extension_fields delta (sm_extension_fields acc) |>
          <| sm_tool_calls := apply_tool_calls delta (sm_tool_calls acc) |>
  end.

Definition compact_json (value : JsonValue) : string := default "" (json_text value).

Definition apply_streaming_chat_completion_chunk (acc : StreamingAssistantTurn) (data : string) :
    Result StreamingAssistantTurn ProviderError :=
  match from_str data with
  | Err err =>
      Err (RequestError ("invalid streaming chat completion chunk: " +:+ err +:+ ": "
             +:+ of_chars (take 240 (chars data))))
  | Ok value =>
      match not_null (json_get "error" value) with
      | Some error => Err (RequestError ("streaming chat completion error: " +:+ compact_json error))
      | None =>
          let acc := match json_get "usage" value ≫= parse_usage_tokens with
                     | Some tokens => acc <| sm_tokens_used := Some tokens |>
                     | None => acc
                     end in
          Ok (match json_get "choices" value ≫= json_as_array with
              | Some choices => foldl apply_choice acc choices
              | None => acc
              end)
      end
  end.

Definition finish_call (p : nat * StreamingToolCall) : Result ToolUseRequest ProviderError :=
  let '(index, call) := p in
  let name := trim (st_name call) in
  if String.eqb name "" then Err (RequestError ("streamed tool call " +:+ pretty index +:+ " missing function name"))
  else
    let id := default ("tool-call-" +:+ pretty index) (st_id call) in
    let? arguments := if String.eqb (trim (st_arguments call)) "" then Ok (JObject [])
                      else parse_tool_arguments (Some (JString (st_arguments call))) in
    Ok (mkToolUse id name arguments).

Definition finish_streaming_turn (acc : StreamingAssistantTurn) : Result AssistantTurn ProviderError :=
  let content := if String.eqb (sm_content acc) "" then None else Some (sm_content acc) in
  let? calls := result_mapM finish_call (sm_tool_calls acc) in
  Ok (mkAssistantTurn content calls
        (assistant_with_extension_fields content calls (sm_extension_fields acc))
        (sm_tokens_used acc) (sm_stop_reason acc)).

(** What an event does to the turn; [inr] ends the stream. *)
Definition apply_event (acc : StreamingAssistantTurn) (event : string) :
    StreamingAssistantTurn + Result AssistantTurn ProviderError :=
  match parse_sse_data event with
  | None => inl acc
  | Some data =>
      if String.eqb (trim data) "[DONE]" then inr (finish_streaming_turn acc)
      else match apply_streaming_chat_completion_chunk acc data with
           | Ok acc => inl acc
           | Err e => inr (Err e)
           end
  end.

(** The loop [while let Some(event) = take_sse_event(&mut buffer)]: each event is
    at least two bytes, so that the length of the buffer is fuel enough. *)
Fixpoint drain (fuel : nat) (acc : StreamingAssistantTurn) (buffer : string) :
    (StreamingAssistantTurn * string) + Result AssistantTurn ProviderError :=
  match fuel, take_sse_event buffer with
  | S fuel, Some (event, rest) =>
      match apply_event acc event with
      | inl acc => drain fuel acc rest
      | inr r => inr r
      end
  | _, _ => inl (acc, buffer)
  end.

(** A chunk of the connection: bytes, an error, or the cancellation of the call *)
Inductive Chunk := Bytes (bytes : string) | Broken (message : string) | CancelledHere.

Fixpoint read_stream (acc : StreamingAssistantTurn) (buffer : string) (chunks : list Chunk) :
    Result AssistantTurn ProviderError :=
  match chunks with
  | [] =>
      match parse_sse_data buffer with
      | Some data =>
          if String.eqb (trim data) "[DONE]" then finish_streaming_turn acc
          else let? acc := apply_streaming_chat_completion_chunk acc data in finish_streaming_turn acc
      | None => finish_streaming_turn acc
      end
  | CancelledHere :: _ => Err ProviderCancelled
  | Broken message :: _ => Err (Http message)
  | Bytes bytes :: chunks =>
      let buffer := buffer +:+ unify_newlines (from_utf8_lossy bytes) in
      match drain (String.length buffer) acc buffer with
      | inl (acc, buffer) => read_stream acc buffer chunks
      | inr r => r
      end
  end.

Definition parse_streaming_chat_completion_response (chunks : list Chunk) : Result AssistantTurn ProviderError :=
  read_stream streaming_default "" chunks.
End streaming.

(** ** Whole characters

    [std::str::from_utf8(bytes).is_ok()]; [need] as in [lossy]. *)
Fixpoint well_formed (need : list (N * N)) (s : string) : bool :=
  match s with
  | EmptyString => match need with [] => true | _ => false end
  | String c s =>
      match need with
      | [] => match continuation_ranges (N_of_ascii c) with
              | None => false
              | Some need => well_formed need s
              end
      | (lo, hi) :: need =>
          (lo <=? N_of_ascii c)%N && (N_of_ascii c <=? hi)%N && well_formed need s
      end
  end.

(** A chunk that ends at the end of a character and has no carriage return *)
Definition whole (chunk : string) : bool := well_formed [] chunk && negb (occurs (ascii_of_nat 13) chunk).

Lemma lossy_app b : forall a pending need, (need = [] -> pending = "") -> well_formed need a = true ->
  lossy pending need (a +:+ b) = pending +:+ a +:+ lossy "" [] b.
Proof.
  induction a as [|c a IH]; intros pending need Hp Hw; cbn [well_formed] in Hw.
  - destruct need; [|done]. by rewrite (Hp eq_refl).
  - rewrite append_cons. cbn [lossy]. destruct need as [|[lo hi] need].
    + rewrite (Hp eq_refl). destruct (continuation_ranges _) as [need|]; [|done].
      destruct need; rewrite IH by done; done.
    + apply andb_true_iff in Hw as [-> Hw].
      destruct need as [|r need]; rewrite IH by done; by rewrite ?append_assoc.
Qed.

Lemma well_formed_app b : forall a need, well_formed need a = true ->
  well_formed need (a +:+ b) = well_formed [] b.
Proof.
  induction a as [|c a IH]; intros need Hw; cbn [well_formed] in Hw; [by destruct need|].
  rewrite append_cons. cbn [well_formed]. destruct need as [|[lo hi] need].
  - destruct (continuation_ranges _); [|done]. by apply IH.
  - apply andb_true_iff in Hw as [-> Hw]. by apply IH.
Qed.

Lemma from_utf8_lossy_id s : well_formed [] s = true -> from_utf8_lossy s = s.
Proof.
  intros Hw. unfold from_utf8_lossy. rewrite <-(append_nil_r s) at 1.
  rewrite lossy_app by done. cbn. apply append_nil_r.
Qed.

Lemma replace_char_id c by_ s : occurs c s = false -> replace_char c by_ s = s.
Proof.
  induction s as [|d s IH]; [done|]. cbn [occurs replace_char].
  intros [-> Hs]%orb_false_iff. by rewrite IH.
Qed.

Lemma unify_newlines_id s : occurs (ascii_of_nat 13) s = false -> unify_newlines s = s.
Proof.
  intros Hs. unfold unify_newlines, str_replace, pieces.
  assert (Hp : pieces_between (String.length s) (CR +:+ NL) s = [s]).
  { destruct (String.length s); [done|]. cbn [pieces_between].
    destruct (split_once_str (CR +:+ NL) s) as [[x y]|] eqn:Hsp; [|done].
    apply split_once_str_Some in Hsp as ->. rewrite !occurs_app in Hs. cbn in Hs.
    by rewrite orb_true_r in Hs. }
  rewrite Hp. by apply replace_char_id.
Qed.

Lemma whole_text chunk : whole chunk = true -> unify_newlines (from_utf8_lossy chunk) = chunk.
Proof.
  intros [Hw Hcr%negb_true_iff]%andb_true_iff. rewrite from_utf8_lossy_id by done. by apply unify_newlines_id.
Qed.

Lemma whole_of_chars cs : forallb whole cs = true -> whole (of_chars cs) = true.
Proof.
  induction cs as [|c cs IH]; [done|]. cbn [forallb]. intros [Hc Hcs]%andb_true_iff.
  specialize (IH Hcs). unfold whole in *. cbn [of_chars foldr]. fold (of_chars cs).
  apply andb_true_iff in Hc as [Hw Hr%negb_true_iff]. by rewrite well_formed_app, occurs_app, Hr by done.
Qed.

(** ** Events across chunks *)

Lemma strip_prefix_app_None needle : forall s b, strip_prefix needle s = None ->
  String.length needle <= String.length s -> strip_prefix needle (s +:+ b) = None.
Proof.
  induction needle as [|c needle IH]; intros s b Hn Hl; [by destruct s|].
  destruct s as [|d s]; [cbn in Hl; lia|]. rewrite append_cons. cbn in *.
  destruct (Ascii.eqb c d); [|done]. apply IH; [done|lia].
Qed.

(** Text that comes later does not change the first event. *)
Lemma split_once_str_app needle b : forall s before after,
  split_once_str needle s = Some (before, after) ->
  split_once_str needle (s +:+ b) = Some (before, after +:+ b).
Proof.
  induction s as [|c s IH]; intros before after Hs; pose proof Hs as Heq;
    apply split_once_str_Some in Heq; cbn [split_once_str] in Hs.
  - destruct needle; [|done]. injection Hs as <- <-. by destruct b.
  - destruct (strip_prefix needle (String c s)) as [rest|] eqn:Hp.
    + injection Hs as <- <-. apply strip_prefix_Some in Hp. rewrite Hp, append_assoc.
      destruct needle as [|d needle]; [by destruct rest, b|].
      rewrite append_cons. cbn [split_once_str]. rewrite <-append_cons, strip_prefix_app. done.
    + destruct (split_once_str needle s) as [[x y]|] eqn:Hsp; [|done]. injection Hs as <- <-.
      rewrite append_cons. cbn [split_once_str]. rewrite <-append_cons.
      rewrite strip_prefix_app_None, (IH x y) by (try done; apply split_once_str_Some in Hsp; subst s;
        cbn; rewrite !length_append; lia). done.
Qed.

Section chunking.
Context (json_text : JsonValue -> option string) (from_str : string -> Result JsonValue string).
Context (passthrough : list string).
Abbreviation drain := (drain json_text from_str passthrough).
Abbreviation read_stream := (read_stream json_text from_str passthrough).

Lemma drain_fuel : forall n m acc buffer, String.length buffer <= n -> String.length buffer <= m ->
  drain n acc buffer = drain m acc buffer.
Proof.
  induction n as [|n IH]; intros m acc buffer Hn Hm.
  - destruct buffer; [|cbn in Hn; lia]. by destruct m.
  - destruct m as [|m]; [destruct buffer; [done|cbn in Hm; lia]|]. cbn [Streaming.drain].
    destruct (take_sse_event buffer) as [[event rest]|] eqn:He; [|done].
    assert (String.length rest < String.length buffer) by by eapply split_once_shorter; [|exact He].
    destruct (apply_event _ _ _ _ _); [|done]. apply IH; lia.
Qed.

(** The fuel is enough: what is left holds no event. *)
Lemma drain_complete : forall n acc buffer acc' rest, String.length buffer <= n ->
  drain n acc buffer = inl (acc', rest) -> take_sse_event rest = None.
Proof.
  induction n as [|n IH]; intros acc buffer acc' rest Hn; cbn [Streaming.drain].
  - destruct buffer; [|cbn in Hn; lia]. by intros [= <- <-].
  - destruct (take_sse_event buffer) as [[event r]|] eqn:He; [|by intros [= <- <-]].
    assert (String.length r < String.length buffer) by by eapply split_once_shorter; [|exact He].
    destruct (apply_event _ _ _ _ _); [|done]. apply IH. lia.
Qed.

(** Draining, then reading more, is reading more, then draining. *)
Lemma drain_app text : forall n acc buffer, String.length buffer <= n ->
  drain (String.length (buffer +:+ text)) acc (buffer +:+ text) =
  match drain n acc buffer with
  | inl (acc', rest) => drain (String.length (rest +:+ text)) acc' (rest +:+ text)
  | inr r => inr r
  end.
Proof.
  induction n as [|n IH]; intros acc buffer Hn; [by destruct buffer; [|cbn in Hn; lia]|].
  cbn [Streaming.drain]. destruct (take_sse_event buffer) as [[event rest]|] eqn:He; [|done].
  assert (Hlt : String.length rest < String.length buffer) by by eapply split_once_shorter; [|exact He].
  rewrite (drain_fuel _ (S (String.length (buffer +:+ text)))) by lia. cbn [Streaming.drain].
  unfold take_sse_event at 1. rewrite (split_once_str_app _ text _ _ _ He).
  destruct (apply_event _ _ _ _ _) as [acc'|r]; [|done]. rewrite <-IH by lia.
  apply drain_fuel; rewrite ?length_append; lia.
Qed.

Lemma read_stream_chunks tail : forall cs acc buffer, forallb whole cs = true -> take_sse_event buffer = None ->
  read_stream acc buffer (map Bytes cs ++ tail) = read_stream acc buffer (Bytes (of_chars cs) :: tail).
Proof.
  induction cs as [|c cs IH]; intros acc buffer Hcs Hb.
  - cbn [map app of_chars foldr Streaming.read_stream]. change (unify_newlines (from_utf8_lossy "")) with "".
    rewrite append_nil_r. destruct (String.length buffer); cbn [Streaming.drain]; by rewrite ?Hb.
  - pose proof (whole_text _ (whole_of_chars _ Hcs)) as Hall.
    cbn [forallb] in Hcs. apply andb_true_iff in Hcs as [Hc Hcs].
    cbn [map app Streaming.read_stream] in *. rewrite (whole_text c), Hall by done.
    change (of_chars (c :: cs)) with (c +:+ of_chars cs).
    rewrite <-append_assoc, (drain_app (of_chars cs) (String.length (buffer +:+ c))) by lia.
    destruct (drain (String.length (buffer +:+ c)) acc _) as [[acc' rest]|r] eqn:Hd; [|done].
    apply drain_complete in Hd; [|lia]. rewrite IH by done. cbn [Streaming.read_stream].
    by rewrite (whole_text (of_chars cs)) by by apply whole_of_chars.
Qed.

End chunking.

(** C21: How the network cuts an answer into chunks does not matter: chunks that
    each end at the end of a character and hold no carriage return give the same
    turn, or the same error, as the one chunk that joins them, whatever comes
    after them on the connection (more chunks, an error, a cancellation). *)
Theorem chunking_irrelevant json_text from_str passthrough cs tail :
  forallb whole cs = true ->
  parse_streaming_chat_completion_response json_text from_str passthrough (map Bytes cs ++ tail)
  = parse_streaming_chat_completion_response json_text from_str passthrough (Bytes (of_chars cs) :: tail).
Proof. intros Hcs. by apply read_stream_chunks. Qed.

(** A parser that knows the texts of the examples: [a], [b] and [c] carry
    themselves as content. *)
Definition content_chunk (text : string) : JsonValue :=
  JObject [("choices", JArray [JObject [("delta", JObject [("content", JString text)])]])].
Definition sample_from_str (text : string) : Result JsonValue string :=
  if String.eqb text "bad" then Err "expected value" else Ok (content_chunk text).
Definition sample_parse (chunks : list Chunk) : Result (option string) ProviderError :=
  let? turn := parse_streaming_chat_completion_response (fun _ => None) sample_from_str [] chunks in Ok (at_content turn).

Lemma chunking_irrelevant_witness :
  sample_parse (map Bytes ["da"; "ta: one" +:+ NL; NL +:+ "data: "; "two" +:+ NL +:+ NL; "data: [DO"; "NE]"] ++ [])
    = Ok (Some "onetwo")
  /\ parse_streaming_chat_completion_response (fun _ => None) sample_from_str []
       (map Bytes ["da"; "ta: one" +:+ NL; NL +:+ "data: "; "two" +:+ NL +:+ NL; "data: [DO"; "NE]"] ++ [])
     = parse_streaming_chat_completion_response (fun _ => None) sample_from_str []
         [Bytes (of_chars ["da"; "ta: one" +:+ NL; NL +:+ "data: "; "two" +:+ NL +:+ NL; "data: [DO"; "NE]"])].
Proof. split; [vm_compute; reflexivity|]. apply chunking_irrelevant. vm_compute. reflexivity. Defined.

(** Both conditions are needed.  A character cut by the network becomes two
    replacement characters (é is 195 169) ... *)
Lemma character_cut_by_chunk :
  sample_parse [Bytes ("data: " +:+ utf8 [195; 169] +:+ NL +:+ NL)] = Ok (Some (utf8 [195; 169]))
  /\ sample_parse [Bytes ("data: " +:+ utf8 [195]); Bytes (utf8 [169] +:+ NL +:+ NL)]
     = Ok (Some (REPLACEMENT +:+ REPLACEMENT)).
Proof. split; vm_compute; reflexivity. Qed.

(** ... and a line end cut between its two bytes becomes two line ends: an event
    of two lines is cut into two events. *)
Lemma line_end_cut_by_chunk :
  sample_parse [Bytes ("data: a" +:+ CR +:+ NL +:+ "data: b" +:+ CR +:+ NL +:+ CR +:+ NL)] = Ok (Some ("a" +:+ NL +:+ "b"))
  /\ sample_parse [Bytes ("data: a" +:+ CR); Bytes (NL +:+ "data: b" +:+ CR +:+ NL +:+ CR +:+ NL)] = Ok (Some "ab").
Proof. split; vm_compute; reflexivity. Qed.

(** ** Recovery is bounded *)

Lemma recover_bounded {A} (call : nat -> Result A ModelCallFailure) cancelled : forall retries failed r delays,
  recover call cancelled retries failed = (r, delays) ->
  length delays <= retries /\ Forall (fun d => 2 <= d <= 60)%Z delays
  /\ match r with
     | Ok a => call (S (failed + length delays)) = Ok a
     | Err f => failure_is_retryable f = false \/ length delays = retries
     end.
Proof.
  assert (Hd : forall n, (2 <= provider_retry_delay n <= 60)%Z).
  { intros n. unfold provider_retry_delay.
    pose proof (Z.pow_le_mono_r 2 0 (Z.of_nat (min (n - 1) 10))). lia. }
  induction retries as [|retries IH]; intros failed r delays; cbn [recover];
    destruct (call (S failed)) as [a|f] eqn:Hc.
  1-3: intros [= <- <-]; cbn; rewrite ?Nat.add_0_r; split_and!; auto with lia.
  destruct (failure_is_retryable f) eqn:Hf; [|intros [= <- <-]; cbn; split_and!; auto; lia].
  destruct (cancelled (S failed)).
  - intros [= <- <-]. cbn. split_and!; [lia|auto|auto].
  - destruct (recover _ _ retries (S failed)) as [r' ds] eqn:Hr. intros [= <- <-].
    destruct (IH _ _ _ Hr) as (Hl & Hds & Hlast). cbn [length]. split_and!; [lia|auto|].
    destruct r'; [by rewrite Nat.add_succ_r|]. destruct Hlast; [auto|right; lia].
Qed.

(** At most seven calls of the provider: an answer is that of the call after the
    last pause, and a failure is final or comes after six pauses. *)
Lemma recovery_bounded {A} (call : nat -> Result A ModelCallFailure) cancelled r delays :
  complete_with_recovery call cancelled = (r, delays) ->
  length delays <= 6
  /\ match r with
     | Ok a => call (S (length delays)) = Ok a
     | Err f => failure_is_retryable f = false \/ length delays = 6
     end.
Proof. intros H. by destruct (recover_bounded _ _ _ _ _ _ H) as (? & _ & ?). Qed.

(** ** The request asks for a stream *)

Lemma field_of_insert key value fields : field_of key (insert_field key value fields) = Some value.
Proof.
  induction fields as [|[k v] fields IH]; cbn; [by rewrite String.eqb_refl|].
  destruct (String.eqb k key) eqn:Hk; cbn; [by rewrite String.eqb_refl|by rewrite Hk].
Qed.

Lemma field_of_insert_ne key key' value fields : key' <> key ->
  field_of key' (insert_field key value fields) = field_of key' fields.
Proof.
  intros Hne. induction fields as [|[k v] fields IH]; cbn.
  - destruct (String.eqb_spec key key'); congruence.
  - destruct (String.eqb_spec k key) as [->|]; cbn; [|by rewrite IH].
    destruct (String.eqb_spec key key'); congruence.
Qed.

Fixpoint get_path (segments : list string) (v : JsonValue) : option JsonValue :=
  match segments with
  | [] => Some v
  | segment :: segments => json_get segment v ≫= get_path segments
  end.

Lemma set_segments_cons full segment next segments value fields :
  set_segments full (segment :: next :: segments) value (JObject fields) =
  let? child := set_segments full (next :: segments) value (default (JObject []) (field_of segment fields)) in
  Ok (JObject (insert_field segment child fields)).
Proof. done. Qed.

(** The value written at a path is read there, and the body stays an object. *)
Lemma set_segments_get full value : forall segments current updated,
  set_segments full segments value current = Ok updated ->
  get_path segments updated = Some value /\ exists fields, updated = JObject fields.
Proof.
  induction segments as [|segment segments IH]; intros current updated H; [done|].
  destruct segments as [|next segments].
  - destruct current; try done. injection H as <-. cbn. rewrite field_of_insert. eauto.
  - destruct current as [| | | | |fields]; try done. rewrite set_segments_cons in H.
    destruct (set_segments full (next :: segments) value _) as [child|] eqn:Hc; [|done].
    apply IH in Hc as [Hg _]. injection H as <-. cbn [get_path json_get].
    rewrite field_of_insert. split; [exact Hg|eauto].
Qed.

(** Whatever extra body is configured, a request that is built asks for a stream. *)
Lemma body_streams json_text request body :
  build_chat_completion_body json_text request = Ok body ->
  json_get "stream" body = Some (JBool true) /\ json_get "stream_options" body <> None.
Proof.
  unfold build_chat_completion_body. destruct (with_extra_body _ _) as [fields|]; [|done].
  assert (Hs : forall fields, json_get "stream" (streamed (JObject fields)) = Some (JBool true)
                              /\ json_get "stream_options" (streamed (JObject fields)) <> None).
  { intros l. unfold streamed, json_get. rewrite field_of_insert. split; [done|].
    rewrite field_of_insert_ne by done. destruct (field_of "stream_options" l) eqn:Hl; [by rewrite Hl|].
    by rewrite field_of_insert. }
  cbn. destruct (not_blank (rq_reasoning_effort request)), (not_blank (rq_reasoning_effort_param request));
    try (intros [= <-]; apply Hs).
  destruct (set_body_path _ _ _) as [b|] eqn:Hb; [|done]. intros [= <-].
  apply set_segments_get in Hb as [_ [l ->]]. apply Hs.
Qed.
