(* ===== verification/Recording.v ===== *)
(** * Terminal recordings (brehon-recording)

    A recording is a compressed file: a header, the events with the snapshots of
    keyframes between them, each behind its length, an index of the keyframes,
    and the offset of the index.  [background_writer] writes it from the commands
    of a terminal; [RecordingReader] parses it, seeks by the index and iterates
    over the events.  Bytes are strings and offsets are 64-bit numbers; slices
    out of range and overflowing sums panic, which is an outcome of its own here.
    Serialization ([bincode]) and compression ([zstd]) are parameters.  The
    theorems are in RecordingProofs. *)

From Stdlib Require Import Ascii.
From S2P Require Import Prelude StrLib Chars.

(** ** Format (format.rs) *)

Definition MAGIC : string := utf8 [65; 71; 82; 69; 67; 0; 0; 1].
Definition LEGACY_MAGIC : string := utf8 [67; 65; 83; 82; 69; 67; 0; 1].
Definition FORMAT_VERSION : Z := 1.
Definition DEFAULT_KEYFRAME_INTERVAL_MS : Z := 30000.

Module FormatError.
Inductive FormatError :=
| InvalidMagic
| UnsupportedVersion (version : Z)
| Io (message : string)
| Bincode (message : string)
| UnexpectedEof
| DecompressionLimitExceeded (limit : Z)
| CorruptedIndex.
End FormatError.
Abbreviation FormatError := FormatError.FormatError.

(** How a call ends that returns no value: with an error, or by a panic *)
Inductive Fault := Failed (e : FormatError) | Panicked.

Record RecordingHeader := mkHeader {
  hd_magic : string;
  hd_version : Z;
  hd_cols : Z;
  hd_rows : Z;
  hd_created_at : Z;
  hd_agent_name : string;
  hd_session_id : string;
  hd_agent_role : string
}.

Definition header_new (now cols rows : Z) (agent_name session_id agent_role : string) : RecordingHeader :=
  mkHeader MAGIC FORMAT_VERSION cols rows now agent_name session_id agent_role.

Definition validate (h : RecordingHeader) : Result unit FormatError :=
  if negb (String.eqb (hd_magic h) MAGIC) && negb (String.eqb (hd_magic h) LEGACY_MAGIC)
  then Err FormatError.InvalidMagic
  else if (FORMAT_VERSION <? hd_version h)%Z then Err (FormatError.UnsupportedVersion (hd_version h))
  else Ok ().

Module RecordingEvent.
Inductive RecordingEvent :=
| Output (timestamp_ms : Z) (data : string)
| Resize (timestamp_ms cols rows : Z)
| Keyframe (timestamp_ms snapshot_offset snapshot_size : Z).
End RecordingEvent.
Abbreviation RecordingEvent := RecordingEvent.RecordingEvent.

Definition event_timestamp_ms (e : RecordingEvent) : Z :=
  match e with
  | RecordingEvent.Output t _ | RecordingEvent.Resize t _ _ | RecordingEvent.Keyframe t _ _ => t
  end.

Record KeyframeEntry := mkEntry { ke_timestamp_ms : Z; ke_event_offset : Z; ke_snapshot_offset : Z }.

Record KeyframeIndex := mkIndex {
  ki_entries : list KeyframeEntry;
  ki_total_duration_ms : Z;
  ki_total_events : Z
}.

Definition index_new : KeyframeIndex := mkIndex [] 0 0.

Definition add_keyframe (entry : KeyframeEntry) (i : KeyframeIndex) : KeyframeIndex :=
  mkIndex (ki_entries i ++ [entry]) (ki_total_duration_ms i) (ki_total_events i).

(** [slice::partition_point], for a slice that the predicate partitions *)
Fixpoint partition_point {A} (f : A -> bool) (l : list A) : nat :=
  match l with x :: l => if f x then S (partition_point f l) else 0 | [] => 0 end.

Definition find_keyframe (target : Z) (i : KeyframeIndex) : option KeyframeEntry :=
  match ki_entries i with
  | [] => None
  | first :: _ =>
      match partition_point (fun e => ke_timestamp_ms e <=? target)%Z (ki_entries i) with
      | O => Some first
      | S idx => ki_entries i !! idx
      end
  end.

(** ** The crates bincode and zstd *)

Class Bincode (T : Type) := {
  serialize : T -> Result string string;
  deserialize : string -> Result T string
}.

Class BincodeLaws (T : Type) `{Bincode T} :=
  deserialize_serialize : forall x bytes, serialize x = Ok bytes -> deserialize bytes = Ok x.

(** A decoder yields bytes and then ends, or fails. *)
Class Zstd := {
  zstd_compress : string -> string;
  zstd_decode : string -> string * option string
}.

Class ZstdLaws `{Zstd} := decode_compress : forall s, zstd_decode (zstd_compress s) = (s, None).

(** ** Bytes *)

Definition isize_max : Z := 9223372036854775807.
Definition len (s : string) : Z := Z.of_nat (String.length s).

(** [to_le_bytes] and [from_le_bytes] *)
Fixpoint le_bytes (width : nat) (n : Z) : string :=
  match width with
  | O => ""
  | S width => String (ascii_of_N (Z.to_N (n mod 256))) (le_bytes width (n / 256))
  end.

Fixpoint le_value (s : string) : Z :=
  match s with
  | EmptyString => 0
  | String c s => Z.of_N (N_of_ascii c) + 256 * le_value s
  end.

(** [&data[start..end]] *)
Definition slice (data : string) (start stop : Z) : Result string Fault :=
  if (0 <=? start)%Z && (start <=? stop)%Z && (stop <=? len data)%Z
  then Ok (bytes_to (Z.to_nat (stop - start)) (bytes_from (Z.to_nat start) data))
  else Err Panicked.

(** [a + b] in [usize]: an overflow panics where overflow checks are on. *)
Definition usize_add (a b : Z) : Result Z Fault := if (a + b <=? u64_max)%Z then Ok (a + b)%Z else Err Panicked.

Definition fail {A} (e : FormatError) : Result A Fault := Err (Failed e).

Definition checked_end (start length : Z) : Result Z Fault :=
  if (start + length <=? u64_max)%Z then Ok (start + length)%Z else fail FormatError.CorruptedIndex.

(** [u32::from_le_bytes(data[offset..offset + 4])] *)
Definition read_u32 (data : string) (offset : Z) : Result Z Fault :=
  let? stop := usize_add offset 4 in
  let? bytes := slice data offset stop in
  Ok (le_value bytes).

(** ** The writer (writer.rs) *)

Module WriteCommand.
Inductive WriteCommand :=
| Event (e : RecordingEvent)
| Keyframe (timestamp_ms : Z) (snapshot_data : string)
| Close.
End WriteCommand.
Abbreviation WriteCommand := WriteCommand.WriteCommand.

(** The side of the terminal: the channel and the time of the last keyframe.
    The receiver may be gone. *)
Record RecordingWriter := mkWriter {
  rw_sent : list WriteCommand;
  rw_closed : bool;
  rw_last_keyframe_ms : Z;
  rw_keyframe_interval_ms : Z
}.
#[export] Instance RecordingWriter_eta : Eta RecordingWriter := fun w =>
  mkWriter (rw_sent w) (rw_closed w) (rw_last_keyframe_ms w) (rw_keyframe_interval_ms w).

Definition writer_new (keyframe_interval_ms : Z) : RecordingWriter := mkWriter [] false 0 keyframe_interval_ms.

Definition send (command : WriteCommand) : SM RecordingWriter FormatError unit := fun w =>
  if rw_closed w then (w, Err (FormatError.Io "Writer channel closed"))
  else (w <| rw_sent := rw_sent w ++ [command] |>, Ok ()).

(** [now] is [current_timestamp_ms()]. *)
Definition write_output (now : Z) (data : string) : SM RecordingWriter FormatError unit :=
  if String.eqb data "" then sm_ret () else send (WriteCommand.Event (RecordingEvent.Output now data)).

Definition write_resize (now cols rows : Z) : SM RecordingWriter FormatError unit :=
  send (WriteCommand.Event (RecordingEvent.Resize now cols rows)).

Definition write_keyframe (now : Z) (snapshot_data : string) : SM RecordingWriter FormatError unit := fun w =>
  send (WriteCommand.Keyframe now snapshot_data) (w <| rw_last_keyframe_ms := now |>).

Definition should_generate_keyframe (now : Z) (w : RecordingWriter) : Result bool Fault :=
  if (now <? rw_last_keyframe_ms w)%Z then Err Panicked
  else Ok (rw_keyframe_interval_ms w <=? now - rw_last_keyframe_ms w)%Z.

Record WriterStats := mkStats { ws_total_events : Z; ws_total_duration_ms : Z; ws_keyframe_count : nat }.

(** The variables of the background task; [bw_written] is what went into the
    encoder, in [bw_writes] writes. *)
Record BackgroundWriter := mkBackground {
  bw_written : string;
  bw_writes : nat;
  bw_index : KeyframeIndex;
  bw_event_count : Z;
  bw_last_timestamp_ms : Z;
  bw_current_offset : Z
}.
#[export] Instance BackgroundWriter_eta : Eta BackgroundWriter := fun b =>
  mkBackground (bw_written b) (bw_writes b) (bw_index b) (bw_event_count b) (bw_last_timestamp_ms b) (bw_current_offset b).

Section recording.
Context `{Bincode RecordingHeader, Bincode RecordingEvent, Bincode KeyframeIndex, Zstd}.
(** Whether creating the file, the write with a number, or finishing the file fails *)
Context (create_error : option string) (write_error : nat -> option string) (finish_error : option string).

Abbreviation W := (SM BackgroundWriter FormatError).

Definition write_all (bytes : string) : W unit := fun b =>
  match write_error (bw_writes b) with
  | Some message => (b <| bw_writes := S (bw_writes b) |>, Err (FormatError.Io message))
  | None => (b <| bw_writes := S (bw_writes b) |> <| bw_written := bw_written b +:+ bytes |>, Ok ())
  end.

Definition bincode {T} `{Bincode T} (x : T) : W string :=
  sm_lift (result_map_err FormatError.Bincode (serialize x)).

Definition modify (f : BackgroundWriter -> BackgroundWriter) : W unit := fun b => (f b, Ok ()).
Definition get {A} (f : BackgroundWriter -> A) : W A := fun b => (b, Ok (f b)).

(** The length as [u32], then the bytes *)
Definition write_frame (bytes : string) : W unit :=
  let! _ := write_all (le_bytes 4 (as_u32 (len bytes))) in
  write_all bytes.

Definition write_event (event : RecordingEvent) : W unit :=
  let! bytes := bincode event in
  let! _ := write_frame bytes in
  modify (fun b => b <| bw_current_offset := (bw_current_offset b + (4 + len bytes))%Z |>).

(** A command other than [Close] *)
Definition process_command (cmd : WriteCommand) : W unit :=
  match cmd with
  | WriteCommand.Event event =>
      let! _ := modify (fun b => b <| bw_last_timestamp_ms := event_timestamp_ms event |>) in
      let! _ := write_event event in
      modify (fun b => b <| bw_event_count := (bw_event_count b + 1)%Z |>)
  | WriteCommand.Keyframe timestamp_ms snapshot_data =>
      let! snapshot_offset := get bw_current_offset in
      let! _ := write_frame snapshot_data in
      let! _ := modify (fun b => b <| bw_current_offset := (bw_current_offset b + (4 + len snapshot_data))%Z |>) in
      let! event_offset := get bw_current_offset in
      let! _ := write_event (RecordingEvent.Keyframe timestamp_ms snapshot_offset (as_u32 (len snapshot_data))) in
      modify (fun b => b <| bw_index := add_keyframe (mkEntry timestamp_ms event_offset snapshot_offset) (bw_index b) |>
                         <| bw_last_timestamp_ms := timestamp_ms |>
                         <| bw_event_count := (bw_event_count b + 1)%Z |>)
  | WriteCommand.Close => sm_ret ()
  end.

(** The end of the list is the end of the channel. *)
Fixpoint process_all (commands : list WriteCommand) : W unit :=
  match commands with
  | [] | WriteCommand.Close :: _ => sm_ret ()
  | cmd :: commands => let! _ := process_command cmd in process_all commands
  end.

Definition write_header (header : RecordingHeader) : W unit :=
  let! bytes := bincode header in
  let! _ := write_frame bytes in
  modify (fun b => b <| bw_current_offset := (4 + len bytes)%Z |>).

Definition finalize : W WriterStats := 
  let! index := get (fun b => mkIndex (ki_entries (bw_index b)) (bw_last_timestamp_ms b) (bw_event_count b)) in
  let! index_offset := get bw_current_offset in
  let! bytes := bincode index in
  let! _ := write_frame bytes in
  let! _ := write_all (le_bytes 8 index_offset) in
  sm_ret (mkStats (ki_total_events index) (ki_total_duration_ms index) (length (ki_entries index))).

Definition background_start : BackgroundWriter := mkBackground "" 0 index_new 0 0 0.

(** The bytes of the file, once the encoder is finished, and the statistics; the
    file size in them is the length of the file. *)
Definition background_writer (header : RecordingHeader) (commands : list WriteCommand) :
    Result (string * WriterStats) FormatError :=
  match create_error with
  | Some message => Err (FormatError.Io message)
  | None =>
      let '(b, r) := (let! _ := write_header header in
                      let! _ := process_all commands in
                      finalize) background_start in
      let? stats := r in
      match finish_error with
      | Some message => Err (FormatError.Io message)
      | None => Ok (zstd_compress (bw_written b), stats)
      end
  end.

(** ** The reader (reader.rs) *)

Definition MAX_DECOMPRESSED_RECORDING_BYTES : Z := 512 * 1024 * 1024.

(** [decompress_to_vec_with_limit] and [decompress_to_tempfile_with_limit]: the
    decoder is asked for at most one byte more than the limit. *)
Definition decompress_with_limit (stream : string * option string) (limit : Z) : Result string Fault :=
  let '(bytes, error) := stream in
  if (limit <? len bytes)%Z then fail (FormatError.DecompressionLimitExceeded limit)
  else match error with Some message => fail (FormatError.Io message) | None => Ok bytes end.

Definition snapshot_region_end (data : string) (snapshot_offset index_offset : Z) : Result Z Fault :=
  let? stop := checked_end snapshot_offset 4 in
  if (index_offset <? stop)%Z then fail FormatError.CorruptedIndex else
  let? snapshot_len := read_u32 data snapshot_offset in
  let? size := usize_add 4 snapshot_len in
  let? snapshot_end := checked_end snapshot_offset size in
  if (index_offset <? snapshot_end)%Z then fail FormatError.CorruptedIndex else Ok snapshot_end.

Definition read_keyframe_event (data : string) (event_offset index_offset : Z) : Result RecordingEvent Fault :=
  let? stop := checked_end event_offset 4 in
  if (index_offset <? stop)%Z then fail FormatError.CorruptedIndex else
  let? event_len := read_u32 data event_offset in
  let? event_start := checked_end event_offset 4 in
  let? event_end := checked_end event_start event_len in
  if (index_offset <? event_end)%Z then fail FormatError.CorruptedIndex else
  let? bytes := slice data event_start event_end in
  result_map_err (fun _ => Failed FormatError.CorruptedIndex) (deserialize bytes).

(** One entry of the index: the region of its snapshot *)
Definition validate_entry (data : string) (events_start_offset index_offset : Z) (previous : option Z)
    (entry : KeyframeEntry) : Result (Z * Z) Fault :=
  let corrupted := fail FormatError.CorruptedIndex in
  if match previous with Some previous => (ke_timestamp_ms entry <? previous)%Z | None => false end then corrupted else
  let snapshot_offset := ke_snapshot_offset entry in
  let event_offset := ke_event_offset entry in
  if (snapshot_offset <? events_start_offset)%Z || (event_offset <? events_start_offset)%Z then corrupted else
  if (index_offset <=? snapshot_offset)%Z || (index_offset <=? event_offset)%Z then corrupted else
  let? snapshot_end := snapshot_region_end data snapshot_offset index_offset in
  if (event_offset <? snapshot_end)%Z then corrupted else
  let? event := read_keyframe_event data event_offset index_offset in
  match event with
  | RecordingEvent.Keyframe timestamp_ms event_snapshot_offset snapshot_size =>
      if negb (timestamp_ms =? ke_timestamp_ms entry)%Z
         || negb (event_snapshot_offset =? ke_snapshot_offset entry)%Z then corrupted
      else
        let? size := usize_add 4 snapshot_size in
        let? expected := checked_end snapshot_offset size in
        if (snapshot_end =? expected)%Z then Ok (snapshot_offset, snapshot_end) else corrupted
  | _ => corrupted
  end.

Fixpoint validate_entries (data : string) (events_start_offset index_offset : Z) (previous : option Z)
    (entries : list KeyframeEntry) : Result (list (Z * Z)) Fault :=
  match entries with
  | [] => Ok []
  | entry :: entries =>
      let? region := validate_entry data events_start_offset index_offset previous entry in
      let? regions := validate_entries data events_start_offset index_offset (Some (ke_timestamp_ms entry)) entries in
      Ok (region :: regions)
  end.

Definition validate_keyframe_index (data : string) (events_start_offset index_offset : Z) (index : KeyframeIndex) :
    Result (list (Z * Z)) Fault :=
  validate_entries data events_start_offset index_offset None (ki_entries index).

Record RecordingReader := mkReader {
  rd_data : string;
  rd_header : RecordingHeader;
  rd_index : KeyframeIndex;
  rd_events_start_offset : Z;
  rd_index_offset : Z;
  rd_skip_regions : list (Z * Z)
}.

Definition bincode_error {A} (r : Result A string) : Result A Fault :=
  result_map_err (fun message => Failed (FormatError.Bincode message)) r.

Definition parse_header (data : string) : Result (RecordingHeader * Z) Fault :=
  let? header_len := read_u32 data 0 in
  let? events_start_offset := checked_end 4 header_len in
  if (len data <? events_start_offset)%Z then fail FormatError.UnexpectedEof else
  let? bytes := slice data 4 events_start_offset in
  let? header := bincode_error (deserialize bytes) in
  let? _ := result_map_err Failed (validate header) in
  Ok (header, events_start_offset).

Definition parse_index (data : string) (index_offset index_offset_pos : Z) : Result KeyframeIndex Fault :=
  let? stop := checked_end index_offset 4 in
  if (index_offset_pos <? stop)%Z then fail FormatError.CorruptedIndex else
  let? index_len := read_u32 data index_offset in
  let? index_data_start := checked_end index_offset 4 in
  let? index_data_end := checked_end index_data_start index_len in
  if (index_offset_pos <? index_data_end)%Z then fail FormatError.CorruptedIndex else
  let? bytes := slice data index_data_start index_data_end in
  bincode_error (deserialize bytes).

(** [parse_recording] and [from_decompressed] *)
Definition from_decompressed (data : string) : Result RecordingReader Fault :=
  if (len data <? 12)%Z then fail FormatError.UnexpectedEof else
  let index_offset_pos := (len data - 8)%Z in
  let? stop := usize_add index_offset_pos 8 in
  let? bytes := slice data index_offset_pos stop in
  let index_offset := le_value bytes in
  if (index_offset_pos <=? index_offset)%Z then fail FormatError.CorruptedIndex else
  let? p := parse_header data in
  let '(header, events_start_offset) := p in
  let? index := parse_index data index_offset index_offset_pos in
  let? skip_regions := validate_keyframe_index data events_start_offset index_offset index in
  Ok (mkReader data header index events_start_offset index_offset skip_regions).

(** [open] and [open_mmap], for a file that can be read *)
Definition open (file : string) : Result RecordingReader Fault :=
  let? data := decompress_with_limit (zstd_decode file) MAX_DECOMPRESSED_RECORDING_BYTES in
  from_decompressed data.

Record ReadPosition := mkPosition { rp_offset : Z; rp_timestamp_ms : Z }.

Definition seek_to_start (r : RecordingReader) : ReadPosition := mkPosition (rd_events_start_offset r) 0.

Definition seek_to (timestamp_ms : Z) (r : RecordingReader) : ReadPosition :=
  let timestamp_ms := Z.min timestamp_ms (ki_total_duration_ms (rd_index r)) in
  match find_keyframe timestamp_ms (rd_index r) with
  | Some keyframe => mkPosition (ke_event_offset keyframe) (ke_timestamp_ms keyframe)
  | None => mkPosition (rd_events_start_offset r) 0
  end.

Definition read_snapshot (keyframe : KeyframeEntry) (r : RecordingReader) : Result string Fault :=
  let data := rd_data r in
  let offset := ke_snapshot_offset keyframe in
  let? data_start := usize_add offset 4 in
  if (len data <? data_start)%Z then fail FormatError.UnexpectedEof else
  let? snapshot_len := read_u32 data offset in
  let? stop := usize_add data_start snapshot_len in
  if (len data <? stop)%Z then fail FormatError.UnexpectedEof else
  slice data data_start stop.

(** *** The iterator *)

Definition in_region (offset : Z) (region : Z * Z) : bool := (region.1 <=? offset)%Z && (offset <? region.2)%Z.

Definition in_skip_region (regions : list (Z * Z)) (offset : Z) : option Z :=
  snd <$> List.find (in_region offset) regions.

(** The loop that skips snapshots: it leaves a region for good, so that the number
    of regions is fuel enough. *)
Fixpoint skip_snapshots (fuel : nat) (regions : list (Z * Z)) (offset : Z) : Z :=
  match fuel, in_skip_region regions offset with
  | S fuel, Some skip_end => skip_snapshots fuel regions skip_end
  | _, _ => offset
  end.

Record EventIterator := mkIterator { it_offset : Z; it_terminal : bool }.

(** [next], with the item it yields *)
Definition next (r : RecordingReader) (it : EventIterator) : EventIterator * option (Result RecordingEvent Fault) :=
  if it_terminal it then (it, None)
  else
    let data := rd_data r in
    let offset := skip_snapshots (length (rd_skip_regions r)) (rd_skip_regions r) (it_offset it) in
    if (rd_index_offset r <=? offset)%Z then (mkIterator offset false, None)
    else
      let item :=
        let? stop := usize_add offset 4 in
        if (len data <? stop)%Z then fail FormatError.UnexpectedEof else
        let? event_len := read_u32 data offset in
        let? event_start := usize_add offset 4 in
        let? event_end := result_map_err (fun _ => Failed FormatError.UnexpectedEof) (checked_end event_start event_len) in
        let? bound := usize_add (rd_index_offset r) 4 in
        if (len data <? event_end)%Z || (bound <? event_end)%Z then fail FormatError.UnexpectedEof else
        let? bytes := slice data event_start event_end in
        let? event := bincode_error (deserialize bytes) in
        Ok (event, event_end) in
      match item with
      | Ok (event, event_end) => (mkIterator event_end false, Some (Ok event))
      | Err fault => (mkIterator offset true, Some (Err fault))
      end.

(** The items up to the first [None], and whether the iterator got there *)
Fixpoint collect (fuel : nat) (r : RecordingReader) (it : EventIterator) : list (Result RecordingEvent Fault) * bool :=
  match fuel with
  | O => ([], false)
  | S fuel =>
      match next r it with
      | (_, None) => ([], true)
      | (it, Some item) => let '(items, ended) := collect fuel r it in (item :: items, ended)
      end
  end.

(** Every event takes at least four bytes, and an error is the last item. *)
Definition iterator_fuel (r : RecordingReader) : nat := String.length (rd_data r) + 2.

Definition read_events_from (position : ReadPosition) (r : RecordingReader) :
    list (Result RecordingEvent Fault) * bool :=
  collect (iterator_fuel r) r (mkIterator (rp_offset position) false).

Definition read_all_events (r : RecordingReader) : list (Result RecordingEvent Fault) * bool :=
  read_events_from (seek_to_start r) r.

Definition up_to (end_ms : Z) (item : Result RecordingEvent Fault) : bool :=
  match item with Ok event => (event_timestamp_ms event <=? end_ms)%Z | Err _ => true end.

Definition read_events_in_range (start_ms end_ms : Z) (r : RecordingReader) : list (Result RecordingEvent Fault) :=
  take (partition_point (up_to end_ms) (read_events_from (seek_to start_ms r) r).1)
       (read_events_from (seek_to start_ms r) r).1.
End recording.
