(* ===== verification/RecordingProofs.v ===== *)
(** * Theorems about recordings

    What a writer that finished has written is read back: header, events in order,
    snapshots, and the events from a keyframe on after a seek.  On any bytes at
    all the reader does not panic, and its iteration ends with at most one error,
    the last item.  Both are proved by the layout of the file ([body]): each
    command is a frame of events, or a snapshot followed by its keyframe. *)

From Stdlib Require Import Ascii.
From S2P Require Import Prelude Effects StrLib Chars Recording.

(** ** Bytes *)

Lemma len_nonneg s : (0 <= len s)%Z.
Proof. unfold len. lia. Qed.

Lemma len_app a b : len (a +:+ b) = (len a + len b)%Z.
Proof. unfold len. rewrite length_append. lia. Qed.

Lemma length_le_bytes w n : String.length (le_bytes w n) = w.
Proof. revert n. induction w as [|w IH]; intros n; cbn; [done|]. by rewrite IH. Qed.

Lemma len_le_bytes w n : len (le_bytes w n) = Z.of_nat w.
Proof. unfold len. by rewrite length_le_bytes. Qed.

Lemma le_value_bytes w : forall n, (0 <= n < 256 ^ Z.of_nat w)%Z -> le_value (le_bytes w n) = n.
Proof.
  induction w as [|w IH]; intros n Hn; [cbn in *; lia|].
  cbn [le_bytes le_value]. rewrite Nat2Z.inj_succ, Z.pow_succ_r in Hn by lia.
  pose proof (Z.mod_pos_bound n 256 ltac:(lia)) as Hm.
  assert (0 <= n / 256 < 256 ^ Z.of_nat w)%Z
    by (split; [apply Z.div_pos; lia|apply Z.div_lt_upper_bound; lia]).
  rewrite N_ascii_embedding, Z2N.id, IH by lia. pose proof (Z.div_mod n 256 ltac:(lia)). lia.
Qed.

Lemma le_value_bound s : (0 <= le_value s < 256 ^ len s)%Z.
Proof.
  unfold len. induction s as [|c s IH]; [cbn; lia|]. cbn [le_value String.length].
  rewrite Nat2Z.inj_succ, Z.pow_succ_r by lia. pose proof (N_ascii_bounded c). lia.
Qed.

Lemma bytes_to_length n : forall s, n <= String.length s -> String.length (bytes_to n s) = n.
Proof. induction n as [|n IH]; intros [|c s] Hn; cbn in *; try lia. rewrite IH; lia. Qed.

Lemma bytes_from_length n : forall s, String.length (bytes_from n s) = String.length s - n.
Proof. induction n as [|n IH]; intros [|c s]; cbn; try lia. apply IH. Qed.

Lemma slice_app a b c : slice (a +:+ b +:+ c) (len a) (len a + len b) = Ok b.
Proof.
  unfold slice. rewrite !len_app. pose proof (len_nonneg a). pose proof (len_nonneg b). pose proof (len_nonneg c).
  replace (_ && _) with true by (symmetry; rewrite !andb_true_iff, !Z.leb_le; lia).
  replace (Z.to_nat (len a + len b - len a)) with (String.length b) by (unfold len; lia).
  replace (Z.to_nat (len a)) with (String.length a) by (unfold len; lia).
  by rewrite bytes_from_app, bytes_to_app.
Qed.

(** [slice_app] with the bounds and the text up to equality *)
Lemma slice_at data a b c start stop :
  data = a +:+ b +:+ c -> start = len a -> stop = (len a + len b)%Z -> slice data start stop = Ok b.
Proof. intros -> -> ->. apply slice_app. Qed.

Lemma slice_in data start stop : (0 <= start <= stop)%Z -> (stop <= len data)%Z ->
  exists s, slice data start stop = Ok s /\ len s = (stop - start)%Z.
Proof.
  intros H1 H2. unfold slice.
  replace (_ && _) with true by (symmetry; rewrite !andb_true_iff, !Z.leb_le; lia).
  eexists. split; [done|]. unfold len in *. rewrite bytes_to_length; [lia|]. rewrite bytes_from_length. lia.
Qed.

Lemma usize_add_fits a b : (a + b <= u64_max)%Z -> usize_add a b = Ok (a + b)%Z.
Proof. intros H. unfold usize_add. by rewrite (proj2 (Z.leb_le _ _) H). Qed.

Lemma checked_end_fits a b : (a + b <= u64_max)%Z -> checked_end a b = Ok (a + b)%Z.
Proof. intros H. unfold checked_end. by rewrite (proj2 (Z.leb_le _ _) H). Qed.

Lemma as_u32_id n : (0 <= n < 2 ^ 32)%Z -> as_u32 n = n.
Proof. intros H. unfold as_u32. apply Z.mod_small. lia. Qed.

(** ** Frames *)

Definition frame (bytes : string) : string := le_bytes 4 (as_u32 (len bytes)) +:+ bytes.

Lemma len_frame s : len (frame s) = (4 + len s)%Z.
Proof. unfold frame. by rewrite len_app, len_le_bytes. Qed.

(** A text of at most 4 GiB, in which every length is exact *)
Definition small (data : string) : Prop := (len data < 2 ^ 32)%Z.

Lemma read_frame_len data pre s post : data = pre +:+ frame s +:+ post -> small data ->
  read_u32 data (len pre) = Ok (len s).
Proof.
  intros -> Hs. unfold small in Hs. rewrite !len_app, len_frame in Hs.
  pose proof (len_nonneg pre). pose proof (len_nonneg post). pose proof (len_nonneg s).
  unfold read_u32. rewrite usize_add_fits by (unfold u64_max; lia). cbn [result_bind].
  rewrite (slice_at _ pre (le_bytes 4 (as_u32 (len s))) (s +:+ post))
    by (rewrite ?len_le_bytes; unfold frame; by rewrite ?append_assoc).
  cbn [result_bind]. rewrite as_u32_id, le_value_bytes by (cbn; lia). done.
Qed.

Lemma slice_frame data pre s post : data = pre +:+ frame s +:+ post ->
  slice data (len pre + 4) (len pre + 4 + len s) = Ok s.
Proof.
  intros ->. apply (slice_at _ (pre +:+ le_bytes 4 (as_u32 (len s))) s post);
    rewrite ?len_app, ?len_le_bytes; [|lia..]. unfold frame. by rewrite !append_assoc.
Qed.

Section layout.
Context `{BincodeLaws RecordingHeader, BincodeLaws RecordingEvent, BincodeLaws KeyframeIndex, ZstdLaws}.

(** ** The layout of the body of a file

    From an offset on, the commands write these bytes; the events read back, and
    the keyframes with their snapshots. *)
Inductive body : Z -> list WriteCommand -> string -> list RecordingEvent -> list (KeyframeEntry * string) -> Prop :=
| body_end o : body o [] "" [] []
| body_close o cmds : body o (WriteCommand.Close :: cmds) "" [] []
| body_event o event cmds bytes rest events keyframes :
    serialize event = Ok bytes ->
    body (o + len (frame bytes)) cmds rest events keyframes ->
    body o (WriteCommand.Event event :: cmds) (frame bytes +:+ rest) (event :: events) keyframes
| body_keyframe o t snapshot cmds bytes rest events keyframes :
    let event := RecordingEvent.Keyframe t o (as_u32 (len snapshot)) in
    serialize event = Ok bytes ->
    body (o + len (frame snapshot) + len (frame bytes)) cmds rest events keyframes ->
    body o (WriteCommand.Keyframe t snapshot :: cmds) (frame snapshot +:+ frame bytes +:+ rest)
      (event :: events) ((mkEntry t (o + len (frame snapshot)) o, snapshot) :: keyframes).

(** ** What the writer writes *)

Context (create_error : option string) (write_error : nat -> option string) (finish_error : option string).

Lemma write_all_Ok s b b' u : write_all write_error s b = (b', Ok u) ->
  exists n, b' = b <| bw_writes := n |> <| bw_written := bw_written b +:+ s |>.
Proof. unfold write_all. destruct (write_error _); intros [= <-]. by eexists. Qed.

Lemma write_frame_Ok s b b' u : write_frame write_error s b = (b', Ok u) ->
  exists n, b' = b <| bw_writes := n |> <| bw_written := bw_written b +:+ frame s |>.
Proof.
  intros Hw. apply sm_bind_Ok in Hw as (b1 & [] & [n1 ->]%write_all_Ok & [n2 ->]%write_all_Ok).
  exists n2. unfold frame. by rewrite <-append_assoc.
Qed.

Lemma bincode_Ok {T} `{Bincode T} (x : T) b b' bytes :
  bincode x b = (b', Ok bytes) -> b' = b /\ serialize x = Ok bytes.
Proof. unfold bincode, sm_lift. by destruct (serialize x); intros [= <- <-]. Qed.

Lemma write_event_Ok event b b' u : write_event write_error event b = (b', Ok u) ->
  exists n bytes, serialize event = Ok bytes
    /\ b' = b <| bw_writes := n |> <| bw_written := bw_written b +:+ frame bytes |>
              <| bw_current_offset := (bw_current_offset b + len (frame bytes))%Z |>.
Proof.
  intros Hw. apply sm_bind_Ok in Hw as (b1 & bytes & [-> Hser]%bincode_Ok & Hw).
  apply sm_bind_Ok in Hw as (b2 & [] & [n ->]%write_frame_Ok & [= <-]).
  exists n, bytes. by rewrite len_frame.
Qed.

Lemma last_default_cons {A} (x y : A) l : List.last (x :: l) y = List.last l x.
Proof.
  revert x y. induction l as [|z l IH]; intros x y; [done|].
  change (List.last (z :: l) y = List.last (z :: l) x). by rewrite !IH.
Qed.

Lemma process_all_Ok cmds : forall b b' u, process_all write_error cmds b = (b', Ok u) ->
  exists bytes events keyframes, body (bw_current_offset b) cmds bytes events keyframes
    /\ bw_written b' = bw_written b +:+ bytes
    /\ bw_current_offset b' = (bw_current_offset b + len bytes)%Z
    /\ ki_entries (bw_index b') = ki_entries (bw_index b) ++ keyframes.*1
    /\ bw_event_count b' = (bw_event_count b + Z.of_nat (length events))%Z
    /\ bw_last_timestamp_ms b' = List.last (event_timestamp_ms <$> events) (bw_last_timestamp_ms b).
Proof.
  assert (Hend : forall b cmds, body (bw_current_offset b) cmds "" [] [] ->
    exists bytes events keyframes, body (bw_current_offset b) cmds bytes events keyframes
    /\ bw_written b = bw_written b +:+ bytes
    /\ bw_current_offset b = (bw_current_offset b + len bytes)%Z
    /\ ki_entries (bw_index b) = ki_entries (bw_index b) ++ keyframes.*1
    /\ bw_event_count b = (bw_event_count b + Z.of_nat (length events))%Z
    /\ bw_last_timestamp_ms b = List.last (event_timestamp_ms <$> events) (bw_last_timestamp_ms b)).
  { intros b l Hb. exists "", [], []. rewrite append_nil_r, app_nil_r. unfold len. cbn. split_and!; try done; lia. }
  induction cmds as [|cmd cmds IH]; intros b b' u Hp; [injection Hp as <-; apply Hend; constructor|].
  destruct cmd as [event|t snapshot|]; cbn [process_all] in Hp;
    [apply sm_bind_Ok in Hp as (b1 & [] & Hc & Hp)..|injection Hp as <-; apply Hend; constructor].
  - apply sm_bind_Ok in Hc as (b2 & [] & [= <-] & Hc).
    apply sm_bind_Ok in Hc as (b3 & [] & (n & bytes & Hser & ->)%write_event_Ok & [= <-]).
    apply IH in Hp as (rest & events & keyframes & Hb & Hw & Ho & Hi & Hn & Hl). cbn in *.
    exists (frame bytes +:+ rest), (event :: events), keyframes.
    rewrite Hw, Ho, Hi, Hn, Hl, len_app, append_assoc, fmap_cons, last_default_cons. cbn [length].
    split_and!; try done; try lia. by apply body_event.
  - apply sm_bind_Ok in Hc as (b2 & o & [= <- <-] & Hc).
    apply sm_bind_Ok in Hc as (b3 & [] & [n ->]%write_frame_Ok & Hc).
    apply sm_bind_Ok in Hc as (b4 & [] & [= <-] & Hc). apply sm_bind_Ok in Hc as (b5 & eo & [= <- <-] & Hc).
    apply sm_bind_Ok in Hc as (b6 & [] & (n' & bytes & Hser & ->)%write_event_Ok & [= <-]).
    rewrite <-(len_frame snapshot) in Hp.
    apply IH in Hp as (rest & events & keyframes & Hb & Hw & Ho & Hi & Hn & Hl). cbn in *.
    exists (frame snapshot +:+ frame bytes +:+ rest), (RecordingEvent.Keyframe t (bw_current_offset b) (as_u32 (len snapshot)) :: events),
      ((mkEntry t (bw_current_offset b + len (frame snapshot)) (bw_current_offset b), snapshot) :: keyframes).
    rewrite Hw, Ho, Hi, Hn, Hl, !len_app, !append_assoc, <-app_assoc, !fmap_cons, last_default_cons. cbn [length].
    split_and!; try done; try lia. by apply body_keyframe.
Qed.

(** ** Reading it back *)

(** The bytes of the snapshot of a keyframe *)
Definition region (k : KeyframeEntry * string) : Z * Z := (ke_snapshot_offset k.1, ke_event_offset k.1).

Lemma body_starts o cmds bytes events keyframes : body o cmds bytes events keyframes ->
  Forall (fun k => o <= ke_snapshot_offset k.1)%Z keyframes.
Proof.
  induction 1 as [| |o event cmds bytes rest events keyframes _ _ IH|o t snapshot cmds bytes rest events keyframes event _ _ IH];
    [done..| |constructor; [cbn; lia|]];
    eapply Forall_impl; [exact IH| |exact IH|]; cbn; intros k; rewrite !len_frame;
    pose proof (len_nonneg bytes); [|pose proof (len_nonneg snapshot)]; lia.
Qed.

(** A keyframe, and the body from it on *)
Lemma body_split o cmds bytes events keyframes ks1 entry snapshot ks2 :
  body o cmds bytes events keyframes -> keyframes = ks1 ++ (entry, snapshot) :: ks2 ->
  exists b1 evb b2 events1 events2 cmds2,
    let start := (o + len b1)%Z in
    let event := RecordingEvent.Keyframe (ke_timestamp_ms entry) start (as_u32 (len snapshot)) in
    bytes = b1 +:+ frame snapshot +:+ frame evb +:+ b2
    /\ events = events1 ++ event :: events2
    /\ entry = mkEntry (ke_timestamp_ms entry) (start + len (frame snapshot)) start
    /\ serialize event = Ok evb
    /\ body (start + len (frame snapshot) + len (frame evb)) cmds2 b2 events2 ks2
    /\ Forall (fun k => (region k).2 <= start)%Z ks1.
Proof.
  intros Hb. revert ks1.
  induction Hb as [| |o e cmds evb rest events keyframes Hser Hb IH|o t snap cmds evb rest events keyframes e Hser Hb IH];
    intros ks1 Hk; [by destruct ks1..| |destruct ks1 as [|k ks1]].
  - destruct (IH ks1 Hk) as (b1 & evb' & b2 & e1 & e2 & cmds2 & -> & -> & He & Hs & Hrest & Hf).
    exists (frame evb +:+ b1), evb', b2, (e :: e1), e2, cmds2. cbn zeta.
    rewrite !len_app, !append_assoc, !Z.add_assoc. done.
  - injection Hk as <- <- <-. exists "", evb, rest, [], events, cmds. cbn zeta.
    change (len "") with 0%Z. rewrite Z.add_0_r. done.
  - injection Hk as <- Hk.
    destruct (IH ks1 Hk) as (b1 & evb' & b2 & e1 & e2 & cmds2 & -> & -> & He & Hs & Hrest & Hf).
    exists (frame snap +:+ frame evb +:+ b1), evb', b2, (e :: e1), e2, cmds2. cbn zeta.
    rewrite !len_app, !append_assoc, !Z.add_assoc. split_and!; try done.
    constructor; [|done]. cbn. pose proof (len_nonneg (frame evb)). pose proof (len_nonneg b1). lia.
Qed.

Lemma find_none {A} (f : A -> bool) l : Forall (fun x => f x = false) l -> List.find f l = None.
Proof. by induction 1 as [|x l Hx _ IH]; cbn; [|rewrite Hx]. Qed.

Lemma find_app {A} (f : A -> bool) l k : Forall (fun x => f x = false) l -> List.find f (l ++ k) = List.find f k.
Proof. by induction 1 as [|x l Hx _ IH]; cbn; [|rewrite Hx]. Qed.

Definition outside (o : Z) (regions : list (Z * Z)) : Prop := Forall (fun x => in_region o x = false) regions.

Lemma skip_outside n regions o : outside o regions -> skip_snapshots n regions o = o.
Proof. intros Ho. destruct n; [done|]. cbn [skip_snapshots]. unfold in_skip_region. by rewrite find_none. Qed.

Lemma outside_before o regions : Forall (fun x => x.2 <= o)%Z regions -> outside o regions.
Proof. intros Hr. eapply Forall_impl; [exact Hr|]. cbn. intros x Hx. unfold in_region. apply andb_false_iff. right. apply Z.ltb_ge. lia. Qed.

Lemma outside_after o o' (keyframes : list (KeyframeEntry * string)) :
  (o < o')%Z -> Forall (fun k => o' <= ke_snapshot_offset k.1)%Z keyframes -> outside o (region <$> keyframes).
Proof.
  intros Ho Hk. apply Forall_fmap. eapply Forall_impl; [exact Hk|]. intros k Hk'. cbn in *.
  unfold in_region. apply andb_false_iff. left. apply Z.leb_gt. cbn. lia.
Qed.

(** The event at an offset, once the snapshots before it are skipped *)
Lemma next_event r o pre post event evb :
  let start := skip_snapshots (length (rd_skip_regions r)) (rd_skip_regions r) o in
  rd_data r = pre +:+ frame evb +:+ post -> start = len pre -> small (rd_data r) ->
  (len pre + len (frame evb) <= rd_index_offset r <= len (rd_data r))%Z -> serialize event = Ok evb ->
  next r (mkIterator o false) = (mkIterator (len pre + len (frame evb)) false, Some (Ok event)).
Proof.
  intros start Hd Hstart Hs Hi Hser. unfold next. cbn [it_terminal it_offset]. fold start. rewrite Hstart.
  pose proof (len_nonneg pre). pose proof (len_nonneg evb). rewrite len_frame in *.
  rewrite (proj2 (Z.leb_gt _ _)) by lia. unfold small in Hs.
  rewrite !usize_add_fits by (unfold u64_max; lia). cbn [result_bind].
  rewrite (proj2 (Z.ltb_ge _ _)) by lia. rewrite (read_frame_len _ pre evb post) by done. cbn [result_bind].
  rewrite checked_end_fits by (unfold u64_max; lia). cbn [result_map_err result_bind].
  rewrite !(proj2 (Z.ltb_ge _ _)) by lia. cbn [orb].
  rewrite (slice_frame _ pre evb post) by done. cbn [result_bind].
  rewrite (deserialize_serialize _ _ Hser). cbn. by rewrite Z.add_assoc.
Qed.

(** A keyframe whose snapshot starts at the offset is reached behind it. *)
Lemma skip_own_snapshot before o stop after : Forall (fun x => x.2 <= o)%Z before -> (o < stop)%Z ->
  outside stop (before ++ (o, stop) :: after) ->
  skip_snapshots (length (before ++ (o, stop) :: after)) (before ++ (o, stop) :: after) o = stop.
Proof.
  intros Hb Ho Hout. rewrite length_app. cbn [length]. rewrite Nat.add_succ_r. cbn [skip_snapshots].
  unfold in_skip_region at 1. rewrite find_app by by apply outside_before. cbn.
  unfold in_region. cbn. rewrite (proj2 (Z.leb_le _ _)), (proj2 (Z.ltb_lt _ _)) by lia. cbn.
  by apply skip_outside.
Qed.

Lemma collect_body r o cmds bytes events keyframes pre post before :
  body o cmds bytes events keyframes ->
  rd_data r = pre +:+ bytes +:+ post -> len pre = o -> small (rd_data r) ->
  rd_index_offset r = (o + len bytes)%Z -> rd_skip_regions r = before ++ (region <$> keyframes) ->
  Forall (fun x => x.2 <= o)%Z before ->
  forall fuel, length events < fuel -> collect fuel r (mkIterator o false) = (Ok <$> events, true).
Proof.
  intros Hb. revert pre before.
  induction Hb as [o|o cmds|o e cmds evb rest events keyframes Hser Hb IH|o t snap cmds evb rest events keyframes e Hser Hb IH];
    intros pre before Hd Hpre Hs Hi Hk Hbefore fuel Hfuel; (destruct fuel as [|fuel]; [cbn in Hfuel; lia|]).
  1-2: cbn [collect]; unfold next; cbn [it_terminal it_offset]; rewrite Hk, app_nil_r, Hi;
    rewrite skip_outside by (by apply outside_before); change (len "") with 0%Z;
    by rewrite Z.add_0_r, Z.leb_refl.
  - pose proof (body_starts _ _ _ _ _ Hb) as Hstarts. pose proof (len_nonneg rest).
    rewrite len_app in Hi. rewrite append_assoc in Hd. cbn [collect].
    assert (Hlf : (0 < len (frame evb))%Z) by (rewrite len_frame; pose proof (len_nonneg evb); lia).
    erewrite (next_event r o pre (rest +:+ post) e evb); try done.
    + rewrite Hpre. rewrite (IH (pre +:+ frame evb) before); [done|..]; rewrite ?len_app; try done; try lia.
      * by rewrite Hd, append_assoc.
      * eapply Forall_impl; [exact Hbefore|]. cbn. intros; lia.
      * cbn in Hfuel. lia.
    + rewrite Hpre. apply skip_outside. rewrite Hk. apply Forall_app. split; [by apply outside_before|].
      by apply outside_after with (o + len (frame evb))%Z; [lia|].
    + rewrite Hd, !len_app. pose proof (len_nonneg post). pose proof (len_nonneg pre). lia.
  - pose proof (body_starts _ _ _ _ _ Hb) as Hstarts. pose proof (len_nonneg rest).
    rewrite !len_app in Hi. rewrite !append_assoc in Hd. cbn [collect]. rewrite fmap_cons in Hk. unfold region at 1 in Hk. cbn in Hk.
    assert (Hlf : (0 < len (frame evb))%Z) by (rewrite len_frame; pose proof (len_nonneg evb); lia).
    assert (Hls : (0 < len (frame snap))%Z) by (rewrite len_frame; pose proof (len_nonneg snap); lia).
    assert (Hbefore' : Forall (fun x => x.2 <= o + len (frame snap))%Z before)
      by (eapply Forall_impl; [exact Hbefore|]; cbn; intros; lia).
    erewrite (next_event r o (pre +:+ frame snap) (rest +:+ post) e evb); try done.
    + rewrite len_app, Hpre. rewrite (IH (pre +:+ frame snap +:+ frame evb) (before ++ [(o, o + len (frame snap))%Z]));
        [done|..]; rewrite ?len_app; try done; try lia.
      * by rewrite Hd, !append_assoc.
      * by rewrite Hk, <-app_assoc.
      * apply Forall_app. split; [eapply Forall_impl; [exact Hbefore|]; cbn; intros; lia|repeat constructor; cbn; lia].
      * cbn in Hfuel. lia.
    + by rewrite Hd, !append_assoc.
    + rewrite Hk, len_app, Hpre. apply skip_own_snapshot; [done|lia|].
      apply Forall_app. split; [by apply outside_before|]. constructor.
      * unfold in_region. cbn. apply andb_false_iff. right. apply Z.ltb_irrefl.
      * apply outside_after with (o + len (frame snap) + len (frame evb))%Z; [lia|done].
    + rewrite Hd, !len_app. pose proof (len_nonneg post). pose proof (len_nonneg pre). lia.
Qed.

(** ** The index of a written file *)

Lemma region_end_at data p snapshot q stop : data = p +:+ frame snapshot +:+ q -> small data ->
  (len p + len (frame snapshot) <= stop)%Z ->
  snapshot_region_end data (len p) stop = Ok (len p + len (frame snapshot))%Z.
Proof.
  intros Hd Hs Hle. pose proof (read_frame_len _ _ _ _ Hd Hs) as Hread. unfold small in Hs.
  rewrite Hd, !len_app, len_frame in Hs. rewrite len_frame in *.
  pose proof (len_nonneg p). pose proof (len_nonneg snapshot). pose proof (len_nonneg q).
  assert (Hu : forall x, (x <= 2 ^ 32)%Z -> (x <= u64_max)%Z) by (unfold u64_max; lia).
  unfold snapshot_region_end. rewrite checked_end_fits by (apply Hu; lia). cbn [result_bind].
  rewrite (proj2 (Z.ltb_ge _ _)), Hread by lia. cbn [result_bind].
  rewrite usize_add_fits by (apply Hu; lia). cbn [result_bind].
  rewrite checked_end_fits by (apply Hu; lia). cbn [result_bind]. by rewrite (proj2 (Z.ltb_ge _ _)) by lia.
Qed.

Lemma keyframe_event_at data p evb q event stop : data = p +:+ frame evb +:+ q -> small data ->
  (len p + len (frame evb) <= stop)%Z -> serialize event = Ok evb ->
  read_keyframe_event data (len p) stop = Ok event.
Proof.
  intros Hd Hs Hle Hser. pose proof (read_frame_len _ _ _ _ Hd Hs) as Hread.
  pose proof (slice_frame _ _ _ _ Hd) as Hslice. unfold small in Hs.
  rewrite Hd, !len_app, len_frame in Hs. rewrite len_frame in *.
  pose proof (len_nonneg p). pose proof (len_nonneg evb). pose proof (len_nonneg q).
  assert (Hu : forall x, (x <= 2 ^ 32)%Z -> (x <= u64_max)%Z) by (unfold u64_max; lia).
  unfold read_keyframe_event. rewrite checked_end_fits by (apply Hu; lia). cbn [result_bind].
  rewrite (proj2 (Z.ltb_ge _ _)), Hread by lia. cbn [result_bind].
  rewrite checked_end_fits by (apply Hu; lia). cbn [result_bind]. rewrite (proj2 (Z.ltb_ge _ _)), Hslice by lia.
  cbn [result_bind]. by rewrite (deserialize_serialize _ _ Hser).
Qed.

Section written.
Context (data pre bytes post : string) (cmds : list WriteCommand) (events : list RecordingEvent).
Context (keyframes : list (KeyframeEntry * string)).
Hypothesis Hdata : data = pre +:+ bytes +:+ post.
Hypothesis Hsmall : small data.
Hypothesis Hbody : body (len pre) cmds bytes events keyframes.

(** Where a keyframe is in the file *)
Lemma keyframe_at ks1 entry snapshot ks2 : keyframes = ks1 ++ (entry, snapshot) :: ks2 ->
  exists p evb q, data = p +:+ frame snapshot +:+ frame evb +:+ q
    /\ entry = mkEntry (ke_timestamp_ms entry) (len p + len (frame snapshot)) (len p)
    /\ serialize (RecordingEvent.Keyframe (ke_timestamp_ms entry) (len p) (len snapshot)) = Ok evb
    /\ (len pre <= len p)%Z /\ (len p + len (frame snapshot) + len (frame evb) <= len pre + len bytes <= len data)%Z.
Proof.
  intros Hk. destruct (body_split _ _ _ _ _ _ _ _ _ Hbody Hk) as (b1 & evb & b2 & e1 & e2 & cmds2 & Hb & _ & He & Hs & _).
  cbn zeta in *. unfold small in Hsmall. rewrite Hdata, Hb in *. rewrite <-len_app in *. rewrite !len_app, !len_frame in *.
  pose proof (len_nonneg pre). pose proof (len_nonneg b1). pose proof (len_nonneg snapshot). pose proof (len_nonneg evb).
  pose proof (len_nonneg b2). pose proof (len_nonneg post).
  rewrite as_u32_id in Hs by lia. exists (pre +:+ b1), evb, (b2 +:+ post). rewrite !append_assoc, !len_app, !len_frame in *.
  split_and!; try done; lia.
Qed.

Lemma entry_valid ks1 entry snapshot ks2 previous : keyframes = ks1 ++ (entry, snapshot) :: ks2 ->
  (forall p, previous = Some p -> (p <= ke_timestamp_ms entry)%Z) ->
  validate_entry data (len pre) (len pre + len bytes) previous entry = Ok (region (entry, snapshot)).
Proof.
  intros Hk Hprev. destruct (keyframe_at _ _ _ _ Hk) as (p & evb & q & Hd & He & Hs & Hp & Hb).
  unfold region. cbn [fst]. rewrite He. unfold validate_entry. cbn [ke_timestamp_ms ke_event_offset ke_snapshot_offset].
  destruct entry as [t eo so]. cbn in *. injection He as -> ->. unfold small in Hsmall. rewrite !len_frame in *.
  pose proof (len_nonneg p). pose proof (len_nonneg snapshot). pose proof (len_nonneg evb).
  replace (match previous with Some previous => (t <? previous)%Z | None => false end) with false
    by (destruct previous as [x|]; [symmetry; apply Z.ltb_ge; auto|done]).
  rewrite !(proj2 (Z.ltb_ge _ _)), !(proj2 (Z.leb_gt _ _)) by lia. cbn [orb].
  rewrite <-(len_frame snapshot).
  rewrite (region_end_at _ p snapshot (frame evb +:+ q)) by (rewrite ?len_frame; done || lia). cbn [result_bind].
  rewrite Z.ltb_irrefl. rewrite <-len_app.
  rewrite (keyframe_event_at _ _ evb q (RecordingEvent.Keyframe t (len p) (len snapshot)))
    by (rewrite ?append_assoc, ?len_app, ?len_frame; done || lia).
  cbn [result_bind]. rewrite !Z.eqb_refl. cbn [negb orb].
  rewrite usize_add_fits by (unfold u64_max; lia). cbn [result_bind].
  rewrite checked_end_fits by (unfold u64_max; lia). cbn [result_bind]. by rewrite len_app, len_frame, Z.eqb_refl.
Qed.

Lemma entries_valid ks2 : forall ks1 previous, keyframes = ks1 ++ ks2 ->
  Sorted Z.le (option_list previous ++ (ke_timestamp_ms <$> ks2.*1)) ->
  validate_entries data (len pre) (len pre + len bytes) previous ks2.*1 = Ok (region <$> ks2).
Proof.
  induction ks2 as [|[entry snapshot] ks2 IH]; intros ks1 previous Hk Hsort; [done|].
  cbn [fmap list_fmap validate_entries fst]. rewrite (entry_valid _ _ _ _ _ Hk).
  - cbn [result_bind]. rewrite (IH (ks1 ++ [(entry, snapshot)])); [done|by rewrite <-app_assoc|].
    cbn. destruct previous; cbn in Hsort; [by inversion Hsort|done].
  - intros x ->. inversion Hsort as [|? ? _ Hhd]. by inversion Hhd.
Qed.

Lemma snapshot_at r ks1 entry snapshot ks2 : keyframes = ks1 ++ (entry, snapshot) :: ks2 -> rd_data r = data ->
  read_snapshot entry r = Ok snapshot.
Proof.
  intros Hk Hr. destruct (keyframe_at _ _ _ _ Hk) as (p & evb & q & Hd & He & _ & _ & Hb).
  unfold read_snapshot. rewrite Hr, He. cbn [ke_snapshot_offset]. unfold small in Hsmall.
  pose proof (len_nonneg p). pose proof (len_nonneg snapshot). pose proof (len_nonneg evb). rewrite !len_frame in Hb.
  rewrite usize_add_fits by (unfold u64_max; lia). cbn [result_bind]. rewrite (proj2 (Z.ltb_ge _ _)) by lia.
  rewrite (read_frame_len _ _ _ _ Hd Hsmall). cbn [result_bind]. rewrite usize_add_fits by (unfold u64_max; lia).
  cbn [result_bind]. rewrite (proj2 (Z.ltb_ge _ _)) by lia. by rewrite (slice_frame _ _ _ _ Hd).
Qed.

(** Reading from a keyframe on *)
Lemma collect_from r ks1 entry snapshot ks2 fuel : keyframes = ks1 ++ (entry, snapshot) :: ks2 ->
  rd_data r = data -> rd_index_offset r = (len pre + len bytes)%Z -> rd_skip_regions r = region <$> keyframes ->
  length events < fuel ->
  exists before event after, events = before ++ event :: after
    /\ event = RecordingEvent.Keyframe (ke_timestamp_ms entry) (ke_snapshot_offset entry) (len snapshot)
    /\ collect fuel r (mkIterator (ke_event_offset entry) false) = (Ok <$> event :: after, true).
Proof.
  intros Hk Hr Hi Hskip Hfuel.
  destruct (body_split _ _ _ _ _ _ _ _ _ Hbody Hk) as (b1 & evb & b2 & e1 & e2 & cmds2 & Hb & He & Hen & Hs & Hrest & Hends).
  cbn zeta in *. rewrite <-len_app in *.
  assert (Hbe : body (len (pre +:+ b1 +:+ frame snapshot)) (WriteCommand.Event
     (RecordingEvent.Keyframe (ke_timestamp_ms entry) (len (pre +:+ b1)) (as_u32 (len snapshot))) :: cmds2)
     (frame evb +:+ b2) (RecordingEvent.Keyframe (ke_timestamp_ms entry) (len (pre +:+ b1)) (as_u32 (len snapshot)) :: e2) ks2).
  { apply body_event; [done|]. by rewrite <-append_assoc, len_app. }
  exists e1, (RecordingEvent.Keyframe (ke_timestamp_ms entry) (len (pre +:+ b1)) (as_u32 (len snapshot))), e2.
  unfold small in *. assert (as_u32 (len snapshot) = len snapshot) as Hu.
  { apply as_u32_id. rewrite Hdata, Hb, !len_app, !len_frame in Hsmall. pose proof (len_nonneg pre). pose proof (len_nonneg b1).
    pose proof (len_nonneg b2). pose proof (len_nonneg snapshot). pose proof (len_nonneg evb). pose proof (len_nonneg post). lia. }
  split; [done|]. split; [rewrite Hu, Hen; done|].
  assert (Ho : ke_event_offset entry = len (pre +:+ b1 +:+ frame snapshot)).
  { rewrite Hen. cbn. by rewrite <-append_assoc, !len_app. }
  rewrite Ho. eapply (collect_body r _ _ _ _ _ (pre +:+ b1 +:+ frame snapshot) post (region <$> (ks1 ++ [(entry, snapshot)])) Hbe);
    [|done|by rewrite Hr| | | |].
  - by rewrite Hr, Hdata, Hb, !append_assoc.
  - rewrite Hi, Hb, !len_app. lia.
  - rewrite Hskip, Hk, !fmap_app. cbn. by rewrite <-app_assoc.
  - apply Forall_fmap, Forall_app. rewrite <-append_assoc, len_app.
    split; [eapply Forall_impl; [exact Hends|]|repeat constructor]; cbn.
    + intros k Hle. pose proof (len_nonneg (frame snapshot)). lia.
    + rewrite Hen. cbn. lia.
  - rewrite He, length_app in Hfuel. cbn in *. lia.
Qed.
End written.

(** ** Parsing a written file *)

(** The commands up to [Close] *)
Fixpoint active (cmds : list WriteCommand) : list WriteCommand :=
  match cmds with
  | [] | WriteCommand.Close :: _ => []
  | cmd :: cmds => cmd :: active cmds
  end.

Definition recorded_as (cmd : WriteCommand) (event : RecordingEvent) : Prop :=
  match cmd with
  | WriteCommand.Event e => event = e
  | WriteCommand.Keyframe t snapshot => exists offset, event = RecordingEvent.Keyframe t offset (len snapshot)
  | WriteCommand.Close => False
  end.

Definition keyframe_commands (cmds : list WriteCommand) : list (Z * string) :=
  omap (fun cmd => match cmd with WriteCommand.Keyframe t snapshot => Some (t, snapshot) | _ => None end) (active cmds).

Lemma body_recorded o cmds bytes events keyframes : body o cmds bytes events keyframes -> (len bytes < 2 ^ 32)%Z ->
  Forall2 recorded_as (active cmds) events
  /\ (fun k => (ke_timestamp_ms k.1, k.2)) <$> keyframes = keyframe_commands cmds
  /\ (Z.of_nat (length events) <= len bytes)%Z.
Proof.
  unfold keyframe_commands.
  induction 1 as [| |o e cmds evb rest events keyframes Hser Hb IH|o t snap cmds evb rest events keyframes e Hser Hb IH];
    intros Hl; [by split_and!; [constructor|..]..| |]; rewrite !len_app, ?len_frame in *; cbn [length];
    pose proof (len_nonneg rest); pose proof (len_nonneg evb).
  - destruct IH as (IHe & IHk & IHl); [lia|]. split_and!; [by constructor|done|lia].
  - pose proof (len_nonneg snap). destruct IH as (IHe & IHk & IHl); [lia|]. split_and!; [|cbn; by rewrite IHk|lia].
    constructor; [|done]. exists o. unfold e. by rewrite as_u32_id by lia.
Qed.

Section file.
Context (header : RecordingHeader) (index : KeyframeIndex) (hb bytes ib : string).
Context (cmds : list WriteCommand) (events : list RecordingEvent) (keyframes : list (KeyframeEntry * string)).
Hypothesis Hheader : serialize header = Ok hb.
Hypothesis Hvalid : validate header = Ok ().
Hypothesis Hindex : serialize index = Ok ib.
Hypothesis Hentries : ki_entries index = keyframes.*1.
Hypothesis Hsorted : Sorted Z.le (ke_timestamp_ms <$> keyframes.*1).
Hypothesis Hbody : body (len (frame hb)) cmds bytes events keyframes.

Let offset := (len (frame hb) + len bytes)%Z.
Let data := frame hb +:+ bytes +:+ frame ib +:+ le_bytes 8 offset.
Hypothesis Hsmall : small data.

Lemma parsed_header : parse_header data = Ok (header, len (frame hb)).
Proof.
  unfold parse_header. pose proof Hsmall as Hs. unfold small, data in Hs. rewrite len_app, len_frame in Hs.
  pose proof (len_nonneg hb). pose proof (len_nonneg (bytes +:+ frame ib +:+ le_bytes 8 offset)).
  assert (Hd : data = "" +:+ frame hb +:+ bytes +:+ frame ib +:+ le_bytes 8 offset) by done.
  change 0%Z with (len "") at 1. rewrite (read_frame_len _ _ _ _ Hd Hsmall). cbn [result_bind].
  rewrite checked_end_fits by (unfold u64_max; lia). cbn [result_bind].
  rewrite (proj2 (Z.ltb_ge _ _)) by (unfold data; rewrite len_app, len_frame; lia).
  pose proof (slice_frame _ _ _ _ Hd) as Hslice. change (len "") with 0%Z in Hslice. rewrite Z.add_0_l in Hslice.
  rewrite Hslice. cbn [result_bind]. rewrite (deserialize_serialize _ _ Hheader). cbn. rewrite Hvalid. cbn.
  by rewrite len_frame.
Qed.

Lemma parsed_index : parse_index data offset (len data - 8) = Ok index.
Proof.
  unfold parse_index. pose proof Hsmall as Hs. unfold small, data in Hs. rewrite !len_app, !len_frame in Hs.
  pose proof (len_nonneg hb). pose proof (len_nonneg bytes). pose proof (len_nonneg ib). rewrite len_le_bytes in Hs.
  assert (Ho : offset = len (frame hb +:+ bytes)) by by rewrite len_app.
  assert (Hl : (len data - 8 = offset + 4 + len ib)%Z).
  { unfold data, offset. rewrite !len_app, !len_frame, len_le_bytes. lia. }
  assert (Hd : data = (frame hb +:+ bytes) +:+ frame ib +:+ le_bytes 8 offset) by (unfold data; by rewrite append_assoc).
  assert (Hoff : (offset <= 2 ^ 32)%Z) by (unfold offset; rewrite len_frame; lia).
  rewrite Hl. rewrite checked_end_fits by (unfold u64_max; lia). cbn [result_bind].
  rewrite (proj2 (Z.ltb_ge _ _)) by lia. rewrite Ho.
  rewrite (read_frame_len _ _ _ _ Hd Hsmall). cbn [result_bind]. rewrite <-Ho.
  rewrite checked_end_fits by (unfold u64_max; lia). cbn [result_bind]. rewrite Z.ltb_irrefl. rewrite Ho.
  rewrite (slice_frame _ _ _ _ Hd). cbn [result_bind]. by rewrite (deserialize_serialize _ _ Hindex).
Qed.

Lemma parsed_file :
  from_decompressed data = Ok (mkReader data header index (len (frame hb)) offset (region <$> keyframes)).
Proof.
  pose proof Hsmall as Hs. unfold small, data in Hs. rewrite !len_app, !len_frame, len_le_bytes in Hs.
  pose proof (len_nonneg hb). pose proof (len_nonneg bytes). pose proof (len_nonneg ib).
  assert (Hl : len data = (offset + 4 + len ib + 8)%Z).
  { unfold data, offset. rewrite !len_app, !len_frame, len_le_bytes. lia. }
  assert (Hoff : (0 <= offset < 2 ^ 32)%Z) by (unfold offset; rewrite len_frame; lia).
  unfold from_decompressed. rewrite Hl. rewrite (proj2 (Z.ltb_ge _ _)) by (unfold offset; rewrite len_frame; lia).
  rewrite usize_add_fits by (unfold u64_max; lia). cbn [result_bind].
  rewrite (slice_at data (frame hb +:+ bytes +:+ frame ib) (le_bytes 8 offset) "").
  2: by unfold data; rewrite append_nil_r, !append_assoc.
  2-3: rewrite !len_app, ?len_le_bytes, !len_frame; unfold offset; rewrite len_frame; lia.
  cbn [result_bind]. rewrite le_value_bytes by (cbn; lia). rewrite (proj2 (Z.leb_gt _ _)) by lia.
  rewrite parsed_header. cbn [result_bind]. rewrite <-Hl, parsed_index. cbn [result_bind].
  unfold validate_keyframe_index. rewrite Hentries. unfold offset.
  rewrite (entries_valid data (frame hb) bytes (frame ib +:+ le_bytes 8 offset) cmds events keyframes eq_refl Hsmall Hbody
    keyframes [] None eq_refl) by done. done.
Qed.
End file.

Lemma background_Ok header cmds file stats : background_writer create_error write_error finish_error header cmds = Ok (file, stats) ->
  exists hb bytes ib events keyframes,
    let duration := List.last (event_timestamp_ms <$> events) 0%Z in
    serialize header = Ok hb /\ body (len (frame hb)) cmds bytes events keyframes
    /\ serialize (mkIndex keyframes.*1 duration (Z.of_nat (length events))) = Ok ib
    /\ file = zstd_compress (frame hb +:+ bytes +:+ frame ib +:+ le_bytes 8 (len (frame hb) + len bytes))
    /\ stats = mkStats (Z.of_nat (length events)) duration (length keyframes).
Proof.
  unfold background_writer. destruct create_error; [done|].
  destruct (sm_bind _ _ _) as [b [st|e]] eqn:Hrun; cbn [result_bind]; [|done]. destruct finish_error; [done|]. intros [= <- <-].
  apply sm_bind_Ok in Hrun as (b1 & [] & Hh & Hrun). apply sm_bind_Ok in Hrun as (b2 & [] & Hp & Hf).
  apply sm_bind_Ok in Hh as (b3 & hb & [-> Hser]%bincode_Ok & Hh).
  apply sm_bind_Ok in Hh as (b4 & [] & [n ->]%write_frame_Ok & [= <-]). rewrite <-(len_frame hb) in Hp.
  apply process_all_Ok in Hp as (bytes & events & keyframes & Hb & Hw & Ho & Hi & Hn & Hl). cbn in Hb, Hw, Ho, Hi, Hn, Hl.
  apply sm_bind_Ok in Hf as (b5 & index & [= <- <-] & Hf). apply sm_bind_Ok in Hf as (b6 & o & [= <- <-] & Hf).
  apply sm_bind_Ok in Hf as (b7 & ib & [-> Hsi]%bincode_Ok & Hf).
  apply sm_bind_Ok in Hf as (b8 & [] & [n8 ->]%write_frame_Ok & Hf).
  apply sm_bind_Ok in Hf as (b9 & [] & [n9 ->]%write_all_Ok & [= <- <-]). cbn.
  exists hb, bytes, ib, events, keyframes. rewrite Hi, Hl, Hn in Hsi |- *.
  split_and!; [done..| |by rewrite length_fmap]. by rewrite Hw, Ho, !append_assoc.
Qed.

(** Everything a reader of the file gets *)
Definition reads_back (header : RecordingHeader) (cmds : list WriteCommand) (stats : WriterStats)
    (r : RecordingReader) (events : list RecordingEvent) (keyframes : list (KeyframeEntry * string)) : Prop :=
  rd_header r = header
  /\ Forall2 recorded_as (active cmds) events
  /\ read_all_events r = (Ok <$> events, true)
  /\ rd_index r = mkIndex keyframes.*1 (List.last (event_timestamp_ms <$> events) 0%Z) (Z.of_nat (length events))
  /\ stats = mkStats (Z.of_nat (length events)) (List.last (event_timestamp_ms <$> events) 0%Z) (length keyframes)
  /\ (fun k => (ke_timestamp_ms k.1, k.2)) <$> keyframes = keyframe_commands cmds
  /\ forall entry snapshot, (entry, snapshot) ∈ keyframes ->
       read_snapshot entry r = Ok snapshot
       /\ exists before after event, events = before ++ event :: after
          /\ event = RecordingEvent.Keyframe (ke_timestamp_ms entry) (ke_snapshot_offset entry) (len snapshot)
          /\ forall t, read_events_from (mkPosition (ke_event_offset entry) t) r = (Ok <$> event :: after, true).

Lemma written_reads_back header cmds file stats :
  background_writer create_error write_error finish_error header cmds = Ok (file, stats) -> validate header = Ok () ->
  Sorted Z.le (fst <$> keyframe_commands cmds) ->
  (len (zstd_decode file).1 <= MAX_DECOMPRESSED_RECORDING_BYTES)%Z ->
  exists r events keyframes, open file = Ok r /\ reads_back header cmds stats r events keyframes.
Proof.
  intros (hb & bytes & ib & events & keyframes & Hh & Hb & Hib & -> & ->)%background_Ok Hv Hsort Hmax.
  rewrite decode_compress in Hmax. cbn [fst] in Hmax. set (data := frame hb +:+ _) in *.
  assert (Hs : small data) by (unfold small, MAX_DECOMPRESSED_RECORDING_BYTES in *; lia).
  assert (Hld : (len bytes < 2 ^ 32)%Z).
  { unfold small, data in Hs. rewrite !len_app, !len_frame, len_le_bytes in Hs. pose proof (len_nonneg hb). pose proof (len_nonneg ib). lia. }
  destruct (body_recorded _ _ _ _ _ Hb Hld) as (Hev & Hkf & Hnum).
  assert (Hsorted : Sorted Z.le (ke_timestamp_ms <$> keyframes.*1)).
  { rewrite <-Hkf in Hsort. clear -Hsort. enough (Heq : ke_timestamp_ms <$> keyframes.*1
      = ((fun k => (ke_timestamp_ms k.1, k.2)) <$> keyframes).*1) by by rewrite Heq.
    clear Hsort. induction keyframes as [|k ks IH]; [done|]. cbn. by f_equal. }
  eexists _, events, keyframes. split.
  { unfold open. rewrite decode_compress. cbn [decompress_with_limit]. rewrite (proj2 (Z.ltb_ge _ _)) by done.
    cbn [result_bind]. apply (parsed_file header _ hb bytes ib cmds events keyframes Hh Hv Hib); done. }
  assert (Hfuel : length events < String.length data + 2).
  { unfold data, len in *. rewrite length_append, length_append. lia. }
  unfold reads_back, read_all_events, read_events_from, iterator_fuel, seek_to_start.
  cbn [rd_header rd_index rd_data rd_events_start_offset rp_offset].
  split_and!; try done.
  - by apply (collect_body _ _ _ _ _ _ (frame hb) (frame ib +:+ le_bytes 8 (len (frame hb) + len bytes)) [] Hb); [..|done].
  - intros entry snapshot (ks1 & ks2 & Hk)%list_elem_of_split.
    split; [by apply (snapshot_at data (frame hb) bytes _ _ _ _ eq_refl Hs Hb _ _ _ _ _ Hk)|].
    destruct (collect_from data (frame hb) bytes _ cmds events keyframes eq_refl Hs Hb
      (mkReader data header (mkIndex keyframes.*1 (List.last (event_timestamp_ms <$> events) 0%Z) (Z.of_nat (length events)))
         (len (frame hb)) (len (frame hb) + len bytes) (region <$> keyframes)) _ _ _ _ _ Hk eq_refl eq_refl eq_refl Hfuel)
      as (before & event & after & He & Hev' & Hc).
    exists before, after, event. split_and!; [done..|]. intros _. exact Hc.
Qed.
End layout.

(** ** Any bytes at all

    A result that is not a panic, and whose value has a property *)
Definition safe {A} (r : Result A Fault) (P : A -> Prop) : Prop :=
  match r with Ok a => P a | Err f => f <> Panicked end.

Lemma safe_bind {A B} (c : Result A Fault) (k : A -> Result B Fault) P Q :
  safe c P -> (forall a, P a -> safe (k a) Q) -> safe (result_bind c k) Q.
Proof. destruct c; cbn; auto. Qed.

Lemma safe_mono {A} (r : Result A Fault) (P Q : A -> Prop) : safe r P -> (forall a, P a -> Q a) -> safe r Q.
Proof. destruct r; cbn; auto. Qed.

Lemma safe_fail {A} e (P : A -> Prop) : safe (fail e) P.
Proof. done. Qed.

Lemma safe_map_err {A E} (f : E -> FormatError) (r : Result A E) (P : A -> Prop) :
  (forall a, r = Ok a -> P a) -> safe (result_map_err (fun e => Failed (f e)) r) P.
Proof. destruct r; cbn; auto. Qed.

Lemma safe_checked_end a b : safe (checked_end a b) (fun x => x = a + b /\ a + b <= u64_max)%Z.
Proof. unfold checked_end. destruct (Z.leb_spec (a + b) u64_max); cbn; auto. Qed.

Lemma safe_usize_add a b : (a + b <= u64_max)%Z -> safe (usize_add a b) (fun x => x = a + b)%Z.
Proof. intros H. by rewrite usize_add_fits. Qed.

Lemma safe_slice data a b : (0 <= a <= b)%Z -> (b <= len data)%Z -> safe (slice data a b) (fun s => len s = b - a)%Z.
Proof. intros H1 H2. by destruct (slice_in data a b H1 H2) as (s & -> & Hs). Qed.

Lemma safe_read_u32 data o : (0 <= o)%Z -> (o + 4 <= len data <= isize_max)%Z ->
  safe (read_u32 data o) (fun n => read_u32 data o = Ok n /\ 0 <= n < 2 ^ 32)%Z.
Proof.
  intros H0 Hl. unfold read_u32. rewrite usize_add_fits by (unfold isize_max, u64_max in *; lia). cbn [result_bind].
  destruct (slice_in data o (o + 4) ltac:(lia) ltac:(lia)) as (s & -> & Hs). cbn. split; [done|].
  pose proof (le_value_bound s). replace (len s) with 4%Z in * by lia. cbn in *. lia.
Qed.

#[local] Hint Resolve safe_fail safe_checked_end : core.

(** Reads a test of the code as an inequality and drops the failing branch *)
Ltac check_guard :=
  match goal with
  | |- safe (if (?a <? ?b)%Z then _ else _) _ => destruct (Z.ltb_spec a b); [apply safe_fail|]
  | |- safe (if (?a <=? ?b)%Z then _ else _) _ => destruct (Z.leb_spec a b); [apply safe_fail|]
  end.

Section any_bytes.
Context `{Bincode RecordingHeader, Bincode RecordingEvent, Bincode KeyframeIndex, Zstd}.
(** [snapshot_size] is a [u32]. *)
Hypothesis event_typed : forall bytes t o size,
  deserialize bytes = Ok (RecordingEvent.Keyframe t o size) -> is_u32 size.
Context (data : string).
Hypothesis Hlen : (len data <= isize_max)%Z.

Lemma safe_region_end so index_offset : (0 <= so)%Z -> (index_offset <= len data)%Z ->
  safe (snapshot_region_end data so index_offset) (fun stop => exists n,
    read_u32 data so = Ok n /\ 0 <= n /\ stop = so + 4 + n /\ stop <= index_offset)%Z.
Proof.
  intros Hge Hi. unfold snapshot_region_end. unfold isize_max, u64_max in *.
  eapply safe_bind; [apply safe_checked_end|]. intros x [-> _]. check_guard.
  eapply safe_bind; [apply safe_read_u32; unfold isize_max; lia|]. intros n [Hn Hb].
  eapply safe_bind; [apply safe_usize_add; unfold u64_max; lia|]. intros y ->.
  eapply safe_bind; [apply safe_checked_end|]. intros z [-> _]. check_guard. exists n. split_and!; try done; lia.
Qed.

Lemma safe_keyframe_event eo index_offset : (0 <= eo)%Z -> (index_offset <= len data)%Z ->
  safe (read_keyframe_event data eo index_offset) (fun e => forall t o size, e = RecordingEvent.Keyframe t o size -> is_u32 size).
Proof.
  intros Hge Hi. unfold read_keyframe_event.
  eapply safe_bind; [apply safe_checked_end|]. intros x [-> _]. check_guard.
  eapply safe_bind; [apply safe_read_u32; lia|]. intros n [_ Hb].
  eapply safe_bind; [apply safe_checked_end|]. intros y [-> _].
  eapply safe_bind; [apply safe_checked_end|]. intros z [-> _]. check_guard.
  eapply safe_bind; [apply safe_slice; lia|]. intros bytes _.
  apply (safe_map_err (fun _ => FormatError.CorruptedIndex)). intros e He t o size ->. by eapply event_typed.
Qed.

(** What the index promises of an entry: its snapshot is in the file. *)
Definition entry_ok (start index_offset : Z) (entry : KeyframeEntry) : Prop :=
  (start <= ke_event_offset entry < index_offset
   /\ start <= ke_snapshot_offset entry
   /\ exists n, read_u32 data (ke_snapshot_offset entry) = Ok n /\ 0 <= n
      /\ ke_snapshot_offset entry + 4 + n <= index_offset)%Z.

Lemma safe_validate_entry start index_offset previous entry : (0 <= start)%Z -> (index_offset <= len data)%Z ->
  safe (validate_entry data start index_offset previous entry) (fun region =>
    entry_ok start index_offset entry /\ region.1 < region.2 <= index_offset)%Z.
Proof.
  intros Hge Hi. unfold validate_entry. destruct (match previous with Some _ => _ | None => _ end); [done|].
  destruct (Z.ltb_spec (ke_snapshot_offset entry) start); [done|].
  destruct (Z.ltb_spec (ke_event_offset entry) start); [done|].
  destruct (Z.leb_spec index_offset (ke_snapshot_offset entry)); [done|].
  destruct (Z.leb_spec index_offset (ke_event_offset entry)); [done|]. cbn [orb].
  eapply safe_bind; [apply safe_region_end; lia|]. intros stop (n & Hn & Hn0 & -> & Hstop). check_guard.
  eapply safe_bind; [apply safe_keyframe_event; lia|]. intros [| |t o size] He; [done..|].
  destruct (negb _ || negb _); [done|]. destruct (He t o size eq_refl) as [Hs0 Hs]. unfold u32_max in Hs.
  eapply safe_bind; [apply safe_usize_add; unfold u64_max; lia|]. intros y ->.
  eapply safe_bind; [apply safe_checked_end|]. intros z [-> _]. destruct (Z.eqb_spec (ke_snapshot_offset entry + 4 + n)
    (ke_snapshot_offset entry + (4 + size))); [|done]. cbn. split; [|lia]. split; [lia|]. split; [lia|]. eauto.
Qed.

Lemma safe_validate_entries start index_offset : (0 <= start)%Z -> (index_offset <= len data)%Z -> forall entries previous,
  safe (validate_entries data start index_offset previous entries) (fun regions =>
    Forall (entry_ok start index_offset) entries /\ Forall (fun x => x.1 < x.2 <= index_offset)%Z regions).
Proof.
  intros Hge Hi. induction entries as [|entry entries IH]; intros previous; cbn [validate_entries]; [done|].
  eapply safe_bind; [by apply safe_validate_entry|]. intros x [He Hx].
  eapply safe_bind; [apply IH|]. intros xs [Hes Hxs]. cbn. auto.
Qed.

Definition reader_ok (r : RecordingReader) : Prop :=
  rd_data r = data /\ (0 <= rd_events_start_offset r)%Z /\ (rd_index_offset r + 4 <= len data)%Z
  /\ Forall (entry_ok (rd_events_start_offset r) (rd_index_offset r)) (ki_entries (rd_index r))
  /\ Forall (fun x => x.1 < x.2)%Z (rd_skip_regions r).

Lemma safe_parse : safe (from_decompressed data) reader_ok.
Proof.
  unfold from_decompressed. check_guard. unfold isize_max in Hlen.
  eapply safe_bind; [apply safe_usize_add; unfold u64_max; lia|]. intros x ->.
  eapply safe_bind; [apply safe_slice; lia|]. intros bytes Hb. check_guard. pose proof (le_value_bound bytes).
  eapply safe_bind with (P := fun p => (0 <= p.2)%Z).
  { unfold parse_header. eapply safe_bind; [apply safe_read_u32; unfold isize_max; lia|]. intros n [_ Hn].
    eapply safe_bind; [apply safe_checked_end|]. intros y [-> _]. check_guard.
    eapply safe_bind; [apply safe_slice; lia|]. intros hb _.
    eapply safe_bind with (P := fun _ => True); [by apply (safe_map_err FormatError.Bincode)|]. intros h _.
    eapply safe_bind with (P := fun _ => True); [by apply (safe_map_err id)|]. intros _ _. cbn. lia. }
  intros [h start] Hstart. eapply safe_bind with (P := fun _ => True).
  { unfold parse_index. eapply safe_bind; [apply safe_checked_end|]. intros y [-> _]. check_guard.
    eapply safe_bind; [apply safe_read_u32; unfold isize_max; lia|]. intros n [_ Hn].
    eapply safe_bind; [apply safe_checked_end|]. intros y [-> _].
    eapply safe_bind; [apply safe_checked_end|]. intros z [-> _]. check_guard.
    eapply safe_bind; [apply safe_slice; lia|]. intros ib _. by apply (safe_map_err FormatError.Bincode). }
  intros index _. eapply safe_bind; [apply safe_validate_entries; cbn in *; lia|]. intros regions [He Hr].
  unfold safe, reader_ok. cbn [rd_data rd_events_start_offset rd_index_offset rd_index rd_skip_regions].
  cbn in Hstart. split_and!; try done; [lia|]. eapply Forall_impl; [exact Hr|]. cbn. intros; lia.
Qed.

Lemma in_skip_Some regions o stop : in_skip_region regions o = Some stop ->
  (o < stop)%Z /\ exists x, x ∈ regions /\ x.2 = stop.
Proof.
  unfold in_skip_region. destruct (List.find _ _) as [x|] eqn:Hf; [|done]. intros [= <-].
  apply List.find_some in Hf as [Hin [_ Hlt%Z.ltb_lt]%andb_true_iff]. split; [done|]. exists x. split; [by apply list_elem_of_In|done].
Qed.

Lemma skip_ge regions : forall n o, (o <= skip_snapshots n regions o)%Z.
Proof.
  induction n as [|n IH]; intros o; cbn [skip_snapshots]; [lia|].
  destruct (in_skip_region regions o) as [stop|] eqn:Hs; [|lia]. apply in_skip_Some in Hs as [Hlt _].
  specialize (IH stop). lia.
Qed.

(** The regions that end after an offset; a jump leaves one of them behind. *)
Definition ahead (o : Z) (regions : list (Z * Z)) : nat := length (List.filter (fun x => o <? x.2)%Z regions).

Lemma ahead_le regions o o' : (o <= o')%Z -> ahead o' regions <= ahead o regions.
Proof.
  intros Ho. unfold ahead. induction regions as [|x l IH]; cbn; [done|].
  destruct (Z.ltb_spec o' x.2), (Z.ltb_spec o x.2); cbn; lia.
Qed.

Lemma ahead_lt regions o x : x ∈ regions -> (o < x.2)%Z -> ahead x.2 regions < ahead o regions.
Proof.
  intros Hx Ho. induction regions as [|y l IH]; [by apply elem_of_nil in Hx|]. pose proof (ahead_le l o x.2 ltac:(lia)).
  unfold ahead in *. cbn. apply elem_of_cons in Hx as [<-|Hx].
  - rewrite Z.ltb_irrefl, (proj2 (Z.ltb_lt _ _) Ho). cbn. lia.
  - specialize (IH Hx). destruct (Z.ltb_spec x.2 y.2), (Z.ltb_spec o y.2); cbn; lia.
Qed.

(** The fuel of the loop is enough. *)
Lemma skip_done regions : forall n o, ahead o regions <= n -> in_skip_region regions (skip_snapshots n regions o) = None.
Proof.
  induction n as [|n IH]; intros o Hn; cbn [skip_snapshots]; destruct (in_skip_region regions o) as [stop|] eqn:Hs; try done;
    apply in_skip_Some in Hs as (Hlt & x & Hx & <-); pose proof (ahead_lt regions o x Hx Hlt); [lia|]. apply IH. lia.
Qed.

Lemma skip_enough regions o : in_skip_region regions (skip_snapshots (length regions) regions o) = None.
Proof. apply skip_done. apply List.filter_length_le. Qed.

Lemma next_safe r it : reader_ok r -> (0 <= it_offset it)%Z ->
  match next r it with
  | (_, None) => True
  | (it', Some (Ok _)) => it_terminal it' = false /\ (it_offset it + 4 <= it_offset it' <= len data)%Z
  | (it', Some (Err f)) => f <> Panicked /\ it_terminal it' = true
  end.
Proof.
  intros (Hd & _ & Hi & _) Hge. unfold next. destruct (it_terminal it); [done|]. rewrite Hd.
  pose proof (skip_ge (rd_skip_regions r) (length (rd_skip_regions r)) (it_offset it)) as Hskip.
  set (o := skip_snapshots _ _ _) in *. destruct (Z.leb_spec (rd_index_offset r) o); [done|]. unfold isize_max in *.
  match goal with |- context [match ?item with Ok _ => _ | Err _ => _ end] =>
    enough (Hs : safe item (fun p => o + 4 <= p.2 <= len data)%Z) by (destruct item as [[e stop]|f]; cbn in *; split; done || lia) end.
  eapply safe_bind; [apply safe_usize_add; unfold u64_max; lia|]. intros x ->. check_guard.
  eapply safe_bind; [apply safe_read_u32; unfold isize_max; lia|]. intros n [_ Hn].
  eapply safe_bind; [apply safe_usize_add; unfold u64_max; lia|]. intros x ->.
  eapply safe_bind; [apply (safe_map_err (fun _ => FormatError.UnexpectedEof)) with (P := fun x => x = (o + 4 + n)%Z)|].
  { intros y Hy. pose proof (safe_checked_end (o + 4) n) as Hc. rewrite Hy in Hc. apply Hc. }
  intros y ->. eapply safe_bind; [apply safe_usize_add; unfold u64_max; lia|]. intros z ->.
  destruct (Z.ltb_spec (len data) (o + 4 + n)); [done|]. destruct (Z.ltb_spec (rd_index_offset r + 4) (o + 4 + n)); [done|].
  cbn [orb]. eapply safe_bind; [apply safe_slice; lia|]. intros bytes _.
  eapply safe_bind with (P := fun _ => True); [by apply (safe_map_err FormatError.Bincode)|]. intros e _. cbn. lia.
Qed.

(** Items of an iteration: events, and at the end at most one error *)
Definition well_ended (p : list (Result RecordingEvent Fault) * bool) : Prop :=
  p.2 = true /\ exists events, p.1 = Ok <$> events \/ exists e, p.1 = (Ok <$> events) ++ [Err (Failed e)].

Lemma collect_safe r : reader_ok r -> forall fuel it, (0 <= it_offset it)%Z -> it_terminal it = false ->
  (Z.max 0 (len data - it_offset it) + 2 <= Z.of_nat fuel)%Z -> well_ended (collect fuel r it).
Proof.
  intros Hr. induction fuel as [|fuel IH]; intros it Hge Ht Hfuel; [lia|]. cbn [collect].
  pose proof (next_safe r it Hr Hge) as Hn. destruct (next r it) as [it' [[event|f]|]].
  - destruct Hn as [Ht' Ho]. specialize (IH it' ltac:(lia) Ht' ltac:(lia)).
    destruct (collect fuel r it') as [items ended]. destruct IH as [Hend (events & Hev)]. cbn in *. split; [done|].
    exists (event :: events). destruct Hev as [->|[e ->]]; [by left|right; by exists e].
  - destruct Hn as [Hf Ht']. destruct fuel as [|fuel]; [lia|]. cbn [collect]. unfold next. rewrite Ht'. split; [done|].
    exists []. right. destruct f as [e|]; [by exists e|done].
  - split; [done|]. exists []. by left.
Qed.

Lemma find_keyframe_in target index entry : find_keyframe target index = Some entry -> entry ∈ ki_entries index.
Proof.
  unfold find_keyframe. destruct (ki_entries index) as [|first rest] eqn:He; [done|].
  destruct (partition_point _ _); [intros [= <-]; by left|apply list_elem_of_lookup_2].
Qed.

Lemma seek_safe t r : reader_ok r -> (0 <= rp_offset (seek_to t r))%Z.
Proof.
  intros (_ & Hs & _ & He & _). unfold seek_to. destruct (find_keyframe _ _) as [entry|] eqn:Hf; [|done].
  apply find_keyframe_in in Hf. rewrite Forall_forall in He. destruct (He entry Hf) as [Heo _]. cbn. lia.
Qed.

Lemma read_safe r position : reader_ok r -> (0 <= rp_offset position)%Z -> well_ended (read_events_from position r).
Proof.
  intros Hr Hge. apply collect_safe; try done. unfold iterator_fuel. destruct Hr as (-> & _). cbn. unfold len. lia.
Qed.

Lemma snapshot_safe r entry : reader_ok r -> entry ∈ ki_entries (rd_index r) -> exists s, read_snapshot entry r = Ok s.
Proof.
  intros (Hd & Hs & Hi & He & _) Hin. rewrite Forall_forall in He. destruct (He entry Hin) as (_ & Hso & n & Hn & Hn0 & Hle).
  unfold read_snapshot. rewrite Hd. unfold isize_max in *. rewrite usize_add_fits by (unfold u64_max; lia). cbn [result_bind].
  rewrite (proj2 (Z.ltb_ge _ _)), Hn by lia. cbn [result_bind]. rewrite usize_add_fits by (unfold u64_max; lia).
  cbn [result_bind]. rewrite (proj2 (Z.ltb_ge _ _)) by lia.
  destruct (slice_in data (ke_snapshot_offset entry + 4) (ke_snapshot_offset entry + 4 + n)) as (s & -> & _); [lia..|eauto].
Qed.
End any_bytes.

(** ** A terminal that is recorded

    What the terminal does, each call at the time of the clock *)
Inductive TerminalCall :=
| CallOutput (data : string)
| CallResize (cols rows : Z)
| CallKeyframe (snapshot : string).

Definition perform (w : RecordingWriter) (c : Z * TerminalCall) : RecordingWriter :=
  (match c.2 with
   | CallOutput data => write_output c.1 data
   | CallResize cols rows => write_resize c.1 cols rows
   | CallKeyframe snapshot => write_keyframe c.1 snapshot
   end w).1.

(** The calls, then [close] *)
Definition session (interval : Z) (calls : list (Z * TerminalCall)) : list WriteCommand :=
  rw_sent (send WriteCommand.Close (foldl perform (writer_new interval) calls)).1.

Definition command_of (c : Z * TerminalCall) : option WriteCommand :=
  match c.2 with
  | CallOutput data =>
      if String.eqb data "" then None else Some (WriteCommand.Event (RecordingEvent.Output c.1 data))
  | CallResize cols rows => Some (WriteCommand.Event (RecordingEvent.Resize c.1 cols rows))
  | CallKeyframe snapshot => Some (WriteCommand.Keyframe c.1 snapshot)
  end.

Lemma perform_all calls : forall w, rw_closed w = false ->
  let w' := foldl perform w calls in rw_closed w' = false /\ rw_sent w' = rw_sent w ++ omap command_of calls.
Proof.
  induction calls as [|[t c] calls IH]; intros w Hw; cbn; [by rewrite app_nil_r|].
  assert (Hp : rw_closed (perform w (t, c)) = false
               /\ rw_sent (perform w (t, c)) = rw_sent w ++ option_list (command_of (t, c))).
  { destruct c as [data|cols rows|snapshot]; unfold perform, command_of, write_output, write_resize, write_keyframe, send; cbn.
    - destruct (String.eqb data ""); cbn; [by rewrite app_nil_r|]. by rewrite Hw.
    - by rewrite Hw.
    - by rewrite Hw. }
  destruct Hp as [Hc Hs]. destruct (IH _ Hc) as [Hc' Hs']. split; [done|]. rewrite Hs', Hs, <-app_assoc.
  by destruct (command_of (t, c)).
Qed.

Lemma session_commands interval calls : session interval calls = omap command_of calls ++ [WriteCommand.Close].
Proof.
  unfold session. destruct (perform_all calls (writer_new interval) eq_refl) as [Hc Hs]. unfold send. rewrite Hc. cbn. by rewrite Hs.
Qed.

Lemma active_session calls : active (omap command_of calls ++ [WriteCommand.Close]) = omap command_of calls.
Proof.
  induction calls as [|[t c] calls IH]; [done|]. cbn.
  destruct (command_of (t, c)) as [cmd|] eqn:Hc; [|done]. cbn. rewrite IH.
  unfold command_of in Hc. cbn in Hc. destruct c; [destruct (String.eqb data "")|..]; simplify_eq; done.
Qed.

(** The times of keyframes are times of calls. *)
Lemma keyframe_times calls : (keyframe_commands (omap command_of calls ++ [WriteCommand.Close])).*1 `sublist_of` calls.*1.
Proof.
  unfold keyframe_commands. rewrite active_session. induction calls as [|[t c] calls IH]; [done|]. cbn.
  destruct c as [data|cols rows|snapshot]; unfold command_of; cbn; [destruct (String.eqb data "")|..]; cbn; by constructor.
Qed.

Lemma times_sublist_sorted (l k : list Z) : l `sublist_of` k -> Sorted Z.le k -> Sorted Z.le l.
Proof.
  intros Hs Hk. apply Sorted_StronglySorted in Hk; [|intros x y z; lia]. apply StronglySorted_Sorted.
  induction Hs as [|x l k Hs IH|x l k Hs IH]; [done|..]; inversion Hk as [|? ? Hk' Hall]; subst; [|auto].
  constructor; [auto|]. rewrite Forall_forall in *. intros y Hy. apply Hall. eapply elem_of_sublist; eauto.
Qed.


(** C12: Damaged files are safe to read.  On any bytes whatsoever, parsing a
    recording does not panic: no slice is out of range and no sum overflows.  If
    it succeeds, every keyframe of the index has its snapshot, and iterating from
    the start or from a seek to any time ends, yielding events and at most one
    error, which is the last item and no panic. *)
Theorem reader_never_panics `{Bincode RecordingHeader, Bincode RecordingEvent, Bincode KeyframeIndex} (data : string) :
  (forall bytes t o size, deserialize bytes = Ok (RecordingEvent.Keyframe t o size) -> is_u32 size) ->
  (len data <= isize_max)%Z ->
  match from_decompressed data with
  | Err f => f <> Panicked
  | Ok r =>
      (forall entry, entry ∈ ki_entries (rd_index r) -> exists s, read_snapshot entry r = Ok s)
      /\ well_ended (read_all_events r)
      /\ forall t, well_ended (read_events_from (seek_to t r) r)
  end.
Proof.
  intros Htyped Hlen. pose proof (safe_parse Htyped data Hlen) as Hs.
  destruct (from_decompressed data) as [r|f]; [|done]. cbn in Hs.
  split; [intros entry; by apply (snapshot_safe data Hlen r)|].
  split; [apply (read_safe data Hlen); [done|by apply Hs]|]. intros t. by apply (read_safe data Hlen); [|apply (seek_safe data)].
Qed.

(** ** A concrete codec

    Values are numbered, and a number is written bit by bit; events whose snapshot
    size is no [u32] are not written and not read. *)
Module RecordingSample.
Fixpoint bits (p : positive) : string :=
  match p with xH => "" | xO p => String "0" (bits p) | xI p => String "1" (bits p) end.

Fixpoint unbits (s : string) : positive :=
  match s with
  | EmptyString => xH
  | String c s => if Ascii.eqb c "0" then xO (unbits s) else xI (unbits s)
  end.

Lemma unbits_bits p : unbits (bits p) = p.
Proof. induction p as [p IH|p IH|]; cbn; by rewrite ?IH. Qed.

#[export] Instance header_eq : EqDecision RecordingHeader.
Proof. solve_decision. Defined.
#[export] Instance header_countable : Countable RecordingHeader :=
  inj_countable' (fun h => (hd_magic h, hd_version h, hd_cols h, hd_rows h, hd_created_at h, hd_agent_name h, hd_session_id h, hd_agent_role h))
    (fun '(a, b, c, d, e, f, g, h) => mkHeader a b c d e f g h) ltac:(abstract by intros []).
#[export] Instance entry_eq : EqDecision KeyframeEntry.
Proof. solve_decision. Defined.
#[export] Instance entry_countable : Countable KeyframeEntry :=
  inj_countable' (fun e => (ke_timestamp_ms e, ke_event_offset e, ke_snapshot_offset e))
    (fun '(a, b, c) => mkEntry a b c) ltac:(abstract by intros []).
#[export] Instance index_eq : EqDecision KeyframeIndex.
Proof. solve_decision. Defined.
#[export] Instance index_countable : Countable KeyframeIndex :=
  inj_countable' (fun i => (ki_entries i, ki_total_duration_ms i, ki_total_events i))
    (fun '(a, b, c) => mkIndex a b c) ltac:(abstract by intros []).
#[export] Instance event_eq : EqDecision RecordingEvent.
Proof. solve_decision. Defined.
#[export] Instance event_countable : Countable RecordingEvent :=
  inj_countable' (fun e => match e with
      | RecordingEvent.Output t s => inl (t, s)
      | RecordingEvent.Resize t c r => inr (inl (t, c, r))
      | RecordingEvent.Keyframe t o n => inr (inr (t, o, n))
      end)
    (fun e => match e with
      | inl (t, s) => RecordingEvent.Output t s
      | inr (inl (t, c, r)) => RecordingEvent.Resize t c r
      | inr (inr (t, o, n)) => RecordingEvent.Keyframe t o n
      end) ltac:(abstract by intros []).

Definition typed (e : RecordingEvent) : bool :=
  match e with RecordingEvent.Keyframe _ _ n => (0 <=? n)%Z && (n <=? u32_max)%Z | _ => true end.

Definition write_if {T} `{Countable T} (ok : T -> bool) (x : T) : Result string string :=
  if ok x then Ok (bits (encode x)) else Err "out of range".
Definition read_if {T} `{Countable T} (ok : T -> bool) (s : string) : Result T string :=
  match decode (unbits s) with
  | Some x => if ok x then Ok x else Err "out of range"
  | None => Err "malformed"
  end.

Lemma read_write {T} `{Countable T} (ok : T -> bool) x bytes : write_if ok x = Ok bytes -> read_if ok bytes = Ok x.
Proof.
  unfold write_if, read_if. destruct (ok x) eqn:Hx; intros [= <-]. by rewrite unbits_bits, decode_encode, Hx.
Qed.

#[export] Instance sample_header : Bincode RecordingHeader :=
  {| serialize := write_if (fun _ => true); deserialize := read_if (fun _ => true) |}.
#[export] Instance sample_event : Bincode RecordingEvent := {| serialize := write_if typed; deserialize := read_if typed |}.
#[export] Instance sample_index : Bincode KeyframeIndex :=
  {| serialize := write_if (fun _ => true); deserialize := read_if (fun _ => true) |}.
#[export] Instance sample_header_laws : BincodeLaws RecordingHeader := read_write (fun _ => true).
#[export] Instance sample_event_laws : BincodeLaws RecordingEvent := read_write typed.
#[export] Instance sample_index_laws : BincodeLaws KeyframeIndex := read_write (fun _ => true).
#[export] Instance sample_zstd : Zstd := {| zstd_compress := fun s => s; zstd_decode := fun s => (s, None) |}.
#[export] Instance sample_zstd_laws : ZstdLaws := fun s => eq_refl.

Lemma sample_typed bytes t o size : deserialize bytes = Ok (RecordingEvent.Keyframe t o size) -> is_u32 size.
Proof.
  cbn. unfold read_if. destruct (decode _) as [e|]; [|done]. destruct (typed e) eqn:He; intros [= ->].
  cbn in He. apply andb_true_iff in He as [H1%Z.leb_le H2%Z.leb_le]. by split.
Qed.

Definition calls : list (Z * TerminalCall) :=
  [(1, CallOutput "a"); (3, CallOutput ""); (5, CallKeyframe "S"); (6, CallResize 80 24); (9, CallKeyframe "TT"); (9, CallOutput "b")]%Z.
Definition header : RecordingHeader := header_new 7 80 24 "w" "s" "worker".
Definition result : Result (string * WriterStats) FormatError :=
  background_writer None (fun _ => None) None header (session 30000 calls).
Definition file : string := match result with Ok (f, _) => f | Err _ => "" end.


Lemma reader_never_panics_witness :
  match from_decompressed file with
  | Ok r => well_ended (read_all_events r) /\ well_ended (read_events_from (seek_to 6 r) r)
  | Err f => f <> Panicked
  end.
Proof.
  pose proof (reader_never_panics file sample_typed ltac:(vm_compute; discriminate)) as Hsafe.
  destruct (from_decompressed file) as [r|f]; [|exact Hsafe].
  destruct Hsafe as (_ & Hall & Hseek). split; [exact Hall|apply Hseek].
Defined.

(** The first two milliseconds hold an output, but a range that starts there is
    empty: seeking to a time before the first keyframe goes to that keyframe. *)
Lemma range_before_first_keyframe_empty :
  match open file with
  | Ok r => head (read_all_events r).1 = Some (Ok (RecordingEvent.Output 1 "a"))
            /\ read_events_in_range 0 2 r = []
  | Err _ => False
  end.
Proof. vm_compute. auto. Qed.
End RecordingSample.
