(* ===== verification/Integration.v ===== *)
(** * Integration of reviewed commits (brehon-mcp, task_actions)

    An approved task is integrated by picking its reviewed commits onto the branch
    of its epic.  The phase of the attempt is stored in the task; each call of
    [integrate] probes the worktree and follows a transition function until the
    task is closed, waits for the operator, or is refused.  Here are the
    transition function (integration_state.rs) and the loop that drives it
    (action_integrate.rs); what runs git is the class [Git], over the state of the
    repository.  Proved: the loop ends in a terminal action within its five
    rounds; a task is closed only when every reviewed commit is on the branch, by
    a probe of that very state; and what a forced call may throw away. *)

From S2P Require Import Prelude Effects StrLib Chars.

(** ** States and transitions (integration_state.rs) *)

Module IntegrationPhase.
Inductive IntegrationPhase := Null | CherryPicking | Resolved | Complete | Aborted.

#[global] Instance eq_dec : EqDecision IntegrationPhase.
Proof. solve_decision. Defined.

Definition as_str (p : IntegrationPhase) : string :=
  match p with
  | Null => "null"
  | CherryPicking => "cherry_picking"
  | Resolved => "resolved"
  | Complete => "complete"
  | Aborted => "aborted"
  end.
End IntegrationPhase.
Abbreviation IntegrationPhase := IntegrationPhase.IntegrationPhase.

Record Resolution := mkResolution { rs_kind : string; rs_reason : string; rs_resolved_at : string }.

Record IntegrationState := mkIntegration {
  in_phase : IntegrationPhase;
  in_epic_branch : string;
  in_worktree_path : string;
  in_cherry_pick_base_head : string;
  in_reviewed_commits : list string;
  in_started_at : string;
  in_last_transition_at : string;
  in_conflicting_files : list string;
  in_attempts : Z;
  in_resolution : option Resolution
}.
#[export] Instance IntegrationState_eta : Eta IntegrationState := fun s =>
  mkIntegration (in_phase s) (in_epic_branch s) (in_worktree_path s) (in_cherry_pick_base_head s)
    (in_reviewed_commits s) (in_started_at s) (in_last_transition_at s) (in_conflicting_files s)
    (in_attempts s) (in_resolution s).

Definition integration_default : IntegrationState :=
  mkIntegration IntegrationPhase.Null "" "" "" [] "" "" [] 0 None.

Record GitProbeResult := mkProbes {
  pr_cherry_pick_in_progress : bool;
  pr_cherry_pick_sha : option string;
  pr_unmerged_files : list string;
  pr_cherry_pick_branch_advanced : bool;
  pr_is_ancestor : bool;
  pr_is_patch_equivalent : bool;
  pr_has_reviewed_cherry_pick_trailers : bool;
  pr_reviewed_commits_applied : bool;
  pr_tree_matches_after : bool
}.

Definition probes_default : GitProbeResult := mkProbes false None [] false false false false false false.

Module Action.
Inductive Action :=
| StartCherryPick
| ContinueCherryPick
| Verify
| Finalize
| ForceReset (reason : string)
| Reject (reason : string)
| Idempotent.
End Action.
Abbreviation Action := Action.Action.

Record Transition := mkTransition { tr_new_phase : IntegrationPhase; tr_action : Action }.

Inductive OperatorIntent := Integrate | ForceIntegrate.

Definition VALID_PHASES : list string := ["null"; "cherry_picking"; "resolved"; "complete"; "aborted"].

(** The phase in the stored task, if it is a string *)
Definition validate_raw_integration_phase (task_id : string) (raw_phase : option string) : Result unit string :=
  match raw_phase with
  | Some raw_phase =>
      if existsb (String.eqb raw_phase) VALID_PHASES then Ok ()
      else Err ("Task " +:+ task_id +:+ " has unsupported integration phase '" +:+ raw_phase
                +:+ "'. Expected cherry_picking, resolved, null, complete, or aborted.")
  | None => Ok ()
  end.

(** [serde_json::from_value(v).ok()] of the stored value, or the default *)
Definition read_integration_state (stored : option IntegrationState) : IntegrationState :=
  default integration_default stored.

(** [normalize_task_status] of brehon-types *)
Definition status_names : list (list string * string) :=
  [(["pending"; "Pending"], "pending"); (["assigned"; "Assigned"], "assigned");
   (["in_progress"; "InProgress"], "in_progress"); (["review_ready"; "ReviewReady"], "review_ready");
   (["complete"; "Complete"; "completed"; "Completed"], "review_ready"); (["in_review"; "InReview"], "in_review");
   (["changes_requested"; "ChangesRequested"], "changes_requested"); (["approved"; "Approved"], "approved");
   (["merged"; "Merged"], "merged"); (["blocked"; "Blocked"], "blocked"); (["closed"; "Closed"], "closed")].

Definition normalize_task_status (status : string) : option string :=
  snd <$> List.find (fun p => existsb (String.eqb (trim status)) p.1) status_names.

(** The test that most transitions share *)
Definition applied (p : GitProbeResult) : bool :=
  pr_is_ancestor p || pr_is_patch_equivalent p || pr_has_reviewed_cherry_pick_trailers p || pr_reviewed_commits_applied p.

Definition null_transitions (task_status : string) (p : GitProbeResult) : Transition :=
  if negb (String.eqb (default task_status (normalize_task_status task_status)) "approved") then
    mkTransition IntegrationPhase.Null
      (Action.Reject ("Cannot integrate from status '" +:+ task_status
        +:+ "'. Only approved subtasks can be integrated into an epic branch."))
  else if applied p then mkTransition IntegrationPhase.Resolved Action.Verify
  else mkTransition IntegrationPhase.CherryPicking Action.StartCherryPick.

Definition cherry_picking_integrate_transitions (p : GitProbeResult) (reviewed_commits : list string) : Transition :=
  let reject reason := mkTransition IntegrationPhase.CherryPicking (Action.Reject reason) in
  if pr_cherry_pick_in_progress p then
    match pr_cherry_pick_sha p with
    | Some sha =>
        if negb (existsb (String.eqb sha) reviewed_commits) then
          reject ("stale cherry-pick for " +:+ sha +:+ " blocks " +:+ default "?" (head reviewed_commits)
                  +:+ "; abort-integration first")
        else match pr_unmerged_files p with
             | [] => mkTransition IntegrationPhase.Resolved Action.ContinueCherryPick
             | files => reject ("still unresolved: " +:+ join ", " files)
             end
    | None => reject "cherry-pick in progress but SHA could not be read"
    end
  else if applied p then mkTransition IntegrationPhase.Resolved Action.Verify
  else if pr_cherry_pick_branch_advanced p && match pr_unmerged_files p with [] => true | _ => false end
  then mkTransition IntegrationPhase.CherryPicking Action.StartCherryPick
  else reject "cherry-pick was cleared but commit not applied; abort-integration or resolve".

Definition cherry_picking_force_reset_reason (p : GitProbeResult) (reviewed_commits : list string) : option string :=
  if pr_cherry_pick_in_progress p then
    match pr_cherry_pick_sha p with
    | Some sha =>
        if negb (existsb (fun commit => String.eqb commit sha) reviewed_commits)
        then Some ("force=true discarding stale cherry-pick state for unexpected commit " +:+ sha)
        else None
    | None => Some "force=true discarding cherry-pick state because CHERRY_PICK_HEAD could not be read"
    end
  else if applied p || pr_cherry_pick_branch_advanced p then None
  else Some "force=true discarding cleared cherry-pick state because the reviewed commit set is not applied".

Definition cherry_picking_transitions (p : GitProbeResult) (reviewed_commits : list string) (intent : OperatorIntent) :
    Transition :=
  match intent with
  | ForceIntegrate =>
      match cherry_picking_force_reset_reason p reviewed_commits with
      | Some reason => mkTransition IntegrationPhase.Null (Action.ForceReset reason)
      | None => cherry_picking_integrate_transitions p reviewed_commits
      end
  | Integrate => cherry_picking_integrate_transitions p reviewed_commits
  end.

Definition resolved_transitions (p : GitProbeResult) : Transition :=
  if pr_tree_matches_after p || applied p then mkTransition IntegrationPhase.Complete Action.Finalize
  else mkTransition IntegrationPhase.Resolved
         (Action.Reject ("verification failed " +:+ utf8 [226; 128; 148]
            +:+ " reviewed tree does not match epic branch; abort-integration")).

Definition complete_transitions (intent : OperatorIntent) : Transition :=
  match intent with
  | ForceIntegrate =>
      mkTransition IntegrationPhase.Complete
        (Action.Reject "integration already completed; manual revert required before force=true retry")
  | Integrate => mkTransition IntegrationPhase.Complete Action.Idempotent
  end.

Definition aborted_transitions (p : GitProbeResult) (intent : OperatorIntent) : Transition :=
  match intent with
  | ForceIntegrate =>
      mkTransition IntegrationPhase.Null
        (Action.ForceReset "force=true discarding previously aborted integration state")
  | Integrate =>
      if applied p then mkTransition IntegrationPhase.Complete Action.Finalize
      else mkTransition IntegrationPhase.Aborted
             (Action.Reject "explicitly aborted and reviewed commit set is not present on merge target; use force=true to retry")
  end.

Definition next_state (current : IntegrationPhase) (task_status : string) (p : GitProbeResult)
    (reviewed_commits : list string) (intent : OperatorIntent) : Transition :=
  match current with
  | IntegrationPhase.Null => null_transitions task_status p
  | IntegrationPhase.CherryPicking => cherry_picking_transitions p reviewed_commits intent
  | IntegrationPhase.Resolved => resolved_transitions p
  | IntegrationPhase.Complete => complete_transitions intent
  | IntegrationPhase.Aborted => aborted_transitions p intent
  end.

Definition task_has_active_integration (stored : option IntegrationState) : bool :=
  match in_phase (read_integration_state stored) with
  | IntegrationPhase.CherryPicking | IntegrationPhase.Resolved => true
  | _ => false
  end.

(** ** The worktree

    The queries and commands that run git in the worktree of the epic, over the
    state [W] of the repository.  [None] and [Err] are failures to run it. *)
Class Git (W : Type) := {
  cherry_pick_in_progress_in : W -> bool;
  cherry_pick_sha_in : W -> option string;
  unmerged_files : W -> option (list string);
  rev_parse_head : W -> Result string string;
  status_is_clean : W -> option bool;
  git_commit_is_ancestor_in : W -> string -> string -> Result bool string;
  is_patch_equivalent_in_window_in : W -> string -> string -> option bool;
  tree_matches_after : W -> string -> string -> option bool;
  tree_matches_after_limited : W -> string -> string -> Result (option bool) string;
  reviewed_commits_with_cherry_pick_trailers : W -> string -> string -> list string -> list string;
  can_skip_failed_cherry_pick_as_empty : W -> string -> bool;
  start_cherry_pick : string -> SM W string unit;
  continue_cherry_pick : SM W string unit;
  cherry_pick_quit : SM W string unit;
  reset_hard : string -> SM W string unit;
  clean_fd : SM W string unit
}.

Section integrate.
Context {W : Type} `{Git W}.

(** ** Probes (action_integrate.rs) *)

Definition cherry_pick_branch_advanced_since_base (w : W) (base_head : string) : bool :=
  if String.eqb base_head "" then false
  else match rev_parse_head w with
       | Err _ => false
       | Ok head =>
           negb (String.eqb head base_head)
           && match git_commit_is_ancestor_in w base_head "HEAD" with Ok b => b | Err _ => false end
       end.

Record CommitProbe := mkCommitProbe {
  cp_is_ancestor : bool;
  cp_is_patch_equivalent : bool;
  cp_has_trailer : bool;
  cp_is_applied : bool;
  cp_tree_matches : bool
}.

(** The body of the loop over the reviewed commits *)
Definition probe_commit (w : W) (branch : string) (with_trailers : list string) (probe_tree probe_cleared : bool)
    (commit : string) : CommitProbe :=
  let is_ancestor := match git_commit_is_ancestor_in w commit branch with Ok b => b | Err _ => false end in
  let is_patch_equivalent := is_ancestor || default false (is_patch_equivalent_in_window_in w commit branch) in
  let has_trailer := existsb (String.eqb commit) with_trailers in
  let cheap := is_patch_equivalent || has_trailer in
  let tree :=
    if cheap then true
    else if probe_tree then default false (tree_matches_after w commit branch)
    else if probe_cleared then
      match tree_matches_after_limited w commit branch with Ok (Some b) => b | _ => false end
    else false in
  mkCommitProbe is_ancestor is_patch_equivalent has_trailer (cheap || tree) tree.

Definition run_git_probes (w : W) (state : IntegrationState) (branch : string) : GitProbeResult :=
  let in_progress := cherry_pick_in_progress_in w in
  let sha := cherry_pick_sha_in w in
  let unmerged := default [] (unmerged_files w) in
  let advanced := cherry_pick_branch_advanced_since_base w (in_cherry_pick_base_head state) in
  if bool_decide (in_phase state = IntegrationPhase.CherryPicking) && in_progress
  then mkProbes in_progress sha unmerged advanced false false false false false
  else
    let probe_tree := bool_decide (in_phase state = IntegrationPhase.Resolved) in
    let probe_cleared :=
      (bool_decide (in_phase state = IntegrationPhase.CherryPicking)
       || bool_decide (in_phase state = IntegrationPhase.Aborted))
      && negb in_progress && match unmerged with [] => true | _ => false end && default false (status_is_clean w) in
    let with_trailers := reviewed_commits_with_cherry_pick_trailers w branch (in_cherry_pick_base_head state)
                           (in_reviewed_commits state) in
    let commits := probe_commit w branch with_trailers probe_tree probe_cleared <$> in_reviewed_commits state in
    mkProbes in_progress sha unmerged advanced
      (forallb cp_is_ancestor commits)
      (forallb cp_is_patch_equivalent commits)
      (match in_reviewed_commits state with [] => false | _ => forallb cp_has_trailer commits end)
      (forallb cp_is_applied commits)
      (forallb cp_tree_matches commits).

(** ** Picking *)

Inductive CherryPickError := Conflict (details : string) | Other (message : string).

Definition commit_already_represented_for_pick_with_trailers (w : W) (commit : string) (with_trailers : list string) :
    Result bool string :=
  if existsb (String.eqb commit) with_trailers then Ok true
  else
    let? ancestor := git_commit_is_ancestor_in w commit "HEAD" in
    if (ancestor : bool) then Ok true
    else if default false (is_patch_equivalent_in_window_in w commit "HEAD") then Ok true
    else let? tree := tree_matches_after_limited w commit "HEAD" in Ok (default false tree).

Fixpoint pick_commits (with_trailers commits : list string) : SM W CherryPickError unit :=
  match commits with
  | [] => sm_ret ()
  | commit :: commits => fun w =>
      match commit_already_represented_for_pick_with_trailers w commit with_trailers with
      | Err e => (w, Err (Other e))
      | Ok true => pick_commits with_trailers commits w
      | Ok false =>
          match start_cherry_pick commit w with
          | (w, Ok tt) => pick_commits with_trailers commits w
          | (w, Err err) =>
              if can_skip_failed_cherry_pick_as_empty w err then
                match continue_cherry_pick w with
                | (w, Ok tt) => pick_commits with_trailers commits w
                | (w, Err e) => (w, Err (Other ("Empty pick skip failed: " +:+ e)))
                end
              else (w, Err (Conflict err))
          end
      end
  end.

Definition execute_cherry_picks (reviewed_commits : list string) (base_head : string) : SM W CherryPickError unit :=
  fun w =>
    pick_commits (reviewed_commits_with_cherry_pick_trailers w "HEAD" base_head reviewed_commits) reviewed_commits w.

(** ** Forced retries *)

(** [ensure_brehon_worktree_path] has succeeded; the path is for messages. *)
Definition reset_irrecoverable_worktree (worktree merge_target : string) : SM W string unit := fun w =>
  let '(w, _) := cherry_pick_quit w in
  (let! _ := reset_hard merge_target in
   let! _ := clean_fd in
   fun w =>
     if cherry_pick_in_progress_in w
     then (w, Err ("force=true cleanup for '" +:+ worktree +:+ "' failed: CHERRY_PICK_HEAD is still present"))
     else match default [] (unmerged_files w) with
          | [] => (w, Ok ())
          | files => (w, Err ("force=true cleanup for '" +:+ worktree +:+ "' failed: unmerged files remain: " +:+ join ", " files))
          end) w.

Definition reset_state_for_force_retry (now worktree merge_target : string) (prior : IntegrationState) :
    SM W string IntegrationState :=
  let! _ := (if bool_decide (in_phase prior = IntegrationPhase.CherryPicking)
             then reset_irrecoverable_worktree worktree merge_target else sm_ret ()) in
  fun w =>
    match rev_parse_head w with
    | Err e => (w, Err e)
    | Ok head =>
        (w, Ok (mkIntegration IntegrationPhase.Null merge_target worktree head (in_reviewed_commits prior) now now [] 0 None))
    end.

(** ** The loop *)

Inductive LoopEnd :=
| Finalized (state : IntegrationState) (already_integrated : bool)
| Rejected (state : IntegrationState) (reason : string)
| Waiting (state : IntegrationState) (details : string)
| ErrorResult (message : string)
| InternalError (message : string)
| AlreadyIntegrated (state : IntegrationState)
| NotTerminal (phase : IntegrationPhase).

Record LoopState := mkLoop { lo_state : IntegrationState; lo_already : bool; lo_skip_probe : bool }.

(** The call: its arguments, the clock, and [persist_conflict_and_cleanup] *)
Context (status merge_target worktree now : string) (force : bool).
Context (persist : IntegrationState -> Result unit string).

Definition conflict_end (state : IntegrationState) (details : string) : LoopEnd :=
  match persist state with
  | Err message => ErrorResult message
  | Ok _ => Waiting state details
  end.

(** After a pick: the next state, or the end of the call *)
Definition after_pick (w : W) (l : LoopState) (r : Result unit CherryPickError) : LoopState + LoopEnd :=
  let state := lo_state l in
  match r with
  | Ok _ => inl (mkLoop (state <| in_phase := IntegrationPhase.Resolved |> <| in_last_transition_at := now |>)
                   (lo_already l) (lo_skip_probe l))
  | Err (Conflict details) =>
      inr (conflict_end (state <| in_phase := IntegrationPhase.CherryPicking |>
                               <| in_conflicting_files := default [] (unmerged_files w) |>
                               <| in_attempts := (in_attempts state + 1)%Z |>
                               <| in_last_transition_at := now |>) details)
  | Err (Other message) => inr (ErrorResult message)
  end.

Definition intent : OperatorIntent := if force then ForceIntegrate else Integrate.

(** The probes of a round, and the flag that skips them once *)
Definition loop_probes (w : W) (l : LoopState) : GitProbeResult * bool :=
  if force && bool_decide (in_phase (lo_state l) = IntegrationPhase.Aborted) then (probes_default, lo_skip_probe l)
  else if lo_skip_probe l && bool_decide (in_phase (lo_state l) = IntegrationPhase.Null) then (probes_default, false)
  else (run_git_probes w (lo_state l) merge_target, lo_skip_probe l).

Definition start_pick (w : W) (l : LoopState) : W * (LoopState + LoopEnd) :=
  let state := lo_state l in
  let based := if String.eqb (in_cherry_pick_base_head state) ""
               then let? head := rev_parse_head w in Ok (state <| in_cherry_pick_base_head := head |>)
               else Ok state in
  match based with
  | Err e => (w, inr (InternalError e))
  | Ok state =>
      let '(w, r) := execute_cherry_picks (in_reviewed_commits state) (in_cherry_pick_base_head state) w in
      (w, after_pick w (mkLoop state (lo_already l) (lo_skip_probe l)) r)
  end.

Definition continue_pick (w : W) (l : LoopState) : W * (LoopState + LoopEnd) :=
  let state := lo_state l in
  match continue_cherry_pick w with
  | (w, Ok tt) =>
      let '(w, r) := execute_cherry_picks (in_reviewed_commits state) (in_cherry_pick_base_head state) w in
      (w, after_pick w l r)
  | (w, Err err) =>
      (w, inr (conflict_end (state <| in_conflicting_files := default [] (unmerged_files w) |>
                                   <| in_last_transition_at := now |>) err))
  end.

Definition act (w : W) (l : LoopState) (p : GitProbeResult) (t : Transition) : W * (LoopState + LoopEnd) :=
  let state := lo_state l in
  match tr_action t with
  | Action.Idempotent =>
      (w, inr (match rev_parse_head w with Ok _ => AlreadyIntegrated state | Err e => InternalError e end))
  | Action.Reject reason =>
      if bool_decide (in_phase state = IntegrationPhase.CherryPicking) && starts_with "still unresolved" reason
      then (w, inr (conflict_end (state <| in_conflicting_files := pr_unmerged_files p |> <| in_last_transition_at := now |>) reason))
      else (w, inr (Rejected state reason))
  | Action.ForceReset _ =>
      match reset_state_for_force_retry now worktree merge_target state w with
      | (w, Ok state) => (w, inl (mkLoop state (lo_already l) true))
      | (w, Err e) => (w, inr (InternalError e))
      end
  | Action.Finalize =>
      (w, inr (Finalized (state <| in_phase := tr_new_phase t |> <| in_last_transition_at := now |>)
                 (lo_already l || bool_decide (in_phase state = IntegrationPhase.Aborted))))
  | Action.Verify =>
      (w, inl (mkLoop (state <| in_phase := tr_new_phase t |> <| in_last_transition_at := now |>)
                 (lo_already l || bool_decide (in_phase state = IntegrationPhase.Null)
                  || bool_decide (in_phase state = IntegrationPhase.CherryPicking)) (lo_skip_probe l)))
  | Action.StartCherryPick => start_pick w l
  | Action.ContinueCherryPick => continue_pick w l
  end.

Definition loop_round (w : W) (l : LoopState) : W * (LoopState + LoopEnd) :=
  if bool_decide (in_phase (lo_state l) = IntegrationPhase.Complete) && negb force
  then (w, inr (Finalized (lo_state l) (lo_already l)))
  else
    let '(p, skip) := loop_probes w l in
    let l := mkLoop (lo_state l) (lo_already l) skip in
    act w l p (next_state (in_phase (lo_state l)) status p (in_reviewed_commits (lo_state l)) intent).

Definition MAX_LOOPS : nat := 5.

Fixpoint integrate_loop (rounds : nat) (w : W) (l : LoopState) : W * LoopEnd :=
  match rounds with
  | O => (w, NotTerminal (in_phase (lo_state l)))
  | S rounds =>
      match loop_round w l with
      | (w, inl l) => integrate_loop rounds w l
      | (w, inr stop) => (w, stop)
      end
  end.

(** The attempt as the call sets it up: an approved task with an empty set of
    commits counts as complete. *)
Definition initial_state (stored : option IntegrationState) (reviewed_commit : string) (reviewed_commit_set : list string)
    (resolved_empty_commit_set : bool) : IntegrationState :=
  let state := read_integration_state stored in
  let state := state <| in_epic_branch := merge_target |> <| in_worktree_path := worktree |>
    <| in_reviewed_commits := match reviewed_commit_set with [] => [reviewed_commit] | l => l end |>
    <| in_started_at := if String.eqb (in_started_at state) "" then now else in_started_at state |> in
  if resolved_empty_commit_set && bool_decide (normalize_task_status status = Some "approved")
  then state <| in_phase := IntegrationPhase.Complete |> else state.

(** The call from its set-up on; a task that is not approved has no shortcut. *)
Definition integrate (stored : option IntegrationState) (reviewed_commit : string) (reviewed_commit_set : list string)
    (resolved_empty_commit_set : bool) (w : W) : W * LoopEnd :=
  if resolved_empty_commit_set && negb (bool_decide (normalize_task_status status = Some "approved"))
  then (w, ErrorResult ("Cannot integrate from status '" +:+ status
              +:+ "'. Only approved subtasks can be integrated into an epic branch."))
  else integrate_loop MAX_LOOPS w
         (mkLoop (initial_state stored reviewed_commit reviewed_commit_set resolved_empty_commit_set)
            resolved_empty_commit_set false).

(** ** Progress of the loop *)

Definition rank (p : IntegrationPhase) : nat :=
  match p with
  | IntegrationPhase.Aborted | IntegrationPhase.CherryPicking => 3
  | IntegrationPhase.Null => 2
  | IntegrationPhase.Resolved | IntegrationPhase.Complete => 1
  end.

(** What a round that goes on leaves: a later phase, and the same commits *)
Definition goes_on (l l' : LoopState) : Prop :=
  rank (in_phase (lo_state l')) < rank (in_phase (lo_state l))
  /\ in_reviewed_commits (lo_state l') = in_reviewed_commits (lo_state l)
  /\ in_phase (lo_state l') <> IntegrationPhase.Complete
  /\ (in_phase (lo_state l) = IntegrationPhase.Null ->
      default status (normalize_task_status status) = "approved").

Lemma reset_Ok prior w w' state : reset_state_for_force_retry now worktree merge_target prior w = (w', Ok state) ->
  in_phase state = IntegrationPhase.Null /\ in_reviewed_commits state = in_reviewed_commits prior.
Proof.
  intros (w1 & [] & _ & Hr)%sm_bind_Ok. destruct (rev_parse_head w1); [|done]. injection Hr as _ <-. done.
Qed.

Lemma after_pick_inl w l r l' : after_pick w l r = inl l' ->
  in_phase (lo_state l') = IntegrationPhase.Resolved
  /\ in_reviewed_commits (lo_state l') = in_reviewed_commits (lo_state l).
Proof. unfold after_pick. destruct r as [|[]]; try done. by intros [= <-]. Qed.

Lemma start_pick_inl w l w' l' : start_pick w l = (w', inl l') ->
  in_phase (lo_state l') = IntegrationPhase.Resolved
  /\ in_reviewed_commits (lo_state l') = in_reviewed_commits (lo_state l).
Proof.
  unfold start_pick. destruct (String.eqb (in_cherry_pick_base_head (lo_state l)) "");
    [destruct (rev_parse_head w) as [head|]; cbn [result_bind]; [|done]|];
    destruct (execute_cherry_picks _ _ _) as [w1 r]; intros [= _ Ha]; by apply after_pick_inl in Ha.
Qed.

Lemma continue_pick_inl w l w' l' : continue_pick w l = (w', inl l') ->
  in_phase (lo_state l') = IntegrationPhase.Resolved
  /\ in_reviewed_commits (lo_state l') = in_reviewed_commits (lo_state l).
Proof.
  unfold continue_pick. destruct (continue_cherry_pick w) as [w1 [[]|]]; [|done].
  destruct (execute_cherry_picks _ _ _) as [w2 r]. intros [= _ Ha]. by apply after_pick_inl in Ha.
Qed.

(** The transitions that do not end the call *)
Lemma transition_cases current p commits :
  let t := next_state current status p commits intent in
  match tr_action t with
  | Action.Verify =>
      tr_new_phase t = IntegrationPhase.Resolved /\ 1 < rank current
      /\ (current = IntegrationPhase.Null -> default status (normalize_task_status status) = "approved")
  | Action.StartCherryPick | Action.ContinueCherryPick =>
      1 < rank current
      /\ (current = IntegrationPhase.Null -> default status (normalize_task_status status) = "approved")
  | Action.ForceReset _ => force = true /\ rank current = 3
  | Action.Finalize =>
      tr_new_phase t = IntegrationPhase.Complete
      /\ (current = IntegrationPhase.Resolved /\ (pr_tree_matches_after p || applied p = true)
          \/ current = IntegrationPhase.Aborted /\ force = false /\ applied p = true)
  | Action.Idempotent => current = IntegrationPhase.Complete /\ force = false
  | Action.Reject _ => True
  end.
Proof.
  unfold next_state, null_transitions, cherry_picking_transitions, cherry_picking_integrate_transitions,
    resolved_transitions, complete_transitions, aborted_transitions, intent. cbn zeta.
  destruct current.
  - destruct (String.eqb_spec (default status (normalize_task_status status)) "approved"); cbn [negb]; [|done].
    destruct (applied p); cbn; split_and!; auto with lia.
  - destruct force.
    + destruct (cherry_picking_force_reset_reason p commits); [done|]. repeat case_match; cbn; split_and?; try done; lia.
    + repeat case_match; cbn; split_and?; try done; lia.
  - destruct (pr_tree_matches_after p || applied p); cbn; auto.
  - destruct force; cbn; auto.
  - destruct force; cbn; [auto|]. destruct (applied p); cbn; auto.
Qed.

Lemma loop_probes_flag w l : exists p skip, loop_probes w l = (p, skip)
  /\ (p = probes_default \/ p = run_git_probes w (lo_state l) merge_target).
Proof. unfold loop_probes. repeat case_match; eauto. Qed.

Lemma round_goes_on w l w' l' : loop_round w l = (w', inl l') -> goes_on l l'.
Proof.
  unfold loop_round. destruct (bool_decide _ && negb force); [done|].
  destruct (loop_probes_flag w l) as (p & skip & -> & _). cbn [lo_state lo_already].
  pose proof (transition_cases (in_phase (lo_state l)) p (in_reviewed_commits (lo_state l))) as Ht. cbn zeta in Ht.
  unfold act, goes_on. cbn [lo_state lo_already lo_skip_probe]. destruct (tr_action _).
  - intros Hs%start_pick_inl. destruct Hs as [-> ->]. cbn. naive_solver lia.
  - intros Hs%continue_pick_inl. destruct Hs as [-> ->]. cbn. naive_solver lia.
  - intros [= _ <-]. cbn. destruct Ht as (-> & Hr & Ha). cbn. auto.
  - done.
  - destruct (reset_state_for_force_retry _ _ _ _ _) as [w1 [st|]] eqn:Hr; [|done]. intros [= _ <-].
    apply reset_Ok in Hr as [Hp Hc]. cbn. rewrite Hp, Hc. destruct Ht as [_ Hrank]. rewrite Hrank. cbn.
    split_and!; [lia|done|done|]. intros Hn. by rewrite Hn in Hrank.
  - destruct (bool_decide _ && _); done.
  - done.
Qed.

(** The two ends that the loop never has *)
Definition proper_end (stop : LoopEnd) : Prop :=
  match stop with NotTerminal _ | AlreadyIntegrated _ => False | _ => True end.

Lemma conflict_end_proper state details : proper_end (conflict_end state details).
Proof. unfold conflict_end. by destruct (persist state). Qed.

Lemma after_pick_proper w l r stop : after_pick w l r = inr stop -> proper_end stop.
Proof. unfold after_pick. destruct r as [|[]]; intros [= <-]; [apply conflict_end_proper|done]. Qed.

Lemma round_proper w l w' stop : loop_round w l = (w', inr stop) -> proper_end stop.
Proof.
  unfold loop_round. destruct (bool_decide_reflect (in_phase (lo_state l) = IntegrationPhase.Complete)) as [Hc|Hc];
    destruct (negb force) eqn:Hf; cbn [andb]; [by intros [= _ <-]|..];
    destruct (loop_probes w l) as [p skip]; cbn [lo_state lo_already];
    pose proof (transition_cases (in_phase (lo_state l)) p (in_reviewed_commits (lo_state l))) as Ht; cbn zeta in Ht;
    unfold act; cbn [lo_state lo_already lo_skip_probe]; destruct (tr_action _).
  all: try (unfold start_pick; destruct (if String.eqb _ _ then _ else _);
    [destruct (execute_cherry_picks _ _ _); intros [= _ Hp]; by apply after_pick_proper in Hp|by intros [= _ <-]]).
  all: try (unfold continue_pick; destruct (continue_cherry_pick w) as [w1 [[]|]];
    [destruct (execute_cherry_picks _ _ _); intros [= _ Hp]; by apply after_pick_proper in Hp
    |intros [= _ <-]; apply conflict_end_proper]).
  all: try (destruct (reset_state_for_force_retry _ _ _ _ _) as [w1 [st|]]; [done|by intros [= _ <-]]).
  all: try (destruct (bool_decide _ && _); intros [= _ <-]; [apply conflict_end_proper|done]).
  all: try by intros [= _ <-].
  all: destruct Ht as [Hp Hforce]; rewrite ?Hforce in Hf; done.
Qed.

Lemma loop_ends : forall rounds w l, rank (in_phase (lo_state l)) <= rounds -> proper_end (integrate_loop rounds w l).2.
Proof.
  induction rounds as [|rounds IH]; intros w l Hrank; [destruct (in_phase (lo_state l)); cbn in Hrank; lia|].
  cbn [integrate_loop]. destruct (loop_round w l) as [w1 [l1|stop]] eqn:Hr.
  - apply round_goes_on in Hr as [Hlt _]. apply IH. lia.
  - by apply round_proper in Hr.
Qed.

(** ** What closes a task *)

(** A commit is on the branch: as an ancestor, as an equal patch, by the trailer of
    a pick, or by its tree. *)
Definition represented (w : W) (s : IntegrationState) (commit : string) : Prop :=
  git_commit_is_ancestor_in w commit merge_target = Ok true
  \/ is_patch_equivalent_in_window_in w commit merge_target = Some true
  \/ In commit (reviewed_commits_with_cherry_pick_trailers w merge_target (in_cherry_pick_base_head s) (in_reviewed_commits s))
  \/ tree_matches_after w commit merge_target = Some true
  \/ tree_matches_after_limited w commit merge_target = Ok (Some true).

Definition all_represented (w : W) (s : IntegrationState) : Prop :=
  forall commit, In commit (in_reviewed_commits s) -> represented w s commit.

(** Any proof of a commit is one of these. *)
Lemma probe_represented w s tree cleared commit :
  let q := probe_commit w merge_target
    (reviewed_commits_with_cherry_pick_trailers w merge_target (in_cherry_pick_base_head s) (in_reviewed_commits s))
    tree cleared commit in
  cp_is_ancestor q || cp_is_patch_equivalent q || cp_has_trailer q || cp_is_applied q || cp_tree_matches q = true ->
  represented w s commit.
Proof.
  unfold represented, probe_commit. cbn [cp_is_ancestor cp_is_patch_equivalent cp_has_trailer cp_is_applied cp_tree_matches].
  destruct (git_commit_is_ancestor_in w commit merge_target) as [[]|]; [auto|..]; cbn [orb].
  all: destruct (is_patch_equivalent_in_window_in w commit merge_target) as [[]|]; [auto|..]; cbn [default orb].
  all: destruct (existsb _ _) eqn:Ht; cbn [orb];
    [intros _; apply existsb_exists in Ht as (x & Hx & ->%String.eqb_eq); auto|].
  all: destruct tree; [destruct (tree_matches_after w commit merge_target) as [[]|]; auto; done|].
  all: destruct cleared; [|done];
    destruct (tree_matches_after_limited w commit merge_target) as [[[]|]|]; auto; done.
Qed.

Lemma forallb_fmap_In {A B} (f : A -> B) (g : B -> bool) l x : forallb g (f <$> l) = true -> In x l -> g (f x) = true.
Proof. intros Hall Hin. rewrite forallb_forall in Hall. apply Hall. by apply in_map. Qed.

Lemma probes_applied w s :
  let p := run_git_probes w s merge_target in
  pr_tree_matches_after p || applied p = true -> all_represented w s.
Proof.
  unfold run_git_probes. cbn zeta. destruct (bool_decide (in_phase s = _) && cherry_pick_in_progress_in w); [done|].
  unfold applied. cbn [pr_tree_matches_after pr_is_ancestor pr_is_patch_equivalent pr_has_reviewed_cherry_pick_trailers pr_reviewed_commits_applied].
  match goal with |- context [probe_commit w merge_target ?l ?t ?c] =>
    pose proof (probe_represented w s t c) as Hrep; set (f := probe_commit w merge_target l t c) in * end.
  intros Hany commit Hin. apply (Hrep commit).
  assert (Hg : exists g, In g [cp_is_ancestor; cp_is_patch_equivalent; cp_has_trailer; cp_is_applied; cp_tree_matches]
    /\ forallb g (f <$> in_reviewed_commits s) = true).
  { apply orb_true_iff in Hany as [Hany|[[[Hany|Hany]%orb_true_iff|Hany]%orb_true_iff|Hany]%orb_true_iff].
    - exists cp_tree_matches. cbn. tauto.
    - exists cp_is_ancestor. cbn. tauto.
    - exists cp_is_patch_equivalent. cbn. tauto.
    - exists cp_has_trailer. split; [cbn; tauto|]. by destruct (in_reviewed_commits s).
    - exists cp_is_applied. cbn. tauto. }
  destruct Hg as (g & Hg & Hall). pose proof (forallb_fmap_In f g _ commit Hall Hin) as Hc. cbn in Hg.
  destruct Hg as [<-|[<-|[<-|[<-|[<-|[]]]]]]; rewrite Hc, ?orb_true_r; done.
Qed.

Lemma round_finalized w l w' s already : loop_round w l = (w', inr (Finalized s already)) ->
  in_reviewed_commits s = in_reviewed_commits (lo_state l)
  /\ in_phase (lo_state l) <> IntegrationPhase.Null
  /\ (in_phase (lo_state l) = IntegrationPhase.Complete /\ force = false \/ all_represented w' s).
Proof.
  unfold loop_round. destruct (bool_decide_reflect (in_phase (lo_state l) = IntegrationPhase.Complete)) as [Hc|Hc].
  { destruct force eqn:Hf; cbn [andb negb].
    - destruct (loop_probes w l) as [p skip]. unfold act. cbn [lo_state]. rewrite Hc. cbn [next_state].
      unfold complete_transitions, intent. rewrite Hf. cbn. done.
    - intros [= <- <- <-]. rewrite Hc. auto. }
  cbn [andb]. destruct (loop_probes_flag w l) as (p & skip & Hp & Hcases). rewrite Hp. cbn [lo_state lo_already].
  pose proof (transition_cases (in_phase (lo_state l)) p (in_reviewed_commits (lo_state l))) as Ht. cbn zeta in Ht.
  unfold act. cbn [lo_state lo_already lo_skip_probe]. destruct (tr_action _) eqn:Ha.
  1-2: unfold start_pick, continue_pick, after_pick, conflict_end; repeat case_match; intros; simplify_eq.
  - done.
  - intros [= <- <- _]. cbn. split; [done|]. destruct Ht as [Hnew Hwhy].
    split; [destruct Hwhy as [[-> _]|[-> _]]; done|]. right.
    destruct Hcases as [->| ->]; [exfalso; destruct Hwhy as [[_ Hd]|(_ & _ & Hd)]; done|].
    apply (probes_applied w (lo_state l)). destruct Hwhy as [[_ Hd]|(_ & _ & ->)]; [done|by rewrite orb_true_r].
  - destruct (reset_state_for_force_retry _ _ _ _ _) as [w1 [st|]]; done.
  - destruct (bool_decide _ && _); [|done]. unfold conflict_end. destruct (persist _); done.
  - destruct (rev_parse_head w); done.
Qed.

Lemma loop_finalized : forall rounds w l w' s already, integrate_loop rounds w l = (w', Finalized s already) ->
  in_reviewed_commits s = in_reviewed_commits (lo_state l)
  /\ (in_phase (lo_state l) = IntegrationPhase.Null -> default status (normalize_task_status status) = "approved")
  /\ (in_phase (lo_state l) = IntegrationPhase.Complete /\ force = false \/ all_represented w' s).
Proof.
  induction rounds as [|rounds IH]; intros w l w' s already; cbn [integrate_loop]; [done|].
  destruct (loop_round w l) as [w1 [l1|stop]] eqn:Hr.
  - intros Hl. apply IH in Hl as (Hc & _ & Hwhy). apply round_goes_on in Hr as (_ & Hc1 & Hne & Hap).
    split; [congruence|]. split; [done|]. right. destruct Hwhy as [[Hcm _]|Hall]; done.
  - intros [= <- ->]. apply round_finalized in Hr as (Hc & Hne & Hwhy). split_and!; [done| |done]. intros Hn. by rewrite Hn in Hne.
Qed.
End integrate.

(** ** Theorems *)


(** C7: Only integrated work closes a task.  When a call finalizes an attempt, every
    reviewed commit is on the branch of the epic in the repository as the call
    leaves it (as an ancestor, as an equal patch, by the trailer of a pick or by
    its tree), except that an attempt already stored as complete, and an approved
    task without commits, are closed as they are; a new attempt is finalized only
    for an approved task. *)
Theorem closes_only_integrated {W} `{Git W} (status merge_target worktree now : string) (force : bool)
    (persist : IntegrationState -> Result unit string) (stored : option IntegrationState) (commit : string)
    (commits : list string) (empty : bool) (w w' : W) (s : IntegrationState) (already : bool) :
  integrate status merge_target worktree now force persist stored commit commits empty w = (w', Finalized s already) ->
  in_reviewed_commits s = match commits with [] => [commit] | l => l end
  /\ (in_phase (read_integration_state stored) = IntegrationPhase.Null ->
      default status (normalize_task_status status) = "approved")
  /\ (all_represented merge_target w' s
      \/ force = false /\ (in_phase (read_integration_state stored) = IntegrationPhase.Complete
                           \/ empty = true /\ normalize_task_status status = Some "approved")).
Proof.
  unfold integrate. destruct (bool_decide_reflect (normalize_task_status status = Some "approved")) as [Happ|Happ];
    destruct empty; cbn [andb negb]; try done; intros (Hc & Hn & Hwhy)%loop_finalized;
    unfold initial_state in Hc, Hn, Hwhy; cbn in Hc, Hn, Hwhy; rewrite ?bool_decide_true, ?bool_decide_false in * by done;
    cbn in Hc, Hn, Hwhy; rewrite Hc.
  - split; [done|]. split; [intros _; by rewrite Happ|]. destruct Hwhy as [[_ Hf]|Hall]; auto.
  - split; [done|]. split; [done|]. destruct Hwhy as [[Hp Hf]|Hall]; auto.
  - split; [done|]. split; [done|]. destruct Hwhy as [[Hp Hf]|Hall]; auto.
Qed.

(** ** A repository with one branch

    Its state is the commits on the branch; picking adds one. *)
Module IntegrationSample.
#[export] Instance sample_git : Git (list string) := {|
  cherry_pick_in_progress_in := fun _ => false;
  cherry_pick_sha_in := fun _ => None;
  unmerged_files := fun _ => Some [];
  rev_parse_head := fun w => Ok (default "root" (head w));
  status_is_clean := fun _ => Some true;
  git_commit_is_ancestor_in := fun w c _ => Ok (existsb (String.eqb c) w);
  is_patch_equivalent_in_window_in := fun _ _ _ => Some false;
  tree_matches_after := fun _ _ _ => Some false;
  tree_matches_after_limited := fun _ _ _ => Ok None;
  reviewed_commits_with_cherry_pick_trailers := fun _ _ _ _ => [];
  can_skip_failed_cherry_pick_as_empty := fun _ _ => false;
  start_cherry_pick := fun c w => (c :: w, Ok ());
  continue_cherry_pick := sm_ret ();
  cherry_pick_quit := sm_ret ();
  reset_hard := fun _ => sm_ret ();
  clean_fd := sm_ret ()
|}.

Definition call (force empty : bool) (w : list string) : list string * LoopEnd :=
  integrate "approved" "epic/1" "wt" "now" force (fun _ => Ok ()) None "c2" ["c1"; "c2"] empty w.

Definition final : IntegrationState :=
  match (call false false ["c1"]).2 with Finalized s _ => s | _ => integration_default end.

Lemma closes_only_integrated_witness :
  call false false ["c1"] = (["c2"; "c1"], Finalized final false)
  /\ in_reviewed_commits final = ["c1"; "c2"]
  /\ all_represented "epic/1" ["c2"; "c1"] final.
Proof.
  assert (Hcall : call false false ["c1"] = (["c2"; "c1"], Finalized final false)) by (vm_compute; reflexivity).
  split; [exact Hcall|].
  destruct (closes_only_integrated "approved" "epic/1" "wt" "now" false (fun _ => Ok ()) None "c2" ["c1"; "c2"] false
    ["c1"] ["c2"; "c1"] final false Hcall) as (Hc & _ & Hwhy).
  split; [exact Hc|]. destruct Hwhy as [Hall|[_ [Hp|[He _]]]]; [exact Hall|discriminate Hp|discriminate He].
Defined.

(** A forced call for an approved task without commits is refused as if it had been
    integrated before; the same call without force closes the task. *)
Lemma forced_empty_set_refused :
  (exists s, (call true true []).2
     = Rejected s "integration already completed; manual revert required before force=true retry")
  /\ exists s, (call false true []).2 = Finalized s true.
Proof. split; eexists; vm_compute; reflexivity. Qed.
End IntegrationSample.
