(* ===== verification/TaskFiles.v ===== *)
(** * Task files of the server (brehon-mcp, task_actions and brehon-types/src/task.rs)

    The server keeps every task as a JSON object in a file of its own.  Here are
    the fields it reads (dependencies.rs), the statuses and the transitions it
    accepts from a caller (lifecycle.rs), and the hierarchy of initiatives, epics
    and tasks (lifecycle.rs, persistence.rs, followups.rs).  An object is a
    finite map, as in [serde_json] without insertion order.  Proved here: which
    updates of a status are accepted, exactly; that an ordinary task is merged or
    closed only by way of a review and an approval that no worker has given, and
    stays so; and that the walks over the hierarchy end when every parent may
    contain its children, while a record that is its own parent keeps them going
    for ever. *)

From S2P Require Import Prelude StrLib Chars Terminal Feedback ShellCommand CodingTools Streaming Integration.

(** ** Objects *)

Abbreviation TaskMap := (gmap string JsonValue).

(** [task.get(key).and_then(|value| value.as_str())] *)
Definition get_str (key : string) (task : TaskMap) : option string := task !! key ≫= json_as_str.

(** [value.as_u64()] *)
Definition json_as_u64 (v : JsonValue) : option Z :=
  match v with JNumber n => if (0 <=? n)%Z && (n <=? u64_max)%Z then Some n else None | _ => None end.

(** [.is_some_and(|value| !value.trim().is_empty())] *)
Definition has_text (key : string) (task : TaskMap) : bool := bool_decide (is_Some (non_blank (get_str key task))).

(** ** Lists of ids (dependencies.rs) *)

(** [trim_start_matches(prefix)], of a non-empty prefix *)
Fixpoint trim_start_matches (fuel : nat) (prefix s : string) : string :=
  match fuel with
  | O => s
  | S fuel => match strip_prefix prefix s with Some rest => trim_start_matches fuel prefix rest | None => s end
  end.

Definition normalize_list_item (item : string) : option string :=
  let text := trim item in
  let text := trim_start_matches (String.length text) "- " text in
  let trimmed := trim (trim_start_matches (String.length text) "* " text) in
  if String.eqb trimmed "" then None else Some trimmed.

(** [iter.collect::<Result<Vec<_>, _>>()]: the first error ends it. *)
Fixpoint collect_all_ok {A E} (l : list (Result A E)) : Result (list A) E :=
  match l with
  | [] => Ok []
  | Ok a :: l => match collect_all_ok l with Ok rest => Ok (a :: rest) | Err e => Err e end
  | Err e :: _ => Err e
  end.

Definition parse_string_list_arg (args : JsonValue) (key : string) : Result (list string) string :=
  match json_get key args with
  | None => Ok []
  | Some (JArray items) =>
      collect_all_ok
        ((fun item => match json_as_str item with
                      | None => Err ("Invalid " +:+ key +:+ ". Expected an array of strings.")
                      | Some s => match normalize_list_item s with
                                  | Some t => Ok t
                                  | None => Err ("Invalid " +:+ key +:+ ". Items must be non-empty strings.")
                                  end
                      end) <$> items)
  | Some (JString text) => Ok (omap normalize_list_item (str_lines text))
  | Some _ => Err ("Invalid " +:+ key +:+ ". Expected a string or array of strings.")
  end.

Definition parse_task_id_list_arg (args : JsonValue) (key : string) : Result (list string) string :=
  match parse_string_list_arg args key with
  | Err e => Err e
  | Ok items =>
      if existsb (fun item => String.eqb (trim item) "") items
      then Err ("Invalid " +:+ key +:+ ". Task IDs must be non-empty strings.")
      else Ok items
  end.

Definition parse_optional_text_arg (args : JsonValue) (key : string) : Result (option string) string :=
  match json_get key args with
  | None => Ok None
  | Some (JString text) => Ok (if String.eqb (trim text) "" then None else Some (trim text))
  | Some _ => Err ("Invalid " +:+ key +:+ ". Expected a string.")
  end.

Definition read_string_list_field (task : TaskMap) (key : string) : list string :=
  omap (fun v => non_blank (json_as_str v)) (default [] (task !! key ≫= json_as_array)).

Definition read_dependency_ids (task : TaskMap) : list string := read_string_list_field task "dependencies".

Definition write_string_list_field (task : TaskMap) (key : string) (values : list string) : TaskMap :=
  match values with
  | [] => delete key task
  | _ => <[key := JArray (JString <$> values)]> task
  end.

(** ** What the text of blockers says (dependencies.rs) *)

Definition mentions (text : string) (l : list string) : bool := existsb (fun s => contains s text) l.

(** The text of the field, trimmed, unless it is blank *)
Definition blockers_text (task : TaskMap) : option string := non_blank (get_str "blockers" task).

Definition task_has_dependency_scoped_blocker_text (task : TaskMap) : bool :=
  match blockers_text task with
  | None => false
  | Some blockers =>
      match read_dependency_ids task with
      | [] => false
      | dependencies =>
          existsb (fun id => contains id blockers) dependencies
          || mentions (to_ascii_lowercase blockers)
               ["dependency dag"; "dependency"; "dependencies complete"; "once unblocked"; "still inprogress";
                "still in progress"; "until those dependencies complete"]
      end
  end.

Definition task_has_recoverable_worker_state_blocker_text (task : TaskMap) : bool :=
  match blockers_text task with
  | None => false
  | Some blockers =>
      let lower := to_ascii_lowercase blockers in
      let has := fun s => contains s lower in
      mentions lower
        ["state deadlock"; "assignment mismatch"; "assignee mismatch"; "complete call reports task assigned";
         "reports task assigned to"; "assigned to '' not"; "assigned to '' instead"; "assigned to '' rather than";
         "empty string instead"; "pending/unassigned while work was in progress"; "cannot checkpoint/complete";
         "complete is rejected because"; "checkpoint created during pending state";
         "could not move it to review_ready"; "requires supervisor reassignment"; "supervisor-side reassignment";
         "need reassignment to complete"; "not permitted to complete"; "ownership drift"; "ownership fix";
         "preventing worker completion handoff"; "rejects completion from non-assignee";
         "worker progress updates are rejected"]
      || (has "invalid status transition" && has "'pending'" && has "'in_progress'")
      || (has "invalid status transition" && has "'blocked'" && has "'in_progress'")
      || (has "invalid transition" && has "pending" && has "in_progress")
      || (has "invalid transition" && has "blocked" && has "in_progress")
  end.

Definition task_has_manual_blockers (task : TaskMap) : bool :=
  match blockers_text task with
  | None => false
  | Some _ =>
      negb (task_has_dependency_scoped_blocker_text task)
      && negb (task_has_recoverable_worker_state_blocker_text task)
  end.

(** [format!("{blockers}\n{notes}").to_ascii_lowercase()] *)
Definition blockers_and_notes (task : TaskMap) : string :=
  to_ascii_lowercase (default "" (get_str "blockers" task) +:+ NL +:+ default "" (get_str "notes" task)).

Definition task_has_recoverable_review_checkpoint_blocker_text (task : TaskMap) : bool :=
  let text := blockers_and_notes task in
  let has_checkpointed_fix_marker := mentions text ["checkpoint fix"; "checkpointed fix"; "fix is checkpointed"] in
  let has_environment_blocked_validation_marker :=
    mentions text ["validation is blocked"; "validation blocked"; "phase gate cannot pass"; "gate cannot pass"]
    && mentions text ["sandbox"; "environment"; "tool availability"; "restricted"] in
  let has_completion_marker :=
    mentions text ["addressed"; "resolved"; "fixed"; "implemented"; "completed"; "complete"; "work is done";
                   "ready for review"; "review_ready"; "review-ready"; "re-request review"; "rerequest review"]
    || has_checkpointed_fix_marker || has_environment_blocked_validation_marker in
  mentions text ["checkpoint"; "latest_commit"; "latest commit"; "recorded commit"] && has_completion_marker.

Definition task_has_recoverable_environment_limited_checkpoint (task : TaskMap) : bool :=
  let text := blockers_and_notes task in
  mentions text ["checkpoint"; "latest_commit"; "latest commit"; "recorded commit"]
  && mentions text ["completed checkpoint"; "checkpoint includes"; "passing evidence"; "found and fixed"; "fixed a";
                    "updated"; "work is done"]
  && mentions text ["validation cannot be completed"; "final validation cannot be completed";
                    "remaining final validation"; "remaining validation"; "phase validation is blocked";
                    "validation is blocked"; "environment blockers"; "local environment blockers"]
  && mentions text ["sandbox"; "environment"; "tooling"; "toolchain"; "network/dns"; "operation not permitted";
                    "af_unix"; "go "; "advisory database"; "advisory db"; "timed out"].

Definition task_has_operator_directed_checkpoint_recovery (task : TaskMap) : bool :=
  let text := blockers_and_notes task in
  mentions text ["checkpoint"; "latest_commit"; "latest commit"; "stale checkpoint"]
  && (mentions text ["recover_handoff"; "checkpoint-review discharge"]
      || (contains "review_ready" text && mentions text ["adjudicat"; "archive"])).

Definition task_has_resolved_external_unblock_marker (task : TaskMap) (reason : option string) : bool :=
  let text := to_ascii_lowercase (default "" (get_str "blockers" task) +:+ NL +:+ default "" (get_str "notes" task)
                                  +:+ NL +:+ default "" reason) in
  let resolved := mentions text ["resolved"; "available"; "re-pinned"; "repinned"; "updated"; "satisfied"; "cleared"] in
  let external := mentions text ["external"; "environment"; "sdk"; "pin"; "client"; "missing api"; "tool availability"] in
  let worker_frontier := mentions text ["worker frontier"; "rework"; "reassignment"; "reassign";
                                        "normal implementation"; "return to pending"] in
  (resolved && external && worker_frontier)
  || mentions text ["external blocker resolved"; "external prerequisite is now satisfied"].

Definition task_has_integrated_record (task : TaskMap) : bool :=
  bool_decide (trim <$> get_str "integration_status" task = Some "integrated") || has_text "merged_commit" task.

Definition task_review_feedback_outcome (task : TaskMap) : option string :=
  to_ascii_lowercase <$> non_blank ((task !! "review_feedback" ≫= json_get "outcome") ≫= json_as_str).

Definition task_has_final_review_feedback (task : TaskMap) : bool :=
  match task_review_feedback_outcome task with
  | Some outcome => is_one_of ["approved"; "rejected"] outcome
  | None => false
  end.

Definition task_has_legacy_completed_worker_status (task : TaskMap) : bool :=
  String.eqb (default "task" (get_str "task_type" task)) "task"
  && is_one_of ["complete"; "Complete"; "completed"; "Completed"] (default "" (trim <$> get_str "status" task)).

(** ** Statuses (task.rs and lifecycle.rs) *)

Module TaskCompletionMode.
Inductive TaskCompletionMode := Merge | Close.
End TaskCompletionMode.
Abbreviation TaskCompletionMode := TaskCompletionMode.TaskCompletionMode.

Definition parse_task_completion_mode (mode : string) : option TaskCompletionMode :=
  if is_one_of ["merge"; "Merge"] (trim mode) then Some TaskCompletionMode.Merge
  else if is_one_of ["close"; "Close"] (trim mode) then Some TaskCompletionMode.Close
  else None.

Definition infer_task_completion_mode (title description : string) : TaskCompletionMode :=
  let haystack := to_ascii_lowercase (title +:+ NL +:+ description) in
  if mentions haystack
       ["audit"; "audit-only"; "audit only"; "no code"; "no-code"; "no code changes"; "no-code changes"; "research";
        "investigation"; "analysis"; "design review"; "design doc"; "documentation only"; "docs only"]
  then TaskCompletionMode.Close else TaskCompletionMode.Merge.

Definition is_terminal_task_status (status : string) : bool :=
  match normalize_task_status status with Some s => is_one_of ["merged"; "closed"] s | None => false end.

Definition is_container_task (task_type : string) : bool := is_one_of ["initiative"; "epic"] task_type.

Definition allows_parent (task_type : string) : bool := negb (String.eqb task_type "initiative").

Definition parent_can_contain (parent_type child_type : string) : bool :=
  (String.eqb parent_type "initiative" && String.eqb child_type "epic")
  || (String.eqb parent_type "epic" && String.eqb child_type "task").

Definition task_completion_mode_from_fields (task_type title description : string) (explicit_mode : option string) :
    TaskCompletionMode :=
  if is_container_task task_type then TaskCompletionMode.Close
  else match explicit_mode ≫= parse_task_completion_mode with
       | Some mode => mode
       | None => infer_task_completion_mode title description
       end.

Definition task_completion_mode_from_task (task : TaskMap) : TaskCompletionMode :=
  task_completion_mode_from_fields (default "task" (get_str "task_type" task)) (default "" (get_str "title" task))
    (default "" (get_str "description" task)) (get_str "completion_mode" task).

Definition close_terminal_status (current_status task_type : string) (completion_mode : TaskCompletionMode) : string :=
  if bool_decide (normalize_task_status current_status = Some "approved") && negb (is_container_task task_type)
  then match completion_mode with TaskCompletionMode.Merge => "merged" | TaskCompletionMode.Close => "closed" end
  else "closed".

Definition task_has_merge_flow_state (task : TaskMap) : bool :=
  has_text "merge_target" task || has_text "latest_commit" task || has_text "merged_commit" task
  || match get_str "integration_status" task with
     | Some v => negb (String.eqb v "not_applicable") && negb (String.eqb (trim v) "")
     | None => false
     end.

(** The guards by role: the message of a refusal *)
Definition role_refusal (current proposed caller_role : string) : option string :=
  if String.eqb proposed "approved" && String.eqb caller_role "worker" then
    Some "Workers cannot set status to 'approved'. Tasks must go through the review pipeline."
  else if String.eqb proposed "changes_requested" && String.eqb current "approved"
          && negb (String.eqb caller_role "supervisor") then
    Some "Only supervisors can reopen an approved task for another review round."
  else if String.eqb proposed "merged" && negb (String.eqb caller_role "supervisor") then
    Some "Only supervisors can set status to 'merged'. Approved tasks must be merged by the supervisor."
  else if String.eqb proposed "closed" && negb (String.eqb caller_role "supervisor") then
    Some ("Only supervisors can set status to 'closed'. Approved close-mode tasks, epics, and initiatives "
          +:+ "must be closed by the supervisor.")
  else None.

(** The table of transitions *)
Definition valid_transitions (current : string) (completion_mode : TaskCompletionMode) : list string :=
  if String.eqb current "pending" then ["assigned"; "blocked"]
  else if String.eqb current "assigned" then ["in_progress"; "pending"]
  else if String.eqb current "in_progress" then ["review_ready"; "in_review"; "blocked"; "pending"]
  else if String.eqb current "review_ready" then ["in_review"; "changes_requested"; "pending"]
  else if String.eqb current "in_review" then ["changes_requested"; "approved"; "pending"; "blocked"]
  else if String.eqb current "changes_requested" then ["in_progress"; "review_ready"; "blocked"]
  else if String.eqb current "approved" then
    match completion_mode with
    | TaskCompletionMode.Merge => ["merged"; "changes_requested"]
    | TaskCompletionMode.Close => ["closed"; "changes_requested"]
    end
  else if String.eqb current "blocked" then ["pending"]
  else [].

Definition ARROW : string := utf8 [226; 134; 146].

Definition validate_status_transition (current proposed caller_role task_type : string)
    (completion_mode : TaskCompletionMode) : Result unit string :=
  match normalize_task_status current with
  | None => Err ("Unknown current task status: '" +:+ current +:+ "'")
  | Some from =>
      match normalize_task_status proposed with
      | None => Err ("Unknown proposed task status: '" +:+ proposed +:+ "'")
      | Some to =>
          if String.eqb from to then Ok tt
          else match role_refusal from to caller_role with
               | Some reason => Err reason
               | None =>
                   if is_container_task task_type then Ok tt
                   else
                     let valid := valid_transitions from completion_mode in
                     if is_one_of valid to then Ok tt
                     else Err ("Invalid status transition: '" +:+ from +:+ "' " +:+ ARROW +:+ " '" +:+ to
                               +:+ "'. Valid transitions from '" +:+ from +:+ "': "
                               +:+ match valid with [] => "none (terminal state)" | _ => join ", " valid end)
               end
      end
  end.

Definition clear_terminal_task_ownership (task : TaskMap) : TaskMap :=
  delete "activity" (<["review_owner" := JNull]> (<["assignee" := JNull]> task)).

Definition task_has_started_worker_execution (task : TaskMap) : bool :=
  has_text "assignee" task
  && (match task !! "percent" ≫= json_as_u64 with Some percent => (0 <? percent)%Z | None => false end
      || has_text "latest_commit" task).

(** ** The hierarchy (lifecycle.rs, persistence.rs, followups.rs) *)

Definition direct_children (all : list TaskMap) (parent_id : string) : list TaskMap :=
  List.filter (fun t => bool_decide (get_str "parent_id" t = Some parent_id)) all.

Definition find_task (all : list TaskMap) (id : string) : option TaskMap :=
  List.find (fun t => bool_decide (get_str "task_id" t = Some id)) all.

(** The loops over the hierarchy have no bound of their own: [None] when the
    fuel does not suffice. *)
Fixpoint closed_ancestor (fuel : nat) (all : list TaskMap) (current_parent : option string) : option bool :=
  match fuel with
  | O => None
  | S fuel =>
      match current_parent with
      | None => Some false
      | Some parent_id =>
          match find_task all parent_id with
          | None => Some false
          | Some parent =>
              if is_terminal_task_status (default "" (get_str "status" parent)) then Some true
              else closed_ancestor fuel all (get_str "parent_id" parent)
          end
      end
  end.

Definition ancestor_chain_has_closed_parent (fuel : nat) (all : list TaskMap) (task : TaskMap) : option bool :=
  closed_ancestor fuel all (get_str "parent_id" task).

Definition child_ids (all : list TaskMap) (parent_id : string) : list string :=
  omap (get_str "task_id") (direct_children all parent_id).

(** [collect_descendant_ids_postorder]: the ids it pushes *)
Fixpoint descendants_postorder (fuel : nat) (all : list TaskMap) (parent_id : string) : option (list string) :=
  match fuel with
  | O => None
  | S fuel =>
      foldl (fun out child_id => out ≫= fun out =>
               descendants_postorder fuel all child_id ≫= fun sub => Some (out ++ sub ++ [child_id]))
        (Some []) (child_ids all parent_id)
  end.

(** The stack of [collect_descendant_task_ids], its top first *)
Fixpoint collect_descendants (fuel : nat) (all : list TaskMap) (stack collected : list string) : option (list string) :=
  match stack with
  | [] => Some collected
  | current :: stack =>
      match fuel with
      | O => None
      | S fuel =>
          let children := child_ids all current in
          collect_descendants fuel all (reverse children ++ stack) (collected ++ children)
      end
  end.

Definition collect_descendant_task_ids (fuel : nat) (all : list TaskMap) (parent_id : string) : option (list string) :=
  collect_descendants fuel all [parent_id] [].

(** ** Statuses: lemmas *)

Lemma normalize_known s n : normalize_task_status s = Some n -> n ∈ snd <$> status_names.
Proof.
  unfold normalize_task_status. intros (p & Hf & ->)%fmap_Some. apply find_some in Hf as [Hin _].
  apply list_elem_of_fmap. exists p. split; [done|]. by apply list_elem_of_In.
Qed.

Lemma is_one_of_spec l s : is_one_of l s = true <-> s ∈ l.
Proof.
  unfold is_one_of. rewrite existsb_exists. setoid_rewrite <-list_elem_of_In.
  split; [intros (x & Hx & Heq)|intros H; exists s]; [|by rewrite String.eqb_refl].
  apply String.eqb_eq in Heq. by subst.
Qed.

(** What an accepted update means when it changes the status of an ordinary task *)
Lemma accepted_change current proposed role task_type mode from to :
  validate_status_transition current proposed role task_type mode = Ok tt ->
  normalize_task_status current = Some from -> normalize_task_status proposed = Some to ->
  from <> to -> is_container_task task_type = false ->
  role_refusal from to role = None /\ to ∈ valid_transitions from mode.
Proof.
  unfold validate_status_transition. intros Hv Hfrom Hto Hne Hc. rewrite Hfrom, Hto in Hv. revert Hv.
  destruct (String.eqb_spec from to) as [|_]; [done|]. destruct (role_refusal from to role); [done|].
  rewrite Hc. destruct (is_one_of _ to) eqn:Hin; [|done]. by apply is_one_of_spec in Hin.
Qed.

Lemma accepted_known current proposed role task_type mode :
  validate_status_transition current proposed role task_type mode = Ok tt ->
  is_Some (normalize_task_status current) /\ is_Some (normalize_task_status proposed).
Proof.
  unfold validate_status_transition. destruct (normalize_task_status current); [|done].
  by destruct (normalize_task_status proposed).
Qed.

Lemma into_done from to mode : to = "merged" \/ to = "closed" -> to ∈ valid_transitions from mode -> from = "approved".
Proof.
  intros Hto Hin. destruct (String.eqb_spec from "approved") as [->|Hne]; [done|]. exfalso.
  apply String.eqb_neq in Hne. unfold valid_transitions in Hin. rewrite Hne in Hin.
  destruct Hto as [->| ->]; repeat case_match; set_solver.
Qed.

Lemma into_approved from mode : "approved" ∈ valid_transitions from mode -> from = "in_review".
Proof.
  intros Hin. destruct (String.eqb_spec from "in_review") as [->|Hne]; [done|]. exfalso.
  apply String.eqb_neq in Hne. unfold valid_transitions in Hin. rewrite Hne in Hin. repeat case_match; set_solver.
Qed.

Lemma from_done from to mode : from = "merged" \/ from = "closed" -> to ∉ valid_transitions from mode.
Proof. intros [->| ->]; cbn; set_solver. Qed.

Lemma done_by_supervisor from to role :
  to = "merged" \/ to = "closed" -> role_refusal from to role = None -> role = "supervisor".
Proof.
  unfold role_refusal. intros Hto. destruct (String.eqb_spec role "supervisor"); [done|].
  destruct Hto as [->| ->]; cbn; [|]; repeat case_match; done.
Qed.

Lemma approved_not_by_worker from role : role_refusal from "approved" role = None -> role <> "worker".
Proof. unfold role_refusal. by intros H ->. Qed.

(** ** Sequences of updates *)

(** One accepted call: the role of the caller, the status proposed and the
    completion mode of the task at that time. *)
Definition StatusUpdate : Type := string * string * TaskCompletionMode.

Inductive updates (task_type : string) : string -> list StatusUpdate -> string -> Prop :=
| updates_none s : updates task_type s [] s
| updates_one s role proposed mode steps s' :
    validate_status_transition s proposed role task_type mode = Ok tt ->
    updates task_type proposed steps s' ->
    updates task_type s ((role, proposed, mode) :: steps) s'.

Lemma updates_cut task_type s before step after s' :
  updates task_type s (before ++ step :: after) s' -> updates task_type step.1.2 after s'.
Proof.
  revert s. induction before as [|[[r p] m] before IH]; intros s; inversion 1; subst; [done|eauto].
Qed.

(** A status the task did not have was set by one of the updates. *)
Lemma change_into task_type s0 steps s to :
  updates task_type s0 steps s -> normalize_task_status s = Some to -> normalize_task_status s0 <> Some to ->
  exists before role proposed mode after s1 from,
    steps = before ++ (role, proposed, mode) :: after /\ updates task_type s0 before s1
    /\ validate_status_transition s1 proposed role task_type mode = Ok tt
    /\ normalize_task_status s1 = Some from /\ from <> to /\ normalize_task_status proposed = Some to.
Proof.
  induction 1 as [s0|s0 role proposed mode steps s Hv Hu IH]; intros Hs Hne; [done|].
  destruct (accepted_known _ _ _ _ _ Hv) as [[from Hfrom] _].
  destruct (decide (normalize_task_status proposed = Some to)) as [Hto|Hto].
  - exists [], role, proposed, mode, steps, s0, from. split_and!; try done; [constructor|congruence].
  - destruct (IH Hs Hto) as (before & r & p & m & after & s1 & from' & -> & Hb & Hrest).
    exists ((role, proposed, mode) :: before), r, p, m, after, s1, from'. split; [done|]. split; [|done].
    by econstructor.
Qed.

Lemma done_is_final task_type s steps s' :
  is_container_task task_type = false -> updates task_type s steps s' -> is_terminal_task_status s = true ->
  normalize_task_status s' = normalize_task_status s.
Proof.
  intros Hc. induction 1 as [|s role proposed mode steps s' Hv Hu IH]; [done|]. intros Hs.
  destruct (accepted_known _ _ _ _ _ Hv) as [[from Hfrom] [to Hto]].
  assert (from = to) as <-.
  { destruct (decide (from = to)) as [|Hne]; [done|]. exfalso.
    destruct (accepted_change _ _ _ _ _ _ _ Hv Hfrom Hto Hne Hc) as [_ Hin].
    apply from_done in Hin; [done|]. unfold is_terminal_task_status in Hs. rewrite Hfrom in Hs.
    apply is_one_of_spec in Hs. set_solver. }
  rewrite IH; [congruence|]. unfold is_terminal_task_status in *. rewrite Hto. by rewrite Hfrom in Hs.
Qed.

(** ** An ordinary task is finished by way of a review *)

(** C9: When a status of an ordinary task is updated from [pending] on by accepted
    calls and ends as merged or closed, a supervisor has finished it, from
    [approved]; before that, somebody who is not a worker has approved it, from
    [in_review]; and no later call changes it again. *)
Theorem finished_only_by_review (task_type : string) (steps : list StatusUpdate) (s final : string) :
  is_container_task task_type = false ->
  updates task_type "pending" steps s ->
  normalize_task_status s = Some final -> final = "merged" \/ final = "closed" ->
  (exists before reviewer proposed mode between proposed' mode' after in_review approved,
    steps = before ++ (reviewer, proposed, mode) :: between ++ ("supervisor", proposed', mode') :: after
    /\ updates task_type "pending" before in_review /\ normalize_task_status in_review = Some "in_review"
    /\ normalize_task_status proposed = Some "approved" /\ reviewer <> "worker"
    /\ updates task_type proposed between approved /\ normalize_task_status approved = Some "approved"
    /\ normalize_task_status proposed' = Some final)
  /\ (forall later s', updates task_type s later s' -> normalize_task_status s' = Some final).
Proof.
  intros Hc Hu Hs Hfinal. split.
  - assert (Hne : normalize_task_status "pending" <> Some final) by (destruct Hfinal as [-> | ->]; by vm_compute).
    destruct (change_into _ _ _ _ _ Hu Hs Hne) as (B & role & p' & m' & after & s1 & from & -> & HB & Hv & Hfrom & Hdiff & Hp').
    destruct (accepted_change _ _ _ _ _ _ _ Hv Hfrom Hp' Hdiff Hc) as [Hrole Hin].
    pose proof (done_by_supervisor _ _ _ Hfinal Hrole) as ->.
    pose proof (into_done _ _ _ Hfinal Hin) as ->.
    assert (Hna : normalize_task_status "pending" <> Some "approved") by by vm_compute.
    destruct (change_into _ _ _ _ _ HB Hfrom Hna)
      as (before & r & p & m & between & s0 & from0 & -> & Hbefore & Hv0 & Hfrom0 & Hdiff0 & Hp).
    destruct (accepted_change _ _ _ _ _ _ _ Hv0 Hfrom0 Hp Hdiff0 Hc) as [Hrole0 Hin0].
    pose proof (into_approved _ _ Hin0) as ->. apply updates_cut in HB.
    exists before, r, p, m, between, p', m', after, s0, s1. rewrite <-app_assoc.
    split_and!; try done. by eapply approved_not_by_worker.
  - intros later s' Hl. rewrite (done_is_final _ _ _ _ Hc Hl); [done|].
    unfold is_terminal_task_status. rewrite Hs. by destruct Hfinal as [-> | ->].
Qed.

(** An update by which a supervisor closes an audit that a reviewer approved *)
Definition audit_run : list StatusUpdate :=
  [("supervisor", "assigned", TaskCompletionMode.Close); ("worker", "in_progress", TaskCompletionMode.Close);
   ("worker", "Completed", TaskCompletionMode.Close); ("supervisor", "in_review", TaskCompletionMode.Close);
   ("reviewer", "approved", TaskCompletionMode.Close); ("supervisor", "closed", TaskCompletionMode.Close)].

Lemma finished_only_by_review_witness :
  updates "task" "pending" audit_run "closed"
  /\ (forall later s', updates "task" "closed" later s' -> normalize_task_status s' = Some "closed").
Proof.
  assert (Hu : updates "task" "pending" audit_run "closed") by (repeat (econstructor; [by vm_compute|]); constructor).
  split; [exact Hu|].
  exact (proj2 (finished_only_by_review "task" audit_run "closed" "closed" eq_refl Hu eq_refl (or_intror eq_refl))).
Defined.

(** ** The walks over the hierarchy *)

Definition type_rank (task_type : string) : nat :=
  if String.eqb task_type "initiative" then 2 else if String.eqb task_type "epic" then 1 else 0.

Definition type_of (task : TaskMap) : string := default "task" (get_str "task_type" task).

(** Whoever names a record as its parent may be contained by it. *)
Definition well_nested (all : list TaskMap) : Prop :=
  forall parent child id, parent ∈ all -> child ∈ all -> get_str "task_id" parent = Some id ->
    get_str "parent_id" child = Some id -> parent_can_contain (type_of parent) (type_of child) = true.

Lemma contained_rank p c : parent_can_contain p c = true -> type_rank c < type_rank p.
Proof.
  unfold parent_can_contain, type_rank. intros [[Hp Hc]%andb_true_iff|[Hp Hc]%andb_true_iff]%orb_true_iff;
    apply String.eqb_eq in Hp, Hc; subst; cbn; lia.
Qed.

Section walks.
Context (all : list TaskMap) (Hnested : well_nested all).

(** The record of this id has this rank or less. *)
Definition ranked (r : nat) (id : string) : Prop :=
  exists t, t ∈ all /\ get_str "task_id" t = Some id /\ type_rank (type_of t) <= r.

Lemma child_ranked r id child : ranked r id -> child ∈ child_ids all id -> exists r', r = S r' /\ ranked r' child.
Proof.
  intros (t & Ht & Hid & Hr). unfold child_ids, direct_children. intros (c & Hc & Hcid)%list_elem_of_omap.
  apply list_elem_of_In, filter_In in Hc as [Hc Hp]. apply list_elem_of_In in Hc. apply bool_decide_eq_true in Hp.
  pose proof (contained_rank _ _ (Hnested _ _ _ Ht Hc Hid Hp)) as Hlt. destruct r as [|r]; [lia|].
  exists r. split; [done|]. exists c. split_and!; [done|done|lia].
Qed.

(** The two walks, each from one id *)
Definition postorder_gives (r : nat) (id : string) (ids : list string) : Prop :=
  forall fuel, r < fuel -> descendants_postorder fuel all id = Some ids.

Definition stack_gives (id : string) (ids : list string) : Prop :=
  forall k stack collected, exists l, l ≡ₚ ids
    /\ collect_descendants (S (length ids) + k) all (id :: stack) collected
       = collect_descendants k all stack (collected ++ l).

Definition with_children (cs : list string) (subs : list (list string)) : list string :=
  concat (zip_with (fun c sub => sub ++ [c]) cs subs).

Lemma with_children_perm cs subs : length cs = length subs -> with_children cs subs ≡ₚ cs ++ concat subs.
Proof.
  unfold with_children. revert subs. induction cs as [|c cs IH]; intros [|sub subs] Hlen; try done.
  cbn. rewrite IH by (cbn in Hlen; lia). solve_Permutation.
Qed.

Lemma postorder_fold r cs subs fuel out :
  Forall2 (postorder_gives r) cs subs -> r < fuel ->
  foldl (fun out child_id => out ≫= fun out =>
           descendants_postorder fuel all child_id ≫= fun sub => Some (out ++ sub ++ [child_id])) (Some out) cs
  = Some (out ++ with_children cs subs).
Proof.
  intros Hf Hfuel. revert out. induction Hf as [|c sub cs subs Hc _ IH]; intros out; cbn [foldl].
  - by rewrite app_nil_r.
  - cbn. rewrite (Hc fuel) by done. cbn. rewrite IH. unfold with_children. cbn. by rewrite <-!app_assoc.
Qed.

Lemma stack_drains ds subs :
  Forall2 stack_gives ds subs -> forall k stack collected, exists l, l ≡ₚ concat subs
    /\ collect_descendants (length ds + length (concat subs) + k) all (ds ++ stack) collected
       = collect_descendants k all stack (collected ++ l).
Proof.
  induction 1 as [|d sub ds subs Hd _ IH]; intros k stack collected.
  - exists []. by rewrite app_nil_r.
  - destruct (Hd (length ds + length (concat subs) + k) (ds ++ stack) collected) as (l1 & Hl1 & E1).
    destruct (IH k stack (collected ++ l1)) as (l2 & Hl2 & E2). exists (l1 ++ l2). split.
    + cbn. by rewrite Hl1, Hl2.
    + cbn [concat]. rewrite length_app, app_assoc, <-E2, <-E1. f_equal. cbn [length]. lia.
Qed.

Lemma walks_end r : forall id, ranked r id -> exists ids, postorder_gives r id ids /\ stack_gives id ids.
Proof.
  induction r as [r IH] using lt_wf_ind. intros id Hid.
  assert (Hcs : exists subs, Forall2 (fun c sub => (exists r', r = S r' /\ postorder_gives r' c sub) /\ stack_gives c sub)
                               (child_ids all id) subs).
  { apply Forall_exists_Forall2_l, Forall_forall. intros c Hc.
    destruct (child_ranked _ _ _ Hid Hc) as (r' & -> & Hr'). destruct (IH r' ltac:(lia) c Hr') as (ids & H1 & H2). eauto. }
  destruct Hcs as [subs Hsubs]. exists (with_children (child_ids all id) subs).
  pose proof (Forall2_length _ _ _ Hsubs) as Hlen. split.
  - intros [|fuel] Hfuel; [lia|]. cbn [descendants_postorder]. destruct r as [|r].
    + destruct Hsubs as [|c sub cs subs [(r' & Hr & _) _] _]; [done|lia].
    + rewrite (postorder_fold r _ subs); [done| |lia]. eapply Forall2_impl; [exact Hsubs|]. naive_solver.
  - intros k stack collected.
    destruct (stack_drains (reverse (child_ids all id)) (reverse subs)
                ltac:(apply Forall2_reverse; eapply Forall2_impl; [exact Hsubs|naive_solver])
                k stack (collected ++ child_ids all id)) as (l & Hl & E).
    exists (child_ids all id ++ l). split; [rewrite with_children_perm, Hl by done; by rewrite reverse_Permutation|].
    rewrite app_assoc, <-E. cbn [collect_descendants Nat.add]. f_equal.
    rewrite with_children_perm, length_app, length_reverse by done. by rewrite reverse_Permutation.
Qed.
End walks.

(** The chain of parents goes up in rank. *)
Lemma ancestors_end (all : list TaskMap) : well_nested all -> forall fuel t,
  t ∈ all -> 2 - type_rank (type_of t) < fuel -> is_Some (closed_ancestor (S fuel) all (get_str "parent_id" t)).
Proof.
  intros Hn. induction fuel as [|fuel IH]; intros t Ht Hfuel; [lia|].
  change (is_Some (match get_str "parent_id" t with
    | None => Some false
    | Some parent_id =>
        match find_task all parent_id with
        | None => Some false
        | Some parent => if is_terminal_task_status (default "" (get_str "status" parent)) then Some true
                         else closed_ancestor (S fuel) all (get_str "parent_id" parent)
        end
    end)).
  destruct (get_str "parent_id" t) as [p|] eqn:Hp; [|done].
  destruct (find_task all p) as [parent|] eqn:Hf; [|done]. case_match; [done|].
  apply find_some in Hf as [Hin Hid]. apply list_elem_of_In in Hin. apply bool_decide_eq_true in Hid.
  pose proof (contained_rank _ _ (Hn _ _ _ Hin Ht Hid Hp)) as Hlt.
  apply IH; [done|]. assert (type_rank (type_of parent) <= 2) by (unfold type_rank; repeat case_match; lia). lia.
Qed.

Lemma foldl_None {A B} (f : A -> B -> option A) (l : list B) :
  foldl (fun acc x => acc ≫= fun a => f a x) None l = None.
Proof. by induction l. Qed.

Lemma foldl_None_elem {A B} (f : A -> B -> option A) (l : list B) x :
  x ∈ l -> (forall a, f a x = None) -> forall acc, foldl (fun acc x => acc ≫= fun a => f a x) acc l = None.
Proof.
  intros Hx Hf. induction Hx as [x l|x y l Hx IH]; intros acc; cbn [foldl]; [|by apply IH].
  destruct acc as [a|]; cbn; [rewrite Hf|]; apply foldl_None.
Qed.

(** A record that is its own parent *)
Lemma self_postorder all id fuel : id ∈ child_ids all id -> descendants_postorder fuel all id = None.
Proof.
  intros Hc. induction fuel as [|fuel IH]; [done|]. cbn [descendants_postorder].
  apply (foldl_None_elem (fun out child_id => descendants_postorder fuel all child_id ≫= fun sub =>
           Some (out ++ sub ++ [child_id])) _ id Hc). intros out. by rewrite IH.
Qed.

Lemma self_stack all id : id ∈ child_ids all id -> forall fuel stack collected,
  id ∈ stack -> collect_descendants fuel all stack collected = None.
Proof.
  intros Hc. induction fuel as [|fuel IH]; intros [|current stack] collected Hin; cbn; try done; [set_solver..|].
  apply IH. apply elem_of_cons in Hin as [<-|Hin]; set_solver.
Qed.

Lemma self_ancestor all id t : find_task all id = Some t -> get_str "parent_id" t = Some id ->
  is_terminal_task_status (default "" (get_str "status" t)) = false ->
  forall fuel, closed_ancestor fuel all (Some id) = None.
Proof. intros Hf Hp Hs. induction fuel as [|fuel IH]; [done|]. cbn [closed_ancestor]. by rewrite Hf, Hs, Hp. Qed.

(** When every parent may contain its children, the walks over the hierarchy
    end: the two collections of descendants, the recursive one and the one with
    a stack, find the same records, and the search for a closed ancestor gives
    an answer.  The source bounds none of them: a record that is its own parent
    keeps all three going, whatever else is there. *)
Theorem hierarchy_walks_end (all : list TaskMap) (t : TaskMap) (id : string) :
  t ∈ all -> get_str "task_id" t = Some id ->
  (well_nested all ->
    exists ids, descendants_postorder 3 all id = Some ids
    /\ (exists l, l ≡ₚ ids /\ collect_descendant_task_ids (S (length ids)) all id = Some l)
    /\ is_Some (ancestor_chain_has_closed_parent 4 all t))
  /\ (get_str "parent_id" t = Some id -> find_task all id = Some t ->
      is_terminal_task_status (default "" (get_str "status" t)) = false ->
      forall fuel, descendants_postorder fuel all id = None /\ collect_descendant_task_ids fuel all id = None
        /\ ancestor_chain_has_closed_parent fuel all t = None).
Proof.
  intros Ht Hid. split.
  - intros Hn. assert (Hr : ranked all 2 id).
    { exists t. split_and!; [done|done|]. unfold type_rank. repeat case_match; lia. }
    destruct (walks_end all Hn 2 id Hr) as (ids & Hpost & Hstack). exists ids. split; [apply Hpost; lia|]. split.
    + destruct (Hstack 0 [] []) as (l & Hl & E). exists l. split; [done|].
      unfold collect_descendant_task_ids. by rewrite Nat.add_0_r in E.
    + unfold ancestor_chain_has_closed_parent. apply ancestors_end; [done|done|lia].
  - intros Hp Hf Hs. assert (Hc : id ∈ child_ids all id).
    { unfold child_ids, direct_children. apply list_elem_of_omap. exists t. split; [|done].
      by apply list_elem_of_In, filter_In; split; [apply list_elem_of_In|apply bool_decide_eq_true]. }
    intros fuel. split_and!.
    + by apply self_postorder.
    + unfold collect_descendant_task_ids. apply (self_stack _ id); [done|set_solver].
    + unfold ancestor_chain_has_closed_parent. rewrite Hp. by eapply self_ancestor.
Qed.

Definition record (id task_type : string) (parent : option string) : TaskMap :=
  list_to_map ([("task_id", JString id); ("task_type", JString task_type); ("status", JString "pending")]
               ++ match parent with Some p => [("parent_id", JString p)] | None => [] end).

Definition small_plan : list TaskMap :=
  [record "I1" "initiative" None; record "E1" "epic" (Some "I1"); record "T1" "task" (Some "E1"); record "T2" "task" (Some "E1")].

Definition well_nested_b (all : list TaskMap) : bool :=
  forallb (fun parent => forallb (fun child =>
    match get_str "task_id" parent, get_str "parent_id" child with
    | Some id, Some p => negb (String.eqb id p) || parent_can_contain (type_of parent) (type_of child)
    | _, _ => true
    end) all) all.

Lemma well_nested_b_spec all : well_nested_b all = true -> well_nested all.
Proof.
  unfold well_nested_b. rewrite forallb_forall. intros H parent child id Hp Hc Hid Hpid.
  specialize (H parent ltac:(by apply list_elem_of_In)). rewrite forallb_forall in H.
  specialize (H child ltac:(by apply list_elem_of_In)). rewrite Hid, Hpid, String.eqb_refl in H. done.
Qed.

Lemma hierarchy_walks_end_witness :
  descendants_postorder 3 small_plan "I1" = Some ["T1"; "T2"; "E1"]
  /\ (exists ids, descendants_postorder 3 small_plan "I1" = Some ids
      /\ (exists l, l ≡ₚ ids /\ collect_descendant_task_ids (S (length ids)) small_plan "I1" = Some l)
      /\ is_Some (ancestor_chain_has_closed_parent 4 small_plan (record "I1" "initiative" None))).
Proof.
  split; [by vm_compute|].
  apply (hierarchy_walks_end small_plan (record "I1" "initiative" None) "I1");
    [by left|by vm_compute|apply well_nested_b_spec; by vm_compute].
Defined.
