(* ===== verification/DependencyPass.v ===== *)
(** * Reconciliation of task files with their dependencies
    (brehon-mcp, task_actions: persistence.rs, lifecycle.rs and followups.rs)

    After every action the server goes over all task files: tasks whose
    dependencies are unmet become blocked, tasks whose dependencies are met
    become free again, and work whose assignee is no longer alive is given back.
    The files are a finite map from the stem of the file's name to the object;
    files that do not parse are not listed and not in the map.  A write may fail.
    While a call waits for the lock of a task, the sessions that hold it may
    write: the wait (a lock file) is a parameter that may change the files.  The
    files of reviews and sessions are arguments.  Proved here: what one pass does
    to every file when nothing fails and nobody interferes; that a second pass
    then finds nothing to do; what a pass never does whatever fails; and that a
    pass overwrites what another session wrote while it waited. *)

From S2P Require Import Prelude Effects StrLib Chars Terminal Feedback ShellCommand NativeTools CodingTools Streaming Integration TaskFiles.

(** ** The environment of a pass *)

(** The entries of the directory of a review that are directories, by name,
    with the files that matter in them *)
Record RoundDir := mkRoundDir { ro_name : string; ro_request : bool; ro_consolidated : bool }.

(** The directory of the reviews of one task: [state.json] if it parses, and
    its subdirectories *)
Record ReviewDir := mkReviewDir { rv_state : option JsonValue; rv_rounds : list RoundDir }.

Definition task_has_collecting_review_state (dir : option ReviewDir) : bool :=
  bool_decide (((dir ≫= rv_state) ≫= json_get "status") ≫= json_as_str = Some "collecting").

Definition round_number (d : RoundDir) : option (Z * RoundDir) :=
  (fun n => (n, d)) <$> (strip_prefix "round-" (ro_name d) ≫= parse_u32).

(** [max_by_key]: the last of the greatest *)
Definition latest_round (rounds : list RoundDir) : option (Z * RoundDir) :=
  foldl (fun best r => match best with Some b => if (r.1 <? b.1)%Z then Some b else Some r | None => Some r end)
    None (omap round_number rounds).

Definition task_has_unconsolidated_review_round (dir : option ReviewDir) : bool :=
  match dir ≫= fun d => latest_round (rv_rounds d) with
  | None => false
  | Some (_, d) => ro_request d && negb (ro_consolidated d)
  end.

Definition task_has_active_or_unconsolidated_review (reviews : gmap string ReviewDir) (task_id : string) : bool :=
  task_has_collecting_review_state (reviews !! task_id) || task_has_unconsolidated_review_round (reviews !! task_id).

(** [option.or_else(|| ...)] *)
Definition or_else {A} (a b : option A) : option A := match a with Some _ => a | None => b end.

(** Sessions, as their files say; times are in nanoseconds. *)
Section sessions.
Context (parse_from_rfc3339 : string -> option Z) (now stale_after : Z).

Definition session_is_live (entry : JsonValue) : bool :=
  let field := fun key => json_get key entry ≫= json_as_str in
  match or_else (or_else (field "last_seen_at") (field "registered_at")) (field "started_at") with
  | None => true
  | Some timestamp =>
      match parse_from_rfc3339 timestamp with
      | None => true
      | Some parsed => (now - parsed <=? stale_after)%Z
      end
  end.

Definition live_worker (expected_session : option string) (value : JsonValue) : option string :=
  let text := fun key => non_blank (json_get key value ≫= json_as_str) in
  if negb (session_is_live value) then None
  else if match expected_session with
          | Some expected => negb (bool_decide (text "session_name" = Some expected))
          | None => false
          end then None
  else if negb (bool_decide (json_get "role" value ≫= json_as_str = Some "worker")) then None
  else text "name".

(** [sessions]: the session files that parse, or [None] without the directory *)
Definition read_live_worker_names (expected_session : option string) (sessions : option (list JsonValue)) :
    option (list string) :=
  match sessions with
  | None => None
  | Some [] => None
  | Some values => Some (omap (live_worker expected_session) values)
  end.
End sessions.

Definition assignee_is_live_worker (assignee : string) (live_workers : option (list string)) : bool :=
  match live_workers with Some names => is_one_of names assignee | None => true end.

(** ** One task (lifecycle.rs) *)

Definition unmet_dependency_ids_for_task (task : TaskMap) (all_tasks : list TaskMap) : list string :=
  List.filter (fun id =>
    match find_task all_tasks id with
    | None => true
    | Some dependency => negb (is_terminal_task_status (default "" (get_str "status" dependency)))
    end) (read_dependency_ids task).

Definition RETURNED (assignee : string) : string :=
  "Dependency reconciliation recovered orphaned task ownership: previous assignee " +:+ assignee
  +:+ " was no longer live. Returned to pending for reassignment.".

Definition CLEARED (assignee : string) : string :=
  "Dependency reconciliation cleared orphaned revision ownership: previous assignee " +:+ assignee
  +:+ " was no longer live. The task remains changes_requested for reassignment.".

Section one_task.
Context (reviews : gmap string ReviewDir) (live_workers : option (list string)).

(** The assignee, if the session is gone and no review is under way *)
Definition orphaned (task_id : string) (task : TaskMap) : option string :=
  match non_blank (get_str "assignee" task) with
  | None => None
  | Some assignee =>
      if assignee_is_live_worker assignee live_workers then None
      else if task_has_active_or_unconsolidated_review reviews task_id then None
      else Some assignee
  end.

Definition recover_orphaned_active_task (task_id : string) (task : TaskMap) (normalized_status : option string) :
    option TaskMap :=
  match normalized_status with
  | None => None
  | Some status =>
      if negb (is_one_of ["assigned"; "in_progress"; "changes_requested"] status) then None
      else match orphaned task_id task with
           | None => None
           | Some assignee =>
               let task := <["orphaned_status" := JString status]> (<["orphaned_assignee" := JString assignee]> task) in
               let task := delete "activity" (<["assignee" := JNull]> task) in
               Some (if String.eqb status "changes_requested"
                     then <["recovery_note" := JString (CLEARED assignee)]>
                            (<["status" := JString "changes_requested"]> task)
                     else <["recovery_note" := JString (RETURNED assignee)]>
                            (<["status" := JString "pending"]> (<["review_owner" := JNull]> task)))
           end
  end.

(** The status that the dependencies ask for *)
Definition next_status_for (task : TaskMap) (normalized_status : option string) (unmet : list string) (started : bool) :
    option string :=
  match normalized_status with
  | None => None
  | Some status =>
      if String.eqb status "pending" then
        match unmet with
        | _ :: _ => Some "blocked"
        | [] => if started then Some "in_progress" else None
        end
      else if String.eqb status "blocked" then
        match unmet with
        | [] => if negb (task_has_manual_blockers task) && negb (task_has_recoverable_worker_state_blocker_text task)
                then Some (if started then "in_progress" else "pending") else None
        | _ => None
        end
      else None
  end.

(** Applying it: work that would go on under an assignee who is gone is given
    back instead. *)
Definition apply_next_status (task_id current_status next_status : string) (task : TaskMap) : TaskMap * bool :=
  let '(task, next_status, changed) :=
    if String.eqb next_status "in_progress" then
      match orphaned task_id task with
      | Some assignee =>
          let task := <["orphaned_status" := JString "in_progress"]> (<["orphaned_assignee" := JString assignee]> task) in
          let task := delete "activity" (<["review_owner" := JNull]> (<["assignee" := JNull]> task)) in
          (<["recovery_note" := JString (RETURNED assignee)]> task, "pending", true)
      | None => (task, next_status, false)
      end
    else (task, next_status, false) in
  if String.eqb current_status next_status then (task, changed)
  else (<["status" := JString next_status]> task, true).

(** A task that waits belongs to nobody. *)
Definition clear_waiting_owner (task_id : string) (normalized_after : option string) (started : bool) (task : TaskMap) :
    TaskMap * bool :=
  if match normalized_after with Some s => is_one_of ["pending"; "blocked"] s | None => false end
     && negb started && negb (task_has_active_or_unconsolidated_review reviews task_id)
     && (has_text "assignee" task || has_text "review_owner" task || has_text "activity" task)
  then (clear_terminal_task_ownership task, true)
  else (task, false).

(** The list of unmet dependencies in the record *)
Definition sync_blocked_by (unmet : list string) (task : TaskMap) : TaskMap * bool :=
  if bool_decide (unmet = read_string_list_field task "blocked_by") then (task, false)
  else (write_string_list_field task "blocked_by" unmet, true).

(** Blockers that only spoke of the dependencies *)
Definition drop_met_blockers (unmet : list string) (task : TaskMap) : TaskMap * bool :=
  if bool_decide (unmet = []) && task_has_dependency_scoped_blocker_text task then (delete "blockers" task, true)
  else (task, false).

(** What the body of the loop does to a task: skip it, recover it, or go on and
    say whether it has changed *)
Inductive PassResult :=
| PassSkip
| PassRecovered (task_id : string) (task : TaskMap)
| PassDone (task_id : string) (task : TaskMap) (changed : bool).

Definition pass_task (snapshot : list TaskMap) (task : TaskMap) : PassResult :=
  let task_id := default "" (get_str "task_id" task) in
  if String.eqb task_id "" then PassSkip else
  let current_status := default "pending" (get_str "status" task) in
  if is_terminal_task_status current_status then PassSkip else
  let unmet := unmet_dependency_ids_for_task task snapshot in
  let '(task, synced) := sync_blocked_by unmet task in
  let started := task_has_started_worker_execution task in
  let normalized_status := normalize_task_status current_status in
  let '(task, dropped) := drop_met_blockers unmet task in
  match (if bool_decide (unmet = []) then recover_orphaned_active_task task_id task normalized_status else None) with
  | Some recovered => PassRecovered task_id recovered
  | None =>
      let next := next_status_for task normalized_status unmet started in
      let '(task, moved) :=
        match next with
        | Some next_status => apply_next_status task_id current_status next_status task
        | None => (task, false)
        end in
      let '(task, cleared) := clear_waiting_owner task_id (or_else next normalized_status) started task in
      PassDone task_id task (synced || dropped || moved || cleared)
  end.
End one_task.

(** ** Files (persistence.rs) *)

(** The task files, and how many operations on files there have been *)
Record Disk := mkDisk { dk_tasks : gmap string TaskMap; dk_ops : nat }.

Class Server := {
  dir_order :: IterOrder string;
  (** Whether the write that is this operation succeeds *)
  write_ok : nat -> bool;
  (** [chrono::Utc::now().to_rfc3339()] *)
  now_text : nat -> string;
  (** Waiting for the lock of a task: what others write meanwhile, and the
      error if the wait fails *)
  others_write : nat -> string -> gmap string TaskMap -> gmap string TaskMap;
  lock_error : nat -> string -> option string
}.

(** Nothing fails and nobody else writes. *)
Class Undisturbed `{Server} : Prop := {
  writes_succeed : forall n, write_ok n = true;
  nobody_writes : forall n id m, others_write n id m = m;
  locks_succeed : forall n id, lock_error n id = None
}.

Section disk.
Context `{Server}.

Definition read_task (task_id : string) (d : Disk) : option TaskMap := dk_tasks d !! task_id.

Definition write_task {E} (task_id : string) (task : TaskMap) : SM Disk E bool := fun d =>
  if write_ok (dk_ops d) then (mkDisk (<[task_id := task]> (dk_tasks d)) (S (dk_ops d)), Ok true)
  else (mkDisk (dk_tasks d) (S (dk_ops d)), Ok false).

Definition acquire_task_lock (task_id : string) : SM Disk string unit := fun d =>
  (mkDisk (others_write (dk_ops d) task_id (dk_tasks d)) (S (dk_ops d)),
   match lock_error (dk_ops d) task_id with Some e => Err e | None => Ok tt end).

Definition read_clock {E} : SM Disk E string := fun d => (mkDisk (dk_tasks d) (S (dk_ops d)), Ok (now_text (dk_ops d))).

(** The name of the file is the stem and [".json"]; hidden files are left out. *)
Definition read_all_tasks (d : Disk) : list TaskMap :=
  (List.filter (fun kt => negb (starts_with "." (kt.1 +:+ ".json"))) (iter_map (dk_tasks d))).*2.

(** ** A pass over all tasks (lifecycle.rs) *)

Section pass.
Context (reviews : gmap string ReviewDir) (live_workers : option (list string)) (locked_task_id : option string).

Definition pass_step (snapshot : list TaskMap) (task : TaskMap) (modified : list string) :
    SM Disk string (list string) :=
  match pass_task reviews live_workers snapshot task with
  | PassSkip => sm_ret modified
  | PassRecovered task_id task => let! _ := write_task task_id task in sm_ret (modified ++ [task_id])
  | PassDone task_id task false => sm_ret modified
  | PassDone task_id task true =>
      let! now := read_clock in
      let task := <["updated_at" := JString now]> task in
      let! _ := if bool_decide (locked_task_id = Some task_id) then sm_ret tt else acquire_task_lock task_id in
      let! written := write_task task_id task in
      if written then sm_ret (modified ++ [task_id])
      else sm_lift (Err ("Failed to persist dependency reconciliation for task " +:+ task_id))
  end.

Fixpoint pass_loop (snapshot tasks : list TaskMap) (modified : list string) : SM Disk string (list string) :=
  match tasks with
  | [] => sm_ret modified
  | task :: tasks => let! modified := pass_step snapshot task modified in pass_loop snapshot tasks modified
  end.

Definition reconcile_dependency_states_inner : SM Disk string (list string) := fun d =>
  let tasks := read_all_tasks d in pass_loop tasks tasks [] d.
End pass.

Definition reconcile_dependency_states reviews live_workers : SM Disk string (list string) :=
  reconcile_dependency_states_inner reviews live_workers None.

(** ** After archiving (persistence.rs) *)

Definition strip_edges_step (archived_ids : list string) (task : TaskMap) (modified : list string) :
    SM Disk string (list string) :=
  match get_str "task_id" task with
  | None => sm_ret modified
  | Some task_id =>
      if is_one_of archived_ids task_id then sm_ret modified
      else
        let keep := List.filter (fun id => negb (is_one_of archived_ids id)) in
        let dependencies := read_dependency_ids task in
        let blocked_by := read_string_list_field task "blocked_by" in
        if bool_decide (keep dependencies = dependencies) && bool_decide (keep blocked_by = blocked_by)
        then sm_ret modified
        else
          let task := write_string_list_field task "dependencies" (keep dependencies) in
          let task := write_string_list_field task "blocked_by" (keep blocked_by) in
          let! now := read_clock in
          let task := <["updated_at" := JString now]> task in
          let! _ := acquire_task_lock task_id in
          let! written := write_task task_id task in
          if written then sm_ret (modified ++ [task_id])
          else sm_lift (Err ("Failed to persist dependency cleanup after archiving task " +:+ task_id))
  end.

Fixpoint strip_edges_loop (archived_ids : list string) (tasks : list TaskMap) (modified : list string) :
    SM Disk string (list string) :=
  match tasks with
  | [] => sm_ret modified
  | task :: tasks => let! modified := strip_edges_step archived_ids task modified in strip_edges_loop archived_ids tasks modified
  end.

Definition strip_dependency_edges_from_survivors (archived_ids : list string) : SM Disk string (list string) := fun d =>
  strip_edges_loop archived_ids (read_all_tasks d) [] d.

(** ** Followups of reviews (followups.rs) *)

Definition read_followups_field (task : TaskMap) : list JsonValue :=
  default [] (task !! "review_followups" ≫= json_as_array).

Definition followup_status (followup : JsonValue) : string :=
  default "open" (json_get "status" followup ≫= json_as_str).

Definition is_open_followup (followup : JsonValue) : bool := String.eqb (followup_status followup) "open".

Definition count_status (status : string) (followups : list JsonValue) : nat :=
  length (List.filter (fun f => String.eqb (followup_status f) status) followups).

(** The counts of [summarize_followups]: total, open, tasked, waived, done, other *)
Definition summarize_followups (task : TaskMap) : option (nat * nat * nat * nat * nat * nat) :=
  match read_followups_field task with
  | [] => None
  | followups =>
      Some (length followups, count_status "open" followups, count_status "tasked" followups,
            count_status "waived" followups, count_status "done" followups,
            length (List.filter (fun f => negb (is_one_of ["open"; "tasked"; "waived"; "done"] (followup_status f)))
                      followups))
  end.

Definition write_followups_field (task : TaskMap) (followups : list JsonValue) : TaskMap :=
  match followups with
  | [] => delete "review_followups" task
  | _ => <["review_followups" := JArray followups]> task
  end.

Definition append_task_review_followups reviews live_workers (task_id : string) (followups : list JsonValue) :
    SM Disk string unit :=
  match followups with
  | [] => sm_ret tt
  | _ =>
      let! _ := acquire_task_lock task_id in
      fun d =>
        match read_task task_id d with
        | None => (d, Err ("Task not found: " +:+ task_id))
        | Some task =>
            (let task := write_followups_field task (read_followups_field task ++ followups) in
             let! now := read_clock in
             let! written := write_task task_id (<["updated_at" := JString now]> task) in
             if written then
               let! _ := reconcile_dependency_states_inner reviews live_workers (Some task_id) in sm_ret tt
             else sm_lift (Err ("Failed to write task " +:+ task_id))) d
        end
  end.

(** The followup that a finished task resolves, unless it is settled already *)
Definition resolve_followup (terminal_task_id now : string) (followup : JsonValue) : JsonValue * bool :=
  if negb (bool_decide (json_get "followup_task_id" followup ≫= json_as_str = Some terminal_task_id))
  then (followup, false)
  else if is_one_of ["done"; "waived"] (followup_status followup) then (followup, false)
  else match followup with
       | JObject fields =>
           (JObject (insert_field "resolved_at" (JString now)
                       (insert_field "updated_at" (JString now) (insert_field "status" (JString "done") fields))), true)
       | _ => (followup, false)
       end.

Definition resolve_promoted_followups_for_terminal_task (terminal_task_id : string) (terminal_task : TaskMap) :
    SM Disk string bool :=
  if negb (default false (terminal_task !! "review_followup_task" ≫= json_as_bool)) then sm_ret false
  else match get_str "source_task_id" terminal_task with
  | None => sm_ret false
  | Some source_task_id =>
      if String.eqb (trim source_task_id) "" then sm_ret false
      else
        let! _ := acquire_task_lock source_task_id in
        fun d =>
          match read_task source_task_id d with
          | None => (d, Err ("Promoted followup task " +:+ terminal_task_id +:+ " references missing source task "
                             +:+ source_task_id))
          | Some source_task =>
              (let! now := read_clock in
               let resolved := resolve_followup terminal_task_id now <$> read_followups_field source_task in
               if negb (existsb snd resolved) then sm_ret false
               else
                 let source_task := write_followups_field source_task (fst <$> resolved) in
                 let! written := write_task source_task_id (<["updated_at" := JString now]> source_task) in
                 if written then sm_ret true
                 else sm_lift (Err ("Task " +:+ terminal_task_id
                        +:+ " reached terminal state, but Brehon failed to update review followups on source task "
                        +:+ source_task_id))) d
          end
  end.
End disk.

(** ** Trimmed text *)

Lemma skip_while_head {A} (f : A -> bool) l :
  match skip_while f l with [] => True | x :: _ => f x = false end.
Proof. induction l as [|x l IH]; cbn; [done|]. destruct (f x) eqn:Hx; [done|]. by rewrite Hx. Qed.

Lemma skip_while_id {A} (f : A -> bool) l : match l with [] => True | x :: _ => f x = false end -> skip_while f l = l.
Proof. destruct l as [|x l]; cbn; [done|]. by intros ->. Qed.

Lemma chars_shaped_suffix pre l : chars_shaped (pre ++ l) -> chars_shaped l.
Proof.
  destruct pre as [|ch pre]; [done|]. intros [_ Hf]. apply Forall_app in Hf as [_ Hl].
  destruct l as [|ch' l]; [done|]. apply Forall_cons in Hl as [Hch Hl]. split; [|done].
  destruct ch'; [done|]. unfold char_ok in Hch. by apply andb_true_iff in Hch as [_ ?].
Qed.

Lemma chars_shaped_prefix l post : chars_shaped (l ++ post) -> chars_shaped l.
Proof. destruct l as [|ch l]; [done|]. intros [Hch Hf]. apply Forall_app in Hf as [Hl _]. done. Qed.

Lemma trim_idemp s : trim (trim s) = trim s.
Proof.
  unfold trim at 2 3. set (mid := skip_while is_whitespace (chars s)).
  set (m := reverse (skip_while is_whitespace (reverse mid))).
  destruct (skip_while_suffix is_whitespace (chars s)) as [pre Hpre]. fold mid in Hpre.
  destruct (skip_while_suffix is_whitespace (reverse mid)) as [post Hpost].
  apply (f_equal reverse) in Hpost. rewrite reverse_involutive, reverse_app in Hpost. fold m in Hpost.
  assert (Hsh : chars_shaped m).
  { apply (chars_shaped_prefix _ (reverse post)). rewrite <-Hpost. apply (chars_shaped_suffix pre). rewrite <-Hpre.
    apply chars_shaped_chars. }
  unfold trim. rewrite chars_of_chars by done.
  rewrite (skip_while_id _ m).
  - rewrite skip_while_id; [by rewrite reverse_involutive|]. unfold m. rewrite reverse_involutive. apply skip_while_head.
  - pose proof (skip_while_head is_whitespace (chars s)) as Hh. fold mid in Hh. rewrite Hpost in Hh. by destruct m.
Qed.

Lemma non_blank_spec o x : non_blank o = Some x -> non_blank (Some x) = Some x.
Proof.
  destruct o as [y|]; [|done]. cbn. destruct (String.eqb (trim y) "") eqn:Hy; [done|]. intros [= <-].
  by rewrite trim_idemp, Hy.
Qed.

(** ** Fields that an update leaves alone *)

Definition same_but (ks : list string) (t t' : TaskMap) : Prop := forall k, k ∉ ks -> t' !! k = t !! k.

Lemma same_but_refl t : same_but [] t t.
Proof. done. Qed.

Lemma same_but_trans ks ks' t1 t2 t3 : same_but ks t1 t2 -> same_but ks' t2 t3 -> same_but (ks ++ ks') t1 t3.
Proof. intros H1 H2 k Hk. rewrite H2, H1; set_solver. Qed.

Lemma same_but_weaken ks ks' t t' : same_but ks t t' -> ks ⊆ ks' -> same_but ks' t t'.
Proof. intros H Hs k Hk. apply H. set_solver. Qed.

Lemma same_but_insert k v t : same_but [k] t (<[k := v]> t).
Proof. intros k' Hk. apply lookup_insert_ne. set_solver. Qed.

Lemma same_but_delete k t : same_but [k] t (delete k t).
Proof. intros k' Hk. apply lookup_delete_ne. set_solver. Qed.

(** Decides that a literal is not in a list of literals. *)
Ltac not_listed := apply (bool_decide_unpack _); vm_compute; exact I.

Lemma same_field ks t t' k : same_but ks t t' -> k ∉ ks -> get_str k t' = get_str k t.
Proof. intros H Hk. unfold get_str. by rewrite H. Qed.

Lemma same_text ks t t' k : same_but ks t t' -> k ∉ ks -> has_text k t' = has_text k t.
Proof. intros H Hk. unfold has_text. by erewrite same_field. Qed.

Lemma same_list ks t t' k : same_but ks t t' -> k ∉ ks -> read_string_list_field t' k = read_string_list_field t k.
Proof. intros H Hk. unfold read_string_list_field. by rewrite H. Qed.

Lemma same_started ks t t' : same_but ks t t' -> "assignee" ∉ ks -> "percent" ∉ ks -> "latest_commit" ∉ ks ->
  task_has_started_worker_execution t' = task_has_started_worker_execution t.
Proof.
  intros H H1 H2 H3. unfold task_has_started_worker_execution.
  by rewrite (same_text ks t t' "assignee"), (same_text ks t t' "latest_commit"), (H "percent").
Qed.

Lemma same_blockers ks t t' : same_but ks t t' -> "blockers" ∉ ks -> "dependencies" ∉ ks ->
  task_has_dependency_scoped_blocker_text t' = task_has_dependency_scoped_blocker_text t
  /\ task_has_recoverable_worker_state_blocker_text t' = task_has_recoverable_worker_state_blocker_text t
  /\ task_has_manual_blockers t' = task_has_manual_blockers t.
Proof.
  intros H H1 H2.
  assert (Hb : blockers_text t' = blockers_text t) by (unfold blockers_text; by erewrite same_field).
  assert (Hd : task_has_dependency_scoped_blocker_text t' = task_has_dependency_scoped_blocker_text t).
  { unfold task_has_dependency_scoped_blocker_text, read_dependency_ids. by rewrite Hb, (same_list ks t t'). }
  assert (Hr : task_has_recoverable_worker_state_blocker_text t' = task_has_recoverable_worker_state_blocker_text t)
    by (unfold task_has_recoverable_worker_state_blocker_text; by rewrite Hb).
  split_and!; [done|done|]. unfold task_has_manual_blockers. by rewrite Hb, Hd, Hr.
Qed.

Lemma same_unmet ks t t' S : same_but ks t t' -> "dependencies" ∉ ks ->
  unmet_dependency_ids_for_task t' S = unmet_dependency_ids_for_task t S.
Proof. intros H Hk. unfold unmet_dependency_ids_for_task, read_dependency_ids. by rewrite (same_list ks t t'). Qed.

Lemma same_orphaned reviews live ks t t' id : same_but ks t t' -> "assignee" ∉ ks ->
  orphaned reviews live id t' = orphaned reviews live id t.
Proof. intros H Hk. unfold orphaned. by rewrite (same_field ks t t'). Qed.

(** ** Stages of a pass over one task *)

Definition status_of (t : TaskMap) : string := default "pending" (get_str "status" t).

Definition id_of (t : TaskMap) : string := default "" (get_str "task_id" t).

(** Nobody owns the task. *)
Definition unowned (t : TaskMap) : bool :=
  negb (has_text "assignee" t || has_text "review_owner" t || has_text "activity" t).

(** The fields a pass may write *)
Definition OWNER : list string := ["assignee"; "review_owner"; "activity"].
Definition NOTES : list string := ["orphaned_assignee"; "orphaned_status"; "recovery_note"].

Lemma get_insert k v t : get_str k (<[k := v]> t) = json_as_str v.
Proof. unfold get_str. by rewrite lookup_insert_eq. Qed.

Lemma get_delete k t : get_str k (delete k t) = None.
Proof. unfold get_str. by rewrite lookup_delete_eq. Qed.

Lemma unowned_not_started t : unowned t = true -> task_has_started_worker_execution t = false.
Proof. unfold unowned, task_has_started_worker_execution. by destruct (has_text "assignee" t). Qed.

Lemma unowned_not_orphaned reviews live id t : unowned t = true -> orphaned reviews live id t = None.
Proof.
  unfold unowned, orphaned, has_text. destruct (non_blank (get_str "assignee" t)); [|done].
  by rewrite (bool_decide_eq_true_2 (is_Some (Some s))) by done.
Qed.

(** Looks up the fields of a record with fields written. *)
Ltac fields :=
  unfold get_str; repeat first
    [rewrite lookup_insert_eq | rewrite lookup_delete_eq
    |rewrite lookup_insert_ne by discriminate | rewrite lookup_delete_ne by discriminate]; try done.

(** Written fields, as a list that the goal names *)
Ltac same_fields :=
  let k := fresh "k" in let Hk := fresh "Hk" in
  intros k Hk; rewrite ?not_elem_of_cons in Hk; destruct_and?;
  repeat first [rewrite lookup_insert_ne by congruence | rewrite lookup_delete_ne by congruence]; done.

Lemma clear_unowned t :
  unowned (clear_terminal_task_ownership t) = true /\ same_but OWNER t (clear_terminal_task_ownership t).
Proof.
  unfold clear_terminal_task_ownership. split; [|unfold OWNER; same_fields].
  unfold unowned, has_text. fields.
Qed.

Definition trimmed (l : list string) : Prop := forall x, x ∈ l -> non_blank (Some x) = Some x.

Lemma read_trimmed t key : trimmed (read_string_list_field t key).
Proof.
  intros x (v & _ & Hx)%list_elem_of_omap. by eapply non_blank_spec.
Qed.

Lemma unmet_trimmed t S : trimmed (unmet_dependency_ids_for_task t S).
Proof.
  intros x Hx. unfold unmet_dependency_ids_for_task in Hx. apply list_elem_of_In, filter_In in Hx as [Hx _].
  apply list_elem_of_In in Hx. by apply (read_trimmed t "dependencies").
Qed.

Lemma read_written t key l : trimmed l -> read_string_list_field (write_string_list_field t key l) key = l.
Proof.
  intros Hl. unfold read_string_list_field, write_string_list_field. destruct l as [|x l]; [by rewrite lookup_delete_eq|].
  rewrite lookup_insert_eq. cbn [mbind option_bind json_as_array default from_option].
  revert Hl. generalize (x :: l). clear x l. induction l as [|x l IH]; intros Hl; [done|].
  change (match non_blank (Some x) with
          | Some y => y :: omap (fun v => non_blank (json_as_str v)) (JString <$> l)
          | None => omap (fun v => non_blank (json_as_str v)) (JString <$> l)
          end = x :: l).
  rewrite (Hl x ltac:(by left)). f_equal. apply IH. intros y Hy. apply Hl. by right.
Qed.

Lemma sync_spec unmet t t1 c : trimmed unmet -> sync_blocked_by unmet t = (t1, c) ->
  same_but ["blocked_by"] t t1 /\ read_string_list_field t1 "blocked_by" = unmet.
Proof.
  intros Hu. unfold sync_blocked_by. case_bool_decide as Hb; intros [= <- <-]; [done|]. split.
  - unfold write_string_list_field. destruct unmet; [apply same_but_delete|apply same_but_insert].
  - by apply read_written.
Qed.

Lemma drop_spec unmet t t2 c : drop_met_blockers unmet t = (t2, c) ->
  same_but ["blockers"] t t2 /\ (unmet = [] -> task_has_dependency_scoped_blocker_text t2 = false).
Proof.
  unfold drop_met_blockers. case_bool_decide as Hu; cbn [andb]; [|by intros [= <- <-]].
  destruct (task_has_dependency_scoped_blocker_text t) eqn:Hd; intros [= <- <-]; [|done].
  split; [apply same_but_delete|]. intros _. unfold task_has_dependency_scoped_blocker_text, blockers_text.
  by rewrite get_delete.
Qed.

Lemma normalize_canonical s : s ∈ snd <$> status_names -> normalize_task_status s = Some s.
Proof.
  intros Hs. apply (proj1 (Forall_forall (fun s => normalize_task_status s = Some s) (snd <$> status_names))); [|done].
  repeat (constructor; [by vm_compute|]). constructor.
Qed.

Lemma normalize_waiting :
  normalize_task_status "pending" = Some "pending" /\ normalize_task_status "blocked" = Some "blocked"
  /\ normalize_task_status "in_progress" = Some "in_progress"
  /\ normalize_task_status "changes_requested" = Some "changes_requested".
Proof. split_and!; apply normalize_canonical; cbn; set_solver. Qed.

Section settled.
Context (reviews : gmap string ReviewDir) (live : option (list string)).

Abbreviation under_review := (task_has_active_or_unconsolidated_review reviews).

(** Given back: pending, and nobody's *)
Definition given_back (t : TaskMap) : Prop := status_of t = "pending" /\ unowned t = true.

Lemma apply_spec id cur next t t' c :
  status_of t = cur -> apply_next_status reviews live id cur next t = (t', c) ->
  (next = "in_progress" /\ orphaned reviews live id t <> None /\ given_back t'
     /\ same_but ("status" :: OWNER ++ NOTES) t t')
  \/ ((next = "in_progress" -> orphaned reviews live id t = None) /\ status_of t' = next /\ same_but ["status"] t t').
Proof.
  intros Hcur. unfold apply_next_status.
  assert (Hplain : forall c0, (if String.eqb cur next then (t, c0) else (<["status" := JString next]> t, true)) = (t', c) ->
                     status_of t' = next /\ same_but ["status"] t t').
  { intros c0. destruct (String.eqb_spec cur next) as [Heq|_]; intros [= <- _]; [subst; done|].
    split; [|apply same_but_insert]. unfold status_of. by rewrite get_insert. }
  destruct (String.eqb_spec next "in_progress") as [->|Hn]; [|intros Heq; right; split; [done|by eapply Hplain]].
  destruct (orphaned reviews live id t) as [a|] eqn:Ho; [|intros Heq; right; split; [done|by eapply Hplain]].
  intros Heq. left. split; [done|]. split; [done|]. revert Heq.
  destruct (String.eqb_spec cur "pending") as [Hp|_]; intros [= <- _];
    (split; [split; [unfold status_of; fields|unfold unowned, has_text; fields]|unfold OWNER, NOTES; cbn [app]; same_fields]).
  exact (eq_trans Hcur Hp).
Qed.

Lemma recover_spec id t n t' : recover_orphaned_active_task reviews live id t n = Some t' ->
  same_but ("status" :: OWNER ++ NOTES) t t' /\ has_text "assignee" t' = false /\
  (given_back t' \/ status_of t' = "changes_requested").
Proof.
  unfold recover_orphaned_active_task. destruct n as [n|]; [|done]. destruct (is_one_of _ n); cbn [negb]; [|done].
  destruct (orphaned reviews live id t) as [a|]; [|done].
  destruct (String.eqb n "changes_requested"); intros [= <-];
    (split; [unfold OWNER, NOTES; cbn [app]; same_fields|]);
    (split; [unfold has_text; fields|]); [right|left; split]; unfold status_of, unowned, has_text; fields.
Qed.

Definition waits (n : option string) : bool :=
  match n with Some s => is_one_of ["pending"; "blocked"] s | None => false end.

Lemma clear_spec id after started t t' c :
  clear_waiting_owner reviews id after started t = (t', c) ->
  (t' = t /\ c = false /\ (waits after = true -> started = false -> under_review id = false -> unowned t = true))
  \/ (t' = clear_terminal_task_ownership t /\ waits after = true /\ started = false
      /\ under_review id = false /\ unowned t = false).
Proof.
  unfold clear_waiting_owner. fold (waits after).
  destruct (waits after), started, (under_review id); cbn [andb negb];
    try (intros [= <- <-]; left; split_and!; done).
  unfold unowned. destruct (_ || _); intros [= <- <-]; [right|left]; split_and!; done.
Qed.

(** ** Settled tasks *)

(** A task in which a pass finds nothing to do *)
Record settled (S : list TaskMap) (t : TaskMap) : Prop := {
  set_blocked_by : read_string_list_field t "blocked_by" = unmet_dependency_ids_for_task t S;
  set_blockers : unmet_dependency_ids_for_task t S = [] -> task_has_dependency_scoped_blocker_text t = false;
  set_pending : normalize_task_status (status_of t) = Some "pending" ->
    unmet_dependency_ids_for_task t S = [] /\ task_has_started_worker_execution t = false;
  set_blocked : normalize_task_status (status_of t) = Some "blocked" ->
    unmet_dependency_ids_for_task t S = [] ->
    task_has_manual_blockers t || task_has_recoverable_worker_state_blocker_text t = true;
  set_active n : normalize_task_status (status_of t) = Some n ->
    n ∈ ["assigned"; "in_progress"; "changes_requested"] ->
    unmet_dependency_ids_for_task t S = [] -> orphaned reviews live (id_of t) t = None;
  set_waiting : waits (normalize_task_status (status_of t)) = true ->
    task_has_started_worker_execution t = false -> under_review (id_of t) = false -> unowned t = true
}.

Lemma same_but_settled S t t' : same_but ["updated_at"] t t' -> settled S t -> settled S t'.
Proof.
  intros Hs [H1 H2 H3 H4 H5 H6].
  assert (Hu : unmet_dependency_ids_for_task t' S = unmet_dependency_ids_for_task t S)
    by (apply (same_unmet ["updated_at"]); [done|not_listed]).
  destruct (same_blockers ["updated_at"] t t') as (Hd & Hr & Hm); [done|not_listed..|].
  assert (Hst : task_has_started_worker_execution t' = task_has_started_worker_execution t)
    by (apply (same_started ["updated_at"]); [done|not_listed..]).
  assert (Hstatus : status_of t' = status_of t) by (unfold status_of; rewrite (same_field ["updated_at"] t t'); [done|done|not_listed]).
  assert (Hid : id_of t' = id_of t) by (unfold id_of; rewrite (same_field ["updated_at"] t t'); [done|done|not_listed]).
  assert (Ho : forall id, orphaned reviews live id t' = orphaned reviews live id t)
    by (intros; apply (same_orphaned _ _ ["updated_at"]); [done|not_listed]).
  assert (Hown : unowned t' = unowned t).
  { unfold unowned. by rewrite !(same_text ["updated_at"] t t') by first [done|not_listed]. }
  constructor; rewrite ?Hu, ?Hd, ?Hr, ?Hm, ?Hst, ?Hstatus, ?Hid, ?Hown, ?Ho; try done.
  rewrite (same_list ["updated_at"] t t'); [done|done|not_listed].
Qed.

(** A pass leaves settled tasks alone. *)
Lemma settled_stays S t : settled S t -> id_of t <> "" -> is_terminal_task_status (status_of t) = false ->
  pass_task reviews live S t = PassDone (id_of t) t false.
Proof.
  intros [H1 H2 H3 H4 H5 H6] Hid Hterm. unfold pass_task. fold (id_of t) (status_of t).
  apply String.eqb_neq in Hid. rewrite Hid, Hterm.
  set (u := unmet_dependency_ids_for_task t S) in *.
  assert (Hsync : sync_blocked_by u t = (t, false)) by (unfold sync_blocked_by; by rewrite bool_decide_eq_true_2).
  assert (Hdrop : drop_met_blockers u t = (t, false)).
  { unfold drop_met_blockers. case_bool_decide as Hu; [|done]. by rewrite H2. }
  rewrite Hsync, Hdrop.
  assert (Hrec : (if bool_decide (u = []) then recover_orphaned_active_task reviews live (id_of t) t (normalize_task_status (status_of t))
                  else None) = None).
  { case_bool_decide as Hu; [|done]. unfold recover_orphaned_active_task.
    destruct (normalize_task_status (status_of t)) as [n|]; [|done]. destruct (is_one_of _ n) eqn:Hn; [|done].
    apply is_one_of_spec in Hn. by rewrite (H5 n). }
  rewrite Hrec.
  assert (Hnext : next_status_for t (normalize_task_status (status_of t)) u (task_has_started_worker_execution t) = None).
  { unfold next_status_for. destruct (normalize_task_status (status_of t)) as [n|]; [|done].
    destruct (String.eqb_spec n "pending") as [->|_]; [by destruct H3 as [-> ->]|].
    destruct (String.eqb_spec n "blocked") as [->|_]; [|done]. destruct u as [|x u]; [|done].
    specialize (H4 eq_refl eq_refl). by destruct (task_has_manual_blockers t), (task_has_recoverable_worker_state_blocker_text t). }
  rewrite Hnext. cbn [or_else]. destruct (clear_waiting_owner _ _ _ _ t) as [t' c] eqn:Hc.
  apply clear_spec in Hc as [(-> & -> & _)|(_ & Hw & Hs & Hr & Hun)]; [done|].
  by rewrite H6 in Hun.
Qed.

(** ** A pass settles *)

(** What the rest of the pass starts from: the first two stages are done. *)
Record prepared (u : list string) (t : TaskMap) : Prop := {
  prep_blocked_by : read_string_list_field t "blocked_by" = u;
  prep_blockers : u = [] -> task_has_dependency_scoped_blocker_text t = false
}.

Definition MOVED : list string := "status" :: OWNER ++ NOTES.

Lemma moved_owner t t' : same_but OWNER t t' -> same_but MOVED t t'.
Proof. intros H. eapply same_but_weaken; [exact H|]. set_solver. Qed.

Lemma moved_status t t' : same_but ["status"] t t' -> same_but MOVED t t'.
Proof. intros H. eapply same_but_weaken; [exact H|]. set_solver. Qed.

Lemma moved_trans t1 t2 t3 : same_but MOVED t1 t2 -> same_but MOVED t2 t3 -> same_but MOVED t1 t3.
Proof. intros H1 H2. eapply same_but_weaken; [by eapply same_but_trans|]. set_solver. Qed.

Lemma prepared_moved u t t' : same_but MOVED t t' -> prepared u t -> prepared u t'.
Proof.
  intros Hs [H1 H2]. constructor.
  - rewrite (same_list MOVED t t'); [done|done|not_listed].
  - intros Hu. destruct (same_blockers MOVED t t') as (-> & _ & _); [done|not_listed..|]. auto.
Qed.

Lemma given_back_settled S t u : prepared u t -> unmet_dependency_ids_for_task t S = u -> u = [] -> given_back t -> settled S t.
Proof.
  intros [H1 H2] Hu Hnil [Hst Hun].
  destruct normalize_waiting as (Hn & _).
  constructor; rewrite ?Hu, ?Hst, ?Hn; try done.
  - intros _. split; [done|]. by apply unowned_not_started.
  - intros n [= <-] Hin. exfalso. set_solver.
Qed.

Lemma revision_settled S t u : prepared u t -> unmet_dependency_ids_for_task t S = u ->
  has_text "assignee" t = false -> status_of t = "changes_requested" -> settled S t.
Proof.
  intros [H1 H2] Hu Ha Hst.
  destruct normalize_waiting as (_ & _ & _ & Hn).
  constructor; rewrite ?Hu, ?Hst, ?Hn; try done.
  intros n _ _ _. unfold orphaned, has_text in *. by destruct (non_blank (get_str "assignee" t)).
Qed.

Lemma next_spec t n u started :
  match next_status_for t n u started with
  | None =>
      (n = Some "pending" -> u = [] /\ started = false)
      /\ (n = Some "blocked" -> u = [] ->
          task_has_manual_blockers t || task_has_recoverable_worker_state_blocker_text t = true)
  | Some next =>
      (n = Some "pending" \/ n = Some "blocked") /\
      (next = "blocked" /\ u <> [] \/ next = "in_progress" /\ u = [] /\ started = true
       \/ next = "pending" /\ u = [] /\ started = false)
  end.
Proof.
  unfold next_status_for. destruct n as [n|]; [|done].
  destruct (String.eqb_spec n "pending") as [->|Hp]; [destruct u, started; naive_solver|].
  destruct (String.eqb_spec n "blocked") as [->|Hb]; [|split; congruence].
  destruct u as [|x u]; [|naive_solver].
  destruct (task_has_manual_blockers t), (task_has_recoverable_worker_state_blocker_text t), started; naive_solver.
Qed.

(** Clearing the owner of a task that is settled otherwise *)
Lemma clear_settles S u t started t' c :
  prepared u t -> started = task_has_started_worker_execution t ->
  (normalize_task_status (status_of t) = Some "pending" -> u = [] /\ started = false) ->
  (normalize_task_status (status_of t) = Some "blocked" -> u = [] ->
    task_has_manual_blockers t || task_has_recoverable_worker_state_blocker_text t = true) ->
  (forall n, normalize_task_status (status_of t) = Some n -> n ∈ ["assigned"; "in_progress"; "changes_requested"] ->
    u = [] -> orphaned reviews live (id_of t) t = None) ->
  clear_waiting_owner reviews (id_of t) (normalize_task_status (status_of t)) started t = (t', c) ->
  same_but OWNER t t' /\ status_of t' = status_of t /\ (unmet_dependency_ids_for_task t' S = u -> settled S t').
Proof.
  intros Hprep Hs Hp Hb Ha Hclear. apply clear_spec in Hclear as [(-> & _ & Hw)|(-> & Hw & Hst & Hr & _)].
  - split; [done|]. split; [done|]. intros Hu. destruct Hprep as [H1 H2].
    constructor; rewrite ?Hu, <-?Hs; auto.
  - destruct (clear_unowned t) as [Hun Hsame]. set (t' := clear_terminal_task_ownership t) in *.
    assert (Hstatus : status_of t' = status_of t) by (unfold status_of; rewrite (same_field OWNER t t'); [done|done|not_listed]).
    split; [done|]. split; [done|]. intros Hu. destruct (prepared_moved _ _ _ (moved_owner _ _ Hsame) Hprep) as [H1 H2].
    destruct (same_blockers OWNER t t') as (_ & Hrec & Hman); [done|not_listed..|].
    constructor; rewrite ?Hu, ?Hstatus, ?Hrec, ?Hman; auto.
    + intros HP. split; [by apply Hp|]. by apply unowned_not_started.
    + intros n _ _ _. by apply unowned_not_orphaned.
Qed.

(** The last stages, from a prepared task *)
Lemma finish_settles S u t n started t3 moved t4 cleared :
  n = normalize_task_status (status_of t) -> started = task_has_started_worker_execution t ->
  prepared u t -> (u = [] -> recover_orphaned_active_task reviews live (id_of t) t n = None) ->
  match next_status_for t n u started with
  | Some next => apply_next_status reviews live (id_of t) (status_of t) next t
  | None => (t, false)
  end = (t3, moved) ->
  clear_waiting_owner reviews (id_of t) (or_else (next_status_for t n u started) n) started t3 = (t4, cleared) ->
  same_but MOVED t t4 /\
  (unmet_dependency_ids_for_task t4 S = u -> settled S t4 /\ (status_of t4 = status_of t \/
     status_of t4 ∈ ["pending"; "blocked"; "in_progress"])).
Proof.
  intros Hn Hstarted Hprep Hrec Hmove Hclear. pose proof (next_spec t n u started) as Hnext.
  destruct normalize_waiting as (Np & Nb & Ni & _).
  destruct (next_status_for t n u started) as [next|] eqn:Hns; cbn [or_else] in Hclear.
  - destruct Hnext as [Hfrom Hnext].
    destruct (apply_spec _ _ _ _ _ _ eq_refl Hmove) as [(-> & Ho & Hgb & Hsame)|(Ho & Hst & Hsame)].
    + (* given back *)
      assert (u = []) as Hu by (destruct Hnext as [[? _]|[(_ & ? & _)|[? _]]]; done).
      apply clear_spec in Hclear as [(-> & _ & _)|(_ & Hw & _)]; [|done].
      split; [done|]. intros Hun. split; [|right; destruct Hgb as [-> _]; set_solver].
      eapply given_back_settled; [by eapply prepared_moved|done..].
    + assert (Hid : id_of t3 = id_of t) by (unfold id_of; rewrite (same_field ["status"] t t3); [done|done|not_listed]).
      assert (Hs3 : started = task_has_started_worker_execution t3)
        by (rewrite (same_started ["status"] t t3); [done|done|not_listed..]).
      assert (Hafter : Some next = normalize_task_status (status_of t3))
        by (rewrite Hst; destruct Hnext as [[-> _]|[[-> _]|[-> _]]]; by symmetry).
      rewrite <-Hid, Hafter in Hclear.
      eapply (clear_settles S u) in Hclear as (Hown & Hst4 & Hset);
        [|by eapply prepared_moved; [apply moved_status|]|done|rewrite <-Hafter..].
      * split; [by eapply moved_trans; [apply moved_status|apply moved_owner]|]. intros Hu. split; [auto|].
        right. rewrite Hst4, Hst. destruct Hnext as [[-> _]|[[-> _]|[-> _]]]; set_solver.
      * intros [= ->]. destruct Hnext as [[? _]|[[? _]|(_ & ? & ?)]]; done.
      * intros [= ->] Hu. destruct Hnext as [[_ ?]|[[? _]|[? _]]]; done.
      * intros m [= <-] Hm Hu. rewrite Hid, (same_orphaned _ _ ["status"] t t3) by (done || not_listed).
        apply Ho. destruct Hnext as [[-> _]|[[-> _]|[-> _]]]; [exfalso; set_solver|done|exfalso; set_solver].
  - injection Hmove as <- <-. destruct Hnext as [Hpend Hblk]. subst n.
    eapply (clear_settles S u) in Hclear as (Hown & Hst4 & Hset); [|done..|].
    + split; [by apply moved_owner|]. auto.
    + intros m Hm Hin Hu. specialize (Hrec Hu). rewrite Hm in Hrec. unfold recover_orphaned_active_task in Hrec.
      rewrite (proj2 (is_one_of_spec _ m) Hin) in Hrec. cbn [negb] in Hrec. by destruct (orphaned _ _ _ t).
Qed.

Definition WRITTEN : list string := "blocked_by" :: "blockers" :: MOVED.

(** What a pass makes of a task: its fields but those a pass writes are kept, it
    is not finished by the pass, and it is settled once the dependencies are
    what they were. *)
Definition passed (S : list TaskMap) (t : TaskMap) (id : string) (t' : TaskMap) : Prop :=
  id = id_of t /\ id <> "" /\ is_terminal_task_status (status_of t) = false
  /\ same_but WRITTEN t t' /\ is_terminal_task_status (status_of t') = false
  /\ forall S', unmet_dependency_ids_for_task t' S' = unmet_dependency_ids_for_task t S -> settled S' t'.

Lemma not_terminal s : s ∈ ["pending"; "blocked"; "in_progress"; "changes_requested"] -> is_terminal_task_status s = false.
Proof.
  intros Hs. unfold is_terminal_task_status. rewrite normalize_canonical by (cbn; set_solver).
  rewrite !elem_of_cons in Hs. destruct_or!; subst; try done. by apply not_elem_of_nil in Hs.
Qed.

Lemma pass_passed S t :
  match pass_task reviews live S t with
  | PassSkip => id_of t = "" \/ is_terminal_task_status (status_of t) = true
  | PassRecovered id t' | PassDone id t' _ => passed S t id t'
  end.
Proof.
  unfold pass_task. fold (id_of t) (status_of t).
  destruct (String.eqb_spec (id_of t) "") as [|Hid]; [by left|].
  destruct (is_terminal_task_status (status_of t)) eqn:Hterm; [by right|].
  set (u := unmet_dependency_ids_for_task t S).
  destruct (sync_blocked_by u t) as [t1 synced] eqn:Hsync.
  destruct (sync_spec _ _ _ _ (unmet_trimmed t S) Hsync) as [Hs1 Hb1].
  destruct (drop_met_blockers u t1) as [t2 dropped] eqn:Hdrop. destruct (drop_spec _ _ _ _ Hdrop) as [Hs2 Hb2].
  assert (Hs12 : same_but ["blocked_by"; "blockers"] t t2) by exact (same_but_trans _ _ _ _ _ Hs1 Hs2).
  assert (Hprep : prepared u t2).
  { constructor; [|done]. rewrite (same_list ["blockers"] t1 t2); [done|done|not_listed]. }
  assert (Hid2 : id_of t2 = id_of t) by (unfold id_of; rewrite (same_field _ t t2 "task_id" Hs12); [done|not_listed]).
  assert (Hst2 : status_of t2 = status_of t) by (unfold status_of; rewrite (same_field _ t t2 "status" Hs12); [done|not_listed]).
  assert (Hstart : task_has_started_worker_execution t1 = task_has_started_worker_execution t2)
    by (symmetry; apply (same_started ["blockers"]); [done|not_listed..]).
  rewrite <-Hid2, <-Hst2, Hstart in *. set (n := normalize_task_status (status_of t2)).
  assert (Hwritten : forall t', same_but MOVED t2 t' -> same_but WRITTEN t t')
    by (intros t' Hm; exact (same_but_trans _ _ _ _ _ Hs12 Hm)).
  destruct (if bool_decide (u = []) then recover_orphaned_active_task reviews live (id_of t2) t2 n else None)
    as [t'|] eqn:Hrec.
  - case_bool_decide as Hu; [|done]. destruct (recover_spec _ _ _ _ Hrec) as (Hm & Ha & Hcase).
    unfold passed. rewrite <-Hid2, <-Hst2. split_and!; try done; [by apply Hwritten|..].
    + destruct Hcase as [[-> _]| ->]; apply not_terminal; set_solver.
    + intros S' HS'. pose proof (prepared_moved _ _ _ Hm Hprep) as Hp'.
      destruct Hcase as [Hgb|Hcr]; [by eapply given_back_settled|by eapply revision_settled].
  - destruct (match next_status_for t2 n u (task_has_started_worker_execution t2) with
              | Some next => apply_next_status reviews live (id_of t2) (status_of t2) next t2
              | None => (t2, false) end) as [t3 moved] eqn:Hmove.
    destruct (clear_waiting_owner reviews (id_of t2) _ _ t3) as [t4 cleared] eqn:Hclear.
    assert (Hrec' : u = [] -> recover_orphaned_active_task reviews live (id_of t2) t2 n = None)
      by (intros Hu; by rewrite bool_decide_eq_true_2 in Hrec).
    pose proof (fun S' => finish_settles S' _ _ _ _ _ _ _ _ eq_refl eq_refl Hprep Hrec' Hmove Hclear) as Hfin.
    destruct (Hfin S) as [Hm _]. unfold passed. rewrite <-Hid2, <-Hst2. split_and!; try done; [by apply Hwritten|..].
    + destruct (Hfin S) as [_ Hset].
      destruct Hset as [_ [->|Hin]]; [|done|apply not_terminal; set_solver].
      apply (same_unmet WRITTEN); [by apply Hwritten|not_listed].
    + intros S' HS'. by apply (Hfin S').
Qed.

(** A task that the pass does not count as changed has not changed. *)
Lemma pass_unchanged S t id t' : pass_task reviews live S t = PassDone id t' false -> t' = t.
Proof.
  unfold pass_task. case_match; [done|]. case_match; [done|].
  unfold sync_blocked_by, drop_met_blockers, apply_next_status, clear_waiting_owner.
  repeat case_match; naive_solver.
Qed.

(** Whether the pass writes the task *)
Definition touched (S : list TaskMap) (t : TaskMap) : bool :=
  match pass_task reviews live S t with PassSkip | PassDone _ _ false => false | _ => true end.

(** The file of a task after the pass has come to it *)
Definition after_pass (S : list TaskMap) (t : TaskMap) (t' : TaskMap) : Prop :=
  match pass_task reviews live S t with
  | PassSkip | PassDone _ _ false => t' = t
  | PassRecovered _ r => t' = r
  | PassDone _ r true => exists now, t' = <["updated_at" := JString now]> r
  end.

(** What every write of a pass keeps: the fields that are not its business, and
    whether the task is finished; finished tasks are not written at all. *)
Record kept (t t' : TaskMap) : Prop := {
  kept_fields : same_but ("updated_at" :: WRITTEN) t t';
  kept_terminal : is_terminal_task_status (status_of t') = is_terminal_task_status (status_of t);
  kept_finished : is_terminal_task_status (status_of t) = true -> t' = t
}.

Lemma kept_refl t : kept t t.
Proof. by constructor. Qed.

Lemma passed_kept S t id t' now : passed S t id t' -> kept t t' /\ kept t (<["updated_at" := JString now]> t').
Proof.
  intros (-> & _ & Ht & Hs & Ht' & _).
  assert (Hst : status_of (<["updated_at" := JString now]> t') = status_of t') by (unfold status_of; fields).
  split; constructor; rewrite ?Hst, ?Ht, ?Ht'; try done.
  - eapply same_but_weaken; [exact Hs|set_solver].
  - eapply same_but_weaken; [eapply same_but_trans; [exact Hs|apply same_but_insert]|set_solver].
Qed.

Lemma after_pass_kept S t t' : after_pass S t t' -> kept t t'.
Proof.
  unfold after_pass. pose proof (pass_passed S t) as Hp. destruct (pass_task reviews live S t) as [|id r|id r []].
  - intros ->. apply kept_refl.
  - intros ->. by apply (passed_kept S t id r "").
  - intros [now ->]. by apply (passed_kept S t id r now).
  - intros ->. apply kept_refl.
Qed.

Lemma after_pass_settled S S' t t' : id_of t <> "" -> after_pass S t t' ->
  unmet_dependency_ids_for_task t' S' = unmet_dependency_ids_for_task t S ->
  is_terminal_task_status (status_of t) = true \/ settled S' t'.
Proof.
  intros Hid. unfold after_pass. pose proof (pass_passed S t) as Hp.
  destruct (pass_task reviews live S t) as [|id r|id r []] eqn:E.
  - intros _ _. left. tauto.
  - intros ->. right. by apply Hp.
  - intros [now ->] Hu. right. apply (same_but_settled _ r); [apply same_but_insert|]. apply Hp.
    rewrite <-Hu. symmetry. apply (same_unmet ["updated_at"]); [apply same_but_insert|not_listed].
  - intros ->. apply pass_unchanged in E as ->. right. by apply Hp.
Qed.
End settled.

(** ** The files *)

(** Every file is named after its task, and is not hidden. *)
Definition well_filed (m : gmap string TaskMap) : Prop :=
  forall k t, m !! k = Some t -> get_str "task_id" t = Some k /\ starts_with "." (k +:+ ".json") = false.

Section files.
Context `{Server} (reviews : gmap string ReviewDir) (live : option (list string)).

Lemma elem_of_read_all d t : well_filed (dk_tasks d) ->
  t ∈ read_all_tasks d <-> exists k, dk_tasks d !! k = Some t /\ id_of t = k /\ k <> "".
Proof.
  intros Hw. unfold read_all_tasks. rewrite list_elem_of_fmap. split.
  - intros ([k t'] & -> & Hin). apply list_elem_of_In, filter_In in Hin as [Hin Hh]. apply list_elem_of_In in Hin.
    apply elem_of_iter_map in Hin. exists k. destruct (Hw k t' Hin) as [Hid _]. split; [done|].
    unfold id_of. cbn [snd]. rewrite Hid. split; [done|]. by intros ->.
  - intros (k & Hk & _ & _). exists (k, t). split; [done|]. apply list_elem_of_In, filter_In. split.
    + apply list_elem_of_In. by apply elem_of_iter_map.
    + cbn [fst]. by rewrite (proj2 (Hw k t Hk)).
Qed.

Lemma read_all_ids d : well_filed (dk_tasks d) -> NoDup (id_of <$> read_all_tasks d).
Proof.
  intros Hw. unfold read_all_tasks. set (l := List.filter _ _).
  assert (Hl : l `sublist_of` iter_map (dk_tasks d)) by apply filter_sublist.
  assert (Hids : id_of <$> l.*2 = l.*1).
  { rewrite <-list_fmap_compose. apply list_fmap_ext. intros i [k t] Hi. cbn.
    apply list_elem_of_lookup_2 in Hi. assert (Hin : (k, t) ∈ iter_map (dk_tasks d)) 
      by (eapply elem_of_submseteq; [exact Hi|by apply sublist_submseteq]).
    apply elem_of_iter_map in Hin. unfold id_of. by rewrite (proj1 (Hw k t Hin)). }
  rewrite Hids. eapply sublist_NoDup; [exact (NoDup_iter_map_fst (dk_tasks d))|]. by apply fmap_sublist.
Qed.

Lemma find_read_all d id : well_filed (dk_tasks d) -> find_task (read_all_tasks d) id = dk_tasks d !! id.
Proof.
  intros Hw. unfold find_task. destruct (List.find _ _) as [t|] eqn:Hf.
  - apply find_some in Hf as [Hin Heq]. apply bool_decide_eq_true in Heq.
    apply list_elem_of_In, elem_of_read_all in Hin as (k & Hk & Hid & _); [|done].
    unfold id_of in Hid. rewrite Heq in Hid. cbn in Hid. by subst.
  - destruct (dk_tasks d !! id) as [t|] eqn:Hd; [|done]. exfalso.
    destruct (Hw id t Hd) as [Hid Hh]. assert (Hin : t ∈ read_all_tasks d).
    { apply elem_of_read_all; [done|]. exists id. unfold id_of. rewrite Hid. split_and!; try done. by intros ->. }
    apply list_elem_of_In in Hin. pose proof (find_none _ _ Hf t Hin) as Hn. cbn in Hn. by rewrite bool_decide_eq_true_2 in Hn.
Qed.

Lemma terminal_default t : is_terminal_task_status (default "" (get_str "status" t)) = is_terminal_task_status (status_of t).
Proof. unfold status_of. destruct (get_str "status" t); [done|]. cbn [default]. by vm_compute. Qed.

(** Files that are finished or not as before leave the same dependencies unmet. *)
Lemma unmet_kept d d' t t' :
  well_filed (dk_tasks d) -> well_filed (dk_tasks d') -> map_Forall2 (fun _ => kept) (dk_tasks d) (dk_tasks d') ->
  read_dependency_ids t' = read_dependency_ids t ->
  unmet_dependency_ids_for_task t' (read_all_tasks d') = unmet_dependency_ids_for_task t (read_all_tasks d).
Proof.
  intros Hw Hw' Hk Hdeps. unfold unmet_dependency_ids_for_task. rewrite Hdeps. apply filter_ext. intros id.
  rewrite !find_read_all by done. specialize (Hk id). inversion Hk as [a b Hab E1 E2|E1 E2]; [|done].
  rewrite !terminal_default. by rewrite (kept_terminal _ _ Hab).
Qed.

Lemma pass_id S t : match pass_task reviews live S t with PassSkip => True | PassRecovered id _ | PassDone id _ _ => id = id_of t end.
Proof. pose proof (pass_passed reviews live S t) as Hp. destruct (pass_task reviews live S t); [done|..]; by destruct Hp. Qed.

(** One task, when nobody else writes: its file is as it was, or as the pass
    wants it. *)
Lemma step_writes locked S t modified d :
  (forall n id m, others_write n id m = m) -> dk_tasks d !! id_of t = Some t ->
  exists t', dk_tasks (pass_step reviews live locked S t modified d).1 = <[id_of t := t']> (dk_tasks d)
    /\ (t' = t \/ after_pass reviews live S t t').
Proof.
  intros Hno Hd. pose proof (pass_id S t) as Hid. unfold pass_step, after_pass.
  destruct (pass_task reviews live S t) as [|id r|id r []]; [|subst id..].
  - exists t. split; [cbn; by rewrite insert_id|by left].
  - unfold sm_bind, write_task. destruct (write_ok (dk_ops d)); cbn; [by exists r; split; [done|right]|].
    exists t. split; [by rewrite insert_id|by left].
  - unfold sm_bind, read_clock, acquire_task_lock, write_task, sm_ret, sm_lift. cbn.
    destruct (bool_decide _); cbn; [|destruct (lock_error _ _); cbn; rewrite Hno].
    all: try destruct (write_ok _); cbn; rewrite ?Hno.
    all: first [exists t; split; [by rewrite insert_id|by left]|eexists; split; [done|right; eauto]].
  - exists t. split; [cbn; by rewrite insert_id|by left].
Qed.

Lemma step_undisturbed `{!Undisturbed} locked S t modified d :
  dk_tasks d !! id_of t = Some t ->
  exists n t', pass_step reviews live locked S t modified d
    = (mkDisk (<[id_of t := t']> (dk_tasks d)) n, Ok (modified ++ if touched reviews live S t then [id_of t] else []))
    /\ after_pass reviews live S t t'.
Proof.
  intros Hd. pose proof (pass_id S t) as Hid. unfold pass_step, after_pass, touched.
  destruct (pass_task reviews live S t) as [|id r|id r []]; [|subst id..].
  - exists (dk_ops d), t. rewrite insert_id, app_nil_r by done. by destruct d.
  - unfold sm_bind, write_task. rewrite writes_succeed. cbn. eauto.
  - unfold sm_bind, read_clock, acquire_task_lock, write_task, sm_ret, sm_lift. cbn.
    destruct (bool_decide _); cbn; rewrite ?nobody_writes, ?locks_succeed; cbn; rewrite writes_succeed; cbn; eauto.
  - exists (dk_ops d), t. rewrite insert_id, app_nil_r by done. by destruct d.
Qed.

(** The tasks that a loop still has before it are in their files. *)
Definition in_files (tasks : list TaskMap) (m : gmap string TaskMap) : Prop :=
  NoDup (id_of <$> tasks) /\ forall t, t ∈ tasks -> m !! id_of t = Some t.

Lemma in_files_next t tasks m t' : in_files (t :: tasks) m -> in_files tasks (<[id_of t := t']> m).
Proof.
  intros [Hnd Hin]. cbn in Hnd. apply NoDup_cons in Hnd as [Hni Hnd]. split; [done|]. intros t2 Ht2.
  rewrite lookup_insert_ne; [apply Hin; by right|]. intros Heq. apply Hni. rewrite Heq. by apply list_elem_of_fmap_2.
Qed.

Lemma in_files_head t tasks m : in_files (t :: tasks) m -> m !! id_of t = Some t.
Proof. intros [_ Hin]. apply Hin. by left. Qed.

Lemma kept_map_refl (m : gmap string TaskMap) : map_Forall2 (fun _ => kept) m m.
Proof. intros k. destruct (m !! k); constructor. apply kept_refl. Qed.

Lemma kept_trans t1 t2 t3 : kept t1 t2 -> kept t2 t3 -> kept t1 t3.
Proof.
  intros [F1 T1 D1] [F2 T2 D2]. constructor; [|congruence|].
  - eapply same_but_weaken; [by eapply same_but_trans|set_solver].
  - intros Ht. rewrite D2, D1; [done|done|]. by rewrite T1.
Qed.

Lemma kept_map_trans (m1 m2 m3 : gmap string TaskMap) :
  map_Forall2 (fun _ => kept) m1 m2 -> map_Forall2 (fun _ => kept) m2 m3 -> map_Forall2 (fun _ => kept) m1 m3.
Proof.
  intros H12 H23 k. specialize (H12 k). specialize (H23 k).
  inversion H12 as [a b Hab E1 E2|E1 E2]; rewrite <-E2 in H23; inversion H23; subst; constructor. by eapply kept_trans.
Qed.

(** Whatever fails, every file keeps what a pass must keep. *)
Lemma loop_keeps locked S tasks modified d :
  (forall n id m, others_write n id m = m) -> in_files tasks (dk_tasks d) ->
  map_Forall2 (fun _ => kept) (dk_tasks d) (dk_tasks (pass_loop reviews live locked S tasks modified d).1).
Proof.
  intros Hno. revert modified d. induction tasks as [|t tasks IH]; intros modified d Hin; cbn [pass_loop];
    [apply kept_map_refl|].
  destruct (step_writes locked S t modified d Hno (in_files_head _ _ _ Hin)) as (t' & Hd1 & Ht').
  assert (Hk : kept t t') by (destruct Ht' as [->|Ht']; [apply kept_refl|by eapply after_pass_kept]).
  unfold sm_bind. destruct (pass_step reviews live locked S t modified d) as [d1 r] eqn:Hstep. cbn in Hd1.
  assert (H1 : map_Forall2 (fun _ => kept) (dk_tasks d) (dk_tasks d1)).
  { intros k. rewrite Hd1. destruct (decide (k = id_of t)) as [->|Hne].
    - rewrite lookup_insert_eq, (in_files_head _ _ _ Hin). by constructor.
    - rewrite lookup_insert_ne by done. apply kept_map_refl. }
  destruct r as [modified'|e]; [|done]. specialize (IH modified' d1). rewrite Hd1 in IH.
  specialize (IH (in_files_next _ _ _ t' Hin)). rewrite <-Hd1 in IH.
  by eapply kept_map_trans.
Qed.

(** The files after a loop that nothing disturbs *)
Lemma loop_undisturbed `{!Undisturbed} locked S tasks : forall modified d, in_files tasks (dk_tasks d) ->
  exists d', pass_loop reviews live locked S tasks modified d
      = (d', Ok (modified ++ (id_of <$> List.filter (touched reviews live S) tasks)))
    /\ (forall k, k ∉ id_of <$> tasks -> dk_tasks d' !! k = dk_tasks d !! k)
    /\ (forall t, t ∈ tasks -> exists t', dk_tasks d' !! id_of t = Some t' /\ after_pass reviews live S t t').
Proof.
  induction tasks as [|t tasks IH]; intros modified d Hin; cbn [pass_loop].
  - exists d. cbn. rewrite app_nil_r. split_and!; [done|done|]. intros t Ht. by apply not_elem_of_nil in Ht.
  - destruct (step_undisturbed locked S t modified d (in_files_head _ _ _ Hin)) as (n & t' & Hstep & Ht').
    pose proof (proj1 Hin) as Hnd. cbn in Hnd. apply NoDup_cons in Hnd as [Hni _].
    unfold sm_bind. rewrite Hstep.
    destruct (IH (modified ++ if touched reviews live S t then [id_of t] else []) (mkDisk (<[id_of t := t']> (dk_tasks d)) n)
                (in_files_next _ _ _ t' Hin)) as (d' & Hrun & Hout & Hset).
    exists d'. rewrite Hrun. split_and!.
    + f_equal. f_equal. cbn. destruct (touched reviews live S t); cbn; by rewrite <-app_assoc.
    + intros k Hk. cbn in Hk. apply not_elem_of_cons in Hk as [Hne Hk]. rewrite Hout by done. cbn.
      by rewrite lookup_insert_ne.
    + intros t2 [->|Ht2]%elem_of_cons; [|by apply Hset]. exists t'. split; [|done].
      rewrite Hout by done. cbn. by rewrite lookup_insert_eq.
Qed.

Lemma loop_idle locked S tasks modified d :
  (forall t, t ∈ tasks -> touched reviews live S t = false) ->
  pass_loop reviews live locked S tasks modified d = (d, Ok modified).
Proof.
  induction tasks as [|t tasks IH]; intros Ht; [done|]. cbn [pass_loop]. unfold sm_bind, pass_step.
  specialize (Ht t ltac:(by left)) as Hu. unfold touched in Hu.
  destruct (pass_task reviews live S t) as [|?|? ? []]; try done; cbn; apply IH; intros t2 Ht2; apply Ht; by right.
Qed.

Lemma read_all_in_files d : well_filed (dk_tasks d) -> in_files (read_all_tasks d) (dk_tasks d).
Proof.
  intros Hw. split; [by apply read_all_ids|]. intros t (k & Hk & <- & _)%elem_of_read_all; done.
Qed.

Lemma kept_well_filed (m m' : gmap string TaskMap) : map_Forall2 (fun _ => kept) m m' -> well_filed m -> well_filed m'.
Proof.
  intros Hk Hw k t' Ht'. specialize (Hk k). rewrite Ht' in Hk. inversion Hk as [t ? Hkept Ht|]; subst.
  symmetry in Ht. destruct (Hw k t Ht) as [Hid Hh]. split; [|done].
  rewrite (same_field _ t t' _ (kept_fields _ _ Hkept)); [done|not_listed].
Qed.
End files.

(** ** What a pass does *)

(** C10: A pass that nothing disturbs returns, and says which tasks it has written;
    every file is then what the rules make of the task, finished tasks as they
    were; every other task is settled: its list of unmet dependencies is right,
    it is pending only with all of them met, blocked with all met only for
    another reason, active only under an assignee who is alive or under review,
    and a task that waits has no owner.  A second pass finds nothing to do. *)
Theorem reconcile_settles `{Server} `{!Undisturbed} (reviews : gmap string ReviewDir) (live : option (list string))
    (locked : option string) (d : Disk) :
  well_filed (dk_tasks d) ->
  exists d', reconcile_dependency_states_inner reviews live locked d
      = (d', Ok (id_of <$> List.filter (touched reviews live (read_all_tasks d)) (read_all_tasks d)))
    /\ map_Forall2 (fun _ => after_pass reviews live (read_all_tasks d)) (dk_tasks d) (dk_tasks d')
    /\ (forall k t, dk_tasks d' !! k = Some t ->
          is_terminal_task_status (status_of t) = true \/ settled reviews live (read_all_tasks d') t)
    /\ (forall d2, dk_tasks d2 = dk_tasks d' -> reconcile_dependency_states_inner reviews live locked d2 = (d2, Ok [])).
Proof.
  intros Hw. pose proof (read_all_in_files d Hw) as Hin.
  destruct (loop_undisturbed reviews live locked (read_all_tasks d) _ [] d Hin) as (d' & Hrun & Hout & Hset).
  pose proof (loop_keeps reviews live locked (read_all_tasks d) _ [] d nobody_writes Hin) as Hkept.
  rewrite Hrun in Hkept. cbn in Hkept.
  assert (Hw' : well_filed (dk_tasks d')) by (by eapply kept_well_filed).
  assert (Hafter : map_Forall2 (fun _ => after_pass reviews live (read_all_tasks d)) (dk_tasks d) (dk_tasks d')).
  { intros k. destruct (dk_tasks d !! k) as [t|] eqn:Hk.
    - destruct (Hw k t Hk) as [Hid Hh]. assert (Hidk : id_of t = k) by (unfold id_of; by rewrite Hid).
      destruct (Hset t) as (t' & Ht' & Ha).
      { apply elem_of_read_all; [done|]. exists k. split_and!; try done. by intros ->. }
      rewrite Hidk in Ht'. rewrite Ht'. by constructor.
    - specialize (Hkept k). rewrite Hk in Hkept. inversion Hkept. constructor. }
  assert (Hsettled : forall k t, dk_tasks d' !! k = Some t ->
            is_terminal_task_status (status_of t) = true \/ settled reviews live (read_all_tasks d') t).
  { intros k t' Ht'. pose proof (Hafter k) as Ha. rewrite Ht' in Ha. inversion Ha as [t ? Hat Ht|]; subst.
    symmetry in Ht. pose proof (after_pass_kept _ _ _ _ _ Hat) as Hk. destruct (Hw k t Ht) as [Hid Hh].
    assert (Hne : id_of t <> "") by (unfold id_of; rewrite Hid; cbn; by intros ->).
    assert (Hu : unmet_dependency_ids_for_task t' (read_all_tasks d') = unmet_dependency_ids_for_task t (read_all_tasks d)).
    { apply unmet_kept; [done..|]. apply (same_list _ _ _ _ (kept_fields _ _ Hk)). not_listed. }
    destruct (after_pass_settled _ _ _ _ _ _ Hne Hat Hu) as [Hterm|]; [left|by right].
    by rewrite (kept_terminal _ _ Hk). }
  exists d'. split_and!; [done|done|done|]. intros d2 Hd2. unfold reconcile_dependency_states_inner.
  assert (Hr : read_all_tasks d2 = read_all_tasks d') by (unfold read_all_tasks; by rewrite Hd2). rewrite Hr.
  apply loop_idle. intros t (k & Hk & Hid & Hne)%elem_of_read_all; [|done]. unfold touched.
  destruct (Hsettled k t Hk) as [Hterm|Hs].
  - unfold pass_task. fold (id_of t) (status_of t). rewrite Hid, Hterm. by destruct (String.eqb k "").
  - destruct (is_terminal_task_status (status_of t)) eqn:Hterm.
    + unfold pass_task. fold (id_of t) (status_of t). rewrite Hid, Hterm. by destruct (String.eqb k "").
    + by rewrite (settled_stays _ _ _ _ Hs) by (rewrite ?Hid; done).
Qed.

(** A file store that works, with one session *)
Definition quiet_server : Server := {|
  dir_order := canonical_order string; write_ok := fun _ => true; now_text := fun _ => "2026-01-01T00:00:00Z";
  others_write := fun _ _ m => m; lock_error := fun _ _ => None |}.

Definition task_file (id status : string) (more : list (string * JsonValue)) : string * TaskMap :=
  (id, list_to_map ([("task_id", JString id); ("status", JString status)] ++ more)).

(** [A] is finished; [B] waits for [A]; [C] waits for [B]; the worker of [D] is gone. *)
Definition plan_files : gmap string TaskMap := list_to_map
  [task_file "A" "merged" [];
   task_file "B" "Blocked" [("dependencies", JArray [JString "A"]); ("blocked_by", JArray [JString "A"])];
   task_file "C" "pending" [("dependencies", JArray [JString "B"]); ("assignee", JString "w1")];
   task_file "D" "in_progress" [("assignee", JString "w9")]].

Definition well_filed_b (m : gmap string TaskMap) : bool :=
  forallb (fun kt => bool_decide (get_str "task_id" kt.2 = Some kt.1) && negb (starts_with "." (kt.1 +:+ ".json")))
    (map_to_list m).

Lemma well_filed_b_spec m : well_filed_b m = true -> well_filed m.
Proof.
  unfold well_filed_b. rewrite forallb_forall. intros Hall k t Hk.
  specialize (Hall (k, t) ltac:(by apply list_elem_of_In, elem_of_map_to_list)).
  apply andb_true_iff in Hall as [Hid%bool_decide_eq_true Hh%negb_true_iff]. done.
Qed.

#[local] Instance quiet_undisturbed : @Undisturbed quiet_server.
Proof. by constructor. Qed.

Lemma reconcile_settles_witness :
  (status_of <$> dk_tasks (@reconcile_dependency_states_inner quiet_server ∅ (Some ["w1"]) None (mkDisk plan_files 0)).1)
    = list_to_map [("A", "merged"); ("B", "pending"); ("C", "blocked"); ("D", "pending")]
  /\ exists d', @reconcile_dependency_states_inner quiet_server ∅ (Some ["w1"]) None (mkDisk plan_files 0)
         = (d', Ok (id_of <$> List.filter (touched ∅ (Some ["w1"]) (@read_all_tasks quiet_server (mkDisk plan_files 0)))
                               (@read_all_tasks quiet_server (mkDisk plan_files 0))))
     /\ @reconcile_dependency_states_inner quiet_server ∅ (Some ["w1"]) None d' = (d', Ok []).
Proof.
  split; [by vm_compute|].
  destruct (@reconcile_settles quiet_server quiet_undisturbed ∅ (Some ["w1"]) None (mkDisk plan_files 0))
    as (d' & Hrun & _ & _ & Hidle); [apply well_filed_b_spec; by vm_compute|].
  exists d'. split; [exact Hrun|by apply Hidle].
Defined.

(** Whatever writes and locks fail: if nobody else writes, a pass writes only
    fields of its own, neither finishes a task nor reopens one, and leaves
    finished tasks alone. *)
Theorem reconcile_keeps `{Server} (reviews : gmap string ReviewDir) (live : option (list string))
    (locked : option string) (d : Disk) :
  (forall n id m, others_write n id m = m) -> well_filed (dk_tasks d) ->
  map_Forall2 (fun _ => kept) (dk_tasks d) (dk_tasks (reconcile_dependency_states_inner reviews live locked d).1).
Proof. intros Hno Hw. apply loop_keeps; [done|]. by apply read_all_in_files. Qed.

(** ** What a pass overwrites *)

(** The session that holds the lock of [C] closes the task and lets go. *)
Definition closing_server : Server := {|
  dir_order := canonical_order string; write_ok := fun _ => true; now_text := fun _ => "2026-01-01T00:00:00Z";
  others_write := fun _ id m => if String.eqb id "C" then alter (fun t => <["status" := JString "closed"]> t) "C" m else m;
  lock_error := fun _ _ => None |}.

(** The pass reads the tasks before it waits for their locks and writes what it
    has made of them then: a task that another session closes while the pass
    waits for its lock is blocked again afterwards. *)
Theorem reconcile_reopens_closed_task :
  status_of <$> (others_write (Server := closing_server) 0 "C" plan_files !! "C") = Some "closed"
  /\ status_of <$> (dk_tasks (@reconcile_dependency_states_inner closing_server ∅ (Some ["w1"]) None (mkDisk plan_files 0)).1
       !! "C") = Some "blocked".
Proof. by split; vm_compute. Qed.

(** ** Followups of a finished task *)

Definition refers_to (id : string) (followup : JsonValue) : Prop :=
  json_get "followup_task_id" followup ≫= json_as_str = Some id.

Definition followup_settled (followup : JsonValue) : Prop := followup_status followup ∈ ["done"; "waived"].

Lemma field_insert_ne k k' v fields : k <> k' -> field_of k (insert_field k' v fields) = field_of k fields.
Proof.
  intros Hne. assert (Hne' : String.eqb k' k = false) by (apply String.eqb_neq; congruence).
  induction fields as [|[k2 v2] fields IH]; cbn; [by rewrite Hne'|].
  destruct (String.eqb_spec k2 k') as [->|Hne2]; cbn; [by rewrite Hne'|].
  destruct (String.eqb k2 k); [done|exact IH].
Qed.

(** What resolving makes of one followup *)
Lemma resolve_followup_spec id now f :
  (resolve_followup id now f).2 = false /\ (resolve_followup id now f).1 = f
    /\ (refers_to id f -> followup_settled f)
  \/ (resolve_followup id now f).2 = true /\ refers_to id f /\ ~ followup_settled f
    /\ followup_status (resolve_followup id now f).1 = "done"
    /\ forall k, k ∉ ["status"; "updated_at"; "resolved_at"] -> json_get k (resolve_followup id now f).1 = json_get k f.
Proof.
  unfold resolve_followup, refers_to, followup_settled. case_bool_decide as Hr; cbn [negb]; [|by left].
  destruct (is_one_of ["done"; "waived"] (followup_status f)) eqn:Hs.
  { left. by apply is_one_of_spec in Hs. }
  assert (Hs' : followup_status f ∉ ["done"; "waived"]) by (intros Hin; apply is_one_of_spec in Hin; congruence).
  destruct f as [| | | | |fields]; try done.
  right. split_and!; try done.
  - unfold followup_status, json_get. cbn [fst]. rewrite field_insert_ne, field_insert_ne, field_of_insert by done. done.
  - intros k Hk. rewrite !not_elem_of_cons in Hk. destruct Hk as (H1 & H2 & H3 & _). cbn.
    by rewrite !field_insert_ne.
Qed.

(** Resolving, one followup at a time *)
Definition resolved_as (id : string) (f f' : JsonValue) : Prop :=
  (refers_to id f -> followup_settled f') /\ (~ refers_to id f \/ followup_settled f -> f' = f).

Lemma resolve_followup_resolved id now f : resolved_as id f (resolve_followup id now f).1.
Proof.
  destruct (resolve_followup_spec id now f) as [(_ & Heq & Hs)|(_ & Hr & Hs & Hd & _)]; split.
  - rewrite Heq. done.
  - done.
  - intros _. unfold followup_settled. rewrite Hd. set_solver.
  - intros [?|?]; done.
Qed.

(** When a promoted task is finished, the followups of its source that were
    promoted to it are settled, all others stay as they are, and the source is
    written only if one of them was not settled before. *)
Theorem promoted_followups_resolved `{Server} `{!Undisturbed} (terminal_id source_id : string) (terminal source : TaskMap)
    (d : Disk) :
  terminal !! "review_followup_task" = Some (JBool true) ->
  get_str "source_task_id" terminal = Some source_id -> trim source_id <> "" ->
  dk_tasks d !! source_id = Some source ->
  exists d' changed source', resolve_promoted_followups_for_terminal_task terminal_id terminal d = (d', Ok changed)
    /\ dk_tasks d' = <[source_id := source']> (dk_tasks d)
    /\ same_but ["review_followups"; "updated_at"] source source'
    /\ Forall2 (resolved_as terminal_id) (read_followups_field source) (read_followups_field source')
    /\ (changed = false -> source' = source)
    /\ (changed = true <-> exists f, f ∈ read_followups_field source /\ refers_to terminal_id f /\ ~ followup_settled f).
Proof.
  intros Hflag Hsrc Hne Hd. unfold resolve_promoted_followups_for_terminal_task.
  rewrite Hflag, Hsrc. cbn [mbind option_bind json_as_bool default from_option negb].
  apply String.eqb_neq in Hne. rewrite Hne. unfold sm_bind, acquire_task_lock, read_task, read_clock, write_task.
  cbn. rewrite locks_succeed, nobody_writes, Hd. set (now := now_text _).
  set (res := resolve_followup terminal_id now <$> read_followups_field source).
  assert (Hres : Forall2 (resolved_as terminal_id) (read_followups_field source) (fst <$> res)).
  { unfold res. rewrite <-list_fmap_compose, Forall2_fmap_r. apply Forall_Forall2_diag, Forall_forall.
    intros f _. apply resolve_followup_resolved. }
  assert (Hiff : existsb snd res = true <-> exists f, f ∈ read_followups_field source /\ refers_to terminal_id f
                                            /\ ~ followup_settled f).
  { rewrite existsb_exists. setoid_rewrite <-list_elem_of_In. unfold res. split.
    - intros (x & (f & -> & Hf)%list_elem_of_fmap & Hx).
      destruct (resolve_followup_spec terminal_id now f) as [(Hf2 & _)|(_ & Hr & Hs & _)]; [congruence|eauto].
    - intros (f & Hf & Hr & Hs). exists (resolve_followup terminal_id now f). split; [by apply list_elem_of_fmap_2|].
      destruct (resolve_followup_spec terminal_id now f) as [(_ & _ & Hs')|(Ht & _)]; [by apply Hs' in Hr|done]. }
  destruct (existsb snd res) eqn:Hex; cbn [negb]; [rewrite writes_succeed; cbn|].
  - eexists _, true, _. split; [done|]. split; [done|]. split; [|split; [|split; [done|exact Hiff]]].
    + unfold write_followups_field. destruct (res.*1); same_fields.
    + enough (Hread : forall l v, read_followups_field (<["updated_at" := v]> (write_followups_field source l)) = l)
        by (by rewrite Hread).
      intros l v. unfold read_followups_field, write_followups_field. destruct l; fields.
  - exists (mkDisk (dk_tasks d) (S (S (dk_ops d)))), false, source.
    split; [done|]. split; [by rewrite insert_id|]. split; [done|]. split; [|split; [done|exact Hiff]].
    + apply Forall_Forall2_diag, Forall_forall. intros f Hf. split; [|done]. intros Hr.
      destruct (resolve_followup_spec terminal_id now f) as [(_ & _ & Hs)|(_ & _ & Hs & _)]; [auto|].
      exfalso. assert (false = true) by (apply Hiff; eauto). done.
Qed.
